(* ===== verification/_CoqProject ===== *)
-Q . S2P
Prelude.v
ConsensusParams.v
Emission.v
Levy.v
Keccak.v
Shake.v
Fips202.v
MlDsaReduce.v
MlDsaNtt.v
MlDsaPoly.v
MlDsaSample.v
MlDsaVec.v
MlDsaPack.v
MlDsaSign.v
MlDsaKat.v
Sha2.v
ArithUint256.v
BlockIndex.v
ActiveChain.v
Pow.v
Headers.v
Serialize.v
Script.v
Transaction.v
Coins.v
TxCheck.v
Merkle.v
Block.v
CuckooCache.v
CheckQueue.v
Ledger.v
LedgerCoins.v
Connect.v
ConnectTotal.v
Chainstate.v
MetalDag.v
MetalEpoch.v
MetalCache.v
SlhHash.v
SlhTree.v
SlhWots.v
SlhFors.v
SlhSign.v
BestChain.v
BestActivate.v
BlockArrival.v
NodeDemo.v
ProcessBlock.v
