(* ===== verification/Prelude.v ===== *)
(** * xCoin: a verification development

    xCoin is a proof-of-work chain built on the Bitcoin Core code base.  Its
    own consensus logic is an emission table with a closed supply, a
    settlement levy on transfers, an ASERT difficulty rule, a memory-hard
    proof of work, and post-quantum signatures (ML-DSA-65) vendored as C.
    This library models that logic and the parts of the node it stands on,
    as functions on the C++ and C data, and proves what makes them correct.

    ** The parts and how they interact

    - The consensus parameters ([src/src/consensus/params.h],
      [src/src/kernel/chainparams.cpp]) hold the emission table, the levy
      schedule and the difficulty parameters that every rule reads.
    - The signature scheme ([src/src/pqcrypto/ml-dsa-65]) and the hash
      functions below it ([fips202.c], [sha2.c]) are pure C over byte arrays.
    - 256-bit arithmetic ([src/src/arith_uint256.{h,cpp}]) carries targets and
      chain work; the block index ([chain.{h,cpp}], [node/blockstorage.cpp]) is
      a tree of headers with skip pointers and accumulated work; the active
      chain ([CChain]) is one path in it; [pow.cpp] reads the path to compute
      the next target; [validation.cpp] checks a header against all of these
      and adds it to the index.
    - The coins view ([coins.{h,cpp}]) caches unspent outputs over a database;
      transactions are checked against it ([consensus/tx_check.cpp],
      [consensus/tx_verify.cpp]), and [validation.cpp] connects and
      disconnects blocks by updating it.

    ** Files

    - [Prelude]: machine integers, their conversions and range lemmas, list
      and byte-string lemmas, and the tactic [zlia] the other files share.
    - [ConsensusParams]: [consensus/params.h] and the parameter sets of
      [kernel/chainparams.cpp]: the emission table and its well-formedness
      check, the levy schedule, the proof-of-work parameters.
    - [Emission]: [GetBlockSubsidy] of [validation.cpp] and the supply it
      adds up to.
    - [Levy]: [consensus/levy.h]: the settlement levy computed from outputs
      and from inputs, and the schedule check.
    - Keccak, Shake, Fips202: [fips202.c]: the unrolled Keccak-f[1600]
      against FIPS 202 step mappings, the sponge, the incremental and the
      one-shot SHAKE and SHA-3 functions.
    - MlDsaReduce .. MlDsaSign: [ml-dsa-65/*.c], bottom up: modular
      reduction, the number-theoretic transform, polynomial arithmetic and
      rounding, rejection sampling, vectors, packing, key generation,
      signing and verification; MlDsaKat evaluates key generation on a NIST
      vector.
    - [Sha2]: [sha2.c]: SHA-224/256/384/512 with their incremental
      interface.
    - [ArithUint256]: [arith_uint256.{h,cpp}]: little-endian 32-bit limbs,
      with the relation [represents] to the integer they denote.
    - [BlockIndex]: [chain.{h,cpp}] and [BlockManager::AddToBlockIndex]: the
      block tree as a map from hashes to [CBlockIndex], its invariant
      [index_ok], ancestors, work and median time.
    - [ActiveChain]: [CChain]: the vector of the active path, [SetTip],
      [FindFork], [FindEarliestAtLeast], locators.
    - [Pow]: [pow.cpp] complete: ASERT and the legacy retarget, the
      transition check, the proof-of-work check.
    - [Headers]: [CheckBlockHeader], [ContextualCheckBlockHeader],
      [AcceptBlockHeader], [ProcessNewBlockHeaders] of [validation.cpp], as
      steps on the block manager.
    - [Serialize]: [serialize.h] and the amounts of [compressor.cpp]: fixed-
      width integers, compact sizes, variable-length integers, byte strings,
      vectors, as values of a [Formatter] record; the classes [FormatterOk]
      and [FormatterCanonical] state what a reader promises of its writer,
      with instances for each.
    - [Script]: [script/script.{h,cpp}], [script/solver.cpp] and the
      signature-operation counts of [script/interpreter.cpp]: the structure
      of scripts, not their execution.
    - [Transaction]: [primitives/transaction.{h,cpp}]: the data and its
      serialization with and without witness.
    - [Coins]: [coins.{h,cpp}] and [txdb.cpp]: the class [CCoinsView] is the
      interface, the database and the cache are its instances, and a cache
      over any lawful view is a lawful view.
    - [TxCheck]: [consensus/tx_check.cpp] and [consensus/tx_verify.cpp].
    - [Merkle]: [consensus/merkle.cpp]: roots and paths, over any node hash.
    - [Block]: [CBlock], the witness commitment, [CheckBlock],
      [ContextualCheckBlock] and [IsBlockMutated] of [validation.cpp], with
      the memory-only flags of a block.
    - [CuckooCache]: [cuckoocache.h]; the class [ElementCache] with its laws
      is what the script checks use of it, and the cuckoo cache is an
      instance.
    - [CheckQueue]: [checkqueue.h]: the threads of the queue as a step
      relation; [completes] is what it promises to [ConnectBlock].
    - [Ledger]: [UpdateCoins], [CheckInputScripts], [DisconnectBlock] and
      [ConnectBlock] of [validation.cpp], the undo data and the script
      flags.
    - [LedgerCoins]: the ledger as a finite map of coins, what a transaction
      does to it, its value, and that the functions on a coins view do this
      to the map the view stands for.
    - [Connect]: what [ConnectBlock] establishes ([block_connects]), the
      value of the ledger, and that [DisconnectBlock] is its inverse.
    - [ConnectTotal]: that no assertion of [ConnectBlock] fails, and its
      specification.
    - [Chainstate]: [ConnectTip], [DisconnectTip] and the handling of
      invalid blocks, as steps of the chain state; the invariant
      [chainstate_ok] ties the coins, the active chain and the undo data
      together.
    - BestChain, BestActivate, BlockArrival, NodeDemo, ProcessBlock: the
      candidates for the tip: [FindMostWorkChain], [ActivateBestChainStep]
      and [ActivateBestChain] of [validation.cpp] with the proof that
      activation ends at the best chain, [ReceivedBlockTransactions], a
      small node on which the theorems are evaluated, and [AcceptBlock] and
      [ProcessNewBlock], which put the parts together.
    - MetalDag, MetalEpoch, MetalCache: [metaldag/metaldag.{h,cpp}], the
      reference verifier [metaldag/metaldag-ref.cpp] and
      [MayVerifyHeadersNow] of [net_processing.cpp]: the hash, the sizes of
      an epoch, and the resident caches with the gate that rations their
      construction.
    - SlhHash, SlhTree, SlhWots, SlhFors, SlhSign: [pqcrypto/slh-dsa-
      sha2-128s/*.c], bottom up: the hash functions on addresses against
      FIPS 205, hash trees with their authentication paths, one-time and
      few-time signatures, the hypertree with key generation, signing and
      verification.

    ** Modelling conventions

    A C integer is a [Z]; the width of a computation is written with [u8] ..
    [u64], [i32], [i64], so overflow is visible and its absence is a theorem.
    Bytes and words are lists of [Z] with range predicates.  A byte array is a
    list and a write into it is a list update; an out-of-range read or a failed
    [assert] is [None] where the code can meet one.  Pointers into a map of
    objects ([CBlockIndex*]) are keys of that map, so that aliasing and the
    order of updates are explicit.  A verdict with its reject reason is a value
    of an inductive type.  Code that is not in the repository, and hash
    functions where a rule is parametric in them, are section variables with
    the facts a theorem needs as hypotheses of that theorem.

    ** Fuel and bounds

    Loops that run a constant number of times are folds over [seq].  The
    rejection loops of ML-DSA ([poly_uniform], [poly_uniform_eta],
    [crypto_sign_signature_ctx_internal]) read an unbounded stream or restart,
    so they take fuel; the theorems about them are stated for a run that
    produced a result, and the known-answer evaluation in [MlDsaKat] shows
    concrete runs that do.  Walks in the block index take the height of the
    start as fuel, which [GetAncestor_correct] shows is enough under the
    index invariant.  The searches of [MetalEpoch] run
    for up to a binary number of turns, more than their measure
    ([iter_until_total]).  [SetCompact]/[GetCompact], the long division and the
    ASERT shifts run at the widths of the source.

    ** What the theorems show

    - Money: the subsidy of every height is the charter table, the table is
      well formed, and the total of all subsidies is the cap and is reached
      exactly at the end height; the levy is the exact rounded-up rate under
      its cap, inverse to its input form, and the schedule check admits only
      schedules that tighten.
    - Hashing: the unrolled permutations and compression functions equal the
      standards, and absorbing or squeezing in pieces equals doing it at
      once.
    - Signatures: a signature that [crypto_sign] produces verifies, the
      packed encodings are canonical and round trip, and the arithmetic
      below is exact (Montgomery reduction, the transform as polynomial
      evaluation, products in the ring, samplers as filters of their byte
      stream).
    - Hash-based signatures: for every seed and message SLH-DSA signing
      returns a signature that verifies, with no fuel left open; the hash
      functions and the indices are those of FIPS 205, and no one-time
      signature covers a second message.
    - Chain: the 256-bit operations refine integers modulo 2^256; the block
      index invariant holds in every reachable state, and under it skip-
      pointer walks find the ancestor, the common ancestor is the greatest,
      the active chain is the path to its tip; ASERT computes the closed
      formula with no overflow, is monotone and passes the transition check;
      every accepted header satisfies every rule against its parent.
    - Coins: every sequence of cache operations that the specification
      allows answers like a plain map of unspent coins whatever stack of
      views is below, and a crash during a flush leaves a store from which
      the flush can be finished.
    - Transactions: the serialization is one-to-one; the context-free
      checks, the checks of the inputs and relative lock times accept
      exactly what their specification says.
    - Blocks: the Merkle root binds the list of hashes up to an explicit
      collision, and the path computed in constant space leads to it; the
      context-free checks of a block accept exactly what they should, and a
      coinbase commits to its height.
    - Connecting: [ConnectBlock] answers on every well-formed index, and an
      accepted block is one whose transactions apply to the ledger under
      every rule, their scripts run unless the block is buried under a
      declared one; the check queue finds a failing script under every
      interleaving and always returns; disconnecting gives back the ledger
      from before.
    - Chain state: in every state that connecting, rejecting and
      disconnecting blocks and adding headers reach, the unspent outputs are
      worth at most what was issued, the tip can be disconnected, and the
      ledger is a function of the tip.
    - Best chain: whatever arrives in whatever order, every usable block
      that is not worse than the tip is a candidate for it; activating the
      best chain ends after a bounded number of turns, through failing
      blocks and reorganizations, and no usable block is then better than
      the tip; [ProcessNewBlock] keeps this from block to block, for blocks
      with any header, with repeated transactions and with exchanged
      transactions or witnesses.
    - MetalDAG: the hash is over standard Keccak, stays inside its cache and
      equals hashing against the whole DAG; the sizes of an epoch are the
      largest with prime counts; the resident caches are those of the six
      keys used last and make no difference to the hash, which is thus the
      function that the header and block theorems are about; the network
      gate rations cold builds, and refuses every message with two cold
      headers.

    ** Not modelled

    - The script interpreter, the mempool, the wallet, networking, RPC, GUI
      and storage: inherited code, mostly I/O and threads.
    - secp256k1, leveldb, mlkem-native and the other vendored libraries:
      third-party code.
*)

From Stdlib Require Export ZArith Lia Bool.
From stdpp Require Export base numbers list.

Local Open Scope Z_scope.

(** ** Machine integers

    A C integer of width [w] is a [Z] in its range.  [u8] .. [u64] are the
    conversions to the unsigned types (reduction modulo [2^w], written as a
    mask so that they evaluate fast); [i32] and [i64] are the two's-complement
    conversions.  A C expression whose
    arithmetic is done at some width is translated with the conversion
    written around it; a theorem that the conversion does nothing on the
    inputs the code can meet is the statement that nothing overflows. *)

Definition u8 (x : Z) : Z := Z.land x 255.
Definition u16 (x : Z) : Z := Z.land x 65535.
Definition u32 (x : Z) : Z := Z.land x 4294967295.
Definition u64 (x : Z) : Z := Z.land x 18446744073709551615.
Definition i32 (x : Z) : Z := Z.land (x + 2147483648) 4294967295 - 2147483648.
Definition i64 (x : Z) : Z :=
  Z.land (x + 9223372036854775808) 18446744073709551615 - 9223372036854775808.

Definition is_u8 (x : Z) : Prop := 0 <= x < 256.
Definition is_u16 (x : Z) : Prop := 0 <= x < 65536.
Definition is_u32 (x : Z) : Prop := 0 <= x < 4294967296.
Definition is_u64 (x : Z) : Prop := 0 <= x < 18446744073709551616.
Definition is_i32 (x : Z) : Prop := -2147483648 <= x <= 2147483647.
Definition is_i64 (x : Z) : Prop := -9223372036854775808 <= x <= 9223372036854775807.

(** C's [/] and [%] on signed operands truncate toward zero. *)
Notation "x '/c' y" := (Z.quot x y) (at level 40, left associativity) : Z_scope.
Notation "x '%c' y" := (Z.rem x y) (at level 40, left associativity) : Z_scope.

Lemma land_ones_mod x n : 0 <= n -> Z.land x (2 ^ n - 1) = x mod 2 ^ n.
Proof. intros. rewrite <- Z.land_ones by lia. f_equal. rewrite Z.ones_equiv. lia. Qed.
Lemma u8_mod x : u8 x = x mod 256.
Proof. exact (land_ones_mod x 8 ltac:(lia)). Qed.
Lemma u16_mod x : u16 x = x mod 65536.
Proof. exact (land_ones_mod x 16 ltac:(lia)). Qed.
Lemma u32_mod x : u32 x = x mod 4294967296.
Proof. exact (land_ones_mod x 32 ltac:(lia)). Qed.
Lemma u64_mod x : u64 x = x mod 18446744073709551616.
Proof. exact (land_ones_mod x 64 ltac:(lia)). Qed.
Lemma i32_mod x : i32 x = (x + 2147483648) mod 4294967296 - 2147483648.
Proof. unfold i32. f_equal. exact (land_ones_mod _ 32 ltac:(lia)). Qed.
Lemma i64_mod x :
  i64 x = (x + 9223372036854775808) mod 18446744073709551616 - 9223372036854775808.
Proof. unfold i64. f_equal. exact (land_ones_mod _ 64 ltac:(lia)). Qed.

Ltac unfold_ints :=
  rewrite ?u8_mod, ?u16_mod, ?u32_mod, ?u64_mod, ?i32_mod, ?i64_mod in *;
  unfold is_u8, is_u16, is_u32, is_u64, is_i32, is_i64 in *.

(** [zlia]: linear arithmetic after turning every [/], [mod], [quot], [rem]
    by a literal into its defining equations. *)
Ltac zlia := unfold_ints; Z.to_euclidean_division_equations; lia.

Lemma u8_id x : is_u8 x -> u8 x = x.
Proof. intros. rewrite u8_mod. apply Z.mod_small. assumption. Qed.
Lemma u16_id x : is_u16 x -> u16 x = x.
Proof. intros. rewrite u16_mod. apply Z.mod_small. assumption. Qed.
Lemma u32_id x : is_u32 x -> u32 x = x.
Proof. intros. rewrite u32_mod. apply Z.mod_small. assumption. Qed.
Lemma u64_id x : is_u64 x -> u64 x = x.
Proof. intros. rewrite u64_mod. apply Z.mod_small. assumption. Qed.
Lemma i32_id x : is_i32 x -> i32 x = x.
Proof. rewrite i32_mod. unfold is_i32; intros. rewrite Z.mod_small; lia. Qed.
Lemma i64_id x : is_i64 x -> i64 x = x.
Proof. rewrite i64_mod. unfold is_i64; intros. rewrite Z.mod_small; lia. Qed.

Lemma u8_range x : is_u8 (u8 x).
Proof. rewrite u8_mod. apply Z.mod_pos_bound; lia. Qed.
Lemma u32_range x : is_u32 (u32 x).
Proof. rewrite u32_mod. apply Z.mod_pos_bound; lia. Qed.
Lemma u64_range x : is_u64 (u64 x).
Proof. rewrite u64_mod. apply Z.mod_pos_bound; lia. Qed.
Lemma i32_range x : is_i32 (i32 x).
Proof.
  rewrite i32_mod. unfold is_i32. pose proof (Z.mod_pos_bound (x + 2147483648) 4294967296). lia.
Qed.
Lemma i64_range x : is_i64 (i64 x).
Proof.
  rewrite i64_mod. unfold is_i64.
  pose proof (Z.mod_pos_bound (x + 9223372036854775808) 18446744073709551616). lia.
Qed.

(** Shifts as arithmetic. *)
Lemma shiftr_div x n : 0 <= n -> Z.shiftr x n = x / 2 ^ n.
Proof. apply Z.shiftr_div_pow2. Qed.
Lemma shiftl_mul x n : 0 <= n -> Z.shiftl x n = x * 2 ^ n.
Proof. apply Z.shiftl_mul_pow2. Qed.

(** The sign-mask idiom [(a >> 31) & b] of constant-time C code. *)
Lemma sign_mask_land a b :
  is_i32 a -> Z.land (Z.shiftr a 31) b = if a <? 0 then b else 0.
Proof.
  intros Ha. rewrite shiftr_div by lia. change (2 ^ 31) with 2147483648.
  destruct (Z.ltb_spec a 0).
  - replace (a / 2147483648) with (-1) by zlia. apply Z.land_m1_l.
  - replace (a / 2147483648) with 0 by zlia. apply Z.land_0_l.
Qed.

(** ** Congruence modulo an integer *)

Definition cong (m x y : Z) : Prop := Z.divide m (x - y).
Notation "x =[ m ]= y" := (cong m x y) (at level 70, m at level 200, y at next level) : Z_scope.

#[export] Instance cong_equiv m : Equivalence (cong m).
Proof.
  split.
  - intros x. exists 0. lia.
  - intros x y [k Hk]. exists (- k). lia.
  - intros x y z [k Hk] [l Hl]. exists (k + l). lia.
Qed.
#[export] Instance cong_add m : Proper (cong m ==> cong m ==> cong m) Z.add.
Proof. intros x x' [k Hk] y y' [l Hl]. exists (k + l). lia. Qed.
#[export] Instance cong_sub m : Proper (cong m ==> cong m ==> cong m) Z.sub.
Proof. intros x x' [k Hk] y y' [l Hl]. exists (k - l). lia. Qed.
#[export] Instance cong_opp m : Proper (cong m ==> cong m) Z.opp.
Proof. intros x x' [k Hk]. exists (- k). lia. Qed.
#[export] Instance cong_mul m : Proper (cong m ==> cong m ==> cong m) Z.mul.
Proof.
  intros x x' [k Hk] y y' [l Hl]. exists (k * y + x' * l).
  replace (x * y - x' * y') with ((x - x') * y + x' * (y - y')) by ring.
  rewrite Hk, Hl. ring.
Qed.

Lemma cong_refl_eq m x y : x = y -> x =[m]= y.
Proof. intros ->. reflexivity. Qed.

Lemma cong_mod m x y : 0 < m -> x =[m]= y <-> x mod m = y mod m.
Proof.
  intros Hm. split.
  - intros [k Hk]. replace x with (y + k * m) by lia. apply Z.mod_add. lia.
  - intros H. exists (x / m - y / m).
    pose proof (Z.div_mod x m). pose proof (Z.div_mod y m). lia.
Qed.

Lemma cong_mod_l m x : 0 < m -> x mod m =[m]= x.
Proof. intros. apply cong_mod; [lia|]. apply Z.mod_mod. lia. Qed.

(** A boolean test of congruence, for facts settled by evaluation. *)
Definition congb (m x y : Z) : bool := (x - y) mod m =? 0.
Lemma congb_sound m x y : 0 < m -> congb m x y = true -> x =[m]= y.
Proof.
  unfold congb. intros Hm H. apply Z.eqb_eq in H. apply Z.mod_divide in H; [exact H|lia].
Qed.

(** A unit may be cancelled. *)
Lemma cong_cancel m u v x y :
  u * v =[m]= 1 -> x * u =[m]= y * u -> x =[m]= y.
Proof.
  intros Hu H.
  transitivity (x * (u * v)). { rewrite Hu. apply cong_refl_eq. ring. }
  transitivity (y * (u * v)). 2: { rewrite Hu. apply cong_refl_eq. ring. }
  rewrite !Z.mul_assoc, H. reflexivity.
Qed.

(** Testing a flag. *)
Lemma land_flag x k : 0 <= k -> negb (Z.land x (2 ^ k) =? 0) = Z.testbit x k.
Proof.
  intros Hk. assert (E : Z.land x (2 ^ k) = if Z.testbit x k then 2 ^ k else 0).
  { apply Z.bits_inj'. intros n Hn. rewrite Z.land_spec, Z.pow2_bits_eqb by exact Hk. destruct (Z.eqb_spec k n) as [->|Hne].
    - destruct (Z.testbit x n); [rewrite Z.pow2_bits_true by exact Hn|rewrite Z.bits_0]; reflexivity.
    - rewrite andb_false_r. destruct (Z.testbit x k); [rewrite Z.pow2_bits_false by exact Hne|rewrite Z.bits_0]; reflexivity. }
  rewrite E. destruct (Z.testbit x k); [|reflexivity]. pose proof (Z.pow_pos_nonneg 2 k ltac:(lia) Hk).
  rewrite (proj2 (Z.eqb_neq _ _)) by lia. reflexivity.
Qed.

(** ** Bounded loops

    [for_loop n i body s] runs [body i], [body (i+1)], .., [body (i+n-1)] on
    the state [s]: the C loop [for (j = i; j < i + n; ++j)]. *)
Fixpoint for_loop {S : Type} (n i : nat) (body : nat -> S -> S) (s : S) : S :=
  match n with
  | O => s
  | Datatypes.S n' => for_loop n' (Datatypes.S i) body (body i s)
  end.

(** The invariant rule: an invariant that holds on entry and that each
    iteration carries one index further holds on exit. *)
Lemma for_loop_inv {S : Type} (P : nat -> S -> Prop) (body : nat -> S -> S) n i s :
  P i s ->
  (forall j s', (i <= j < i + n)%nat -> P j s' -> P (Datatypes.S j) (body j s')) ->
  P (i + n)%nat (for_loop n i body s).
Proof.
  revert i s. induction n as [|n IH]; intros i s H0 Hstep; simpl.
  - now rewrite Nat.add_0_r.
  - rewrite <- Nat.add_succ_comm. apply IH.
    + apply Hstep; [lia|assumption].
    + intros j s' Hj. apply Hstep. lia.
Qed.

(** Two loops with related bodies end in related states. *)
Lemma for_loop_rel {S T : Type} (R : S -> T -> Prop) f g n i s t :
  R s t ->
  (forall j s' t', (i <= j < i + n)%nat -> R s' t' -> R (f j s') (g j t')) ->
  R (for_loop n i f s) (for_loop n i g t).
Proof.
  revert i s t. induction n as [|n IH]; intros i s t H0 Hstep; simpl; [assumption|].
  apply IH; [apply Hstep; [lia|assumption]|]. intros; apply Hstep; [lia|assumption].
Qed.

(** ** Arrays

    A C array is a list; [a !!! i] reads and [<[i:=v]> a] writes.  Reads and
    writes past the end are excluded by length hypotheses in the theorems. *)
Lemma lookup_total_insert_eq (l : list Z) i v :
  (i < length l)%nat -> <[i:=v]> l !!! i = v.
Proof. intros. now apply list_lookup_total_insert_eq. Qed.

Lemma lookup_total_insert_ne (l : list Z) i j v :
  i <> j -> <[i:=v]> l !!! j = l !!! j.
Proof. intros. now apply list_lookup_total_insert_ne. Qed.

Lemma list_eq_total (l k : list Z) n :
  length l = n -> length k = n ->
  (forall i, (i < n)%nat -> l !!! i = k !!! i) -> l = k.
Proof.
  intros Hl Hk H. apply list_eq_same_length with n; [assumption..|].
  intros i x y Hi Hx Hy. apply list_lookup_total_correct in Hx, Hy.
  rewrite <- Hx, <- Hy. now apply H.
Qed.

(** ** Sums and polynomial evaluation *)

Lemma cong_pow m x y n : x =[m]= y -> x ^ Z.of_nat n =[m]= y ^ Z.of_nat n.
Proof.
  intros H. induction n as [|n IH]; [reflexivity|].
  rewrite Nat2Z.inj_succ, !Z.pow_succ_r by lia. apply cong_mul; assumption.
Qed.

Fixpoint zsum (f : nat -> Z) (n : nat) : Z :=
  match n with
  | O => 0
  | S m => zsum f m + f m
  end.

Lemma zsum_ext f g n : (forall i, (i < n)%nat -> f i = g i) -> zsum f n = zsum g n.
Proof.
  induction n as [|n IH]; intros H; cbn; [reflexivity|]. rewrite IH, H; [reflexivity|lia|].
  intros; apply H; lia.
Qed.
Lemma zsum_cong m f g n :
  (forall i, (i < n)%nat -> f i =[m]= g i) -> zsum f n =[m]= zsum g n.
Proof.
  induction n as [|n IH]; intros H; cbn; [reflexivity|].
  rewrite IH, (H n) by (try lia; intros; apply H; lia). reflexivity.
Qed.
Lemma zsum_add f g n : zsum (fun i => f i + g i) n = zsum f n + zsum g n.
Proof. induction n as [|n IH]; cbn; [reflexivity|]. rewrite IH. ring. Qed.
Lemma zsum_mul_l c f n : zsum (fun i => c * f i) n = c * zsum f n.
Proof. induction n as [|n IH]; cbn; [ring|]. rewrite IH. ring. Qed.
Lemma zsum_zero f n : (forall i, (i < n)%nat -> f i = 0) -> zsum f n = 0.
Proof.
  intros H. rewrite (zsum_ext f (fun _ => 0)) by assumption.
  clear H. induction n as [|n IH]; cbn; lia.
Qed.
Lemma zsum_split f m n : zsum f (m + n) = zsum f m + zsum (fun i => f (m + i)%nat) n.
Proof.
  induction n as [|n IH]; [rewrite Nat.add_0_r; cbn; lia|].
  rewrite Nat.add_succ_r. cbn [zsum]. rewrite IH. ring.
Qed.
Lemma zsum_swap f m n :
  zsum (fun i => zsum (fun j => f i j) n) m = zsum (fun j => zsum (fun i => f i j) m) n.
Proof.
  induction m as [|m IH]; cbn [zsum].
  - symmetry. apply zsum_zero. reflexivity.
  - rewrite IH, <- zsum_add. reflexivity.
Qed.

(** The value at [x] of the polynomial with coefficients [f 0 .. f (n-1)]. *)
Definition peval (f : nat -> Z) (n : nat) (x : Z) : Z := zsum (fun i => f i * x ^ Z.of_nat i) n.

Lemma peval_cong m f g n x :
  (forall i, (i < n)%nat -> f i =[m]= g i) -> peval f n x =[m]= peval g n x.
Proof. intros H. apply zsum_cong. intros i Hi. rewrite (H i Hi). reflexivity. Qed.
Lemma peval_cong_x m f n x y : x =[m]= y -> peval f n x =[m]= peval f n y.
Proof. intros H. apply zsum_cong. intros i Hi. rewrite (cong_pow m x y i H). reflexivity. Qed.
Lemma peval_split f m n x :
  peval f (m + n) x = peval f m x + x ^ Z.of_nat m * peval (fun j => f (m + j)%nat) n x.
Proof.
  unfold peval. rewrite zsum_split, <- zsum_mul_l. f_equal. apply zsum_ext. intros i _.
  rewrite Nat2Z.inj_add, Z.pow_add_r by lia. ring.
Qed.
Lemma peval_lin f g c n x :
  peval (fun i => f i + c * g i) n x = peval f n x + c * peval g n x.
Proof. unfold peval. rewrite <- zsum_mul_l, <- zsum_add. apply zsum_ext. intros. ring. Qed.

(** ** In-place element-wise loops *)

(** [for (j = 0; j < n; ++j) a[j] = F(j, a[j])]. *)
Lemma for_update_spec (F : nat -> Z -> Z) n (a : list Z) :
  (n <= length a)%nat ->
  let a' := for_loop n 0 (fun j a => <[j := F j (a !!! j)]> a) a in
  length a' = length a /\
  (forall i, (i < n)%nat -> a' !!! i = F i (a !!! i)) /\
  (forall i, (n <= i)%nat -> a' !!! i = a !!! i).
Proof.
  intros Hn. cbv zeta.
  set (P := fun (m : nat) (c : list Z) =>
    length c = length a /\
    (forall i, (i < m)%nat -> c !!! i = F i (a !!! i)) /\
    (forall i, (m <= i)%nat -> c !!! i = a !!! i)).
  apply (for_loop_inv P).
  { split; [reflexivity|]. split; [intros; lia|reflexivity]. }
  intros m c Hm (H1 & H2 & H3). split; [rewrite length_insert; exact H1|]. split.
  - intros i Hi. destruct (decide (i = m)) as [->|].
    + rewrite lookup_total_insert_eq by lia. rewrite H3 by lia. reflexivity.
    + rewrite lookup_total_insert_ne by lia. apply H2. lia.
  - intros i Hi. rewrite lookup_total_insert_ne by lia. apply H3. lia.
Qed.

(** ** Arrays written by a loop

    [fill n f]: an array whose element [i] is written once, with a value
    that does not depend on the other writes.  [fill_chunks n f]: iteration
    [i] writes the [i]-th group of consecutive elements. *)
Definition fill {A : Type} (n : nat) (f : nat -> A) : list A := map f (seq 0 n).
Definition fill_chunks (n : nat) (f : nat -> list Z) : list Z := concat (map f (seq 0 n)).

Lemma length_fill {A : Type} n (f : nat -> A) : length (fill n f) = n.
Proof. unfold fill. rewrite length_map, length_seq. reflexivity. Qed.

Lemma lookup_fill {A : Type} n (f : nat -> A) i :
  (i < n)%nat -> fill n f !! i = Some (f i).
Proof.
  intros Hi. unfold fill. rewrite list_lookup_fmap, lookup_seq_lt by exact Hi. reflexivity.
Qed.

Lemma lookup_total_fill {A : Type} `{Inhabited A} n (f : nat -> A) i :
  (i < n)%nat -> fill n f !!! i = f i.
Proof. intros Hi. apply list_lookup_total_correct, lookup_fill, Hi. Qed.

Lemma fill_ext {A : Type} n (f g : nat -> A) :
  (forall i, (i < n)%nat -> f i = g i) -> fill n f = fill n g.
Proof. intros H. apply map_ext_in. intros i Hi. apply in_seq in Hi. apply H. lia. Qed.

Section chunks.
Context (m : nat) (f : nat -> list Z) (Hf : forall i, length (f i) = m).

Lemma length_concat_seq s n : length (concat (map f (seq s n))) = (n * m)%nat.
Proof.
  revert s. induction n as [|n IH]; intros s; cbn [seq map concat]; [reflexivity|].
  rewrite length_app, Hf, IH. lia.
Qed.
Lemma length_fill_chunks n : length (fill_chunks n f) = (n * m)%nat.
Proof. apply length_concat_seq. Qed.

Lemma lookup_concat_seq s n i j :
  (i < n)%nat -> (j < m)%nat ->
  concat (map f (seq s n)) !!! (m * i + j)%nat = f (s + i)%nat !!! j.
Proof.
  revert s i. induction n as [|n IH]; intros s i Hi Hj; [lia|].
  cbn [seq map concat]. destruct i as [|i].
  - rewrite Nat.mul_0_r, Nat.add_0_l, Nat.add_0_r.
    rewrite lookup_total_app_l by (rewrite Hf; exact Hj). reflexivity.
  - rewrite lookup_total_app_r by (rewrite Hf; nia). rewrite Hf.
    replace (m * S i + j - m)%nat with (m * i + j)%nat by nia.
    rewrite IH by lia. f_equal. f_equal. lia.
Qed.
Lemma lookup_fill_chunks n i j :
  (i < n)%nat -> (j < m)%nat -> fill_chunks n f !!! (m * i + j)%nat = f i !!! j.
Proof. apply (lookup_concat_seq 0). Qed.
End chunks.

(** Two arrays of [n] groups of [m] are equal when they agree on each group. *)
Lemma list_eq_chunks m n (l k : list Z) :
  length l = (n * m)%nat -> length k = (n * m)%nat ->
  (forall i j, (i < n)%nat -> (j < m)%nat -> l !!! (m * i + j)%nat = k !!! (m * i + j)%nat) ->
  l = k.
Proof.
  intros Hl Hk H. apply (list_eq_total l k (n * m)); [assumption..|]. intros x Hx.
  assert (m <> 0)%nat as Hm by (intros ->; lia).
  rewrite (Nat.div_mod x m Hm). apply H.
  - apply Nat.Div0.div_lt_upper_bound; lia.
  - apply Nat.mod_upper_bound, Hm.
Qed.

(** ** Byte arrays *)

Definition bytes_ok (b : list Z) : Prop := Forall is_u8 b.

Lemma bytes_ok_lookup b i : bytes_ok b -> is_u8 (b !!! i).
Proof.
  intros H. destruct (decide (i < length b)%nat).
  - destruct (lookup_lt_is_Some_2 b i) as [v Hv]; [assumption|].
    rewrite (list_lookup_total_correct _ _ _ Hv). apply (Forall_lookup_1 _ _ _ _ H Hv).
  - rewrite list_lookup_total_alt, lookup_ge_None_2 by lia. cbn. unfold is_u8; cbn. lia.
Qed.

Lemma bytes_ok_fill n f : (forall i, (i < n)%nat -> is_u8 (f i)) -> bytes_ok (fill n f).
Proof.
  intros H. apply Forall_lookup_2. intros i x Hx.
  assert (i < n)%nat as Hi by (apply lookup_lt_Some in Hx; rewrite length_fill in Hx; exact Hx).
  rewrite lookup_fill in Hx by exact Hi. injection Hx as <-. apply H, Hi.
Qed.
Lemma bytes_ok_fill_chunks n f :
  (forall i, (i < n)%nat -> bytes_ok (f i)) -> bytes_ok (fill_chunks n f).
Proof.
  intros H. apply Forall_concat, Forall_map, List.Forall_forall.
  intros i Hi. apply in_seq in Hi. apply H. lia.
Qed.

(** ** Bit packing

    [|] of fields that do not overlap is addition. *)
Lemma lor_shl n x y : 0 <= n -> 0 <= x < 2 ^ n -> Z.lor x (Z.shiftl y n) = x + y * 2 ^ n.
Proof.
  intros Hn Hx. rewrite <- (shiftl_mul y n Hn). symmetry. apply Z.add_nocarry_lor.
  apply Z.bits_inj'. intros k Hk. rewrite Z.land_spec, Z.shiftl_spec, Z.bits_0 by exact Hk.
  destruct (Z.ltb_spec k n).
  - rewrite (Z.testbit_neg_r y) by lia. apply andb_false_r.
  - replace (Z.testbit x k) with false; [reflexivity|]. symmetry.
    apply (Z.testbit_false x k Hk). rewrite Z.div_small; [reflexivity|].
    pose proof (Z.pow_le_mono_r 2 n k). lia.
Qed.

Lemma u8_shl n y : 0 <= n <= 8 -> u8 (Z.shiftl y n) = Z.shiftl (y mod 2 ^ (8 - n)) n.
Proof.
  intros Hn. rewrite u8_mod, !shiftl_mul by lia.
  replace 256 with (2 ^ (8 - n) * 2 ^ n)
    by (rewrite <- Z.pow_add_r, Z.sub_add by lia; reflexivity).
  apply Z.mul_mod_distr_r; [apply Z.pow_nonzero; lia|apply Z.pow_nonzero; lia].
Qed.

Lemma u8_land x : u8 x = Z.land x 255.
Proof. reflexivity. Qed.
Lemma lor_u8 x y : is_u8 x -> is_u8 y -> is_u8 (Z.lor x y).
Proof.
  intros Hx Hy. rewrite <- (u8_id x Hx), <- (u8_id y Hy), !u8_land, <- Z.land_lor_distr_l, <- u8_land.
  apply u8_range.
Qed.

(** ** More on loops *)

Lemma for_loop_ext {S : Type} (f g : nat -> S -> S) n i s :
  (forall j s, (i <= j < i + n)%nat -> f j s = g j s) -> for_loop n i f s = for_loop n i g s.
Proof.
  revert i s. induction n as [|n IH]; intros i s H; cbn; [reflexivity|].
  rewrite H by lia. apply IH. intros. apply H. lia.
Qed.
Lemma for_loop_shift {S : Type} (f : nat -> S -> S) n i s :
  for_loop n (Datatypes.S i) f s = for_loop n i (fun k => f (Datatypes.S k)) s.
Proof.
  revert i s. induction n as [|n IH]; intros i s; cbn; [reflexivity|]. apply IH.
Qed.
Lemma for_loop_app {S : Type} (f : nat -> S -> S) a b i s :
  for_loop (a + b) i f s = for_loop b (i + a) f (for_loop a i f s).
Proof.
  revert i s. induction a as [|a IH]; intros i s; cbn; [rewrite Nat.add_0_r; reflexivity|].
  rewrite IH. f_equal. lia.
Qed.
Lemma for_loop_offset {S : Type} (f : nat -> S -> S) n i k s :
  for_loop n (i + k) f s = for_loop n i (fun j => f (j + k)%nat) s.
Proof.
  revert i s. induction n as [|n IH]; intros i s; cbn; [reflexivity|]. apply (IH (Datatypes.S i)).
Qed.

(** ** Loops and calls that can fail *)

(** A counted loop whose body can fail. *)
Fixpoint for_opt {A : Type} (n i : nat) (body : nat -> A -> option A) (s : A) : option A :=
  match n with
  | O => Some s
  | S n => s ← body i s; for_opt n (S i) body s
  end.
Lemma for_opt_inv {A : Type} (P : nat -> A -> Prop) (body : nat -> A -> option A) n i s :
  P i s -> (forall j t, (i <= j < i + n)%nat -> P j t -> exists t', body j t = Some t' /\ P (S j) t') ->
  exists s', for_opt n i body s = Some s' /\ P (i + n)%nat s'.
Proof.
  revert i s. induction n as [|n IH]; intros i s Hs Hstep; cbn [for_opt].
  - rewrite Nat.add_0_r. eauto.
  - destruct (Hstep i s ltac:(lia) Hs) as (t & -> & Ht). cbn [mbind option_bind].
    destruct (IH (S i) t Ht) as (u & -> & Hu); [intros j v Hj; apply Hstep; lia|].
    exists u. split; [reflexivity|]. replace (i + S n)%nat with (S i + n)%nat by lia. exact Hu.
Qed.
Lemma for_opt_ext {A : Type} (f g : nat -> A -> option A) n i s :
  (forall j t, (i <= j < i + n)%nat -> f j t = g j t) -> for_opt n i f s = for_opt n i g s.
Proof.
  revert i s. induction n as [|n IH]; intros i s H; cbn [for_opt]; [reflexivity|].
  rewrite H by lia. destruct (g i s); cbn [mbind option_bind]; [|reflexivity]. apply IH. intros. apply H. lia.
Qed.

(** What a call returns: 0 with its outputs, or an error code. *)
Inductive outcome (A : Type) : Type :=
| Ret (a : A)
| Fail (code : Z)
| OutOfFuel.
Arguments Ret {A} a.
Arguments Fail {A} code.
Arguments OutOfFuel {A}.
