(* ===== verification/ConsensusParams.v ===== *)
(** * Consensus parameters

    The data of [src/consensus/params.h] and [src/consensus/amount.h]: amounts,
    the emission table and its compile-time checks, the settlement-levy
    schedule, the proof-of-work algorithm identifier, release checkpoints and
    the [Params] record with its member functions.  A [uint256] is the
    number its 32 little-endian bytes denote. *)

From stdpp Require Export gmap.
From S2P Require Export Prelude.

Local Open Scope Z_scope.

(** ** amount.h *)

Definition COIN : Z := 100000000.
Definition MAX_MONEY : Z := 100000000 * COIN.
Definition MoneyRange (nValue : Z) : bool := (nValue >=? 0) && (nValue <=? MAX_MONEY).

Lemma MoneyRange_spec v : MoneyRange v = true <-> 0 <= v <= MAX_MONEY.
Proof. unfold MoneyRange. rewrite andb_true_iff, Z.geb_le, Z.leb_le. lia. Qed.

(** ** Deployments *)

Inductive BuriedDeployment :=
  | DEPLOYMENT_HEIGHTINCB | DEPLOYMENT_CLTV | DEPLOYMENT_DERSIG
  | DEPLOYMENT_CSV | DEPLOYMENT_SEGWIT.
#[export] Instance BuriedDeployment_eq_dec : EqDecision BuriedDeployment.
Proof. solve_decision. Defined.

Record BIP9Deployment := mkBIP9 {
  bit : Z;
  nStartTime : Z;
  nTimeout : Z;
  min_activation_height : Z;
  period : Z;
  threshold : Z
}.
Definition NO_TIMEOUT : Z := 9223372036854775807.
Definition ALWAYS_ACTIVE : Z := -1.
Definition NEVER_ACTIVE : Z := -2.

(** ** Emission *)

Record EmissionEra := mkEra {
  startHeight : Z;
  endHeight : Z;
  baseSubsidy : Z
}.
#[export] Instance EmissionEra_eq_dec : EqDecision EmissionEra.
Proof. solve_decision. Defined.
#[export] Instance EmissionEra_inhabited : Inhabited EmissionEra := populate (mkEra 0 0 0).

Definition EMISSION_START_HEIGHT : Z := 1.
Definition MAX_SUPPLY_SAT : Z := 10000000000000000.
Definition TOTAL_EMISSION_SAT : Z := MAX_SUPPLY_SAT.

(** [total += baseSubsidy * (endHeight - startHeight + 1)]: the block count is
    computed in [int], the product and the sum in [int64_t]. *)
Definition EmissionTableTotalSat (table : list EmissionEra) (n : nat) : Z :=
  for_loop n 0 (fun i total =>
    let e := table !!! i in
    i64 (total + i64 (baseSubsidy e * i32 (i32 (endHeight e - startHeight e) + 1)))) 0.

(** The early returns of the loop: the result is true when every iteration
    passes its three tests. *)
Definition EmissionTableWellFormed (table : list EmissionEra) (n : nat) (start : Z) : bool :=
  negb (n =? 0)%nat &&
  forallb (fun i =>
    let e := table !!! i in
    (startHeight e =? if (i =? 0)%nat then start
                      else i32 (endHeight (table !!! (i - 1)%nat) + 1)) &&
    negb (endHeight e <? startHeight e) &&
    negb ((baseSubsidy e <=? 0) || (baseSubsidy e >? MAX_SUPPLY_SAT)))
    (seq 0 n).

Definition EmissionTableContiguous (table : list EmissionEra) (n : nat) (start era_blocks : Z) : bool :=
  forallb (fun i =>
    let e := table !!! i in
    (startHeight e =? if (i =? 0)%nat then start
                      else i32 (endHeight (table !!! (i - 1)%nat) + 1)) &&
    let blocks := i32 (i32 (endHeight e - startHeight e) + 1) in
    if (i <? n - 1)%nat then blocks =? era_blocks else negb (blocks <? era_blocks))
    (seq 0 n).

Definition EmissionTableHalves (table : list EmissionEra) (n : nat) : bool :=
  forallb (fun i => baseSubsidy (table !!! i) =? baseSubsidy (table !!! (i - 1)%nat) /c 2)
    (seq 1 (n - 1)).

Definition NUM_EMISSION_ERAS : nat := 65.
Definition EMISSION_TABLE : list EmissionEra := [
    mkEra 1 20000 625000000;
    mkEra 20001 40000 1250000000;
    mkEra 40001 60000 2500000000;
    mkEra 60001 220000 5000000000;
    mkEra 220001 330000 4500000000;
    mkEra 330001 440000 4050000000;
    mkEra 440001 550000 3645000000;
    mkEra 550001 660000 3281000000;
    mkEra 660001 770000 2953000000;
    mkEra 770001 880000 2658000000;
    mkEra 880001 990000 2393000000;
    mkEra 990001 1100000 2154000000;
    mkEra 1100001 1210000 1939000000;
    mkEra 1210001 1320000 1746000000;
    mkEra 1320001 1430000 1572000000;
    mkEra 1430001 1540000 1415000000;
    mkEra 1540001 1650000 1274000000;
    mkEra 1650001 1760000 1147000000;
    mkEra 1760001 1870000 1033000000;
    mkEra 1870001 1980000 930000000;
    mkEra 1980001 2090000 837000000;
    mkEra 2090001 2200000 754000000;
    mkEra 2200001 2310000 679000000;
    mkEra 2310001 2420000 612000000;
    mkEra 2420001 2530000 551000000;
    mkEra 2530001 2640000 496000000;
    mkEra 2640001 2750000 447000000;
    mkEra 2750001 2860000 403000000;
    mkEra 2860001 2970000 363000000;
    mkEra 2970001 3080000 327000000;
    mkEra 3080001 3190000 295000000;
    mkEra 3190001 3300000 266000000;
    mkEra 3300001 3410000 240000000;
    mkEra 3410001 3520000 216000000;
    mkEra 3520001 3630000 195000000;
    mkEra 3630001 3740000 176000000;
    mkEra 3740001 3850000 159000000;
    mkEra 3850001 31460000 150000000;
    mkEra 31460001 31570000 148490909;
    mkEra 31570001 31680000 133641818;
    mkEra 31680001 31790000 120277636;
    mkEra 31790001 31900000 108249872;
    mkEra 31900001 32010000 97424885;
    mkEra 32010001 32120000 87682397;
    mkEra 32120001 32230000 78914157;
    mkEra 32230001 32340000 71022741;
    mkEra 32340001 32450000 63920467;
    mkEra 32450001 32560000 57528420;
    mkEra 32560001 32670000 51775578;
    mkEra 32670001 32780000 46598021;
    mkEra 32780001 32890000 41938218;
    mkEra 32890001 33000000 37744397;
    mkEra 33000001 33110000 33969957;
    mkEra 33110001 33220000 30572961;
    mkEra 33220001 33330000 27515665;
    mkEra 33330001 33440000 24764099;
    mkEra 33440001 33550000 22287689;
    mkEra 33550001 33660000 20058920;
    mkEra 33660001 33770000 18053028;
    mkEra 33770001 33880000 16247725;
    mkEra 33880001 33990000 14622953;
    mkEra 33990001 34100000 13160657;
    mkEra 34100001 34210000 11844592;
    mkEra 34210001 34320000 10660132;
    mkEra 34320001 35375353 10000000
  ].
Definition EMISSION_CLOSING_DUST_SAT : Z := 1660000.
Definition EMISSION_END_HEIGHT : Z := endHeight (EMISSION_TABLE !!! (NUM_EMISSION_ERAS - 1)%nat).

(** The [static_assert]s of the header, evaluated. *)
Lemma EMISSION_TABLE_WellFormed :
  EmissionTableWellFormed EMISSION_TABLE NUM_EMISSION_ERAS EMISSION_START_HEIGHT = true.
Proof. vm_compute. reflexivity. Qed.
Lemma EMISSION_TABLE_total :
  EmissionTableTotalSat EMISSION_TABLE NUM_EMISSION_ERAS + EMISSION_CLOSING_DUST_SAT = TOTAL_EMISSION_SAT.
Proof. vm_compute. reflexivity. Qed.
Lemma MAX_SUPPLY_is_MAX_MONEY : MAX_SUPPLY_SAT = MAX_MONEY.
Proof. reflexivity. Qed.

(** Regtest's own table ([src/kernel/chainparams.cpp]). *)
Definition REGTEST_NUM_EMISSION_ERAS : nat := 4.
Definition REGTEST_EMISSION_TABLE : list EmissionEra := [
    mkEra 1 150 5000000000;
    mkEra 151 300 2500000000;
    mkEra 301 450 1250000000;
    mkEra 451 15998350 625000000
  ].
Definition REGTEST_EMISSION_CLOSING_DUST_SAT : Z := 0.

(** ** Settlement levy *)

Definition SETTLEMENT_LEVY_GENESIS_BP : Z := 0.
Definition SETTLEMENT_LEVY_GENESIS_CAP_SAT : Z := 0.
Definition SETTLEMENT_LEVY_BP : Z := 5.
Definition SETTLEMENT_LEVY_BP_MAX : Z := 10000.
Definition SETTLEMENT_LEVY_CAP_SAT : Z := 10000.

Record SettlementLevyRule := mkLevyRule {
  rule_startHeight : Z;
  bp : Z;
  capSat : Z
}.
#[export] Instance SettlementLevyRule_eq_dec : EqDecision SettlementLevyRule.
Proof. solve_decision. Defined.
#[export] Instance SettlementLevyRule_inhabited : Inhabited SettlementLevyRule :=
  populate (mkLevyRule 0 0 0).

Definition SETTLEMENT_LEVY_GENESIS_RULE : SettlementLevyRule :=
  mkLevyRule 0 SETTLEMENT_LEVY_GENESIS_BP SETTLEMENT_LEVY_GENESIS_CAP_SAT.
Definition SETTLEMENT_LEVY_REFERENCE_RULE : SettlementLevyRule :=
  mkLevyRule 0 SETTLEMENT_LEVY_BP SETTLEMENT_LEVY_CAP_SAT.

Definition SettlementLevyScheduleIsSoftForkOnly (schedule : list SettlementLevyRule) : bool :=
  match schedule with
  | [] => false
  | front :: _ =>
      (rule_startHeight front =? 0) &&
      forallb (fun i =>
        let r := schedule !!! i in
        negb ((bp r <? 0) || (bp r >? SETTLEMENT_LEVY_BP_MAX) || (capSat r <? 0)) &&
        (if (0 <? i)%nat then
           let prev := schedule !!! (i - 1)%nat in
           negb ((rule_startHeight r <=? rule_startHeight prev) ||
                 (bp r <? bp prev) || (capSat r <? capSat prev))
         else true))
        (seq 0 (length schedule))
  end.

Definition MIN_OUTPUT_VALUE_SAT : Z := 10000.
Definition COINBASE_MATURITY_MAINNET : Z := 1000.

(** ** Proof-of-work algorithm identifier *)

Definition POW_ALGO_ID_SHIFT : Z := 28.
Definition POW_ALGO_ID_MASK : Z := 805306368. (* 0x30000000 *)
Definition POW_ALGO_METALDAG : Z := 0.
Definition POW_ALGO_AUXPOW_SHA256D : Z := 1.
Definition GetPowAlgoId (nVersion : Z) : Z :=
  Z.shiftr (Z.land (u32 nVersion) (u32 POW_ALGO_ID_MASK)) POW_ALGO_ID_SHIFT.

Record PowAlgoParams := mkPowAlgoParams {
  algo_powLimit : Z;
  algo_nASERTHalfLife : Z;
  algo_nPowTargetSpacing : Z
}.

(** ** The parameters of a chain *)

Record Params := mkParams {
  hashGenesisBlock : Z;
  nSubsidyHalvingInterval : Z;
  script_flag_exceptions : gmap Z Z;
  BIP34Height : Z;
  BIP34Hash : Z;
  BIP65Height : Z;
  BIP66Height : Z;
  CSVHeight : Z;
  SegwitHeight : Z;
  MinBIP9WarningHeight : Z;
  vDeployments : list BIP9Deployment;
  powLimit : Z;
  fPowAllowMinDifficultyBlocks : bool;
  enforce_BIP94 : bool;
  fPowNoRetargeting : bool;
  nPowTargetSpacing : Z;
  nPowTargetTimespan : Z;
  nASERTActivationHeight : Z;
  nASERTHalfLife : Z;
  metaldagBaseTime : Z;
  metaldagEpochSeconds : Z;
  metaldagDagInitBytes : Z;
  metaldagDagGrowthBytes : Z;
  metaldagCacheDivisor : Z;
  nMinimumChainWork : Z;
  defaultAssumeValid : Z;
  emissionTable : list EmissionEra;
  emissionClosingDustSat : Z;
  permitV2Outputs : bool;
  settlementLevySchedule : list SettlementLevyRule;
  minOutputValueSat : Z;
  coinbaseMaturity : Z;
  release_checkpoints : gmap Z Z;
  pow_algos : list PowAlgoParams;
  pow_share : list Z;
  max_consecutive_same_algo : Z;
  multi_algo_activation_height : Z
}.

Definition DifficultyAdjustmentInterval (p : Params) : Z :=
  nPowTargetTimespan p /c nPowTargetSpacing p.

Definition EmissionEndHeight (p : Params) : Z :=
  match last (emissionTable p) with
  | None => EMISSION_START_HEIGHT - 1
  | Some e => endHeight e
  end.

(** [for (r : schedule) { if (r.startHeight > height) break; rule = r; }] *)
Fixpoint SettlementLevyAt_loop (rule : SettlementLevyRule) (schedule : list SettlementLevyRule)
    (height : Z) : SettlementLevyRule :=
  match schedule with
  | [] => rule
  | r :: rest =>
      if rule_startHeight r >? height then rule
      else SettlementLevyAt_loop r rest height
  end.
Definition SettlementLevyAt (p : Params) (height : Z) : SettlementLevyRule :=
  SettlementLevyAt_loop (mkLevyRule 0 0 0) (settlementLevySchedule p) height.

Definition ReleaseCheckpointAllows (p : Params) (height hash : Z) : bool :=
  match release_checkpoints p !! height with
  | None => true
  | Some h => h =? hash
  end.

Definition MultiAlgoActiveAt (p : Params) (height : Z) : bool :=
  (multi_algo_activation_height p >? 0) && (height >=? multi_algo_activation_height p).

Definition DeploymentHeight (p : Params) (dep : BuriedDeployment) : Z :=
  match dep with
  | DEPLOYMENT_HEIGHTINCB => BIP34Height p
  | DEPLOYMENT_CLTV => BIP65Height p
  | DEPLOYMENT_DERSIG => BIP66Height p
  | DEPLOYMENT_CSV => CSVHeight p
  | DEPLOYMENT_SEGWIT => SegwitHeight p
  end.

(** ** Mainnet ([CMainParams] in [src/kernel/chainparams.cpp]) *)

Definition FINAL_GENESIS_TIME : Z := 1790380800.
Definition CMainParams : Params := {|
  hashGenesisBlock := 0x3bc1a36df7d786a5c4584e21d248e0a3785a96aaa60a5b3959dfad50283379f2;
  nSubsidyHalvingInterval := 360000;
  script_flag_exceptions := ∅;
  BIP34Height := 1;
  BIP34Hash := 0;
  BIP65Height := 0;
  BIP66Height := 0;
  CSVHeight := 0;
  SegwitHeight := 0;
  MinBIP9WarningHeight := 0;
  vDeployments := [mkBIP9 27 NEVER_ACTIVE NO_TIMEOUT 0 2016 1815];
  powLimit := 0x00000fffffffffffffffffffffffffffffffffffffffffffffffffffffffffff;
  fPowAllowMinDifficultyBlocks := false;
  enforce_BIP94 := false;
  fPowNoRetargeting := false;
  nPowTargetSpacing := 300;
  nPowTargetTimespan := 300 * 50;
  nASERTActivationHeight := 1;
  nASERTHalfLife := 2 * 60 * 60;
  metaldagBaseTime := FINAL_GENESIS_TIME;
  metaldagEpochSeconds := 14 * 24 * 3600;
  metaldagDagInitBytes := 4 * 1024 * 1024 * 1024;
  metaldagDagGrowthBytes := 128 * 1024 * 1024;
  metaldagCacheDivisor := 128;
  nMinimumChainWork := 0;
  defaultAssumeValid := 0;
  emissionTable := EMISSION_TABLE;
  emissionClosingDustSat := EMISSION_CLOSING_DUST_SAT;
  permitV2Outputs := false;
  settlementLevySchedule := [SETTLEMENT_LEVY_GENESIS_RULE];
  minOutputValueSat := MIN_OUTPUT_VALUE_SAT;
  coinbaseMaturity := COINBASE_MATURITY_MAINNET;
  release_checkpoints := ∅;
  (* ReserveMultiAlgoPow *)
  pow_algos := [mkPowAlgoParams 0x00000fffffffffffffffffffffffffffffffffffffffffffffffffffffffffff
                  (2 * 60 * 60) 300];
  pow_share := [10000];
  max_consecutive_same_algo := 0;
  multi_algo_activation_height := 0
|}.
