(* ===== verification/Emission.v ===== *)
(** * Emission

    [GetBlockSubsidy] of [src/validation.cpp] over the tables of
    [ConsensusParams], the supply it creates, and the schedule that charter
    section 4 states in words, as an executable specification that the
    compiled-in table is shown to implement. *)

From S2P Require Import Prelude ConsensusParams.

Local Open Scope Z_scope.

(** ** The code *)

Fixpoint GetBlockSubsidy_loop (eras : list EmissionEra) (p : Params) (nHeight : Z) : Z :=
  match eras with
  | [] => 0
  | era :: rest =>
      if nHeight >? endHeight era then GetBlockSubsidy_loop rest p nHeight
      else if nHeight <? startHeight era then 0
      else
        let subsidy := baseSubsidy era in
        if nHeight =? EmissionEndHeight p
        then i64 (subsidy + emissionClosingDustSat p)
        else subsidy
  end.

Definition GetBlockSubsidy (nHeight : Z) (p : Params) : Z :=
  if nHeight <? EMISSION_START_HEIGHT then 0
  else GetBlockSubsidy_loop (emissionTable p) p nHeight.

(** The units created by blocks 0 .. [h]. *)
Fixpoint supply_of_first (n : nat) (p : Params) : Z :=
  match n with
  | O => 0
  | S n' => supply_of_first n' p + GetBlockSubsidy (Z.of_nat n') p
  end.
Definition cumulative_supply (p : Params) (h : Z) : Z :=
  supply_of_first (Z.to_nat (h + 1)) p.

(** ** Contiguous tables *)

(** The property [EmissionTableWellFormed] decides, as a recursive predicate. *)
Fixpoint chained (start : Z) (eras : list EmissionEra) : Prop :=
  match eras with
  | [] => True
  | e :: rest =>
      startHeight e = start /\ startHeight e <= endHeight e /\
      0 < baseSubsidy e <= MAX_SUPPLY_SAT /\ chained (endHeight e + 1) rest
  end.

(** Heights below [INT_MAX], so that [endHeight + 1] does not overflow. *)
Definition heights_fit (eras : list EmissionEra) : Prop :=
  Forall (fun e => 0 <= startHeight e /\ endHeight e < 2147483647) eras.

Lemma i32_height e eras :
  heights_fit (e :: eras) -> startHeight e <= endHeight e -> i32 (endHeight e + 1) = endHeight e + 1.
Proof.
  intros H Hle. apply Forall_cons in H as [[H1 H2] _]. apply i32_id. unfold is_i32. lia.
Qed.

Lemma WellFormed_row_spec (e : EmissionEra) (s : Z) :
  (startHeight e =? s) && negb (endHeight e <? startHeight e) &&
  negb ((baseSubsidy e <=? 0) || (baseSubsidy e >? MAX_SUPPLY_SAT)) = true <->
  startHeight e = s /\ startHeight e <= endHeight e /\ 0 < baseSubsidy e <= MAX_SUPPLY_SAT.
Proof.
  rewrite Z.gtb_ltb, !andb_true_iff, !negb_true_iff, orb_false_iff,
    Z.eqb_eq, !Z.ltb_ge, Z.leb_gt. lia.
Qed.

Lemma WellFormed_tail_chained (table : list EmissionEra) k start :
  heights_fit table ->
  forallb (fun i =>
    let e := table !!! i in
    (startHeight e =? if (i =? 0)%nat then start
                      else i32 (endHeight (table !!! (i - 1)%nat) + 1)) &&
    negb (endHeight e <? startHeight e) &&
    negb ((baseSubsidy e <=? 0) || (baseSubsidy e >? MAX_SUPPLY_SAT)))
    (seq k (length table - k)) = true ->
  forall s, (k = 0%nat -> s = start) ->
  (k <> 0%nat -> s = i32 (endHeight (table !!! (k - 1)%nat) + 1)) ->
  chained s (drop k table).
Proof.
  intros Hfit. remember (length table - k)%nat as n eqn:Hn. revert k Hn.
  induction n as [|n IH]; intros k Hn Hall s Hs0 Hs1.
  { rewrite drop_ge by lia. exact I. }
  cbn [seq forallb] in Hall. apply andb_true_iff in Hall as [Hrow Hrest].
  apply WellFormed_row_spec in Hrow as (Hst & Hle & Hb).
  destruct (lookup_lt_is_Some_2 table k ltac:(lia)) as [e He].
  rewrite (list_lookup_total_correct _ _ _ He) in *.
  rewrite (drop_S _ _ _ He). cbn [chained].
  assert (startHeight e = s) as <-.
  { rewrite Hst. destruct (Nat.eqb_spec k 0); [symmetry; auto|symmetry; auto]. }
  repeat split; try lia.
  apply (IH (S k)); [lia|exact Hrest|lia|].
  intros _. replace (S k - 1)%nat with k by lia.
  rewrite (list_lookup_total_correct _ _ _ He). symmetry. apply i32_height with []; [|lia].
  constructor; [|constructor]. apply (Forall_lookup_1 _ _ _ _ Hfit He).
Qed.

Lemma WellFormed_chained table start :
  heights_fit table ->
  EmissionTableWellFormed table (length table) start = true ->
  chained start table /\ table <> [].
Proof.
  intros Hfit H. unfold EmissionTableWellFormed in H. apply andb_true_iff in H as [Hn Hall].
  split.
  - change table with (drop 0 table). apply WellFormed_tail_chained with start; try done.
    replace (length table - 0)%nat with (length table) by lia. exact Hall.
  - intros ->. discriminate.
Qed.

(** ** The schedule in closed form *)

(** What the rows assign to blocks up to height [h]. *)
Definition row_scheduled (h : Z) (e : EmissionEra) : Z :=
  baseSubsidy e * Z.max 0 (Z.min h (endHeight e) - startHeight e + 1).
Fixpoint scheduled (eras : list EmissionEra) (h : Z) : Z :=
  match eras with
  | [] => 0
  | e :: rest => row_scheduled h e + scheduled rest h
  end.

(** The row a height falls in, zero outside the table. *)
Fixpoint row_subsidy (eras : list EmissionEra) (h : Z) : Z :=
  match eras with
  | [] => 0
  | e :: rest =>
      if h >? endHeight e then row_subsidy rest h
      else if h <? startHeight e then 0 else baseSubsidy e
  end.

Lemma scheduled_before eras start h :
  chained start eras -> h < start -> scheduled eras h = 0.
Proof.
  revert start. induction eras as [|e rest IH]; intros start Hc Hh; [reflexivity|].
  destruct Hc as (Hs & Hle & Hb & Hc). cbn [scheduled].
  rewrite (IH (endHeight e + 1)) by (assumption || lia).
  unfold row_scheduled. replace (Z.max 0 _) with 0 by lia. lia.
Qed.

Lemma scheduled_succ eras start h :
  chained start eras -> scheduled eras (h + 1) = scheduled eras h + row_subsidy eras (h + 1).
Proof.
  revert start. induction eras as [|e rest IH]; intros start Hc; [reflexivity|].
  destruct Hc as (Hs & Hle & Hb & Hc). cbn [scheduled row_subsidy].
  rewrite Z.gtb_ltb. destruct (Z.ltb_spec (endHeight e) (h + 1)).
  - rewrite (IH _ Hc). unfold row_scheduled. nia.
  - rewrite !(scheduled_before rest (endHeight e + 1)) by (assumption || lia).
    unfold row_scheduled. destruct (Z.ltb_spec (h + 1) (startHeight e)).
    + replace (Z.max 0 _) with 0 by lia. replace (Z.max 0 _) with 0 by lia. lia.
    + replace (Z.max 0 (Z.min (h + 1) _ - _ + 1)) with (h + 1 - startHeight e + 1) by lia.
      replace (Z.max 0 _) with (h - startHeight e + 1) by lia. lia.
Qed.

(** The last height of a contiguous table, its start less one when empty. *)
Fixpoint table_end (start : Z) (eras : list EmissionEra) : Z :=
  match eras with
  | [] => start - 1
  | e :: rest => table_end (endHeight e + 1) rest
  end.

Lemma table_end_ge start eras : chained start eras -> start - 1 <= table_end start eras.
Proof.
  revert start. induction eras as [|e rest IH]; intros start; cbn; [lia|].
  intros (Hs & Hle & Hb & Hc). specialize (IH _ Hc). lia.
Qed.

Lemma table_end_last start eras e :
  last eras = Some e -> table_end start eras = endHeight e.
Proof.
  revert start. induction eras as [|e1 [|e2 rest] IH]; intros start Hl; [discriminate| |].
  - injection Hl as ->. cbn. lia.
  - cbn [table_end]. apply (IH (endHeight e1 + 1)). exact Hl.
Qed.

Lemma row_subsidy_past eras start h :
  chained start eras -> table_end start eras < h -> row_subsidy eras h = 0.
Proof.
  revert start. induction eras as [|e rest IH]; intros start; cbn; [lia|].
  intros (Hs & Hle & Hb & Hc) Hh. pose proof (table_end_ge _ _ Hc).
  rewrite Z.gtb_ltb. destruct (Z.ltb_spec (endHeight e) h); [eauto|lia].
Qed.

Lemma row_subsidy_bounds eras start h :
  chained start eras -> 0 <= row_subsidy eras h <= MAX_SUPPLY_SAT.
Proof.
  revert start. induction eras as [|e rest IH]; intros start; cbn; [unfold MAX_SUPPLY_SAT; lia|].
  intros (Hs & Hle & Hb & Hc). specialize (IH _ Hc). unfold MAX_SUPPLY_SAT in *.
  destruct (h >? endHeight e); [lia|]. destruct (h <? startHeight e); lia.
Qed.

(** ** What the code pays, on a well-formed chain *)

(** A chain whose table passes the compile-time checks and whose closing
    remainder is under one coin. *)
Record emission_ok (p : Params) : Prop := {
  ok_fit : heights_fit (emissionTable p);
  ok_wf : EmissionTableWellFormed (emissionTable p) (length (emissionTable p))
            EMISSION_START_HEIGHT = true;
  ok_dust : 0 <= emissionClosingDustSat p < COIN
}.

Lemma emission_ok_chained p :
  emission_ok p ->
  chained 1 (emissionTable p) /\ EmissionEndHeight p = table_end 1 (emissionTable p) /\
  1 <= EmissionEndHeight p.
Proof.
  intros [Hfit Hwf _]. destruct (WellFormed_chained _ _ Hfit Hwf) as [Hc Hne].
  unfold EMISSION_START_HEIGHT in *. split; [exact Hc|].
  unfold EmissionEndHeight. destruct (last (emissionTable p)) as [e|] eqn:Hl.
  2: { apply last_None in Hl. contradiction. }
  rewrite (table_end_last 1 _ _ Hl). split; [reflexivity|].
  rewrite <- (table_end_last 1 _ _ Hl). destruct (emissionTable p) as [|e1 rest]; [done|].
  destruct Hc as (Hs & Hle & Hb & Hc). pose proof (table_end_ge _ _ Hc). cbn [table_end]. lia.
Qed.

Lemma GetBlockSubsidy_loop_rows p eras start h :
  emission_ok p -> chained start eras ->
  GetBlockSubsidy_loop eras p h =
  row_subsidy eras h +
  (if (h =? EmissionEndHeight p) && (start <=? h) && (h <=? table_end start eras)
   then emissionClosingDustSat p else 0).
Proof.
  intros Hok. revert start. induction eras as [|e rest IH]; intros start Hc.
  { cbn [GetBlockSubsidy_loop row_subsidy table_end].
    destruct (h =? EmissionEndHeight p), (Z.leb_spec start h), (Z.leb_spec h (start - 1)); cbn; lia. }
  destruct Hc as (Hs & Hle & Hb & Hc). cbn [GetBlockSubsidy_loop row_subsidy table_end].
  pose proof (table_end_ge _ _ Hc). rewrite !Z.gtb_ltb.
  destruct (Z.ltb_spec (endHeight e) h).
  - rewrite (IH _ Hc). f_equal.
    replace (start <=? h) with true by lia. replace (endHeight e + 1 <=? h) with true by lia.
    reflexivity.
  - destruct (Z.ltb_spec h (startHeight e)).
    + replace (start <=? h) with false by lia. rewrite andb_false_r. cbn. lia.
    + replace (start <=? h) with true by lia.
      replace (h <=? table_end (endHeight e + 1) rest) with true by lia.
      rewrite !andb_true_r. destruct (Z.eqb_spec h (EmissionEndHeight p)); [|lia].
      apply i64_id. destruct (ok_dust _ Hok). unfold is_i64, MAX_SUPPLY_SAT, COIN in *. lia.
Qed.

Lemma GetBlockSubsidy_rows p h :
  emission_ok p ->
  GetBlockSubsidy h p =
  row_subsidy (emissionTable p) h + (if h =? EmissionEndHeight p then emissionClosingDustSat p else 0).
Proof.
  intros Hok. destruct (emission_ok_chained p Hok) as (Hc & He & Hge).
  unfold GetBlockSubsidy, EMISSION_START_HEIGHT. destruct (Z.ltb_spec h 1).
  - replace (h =? EmissionEndHeight p) with false by lia.
    destruct (emissionTable p) as [|e rest]; [reflexivity|].
    destruct Hc as (Hs & Hle & Hb & _). cbn [row_subsidy].
    rewrite Z.gtb_ltb. replace (endHeight e <? h) with false by lia.
    replace (h <? startHeight e) with true by lia. reflexivity.
  - rewrite (GetBlockSubsidy_loop_rows p _ 1 h Hok Hc), <- He. f_equal.
    destruct (Z.eqb_spec h (EmissionEndHeight p)) as [->|]; cbn; [|reflexivity].
    replace (1 <=? EmissionEndHeight p) with true by lia. now rewrite Z.leb_refl.
Qed.

Lemma supply_of_first_scheduled p n :
  emission_ok p ->
  supply_of_first n p =
  scheduled (emissionTable p) (Z.of_nat n - 1) +
  (if EmissionEndHeight p <=? Z.of_nat n - 1 then emissionClosingDustSat p else 0).
Proof.
  intros Hok. destruct (emission_ok_chained p Hok) as (Hc & He & Hge).
  induction n as [|n IH].
  - cbn [supply_of_first]. rewrite (scheduled_before _ 1) by (assumption || lia).
    destruct (Z.leb_spec (EmissionEndHeight p) (Z.of_nat 0 - 1)); lia.
  - cbn [supply_of_first]. rewrite IH, (GetBlockSubsidy_rows p _ Hok).
    replace (Z.of_nat (S n) - 1) with (Z.of_nat n - 1 + 1) by lia.
    rewrite (scheduled_succ _ 1) by assumption.
    replace (Z.of_nat n - 1 + 1) with (Z.of_nat n) by lia.
    destruct (Z.eqb_spec (Z.of_nat n) (EmissionEndHeight p)),
      (Z.leb_spec (EmissionEndHeight p) (Z.of_nat n - 1)),
      (Z.leb_spec (EmissionEndHeight p) (Z.of_nat n)); lia.
Qed.

Lemma cumulative_supply_closed p h :
  emission_ok p -> 0 <= h ->
  cumulative_supply p h =
  scheduled (emissionTable p) h +
  (if EmissionEndHeight p <=? h then emissionClosingDustSat p else 0).
Proof.
  intros Hok Hh. unfold cumulative_supply. rewrite (supply_of_first_scheduled p _ Hok).
  rewrite Z2Nat.id by lia. replace (h + 1 - 1) with h by lia. reflexivity.
Qed.

(** ** The table total *)

Definition row_total (e : EmissionEra) : Z :=
  baseSubsidy e * (endHeight e - startHeight e + 1).
Fixpoint table_total (eras : list EmissionEra) : Z :=
  match eras with
  | [] => 0
  | e :: rest => row_total e + table_total rest
  end.

Lemma scheduled_all eras start h :
  chained start eras -> table_end start eras <= h -> scheduled eras h = table_total eras.
Proof.
  revert start. induction eras as [|e rest IH]; intros start; cbn; [reflexivity|].
  intros (Hs & Hle & Hb & Hc) Hh. pose proof (table_end_ge _ _ Hc).
  rewrite (IH _ Hc Hh). unfold row_scheduled, row_total.
  replace (Z.max 0 _) with (endHeight e - startHeight e + 1) by lia. reflexivity.
Qed.

Lemma scheduled_le_total eras start h :
  chained start eras -> 0 <= scheduled eras h <= table_total eras.
Proof.
  revert start. induction eras as [|e rest IH]; intros start; cbn; [lia|].
  intros (Hs & Hle & Hb & Hc). specialize (IH _ Hc). unfold row_scheduled, row_total. nia.
Qed.

Lemma table_total_nonneg eras start : chained start eras -> 0 <= table_total eras.
Proof. intros H. pose proof (scheduled_le_total eras start 0 H). lia. Qed.

(** The code's running total is the exact sum when the exact sum fits [int64_t]. *)
Lemma EmissionTableTotalSat_exact_from table k start acc :
  heights_fit table -> chained start (drop k table) -> (k <= length table)%nat ->
  0 <= acc -> acc + table_total (drop k table) <= 9223372036854775807 ->
  for_loop (length table - k) k (fun i total =>
    let e := table !!! i in
    i64 (total + i64 (baseSubsidy e * i32 (i32 (endHeight e - startHeight e) + 1)))) acc
  = acc + table_total (drop k table).
Proof.
  intros Hfit. remember (length table - k)%nat as n eqn:Hn. revert k start acc Hn.
  induction n as [|n IH]; intros k start acc Hn Hc Hk Hacc Hmax.
  { rewrite drop_ge by lia. cbn. lia. }
  destruct (lookup_lt_is_Some_2 table k ltac:(lia)) as [e He].
  rewrite (drop_S _ _ _ He) in Hc, Hmax |- *. cbn [for_loop table_total] in *.
  destruct Hc as (Hs & Hle & Hb & Hc). rewrite (list_lookup_total_correct _ _ _ He).
  pose proof (Forall_lookup_1 _ _ _ _ Hfit He) as [F1 F2].
  pose proof (table_total_nonneg _ _ Hc). unfold row_total in *.
  rewrite (i32_id (endHeight e - startHeight e)) by (unfold is_i32; lia).
  rewrite (i32_id (_ + 1)) by (unfold is_i32; lia).
  assert (0 <= baseSubsidy e * (endHeight e - startHeight e + 1)) by nia.
  rewrite (i64_id (baseSubsidy e * _)) by (unfold is_i64; lia).
  rewrite i64_id by (unfold is_i64; lia).
  rewrite (IH (S k) (endHeight e + 1)) by (assumption || lia). lia.
Qed.

Lemma EmissionTableTotalSat_exact table start :
  heights_fit table -> chained start table -> table_total table <= 9223372036854775807 ->
  EmissionTableTotalSat table (length table) = table_total table.
Proof.
  intros Hfit Hc Hmax. unfold EmissionTableTotalSat.
  pose proof (EmissionTableTotalSat_exact_from table 0 start 0 Hfit) as H.
  rewrite drop_0, Nat.sub_0_r in H. etransitivity; [apply H; (assumption || lia)|lia].
Qed.

(** ** Supply theorems *)

(** for every chain whose table passes [EmissionTableWellFormed], the units
    created by blocks 0 .. h never exceed the sum that the header asserts
    (the table total computed by [EmissionTableTotalSat] plus the closing
    remainder), never decrease with height, and equal that sum exactly from
    the last subsidy block on. *)
Theorem emission_supply_closes (p : Params) (h : Z)
  (Hok : emission_ok p)
  (Hfits : table_total (emissionTable p) <= 9223372036854775807)
  (Hh : 0 <= h) :
  let cap := EmissionTableTotalSat (emissionTable p) (length (emissionTable p))
             + emissionClosingDustSat p in
  0 <= cumulative_supply p h <= cap /\
  cumulative_supply p h <= cumulative_supply p (h + 1) /\
  (EmissionEndHeight p <= h -> cumulative_supply p h = cap).
Proof.
  destruct (emission_ok_chained p Hok) as (Hc & He & Hge).
  pose proof (ok_dust _ Hok) as Hd. unfold COIN in Hd.
  rewrite (EmissionTableTotalSat_exact _ 1) by (apply Hok || assumption).
  rewrite !cumulative_supply_closed by (assumption || lia).
  rewrite (scheduled_succ _ 1) by assumption.
  pose proof (scheduled_le_total _ _ h Hc). pose proof (row_subsidy_bounds _ _ (h + 1) Hc).
  cbv zeta. repeat split.
  - destruct (EmissionEndHeight p <=? h); lia.
  - destruct (EmissionEndHeight p <=? h); lia.
  - destruct (Z.leb_spec (EmissionEndHeight p) h), (Z.leb_spec (EmissionEndHeight p) (h + 1)); lia.
  - intros Hend. replace (EmissionEndHeight p <=? h) with true by lia.
    rewrite (scheduled_all _ 1) by (assumption || lia). reflexivity.
Qed.

(** The boolean form of [heights_fit], for concrete tables. *)
Lemma heights_fit_compute eras :
  forallb (fun e => (0 <=? startHeight e) && (endHeight e <? 2147483647)) eras = true ->
  heights_fit eras.
Proof.
  intros H. apply Forall_forall. intros e He. apply list_elem_of_In in He.
  rewrite forallb_forall in H. specialize (H e He). lia.
Qed.

Lemma CMainParams_emission_ok : emission_ok CMainParams.
Proof.
  split; [apply heights_fit_compute; vm_compute; reflexivity|vm_compute; reflexivity|].
  cbn. unfold EMISSION_CLOSING_DUST_SAT, COIN. lia.
Qed.

Lemma CMainParams_table_total : table_total (emissionTable CMainParams) <= 9223372036854775807.
Proof. vm_compute. discriminate. Qed.

Lemma emission_supply_closes_witness :
  let cap := EmissionTableTotalSat (emissionTable CMainParams) (length (emissionTable CMainParams))
             + emissionClosingDustSat CMainParams in
  0 <= cumulative_supply CMainParams EMISSION_END_HEIGHT <= cap /\
  cumulative_supply CMainParams EMISSION_END_HEIGHT
    <= cumulative_supply CMainParams (EMISSION_END_HEIGHT + 1) /\
  (EmissionEndHeight CMainParams <= EMISSION_END_HEIGHT ->
   cumulative_supply CMainParams EMISSION_END_HEIGHT = cap).
Proof.
  apply (emission_supply_closes CMainParams EMISSION_END_HEIGHT).
  - exact CMainParams_emission_ok.
  - exact CMainParams_table_total.
  - vm_compute. discriminate.
Defined.

(** ** Charter section 4 as a specification

    The words of [src/CHARTER.md], section 4, transcribed independently of the
    table: amounts in satoshi, bases in hundredths of an XID. *)
Module Charter.

(** A step is 110,000 blocks: step s is blocks 110,000 s + 1 .. 110,000 (s+1). *)
Definition STEP : Z := 110000.
Definition step_of (h : Z) : Z := (h - 1) / STEP.

(** (a) The ramp and the two years at 50 XID. *)
Definition ramp (h : Z) : Z :=
  if h <=? 20000 then 625000000
  else if h <=? 40000 then 1250000000
  else if h <=? 60000 then 2500000000
  else 5000000000.
Definition RAMP_END : Z := 220000.
Definition ramp_total : Z :=
  20000 * 625000000 + 20000 * 1250000000 + 20000 * 2500000000 + 160000 * 5000000000.

(** (b) The base of a step from the base of the step before. *)
Definition next_base (n : Z) : Z := Z.max (n - n / 10) 150.

(** (c) A step pays its base, or one 1,100,000th of what is unscheduled. *)
Definition step_pay (n left : Z) : Z := Z.min (n * 1000000) (left / 1100000).

(** (d) The tail pays 0.1 XID. *)
Definition TAIL_PAY : Z := 10000000.

(** The rewards of steps 2, 3, .. up to the tail, with what the tail starts
    from.  [n] and [left] are the base of the step before and the amount not
    yet scheduled. *)
Fixpoint steps (fuel : nat) (n left : Z) : list Z * Z :=
  match fuel with
  | O => ([], left)
  | S f =>
      let n' := next_base n in
      let pay := step_pay n' left in
      if pay <? TAIL_PAY then ([], left)
      else let '(l, r) := steps f n' (left - STEP * pay) in (pay :: l, r)
  end.

Definition all_steps : list Z * Z := steps 1000 5000 (MAX_SUPPLY_SAT - ramp_total).
Definition tail_step : Z := 2 + Z.of_nat (length (fst all_steps)).
Definition tail_left : Z := snd all_steps.
Definition tail_blocks : Z := tail_left / TAIL_PAY.

Definition subsidy (h : Z) : Z :=
  if h <? 1 then 0
  else if h <=? RAMP_END then ramp h
  else if step_of h <? tail_step then fst all_steps !!! Z.to_nat (step_of h - 2)
  else
    let t := h - (STEP * tail_step + 1) in (* blocks of the tail before this one *)
    if t <? tail_blocks - 1 then TAIL_PAY
    else if t =? tail_blocks - 1 then TAIL_PAY + (tail_left - TAIL_PAY * tail_blocks)
    else 0.

(** The fuel is enough: the recursion stops by itself, at the tail. *)
Lemma all_steps_length : length (fst all_steps) = 310%nat.
Proof. vm_compute. reflexivity. Qed.
Lemma all_steps_fuel extra : steps (311 + extra) 5000 (MAX_SUPPLY_SAT - ramp_total) = all_steps.
Proof. vm_compute. reflexivity. Qed.

End Charter.

(** A table pays [v] on the whole range [lo .. hi]. *)
Fixpoint pays_on (eras : list EmissionEra) (lo hi v : Z) : bool :=
  match eras with
  | [] => false
  | e :: rest =>
      if endHeight e <? lo then pays_on rest lo hi v
      else (startHeight e <=? lo) && (hi <=? endHeight e) && (baseSubsidy e =? v)
  end.

Lemma pays_on_row eras lo hi v h :
  pays_on eras lo hi v = true -> lo <= h <= hi -> row_subsidy eras h = v.
Proof.
  induction eras as [|e rest IH]; cbn; [discriminate|]. intros H Hh.
  rewrite Z.gtb_ltb. destruct (Z.ltb_spec (endHeight e) lo).
  - replace (endHeight e <? h) with true by lia. auto.
  - rewrite !andb_true_iff, !Z.leb_le, Z.eqb_eq in H.
    replace (endHeight e <? h) with false by lia.
    replace (h <? startHeight e) with false by lia. lia.
Qed.

(** The ramp and the tail of the compiled-in table. *)
Lemma EMISSION_TABLE_ramp h : 1 <= h <= Charter.RAMP_END -> row_subsidy EMISSION_TABLE h = Charter.ramp h.
Proof.
  intros Hh. unfold Charter.ramp, Charter.RAMP_END in *.
  destruct (Z.leb_spec h 20000); [apply (pays_on_row _ 1 20000); [reflexivity|lia]|].
  destruct (Z.leb_spec h 40000); [apply (pays_on_row _ 20001 40000); [reflexivity|lia]|].
  destruct (Z.leb_spec h 60000); [apply (pays_on_row _ 40001 60000); [reflexivity|lia]|].
  apply (pays_on_row _ 60001 220000); [reflexivity|lia].
Qed.

Lemma EMISSION_TABLE_tail h :
  34320001 <= h <= 35375353 -> row_subsidy EMISSION_TABLE h = Charter.TAIL_PAY.
Proof. intros. apply (pays_on_row _ 34320001 35375353); [vm_compute; reflexivity|lia]. Qed.

(** Every step between, checked row by row. *)
Lemma EMISSION_TABLE_steps_check :
  forallb (fun s => pays_on EMISSION_TABLE (110000 * Z.of_nat (s + 2) + 1)
                      (110000 * (Z.of_nat (s + 2) + 1)) (fst Charter.all_steps !!! s))
    (seq 0 310) = true.
Proof. vm_compute. reflexivity. Qed.

Lemma EMISSION_TABLE_steps h :
  220001 <= h <= 34320000 ->
  row_subsidy EMISSION_TABLE h = fst Charter.all_steps !!! Z.to_nat (Charter.step_of h - 2).
Proof.
  intros Hh. unfold Charter.step_of, Charter.STEP. set (s := (h - 1) / 110000).
  assert (2 <= s < 312 /\ 110000 * s + 1 <= h <= 110000 * (s + 1)) as [Hs Hr]
    by (subst s; zlia).
  pose proof EMISSION_TABLE_steps_check as H. rewrite forallb_forall in H.
  specialize (H (Z.to_nat (s - 2))). rewrite Nat2Z.inj_add, Z2Nat.id in H by lia.
  replace (s - 2 + Z.of_nat 2) with s in H by lia.
  eapply pays_on_row; [apply H; apply in_seq; lia|lia].
Qed.

(** C33: the compiled-in table implements charter section 4: at every height the
    subsidy the code pays on mainnet is the amount the charter's words assign
    to that block (ramp, ten-percent steps with the 1.5 XID floor and the
    one-tenth-of-what-is-left ceiling, 0.1 XID tail, closing remainder). *)
Theorem mainnet_subsidy_is_charter (h : Z) : GetBlockSubsidy h CMainParams = Charter.subsidy h.
Proof.
  rewrite (GetBlockSubsidy_rows _ _ CMainParams_emission_ok).
  change (emissionTable CMainParams) with EMISSION_TABLE.
  change (EmissionEndHeight CMainParams) with 35375353.
  change (emissionClosingDustSat CMainParams) with 1660000.
  destruct (emission_ok_chained _ CMainParams_emission_ok) as (Hc & He & _).
  change (emissionTable CMainParams) with EMISSION_TABLE in Hc, He.
  change (EmissionEndHeight CMainParams) with 35375353 in He.
  unfold Charter.subsidy. change Charter.tail_step with 312.
  change Charter.tail_blocks with 1055353. change Charter.tail_left with 10553531660000.
  change (Charter.STEP * 312 + 1) with 34320001. change Charter.RAMP_END with 220000.
  destruct (Z.ltb_spec h 1) as [H1|H1].
  { replace (h =? 35375353) with false by lia. cbn [row_subsidy EMISSION_TABLE].
    rewrite Z.gtb_ltb. cbn [endHeight startHeight].
    replace (20000 <? h) with false by lia. replace (h <? 1) with true by lia. reflexivity. }
  destruct (Z.leb_spec h 220000).
  { replace (h =? 35375353) with false by lia. rewrite EMISSION_TABLE_ramp; [lia|].
    change Charter.RAMP_END with 220000. lia. }
  assert (Charter.step_of h < 312 <-> h <= 34320000) as Hst
    by (unfold Charter.step_of, Charter.STEP; split; intros; zlia).
  destruct (Z.ltb_spec (Charter.step_of h) 312).
  { replace (h =? 35375353) with false by lia. rewrite EMISSION_TABLE_steps by lia. apply Z.add_0_r. }
  cbv zeta. unfold Charter.TAIL_PAY in *.
  destruct (Z.ltb_spec (h - 34320001) (1055353 - 1)).
  { replace (h =? 35375353) with false by lia. rewrite EMISSION_TABLE_tail by lia.
    unfold Charter.TAIL_PAY. lia. }
  destruct (Z.eqb_spec (h - 34320001) (1055353 - 1)).
  { replace (h =? 35375353) with true by lia. rewrite EMISSION_TABLE_tail by lia.
    unfold Charter.TAIL_PAY. lia. }
  replace (h =? 35375353) with false by lia. rewrite (row_subsidy_past _ 1) by (assumption || lia).
  reflexivity.
Qed.

Lemma mainnet_supply_le h : cumulative_supply CMainParams h <= MAX_MONEY.
Proof.
  destruct (Z.le_gt_cases 0 h).
  - destruct (emission_ok_chained _ CMainParams_emission_ok) as (Hc & _ & _).
    rewrite cumulative_supply_closed by (apply CMainParams_emission_ok || lia).
    pose proof (scheduled_le_total _ _ h Hc) as Hs.
    change (table_total (emissionTable CMainParams)) with 9999999998340000 in Hs.
    change (emissionClosingDustSat CMainParams) with 1660000.
    change MAX_MONEY with 10000000000000000. destruct (_ <=? h); lia.
  - unfold cumulative_supply. replace (Z.to_nat (h + 1)) with 0%nat by lia.
    vm_compute. discriminate.
Qed.

Lemma cumulative_supply_succ p h : 0 <= h -> cumulative_supply p h = cumulative_supply p (h - 1) + GetBlockSubsidy h p.
Proof.
  intros Hh. unfold cumulative_supply. replace (h - 1 + 1) with h by lia. replace (Z.to_nat (h + 1)) with (S (Z.to_nat h)) by lia.
  cbn [supply_of_first]. rewrite Z2Nat.id by lia. reflexivity.
Qed.
Lemma subsidy_nonneg p h : emission_ok p -> 0 <= GetBlockSubsidy h p.
Proof.
  intros Hok. rewrite (GetBlockSubsidy_rows _ _ Hok). destruct (emission_ok_chained _ Hok) as (Hc & _ & _).
  pose proof (row_subsidy_bounds _ _ h Hc). pose proof (ok_dust _ Hok). destruct (_ =? _); lia.
Qed.
Lemma supply_nonneg p n : emission_ok p -> 0 <= supply_of_first n p.
Proof. intros Hok. induction n as [|n IH]; cbn [supply_of_first]; [lia|]. pose proof (subsidy_nonneg p (Z.of_nat n) Hok). lia. Qed.
Lemma mainnet_subsidy_range h : 0 <= h -> 0 <= GetBlockSubsidy h CMainParams <= MAX_MONEY.
Proof.
  intros Hh. split; [apply subsidy_nonneg, CMainParams_emission_ok|]. pose proof (mainnet_supply_le h) as H. rewrite cumulative_supply_succ in H by exact Hh.
  pose proof (supply_nonneg CMainParams (Z.to_nat (h - 1 + 1)) CMainParams_emission_ok). unfold cumulative_supply in H. lia.
Qed.

(** C8: the cap.  On mainnet the units in existence after any block are at most
    [MAX_MONEY], and exactly [MAX_MONEY] (100,000,000 XID) from block
    35,375,353 on; block 0 and every later block mint nothing. *)
Theorem mainnet_supply_cap (h : Z) :
  cumulative_supply CMainParams h <= MAX_MONEY /\
  (35375353 <= h -> cumulative_supply CMainParams h = MAX_MONEY) /\
  (h <= 0 \/ 35375353 < h -> GetBlockSubsidy h CMainParams = 0).
Proof.
  split; [|split].
  - apply mainnet_supply_le.
  - intros Hh. destruct (emission_ok_chained _ CMainParams_emission_ok) as (Hc & He & _).
    rewrite cumulative_supply_closed by (apply CMainParams_emission_ok || lia).
    change (EmissionEndHeight CMainParams) with 35375353 in *.
    replace (35375353 <=? h) with true by lia.
    rewrite (scheduled_all _ 1) by (assumption || lia). reflexivity.
  - intros Hh. rewrite (GetBlockSubsidy_rows _ _ CMainParams_emission_ok).
    destruct (emission_ok_chained _ CMainParams_emission_ok) as (Hc & He & Hge).
    change (EmissionEndHeight CMainParams) with 35375353 in *.
    replace (h =? 35375353) with false by lia.
    destruct Hh; [|rewrite (row_subsidy_past _ 1) by (assumption || lia); reflexivity].
    cbn [emissionTable CMainParams EMISSION_TABLE row_subsidy endHeight startHeight].
    rewrite Z.gtb_ltb. replace (20000 <? h) with false by lia.
    replace (h <? 1) with true by lia. reflexivity.
Qed.
