(* ===== verification/Levy.v ===== *)
(** * The settlement levy

    The arithmetic of [src/consensus/levy.h], at [int64_t] width, and the
    height-keyed schedule of [src/consensus/params.h]. *)

From S2P Require Import Prelude ConsensusParams.

Local Open Scope Z_scope.

(** ** The code *)

Definition LEVY_DENOMINATOR : Z := 10000.

Definition SettlementLevyUncapped (value_out levy_bp : Z) : Z :=
  if (levy_bp <=? 0) || (value_out <=? 0) then 0
  else
    let whole := value_out /c LEVY_DENOMINATOR in
    let rest := value_out %c LEVY_DENOMINATOR in
    i64 (i64 (whole * levy_bp) +
         i64 (i64 (i64 (rest * levy_bp) + LEVY_DENOMINATOR) - 1) /c LEVY_DENOMINATOR).

Definition SettlementLevy (value_out levy_bp cap_sat : Z) : Z :=
  Z.min (SettlementLevyUncapped value_out levy_bp) cap_sat.
Definition SettlementLevy_rule (value_out : Z) (rule : SettlementLevyRule) : Z :=
  SettlementLevy value_out (bp rule) (capSat rule).

Definition SettlementLevyFromInputs (value_in levy_bp cap_sat : Z) : Z :=
  if (levy_bp <=? 0) || (value_in <=? 0) then 0
  else
    let d := i64 (LEVY_DENOMINATOR + levy_bp) in
    let whole := value_in /c d in
    let rest := value_in %c d in
    let fee := i64 (i64 (whole * levy_bp) + i64 (i64 (i64 (rest * levy_bp) + d) - 1) /c d) in
    Z.min fee cap_sat.

(** ** Rounded-up division *)

Definition ceil_div (a d : Z) : Z := (a + d - 1) / d.

Lemma ceil_div_least a d f : 0 < d -> ceil_div a d <= f <-> a <= f * d.
Proof.
  intros Hd. unfold ceil_div. pose proof (Z.div_mod (a + d - 1) d ltac:(lia)).
  pose proof (Z.mod_pos_bound (a + d - 1) d Hd). split; intros; nia.
Qed.

Lemma ceil_div_mono a a' d : 0 < d -> a <= a' -> ceil_div a d <= ceil_div a' d.
Proof. intros. unfold ceil_div. apply Z.div_le_mono; lia. Qed.

(** Splitting the dividend at the denominator, as the code does. *)
Lemma ceil_div_split v b d :
  0 < d -> ceil_div (v * b) d = v / d * b + ceil_div (v mod d * b) d.
Proof.
  intros Hd. unfold ceil_div.
  replace (v * b + d - 1) with (v mod d * b + d - 1 + v / d * b * d).
  - rewrite Z.div_add by lia. lia.
  - rewrite (Z.div_mod v d) at 3 by lia. ring.
Qed.

(** ** Exactness: no intermediate value overflows [int64_t] *)

(** The shared shape of the two functions. *)
Lemma levy_arith_exact v b d :
  0 < v <= MAX_MONEY -> 0 < b <= SETTLEMENT_LEVY_BP_MAX -> 10000 <= d <= 20000 ->
  i64 (i64 (v /c d * b) + i64 (i64 (i64 (v %c d * b) + d) - 1) /c d) = ceil_div (v * b) d.
Proof.
  unfold MAX_MONEY, COIN, SETTLEMENT_LEVY_BP_MAX. intros Hv Hb Hd.
  rewrite Z.quot_div_nonneg, Z.rem_mod_nonneg by lia.
  pose proof (Z.mod_pos_bound v d ltac:(lia)) as Hm.
  pose proof (Z.div_mod v d ltac:(lia)) as Hdm.
  assert (0 <= v / d <= 1000000000000) as Hq
    by (split; [apply Z.div_pos; lia|apply Z.div_le_upper_bound; nia]).
  assert (0 <= v mod d * b <= 200000000) by nia.
  rewrite (i64_id (v / d * b)) by (unfold is_i64; nia).
  rewrite (i64_id (v mod d * b)), (i64_id (_ + d)), (i64_id (_ - 1)) by (unfold is_i64; lia).
  rewrite Z.quot_div_nonneg by lia. rewrite ceil_div_split by lia.
  change ((v mod d * b + d - 1) / d) with (ceil_div (v mod d * b) d).
  assert (0 <= ceil_div (v mod d * b) d <= 200000000).
  { unfold ceil_div. split; [apply Z.div_pos; lia|]. apply Z.div_le_upper_bound; nia. }
  apply i64_id. unfold is_i64. nia.
Qed.

Lemma ceil_div_nonpos v b d : 0 < d -> b <= 0 \/ v <= 0 -> 0 <= v -> 0 <= b -> ceil_div (v * b) d = 0.
Proof.
  intros Hd H Hv Hb. replace (v * b) with 0 by nia. unfold ceil_div. apply Z.div_small. lia.
Qed.

Lemma SettlementLevyUncapped_ceil v b :
  0 <= v <= MAX_MONEY -> 0 <= b <= SETTLEMENT_LEVY_BP_MAX ->
  SettlementLevyUncapped v b = ceil_div (v * b) LEVY_DENOMINATOR.
Proof.
  intros Hv Hb. unfold SettlementLevyUncapped, LEVY_DENOMINATOR.
  destruct (Z.leb_spec b 0), (Z.leb_spec v 0); cbn [orb];
    try (symmetry; apply ceil_div_nonpos; lia).
  apply levy_arith_exact; lia.
Qed.

Lemma SettlementLevyFromInputs_ceil v b cap :
  0 <= v <= MAX_MONEY -> 0 <= b <= SETTLEMENT_LEVY_BP_MAX -> 0 <= cap ->
  SettlementLevyFromInputs v b cap = Z.min (ceil_div (v * b) (LEVY_DENOMINATOR + b)) cap.
Proof.
  intros Hv Hb Hcap. unfold SettlementLevyFromInputs, LEVY_DENOMINATOR in *.
  destruct (Z.leb_spec b 0), (Z.leb_spec v 0); cbn [orb];
    try (rewrite ceil_div_nonpos by lia; lia).
  cbv zeta. unfold SETTLEMENT_LEVY_BP_MAX in Hb. rewrite (i64_id (10000 + b)) by (unfold is_i64; lia).
  rewrite levy_arith_exact by (unfold SETTLEMENT_LEVY_BP_MAX; lia). reflexivity.
Qed.

(** ** Theorems *)

(** C34: for every output sum up to [MAX_MONEY] and every rate up to 100% the code
    computes min(ceil(value * bp / 10,000), cap) exactly: the least fee [f]
    with [f >= cap] or [10,000 f >= value * bp]; nothing overflows. *)
Theorem SettlementLevy_exact (v b cap f : Z)
  (Hv : 0 <= v <= MAX_MONEY) (Hb : 0 <= b <= SETTLEMENT_LEVY_BP_MAX) :
  SettlementLevy v b cap <= f <-> cap <= f \/ v * b <= f * 10000.
Proof.
  unfold SettlementLevy. rewrite SettlementLevyUncapped_ceil by assumption.
  rewrite Z.min_le_iff. rewrite (ceil_div_least (v * b)) by (unfold LEVY_DENOMINATOR; lia).
  unfold LEVY_DENOMINATOR. lia.
Qed.
Lemma SettlementLevy_exact_witness :
  SettlementLevy MAX_MONEY 10000 (2 * MAX_MONEY) <= MAX_MONEY
  <-> 2 * MAX_MONEY <= MAX_MONEY \/ MAX_MONEY * 10000 <= MAX_MONEY * 10000.
Proof.
  apply (SettlementLevy_exact MAX_MONEY 10000 (2 * MAX_MONEY) MAX_MONEY);
    vm_compute; split; discriminate.
Defined.

(** the wallet helper is right: for a spender whose inputs are worth [v] and
    who lets everything but the fee go to outputs, [f] pays the levy on what
    it leaves exactly when [f] reaches [SettlementLevyFromInputs]; so that is
    the smallest sufficient fee. *)
Theorem SettlementLevyFromInputs_least (v b cap f : Z)
  (Hv : 0 <= v <= MAX_MONEY) (Hb : 0 <= b <= SETTLEMENT_LEVY_BP_MAX) (Hcap : 0 <= cap)
  (Hf : 0 <= f <= v) :
  SettlementLevyFromInputs v b cap <= f <-> SettlementLevy (v - f) b cap <= f.
Proof.
  rewrite SettlementLevyFromInputs_ceil by assumption.
  unfold SettlementLevy. rewrite SettlementLevyUncapped_ceil by (assumption || lia).
  rewrite !Z.min_le_iff, !ceil_div_least by (unfold LEVY_DENOMINATOR; lia).
  unfold LEVY_DENOMINATOR. split; (intros [?|?]; [left; nia|right; lia]).
Qed.
Lemma SettlementLevyFromInputs_least_witness :
  SettlementLevyFromInputs 10005 5 10000 <= 5 <-> SettlementLevy (10005 - 5) 5 10000 <= 5.
Proof.
  apply (SettlementLevyFromInputs_least 10005 5 10000 5);
    unfold MAX_MONEY, COIN, SETTLEMENT_LEVY_BP_MAX; lia.
Defined.

(** ** The schedule *)

(** The order in which a soft-fork-only schedule may evolve. *)
Definition rule_le (r s : SettlementLevyRule) : Prop := bp r <= bp s /\ capSat r <= capSat s.
#[export] Instance rule_le_preorder : PreOrder rule_le.
Proof. split; [intros r; red; lia|intros r s t [? ?] [? ?]; red; lia]. Qed.

Definition rule_valid (r : SettlementLevyRule) : Prop :=
  0 <= bp r <= SETTLEMENT_LEVY_BP_MAX /\ 0 <= capSat r.

(** What [SettlementLevyScheduleIsSoftForkOnly] decides, as a recursive predicate. *)
Fixpoint rising (prev : SettlementLevyRule) (schedule : list SettlementLevyRule) : Prop :=
  match schedule with
  | [] => True
  | r :: rest =>
      rule_valid r /\ rule_startHeight prev < rule_startHeight r /\ rule_le prev r /\ rising r rest
  end.

Lemma soft_fork_row_spec (r prev : SettlementLevyRule) :
  negb ((bp r <? 0) || (bp r >? SETTLEMENT_LEVY_BP_MAX) || (capSat r <? 0)) &&
  negb ((rule_startHeight r <=? rule_startHeight prev) || (bp r <? bp prev) ||
        (capSat r <? capSat prev)) = true ->
  rule_valid r /\ rule_startHeight prev < rule_startHeight r /\ rule_le prev r.
Proof. unfold rule_valid, rule_le. lia. Qed.

Lemma soft_fork_rising_from (schedule : list SettlementLevyRule) k prev :
  schedule !! k = Some prev ->
  forallb (fun i =>
        let r := schedule !!! i in
        negb ((bp r <? 0) || (bp r >? SETTLEMENT_LEVY_BP_MAX) || (capSat r <? 0)) &&
        (if (0 <? i)%nat then
           let prev := schedule !!! (i - 1)%nat in
           negb ((rule_startHeight r <=? rule_startHeight prev) ||
                 (bp r <? bp prev) || (capSat r <? capSat prev))
         else true))
        (seq (S k) (length schedule - S k)) = true ->
  rising prev (drop (S k) schedule).
Proof.
  remember (length schedule - S k)%nat as n eqn:Hn. revert k prev Hn.
  induction n as [|n IH]; intros k prev Hn Hp Hall.
  { rewrite drop_ge by lia. exact I. }
  cbn [seq forallb] in Hall. apply andb_true_iff in Hall as [Hrow Hrest].
  destruct (lookup_lt_is_Some_2 schedule (S k) ltac:(lia)) as [r Hr].
  rewrite (list_lookup_total_correct _ _ _ Hr) in Hrow. cbv zeta in Hrow.
  replace (0 <? S k)%nat with true in Hrow by reflexivity.
  replace (S k - 1)%nat with k in Hrow by lia.
  rewrite (list_lookup_total_correct _ _ _ Hp) in Hrow.
  apply soft_fork_row_spec in Hrow as (Hv & Hs & Hle).
  rewrite (drop_S _ _ _ Hr). cbn [rising]. repeat split; try apply Hv; try apply Hle; try assumption.
  apply IH; [lia|assumption|assumption].
Qed.

Lemma soft_fork_rising schedule :
  SettlementLevyScheduleIsSoftForkOnly schedule = true ->
  exists front rest, schedule = front :: rest /\ rule_startHeight front = 0 /\
    rule_valid front /\ rising front rest.
Proof.
  destruct schedule as [|front rest]; [discriminate|]. cbn [SettlementLevyScheduleIsSoftForkOnly].
  intros H. apply andb_true_iff in H as [H0 Hall]. apply Z.eqb_eq in H0.
  exists front, rest. split; [reflexivity|]. split; [assumption|].
  cbn [length seq forallb] in Hall. apply andb_true_iff in Hall as [Hrow Hrest]. split.
  - rewrite andb_true_r in Hrow. cbn in Hrow. unfold rule_valid. lia.
  - apply (soft_fork_rising_from (front :: rest) 0); [reflexivity|].
    cbn [length]. replace (S (length rest) - 1)%nat with (length rest) by lia. exact Hrest.
Qed.

(** Along a rising schedule the rule in force only rises with height. *)
Lemma SettlementLevyAt_loop_le prev schedule h :
  rising prev schedule -> rule_valid prev ->
  rule_le prev (SettlementLevyAt_loop prev schedule h) /\
  rule_valid (SettlementLevyAt_loop prev schedule h).
Proof.
  revert prev. induction schedule as [|r rest IH]; intros prev; cbn.
  - intros _ Hv. split; [reflexivity|assumption].
  - intros (Hv & Hs & Hle & Hr) Hp. destruct (rule_startHeight r >? h).
    + split; [reflexivity|assumption].
    + destruct (IH r Hr Hv) as [H1 H2]. split; [etransitivity; eassumption|assumption].
Qed.

Lemma SettlementLevyAt_loop_mono prev schedule h1 h2 :
  rising prev schedule -> rule_valid prev -> h1 <= h2 ->
  rule_le (SettlementLevyAt_loop prev schedule h1) (SettlementLevyAt_loop prev schedule h2).
Proof.
  revert prev. induction schedule as [|r rest IH]; intros prev; cbn; [reflexivity|].
  intros (Hv & Hs & Hle & Hr) Hp Hh. rewrite !Z.gtb_ltb.
  destruct (Z.ltb_spec h1 (rule_startHeight r)), (Z.ltb_spec h2 (rule_startHeight r)).
  - reflexivity.
  - etransitivity; [exact Hle|]. apply SettlementLevyAt_loop_le; assumption.
  - lia.
  - apply IH; assumption.
Qed.

Lemma SettlementLevyAt_mono p h1 h2 :
  SettlementLevyScheduleIsSoftForkOnly (settlementLevySchedule p) = true ->
  0 <= h1 <= h2 ->
  rule_le (SettlementLevyAt p h1) (SettlementLevyAt p h2) /\
  rule_valid (SettlementLevyAt p h1) /\ rule_valid (SettlementLevyAt p h2).
Proof.
  intros Hsf Hh. destruct (soft_fork_rising _ Hsf) as (front & rest & He & H0 & Hv & Hr).
  unfold SettlementLevyAt. rewrite He. cbn [SettlementLevyAt_loop].
  rewrite !Z.gtb_ltb, !H0. replace (h1 <? 0) with false by lia. replace (h2 <? 0) with false by lia.
  split; [apply SettlementLevyAt_loop_mono; (assumption || lia)|].
  split; apply SettlementLevyAt_loop_le; assumption.
Qed.

Lemma SettlementLevy_rule_mono v r s :
  0 <= v <= MAX_MONEY -> rule_valid r -> rule_valid s -> rule_le r s ->
  SettlementLevy_rule v r <= SettlementLevy_rule v s.
Proof.
  intros Hv [Hr Hr'] [Hs Hs'] [Hb Hc]. unfold SettlementLevy_rule, SettlementLevy.
  rewrite !SettlementLevyUncapped_ceil by lia.
  pose proof (ceil_div_mono (v * bp r) (v * bp s) LEVY_DENOMINATOR ltac:(unfold LEVY_DENOMINATOR; lia)).
  nia.
Qed.

(** C35: a schedule that chainparams accepts evolves by soft forks only: the
    minimum fee of a transaction never falls as the height grows, so a fee
    that satisfies the rule at a later height satisfied it at every earlier
    one. *)
Theorem levy_schedule_soft_fork_only (p : Params) (h1 h2 v fee : Z)
  (Hsf : SettlementLevyScheduleIsSoftForkOnly (settlementLevySchedule p) = true)
  (Hh : 0 <= h1 <= h2) (Hv : 0 <= v <= MAX_MONEY)
  (Hpaid : SettlementLevy_rule v (SettlementLevyAt p h2) <= fee) :
  SettlementLevy_rule v (SettlementLevyAt p h1) <= fee.
Proof.
  destruct (SettlementLevyAt_mono p h1 h2 Hsf Hh) as (Hle & V1 & V2).
  pose proof (SettlementLevy_rule_mono v _ _ Hv V1 V2 Hle). lia.
Qed.

(** The parameters [p] with another levy schedule. *)
Definition with_levy_schedule (p : Params) (schedule : list SettlementLevyRule) : Params :=
  {| hashGenesisBlock := hashGenesisBlock p;
     nSubsidyHalvingInterval := nSubsidyHalvingInterval p;
     script_flag_exceptions := script_flag_exceptions p;
     BIP34Height := BIP34Height p;
     BIP34Hash := BIP34Hash p;
     BIP65Height := BIP65Height p;
     BIP66Height := BIP66Height p;
     CSVHeight := CSVHeight p;
     SegwitHeight := SegwitHeight p;
     MinBIP9WarningHeight := MinBIP9WarningHeight p;
     vDeployments := vDeployments p;
     powLimit := powLimit p;
     fPowAllowMinDifficultyBlocks := fPowAllowMinDifficultyBlocks p;
     enforce_BIP94 := enforce_BIP94 p;
     fPowNoRetargeting := fPowNoRetargeting p;
     nPowTargetSpacing := nPowTargetSpacing p;
     nPowTargetTimespan := nPowTargetTimespan p;
     nASERTActivationHeight := nASERTActivationHeight p;
     nASERTHalfLife := nASERTHalfLife p;
     metaldagBaseTime := metaldagBaseTime p;
     metaldagEpochSeconds := metaldagEpochSeconds p;
     metaldagDagInitBytes := metaldagDagInitBytes p;
     metaldagDagGrowthBytes := metaldagDagGrowthBytes p;
     metaldagCacheDivisor := metaldagCacheDivisor p;
     nMinimumChainWork := nMinimumChainWork p;
     defaultAssumeValid := defaultAssumeValid p;
     emissionTable := emissionTable p;
     emissionClosingDustSat := emissionClosingDustSat p;
     permitV2Outputs := permitV2Outputs p;
     settlementLevySchedule := schedule;
     minOutputValueSat := minOutputValueSat p;
     coinbaseMaturity := coinbaseMaturity p;
     release_checkpoints := release_checkpoints p;
     pow_algos := pow_algos p;
     pow_share := pow_share p;
     max_consecutive_same_algo := max_consecutive_same_algo p;
     multi_algo_activation_height := multi_algo_activation_height p |}.
(** A chain with two raises. *)
Definition raised_params : Params :=
  with_levy_schedule CMainParams
    [SETTLEMENT_LEVY_GENESIS_RULE; mkLevyRule 1000 5 10000; mkLevyRule 2000 5 100000].

Lemma levy_schedule_soft_fork_only_witness :
  SettlementLevy_rule COIN (SettlementLevyAt raised_params 1500) <= 50000.
Proof.
  apply (levy_schedule_soft_fork_only raised_params 1500 2500 COIN 50000).
  - vm_compute. reflexivity.
  - lia.
  - unfold MAX_MONEY, COIN. lia.
  - vm_compute. discriminate.
Defined.
