(* ===== verification/Keccak.v ===== *)
(** * The Keccak-f[1600] permutation

    [KeccakF1600_StatePermute] of [src/pqcrypto/common/fips202.c], and the
    permutation of FIPS 202 written from the standard: theta, rho, pi, chi and
    iota on a 5 x 5 array of lanes, with the rotation offsets and the round
    constants computed from their defining recurrences.  The unrolled code is
    proved equal to it on every state.

    A state is the list of its 25 lanes; lane (x, y) is at index x + 5 y. *)

From S2P Require Import Prelude.

Local Open Scope Z_scope.

Create HintDb keccak.

(** ** The code *)

Definition NROUNDS : nat := 24.
Definition ROL (a offset : Z) : Z :=
  Z.lxor (u64 (Z.shiftl a offset)) (Z.shiftr a (64 - offset)).
(** [~a] on [uint64_t] *)
Definition not64 (a : Z) : Z := Z.lxor a 18446744073709551615.

Definition KeccakF_RoundConstants : list Z := [
  0x0000000000000001; 0x0000000000008082;
  0x800000000000808a; 0x8000000080008000;
  0x000000000000808b; 0x0000000080000001;
  0x8000000080008081; 0x8000000000008009;
  0x000000000000008a; 0x0000000000000088;
  0x0000000080008009; 0x000000008000000a;
  0x000000008000808b; 0x800000000000008b;
  0x8000000000008089; 0x8000000000008003;
  0x8000000000008002; 0x8000000000000080;
  0x000000000000800a; 0x800000008000000a;
  0x8000000080008081; 0x8000000000008080;
  0x0000000080000001; 0x8000000080008008
].

(** Half of the loop body: [prepareTheta] and
    [thetaRhoPiChiIotaPrepareTheta(round, A, E)].  The other half is the same
    code with the roles of the A and E variables exchanged. *)
Definition keccak_half (rc : Z) (s : list Z) : list Z :=
  match s with
  | [Aba; Abe; Abi; Abo; Abu;
     Aga; Age; Agi; Ago; Agu;
     Aka; Ake; Aki; Ako; Aku;
     Ama; Ame; Ami; Amo; Amu;
     Asa; Ase; Asi; Aso; Asu] =>
      let BCa := Z.lxor (Z.lxor (Z.lxor (Z.lxor Aba Aga) Aka) Ama) Asa in
      let BCe := Z.lxor (Z.lxor (Z.lxor (Z.lxor Abe Age) Ake) Ame) Ase in
      let BCi := Z.lxor (Z.lxor (Z.lxor (Z.lxor Abi Agi) Aki) Ami) Asi in
      let BCo := Z.lxor (Z.lxor (Z.lxor (Z.lxor Abo Ago) Ako) Amo) Aso in
      let BCu := Z.lxor (Z.lxor (Z.lxor (Z.lxor Abu Agu) Aku) Amu) Asu in
      let Da := Z.lxor BCu (ROL BCe 1) in
      let De := Z.lxor BCa (ROL BCi 1) in
      let Di := Z.lxor BCe (ROL BCo 1) in
      let Do := Z.lxor BCi (ROL BCu 1) in
      let Du := Z.lxor BCo (ROL BCa 1) in
      let Aba := Z.lxor Aba Da in
      let BCa := Aba in
      let Age := Z.lxor Age De in
      let BCe := ROL Age 44 in
      let Aki := Z.lxor Aki Di in
      let BCi := ROL Aki 43 in
      let Amo := Z.lxor Amo Do in
      let BCo := ROL Amo 21 in
      let Asu := Z.lxor Asu Du in
      let BCu := ROL Asu 14 in
      let Eba := Z.lxor BCa (Z.land (not64 BCe) BCi) in
      let Eba := Z.lxor Eba rc in
      let Ebe := Z.lxor BCe (Z.land (not64 BCi) BCo) in
      let Ebi := Z.lxor BCi (Z.land (not64 BCo) BCu) in
      let Ebo := Z.lxor BCo (Z.land (not64 BCu) BCa) in
      let Ebu := Z.lxor BCu (Z.land (not64 BCa) BCe) in
      let Abo := Z.lxor Abo Do in
      let BCa := ROL Abo 28 in
      let Agu := Z.lxor Agu Du in
      let BCe := ROL Agu 20 in
      let Aka := Z.lxor Aka Da in
      let BCi := ROL Aka 3 in
      let Ame := Z.lxor Ame De in
      let BCo := ROL Ame 45 in
      let Asi := Z.lxor Asi Di in
      let BCu := ROL Asi 61 in
      let Ega := Z.lxor BCa (Z.land (not64 BCe) BCi) in
      let Ege := Z.lxor BCe (Z.land (not64 BCi) BCo) in
      let Egi := Z.lxor BCi (Z.land (not64 BCo) BCu) in
      let Ego := Z.lxor BCo (Z.land (not64 BCu) BCa) in
      let Egu := Z.lxor BCu (Z.land (not64 BCa) BCe) in
      let Abe := Z.lxor Abe De in
      let BCa := ROL Abe 1 in
      let Agi := Z.lxor Agi Di in
      let BCe := ROL Agi 6 in
      let Ako := Z.lxor Ako Do in
      let BCi := ROL Ako 25 in
      let Amu := Z.lxor Amu Du in
      let BCo := ROL Amu 8 in
      let Asa := Z.lxor Asa Da in
      let BCu := ROL Asa 18 in
      let Eka := Z.lxor BCa (Z.land (not64 BCe) BCi) in
      let Eke := Z.lxor BCe (Z.land (not64 BCi) BCo) in
      let Eki := Z.lxor BCi (Z.land (not64 BCo) BCu) in
      let Eko := Z.lxor BCo (Z.land (not64 BCu) BCa) in
      let Eku := Z.lxor BCu (Z.land (not64 BCa) BCe) in
      let Abu := Z.lxor Abu Du in
      let BCa := ROL Abu 27 in
      let Aga := Z.lxor Aga Da in
      let BCe := ROL Aga 36 in
      let Ake := Z.lxor Ake De in
      let BCi := ROL Ake 10 in
      let Ami := Z.lxor Ami Di in
      let BCo := ROL Ami 15 in
      let Aso := Z.lxor Aso Do in
      let BCu := ROL Aso 56 in
      let Ema := Z.lxor BCa (Z.land (not64 BCe) BCi) in
      let Eme := Z.lxor BCe (Z.land (not64 BCi) BCo) in
      let Emi := Z.lxor BCi (Z.land (not64 BCo) BCu) in
      let Emo := Z.lxor BCo (Z.land (not64 BCu) BCa) in
      let Emu := Z.lxor BCu (Z.land (not64 BCa) BCe) in
      let Abi := Z.lxor Abi Di in
      let BCa := ROL Abi 62 in
      let Ago := Z.lxor Ago Do in
      let BCe := ROL Ago 55 in
      let Aku := Z.lxor Aku Du in
      let BCi := ROL Aku 39 in
      let Ama := Z.lxor Ama Da in
      let BCo := ROL Ama 41 in
      let Ase := Z.lxor Ase De in
      let BCu := ROL Ase 2 in
      let Esa := Z.lxor BCa (Z.land (not64 BCe) BCi) in
      let Ese := Z.lxor BCe (Z.land (not64 BCi) BCo) in
      let Esi := Z.lxor BCi (Z.land (not64 BCo) BCu) in
      let Eso := Z.lxor BCo (Z.land (not64 BCu) BCa) in
      let Esu := Z.lxor BCu (Z.land (not64 BCa) BCe) in
      [Eba; Ebe; Ebi; Ebo; Ebu;
       Ega; Ege; Egi; Ego; Egu;
       Eka; Eke; Eki; Eko; Eku;
       Ema; Eme; Emi; Emo; Emu;
       Esa; Ese; Esi; Eso; Esu]
  | _ => s
  end.

(** [for (round = 0; round < NROUNDS; round += 2)] *)
Definition KeccakF1600_StatePermute (state : list Z) : list Z :=
  for_loop (NROUNDS / 2) 0 (fun i s =>
    let round := (2 * i)%nat in
    let e := keccak_half (KeccakF_RoundConstants !!! round) s in
    keccak_half (KeccakF_RoundConstants !!! (round + 1)%nat) e) state.

(** ** The standard *)

Module Standard.
Definition lane (s : list Z) (x y : nat) : Z := s !!! (x mod 5 + 5 * (y mod 5))%nat.
Definition of_lanes (f : nat -> nat -> Z) : list Z :=
  fill 25 (fun i => f (i mod 5)%nat (i / 5)%nat).

Definition column (s : list Z) (x : nat) : Z :=
  Z.lxor (Z.lxor (Z.lxor (Z.lxor (lane s x 0) (lane s x 1)) (lane s x 2)) (lane s x 3)) (lane s x 4).
Definition theta (s : list Z) : list Z :=
  of_lanes (fun x y => Z.lxor (lane s x y) (Z.lxor (column s (x + 4)) (ROL (column s (x + 1)) 1))).

(** rho: walking (x, y) := (y, 2x + 3y) from (1, 0), step t has offset
    (t + 1)(t + 2)/2 mod 64; lane (0, 0) is not rotated. *)
Fixpoint rho_walk (n t x y : nat) : list (nat * nat * Z) :=
  match n with
  | O => []
  | S n => (x, y, Z.of_nat ((t + 1) * (t + 2) / 2) mod 64)
           :: rho_walk n (S t) y ((2 * x + 3 * y) mod 5)
  end.
Definition rho_offset (x y : nat) : Z :=
  match List.find (fun '(a, b, _) => (a =? x)%nat && (b =? y)%nat) (rho_walk 24 0 1 0) with
  | Some (_, _, o) => o
  | None => 0
  end.
Definition rho (s : list Z) : list Z :=
  of_lanes (fun x y => if (x =? 0)%nat && (y =? 0)%nat then lane s x y
                       else ROL (lane s x y) (rho_offset x y)).
Definition pi (s : list Z) : list Z := of_lanes (fun x y => lane s (x + 3 * y) x).
Definition chi (s : list Z) : list Z :=
  of_lanes (fun x y => Z.lxor (lane s x y) (Z.land (not64 (lane s (x + 1) y)) (lane s (x + 2) y))).

(** The bits rc(t) of the round constants: the output of the shift register
    with polynomial x^8 + x^6 + x^5 + x^4 + 1. *)
Definition lfsr_step (r : Z) : Z :=
  let r := Z.shiftl r 1 in
  if Z.testbit r 8 then Z.lxor r 0x171 else r.
Definition rc_bit (t : nat) : bool := Z.testbit (Nat.iter (t mod 255) lfsr_step 1) 0.
Definition round_constant (i : nat) : Z :=
  fold_left (fun acc j => if rc_bit (j + 7 * i) then Z.lor acc (Z.shiftl 1 (2 ^ Z.of_nat j - 1)) else acc)
    (seq 0 7) 0.
Definition iota (i : nat) (s : list Z) : list Z :=
  of_lanes (fun x y => if (x =? 0)%nat && (y =? 0)%nat then Z.lxor (lane s x y) (round_constant i)
                       else lane s x y).

Definition round (i : nat) (s : list Z) : list Z := iota i (chi (pi (rho (theta s)))).
Definition keccak_f (s : list Z) : list Z := for_loop 24 0 round s.
End Standard.

(** ** The code implements the standard *)

Lemma round_constants_table i :
  (i < 24)%nat -> Standard.round_constant i = KeccakF_RoundConstants !!! i.
Proof.
  intros Hi. assert (forallb (fun i => Standard.round_constant i =? KeccakF_RoundConstants !!! i)
    (seq 0 24) = true) as H by (vm_compute; reflexivity).
  rewrite forallb_forall in H. apply Z.eqb_eq, H, in_seq. lia.
Qed.

Lemma keccak_half_length rc s : length s = 25%nat -> length (keccak_half rc s) = 25%nat.
Proof. intros H. do 25 (destruct s as [|? s]; [discriminate|]). destruct s; [reflexivity|discriminate]. Qed.

Lemma keccak_half_round i s :
  (i < 24)%nat -> length s = 25%nat ->
  keccak_half (KeccakF_RoundConstants !!! i) s = Standard.round i s.
Proof.
  intros Hi Hs. rewrite <- round_constants_table by exact Hi.
  unfold Standard.round, Standard.iota. generalize (Standard.round_constant i) as rc. intros rc.
  do 25 (destruct s as [|? s]; [discriminate|]). destruct s; [|discriminate].
  cbv -[Z.lxor Z.land ROL not64]. reflexivity.
Qed.

(** Two iterations of single steps are one iteration of double steps. *)
Lemma for_loop_pairs {A : Type} (f : nat -> A -> A) n i s :
  for_loop (2 * n) (2 * i) f s = for_loop n i (fun k s => f (2 * k + 1)%nat (f (2 * k)%nat s)) s.
Proof.
  revert i s. induction n as [|n IH]; intros i s; [reflexivity|].
  replace (2 * S n)%nat with (S (S (2 * n))) by lia. cbn [for_loop].
  replace (S (S (2 * i))) with (2 * S i)%nat by lia. rewrite IH.
  replace (S (2 * i)) with (2 * i + 1)%nat by lia. reflexivity.
Qed.

Lemma keccak_permute_spec s :
  length s = 25%nat ->
  length (KeccakF1600_StatePermute s) = 25%nat /\ KeccakF1600_StatePermute s = Standard.keccak_f s.
Proof.
  intros Hs. unfold Standard.keccak_f. change 24%nat with (2 * 12)%nat.
  change (for_loop (2 * 12) 0 Standard.round s) with (for_loop (2 * 12) (2 * 0) Standard.round s).
  rewrite for_loop_pairs. unfold KeccakF1600_StatePermute. change (NROUNDS / 2)%nat with 12%nat.
  assert (forall i s, length s = 25%nat -> (i < 12)%nat ->
    let e := keccak_half (KeccakF_RoundConstants !!! (2 * i)%nat) s in
    keccak_half (KeccakF_RoundConstants !!! (2 * i + 1)%nat) e
    = Standard.round (2 * i + 1) (Standard.round (2 * i) s)) as Hstep.
  { intros i t Ht Hi. cbv zeta. rewrite (keccak_half_round (2 * i + 1)) by (lia || apply keccak_half_length, Ht).
    rewrite (keccak_half_round (2 * i)) by (lia || exact Ht). reflexivity. }
  apply (for_loop_rel (fun a b => length a = 25%nat /\ a = b)
    (fun i s => let e := keccak_half (KeccakF_RoundConstants !!! (2 * i)%nat) s in
       keccak_half (KeccakF_RoundConstants !!! (2 * i + 1)%nat) e)
    (fun k s => Standard.round (2 * k + 1) (Standard.round (2 * k) s)) 12 0 s s); [auto|].
  intros j a b Hj [Ha <-]. split; [apply keccak_half_length, keccak_half_length, Ha|].
  apply Hstep; [exact Ha|lia].
Qed.

(** C31: the unrolled permutation is Keccak-f[1600] of FIPS 202: on every
    25-lane state the 24 rounds of the code equal 24 rounds of theta, rho, pi,
    chi and iota, with rotation offsets and round constants as the standard
    generates them. *)
Theorem keccak_permutation_standard (s : list Z) (Hs : length s = 25%nat) :
  KeccakF1600_StatePermute s = Standard.keccak_f s.
Proof. apply keccak_permute_spec, Hs. Qed.
Lemma keccak_permutation_standard_witness :
  KeccakF1600_StatePermute (replicate 25 0) = Standard.keccak_f (replicate 25 0).
Proof. apply (keccak_permutation_standard (replicate 25 0)). reflexivity. Defined.

(** The published first lane of Keccak-f on the zero state. *)
Example keccak_zero : KeccakF1600_StatePermute (replicate 25 0) !!! 0%nat = 0xF1258F7940E1DDE7.
Proof. vm_compute. reflexivity. Qed.

(** ** Lanes stay 64-bit *)

Lemma is_u64_testbit x : is_u64 x <-> 0 <= x /\ forall k, 64 <= k -> Z.testbit x k = false.
Proof.
  unfold is_u64. split.
  - intros Hx. split; [lia|]. intros k Hk. apply (Z.testbit_false x k ltac:(lia)).
    rewrite Z.div_small; [reflexivity|]. pose proof (Z.pow_le_mono_r 2 64 k ltac:(lia) Hk).
    change (2 ^ 64) with 18446744073709551616 in *. lia.
  - intros [H0 H]. split; [exact H0|]. replace x with (x mod 2 ^ 64).
    + apply (Z.mod_pos_bound x (2 ^ 64)). lia.
    + apply Z.bits_inj'. intros k Hk. rewrite Z.testbit_mod_pow2 by lia.
      destruct (Z.ltb_spec k 64); [reflexivity|]. rewrite H by lia. reflexivity.
Qed.
Lemma lxor_u64 x y : is_u64 x -> is_u64 y -> is_u64 (Z.lxor x y).
Proof.
  rewrite !is_u64_testbit. intros [Hx Bx] [Hy By]. split; [apply Z.lxor_nonneg; lia|].
  intros k Hk. rewrite Z.lxor_spec, Bx, By by exact Hk. reflexivity.
Qed.
Lemma land_u64 x y : is_u64 x -> is_u64 y -> is_u64 (Z.land x y).
Proof.
  rewrite !is_u64_testbit. intros [Hx Bx] [Hy By]. split; [apply Z.land_nonneg; lia|].
  intros k Hk. rewrite Z.land_spec, Bx, By by exact Hk. reflexivity.
Qed.
Lemma not64_u64 x : is_u64 x -> is_u64 (not64 x).
Proof. intros Hx. apply lxor_u64; [exact Hx|unfold is_u64; lia]. Qed.
Lemma ROL_u64 x n : is_u64 x -> 0 <= n <= 64 -> is_u64 (ROL x n).
Proof.
  intros Hx Hn. apply lxor_u64; [apply u64_range|]. apply is_u64_testbit in Hx as [H0 Hx].
  apply is_u64_testbit. split; [apply Z.shiftr_nonneg, H0|].
  intros k Hk. rewrite Z.shiftr_spec by lia. apply Hx. lia.
Qed.

#[export] Hint Resolve lxor_u64 land_u64 not64_u64 : keccak.

Lemma keccak_half_u64 rc s :
  length s = 25%nat -> is_u64 rc -> Forall is_u64 s -> Forall is_u64 (keccak_half rc s).
Proof.
  intros Hl Hrc Hs. unfold keccak_half.
  do 25 (destruct s as [|? s]; [discriminate|apply Forall_cons in Hs as [? Hs]]).
  destruct s; [|discriminate]. cbv zeta. clear Hs Hl.
  repeat (apply Forall_cons; split;
    [repeat first [assumption | simple apply ROL_u64; [|lia] | simple apply not64_u64
                  | simple apply lxor_u64 | simple apply land_u64]|]).
  apply Forall_nil. exact I.
Qed.

(** A state: 25 lanes of 64 bits. *)
Definition state_ok (s : list Z) : Prop := length s = 25%nat /\ Forall is_u64 s.

Lemma round_constant_u64 i : is_u64 (KeccakF_RoundConstants !!! i).
Proof.
  destruct (decide (i < 24)%nat).
  - assert (forallb (fun c => (0 <=? c) && (c <? 18446744073709551616)) KeccakF_RoundConstants = true) as H
      by reflexivity.
    rewrite forallb_forall in H.
    destruct (lookup_lt_is_Some_2 KeccakF_RoundConstants i ltac:(assumption)) as [c Hc].
    rewrite (list_lookup_total_correct _ _ _ Hc).
    specialize (H c (proj1 (list_elem_of_In _ _) (list_elem_of_lookup_2 _ _ _ Hc))).
    unfold is_u64. lia.
  - rewrite list_lookup_total_alt, lookup_ge_None_2 by (cbn; lia). unfold is_u64. cbn. lia.
Qed.

Lemma permute_ok s : state_ok s -> state_ok (KeccakF1600_StatePermute s).
Proof.
  intros Hs. unfold KeccakF1600_StatePermute.
  apply (for_loop_inv (fun _ => state_ok)); [exact Hs|].
  intros j t _ [Hl Ht]. split; [apply keccak_half_length, keccak_half_length, Hl|].
  apply keccak_half_u64; [apply keccak_half_length, Hl|apply round_constant_u64|].
  apply keccak_half_u64; [exact Hl|apply round_constant_u64|exact Ht].
Qed.
