(* ===== verification/Shake.v ===== *)
(** * The SHAKE interface

    What the samplers and the signature scheme call of [fips202.c]: the
    incremental SHAKE128 and SHAKE256 contexts and the one-shot SHAKE256
    ([src/pqcrypto/common/fips202.h]).  A context is an opaque state; the
    calls that update it through a pointer return the new state.  The laws
    are what the callers rely on: a squeeze writes exactly the bytes asked
    for. *)

From S2P Require Import Prelude.

Local Open Scope Z_scope.

Definition SHAKE128_RATE : nat := 168.
Definition SHAKE256_RATE : nat := 136.

Class ShakeOps := {
  shake128incctx : Type;
  shake128_inc_init : shake128incctx;
  shake128_inc_absorb : shake128incctx -> list Z -> shake128incctx;
  shake128_inc_finalize : shake128incctx -> shake128incctx;
  shake128_inc_squeeze : nat -> shake128incctx -> list Z * shake128incctx;
  shake256incctx : Type;
  shake256_inc_init : shake256incctx;
  shake256_inc_absorb : shake256incctx -> list Z -> shake256incctx;
  shake256_inc_finalize : shake256incctx -> shake256incctx;
  shake256_inc_squeeze : nat -> shake256incctx -> list Z * shake256incctx;
  shake256 : nat -> list Z -> list Z
}.

Class ShakeLaws `{ShakeOps} : Prop := {
  squeeze128_len n st : length (fst (shake128_inc_squeeze n st)) = n;
  squeeze128_bytes n st : bytes_ok (fst (shake128_inc_squeeze n st));
  squeeze256_len n st : length (fst (shake256_inc_squeeze n st)) = n;
  squeeze256_bytes n st : bytes_ok (fst (shake256_inc_squeeze n st));
  shake256_len n m : length (shake256 n m) = n;
  shake256_bytes n m : bytes_ok (shake256 n m)
}.

(** A stream of one repeated byte: the smallest function with these laws, used
    to show that hypotheses on the interface can hold. *)
Definition constant_shake (b : Z) : ShakeOps := {|
  shake128incctx := unit;
  shake128_inc_init := tt;
  shake128_inc_absorb _ _ := tt;
  shake128_inc_finalize _ := tt;
  shake128_inc_squeeze n _ := (replicate n b, tt);
  shake256incctx := unit;
  shake256_inc_init := tt;
  shake256_inc_absorb _ _ := tt;
  shake256_inc_finalize _ := tt;
  shake256_inc_squeeze n _ := (replicate n b, tt);
  shake256 n _ := replicate n b
|}.

Lemma constant_shake_laws b : is_u8 b -> @ShakeLaws (constant_shake b).
Proof.
  intros Hb. split; intros; cbn; try apply length_replicate;
    apply Forall_replicate, Hb.
Qed.

(** Streams that depend only on the length asked for: enough to drive the
    signature scheme through a complete run with small numbers.  Matrix blocks
    are zero; 272 bytes (secret sampling) are 0x44; 680 bytes (mask sampling)
    repeat the packing of zero; everything else is zero. *)
Definition sample_bytes (n : nat) : list Z :=
  if (n =? 272)%nat then replicate n 68
  else if (n =? 680)%nat then concat (replicate 136 [0; 0; 8; 0; 128])
  else replicate n 0.
Definition sample_shake : ShakeOps := {|
  shake128incctx := unit;
  shake128_inc_init := tt;
  shake128_inc_absorb _ _ := tt;
  shake128_inc_finalize _ := tt;
  shake128_inc_squeeze n _ := (replicate n 0, tt);
  shake256incctx := unit;
  shake256_inc_init := tt;
  shake256_inc_absorb _ _ := tt;
  shake256_inc_finalize _ := tt;
  shake256_inc_squeeze n _ := (sample_bytes n, tt);
  shake256 n _ := sample_bytes n
|}.

Lemma sample_shake_laws : @ShakeLaws sample_shake.
Proof.
  assert (forall n, length (sample_bytes n) = n /\ bytes_ok (sample_bytes n)) as H.
  { intros n. unfold sample_bytes. destruct (Nat.eqb_spec n 272) as [->|_].
    { split; [reflexivity|]. apply Forall_replicate. unfold is_u8. lia. }
    destruct (Nat.eqb_spec n 680) as [->|_].
    { split; [reflexivity|]. apply Forall_concat, Forall_replicate.
      repeat (apply Forall_cons; split; [unfold is_u8; lia|]). apply Forall_nil. exact I. }
    split; [apply length_replicate|]. apply Forall_replicate. unfold is_u8. lia. }
  split; intros; cbn [shake128_inc_squeeze shake256_inc_squeeze shake256 sample_shake fst];
    try apply H; [apply length_replicate|apply Forall_replicate; unfold is_u8; lia].
Qed.
