(* ===== verification/Fips202.v ===== *)
(** * SHA-3 and SHAKE

    The sponge of [src/pqcrypto/common/fips202.c]: the one-shot functions
    ([keccak_absorb], [keccak_squeezeblocks], [shake128], [shake256],
    [sha3_256], [sha3_384], [sha3_512]) and the incremental ones
    ([keccak_inc_*] and their wrappers).  A context [uint64_t ctx[26]] is the
    list of its 25 lanes and the 26th word, the count of bytes absorbed into
    the current block or left to squeeze from it.

    Proved: the block loops of the incremental functions are the
    byte-at-a-time sponge, so any split of the input into calls, and of the
    output into calls, gives the same bytes; the one-shot and the incremental
    SHAKE agree; and the model is an instance of the interface the signature
    scheme is verified against. *)

From S2P Require Import Prelude Keccak Shake.

Local Open Scope Z_scope.

Definition SHA3_256_RATE : nat := 136.
Definition SHA3_384_RATE : nat := 104.
Definition SHA3_512_RATE : nat := 72.

(** ** Lanes and bytes *)

Definition load64 (x : list Z) : Z :=
  for_loop 8 0 (fun i r => Z.lor r (u64 (Z.shiftl (x !!! i) (8 * Z.of_nat i)))) 0.
Definition store64 (u : Z) : list Z := fill 8 (fun i => u8 (Z.shiftr u (8 * Z.of_nat i))).

(** [s[pos >> 3] ^= (uint64_t)b << (8 * (pos & 7))] *)
Definition xor_byte (s : list Z) (pos : nat) (b : Z) : list Z :=
  <[(pos / 8)%nat := Z.lxor (s !!! (pos / 8)%nat) (u64 (Z.shiftl b (8 * Z.of_nat (pos mod 8))))]> s.
(** [(uint8_t)(s[pos >> 3] >> (8 * (pos & 7)))] *)
Definition get_byte (s : list Z) (pos : nat) : Z :=
  u8 (Z.shiftr (s !!! (pos / 8)%nat) (8 * Z.of_nat (pos mod 8))).
(** [for (i = 0; i < n; i++) xor m[i] into the byte pos + i] *)
Definition xor_bytes (s : list Z) (pos n : nat) (m : list Z) : list Z :=
  for_loop n 0 (fun i s => xor_byte s (pos + i) (m !!! i)) s.

(** ** One-shot functions *)

(** [for (i = 0; i < r / 8; ++i) s[i] ^= load64(m + 8 * i)] *)
Definition xor_lanes (s : list Z) (r : nat) (m : list Z) : list Z :=
  for_loop (r / 8) 0 (fun i s => <[i := Z.lxor (s !!! i) (load64 (drop (8 * i) m))]> s) s.

(** [while (mlen >= r)]; [fuel] bounds the number of blocks. *)
Fixpoint keccak_absorb_blocks (fuel : nat) (s : list Z) (r : nat) (m : list Z) : list Z * list Z :=
  match fuel with
  | O => (s, m)
  | S fuel =>
      if (r <=? length m)%nat
      then keccak_absorb_blocks fuel (KeccakF1600_StatePermute (xor_lanes s r m)) r (drop r m)
      else (s, m)
  end.
Definition keccak_absorb (r : nat) (m : list Z) (p : Z) : list Z :=
  let s := fill 25 (fun _ => 0) in
  let '(s, m) := keccak_absorb_blocks (length m) s r m in
  let t := m ++ replicate (r - length m) 0 in
  let t := <[length m := p]> t in
  let t := <[(r - 1)%nat := Z.lor (t !!! (r - 1)%nat) 128]> t in
  xor_lanes s r t.

Fixpoint keccak_squeezeblocks (nblocks : nat) (s : list Z) (r : nat) : list Z * list Z :=
  match nblocks with
  | O => ([], s)
  | S nblocks =>
      let s := KeccakF1600_StatePermute s in
      let h := fill_chunks (r / 8) (fun i => store64 (s !!! i)) in
      let '(hs, s) := keccak_squeezeblocks nblocks s r in
      (h ++ hs, s)
  end.

Definition shake128_absorb (input : list Z) : list Z := keccak_absorb SHAKE128_RATE input 0x1F.
Definition shake256_absorb (input : list Z) : list Z := keccak_absorb SHAKE256_RATE input 0x1F.
Definition shake128_squeezeblocks (nblocks : nat) (s : list Z) := keccak_squeezeblocks nblocks s SHAKE128_RATE.
Definition shake256_squeezeblocks (nblocks : nat) (s : list Z) := keccak_squeezeblocks nblocks s SHAKE256_RATE.

Definition shake128_oneshot (outlen : nat) (input : list Z) : list Z :=
  let nblocks := (outlen / SHAKE128_RATE)%nat in
  let s := shake128_absorb input in
  let '(output, s) := shake128_squeezeblocks nblocks s in
  let outlen := (outlen - nblocks * SHAKE128_RATE)%nat in
  if (outlen =? 0)%nat then output
  else let '(t, _) := shake128_squeezeblocks 1 s in output ++ fill outlen (fun i => t !!! i).
Definition shake256_oneshot (outlen : nat) (input : list Z) : list Z :=
  let nblocks := (outlen / SHAKE256_RATE)%nat in
  let s := shake256_absorb input in
  let '(output, s) := shake256_squeezeblocks nblocks s in
  let outlen := (outlen - nblocks * SHAKE256_RATE)%nat in
  if (outlen =? 0)%nat then output
  else let '(t, _) := shake256_squeezeblocks 1 s in output ++ fill outlen (fun i => t !!! i).

Definition sha3_256 (input : list Z) : list Z :=
  let s := keccak_absorb SHA3_256_RATE input 0x06 in
  let '(t, _) := keccak_squeezeblocks 1 s SHA3_256_RATE in
  fill 32 (fun i => t !!! i).
Definition sha3_384 (input : list Z) : list Z :=
  let s := keccak_absorb SHA3_384_RATE input 0x06 in
  let '(t, _) := keccak_squeezeblocks 1 s SHA3_384_RATE in
  fill 48 (fun i => t !!! i).
Definition sha3_512 (input : list Z) : list Z :=
  let s := keccak_absorb SHA3_512_RATE input 0x06 in
  let '(t, _) := keccak_squeezeblocks 1 s SHA3_512_RATE in
  fill 64 (fun i => t !!! i).

(** ** Incremental functions *)

Record s_inc := { lanes : list Z; count : nat }.

Definition keccak_inc_init : s_inc := {| lanes := fill 25 (fun _ => 0); count := 0 |}.

(** [while (mlen + s_inc[25] >= r)], then the rest; every iteration consumes
    [r - s_inc[25] > 0] bytes, so [length m + 1] iterations are enough. *)
Fixpoint keccak_inc_absorb_loop (fuel : nat) (st : s_inc) (r : nat) (m : list Z) : s_inc :=
  match fuel with
  | O => st
  | S fuel =>
      if (r <=? length m + count st)%nat then
        let n := (r - count st)%nat in
        let s := xor_bytes (lanes st) (count st) n m in
        keccak_inc_absorb_loop fuel {| lanes := KeccakF1600_StatePermute s; count := 0 |} r (drop n m)
      else
        {| lanes := xor_bytes (lanes st) (count st) (length m) m; count := count st + length m |}
  end.
Definition keccak_inc_absorb (st : s_inc) (r : nat) (m : list Z) : s_inc :=
  keccak_inc_absorb_loop (S (length m)) st r m.

Definition keccak_inc_finalize (st : s_inc) (r : nat) (p : Z) : s_inc :=
  let s := xor_byte (lanes st) (count st) p in
  let s := xor_byte s (r - 1) 128 in
  {| lanes := s; count := 0 |}.

(** [while (outlen > 0)]; every iteration writes [min outlen r > 0] bytes. *)
Fixpoint keccak_inc_squeeze_loop (fuel outlen : nat) (st : s_inc) (r : nat) : list Z * s_inc :=
  match fuel with
  | O => ([], st)
  | S fuel =>
      if (0 <? outlen)%nat then
        let s := KeccakF1600_StatePermute (lanes st) in
        let i := Nat.min outlen r in
        let h := fill i (fun i => get_byte s i) in
        let '(hs, st) := keccak_inc_squeeze_loop fuel (outlen - i) {| lanes := s; count := r - i |} r in
        (h ++ hs, st)
      else ([], st)
  end.
Definition keccak_inc_squeeze (outlen : nat) (st : s_inc) (r : nat) : list Z * s_inc :=
  let i := Nat.min outlen (count st) in
  let h := fill i (fun i => get_byte (lanes st) (r - count st + i)) in
  let '(hs, st) := keccak_inc_squeeze_loop (outlen - i) (outlen - i)
                     {| lanes := lanes st; count := count st - i |} r in
  (h ++ hs, st).

Definition sha3_inc_finalize (st : s_inc) (r outlen : nat) : list Z :=
  let st := keccak_inc_finalize st r 0x06 in
  let '(t, _) := keccak_squeezeblocks 1 (lanes st) r in
  fill outlen (fun i => t !!! i).
Definition sha3_256_inc_absorb (st : s_inc) (input : list Z) := keccak_inc_absorb st SHA3_256_RATE input.
Definition sha3_256_inc_finalize (st : s_inc) : list Z := sha3_inc_finalize st SHA3_256_RATE 32.
Definition sha3_384_inc_absorb (st : s_inc) (input : list Z) := keccak_inc_absorb st SHA3_384_RATE input.
Definition sha3_384_inc_finalize (st : s_inc) : list Z := sha3_inc_finalize st SHA3_384_RATE 48.
Definition sha3_512_inc_absorb (st : s_inc) (input : list Z) := keccak_inc_absorb st SHA3_512_RATE input.
Definition sha3_512_inc_finalize (st : s_inc) : list Z := sha3_inc_finalize st SHA3_512_RATE 64.

(** The interface the signature scheme uses, as this file implements it. *)
#[export] Instance fips202 : ShakeOps := {|
  shake128incctx := s_inc;
  shake128_inc_init := keccak_inc_init;
  shake128_inc_absorb st input := keccak_inc_absorb st SHAKE128_RATE input;
  shake128_inc_finalize st := keccak_inc_finalize st SHAKE128_RATE 0x1F;
  shake128_inc_squeeze outlen st := keccak_inc_squeeze outlen st SHAKE128_RATE;
  shake256incctx := s_inc;
  shake256_inc_init := keccak_inc_init;
  shake256_inc_absorb st input := keccak_inc_absorb st SHAKE256_RATE input;
  shake256_inc_finalize st := keccak_inc_finalize st SHAKE256_RATE 0x1F;
  shake256_inc_squeeze outlen st := keccak_inc_squeeze outlen st SHAKE256_RATE;
  shake256 := shake256_oneshot
|}.

(** ** Test vectors: FIPS 202 on the empty message *)
Example sha3_256_empty : firstn 8 (sha3_256 []) = [0xa7; 0xff; 0xc6; 0xf8; 0xbf; 0x1e; 0xd7; 0x66].
Proof. vm_compute. reflexivity. Qed.
Example sha3_512_empty : firstn 8 (sha3_512 []) = [0xa6; 0x9f; 0x73; 0xcc; 0xa2; 0x3a; 0x9a; 0xc5].
Proof. vm_compute. reflexivity. Qed.
Example shake256_empty : shake256_oneshot 8 [] = [0x46; 0xb9; 0xdd; 0x2b; 0x0b; 0xa8; 0x8d; 0x13].
Proof. vm_compute. reflexivity. Qed.
Example shake128_empty : shake128_oneshot 8 [] = [0x7f; 0x9c; 0x2b; 0xa4; 0xe8; 0x8f; 0x82; 0x7d].
Proof. vm_compute. reflexivity. Qed.

(** ** Absorbing is byte at a time *)

Definition absorb_byte (r : nat) (st : s_inc) (b : Z) : s_inc :=
  let s := xor_byte (lanes st) (count st) b in
  if (S (count st) =? r)%nat then {| lanes := KeccakF1600_StatePermute s; count := 0 |}
  else {| lanes := s; count := S (count st) |}.

Lemma xor_bytes_cons s pos b m :
  xor_bytes s pos (S (length m)) (b :: m) = xor_bytes (xor_byte s pos b) (S pos) (length m) m.
Proof.
  unfold xor_bytes. cbn [for_loop]. rewrite Nat.add_0_r, for_loop_shift.
  apply for_loop_ext. intros j t _. replace (pos + S j)%nat with (S pos + j)%nat by lia. reflexivity.
Qed.
Lemma xor_bytes_take s pos n m : (n <= length m)%nat -> xor_bytes s pos n (take n m) = xor_bytes s pos n m.
Proof.
  intros Hn. apply for_loop_ext. intros j t Hj. rewrite lookup_total_take, decide_True by lia. reflexivity.
Qed.

Lemma absorb_bytes_short r m st :
  (count st + length m < r)%nat ->
  fold_left (absorb_byte r) m st
  = {| lanes := xor_bytes (lanes st) (count st) (length m) m; count := count st + length m |}.
Proof.
  revert st. induction m as [|b m IH]; intros [l c] Hr; cbn [lanes count] in *.
  - rewrite Nat.add_0_r. reflexivity.
  - cbn [fold_left]. unfold absorb_byte at 2. cbn [lanes count length] in *.
    replace (S c =? r)%nat with false by (symmetry; apply Nat.eqb_neq; lia).
    rewrite IH by (cbn; lia). cbn [lanes count]. rewrite <- xor_bytes_cons. f_equal. lia.
Qed.
Lemma absorb_bytes_block r m st :
  (count st + length m = r)%nat -> (count st < r)%nat ->
  fold_left (absorb_byte r) m st
  = {| lanes := KeccakF1600_StatePermute (xor_bytes (lanes st) (count st) (length m) m); count := 0 |}.
Proof.
  revert st. induction m as [|b m IH]; intros [l c] Hr Hc; cbn [lanes count length] in *; [lia|].
  cbn [fold_left]. unfold absorb_byte at 2. cbn [lanes count].
  destruct (Nat.eqb_spec (S c) r) as [E|E].
  - assert (m = []) as -> by (destruct m; [reflexivity|cbn in Hr; lia]).
    exact (f_equal (fun s => {| lanes := KeccakF1600_StatePermute s; count := 0 |})
      (eq_sym (xor_bytes_cons l c b []))).
  - rewrite IH by (cbn; lia). cbn [lanes count]. rewrite <- (xor_bytes_cons l c b m). reflexivity.
Qed.

Lemma absorb_loop_bytes fuel r m st :
  (count st < r)%nat -> (length m < fuel)%nat ->
  keccak_inc_absorb_loop fuel st r m = fold_left (absorb_byte r) m st.
Proof.
  revert m st. induction fuel as [|fuel IH]; intros m st Hc Hf; [lia|]. cbn [keccak_inc_absorb_loop].
  destruct (Nat.leb_spec r (length m + count st)).
  - rewrite IH by (cbn; rewrite ?length_drop; lia).
    transitivity (fold_left (absorb_byte r) (take (r - count st) m ++ drop (r - count st) m) st);
      [|rewrite take_drop; reflexivity]. rewrite fold_left_app.
    rewrite (absorb_bytes_block r (take (r - count st) m)) by (rewrite ?length_take; lia).
    rewrite length_take, Nat.min_l, xor_bytes_take by lia. reflexivity.
  - rewrite absorb_bytes_short by lia. reflexivity.
Qed.

Lemma absorb_bytes r m st :
  (count st < r)%nat -> keccak_inc_absorb st r m = fold_left (absorb_byte r) m st.
Proof. intros Hc. apply absorb_loop_bytes; [exact Hc|lia]. Qed.

Lemma absorb_count r m st : (count st < r)%nat -> (count (fold_left (absorb_byte r) m st) < r)%nat.
Proof.
  revert st. induction m as [|b m IH]; intros st Hc; cbn [fold_left]; [exact Hc|]. apply IH.
  unfold absorb_byte. destruct (Nat.eqb_spec (S (count st)) r); cbn [count]; lia.
Qed.

(** how the input is split does not matter: absorbing [m1] and then [m2] into
    a context whose count is below the rate leaves the same context as absorbing
    [m1 ++ m2] at once, and the block loop of [keccak_inc_absorb] is the
    byte-at-a-time sponge. *)
Theorem inc_absorb_concat (r : nat) (st : s_inc) (m1 m2 : list Z) (Hc : (count st < r)%nat) :
  keccak_inc_absorb (keccak_inc_absorb st r m1) r m2 = keccak_inc_absorb st r (m1 ++ m2) /\
  keccak_inc_absorb st r (m1 ++ m2) = fold_left (absorb_byte r) (m1 ++ m2) st /\
  (count (keccak_inc_absorb st r m1) < r)%nat.
Proof.
  pose proof (absorb_count r m1 st Hc) as H1.
  rewrite (absorb_bytes r m1) by exact Hc. rewrite (absorb_bytes r m2) by exact H1.
  rewrite (absorb_bytes r (m1 ++ m2)), fold_left_app by exact Hc. auto.
Qed.
Lemma inc_absorb_concat_witness :
  let m1 := replicate 150 1 in let m2 := replicate 3 2 in
  keccak_inc_absorb (keccak_inc_absorb keccak_inc_init 136 m1) 136 m2
    = keccak_inc_absorb keccak_inc_init 136 (m1 ++ m2) /\
  keccak_inc_absorb keccak_inc_init 136 (m1 ++ m2)
    = fold_left (absorb_byte 136) (m1 ++ m2) keccak_inc_init /\
  (count (keccak_inc_absorb keccak_inc_init 136 m1) < 136)%nat.
Proof. apply (inc_absorb_concat 136 keccak_inc_init). cbn. lia. Defined.

(** ** Squeezing is byte at a time *)

Definition squeeze_byte (r : nat) (st : s_inc) : Z * s_inc :=
  let st := if (count st =? 0)%nat
            then {| lanes := KeccakF1600_StatePermute (lanes st); count := r |} else st in
  (get_byte (lanes st) (r - count st), {| lanes := lanes st; count := count st - 1 |}).
Fixpoint squeeze_bytes (n r : nat) (st : s_inc) : list Z * s_inc :=
  match n with
  | O => ([], st)
  | S n => let '(b, st) := squeeze_byte r st in
           let '(bs, st) := squeeze_bytes n r st in (b :: bs, st)
  end.

Lemma squeeze_bytes_app n m r st :
  squeeze_bytes (n + m) r st
  = let '(a, st) := squeeze_bytes n r st in let '(b, st) := squeeze_bytes m r st in (a ++ b, st).
Proof.
  revert st. induction n as [|n IH]; intros st; cbn [Nat.add squeeze_bytes].
  - destruct (squeeze_bytes m r st). reflexivity.
  - destruct (squeeze_byte r st) as [b st']. rewrite IH. destruct (squeeze_bytes n r st') as [a st''].
    destruct (squeeze_bytes m r st''). reflexivity.
Qed.

Lemma fill_S {A : Type} n (f : nat -> A) : fill (S n) f = f 0%nat :: fill n (fun i => f (S i)).
Proof. unfold fill. cbn [seq map]. f_equal. rewrite <- seq_shift, map_map. reflexivity. Qed.

Lemma squeeze_bytes_left n r st :
  (n <= count st <= r)%nat ->
  squeeze_bytes n r st
  = (fill n (fun i => get_byte (lanes st) (r - count st + i)), {| lanes := lanes st; count := count st - n |}).
Proof.
  revert st. induction n as [|n IH]; intros [l c] Hn; cbn [lanes count] in *.
  - rewrite Nat.sub_0_r. reflexivity.
  - cbn [squeeze_bytes]. unfold squeeze_byte. cbn [lanes count].
    replace (c =? 0)%nat with false by (symmetry; apply Nat.eqb_neq; lia). cbn [lanes count].
    rewrite IH by (cbn; lia). cbn [lanes count]. rewrite fill_S, Nat.add_0_r.
    replace (c - 1 - n)%nat with (c - S n)%nat by lia. f_equal. f_equal.
    apply fill_ext. intros i Hi. f_equal. lia.
Qed.
Lemma squeeze_bytes_refill n r l :
  (0 < n)%nat -> (0 < r)%nat ->
  squeeze_bytes n r {| lanes := l; count := 0 |}
  = squeeze_bytes n r {| lanes := KeccakF1600_StatePermute l; count := r |}.
Proof.
  intros Hn Hr. destruct n as [|n]; [lia|]. cbn [squeeze_bytes]. unfold squeeze_byte. cbn [lanes count].
  replace (r =? 0)%nat with false by (symmetry; apply Nat.eqb_neq; lia). reflexivity.
Qed.

Lemma squeeze_loop_bytes fuel n r l :
  (0 < r)%nat -> (n <= fuel)%nat ->
  keccak_inc_squeeze_loop fuel n {| lanes := l; count := 0 |} r = squeeze_bytes n r {| lanes := l; count := 0 |}.
Proof.
  intros Hr. revert n l. induction fuel as [|fuel IH]; intros n l Hn; cbn [keccak_inc_squeeze_loop].
  - replace n with 0%nat by lia. reflexivity.
  - destruct (Nat.ltb_spec 0 n); [|replace n with 0%nat by lia; reflexivity].
    cbn [lanes]. rewrite squeeze_bytes_refill by assumption. set (p := KeccakF1600_StatePermute l).
    set (i := Nat.min n r). replace n with (i + (n - i))%nat at 2 by lia.
    rewrite squeeze_bytes_app, squeeze_bytes_left by (cbn; lia). cbn [lanes count].
    rewrite (fill_ext i (fun i => get_byte p (r - r + i)) (get_byte p)) by (intros; f_equal; lia).
    destruct (decide (n <= r)%nat).
    + replace (n - i)%nat with 0%nat by lia. cbn [squeeze_bytes]. destruct fuel; reflexivity.
    + replace (r - i)%nat with 0%nat by lia. rewrite IH by lia. reflexivity.
Qed.

Lemma squeeze_eq n r st :
  (0 < r)%nat -> (count st <= r)%nat -> keccak_inc_squeeze n st r = squeeze_bytes n r st.
Proof.
  intros Hr Hc. unfold keccak_inc_squeeze. set (i := Nat.min n (count st)).
  replace n with (i + (n - i))%nat at 3 by lia.
  rewrite squeeze_bytes_app, squeeze_bytes_left by lia.
  destruct (decide (n <= count st)%nat).
  - replace (n - i)%nat with 0%nat by lia. reflexivity.
  - replace (count st - i)%nat with 0%nat by lia. rewrite squeeze_loop_bytes by lia. reflexivity.
Qed.

Lemma squeeze_bytes_count n r st : (count st <= r)%nat -> (count (snd (squeeze_bytes n r st)) <= r)%nat.
Proof.
  revert st. induction n as [|n IH]; intros st Hc; cbn [squeeze_bytes]; [exact Hc|].
  destruct (squeeze_byte r st) as [b st'] eqn:E. specialize (IH st').
  destruct (squeeze_bytes n r st'). cbn [snd] in *. apply IH.
  unfold squeeze_byte in E. injection E as _ <-. destruct (count st =? 0)%nat; cbn [count]; lia.
Qed.

(** how the output is split does not matter: squeezing [n1] and then [n2]
    bytes gives the bytes and the context of squeezing [n1 + n2] at once, and
    the block loop of [keccak_inc_squeeze] is the byte-at-a-time sponge. *)
Theorem inc_squeeze_concat (r n1 n2 : nat) (st : s_inc) (Hr : (0 < r)%nat) (Hc : (count st <= r)%nat) :
  keccak_inc_squeeze (n1 + n2) st r
  = (let '(a, st) := keccak_inc_squeeze n1 st r in
     let '(b, st) := keccak_inc_squeeze n2 st r in (a ++ b, st)) /\
  keccak_inc_squeeze (n1 + n2) st r = squeeze_bytes (n1 + n2) r st.
Proof.
  split; [|apply squeeze_eq; assumption]. rewrite !squeeze_eq by assumption. rewrite squeeze_bytes_app.
  pose proof (squeeze_bytes_count n1 r st Hc) as H1. destruct (squeeze_bytes n1 r st) as [a st'].
  cbn [snd] in H1. rewrite squeeze_eq by assumption. reflexivity.
Qed.
Lemma inc_squeeze_concat_witness :
  keccak_inc_squeeze (10 + 200) keccak_inc_init 168
  = (let '(a, st) := keccak_inc_squeeze 10 keccak_inc_init 168 in
     let '(b, st) := keccak_inc_squeeze 200 st 168 in (a ++ b, st)) /\
  keccak_inc_squeeze (10 + 200) keccak_inc_init 168 = squeeze_bytes (10 + 200) 168 keccak_inc_init.
Proof. apply (inc_squeeze_concat 168 10 200 keccak_inc_init); cbn; lia. Defined.

(** ** The interface laws *)

Lemma get_byte_u8 s p : is_u8 (get_byte s p).
Proof. apply u8_range. Qed.

Lemma squeeze_loop_out fuel n st r :
  (0 < r)%nat -> (n <= fuel)%nat ->
  length (fst (keccak_inc_squeeze_loop fuel n st r)) = n /\
  bytes_ok (fst (keccak_inc_squeeze_loop fuel n st r)).
Proof.
  intros Hr. revert n st. induction fuel as [|fuel IH]; intros n st Hn; cbn [keccak_inc_squeeze_loop].
  - split; [cbn; lia|constructor].
  - destruct (Nat.ltb_spec 0 n); [|split; [cbn; lia|constructor]]. cbv zeta.
    set (s := KeccakF1600_StatePermute _). set (i := Nat.min n r).
    specialize (IH (n - i)%nat {| lanes := s; count := r - i |} ltac:(lia)).
    destruct (keccak_inc_squeeze_loop _ _ _ _) as [hs st']. cbn [fst] in *. destruct IH as [H1 H2].
    split; [rewrite length_app, length_fill, H1; lia|].
    apply Forall_app. split; [apply bytes_ok_fill; intros; apply get_byte_u8|exact H2].
Qed.
Lemma squeeze_out n st r :
  (0 < r)%nat ->
  length (fst (keccak_inc_squeeze n st r)) = n /\ bytes_ok (fst (keccak_inc_squeeze n st r)).
Proof.
  intros Hr. unfold keccak_inc_squeeze. set (i := Nat.min n (count st)).
  pose proof (squeeze_loop_out (n - i) (n - i) {| lanes := lanes st; count := count st - i |} r Hr (le_n _)) as [H1 H2].
  destruct (keccak_inc_squeeze_loop _ _ _ _) as [hs st']. cbn [fst] in *.
  split; [rewrite length_app, length_fill, H1; lia|].
  apply Forall_app. split; [apply bytes_ok_fill; intros; apply get_byte_u8|exact H2].
Qed.

Lemma store64_out u : length (store64 u) = 8%nat /\ bytes_ok (store64 u).
Proof. split; [apply length_fill|]. apply bytes_ok_fill. intros. apply u8_range. Qed.

Lemma squeezeblocks_out n s r :
  (r mod 8 = 0)%nat ->
  length (fst (keccak_squeezeblocks n s r)) = (n * r)%nat /\ bytes_ok (fst (keccak_squeezeblocks n s r)).
Proof.
  intros Hr. revert s. induction n as [|n IH]; intros s; cbn [keccak_squeezeblocks].
  - split; [reflexivity|constructor].
  - specialize (IH (KeccakF1600_StatePermute s)).
    destruct (keccak_squeezeblocks n _ r) as [hs s']. cbn [fst] in *. destruct IH as [H1 H2]. split.
    + rewrite length_app, H1, (length_fill_chunks 8) by (intros; apply store64_out).
      pose proof (Nat.div_mod_eq r 8). lia.
    + apply Forall_app. split; [|exact H2]. apply bytes_ok_fill_chunks. intros. apply store64_out.
Qed.

Lemma shake256_oneshot_out n m :
  length (shake256_oneshot n m) = n /\ bytes_ok (shake256_oneshot n m).
Proof.
  unfold shake256_oneshot, shake256_squeezeblocks.
  set (nb := (n / SHAKE256_RATE)%nat). pose proof (Nat.div_mod_eq n SHAKE256_RATE) as Hd. fold nb in Hd.
  destruct (squeezeblocks_out nb (shake256_absorb m) SHAKE256_RATE eq_refl) as [H1 H2].
  destruct (keccak_squeezeblocks nb _ _) as [out s]. cbn [fst] in *.
  destruct (Nat.eqb_spec (n - nb * SHAKE256_RATE) 0) as [E|E]; [split; [lia|exact H2]|].
  destruct (squeezeblocks_out 1 s SHAKE256_RATE eq_refl) as [H3 H4].
  destruct (keccak_squeezeblocks 1 s _) as [t s']. cbn [fst] in *. split.
  - rewrite length_app, length_fill, H1. lia.
  - apply Forall_app. split; [exact H2|]. apply bytes_ok_fill. intros. apply bytes_ok_lookup, H4.
Qed.

#[export] Instance fips202_laws : ShakeLaws.
Proof.
  split; intros; cbn -[Nat.min]; try apply squeeze_out; try apply shake256_oneshot_out; unfold SHAKE128_RATE, SHAKE256_RATE; lia.
Qed.

(** ** One-shot and incremental functions agree *)

(** [|] of a byte above the bits already loaded is [^]. *)
Lemma lor_lxor_shl n x y : 0 <= n -> 0 <= x < 2 ^ n -> Z.lor x (Z.shiftl y n) = Z.lxor x (Z.shiftl y n).
Proof.
  intros Hn Hx. apply Z.bits_inj'. intros k Hk. rewrite Z.lor_spec, Z.lxor_spec, Z.shiftl_spec by exact Hk.
  destruct (Z.ltb_spec k n).
  - rewrite (Z.testbit_neg_r y) by lia. rewrite orb_false_r, xorb_false_r. reflexivity.
  - replace (Z.testbit x k) with false; [reflexivity|]. symmetry. apply (Z.testbit_false x k Hk).
    rewrite Z.div_small; [reflexivity|]. pose proof (Z.pow_le_mono_r 2 n k). lia.
Qed.

Lemma byte_shl_u64 b i : is_u8 b -> (i < 8)%nat -> u64 (Z.shiftl b (8 * Z.of_nat i)) = Z.shiftl b (8 * Z.of_nat i).
Proof.
  intros Hb Hi. apply u64_id. unfold is_u8, is_u64 in *. rewrite shiftl_mul by lia.
  pose proof (Z.pow_le_mono_r 2 (8 * Z.of_nat i) 56). pose proof (Z.pow_pos_nonneg 2 (8 * Z.of_nat i)).
  change (2 ^ 56) with 72057594037927936 in *. nia.
Qed.

(** Loading a lane is xoring its bytes one by one. *)
Definition lane_xor (m : list Z) (v : Z) : Z :=
  for_loop 8 0 (fun i v => Z.lxor v (u64 (Z.shiftl (m !!! i) (8 * Z.of_nat i)))) v.
Lemma lane_xor_acc (B : nat -> Z) n i v :
  for_loop n i (fun i v => Z.lxor v (B i)) v = Z.lxor v (for_loop n i (fun i v => Z.lxor v (B i)) 0).
Proof.
  revert i v. induction n as [|n IH]; intros i v; cbn [for_loop]; [rewrite Z.lxor_0_r; reflexivity|].
  rewrite IH, (IH (S i) (Z.lxor 0 (B i))), Z.lxor_0_l, Z.lxor_assoc. reflexivity.
Qed.
Lemma load64_lxor m : bytes_ok m -> load64 m = lane_xor m 0.
Proof.
  intros Hm. unfold load64, lane_xor.
  set (R := fun (i : nat) (s : Z * Z) => (i <= 8)%nat /\ fst s = snd s /\ 0 <= fst s < 2 ^ (8 * Z.of_nat i)).
  set (f := fun i r => Z.lor r (u64 (Z.shiftl (m !!! i) (8 * Z.of_nat i)))).
  set (g := fun i v => Z.lxor v (u64 (Z.shiftl (m !!! i) (8 * Z.of_nat i)))).
  assert (forall n i s t, for_loop n i (fun i '(a, b) => (f i a, g i b)) (s, t)
    = (for_loop n i f s, for_loop n i g t)) as Hpair.
  { induction n as [|n IH]; intros i s t; cbn; [reflexivity|]. apply IH. }
  assert (R (0 + 8)%nat (for_loop 8 0 (fun i '(a, b) => (f i a, g i b)) (0, 0))) as HR.
  { apply (for_loop_inv R); [split; [lia|]; split; [reflexivity|cbn; lia]|].
    intros i [a b] Hi (_ & E & Ha). cbn [fst snd] in *. subst b. split; [lia|].
    pose proof (bytes_ok_lookup m i Hm) as Hb. subst f g. cbv beta.
    rewrite byte_shl_u64 by (assumption || lia). rewrite lor_lxor_shl by lia.
    split; [reflexivity|]. cbn [fst]. rewrite <- lor_lxor_shl, lor_shl by lia.
    replace (8 * Z.of_nat (S i)) with (8 * Z.of_nat i + 8) by lia.
    rewrite Z.pow_add_r by lia. change (2 ^ 8) with 256. unfold is_u8 in Hb. nia. }
  rewrite Hpair in HR. apply HR.
Qed.

(** Eight bytes xored into lane [k]. *)
Lemma xor_bytes_lane s k m :
  (k < length s)%nat ->
  for_loop 8 0 (fun j s => xor_byte s (8 * k + j) (m !!! j)) s = <[k := lane_xor m (s !!! k)]> s.
Proof.
  intros Hk. unfold lane_xor.
  apply (for_loop_rel (fun s' v => s' = <[k := v]> s)).
  - symmetry. apply list_insert_id. apply list_lookup_lookup_total_lt, Hk.
  - intros j s' v Hj ->. unfold xor_byte.
    replace ((8 * k + j) / 8)%nat with k by (apply Nat.div_unique with j; lia).
    replace ((8 * k + j) mod 8)%nat with j by (apply Nat.mod_unique with k; lia).
    rewrite list_lookup_total_insert_eq, list_insert_insert_eq by exact Hk. reflexivity.
Qed.

Lemma xor_lanes_bytes s k m :
  (k <= length s)%nat -> (8 * k <= length m)%nat -> bytes_ok m ->
  for_loop k 0 (fun i s => <[i := Z.lxor (s !!! i) (load64 (drop (8 * i) m))]> s) s
  = xor_bytes s 0 (8 * k) m.
Proof.
  intros Hk Hl Hm. unfold xor_bytes. revert Hk Hl. induction k as [|k IH]; intros Hk Hl; [reflexivity|].
  replace (S k) with (k + 1)%nat by lia. replace (8 * (k + 1))%nat with (8 * k + 8)%nat by lia.
  rewrite !for_loop_app, IH by lia. set (t := for_loop (8 * k) 0 _ s).
  assert (length t = length s) as Ht.
  { subst t. apply (for_loop_inv (fun _ t => length t = length s)); [reflexivity|].
    intros j u _ Hu. unfold xor_byte. rewrite length_insert. exact Hu. }
  transitivity (for_loop 8 0 (fun j s => xor_byte s (8 * k + j) (drop (8 * k) m !!! j)) t).
  - rewrite xor_bytes_lane by lia. cbn [for_loop Nat.add]. f_equal.
    rewrite load64_lxor by (apply Forall_drop, Hm). symmetry.
    exact (lane_xor_acc (fun i => u64 (Z.shiftl (drop (8 * k) m !!! i) (8 * Z.of_nat i))) 8 0 (t !!! k)).
  - rewrite (for_loop_offset _ 8 0 (8 * k)). apply for_loop_ext.
    intros j u _. rewrite lookup_total_drop. cbn [Nat.add]. f_equal; [lia|]. f_equal. lia.
Qed.

Lemma xor_bytes_length s pos n m : length (xor_bytes s pos n m) = length s.
Proof.
  apply (for_loop_inv (fun _ t => length t = length s)); [reflexivity|].
  intros j u _ Hu. unfold xor_byte. rewrite length_insert. exact Hu.
Qed.
Lemma xor_lanes_eq s r m :
  length s = 25%nat -> (r mod 8 = 0)%nat -> (r <= 200)%nat -> (r <= length m)%nat -> bytes_ok m ->
  xor_lanes s r m = xor_bytes s 0 r m.
Proof.
  intros Hs Hr Hr' Hl Hm. pose proof (Nat.div_mod_eq r 8). unfold xor_lanes.
  rewrite xor_lanes_bytes by (try assumption; lia). f_equal. lia.
Qed.
Lemma permute_length s : length s = 25%nat -> length (KeccakF1600_StatePermute s) = 25%nat.
Proof. intros Hs. apply keccak_permute_spec, Hs. Qed.

(** The full blocks of the one-shot function, byte at a time. *)
Lemma absorb_blocks_bytes fuel s r m s' m' :
  length s = 25%nat -> (r mod 8 = 0)%nat -> (0 < r <= 200)%nat -> bytes_ok m -> (length m <= fuel)%nat ->
  keccak_absorb_blocks fuel s r m = (s', m') ->
  length s' = 25%nat /\ (length m' < r)%nat /\ bytes_ok m' /\
  fold_left (absorb_byte r) m {| lanes := s; count := 0 |}
  = {| lanes := xor_bytes s' 0 (length m') m'; count := length m' |}.
Proof.
  intros Hs Hr8 Hr. revert s m Hs. induction fuel as [|fuel IH]; intros s m Hs Hm Hf; cbn [keccak_absorb_blocks].
  - intros [= <- <-]. assert (m = []) as -> by (destruct m; [reflexivity|cbn in Hf; lia]).
    split; [exact Hs|]. split; [cbn; lia|]. split; [constructor|reflexivity].
  - destruct (Nat.leb_spec r (length m)) as [Hle|Hlt].
    + intros E. apply IH in E; [|apply permute_length|apply Forall_drop, Hm|rewrite length_drop; lia].
      * destruct E as (H1 & H2 & H3 & H4). split; [exact H1|]. split; [exact H2|]. split; [exact H3|].
        rewrite <- H4, <- (take_drop r m) at 1. rewrite fold_left_app.
        rewrite (absorb_bytes_block r (take r m)) by (cbn [count]; rewrite ?length_take; lia).
        cbn [lanes count]. rewrite length_take, Nat.min_l, xor_bytes_take by exact Hle.
        rewrite xor_lanes_eq by (assumption || lia). reflexivity.
      * rewrite xor_lanes_eq by (assumption || lia). rewrite xor_bytes_length. exact Hs.
    + intros [= <- <-]. split; [exact Hs|]. split; [exact Hlt|]. split; [exact Hm|].
      rewrite absorb_bytes_short by (cbn; lia). reflexivity.
Qed.

(** Xoring zero bytes does nothing; xoring two bytes in one place xors their union. *)
Lemma xor_byte_0 s pos : xor_byte s pos 0 = s.
Proof.
  unfold xor_byte. rewrite Z.shiftl_0_l. change (u64 0) with 0. rewrite Z.lxor_0_r.
  destruct (decide (pos / 8 < length s)%nat).
  - apply list_insert_id, list_lookup_lookup_total_lt. assumption.
  - apply list_insert_ge. lia.
Qed.
Lemma xor_byte_zeros s pos n i (m : list Z) :
  (forall j, (i <= j < i + n)%nat -> m !!! j = 0) ->
  for_loop n i (fun j s => xor_byte s (pos + j) (m !!! j)) s = s.
Proof.
  revert i. induction n as [|n IH]; intros i H; cbn [for_loop]; [reflexivity|].
  rewrite H, xor_byte_0 by lia. apply IH. intros j Hj. apply H. lia.
Qed.
Lemma xor_byte_twice s pos p :
  0 <= p < 128 -> xor_byte (xor_byte s pos p) pos 128 = xor_byte s pos (Z.lor p 128).
Proof.
  intros Hp. unfold xor_byte. set (k := (pos / 8)%nat). set (j := (pos mod 8)%nat).
  assert (j < 8)%nat as Hj by (apply Nat.mod_upper_bound; lia).
  destruct (decide (k < length s)%nat) as [Hk|Hk].
  - rewrite list_lookup_total_insert_eq, list_insert_insert_eq by exact Hk. f_equal.
    rewrite !byte_shl_u64 by (try exact Hj; unfold is_u8; try lia;
      apply lor_u8; unfold is_u8; lia).
    change 128 with (Z.shiftl 1 7). rewrite lor_lxor_shl by (change (2 ^ 7) with 128; lia).
    rewrite Z.shiftl_lxor, Z.lxor_assoc. reflexivity.
  - rewrite !(list_insert_ge s) by lia. reflexivity.
Qed.

(** The padded last block. *)
Lemma pad_block s r m p :
  length s = 25%nat -> (r mod 8 = 0)%nat -> (0 < r <= 200)%nat -> (length m < r)%nat -> bytes_ok m ->
  0 <= p < 128 ->
  let t := <[length m := p]> (m ++ replicate (r - length m) 0) in
  xor_lanes s r (<[(r - 1)%nat := Z.lor (t !!! (r - 1)%nat) 128]> t)
  = xor_byte (xor_byte (xor_bytes s 0 (length m) m) (length m) p) (r - 1) 128.
Proof.
  intros Hs Hr8 Hr Hl Hm Hp. cbv zeta. set (t := <[length m := p]> _).
  assert (length t = r) as Ht by (subst t; rewrite length_insert, length_app, length_replicate; lia).
  assert (bytes_ok t) as Hbt.
  { apply Forall_insert; [|unfold is_u8; lia]. apply Forall_app. split; [exact Hm|].
    apply Forall_replicate. unfold is_u8. lia. }
  assert (t !!! length m = p) as Tm by (subst t; apply list_lookup_total_insert_eq;
    rewrite length_app, length_replicate; lia).
  assert (forall j, (j < length m)%nat -> t !!! j = m !!! j) as Tl.
  { intros j Hj. subst t. rewrite list_lookup_total_insert_ne by lia. apply lookup_total_app_l, Hj. }
  assert (forall j, (length m < j < r)%nat -> t !!! j = 0) as Th.
  { intros j Hj. subst t. rewrite list_lookup_total_insert_ne, lookup_total_app_r by lia.
    apply lookup_total_replicate_2. lia. }
  clearbody t. set (t' := <[(r - 1)%nat := _]> t).
  rewrite xor_lanes_eq; [|assumption|assumption|lia|subst t'; rewrite length_insert; lia|].
  2:{ apply Forall_insert; [exact Hbt|]. apply lor_u8; [apply bytes_ok_lookup, Hbt|unfold is_u8; lia]. }
  unfold xor_bytes. replace r with (length m + (r - length m))%nat at 1 by lia. rewrite for_loop_app.
  rewrite (for_loop_ext _ (fun i s => xor_byte s (0 + i) (m !!! i)) (length m)).
  2:{ intros j u Hj. f_equal. subst t'. rewrite list_lookup_total_insert_ne by lia. apply Tl. lia. }
  set (u := for_loop (length m) 0 _ s). cbn [Nat.add].
  destruct (decide (length m = r - 1)%nat) as [E|E].
  - replace (r - length m)%nat with 1%nat by lia. cbn [for_loop]. rewrite E.
    subst t'. rewrite list_lookup_total_insert_eq by lia. rewrite <- E at 2. rewrite Tm.
    rewrite xor_byte_twice by exact Hp. reflexivity.
  - replace (r - length m)%nat with (1 + (r - length m - 2) + 1)%nat by lia.
    rewrite !for_loop_app. cbn [for_loop].
    assert (t' !!! length m = p) as -> by (subst t'; rewrite list_lookup_total_insert_ne by lia; exact Tm).
    rewrite (xor_byte_zeros _ 0).
    + replace (length m + (1 + (r - length m - 2)))%nat with (r - 1)%nat by lia. f_equal.
      subst t'. rewrite list_lookup_total_insert_eq by lia. rewrite Th by lia. reflexivity.
    + intros j Hj. subst t'. rewrite list_lookup_total_insert_ne by lia. apply Th. lia.
Qed.

(** Absorbing at once or incrementally leaves the same lanes. *)
Lemma keccak_absorb_inc r m p :
  (r mod 8 = 0)%nat -> (0 < r <= 200)%nat -> bytes_ok m -> 0 <= p < 128 ->
  keccak_absorb r m p = lanes (keccak_inc_finalize (keccak_inc_absorb keccak_inc_init r m) r p).
Proof.
  intros Hr8 Hr Hm Hp. rewrite absorb_bytes by (cbn; lia). unfold keccak_absorb.
  destruct (keccak_absorb_blocks _ _ _ _) as [s' m'] eqn:E.
  apply absorb_blocks_bytes in E as (H1 & H2 & H3 & H4); [|reflexivity|assumption..|lia].
  unfold keccak_inc_init. rewrite H4. unfold keccak_inc_finalize. cbn [lanes count].
  apply pad_block; assumption.
Qed.

Lemma block_bytes s r :
  (r mod 8 = 0)%nat -> fill_chunks (r / 8) (fun i => store64 (s !!! i)) = fill r (get_byte s).
Proof.
  intros Hr. pose proof (Nat.div_mod_eq r 8) as E.
  apply (list_eq_chunks 8 (r / 8)).
  - apply length_fill_chunks. intros. apply store64_out.
  - rewrite length_fill. lia.
  - intros i j Hi Hj. rewrite (lookup_fill_chunks 8 (fun i => store64 (s !!! i)))
      by (assumption || (intros; apply store64_out)).
    unfold store64. rewrite !lookup_total_fill by lia. unfold get_byte.
    replace ((8 * i + j) / 8)%nat with i by (apply Nat.div_unique with j; lia).
    replace ((8 * i + j) mod 8)%nat with j by (apply Nat.mod_unique with i; lia). reflexivity.
Qed.

(** One block: the refill and [n <= r] bytes. *)
Lemma squeeze_bytes_block n r s :
  (0 < n <= r)%nat ->
  squeeze_bytes n r {| lanes := s; count := 0 |}
  = (fill n (get_byte (KeccakF1600_StatePermute s)),
     {| lanes := KeccakF1600_StatePermute s; count := r - n |}).
Proof.
  intros Hn. rewrite squeeze_bytes_refill, squeeze_bytes_left by (cbn; lia). cbn [lanes count].
  f_equal. apply fill_ext. intros i _. f_equal. lia.
Qed.

Lemma squeezeblocks_bytes n s r :
  (r mod 8 = 0)%nat -> (0 < r)%nat ->
  squeeze_bytes (n * r) r {| lanes := s; count := 0 |}
  = (fst (keccak_squeezeblocks n s r), {| lanes := snd (keccak_squeezeblocks n s r); count := 0 |}).
Proof.
  intros Hr8 Hr. revert s. induction n as [|n IH]; intros s; cbn [keccak_squeezeblocks]; [reflexivity|].
  replace (S n * r)%nat with (r + n * r)%nat by lia.
  rewrite squeeze_bytes_app, squeeze_bytes_block, Nat.sub_diag, IH, block_bytes by (assumption || lia).
  destruct (keccak_squeezeblocks n _ r) as [hs s']. reflexivity.
Qed.

(** Squeezing whole blocks and a last partial one. *)
Lemma squeeze_oneshot n s r :
  (r mod 8 = 0)%nat -> (0 < r)%nat ->
  (let nb := (n / r)%nat in
   let '(out, s) := keccak_squeezeblocks nb s r in
   let rest := (n - nb * r)%nat in
   if (rest =? 0)%nat then out
   else let '(t, _) := keccak_squeezeblocks 1 s r in out ++ fill rest (fun i => t !!! i))
  = fst (squeeze_bytes n r {| lanes := s; count := 0 |}).
Proof.
  intros Hr8 Hr. cbv zeta. set (nb := (n / r)%nat).
  pose proof (Nat.div_mod_eq n r) as Hd. fold nb in Hd.
  pose proof (Nat.mod_upper_bound n r ltac:(lia)) as Hm.
  pose proof (squeezeblocks_bytes nb s r Hr8 Hr) as E.
  destruct (keccak_squeezeblocks nb s r) as [out s']. cbn [fst snd] in E.
  replace (squeeze_bytes n r) with (squeeze_bytes (nb * r + (n - nb * r)) r) by (f_equal; lia).
  rewrite squeeze_bytes_app, E. destruct (Nat.eqb_spec (n - nb * r) 0) as [->|Hne].
  - cbn [squeeze_bytes fst]. rewrite app_nil_r. reflexivity.
  - cbn [keccak_squeezeblocks]. rewrite block_bytes, app_nil_r, squeeze_bytes_block by (assumption || lia).
    cbn [fst]. f_equal. apply fill_ext. intros i Hi. apply lookup_total_fill. lia.
Qed.

Lemma finalize_state st r p :
  keccak_inc_finalize st r p = {| lanes := lanes (keccak_inc_finalize st r p); count := 0 |}.
Proof. reflexivity. Qed.

(** the one-shot SHAKE functions equal their incremental counterparts: for
    every input and output length, [shake256] (and [shake128]) returns the bytes
    that init, absorb (in any split), finalize and squeeze return. *)
Theorem oneshot_is_incremental (n : nat) (m : list Z) (Hm : bytes_ok m) :
  shake256 n m
  = fst (shake256_inc_squeeze n (shake256_inc_finalize (shake256_inc_absorb shake256_inc_init m))) /\
  shake128_oneshot n m
  = fst (shake128_inc_squeeze n (shake128_inc_finalize (shake128_inc_absorb shake128_inc_init m))).
Proof.
  cbn [shake256 shake256_inc_squeeze shake256_inc_finalize shake256_inc_absorb shake256_inc_init
       shake128_inc_squeeze shake128_inc_finalize shake128_inc_absorb shake128_inc_init fips202].
  assert (forall r, r = SHAKE256_RATE \/ r = SHAKE128_RATE -> (r mod 8 = 0)%nat /\ (0 < r <= 200)%nat) as Hr.
  { intros r [-> | ->]; (split; [reflexivity|unfold SHAKE256_RATE, SHAKE128_RATE; lia]). }
  split.
  - destruct (Hr SHAKE256_RATE ltac:(auto)) as [R1 R2].
    rewrite squeeze_eq, finalize_state, <- keccak_absorb_inc by (assumption || (cbn; lia)).
    exact (squeeze_oneshot n (keccak_absorb SHAKE256_RATE m 31) SHAKE256_RATE R1 (proj1 R2)).
  - destruct (Hr SHAKE128_RATE ltac:(auto)) as [R1 R2].
    rewrite squeeze_eq, finalize_state, <- keccak_absorb_inc by (assumption || (cbn; lia)).
    exact (squeeze_oneshot n (keccak_absorb SHAKE128_RATE m 31) SHAKE128_RATE R1 (proj1 R2)).
Qed.
Lemma oneshot_is_incremental_witness :
  shake256 3 [97; 98; 99]
  = fst (shake256_inc_squeeze 3 (shake256_inc_finalize (shake256_inc_absorb shake256_inc_init [97; 98; 99]))) /\
  shake128_oneshot 3 [97; 98; 99]
  = fst (shake128_inc_squeeze 3 (shake128_inc_finalize (shake128_inc_absorb shake128_inc_init [97; 98; 99]))).
Proof.
  apply (oneshot_is_incremental 3 [97; 98; 99]).
  repeat (apply Forall_cons; split; [unfold is_u8; lia|]). apply Forall_nil. exact I.
Defined.
