(* ===== verification/MlDsaReduce.v ===== *)
(** * ML-DSA-65: parameters, modular reduction and rounding

    [params.h], [reduce.c] and [rounding.c] of [src/pqcrypto/ml-dsa-65],
    coefficient by coefficient, at C's integer widths. *)

From S2P Require Import Prelude.

Local Open Scope Z_scope.

(** ** params.h *)

Definition SEEDBYTES : nat := 32.
Definition CRHBYTES : nat := 64.
Definition TRBYTES : nat := 64.
Definition RNDBYTES : nat := 32.
Definition N : nat := 256.
Definition Q : Z := 8380417.
Definition D : Z := 13.
Definition ROOT_OF_UNITY : Z := 1753.
Definition K : nat := 6.
Definition L : nat := 5.
Definition ETA : Z := 4.
Definition TAU : nat := 49.
Definition BETA : Z := 196.
Definition GAMMA1 : Z := Z.shiftl 1 19.
Definition GAMMA2 : Z := (Q - 1) /c 32.
Definition OMEGA : nat := 55.
Definition CTILDEBYTES : nat := 48.
Definition POLYT1_PACKEDBYTES : nat := 320.
Definition POLYT0_PACKEDBYTES : nat := 416.
Definition POLYVECH_PACKEDBYTES : nat := OMEGA + K.
Definition POLYZ_PACKEDBYTES : nat := 640.
Definition POLYW1_PACKEDBYTES : nat := 128.
Definition POLYETA_PACKEDBYTES : nat := 128.
Definition CRYPTO_PUBLICKEYBYTES : nat := SEEDBYTES + K * POLYT1_PACKEDBYTES.
Definition CRYPTO_SECRETKEYBYTES : nat :=
  2 * SEEDBYTES + TRBYTES + L * POLYETA_PACKEDBYTES + K * POLYETA_PACKEDBYTES
  + K * POLYT0_PACKEDBYTES.
Definition CRYPTO_BYTES : nat := CTILDEBYTES + L * POLYZ_PACKEDBYTES + POLYVECH_PACKEDBYTES.

(** ** reduce.c *)

Definition QINV : Z := 58728449. (* q^(-1) mod 2^32 *)

Definition montgomery_reduce (a : Z) : Z :=
  let t := i32 (u64 (u64 a * u64 QINV)) in
  i32 (Z.shiftr (i64 (a - i64 (t * Q))) 32).

Definition reduce32 (a : Z) : Z :=
  let t := Z.shiftr (i32 (a + Z.shiftl 1 22)) 23 in
  i32 (a - i32 (t * Q)).

Definition caddq (a : Z) : Z :=
  i32 (a + Z.land (Z.shiftr a 31) Q).

Definition freeze (a : Z) : Z :=
  let a := reduce32 a in
  let a := caddq a in
  a.

(** ** rounding.c *)

(** Pairs are (a1, a0): the value returned and the value stored. *)
Definition power2round (a : Z) : Z * Z :=
  let a1 := Z.shiftr (i32 (i32 (a + Z.shiftl 1 (D - 1)) - 1)) D in
  let a0 := i32 (a - i32 (Z.shiftl a1 D)) in
  (a1, a0).

Definition decompose (a : Z) : Z * Z :=
  let a1 := Z.shiftr (i32 (a + 127)) 7 in
  let a1 := Z.shiftr (i32 (i32 (a1 * 1025) + Z.shiftl 1 21)) 22 in
  let a1 := Z.land a1 15 in
  let a0 := i32 (a - i32 (i32 (a1 * 2) * GAMMA2)) in
  let a0 := i32 (a0 - Z.land (Z.shiftr (i32 ((Q - 1) /c 2 - a0)) 31) Q) in
  (a1, a0).

Definition make_hint (a0 a1 : Z) : Z :=
  if (a0 >? GAMMA2) || (a0 <? - GAMMA2) || ((a0 =? - GAMMA2) && negb (a1 =? 0)) then 1 else 0.

Definition use_hint (a hint : Z) : Z :=
  let '(a1, a0) := decompose a in
  if hint =? 0 then a1
  else if a0 >? 0 then Z.land (i32 (a1 + 1)) 15
  else Z.land (i32 (a1 - 1)) 15.

(** ** Montgomery reduction *)

Lemma i32_cong x : i32 x =[4294967296]= x.
Proof.
  rewrite i32_mod. exists (- ((x + 2147483648) / 4294967296)).
  pose proof (Z.div_mod (x + 2147483648) 4294967296). lia.
Qed.
Lemma u64_cong32 x : u64 x =[4294967296]= x.
Proof.
  rewrite u64_mod. exists (- (4294967296 * (x / 18446744073709551616))).
  pose proof (Z.div_mod x 18446744073709551616). lia.
Qed.

Lemma QINV_inverse : QINV * Q =[4294967296]= 1.
Proof. apply congb_sound; [lia|reflexivity]. Qed.

(** The value computed before the shift is an exact multiple of 2^32. *)
Lemma montgomery_t_cong a :
  i32 (u64 (u64 a * u64 QINV)) * Q =[4294967296]= a.
Proof.
  rewrite i32_cong, u64_cong32, u64_cong32, (u64_cong32 QINV), <- Z.mul_assoc, QINV_inverse.
  apply cong_refl_eq. lia.
Qed.

(** The core fact: the result [r] satisfies [r * 2^32 = a - t * Q]. *)
Lemma montgomery_reduce_eq a :
  - (2147483648 * Q) <= a <= 2147483648 * Q ->
  exists t, -2147483648 <= t <= 2147483647 /\ montgomery_reduce a * 4294967296 = a - t * Q.
Proof.
  intros Ha. unfold montgomery_reduce. set (t := i32 (u64 (u64 a * u64 QINV))).
  assert (-2147483648 <= t <= 2147483647) as Ht by (subst t; apply i32_range).
  exists t. split; [exact Ht|]. unfold Q in *.
  rewrite (i64_id (t * 8380417)) by (unfold is_i64; lia).
  rewrite (i64_id (a - _)) by (unfold is_i64; lia).
  destruct (montgomery_t_cong a) as [k Hk]. fold t in Hk. unfold Q in Hk.
  rewrite shiftr_div by lia. change (2 ^ 32) with 4294967296.
  replace (a - t * 8380417) with ((- k) * 4294967296) by lia.
  rewrite Z.div_mul by lia. rewrite i32_id by (unfold is_i32; lia). lia.
Qed.

Lemma montgomery_reduce_bound a :
  - (2147483648 * Q) <= a < 2147483648 * Q -> - Q < montgomery_reduce a < Q.
Proof.
  intros Ha. destruct (montgomery_reduce_eq a ltac:(lia)) as (t & Ht & E).
  unfold Q in *. nia.
Qed.

(** The bound that follows from one on the input. *)
Lemma montgomery_reduce_tight A B a :
  - A <= a <= A -> A <= 2147483648 * Q -> A + 2147483648 * Q <= B * 4294967296 ->
  - B <= montgomery_reduce a <= B.
Proof.
  intros Ha HA HB. destruct (montgomery_reduce_eq a ltac:(lia)) as (t & Ht & E).
  unfold Q in *. nia.
Qed.

Lemma montgomery_reduce_cong a :
  - (2147483648 * Q) <= a <= 2147483648 * Q -> montgomery_reduce a * 4294967296 =[Q]= a.
Proof.
  intros Ha. destruct (montgomery_reduce_eq a Ha) as (t & Ht & ->). exists (- t). lia.
Qed.

(** Montgomery reduction.  For every [a] with [-2^31 Q <= a < 2^31 Q] the
    result is congruent to [a * 2^-32] modulo [Q] and strictly between [-Q]
    and [Q]; at the right end of the documented domain, [a = 2^31 Q], the
    result is [Q] itself, outside the documented open interval. *)
Theorem montgomery_reduce_spec (a : Z) (Ha : - (2147483648 * Q) <= a <= 2147483648 * Q) :
  montgomery_reduce a * 4294967296 =[Q]= a /\
  (a < 2147483648 * Q -> - Q < montgomery_reduce a < Q) /\
  (a = 2147483648 * Q -> montgomery_reduce a = Q).
Proof.
  split; [apply montgomery_reduce_cong, Ha|]. split.
  - intros. apply montgomery_reduce_bound. lia.
  - intros ->. vm_compute. reflexivity.
Qed.
Lemma montgomery_reduce_spec_witness :
  montgomery_reduce (-17996808470921216) * 4294967296 =[Q]= -17996808470921216 /\
  (-17996808470921216 < 2147483648 * Q -> - Q < montgomery_reduce (-17996808470921216) < Q) /\
  (-17996808470921216 = 2147483648 * Q -> montgomery_reduce (-17996808470921216) = Q).
Proof. apply (montgomery_reduce_spec (-17996808470921216)). unfold Q. lia. Defined.

(** ** Signed reduction *)

Lemma reduce32_eq a :
  -2147483648 <= a <= 2143289343 ->
  reduce32 a = a - (a + 4194304) / 8388608 * Q.
Proof.
  intros Ha. unfold reduce32. change (Z.shiftl 1 22) with 4194304.
  rewrite (i32_id (a + _)) by (unfold is_i32; lia).
  rewrite shiftr_div by lia. change (2 ^ 23) with 8388608. unfold Q.
  rewrite (i32_id (_ * _)) by (unfold is_i32; zlia). apply i32_id. unfold is_i32. zlia.
Qed.

Lemma reduce32_bound a :
  -2147483648 <= a <= 2143289343 -> -6283009 <= reduce32 a <= 6283008.
Proof. intros Ha. rewrite reduce32_eq by assumption. unfold Q. zlia. Qed.

Lemma reduce32_cong a : -2147483648 <= a <= 2143289343 -> reduce32 a =[Q]= a.
Proof.
  intros Ha. rewrite reduce32_eq by assumption. exists (- ((a + 4194304) / 8388608)). lia.
Qed.

Lemma caddq_eq a : - Q <= a <= 2147483647 -> caddq a = if a <? 0 then a + Q else a.
Proof.
  intros Ha. unfold caddq. rewrite sign_mask_land by (unfold is_i32, Q in *; lia).
  unfold Q in *. destruct (Z.ltb_spec a 0); rewrite i32_id by (unfold is_i32; lia); lia.
Qed.

Lemma caddq_range a : - Q <= a < Q -> 0 <= caddq a < Q.
Proof. intros. rewrite caddq_eq by (unfold Q in *; lia). destruct (Z.ltb_spec a 0); lia. Qed.

Lemma caddq_cong a : - Q <= a <= 2147483647 -> caddq a =[Q]= a.
Proof.
  intros. rewrite caddq_eq by assumption. destruct (a <? 0); [exists 1; lia|reflexivity].
Qed.

Lemma caddq_mod a : - Q <= a < Q -> caddq a = a mod Q.
Proof.
  intros Ha. rewrite caddq_eq by (unfold Q in *; lia). unfold Q in *.
  destruct (Z.ltb_spec a 0); zlia.
Qed.

(** [freeze] returns the standard representative: for every [a] of its domain
    (all of [int32_t] up to [2^31 - 2^22 - 1]) it is [a mod Q] in [0, Q). *)
Theorem freeze_standard (a : Z) (Ha : -2147483648 <= a <= 2143289343) :
  freeze a = a mod Q.
Proof.
  unfold freeze. pose proof (reduce32_bound a Ha). cbv zeta.
  rewrite caddq_mod by (unfold Q; lia). apply cong_mod; [unfold Q; lia|].
  apply reduce32_cong, Ha.
Qed.
Lemma freeze_standard_witness : freeze (-2143289344) = -2143289344 mod Q.
Proof. apply (freeze_standard (-2143289344)). lia. Defined.

(** the exact range of [reduce32]: on its documented domain the result is
    congruent to the input and lies in [-6283009, 6283008]; the lower end is
    attained, at [a = -2143289344], one below the [-6283008] that the comment
    in [reduce.c] and the one in [poly.c] state. *)
Theorem reduce32_range (a : Z) (Ha : -2147483648 <= a <= 2143289343) :
  reduce32 a =[Q]= a /\ -6283009 <= reduce32 a <= 6283008 /\
  reduce32 (-2143289344) = -6283009 /\ reduce32 2143289343 = 6283008.
Proof.
  split; [apply reduce32_cong, Ha|]. split; [apply reduce32_bound, Ha|].
  split; vm_compute; reflexivity.
Qed.
Lemma reduce32_range_witness :
  reduce32 8380417 =[Q]= 8380417 /\ -6283009 <= reduce32 8380417 <= 6283008 /\
  reduce32 (-2143289344) = -6283009 /\ reduce32 2143289343 = 6283008.
Proof. apply (reduce32_range 8380417). lia. Defined.

(** ** Rounding *)

Lemma power2round_eq a :
  0 <= a < Q -> power2round a = ((a + 4095) / 8192, a - (a + 4095) / 8192 * 8192).
Proof.
  intros Ha. unfold power2round, D. change (Z.shiftl 1 (13 - 1)) with 4096. unfold Q in Ha.
  rewrite (i32_id (a + _)), (i32_id (_ - 1)) by (unfold is_i32; lia).
  rewrite shiftr_div by lia. change (2 ^ 13) with 8192.
  replace (a + 4096 - 1) with (a + 4095) by lia.
  rewrite shiftl_mul by lia. change (2 ^ 13) with 8192.
  rewrite (i32_id (_ * 8192)) by (unfold is_i32; zlia).
  rewrite i32_id by (unfold is_i32; zlia). reflexivity.
Qed.

Lemma power2round_spec a a1 a0 :
  0 <= a < Q -> power2round a = (a1, a0) ->
  a = a1 * 8192 + a0 /\ -4096 < a0 <= 4096 /\ 0 <= a1 < 1024.
Proof.
  intros Ha. rewrite power2round_eq by assumption. intros [= <- <-]. unfold Q in Ha. zlia.
Qed.

Lemma GAMMA2_val : GAMMA2 = 261888.
Proof. reflexivity. Qed.
Lemma GAMMA1_val : GAMMA1 = 524288.
Proof. reflexivity. Qed.
Create Rewrite HintDb mldsa.
#[export] Hint Rewrite GAMMA1_val GAMMA2_val : mldsa.

(** The multiply-and-shift division of [decompose]: [ceil(a / 128) * 1025 / 2^22]
    rounded to nearest is [a] divided by [2 GAMMA2] rounded to nearest, ties down. *)
Lemma decompose_a1 a :
  0 <= a < Q ->
  let y := ((a + 127) / 128 * 1025 + 2097152) / 4194304 in
  0 <= y <= 16 /\ - 261888 < a - y * 523776 <= 261888.
Proof. unfold Q. intros Ha. zlia. Qed.

Lemma land_15 x : Z.land x 15 = x mod 16.
Proof. change 15 with (2 ^ 4 - 1). rewrite land_ones_mod by lia. reflexivity. Qed.

Lemma decompose_eq a :
  0 <= a < Q ->
  decompose a =
  let y := ((a + 127) / 128 * 1025 + 2097152) / 4194304 in
  if y =? 16 then (0, a - Q) else (y, a - y * 523776).
Proof.
  intros Ha. destruct (decompose_a1 a Ha) as [Hy Hr]. unfold decompose, Q in *. cbv zeta.
  rewrite (i32_id (a + 127)) by (unfold is_i32; lia).
  rewrite (shiftr_div _ 7) by lia. change (2 ^ 7) with 128. change (Z.shiftl 1 21) with 2097152.
  assert (0 <= (a + 127) / 128 <= 65473) by zlia.
  rewrite (i32_id (_ * 1025)) by (unfold is_i32; lia).
  rewrite (i32_id (_ + 2097152)) by (unfold is_i32; lia).
  rewrite (shiftr_div _ 22) by lia. change (2 ^ 22) with 4194304.
  set (y := ((a + 127) / 128 * 1025 + 2097152) / 4194304) in *.
  rewrite land_15, GAMMA2_val. change ((8380417 - 1) /c 2) with 4190208.
  assert (y mod 16 = if y =? 16 then 0 else y) as -> by (destruct (Z.eqb_spec y 16); zlia).
  destruct (Z.eqb_spec y 16) as [->|Hne].
  - change (i32 (0 * 2)) with 0. change (i32 (0 * 261888)) with 0.
    rewrite Z.sub_0_r, (i32_id a), (i32_id (4190208 - a)) by (unfold is_i32; lia).
    rewrite sign_mask_land by (unfold is_i32; lia).
    replace (4190208 - a <? 0) with true by lia. rewrite i32_id by (unfold is_i32; lia). reflexivity.
  - rewrite (i32_id (y * 2)) by (unfold is_i32; lia).
    rewrite (i32_id (_ * 261888)) by (unfold is_i32; lia).
    rewrite (i32_id (a - _)) by (unfold is_i32; lia).
    rewrite (i32_id (4190208 - _)) by (unfold is_i32; lia).
    rewrite sign_mask_land by (unfold is_i32; lia).
    replace (4190208 - _ <? 0) with false by lia.
    rewrite i32_id by (unfold is_i32; lia). f_equal. lia.
Qed.

Lemma decompose_spec a a1 a0 :
  0 <= a < Q -> decompose a = (a1, a0) ->
  0 <= a1 <= 15 /\ a1 * 523776 + a0 =[Q]= a /\
  ((a = a1 * 523776 + a0 /\ - 261888 < a0 <= 261888) \/
   (a1 = 0 /\ a0 = a - Q /\ - 261888 <= a0 < 0)).
Proof.
  intros Ha E. rewrite decompose_eq in E by assumption. cbv zeta in E.
  destruct (decompose_a1 a Ha) as [Hy Hr].
  set (y := ((a + 127) / 128 * 1025 + 2097152) / 4194304) in *.
  destruct (Z.eqb_spec y 16) as [Hy16|]; injection E as <- <-.
  - split; [lia|]. split; [exists (-1); lia|]. right. unfold Q in *. lia.
  - split; [lia|]. split; [apply cong_refl_eq; lia|]. left. lia.
Qed.

(** Decomposition is determined by its range: a value written as
    [h * 2 GAMMA2 + l] with [l] in range decomposes to [(h, l)]. *)
Lemma decompose_unique a h l :
  0 <= a < Q -> a = h * 523776 + l -> 0 <= h <= 15 -> - 261888 < l <= 261888 ->
  decompose a = (h, l).
Proof.
  intros Ha E Hh Hl. rewrite decompose_eq by assumption. cbv zeta.
  destruct (decompose_a1 a Ha) as [Hy Hr].
  set (y := ((a + 127) / 128 * 1025 + 2097152) / 4194304) in *.
  assert (y = h) as -> by lia. replace (h =? 16) with false by lia. f_equal. lia.
Qed.

Lemma decompose_wrap a :
  0 <= a < Q -> 16 * 523776 - 261888 < a -> decompose a = (0, a - Q).
Proof.
  intros Ha E. rewrite decompose_eq by assumption. cbv zeta.
  destruct (decompose_a1 a Ha) as [Hy Hr].
  set (y := ((a + 127) / 128 * 1025 + 2097152) / 4194304) in *.
  replace (y =? 16) with true by lia. reflexivity.
Qed.

(** [decompose] implements Decompose of FIPS 204 on standard representatives:
    the high part is in [0, 15], [a1 * 2 GAMMA2 + a0 = a] modulo [Q], the low
    part is in (-GAMMA2, GAMMA2], except in the topmost bucket, where a1 is
    0, a0 is [a - Q] and [-GAMMA2 <= a0 < 0]; and [power2round] splits [a] as
    [a1 * 2^D + a0] with [-2^(D-1) < a0 <= 2^(D-1)] and a 10-bit a1. *)
Theorem rounding_spec (a : Z) (Ha : 0 <= a < Q) :
  (let '(a1, a0) := decompose a in
   0 <= a1 <= 15 /\ a1 * (2 * GAMMA2) + a0 =[Q]= a /\
   ((a = a1 * (2 * GAMMA2) + a0 /\ - GAMMA2 < a0 <= GAMMA2) \/
    (a > Q - 1 - GAMMA2 /\ a1 = 0 /\ a0 = a - Q /\ - GAMMA2 <= a0 < 0))) /\
  (let '(a1, a0) := power2round a in
   a = a1 * 2 ^ D + a0 /\ - 2 ^ (D - 1) < a0 <= 2 ^ (D - 1) /\ 0 <= a1 < 2 ^ 10).
Proof.
  split.
  - destruct (decompose a) as [a1 a0] eqn:E. rewrite GAMMA2_val.
    destruct (decompose_spec a a1 a0 Ha E) as (H1 & H2 & H3).
    split; [exact H1|]. split; [exact H2|]. unfold Q in *. lia.
  - destruct (power2round a) as [a1 a0] eqn:E.
    destruct (power2round_spec a a1 a0 Ha E) as (H1 & H2 & H3).
    change (2 ^ D) with 8192. change (2 ^ (D - 1)) with 4096. change (2 ^ 10) with 1024. lia.
Qed.
Lemma rounding_spec_witness :
  (let '(a1, a0) := decompose 8380416 in
   0 <= a1 <= 15 /\ a1 * (2 * GAMMA2) + a0 =[Q]= 8380416 /\
   ((8380416 = a1 * (2 * GAMMA2) + a0 /\ - GAMMA2 < a0 <= GAMMA2) \/
    (8380416 > Q - 1 - GAMMA2 /\ a1 = 0 /\ a0 = 8380416 - Q /\ - GAMMA2 <= a0 < 0))) /\
  (let '(a1, a0) := power2round 8380416 in
   8380416 = a1 * 2 ^ D + a0 /\ - 2 ^ (D - 1) < a0 <= 2 ^ (D - 1) /\ 0 <= a1 < 2 ^ 10).
Proof. apply (rounding_spec 8380416). unfold Q. lia. Defined.

(** ** Hints *)

Lemma make_hint_cond s h :
  make_hint s h =
  if bool_decide (s > 261888 \/ s < - 261888 \/ (s = - 261888 /\ h <> 0)) then 1 else 0.
Proof.
  unfold make_hint. rewrite GAMMA2_val. change (Z.opp 261888) with (-261888).
  destruct (Z.gtb_spec s 261888), (Z.ltb_spec s (-261888)), (Z.eqb_spec s (-261888)), (Z.eqb_spec h 0);
    cbn [orb andb negb]; case_bool_decide; lia.
Qed.
Lemma make_hint_0 s h :
  make_hint s h = 0 -> - 261888 <= s <= 261888 /\ (s = - 261888 -> h = 0).
Proof. rewrite make_hint_cond. case_bool_decide; lia. Qed.
Lemma make_hint_1 s h :
  make_hint s h <> 0 -> s > 261888 \/ s < - 261888 \/ (s = - 261888 /\ h <> 0).
Proof. rewrite make_hint_cond. case_bool_decide; lia. Qed.
Lemma make_hint_bit s h : make_hint s h = 0 \/ make_hint s h = 1.
Proof. unfold make_hint. destruct (_ || _); auto. Qed.

(** With the hint, the high part is recovered from the perturbed value. *)
Lemma use_hint_make_hint r h s :
  0 <= h <= 15 -> - (2 * GAMMA2) < s < 2 * GAMMA2 ->
  0 <= r < Q -> r =[Q]= h * (2 * GAMMA2) + s ->
  use_hint r (make_hint s h) = h.
Proof.
  rewrite GAMMA2_val. intros Hh Hs Hr Hc.
  assert (r = h * 523776 + s \/ r = h * 523776 + s + Q) as Hcase.
  { destruct Hc as [k Hk]. assert (k = 0 \/ k = 1) by (unfold Q in *; lia). lia. }
  unfold use_hint. destruct (Z.eqb_spec (make_hint s h) 0) as [E0|E1].
  - apply make_hint_0 in E0 as [Hb Hm]. destruct (decompose r) as [a1 a0] eqn:E.
    destruct (Z.eq_dec s (-261888)) as [->|Hs'].
    + rewrite (Hm eq_refl) in *. rewrite decompose_wrap in E by (unfold Q in *; lia). congruence.
    + destruct (Z.lt_ge_cases (h * 523776 + s) 0).
      * rewrite decompose_wrap in E by (unfold Q in *; lia). injection E as <- <-. lia.
      * rewrite (decompose_unique r h s) in E by (unfold Q in *; lia). congruence.
  - apply make_hint_1 in E1.
    destruct (Z.lt_ge_cases s 0) as [Hneg|Hpos].
    + destruct (Z.eq_dec h 0) as [->|Hne].
      * rewrite (decompose_unique r 15 (s + 523776 + 1)) by (unfold Q in *; lia).
        replace (s + 523776 + 1 >? 0) with true by lia. reflexivity.
      * rewrite (decompose_unique r (h - 1) (s + 523776)) by (unfold Q in *; lia).
        replace (s + 523776 >? 0) with true by lia.
        rewrite land_15, i32_id by (unfold is_i32; lia). zlia.
    + destruct (Z.eq_dec h 15) as [->|Hne].
      * rewrite decompose_wrap by (unfold Q in *; lia).
        replace (r - Q >? 0) with false by (unfold Q in *; lia). reflexivity.
      * rewrite (decompose_unique r (h + 1) (s - 523776)) by (unfold Q in *; lia).
        replace (s - 523776 >? 0) with false by lia.
        rewrite land_15, i32_id by (unfold is_i32; lia). zlia.
Qed.

Lemma use_hint_range a hint : 0 <= a < Q -> 0 <= use_hint a hint <= 15.
Proof.
  intros Ha. unfold use_hint. destruct (decompose a) as [a1 a0] eqn:E.
  destruct (decompose_spec a a1 a0 Ha E) as (H1 & _ & _).
  rewrite !land_15. destruct (hint =? 0); [exact H1|]. destruct (a0 >? 0); zlia.
Qed.
