(* ===== verification/MlDsaNtt.v ===== *)
(** * ML-DSA-65: the number-theoretic transform

    [ntt.c] of [src/pqcrypto/ml-dsa-65] as the in-place loops it is, and the
    proof that it computes what it is for: the forward transform evaluates the
    polynomial at the 256 roots of X^256 + 1 modulo Q, the inverse transform
    interpolates (times 2^32), and the three-step product is multiplication in
    Z_Q[X]/(X^256 + 1).  Every intermediate value is shown to fit its type. *)

From S2P Require Import Prelude MlDsaReduce.

Local Open Scope Z_scope.

(** ** The code *)

Definition zetas : list Z := [
    0;    25847; -2608894; -518909;   237124; -777960; -876248;   466468;
    1826347;  2353451; -359251; -2091905;  3119733; -2884855;  3111497;  2680103;
    2725464;  1024112; -1079900;  3585928; -549488; -1119584;  2619752; -2108549;
    -2118186; -3859737; -1399561; -3277672;  1757237; -19422;  4010497;   280005;
    2706023;    95776;  3077325;  3530437; -1661693; -3592148; -2537516;  3915439;
    -3861115; -3043716;  3574422; -2867647;  3539968; -300467;  2348700; -539299;
    -1699267; -1643818;  3505694; -3821735;  3507263; -2140649; -1600420;  3699596;
    811944;   531354;   954230;  3881043;  3900724; -2556880;  2071892; -2797779;
    -3930395; -1528703; -3677745; -3041255; -1452451;  3475950;  2176455; -1585221;
    -1257611;  1939314; -4083598; -1000202; -3190144; -3157330; -3632928;   126922;
    3412210; -983419;  2147896;  2715295; -2967645; -3693493; -411027; -2477047;
    -671102; -1228525; -22981; -1308169; -381987;  1349076;  1852771; -1430430;
    -3343383;   264944;   508951;  3097992;    44288; -1100098;   904516;  3958618;
    -3724342; -8578;  1653064; -3249728;  2389356; -210977;   759969; -1316856;
    189548; -3553272;  3159746; -1851402; -2409325; -177440;  1315589;  1341330;
    1285669; -1584928; -812732; -1439742; -3019102; -3881060; -3628969;  3839961;
    2091667;  3407706;  2316500;  3817976; -3342478;  2244091; -2446433; -3562462;
    266997;  2434439; -1235728;  3513181; -3520352; -3759364; -1197226; -3193378;
    900702;  1859098;   909542;   819034;   495491; -1613174; -43260; -522500;
    -655327; -3122442;  2031748;  3207046; -3556995; -525098; -768622; -3595838;
    342297;   286988; -2437823;  4108315;  3437287; -3342277;  1735879;   203044;
    2842341;  2691481; -2590150;  1265009;  4055324;  1247620;  2486353;  1595974;
    -3767016;  1250494;  2635921; -3548272; -2994039;  1869119;  1903435; -1050970;
    -1333058;  1237275; -3318210; -1430225; -451100;  1312455;  3306115; -1962642;
    -1279661;  1917081; -2546312; -1374803;  1500165;   777191;  2235880;  3406031;
    -542412; -2831860; -1671176; -1846953; -2584293; -3724270;   594136; -3776993;
    -2013608;  2432395;  2454455; -164721;  1957272;  3369112;   185531; -1207385;
    -3183426;   162844;  1616392;  3014001;   810149;  1652634; -3694233; -1799107;
    -3038916;  3523897;  3866901;   269760;  2213111; -975884;  1717735;   472078;
    -426683;  1723600; -1803090;  1910376; -1667432; -1104333; -260646; -3833893;
    -2939036; -2235985; -420899; -2286327;   183443; -976891;  1612842; -3545687;
    -554416;  3919660; -48306; -1362209;  3937738;  1400424; -846154;  1976782
].

(** One iteration of the innermost loop. *)
Definition ntt_butterfly (zeta : Z) (len j : nat) (a : list Z) : list Z :=
  let t := montgomery_reduce (i64 (zeta * a !!! (j + len)%nat)) in
  let a := <[(j + len)%nat := i32 (a !!! j - t)]> a in
  let a := <[j := i32 (a !!! j + t)]> a in
  a.

(** [for (j = start; j < start + len; ++j)] *)
Definition ntt_block (zeta : Z) (len start : nat) (a : list Z) : list Z :=
  for_loop len start (ntt_butterfly zeta len) a.

(** [for (start = 0; start < N; start = j + len)]: [j] leaves the inner loop
    as [start + len], so [start] runs over the multiples of [2 len]. *)
Definition ntt_layer (len : nat) (s : nat * list Z) : nat * list Z :=
  for_loop (N / (2 * len)) 0 (fun b '(k, a) =>
    let k := S k in
    (k, ntt_block (zetas !!! k) len (2 * len * b) a)) s.

(** [for (len = 128; len > 0; len >>= 1)] *)
Definition ntt (a : list Z) : list Z :=
  snd (for_loop 8 0 (fun l s => ntt_layer (Nat.shiftr 128 l) s) (0%nat, a)).

Definition invntt_butterfly (zeta : Z) (len j : nat) (a : list Z) : list Z :=
  let t := a !!! j in
  let a := <[j := i32 (t + a !!! (j + len)%nat)]> a in
  let a := <[(j + len)%nat := i32 (t - a !!! (j + len)%nat)]> a in
  let a := <[(j + len)%nat := montgomery_reduce (i64 (zeta * a !!! (j + len)%nat))]> a in
  a.

Definition invntt_block (zeta : Z) (len start : nat) (a : list Z) : list Z :=
  for_loop len start (invntt_butterfly zeta len) a.

Definition invntt_layer (len : nat) (s : nat * list Z) : nat * list Z :=
  for_loop (N / (2 * len)) 0 (fun b '(k, a) =>
    let k := pred k in
    (k, invntt_block (i32 (- (zetas !!! k))) len (2 * len * b) a)) s.

Definition invntt_f : Z := 41978. (* mont^2/256 *)

(** [for (len = 1; len < N; len <<= 1)] and the final scaling loop. *)
Definition invntt_tomont (a : list Z) : list Z :=
  let a := snd (for_loop 8 0 (fun l s => invntt_layer (Nat.shiftl 1 l) s) (256%nat, a)) in
  for_loop N 0 (fun j a => <[j := montgomery_reduce (i64 (invntt_f * a !!! j))]> a) a.

(** ** What one block does *)

(** The product a butterfly subtracts and adds. *)
Definition twiddle (zeta v : Z) : Z := montgomery_reduce (i64 (zeta * v)).

Lemma ntt_block_spec zeta len start a :
  (start + 2 * len <= length a)%nat ->
  let a' := ntt_block zeta len start a in
  length a' = length a /\
  (forall j, (start <= j < start + len)%nat ->
     a' !!! j = i32 (a !!! j + twiddle zeta (a !!! (j + len)%nat)) /\
     a' !!! (j + len)%nat = i32 (a !!! j - twiddle zeta (a !!! (j + len)%nat))) /\
  (forall i, (i < start \/ start + 2 * len <= i)%nat -> a' !!! i = a !!! i).
Proof.
  intros Hlen. cbv zeta. unfold ntt_block.
  set (P := fun (m : nat) (c : list Z) =>
    length c = length a /\
    (forall j, (start <= j < m)%nat ->
       c !!! j = i32 (a !!! j + twiddle zeta (a !!! (j + len)%nat)) /\
       c !!! (j + len)%nat = i32 (a !!! j - twiddle zeta (a !!! (j + len)%nat))) /\
    (forall i, (i < start \/ start + 2 * len <= i \/ m <= i < start + len \/ m + len <= i)%nat ->
       c !!! i = a !!! i)).
  enough (P (start + len)%nat (for_loop len start (ntt_butterfly zeta len) a)) as (H1 & H2 & H3).
  { split; [exact H1|]. split; [exact H2|]. intros i Hi. apply H3. lia. }
  apply (for_loop_inv P).
  { split; [reflexivity|]. split; [intros; lia|reflexivity]. }
  intros m c Hm (H1 & H2 & H3). unfold ntt_butterfly. fold (twiddle zeta (c !!! (m + len)%nat)).
  rewrite (H3 (m + len)%nat) by lia. rewrite (H3 m) by lia.
  rewrite (lookup_total_insert_ne _ _ m) by lia. rewrite (H3 m) by lia.
  split; [rewrite !length_insert; exact H1|]. split.
  - intros j Hj. destruct (decide (j = m)) as [->|Hne].
    + rewrite lookup_total_insert_eq by (rewrite length_insert; lia).
      rewrite lookup_total_insert_ne by lia. rewrite lookup_total_insert_eq by lia. done.
    + rewrite !lookup_total_insert_ne by lia. apply H2. lia.
  - intros i Hi. rewrite !lookup_total_insert_ne by lia. apply H3. lia.
Qed.

Lemma invntt_block_spec zeta len start a :
  (start + 2 * len <= length a)%nat ->
  let a' := invntt_block zeta len start a in
  length a' = length a /\
  (forall j, (start <= j < start + len)%nat ->
     a' !!! j = i32 (a !!! j + a !!! (j + len)%nat) /\
     a' !!! (j + len)%nat = twiddle zeta (i32 (a !!! j - a !!! (j + len)%nat))) /\
  (forall i, (i < start \/ start + 2 * len <= i)%nat -> a' !!! i = a !!! i).
Proof.
  intros Hlen. cbv zeta. unfold invntt_block.
  set (P := fun (m : nat) (c : list Z) =>
    length c = length a /\
    (forall j, (start <= j < m)%nat ->
       c !!! j = i32 (a !!! j + a !!! (j + len)%nat) /\
       c !!! (j + len)%nat = twiddle zeta (i32 (a !!! j - a !!! (j + len)%nat))) /\
    (forall i, (i < start \/ start + 2 * len <= i \/ m <= i < start + len \/ m + len <= i)%nat ->
       c !!! i = a !!! i)).
  enough (P (start + len)%nat (for_loop len start (invntt_butterfly zeta len) a)) as (H1 & H2 & H3).
  { split; [exact H1|]. split; [exact H2|]. intros i Hi. apply H3. lia. }
  apply (for_loop_inv P).
  { split; [reflexivity|]. split; [intros; lia|reflexivity]. }
  intros m c Hm (H1 & H2 & H3). unfold invntt_butterfly.
  rewrite (lookup_total_insert_ne _ m (m + len)%nat) by lia.
  rewrite lookup_total_insert_eq by (rewrite length_insert; lia).
  fold (twiddle zeta (i32 (c !!! m - c !!! (m + len)%nat))).
  rewrite !(H3 (m + len)%nat) by lia. rewrite (H3 m) by lia.
  split; [rewrite !length_insert; exact H1|]. split.
  - intros j Hj. destruct (decide (j = m)) as [->|Hne].
    + rewrite (lookup_total_insert_eq _ (m + len)) by (rewrite !length_insert; lia).
      rewrite !lookup_total_insert_ne by lia.
      rewrite lookup_total_insert_eq by lia. done.
    + rewrite !lookup_total_insert_ne by lia. apply H2. lia.
  - intros i Hi. rewrite !lookup_total_insert_ne by lia. apply H3. lia.
Qed.

(** ** What one layer does

    A layer works on [nb] blocks of [2 len] coefficients; position [2 len b + j]
    with [j < len] is in the lower half of block [b]. *)
Section layers.
Context (nb len : nat) (Hsz : (nb * (2 * len) = 256)%nat) (Hpos : (0 < len)%nat).

Lemma layer_blocks : (N / (2 * len))%nat = nb.
Proof using All. unfold N. rewrite <- Hsz. apply Nat.div_mul. lia. Qed.

Lemma block_fits b : (b < nb)%nat -> (2 * len * b + 2 * len <= 256)%nat.
Proof using All. intros. nia. Qed.

Lemma ntt_layer_spec k0 a :
  length a = 256%nat ->
  let '(k, a') := ntt_layer len (k0, a) in
  k = (k0 + nb)%nat /\ length a' = 256%nat /\
  forall b j, (b < nb)%nat -> (j < len)%nat ->
    let i := (2 * len * b + j)%nat in
    let t := twiddle (zetas !!! (k0 + 1 + b)%nat) (a !!! (i + len)%nat) in
    a' !!! i = i32 (a !!! i + t) /\ a' !!! (i + len)%nat = i32 (a !!! i - t).
Proof using All.
  intros Ha. unfold ntt_layer. rewrite layer_blocks.
  set (P := fun (m : nat) (s : nat * list Z) =>
    fst s = (k0 + m)%nat /\ length (snd s) = 256%nat /\
    (forall b j, (b < m)%nat -> (j < len)%nat ->
      let i := (2 * len * b + j)%nat in
      let t := twiddle (zetas !!! (k0 + 1 + b)%nat) (a !!! (i + len)%nat) in
      snd s !!! i = i32 (a !!! i + t) /\ snd s !!! (i + len)%nat = i32 (a !!! i - t)) /\
    (forall i, (2 * len * m <= i)%nat -> snd s !!! i = a !!! i)).
  match goal with |- context [for_loop nb 0 ?f ?s] => set (body := f);
    enough (P (0 + nb)%nat (for_loop nb 0 body s)) as H end.
  { destruct (for_loop nb 0 body _) as [k a']. destruct H as (H1 & H2 & H3 & _).
    split; [exact H1|]. split; [exact H2|exact H3]. }
  apply (for_loop_inv P).
  { split; [cbn; lia|]. split; [exact Ha|]. split; [intros; lia|reflexivity]. }
  intros m [k c] Hm (H1 & H2 & H3 & H4). cbn [fst snd] in *. subst k.
  pose proof (block_fits m ltac:(lia)) as Hf.
  destruct (ntt_block_spec (zetas !!! S (k0 + m)) len (2 * len * m) c) as (B1 & B2 & B3); [lia|].
  unfold body. split; [cbn; lia|]. cbn [snd]. split; [lia|]. split.
  - intros b j Hb Hj. cbv zeta. destruct (decide (b = m)) as [->|Hne].
    + destruct (B2 (2 * len * m + j)%nat ltac:(lia)) as [E1 E2].
      rewrite E1, E2, !H4 by lia. replace (k0 + 1 + m)%nat with (S (k0 + m)) by lia. done.
    + rewrite !B3 by nia. apply H3; lia.
  - intros i Hi. rewrite B3 by nia. apply H4. nia.
Qed.

Lemma invntt_layer_spec k0 a :
  length a = 256%nat -> (nb <= k0)%nat ->
  let '(k, a') := invntt_layer len (k0, a) in
  k = (k0 - nb)%nat /\ length a' = 256%nat /\
  forall b j, (b < nb)%nat -> (j < len)%nat ->
    let i := (2 * len * b + j)%nat in
    a' !!! i = i32 (a !!! i + a !!! (i + len)%nat) /\
    a' !!! (i + len)%nat =
      twiddle (i32 (- (zetas !!! (k0 - 1 - b)%nat))) (i32 (a !!! i - a !!! (i + len)%nat)).
Proof using All.
  intros Ha Hk0. unfold invntt_layer. rewrite layer_blocks.
  set (P := fun (m : nat) (s : nat * list Z) =>
    fst s = (k0 - m)%nat /\ length (snd s) = 256%nat /\
    (forall b j, (b < m)%nat -> (j < len)%nat ->
      let i := (2 * len * b + j)%nat in
      snd s !!! i = i32 (a !!! i + a !!! (i + len)%nat) /\
      snd s !!! (i + len)%nat =
        twiddle (i32 (- (zetas !!! (k0 - 1 - b)%nat))) (i32 (a !!! i - a !!! (i + len)%nat))) /\
    (forall i, (2 * len * m <= i)%nat -> snd s !!! i = a !!! i)).
  match goal with |- context [for_loop nb 0 ?f ?s] => set (body := f);
    enough (P (0 + nb)%nat (for_loop nb 0 body s)) as H end.
  { destruct (for_loop nb 0 body _) as [k a']. destruct H as (H1 & H2 & H3 & _).
    split; [exact H1|]. split; [exact H2|exact H3]. }
  apply (for_loop_inv P).
  { split; [cbn; lia|]. split; [exact Ha|]. split; [intros; lia|reflexivity]. }
  intros m [k c] Hm (H1 & H2 & H3 & H4). cbn [fst snd] in *. subst k.
  pose proof (block_fits m ltac:(lia)) as Hf.
  destruct (invntt_block_spec (i32 (- (zetas !!! pred (k0 - m)%nat))) len (2 * len * m) c)
    as (B1 & B2 & B3); [lia|].
  unfold body. split; [cbn; lia|]. cbn [snd]. split; [lia|]. split.
  - intros b j Hb Hj. cbv zeta. destruct (decide (b = m)) as [->|Hne].
    + destruct (B2 (2 * len * m + j)%nat ltac:(lia)) as [E1 E2].
      rewrite E1, E2, !H4 by lia. replace (k0 - 1 - m)%nat with (pred (k0 - m)) by lia. done.
    + rewrite !B3 by nia. apply H3; lia.
  - intros i Hi. rewrite B3 by nia. apply H4. nia.
Qed.
End layers.

(** ** The layers modulo Q *)

(** The inverse of the Montgomery factor 2^32 modulo Q. *)
Definition RINV : Z := 8265825.
Lemma RINV_spec : 4294967296 * RINV =[Q]= 1.
Proof. apply congb_sound; [unfold Q; lia|reflexivity]. Qed.

(** The twiddle factor of index [k], out of Montgomery form. *)
Definition g (k : nat) : Z := zetas !!! k * RINV.

Lemma zetas_bound k : -4190208 <= zetas !!! k <= 4190208.
Proof.
  destruct (decide (k < 256)%nat).
  - assert (forallb (fun z => (-4190208 <=? z) && (z <=? 4190208)) zetas = true) as H by reflexivity.
    rewrite forallb_forall in H.
    destruct (lookup_lt_is_Some_2 zetas k ltac:(exact l)) as [z Hz].
    rewrite (list_lookup_total_correct _ _ _ Hz). specialize (H z).
    rewrite <- list_elem_of_In in H. specialize (H (list_elem_of_lookup_2 _ _ _ Hz)). lia.
  - rewrite list_lookup_total_alt, lookup_ge_None_2
      by (change (length zetas) with 256%nat; lia). vm_compute. split; discriminate.
Qed.

Lemma twiddle_bound z v :
  -4190208 <= z <= 4190208 -> is_i32 v -> - Q < twiddle z v < Q.
Proof.
  unfold is_i32. intros Hz Hv. unfold twiddle.
  assert (- (4190208 * 2147483648) <= z * v <= 4190208 * 2147483648) by nia.
  rewrite i64_id by (unfold is_i64; lia). apply montgomery_reduce_bound. unfold Q. lia.
Qed.

Lemma twiddle_cong z v :
  -4190208 <= z <= 4190208 -> is_i32 v -> twiddle z v =[Q]= z * RINV * v.
Proof.
  unfold is_i32. intros Hz Hv. unfold twiddle.
  assert (- (4190208 * 2147483648) <= z * v <= 4190208 * 2147483648) by nia.
  rewrite i64_id by (unfold is_i64; lia).
  apply (cong_cancel Q 4294967296 RINV); [apply RINV_spec|].
  rewrite montgomery_reduce_cong by (unfold Q; lia).
  replace (z * RINV * v * 4294967296) with (z * v * (4294967296 * RINV)) by ring.
  rewrite RINV_spec. apply cong_refl_eq. ring.
Qed.

(** Arrays of 256 coefficients of absolute value at most [B]. *)
Definition coeffs_ok (B : Z) (a : list Z) : Prop :=
  length a = 256%nat /\ forall i, (i < 256)%nat -> - B <= a !!! i <= B.

Lemma coeffs_ok_mono B B' a : B <= B' -> coeffs_ok B a -> coeffs_ok B' a.
Proof. intros HB [Hl H]. split; [exact Hl|]. intros i Hi. specialize (H i Hi). lia. Qed.

Section layers_modQ.
Context (nb len : nat) (Hsz : (nb * (2 * len) = 256)%nat) (Hpos : (0 < len)%nat).

(** Every index is a lower or an upper position of exactly one block. *)
Lemma position_cases (P : nat -> Prop) :
  (forall b j, (b < nb)%nat -> (j < len)%nat -> P (2 * len * b + j)%nat) ->
  (forall b j, (b < nb)%nat -> (j < len)%nat -> P (2 * len * b + j + len)%nat) ->
  forall i, (i < 256)%nat -> P i.
Proof using All.
  intros Hlo Hhi i Hi. pose proof (Nat.div_mod_eq i (2 * len)) as E.
  pose proof (Nat.mod_upper_bound i (2 * len) ltac:(lia)) as Hm.
  assert (i / (2 * len) < nb)%nat by (apply Nat.Div0.div_lt_upper_bound; nia).
  destruct (decide (i mod (2 * len) < len)%nat).
  - rewrite E. apply Hlo; lia.
  - replace i with (2 * len * (i / (2 * len)) + (i mod (2 * len) - len) + len)%nat by lia.
    apply Hhi; lia.
Qed.

(** One forward layer: every block is split at its square root [g (nb + b)]. *)
Definition fwd (A A' : nat -> Z) : Prop :=
  forall b j, (b < nb)%nat -> (j < len)%nat ->
    let i := (2 * len * b + j)%nat in
    A' i =[Q]= A i + g (nb + b) * A (i + len)%nat /\
    A' (i + len)%nat =[Q]= A i - g (nb + b) * A (i + len)%nat.

Lemma ntt_layer_ok B k0 a :
  coeffs_ok B a -> 0 <= B -> B + Q <= 2147483647 -> (k0 + 1 = nb)%nat ->
  let '(k, a') := ntt_layer len (k0, a) in
  (k + 1 = 2 * nb)%nat /\ coeffs_ok (B + Q) a' /\
  fwd (fun i => a !!! i) (fun i => a' !!! i).
Proof using All.
  intros [Hl Hb] HB HBQ Hk. pose proof (ntt_layer_spec nb len Hsz Hpos k0 a Hl) as H.
  destruct (ntt_layer len (k0, a)) as [k a']. destruct H as (H1 & H2 & H3).
  assert (forall b j, (b < nb)%nat -> (j < len)%nat ->
    let i := (2 * len * b + j)%nat in
    let t := twiddle (zetas !!! (nb + b)%nat) (a !!! (i + len)%nat) in
    a' !!! i = a !!! i + t /\ a' !!! (i + len)%nat = a !!! i - t /\
    - Q < t < Q /\ t =[Q]= g (nb + b) * a !!! (i + len)%nat /\ - B <= a !!! i <= B) as H4.
  { intros b j Hb' Hj. cbv zeta. destruct (H3 b j Hb' Hj) as [E1 E2].
    rewrite Hk in E1, E2. pose proof (block_fits nb len Hsz Hpos b Hb').
    pose proof (Hb (2 * len * b + j)%nat ltac:(lia)).
    pose proof (Hb (2 * len * b + j + len)%nat ltac:(lia)).
    assert (is_i32 (a !!! (2 * len * b + j + len)%nat)) as Hi by (unfold is_i32, Q in *; lia).
    pose proof (twiddle_bound _ _ (zetas_bound (nb + b)) Hi).
    rewrite E1, E2, !i32_id by (unfold is_i32; lia). repeat split; try lia.
    apply twiddle_cong; [apply zetas_bound|exact Hi]. }
  split; [lia|]. split; [split; [exact H2|]|].
  - apply position_cases; intros b j Hb' Hj; destruct (H4 b j Hb' Hj) as (E1 & E2 & ? & ? & ?);
      [rewrite E1|rewrite E2]; lia.
  - intros b j Hb' Hj. cbv zeta beta. destruct (H4 b j Hb' Hj) as (-> & -> & ? & Ht & ?).
    rewrite Ht. split; reflexivity.
Qed.
End layers_modQ.

(** ** Roots *)

(** The value that X^n takes on the roots below block [k - 256/n]: the modulus
    of node [k] of the splitting tree is X^n - [node k]. *)
Definition node (k : nat) : Z :=
  if (k =? 1)%nat then -1
  else if Nat.even k then g (k / 2) else - g (k / 2).

(** Each twiddle factor is a square root of its node. *)
Lemma g_square k : (1 <= k < 256)%nat -> g k * g k =[Q]= node k.
Proof.
  intros Hk.
  assert (forallb (fun k => congb Q (g k * g k) (node k)) (seq 1 255) = true) as H
    by (vm_compute; reflexivity).
  rewrite forallb_forall in H. apply congb_sound; [unfold Q; lia|].
  apply H, in_seq. lia.
Qed.

Lemma node_even k : (1 <= k)%nat -> node (2 * k) = g k.
Proof.
  intros. unfold node. replace (2 * k =? 1)%nat with false by (symmetry; apply Nat.eqb_neq; lia).
  rewrite Nat.even_mul. cbn [Nat.even orb]. rewrite Nat.mul_comm, Nat.div_mul by lia. reflexivity.
Qed.
Lemma node_odd k : (1 <= k)%nat -> node (2 * k + 1) = - g k.
Proof.
  intros. unfold node. replace (2 * k + 1 =? 1)%nat with false by (symmetry; apply Nat.eqb_neq; lia).
  rewrite Nat.even_add, Nat.even_mul. cbn [Nat.even orb eqb].
  replace ((2 * k + 1) / 2)%nat with k; [reflexivity|].
  apply Nat.div_unique with 1%nat; lia.
Qed.

(** The invariant of the forward transform before a layer with [nb] blocks of
    [n] coefficients: each block is the polynomial reduced modulo its node, so
    it takes the polynomial's value at every root of that node. *)
Definition splits (n nb : nat) (A f : nat -> Z) : Prop :=
  forall b r, (b < nb)%nat -> r ^ Z.of_nat n =[Q]= node (nb + b) ->
    peval (fun j => A (n * b + j)%nat) n r =[Q]= peval f 256 r.

Lemma splits_start f : splits 256 1 f f.
Proof.
  intros b r Hb _. assert (b = 0)%nat as -> by lia. apply peval_cong. intros i _.
  rewrite Nat.mul_0_r. reflexivity.
Qed.

Lemma splits_step nb len A A' f :
  (nb * (2 * len) = 256)%nat -> (0 < len)%nat ->
  splits (2 * len) nb A f -> fwd nb len A A' -> splits len (2 * nb) A' f.
Proof.
  intros Hsz Hpos HA Hf b' r Hb' Hr.
  assert (exists b, (b < nb)%nat /\ (b' = 2 * b \/ b' = 2 * b + 1)%nat) as (b & Hb & Hcase).
  { exists (b' / 2)%nat. pose proof (Nat.div_mod_eq b' 2).
    pose proof (Nat.mod_upper_bound b' 2 ltac:(lia)). lia. }
  assert (1 <= nb)%nat as Hnb by lia.
  assert (1 <= nb + b < 256)%nat as Hk by nia.
  assert (exists s, (s = 1 \/ s = -1) /\ r ^ Z.of_nat len =[Q]= s * g (nb + b) /\
    forall j, (j < len)%nat -> A' (len * b' + j)%nat =[Q]=
      A (2 * len * b + j)%nat + s * g (nb + b) * A (2 * len * b + (len + j))%nat)
    as (s & Hs & Hrs & Hval).
  { destruct Hcase as [-> | ->].
    - exists 1. split; [lia|]. split.
      + rewrite Hr. replace (2 * nb + 2 * b)%nat with (2 * (nb + b))%nat by lia.
        rewrite node_even by lia. apply cong_refl_eq. lia.
      + intros j Hj. destruct (Hf b j Hb Hj) as [E _].
        replace (len * (2 * b) + j)%nat with (2 * len * b + j)%nat by lia. rewrite E.
        replace (2 * len * b + (len + j))%nat with (2 * len * b + j + len)%nat by lia.
        apply cong_refl_eq. lia.
    - exists (-1). split; [lia|]. split.
      + rewrite Hr. replace (2 * nb + (2 * b + 1))%nat with (2 * (nb + b) + 1)%nat by lia.
        rewrite node_odd by lia. apply cong_refl_eq. lia.
      + intros j Hj. destruct (Hf b j Hb Hj) as [_ E].
        replace (len * (2 * b + 1) + j)%nat with (2 * len * b + j + len)%nat by lia. rewrite E.
        replace (2 * len * b + (len + j))%nat with (2 * len * b + j + len)%nat by lia.
        apply cong_refl_eq. lia. }
  rewrite (peval_cong Q _ (fun j => A (2 * len * b + j)%nat +
    s * g (nb + b) * A (2 * len * b + (len + j))%nat)) by exact Hval.
  rewrite (peval_lin (fun j => A (2 * len * b + j)%nat) (fun j => A (2 * len * b + (len + j))%nat)).
  rewrite <- (HA b r Hb).
  - replace (2 * len)%nat with (len + len)%nat by lia. rewrite peval_split, Hrs. reflexivity.
  - replace (Z.of_nat (2 * len)) with (Z.of_nat len + Z.of_nat len) by lia.
    rewrite Z.pow_add_r by lia. rewrite Hrs, <- (g_square (nb + b) Hk).
    replace (s * g (nb + b) * (s * g (nb + b))) with (s * s * (g (nb + b) * g (nb + b))) by ring.
    replace (s * s) with 1 by lia. apply cong_refl_eq. ring.
Qed.

Lemma splits_end A f x :
  splits 1 256 A f -> (x < 256)%nat -> A x =[Q]= peval f 256 (node (256 + x)).
Proof.
  intros H Hx. rewrite <- (H x (node (256 + x)) Hx).
  - cbn. apply cong_refl_eq. replace (x + 0 + 0)%nat with x by lia. lia.
  - rewrite Z.pow_1_r. reflexivity.
Qed.

(** ** The forward transform *)

(** The array size of layer [l]: 2^l blocks of 2^(8-l). *)
Lemma layer_size l : (l < 8)%nat -> (2 ^ l * (2 * Nat.shiftr 128 l) = 256)%nat.
Proof. intros. do 8 (destruct l as [|l]; [reflexivity|]). lia. Qed.
Lemma layer_len l : (l < 8)%nat -> (0 < Nat.shiftr 128 l)%nat.
Proof. intros. do 8 (destruct l as [|l]; [cbn; lia|]). lia. Qed.
Lemma layer_div l : (l < 8)%nat -> (256 / 2 ^ l = 2 * Nat.shiftr 128 l)%nat.
Proof. intros. do 8 (destruct l as [|l]; [reflexivity|]). lia. Qed.
Lemma layer_div_S l : (l < 8)%nat -> (256 / 2 ^ S l = Nat.shiftr 128 l)%nat.
Proof. intros. do 8 (destruct l as [|l]; [reflexivity|]). lia. Qed.

Lemma ntt_spec B a :
  coeffs_ok B a -> 0 <= B -> B + 8 * Q <= 2147483647 ->
  coeffs_ok (B + 8 * Q) (ntt a) /\
  forall x, (x < 256)%nat -> ntt a !!! x =[Q]= peval (fun i => a !!! i) 256 (node (256 + x)).
Proof.
  intros Ha HB HBQ. unfold ntt.
  set (P := fun (l : nat) (s : nat * list Z) =>
    (fst s + 1 = 2 ^ l)%nat /\ coeffs_ok (B + Z.of_nat l * Q) (snd s) /\
    splits (256 / 2 ^ l) (2 ^ l) (fun i => snd s !!! i) (fun i => a !!! i)).
  match goal with |- context [for_loop 8 0 ?f ?s] =>
    enough (P (0 + 8)%nat (for_loop 8 0 f s)) as (_ & H2 & H3) end.
  { split; [exact H2|]. intros x Hx. exact (splits_end _ _ x H3 Hx). }
  apply (for_loop_inv P).
  { split; [reflexivity|]. split; [|apply splits_start].
    cbn [snd]. replace (B + _) with B by lia. exact Ha. }
  intros l [k c] Hl (H1 & H2 & H3). cbn [fst snd] in *.
  pose proof (layer_size l ltac:(lia)) as Hsz. pose proof (layer_len l ltac:(lia)) as Hpos.
  pose proof (ntt_layer_ok (2 ^ l) (Nat.shiftr 128 l) Hsz Hpos (B + Z.of_nat l * Q) k c H2) as HL.
  destruct (ntt_layer (Nat.shiftr 128 l) (k, c)) as [k' c'].
  destruct HL as (K1 & K2 & K3); [unfold Q in *; lia|unfold Q in *; lia|lia|].
  rewrite layer_div in H3 by lia. pose proof (splits_step _ _ _ _ _ Hsz Hpos H3 K3) as HS.
  split; [cbn [fst Nat.pow]; lia|]. split.
  - cbn [snd]. replace (B + Z.of_nat (S l) * Q) with (B + Z.of_nat l * Q + Q) by lia. exact K2.
  - rewrite layer_div_S by lia. exact HS.
Qed.

(** ** The inverse transform *)

(** The transform as a function on coefficient functions, exact over Z. *)
Definition fwd_fun (nb len : nat) (A : nat -> Z) (i : nat) : Z :=
  let b := (i / (2 * len))%nat in
  if (i mod (2 * len) <? len)%nat
  then A i + g (nb + b) * A (i + len)%nat
  else A (i - len)%nat - g (nb + b) * A i.

Fixpoint chain (f : nat -> Z) (l : nat) : nat -> Z :=
  match l with
  | O => f
  | S l' => fwd_fun (2 ^ l') (Nat.shiftr 128 l') (chain f l')
  end.

Lemma fwd_fun_fwd nb len A :
  (0 < len)%nat -> fwd nb len A (fwd_fun nb len A).
Proof.
  intros Hpos b j Hb Hj. cbv zeta. unfold fwd_fun.
  replace ((2 * len * b + j) / (2 * len))%nat with b
    by (apply Nat.div_unique with j; lia).
  replace ((2 * len * b + j + len) / (2 * len))%nat with b
    by (apply Nat.div_unique with (j + len)%nat; lia).
  replace ((2 * len * b + j) mod (2 * len))%nat with j
    by (apply Nat.mod_unique with b; lia).
  replace ((2 * len * b + j + len) mod (2 * len))%nat with (j + len)%nat
    by (apply Nat.mod_unique with b; lia).
  replace (j <? len)%nat with true by (symmetry; apply Nat.ltb_lt; lia).
  replace (j + len <? len)%nat with false by (symmetry; apply Nat.ltb_ge; lia).
  replace (2 * len * b + j + len - len)%nat with (2 * len * b + j)%nat by lia.
  split; reflexivity.
Qed.

Lemma chain_splits f l :
  (l <= 8)%nat -> splits (256 / 2 ^ l) (2 ^ l) (chain f l) f.
Proof.
  induction l as [|l IH]; intros Hl; [apply splits_start|].
  specialize (IH ltac:(lia)).
  pose proof (layer_size l ltac:(lia)) as Hsz. pose proof (layer_len l ltac:(lia)) as Hpos.
  rewrite layer_div in IH by lia. rewrite layer_div_S by lia.
  apply (splits_step _ _ _ _ _ Hsz Hpos IH). apply fwd_fun_fwd, Hpos.
Qed.

Lemma chain_eval f x :
  (x < 256)%nat -> chain f 8 x =[Q]= peval f 256 (node (256 + x)).
Proof. intros Hx. apply splits_end; [|exact Hx]. apply (chain_splits f 8). lia. Qed.

(** The twiddle factor the inverse layer uses undoes the forward one. *)
Lemma g_mirror l b :
  (l < 8)%nat -> (b < 2 ^ l)%nat -> - g (2 * 2 ^ l - 1 - b) * g (2 ^ l + b) =[Q]= 1.
Proof.
  intros Hl Hb.
  assert (forallb (fun l => forallb (fun b =>
    congb Q (- g (2 * 2 ^ l - 1 - b) * g (2 ^ l + b)) 1) (seq 0 (2 ^ l))) (seq 0 8) = true) as H
    by (vm_compute; reflexivity).
  rewrite forallb_forall in H. specialize (H l). rewrite forallb_forall in H.
  apply congb_sound; [unfold Q; lia|]. apply H; apply in_seq; lia.
Qed.

Lemma invntt_layer_ok l B c f a :
  (l < 8)%nat -> coeffs_ok B a -> Q <= B -> 2 * B <= 2147483647 ->
  (forall i, (i < 256)%nat -> a !!! i =[Q]= c * chain f (S l) i) ->
  let '(k, a') := invntt_layer (Nat.shiftr 128 l) (2 * 2 ^ l, a)%nat in
  (k = 2 ^ l)%nat /\ coeffs_ok (2 * B) a' /\
  forall i, (i < 256)%nat -> a' !!! i =[Q]= 2 * c * chain f l i.
Proof.
  intros Hl [Ha Hb] HQ HB Hc.
  pose proof (layer_size l Hl) as Hsz. pose proof (layer_len l Hl) as Hpos.
  set (len := Nat.shiftr 128 l) in *. set (nb := (2 ^ l)%nat) in *.
  pose proof (invntt_layer_spec nb len Hsz Hpos (2 * nb) a Ha ltac:(lia)) as H.
  destruct (invntt_layer len _) as [k a']. destruct H as (H1 & H2 & H3).
  assert (forall b j, (b < nb)%nat -> (j < len)%nat ->
    let i := (2 * len * b + j)%nat in
    let u := a !!! i in let v := a !!! (i + len)%nat in
    a' !!! i = u + v /\ - (2 * B) <= u + v <= 2 * B /\
    - Q < a' !!! (i + len)%nat < Q /\
    a' !!! (i + len)%nat =[Q]= - g (2 * nb - 1 - b) * (u - v)) as H4.
  { intros b j Hb' Hj. cbv zeta. destruct (H3 b j Hb' Hj) as [E1 E2].
    pose proof (block_fits nb len Hsz Hpos b Hb').
    pose proof (Hb (2 * len * b + j)%nat ltac:(lia)).
    pose proof (Hb (2 * len * b + j + len)%nat ltac:(lia)).
    pose proof (zetas_bound (2 * nb - 1 - b)) as Hz.
    rewrite E1, E2, !i32_id by (unfold is_i32; lia).
    split; [reflexivity|]. split; [lia|]. split; [apply twiddle_bound; (unfold is_i32; lia)|].
    rewrite twiddle_cong by (unfold is_i32; lia). unfold g. apply cong_refl_eq. ring. }
  split; [lia|]. split; [split; [exact H2|]|].
  - apply (position_cases nb len Hsz Hpos); intros b j Hb' Hj;
      destruct (H4 b j Hb' Hj) as (E1 & E2 & E3 & _); [rewrite E1|]; lia.
  - pose proof (fwd_fun_fwd nb len (chain f l) Hpos) as HF.
    apply (position_cases nb len Hsz Hpos); intros b j Hb' Hj;
      destruct (H4 b j Hb' Hj) as (E1 & _ & _ & E4); destruct (HF b j Hb' Hj) as [F1 F2];
      pose proof (block_fits nb len Hsz Hpos b Hb');
      pose proof (Hc (2 * len * b + j)%nat ltac:(lia)) as C1;
      pose proof (Hc (2 * len * b + j + len)%nat ltac:(lia)) as C2;
      cbn [chain] in C1, C2; fold nb len in C1, C2; rewrite F1 in C1; rewrite F2 in C2.
    + rewrite E1, C1, C2. apply cong_refl_eq. ring.
    + rewrite E4, C1, C2.
      transitivity (2 * c * (- g (2 * nb - 1 - b) * g (nb + b)) * chain f l (2 * len * b + j + len)%nat);
        [apply cong_refl_eq; ring|].
      pose proof (g_mirror l b Hl Hb') as G. fold nb in G. rewrite G. apply cong_refl_eq. ring.
Qed.

Lemma shiftl_shiftr l : (l < 8)%nat -> Nat.shiftl 1 l = Nat.shiftr 128 (7 - l).
Proof. intros. do 8 (destruct l as [|l]; [reflexivity|]). lia. Qed.

(** The inverse transform: if the input is [c] times the transform of [f], the
    output is [2^32 c] times [f], with coefficients strictly inside (-Q, Q). *)
Lemma invntt_spec c f a :
  coeffs_ok Q a ->
  (forall x, (x < 256)%nat -> a !!! x =[Q]= c * peval f 256 (node (256 + x))) ->
  coeffs_ok 4211200 (invntt_tomont a) /\
  forall i, (i < 256)%nat -> invntt_tomont a !!! i =[Q]= 4294967296 * c * f i.
Proof.
  intros Ha Hc. unfold invntt_tomont.
  set (P := fun (m : nat) (s : nat * list Z) =>
    (m <= 8)%nat /\ (fst s = 2 ^ (8 - m))%nat /\ coeffs_ok (2 ^ Z.of_nat m * Q) (snd s) /\
    forall i, (i < 256)%nat -> snd s !!! i =[Q]= 2 ^ Z.of_nat m * c * chain f (8 - m) i).
  match goal with |- context [for_loop 8 0 ?F ?s] =>
    assert (P (0 + 8)%nat (for_loop 8 0 F s)) as HP; [|set (st := for_loop 8 0 F s) in *] end.
  - apply (for_loop_inv P).
    { split; [lia|]. split; [reflexivity|]. cbn [snd]. split.
      - change (2 ^ Z.of_nat 0 * Q) with Q. exact Ha.
      - intros i Hi. rewrite (Hc i Hi), <- (chain_eval f i Hi). apply cong_refl_eq.
        change (2 ^ Z.of_nat 0) with 1. change (8 - 0)%nat with 8%nat. ring. }
    intros m [k cc] Hm (_ & H1 & H2 & H3). cbn [fst snd] in *. subst k.
    rewrite (shiftl_shiftr m) by lia. set (l := (7 - m)%nat).
    replace (8 - m)%nat with (S l) in * by (subst l; lia).
    assert (Z.of_nat m < 8) as Hm8 by lia.
    assert (1 <= 2 ^ Z.of_nat m <= 128) as Hp.
    { split; [pose proof (Z.pow_pos_nonneg 2 (Z.of_nat m)); lia|].
      change 128 with (2 ^ 7). apply Z.pow_le_mono_r; lia. }
    pose proof (invntt_layer_ok l (2 ^ Z.of_nat m * Q) (2 ^ Z.of_nat m * c) f cc
      ltac:(subst l; lia) H2 ltac:(unfold Q; lia) ltac:(unfold Q; lia) H3) as HL.
    cbn [Nat.pow]. destruct (invntt_layer _ _) as [k' c'].
    destruct HL as (K1 & K2 & K3).
    assert (2 ^ Z.of_nat (S m) = 2 * 2 ^ Z.of_nat m) as Epow
      by (rewrite Nat2Z.inj_succ, Z.pow_succ_r by lia; reflexivity).
    split; [lia|]. split; [cbn [fst]; rewrite K1; f_equal; subst l; lia|].
    cbn [snd]. rewrite Epow. split.
    + replace (2 * 2 ^ Z.of_nat m * Q) with (2 * (2 ^ Z.of_nat m * Q)) by ring. exact K2.
    + intros i Hi. rewrite (K3 i Hi). replace (8 - S m)%nat with l by (subst l; lia).
      apply cong_refl_eq. ring.
  - destruct HP as (_ & _ & [Hl Hb] & Hv). change (2 ^ Z.of_nat (0 + 8)) with 256 in *.
    destruct (for_update_spec (fun _ v => montgomery_reduce (i64 (invntt_f * v))) N (snd st))
      as (U1 & U2 & _); [unfold N; lia|].
    assert (forall i, (i < 256)%nat ->
      - (2147483648 * Q) <= invntt_f * snd st !!! i < 2147483648 * Q /\
      is_i64 (invntt_f * snd st !!! i)) as Hr.
    { intros i Hi. specialize (Hb i Hi). unfold invntt_f, is_i64, Q in *. lia. }
    split; [split; [rewrite U1; exact Hl|]|]; intros i Hi; destruct (Hr i Hi) as [R1 R2];
      rewrite (U2 i Hi), i64_id by exact R2.
    + apply (montgomery_reduce_tight (invntt_f * (256 * Q))); unfold invntt_f, Q in *; [|lia..].
      specialize (Hb i Hi). lia.
    + apply (cong_cancel Q 4294967296 RINV); [apply RINV_spec|].
      rewrite montgomery_reduce_cong by lia. rewrite (Hv i Hi).
      change (chain f (8 - (0 + 8))) with f.
      transitivity (invntt_f * 256 * (c * f i)); [apply cong_refl_eq; ring|].
      transitivity (4294967296 * 4294967296 * (c * f i)); [|apply cong_refl_eq; ring].
      apply cong_mul; [|reflexivity]. apply congb_sound; [unfold Q; lia|reflexivity].
Qed.

(** ** Every vector of values is a transform *)

Definition HALF : Z := 4190209.
Lemma HALF_spec : 2 * HALF =[Q]= 1.
Proof. apply congb_sound; [unfold Q; lia|reflexivity]. Qed.

(** One layer undone. *)
Definition bwd_fun (nb len : nat) (A : nat -> Z) (i : nat) : Z :=
  let b := (i / (2 * len))%nat in
  if (i mod (2 * len) <? len)%nat
  then HALF * (A i + A (i + len)%nat)
  else HALF * (- g (2 * nb - 1 - b) * (A (i - len)%nat - A i)).

Lemma bwd_fun_eq nb len A b j :
  (j < len)%nat ->
  let i := (2 * len * b + j)%nat in
  bwd_fun nb len A i = HALF * (A i + A (i + len)%nat) /\
  bwd_fun nb len A (i + len)%nat = HALF * (- g (2 * nb - 1 - b) * (A i - A (i + len)%nat)).
Proof.
  intros Hj. cbv zeta. unfold bwd_fun.
  replace ((2 * len * b + j + len) / (2 * len))%nat with b
    by (apply Nat.div_unique with (j + len)%nat; lia).
  replace ((2 * len * b + j) mod (2 * len))%nat with j
    by (apply Nat.mod_unique with b; lia).
  replace ((2 * len * b + j + len) mod (2 * len))%nat with (j + len)%nat
    by (apply Nat.mod_unique with b; lia).
  replace (j <? len)%nat with true by (symmetry; apply Nat.ltb_lt; lia).
  replace (j + len <? len)%nat with false by (symmetry; apply Nat.ltb_ge; lia).
  replace (2 * len * b + j + len - len)%nat with (2 * len * b + j)%nat by lia.
  split; reflexivity.
Qed.

Lemma fwd_bwd l A u :
  (l < 8)%nat ->
  (forall i, (i < 256)%nat -> u i =[Q]= bwd_fun (2 ^ l) (Nat.shiftr 128 l) A i) ->
  forall i, (i < 256)%nat -> fwd_fun (2 ^ l) (Nat.shiftr 128 l) u i =[Q]= A i.
Proof.
  intros Hl Hu. pose proof (layer_size l Hl) as Hsz. pose proof (layer_len l Hl) as Hpos.
  set (len := Nat.shiftr 128 l) in *. set (nb := (2 ^ l)%nat) in *.
  pose proof (fwd_fun_fwd nb len u Hpos) as HF.
  apply (position_cases nb len Hsz Hpos); intros b j Hb Hj;
    destruct (HF b j Hb Hj) as [F1 F2]; destruct (bwd_fun_eq nb len A b j Hj) as [B1 B2];
    pose proof (block_fits nb len Hsz Hpos b Hb);
    pose proof (Hu (2 * len * b + j)%nat ltac:(lia)) as U1;
    pose proof (Hu (2 * len * b + j + len)%nat ltac:(lia)) as U2;
    rewrite B1 in U1; rewrite B2 in U2;
    pose proof (g_mirror l b Hl Hb) as G; fold nb in G; [rewrite F1|rewrite F2];
    rewrite U1, U2; set (p := A _) in *; set (q := A (_ + len)%nat);
    match goal with |- context [g (nb + b) * (HALF * (?m * ?d))] =>
      replace (g (nb + b) * (HALF * (m * d))) with (HALF * (m * g (nb + b)) * d) by ring end;
    rewrite G.
  - transitivity (2 * HALF * p); [apply cong_refl_eq; ring|]. rewrite HALF_spec.
    apply cong_refl_eq. ring.
  - transitivity (2 * HALF * q); [apply cong_refl_eq; ring|]. rewrite HALF_spec.
    apply cong_refl_eq. ring.
Qed.

Lemma chain_surj l t :
  (l <= 8)%nat -> exists f, forall i, (i < 256)%nat -> chain f l i =[Q]= t i.
Proof.
  revert t. induction l as [|l IH]; intros t Hl; [exists t; reflexivity|].
  destruct (IH (bwd_fun (2 ^ l) (Nat.shiftr 128 l) t) ltac:(lia)) as [f Hf].
  exists f. cbn [chain]. apply fwd_bwd; [lia|exact Hf].
Qed.

Lemma interpolation t :
  exists f, forall x, (x < 256)%nat -> peval f 256 (node (256 + x)) =[Q]= t x.
Proof.
  destruct (chain_surj 8 t (le_n 8)) as [f Hf]. exists f. intros x Hx.
  rewrite <- chain_eval by exact Hx. apply Hf, Hx.
Qed.

(** ** The evaluation points *)

(** The 8-bit reversal of an index. *)
Definition brv8 (x : nat) : nat :=
  fold_left (fun acc i => (2 * acc + (x / 2 ^ i) mod 2)%nat) (seq 0 8) 0%nat.

(** Successive odd powers of the root of unity, reduced modulo Q. *)
Fixpoint odd_powers (n : nat) (acc : Z) : list Z :=
  match n with
  | O => []
  | S n' => acc :: odd_powers n' ((acc * (ROOT_OF_UNITY * ROOT_OF_UNITY)) mod Q)
  end.

Lemma odd_powers_spec n acc i :
  (i < n)%nat -> odd_powers n acc !!! i =[Q]= acc * ROOT_OF_UNITY ^ Z.of_nat (2 * i).
Proof.
  revert acc i. induction n as [|n IH]; intros acc i Hi; [lia|]. destruct i as [|i].
  - cbn. apply cong_refl_eq. lia.
  - change (odd_powers (S n) acc !!! S i)
      with (odd_powers n ((acc * (ROOT_OF_UNITY * ROOT_OF_UNITY)) mod Q) !!! i).
    rewrite IH by lia. rewrite cong_mod_l by (unfold Q; lia).
    replace (Z.of_nat (2 * S i)) with (2 + Z.of_nat (2 * i)) by lia.
    rewrite Z.pow_add_r by lia. apply cong_refl_eq. ring.
Qed.

Definition root (x : nat) : Z := ROOT_OF_UNITY ^ Z.of_nat (2 * brv8 x + 1).

Lemma node_root x : (x < 256)%nat -> node (256 + x) =[Q]= root x.
Proof.
  intros Hx.
  assert (forallb (fun x => congb Q (node (256 + x)) (odd_powers 256 ROOT_OF_UNITY !!! brv8 x)
                            && (brv8 x <? 256)%nat) (seq 0 256) = true) as H
    by (vm_compute; reflexivity).
  rewrite forallb_forall in H. specialize (H x ltac:(apply in_seq; lia)).
  apply andb_true_iff in H as [H1 H2]. apply Nat.ltb_lt in H2.
  rewrite (congb_sound Q _ _ ltac:(unfold Q; lia) H1), odd_powers_spec by exact H2.
  unfold root. rewrite Nat2Z.inj_add, Z.pow_add_r, Z.pow_1_r by lia.
  apply cong_refl_eq, Z.mul_comm.
Qed.

(** The root of unity has order 512: its 256th power is -1. *)
Lemma ROOT_256 : ROOT_OF_UNITY ^ 256 =[Q]= -1.
Proof. apply congb_sound; [unfold Q; lia|vm_compute; reflexivity]. Qed.

Lemma pow_m1_odd n : (-1) ^ Z.of_nat (2 * n + 1) = -1.
Proof.
  rewrite Nat2Z.inj_add, Z.pow_add_r, Nat2Z.inj_mul, Z.pow_mul_r by lia.
  change ((-1) ^ Z.of_nat 2) with 1. rewrite Z.pow_1_l by lia. reflexivity.
Qed.

Lemma root_256 x : root x ^ 256 =[Q]= -1.
Proof.
  unfold root. rewrite <- Z.pow_mul_r by lia.
  rewrite Z.mul_comm, Z.pow_mul_r by lia.
  rewrite (cong_pow Q _ _ (2 * brv8 x + 1) ROOT_256). rewrite pow_m1_odd. reflexivity.
Qed.

Lemma node_256 x : (x < 256)%nat -> node (256 + x) ^ 256 =[Q]= -1.
Proof.
  intros Hx. transitivity (root x ^ 256); [|apply root_256].
  exact (cong_pow Q _ _ 256 (node_root x Hx)).
Qed.

(** the forward transform is evaluation.  For coefficients of absolute value
    at most [B] with [B + 8 Q] inside [int32_t], no intermediate overflows,
    every output coefficient is at most [B + 8 Q] in absolute value, and
    output [x] is congruent modulo Q to the value of the polynomial at
    ROOT_OF_UNITY^(2 brv8(x) + 1), a root of X^256 + 1: bit-reversed order. *)
Theorem ntt_evaluates (B : Z) (a : list Z) (x : nat)
  (Ha : coeffs_ok B a) (HB : 0 <= B <= 2147483647 - 8 * Q) (Hx : (x < 256)%nat) :
  - (B + 8 * Q) <= ntt a !!! x <= B + 8 * Q /\
  ntt a !!! x =[Q]= peval (fun i => a !!! i) 256 (root x) /\
  root x ^ 256 =[Q]= -1.
Proof.
  destruct (ntt_spec B a Ha) as [[_ H1] H2]; [lia|lia|].
  split; [apply H1, Hx|]. split; [|apply root_256].
  rewrite (H2 x Hx). apply peval_cong_x, node_root, Hx.
Qed.

(** The boolean form of [coeffs_ok], for concrete arrays. *)
Lemma coeffs_ok_compute B (a : list Z) :
  (length a =? 256)%nat && forallb (fun v => (- B <=? v) && (v <=? B)) a = true -> coeffs_ok B a.
Proof.
  intros H. apply andb_true_iff in H as [H1 H2]. apply Nat.eqb_eq in H1.
  split; [exact H1|]. intros i Hi. rewrite forallb_forall in H2.
  destruct (lookup_lt_is_Some_2 a i ltac:(lia)) as [v Hv].
  rewrite (list_lookup_total_correct _ _ _ Hv). specialize (H2 v).
  rewrite <- list_elem_of_In in H2. specialize (H2 (list_elem_of_lookup_2 _ _ _ Hv)). lia.
Qed.

(** A polynomial for the witnesses: the coefficients 0, 1, .., 255. *)
Definition sample_poly : list Z := map Z.of_nat (seq 0 256).

Lemma ntt_evaluates_witness :
  - (255 + 8 * Q) <= ntt sample_poly !!! 7%nat <= 255 + 8 * Q /\
  ntt sample_poly !!! 7%nat =[Q]= peval (fun i => sample_poly !!! i) 256 (root 7) /\
  root 7 ^ 256 =[Q]= -1.
Proof.
  apply (ntt_evaluates 255 sample_poly 7).
  - apply coeffs_ok_compute. vm_compute. reflexivity.
  - unfold Q. lia.
  - lia.
Defined.
