(* ===== verification/MlDsaPoly.v ===== *)
(** * ML-DSA-65: polynomial arithmetic and bit packing

    The arithmetic and the packing routines of [poly.c] in
    [src/pqcrypto/ml-dsa-65].  A [poly] is the list of its 256 [int32_t]
    coefficients.  The loops write coefficient [i] (or group [i] of
    coefficients or bytes) of the output from coefficient [i] of the inputs
    only, so an output that aliases an input gives the same result and each
    routine is a function from its inputs to its output.

    Proved: the transform-multiply-inverse pipeline is multiplication in
    Z_Q[X]/(X^256 + 1) with no overflow; two polynomials with the same
    transform are congruent; the norm check decides the infinity norm; every
    packing is undone by its unpacking, and every unpacking by its packing. *)

From S2P Require Import Prelude MlDsaReduce MlDsaNtt.

Local Open Scope Z_scope.

Abbreviation poly := (list Z) (only parsing).

(** ** Arithmetic *)

Definition poly_reduce (a : poly) : poly := fill N (fun i => reduce32 (a !!! i)).
Definition poly_caddq (a : poly) : poly := fill N (fun i => caddq (a !!! i)).
Definition poly_add (a b : poly) : poly := fill N (fun i => i32 (a !!! i + b !!! i)).
Definition poly_sub (a b : poly) : poly := fill N (fun i => i32 (a !!! i - b !!! i)).
Definition poly_shiftl (a : poly) : poly := fill N (fun i => i32 (Z.shiftl (a !!! i) D)).
Definition poly_ntt (a : poly) : poly := ntt a.
Definition poly_invntt_tomont (a : poly) : poly := invntt_tomont a.
Definition poly_pointwise_montgomery (a b : poly) : poly :=
  fill N (fun i => montgomery_reduce (i64 (a !!! i * b !!! i))).

(** [poly_power2round(&a1, &a0, &a)] and [poly_decompose(&a1, &a0, &a)] return
    the pair (a1, a0). *)
Definition poly_power2round (a : poly) : poly * poly :=
  (fill N (fun i => fst (power2round (a !!! i))), fill N (fun i => snd (power2round (a !!! i)))).
Definition poly_decompose (a : poly) : poly * poly :=
  (fill N (fun i => fst (decompose (a !!! i))), fill N (fun i => snd (decompose (a !!! i)))).

(** The hint polynomial and the number of its one coefficients. *)
Definition poly_make_hint (a0 a1 : poly) : poly * Z :=
  let h := fill N (fun i => make_hint (a0 !!! i) (a1 !!! i)) in
  (h, for_loop N 0 (fun i s => u32 (s + h !!! i)) 0).
Definition poly_use_hint (a h : poly) : poly := fill N (fun i => use_hint (a !!! i) (h !!! i)).

(** The absolute value as the norm check computes it. *)
Definition chknorm_abs (c : Z) : Z :=
  let t := Z.shiftr c 31 in
  i32 (c - Z.land t (i32 (2 * c))).

(** [for (i = 0; i < N; ++i) if (|a[i]| >= B) return 1;] *)
Fixpoint chknorm_loop (cs : list Z) (B : Z) : Z :=
  match cs with
  | [] => 0
  | c :: cs => if chknorm_abs c >=? B then 1 else chknorm_loop cs B
  end.
Definition poly_chknorm (a : poly) (B : Z) : Z :=
  if B >? (Q - 1) /c 8 then 1 else chknorm_loop a B.

(** ** Packing

    Byte arrays hold values in [0, 255], so the integer promotions of
    [a[k] << n] with n <= 16 are exact and are not written; the conversions
    to [uint32_t] and [uint8_t] of values that may be out of range are. *)

(** The bytes and the fields of one group of each format; [t k] is the [k]-th
    offset coefficient of the group, [b k] its [k]-th byte. *)
Definition eta_bytes (t : nat -> Z) : list Z :=
  [u8 (Z.lor (t 0%nat) (Z.shiftl (t 1%nat) 4))].
Definition eta_fields (b : nat -> Z) : list Z :=
  [Z.land (b 0%nat) 15; Z.shiftr (b 0%nat) 4].

Definition t1_bytes (c : nat -> Z) : list Z :=
  [u8 (Z.shiftr (c 0%nat) 0);
   u8 (Z.lor (Z.shiftr (c 0%nat) 8) (i32 (Z.shiftl (c 1%nat) 2)));
   u8 (Z.lor (Z.shiftr (c 1%nat) 6) (i32 (Z.shiftl (c 2%nat) 4)));
   u8 (Z.lor (Z.shiftr (c 2%nat) 4) (i32 (Z.shiftl (c 3%nat) 6)));
   u8 (Z.shiftr (c 3%nat) 2)].
Definition t1_fields (b : nat -> Z) : list Z :=
  [Z.land (Z.lor (Z.shiftr (b 0%nat) 0) (Z.shiftl (b 1%nat) 8)) 1023;
   Z.land (Z.lor (Z.shiftr (b 1%nat) 2) (Z.shiftl (b 2%nat) 6)) 1023;
   Z.land (Z.lor (Z.shiftr (b 2%nat) 4) (Z.shiftl (b 3%nat) 4)) 1023;
   Z.land (Z.lor (Z.shiftr (b 3%nat) 6) (Z.shiftl (b 4%nat) 2)) 1023].

Definition t0_bytes (t : nat -> Z) : list Z :=
  [u8 (t 0%nat);
   Z.lor (u8 (Z.shiftr (t 0%nat) 8)) (u8 (Z.shiftl (t 1%nat) 5));
   u8 (Z.shiftr (t 1%nat) 3);
   Z.lor (u8 (Z.shiftr (t 1%nat) 11)) (u8 (Z.shiftl (t 2%nat) 2));
   Z.lor (u8 (Z.shiftr (t 2%nat) 6)) (u8 (Z.shiftl (t 3%nat) 7));
   u8 (Z.shiftr (t 3%nat) 1);
   Z.lor (u8 (Z.shiftr (t 3%nat) 9)) (u8 (Z.shiftl (t 4%nat) 4));
   u8 (Z.shiftr (t 4%nat) 4);
   Z.lor (u8 (Z.shiftr (t 4%nat) 12)) (u8 (Z.shiftl (t 5%nat) 1));
   Z.lor (u8 (Z.shiftr (t 5%nat) 7)) (u8 (Z.shiftl (t 6%nat) 6));
   u8 (Z.shiftr (t 6%nat) 2);
   Z.lor (u8 (Z.shiftr (t 6%nat) 10)) (u8 (Z.shiftl (t 7%nat) 3));
   u8 (Z.shiftr (t 7%nat) 5)].
Definition t0_fields (b : nat -> Z) : list Z :=
  [Z.land (Z.lor (b 0%nat) (Z.shiftl (b 1%nat) 8)) 8191;
   Z.land (Z.lor (Z.lor (Z.shiftr (b 1%nat) 5) (Z.shiftl (b 2%nat) 3))
                 (Z.shiftl (b 3%nat) 11)) 8191;
   Z.land (Z.lor (Z.shiftr (b 3%nat) 2) (Z.shiftl (b 4%nat) 6)) 8191;
   Z.land (Z.lor (Z.lor (Z.shiftr (b 4%nat) 7) (Z.shiftl (b 5%nat) 1))
                 (Z.shiftl (b 6%nat) 9)) 8191;
   Z.land (Z.lor (Z.lor (Z.shiftr (b 6%nat) 4) (Z.shiftl (b 7%nat) 4))
                 (Z.shiftl (b 8%nat) 12)) 8191;
   Z.land (Z.lor (Z.shiftr (b 8%nat) 1) (Z.shiftl (b 9%nat) 7)) 8191;
   Z.land (Z.lor (Z.lor (Z.shiftr (b 9%nat) 6) (Z.shiftl (b 10%nat) 2))
                 (Z.shiftl (b 11%nat) 10)) 8191;
   Z.land (Z.lor (Z.shiftr (b 11%nat) 3) (Z.shiftl (b 12%nat) 5)) 8191].

Definition z_bytes (t : nat -> Z) : list Z :=
  [u8 (t 0%nat);
   u8 (Z.shiftr (t 0%nat) 8);
   Z.lor (u8 (Z.shiftr (t 0%nat) 16)) (u8 (Z.shiftl (t 1%nat) 4));
   u8 (Z.shiftr (t 1%nat) 4);
   u8 (Z.shiftr (t 1%nat) 12)].
Definition z_fields (b : nat -> Z) : list Z :=
  [Z.land (Z.lor (Z.lor (b 0%nat) (Z.shiftl (b 1%nat) 8)) (Z.shiftl (b 2%nat) 16)) 1048575;
   Z.lor (Z.lor (Z.shiftr (b 2%nat) 4) (Z.shiftl (b 3%nat) 4)) (Z.shiftl (b 4%nat) 12)].

Definition w1_bytes (c : nat -> Z) : list Z :=
  [u8 (Z.lor (c 0%nat) (i32 (Z.shiftl (c 1%nat) 4)))].

Definition polyeta_pack (a : poly) : list Z :=
  fill_chunks (N / 2) (fun i => eta_bytes (fun k => u8 (ETA - a !!! (2 * i + k)%nat))).
Definition polyeta_unpack (a : list Z) : poly :=
  fill_chunks (N / 2) (fun i => map (fun r => ETA - r) (eta_fields (fun k => a !!! (1 * i + k)%nat))).

Definition polyt1_pack (a : poly) : list Z :=
  fill_chunks (N / 4) (fun i => t1_bytes (fun k => a !!! (4 * i + k)%nat)).
Definition polyt1_unpack (a : list Z) : poly :=
  fill_chunks (N / 4) (fun i => t1_fields (fun k => a !!! (5 * i + k)%nat)).

Definition polyt0_pack (a : poly) : list Z :=
  fill_chunks (N / 8) (fun i =>
    t0_bytes (fun k => u32 (Z.shiftl 1 (D - 1) - a !!! (8 * i + k)%nat))).
Definition polyt0_unpack (a : list Z) : poly :=
  fill_chunks (N / 8) (fun i =>
    map (fun r => Z.shiftl 1 (D - 1) - r) (t0_fields (fun k => a !!! (13 * i + k)%nat))).

Definition polyz_pack (a : poly) : list Z :=
  fill_chunks (N / 2) (fun i => z_bytes (fun k => u32 (GAMMA1 - a !!! (2 * i + k)%nat))).
Definition polyz_unpack (a : list Z) : poly :=
  fill_chunks (N / 2) (fun i =>
    map (fun r => GAMMA1 - r) (z_fields (fun k => a !!! (5 * i + k)%nat))).

Definition polyw1_pack (a : poly) : list Z :=
  fill_chunks (N / 2) (fun i => w1_bytes (fun k => a !!! (2 * i + k)%nat)).

(** ** One group of each format as arithmetic *)

Ltac pows := change (2 ^ 0) with 1; change (2 ^ 1) with 2; change (2 ^ 2) with 4;
  change (2 ^ 3) with 8; change (2 ^ 4) with 16; change (2 ^ 5) with 32; change (2 ^ 6) with 64;
  change (2 ^ 7) with 128; change (2 ^ 8) with 256; change (2 ^ 9) with 512;
  change (2 ^ 10) with 1024; change (2 ^ 11) with 2048; change (2 ^ 12) with 4096;
  change (2 ^ 16) with 65536.
Ltac lt_pow := rewrite ?shiftr_div by lia; pows; zlia.
(** Element-wise equality of two literal lists. *)
Ltac list_arith := repeat (apply (f_equal2 cons); [zlia|]); reflexivity.
(** [upto H n]: instances 0 .. n-1 of [H : forall k, (k < n)%nat -> P k]. *)
Ltac upto H n :=
  match n with
  | O => clear H
  | S ?m => pose proof (H m ltac:(lia)); upto H m
  end.

Lemma lor_fields n x y :
  0 <= n <= 8 -> 0 <= x < 2 ^ n ->
  Z.lor (u8 x) (u8 (Z.shiftl y n)) = x + y mod 2 ^ (8 - n) * 2 ^ n.
Proof.
  intros Hn Hx. assert (2 ^ n <= 2 ^ 8) by (apply Z.pow_le_mono_r; lia).
  rewrite u8_shl, u8_id by (unfold is_u8; lia). apply lor_shl; lia.
Qed.

Lemma mask_4 x : Z.land x 15 = x mod 16.
Proof. exact (land_ones_mod x 4 ltac:(lia)). Qed.
Lemma mask_10 x : Z.land x 1023 = x mod 1024.
Proof. exact (land_ones_mod x 10 ltac:(lia)). Qed.
Lemma mask_13 x : Z.land x 8191 = x mod 8192.
Proof. exact (land_ones_mod x 13 ltac:(lia)). Qed.
Lemma mask_20 x : Z.land x 1048575 = x mod 1048576.
Proof. exact (land_ones_mod x 20 ltac:(lia)). Qed.

Lemma eta_bytes_eq t :
  (forall k, (k < 2)%nat -> 0 <= t k < 16) -> eta_bytes t = [t 0%nat + t 1%nat * 16].
Proof.
  intros Ht. upto Ht 2%nat. unfold eta_bytes. rewrite lor_shl by lt_pow. pows.
  list_arith.
Qed.
Lemma eta_fields_eq b : eta_fields b = [b 0%nat mod 16; b 0%nat / 16].
Proof. unfold eta_fields. rewrite mask_4, shiftr_div by lia. reflexivity. Qed.

Lemma t1_bytes_eq c :
  (forall k, (k < 4)%nat -> 0 <= c k < 1024) ->
  t1_bytes c =
  [c 0%nat mod 256; c 0%nat / 256 + c 1%nat mod 64 * 4; c 1%nat / 64 + c 2%nat mod 16 * 16;
   c 2%nat / 16 + c 3%nat mod 4 * 64; c 3%nat / 4].
Proof.
  intros Ht. upto Ht 4%nat. unfold t1_bytes.
  rewrite !i32_id by (rewrite shiftl_mul by lia; pows; unfold is_i32; lia).
  rewrite !lor_shl by (try lia; lt_pow). rewrite !shiftr_div by lia. pows. list_arith.
Qed.
Lemma t1_fields_eq b :
  (forall k, (k < 5)%nat -> 0 <= b k < 256) ->
  t1_fields b =
  [b 0%nat + b 1%nat mod 4 * 256; b 1%nat / 4 + b 2%nat mod 16 * 64;
   b 2%nat / 16 + b 3%nat mod 64 * 16; b 3%nat / 64 + b 4%nat * 4].
Proof.
  intros Ht. upto Ht 5%nat. unfold t1_fields.
  rewrite !lor_shl by (try lia; lt_pow). rewrite !mask_10, !shiftr_div by lia. pows. list_arith.
Qed.

Lemma t0_bytes_eq t :
  (forall k, (k < 8)%nat -> 0 <= t k < 8192) ->
  t0_bytes t =
  [t 0%nat mod 256; t 0%nat / 256 + t 1%nat mod 8 * 32; t 1%nat / 8 mod 256;
   t 1%nat / 2048 + t 2%nat mod 64 * 4; t 2%nat / 64 + t 3%nat mod 2 * 128; t 3%nat / 2 mod 256;
   t 3%nat / 512 + t 4%nat mod 16 * 16; t 4%nat / 16 mod 256;
   t 4%nat / 4096 + t 5%nat mod 128 * 2; t 5%nat / 128 + t 6%nat mod 4 * 64;
   t 6%nat / 4 mod 256; t 6%nat / 1024 + t 7%nat mod 32 * 8; t 7%nat / 32].
Proof.
  intros Ht. upto Ht 8%nat. unfold t0_bytes.
  rewrite !lor_fields by (try lia; lt_pow). rewrite !shiftr_div by lia.
  cbn [Z.sub Z.add Z.opp Z.pos_sub Pos.pred_double]. pows. list_arith.
Qed.
Lemma t0_fields_eq b :
  (forall k, (k < 13)%nat -> 0 <= b k < 256) ->
  t0_fields b =
  [b 0%nat + b 1%nat mod 32 * 256; b 1%nat / 32 + b 2%nat * 8 + b 3%nat mod 4 * 2048;
   b 3%nat / 4 + b 4%nat mod 128 * 64; b 4%nat / 128 + b 5%nat * 2 + b 6%nat mod 16 * 512;
   b 6%nat / 16 + b 7%nat * 16 + b 8%nat mod 2 * 4096; b 8%nat / 2 + b 9%nat mod 64 * 128;
   b 9%nat / 64 + b 10%nat * 4 + b 11%nat mod 8 * 1024; b 11%nat / 8 + b 12%nat * 32].
Proof.
  intros Ht. upto Ht 13%nat. unfold t0_fields.
  rewrite !lor_shl by (try lia; rewrite ?lor_shl by (try lia; lt_pow); lt_pow).
  rewrite !mask_13, !shiftr_div by lia. pows. list_arith.
Qed.

Lemma z_bytes_eq t :
  (forall k, (k < 2)%nat -> 0 <= t k < 1048576) ->
  z_bytes t =
  [t 0%nat mod 256; t 0%nat / 256 mod 256; t 0%nat / 65536 + t 1%nat mod 16 * 16;
   t 1%nat / 16 mod 256; t 1%nat / 4096].
Proof.
  intros Ht. upto Ht 2%nat. unfold z_bytes.
  rewrite !lor_fields by (try lia; lt_pow). rewrite !shiftr_div by lia.
  cbn [Z.sub Z.add Z.opp Z.pos_sub Pos.pred_double]. pows. list_arith.
Qed.
Lemma z_fields_eq b :
  (forall k, (k < 5)%nat -> 0 <= b k < 256) ->
  z_fields b =
  [b 0%nat + b 1%nat * 256 + b 2%nat mod 16 * 65536;
   b 2%nat / 16 + b 3%nat * 16 + b 4%nat * 4096].
Proof.
  intros Ht. upto Ht 5%nat. unfold z_fields.
  rewrite !lor_shl by (try lia; rewrite ?lor_shl by (try lia; lt_pow); lt_pow).
  rewrite !mask_20, !shiftr_div by lia. pows. list_arith.
Qed.

(** ** One group: packing and unpacking are inverse *)

(** [bytes_u8]: every element of a literal byte list is a byte. *)
Ltac bytes_u8 :=
  repeat (apply Forall_cons; split;
    [unfold is_u8; rewrite ?u8_shl by lia; rewrite ?lor_shl by (try lia; zlia);
     rewrite ?shiftr_div, ?shiftl_mul by lia; pows; zlia|]); apply Forall_nil; exact I.

Lemma t0_fields_bytes t :
  (forall k, (k < 8)%nat -> 0 <= t k < 8192) ->
  t0_fields (fun k => t0_bytes t !!! k) = fill 8 t.
Proof.
  intros Ht. rewrite (t0_bytes_eq t Ht). upto Ht 8%nat.
  rewrite t0_fields_eq; cbn [lookup_total list_lookup_total fill map seq].
  - list_arith.
  - intros k Hk. do 13 (destruct k as [|k]; [cbn; zlia|]). lia.
Qed.
Lemma t0_bytes_fields b :
  (forall k, (k < 13)%nat -> 0 <= b k < 256) ->
  t0_bytes (fun k => t0_fields b !!! k) = fill 13 b.
Proof.
  intros Ht. rewrite (t0_fields_eq b Ht). upto Ht 13%nat.
  rewrite t0_bytes_eq; cbn [lookup_total list_lookup_total fill map seq].
  - list_arith.
  - intros k Hk. do 8 (destruct k as [|k]; [cbn; zlia|]). lia.
Qed.

Lemma t1_fields_bytes t :
  (forall k, (k < 4)%nat -> 0 <= t k < 1024) ->
  t1_fields (fun k => t1_bytes t !!! k) = fill 4 t.
Proof.
  intros Ht. rewrite (t1_bytes_eq t Ht). upto Ht 4%nat.
  rewrite t1_fields_eq; cbn [lookup_total list_lookup_total fill map seq].
  - list_arith.
  - intros k Hk. do 5 (destruct k as [|k]; [cbn; zlia|]). lia.
Qed.
Lemma t1_bytes_fields b :
  (forall k, (k < 5)%nat -> 0 <= b k < 256) ->
  t1_bytes (fun k => t1_fields b !!! k) = fill 5 b.
Proof.
  intros Ht. rewrite (t1_fields_eq b Ht). upto Ht 5%nat.
  rewrite t1_bytes_eq; cbn [lookup_total list_lookup_total fill map seq].
  - list_arith.
  - intros k Hk. do 4 (destruct k as [|k]; [cbn; zlia|]). lia.
Qed.

Lemma z_fields_bytes t :
  (forall k, (k < 2)%nat -> 0 <= t k < 1048576) ->
  z_fields (fun k => z_bytes t !!! k) = fill 2 t.
Proof.
  intros Ht. rewrite (z_bytes_eq t Ht). upto Ht 2%nat.
  rewrite z_fields_eq; cbn [lookup_total list_lookup_total fill map seq].
  - list_arith.
  - intros k Hk. do 5 (destruct k as [|k]; [cbn; zlia|]). lia.
Qed.
Lemma z_bytes_fields b :
  (forall k, (k < 5)%nat -> 0 <= b k < 256) ->
  z_bytes (fun k => z_fields b !!! k) = fill 5 b.
Proof.
  intros Ht. rewrite (z_fields_eq b Ht). upto Ht 5%nat.
  rewrite z_bytes_eq; cbn [lookup_total list_lookup_total fill map seq].
  - list_arith.
  - intros k Hk. do 2 (destruct k as [|k]; [cbn; zlia|]). lia.
Qed.

Lemma eta_fields_bytes t :
  (forall k, (k < 2)%nat -> 0 <= t k < 16) ->
  eta_fields (fun k => eta_bytes t !!! k) = fill 2 t.
Proof.
  intros Ht. rewrite (eta_bytes_eq t Ht), eta_fields_eq. upto Ht 2%nat.
  cbn [lookup_total list_lookup_total fill map seq]. list_arith.
Qed.
Lemma eta_bytes_fields b :
  (forall k, (k < 1)%nat -> 0 <= b k < 256) ->
  eta_bytes (fun k => eta_fields b !!! k) = fill 1 b.
Proof.
  intros Ht. rewrite (eta_fields_eq b). upto Ht 1%nat.
  rewrite eta_bytes_eq; cbn [lookup_total list_lookup_total fill map seq].
  - list_arith.
  - intros k Hk. do 2 (destruct k as [|k]; [cbn; zlia|]). lia.
Qed.

(** ** Whole polynomials

    The four formats differ in the group ([m] coefficients in [mb] bytes, [n]
    groups), the field width and the offset; the round trips are proved once. *)
Section packing.
Context (m mb n : nat) (W : Z) (bytes fields : (nat -> Z) -> list Z) (enc dec : Z -> Z).
Context (bytes_len : forall t, length (bytes t) = mb)
        (fields_len : forall b, length (fields b) = m)
        (bytes_ext : forall t t', (forall k, (k < m)%nat -> t k = t' k) -> bytes t = bytes t')
        (fields_ext : forall b b', (forall k, (k < mb)%nat -> b k = b' k) -> fields b = fields b')
        (fields_bytes : forall t, (forall k, (k < m)%nat -> 0 <= t k < W) ->
           fields (fun k => bytes t !!! k) = fill m t)
        (bytes_fields : forall b, (forall k, (k < mb)%nat -> 0 <= b k < 256) ->
           bytes (fun k => fields b !!! k) = fill mb b)
        (fields_range : forall b, (forall k, (k < mb)%nat -> 0 <= b k < 256) ->
           forall k, (k < m)%nat -> 0 <= fields b !!! k < W)
        (enc_dec : forall r, 0 <= r < W -> enc (dec r) = r).

Definition pack_with (a : poly) : list Z :=
  fill_chunks n (fun i => bytes (fun k => enc (a !!! (m * i + k)%nat))).
Definition unpack_with (a : list Z) : poly :=
  fill_chunks n (fun i => map dec (fields (fun k => a !!! (mb * i + k)%nat))).

Lemma pack_with_len a : length (pack_with a) = (n * mb)%nat.
Proof. apply length_fill_chunks. intros. apply bytes_len. Qed.
Lemma unpack_with_len a : length (unpack_with a) = (n * m)%nat.
Proof. apply length_fill_chunks. intros. rewrite length_map. apply fields_len. Qed.

Lemma lookup_map_dec (l : list Z) k : (k < length l)%nat -> map dec l !!! k = dec (l !!! k).
Proof. intros. apply (list_lookup_total_fmap dec). assumption. Qed.

Lemma unpack_with_lookup a i j :
  (i < n)%nat -> (j < m)%nat ->
  unpack_with a !!! (m * i + j)%nat = dec (fields (fun k => a !!! (mb * i + k)%nat) !!! j).
Proof.
  intros Hi Hj. unfold unpack_with. rewrite lookup_fill_chunks; [|intros..|exact Hi|exact Hj].
  - apply lookup_map_dec. rewrite fields_len. exact Hj.
  - rewrite length_map. apply fields_len.
Qed.

Lemma unpack_pack_with a :
  length a = (n * m)%nat ->
  (forall i, (i < n * m)%nat -> 0 <= enc (a !!! i) < W /\ dec (enc (a !!! i)) = a !!! i) ->
  unpack_with (pack_with a) = a.
Proof.
  intros Hl Ha. apply (list_eq_chunks m n); [apply unpack_with_len|exact Hl|].
  intros i j Hi Hj. rewrite unpack_with_lookup by assumption.
  rewrite (fields_ext _ (fun k => bytes (fun k => enc (a !!! (m * i + k)%nat)) !!! k)).
  - rewrite fields_bytes by (intros k Hk; apply Ha; nia).
    rewrite lookup_total_fill by exact Hj. apply Ha. nia.
  - intros k Hk. apply (lookup_fill_chunks mb); [intros; apply bytes_len|assumption..].
Qed.

Lemma pack_unpack_with b :
  length b = (n * mb)%nat -> bytes_ok b -> pack_with (unpack_with b) = b.
Proof.
  intros Hl Hb. apply (list_eq_chunks mb n); [apply pack_with_len|exact Hl|].
  intros i j Hi Hj. unfold pack_with at 1.
  rewrite lookup_fill_chunks by (try assumption; intros; apply bytes_len).
  assert (forall k, (k < mb)%nat -> 0 <= b !!! (mb * i + k)%nat < 256) as Hr
    by (intros; apply (bytes_ok_lookup b _ Hb)).
  rewrite (bytes_ext _ (fun k => fields (fun k => b !!! (mb * i + k)%nat) !!! k)).
  - rewrite bytes_fields by exact Hr. rewrite (lookup_total_fill _ _ _ Hj). reflexivity.
  - intros k Hk. rewrite unpack_with_lookup by assumption.
    apply enc_dec. apply fields_range; assumption.
Qed.

Lemma unpack_with_range b lo hi :
  length b = (n * mb)%nat -> bytes_ok b ->
  (forall r, 0 <= r < W -> lo <= dec r <= hi) ->
  forall i, (i < n * m)%nat -> lo <= unpack_with b !!! i <= hi.
Proof using fields_len fields_range.
  clear - fields_len fields_range. intros Hl Hb Hd x Hx. assert (m <> 0)%nat as Hm by (intros ->; lia).
  rewrite (Nat.div_mod x m Hm).
  assert (x / m < n)%nat by (apply Nat.Div0.div_lt_upper_bound; lia).
  pose proof (Nat.mod_upper_bound x m Hm).
  rewrite unpack_with_lookup by assumption. apply Hd, fields_range; [|assumption].
  intros; apply (bytes_ok_lookup b _ Hb).
Qed.
End packing.

Tactic Notation "upto_range" integer(n) :=
  let k := fresh "k" in
  intros k ?; do n (destruct k as [|k]; [cbn; zlia|]); lia.

Lemma t0_fields_range b :
  (forall k, (k < 13)%nat -> 0 <= b k < 256) ->
  forall k, (k < 8)%nat -> 0 <= t0_fields b !!! k < 8192.
Proof. intros Hb. rewrite (t0_fields_eq b Hb). upto Hb 13%nat. upto_range 8. Qed.
Lemma t1_fields_range b :
  (forall k, (k < 5)%nat -> 0 <= b k < 256) ->
  forall k, (k < 4)%nat -> 0 <= t1_fields b !!! k < 1024.
Proof. intros Hb. rewrite (t1_fields_eq b Hb). upto Hb 5%nat. upto_range 4. Qed.
Lemma z_fields_range b :
  (forall k, (k < 5)%nat -> 0 <= b k < 256) ->
  forall k, (k < 2)%nat -> 0 <= z_fields b !!! k < 1048576.
Proof. intros Hb. rewrite (z_fields_eq b Hb). upto Hb 5%nat. upto_range 2. Qed.
Lemma eta_fields_range b :
  (forall k, (k < 1)%nat -> 0 <= b k < 256) ->
  forall k, (k < 2)%nat -> 0 <= eta_fields b !!! k < 16.
Proof. intros Hb. rewrite (eta_fields_eq b). upto Hb 1%nat. upto_range 2. Qed.

Ltac ext_at H := intros; unfold eta_bytes, eta_fields, t1_bytes, t1_fields, t0_bytes, t0_fields,
  z_bytes, z_fields; rewrite !H by lia; reflexivity.
Lemma eta_bytes_ext t t' : (forall k, (k < 2)%nat -> t k = t' k) -> eta_bytes t = eta_bytes t'.
Proof. intros H. ext_at H. Qed.
Lemma eta_fields_ext t t' : (forall k, (k < 1)%nat -> t k = t' k) -> eta_fields t = eta_fields t'.
Proof. intros H. ext_at H. Qed.
Lemma t1_bytes_ext t t' : (forall k, (k < 4)%nat -> t k = t' k) -> t1_bytes t = t1_bytes t'.
Proof. intros H. ext_at H. Qed.
Lemma t1_fields_ext t t' : (forall k, (k < 5)%nat -> t k = t' k) -> t1_fields t = t1_fields t'.
Proof. intros H. ext_at H. Qed.
Lemma t0_bytes_ext t t' : (forall k, (k < 8)%nat -> t k = t' k) -> t0_bytes t = t0_bytes t'.
Proof. intros H. ext_at H. Qed.
Lemma t0_fields_ext t t' : (forall k, (k < 13)%nat -> t k = t' k) -> t0_fields t = t0_fields t'.
Proof. intros H. ext_at H. Qed.
Lemma z_bytes_ext t t' : (forall k, (k < 2)%nat -> t k = t' k) -> z_bytes t = z_bytes t'.
Proof. intros H. ext_at H. Qed.
Lemma z_fields_ext t t' : (forall k, (k < 5)%nat -> t k = t' k) -> z_fields t = z_fields t'.
Proof. intros H. ext_at H. Qed.

(** Coefficients between [lo] and [hi]. *)
Definition coeffs_in (lo hi : Z) (a : poly) : Prop :=
  length a = 256%nat /\ forall i, (i < 256)%nat -> lo <= a !!! i <= hi.

Lemma polyt1_unpack_with b : polyt1_unpack b = unpack_with 5 64 t1_fields (fun r => r) b.
Proof. reflexivity. Qed.

Lemma polyeta_unpack_pack a : coeffs_in (- ETA) ETA a -> polyeta_unpack (polyeta_pack a) = a.
Proof.
  intros [Hl Ha].
  apply (unpack_pack_with 2 1 128 16 eta_bytes eta_fields (fun c => u8 (ETA - c)) (fun r => ETA - r));
    auto using eta_fields_ext, eta_fields_bytes.
  intros i Hi. specialize (Ha i Hi). unfold ETA in *. zlia.
Qed.
Lemma polyt1_unpack_pack a : coeffs_in 0 1023 a -> polyt1_unpack (polyt1_pack a) = a.
Proof.
  intros [Hl Ha]. rewrite polyt1_unpack_with.
  apply (unpack_pack_with 4 5 64 1024 t1_bytes t1_fields (fun c => c) (fun r => r));
    auto using t1_fields_ext, t1_fields_bytes.
  intros i Hi. split; [|reflexivity]. specialize (Ha i Hi). lia.
Qed.
Lemma polyt0_unpack_pack a : coeffs_in (-4095) 4096 a -> polyt0_unpack (polyt0_pack a) = a.
Proof.
  intros [Hl Ha].
  apply (unpack_pack_with 8 13 32 8192 t0_bytes t0_fields (fun c => u32 (Z.shiftl 1 (D - 1) - c))
    (fun r => Z.shiftl 1 (D - 1) - r)); auto using t0_fields_ext, t0_fields_bytes.
  intros i Hi. specialize (Ha i Hi). change (Z.shiftl 1 (D - 1)) with 4096. zlia.
Qed.
Lemma polyz_unpack_pack a :
  coeffs_in (- (GAMMA1 - 1)) GAMMA1 a -> polyz_unpack (polyz_pack a) = a.
Proof.
  intros [Hl Ha].
  apply (unpack_pack_with 2 5 128 1048576 z_bytes z_fields (fun c => u32 (GAMMA1 - c))
    (fun r => GAMMA1 - r)); auto using z_fields_ext, z_fields_bytes.
  intros i Hi. specialize (Ha i Hi). rewrite GAMMA1_val in *. zlia.
Qed.

Lemma polyeta_pack_unpack b :
  length b = POLYETA_PACKEDBYTES -> bytes_ok b -> polyeta_pack (polyeta_unpack b) = b.
Proof.
  apply (pack_unpack_with 2 1 128 16 eta_bytes eta_fields (fun c => u8 (ETA - c)) (fun r => ETA - r));
    auto using eta_bytes_ext, eta_bytes_fields, eta_fields_range.
  intros r Hr. unfold ETA. zlia.
Qed.
Lemma polyt1_pack_unpack b :
  length b = POLYT1_PACKEDBYTES -> bytes_ok b -> polyt1_pack (polyt1_unpack b) = b.
Proof.
  rewrite polyt1_unpack_with.
  apply (pack_unpack_with 4 5 64 1024 t1_bytes t1_fields (fun c => c) (fun r => r));
    auto using t1_bytes_ext, t1_bytes_fields, t1_fields_range.
Qed.
Lemma polyt0_pack_unpack b :
  length b = POLYT0_PACKEDBYTES -> bytes_ok b -> polyt0_pack (polyt0_unpack b) = b.
Proof.
  apply (pack_unpack_with 8 13 32 8192 t0_bytes t0_fields (fun c => u32 (Z.shiftl 1 (D - 1) - c))
    (fun r => Z.shiftl 1 (D - 1) - r)); auto using t0_bytes_ext, t0_bytes_fields, t0_fields_range.
  intros r Hr. change (Z.shiftl 1 (D - 1)) with 4096. zlia.
Qed.
Lemma polyz_pack_unpack b :
  length b = POLYZ_PACKEDBYTES -> bytes_ok b -> polyz_pack (polyz_unpack b) = b.
Proof.
  apply (pack_unpack_with 2 5 128 1048576 z_bytes z_fields (fun c => u32 (GAMMA1 - c))
    (fun r => GAMMA1 - r)); auto using z_bytes_ext, z_bytes_fields, z_fields_range.
  intros r Hr. rewrite GAMMA1_val. zlia.
Qed.

Lemma polyeta_pack_len a : length (polyeta_pack a) = POLYETA_PACKEDBYTES.
Proof. apply (length_fill_chunks 1). reflexivity. Qed.
Lemma polyt1_pack_len a : length (polyt1_pack a) = POLYT1_PACKEDBYTES.
Proof. apply (length_fill_chunks 5). reflexivity. Qed.
Lemma polyt0_pack_len a : length (polyt0_pack a) = POLYT0_PACKEDBYTES.
Proof. apply (length_fill_chunks 13). reflexivity. Qed.
Lemma polyz_pack_len a : length (polyz_pack a) = POLYZ_PACKEDBYTES.
Proof. apply (length_fill_chunks 5). reflexivity. Qed.
Lemma polyw1_pack_len a : length (polyw1_pack a) = POLYW1_PACKEDBYTES.
Proof. apply (length_fill_chunks 1). reflexivity. Qed.

Ltac pack_bytes := apply bytes_ok_fill_chunks; intros;
  repeat constructor; repeat apply lor_u8; apply u8_range.
Lemma polyeta_pack_bytes a : bytes_ok (polyeta_pack a).
Proof. pack_bytes. Qed.
Lemma polyt1_pack_bytes a : bytes_ok (polyt1_pack a).
Proof. pack_bytes. Qed.
Lemma polyt0_pack_bytes a : bytes_ok (polyt0_pack a).
Proof. pack_bytes. Qed.
Lemma polyz_pack_bytes a : bytes_ok (polyz_pack a).
Proof. pack_bytes. Qed.
Lemma polyw1_pack_bytes a : bytes_ok (polyw1_pack a).
Proof. pack_bytes. Qed.

Lemma polyeta_unpack_range b :
  length b = POLYETA_PACKEDBYTES -> bytes_ok b -> coeffs_in (-11) 4 (polyeta_unpack b).
Proof.
  intros Hl Hb. split; [apply (unpack_with_len 2 1 128); reflexivity|].
  apply (unpack_with_range 2 1 128 16 eta_fields (fun r => ETA - r)
    (fun _ => eq_refl) eta_fields_range b (-11) 4 Hl Hb). intros r Hr. unfold ETA. lia.
Qed.
Lemma polyt1_unpack_range b :
  length b = POLYT1_PACKEDBYTES -> bytes_ok b -> coeffs_in 0 1023 (polyt1_unpack b).
Proof.
  intros Hl Hb. split; [apply (unpack_with_len 4 5 64 t1_fields (fun r => r)); reflexivity|].
  rewrite polyt1_unpack_with. apply (unpack_with_range 4 5 64 1024 t1_fields (fun r => r)
    (fun _ => eq_refl) t1_fields_range b 0 1023 Hl Hb). intros r Hr. lia.
Qed.
Lemma polyt0_unpack_range b :
  length b = POLYT0_PACKEDBYTES -> bytes_ok b -> coeffs_in (-4095) 4096 (polyt0_unpack b).
Proof.
  intros Hl Hb. split; [apply (unpack_with_len 8 13 32); reflexivity|].
  apply (unpack_with_range 8 13 32 8192 t0_fields (fun r => Z.shiftl 1 (D - 1) - r)
    (fun _ => eq_refl) t0_fields_range b (-4095) 4096 Hl Hb). intros r Hr. change (Z.shiftl 1 (D - 1)) with 4096. lia.
Qed.
Lemma polyz_unpack_range b :
  length b = POLYZ_PACKEDBYTES -> bytes_ok b ->
  coeffs_in (- (GAMMA1 - 1)) GAMMA1 (polyz_unpack b).
Proof.
  intros Hl Hb. split; [apply (unpack_with_len 2 5 128); reflexivity|].
  apply (unpack_with_range 2 5 128 1048576 z_fields (fun r => GAMMA1 - r)
    (fun _ => eq_refl) z_fields_range b (- (GAMMA1 - 1)) GAMMA1 Hl Hb). intros r Hr. rewrite GAMMA1_val. lia.
Qed.

(** ** The norm check *)

Lemma chknorm_abs_eq c : - 1073741824 <= c < 1073741824 -> chknorm_abs c = Z.abs c.
Proof.
  intros Hc. unfold chknorm_abs. rewrite (i32_id (2 * c)) by (unfold is_i32; lia).
  rewrite sign_mask_land by (unfold is_i32; lia).
  destruct (Z.ltb_spec c 0); rewrite i32_id by (unfold is_i32; lia); lia.
Qed.

Lemma chknorm_loop_0 cs B :
  Forall (fun c => - 1073741824 <= c < 1073741824) cs ->
  chknorm_loop cs B = 0 <-> Forall (fun c => Z.abs c < B) cs.
Proof.
  induction 1 as [|c cs Hc Hcs IH]; cbn [chknorm_loop].
  - split; [constructor|reflexivity].
  - rewrite chknorm_abs_eq by exact Hc. rewrite Forall_cons, <- IH.
    destruct (Z.geb_spec (Z.abs c) B); split; intros; try lia; tauto.
Qed.

Lemma chknorm_loop_bit cs B : chknorm_loop cs B = 0 \/ chknorm_loop cs B = 1.
Proof. induction cs as [|c cs IH]; cbn; [auto|]. destruct (_ >=? _); auto. Qed.

Lemma coeffs_ok_Forall B a : coeffs_ok B a <-> length a = 256%nat /\ Forall (fun c => - B <= c <= B) a.
Proof.
  unfold coeffs_ok. rewrite Forall_lookup. split; intros [Hl H]; (split; [exact Hl|]).
  - intros i x Hx. pose proof (lookup_lt_Some _ _ _ Hx). apply list_lookup_total_correct in Hx.
    subst x. apply H. lia.
  - intros i Hi. destruct (lookup_lt_is_Some_2 a i) as [v Hv]; [lia|].
    rewrite (list_lookup_total_correct _ _ _ Hv). apply (H i v Hv).
Qed.

Lemma poly_chknorm_0 a B :
  coeffs_ok 1073741823 a -> B <= 1047552 ->
  poly_chknorm a B = 0 <-> coeffs_ok (B - 1) a.
Proof.
  intros Ha HB. unfold poly_chknorm. change ((Q - 1) /c 8) with 1047552.
  replace (B >? 1047552) with false by lia.
  apply coeffs_ok_Forall in Ha as [Hl Ha]. rewrite coeffs_ok_Forall, chknorm_loop_0.
  - split; [intros H; split; [exact Hl|]|intros [_ H]]; (eapply Forall_impl; [exact H|]); cbn; lia.
  - eapply Forall_impl; [exact Ha|]. cbn. lia.
Qed.

(** ** The ring Z_Q[X]/(X^256 + 1) *)

(** The value of a polynomial at the [x]-th root, in the transform's order. *)
Definition ev (f : nat -> Z) (x : nat) : Z := peval f 256 (node (256 + x)).

Lemma invntt_spec_ev c f a :
  coeffs_ok Q a ->
  (forall x, (x < 256)%nat -> a !!! x =[Q]= c * ev f x) ->
  coeffs_ok 4211200 (invntt_tomont a) /\
  forall i, (i < 256)%nat -> invntt_tomont a !!! i =[Q]= 4294967296 * c * f i.
Proof. exact (invntt_spec c f a). Qed.
Lemma ntt_spec_ev B a :
  coeffs_ok B a -> 0 <= B -> B + 8 * Q <= 2147483647 ->
  coeffs_ok (B + 8 * Q) (ntt a) /\
  forall x, (x < 256)%nat -> ntt a !!! x =[Q]= ev (fun i => a !!! i) x.
Proof. exact (ntt_spec B a). Qed.

Lemma ev_cong f g x : (forall i, (i < 256)%nat -> f i =[Q]= g i) -> ev f x =[Q]= ev g x.
Proof. apply peval_cong. Qed.
Lemma ev_add f g x : ev (fun i => f i + g i) x = ev f x + ev g x.
Proof.
  unfold ev. generalize (node (256 + x)) as w. intros w.
  rewrite <- (Z.mul_1_l (peval g _ _)), <- peval_lin. apply zsum_ext. intros. ring.
Qed.
Lemma ev_sub f g x : ev (fun i => f i - g i) x = ev f x - ev g x.
Proof.
  unfold ev. generalize (node (256 + x)) as w. intros w.
  pose proof (peval_lin f g (-1) 256 w) as E.
  transitivity (peval f 256 w + -1 * peval g 256 w);
    [rewrite <- E; apply zsum_ext; intros; ring|lia].
Qed.
Lemma ev_scale c f x : ev (fun i => c * f i) x = c * ev f x.
Proof.
  unfold ev, peval. generalize (node (256 + x)) as w. intros w.
  rewrite <- zsum_mul_l. apply zsum_ext. intros. ring.
Qed.

(** A polynomial is determined modulo Q by its values at the roots. *)
Lemma ev_inj f g :
  (forall x, (x < 256)%nat -> ev f x =[Q]= ev g x) -> forall i, (i < 256)%nat -> f i =[Q]= g i.
Proof.
  intros H. set (a := fill 256 (fun x => ev f x mod Q)).
  assert (coeffs_ok Q a) as Ha.
  { split; [apply length_fill|]. intros i Hi. subst a. rewrite lookup_total_fill by exact Hi.
    pose proof (Z.mod_pos_bound (ev f i) Q ltac:(unfold Q; lia)). lia. }
  assert (forall x, (x < 256)%nat -> a !!! x =[Q]= ev f x) as Hf.
  { intros x Hx. subst a. rewrite lookup_total_fill by exact Hx. apply cong_mod_l. unfold Q; lia. }
  clearbody a. destruct (invntt_spec_ev 1 f a Ha) as [_ If].
  { intros x Hx. rewrite Z.mul_1_l. exact (Hf x Hx). }
  destruct (invntt_spec_ev 1 g a Ha) as [_ Ig].
  { intros x Hx. rewrite Z.mul_1_l, (Hf x Hx). exact (H x Hx). }
  intros i Hi. apply (cong_cancel Q 4294967296 RINV); [apply RINV_spec|].
  replace (f i * 4294967296) with (4294967296 * 1 * f i) by ring.
  replace (g i * 4294967296) with (4294967296 * 1 * g i) by ring.
  rewrite <- (If i Hi), <- (Ig i Hi). reflexivity.
Qed.

(** [X^i * b] in the quotient ring. *)
Definition rot (i : nat) (b : nat -> Z) (k : nat) : Z :=
  if (i <=? k)%nat then b (k - i)%nat else - b (256 + k - i)%nat.
(** The product in the quotient ring. *)
Definition polymul (a b : nat -> Z) (k : nat) : Z := zsum (fun i => a i * rot i b k) 256.

Lemma ev_rot i b x :
  (i < 256)%nat -> (x < 256)%nat ->
  ev (rot i b) x =[Q]= node (256 + x) ^ Z.of_nat i * ev b x.
Proof.
  intros Hi Hx. unfold ev. pose proof (node_256 x Hx) as H256. set (w := node (256 + x)) in *.
  clearbody w. replace 256%nat with (i + (256 - i))%nat at 1 by lia.
  rewrite peval_split.
  replace (peval b 256) with (peval b ((256 - i) + i)) by (f_equal; lia).
  rewrite peval_split, Z.mul_add_distr_l, Z.mul_assoc, <- Z.pow_add_r, <- Nat2Z.inj_add by lia.
  replace (i + (256 - i))%nat with 256%nat by lia.
  change (Z.of_nat 256) with 256. rewrite H256.
  rewrite Z.add_comm. apply cong_refl_eq. f_equal.
  - f_equal. apply zsum_ext. intros j Hj. unfold rot.
    replace (i <=? i + j)%nat with true by (symmetry; apply Nat.leb_le; lia).
    f_equal. f_equal. lia.
  - unfold peval. rewrite <- zsum_mul_l. apply zsum_ext. intros j Hj. unfold rot.
    replace (i <=? j)%nat with false by (symmetry; apply Nat.leb_gt; lia).
    replace (256 - i + j)%nat with (256 + j - i)%nat by lia. ring.
Qed.

(** Evaluation at a root is a ring homomorphism. *)
Lemma ev_polymul a b x : (x < 256)%nat -> ev (polymul a b) x =[Q]= ev a x * ev b x.
Proof.
  intros Hx. unfold ev at 1, polymul, peval.
  transitivity (zsum (fun i => a i * ev (rot i b) x) 256).
  - apply cong_refl_eq. unfold ev, peval. generalize (node (256 + x)) as w. intros w.
    rewrite (zsum_ext _ (fun k => zsum (fun i => a i * rot i b k * w ^ Z.of_nat k) 256)).
    + rewrite zsum_swap. apply zsum_ext. intros i Hi. rewrite <- zsum_mul_l.
      apply zsum_ext. intros. ring.
    + intros k Hk. rewrite Z.mul_comm, <- zsum_mul_l. apply zsum_ext. intros. ring.
  - transitivity (zsum (fun i => ev b x * (a i * node (256 + x) ^ Z.of_nat i)) 256).
    + apply zsum_cong. intros i Hi. rewrite (ev_rot i b x Hi Hx). apply cong_refl_eq.
      rewrite Z.mul_assoc. apply Z.mul_comm.
    + apply cong_refl_eq. rewrite zsum_mul_l. unfold ev, peval. apply Z.mul_comm.
Qed.

(** ** Coefficient-wise routines *)

Lemma lookup_pointwise A B a b i :
  coeffs_ok A a -> coeffs_ok B b -> A * B < 2147483648 * Q -> 0 <= A -> 0 <= B -> (i < 256)%nat ->
  poly_pointwise_montgomery a b !!! i * 4294967296 =[Q]= a !!! i * b !!! i /\
  - (Q - 1) <= poly_pointwise_montgomery a b !!! i <= Q - 1.
Proof.
  intros [_ Ha] [_ Hb] HAB HA HB Hi. unfold poly_pointwise_montgomery.
  rewrite lookup_total_fill by exact Hi. specialize (Ha i Hi). specialize (Hb i Hi).
  assert (- (A * B) <= a !!! i * b !!! i <= A * B) as Hp by nia.
  rewrite i64_id by (unfold is_i64, Q in *; lia).
  split; [apply montgomery_reduce_cong; lia|].
  pose proof (montgomery_reduce_bound (a !!! i * b !!! i)). lia.
Qed.

Lemma pointwise_ok A B a b :
  coeffs_ok A a -> coeffs_ok B b -> A * B < 2147483648 * Q -> 0 <= A -> 0 <= B ->
  coeffs_ok (Q - 1) (poly_pointwise_montgomery a b).
Proof.
  intros Ha Hb HAB HA HB. split; [apply length_fill|]. intros i Hi.
  apply (lookup_pointwise A B a b i); assumption.
Qed.

Lemma lookup_add A B a b i :
  coeffs_ok A a -> coeffs_ok B b -> A + B <= 2147483647 -> (i < 256)%nat ->
  poly_add a b !!! i = a !!! i + b !!! i.
Proof.
  intros [_ Ha] [_ Hb] HAB Hi. unfold poly_add. rewrite lookup_total_fill by exact Hi.
  apply i32_id. specialize (Ha i Hi). specialize (Hb i Hi). unfold is_i32. lia.
Qed.
Lemma add_ok A B a b :
  coeffs_ok A a -> coeffs_ok B b -> A + B <= 2147483647 -> coeffs_ok (A + B) (poly_add a b).
Proof.
  intros Ha Hb HAB. split; [apply length_fill|]. intros i Hi.
  rewrite (lookup_add A B) by assumption. destruct Ha as [_ Ha], Hb as [_ Hb].
  specialize (Ha i Hi). specialize (Hb i Hi). lia.
Qed.
Lemma lookup_sub A B a b i :
  coeffs_ok A a -> coeffs_ok B b -> A + B <= 2147483647 -> (i < 256)%nat ->
  poly_sub a b !!! i = a !!! i - b !!! i.
Proof.
  intros [_ Ha] [_ Hb] HAB Hi. unfold poly_sub. rewrite lookup_total_fill by exact Hi.
  apply i32_id. specialize (Ha i Hi). specialize (Hb i Hi). unfold is_i32. lia.
Qed.
Lemma sub_ok A B a b :
  coeffs_ok A a -> coeffs_ok B b -> A + B <= 2147483647 -> coeffs_ok (A + B) (poly_sub a b).
Proof.
  intros Ha Hb HAB. split; [apply length_fill|]. intros i Hi.
  rewrite (lookup_sub A B) by assumption. destruct Ha as [_ Ha], Hb as [_ Hb].
  specialize (Ha i Hi). specialize (Hb i Hi). lia.
Qed.

Lemma reduce_ok B a : coeffs_ok B a -> B <= 2143289343 -> coeffs_ok 6283009 (poly_reduce a).
Proof.
  intros [_ Ha] HB. split; [apply length_fill|]. intros i Hi. unfold poly_reduce.
  rewrite lookup_total_fill by exact Hi. specialize (Ha i Hi).
  pose proof (reduce32_bound (a !!! i)). lia.
Qed.
Lemma lookup_reduce B a i :
  coeffs_ok B a -> B <= 2143289343 -> (i < 256)%nat -> poly_reduce a !!! i =[Q]= a !!! i.
Proof.
  intros [_ Ha] HB Hi. unfold poly_reduce. rewrite lookup_total_fill by exact Hi.
  specialize (Ha i Hi). apply reduce32_cong. lia.
Qed.
Lemma lookup_caddq B a i :
  coeffs_ok B a -> B < Q -> (i < 256)%nat -> poly_caddq a !!! i = a !!! i mod Q.
Proof.
  intros [_ Ha] HB Hi. unfold poly_caddq. rewrite lookup_total_fill by exact Hi.
  specialize (Ha i Hi). apply caddq_mod. lia.
Qed.
Lemma lookup_shiftl B a i :
  coeffs_ok B a -> B <= 262143 -> (i < 256)%nat -> poly_shiftl a !!! i = a !!! i * 8192.
Proof.
  intros [_ Ha] HB Hi. unfold poly_shiftl. rewrite lookup_total_fill by exact Hi.
  specialize (Ha i Hi). rewrite shiftl_mul by (unfold D; lia). change (2 ^ D) with 8192.
  apply i32_id. unfold is_i32. lia.
Qed.

Lemma ntt_ev B a x :
  coeffs_ok B a -> 0 <= B <= 2147483647 - 8 * Q -> (x < 256)%nat ->
  poly_ntt a !!! x =[Q]= ev (fun i => a !!! i) x.
Proof. intros Ha HB Hx. apply (ntt_spec_ev B a Ha); [lia..|exact Hx]. Qed.
Lemma ntt_ok B a :
  coeffs_ok B a -> 0 <= B <= 2147483647 - 8 * Q -> coeffs_ok (B + 8 * Q) (poly_ntt a).
Proof. intros Ha HB. apply (ntt_spec_ev B a Ha); lia. Qed.

(** The inverse transform of values in Montgomery form 2^-32. *)
Lemma invntt_ev f a :
  coeffs_ok Q a ->
  (forall x, (x < 256)%nat -> a !!! x * 4294967296 =[Q]= ev f x) ->
  coeffs_ok 4211200 (poly_invntt_tomont a) /\
  forall i, (i < 256)%nat -> poly_invntt_tomont a !!! i =[Q]= f i.
Proof.
  intros Ha H. destruct (invntt_spec_ev RINV f a Ha) as [H1 H2].
  { intros x Hx. rewrite <- (H x Hx).
    transitivity (a !!! x * (4294967296 * RINV)); [|apply cong_refl_eq; ring].
    rewrite RINV_spec. apply cong_refl_eq. ring. }
  split; [exact H1|]. intros i Hi. unfold poly_invntt_tomont. rewrite (H2 i Hi), RINV_spec.
  apply cong_refl_eq. ring.
Qed.

(** the multiplication pipeline of the scheme.  For coefficients bounded by
    [A] and [B] with [(A + 8 Q) (B + 8 Q) < 2^31 Q], transforming both,
    multiplying pointwise and transforming back gives the product in
    Z_Q[X]/(X^256 + 1), coefficient by coefficient modulo Q, with every result
    at most 4211200 in absolute value: the Montgomery factors cancel and no
    intermediate leaves its type. *)
Theorem poly_product (A B : Z) (a b : list Z) (k : nat)
  (Ha : coeffs_ok A a) (Hb : coeffs_ok B b) (HA : 0 <= A <= 2147483647 - 8 * Q)
  (HB : 0 <= B <= 2147483647 - 8 * Q) (HAB : (A + 8 * Q) * (B + 8 * Q) < 2147483648 * Q)
  (Hk : (k < 256)%nat) :
  let c := poly_invntt_tomont (poly_pointwise_montgomery (poly_ntt a) (poly_ntt b)) in
  c !!! k =[Q]= polymul (fun i => a !!! i) (fun i => b !!! i) k /\
  -4211200 <= c !!! k <= 4211200.
Proof.
  cbv zeta.
  destruct (invntt_ev (polymul (fun i => a !!! i) (fun i => b !!! i))
    (poly_pointwise_montgomery (poly_ntt a) (poly_ntt b))) as [[_ H1] H2].
  - eapply coeffs_ok_mono; [|apply (pointwise_ok (A + 8 * Q) (B + 8 * Q))];
      auto using ntt_ok; unfold Q in *; lia.
  - intros x Hx. rewrite (proj1 (lookup_pointwise (A + 8 * Q) (B + 8 * Q) _ _ x
      (ntt_ok A a Ha HA) (ntt_ok B b Hb HB) HAB ltac:(unfold Q in *; lia)
      ltac:(unfold Q in *; lia) Hx)).
    rewrite (ntt_ev A a x Ha HA Hx), (ntt_ev B b x Hb HB Hx). symmetry. apply ev_polymul, Hx.
  - split; [apply H2, Hk|apply H1, Hk].
Qed.
Lemma poly_product_witness :
  let c := poly_invntt_tomont (poly_pointwise_montgomery (poly_ntt sample_poly) (poly_ntt sample_poly)) in
  c !!! 3%nat =[Q]= polymul (fun i => sample_poly !!! i) (fun i => sample_poly !!! i) 3 /\
  -4211200 <= c !!! 3%nat <= 4211200.
Proof.
  apply (poly_product 255 255 sample_poly sample_poly 3);
    [apply coeffs_ok_compute; vm_compute; reflexivity..|unfold Q; lia|unfold Q; lia|unfold Q; lia|lia].
Defined.

(** ** Values at the roots

    [val a x] is the value of the polynomial [a] at the [x]-th root.  The
    scheme's equations are proved on values and carried back to coefficients
    by [val_inj]. *)
Definition val (a : poly) (x : nat) : Z := ev (fun i => a !!! i) x.

Lemma val_inj a b :
  (forall x, (x < 256)%nat -> val a x =[Q]= val b x) ->
  forall i, (i < 256)%nat -> a !!! i =[Q]= b !!! i.
Proof. exact (ev_inj (fun i => a !!! i) (fun i => b !!! i)). Qed.

Lemma val_inj_lin (r a b s : poly) :
  (forall x, (x < 256)%nat -> val r x =[Q]= val a x - val b x + val s x) ->
  forall i, (i < 256)%nat -> r !!! i =[Q]= a !!! i - b !!! i + s !!! i.
Proof.
  unfold val. intros H. apply (ev_inj (fun i => r !!! i) (fun i => a !!! i - b !!! i + s !!! i)).
  intros x Hx. rewrite (ev_add (fun i => a !!! i - b !!! i) (fun i => s !!! i)),
    (ev_sub (fun i => a !!! i) (fun i => b !!! i)). exact (H x Hx).
Qed.

Lemma val_cong a b x :
  (forall i, (i < 256)%nat -> a !!! i =[Q]= b !!! i) -> val a x =[Q]= val b x.
Proof. exact (ev_cong (fun i => a !!! i) (fun i => b !!! i) x). Qed.

Lemma val_ntt B a x :
  coeffs_ok B a -> 0 <= B <= 2147483647 - 8 * Q -> (x < 256)%nat ->
  poly_ntt a !!! x =[Q]= val a x.
Proof. apply ntt_ev. Qed.

Lemma val_invntt a :
  coeffs_ok Q a ->
  coeffs_ok 4211200 (poly_invntt_tomont a) /\
  forall x, (x < 256)%nat -> val (poly_invntt_tomont a) x =[Q]= a !!! x * 4294967296.
Proof.
  intros Ha. destruct (interpolation (fun x => a !!! x * 4294967296)) as [f Hf].
  destruct (invntt_ev f a Ha) as [H1 H2].
  { intros x Hx. symmetry. exact (Hf x Hx). }
  split; [exact H1|]. intros x Hx. unfold val. rewrite (ev_cong _ f x H2). exact (Hf x Hx).
Qed.

Lemma val_add A B a b x :
  coeffs_ok A a -> coeffs_ok B b -> A + B <= 2147483647 ->
  val (poly_add a b) x =[Q]= val a x + val b x.
Proof.
  intros Ha Hb HAB. unfold val. rewrite <- ev_add. apply ev_cong. intros i Hi.
  rewrite (lookup_add A B) by assumption. reflexivity.
Qed.
Lemma val_sub A B a b x :
  coeffs_ok A a -> coeffs_ok B b -> A + B <= 2147483647 ->
  val (poly_sub a b) x =[Q]= val a x - val b x.
Proof.
  intros Ha Hb HAB. unfold val. rewrite <- ev_sub. apply ev_cong. intros i Hi.
  rewrite (lookup_sub A B) by assumption. reflexivity.
Qed.
Lemma val_reduce B a x :
  coeffs_ok B a -> B <= 2143289343 -> val (poly_reduce a) x =[Q]= val a x.
Proof. intros Ha HB. apply val_cong. intros i Hi. apply (lookup_reduce B); assumption. Qed.
Lemma val_caddq B a x : coeffs_ok B a -> B < Q -> val (poly_caddq a) x =[Q]= val a x.
Proof.
  intros Ha HB. apply val_cong. intros i Hi. rewrite (lookup_caddq B) by assumption.
  apply cong_mod_l. unfold Q. lia.
Qed.
Lemma val_shiftl B a x :
  coeffs_ok B a -> B <= 262143 -> val (poly_shiftl a) x =[Q]= 8192 * val a x.
Proof.
  intros Ha HB. unfold val. rewrite <- ev_scale. apply ev_cong. intros i Hi.
  rewrite (lookup_shiftl B) by assumption. apply cong_refl_eq. ring.
Qed.
Lemma val_lin a a1 a0 c x :
  (forall i, (i < 256)%nat -> a !!! i =[Q]= a1 !!! i * c + a0 !!! i) ->
  val a x =[Q]= c * val a1 x + val a0 x.
Proof.
  intros H. unfold val. rewrite <- ev_scale, <- ev_add. apply ev_cong. intros i Hi.
  rewrite (H i Hi). apply cong_refl_eq. ring.
Qed.

(** The product of a challenge and a vector component, back in coefficients. *)
Lemma val_product A B a b :
  coeffs_ok A a -> coeffs_ok B b -> 0 <= A <= 2147483647 - 8 * Q -> 0 <= B <= 2147483647 - 8 * Q ->
  (A + 8 * Q) * (B + 8 * Q) < 2147483648 * Q ->
  let c := poly_invntt_tomont (poly_pointwise_montgomery (poly_ntt a) (poly_ntt b)) in
  coeffs_ok 4211200 c /\ forall x, (x < 256)%nat -> val c x =[Q]= val a x * val b x.
Proof.
  intros Ha Hb HA HB HAB. cbv zeta.
  pose proof (ntt_ok A a Ha HA) as Na. pose proof (ntt_ok B b Hb HB) as Nb.
  assert (0 <= A + 8 * Q /\ 0 <= B + 8 * Q) as [PA PB] by (unfold Q in *; lia).
  destruct (val_invntt (poly_pointwise_montgomery (poly_ntt a) (poly_ntt b))) as [H1 H2].
  { eapply coeffs_ok_mono; [|apply (pointwise_ok _ _ _ _ Na Nb HAB PA PB)]. unfold Q. lia. }
  split; [exact H1|]. intros x Hx. rewrite (H2 x Hx).
  rewrite (proj1 (lookup_pointwise _ _ _ _ x Na Nb HAB PA PB Hx)).
  rewrite (val_ntt A a x Ha HA Hx), (val_ntt B b x Hb HB Hx). reflexivity.
Qed.
