(* ===== verification/MlDsaSample.v ===== *)
(** * ML-DSA-65: sampling

    The rejection samplers and the challenge sampler of [poly.c] and the
    stream set-up of [symmetric-shake.c], over the SHAKE interface.  A sampler
    loops until it has enough coefficients, which no bound guarantees; it is
    modelled with fuel (the number of further blocks it may squeeze, or bytes
    it may draw) and [None] when the fuel runs out.  The uniform samplers are
    proved to return exactly when the stream has 256 acceptable candidates,
    and then the first 256 of them; the challenge is proved to have exactly
    TAU coefficients in {-1, 1} and zeros elsewhere. *)

From S2P Require Import Prelude MlDsaReduce MlDsaNtt MlDsaPoly Shake.

Local Open Scope Z_scope.

(** The coefficients [rej_uniform] writes to [a[0 .. ctr)]. *)
Fixpoint rej_uniform (len : nat) (buf : list Z) : list Z :=
  match buf with
  | b0 :: b1 :: b2 :: rest =>
      match len with
      | O => []
      | S len' =>
          let t := Z.land (Z.lor (Z.lor b0 (Z.shiftl b1 8)) (Z.shiftl b2 16)) 8388607 in
          if t <? Q then t :: rej_uniform len' rest else rej_uniform len rest
      end
  | _ => []
  end.

(** The coefficients [rej_eta] writes; [4 - t] is computed in [uint32_t]. *)
Fixpoint rej_eta (len : nat) (buf : list Z) : list Z :=
  match len, buf with
  | O, _ | _, [] => []
  | _, b :: rest =>
      let t0 := Z.land b 15 in
      let t1 := Z.shiftr b 4 in
      let out0 := if t0 <? 9 then [i32 (u32 (4 - t0))] else [] in
      let len1 := (len - length out0)%nat in
      let out1 := if (t1 <? 9) && (0 <? len1)%nat then [i32 (u32 (4 - t1))] else [] in
      out0 ++ out1 ++ rej_eta (len1 - length out1) rest
  end.

Definition STREAM128_BLOCKBYTES : nat := SHAKE128_RATE.
Definition STREAM256_BLOCKBYTES : nat := SHAKE256_RATE.
Definition POLY_UNIFORM_NBLOCKS : nat := (768 + STREAM128_BLOCKBYTES - 1) / STREAM128_BLOCKBYTES.
Definition POLY_UNIFORM_ETA_NBLOCKS : nat := (227 + STREAM256_BLOCKBYTES - 1) / STREAM256_BLOCKBYTES.
Definition POLY_UNIFORM_GAMMA1_NBLOCKS : nat :=
  (POLYZ_PACKEDBYTES + STREAM256_BLOCKBYTES - 1) / STREAM256_BLOCKBYTES.

Section samplers.
Context `{S : ShakeOps}.

Definition stream128_init (seed : list Z) (nonce : Z) : shake128incctx :=
  let t := [u8 nonce; u8 (Z.shiftr nonce 8)] in
  shake128_inc_finalize (shake128_inc_absorb (shake128_inc_absorb shake128_inc_init seed) t).
Definition stream256_init (seed : list Z) (nonce : Z) : shake256incctx :=
  let t := [u8 nonce; u8 (Z.shiftr nonce 8)] in
  shake256_inc_finalize (shake256_inc_absorb (shake256_inc_absorb shake256_inc_init seed) t).
Definition stream128_squeezeblocks (n : nat) (st : shake128incctx) :=
  shake128_inc_squeeze (n * SHAKE128_RATE) st.
Definition stream256_squeezeblocks (n : nat) (st : shake256incctx) :=
  shake256_inc_squeeze (n * SHAKE256_RATE) st.

(** [while (ctr < N)]: [a] holds the [ctr] coefficients so far, [buf] the
    [buflen] bytes of the buffer. *)
Fixpoint poly_uniform_loop (fuel : nat) (a buf : list Z) (st : shake128incctx) : option poly :=
  if (length a <? N)%nat then
    match fuel with
    | O => None
    | Datatypes.S fuel =>
        let off := (length buf mod 3)%nat in
        let carry := drop (length buf - off) buf in
        let '(blk, st) := stream128_squeezeblocks 1 st in
        let buf := carry ++ blk in
        poly_uniform_loop fuel (a ++ rej_uniform (N - length a) buf) buf st
    end
  else Some a.
Definition poly_uniform (fuel : nat) (seed : list Z) (nonce : Z) : option poly :=
  let st := stream128_init seed nonce in
  let '(buf, st) := stream128_squeezeblocks POLY_UNIFORM_NBLOCKS st in
  poly_uniform_loop fuel (rej_uniform N buf) buf st.

Fixpoint poly_uniform_eta_loop (fuel : nat) (a : list Z) (st : shake256incctx) : option poly :=
  if (length a <? N)%nat then
    match fuel with
    | O => None
    | Datatypes.S fuel =>
        let '(buf, st) := stream256_squeezeblocks 1 st in
        poly_uniform_eta_loop fuel (a ++ rej_eta (N - length a) buf) st
    end
  else Some a.
Definition poly_uniform_eta (fuel : nat) (seed : list Z) (nonce : Z) : option poly :=
  let st := stream256_init seed nonce in
  let '(buf, st) := stream256_squeezeblocks POLY_UNIFORM_ETA_NBLOCKS st in
  poly_uniform_eta_loop fuel (rej_eta N buf) st.

Definition poly_uniform_gamma1 (seed : list Z) (nonce : Z) : poly :=
  let st := stream256_init seed nonce in
  let '(buf, _) := stream256_squeezeblocks POLY_UNIFORM_GAMMA1_NBLOCKS st in
  polyz_unpack buf.

(** The bytes left in the buffer and the context they come from. *)
Record draw_state := { draw_buf : list Z; draw_pos : nat; draw_ctx : shake256incctx }.

(** [do { refill if needed; b = buf[pos++]; } while (b > i)] *)
Fixpoint challenge_draw (fuel : nat) (i : Z) (s : draw_state) : option (Z * draw_state) :=
  match fuel with
  | O => None
  | Datatypes.S fuel =>
      let s := if (SHAKE256_RATE <=? draw_pos s)%nat then
                 let '(buf, st) := shake256_inc_squeeze SHAKE256_RATE (draw_ctx s) in
                 {| draw_buf := buf; draw_pos := 0; draw_ctx := st |}
               else s in
      let b := draw_buf s !!! draw_pos s in
      let s := {| draw_buf := draw_buf s; draw_pos := draw_pos s + 1; draw_ctx := draw_ctx s |} in
      if b >? i then challenge_draw fuel i s else Some (b, s)
  end.

(** [for (i = N - TAU; i < N; ++i)], [n] iterations from [i]. *)
Fixpoint challenge_loop (fuel n i : nat) (c : poly) (signs : Z) (s : draw_state) : option poly :=
  match n with
  | O => Some c
  | Datatypes.S n =>
      match challenge_draw fuel (Z.of_nat i) s with
      | None => None
      | Some (b, s) =>
          let c := <[i := c !!! Z.to_nat b]> c in
          let c := <[Z.to_nat b := i32 (u64 (1 - u64 (2 * Z.land signs 1)))]> c in
          challenge_loop fuel n (Datatypes.S i) c (Z.shiftr signs 1) s
      end
  end.

Definition challenge_signs (buf : list Z) : Z :=
  for_loop 8 0 (fun i signs => Z.lor signs (u64 (Z.shiftl (buf !!! i) (8 * Z.of_nat i)))) 0.

Definition poly_challenge (fuel : nat) (seed : list Z) : option poly :=
  let st := shake256_inc_finalize (shake256_inc_absorb shake256_inc_init seed) in
  let '(buf, st) := shake256_inc_squeeze SHAKE256_RATE st in
  let signs := challenge_signs buf in
  let c := fill N (fun _ => 0) in
  challenge_loop fuel TAU (N - TAU) c signs {| draw_buf := buf; draw_pos := 8; draw_ctx := st |}.
End samplers.

(** ** The uniform samplers: the first 256 acceptable candidates *)

(** The candidates of a byte stream that [rej_uniform] accepts: 23-bit
    little-endian groups of three bytes, below Q. *)
Fixpoint uniform_candidates (buf : list Z) : list Z :=
  match buf with
  | b0 :: b1 :: b2 :: rest =>
      let t := (b0 + b1 * 256 + b2 * 65536) mod 8388608 in
      if t <? Q then t :: uniform_candidates rest else uniform_candidates rest
  | _ => []
  end.
(** The candidates [rej_eta] accepts: nibbles below 9, low nibble first. *)
Definition eta_candidates (buf : list Z) : list Z :=
  concat (map (fun b => map (fun t => 4 - t) (List.filter (fun t => t <? 9) [b mod 16; b / 16])) buf).

(** Induction on a list three elements at a time. *)
Lemma list_ind3 {A : Type} (P : list A -> Prop) :
  (forall l, (length l < 3)%nat -> P l) ->
  (forall a b c l, P l -> P (a :: b :: c :: l)) -> forall l, P l.
Proof.
  intros H0 H3 l. remember (length l) as n eqn:E. revert l E.
  induction n as [n IH] using lt_wf_ind. intros l ->.
  destruct l as [|a [|b [|c l]]]; try (apply H0; cbn; lia).
  apply H3. apply (IH (length l)); [cbn; lia|reflexivity].
Qed.

Lemma uniform_candidate_eq b0 b1 b2 :
  is_u8 b0 -> is_u8 b1 -> is_u8 b2 ->
  Z.land (Z.lor (Z.lor b0 (Z.shiftl b1 8)) (Z.shiftl b2 16)) 8388607
  = (b0 + b1 * 256 + b2 * 65536) mod 8388608.
Proof.
  unfold is_u8. intros H0 H1 H2.
  rewrite (lor_shl 8), (lor_shl 16) by (pows; lia). exact (land_ones_mod _ 23 ltac:(lia)).
Qed.

Lemma rej_uniform_take len buf :
  bytes_ok buf -> rej_uniform len buf = take len (uniform_candidates buf).
Proof.
  revert len. induction buf as [buf Hs|b0 b1 b2 rest IH] using list_ind3; intros len Hb.
  - destruct buf as [|? [|? [|? ?]]]; cbn in *; try lia; rewrite take_nil; reflexivity.
  - do 3 (apply Forall_cons in Hb as [? Hb]). cbn [rej_uniform uniform_candidates].
    destruct len as [|len]; [reflexivity|]. rewrite uniform_candidate_eq by assumption. cbv zeta.
    destruct (_ <? Q); rewrite !IH by exact Hb; reflexivity.
Qed.

Lemma uniform_candidates_app l k :
  (length l mod 3 = 0)%nat -> uniform_candidates (l ++ k) = uniform_candidates l ++ uniform_candidates k.
Proof.
  induction l as [l Hs|b0 b1 b2 rest IH] using list_ind3; intros H3.
  - rewrite Nat.mod_small in H3 by exact Hs. destruct l; [reflexivity|discriminate].
  - cbn [app uniform_candidates]. rewrite IH; [destruct (_ <? Q); reflexivity|].
    cbn [length] in H3. replace (S (S (S (length rest)))) with (length rest + 1 * 3)%nat in H3 by lia.
    rewrite Nat.Div0.mod_add in H3. exact H3.
Qed.

Lemma rej_eta_take len buf :
  bytes_ok buf -> rej_eta len buf = take len (eta_candidates buf).
Proof.
  revert len. induction buf as [|b rest IH]; intros len Hb; [destruct len; reflexivity|].
  apply Forall_cons in Hb as [Hb0 Hb]. destruct len as [|len]; [reflexivity|].
  unfold eta_candidates. cbn [rej_eta map concat]. fold (eta_candidates rest).
  rewrite mask_4, shiftr_div by lia. change (2 ^ 4) with 16. unfold is_u8 in Hb0.
  cbn [List.filter]. destruct (Z.ltb_spec (b mod 16) 9), (Z.ltb_spec (b / 16) 9);
    cbn [length app map andb Nat.sub];
    repeat match goal with |- context [i32 (u32 (4 - ?t))] =>
      replace (i32 (u32 (4 - t))) with (4 - t) by zlia end;
    rewrite ?IH by exact Hb; rewrite ?Nat.sub_0_r; try reflexivity.
  all: destruct len as [|len]; cbn; rewrite ?IH by exact Hb; rewrite ?Nat.sub_0_r; reflexivity.
Qed.

Lemma eta_candidates_app l k : eta_candidates (l ++ k) = eta_candidates l ++ eta_candidates k.
Proof. unfold eta_candidates. rewrite map_app, concat_app. reflexivity. Qed.

Lemma eta_candidates_range buf : bytes_ok buf -> Forall (fun c => - ETA <= c <= ETA) (eta_candidates buf).
Proof.
  intros Hb. apply Forall_concat, Forall_map. eapply Forall_impl; [exact Hb|].
  unfold is_u8, ETA. intros b Hb0. cbn [List.filter].
  destruct (Z.ltb_spec (b mod 16) 9), (Z.ltb_spec (b / 16) 9); repeat constructor; zlia.
Qed.
Lemma uniform_candidates_range buf : Forall (fun c => 0 <= c <= Q - 1) (uniform_candidates buf).
Proof.
  induction buf as [buf Hs|b0 b1 b2 rest IH] using list_ind3.
  - destruct buf as [|? [|? [|? ?]]]; cbn in *; try lia; constructor.
  - cbn [uniform_candidates]. cbv zeta. destruct (Z.ltb_spec ((b0 + b1 * 256 + b2 * 65536) mod 8388608) Q);
      [|exact IH]. constructor; [|exact IH]. zlia.
Qed.

(** [first256 c]: the first 256 elements, if there are as many. *)
Definition first256 (c : list Z) : option poly :=
  if (N <=? length c)%nat then Some (take N c) else None.

Section uniform.
Context `{HS : ShakeLaws}.

(** The bytes of [fuel] further blocks. *)
Fixpoint blocks128 (fuel : nat) (st : shake128incctx) : list Z :=
  match fuel with
  | O => []
  | S fuel => let '(blk, st) := stream128_squeezeblocks 1 st in blk ++ blocks128 fuel st
  end.
Fixpoint blocks256 (fuel : nat) (st : shake256incctx) : list Z :=
  match fuel with
  | O => []
  | S fuel => let '(blk, st) := stream256_squeezeblocks 1 st in blk ++ blocks256 fuel st
  end.
(** The stream a sampler may read: the initial blocks and [fuel] more. *)
Definition uniform_stream (fuel : nat) (seed : list Z) (nonce : Z) : list Z :=
  let '(buf, st) := stream128_squeezeblocks POLY_UNIFORM_NBLOCKS (stream128_init seed nonce) in
  buf ++ blocks128 fuel st.
Definition eta_stream (fuel : nat) (seed : list Z) (nonce : Z) : list Z :=
  let '(buf, st) := stream256_squeezeblocks POLY_UNIFORM_ETA_NBLOCKS (stream256_init seed nonce) in
  buf ++ blocks256 fuel st.

Lemma take_short (c : list Z) : (length c < N)%nat -> take N c = c.
Proof. intros. apply take_ge. lia. Qed.
Lemma take_app_step (c k : list Z) :
  (length c < N)%nat -> c ++ take (N - length c) k = take N (c ++ k).
Proof. intros. rewrite take_app, (take_ge c) by lia. reflexivity. Qed.

Lemma poly_uniform_loop_spec fuel c buf st :
  (length buf mod 3 = 0)%nat ->
  poly_uniform_loop fuel (take N c) buf st
  = first256 (c ++ uniform_candidates (blocks128 fuel st)).
Proof.
  revert c buf st. induction fuel as [|fuel IH]; intros c buf st Hm; cbn [poly_uniform_loop blocks128];
    rewrite length_take; unfold first256;
    destruct (Nat.ltb_spec (N `min` length c) N); try (rewrite length_app;
      replace (N <=? _)%nat with true by (symmetry; apply Nat.leb_le; lia);
      rewrite take_app_le by lia; reflexivity).
  - cbn [uniform_candidates]. rewrite app_nil_r.
    replace (N <=? length c)%nat with false by (symmetry; apply Nat.leb_gt; lia). reflexivity.
  - rewrite Hm, Nat.sub_0_r, drop_all. cbn [app].
    destruct (stream128_squeezeblocks 1 st) as [blk st'] eqn:E.
    assert (length blk = 168%nat) as Hlen.
    { pose proof (squeeze128_len (1 * SHAKE128_RATE) st) as HL. unfold stream128_squeezeblocks in E.
      rewrite E in HL. exact HL. }
    assert (bytes_ok blk) as Hby.
    { pose proof (squeeze128_bytes (1 * SHAKE128_RATE) st) as HL. unfold stream128_squeezeblocks in E.
      rewrite E in HL. exact HL. }
    rewrite Nat.min_r by lia. rewrite take_short, rej_uniform_take, take_app_step by (assumption || lia).
    rewrite IH by (rewrite Hlen; reflexivity).
    rewrite uniform_candidates_app, app_assoc by (rewrite Hlen; reflexivity). reflexivity.
Qed.

Lemma poly_uniform_eq fuel seed nonce :
  poly_uniform fuel seed nonce = first256 (uniform_candidates (uniform_stream fuel seed nonce)).
Proof.
  unfold poly_uniform, uniform_stream.
  pose proof (squeeze128_len (POLY_UNIFORM_NBLOCKS * SHAKE128_RATE) (stream128_init seed nonce)) as HL.
  pose proof (squeeze128_bytes (POLY_UNIFORM_NBLOCKS * SHAKE128_RATE) (stream128_init seed nonce)) as HB.
  unfold stream128_squeezeblocks. destruct (shake128_inc_squeeze _ _) as [buf st]. cbn [fst] in *.
  assert (length buf mod 3 = 0)%nat as Hm by (rewrite HL; reflexivity).
  rewrite rej_uniform_take by exact HB. rewrite (poly_uniform_loop_spec fuel _ buf st Hm).
  rewrite uniform_candidates_app by exact Hm. reflexivity.
Qed.

Lemma poly_uniform_eta_loop_spec fuel c st :
  poly_uniform_eta_loop fuel (take N c) st = first256 (c ++ eta_candidates (blocks256 fuel st)).
Proof.
  revert c st. induction fuel as [|fuel IH]; intros c st; cbn [poly_uniform_eta_loop blocks256];
    rewrite length_take; unfold first256;
    destruct (Nat.ltb_spec (N `min` length c) N); try (rewrite length_app;
      replace (N <=? _)%nat with true by (symmetry; apply Nat.leb_le; lia);
      rewrite take_app_le by lia; reflexivity).
  - change (eta_candidates []) with (@nil Z). rewrite app_nil_r.
    replace (N <=? length c)%nat with false by (symmetry; apply Nat.leb_gt; lia). reflexivity.
  - destruct (stream256_squeezeblocks 1 st) as [blk st'] eqn:E.
    assert (bytes_ok blk) as Hby.
    { pose proof (squeeze256_bytes (1 * SHAKE256_RATE) st) as HL. unfold stream256_squeezeblocks in E.
      rewrite E in HL. exact HL. }
    rewrite Nat.min_r by lia. rewrite take_short, rej_eta_take, take_app_step by (assumption || lia).
    rewrite IH, eta_candidates_app, app_assoc. reflexivity.
Qed.

Lemma poly_uniform_eta_eq fuel seed nonce :
  poly_uniform_eta fuel seed nonce = first256 (eta_candidates (eta_stream fuel seed nonce)).
Proof.
  unfold poly_uniform_eta, eta_stream.
  pose proof (squeeze256_bytes (POLY_UNIFORM_ETA_NBLOCKS * SHAKE256_RATE) (stream256_init seed nonce)) as HB.
  unfold stream256_squeezeblocks. destruct (shake256_inc_squeeze _ _) as [buf st]. cbn [fst] in *.
  rewrite rej_eta_take by exact HB. rewrite poly_uniform_eta_loop_spec, eta_candidates_app. reflexivity.
Qed.
End uniform.

Lemma first256_Some c a : first256 c = Some a -> (N <= length c)%nat /\ a = take N c.
Proof.
  unfold first256. destruct (Nat.leb_spec N (length c)); intros [= <-]. auto.
Qed.
Lemma first256_range lo hi c a :
  Forall (fun v => lo <= v <= hi) c -> first256 c = Some a -> coeffs_in lo hi a.
Proof.
  intros Hc Ha. apply first256_Some in Ha as [Hn ->]. unfold N in *.
  assert (length (take 256 c) = 256%nat) as Hl by (rewrite length_take; lia).
  split; [exact Hl|]. intros i Hi. destruct (lookup_lt_is_Some_2 (take 256 c) i) as [v Hv]; [lia|].
  rewrite (list_lookup_total_correct _ _ _ Hv).
  apply (Forall_lookup_1 _ _ _ _ (Forall_take _ 256 _ Hc) Hv).
Qed.
Lemma first256_app c k a : first256 c = Some a -> first256 (c ++ k) = Some a.
Proof.
  intros Ha. apply first256_Some in Ha as [Hn ->]. unfold first256.
  rewrite length_app. replace (N <=? _)%nat with true by (symmetry; apply Nat.leb_le; lia).
  rewrite take_app_le by exact Hn. reflexivity.
Qed.

Section sampled.
Context `{HS : ShakeLaws}.

Lemma squeeze128_block_ok n st blk st' :
  stream128_squeezeblocks n st = (blk, st') -> length blk = (n * 168)%nat /\ bytes_ok blk.
Proof.
  unfold stream128_squeezeblocks. intros E.
  pose proof (squeeze128_len (n * SHAKE128_RATE) st) as HL.
  pose proof (squeeze128_bytes (n * SHAKE128_RATE) st) as HB. rewrite E in HL, HB. auto.
Qed.
Lemma squeeze256_block_ok n st blk st' :
  stream256_squeezeblocks n st = (blk, st') -> length blk = (n * 136)%nat /\ bytes_ok blk.
Proof.
  unfold stream256_squeezeblocks. intros E.
  pose proof (squeeze256_len (n * SHAKE256_RATE) st) as HL.
  pose proof (squeeze256_bytes (n * SHAKE256_RATE) st) as HB. rewrite E in HL, HB. auto.
Qed.

Lemma blocks256_bytes fuel st : bytes_ok (blocks256 fuel st).
Proof.
  revert st. induction fuel as [|fuel IH]; intros st; cbn [blocks256]; [constructor|].
  destruct (stream256_squeezeblocks 1 st) as [blk st'] eqn:E.
  apply Forall_app. split; [apply (squeeze256_block_ok _ _ _ _ E)|apply IH].
Qed.
Lemma eta_stream_bytes fuel seed nonce : bytes_ok (eta_stream fuel seed nonce).
Proof.
  unfold eta_stream. destruct (stream256_squeezeblocks _ _) as [blk st'] eqn:E.
  apply Forall_app. split; [apply (squeeze256_block_ok _ _ _ _ E)|apply blocks256_bytes].
Qed.

Lemma poly_uniform_range fuel seed nonce a :
  poly_uniform fuel seed nonce = Some a -> coeffs_in 0 (Q - 1) a.
Proof. rewrite poly_uniform_eq. apply first256_range, uniform_candidates_range. Qed.
Lemma poly_uniform_eta_range fuel seed nonce a :
  poly_uniform_eta fuel seed nonce = Some a -> coeffs_in (- ETA) ETA a.
Proof. rewrite poly_uniform_eta_eq. apply first256_range, eta_candidates_range, eta_stream_bytes. Qed.

Lemma poly_uniform_gamma1_range seed nonce :
  coeffs_in (- (GAMMA1 - 1)) GAMMA1 (poly_uniform_gamma1 seed nonce).
Proof.
  unfold poly_uniform_gamma1. destruct (stream256_squeezeblocks _ _) as [buf st] eqn:E.
  destruct (squeeze256_block_ok _ _ _ _ E) as [Hl Hb].
  split; [apply (unpack_with_len 2 5 128); reflexivity|].
  intros i Hi. replace (polyz_unpack buf) with (polyz_unpack (take 640 buf)).
  - apply polyz_unpack_range; [|apply Forall_take, Hb|exact Hi].
    rewrite length_take, Hl. reflexivity.
  - apply (list_eq_chunks 2 128); try (apply (unpack_with_len 2 5 128); reflexivity).
    intros g j Hg Hj. unfold polyz_unpack.
    rewrite !lookup_fill_chunks by (try reflexivity; assumption). f_equal. f_equal.
    apply z_fields_ext. intros k Hk. rewrite lookup_total_take, decide_True by lia. reflexivity.
Qed.
End sampled.

(** the uniform samplers.  [poly_uniform] (matrix entries) returns within a
    fuel exactly when the SHAKE128 stream of that many extra blocks has 256
    acceptable candidates (23-bit values below Q), and then returns the first
    256; likewise [poly_uniform_eta] (secret vectors) with the nibbles below 9
    of the SHAKE256 stream, mapped to [-ETA, ETA].  No candidate is lost or
    read twice across block boundaries. *)
Theorem uniform_samplers_exact `{ShakeLaws} (fuel : nat) (seed : list Z) (nonce : Z) :
  poly_uniform fuel seed nonce = first256 (uniform_candidates (uniform_stream fuel seed nonce)) /\
  poly_uniform_eta fuel seed nonce = first256 (eta_candidates (eta_stream fuel seed nonce)).
Proof. split; [apply poly_uniform_eq|apply poly_uniform_eta_eq]. Qed.
Lemma uniform_samplers_exact_witness :
  let S := constant_shake 17 in
  poly_uniform 0 [] 0 = first256 (uniform_candidates (uniform_stream 0 [] 0)) /\
  poly_uniform_eta 0 [] 0 = first256 (eta_candidates (eta_stream 0 [] 0)).
Proof.
  apply (@uniform_samplers_exact (constant_shake 17)).
  apply constant_shake_laws. unfold is_u8. lia.
Defined.

(** ** The challenge *)

(** Replacing one element changes a sum over the array by one term. *)
Lemma zsum_insert (f : Z -> Z) n (c : list Z) i v :
  (i < n)%nat -> (i < length c)%nat ->
  zsum (fun j => f (<[i := v]> c !!! j)) n = zsum (fun j => f (c !!! j)) n - f (c !!! i) + f v.
Proof.
  intros Hi Hc. induction n as [|n IH]; [lia|]. cbn [zsum].
  destruct (decide (i = n)) as [->|Hne].
  - rewrite lookup_total_insert_eq by exact Hc.
    rewrite (zsum_ext _ (fun j => f (c !!! j))); [ring|].
    intros j Hj. rewrite lookup_total_insert_ne by lia. reflexivity.
  - rewrite lookup_total_insert_ne by exact Hne. rewrite IH by lia. ring.
Qed.

Definition nonzero (v : Z) : Z := if v =? 0 then 0 else 1.
(** The number of nonzero coefficients. *)
Definition weight (c : poly) : Z := zsum (fun j => nonzero (c !!! j)) 256.

Lemma challenge_sign signs :
  let v := i32 (u64 (1 - u64 (2 * Z.land signs 1))) in v = 1 \/ v = -1.
Proof.
  cbv zeta. replace (Z.land signs 1) with (signs mod 2)
    by (symmetry; exact (land_ones_mod signs 1 ltac:(lia))).
  destruct (Z.mod_pos_bound signs 2 ltac:(lia)).
  assert (signs mod 2 = 0 \/ signs mod 2 = 1) as [-> | ->] by lia; [left|right]; reflexivity.
Qed.

Section challenge.
Context `{HS : ShakeLaws}.

Lemma challenge_draw_range fuel i s b s' :
  bytes_ok (draw_buf s) -> challenge_draw fuel i s = Some (b, s') ->
  0 <= b <= i /\ bytes_ok (draw_buf s').
Proof.
  revert s. induction fuel as [|fuel IH]; intros s Hs; cbn [challenge_draw]; [discriminate|].
  set (s1 := if (SHAKE256_RATE <=? draw_pos s)%nat then _ else s).
  assert (bytes_ok (draw_buf s1)) as H1.
  { subst s1. destruct (_ <=? _)%nat; [|exact Hs].
    pose proof (squeeze256_bytes SHAKE256_RATE (draw_ctx s)) as HB.
    destruct (shake256_inc_squeeze _ _). exact HB. }
  cbv zeta. pose proof (bytes_ok_lookup _ (draw_pos s1) H1) as Hb. unfold is_u8 in Hb.
  destruct (Z.gtb_spec (draw_buf s1 !!! draw_pos s1) i).
  - apply IH. exact H1.
  - intros [= <- <-]. split; [lia|exact H1].
Qed.

Lemma challenge_loop_spec fuel n i c signs s r :
  (i + n = 256)%nat -> coeffs_in (-1) 1 c -> bytes_ok (draw_buf s) ->
  (forall j, (i <= j < 256)%nat -> c !!! j = 0) ->
  challenge_loop fuel n i c signs s = Some r ->
  coeffs_in (-1) 1 r /\ weight r = weight c + Z.of_nat n.
Proof.
  revert i c signs s. induction n as [|n IH]; intros i c signs s Hin [Hl Hc] Hs H0; cbn [challenge_loop].
  - intros [= <-]. split; [split; assumption|lia].
  - destruct (challenge_draw _ _ _) as [[b s']|] eqn:E; [|discriminate].
    destruct (challenge_draw_range _ _ _ _ _ Hs E) as [Hb Hs'].
    pose proof (challenge_sign signs) as Hv. cbv zeta in Hv.
    set (v := i32 (u64 _)) in *. set (bn := Z.to_nat b).
    assert (bn <= i)%nat as Hbn by (subst bn; lia).
    set (c1 := <[i := c !!! bn]> c). intros Hr. apply IH in Hr as [Hr1 Hr2]; [|lia|..].
    + split; [exact Hr1|]. rewrite Hr2. unfold weight.
      rewrite (zsum_insert nonzero) by (subst c1; rewrite ?length_insert; lia).
      subst c1. rewrite (zsum_insert nonzero) by lia. rewrite (H0 i) by lia.
      replace (nonzero v) with 1 by (destruct Hv as [-> | ->]; reflexivity).
      replace (<[i := c !!! bn]> c !!! bn) with (c !!! bn); [change (nonzero 0) with 0; lia|].
      destruct (decide (bn = i)) as [->|]; [rewrite lookup_total_insert_eq by lia; reflexivity|].
      rewrite lookup_total_insert_ne by lia. reflexivity.
    + split; [subst c1; rewrite !length_insert; exact Hl|]. intros j Hj.
      destruct (decide (j = bn)) as [->|]; [rewrite lookup_total_insert_eq by
        (subst c1; rewrite length_insert; lia); lia|].
      rewrite lookup_total_insert_ne by lia. subst c1.
      destruct (decide (j = i)) as [->|]; [rewrite lookup_total_insert_eq by lia; apply Hc; lia|].
      rewrite lookup_total_insert_ne by lia. apply Hc, Hj.
    + exact Hs'.
    + intros j Hj. rewrite lookup_total_insert_ne by lia. subst c1.
      rewrite lookup_total_insert_ne by lia. apply H0. lia.
Qed.

Lemma poly_challenge_range fuel seed c :
  poly_challenge fuel seed = Some c -> coeffs_in (-1) 1 c /\ weight c = Z.of_nat TAU.
Proof.
  unfold poly_challenge.
  set (st0 := shake256_inc_finalize _). pose proof (squeeze256_bytes SHAKE256_RATE st0) as HB.
  destruct (shake256_inc_squeeze SHAKE256_RATE st0) as [buf st]. intros E.
  assert (forall j, (j < 256)%nat -> fill N (fun _ => 0) !!! j = 0) as H0
    by (intros j Hj; apply (lookup_total_fill N (fun _ => 0) j Hj)).
  apply challenge_loop_spec in E; [exact E|reflexivity| |exact HB|intros j Hj; apply H0; lia].
  split; [apply length_fill|]. intros j Hj. rewrite H0 by exact Hj. lia.
Qed.
End challenge.

(** the challenge polynomial has exactly TAU = 49 nonzero coefficients, all
    of them 1 or -1, whatever the hash stream. *)
Theorem poly_challenge_weight `{ShakeLaws} (fuel : nat) (seed c : list Z)
  (Hc : poly_challenge fuel seed = Some c) :
  length c = N /\ weight c = Z.of_nat TAU /\ forall j, (j < N)%nat -> -1 <= c !!! j <= 1.
Proof.
  destruct (poly_challenge_range fuel seed c Hc) as [[Hl Hr] Hw]. split; [exact Hl|].
  split; [exact Hw|exact Hr].
Qed.
Lemma poly_challenge_weight_witness :
  exists c, @poly_challenge (constant_shake 200) 1 [] = Some c /\
  length c = N /\ weight c = Z.of_nat TAU /\ forall j, (j < N)%nat -> -1 <= c !!! j <= 1.
Proof.
  eexists. split; [vm_compute; reflexivity|].
  apply (@poly_challenge_weight (constant_shake 200) (constant_shake_laws 200 ltac:(unfold is_u8; lia)) 1 []).
  vm_compute. reflexivity.
Defined.
