(* ===== verification/MlDsaVec.v ===== *)
(** * ML-DSA-65: vectors and matrices of polynomials

    [polyvec.c] of [src/pqcrypto/ml-dsa-65].  A [polyvecl] is a list of L
    polynomials, a [polyveck] a list of K, the matrix a list of K
    [polyvecl].  Every routine applies its polynomial routine to each
    component.  Proved here: how the pipeline (transform, multiply, add,
    transform back) acts on values at the roots, with the coefficient bounds
    that keep it inside [int32_t]. *)

From S2P Require Import Prelude MlDsaReduce MlDsaNtt MlDsaPoly Shake MlDsaSample.

Local Open Scope Z_scope.

Abbreviation polyvecl := (list (list Z)) (only parsing).
Abbreviation polyveck := (list (list Z)) (only parsing).

Section expand.
Context `{S : ShakeOps}.

Definition polyvec_matrix_expand (fuel : nat) (rho : list Z) : option (list polyvecl) :=
  mapM (fun i => mapM (fun j =>
    poly_uniform fuel rho (u16 (Z.shiftl (Z.of_nat i) 8 + Z.of_nat j))) (seq 0 L)) (seq 0 K).

Definition polyvecl_uniform_eta (fuel : nat) (seed : list Z) (nonce : Z) : option polyvecl :=
  mapM (fun i => poly_uniform_eta fuel seed (u16 (nonce + Z.of_nat i))) (seq 0 L).
Definition polyveck_uniform_eta (fuel : nat) (seed : list Z) (nonce : Z) : option polyveck :=
  mapM (fun i => poly_uniform_eta fuel seed (u16 (nonce + Z.of_nat i))) (seq 0 K).
Definition polyvecl_uniform_gamma1 (seed : list Z) (nonce : Z) : polyvecl :=
  fill L (fun i => poly_uniform_gamma1 seed (u16 (Z.of_nat L * nonce + Z.of_nat i))).
End expand.

Definition polyvecl_reduce (v : polyvecl) : polyvecl := fill L (fun i => poly_reduce (v !!! i)).
Definition polyvecl_add (u v : polyvecl) : polyvecl := fill L (fun i => poly_add (u !!! i) (v !!! i)).
Definition polyvecl_ntt (v : polyvecl) : polyvecl := fill L (fun i => poly_ntt (v !!! i)).
Definition polyvecl_invntt_tomont (v : polyvecl) : polyvecl :=
  fill L (fun i => poly_invntt_tomont (v !!! i)).
Definition polyvecl_pointwise_poly_montgomery (a : poly) (v : polyvecl) : polyvecl :=
  fill L (fun i => poly_pointwise_montgomery a (v !!! i)).
Definition polyvecl_pointwise_acc_montgomery (u v : polyvecl) : poly :=
  for_loop (L - 1) 1 (fun i w =>
    let t := poly_pointwise_montgomery (u !!! i) (v !!! i) in
    poly_add w t) (poly_pointwise_montgomery (u !!! 0%nat) (v !!! 0%nat)).
(** [for (i = 0; i < n; ++i) if (poly_chknorm(&v->vec[i], bound)) return 1;] *)
Fixpoint chknorm_vec (v : list poly) (bound : Z) : Z :=
  match v with
  | [] => 0
  | a :: v => if poly_chknorm a bound =? 0 then chknorm_vec v bound else 1
  end.
Definition polyvecl_chknorm (v : polyvecl) (bound : Z) : Z := chknorm_vec v bound.

Definition polyvec_matrix_pointwise_montgomery (mat : list polyvecl) (v : polyvecl) : polyveck :=
  fill K (fun i => polyvecl_pointwise_acc_montgomery (mat !!! i) v).

Definition polyveck_reduce (v : polyveck) : polyveck := fill K (fun i => poly_reduce (v !!! i)).
Definition polyveck_caddq (v : polyveck) : polyveck := fill K (fun i => poly_caddq (v !!! i)).
Definition polyveck_add (u v : polyveck) : polyveck := fill K (fun i => poly_add (u !!! i) (v !!! i)).
Definition polyveck_sub (u v : polyveck) : polyveck := fill K (fun i => poly_sub (u !!! i) (v !!! i)).
Definition polyveck_shiftl (v : polyveck) : polyveck := fill K (fun i => poly_shiftl (v !!! i)).
Definition polyveck_ntt (v : polyveck) : polyveck := fill K (fun i => poly_ntt (v !!! i)).
Definition polyveck_invntt_tomont (v : polyveck) : polyveck :=
  fill K (fun i => poly_invntt_tomont (v !!! i)).
Definition polyveck_pointwise_poly_montgomery (a : poly) (v : polyveck) : polyveck :=
  fill K (fun i => poly_pointwise_montgomery a (v !!! i)).
Definition polyveck_chknorm (v : polyveck) (bound : Z) : Z := chknorm_vec v bound.
Definition polyveck_power2round (v : polyveck) : polyveck * polyveck :=
  (fill K (fun i => fst (poly_power2round (v !!! i))), fill K (fun i => snd (poly_power2round (v !!! i)))).
Definition polyveck_decompose (v : polyveck) : polyveck * polyveck :=
  (fill K (fun i => fst (poly_decompose (v !!! i))), fill K (fun i => snd (poly_decompose (v !!! i)))).
Definition polyveck_make_hint (v0 v1 : polyveck) : polyveck * Z :=
  (fill K (fun i => fst (poly_make_hint (v0 !!! i) (v1 !!! i))),
   for_loop K 0 (fun i s => u32 (s + snd (poly_make_hint (v0 !!! i) (v1 !!! i)))) 0).
Definition polyveck_use_hint (v h : polyveck) : polyveck :=
  fill K (fun i => poly_use_hint (v !!! i) (h !!! i)).
Definition polyveck_pack_w1 (w1 : polyveck) : list Z :=
  fill_chunks K (fun i => polyw1_pack (w1 !!! i)).

(** ** Vectors *)

(** [n] polynomials with coefficients of absolute value at most [B]. *)
Definition vec_ok (n : nat) (B : Z) (v : list poly) : Prop :=
  length v = n /\ forall i, (i < n)%nat -> coeffs_ok B (v !!! i).
(** [n] polynomials with coefficients between [lo] and [hi]. *)
Definition vec_in (n : nat) (lo hi : Z) (v : list poly) : Prop :=
  length v = n /\ forall i, (i < n)%nat -> coeffs_in lo hi (v !!! i).

Lemma coeffs_in_ok lo hi B a : coeffs_in lo hi a -> - B <= lo -> hi <= B -> coeffs_ok B a.
Proof. intros [Hl Ha] H1 H2. split; [exact Hl|]. intros i Hi. specialize (Ha i Hi). lia. Qed.
Lemma vec_in_ok n lo hi B v : vec_in n lo hi v -> - B <= lo -> hi <= B -> vec_ok n B v.
Proof.
  intros [Hl Hv] H1 H2. split; [exact Hl|]. intros i Hi.
  apply (coeffs_in_ok lo hi); [apply Hv, Hi|assumption..].
Qed.
Lemma vec_ok_mono n B B' v : B <= B' -> vec_ok n B v -> vec_ok n B' v.
Proof.
  intros HB [Hl Hv]. split; [exact Hl|]. intros i Hi. apply (coeffs_ok_mono B B' _ HB), Hv, Hi.
Qed.
Lemma vec_ok_fill n B f : (forall i, (i < n)%nat -> coeffs_ok B (f i)) -> vec_ok n B (fill n f).
Proof.
  intros H. split; [apply length_fill|]. intros i Hi. rewrite lookup_total_fill by exact Hi.
  apply H, Hi.
Qed.

Lemma mapM_seq_Some {A} (f : nat -> option A) n v :
  mapM f (seq 0 n) = Some v ->
  length v = n /\ forall i x, v !! i = Some x -> f i = Some x.
Proof.
  intros H. apply mapM_Some_1 in H. pose proof (Forall2_length _ _ _ H) as Hl.
  rewrite length_seq in Hl. split; [symmetry; exact Hl|]. intros i x Hx.
  destruct (Forall2_lookup_r _ _ _ _ _ H Hx) as (k & Hk & E).
  apply lookup_seq in Hk as [-> _]. exact E.
Qed.
Lemma mapM_seq_vec_in (f : nat -> option poly) n v lo hi :
  (forall i a, f i = Some a -> coeffs_in lo hi a) -> mapM f (seq 0 n) = Some v -> vec_in n lo hi v.
Proof.
  intros Hf H. apply mapM_seq_Some in H as [Hl H]. split; [exact Hl|]. intros i Hi.
  destruct (lookup_lt_is_Some_2 v i) as [x Hx]; [lia|].
  rewrite (list_lookup_total_correct _ _ _ Hx). apply (Hf i), H, Hx.
Qed.

Section expanded.
Context `{HS : ShakeLaws}.
Lemma polyvecl_uniform_eta_range fuel seed nonce v :
  polyvecl_uniform_eta fuel seed nonce = Some v -> vec_in L (- ETA) ETA v.
Proof. apply mapM_seq_vec_in. intros i a. apply poly_uniform_eta_range. Qed.
Lemma polyveck_uniform_eta_range fuel seed nonce v :
  polyveck_uniform_eta fuel seed nonce = Some v -> vec_in K (- ETA) ETA v.
Proof. apply mapM_seq_vec_in. intros i a. apply poly_uniform_eta_range. Qed.
Lemma polyvecl_uniform_gamma1_range seed nonce :
  vec_in L (- (GAMMA1 - 1)) GAMMA1 (polyvecl_uniform_gamma1 seed nonce).
Proof.
  split; [apply length_fill|]. intros i Hi. unfold polyvecl_uniform_gamma1.
  rewrite lookup_total_fill by exact Hi. apply poly_uniform_gamma1_range.
Qed.
(** The expanded matrix: K rows of L polynomials in the transform domain. *)
Definition mat_ok (mat : list polyvecl) : Prop :=
  forall i j, (i < K)%nat -> (j < L)%nat -> coeffs_ok Q ((mat !!! i) !!! j).
Lemma matrix_expand_ok fuel rho mat : polyvec_matrix_expand fuel rho = Some mat -> mat_ok mat.
Proof.
  intros HM. apply mapM_seq_Some in HM as [Hl HM]. intros i j Hi Hj.
  destruct (lookup_lt_is_Some_2 mat i) as [row Hrow]; [lia|].
  rewrite (list_lookup_total_correct _ _ _ Hrow). specialize (HM i row Hrow).
  apply (mapM_seq_vec_in _ _ _ 0 (Q - 1)) in HM.
  - apply (coeffs_in_ok 0 (Q - 1)); [apply HM, Hj|unfold Q; lia..].
  - intros k a. apply poly_uniform_range.
Qed.
End expanded.

(** ** Matrix-vector products on values *)

(** The value at the [x]-th root of row [i] of [mat] times the vector whose
    components have the values [v j x]. *)
Definition row_val (mat : list polyvecl) (v : nat -> nat -> Z) (i x : nat) : Z :=
  zsum (fun j => ((mat !!! i) !!! j) !!! x * v j x) L.

Lemma pointwise_acc_spec B u v :
  (forall j, (j < L)%nat -> coeffs_ok Q (u !!! j)) -> vec_ok L B v -> 0 <= B < 2147483648 ->
  coeffs_ok (5 * (Q - 1)) (polyvecl_pointwise_acc_montgomery u v) /\
  forall x, (x < 256)%nat ->
    polyvecl_pointwise_acc_montgomery u v !!! x * 4294967296
    =[Q]= zsum (fun j => (u !!! j) !!! x * (v !!! j) !!! x) L.
Proof.
  intros Hu [_ Hv] HB. unfold polyvecl_pointwise_acc_montgomery.
  set (P := fun (m : nat) (w : poly) =>
    (m <= 5)%nat /\ coeffs_ok (Z.of_nat m * (Q - 1)) w /\ forall x, (x < 256)%nat ->
      w !!! x * 4294967296 =[Q]= zsum (fun j => (u !!! j) !!! x * (v !!! j) !!! x) m).
  assert (forall j, (j < 5)%nat ->
    coeffs_ok (Q - 1) (poly_pointwise_montgomery (u !!! j) (v !!! j)) /\
    forall x, (x < 256)%nat -> poly_pointwise_montgomery (u !!! j) (v !!! j) !!! x * 4294967296
      =[Q]= (u !!! j) !!! x * (v !!! j) !!! x) as Hp.
  { intros j Hj. assert (Q * B < 2147483648 * Q) as HQ by (unfold Q; lia). split.
    - apply (pointwise_ok Q B); try lia; [apply Hu, Hj|apply Hv, Hj|unfold Q; lia].
    - intros x Hx. apply (lookup_pointwise Q B); try lia; [apply Hu, Hj|apply Hv, Hj|unfold Q; lia]. }
  match goal with |- context [for_loop (L - 1) 1 ?F ?s] =>
    assert (P (1 + (L - 1))%nat (for_loop (L - 1) 1 F s)) as HP end.
  - apply (for_loop_inv P).
    + destruct (Hp 0%nat ltac:(lia)) as [H1 H2]. split; [lia|]. split.
      * rewrite Z.mul_1_l. exact H1.
      * intros x Hx. rewrite (H2 x Hx). apply cong_refl_eq. cbn [zsum]. lia.
    + intros m w Hm (_ & H1 & H2). unfold L in Hm. destruct (Hp m ltac:(lia)) as [H3 H4].
      assert (Z.of_nat m * (Q - 1) + (Q - 1) <= 2147483647) as Hs by (unfold Q; lia).
      split; [lia|]. split.
      * replace (Z.of_nat (S m) * (Q - 1)) with (Z.of_nat m * (Q - 1) + (Q - 1)) by lia.
        apply add_ok; assumption.
      * intros x Hx. rewrite (lookup_add _ _ _ _ x H1 H3 Hs Hx).
        rewrite Z.mul_add_distr_r, (H2 x Hx), (H4 x Hx). reflexivity.
  - destruct HP as (_ & H1 & H2). split; [exact H1|exact H2].
Qed.

(** [A * NTT(v)], reduced and transformed back. *)
Lemma matrix_vector_spec mat B v i :
  mat_ok mat -> vec_ok L B v -> 0 <= B <= 2147483647 - 8 * Q -> (i < K)%nat ->
  let w := polyveck_invntt_tomont (polyveck_reduce
             (polyvec_matrix_pointwise_montgomery mat (polyvecl_ntt v))) in
  coeffs_ok 4211200 (w !!! i) /\
  forall x, (x < 256)%nat -> val (w !!! i) x =[Q]= row_val mat (fun j => val (v !!! j)) i x.
Proof.
  intros Hm [Hl Hv] HB Hi. cbv zeta.
  unfold polyveck_invntt_tomont, polyveck_reduce, polyvec_matrix_pointwise_montgomery.
  rewrite !lookup_total_fill by exact Hi.
  assert (vec_ok L (B + 8 * Q) (polyvecl_ntt v)) as HN.
  { apply vec_ok_fill. intros j Hj. apply ntt_ok; [apply Hv, Hj|exact HB]. }
  destruct (pointwise_acc_spec (B + 8 * Q) (mat !!! i) (polyvecl_ntt v)) as [H1 H2];
    [intros j Hj; apply Hm; assumption|exact HN|unfold Q in *; lia|].
  set (acc := polyvecl_pointwise_acc_montgomery _ _) in *.
  assert (5 * (Q - 1) <= 2143289343) as H5 by (unfold Q; lia).
  destruct (val_invntt (poly_reduce acc)) as [H3 H4].
  { apply (coeffs_ok_mono 6283009); [unfold Q; lia|]. apply (reduce_ok (5 * (Q - 1))); assumption. }
  split; [exact H3|]. intros x Hx. rewrite (H4 x Hx).
  rewrite (lookup_reduce _ acc x H1 H5 Hx), (H2 x Hx). apply zsum_cong. intros j Hj.
  unfold polyvecl_ntt. rewrite lookup_total_fill by exact Hj.
  rewrite (val_ntt B _ x (Hv j Hj) HB Hx). reflexivity.
Qed.

Lemma row_val_cong mat v v' i x :
  (forall j, (j < L)%nat -> v j x =[Q]= v' j x) -> row_val mat v i x =[Q]= row_val mat v' i x.
Proof. intros H. apply zsum_cong. intros j Hj. rewrite (H j Hj). reflexivity. Qed.
Lemma row_val_lin mat c u v i x :
  row_val mat (fun j x => c * u j x + v j x) i x = c * row_val mat u i x + row_val mat v i x.
Proof.
  unfold row_val. rewrite <- zsum_mul_l, <- zsum_add. apply zsum_ext. intros. ring.
Qed.

(** ** The norm check of a vector *)
Lemma chknorm_vec_0 n v B :
  vec_ok n 1073741823 v -> B <= 1047552 -> chknorm_vec v B = 0 <-> vec_ok n (B - 1) v.
Proof.
  intros [Hl Hv] HB.
  assert (Forall (fun a => poly_chknorm a B = 0 <-> coeffs_ok (B - 1) a) v) as HF.
  { apply Forall_lookup_2. intros i a Ha. apply poly_chknorm_0; [|exact HB].
    rewrite <- (list_lookup_total_correct _ _ _ Ha). apply Hv.
    rewrite <- Hl. apply (lookup_lt_Some _ _ _ Ha). }
  transitivity (Forall (coeffs_ok (B - 1)) v).
  - clear Hl Hv. induction HF as [|a v Ha HF IH]; cbn [chknorm_vec]; [split; [constructor|reflexivity]|].
    rewrite Forall_cons, <- IH. destruct (Z.eqb_spec (poly_chknorm a B) 0); split; intros; try lia; tauto.
  - split; intros H.
    + split; [exact Hl|]. intros i Hi. destruct (lookup_lt_is_Some_2 v i) as [a Ha]; [lia|].
      rewrite (list_lookup_total_correct _ _ _ Ha). apply (Forall_lookup_1 _ _ _ _ H Ha).
    + apply Forall_lookup_2. intros i a Ha. rewrite <- (list_lookup_total_correct _ _ _ Ha).
      apply H. rewrite <- Hl. apply (lookup_lt_Some _ _ _ Ha).
Qed.
