(* ===== verification/MlDsaPack.v ===== *)
(** * ML-DSA-65: key and signature encoding

    [packing.c] of [src/pqcrypto/ml-dsa-65].  A pointer [p + off] into a byte
    array that a routine reads [len] bytes from is [slice off len p].
    Proved: keys and signatures survive packing and unpacking, and a byte
    string that [unpack_sig] accepts is the packing of what it returns: the
    encoding of a signature is unique, which is what the ordering and
    zero-padding checks are for. *)

From stdpp Require Import sorting.
From S2P Require Import Prelude MlDsaReduce MlDsaNtt MlDsaPoly Shake MlDsaSample MlDsaVec.

Local Open Scope Z_scope.

Definition slice (off len : nat) (l : list Z) : list Z := take len (drop off l).

(** ** Keys *)

Definition pack_pk (rho : list Z) (t1 : polyveck) : list Z :=
  fill SEEDBYTES (fun i => rho !!! i) ++ fill_chunks K (fun i => polyt1_pack (t1 !!! i)).

Definition unpack_pk (pk : list Z) : list Z * polyveck :=
  (slice 0 SEEDBYTES pk,
   fill K (fun i => polyt1_unpack (slice (SEEDBYTES + i * POLYT1_PACKEDBYTES) POLYT1_PACKEDBYTES pk))).

Definition pack_sk (rho tr key : list Z) (t0 : polyveck) (s1 : polyvecl) (s2 : polyveck) : list Z :=
  fill SEEDBYTES (fun i => rho !!! i) ++ fill SEEDBYTES (fun i => key !!! i)
  ++ fill TRBYTES (fun i => tr !!! i)
  ++ fill_chunks L (fun i => polyeta_pack (s1 !!! i))
  ++ fill_chunks K (fun i => polyeta_pack (s2 !!! i))
  ++ fill_chunks K (fun i => polyt0_pack (t0 !!! i)).

(** The components in the order of the C parameters: rho, tr, key, t0, s1, s2. *)
Definition unpack_sk (sk : list Z) : list Z * list Z * list Z * polyveck * polyvecl * polyveck :=
  let rho := slice 0 SEEDBYTES sk in
  let sk := drop SEEDBYTES sk in
  let key := slice 0 SEEDBYTES sk in
  let sk := drop SEEDBYTES sk in
  let tr := slice 0 TRBYTES sk in
  let sk := drop TRBYTES sk in
  let s1 := fill L (fun i => polyeta_unpack (slice (i * POLYETA_PACKEDBYTES) POLYETA_PACKEDBYTES sk)) in
  let sk := drop (L * POLYETA_PACKEDBYTES) sk in
  let s2 := fill K (fun i => polyeta_unpack (slice (i * POLYETA_PACKEDBYTES) POLYETA_PACKEDBYTES sk)) in
  let sk := drop (K * POLYETA_PACKEDBYTES) sk in
  let t0 := fill K (fun i => polyt0_unpack (slice (i * POLYT0_PACKEDBYTES) POLYT0_PACKEDBYTES sk)) in
  (rho, tr, key, t0, s1, s2).

(** ** Signatures *)

(** The inner loop of the hint encoder on row [a]: [sig[k++] = j] for every
    nonzero coefficient. *)
Definition encode_row (a : poly) (st : nat * list Z) : nat * list Z :=
  for_loop N 0 (fun j '(k, s) =>
    if a !!! j =? 0 then (k, s) else (S k, <[k := u8 (Z.of_nat j)]> s)) st.
Definition encode_h (h : polyveck) : list Z :=
  snd (for_loop K 0 (fun i st =>
    let '(k, s) := encode_row (h !!! i) st in
    (k, <[(OMEGA + i)%nat := u8 (Z.of_nat k)]> s)) (0%nat, fill (OMEGA + K) (fun _ => 0))).

Definition pack_sig (c : list Z) (z : polyvecl) (h : polyveck) : list Z :=
  fill CTILDEBYTES (fun i => c !!! i) ++ fill_chunks L (fun i => polyz_pack (z !!! i)) ++ encode_h h.

(** [for (j = k; j < sig[OMEGA + i]; ++j)], [n] iterations from [j]. *)
Fixpoint decode_row (n j k : nat) (s : list Z) (a : poly) : option poly :=
  match n with
  | O => Some a
  | S n =>
      if (k <? j)%nat && (s !!! j <=? s !!! (j - 1)%nat) then None
      else decode_row n (S j) k s (<[Z.to_nat (s !!! j) := 1]> a)
  end.
(** [for (i = 0; i < K; ++i)], [n] iterations from [i]; the final [k] and the rows. *)
Fixpoint decode_rows (n i k : nat) (s : list Z) : option (nat * list poly) :=
  match n with
  | O => Some (k, [])
  | S n =>
      let cnt := s !!! (OMEGA + i)%nat in
      if (cnt <? Z.of_nat k) || (cnt >? Z.of_nat OMEGA) then None
      else
        match decode_row (Z.to_nat cnt - k) k k s (fill N (fun _ => 0)) with
        | None => None
        | Some row =>
            match decode_rows n (S i) (Z.to_nat cnt) s with
            | None => None
            | Some (k, rows) => Some (k, row :: rows)
            end
        end
  end.
Definition decode_h (s : list Z) : option polyveck :=
  match decode_rows K 0 0 s with
  | None => None
  | Some (k, h) => if forallb (fun j => s !!! j =? 0) (seq k (OMEGA - k)) then Some h else None
  end.

(** [None]: the routine returned 1, malformed signature. *)
Definition unpack_sig (sig : list Z) : option (list Z * polyvecl * polyveck) :=
  let c := slice 0 CTILDEBYTES sig in
  let sig := drop CTILDEBYTES sig in
  let z := fill L (fun i => polyz_unpack (slice (i * POLYZ_PACKEDBYTES) POLYZ_PACKEDBYTES sig)) in
  let sig := drop (L * POLYZ_PACKEDBYTES) sig in
  match decode_h sig with
  | None => None
  | Some h => Some (c, z, h)
  end.

(** ** Slices *)

Lemma slice_len off n l : (off + n <= length l)%nat -> length (slice off n l) = n.
Proof. intros. unfold slice. rewrite length_take, length_drop. lia. Qed.
Lemma slice_bytes off n l : bytes_ok l -> bytes_ok (slice off n l).
Proof. intros. apply Forall_take, Forall_drop. assumption. Qed.
Lemma slice_lookup off n l i : (i < n)%nat -> slice off n l !!! i = l !!! (off + i)%nat.
Proof.
  intros. unfold slice. rewrite lookup_total_take, decide_True by assumption.
  apply lookup_total_drop.
Qed.
Lemma fill_id n (l : list Z) : length l = n -> fill n (fun i => l !!! i) = l.
Proof.
  intros Hl. apply (list_eq_total _ _ n); [apply length_fill|exact Hl|].
  intros i Hi. apply (lookup_total_fill n (fun i => l !!! i) i Hi).
Qed.
Lemma slice_app_0 n l k : length l = n -> slice 0 n (l ++ k) = l.
Proof. intros <-. unfold slice. rewrite drop_0. apply take_app_length. Qed.
Lemma slice_app_skip off n l k :
  (length l <= off)%nat -> slice off n (l ++ k) = slice (off - length l) n k.
Proof. intros. unfold slice. rewrite drop_app_ge by assumption. reflexivity. Qed.
Lemma slice_fill_chunks m (f : nat -> list Z) n i k :
  (forall i, length (f i) = m) -> (i < n)%nat ->
  slice (i * m) m (fill_chunks n f ++ k) = f i.
Proof.
  intros Hf Hi. pose proof (length_fill_chunks m f Hf n) as HL.
  apply (list_eq_total _ _ m); [|apply Hf|].
  - apply slice_len. rewrite length_app. nia.
  - intros j Hj. rewrite slice_lookup by exact Hj. rewrite lookup_total_app_l by nia.
    rewrite Nat.mul_comm. apply (lookup_fill_chunks m f Hf); assumption.
Qed.
(** A byte string of [n] groups of [m] is what the groups are filled with. *)
Lemma fill_chunks_slices m n (l : list Z) :
  length l = (n * m)%nat -> fill_chunks n (fun i => slice (i * m) m l) = l.
Proof.
  intros Hl. destruct n as [|n]; [destruct l; [reflexivity|discriminate]|].
  set (f := fun i => slice (Nat.min i n * m) m l).
  assert (forall i, length (f i) = m) as Hf by (intros i; apply slice_len; rewrite Hl; nia).
  replace (fill_chunks (S n) _) with (fill_chunks (S n) f).
  - apply (list_eq_chunks m (S n)); [apply (length_fill_chunks m f Hf)|exact Hl|].
    intros i j Hi Hj. rewrite (lookup_fill_chunks m f Hf) by assumption. subst f. cbv beta.
    rewrite slice_lookup by exact Hj. f_equal. nia.
  - unfold fill_chunks. f_equal. apply map_ext_in. intros i Hi. apply in_seq in Hi.
    subst f. cbv beta. f_equal. nia.
Qed.

(** ** The hint vector: supports *)

(** The positions below [m] of the nonzero coefficients of [a], in order. *)
Definition supp_upto (m : nat) (a : poly) : list Z :=
  map Z.of_nat (List.filter (fun j => negb (a !!! j =? 0)) (seq 0 m)).
Definition supp (a : poly) : list Z := supp_upto N a.
(** The 0/1 polynomial with a given support. *)
Definition of_supp (l : list Z) : poly :=
  fold_left (fun a v => <[Z.to_nat v := 1]> a) l (fill N (fun _ => 0)).

Lemma supp_upto_S m a :
  supp_upto (S m) a = supp_upto m a ++ (if a !!! m =? 0 then [] else [Z.of_nat m]).
Proof.
  unfold supp_upto. rewrite seq_S, List.filter_app, map_app. f_equal. cbn [List.filter Nat.add].
  destruct (a !!! m =? 0); reflexivity.
Qed.

Lemma elem_of_supp v a : v ∈ supp a <-> 0 <= v < 256 /\ a !!! Z.to_nat v <> 0.
Proof.
  unfold supp, supp_upto. rewrite list_elem_of_In, in_map_iff. split.
  - intros (j & <- & Hj). apply filter_In in Hj as [Hs Hz]. apply in_seq in Hs. unfold N in Hs.
    rewrite Nat2Z.id. apply negb_true_iff, Z.eqb_neq in Hz. split; [lia|exact Hz].
  - intros [Hv Hz]. exists (Z.to_nat v). split; [lia|]. apply filter_In. split.
    + apply in_seq. unfold N. lia.
    + apply negb_true_iff, Z.eqb_neq, Hz.
Qed.

Lemma supp_upto_sorted m a : StronglySorted Z.lt (supp_upto m a).
Proof.
  unfold supp_upto. generalize 0%nat as s. induction m as [|m IH]; intros s; cbn [seq List.filter];
    [constructor|].
  destruct (negb _); cbn [map]; [|apply IH]. constructor; [apply IH|].
  apply Forall_map, List.Forall_forall. intros j Hj. apply filter_In in Hj as [Hj _].
  apply in_seq in Hj. cbn. lia.
Qed.

Lemma of_supp_fold (l : list Z) (a : poly) i :
  length a = 256%nat -> Forall is_u8 l -> (i < 256)%nat ->
  length (fold_left (fun a v => <[Z.to_nat v := 1]> a) l a) = 256%nat /\
  fold_left (fun a v => <[Z.to_nat v := 1]> a) l a !!! i
  = if decide (Z.of_nat i ∈ l) then 1 else a !!! i.
Proof.
  intros Ha Hl Hi. revert a Ha. induction Hl as [|v l Hv Hl IH]; intros a Ha; cbn [fold_left].
  - rewrite decide_False by apply not_elem_of_nil. auto.
  - unfold is_u8 in Hv.
    destruct (IH (<[Z.to_nat v := 1]> a) ltac:(rewrite length_insert; exact Ha)) as [H1 H2].
    split; [exact H1|]. rewrite H2. destruct (decide (Z.of_nat i ∈ l)) as [Hin|Hin].
    + rewrite decide_True by (apply elem_of_cons; auto). reflexivity.
    + destruct (decide (v = Z.of_nat i)) as [->|Hne].
      * rewrite decide_True by (apply elem_of_cons; auto). rewrite Nat2Z.id.
        apply lookup_total_insert_eq. lia.
      * rewrite decide_False by (rewrite elem_of_cons; intros [?|?]; [lia|tauto]).
        apply lookup_total_insert_ne. lia.
Qed.

Lemma of_supp_lookup l i :
  Forall is_u8 l -> (i < 256)%nat ->
  length (of_supp l) = 256%nat /\ of_supp l !!! i = if decide (Z.of_nat i ∈ l) then 1 else 0.
Proof.
  intros Hl Hi. unfold of_supp.
  destruct (of_supp_fold l (fill N (fun _ => 0)) i (length_fill _ _) Hl Hi) as [H1 H2].
  split; [exact H1|]. rewrite H2. rewrite (lookup_total_fill N (fun _ => 0) i Hi). reflexivity.
Qed.

Lemma supp_of_supp l : StronglySorted Z.lt l -> Forall is_u8 l -> supp (of_supp l) = l.
Proof.
  intros Hs Hl. apply (StronglySorted_unique_strong Z.lt).
  - intros; lia.
  - apply supp_upto_sorted.
  - exact Hs.
  - assert (forall l, StronglySorted Z.lt l -> NoDup l) as ND.
    { intros k Hk. induction Hk as [|x k Hk IH Hx]; [constructor|]. constructor; [|exact IH].
      intros Hin. rewrite Forall_forall in Hx. specialize (Hx x Hin). lia. }
    apply NoDup_Permutation; [apply ND, supp_upto_sorted|apply ND, Hs|]. intros v.
    rewrite elem_of_supp. split.
    + intros [Hv Hz]. destruct (of_supp_lookup l (Z.to_nat v) Hl ltac:(lia)) as [_ E].
      rewrite E, Z2Nat.id in Hz by lia. destruct (decide (v ∈ l)); [assumption|lia].
    + intros Hin. assert (is_u8 v) as Hv by (rewrite Forall_forall in Hl; apply Hl, Hin).
      unfold is_u8 in Hv. split; [lia|].
      destruct (of_supp_lookup l (Z.to_nat v) Hl ltac:(lia)) as [_ E].
      rewrite E, Z2Nat.id, decide_True by (lia || assumption). lia.
Qed.

(** A 0/1 polynomial. *)
Definition binary (a : poly) : Prop := coeffs_in 0 1 a.

Lemma supp_bytes a : Forall is_u8 (supp a).
Proof. apply Forall_forall. intros v Hv. apply elem_of_supp in Hv as [Hv _]. exact Hv. Qed.
Lemma of_supp_supp a : binary a -> of_supp (supp a) = a.
Proof.
  intros [Hl Ha]. apply (list_eq_total _ _ 256); [|exact Hl|].
  - apply (of_supp_lookup (supp a) 0 (supp_bytes a) ltac:(lia)).
  - intros i Hi. destruct (of_supp_lookup (supp a) i (supp_bytes a) Hi) as [_ ->].
    specialize (Ha i Hi). destruct (decide _) as [Hin|Hin]; rewrite elem_of_supp, Nat2Z.id in Hin; lia.
Qed.
Lemma of_supp_binary l : Forall is_u8 l -> binary (of_supp l).
Proof.
  intros Hl. split; [apply (of_supp_lookup l 0 Hl ltac:(lia))|]. intros i Hi.
  destruct (of_supp_lookup l i Hl Hi) as [_ ->]. destruct (decide _); lia.
Qed.

(** ** Encoding *)

(** The supports of the first [i] rows, concatenated. *)
Definition supps (h : polyveck) (i : nat) : list Z := concat (map (fun r => supp (h !!! r)) (seq 0 i)).
(** The hint section of a signature: the positions, zero padding, the running counts. *)
Definition hint_bytes (h : polyveck) : list Z :=
  supps h K ++ replicate (OMEGA - length (supps h K)) 0
  ++ fill K (fun r => Z.of_nat (length (supps h (S r)))).

Lemma supps_S h i : supps h (S i) = supps h i ++ supp (h !!! i).
Proof.
  unfold supps. rewrite seq_S, map_app, concat_app. cbn [map concat].
  rewrite app_nil_r. reflexivity.
Qed.
Lemma supps_mono h i j : (i <= j)%nat -> (length (supps h i) <= length (supps h j))%nat.
Proof.
  induction 1 as [|j Hj IH]; [lia|]. rewrite supps_S, length_app. lia.
Qed.

Lemma supp_upto_mono m n a :
  (m <= n)%nat -> (length (supp_upto m a) <= length (supp_upto n a))%nat.
Proof. induction 1 as [|n Hn IH]; [lia|]. rewrite (supp_upto_S n), length_app. lia. Qed.

Lemma encode_row_loop n a W P rest :
  (n <= 256)%nat -> (length W + length (supp_upto n a) <= P)%nat ->
  for_loop n 0 (fun j '(k, s) =>
    if a !!! j =? 0 then (k, s) else (S k, <[k := u8 (Z.of_nat j)]> s))
    (length W, W ++ replicate (P - length W) 0 ++ rest)
  = (length (W ++ supp_upto n a),
     (W ++ supp_upto n a) ++ replicate (P - length (W ++ supp_upto n a)) 0 ++ rest).
Proof.
  intros Hn HP.
  set (Inv := fun (m : nat) (st : nat * list Z) =>
    let U := W ++ supp_upto m a in st = (length U, U ++ replicate (P - length U) 0 ++ rest)).
  apply (for_loop_inv Inv _ n 0).
  - unfold Inv. change (supp_upto 0 a) with (@nil Z). rewrite app_nil_r. reflexivity.
  - intros m st Hm ->. unfold Inv. rewrite supp_upto_S.
    destruct (Z.eqb_spec (a !!! m) 0) as [E|E]; [rewrite app_nil_r; reflexivity|].
    pose proof (supp_upto_mono (S m) n a ltac:(lia)) as Hle.
    rewrite supp_upto_S, (proj2 (Z.eqb_neq _ _) E), length_app in Hle. cbn [length] in Hle.
    set (U := W ++ supp_upto m a). assert (length U < P)%nat as HU by (subst U; rewrite length_app; lia).
    replace (W ++ supp_upto m a ++ [Z.of_nat m]) with (U ++ [Z.of_nat m])
      by (subst U; rewrite <- app_assoc; reflexivity).
    rewrite (length_app U). cbn [length]. f_equal; [lia|].
    rewrite u8_id by (unfold is_u8; lia).
    rewrite insert_app_r_alt, Nat.sub_diag by lia.
    replace (P - length U)%nat with (S (P - (length U + 1))) by lia.
    cbn [replicate app insert list_insert]. rewrite <- app_assoc. reflexivity.
Qed.

Lemma encode_row_spec a W P rest :
  (length W + length (supp a) <= P)%nat ->
  encode_row a (length W, W ++ replicate (P - length W) 0 ++ rest)
  = (length (W ++ supp a), (W ++ supp a) ++ replicate (P - length (W ++ supp a)) 0 ++ rest).
Proof. apply (encode_row_loop N). unfold N. lia. Qed.

Lemma encode_h_eq h : (length (supps h K) <= OMEGA)%nat -> encode_h h = hint_bytes h.
Proof.
  intros Hn. unfold encode_h, hint_bytes.
  set (C := fun i => fill i (fun r => Z.of_nat (length (supps h (S r))))).
  set (Inv := fun (i : nat) (st : nat * list Z) =>
    (i <= K)%nat /\ st = (length (supps h i),
      supps h i ++ replicate (OMEGA - length (supps h i)) 0 ++ C i ++ replicate (K - i) 0)).
  match goal with |- snd (for_loop K 0 ?F ?s) = _ =>
    enough (Inv (0 + K)%nat (for_loop K 0 F s)) as [_ E] end.
  { rewrite E. cbn [snd]. rewrite Nat.add_0_l, Nat.sub_diag. cbn [replicate].
    rewrite app_nil_r. reflexivity. }
  apply (for_loop_inv Inv); [split; [lia|reflexivity]|].
  intros i st Hi [_ ->]. pose proof (supps_mono h (S i) K ltac:(lia)) as Hm.
  rewrite supps_S, length_app in Hm. rewrite encode_row_spec by lia. split; [lia|].
  rewrite <- supps_S. f_equal.
  pose proof (supps_mono h (S i) K ltac:(lia)) as Hm'. unfold OMEGA, K in *.
  rewrite u8_id by (unfold is_u8; lia).
  rewrite insert_app_r_alt by lia. f_equal.
  rewrite insert_app_r_alt by (rewrite length_replicate; lia). f_equal.
  assert (length (C i) = i) as HC by apply length_fill.
  rewrite insert_app_r_alt by (rewrite length_replicate; lia). rewrite length_replicate, HC.
  replace (55 + i - length (supps h (S i)) - (55 - length (supps h (S i))) - i)%nat with 0%nat by lia.
  replace (6 - i)%nat with (S (6 - S i)) by lia. cbn [replicate insert list_insert].
  subst C. cbv beta. unfold fill. rewrite (seq_S i), map_app, <- app_assoc. reflexivity.
Qed.

(** ** Decoding *)

(** Each element exceeds the one before it; [prev] is the one before the list. *)
Fixpoint incr (prev : option Z) (l : list Z) : bool :=
  match l with
  | [] => true
  | x :: l => match prev with None => true | Some p => negb (x <=? p) end && incr (Some x) l
  end.

Lemma incr_sorted l : incr None l = true <-> StronglySorted Z.lt l.
Proof.
  assert (forall l p, incr (Some p) l = true <-> StronglySorted Z.lt (p :: l)) as H.
  { clear l. intros l. induction l as [|x l IH]; intros p; cbn [incr].
    - split; [repeat constructor|reflexivity].
    - rewrite andb_true_iff, IH, negb_true_iff, Z.leb_gt. split.
      + intros [Hp Hs]. constructor; [exact Hs|]. inversion Hs as [|? ? _ Hx]; subst.
        constructor; [lia|]. eapply Forall_impl; [exact Hx|]. cbn. lia.
      + intros Hs. inversion Hs as [|? ? Hs' Hx]; subst. inversion Hx; subst. auto. }
  destruct l as [|x l]; cbn [incr]; [split; [constructor|reflexivity]|]. apply H.
Qed.

Lemma drop_cons (s : list Z) j : (j < length s)%nat -> drop j s = s !!! j :: drop (S j) s.
Proof.
  intros Hj. destruct (lookup_lt_is_Some_2 s j Hj) as [v Hv].
  rewrite (list_lookup_total_correct _ _ _ Hv). apply drop_S, Hv.
Qed.

Lemma decode_row_spec n j k s a :
  (k <= j)%nat -> (j + n <= length s)%nat ->
  decode_row n j k s a
  = if incr (if (k <? j)%nat then Some (s !!! (j - 1)%nat) else None) (slice j n s)
    then Some (fold_left (fun a v => <[Z.to_nat v := 1]> a) (slice j n s) a) else None.
Proof.
  unfold slice. revert j a. induction n as [|n IH]; intros j a Hk Hn; cbn [decode_row]; [reflexivity|].
  rewrite drop_cons by lia. cbn [take incr fold_left].
  rewrite IH by lia. replace (k <? S j)%nat with true by (symmetry; apply Nat.ltb_lt; lia).
  replace (S j - 1)%nat with j by lia.
  destruct (k <? j)%nat; [|reflexivity]. destruct (s !!! j <=? s !!! (j - 1)%nat); reflexivity.
Qed.

(** A row decodes exactly when its positions increase, and has them as support. *)
Lemma decode_row_Some n k s row :
  bytes_ok s -> (k + n <= length s)%nat ->
  decode_row n k k s (fill N (fun _ => 0)) = Some row <->
  StronglySorted Z.lt (slice k n s) /\ row = of_supp (slice k n s).
Proof.
  intros Hs Hn. rewrite decode_row_spec by lia. rewrite Nat.ltb_irrefl, <- incr_sorted. unfold of_supp.
  destruct (incr None (slice k n s)); split.
  - intros [= <-]. auto.
  - intros [_ ->]. reflexivity.
  - discriminate.
  - intros [[=] _].
Qed.

(** What [decode_rows] has read when it succeeds. *)
Lemma decode_rows_sound n i k s k' rows :
  bytes_ok s -> length s = (OMEGA + K)%nat -> (i + n <= K)%nat -> (k <= OMEGA)%nat ->
  decode_rows n i k s = Some (k', rows) ->
  (k <= k' <= OMEGA)%nat /\ length rows = n /\ Forall binary rows /\
  concat (map supp rows) = slice k (k' - k) s /\
  forall r, (r < n)%nat ->
    s !!! (OMEGA + i + r)%nat = Z.of_nat (k + length (concat (map supp (take (S r) rows)))).
Proof.
  intros Hs Hl. revert i k k' rows. induction n as [|n IH]; intros i k k' rows Hi Hk; cbn [decode_rows].
  - intros [= <- <-]. rewrite Nat.sub_diag. unfold slice. rewrite take_0.
    split; [lia|]. split; [reflexivity|]. split; [constructor|]. split; [reflexivity|]. intros; lia.
  - pose proof (bytes_ok_lookup s (OMEGA + i) Hs) as Hc. set (cnt := s !!! (OMEGA + i)%nat) in *.
    unfold is_u8 in Hc. destruct (Z.ltb_spec cnt (Z.of_nat k)), (Z.gtb_spec cnt (Z.of_nat OMEGA));
      cbn [orb]; try discriminate.
    destruct (decode_row _ _ _ _ _) as [row|] eqn:Er; [|discriminate].
    destruct (decode_rows n _ _ _) as [[k2 rows2]|] eqn:E; [|discriminate]. intros [= <- <-].
    apply decode_row_Some in Er as [Hso ->]; [|exact Hs|lia].
    assert (Forall is_u8 (slice k (Z.to_nat cnt - k) s)) as Hu by apply slice_bytes, Hs.
    apply IH in E as (H1 & H2 & H3 & H4 & H5); [|lia..].
    set (c := Z.to_nat cnt) in *. assert (Z.of_nat c = cnt /\ k <= c <= OMEGA)%nat as [Ec Hkc] by lia.
    assert (length (slice k (c - k) s) = c - k)%nat as Hlen
      by (apply slice_len; lia).
    split; [lia|]. split; [cbn; lia|]. split; [constructor; [apply of_supp_binary, Hu|exact H3]|].
    assert (supp (of_supp (slice k (c - k) s)) = slice k (c - k) s) as Hsu by (apply supp_of_supp; assumption).
    split.
    + cbn [map concat]. rewrite Hsu, H4. unfold slice.
      replace (drop c s) with (drop (c - k) (drop k s)) by (rewrite drop_drop; f_equal; lia).
      rewrite take_take_drop. f_equal. lia.
    + intros r Hr. cbn [take map concat]. rewrite length_app, Hsu, Hlen. destruct r as [|r].
      * rewrite take_0, (Nat.add_0_r (OMEGA + i)). fold cnt. cbn [map concat length]. lia.
      * replace (OMEGA + i + S r)%nat with (OMEGA + S i + r)%nat by lia.
        rewrite H5 by lia. lia.
Qed.

Lemma supps_take h i : (i <= length h)%nat -> supps h i = concat (map supp (take i h)).
Proof.
  induction i as [|i IH]; intros Hi; [rewrite take_0; reflexivity|].
  destruct (lookup_lt_is_Some_2 h i) as [a Ha]; [lia|].
  rewrite supps_S, IH, (take_S_r _ _ _ Ha), map_app, concat_app by lia.
  rewrite (list_lookup_total_correct _ _ _ Ha). cbn [map concat]. rewrite app_nil_r. reflexivity.
Qed.

Definition hints_ok (h : polyveck) : Prop :=
  length h = K /\ Forall binary h /\ (length (supps h K) <= OMEGA)%nat.

Lemma forallb_seq_zero (s : list Z) k n :
  (k + n <= length s)%nat -> forallb (fun j => s !!! j =? 0) (seq k n) = true <->
  slice k n s = replicate n 0.
Proof.
  intros Hn. split.
  - intros H. apply (list_eq_total _ _ n); [apply slice_len, Hn|apply length_replicate|].
    intros i Hi. rewrite slice_lookup, lookup_total_replicate_2 by exact Hi.
    rewrite forallb_forall in H. apply Z.eqb_eq, H, in_seq. lia.
  - intros H. apply forallb_forall. intros j Hj. apply in_seq in Hj. apply Z.eqb_eq.
    replace j with (k + (j - k))%nat by lia. rewrite <- (slice_lookup k n) by lia.
    rewrite H, lookup_total_replicate_2 by lia. reflexivity.
Qed.

(** Only canonical encodings decode. *)
Lemma decode_h_sound s h :
  bytes_ok s -> length s = (OMEGA + K)%nat -> decode_h s = Some h -> hints_ok h /\ encode_h h = s.
Proof.
  intros Hs Hl. unfold decode_h. destruct (decode_rows K 0 0 s) as [[k rows]|] eqn:E; [|discriminate].
  apply decode_rows_sound in E as (H1 & H2 & H3 & H4 & H5); [|assumption|assumption|lia|lia].
  rewrite Nat.sub_0_r in H4.
  destruct (forallb _ _) eqn:Ez; [|discriminate]. intros [= <-].
  apply forallb_seq_zero in Ez; [|lia].
  assert (supps rows K = slice 0 k s) as HW by (rewrite supps_take, take_ge by lia; exact H4).
  assert (length (supps rows K) = k) as HWl by (rewrite HW; apply slice_len; lia).
  assert (hints_ok rows) as Hok by (split; [exact H2|split; [exact H3|lia]]).
  split; [exact Hok|]. rewrite encode_h_eq by lia. unfold hint_bytes. rewrite HWl, HW, <- Ez.
  replace (fill K (fun r => Z.of_nat (length (supps rows (S r))))) with (slice OMEGA K s).
  - unfold slice. rewrite drop_0, app_assoc, take_take_drop.
    replace (k + (OMEGA - k))%nat with OMEGA by lia. rewrite (take_ge (drop _ _)).
    + apply take_drop.
    + rewrite length_drop. lia.
  - apply (list_eq_total _ _ K); [apply slice_len; lia|apply length_fill|]. intros r Hr.
    rewrite slice_lookup by exact Hr.
    rewrite (lookup_total_fill K (fun r => Z.of_nat (length (supps rows (S r)))) r Hr).
    replace (OMEGA + r)%nat with (OMEGA + 0 + r)%nat by lia.
    rewrite H5, supps_take by lia. reflexivity.
Qed.

Lemma supps_split h n i :
  (i < n)%nat -> exists rest, supps h n = supps h i ++ supp (h !!! i) ++ rest.
Proof.
  induction 1 as [|n Hn [rest IH]].
  - exists []. rewrite supps_S, app_nil_r. reflexivity.
  - exists (rest ++ supp (h !!! n)). rewrite supps_S, IH, <- !app_assoc. reflexivity.
Qed.

Section complete.
Context (h : polyveck) (Hh : hints_ok h).

Lemma supps_bytes i : bytes_ok (supps h i).
Proof. apply Forall_concat, Forall_map, List.Forall_forall. intros. apply supp_bytes. Qed.
Lemma hint_bytes_len : length (hint_bytes h) = (OMEGA + K)%nat.
Proof using Hh.
  destruct Hh as (_ & _ & Hn). unfold hint_bytes. rewrite !length_app, length_replicate, length_fill. lia.
Qed.
Lemma supps_small r : (r <= K)%nat -> (length (supps h r) <= 55)%nat.
Proof using Hh.
  intros Hr. destruct Hh as (_ & _ & Hn). pose proof (supps_mono h r K Hr). unfold OMEGA in Hn. lia.
Qed.
Lemma hint_bytes_ok : bytes_ok (hint_bytes h).
Proof using Hh.
  apply Forall_app. split; [apply supps_bytes|]. apply Forall_app.
  split; [apply Forall_replicate; unfold is_u8; lia|].
  apply bytes_ok_fill. intros r Hr. pose proof (supps_small (S r) ltac:(lia)). unfold is_u8. lia.
Qed.
Lemma hint_bytes_count r :
  (r < K)%nat -> hint_bytes h !!! (OMEGA + r)%nat = Z.of_nat (length (supps h (S r))).
Proof using Hh.
  intros Hr. pose proof (supps_small K ltac:(lia)). unfold hint_bytes. unfold OMEGA in *.
  rewrite lookup_total_app_r by lia. rewrite lookup_total_app_r by (rewrite length_replicate; lia).
  rewrite length_replicate.
  replace (55 + r - length (supps h K) - (55 - length (supps h K)))%nat with r by lia.
  apply (lookup_total_fill K (fun r => Z.of_nat (length (supps h (S r)))) r Hr).
Qed.
Lemma hint_bytes_slice i :
  (i < K)%nat ->
  slice (length (supps h i)) (length (supps h (S i)) - length (supps h i)) (hint_bytes h)
  = supp (h !!! i).
Proof using Hh.
  intros Hi. unfold slice, hint_bytes.
  destruct (supps_split h K i Hi) as [rest ->]. rewrite <- !app_assoc, drop_app_length. rewrite supps_S, length_app.
  apply take_app_length'. lia.
Qed.

Lemma decode_rows_complete n i :
  (i + n = K)%nat ->
  decode_rows n i (length (supps h i)) (hint_bytes h)
  = Some (length (supps h K), map (fun r => h !!! r) (seq i n)).
Proof using Hh.
  revert i. induction n as [|n IH]; intros i Hi; cbn [decode_rows].
  - replace i with K by lia. reflexivity.
  - rewrite hint_bytes_count by lia. pose proof (supps_mono h i (S i) ltac:(lia)).
    pose proof (supps_small (S i) ltac:(lia)).
    rewrite Z.gtb_ltb, !(proj2 (Z.ltb_ge _ _)) by (unfold OMEGA; lia).
    cbn [orb]. rewrite Nat2Z.id.
    assert (binary (h !!! i)) as Hb.
    { destruct Hh as (Hl & HF & _). destruct (lookup_lt_is_Some_2 h i) as [a Ha]; [lia|].
      rewrite (list_lookup_total_correct _ _ _ Ha). apply (Forall_lookup_1 _ _ _ _ HF Ha). }
    rewrite (proj2 (decode_row_Some (length (supps h (S i)) - length (supps h i))
      (length (supps h i)) _ (h !!! i) hint_bytes_ok
      ltac:(rewrite hint_bytes_len; unfold OMEGA; lia))).
    + rewrite IH by lia. reflexivity.
    + rewrite hint_bytes_slice by lia. split; [apply supp_upto_sorted|].
      symmetry. apply of_supp_supp, Hb.
Qed.

Lemma decode_encode_h : decode_h (encode_h h) = Some h.
Proof using Hh.
  destruct Hh as (Hl & HF & Hn). rewrite encode_h_eq by exact Hn. unfold decode_h.
  pose proof (decode_rows_complete K 0 eq_refl) as E. change (length (supps h 0)) with 0%nat in E.
  rewrite E. rewrite (proj2 (forallb_seq_zero (hint_bytes h) (length (supps h K))
    (OMEGA - length (supps h K)) ltac:(rewrite hint_bytes_len; lia))).
  - f_equal. apply list_eq_same_length with K; [exact Hl|rewrite length_map, length_seq; reflexivity|].
    intros i x y Hi Hx Hy. rewrite list_lookup_fmap, lookup_seq_lt in Hx by exact Hi.
    cbn in Hx. injection Hx as <-. apply list_lookup_total_correct, Hy.
  - unfold slice, hint_bytes. rewrite drop_app_length. apply take_app_length'.
    rewrite length_replicate. reflexivity.
Qed.
End complete.

(** ** Keys and signatures: round trips *)

Lemma fill_eq_vec (f : nat -> poly) n v :
  length v = n -> (forall i, (i < n)%nat -> f i = v !!! i) -> fill n f = v.
Proof.
  intros Hl Hf. apply list_eq_same_length with n; [exact Hl|apply length_fill|].
  intros i x y Hi Hx Hy. rewrite lookup_fill in Hx by exact Hi. injection Hx as <-.
  rewrite (Hf i Hi). apply list_lookup_total_correct, Hy.
Qed.
Lemma fill_chunks_ext n f g : (forall i, (i < n)%nat -> f i = g i) -> fill_chunks n f = fill_chunks n g.
Proof.
  intros H. unfold fill_chunks. f_equal. apply map_ext_in. intros i Hi. apply in_seq in Hi.
  apply H. lia.
Qed.

Lemma slice_drop off n l m : slice off n (drop m l) = slice (m + off) n l.
Proof. unfold slice. rewrite drop_drop. reflexivity. Qed.

Lemma unpack_pack_pk rho t1 :
  length rho = SEEDBYTES -> vec_in K 0 1023 t1 -> unpack_pk (pack_pk rho t1) = (rho, t1).
Proof.
  intros Hr [Hl Ht]. unfold unpack_pk, pack_pk. rewrite (fill_id SEEDBYTES rho Hr). f_equal.
  - apply slice_app_0, Hr.
  - apply fill_eq_vec; [exact Hl|]. intros i Hi.
    rewrite slice_app_skip by lia.
    replace (SEEDBYTES + i * POLYT1_PACKEDBYTES - length rho)%nat with (i * POLYT1_PACKEDBYTES)%nat by lia.
    rewrite <- (app_nil_r (fill_chunks K _)).
    rewrite (slice_fill_chunks POLYT1_PACKEDBYTES (fun i => polyt1_pack (t1 !!! i)));
      [apply polyt1_unpack_pack, Ht, Hi|intros; apply polyt1_pack_len|exact Hi].
Qed.

Lemma pack_unpack_pk pk rho t1 :
  length pk = CRYPTO_PUBLICKEYBYTES -> bytes_ok pk -> unpack_pk pk = (rho, t1) -> pack_pk rho t1 = pk.
Proof.
  intros Hl Hb [= <- <-]. unfold pack_pk.
  assert (length pk = (32 + 6 * 320)%nat) as Hl' by exact Hl.
  rewrite fill_id by (apply slice_len; unfold SEEDBYTES; lia).
  rewrite (fill_chunks_ext K _ (fun i => slice (i * 320) 320 (drop 32 pk))).
  - rewrite fill_chunks_slices by (rewrite length_drop; unfold K; lia).
    unfold slice. rewrite drop_0. apply take_drop.
  - intros i Hi. rewrite lookup_total_fill by exact Hi. unfold K in Hi.
    rewrite polyt1_pack_unpack; [rewrite slice_drop; reflexivity|
      apply slice_len; unfold SEEDBYTES, POLYT1_PACKEDBYTES; lia|apply slice_bytes, Hb].
Qed.

Lemma unpack_fill_chunks m n (pack : poly -> list Z) (unpack : list Z -> poly) (v : list poly) k :
  (forall a, length (pack a) = m) -> length v = n ->
  (forall i, (i < n)%nat -> unpack (pack (v !!! i)) = v !!! i) ->
  fill n (fun i => unpack (slice (i * m) m (fill_chunks n (fun i => pack (v !!! i)) ++ k))) = v.
Proof.
  intros Hp Hv Hu. apply fill_eq_vec; [exact Hv|]. intros i Hi.
  rewrite (slice_fill_chunks m (fun i => pack (v !!! i))); [apply Hu, Hi|intros; apply Hp|exact Hi].
Qed.

Lemma unpack_pack_sk rho tr key t0 s1 s2 :
  length rho = SEEDBYTES -> length tr = TRBYTES -> length key = SEEDBYTES ->
  vec_in K (-4095) 4096 t0 -> vec_in L (- ETA) ETA s1 -> vec_in K (- ETA) ETA s2 ->
  unpack_sk (pack_sk rho tr key t0 s1 s2) = (rho, tr, key, t0, s1, s2).
Proof.
  intros Hr Ht Hk [L0 H0] [L1 H1] [L2 H2]. unfold unpack_sk, pack_sk. cbv zeta.
  rewrite (fill_id SEEDBYTES rho Hr), (fill_id SEEDBYTES key Hk), (fill_id TRBYTES tr Ht).
  rewrite (drop_app_length' rho _ SEEDBYTES (eq_sym Hr)), (drop_app_length' key _ SEEDBYTES (eq_sym Hk)),
    (drop_app_length' tr _ TRBYTES (eq_sym Ht)).
  rewrite !(drop_app_length' (fill_chunks _ _))
    by (symmetry; apply (length_fill_chunks 128); intros; apply polyeta_pack_len).
  rewrite (slice_app_0 SEEDBYTES rho _ Hr), (slice_app_0 SEEDBYTES key _ Hk), (slice_app_0 TRBYTES tr _ Ht).
  rewrite <- (app_nil_r (fill_chunks K (fun i => polyt0_pack _))).
  rewrite (unpack_fill_chunks _ L polyeta_pack polyeta_unpack s1 _ polyeta_pack_len L1)
    by (intros; apply polyeta_unpack_pack, H1; assumption).
  rewrite (unpack_fill_chunks _ K polyeta_pack polyeta_unpack s2 _ polyeta_pack_len L2)
    by (intros; apply polyeta_unpack_pack, H2; assumption).
  rewrite (unpack_fill_chunks _ K polyt0_pack polyt0_unpack t0 _ polyt0_pack_len L0)
    by (intros; apply polyt0_unpack_pack, H0; assumption).
  reflexivity.
Qed.

Lemma unpack_pack_sig c z h :
  length c = CTILDEBYTES -> vec_in L (- (GAMMA1 - 1)) GAMMA1 z -> hints_ok h ->
  unpack_sig (pack_sig c z h) = Some (c, z, h).
Proof.
  intros Hc [Lz Hz] Hh. unfold unpack_sig, pack_sig. cbv zeta.
  rewrite (fill_id CTILDEBYTES c Hc), (drop_app_length' c _ CTILDEBYTES (eq_sym Hc)).
  rewrite (drop_app_length' (fill_chunks _ _))
    by (symmetry; apply (length_fill_chunks 640); intros; apply polyz_pack_len).
  rewrite (slice_app_0 CTILDEBYTES c _ Hc).
  rewrite (unpack_fill_chunks _ L polyz_pack polyz_unpack z _ polyz_pack_len Lz)
    by (intros; apply polyz_unpack_pack, Hz; assumption).
  rewrite (decode_encode_h h Hh). reflexivity.
Qed.

Lemma pack_unpack_sig sig c z h :
  length sig = CRYPTO_BYTES -> bytes_ok sig -> unpack_sig sig = Some (c, z, h) ->
  pack_sig c z h = sig /\ hints_ok h.
Proof.
  intros Hl Hb. unfold unpack_sig. cbv zeta. rewrite drop_drop.
  assert (length sig = (48 + 5 * 640 + 61)%nat) as Hl' by exact Hl.
  set (hs := drop (CTILDEBYTES + L * POLYZ_PACKEDBYTES) sig).
  destruct (decode_h hs) as [h'|] eqn:E; [|discriminate]. intros [= <- <- <-].
  apply decode_h_sound in E as [Hok Henc];
    [|apply Forall_drop, Hb|subst hs; rewrite length_drop, Hl'; reflexivity].
  split; [|exact Hok]. unfold pack_sig. rewrite Henc.
  rewrite fill_id by (apply slice_len; unfold CTILDEBYTES; lia).
  rewrite (fill_chunks_ext L _ (fun i => slice (i * 640) 640 (take 3200 (drop 48 sig)))).
  - rewrite fill_chunks_slices by (rewrite length_take, length_drop; unfold L; lia).
    subst hs. unfold slice. rewrite drop_0. change (CTILDEBYTES + L * POLYZ_PACKEDBYTES)%nat with (48 + 3200)%nat.
    rewrite <- drop_drop, take_drop. apply take_drop.
  - intros i Hi. rewrite lookup_total_fill by exact Hi. unfold L in Hi.
    rewrite polyz_pack_unpack; [|apply slice_len; rewrite length_drop; unfold CTILDEBYTES, POLYZ_PACKEDBYTES; lia|
      apply slice_bytes, Forall_drop, Hb].
    unfold slice, CTILDEBYTES, POLYZ_PACKEDBYTES.
    apply (list_eq_total _ _ 640);
      [rewrite length_take, !length_drop; lia|rewrite length_take, length_drop, length_take, length_drop; lia|].
    intros j Hj. rewrite !lookup_total_take, !decide_True, !lookup_total_drop by lia.
    rewrite lookup_total_take, decide_True by lia. rewrite lookup_total_drop. reflexivity.
Qed.

(** keys survive encoding.  Unpacking a packed public key gives back rho and
    t1 whenever t1 has 10-bit coefficients, unpacking a packed secret key gives
    back its six components whenever they are in the ranges key generation
    produces, and packing an unpacked public key gives back the 1952 bytes. *)
Theorem key_encoding_roundtrip (rho tr key pk : list Z) (t1 t0 s1 s2 : list (list Z))
  (Hrho : length rho = SEEDBYTES) (Htr : length tr = TRBYTES) (Hkey : length key = SEEDBYTES)
  (Ht1 : vec_in K 0 1023 t1) (Ht0 : vec_in K (-4095) 4096 t0)
  (Hs1 : vec_in L (- ETA) ETA s1) (Hs2 : vec_in K (- ETA) ETA s2)
  (Hpk : length pk = CRYPTO_PUBLICKEYBYTES) (Hb : bytes_ok pk) :
  unpack_pk (pack_pk rho t1) = (rho, t1) /\
  unpack_sk (pack_sk rho tr key t0 s1 s2) = (rho, tr, key, t0, s1, s2) /\
  pack_pk (fst (unpack_pk pk)) (snd (unpack_pk pk)) = pk.
Proof.
  split; [apply unpack_pack_pk; assumption|]. split; [apply unpack_pack_sk; assumption|].
  apply pack_unpack_pk; [assumption..|]. apply surjective_pairing.
Qed.

Lemma vec_in_replicate n m lo hi v :
  (m = 256)%nat -> lo <= v <= hi -> vec_in n lo hi (replicate n (replicate m v)).
Proof.
  intros -> Hv. split; [apply length_replicate|]. intros i Hi.
  rewrite lookup_total_replicate_2 by exact Hi. split; [apply length_replicate|].
  intros j Hj. rewrite lookup_total_replicate_2 by exact Hj. exact Hv.
Qed.
Lemma key_encoding_roundtrip_witness :
  let rho := replicate 32 7 in let tr := replicate 64 8 in
  let t1 := replicate 6 (replicate 256 1023) in let t0 := replicate 6 (replicate 256 (-4095)) in
  let s1 := replicate 5 (replicate 256 (-4)) in let s2 := replicate 6 (replicate 256 3) in
  let pk := replicate 1952 255 in
  unpack_pk (pack_pk rho t1) = (rho, t1) /\
  unpack_sk (pack_sk rho tr rho t0 s1 s2) = (rho, tr, rho, t0, s1, s2) /\
  pack_pk (fst (unpack_pk pk)) (snd (unpack_pk pk)) = pk.
Proof.
  cbv zeta. apply (key_encoding_roundtrip (replicate 32 7) (replicate 64 8) (replicate 32 7));
    try (apply length_replicate); try (apply vec_in_replicate; [reflexivity|unfold ETA; lia]).
  apply Forall_replicate. unfold is_u8. lia.
Defined.

(** C36: a signature has one encoding.  If [unpack_sig] accepts a 3309-byte string
    as (c, z, h), then packing (c, z, h) gives back exactly that string, h is a
    0/1 vector with at most OMEGA ones, and z is in range: no second byte
    string decodes to the same signature (the strong-unforgeability checks on
    the hint section). *)
Theorem signature_encoding_canonical (sig c : list Z) (z h : list (list Z))
  (Hl : length sig = CRYPTO_BYTES) (Hb : bytes_ok sig) (H : unpack_sig sig = Some (c, z, h)) :
  pack_sig c z h = sig /\ hints_ok h /\ vec_in L (- (GAMMA1 - 1)) GAMMA1 z.
Proof.
  destruct (pack_unpack_sig sig c z h Hl Hb H) as [H1 H2]. split; [exact H1|]. split; [exact H2|].
  unfold unpack_sig in H. cbv zeta in H. destruct (decode_h _); [|discriminate]. injection H as _ <- _.
  assert (length sig = (48 + 5 * 640 + 61)%nat) as Hl' by exact Hl.
  split; [apply length_fill|]. intros i Hi. rewrite lookup_total_fill by exact Hi. unfold L in Hi.
  apply polyz_unpack_range; [|apply slice_bytes, Forall_drop, Hb].
  apply slice_len. rewrite length_drop. unfold CTILDEBYTES, POLYZ_PACKEDBYTES. lia.
Qed.

Lemma signature_encoding_canonical_witness :
  exists c z h, unpack_sig (replicate 3309 0) = Some (c, z, h) /\
  pack_sig c z h = replicate 3309 0 /\ hints_ok h /\ vec_in L (- (GAMMA1 - 1)) GAMMA1 z.
Proof.
  eexists _, _, _. split; [vm_compute; reflexivity|].
  apply (signature_encoding_canonical (replicate 3309 0)).
  - reflexivity.
  - apply Forall_replicate. unfold is_u8. lia.
  - vm_compute. reflexivity.
Defined.

(** signatures survive encoding: unpacking a packed signature with in-range z
    and a 0/1 hint vector of at most OMEGA ones succeeds and gives it back. *)
Theorem signature_encoding_roundtrip (c : list Z) (z h : list (list Z))
  (Hc : length c = CTILDEBYTES) (Hz : vec_in L (- (GAMMA1 - 1)) GAMMA1 z) (Hh : hints_ok h) :
  unpack_sig (pack_sig c z h) = Some (c, z, h).
Proof. apply unpack_pack_sig; assumption. Qed.
Lemma signature_encoding_roundtrip_witness :
  let c := replicate 48 1 in let z := replicate 5 (replicate 256 (-5)) in
  let h := replicate 6 (<[200%nat := 1]> (<[9%nat := 1]> (replicate 256 0))) in
  unpack_sig (pack_sig c z h) = Some (c, z, h).
Proof.
  cbv zeta. apply signature_encoding_roundtrip.
  - reflexivity.
  - apply vec_in_replicate; [reflexivity|vm_compute; split; discriminate].
  - split; [reflexivity|]. split.
    + apply Forall_replicate. split; [reflexivity|]. intros i Hi.
      rewrite list_lookup_total_alt.
      destruct (decide (i = 200%nat)) as [->|]; [vm_compute; split; discriminate|].
      rewrite list_lookup_insert_ne by congruence.
      destruct (decide (i = 9%nat)) as [->|]; [vm_compute; split; discriminate|].
      rewrite list_lookup_insert_ne by congruence. rewrite lookup_replicate_2 by exact Hi. cbn. lia.
    + apply Nat.leb_le. vm_compute. reflexivity.
Defined.
