(* ===== verification/MlDsaSign.v ===== *)
(** * ML-DSA-65: key generation, signing, verification

    [sign.c] of [src/pqcrypto/ml-dsa-65], over the SHAKE interface.  Output
    pointers become results; the system random source is an argument ([None]
    when it fails); [PQCLEAN_cleanse] of local secrets has no effect on the
    results and is not modelled.  The rejection loops of sampling and signing
    take fuel: [fuel] bounds the extra blocks of each sampler, the draws of
    each challenge position and the signing attempts.

    The main theorem is correctness of the scheme as implemented: every
    signature the signer returns verifies under the public key generated with
    its secret key, for every hash function, message and context. *)

From S2P Require Import Prelude MlDsaReduce MlDsaNtt MlDsaPoly Shake MlDsaSample MlDsaVec MlDsaPack.

Local Open Scope Z_scope.

Section sign.
Context `{S : ShakeOps}.

(** [t = A s1 + s2] as key generation and [sk_to_pk] compute it. *)
Definition keygen_t (mat : list polyvecl) (s1 : polyvecl) (s2 : polyveck) : polyveck :=
  let s1hat := polyvecl_ntt s1 in
  let t1 := polyvec_matrix_pointwise_montgomery mat s1hat in
  let t1 := polyveck_reduce t1 in
  let t1 := polyveck_invntt_tomont t1 in
  let t1 := polyveck_add t1 s2 in
  polyveck_caddq t1.

Definition crypto_sign_keypair_from_seed (fuel : nat) (seed : list Z) : option (list Z * list Z) :=
  let seedbuf := slice 0 SEEDBYTES seed ++ [Z.of_nat K; Z.of_nat L] in
  let seedbuf := shake256 (2 * SEEDBYTES + CRHBYTES) seedbuf in
  let rho := slice 0 SEEDBYTES seedbuf in
  let rhoprime := slice SEEDBYTES CRHBYTES seedbuf in
  let key := slice (SEEDBYTES + CRHBYTES) SEEDBYTES seedbuf in
  mat ← polyvec_matrix_expand fuel rho;
  s1 ← polyvecl_uniform_eta fuel rhoprime 0;
  s2 ← polyveck_uniform_eta fuel rhoprime (Z.of_nat L);
  let '(t1, t0) := polyveck_power2round (keygen_t mat s1 s2) in
  let pk := pack_pk rho t1 in
  let tr := shake256 TRBYTES pk in
  Some (pk, pack_sk rho tr key t0 s1 s2).

(** The same with the seed drawn from [randombytes]. *)
Definition crypto_sign_keypair (fuel : nat) (rnd : option (list Z)) : outcome (list Z * list Z) :=
  match rnd with
  | None => Fail (-1)
  | Some seed =>
      match crypto_sign_keypair_from_seed fuel seed with
      | None => OutOfFuel
      | Some kp => Ret kp
      end
  end.

Definition crypto_sign_sk_to_pk (fuel : nat) (sk : list Z) : option (list Z) :=
  let '(rho, tr, key, t0, s1, s2) := unpack_sk sk in
  mat ← polyvec_matrix_expand fuel rho;
  let '(t1, t0dummy) := polyveck_power2round (keygen_t mat s1 s2) in
  Some (pack_pk rho t1).

(** [mu = CRH(tr, 0, ctxlen, ctx, msg)] *)
Definition message_hash (tr ctx m : list Z) : list Z :=
  let st := shake256_inc_absorb shake256_inc_init tr in
  let st := shake256_inc_absorb st [0; u8 (Z.of_nat (length ctx))] in
  let st := shake256_inc_absorb st ctx in
  let st := shake256_inc_absorb st m in
  fst (shake256_inc_squeeze CRHBYTES (shake256_inc_finalize st)).
(** [H(mu, w1)], the challenge seed. *)
Definition challenge_hash (mu w1bytes : list Z) : list Z :=
  let st := shake256_inc_absorb shake256_inc_init mu in
  let st := shake256_inc_absorb st w1bytes in
  fst (shake256_inc_squeeze CTILDEBYTES (shake256_inc_finalize st)).

(** One pass from the label [rej]: [Some None] is [goto rej].  [s1], [s2] and
    [t0] are already transformed. *)
Definition sign_attempt (fuel : nat) (mat : list polyvecl) (s1 : polyvecl) (s2 t0 : polyveck)
    (mu rhoprime : list Z) (nonce : Z) : option (option (list Z)) :=
  let y := polyvecl_uniform_gamma1 rhoprime nonce in
  let z := polyvecl_ntt y in
  let w1 := polyvec_matrix_pointwise_montgomery mat z in
  let w1 := polyveck_reduce w1 in
  let w1 := polyveck_invntt_tomont w1 in
  let w1 := polyveck_caddq w1 in
  let '(w1, w0) := polyveck_decompose w1 in
  let c := challenge_hash mu (polyveck_pack_w1 w1) in
  cp ← poly_challenge fuel c;
  let cp := poly_ntt cp in
  let z := polyvecl_pointwise_poly_montgomery cp s1 in
  let z := polyvecl_invntt_tomont z in
  let z := polyvecl_add z y in
  let z := polyvecl_reduce z in
  if negb (polyvecl_chknorm z (GAMMA1 - BETA) =? 0) then Some None else
  let h := polyveck_pointwise_poly_montgomery cp s2 in
  let h := polyveck_invntt_tomont h in
  let w0 := polyveck_sub w0 h in
  let w0 := polyveck_reduce w0 in
  if negb (polyveck_chknorm w0 (GAMMA2 - BETA) =? 0) then Some None else
  let h := polyveck_pointwise_poly_montgomery cp t0 in
  let h := polyveck_invntt_tomont h in
  let h := polyveck_reduce h in
  if negb (polyveck_chknorm h GAMMA2 =? 0) then Some None else
  let w0 := polyveck_add w0 h in
  let '(h, n) := polyveck_make_hint w0 w1 in
  if n >? Z.of_nat OMEGA then Some None else
  Some (Some (pack_sig c z h)).

Fixpoint sign_loop (attempts fuel : nat) (mat : list polyvecl) (s1 : polyvecl) (s2 t0 : polyveck)
    (mu rhoprime : list Z) (nonce : Z) : option (list Z) :=
  match attempts with
  | O => None
  | Datatypes.S attempts =>
      match sign_attempt fuel mat s1 s2 t0 mu rhoprime nonce with
      | None => None
      | Some (Some sig) => Some sig
      | Some None => sign_loop attempts fuel mat s1 s2 t0 mu rhoprime (u16 (nonce + 1))
      end
  end.

Definition crypto_sign_signature_ctx (fuel : nat) (m ctx sk : list Z) (rnd : option (list Z))
    : outcome (list Z) :=
  if (255 <? length ctx)%nat then Fail (-1) else
  let '(rho, tr, key, t0, s1, s2) := unpack_sk sk in
  let mu := message_hash tr ctx m in
  match rnd with
  | None => Fail (-1)
  | Some rnd =>
      let rhoprime := shake256 CRHBYTES (key ++ rnd ++ mu) in
      match polyvec_matrix_expand fuel rho with
      | None => OutOfFuel
      | Some mat =>
          let s1 := polyvecl_ntt s1 in
          let s2 := polyveck_ntt s2 in
          let t0 := polyveck_ntt t0 in
          match sign_loop fuel fuel mat s1 s2 t0 mu rhoprime 0 with
          | None => OutOfFuel
          | Some sig => Ret sig
          end
      end
  end.

(** The signed message is the signature followed by the message. *)
Definition crypto_sign_ctx (fuel : nat) (m ctx sk : list Z) (rnd : option (list Z))
    : outcome (list Z) :=
  match crypto_sign_signature_ctx fuel m ctx sk rnd with
  | Ret sig => Ret (sig ++ m)
  | Fail e => Fail e
  | OutOfFuel => OutOfFuel
  end.

Definition crypto_sign_verify_ctx (fuel : nat) (sig m ctx pk : list Z) : option Z :=
  if (255 <? length ctx)%nat || negb (length sig =? CRYPTO_BYTES)%nat then Some (-1) else
  let '(rho, t1) := unpack_pk pk in
  match unpack_sig sig with
  | None => Some (-1)
  | Some (c, z, h) =>
      if negb (polyvecl_chknorm z (GAMMA1 - BETA) =? 0) then Some (-1) else
      let mu := message_hash (shake256 TRBYTES pk) ctx m in
      cp ← poly_challenge fuel c;
      mat ← polyvec_matrix_expand fuel rho;
      let z := polyvecl_ntt z in
      let w1 := polyvec_matrix_pointwise_montgomery mat z in
      let cp := poly_ntt cp in
      let t1 := polyveck_shiftl t1 in
      let t1 := polyveck_ntt t1 in
      let t1 := polyveck_pointwise_poly_montgomery cp t1 in
      let w1 := polyveck_sub w1 t1 in
      let w1 := polyveck_reduce w1 in
      let w1 := polyveck_invntt_tomont w1 in
      let w1 := polyveck_caddq w1 in
      let w1 := polyveck_use_hint w1 h in
      let buf := polyveck_pack_w1 w1 in
      let c2 := challenge_hash mu buf in
      if forallb (fun i => c !!! i =? c2 !!! i) (seq 0 CTILDEBYTES) then Some 0 else Some (-1)
  end.

(** The return code and the message buffer: the message, or [smlen] zeros
    with [*mlen = 0]. *)
Definition crypto_sign_open_ctx (fuel : nat) (sm ctx pk : list Z) : option (Z * list Z) :=
  let badsig := (-1, replicate (length sm) 0) in
  if (length sm <? CRYPTO_BYTES)%nat then Some badsig else
  r ← crypto_sign_verify_ctx fuel (slice 0 CRYPTO_BYTES sm) (drop CRYPTO_BYTES sm) ctx pk;
  if r =? 0 then Some (0, drop CRYPTO_BYTES sm) else Some badsig.

Definition crypto_sign_signature (fuel : nat) (m sk : list Z) (rnd : option (list Z)) :=
  crypto_sign_signature_ctx fuel m [] sk rnd.
Definition crypto_sign (fuel : nat) (m sk : list Z) (rnd : option (list Z)) :=
  crypto_sign_ctx fuel m [] sk rnd.
Definition crypto_sign_verify (fuel : nat) (sig m pk : list Z) :=
  crypto_sign_verify_ctx fuel sig m [] pk.
Definition crypto_sign_open (fuel : nat) (sm pk : list Z) :=
  crypto_sign_open_ctx fuel sm [] pk.
End sign.

(** ** Rounding and hints on whole polynomials *)

Lemma coeffs_in_fill lo hi f :
  (forall i, (i < 256)%nat -> lo <= f i <= hi) -> coeffs_in lo hi (fill N f).
Proof.
  intros H. split; [apply length_fill|]. intros i Hi. rewrite lookup_total_fill by exact Hi.
  apply H, Hi.
Qed.

Lemma poly_power2round_spec a :
  coeffs_in 0 (Q - 1) a ->
  coeffs_in 0 1023 (fst (poly_power2round a)) /\ coeffs_in (-4095) 4096 (snd (poly_power2round a)) /\
  forall i, (i < 256)%nat ->
    a !!! i = (fst (poly_power2round a)) !!! i * 8192 + (snd (poly_power2round a)) !!! i.
Proof.
  intros [_ Ha].
  assert (forall i, (i < 256)%nat ->
    a !!! i = fst (power2round (a !!! i)) * 8192 + snd (power2round (a !!! i)) /\
    -4096 < snd (power2round (a !!! i)) <= 4096 /\ 0 <= fst (power2round (a !!! i)) < 1024) as H.
  { intros i Hi. specialize (Ha i Hi). apply power2round_spec; [lia|apply surjective_pairing]. }
  unfold poly_power2round. cbn [fst snd].
  split; [|split]; [apply coeffs_in_fill; intros i Hi; specialize (H i Hi); lia..|].
  intros i Hi. rewrite !lookup_total_fill by exact Hi. apply H, Hi.
Qed.

Lemma poly_decompose_spec a :
  coeffs_in 0 (Q - 1) a ->
  coeffs_in 0 15 (fst (poly_decompose a)) /\ coeffs_ok 261888 (snd (poly_decompose a)) /\
  forall i, (i < 256)%nat ->
    a !!! i =[Q]= (fst (poly_decompose a)) !!! i * 523776 + (snd (poly_decompose a)) !!! i.
Proof.
  intros [_ Ha].
  assert (forall i, (i < 256)%nat ->
    0 <= fst (decompose (a !!! i)) <= 15 /\ -261888 <= snd (decompose (a !!! i)) <= 261888 /\
    fst (decompose (a !!! i)) * 523776 + snd (decompose (a !!! i)) =[Q]= a !!! i) as H.
  { intros i Hi. specialize (Ha i Hi).
    destruct (decompose_spec (a !!! i) (fst (decompose (a !!! i))) (snd (decompose (a !!! i))))
      as (H1 & H2 & H3); [lia|apply surjective_pairing|].
    split; [exact H1|]. split; [|exact H2]. lia. }
  unfold poly_decompose. cbn [fst snd].
  split; [apply coeffs_in_fill; intros i Hi; apply (H i Hi)|].
  split; [apply coeffs_in_fill; intros i Hi; specialize (H i Hi); lia|].
  intros i Hi. rewrite !lookup_total_fill by exact Hi. symmetry. apply H, Hi.
Qed.

Lemma make_hint_binary a0 a1 : binary (fst (poly_make_hint a0 a1)).
Proof.
  apply coeffs_in_fill. intros i Hi. destruct (make_hint_bit (a0 !!! i) (a1 !!! i)) as [-> | ->]; lia.
Qed.

(** The counter of the hint loops is the number of hints. *)
Lemma supp_upto_length n a : (length (supp_upto n a) <= n)%nat.
Proof.
  induction n as [|n IH]; [reflexivity|]. rewrite supp_upto_S, length_app.
  destruct (a !!! n =? 0); cbn [length]; lia.
Qed.
Lemma supp_length a : (length (supp a) <= 256)%nat.
Proof. exact (supp_upto_length N a). Qed.
Lemma hint_count_loop n a :
  (n <= 256)%nat -> binary a ->
  for_loop n 0 (fun i s => u32 (s + a !!! i)) 0 = Z.of_nat (length (supp_upto n a)).
Proof.
  intros Hn [Hl Ha].
  apply (for_loop_inv (fun m s => s = Z.of_nat (length (supp_upto m a))) _ n 0); [reflexivity|].
  intros m s Hm ->. specialize (Ha m ltac:(lia)). pose proof (supp_upto_length m a).
  rewrite u32_id by (unfold is_u32; lia). rewrite supp_upto_S, length_app.
  destruct (Z.eqb_spec (a !!! m) 0); cbn [length]; lia.
Qed.
Lemma poly_make_hint_count a0 a1 :
  snd (poly_make_hint a0 a1) = Z.of_nat (length (supp (fst (poly_make_hint a0 a1)))).
Proof.
  apply (hint_count_loop N (fst (poly_make_hint a0 a1))); [unfold N; lia|apply make_hint_binary].
Qed.

Lemma make_hint_vec v0 v1 :
  let '(h, n) := polyveck_make_hint v0 v1 in
  length h = K /\ Forall binary h /\ n = Z.of_nat (length (supps h K)).
Proof.
  unfold polyveck_make_hint. cbv zeta. set (h := fill K _).
  assert (forall i, (i < K)%nat -> h !!! i = fst (poly_make_hint (v0 !!! i) (v1 !!! i))) as Hh
    by (intros i Hi; exact (lookup_total_fill K _ i Hi)).
  split; [apply length_fill|]. split.
  - apply Forall_lookup_2. intros i a Hi. pose proof (lookup_lt_Some _ _ _ Hi) as Hlt.
    subst h. rewrite length_fill in Hlt. rewrite lookup_fill in Hi by exact Hlt. injection Hi as <-.
    apply make_hint_binary.
  - apply (for_loop_inv (fun m s => (m <= K)%nat /\ s = Z.of_nat (length (supps h m))) _ K 0);
      [split; [lia|reflexivity]|].
    intros m s Hm [_ ->]. split; [lia|]. rewrite poly_make_hint_count, <- Hh by lia.
    rewrite supps_S, length_app. pose proof (supp_length (h !!! m)) as H1.
    assert (forall i, (length (supps h i) <= 256 * i)%nat) as H2.
    { induction i as [|i IH]; [reflexivity|]. rewrite supps_S, length_app.
      pose proof (supp_length (h !!! i)). lia. }
    specialize (H2 m). unfold N, K in *. rewrite u32_id by (unfold is_u32; lia). lia.
Qed.

(** ** The scheme's equations *)

Lemma lookup_fill_poly n (f : nat -> poly) i : (i < n)%nat -> fill n f !!! i = f i.
Proof. apply lookup_total_fill. Qed.

Lemma caddq_in B a : coeffs_ok B a -> B < Q -> coeffs_in 0 (Q - 1) (poly_caddq a).
Proof.
  intros Ha HB. split; [apply length_fill|]. intros i Hi. rewrite (lookup_caddq B) by assumption.
  pose proof (Z.mod_pos_bound (a !!! i) Q ltac:(unfold Q; lia)). lia.
Qed.

Lemma small_product a b B :
  coeffs_ok 1 a -> coeffs_ok B b -> 0 <= B <= Q ->
  let c := poly_invntt_tomont (poly_pointwise_montgomery (poly_ntt a) (poly_ntt b)) in
  coeffs_ok 4211200 c /\ forall x, (x < 256)%nat -> val c x =[Q]= val a x * val b x.
Proof. intros Ha Hb HB. apply (val_product 1 B); try assumption; unfold Q in *; lia. Qed.

(** Public and secret parts of a key: [t = A s1 + s2 = 2^13 t1 + t0] on values. *)
Record key_ok (mat : list polyvecl) (s1 : polyvecl) (s2 t1 t0 : polyveck) : Prop := {
  key_mat : mat_ok mat;
  key_s1 : vec_in L (- ETA) ETA s1;
  key_s2 : vec_in K (- ETA) ETA s2;
  key_t1 : vec_in K 0 1023 t1;
  key_t0 : vec_in K (-4095) 4096 t0;
  key_eq : forall i x, (i < K)%nat -> (x < 256)%nat ->
    8192 * val (t1 !!! i) x + val (t0 !!! i) x
    =[Q]= row_val mat (fun j => val (s1 !!! j)) i x + val (s2 !!! i) x
}.

Lemma keygen_t_spec mat s1 s2 i :
  mat_ok mat -> vec_ok L 11 s1 -> vec_ok K 11 s2 -> (i < K)%nat ->
  coeffs_in 0 (Q - 1) (keygen_t mat s1 s2 !!! i) /\
  forall x, (x < 256)%nat ->
    val (keygen_t mat s1 s2 !!! i) x
    =[Q]= row_val mat (fun j => val (s1 !!! j)) i x + val (s2 !!! i) x.
Proof.
  intros Hm H1 [_ H2] Hi.
  destruct (matrix_vector_spec mat 11 s1 i Hm H1 ltac:(unfold Q; lia) Hi) as [W1 W2].
  unfold keygen_t, polyveck_caddq, polyveck_add. cbv zeta. rewrite !lookup_fill_poly by exact Hi.
  set (w := polyveck_invntt_tomont _ !!! i) in *.
  assert (4211200 + 11 <= 2147483647) as HB by lia.
  pose proof (add_ok _ _ _ _ W1 (H2 i Hi) HB) as Ha.
  split; [apply (caddq_in (4211200 + 11) _ Ha); unfold Q; lia|].
  intros x Hx. rewrite (val_caddq _ _ x Ha) by (unfold Q; lia).
  rewrite (val_add _ _ _ _ x W1 (H2 i Hi) HB), (W2 x Hx). reflexivity.
Qed.

Lemma keygen_key_ok mat s1 s2 :
  mat_ok mat -> vec_in L (- ETA) ETA s1 -> vec_in K (- ETA) ETA s2 ->
  let '(t1, t0) := polyveck_power2round (keygen_t mat s1 s2) in key_ok mat s1 s2 t1 t0.
Proof.
  intros Hm H1 H2. unfold polyveck_power2round.
  assert (vec_ok L 11 s1) as O1 by (eapply vec_in_ok; [exact H1|unfold ETA; lia..]).
  assert (vec_ok K 11 s2) as O2 by (eapply vec_in_ok; [exact H2|unfold ETA; lia..]).
  pose proof (fun i => keygen_t_spec mat s1 s2 i Hm O1 O2) as Ht.
  set (t := keygen_t mat s1 s2) in *. clearbody t.
  pose proof (fun i Hi => poly_power2round_spec (t !!! i) (proj1 (Ht i Hi))) as Hp.
  split; [exact Hm|exact H1|exact H2|..].
  - split; [apply length_fill|]. intros i Hi. rewrite lookup_fill_poly by exact Hi. apply (Hp i Hi).
  - split; [apply length_fill|]. intros i Hi. rewrite lookup_fill_poly by exact Hi. apply (Hp i Hi).
  - intros i x Hi Hx. rewrite !lookup_fill_poly by exact Hi.
    rewrite <- (proj2 (Ht i Hi) x Hx). symmetry. apply val_lin. intros k Hk.
    apply cong_refl_eq. apply (Hp i Hi), Hk.
Qed.

(** The verifier's [w1], before the hints are applied. *)
Definition verify_w (mat : list polyvecl) (z : polyvecl) (cp : poly) (t1 : polyveck) : polyveck :=
  let w1 := polyvec_matrix_pointwise_montgomery mat (polyvecl_ntt z) in
  let t1 := polyveck_pointwise_poly_montgomery (poly_ntt cp) (polyveck_ntt (polyveck_shiftl t1)) in
  polyveck_caddq (polyveck_invntt_tomont (polyveck_reduce (polyveck_sub w1 t1))).

Lemma verify_w_spec mat z cp t1 i :
  mat_ok mat -> vec_ok L 524288 z -> coeffs_ok 1 cp -> vec_in K 0 1023 t1 -> (i < K)%nat ->
  coeffs_in 0 (Q - 1) (verify_w mat z cp t1 !!! i) /\
  forall x, (x < 256)%nat ->
    val (verify_w mat z cp t1 !!! i) x
    =[Q]= row_val mat (fun j => val (z !!! j)) i x - val cp x * (8192 * val (t1 !!! i) x).
Proof.
  intros Hm [Lz Hz] Hc [_ Ht] Hi. unfold verify_w, polyveck_caddq, polyveck_invntt_tomont,
    polyveck_reduce, polyveck_sub, polyvec_matrix_pointwise_montgomery,
    polyveck_pointwise_poly_montgomery, polyveck_ntt, polyveck_shiftl. cbv zeta.
  rewrite !lookup_fill_poly by exact Hi. specialize (Ht i Hi).
  assert (vec_ok L (524288 + 8 * Q) (polyvecl_ntt z)) as HN.
  { apply vec_ok_fill. intros j Hj. apply ntt_ok; [apply Hz, Hj|unfold Q; lia]. }
  destruct (pointwise_acc_spec (524288 + 8 * Q) (mat !!! i) (polyvecl_ntt z)) as [A1 A2];
    [intros j Hj; apply Hm; assumption|exact HN|unfold Q; lia|].
  set (acc := polyvecl_pointwise_acc_montgomery _ _) in *.
  assert (coeffs_ok 1023 (t1 !!! i)) as Ot by (apply (coeffs_in_ok 0 1023); [exact Ht|lia..]).
  assert (coeffs_ok Q (poly_shiftl (t1 !!! i))) as Os.
  { split; [apply length_fill|]. intros k Hk. rewrite (lookup_shiftl 1023) by (assumption || lia).
    destruct Ht as [_ Ht]. specialize (Ht k Hk). unfold Q. lia. }
  assert (0 <= 1 <= 2147483647 - 8 * Q) as R1 by (unfold Q; lia).
  assert (0 <= Q <= 2147483647 - 8 * Q) as RQ by (unfold Q; lia).
  pose proof (ntt_ok 1 cp Hc R1) as Nc. pose proof (ntt_ok Q _ Os RQ) as Ns.
  assert ((1 + 8 * Q) * (Q + 8 * Q) < 2147483648 * Q) as RP by (unfold Q; lia).
  assert (0 <= 1 + 8 * Q) as P1 by (unfold Q; lia). assert (0 <= Q + 8 * Q) as PQ by (unfold Q; lia).
  pose proof (pointwise_ok _ _ _ _ Nc Ns RP P1 PQ) as Op.
  set (pt := poly_pointwise_montgomery _ _) in *.
  assert (5 * (Q - 1) + (Q - 1) <= 2143289343) as R6 by (unfold Q; lia).
  assert (5 * (Q - 1) + (Q - 1) <= 2147483647) as R6' by lia.
  pose proof (sub_ok _ _ _ _ A1 Op R6') as Od.
  destruct (val_invntt (poly_reduce (poly_sub acc pt))) as [V1 V2].
  { apply (coeffs_ok_mono 6283009); [unfold Q; lia|]. apply (reduce_ok _ _ Od R6). }
  split; [apply (caddq_in _ _ V1); unfold Q; lia|].
  intros x Hx. rewrite (val_caddq _ _ x V1) by (unfold Q; lia).
  rewrite (V2 x Hx), (lookup_reduce _ _ x Od R6 Hx), (lookup_sub _ _ _ _ x A1 Op R6' Hx).
  rewrite Z.mul_sub_distr_r, (A2 x Hx). subst pt.
  rewrite (proj1 (lookup_pointwise _ _ _ _ x Nc Ns RP P1 PQ Hx)).
  rewrite (val_ntt 1 cp x Hc R1 Hx), (val_ntt Q _ x Os RQ Hx), (val_shiftl 1023 _ x Ot) by lia.
  apply cong_sub; [|reflexivity]. apply zsum_cong. intros j Hj.
  unfold polyvecl_ntt. rewrite lookup_fill_poly by exact Hj.
  rewrite (val_ntt 524288 _ x (Hz j Hj)) by (unfold Q; lia || exact Hx). reflexivity.
Qed.

(** [A z - c t1 2^13 = w - c s2 + c t0] when [z = y + c s1]. *)
Lemma verify_w_val mat s1 s2 t1 t0 (y z : polyvecl) cp i x :
  key_ok mat s1 s2 t1 t0 -> vec_ok L 524288 z -> coeffs_ok 1 cp -> (i < K)%nat -> (x < 256)%nat ->
  (forall j, (j < L)%nat -> val (z !!! j) x =[Q]= val cp x * val (s1 !!! j) x + val (y !!! j) x) ->
  val (verify_w mat z cp t1 !!! i) x
  =[Q]= row_val mat (fun j => val (y !!! j)) i x - val cp x * val (s2 !!! i) x
        + val cp x * val (t0 !!! i) x.
Proof.
  intros HK Hz Hc Hi Hx Hzy.
  destruct (verify_w_spec mat z cp t1 i (key_mat _ _ _ _ _ HK) Hz Hc (key_t1 _ _ _ _ _ HK) Hi) as [_ V].
  rewrite (V x Hx). pose proof (key_eq _ _ _ _ _ HK i x Hi Hx) as E.
  rewrite (row_val_cong mat (fun j => val (z !!! j))
    (fun j x => val cp x * val (s1 !!! j) x + val (y !!! j) x) i x Hzy).
  assert (8192 * val (t1 !!! i) x
    =[Q]= row_val mat (fun j => val (s1 !!! j)) i x + val (s2 !!! i) x - val (t0 !!! i) x) as E1.
  { rewrite <- E. apply cong_refl_eq. lia. }
  rewrite E1.
  replace (row_val mat (fun j x0 => val cp x0 * val (s1 !!! j) x0 + val (y !!! j) x0) i x)
    with (val cp x * row_val mat (fun j => val (s1 !!! j)) i x + row_val mat (fun j => val (y !!! j)) i x)
    by (symmetry; exact (row_val_lin mat (val cp x) (fun j => val (s1 !!! j)) (fun j => val (y !!! j)) i x)).
  generalize (val cp x) (row_val mat (fun j => val (s1 !!! j)) i x)
    (row_val mat (fun j => val (y !!! j)) i x) (val (s2 !!! i) x) (val (t0 !!! i) x).
  intros. apply cong_refl_eq. ring.
Qed.

(** The hint recovers the signer's high part of each coefficient. *)
Lemma use_hint_row (r w w1 w0 s : poly) :
  coeffs_in 0 (Q - 1) r -> coeffs_in 0 15 w1 -> coeffs_ok 523579 s ->
  (forall k, (k < 256)%nat -> w !!! k =[Q]= w1 !!! k * 523776 + w0 !!! k) ->
  (forall k, (k < 256)%nat -> r !!! k =[Q]= w !!! k - w0 !!! k + s !!! k) ->
  poly_use_hint r (fst (poly_make_hint s w1)) = w1.
Proof.
  intros [_ Hr] [L1 H1] [_ Hs] Hw E. apply (list_eq_total _ _ 256); [apply length_fill|exact L1|].
  intros k Hk. unfold poly_use_hint, poly_make_hint. cbn [fst].
  rewrite !lookup_total_fill by exact Hk. specialize (Hr k Hk). specialize (H1 k Hk). specialize (Hs k Hk).
  apply use_hint_make_hint; try (rewrite GAMMA2_val); try lia.
  rewrite (E k Hk), (Hw k Hk). apply cong_refl_eq. lia.
Qed.

Section attempt.
Context `{HS : ShakeLaws}.
Context (mat : list polyvecl) (s1 : polyvecl) (s2 t1 t0 : polyveck) (HK : key_ok mat s1 s2 t1 t0).

(** The signer's response vector. *)
Definition response (cp : poly) (y : polyvecl) : polyvecl :=
  polyvecl_reduce (polyvecl_add (polyvecl_invntt_tomont
    (polyvecl_pointwise_poly_montgomery (poly_ntt cp) (polyvecl_ntt s1))) y).

Lemma response_spec cp y j :
  coeffs_ok 1 cp -> vec_ok L 524288 y -> (j < L)%nat ->
  coeffs_ok 6283009 (response cp y !!! j) /\
  forall x, (x < 256)%nat ->
    val (response cp y !!! j) x =[Q]= val cp x * val (s1 !!! j) x + val (y !!! j) x.
Proof using HK.
  intros Hc [_ Hy] Hj. destruct (key_s1 _ _ _ _ _ HK) as [_ H1].
  unfold response, polyvecl_reduce, polyvecl_add, polyvecl_invntt_tomont,
    polyvecl_pointwise_poly_montgomery, polyvecl_ntt. rewrite !lookup_fill_poly by exact Hj.
  assert (coeffs_ok 4 (s1 !!! j)) as O1 by (eapply coeffs_in_ok; [apply H1, Hj|unfold ETA; lia..]).
  destruct (small_product cp (s1 !!! j) 4 Hc O1 ltac:(unfold Q; lia)) as [P1 P2].
  set (p := poly_invntt_tomont _) in *.
  assert (4211200 + 524288 <= 2147483647) as R by lia.
  pose proof (add_ok _ _ _ _ P1 (Hy j Hj) R) as Oa. split; [apply (reduce_ok _ _ Oa); lia|].
  intros x Hx. rewrite (val_reduce _ _ x Oa), (val_add _ _ _ _ x P1 (Hy j Hj) R), (P2 x Hx) by lia.
  reflexivity.
Qed.

(** The perturbation [w0 - c s2 + c t0] of the low part, as the signer computes it. *)
Definition low_part (cp : poly) (w0 : polyveck) : polyveck :=
  polyveck_reduce (polyveck_sub w0 (polyveck_invntt_tomont
    (polyveck_pointwise_poly_montgomery (poly_ntt cp) (polyveck_ntt s2)))).
Definition t0_part (cp : poly) : polyveck :=
  polyveck_reduce (polyveck_invntt_tomont
    (polyveck_pointwise_poly_montgomery (poly_ntt cp) (polyveck_ntt t0))).

Lemma low_part_spec cp w0 i :
  coeffs_ok 1 cp -> (i < K)%nat -> coeffs_ok 261888 (w0 !!! i) ->
  coeffs_ok 6283009 (low_part cp w0 !!! i) /\
  forall x, (x < 256)%nat ->
    val (low_part cp w0 !!! i) x =[Q]= val (w0 !!! i) x - val cp x * val (s2 !!! i) x.
Proof using HK.
  intros Hc Hi Hw. destruct (key_s2 _ _ _ _ _ HK) as [_ H2].
  unfold low_part, polyveck_reduce, polyveck_sub, polyveck_invntt_tomont,
    polyveck_pointwise_poly_montgomery, polyveck_ntt. rewrite !lookup_fill_poly by exact Hi.
  assert (coeffs_ok 4 (s2 !!! i)) as O2 by (eapply coeffs_in_ok; [apply H2, Hi|unfold ETA; lia..]).
  destruct (small_product cp (s2 !!! i) 4 Hc O2 ltac:(unfold Q; lia)) as [P1 P2].
  set (p := poly_invntt_tomont _) in *.
  assert (261888 + 4211200 <= 2147483647) as R by lia.
  pose proof (sub_ok _ _ _ _ Hw P1 R) as Oa. split; [apply (reduce_ok _ _ Oa); lia|].
  intros x Hx. rewrite (val_reduce _ _ x Oa), (val_sub _ _ _ _ x Hw P1 R), (P2 x Hx) by lia.
  reflexivity.
Qed.
Lemma t0_part_spec cp i :
  coeffs_ok 1 cp -> (i < K)%nat ->
  coeffs_ok 6283009 (t0_part cp !!! i) /\
  forall x, (x < 256)%nat -> val (t0_part cp !!! i) x =[Q]= val cp x * val (t0 !!! i) x.
Proof using HK.
  intros Hc Hi. destruct (key_t0 _ _ _ _ _ HK) as [_ H0].
  unfold t0_part, polyveck_reduce, polyveck_invntt_tomont,
    polyveck_pointwise_poly_montgomery, polyveck_ntt. rewrite !lookup_fill_poly by exact Hi.
  assert (coeffs_ok 4096 (t0 !!! i)) as O0 by (eapply coeffs_in_ok; [apply H0, Hi|lia..]).
  destruct (small_product cp (t0 !!! i) 4096 Hc O0 ltac:(unfold Q; lia)) as [P1 P2].
  split; [apply (reduce_ok _ _ P1); lia|].
  intros x Hx. rewrite (val_reduce _ _ x P1), (P2 x Hx) by lia. reflexivity.
Qed.

(** If the norm checks pass, applying the hints to the verifier's vector gives
    the signer's high part. *)
Lemma verifier_recovers cp y w1 w0 :
  coeffs_ok 1 cp -> vec_ok L 524288 y ->
  let w := polyveck_caddq (polyveck_invntt_tomont (polyveck_reduce
             (polyvec_matrix_pointwise_montgomery mat (polyvecl_ntt y)))) in
  polyveck_decompose w = (w1, w0) ->
  vec_ok L 524091 (response cp y) -> vec_ok K 261691 (low_part cp w0) -> vec_ok K 261887 (t0_part cp) ->
  polyveck_use_hint (verify_w mat (response cp y) cp t1)
    (fst (polyveck_make_hint (polyveck_add (low_part cp w0) (t0_part cp)) w1)) = w1.
Proof using HK.
  intros Hc Hy. cbv zeta. intros Hd Nz [_ N0] [_ Nt].
  unfold polyveck_decompose in Hd. pose proof (f_equal fst Hd) as E1. pose proof (f_equal snd Hd) as E2.
  cbn [fst snd] in E1, E2. subst w1 w0. clear Hd.
  set (w := polyveck_caddq _) in *.
  unfold polyveck_use_hint. apply fill_ext. intros i Hi.
  unfold polyveck_make_hint. cbn [fst]. rewrite !lookup_fill_poly by exact Hi.
  destruct (matrix_vector_spec mat 524288 y i (key_mat _ _ _ _ _ HK) Hy ltac:(unfold Q; lia) Hi) as [W1 W2].
  assert (w !!! i = poly_caddq (polyveck_invntt_tomont (polyveck_reduce
    (polyvec_matrix_pointwise_montgomery mat (polyvecl_ntt y))) !!! i)) as Ew
    by (exact (lookup_fill_poly K _ i Hi)).
  set (u := polyveck_invntt_tomont _ !!! i) in *. clearbody w.
  assert (coeffs_in 0 (Q - 1) (w !!! i)) as Iw by (rewrite Ew; apply (caddq_in _ _ W1); unfold Q; lia).
  destruct (poly_decompose_spec (w !!! i) Iw) as (D1 & D2 & D3).
  set (w0 := fill K (fun i => snd (poly_decompose (w !!! i)))) in *.
  assert (w0 !!! i = snd (poly_decompose (w !!! i))) as E0 by (exact (lookup_fill_poly K _ i Hi)).
  assert (coeffs_ok 261888 (w0 !!! i)) as O0 by (rewrite E0; exact D2).
  destruct (low_part_spec cp w0 i Hc Hi O0) as [_ Vl]. destruct (t0_part_spec cp i Hc Hi) as [_ Vt].
  assert (vec_ok L 524288 (response cp y)) as Oz by (eapply vec_ok_mono; [|exact Nz]; lia).
  destruct (verify_w_spec mat (response cp y) cp t1 i (key_mat _ _ _ _ _ HK) Oz Hc
    (key_t1 _ _ _ _ _ HK) Hi) as [Ir _].
  unfold polyveck_add. rewrite lookup_fill_poly by exact Hi.
  assert (261691 + 261887 <= 2147483647) as R by lia.
  pose proof (add_ok _ _ _ _ (N0 i Hi) (Nt i Hi) R) as Os.
  apply (use_hint_row _ (w !!! i) _ (w0 !!! i)).
  - exact Ir.
  - exact D1.
  - eapply coeffs_ok_mono; [|exact Os]. lia.
  - rewrite E0. exact D3.
  - set (s := poly_add _ _) in *. set (r := verify_w _ _ _ _ !!! i) in *.
    apply val_inj_lin. intros x Hx. subst r s.
    rewrite (verify_w_val mat s1 s2 t1 t0 y _ cp i x HK Oz Hc Hi Hx)
      by (intros j Hj; apply (response_spec cp y j Hc Hy Hj), Hx).
    rewrite (val_add _ _ _ _ x (N0 i Hi) (Nt i Hi) R), (Vl x Hx), (Vt x Hx), Ew.
    rewrite (val_caddq _ _ x W1) by (unfold Q; lia). rewrite (W2 x Hx).
    generalize (val (w0 !!! i) x) (val cp x) (val (s2 !!! i) x) (val (t0 !!! i) x)
      (row_val mat (fun j => val (y !!! j)) i x). intros. apply cong_refl_eq. ring.
Qed.
End attempt.

Section correctness.
Context `{HS : ShakeLaws}.

(** What the verifier needs of a signature. *)
Definition good_signature (fuel : nat) (mat : list polyvecl) (t1 : polyveck) (mu sig : list Z) : Prop :=
  exists c z h cp,
    sig = pack_sig c z h /\ length c = CTILDEBYTES /\ vec_ok L 524091 z /\ hints_ok h /\
    poly_challenge fuel c = Some cp /\
    challenge_hash mu (polyveck_pack_w1 (polyveck_use_hint (verify_w mat z cp t1) h)) = c.

Lemma sign_attempt_good mat s1 s2 t1 t0 fuel mu rhoprime nonce sig :
  key_ok mat s1 s2 t1 t0 ->
  sign_attempt fuel mat (polyvecl_ntt s1) (polyveck_ntt s2) (polyveck_ntt t0) mu rhoprime nonce
    = Some (Some sig) ->
  good_signature fuel mat t1 mu sig.
Proof using HS.
  intros HK. unfold sign_attempt. set (y := polyvecl_uniform_gamma1 rhoprime nonce).
  assert (vec_ok L 524288 y) as Hy.
  { eapply vec_in_ok; [apply polyvecl_uniform_gamma1_range|rewrite GAMMA1_val; lia..]. }
  destruct (polyveck_decompose _) as [w1 w0] eqn:Hd. set (c := challenge_hash _ _).
  destruct (poly_challenge fuel c) as [cp|] eqn:Hc; [|discriminate]. cbn [mbind option_bind].
  assert (coeffs_ok 1 cp) as Oc.
  { destruct (poly_challenge_range _ _ _ Hc) as [H1 _]. eapply coeffs_in_ok; [exact H1|lia..]. }
  fold (response s1 cp y) (low_part s2 cp w0) (t0_part t0 cp).
  change (GAMMA1 - BETA) with 524092. change (GAMMA2 - BETA) with 261692. rewrite GAMMA2_val.
  assert (vec_ok L 1073741823 (response s1 cp y)) as O1.
  { apply vec_ok_mono with 6283009; [lia|]. split; [apply length_fill|]. intros j Hj.
    apply (response_spec mat s1 s2 t1 t0 HK cp y j Oc Hy Hj). }
  unfold polyvecl_chknorm, polyveck_chknorm.
  destruct (Z.eqb_spec (chknorm_vec (response s1 cp y) 524092) 0) as [N1|]; [|discriminate].
  cbn [negb]. apply (chknorm_vec_0 L) in N1; [|exact O1|lia].
  pose proof Hd as Hd'. unfold polyveck_decompose in Hd'. pose proof (f_equal snd Hd') as E2.
  cbn [snd] in E2. clear Hd'.
  assert (forall i, (i < K)%nat -> coeffs_ok 261888 (w0 !!! i)) as O0.
  { intros i Hi. subst w0. rewrite lookup_fill_poly by exact Hi. apply poly_decompose_spec.
    unfold polyveck_caddq. rewrite lookup_fill_poly by exact Hi. eapply caddq_in;
      [apply (matrix_vector_spec mat 524288 y i (key_mat _ _ _ _ _ HK) Hy ltac:(unfold Q; lia) Hi)|
       unfold Q; lia]. }
  assert (vec_ok K 1073741823 (low_part s2 cp w0)) as O2.
  { apply vec_ok_mono with 6283009; [lia|]. split; [apply length_fill|]. intros i Hi.
    apply (low_part_spec mat s1 s2 t1 t0 HK cp w0 i Oc Hi (O0 i Hi)). }
  destruct (Z.eqb_spec (chknorm_vec (low_part s2 cp w0) 261692) 0) as [N2|]; [|discriminate].
  cbn [negb]. apply (chknorm_vec_0 K) in N2; [|exact O2|lia].
  assert (vec_ok K 1073741823 (t0_part t0 cp)) as O3.
  { apply vec_ok_mono with 6283009; [lia|]. split; [apply length_fill|]. intros i Hi.
    apply (t0_part_spec mat s1 s2 t1 t0 HK cp i Oc Hi). }
  destruct (Z.eqb_spec (chknorm_vec (t0_part t0 cp) 261888) 0) as [N3|]; [|discriminate].
  cbn [negb]. apply (chknorm_vec_0 K) in N3; [|exact O3|lia].
  pose proof (verifier_recovers mat s1 s2 t1 t0 HK cp y w1 w0 Oc Hy Hd N1 N2 N3) as HV.
  pose proof (make_hint_vec (polyveck_add (low_part s2 cp w0) (t0_part t0 cp)) w1) as HH.
  destruct (polyveck_make_hint _ w1) as [h n] eqn:Eh. destruct HH as (Lh & Fh & Hn).
  destruct (Z.gtb_spec n (Z.of_nat OMEGA)); [discriminate|]. intros [= <-].
  cbn [fst] in HV. exists c, (response s1 cp y), h, cp.
  split; [reflexivity|]. split; [apply squeeze256_len|]. split; [exact N1|].
  split; [split; [exact Lh|split; [exact Fh|lia]]|]. split; [exact Hc|].
  rewrite HV. reflexivity.
Qed.

Lemma sign_loop_good mat s1 s2 t1 t0 attempts fuel mu rhoprime nonce sig :
  key_ok mat s1 s2 t1 t0 ->
  sign_loop attempts fuel mat (polyvecl_ntt s1) (polyveck_ntt s2) (polyveck_ntt t0) mu rhoprime nonce
    = Some sig ->
  good_signature fuel mat t1 mu sig.
Proof using HS.
  intros HK. revert nonce. induction attempts as [|n IH]; intros nonce; cbn [sign_loop]; [discriminate|].
  destruct (sign_attempt _ _ _ _ _ _ _ _) as [[sig'|]|] eqn:E; [|apply IH|discriminate].
  intros [= <-]. apply (sign_attempt_good _ _ _ _ _ _ _ _ _ _ HK E).
Qed.

Lemma good_signature_length fuel mat t1 mu sig :
  good_signature fuel mat t1 mu sig -> length sig = CRYPTO_BYTES.
Proof using HS.
  intros (c & z & h & cp & -> & _ & _ & Hh & _). unfold pack_sig. rewrite !length_app, length_fill.
  rewrite (length_fill_chunks POLYZ_PACKEDBYTES) by (intros; apply polyz_pack_len).
  rewrite encode_h_eq by apply Hh. rewrite hint_bytes_len by exact Hh. reflexivity.
Qed.

Lemma verify_good fuel rho t1 pk mat m ctx sig :
  unpack_pk pk = (rho, t1) -> polyvec_matrix_expand fuel rho = Some mat -> (length ctx <= 255)%nat ->
  good_signature fuel mat t1 (message_hash (shake256 TRBYTES pk) ctx m) sig ->
  crypto_sign_verify_ctx fuel sig m ctx pk = Some 0.
Proof using HS.
  intros Hpk Hmat Hctx HG.
  unfold crypto_sign_verify_ctx.
  replace (255 <? length ctx)%nat with false by (symmetry; apply Nat.ltb_ge; lia).
  pose proof (good_signature_length _ _ _ _ _ HG) as Hlen.
  destruct HG as (c & z & h & cp & -> & Lc & Nz & Hh & Hc & Hw).
  rewrite Hlen, Nat.eqb_refl. cbn [orb negb]. rewrite Hpk.
  assert (vec_in L (- (GAMMA1 - 1)) GAMMA1 z) as Iz.
  { destruct Nz as [Lz Nz]. split; [exact Lz|]. intros i Hi. destruct (Nz i Hi) as [Li Ni].
    split; [exact Li|]. intros k Hk. specialize (Ni k Hk). rewrite GAMMA1_val. lia. }
  rewrite (unpack_pack_sig c z h Lc Iz Hh).
  change (GAMMA1 - BETA) with 524092. unfold polyvecl_chknorm.
  rewrite (proj2 (chknorm_vec_0 L z 524092 ltac:(eapply vec_ok_mono; [|exact Nz]; lia) ltac:(lia)) Nz).
  cbn [Z.eqb negb]. rewrite Hc. cbn [mbind option_bind]. rewrite Hmat. cbn [mbind option_bind].
  fold (verify_w mat z cp t1). rewrite Hw.
  replace (forallb _ _) with true; [reflexivity|]. symmetry. apply forallb_forall.
  intros i _. apply Z.eqb_refl.
Qed.

(** What key generation puts in the two keys. *)
Lemma keypair_key_ok fuel seed pk sk :
  crypto_sign_keypair_from_seed fuel seed = Some (pk, sk) ->
  exists rho key mat s1 s2 t1 t0,
    key_ok mat s1 s2 t1 t0 /\ polyvec_matrix_expand fuel rho = Some mat /\
    (t1, t0) = polyveck_power2round (keygen_t mat s1 s2) /\
    pk = pack_pk rho t1 /\
    unpack_pk pk = (rho, t1) /\ unpack_sk sk = (rho, shake256 TRBYTES pk, key, t0, s1, s2).
Proof using HS.
  unfold crypto_sign_keypair_from_seed. set (seedbuf := shake256 _ _).
  assert (length seedbuf = 128%nat) as Ls by apply shake256_len.
  set (rho := slice 0 SEEDBYTES seedbuf). set (rhoprime := slice SEEDBYTES _ _).
  set (key := slice (SEEDBYTES + CRHBYTES) _ _).
  destruct (polyvec_matrix_expand fuel rho) as [mat|] eqn:Em; [|discriminate].
  cbn [mbind option_bind].
  destruct (polyvecl_uniform_eta fuel rhoprime 0) as [s1|] eqn:E1; [|discriminate].
  cbn [mbind option_bind].
  destruct (polyveck_uniform_eta fuel rhoprime (Z.of_nat L)) as [s2|] eqn:E2; [|discriminate].
  cbn [mbind option_bind].
  pose proof (keygen_key_ok mat s1 s2 (matrix_expand_ok _ _ _ Em)
    (polyvecl_uniform_eta_range _ _ _ _ E1) (polyveck_uniform_eta_range _ _ _ _ E2)) as HK.
  destruct (polyveck_power2round _) as [t1 t0] eqn:Et. intros [= <- <-].
  exists rho, key, mat, s1, s2, t1, t0. split; [exact HK|]. split; [exact Em|].
  split; [symmetry; exact Et|]. assert (length rho = SEEDBYTES) as Lr by (apply slice_len; rewrite Ls; unfold SEEDBYTES; lia).
  assert (length key = SEEDBYTES) as Lk by (apply slice_len; rewrite Ls; unfold SEEDBYTES, CRHBYTES; lia).
  split; [reflexivity|]. split.
  - apply unpack_pack_pk; [exact Lr|apply (key_t1 _ _ _ _ _ HK)].
  - apply unpack_pack_sk; [exact Lr|apply shake256_len|exact Lk|apply (key_t0 _ _ _ _ _ HK)|
      apply (key_s1 _ _ _ _ _ HK)|apply (key_s2 _ _ _ _ _ HK)].
Qed.

(** Signatures under a generated key have the right length and verify. *)
Lemma keypair_verifies fuel seed m ctx rnd pk sk sig :
  crypto_sign_keypair_from_seed fuel seed = Some (pk, sk) ->
  crypto_sign_signature_ctx fuel m ctx sk (Some rnd) = Ret sig ->
  length sig = CRYPTO_BYTES /\ crypto_sign_verify_ctx fuel sig m ctx pk = Some 0.
Proof using HS.
  intros Hkey Hsig.
  destruct (keypair_key_ok _ _ _ _ Hkey) as (rho & key & mat & s1 & s2 & t1 & t0 & HK & Em & _ & _ & Hp & Hs).
  unfold crypto_sign_signature_ctx in Hsig.
  destruct (Nat.ltb_spec 255 (length ctx)) as [|Hctx]; [discriminate|].
  rewrite Hs, Em in Hsig. destruct (sign_loop _ _ _ _ _ _ _ _ _) as [sig'|] eqn:El; [|discriminate].
  injection Hsig as ->. pose proof (sign_loop_good _ _ _ _ _ _ _ _ _ _ _ HK El) as HG.
  split; [apply (good_signature_length _ _ _ _ _ HG)|].
  apply (verify_good fuel rho t1 pk mat); [exact Hp|exact Em|exact Hctx|exact HG].
Qed.
End correctness.

(** C5: correctness of the signature scheme.  Whatever the hash function (any
    instance of the SHAKE interface), if key generation from a seed returns
    (pk, sk) and signing any message with any context and any randomness under
    sk returns a signature, then verifying it under pk with that message and
    context returns 0, with the same sampling fuel and no arithmetic overflow on
    the way. *)
Theorem sign_verify_correct `{ShakeLaws} (fuel : nat) (seed m ctx rnd pk sk sig : list Z)
  (Hkey : crypto_sign_keypair_from_seed fuel seed = Some (pk, sk))
  (Hsig : crypto_sign_signature_ctx fuel m ctx sk (Some rnd) = Ret sig) :
  crypto_sign_verify_ctx fuel sig m ctx pk = Some 0.
Proof. apply (keypair_verifies fuel seed m ctx rnd pk sk sig Hkey Hsig). Qed.

(** ** Runs step by step *)

Section steps.
Context `{S : ShakeOps}.

Lemma keypair_intro fuel seed seedbuf mat s1 s2 t1 t0 :
  let rho := slice 0 SEEDBYTES seedbuf in
  let rhoprime := slice SEEDBYTES CRHBYTES seedbuf in
  let key := slice (SEEDBYTES + CRHBYTES) SEEDBYTES seedbuf in
  shake256 (2 * SEEDBYTES + CRHBYTES) (slice 0 SEEDBYTES seed ++ [Z.of_nat K; Z.of_nat L]) = seedbuf ->
  polyvec_matrix_expand fuel rho = Some mat ->
  polyvecl_uniform_eta fuel rhoprime 0 = Some s1 ->
  polyveck_uniform_eta fuel rhoprime (Z.of_nat L) = Some s2 ->
  polyveck_power2round (keygen_t mat s1 s2) = (t1, t0) ->
  crypto_sign_keypair_from_seed fuel seed
  = Some (pack_pk rho t1, pack_sk rho (shake256 TRBYTES (pack_pk rho t1)) key t0 s1 s2).
Proof.
  cbv zeta. intros H0 H1 H2 H3 H4. unfold crypto_sign_keypair_from_seed. rewrite H0, H1.
  cbn [mbind option_bind]. rewrite H2. cbn [mbind option_bind]. rewrite H3.
  cbn [mbind option_bind]. rewrite H4. reflexivity.
Qed.

Lemma sign_attempt_intro fuel mat s1 s2 t0 mu rhoprime nonce y w1 w0 c cp z w0' ct0 h n :
  polyvecl_uniform_gamma1 rhoprime nonce = y ->
  polyveck_decompose (polyveck_caddq (polyveck_invntt_tomont (polyveck_reduce
    (polyvec_matrix_pointwise_montgomery mat (polyvecl_ntt y))))) = (w1, w0) ->
  challenge_hash mu (polyveck_pack_w1 w1) = c ->
  poly_challenge fuel c = Some cp ->
  polyvecl_reduce (polyvecl_add (polyvecl_invntt_tomont
    (polyvecl_pointwise_poly_montgomery (poly_ntt cp) s1)) y) = z ->
  polyvecl_chknorm z (GAMMA1 - BETA) = 0 ->
  polyveck_reduce (polyveck_sub w0 (polyveck_invntt_tomont
    (polyveck_pointwise_poly_montgomery (poly_ntt cp) s2))) = w0' ->
  polyveck_chknorm w0' (GAMMA2 - BETA) = 0 ->
  polyveck_reduce (polyveck_invntt_tomont
    (polyveck_pointwise_poly_montgomery (poly_ntt cp) t0)) = ct0 ->
  polyveck_chknorm ct0 GAMMA2 = 0 ->
  polyveck_make_hint (polyveck_add w0' ct0) w1 = (h, n) ->
  n <= Z.of_nat OMEGA ->
  sign_attempt fuel mat s1 s2 t0 mu rhoprime nonce = Some (Some (pack_sig c z h)).
Proof.
  intros H0 H1 H2 H3 H4 H5 H6 H7 H8 H9 H10 H11. unfold sign_attempt.
  rewrite H0, H1, H2, H3. cbn [mbind option_bind]. rewrite H4, H5, H6, H7, H8, H9, H10.
  cbn [Z.eqb negb]. destruct (Z.gtb_spec n (Z.of_nat OMEGA)); [lia|reflexivity].
Qed.

(** A signature found at the first attempt. *)
Lemma sign_intro fuel m ctx sk rnd rho tr key t0 s1 s2 mat sig :
  (length ctx <= 255)%nat -> unpack_sk sk = (rho, tr, key, t0, s1, s2) ->
  polyvec_matrix_expand (Datatypes.S fuel) rho = Some mat ->
  sign_attempt (Datatypes.S fuel) mat (polyvecl_ntt s1) (polyveck_ntt s2) (polyveck_ntt t0)
    (message_hash tr ctx m) (shake256 CRHBYTES (key ++ rnd ++ message_hash tr ctx m)) 0 = Some (Some sig) ->
  crypto_sign_signature_ctx (Datatypes.S fuel) m ctx sk (Some rnd) = Ret sig.
Proof.
  intros Hc H1 H2 H3. unfold crypto_sign_signature_ctx. rewrite H1, H2.
  replace (255 <? length ctx)%nat with false by (symmetry; apply Nat.ltb_ge; lia).
  cbn [sign_loop]. rewrite H3. reflexivity.
Qed.
End steps.

(** ** A complete run

    Over the sample streams every vector is zero except the challenge, and the
    run can be followed by rewriting: the keys and the signature of the
    two-byte message 1, 2 with the one-byte context 3. *)
Definition zero_poly : poly := replicate 256 0.
Definition demo_pk : list Z := pack_pk (replicate 32 0) (replicate K zero_poly).
Definition demo_sk : list Z :=
  pack_sk (replicate 32 0) (replicate 64 0) (replicate 32 0)
    (replicate K zero_poly) (replicate L zero_poly) (replicate K zero_poly).
Definition demo_sig : list Z :=
  pack_sig (replicate 48 0) (replicate L zero_poly) (replicate K zero_poly).

Lemma fill_constant {A : Type} n (f : nat -> A) (v : A) :
  (forall i, (i < n)%nat -> f i = v) -> fill n f = replicate n v.
Proof.
  intros H. rewrite (fill_ext n f (fun _ => v) H). unfold fill. clear H.
  generalize 0%nat. induction n as [|n IH]; intros k; cbn; [reflexivity|]. f_equal. apply IH.
Qed.
(** A routine that maps zero to zero maps a zero vector to one. *)
Lemma fill_zero n (f : poly -> poly) :
  f zero_poly = zero_poly ->
  fill n (fun i => f (replicate n zero_poly !!! i)) = replicate n zero_poly.
Proof.
  intros Hf. apply fill_constant. intros i Hi. rewrite lookup_total_replicate_2 by exact Hi. exact Hf.
Qed.
Lemma fill_zero2 n (f : poly -> poly -> poly) :
  f zero_poly zero_poly = zero_poly ->
  fill n (fun i => f (replicate n zero_poly !!! i) (replicate n zero_poly !!! i)) = replicate n zero_poly.
Proof. intros Hf. apply (fill_zero n (fun a => f a a) Hf). Qed.

Lemma pointwise_zero a : poly_pointwise_montgomery a zero_poly = zero_poly.
Proof.
  apply fill_constant. intros i Hi. unfold zero_poly. rewrite lookup_total_replicate_2 by exact Hi.
  rewrite Z.mul_0_r. reflexivity.
Qed.
Lemma ntt_zero : poly_ntt zero_poly = zero_poly.
Proof. vm_compute. reflexivity. Qed.
Lemma invntt_zero : poly_invntt_tomont zero_poly = zero_poly.
Proof. vm_compute. reflexivity. Qed.

Lemma matrix_pointwise_zero :
  polyvec_matrix_pointwise_montgomery (replicate K (replicate L zero_poly)) (replicate L zero_poly)
  = replicate K zero_poly.
Proof.
  apply fill_constant. intros i Hi. rewrite lookup_total_replicate_2 by exact Hi.
  unfold polyvecl_pointwise_acc_montgomery. cbn [for_loop L Nat.sub].
  rewrite !lookup_total_replicate_2 by (unfold L; lia). rewrite !pointwise_zero. reflexivity.
Qed.

Ltac zero_vec := apply fill_zero; reflexivity.
Lemma vecl_ntt_zero : polyvecl_ntt (replicate L zero_poly) = replicate L zero_poly.
Proof. apply fill_zero, ntt_zero. Qed.
Lemma veck_ntt_zero : polyveck_ntt (replicate K zero_poly) = replicate K zero_poly.
Proof. apply fill_zero, ntt_zero. Qed.
Lemma vecl_invntt_zero : polyvecl_invntt_tomont (replicate L zero_poly) = replicate L zero_poly.
Proof. apply fill_zero, invntt_zero. Qed.
Lemma veck_invntt_zero : polyveck_invntt_tomont (replicate K zero_poly) = replicate K zero_poly.
Proof. apply fill_zero, invntt_zero. Qed.
Lemma veck_reduce_zero : polyveck_reduce (replicate K zero_poly) = replicate K zero_poly.
Proof. zero_vec. Qed.
Lemma vecl_reduce_zero : polyvecl_reduce (replicate L zero_poly) = replicate L zero_poly.
Proof. zero_vec. Qed.
Lemma veck_caddq_zero : polyveck_caddq (replicate K zero_poly) = replicate K zero_poly.
Proof. zero_vec. Qed.
Lemma veck_add_zero : polyveck_add (replicate K zero_poly) (replicate K zero_poly) = replicate K zero_poly.
Proof. apply (fill_zero2 K poly_add). reflexivity. Qed.
Lemma vecl_add_zero : polyvecl_add (replicate L zero_poly) (replicate L zero_poly) = replicate L zero_poly.
Proof. apply (fill_zero2 L poly_add). reflexivity. Qed.
Lemma veck_sub_zero : polyveck_sub (replicate K zero_poly) (replicate K zero_poly) = replicate K zero_poly.
Proof. apply (fill_zero2 K poly_sub). reflexivity. Qed.
Lemma vecl_pointwise_zero a :
  polyvecl_pointwise_poly_montgomery a (replicate L zero_poly) = replicate L zero_poly.
Proof. apply fill_zero, pointwise_zero. Qed.
Lemma veck_pointwise_zero a :
  polyveck_pointwise_poly_montgomery a (replicate K zero_poly) = replicate K zero_poly.
Proof. apply fill_zero, pointwise_zero. Qed.
Lemma veck_power2round_zero :
  polyveck_power2round (replicate K zero_poly) = (replicate K zero_poly, replicate K zero_poly).
Proof.
  unfold polyveck_power2round. rewrite (fill_zero K (fun a => fst (poly_power2round a))),
    (fill_zero K (fun a => snd (poly_power2round a))) by reflexivity. reflexivity.
Qed.
Lemma veck_decompose_zero :
  polyveck_decompose (replicate K zero_poly) = (replicate K zero_poly, replicate K zero_poly).
Proof.
  unfold polyveck_decompose. rewrite (fill_zero K (fun a => fst (poly_decompose a))),
    (fill_zero K (fun a => snd (poly_decompose a))) by reflexivity. reflexivity.
Qed.
Lemma veck_make_hint_zero :
  polyveck_make_hint (replicate K zero_poly) (replicate K zero_poly) = (replicate K zero_poly, 0).
Proof.
  unfold polyveck_make_hint.
  rewrite (fill_zero2 K (fun a b => fst (poly_make_hint a b))) by reflexivity.
  assert (snd (poly_make_hint zero_poly zero_poly) = 0) as E by (vm_compute; reflexivity).
  cbn [for_loop K]. rewrite !lookup_total_replicate_2 by (unfold K; lia). rewrite !E. reflexivity.
Qed.
Create Rewrite HintDb zero_run.
#[local] Hint Rewrite vecl_ntt_zero veck_ntt_zero vecl_invntt_zero veck_invntt_zero veck_reduce_zero
  vecl_reduce_zero veck_caddq_zero veck_add_zero vecl_add_zero veck_sub_zero vecl_pointwise_zero
  veck_pointwise_zero veck_power2round_zero veck_decompose_zero veck_make_hint_zero
  matrix_pointwise_zero : zero_run.

Section demo.
#[local] Existing Instance sample_shake.

Lemma demo_matrix rho : polyvec_matrix_expand 1 rho = Some (replicate K (replicate L zero_poly)).
Proof. vm_compute. reflexivity. Qed.
Lemma demo_s1 seed n : polyvecl_uniform_eta 1 seed n = Some (replicate L zero_poly).
Proof. vm_compute. reflexivity. Qed.
Lemma demo_s2 seed n : polyveck_uniform_eta 1 seed n = Some (replicate K zero_poly).
Proof. vm_compute. reflexivity. Qed.
Lemma demo_y seed n : polyvecl_uniform_gamma1 seed n = replicate L zero_poly.
Proof. vm_compute. reflexivity. Qed.

Lemma demo_hash n m : n <> 272%nat -> n <> 680%nat -> shake256 n m = replicate n 0.
Proof.
  intros H1 H2. cbn [shake256 sample_shake]. unfold sample_bytes.
  rewrite (proj2 (Nat.eqb_neq _ _) H1), (proj2 (Nat.eqb_neq _ _) H2). reflexivity.
Qed.
Lemma demo_challenge_hash mu w : challenge_hash mu w = replicate 48 0.
Proof. exact (demo_hash 48 [] ltac:(lia) ltac:(lia)). Qed.
Lemma slice_replicate off n m : (off + n <= m)%nat -> slice off n (replicate m 0) = replicate n 0.
Proof.
  intros H. unfold slice. rewrite drop_replicate, take_replicate. f_equal. lia.
Qed.

Lemma demo_keygen_t :
  keygen_t (replicate K (replicate L zero_poly)) (replicate L zero_poly) (replicate K zero_poly)
  = replicate K zero_poly.
Proof. unfold keygen_t. cbv zeta. autorewrite with zero_run. reflexivity. Qed.

Lemma demo_keys_eq : crypto_sign_keypair_from_seed 1 [] = Some (demo_pk, demo_sk).
Proof.
  rewrite (keypair_intro 1 [] (replicate 128 0) _ _ _ (replicate K zero_poly) (replicate K zero_poly)
    (demo_hash 128 _ ltac:(lia) ltac:(lia)) (demo_matrix _) (demo_s1 _ _) (demo_s2 _ _)).
  - rewrite !slice_replicate by (unfold SEEDBYTES, CRHBYTES; lia).
    rewrite (demo_hash TRBYTES) by (unfold TRBYTES; lia). reflexivity.
  - rewrite demo_keygen_t. apply veck_power2round_zero.
Qed.

Lemma demo_unpack_sk :
  unpack_sk demo_sk = (replicate 32 0, replicate 64 0, replicate 32 0,
    replicate K zero_poly, replicate L zero_poly, replicate K zero_poly).
Proof.
  apply unpack_pack_sk; try apply length_replicate; apply vec_in_replicate;
    (reflexivity || unfold ETA; lia).
Qed.

Lemma chknorm_zero n B : 0 < B <= 1047552 -> chknorm_vec (replicate n zero_poly) B = 0.
Proof.
  intros HB. apply (chknorm_vec_0 n); [|lia|]; apply (vec_in_ok n 0 0);
    (apply vec_in_replicate; [reflexivity|lia]) || lia.
Qed.

Definition demo_c : poly := default [] (poly_challenge 1 (replicate 48 0)).
Lemma demo_c_eq : poly_challenge 1 (replicate 48 0) = Some demo_c.
Proof. vm_compute. reflexivity. Qed.

Lemma demo_attempt mu rhoprime :
  sign_attempt 1 (replicate K (replicate L zero_poly)) (replicate L zero_poly) (replicate K zero_poly)
    (replicate K zero_poly) mu rhoprime 0 = Some (Some demo_sig).
Proof.
  apply (sign_attempt_intro 1 _ _ _ _ mu rhoprime 0 (replicate L zero_poly) (replicate K zero_poly)
    (replicate K zero_poly) (replicate 48 0) demo_c (replicate L zero_poly) (replicate K zero_poly)
    (replicate K zero_poly) (replicate K zero_poly) 0).
  - apply demo_y.
  - autorewrite with zero_run. reflexivity.
  - apply demo_challenge_hash.
  - apply demo_c_eq.
  - autorewrite with zero_run. reflexivity.
  - apply chknorm_zero. vm_compute. intuition discriminate.
  - autorewrite with zero_run. reflexivity.
  - apply chknorm_zero. vm_compute. intuition discriminate.
  - autorewrite with zero_run. reflexivity.
  - apply chknorm_zero. vm_compute. intuition discriminate.
  - autorewrite with zero_run. reflexivity.
  - lia.
Qed.

Lemma demo_sig_eq : crypto_sign_signature_ctx 1 [1; 2] [3] demo_sk (Some []) = Ret demo_sig.
Proof.
  apply (sign_intro 0 [1; 2] [3] demo_sk [] _ _ _ _ _ _ _ demo_sig ltac:(cbn; lia) demo_unpack_sk
    (demo_matrix _)).
  rewrite vecl_ntt_zero, veck_ntt_zero. apply demo_attempt.
Qed.
End demo.

Lemma sign_verify_correct_witness :
  @crypto_sign_verify_ctx sample_shake 1 demo_sig [1; 2] [3] demo_pk = Some 0.
Proof.
  apply (@sign_verify_correct sample_shake sample_shake_laws 1 [] [1; 2] [3] [] demo_pk
    demo_sk demo_sig demo_keys_eq demo_sig_eq).
Defined.

(** [sk_to_pk] recovers the public key: for every generated pair it
    recomputes exactly the public key from the secret key alone. *)
Theorem sk_to_pk_recovers `{ShakeLaws} (fuel : nat) (seed pk sk : list Z)
  (Hkey : crypto_sign_keypair_from_seed fuel seed = Some (pk, sk)) :
  crypto_sign_sk_to_pk fuel sk = Some pk.
Proof.
  destruct (keypair_key_ok _ _ _ _ Hkey) as (rho & key & mat & s1 & s2 & t1 & t0 & _ & Em & Et & Epk & _ & Hs).
  unfold crypto_sign_sk_to_pk. rewrite Hs, Em. cbn [mbind option_bind]. rewrite <- Et, <- Epk. reflexivity.
Qed.
Lemma sk_to_pk_recovers_witness :
  @crypto_sign_sk_to_pk sample_shake 1 demo_sk = Some demo_pk.
Proof.
  apply (@sk_to_pk_recovers sample_shake sample_shake_laws 1 [] demo_pk demo_sk demo_keys_eq).
Defined.

(** signed messages.  Opening what [crypto_sign] returned yields code 0 and
    exactly the signed message; and whatever [crypto_sign_open] is given, a
    nonzero code comes with an all-zero message buffer, so a forged message
    never reaches the caller. *)
Theorem sign_open_correct `{ShakeLaws} (fuel : nat) (seed m ctx rnd pk sk sm : list Z)
  (Hkey : crypto_sign_keypair_from_seed fuel seed = Some (pk, sk))
  (Hsign : crypto_sign_ctx fuel m ctx sk (Some rnd) = Ret sm) :
  crypto_sign_open_ctx fuel sm ctx pk = Some (0, m) /\
  forall sm' code out, crypto_sign_open_ctx fuel sm' ctx pk = Some (code, out) ->
    code = 0 \/ (code = -1 /\ out = replicate (length sm') 0).
Proof.
  split.
  - unfold crypto_sign_ctx in Hsign.
    destruct (crypto_sign_signature_ctx fuel m ctx sk (Some rnd)) as [sig| |] eqn:Hsig; [|discriminate..].
    injection Hsign as <-.
    destruct (keypair_verifies fuel seed m ctx rnd pk sk sig Hkey Hsig) as [Hlen Hv].
    unfold crypto_sign_open_ctx. rewrite length_app.
    replace (length sig + length m <? CRYPTO_BYTES)%nat with false by (symmetry; apply Nat.ltb_ge; lia).
    rewrite (slice_app_0 _ sig m Hlen), (drop_app_length' sig m _ (eq_sym Hlen)), Hv. reflexivity.
  - intros sm' code out. unfold crypto_sign_open_ctx.
    destruct (_ <? _)%nat; [intros [= <- <-]; auto|].
    destruct (crypto_sign_verify_ctx _ _ _ _ _) as [r|]; [|discriminate]. cbn [mbind option_bind].
    destruct (r =? 0); intros [= <- <-]; auto.
Qed.
Lemma sign_open_correct_witness :
  @crypto_sign_open_ctx sample_shake 1 (demo_sig ++ [1; 2]) [3] demo_pk = Some (0, [1; 2]) /\
  forall sm' code out, @crypto_sign_open_ctx sample_shake 1 sm' [3] demo_pk = Some (code, out) ->
    code = 0 \/ (code = -1 /\ out = replicate (length sm') 0).
Proof.
  apply (@sign_open_correct sample_shake sample_shake_laws 1 [] [1; 2] [3] [] demo_pk
    demo_sk (demo_sig ++ [1; 2]) demo_keys_eq).
  unfold crypto_sign_ctx. rewrite demo_sig_eq. reflexivity.
Defined.
