(* ===== verification/MlDsaKat.v ===== *)
(** * ML-DSA-65: the model against NIST's vectors

    The definitions of this development, run on a vector of the repository's
    own test data ([src/test/data/ml_dsa_65_fips204.json], from the ACVP server
    for FIPS 204): key generation gives NIST's public and secret key byte for
    byte.  The hash is the SHAKE of [Fips202]. *)

From Stdlib Require Import String Ascii.
From S2P Require Import Prelude Keccak Shake Fips202 MlDsaReduce MlDsaNtt.
From S2P Require Import MlDsaPoly MlDsaSample MlDsaVec MlDsaPack MlDsaSign.

Local Open Scope string_scope.
Local Open Scope list_scope.
Local Open Scope Z_scope.

(** Hexadecimal text; other characters are skipped. *)
Definition hex_digit (c : ascii) : option Z :=
  let n := Z.of_nat (nat_of_ascii c) in
  if (48 <=? n) && (n <=? 57) then Some (n - 48)
  else if (97 <=? n) && (n <=? 102) then Some (n - 87)
  else None.
Fixpoint hex_digits (s : string) : list Z :=
  match s with
  | EmptyString => []
  | String c s => match hex_digit c with Some d => d :: hex_digits s | None => hex_digits s end
  end.
Fixpoint pair_digits (l : list Z) : list Z :=
  match l with
  | h :: l :: rest => 16 * h + l :: pair_digits rest
  | _ => []
  end.
Definition hex (s : string) : list Z := pair_digits (hex_digits s).

(** keyGen tcId 26. *)
Definition kat_seed : string :=
  "a991fd42b071d49c48ae3e75c647459e0daad1e1ba356a04801912d3294bcff8".
Definition kat_pk : string :=
  "36db0b5dce98bd190cb139e80b71b49c7d7040b71c5a1f3412c46bde939192b1b57ccb88ac2714c1240cb0eb62c689e0
   31aea3d9f3eb3ed7bfa45931d288dcae3413199b31a7032560dce8a61e195d13a1440615c2f3aa7dd28c5b1b742bfa40
   0052186721f13d3df9dcfaee348b10d66913c7148913e085e1a4a03c659398dadc6a8e0e0c1a7f9f44d30436db90fd65
   a6ab8f36137338255653baae8da21526a333426dbd9f76cce0f43212643e854d772018b35ce726bcaaa5ab0651baf8c1
   22e13929bb35b6e4963df2595fdc7237cdaa7234bf776b07f353ccdba12ad3e025138e3492d7f8e929db55dc23e23075
   f66d57a10492e6a10ae7b758acc2291ca18ba1ca07a5b574ab6d8aac18b9524990ad2f110225b7d82f696300a660a166
   ad35b3c57ecbab77117c79656fa8ae2a19a7defb2afd2af54683d043be0f933b8eae0d591448ed55d00068cd9fe10b06
   7fcfaac53aedb1e9b667e36c4e30231f85c7aa0a474af2fa4776226f4479555e155528d78b98183cbdf7fae4e7301140
   f163eb71e991d15fad4a0d2f25a5a62fa2e9bcc823cc2927662e40c538213ded9e2df508e911e4924e507a50861fbb05
   0edbbf56d937206f8fbc6f4cead4cd10d06b73aadcd4aa39703a7a2bffae68b7baa47341b699da9f3b167d4d90efee0a
   07ee3529a3b5e8648b9cb07ee973e1d8dccf1d16e95092c4a0184ccb4902d6086d9f444aca5fa45f43ca91b351e82585
   989ffcbd6d2c3471d6b8593aa46f29d0dd9b44e8aa4d8f9a0bc886bb7982c56aab11e23bfdbd8bc674732fadacacae25
   fa416b2d0cc7743827293336507da4b14c1f0aa2e929af975466dadc89a016f33a0cca2d5c08114cf04b02358805a772
   536432c44dbe9886130d2d3a0ffa0e175875a2207686f5e562b879eb2957573ab706b942468c20cc69bc566d29d9f151
   f3cfae71cc97ce4a30722d4679fc1c089b5009935931ee60aac5496b0fd5f24e514c0e20fa1dcc7729184a50fc85fad1
   d2f32f715fbf55666e49f5a19761f2dd1aa5d1a33c7916eb6a794981c0334176abc493ef30d9eaeaad42e705989dcfcd
   eb578529a700bd14076a348a2062d6483cc63cd7f55136587aac0e531a06eb2de74e61cfcbbce18f2ada5a741f683bf1
   01f71432ee659dd1508e0c8fb2400e0ccbe435da3466d543d3ef5ba369e125c0b84d855efe6d4a22ff929a7a7a984e44
   8d23871e09b88a0bc3f3b7da55dd2edfb5a6daa102819ff50cd4dccd0a95d2f27354668065d4a56c31fb18b92b2a8db2
   c6453baa9333aea6eabb1bd6411d584dd5900262057a707f81cc5137dbdd9ac1079bb98da78a8e4bd1b2e0546c2b3d95
   6fcc280d37d855e31f1e4315b387a742280f057f3219eae512884ae7ec4d2e3a72265b1d0163fbcbf616b2e289b0eaf9
   c63437d50b7b50ce408f5b4562f2abf510c19f5e8a0ace264db6e0f2a69a7d0b4a5e62a2b964f08c8ffe9c295f5773bd
   d7fab054a13822d428fae28ae5e4adc9d9f6e4dffc457a3e49f0bcf62b32961c4667b60960452afd917fdd00d954fa30
   c8533e5629f90af85948dc1bad889f91832ddf9b738254c9e7939726c37ab4557c2ce363c1391816c467537b471e5985
   e8084c277b62be514922d352e20689eabb3eb91c343f36e77b152d5e85afd088f4d02e7024b248a7420f58c7ebbeb480
   cae39b56164f5acd37a4f56b3db6e1cc6b7c8c96cd3c44a69d9ac99175257bab7fd83c5b574b5c9702c0fd13a5b176c6
   0f82d2dfff50c2af25d96e0f8d27ec818d499e479b9642aed4a4a0e6af5f14cc5e1299eabae055ef3c763d1e350e2d76
   e92cee47a4233368466a298afb4ca108a325d2a4f8b79f21ee7349c1c186ecd7897f9886cf27ec01b05388870484867f
   84bae2c016d04a3762241907c4de207798dd125a2cebb6c2982f779e04117bdd65cd7ff0361a59d3ec05f6d903b6d155
   54beefb6d40d96a0d4b37ae76c69c1b9592088b7db878f95abedcb5fd5423ed93df1b27d01a4dc9f4438e7c55f35b0ae
   b7395b08e1ecbf15cb2b61d043c0454aeaef2d487093fa0d7de3fc6caf084b6a0f15a5cb05d9340d4e6763983dc45b78
   28539c77a60d5e081a03fe29949d916392b6d989b4c8c047e3635a76ba88ac18a7a18ccff5c7e06b02a43d2dff169fa4
   49739e382bd020e0963c14a9acae6b6561c722d2bda183f33ee6a904df0207f5b098e56335cc063f9640c4997f593218
   d502f6b382354c73979e93c4b1b2471965ffa5a0dc8ee8eca9f5697e7ef08dc0eefd9ad75cd4122194b450201dfd73cd
   a46a7b2478df66129fbb9c75b774213f9615bd990f8d07501fed440fd25d6cb912b8ecfa678d887a4ee28677e6e0491d
   49efc7a3b34b9815c5c22983da280d0afde2324f5281bc8b796ddacfd82723bbd9aa34b0c96075b36848591e47b80086
   897846fa76d092bc8bc6200837bfb5545039f8602b7ea49f63c0c3b8317eeeb7612f8e818dde09e43c7da76fd2ff6847
   906a45da3d993e8eaed9fb3b1e579d8cc6900c89522aaeb0b4a80da1e66ab8dfd62dfe4e4d77a3a77e5bd669207c70aa
   8537dd6d80a647b0420d79531a7456052c3c989f0f08de3d343c40067680b39ece95a17aac8a622d1d5d95b38ca0f11d
   94e5b0a7634eef4055517ace79f0df1d7c172e0246abb2ab6b135ee1a38a3b84f86fd7c3caf178cd4446d0b554256ad4
   5c657e1192070aba7df480f489ebdf9753a79ccbc6aa893913c5f1271f1c6035".
Definition kat_sk : string :=
  "36db0b5dce98bd190cb139e80b71b49c7d7040b71c5a1f3412c46bde939192b133824e8fa472bead7a4d3bf6ddc323bb
   37e0d8d50854522dbbff2890d5fd9736ec39b00c9031e14e972d23b06640342d1a78fa5df0ef12aa3236a50ac6e7bd8f
   b80c402ec98f22a4e2bb6e9e26e516e7e01baad986920061e5dad927e4e0061a38666060156372310560633654877625
   855268876758784874776382362803648170563705826256260401508556012810214153756583600818140032383441
   328634100877541203088254485055836358614834885227814501155307240372884521806455328513764258115780
   327860321688361770522717831002015568734052858558406872611417841144106558087511307421731832678013
   258838300464802830058525115710771261114132733383055817278253231538114401046520512222102263834200
   423403223080561663528280432472786114635853020278472335625684280331663454430030658802100473653673
   151607487300108657347383052322225237528207116256157670424353153145030413751646603661214051806248
   020711643342306257186528335186225218544413533582231213525403003884842525367620438555288824001607
   485232783717741118741354361414402733103853408555860321871043814750575711827802227315653485343875
   710467246738882546043543855083080430282058732045704011804321635757342405317686067152144268333256
   345207637637235187404651451775152571283672522257103688108753414113012583484542327610483628677732
   603831803817381623350555154820418653812333341858783545874513370647810245544438876776736326520738
   660184257576264377082283757203448301444647132141601635034614530877712773851665322470653301675881
   500543625584646183630126671701480452551555058525274576050551860315386456542186027874178817246402
   477124543028180757130487576727212634322748147100433210537070373230765504006074277254603047543701
   648741746601128135410573316811526010541038668537110653478086758672806450766615078445846174313508
   015067357056555885577630387707221373063544342257261483567481454484053376745013671557433231214307
   772376013751318427818225416377376848661360335628748060774546523433445233766888652078373682614606
   631740857158814862777711050306633075165608653706051411514275756265573058341816010106766111403755
   853584073276051307776288454280750770428800472125743878275027313876630763640114007116253714778431
   004564421140082550624811810222704872353806610137347003641443465741172010046646240343831024614078
   551522446541143850243373240322076288182031358377640285255046226460605463215036041416383117776727
   362517361164854821555867260051557415012572145606674360873338106042100007682483287167536627131018
   225236128406134024682656151336520470732506077575680233572765612807174021601183080416012282571281
   064306113438830160857044720438830820275448288774068387441754387403211030255878682686008544658107
   765685734880810688346262046715611520014375240508187301161088674263506187325857682717333546057578
   728400025651847664807045861663333686304165386337683480047070411064572321847327327230566250676686
   046413022615204145886706164027674466378102136347247845000511711748548511105036378151613146550840
   241110514002674615625472843567658436607278565431725436185103168273127363883415138642804547008533
   333758214316154200438004228865634564703881255470227718801885502868336880235274121112504338201453
   08e4ee45b2c9ca523459c49bf1604acbacca7fec3ed15fbd497eea72b009e7ead6eeff7dad65c246dc26dcbb2973bd2d
   305993e843581c4b2a4ff45acc882cbae751e63e925f84ea3fdf722fbbd9ae92f18cc4b26f188bb6b425449770453104
   1139ac623381b1117f51deb204938c82b278e01ae4969eb587e51e5ccacd12f60e4aa2b5367a2cb34d2d442c4e124a3b
   a2cba083fae8ce72f39c7513d80574a06c02383451e653da50c2fe71dcbe1609cab5f6f0d1b7aaf21844466fa1af79c6
   71216792fcc2018e633ef173fb4cf7e767e1705db9939ea2c185dc3aec7bed66ee13cd8814d790287ccbf859eb646e58
   ebeba9d081f811b653a25c8fad64dd6fcbd6290e8f55320c51474e18882bca350a33768b9db737ffd1b7ca5baf257952
   6438cb086a6c9abc3fd387907a6d35cca79f6f1c9801709ea1d02dce59676e8c002e464a660f9e410e81e75a62f59a80
   e95c058ee950bf0804c5e8a0ada205d71ec2e6e4f929ab17b47708ba00e4bf64452bee8483fbb68627d57475d8692254
   7b7cceb7f7a7eff98f46fd6451346e1314f8f694ba16c27234eec848fb7edb442d845e55825ab01b829de26f76c275d5
   609be4c36212f9837cceb4628ca7899f214c9b06e7db5eb9bc24522475de460994a89c583a9d3c885c9b74c7d6271b87
   02778e84df19f13015655c9d06804bb1237a17a93e19bd46232faff39d6e1a6ace3495022c265638fc97b59b86a38eaa
   8f8a03bbcafa35eed6576d109396203e19dcf1d151836cc7bf46c818b9959a53f0502464ba199f400e412b30902264f1
   e4909f52f2031d9ea8396c2f735a2da81a389a792031418f2bf73a767f42db0ee14fe1cbea5a99b5b95c6137fa4621de
   f9b4f6069ca4709242d15c797cdbb71ee507b22fbe95825da5aa4d9beaadc3c898ab122629ea717c6934e5a4170de7ee
   b5d608684da36a318f18e559f1dc9d18104271913efb0ee8cd2379ff1b31c575c71d90a54e61185e1399e1ad710b4e96
   0a7b41c88ce2f4889b0b2c7b3c208a1f14d750db138fce86fadd7072296155022ab24665c95a7719e92a1cf9faef424f
   90e945c905d7908013a0e0a5b9c7819bec35b06dad1a146e75d345de5d18565a1d30c862c122ba4e87cf21cc63b87347
   b3ed90015edc1b5d3125956bfad93335495a74107b8af62b50b4c56b48e2a3293f56dc7cbc09f2f6fbde9a96caaa2787
   892e3d04238d9f988125d8bee2eb6299ec5c678afe42d3441bf6e4b22eb6975e6dec06aa507aa7c787d70eb97b60db05
   6d658f7404fa409939b8f4a321b7722f0fca1404e79ffcd87d2a6ee13d508b6a193af891e587e4f0e502d68784c55e96
   62b0905d912bda6c678d14e5424781e0e86fb2be43d7618da355cde8617f7254870f84e4641e7e16fdf3b6db86b60bd8
   73e8d432b95f53c4119dec7a711cc8f2bf901e38b692a54e7ed9d8a2dbc4cf5f271f4bb1a4678e6a19f370486984045a
   1b4f8521c9a6f811d49bf7c182e8175f75cc1421486abd75130329ec1c87594055a2f0773ebb3ce3dfe073de8955f15e
   a3c10d75b6f67ac2d639c3575e7c0bcec031f902e90235ba405da6b2570ec9a0635af9a3eb05caff00ab4767df1c5b0c
   01df45569d2f11c58061c848fa8d94ca4e9671ff94a440fba63956ebd924e2eaa2a2ca5e21fa24ecce4a1b82cec6f55e
   5e2e6b1c2416e4cd1c2fa0dec1b07c6e415a75075662cb6ffae761ab7fe771ea54bc5f4a53acc7b64a545a2562795005
   7f336b9751fcce479820bcc2cb25a92781af13ce3572a0cf0d946798d44bfe0bfb5bab4786e6e024971a1ff320b8c931
   329f8fd12e17e794058a809d849b333cd98d66fbbc18c216d0f01acda3e50f712691099336897d449ac15e77ba6fd29c
   6042d50ecddea4e9d578e2054b56b2645c97990b87251ad09b76f029dab7498404c9294acf6535e65b74d0bf345dfac9
   5fe020308a931bce8635c78a2fc0f67910c63633e5fe9004846ed9efc411235028eabdbd4ff10788fbb081ab51187f30
   020091486241900da3badc323aff56db7be0da078c69e535422e04ffd8ea8661c559bc311bd8d26ea8486832d839536f
   59b79e1d0443b938dd621758cb2ebbf41f87290590042913c761650481aff1ed1f5a3e10b4c9d2b198df8f2ef9fa7eb5
   3fbab3e04450678770fcec45ed3b78591e9f643a53702c404a1ea13638455e43427a807607f7091e4fd7e3fd29901026
   ca4c724c1cbd2cc4c9f50ab48d02c451ecdb5e8e9020d214f3dad92a6321f0c2b25c4d20fe09e10a4bc26b578c09e288
   a0796f97c04c45370ad42e1b920671355a6dff3a10c3c9ea96f569a90e9380f5ee4a91eed1cbb644d890f0d755425ab1
   6a92687d6e194b17374c4ccbbf924043bcf84cc6956835de8a2a42e91e139169ec1b54ad1b7c0fb1488c8e98ae3eb2d5
   aca80e1790c49efcb98e50fe03ef3ed2040d10dab1b3b69da0a903efb56686199ac2863cd04032a78290aac30e600fb8
   e1dafbc8f54f0e485bb47212a46eb81505890c67905d6900572f1693cf75e2143872b420c0348ad08ce8ba2f3fdac849
   26b9e8fa40231e6ee7be6ce6f115a62a57825ecdd19670fe5c236477245701d30208099c4430f053c46911eb51e94819
   f59404c90f7282e149e60321921d0d197f8a73e1d7bad4f63659add3bbffb5c2b71a4c3a9a0ce5add6dc9181c31a040b
   1d143891663d0361255bdceb5a6ef9a414abce158030f8664b1c42242adbab2112eaf420699d1ec1fa2bfc9ecca599f4
   a1795f7cf8593057c835127700a6703c6786bb75f1002dadb09cd7097e5ff978000115fa6278b912258e945e37461d00
   d9d5827c231a76b47fa58f68a363705e3b8109d364c89e510d84367d2092c501399250f482719f9c5f9d68c7896650aa
   91ddd17d0fa75160a2586c5f6846e411d7ce9d040114360fd948705fb60ff93c6c1320240dfdd132360c5b8f99384db7
   e9147fd93d0d745a763a48a76ea7e9e06aa0bac02ccf341fa505354606750d3d4f60b28fff171f5b656c231640d82498
   bdfb874773274ca568ce2b2b824ce5793b86ef02aa7cee6a027f27c89be27c519c0bb356359a98a1c011551cc106a78e
   6d675ce68fca86af5f6f28b9dbf9b464a26836a328f6aad6b01243e7be9ee2bb6db1fcc2e8b52cd64ac5d62000976a78
   be4948f36513c48c8bcc0205dcbfa3f7f1018986a2734205690e26485e24188f6ea5be3eb5e13bce8bb2e748943d7bb0
   e30125011e074adf4aba8f1c24962372bcda4622794d3c04fd99f5428eb2f45c829048e117cf5e3e53c881a8b3eb740b
   5be99c6aa7cafd7b5190a19fa4117ee8b0c9d1e501db54c1c65c30e62e7787987722ac90708adfe64784fe5d89c07fc5
   9e01ebc02ef6e3fb86f44403a25ac4a276ab8a639867e9c13a3e7cb127743e5de2695ac25ad2bcd8036bc601d663eea1
   7fbc26958671a116ec5055c53ea1ad7cd5f0685b20ba2bfdd699b83b9866190fc9364d34e3ec342ae3881b934047d577".
(** the model of key generation reproduces NIST's key pair for the seed of
    keyGen tcId 26, byte for byte: 1952 bytes of public key and 4032 of secret key. *)
Theorem nist_keygen_vector :
  crypto_sign_keypair_from_seed 0 (hex kat_seed) = Some (hex kat_pk, hex kat_sk).
Proof. vm_compute. reflexivity. Qed.
