(* ===== verification/Sha2.v ===== *)
(** * SHA-2

    [src/pqcrypto/common/sha2.c]: the block functions and the incremental and
    one-shot SHA-224, SHA-256, SHA-384 and SHA-512.  The 32-bit and the 64-bit
    code have the same shape; they are the two instances of one interface
    (word width, rotations, constants, padding), and a context is the byte
    array the code keeps: the eight words of the state, then a 64-bit byte
    count.  Proved here: the 16-word window that [EXPAND] updates in place is
    the message schedule of FIPS 180-4, the constants are the fractional parts
    of the cube and square roots of the first primes, and each hash is that of the standard;
    feeding blocks incrementally is hashing the concatenation. *)

From S2P Require Import Prelude.

Local Open Scope Z_scope.

(** ** Bytes and words *)

Definition load_bigendian_32 (x : list Z) : Z :=
  Z.lor (Z.lor (Z.lor (x !!! 3%nat) (u32 (Z.shiftl (x !!! 2%nat) 8)))
    (u32 (Z.shiftl (x !!! 1%nat) 16))) (u32 (Z.shiftl (x !!! 0%nat) 24)).
Definition load_bigendian_64 (x : list Z) : Z :=
  Z.lor (Z.lor (Z.lor (Z.lor (Z.lor (Z.lor (Z.lor (x !!! 7%nat) (u64 (Z.shiftl (x !!! 6%nat) 8)))
    (u64 (Z.shiftl (x !!! 5%nat) 16))) (u64 (Z.shiftl (x !!! 4%nat) 24)))
    (u64 (Z.shiftl (x !!! 3%nat) 32))) (u64 (Z.shiftl (x !!! 2%nat) 40)))
    (u64 (Z.shiftl (x !!! 1%nat) 48))) (u64 (Z.shiftl (x !!! 0%nat) 56)).
Definition store_bigendian_32 (u : Z) : list Z :=
  [u8 (Z.shiftr u 24); u8 (Z.shiftr u 16); u8 (Z.shiftr u 8); u8 u].
Definition store_bigendian_64 (u : Z) : list Z :=
  [u8 (Z.shiftr u 56); u8 (Z.shiftr u 48); u8 (Z.shiftr u 40); u8 (Z.shiftr u 32);
   u8 (Z.shiftr u 24); u8 (Z.shiftr u 16); u8 (Z.shiftr u 8); u8 u].

Definition SHR (x c : Z) : Z := Z.shiftr x c.
Definition ROTR_32 (x c : Z) : Z := Z.lor (Z.shiftr x c) (u32 (Z.shiftl x (32 - c))).
Definition ROTR_64 (x c : Z) : Z := Z.lor (Z.shiftr x c) (u64 (Z.shiftl x (64 - c))).

(** [~x] of an unsigned word, masked by [z], is [Z.lnot x] masked by [z]. *)
Definition Ch (x y z : Z) : Z := Z.lxor (Z.land x y) (Z.land (Z.lnot x) z).
Definition Maj (x y z : Z) : Z := Z.lxor (Z.lxor (Z.land x y) (Z.land x z)) (Z.land y z).

Definition Sigma0_32 (x : Z) : Z := Z.lxor (Z.lxor (ROTR_32 x 2) (ROTR_32 x 13)) (ROTR_32 x 22).
Definition Sigma1_32 (x : Z) : Z := Z.lxor (Z.lxor (ROTR_32 x 6) (ROTR_32 x 11)) (ROTR_32 x 25).
Definition sigma0_32 (x : Z) : Z := Z.lxor (Z.lxor (ROTR_32 x 7) (ROTR_32 x 18)) (SHR x 3).
Definition sigma1_32 (x : Z) : Z := Z.lxor (Z.lxor (ROTR_32 x 17) (ROTR_32 x 19)) (SHR x 10).
Definition Sigma0_64 (x : Z) : Z := Z.lxor (Z.lxor (ROTR_64 x 28) (ROTR_64 x 34)) (ROTR_64 x 39).
Definition Sigma1_64 (x : Z) : Z := Z.lxor (Z.lxor (ROTR_64 x 14) (ROTR_64 x 18)) (ROTR_64 x 41).
Definition sigma0_64 (x : Z) : Z := Z.lxor (Z.lxor (ROTR_64 x 1) (ROTR_64 x 8)) (SHR x 7).
Definition sigma1_64 (x : Z) : Z := Z.lxor (Z.lxor (ROTR_64 x 19) (ROTR_64 x 61)) (SHR x 6).

(** The constants in the order the [F_32] and [F_64] lines pass them. *)
Definition constants_32 : list Z := [
    0x428a_2f98; 0x7137_4491; 0xb5c0_fbcf; 0xe9b5_dba5; 0x3956_c25b; 0x59f1_11f1; 0x923f_82a4; 0xab1c_5ed5;
    0xd807_aa98; 0x1283_5b01; 0x2431_85be; 0x550c_7dc3; 0x72be_5d74; 0x80de_b1fe; 0x9bdc_06a7; 0xc19b_f174;
    0xe49b_69c1; 0xefbe_4786; 0x0fc1_9dc6; 0x240c_a1cc; 0x2de9_2c6f; 0x4a74_84aa; 0x5cb0_a9dc; 0x76f9_88da;
    0x983e_5152; 0xa831_c66d; 0xb003_27c8; 0xbf59_7fc7; 0xc6e0_0bf3; 0xd5a7_9147; 0x06ca_6351; 0x1429_2967;
    0x27b7_0a85; 0x2e1b_2138; 0x4d2c_6dfc; 0x5338_0d13; 0x650a_7354; 0x766a_0abb; 0x81c2_c92e; 0x9272_2c85;
    0xa2bf_e8a1; 0xa81a_664b; 0xc24b_8b70; 0xc76c_51a3; 0xd192_e819; 0xd699_0624; 0xf40e_3585; 0x106a_a070;
    0x19a4_c116; 0x1e37_6c08; 0x2748_774c; 0x34b0_bcb5; 0x391c_0cb3; 0x4ed8_aa4a; 0x5b9c_ca4f; 0x682e_6ff3;
    0x748f_82ee; 0x78a5_636f; 0x84c8_7814; 0x8cc7_0208; 0x90be_fffa; 0xa450_6ceb; 0xbef9_a3f7; 0xc671_78f2
  ].
Definition constants_64 : list Z := [
    0x428a_2f98_d728_ae22; 0x7137_4491_23ef_65cd; 0xb5c0_fbcf_ec4d_3b2f; 0xe9b5_dba5_8189_dbbc;
    0x3956_c25b_f348_b538; 0x59f1_11f1_b605_d019; 0x923f_82a4_af19_4f9b; 0xab1c_5ed5_da6d_8118;
    0xd807_aa98_a303_0242; 0x1283_5b01_4570_6fbe; 0x2431_85be_4ee4_b28c; 0x550c_7dc3_d5ff_b4e2;
    0x72be_5d74_f27b_896f; 0x80de_b1fe_3b16_96b1; 0x9bdc_06a7_25c7_1235; 0xc19b_f174_cf69_2694;
    0xe49b_69c1_9ef1_4ad2; 0xefbe_4786_384f_25e3; 0x0fc1_9dc6_8b8c_d5b5; 0x240c_a1cc_77ac_9c65;
    0x2de9_2c6f_592b_0275; 0x4a74_84aa_6ea6_e483; 0x5cb0_a9dc_bd41_fbd4; 0x76f9_88da_8311_53b5;
    0x983e_5152_ee66_dfab; 0xa831_c66d_2db4_3210; 0xb003_27c8_98fb_213f; 0xbf59_7fc7_beef_0ee4;
    0xc6e0_0bf3_3da8_8fc2; 0xd5a7_9147_930a_a725; 0x06ca_6351_e003_826f; 0x1429_2967_0a0e_6e70;
    0x27b7_0a85_46d2_2ffc; 0x2e1b_2138_5c26_c926; 0x4d2c_6dfc_5ac4_2aed; 0x5338_0d13_9d95_b3df;
    0x650a_7354_8baf_63de; 0x766a_0abb_3c77_b2a8; 0x81c2_c92e_47ed_aee6; 0x9272_2c85_1482_353b;
    0xa2bf_e8a1_4cf1_0364; 0xa81a_664b_bc42_3001; 0xc24b_8b70_d0f8_9791; 0xc76c_51a3_0654_be30;
    0xd192_e819_d6ef_5218; 0xd699_0624_5565_a910; 0xf40e_3585_5771_202a; 0x106a_a070_32bb_d1b8;
    0x19a4_c116_b8d2_d0c8; 0x1e37_6c08_5141_ab53; 0x2748_774c_df8e_eb99; 0x34b0_bcb5_e19b_48a8;
    0x391c_0cb3_c5c9_5a63; 0x4ed8_aa4a_e341_8acb; 0x5b9c_ca4f_7763_e373; 0x682e_6ff3_d6b2_b8a3;
    0x748f_82ee_5def_b2fc; 0x78a5_636f_4317_2f60; 0x84c8_7814_a1f0_ab72; 0x8cc7_0208_1a64_39ec;
    0x90be_fffa_2363_1e28; 0xa450_6ceb_de82_bde9; 0xbef9_a3f7_b2c6_7915; 0xc671_78f2_e372_532b;
    0xca27_3ece_ea26_619c; 0xd186_b8c7_21c0_c207; 0xeada_7dd6_cde0_eb1e; 0xf57d_4f7f_ee6e_d178;
    0x06f0_67aa_7217_6fba; 0x0a63_7dc5_a2c8_98a6; 0x113f_9804_bef9_0dae; 0x1b71_0b35_131c_471b;
    0x28db_77f5_2304_7d84; 0x32ca_ab7b_40c7_2493; 0x3c9e_be0a_15c9_bebc; 0x431d_67c4_9c10_0d4c;
    0x4cc5_d4be_cb3e_42b6; 0x597f_299c_fc65_7e2a; 0x5fcb_6fab_3ad6_faec; 0x6c44_198c_4a47_5817
  ].

(** [padded[..]] of the byte count, shifted to bits. *)
Definition length_field_32 (bytes : Z) : list Z :=
  [u8 (Z.shiftr bytes 53); u8 (Z.shiftr bytes 45); u8 (Z.shiftr bytes 37); u8 (Z.shiftr bytes 29);
   u8 (Z.shiftr bytes 21); u8 (Z.shiftr bytes 13); u8 (Z.shiftr bytes 5); u8 (Z.shiftl bytes 3)].
Definition length_field_64 (bytes : Z) : list Z :=
  [u8 (Z.shiftr bytes 61); u8 (Z.shiftr bytes 53); u8 (Z.shiftr bytes 45); u8 (Z.shiftr bytes 37);
   u8 (Z.shiftr bytes 29); u8 (Z.shiftr bytes 21); u8 (Z.shiftr bytes 13); u8 (Z.shiftr bytes 5);
   u8 (Z.shiftl bytes 3)].

(** ** The code at one word width *)

Class Sha2Word := {
  word_bytes : nat;
  wrap : Z -> Z;
  load_word : list Z -> Z;
  store_word : Z -> list Z;
  Sigma0 : Z -> Z;
  Sigma1 : Z -> Z;
  sigma0 : Z -> Z;
  sigma1 : Z -> Z;
  constants : list Z;
  round_groups : nat;
  (** bytes of the last block a message may use before a second one is needed *)
  pad_limit : nat;
  length_field : Z -> list Z
}.

#[export] Instance sha2_32 : Sha2Word := {|
  word_bytes := 4; wrap := u32; load_word := load_bigendian_32; store_word := store_bigendian_32;
  Sigma0 := Sigma0_32; Sigma1 := Sigma1_32; sigma0 := sigma0_32; sigma1 := sigma1_32;
  constants := constants_32; round_groups := 4; pad_limit := 56; length_field := length_field_32 |}.
Definition sha2_64 : Sha2Word := {|
  word_bytes := 8; wrap := u64; load_word := load_bigendian_64; store_word := store_bigendian_64;
  Sigma0 := Sigma0_64; Sigma1 := Sigma1_64; sigma0 := sigma0_64; sigma1 := sigma1_64;
  constants := constants_64; round_groups := 5; pad_limit := 112; length_field := length_field_64 |}.

(** The working variables [a .. h]. *)
Record regs := mkRegs { ra : Z; rb : Z; rc : Z; rd : Z; re : Z; rf : Z; rg : Z; rh : Z }.

Section word.
Context {W : Sha2Word}.

Definition block_bytes : nat := 16 * word_bytes.
Definition state_bytes : nat := 8 * word_bytes.

(** [M(w0, w14, w9, w1)], sums of words wrapping at the word width. *)
Definition M (i0 i14 i9 i1 : nat) (w : list Z) : list Z :=
  <[i0 := wrap (sigma1 (w !!! i14) + w !!! i9 + sigma0 (w !!! i1) + w !!! i0)]> w.
(** Sixteen [M] lines: line [i] has the indices [i], [i+14], [i+9], [i+1] modulo 16. *)
Definition EXPAND (w : list Z) : list Z :=
  for_loop 16 0 (fun i => M i ((i + 14) mod 16) ((i + 9) mod 16) ((i + 1) mod 16)) w.

Definition F (w k : Z) (r : regs) : regs :=
  let T1 := wrap (rh r + Sigma1 (re r) + Ch (re r) (rf r) (rg r) + k + w) in
  let T2 := wrap (Sigma0 (ra r) + Maj (ra r) (rb r) (rc r)) in
  mkRegs (wrap (T1 + T2)) (ra r) (rb r) (rc r) (wrap (rd r + T1)) (re r) (rf r) (rg r).

(** The sixteen [F] lines of group [t]. *)
Definition rounds16 (t : nat) (w : list Z) (r : regs) : regs :=
  for_loop 16 0 (fun i => F (w !!! i) (constants !!! (16 * t + i)%nat)) r.

Definition to_regs (s : list Z) : regs :=
  mkRegs (s !!! 0%nat) (s !!! 1%nat) (s !!! 2%nat) (s !!! 3%nat)
         (s !!! 4%nat) (s !!! 5%nat) (s !!! 6%nat) (s !!! 7%nat).
Definition of_regs (r : regs) : list Z := [ra r; rb r; rc r; rd r; re r; rf r; rg r; rh r].

Definition load_words (n : nat) (x : list Z) : list Z :=
  fill n (fun i => load_word (drop (word_bytes * i) x)).

(** One iteration of the block loop. *)
Definition compress (state inp : list Z) : list Z :=
  let w := load_words 16 inp in
  let r := rounds16 0 w (to_regs state) in
  let '(_, r) := for_loop (round_groups - 1) 1 (fun t '(w, r) =>
    let w := EXPAND w in (w, rounds16 t w r)) (w, r) in
  fill 8 (fun i => wrap (of_regs r !!! i + state !!! i)).

(** [while (inlen >= 64)], with the input left over. *)
Fixpoint hashblocks_loop (fuel : nat) (state inp : list Z) : list Z * list Z :=
  match fuel with
  | O => (state, inp)
  | S fuel =>
      if (block_bytes <=? length inp)%nat
      then hashblocks_loop fuel (compress state inp) (drop block_bytes inp)
      else (state, inp)
  end.
(** The new [statebytes] and the returned [inlen]. *)
Definition crypto_hashblocks (statebytes inp : list Z) : list Z * nat :=
  let '(state, rest) := hashblocks_loop (length inp) (load_words 8 statebytes) inp in
  (concat (map store_word state), length rest).

Definition inc_init (iv : list Z) : list Z := iv ++ replicate 8 0.
Definition inc_blocks (ctx inp : list Z) (inblocks : nat) : list Z :=
  let bytes := load_bigendian_64 (drop state_bytes ctx) in
  let '(st, _) := crypto_hashblocks (take state_bytes ctx) (take (block_bytes * inblocks) inp) in
  let bytes := u64 (bytes + u64 (Z.of_nat (block_bytes * inblocks))) in
  st ++ store_bigendian_64 bytes.

(** The digest bytes and the released (zeroed) context. *)
Definition inc_finalize (ctx inp : list Z) : list Z * list Z :=
  let bytes := u64 (load_bigendian_64 (drop state_bytes ctx) + Z.of_nat (length inp)) in
  let '(st, _) := crypto_hashblocks (take state_bytes ctx) inp in
  let inlen := (length inp mod block_bytes)%nat in
  let tail := drop (length inp - inlen) inp in
  let total := (if (inlen <? pad_limit)%nat then block_bytes else 2 * block_bytes)%nat in
  let padded := tail ++ [0x80]
    ++ replicate (total - length (length_field bytes) - (inlen + 1)) 0 ++ length_field bytes in
  let '(st, _) := crypto_hashblocks st padded in
  (st, replicate (state_bytes + 8) 0).
End word.

(** ** The eight entry points *)

Definition iv_224 : list Z := [
    0xc1; 0x05; 0x9e; 0xd8; 0x36; 0x7c; 0xd5; 0x07;
    0x30; 0x70; 0xdd; 0x17; 0xf7; 0x0e; 0x59; 0x39;
    0xff; 0xc0; 0x0b; 0x31; 0x68; 0x58; 0x15; 0x11;
    0x64; 0xf9; 0x8f; 0xa7; 0xbe; 0xfa; 0x4f; 0xa4
  ].
Definition iv_256 : list Z := [
    0x6a; 0x09; 0xe6; 0x67; 0xbb; 0x67; 0xae; 0x85;
    0x3c; 0x6e; 0xf3; 0x72; 0xa5; 0x4f; 0xf5; 0x3a;
    0x51; 0x0e; 0x52; 0x7f; 0x9b; 0x05; 0x68; 0x8c;
    0x1f; 0x83; 0xd9; 0xab; 0x5b; 0xe0; 0xcd; 0x19
  ].
Definition iv_384 : list Z := [
    0xcb; 0xbb; 0x9d; 0x5d; 0xc1; 0x05; 0x9e; 0xd8;
    0x62; 0x9a; 0x29; 0x2a; 0x36; 0x7c; 0xd5; 0x07;
    0x91; 0x59; 0x01; 0x5a; 0x30; 0x70; 0xdd; 0x17;
    0x15; 0x2f; 0xec; 0xd8; 0xf7; 0x0e; 0x59; 0x39;
    0x67; 0x33; 0x26; 0x67; 0xff; 0xc0; 0x0b; 0x31;
    0x8e; 0xb4; 0x4a; 0x87; 0x68; 0x58; 0x15; 0x11;
    0xdb; 0x0c; 0x2e; 0x0d; 0x64; 0xf9; 0x8f; 0xa7;
    0x47; 0xb5; 0x48; 0x1d; 0xbe; 0xfa; 0x4f; 0xa4
  ].
Definition iv_512 : list Z := [
    0x6a; 0x09; 0xe6; 0x67; 0xf3; 0xbc; 0xc9; 0x08;
    0xbb; 0x67; 0xae; 0x85; 0x84; 0xca; 0xa7; 0x3b;
    0x3c; 0x6e; 0xf3; 0x72; 0xfe; 0x94; 0xf8; 0x2b;
    0xa5; 0x4f; 0xf5; 0x3a; 0x5f; 0x1d; 0x36; 0xf1;
    0x51; 0x0e; 0x52; 0x7f; 0xad; 0xe6; 0x82; 0xd1;
    0x9b; 0x05; 0x68; 0x8c; 0x2b; 0x3e; 0x6c; 0x1f;
    0x1f; 0x83; 0xd9; 0xab; 0xfb; 0x41; 0xbd; 0x6b;
    0x5b; 0xe0; 0xcd; 0x19; 0x13; 0x7e; 0x21; 0x79
  ].

Definition crypto_hashblocks_sha256 := crypto_hashblocks (W := sha2_32).
Definition crypto_hashblocks_sha512 := crypto_hashblocks (W := sha2_64).
Definition sha224_inc_init : list Z := inc_init iv_224.
Definition sha256_inc_init : list Z := inc_init iv_256.
Definition sha384_inc_init : list Z := inc_init iv_384.
Definition sha512_inc_init : list Z := inc_init iv_512.
Definition sha256_inc_blocks := inc_blocks (W := sha2_32).
Definition sha224_inc_blocks := sha256_inc_blocks.
Definition sha512_inc_blocks := inc_blocks (W := sha2_64).
Definition sha384_inc_blocks := sha512_inc_blocks.
Definition sha256_inc_finalize := inc_finalize (W := sha2_32).
Definition sha224_inc_finalize (ctx inp : list Z) : list Z * list Z :=
  let '(tmp, ctx) := sha256_inc_finalize ctx inp in (take 28 tmp, ctx).
Definition sha512_inc_finalize := inc_finalize (W := sha2_64).
Definition sha384_inc_finalize (ctx inp : list Z) : list Z * list Z :=
  let '(tmp, ctx) := sha512_inc_finalize ctx inp in (take 48 tmp, ctx).
Definition sha224 (inp : list Z) : list Z := fst (sha224_inc_finalize sha224_inc_init inp).
Definition sha256 (inp : list Z) : list Z := fst (sha256_inc_finalize sha256_inc_init inp).
Definition sha384 (inp : list Z) : list Z := fst (sha384_inc_finalize sha384_inc_init inp).
Definition sha512 (inp : list Z) : list Z := fst (sha512_inc_finalize sha512_inc_init inp).

(** ** FIPS 180-4 *)

Module Fips180.
(** Rotation of a [w]-bit word, written with arithmetic. *)
Definition rotr (w n x : Z) : Z := x / 2 ^ n + (x mod 2 ^ n) * 2 ^ (w - n).
Definition rshift (n x : Z) : Z := x / 2 ^ n.
Definition xor3 (x y z : Z) : Z := Z.lxor (Z.lxor x y) z.

(** What distinguishes the two families: section 4.1 of the standard. *)
Record family := mkFamily {
  w : Z;
  S0 : Z * Z * Z; S1 : Z * Z * Z;
  s0 : Z * Z * Z; s1 : Z * Z * Z;
  rounds : nat
}.
Definition family_32 : family := mkFamily 32 (2, 13, 22) (6, 11, 25) (7, 18, 3) (17, 19, 10) 64.
Definition family_64 : family := mkFamily 64 (28, 34, 39) (14, 18, 41) (1, 8, 7) (19, 61, 6) 80.
Definition big (f : family) (r : Z * Z * Z) (x : Z) : Z :=
  let '(a, b, c) := r in xor3 (rotr (w f) a x) (rotr (w f) b x) (rotr (w f) c x).
Definition small (f : family) (r : Z * Z * Z) (x : Z) : Z :=
  let '(a, b, c) := r in xor3 (rotr (w f) a x) (rotr (w f) b x) (rshift c x).

(** Section 4.2: the first bits of the fractional parts of the cube roots of
    the first primes, and of square roots for the initial values. *)
Definition is_prime (p : Z) : bool :=
  forallb (fun d => negb (p mod Z.of_nat d =? 0)) (seq 2 (Z.to_nat (Z.sqrt p) - 1)).
Definition primes : list Z := filter (fun p => is_prime p = true) (map Z.of_nat (seq 2 408)).
(** The largest [r] with [r^3 <= x], bit by bit from bit [n - 1]. *)
Fixpoint cbrt (n : nat) (x r : Z) : Z :=
  match n with
  | O => r
  | S n => let r' := r + 2 ^ Z.of_nat n in cbrt n x (if r' * r' * r' <=? x then r' else r)
  end.
Definition cube_fraction (w p : Z) : Z := cbrt (Z.to_nat w + 3) (p * 2 ^ (3 * w)) 0 mod 2 ^ w.
Definition square_fraction (w p : Z) : Z := Z.sqrt (p * 2 ^ (2 * w)) mod 2 ^ w.
Definition K (f : family) (t : nat) : Z := cube_fraction (w f) (primes !!! t).

Definition H_256 : list Z := map (square_fraction 32) (take 8 primes).
Definition H_512 : list Z := map (square_fraction 64) (take 8 primes).
Definition H_384 : list Z := map (square_fraction 64) (take 8 (drop 8 primes)).
(** SHA-224 starts from the second 32 bits of the same fractions. *)
Definition H_224 : list Z := map (fun h => h mod 2 ^ 32) H_384.

(** Big-endian numbers and the padding of section 5.1. *)
Definition be_bytes (n : nat) (v : Z) : list Z :=
  fill n (fun i => v / 256 ^ Z.of_nat (n - 1 - i) mod 256).
Definition be_value (b : list Z) : Z := fold_left (fun acc x => 256 * acc + x) b 0.
Definition word_len (f : family) : nat := Z.to_nat (w f / 8).
Definition block_len (f : family) : nat := 16 * word_len f.
Definition pad (f : family) (m : list Z) : list Z :=
  let used := (length m + 1 + 2 * word_len f)%nat in
  m ++ [0x80] ++ replicate ((block_len f - used mod block_len f) mod block_len f) 0
    ++ be_bytes (2 * word_len f) (8 * Z.of_nat (length m)).

(** Section 6: the message schedule, one round, one block, the hash. *)
Fixpoint schedule (f : family) (n : nat) (W : list Z) : list Z :=
  match n with
  | O => W
  | S n =>
      let t := length W in
      schedule f n (W ++ [(small f (s1 f) (W !!! (t - 2)%nat) + W !!! (t - 7)%nat
        + small f (s0 f) (W !!! (t - 15)%nat) + W !!! (t - 16)%nat) mod 2 ^ w f])
  end.
Definition round (f : family) (k wt : Z) (r : regs) : regs :=
  let T1 := (rh r + big f (S1 f) (re r) + Ch (re r) (rf r) (rg r) + k + wt) mod 2 ^ w f in
  let T2 := (big f (S0 f) (ra r) + Maj (ra r) (rb r) (rc r)) mod 2 ^ w f in
  mkRegs ((T1 + T2) mod 2 ^ w f) (ra r) (rb r) (rc r) ((rd r + T1) mod 2 ^ w f) (re r) (rf r) (rg r).
Definition hash_block (f : family) (H blk : list Z) : list Z :=
  let M := fill 16 (fun i => be_value (take (word_len f) (drop (word_len f * i) blk))) in
  let W := schedule f (rounds f - 16) M in
  let r := for_loop (rounds f) 0 (fun t => round f (K f t) (W !!! t)) (to_regs H) in
  fill 8 (fun i => (H !!! i + of_regs r !!! i) mod 2 ^ w f).
Definition hash (f : family) (H m : list Z) : list Z :=
  let p := pad f m in
  let H := for_loop (length p / block_len f) 0
    (fun i H => hash_block f H (take (block_len f) (drop (block_len f * i) p))) H in
  concat (map (be_bytes (word_len f)) H).

Definition SHA224 (m : list Z) : list Z := take 28 (hash family_32 H_224 m).
Definition SHA256 (m : list Z) : list Z := hash family_32 H_256 m.
Definition SHA384 (m : list Z) : list Z := take 48 (hash family_64 H_384 m).
Definition SHA512 (m : list Z) : list Z := hash family_64 H_512 m.
End Fips180.

(** ** The constants are those of the standard *)

Lemma constants_32_standard : constants_32 = fill 64 (Fips180.K Fips180.family_32).
Proof. vm_compute. reflexivity. Qed.
Lemma constants_64_standard : constants_64 = fill 80 (Fips180.K Fips180.family_64).
Proof. vm_compute. reflexivity. Qed.
Lemma iv_standard :
  iv_224 = concat (map (Fips180.be_bytes 4) Fips180.H_224) /\
  iv_256 = concat (map (Fips180.be_bytes 4) Fips180.H_256) /\
  iv_384 = concat (map (Fips180.be_bytes 8) Fips180.H_384) /\
  iv_512 = concat (map (Fips180.be_bytes 8) Fips180.H_512).
Proof. vm_compute. repeat split. Qed.

(** ** What the two widths share *)

Definition word_ok `{Sha2Word} (x : Z) : Prop := 0 <= x < 2 ^ (8 * Z.of_nat word_bytes).

(** The interface laws, against the family [f] of the standard. *)
Class Sha2Laws (W : Sha2Word) (f : Fips180.family) : Prop := {
  law_w : Fips180.w f = 8 * Z.of_nat word_bytes;
  law_word : Fips180.word_len f = word_bytes;
  law_pos : (0 < word_bytes)%nat;
  law_wrap x : wrap x = x mod 2 ^ Fips180.w f;
  law_load b : bytes_ok b -> (word_bytes <= length b)%nat ->
    load_word b = Fips180.be_value (take word_bytes b);
  law_store x : store_word x = Fips180.be_bytes word_bytes x;
  law_S0 x : word_ok x -> Sigma0 x = Fips180.big f (Fips180.S0 f) x;
  law_S1 x : word_ok x -> Sigma1 x = Fips180.big f (Fips180.S1 f) x;
  law_s0 x : word_ok x -> sigma0 x = Fips180.small f (Fips180.s0 f) x;
  law_s1 x : word_ok x -> sigma1 x = Fips180.small f (Fips180.s1 f) x;
  law_rounds : Fips180.rounds f = (16 * round_groups)%nat;
  law_groups : (0 < round_groups)%nat;
  law_constants t : (t < Fips180.rounds f)%nat -> constants !!! t = Fips180.K f t;
  law_limit : (pad_limit + 2 * word_bytes = 16 * word_bytes)%nat;
  law_length L : (length (length_field L) <= 2 * word_bytes)%nat;
  law_field L : 0 <= L < 2 ^ 64 ->
    Fips180.be_bytes (2 * word_bytes) (8 * L)
    = replicate (2 * word_bytes - length (length_field L)) 0 ++ length_field L
}.

(** A rotation by shifts is the arithmetic rotation. *)
Lemma rotr_shifts w c x :
  0 <= c <= w -> 0 <= x < 2 ^ w ->
  Z.lor (Z.shiftr x c) (Z.shiftl x (w - c) mod 2 ^ w) = Fips180.rotr w c x.
Proof.
  intros Hc Hx. unfold Fips180.rotr.
  assert (0 < 2 ^ c) by (apply Z.pow_pos_nonneg; lia).
  assert (2 ^ w = 2 ^ c * 2 ^ (w - c)) as E by (rewrite <- Z.pow_add_r by lia; f_equal; lia).
  assert (Z.shiftl x (w - c) mod 2 ^ w = Z.shiftl (x mod 2 ^ c) (w - c)) as ->.
  { rewrite !shiftl_mul, E, Z.mul_mod_distr_r by lia. reflexivity. }
  rewrite shiftr_div by lia. apply lor_shl; [lia|]. split; [apply Z.div_pos; lia|].
  apply Z.div_lt_upper_bound; lia.
Qed.
Lemma ROTR_32_rotr c x : 0 <= c <= 32 -> 0 <= x < 2 ^ 32 -> ROTR_32 x c = Fips180.rotr 32 c x.
Proof. intros. unfold ROTR_32. rewrite u32_mod. apply (rotr_shifts 32); assumption. Qed.
Lemma ROTR_64_rotr c x : 0 <= c <= 64 -> 0 <= x < 2 ^ 64 -> ROTR_64 x c = Fips180.rotr 64 c x.
Proof. intros. unfold ROTR_64. rewrite u64_mod. apply (rotr_shifts 64); assumption. Qed.

(** Big-endian loads of bytes: the [lor]s are sums. *)
Lemma load_32_value b :
  bytes_ok b -> (4 <= length b)%nat -> load_bigendian_32 b = Fips180.be_value (take 4 b).
Proof.
  intros Hb Hl.
  do 4 (destruct b as [|? b]; [cbn in Hl; lia|apply Forall_cons in Hb as [? Hb]]).
  unfold Fips180.be_value, load_bigendian_32, is_u8 in *.
  cbn [fold_left take lookup_total list_lookup_total].
  rewrite !u32_mod, !(Z.mod_small (Z.shiftl _ _)) by (rewrite shiftl_mul; lia).
  rewrite (lor_shl 8), (lor_shl 16), (lor_shl 24) by lia. rewrite ?take_0; cbn [fold_left]; lia.
Qed.
Lemma load_64_value b :
  bytes_ok b -> (8 <= length b)%nat -> load_bigendian_64 b = Fips180.be_value (take 8 b).
Proof.
  intros Hb Hl.
  do 8 (destruct b as [|? b]; [cbn in Hl; lia|apply Forall_cons in Hb as [? Hb]]).
  unfold Fips180.be_value, load_bigendian_64, is_u8 in *.
  cbn [fold_left take lookup_total list_lookup_total].
  rewrite !u64_mod, !(Z.mod_small (Z.shiftl _ _)) by (rewrite shiftl_mul; lia).
  rewrite (lor_shl 8), (lor_shl 16), (lor_shl 24), (lor_shl 32), (lor_shl 40), (lor_shl 48), (lor_shl 56)
    by lia.
  rewrite ?take_0; cbn [fold_left]; lia.
Qed.
Lemma shiftr_byte x n : 0 <= n -> u8 (Z.shiftr x n) = x / 2 ^ n mod 256.
Proof. intros. rewrite u8_mod, shiftr_div by assumption. reflexivity. Qed.
Lemma store_32_bytes x : store_bigendian_32 x = Fips180.be_bytes 4 x.
Proof.
  unfold store_bigendian_32. rewrite !shiftr_byte by lia. rewrite u8_mod.
  replace (x mod 256) with (x / 1 mod 256) by (rewrite Z.div_1_r; reflexivity). reflexivity.
Qed.
Lemma store_64_bytes x : store_bigendian_64 x = Fips180.be_bytes 8 x.
Proof.
  unfold store_bigendian_64. rewrite !shiftr_byte by lia. rewrite u8_mod.
  replace (x mod 256) with (x / 1 mod 256) by (rewrite Z.div_1_r; reflexivity). reflexivity.
Qed.

(** The length fields: [8 L] in big-endian. *)
Lemma field_byte L n : 3 <= n -> 8 * L / 2 ^ n mod 256 = u8 (Z.shiftr L (n - 3)).
Proof.
  intros Hn. rewrite shiftr_byte by lia. f_equal.
  replace (2 ^ n) with (8 * 2 ^ (n - 3)) by (change 8 with (2 ^ 3); rewrite <- Z.pow_add_r by lia; f_equal; lia).
  rewrite Z.div_mul_cancel_l by lia. reflexivity.
Qed.
Lemma field_low L : 8 * L / 1 mod 256 = u8 (Z.shiftl L 3).
Proof. rewrite Z.div_1_r, u8_mod, shiftl_mul by lia. f_equal. lia. Qed.
Lemma field_32 L : Fips180.be_bytes 8 (8 * L) = length_field_32 L.
Proof.
  change (Fips180.be_bytes 8 (8 * L)) with
    [8 * L / 2 ^ 56 mod 256; 8 * L / 2 ^ 48 mod 256; 8 * L / 2 ^ 40 mod 256; 8 * L / 2 ^ 32 mod 256;
     8 * L / 2 ^ 24 mod 256; 8 * L / 2 ^ 16 mod 256; 8 * L / 2 ^ 8 mod 256; 8 * L / 1 mod 256].
  rewrite !field_byte, field_low by lia. reflexivity.
Qed.
Lemma field_64 L : 0 <= L < 2 ^ 64 -> Fips180.be_bytes 16 (8 * L) = replicate 7 0 ++ length_field_64 L.
Proof.
  intros HL.
  assert (forall n, 67 <= n -> 8 * L / 2 ^ n mod 256 = 0) as Hz.
  { intros n Hn. rewrite Z.div_small; [reflexivity|]. split; [lia|].
    apply Z.lt_le_trans with (2 ^ 67); [lia|]. apply Z.pow_le_mono_r; lia. }
  change (Fips180.be_bytes 16 (8 * L)) with
    [8 * L / 2 ^ 120 mod 256; 8 * L / 2 ^ 112 mod 256; 8 * L / 2 ^ 104 mod 256; 8 * L / 2 ^ 96 mod 256;
     8 * L / 2 ^ 88 mod 256; 8 * L / 2 ^ 80 mod 256; 8 * L / 2 ^ 72 mod 256; 8 * L / 2 ^ 64 mod 256;
     8 * L / 2 ^ 56 mod 256; 8 * L / 2 ^ 48 mod 256; 8 * L / 2 ^ 40 mod 256; 8 * L / 2 ^ 32 mod 256;
     8 * L / 2 ^ 24 mod 256; 8 * L / 2 ^ 16 mod 256; 8 * L / 2 ^ 8 mod 256; 8 * L / 1 mod 256].
  rewrite !Hz, !field_byte, field_low by lia. reflexivity.
Qed.

#[export] Instance sha2_32_laws : Sha2Laws sha2_32 Fips180.family_32.
Proof.
  split; try reflexivity; unfold word_ok; cbn [word_bytes wrap load_word store_word Sigma0 Sigma1 sigma0
    sigma1 constants round_groups pad_limit length_field sha2_32].
  - lia.
  - intros x. apply u32_mod.
  - apply load_32_value.
  - apply store_32_bytes.
  - intros x Hx. unfold Sigma0_32. rewrite !ROTR_32_rotr by (try exact Hx; lia). reflexivity.
  - intros x Hx. unfold Sigma1_32. rewrite !ROTR_32_rotr by (try exact Hx; lia). reflexivity.
  - intros x Hx. unfold sigma0_32, SHR. rewrite !ROTR_32_rotr, shiftr_div by (try exact Hx; lia). reflexivity.
  - intros x Hx. unfold sigma1_32, SHR. rewrite !ROTR_32_rotr, shiftr_div by (try exact Hx; lia). reflexivity.
  - lia.
  - intros t Ht. rewrite constants_32_standard. apply (lookup_total_fill 64), Ht.
  - intros L _. apply field_32.
Qed.
#[export] Instance sha2_64_laws : Sha2Laws sha2_64 Fips180.family_64.
Proof.
  split; try reflexivity; unfold word_ok; cbn [word_bytes wrap load_word store_word Sigma0 Sigma1 sigma0
    sigma1 constants round_groups pad_limit length_field sha2_64].
  - lia.
  - intros x. apply u64_mod.
  - apply load_64_value.
  - apply store_64_bytes.
  - intros x Hx. unfold Sigma0_64. rewrite !ROTR_64_rotr by (try exact Hx; lia). reflexivity.
  - intros x Hx. unfold Sigma1_64. rewrite !ROTR_64_rotr by (try exact Hx; lia). reflexivity.
  - intros x Hx. unfold sigma0_64, SHR. rewrite !ROTR_64_rotr, shiftr_div by (try exact Hx; lia). reflexivity.
  - intros x Hx. unfold sigma1_64, SHR. rewrite !ROTR_64_rotr, shiftr_div by (try exact Hx; lia). reflexivity.
  - lia.
  - intros t Ht. rewrite constants_64_standard. apply (lookup_total_fill 80), Ht.
  - intros L. change (9 <= 16)%nat. lia.
  - apply field_64.
Qed.

(** ** Big-endian numbers *)

Lemma be_fold b acc : fold_left (fun acc x => 256 * acc + x) b acc
  = acc * 256 ^ Z.of_nat (length b) + Fips180.be_value b.
Proof.
  unfold Fips180.be_value. revert acc. induction b as [|x b IH]; intros acc; cbn [fold_left length].
  - change (256 ^ Z.of_nat 0) with 1. lia.
  - rewrite IH, (IH (256 * 0 + x)), Nat2Z.inj_succ, Z.pow_succ_r by lia. ring.
Qed.
Lemma be_value_cons x b :
  Fips180.be_value (x :: b) = x * 256 ^ Z.of_nat (length b) + Fips180.be_value b.
Proof. exact (be_fold b x). Qed.
Lemma be_value_bound b : bytes_ok b -> 0 <= Fips180.be_value b < 256 ^ Z.of_nat (length b).
Proof.
  induction b as [|x b IH]; intros H; [cbn; lia|]. apply Forall_cons in H as [Hx Hb].
  rewrite be_value_cons. cbn [length]. rewrite Nat2Z.inj_succ, Z.pow_succ_r by lia.
  specialize (IH Hb). unfold is_u8 in Hx. nia.
Qed.
Lemma be_bytes_S n v : Fips180.be_bytes (S n) v = v / 256 ^ Z.of_nat n mod 256 :: Fips180.be_bytes n v.
Proof.
  unfold Fips180.be_bytes, fill. cbn [seq map]. f_equal.
  - do 4 f_equal. lia.
  - rewrite <- seq_shift, map_map. apply map_ext. intros i. do 4 f_equal. lia.
Qed.
Lemma be_bytes_len n v : length (Fips180.be_bytes n v) = n.
Proof. apply length_fill. Qed.
Lemma be_bytes_ok n v : bytes_ok (Fips180.be_bytes n v).
Proof.
  apply bytes_ok_fill. intros i _. unfold is_u8. pose proof (Z.mod_pos_bound (v / 256 ^ Z.of_nat (n - 1 - i)) 256). lia.
Qed.
Lemma be_value_bytes n v : Fips180.be_value (Fips180.be_bytes n v) = v mod 256 ^ Z.of_nat n.
Proof.
  induction n as [|n IH]; [cbn; rewrite Z.mod_1_r; reflexivity|].
  rewrite be_bytes_S, be_value_cons, be_bytes_len, IH, Nat2Z.inj_succ, Z.pow_succ_r by lia.
  rewrite (Z.mul_comm 256), Z.rem_mul_r by (try apply Z.pow_nonzero; lia). ring.
Qed.

(** Parts of a list of equal pieces. *)
Lemma take_drop_concat (g : Z -> list Z) n s i :
  (forall x, length (g x) = n) -> (i < length s)%nat ->
  take n (drop (n * i) (concat (map g s))) = g (s !!! i).
Proof.
  intros Hg. revert i. induction s as [|x s IH]; intros i Hi; [cbn in Hi; lia|].
  destruct i as [|i]; cbn [map concat].
  - rewrite Nat.mul_0_r, drop_0. rewrite take_app_le, take_ge by (rewrite Hg; lia). reflexivity.
  - replace (n * S i)%nat with (length (g x) + n * i)%nat by (rewrite Hg; lia).
    rewrite drop_app_add. apply IH. cbn in Hi. lia.
Qed.
Lemma take_drop_take (l : list Z) a b c : (a + b <= c)%nat -> take a (drop b (take c l)) = take a (drop b l).
Proof. intros H. rewrite skipn_firstn_comm, take_take, Nat.min_l by lia. reflexivity. Qed.

(** ** The message schedule: the window updated in place *)

Section standard.
Context {W : Sha2Word} {f : Fips180.family} {HL : Sha2Laws W f}.

Lemma word_ok_mod x : word_ok (x mod 2 ^ Fips180.w f).
Proof. unfold word_ok. rewrite law_w. apply Z.mod_pos_bound, Z.pow_pos_nonneg; lia. Qed.
Lemma wrap_ok x : word_ok (wrap x).
Proof. rewrite law_wrap. apply word_ok_mod. Qed.
Lemma pow_256 : 256 ^ Z.of_nat word_bytes = 2 ^ Fips180.w f.
Proof. rewrite law_w, Z.pow_mul_r by lia. reflexivity. Qed.
Lemma be_word_ok b : bytes_ok b -> word_ok (Fips180.be_value (take word_bytes b)).
Proof.
  intros H. pose proof (be_value_bound (take word_bytes b) (Forall_take _ _ _ H)) as Hb.
  rewrite length_take in Hb. unfold word_ok.
  rewrite <- law_w, <- pow_256. split; [lia|]. eapply Z.lt_le_trans; [apply Hb|].
  apply Z.pow_le_mono_r; lia.
Qed.

(** The recurrence of the standard on a function of the index. *)
Definition recurs (Wf : nat -> Z) (t : nat) : Prop :=
  Wf (t + 16)%nat
  = (Fips180.small f (Fips180.s1 f) (Wf (t + 14)%nat) + Wf (t + 9)%nat
     + Fips180.small f (Fips180.s0 f) (Wf (t + 1)%nat) + Wf t) mod 2 ^ Fips180.w f.
Definition window (Wf : nat -> Z) (t : nat) (w : list Z) : Prop :=
  length w = 16%nat /\ forall i, (i < 16)%nat -> w !!! i = Wf (16 * t + i)%nat.

Lemma EXPAND_window (Wf : nat -> Z) t w :
  (forall u, (u < 16 * t + 32)%nat -> word_ok (Wf u)) ->
  (forall i, (i < 16)%nat -> recurs Wf (16 * t + i)) ->
  window Wf t w -> window Wf (S t) (EXPAND w).
Proof.
  intros Hok Hrec [Hl Hw]. unfold EXPAND.
  pose proof (for_loop_inv (fun i w => length w = 16%nat /\ forall j, (j < 16)%nat ->
    w !!! j = Wf (if decide (j < i)%nat then 16 * t + 16 + j else 16 * t + j)%nat)
    (fun i => M i ((i + 14) mod 16) ((i + 9) mod 16) ((i + 1) mod 16)) 16 0 w) as H.
  cbn [Nat.add] in H. destruct H as [H1 H2].
  - split; [exact Hl|]. intros j Hj. apply Hw, Hj.
  - intros i s Hi [Hsl Hs]. unfold M. split; [rewrite length_insert; exact Hsl|].
    assert (forall k, (0 < k < 16)%nat -> s !!! ((i + k) mod 16)%nat = Wf (16 * t + i + k)%nat) as Hk.
    { intros k Hk. rewrite Hs by (apply Nat.mod_upper_bound; lia).
      destruct (decide (i + k < 16)%nat).
      - rewrite Nat.mod_small by lia. rewrite decide_False by lia. f_equal. lia.
      - replace ((i + k) mod 16)%nat with (i + k - 16)%nat
          by (apply (Nat.mod_unique _ _ 1); lia).
        rewrite decide_True by lia. f_equal. lia. }
    rewrite !Hk, (Hs i), decide_False by lia. intros j Hj.
    destruct (decide (j = i)) as [->|Hne].
    + rewrite lookup_total_insert_eq, decide_True by lia.
      rewrite law_wrap, law_s1, law_s0 by (apply Hok; lia).
      replace (16 * t + 16 + i)%nat with (16 * t + i + 16)%nat by lia. symmetry. apply Hrec. lia.
    + rewrite lookup_total_insert_ne, Hs by lia. f_equal.
      destruct (decide (j < i)%nat), (decide (j < S i)%nat); lia.
  - split; [exact H1|]. intros i Hi. rewrite H2, decide_True by lia. f_equal. lia.
Qed.

Lemma schedule_len n Wl : length (Fips180.schedule f n Wl) = (length Wl + n)%nat.
Proof.
  revert Wl. induction n as [|n IH]; intros Wl; cbn [Fips180.schedule]; [lia|].
  rewrite IH, length_app. cbn. lia.
Qed.
Lemma schedule_old n Wl i : (i < length Wl)%nat -> Fips180.schedule f n Wl !!! i = Wl !!! i.
Proof.
  revert Wl. induction n as [|n IH]; intros Wl Hi; cbn [Fips180.schedule]; [reflexivity|].
  rewrite IH by (rewrite length_app; lia). rewrite lookup_total_app_l by lia. reflexivity.
Qed.
Lemma schedule_recurs n Wl t :
  (16 <= length Wl)%nat -> (length Wl <= t + 16 < length Wl + n)%nat ->
  recurs (fun i => Fips180.schedule f n Wl !!! i) t.
Proof.
  revert Wl. induction n as [|n IH]; intros Wl Hl Ht; [lia|]. unfold recurs. cbn [Fips180.schedule].
  destruct (decide (t + 16 = length Wl)%nat) as [E|E].
  - rewrite !schedule_old by (rewrite length_app; cbn; lia).
    rewrite (lookup_total_app_r _ _ (t + 16)), E, Nat.sub_diag by lia.
    rewrite !lookup_total_app_l by lia. cbn [lookup_total list_lookup_total].
    replace (t + 14)%nat with (length Wl - 2)%nat by lia.
    replace (t + 9)%nat with (length Wl - 7)%nat by lia.
    replace (t + 1)%nat with (length Wl - 15)%nat by lia.
    replace t with (length Wl - 16)%nat by lia. reflexivity.
  - apply IH; rewrite length_app; cbn; lia.
Qed.
Lemma schedule_ok n Wl t :
  Forall word_ok Wl -> (16 <= length Wl)%nat -> (t < length Wl + n)%nat ->
  word_ok (Fips180.schedule f n Wl !!! t).
Proof.
  intros Hw Hl Ht. destruct (decide (t < length Wl)%nat).
  - rewrite schedule_old by assumption. apply Forall_lookup_total_1; assumption.
  - pose proof (schedule_recurs n Wl (t - 16) Hl ltac:(lia)) as H. unfold recurs in H.
    replace (t - 16 + 16)%nat with t in H by lia. rewrite H. apply word_ok_mod.
Qed.

(** ** Rounds and blocks *)

Definition regs_ok (r : regs) : Prop := Forall word_ok (of_regs r).

Lemma F_round w k r :
  regs_ok r -> F w k r = Fips180.round f k w r /\ regs_ok (F w k r).
Proof.
  intros Hr. split.
  - unfold F, Fips180.round. unfold regs_ok, of_regs in Hr. rewrite !Forall_cons in Hr.
    rewrite !law_wrap, law_S1, law_S0 by tauto. reflexivity.
  - unfold regs_ok, of_regs in *. rewrite !Forall_cons in *.
    cbn [F ra rb rc rd re rf rg rh]. decompose [and] Hr. auto 12 using wrap_ok.
Qed.

Lemma rounds16_standard (Wf : nat -> Z) t w r :
  (t < round_groups)%nat -> window Wf t w -> regs_ok r ->
  rounds16 t w r = for_loop 16 (16 * t) (fun u => Fips180.round f (Fips180.K f u) (Wf u)) r /\
  regs_ok (rounds16 t w r).
Proof.
  intros Ht [_ Hw] Hr. unfold rounds16.
  rewrite (for_loop_offset _ 16 0 (16 * t)).
  apply (for_loop_rel (fun a b => a = b /\ regs_ok a)); [auto|].
  intros j a b Hj [-> Hb]. rewrite Hw, law_constants by (rewrite ?law_rounds; lia).
  destruct (F_round (Wf (16 * t + j)%nat) (Fips180.K f (16 * t + j)) b Hb) as [-> Hok].
  rewrite (Nat.add_comm j). auto.
Qed.

Definition state_words (s : list Z) : Prop := length s = 8%nat /\ Forall word_ok s.

Lemma state_regs s : state_words s -> regs_ok (to_regs s).
Proof.
  intros [Hl Hs]. do 8 (destruct s as [|? s]; [discriminate|]). destruct s; [|discriminate]. exact Hs.
Qed.

Lemma compress_standard state inp :
  state_words state -> bytes_ok inp -> (block_bytes <= length inp)%nat ->
  compress state inp = Fips180.hash_block f state (take block_bytes inp) /\
  state_words (compress state inp).
Proof.
  intros Hs Hb Hl. unfold block_bytes in *.
  assert (state_words (compress state inp)) as Hok.
  { unfold compress. destruct (for_loop _ _ _ _) as [? r]. split; [apply length_fill|].
    apply Forall_forall. intros x Hx. apply list_elem_of_In, in_map_iff in Hx as (i & <- & _). apply wrap_ok. }
  split; [|exact Hok]. clear Hok. unfold compress, Fips180.hash_block. rewrite law_word.
  set (Mw := load_words 16 inp).
  assert (fill 16 (fun i => Fips180.be_value (take word_bytes (drop (word_bytes * i)
    (take (16 * word_bytes) inp)))) = Mw) as ->.
  { unfold Mw, load_words. apply fill_ext. intros i Hi. rewrite take_drop_take by nia.
    symmetry. apply law_load; [apply Forall_drop, Hb|]. rewrite length_drop. nia. }
  assert (length Mw = 16%nat) as HMl by apply length_fill.
  assert (Forall word_ok Mw) as HMok.
  { apply Forall_forall. intros x Hx. apply list_elem_of_In, in_map_iff in Hx as (i & <- & Hi).
    apply in_seq in Hi. rewrite law_load; [|apply Forall_drop, Hb|rewrite length_drop; nia].
    apply be_word_ok, Forall_drop, Hb. }
  set (Wl := Fips180.schedule f (Fips180.rounds f - 16) Mw).
  set (body := fun u => Fips180.round f (Fips180.K f u) (Wl !!! u)).
  pose proof law_groups as Hg. pose proof law_rounds as Hr.
  assert (window (fun u => Wl !!! u) 0 Mw) as Hw0.
  { split; [exact HMl|]. intros i Hi. symmetry. apply schedule_old. lia. }
  destruct (rounds16_standard _ 0 Mw (to_regs state) Hg Hw0 (state_regs state Hs)) as [E0 Hok0].
  pose proof (for_loop_inv (fun t '(w, r) => window (fun u => Wl !!! u) (t - 1) w /\
    r = for_loop (16 * t) 0 body (to_regs state) /\ regs_ok r)
    (fun t '(w, r) => let w := EXPAND w in (w, rounds16 t w r)) (round_groups - 1) 1
    (Mw, rounds16 0 Mw (to_regs state))) as H.
  destruct (for_loop (round_groups - 1) 1 _ _) as [w' r'].
  destruct H as (_ & Hr' & _).
  - split; [exact Hw0|]. split; [exact E0|exact Hok0].
  - intros t [w r] Ht (Hw & Hrt & Hok). cbv zeta.
    assert (window (fun u => Wl !!! u) t (EXPAND w)) as Hw'.
    { replace t with (S (t - 1)) by lia. apply EXPAND_window; [| |exact Hw].
      - intros u Hu. apply schedule_ok; [exact HMok|lia|lia].
      - intros i Hi. apply schedule_recurs; lia. }
    destruct (rounds16_standard _ t (EXPAND w) r ltac:(lia) Hw' Hok) as [E Hok'].
    replace (S t - 1)%nat with t by lia. split; [exact Hw'|]. split; [|exact Hok'].
    rewrite E, Hrt. replace (16 * S t)%nat with (16 * t + 16)%nat by lia.
    rewrite for_loop_app. reflexivity.
  - replace (1 + (round_groups - 1))%nat with round_groups in Hr' by lia.
    rewrite Hr', Hr. apply fill_ext. intros i _. rewrite law_wrap, Z.add_comm. reflexivity.
Qed.

(** The block loop, as a loop over block numbers. *)
Definition blocks_of (n : nat) (H p : list Z) : list Z :=
  for_loop n 0 (fun i H => Fips180.hash_block f H (take block_bytes (drop (block_bytes * i) p))) H.

Lemma block_pos : (0 < block_bytes)%nat.
Proof. unfold block_bytes. pose proof law_pos. lia. Qed.

Lemma blocks_of_S n H p :
  blocks_of (S n) H p
  = blocks_of n (Fips180.hash_block f H (take block_bytes p)) (drop block_bytes p).
Proof.
  unfold blocks_of. cbn [for_loop]. rewrite Nat.mul_0_r, drop_0, for_loop_shift.
  apply for_loop_ext. intros j s _. rewrite drop_drop. do 3 f_equal. lia.
Qed.

Lemma hashblocks_loop_standard fuel state inp :
  state_words state -> bytes_ok inp -> (length inp <= fuel)%nat ->
  hashblocks_loop fuel state inp
  = (blocks_of (length inp / block_bytes) state inp, drop (block_bytes * (length inp / block_bytes)) inp) /\
  state_words (fst (hashblocks_loop fuel state inp)).
Proof.
  revert state inp. induction fuel as [|fuel IH]; intros state inp Hs Hb Hf; pose proof block_pos.
  - destruct inp; [|cbn in Hf; lia]. cbn [length]. rewrite Nat.Div0.div_0_l, Nat.mul_0_r. auto.
  - cbn [hashblocks_loop]. destruct (Nat.leb_spec block_bytes (length inp)).
    + destruct (compress_standard state inp Hs Hb ltac:(assumption)) as [E Hok].
      destruct (IH (compress state inp) (drop block_bytes inp) Hok (Forall_drop _ _ _ Hb)
        ltac:(rewrite length_drop; lia)) as [IH1 IH2].
      split; [|exact IH2]. rewrite IH1, length_drop.
      replace (length inp / block_bytes)%nat with (S ((length inp - block_bytes) / block_bytes)).
      * rewrite blocks_of_S, E, drop_drop. do 2 f_equal. lia.
      * rewrite <- (Nat.div_add_l 1) by lia. f_equal. lia.
    + rewrite Nat.div_small, Nat.mul_0_r by lia. auto.
Qed.

(** Storing the state as bytes and loading it again. *)
Lemma store_len state : length state = 8%nat -> length (concat (map store_word state)) = state_bytes.
Proof.
  intros Hl. unfold state_bytes. rewrite (map_ext _ _ law_store), <- Hl. clear.
  induction state as [|x s IH]; [reflexivity|]. cbn [map concat length].
  rewrite length_app, be_bytes_len, IH. lia.
Qed.
Lemma load_store state : state_words state -> load_words 8 (concat (map store_word state)) = state.
Proof.
  intros [Hl Hs]. apply (list_eq_total _ _ 8); [apply length_fill|exact Hl|]. intros i Hi.
  unfold load_words. rewrite lookup_total_fill by exact Hi.
  rewrite (map_ext _ _ law_store).
  assert (bytes_ok (concat (map (Fips180.be_bytes word_bytes) state))) as Hb.
  { apply Forall_concat, Forall_map, List.Forall_forall. intros. apply be_bytes_ok. }
  assert (length (concat (map (Fips180.be_bytes word_bytes) state)) = 8 * word_bytes)%nat as Hcl.
  { rewrite <- (map_ext _ _ law_store). apply store_len, Hl. }
  rewrite law_load; [|apply Forall_drop, Hb|rewrite length_drop, Hcl; nia].
  rewrite take_drop_concat by (try apply be_bytes_len; lia).
  rewrite be_value_bytes, pow_256, law_w. apply Z.mod_small, (Forall_lookup_total_1 _ _ _ Hs). lia.
Qed.

Lemma hashblocks_standard sb inp :
  state_words (load_words 8 sb) -> bytes_ok inp ->
  let state := blocks_of (length inp / block_bytes) (load_words 8 sb) inp in
  crypto_hashblocks sb inp = (concat (map store_word state), length inp mod block_bytes)%nat /\
  state_words state.
Proof.
  intros Hs Hb state. unfold crypto_hashblocks.
  destruct (hashblocks_loop_standard (length inp) _ inp Hs Hb (le_n _)) as [E Hok].
  rewrite E in Hok |- *. split; [|exact Hok]. do 2 f_equal. rewrite length_drop, Nat.Div0.mod_eq. reflexivity.
Qed.

Lemma blocks_of_app n1 n2 H p :
  blocks_of (n1 + n2) H p = blocks_of n2 (blocks_of n1 H p) (drop (block_bytes * n1) p).
Proof.
  unfold blocks_of. rewrite for_loop_app, Nat.add_0_l.
  transitivity (for_loop n2 (0 + n1) (fun i H => Fips180.hash_block f H
    (take block_bytes (drop (block_bytes * i) p))) (blocks_of n1 H p)); [reflexivity|].
  rewrite for_loop_offset. apply for_loop_ext. intros j s _. rewrite drop_drop. do 3 f_equal. lia.
Qed.
Lemma blocks_of_take n H p q :
  take (block_bytes * n) p = take (block_bytes * n) q -> blocks_of n H p = blocks_of n H q.
Proof.
  intros E. apply for_loop_ext. intros j s Hj.
  rewrite <- (take_drop_take p _ _ (block_bytes * n)), E, take_drop_take by nia. reflexivity.
Qed.

(** ** Padding *)

(** The bytes [inc_finalize] adds after a message of which [inlen] bytes lie in
    the last, incomplete block. *)
Definition pad_tail (L : Z) (inlen : nat) : list Z :=
  let total := (if (inlen <? pad_limit)%nat then block_bytes else 2 * block_bytes)%nat in
  [0x80] ++ replicate (total - length (length_field L) - (inlen + 1)) 0 ++ length_field L.

Lemma pad_tail_len L inlen :
  (inlen < block_bytes)%nat ->
  (inlen + length (pad_tail L inlen) = if (inlen <? pad_limit)%nat then block_bytes else 2 * block_bytes)%nat.
Proof.
  intros Hi. unfold pad_tail. rewrite !length_app, length_replicate. cbn [length].
  pose proof law_limit. pose proof (law_length L). pose proof law_pos. unfold block_bytes in *.
  destruct (Nat.ltb_spec inlen pad_limit); lia.
Qed.
Lemma pad_tail_ok L inlen : 0 <= L < 2 ^ 64 -> bytes_ok (pad_tail L inlen).
Proof.
  intros HL'. unfold pad_tail, bytes_ok. rewrite !Forall_app. split; [|split].
  - apply Forall_cons. split; [unfold is_u8; lia|apply Forall_nil; exact I].
  - apply Forall_replicate. unfold is_u8. lia.
  - pose proof (be_bytes_ok (2 * word_bytes) (8 * L)) as H. rewrite law_field in H by exact HL'.
    apply Forall_app in H as [_ H]. exact H.
Qed.

(** What [inc_finalize] computes: every block of the padded message. *)
Lemma inc_finalize_blocks ctx inp :
  let H := load_words 8 (take state_bytes ctx) in
  let L := u64 (load_bigendian_64 (drop state_bytes ctx) + Z.of_nat (length inp)) in
  let p := inp ++ pad_tail L (length inp mod block_bytes) in
  state_words H -> bytes_ok inp ->
  inc_finalize ctx inp
  = (concat (map store_word (blocks_of (length p / block_bytes) H p)), replicate (state_bytes + 8) 0).
Proof.
  intros H L p Hs Hb. unfold inc_finalize. fold L.
  destruct (hashblocks_standard (take state_bytes ctx) inp Hs Hb) as [E Hok]. rewrite E. cbv iota.
  set (inlen := (length inp mod block_bytes)%nat) in *. set (q := (length inp / block_bytes)%nat) in *.
  pose proof block_pos as Hpos.
  pose proof (Nat.div_mod (length inp) block_bytes ltac:(lia)) as Hdm. fold q inlen in Hdm.
  pose proof (Nat.mod_upper_bound (length inp) block_bytes ltac:(lia)) as Hi. fold inlen in Hi.
  pose proof (u64_range (load_bigendian_64 (drop state_bytes ctx) + Z.of_nat (length inp))) as HLr.
  set (padded := drop (length inp - inlen) inp ++ pad_tail L inlen).
  assert (drop (block_bytes * q) p = padded) as Hp.
  { unfold p, padded. rewrite drop_app_le by lia. do 2 f_equal. lia. }
  assert (length padded = if (inlen <? pad_limit)%nat then block_bytes else 2 * block_bytes)%nat as Hpl.
  { unfold padded. rewrite length_app, length_drop, <- (pad_tail_len L inlen Hi). lia. }
  assert (bytes_ok padded) as Hpb.
  { apply Forall_app. split; [apply Forall_drop, Hb|apply pad_tail_ok; exact HLr]. }
  assert (length p / block_bytes = q + length padded / block_bytes)%nat as Hn.
  { rewrite <- Hp, length_drop, <- Nat.div_add_l by lia. f_equal.
    unfold p. rewrite length_app. lia. }
  change (drop (length inp - inlen) inp ++ [0x80] ++ _) with padded.
  destruct (hashblocks_standard (concat (map store_word (blocks_of q H inp))) padded) as [E2 _];
    [rewrite load_store by exact Hok; exact Hok|exact Hpb|].
  fold H. rewrite E2, load_store by exact Hok. do 3 f_equal.
  rewrite Hn, blocks_of_app, Hp. f_equal. apply blocks_of_take.
  unfold p. rewrite take_app_le by lia. reflexivity.
Qed.

(** The padding is that of the standard when the count is the message length. *)
Lemma pad_standard m :
  Z.of_nat (length m) < 2 ^ 64 ->
  m ++ pad_tail (Z.of_nat (length m)) (length m mod block_bytes) = Fips180.pad f m.
Proof.
  intros Hm. unfold Fips180.pad, Fips180.block_len. rewrite law_word. fold block_bytes. f_equal.
  unfold pad_tail. f_equal. rewrite law_field by lia. set (L := Z.of_nat (length m)).
  rewrite app_assoc, <- replicate_add. do 2 f_equal.
  pose proof block_pos as Hpos. pose proof (law_length L). pose proof law_limit. pose proof law_pos.
  pose proof (Nat.mod_upper_bound (length m) block_bytes ltac:(lia)) as Hi.
  pose proof (Nat.div_mod (length m) block_bytes ltac:(lia)) as Hdm.
  set (inlen := (length m mod block_bytes)%nat) in *. set (q := (length m / block_bytes)%nat) in *.
  assert (block_bytes = pad_limit + 2 * word_bytes)%nat as Hbb by (unfold block_bytes; lia).
  assert (8 * (2 * word_bytes) = block_bytes)%nat as H8 by (unfold block_bytes; lia).
  destruct (Nat.ltb_spec inlen pad_limit).
  - destruct (decide (inlen + 1 + 2 * word_bytes = block_bytes)%nat).
    + replace ((length m + 1 + 2 * word_bytes) mod block_bytes)%nat with 0%nat
        by (apply (Nat.mod_unique _ _ (S q)); lia).
      rewrite Nat.sub_0_r, Nat.Div0.mod_same. lia.
    + replace ((length m + 1 + 2 * word_bytes) mod block_bytes)%nat
        with (inlen + 1 + 2 * word_bytes)%nat by (apply (Nat.mod_unique _ _ q); lia).
      rewrite Nat.mod_small by lia. lia.
  - replace ((length m + 1 + 2 * word_bytes) mod block_bytes)%nat
      with (inlen + 1 + 2 * word_bytes - block_bytes)%nat by (apply (Nat.mod_unique _ _ (S q)); lia).
    rewrite Nat.mod_small by lia. lia.
Qed.

(** A context made by [inc_init] from stored words. *)
Lemma init_context H :
  state_words H ->
  let ctx := inc_init (concat (map store_word H)) in
  load_words 8 (take state_bytes ctx) = H /\ load_bigendian_64 (drop state_bytes ctx) = 0.
Proof.
  intros Hs ctx.
  assert (length (concat (map store_word H)) = state_bytes) as Hl.
  { apply store_len, Hs. }
  unfold ctx, inc_init. rewrite take_app_le, take_ge by lia. rewrite drop_app_ge, Hl, Nat.sub_diag by lia.
  split; [apply load_store, Hs|reflexivity].
Qed.

Lemma hash_standard H m :
  state_words H -> bytes_ok m -> Z.of_nat (length m) < 2 ^ 64 ->
  fst (inc_finalize (inc_init (concat (map store_word H))) m) = Fips180.hash f H m.
Proof.
  intros Hs Hb Hm. destruct (init_context H Hs) as [E1 E2].
  rewrite inc_finalize_blocks; rewrite ?E1; [|exact Hs|exact Hb]. cbn [fst].
  rewrite E2, Z.add_0_l, u64_id by (unfold is_u64; lia). rewrite pad_standard by exact Hm.
  unfold Fips180.hash, Fips180.block_len. rewrite law_word.
  rewrite (map_ext _ _ law_store). reflexivity.
Qed.

Lemma u64_add_mod a b : u64 (u64 a + b) = u64 (a + b).
Proof. rewrite !u64_mod. apply Zplus_mod_idemp_l. Qed.

(** Blocks fed one call at a time are hashed as one message. *)
Lemma inc_blocks_finalize ctx a b n :
  state_words (load_words 8 (take state_bytes ctx)) -> bytes_ok a -> bytes_ok b ->
  length a = (block_bytes * n)%nat ->
  inc_finalize (inc_blocks ctx a n) b = inc_finalize ctx (a ++ b).
Proof.
  intros Hs Ha Hb Hl. pose proof block_pos as Hpos.
  destruct (hashblocks_standard (take state_bytes ctx) a Hs Ha) as [E Hok].
  assert (length a / block_bytes = n)%nat as Hn by (rewrite Hl, Nat.mul_comm; apply Nat.div_mul; lia).
  rewrite Hn in E, Hok. set (H0 := load_words 8 (take state_bytes ctx)) in *.
  set (st := concat (map store_word (blocks_of n H0 a))) in *.
  assert (inc_blocks ctx a n = st ++ store_bigendian_64
    (u64 (load_bigendian_64 (drop state_bytes ctx) + u64 (Z.of_nat (block_bytes * n))))) as ->.
  { unfold inc_blocks. rewrite (take_ge a) by lia. rewrite E. reflexivity. }
  assert (length st = state_bytes) as Hst.
  { unfold st. apply store_len, Hok. }
  rewrite !inc_finalize_blocks; fold H0; try assumption;
    [|apply Forall_app; auto|rewrite take_app_le, take_ge by lia; unfold st; rewrite load_store; exact Hok].
  rewrite take_app_le, take_ge, drop_app_ge, Hst, Nat.sub_diag by lia.
  unfold st. rewrite load_store, drop_0, load_64_value by
    first [exact Hok | rewrite store_64_bytes; apply be_bytes_ok | cbn; lia].
  rewrite store_64_bytes, take_ge, be_value_bytes by (rewrite be_bytes_len; lia).
  change (256 ^ Z.of_nat 8) with 18446744073709551616. rewrite <- u64_mod.
  rewrite (length_app a b), Hl.
  assert ((block_bytes * n + length b) mod block_bytes = length b mod block_bytes)%nat as ->.
  { rewrite Nat.add_comm, (Nat.mul_comm block_bytes). apply Nat.Div0.mod_add. }
  set (c := load_bigendian_64 (drop state_bytes ctx)).
  assert (u64 (u64 (u64 (c + u64 (Z.of_nat (block_bytes * n)))) + Z.of_nat (length b))
    = u64 (c + Z.of_nat (block_bytes * n + length b))) as ->.
  { rewrite !u64_add_mod, <- Z.add_assoc, (Z.add_comm c), <- Z.add_assoc, u64_add_mod. f_equal. lia. }
  set (tl := pad_tail _ _). do 3 f_equal. rewrite <- app_assoc.
  rewrite !(length_app a), Hl.
  replace ((block_bytes * n + length (b ++ tl)) / block_bytes)%nat with (n + length (b ++ tl) / block_bytes)%nat
    by (rewrite (Nat.mul_comm block_bytes), Nat.div_add_l by lia; reflexivity).
  rewrite blocks_of_app, drop_app_ge, Hl, Nat.sub_diag, drop_0 by lia. f_equal.
  apply blocks_of_take. rewrite take_app_le by lia. reflexivity.
Qed.
End standard.

(** ** The entry points *)

Lemma words_ok_compute `{Sha2Word} (l : list Z) :
  (length l =? 8)%nat && forallb (fun x => (0 <=? x) && (x <? 2 ^ (8 * Z.of_nat word_bytes))) l = true ->
  state_words l.
Proof.
  intros Hc. apply andb_true_iff in Hc as [Hl Hx]. split; [apply Nat.eqb_eq, Hl|].
  apply Forall_forall. intros x Hin. apply list_elem_of_In in Hin.
  rewrite forallb_forall in Hx. specialize (Hx x Hin). unfold word_ok. lia.
Qed.
Lemma iv_224_context : sha224_inc_init = inc_init (concat (map store_word Fips180.H_224)).
Proof. vm_compute. reflexivity. Qed.
Lemma iv_256_context : sha256_inc_init = inc_init (concat (map store_word Fips180.H_256)).
Proof. vm_compute. reflexivity. Qed.
Lemma iv_384_context : sha384_inc_init = inc_init (concat (map (store_word (Sha2Word := sha2_64)) Fips180.H_384)).
Proof. vm_compute. reflexivity. Qed.
Lemma iv_512_context : sha512_inc_init = inc_init (concat (map (store_word (Sha2Word := sha2_64)) Fips180.H_512)).
Proof. vm_compute. reflexivity. Qed.
Lemma H_224_words : state_words Fips180.H_224.
Proof. apply words_ok_compute. vm_compute. reflexivity. Qed.
Lemma H_256_words : state_words Fips180.H_256.
Proof. apply words_ok_compute. vm_compute. reflexivity. Qed.
Lemma H_384_words : state_words (W := sha2_64) Fips180.H_384.
Proof. apply words_ok_compute. vm_compute. reflexivity. Qed.
Lemma H_512_words : state_words (W := sha2_64) Fips180.H_512.
Proof. apply words_ok_compute. vm_compute. reflexivity. Qed.

Lemma fst_take {A B : Type} n (p : list A * B) : fst (let '(a, b) := p in (take n a, b)) = take n (fst p).
Proof. destruct p. reflexivity. Qed.

(** C40: the four hash functions are those of FIPS 180-4: on every message of bytes within
    the length the standard admits (2^64 bits for SHA-224 and SHA-256; 2^64
    bytes, the range of [size_t], for SHA-384 and SHA-512) the C code returns the digest
    the standard defines, whose round constants and initial values are
    computed from the first primes. *)
Theorem sha2_standard (m : list Z) (Hb : bytes_ok m) (Hm : Z.of_nat (length m) < 2 ^ 64) :
  (Z.of_nat (length m) < 2 ^ 61 -> sha224 m = Fips180.SHA224 m /\ sha256 m = Fips180.SHA256 m) /\
  sha384 m = Fips180.SHA384 m /\ sha512 m = Fips180.SHA512 m.
Proof.
  unfold sha224, sha256, sha384, sha512, sha224_inc_finalize, sha384_inc_finalize,
    sha256_inc_finalize, sha512_inc_finalize. rewrite !fst_take.
  rewrite iv_224_context, iv_256_context, iv_384_context, iv_512_context.
  rewrite (hash_standard Fips180.H_224), (hash_standard Fips180.H_256) by auto using H_224_words, H_256_words.
  rewrite (hash_standard (W := sha2_64) Fips180.H_384), (hash_standard (W := sha2_64) Fips180.H_512)
    by auto using H_384_words, H_512_words.
  repeat split.
Qed.
Lemma sha2_standard_witness :
  sha256 [97; 98; 99] = Fips180.SHA256 [97; 98; 99] /\ sha512 [97; 98; 99] = Fips180.SHA512 [97; 98; 99].
Proof.
  destruct (sha2_standard [97; 98; 99]) as (H & _ & H').
  - repeat (apply Forall_cons; split; [unfold is_u8; lia|]). apply Forall_nil. exact I.
  - cbn. lia.
  - split; [apply H; cbn; lia|exact H'].
Defined.

(** hashing incrementally.  After any number of [inc_blocks] calls on whole
    blocks, [inc_finalize] of the rest returns the digest of the whole message:
    in a context whose state bytes are bytes, feeding [n] blocks [a] and then
    finalizing with [b] is finalizing with [a ++ b], at both word widths. *)
Theorem sha2_incremental (ctx a b : list Z) (n : nat)
  (Hc : bytes_ok ctx) (Ha : bytes_ok a) (Hb : bytes_ok b) :
  (length ctx = 40%nat -> length a = (64 * n)%nat ->
   sha256_inc_finalize (sha256_inc_blocks ctx a n) b = sha256_inc_finalize ctx (a ++ b)) /\
  (length ctx = 72%nat -> length a = (128 * n)%nat ->
   sha512_inc_finalize (sha512_inc_blocks ctx a n) b = sha512_inc_finalize ctx (a ++ b)).
Proof.
  split; intros Hl Hn; apply inc_blocks_finalize; try assumption;
    (split; [apply length_fill|]); apply Forall_forall; intros x Hx;
    apply list_elem_of_In, in_map_iff in Hx as (i & <- & Hi); apply in_seq in Hi;
    rewrite law_load by (first [apply Forall_drop, Forall_take, Hc
      | rewrite length_drop, length_take, Hl; unfold state_bytes; cbn [word_bytes sha2_32 sha2_64]; lia]);
    apply be_word_ok, Forall_drop, Forall_take, Hc.
Qed.
Lemma sha2_incremental_witness :
  sha256_inc_finalize (sha256_inc_blocks sha256_inc_init (replicate 64 7) 1) [1; 2]
  = sha256_inc_finalize sha256_inc_init (replicate 64 7 ++ [1; 2]).
Proof.
  apply (sha2_incremental sha256_inc_init (replicate 64 7) [1; 2] 1); try reflexivity.
  - apply (Forall_iff (fun x => (0 <=? x) && (x <? 256) = true)); [intros x; unfold is_u8; lia|].
    repeat (apply Forall_cons; split; [reflexivity|]). apply Forall_nil. exact I.
  - apply Forall_replicate. unfold is_u8. lia.
  - repeat (apply Forall_cons; split; [unfold is_u8; lia|]). apply Forall_nil. exact I.
Defined.
