(* ===== verification/ArithUint256.v ===== *)
(** * 256-bit unsigned integers

    [base_uint<256>] and [arith_uint256] of [src/arith_uint256.h] and
    [src/arith_uint256.cpp].  A number is the array the code keeps: eight
    32-bit digits, least significant first.  Every operation is the loop of
    the source over that array; each is proved to compute the integer
    operation modulo [2^256] on the values the arrays denote ([val]), long
    division included, and the "compact" encoding of targets is proved to keep the
    leading digits. *)

From S2P Require Import Prelude.

Local Open Scope Z_scope.

(** ** The class [base_uint] *)

Definition WIDTH : nat := 8.
Definition BASE : Z := 4294967296. (* 2^32 *)

(** [base_uint()] and [base_uint(uint64_t b)]. *)
Definition zero : list Z := fill WIDTH (fun _ => 0).
Definition of_u64 (b : Z) : list Z :=
  fill WIDTH (fun i => if (i =? 0)%nat then u32 b else if (i =? 1)%nat then u32 (Z.shiftr b 32) else 0).

Definition bnot (pn : list Z) : list Z := fill WIDTH (fun i => Z.lxor (pn !!! i) 4294967295).
(** [operator++]: [while (i < WIDTH && ++pn[i] == 0) i++]. *)
Fixpoint incr_loop (n i : nat) (pn : list Z) : list Z :=
  match n with
  | O => pn
  | S n =>
      let d := u32 (pn !!! i + 1) in
      let pn := <[i := d]> pn in
      if d =? 0 then incr_loop n (S i) pn else pn
  end.
Definition incr (pn : list Z) : list Z := incr_loop WIDTH 0 pn.
Definition neg (pn : list Z) : list Z := incr (bnot pn).
(** [operator--]: [while (i < WIDTH && --pn[i] == 0xffffffff) i++]. *)
Fixpoint decr_loop (n i : nat) (pn : list Z) : list Z :=
  match n with
  | O => pn
  | S n =>
      let d := u32 (pn !!! i - 1) in
      let pn := <[i := d]> pn in
      if d =? 4294967295 then decr_loop n (S i) pn else pn
  end.
Definition decr (pn : list Z) : list Z := decr_loop WIDTH 0 pn.

Definition bxor (a b : list Z) : list Z := fill WIDTH (fun i => Z.lxor (a !!! i) (b !!! i)).
Definition band (a b : list Z) : list Z := fill WIDTH (fun i => Z.land (a !!! i) (b !!! i)).
Definition bor (a b : list Z) : list Z := fill WIDTH (fun i => Z.lor (a !!! i) (b !!! i)).

(** [operator<<=] and [operator>>=]; the shift is an [unsigned int]. *)
Definition shl (a : list Z) (shift : Z) : list Z :=
  let k := Z.to_nat (shift / 32) in
  let s := shift mod 32 in
  for_loop WIDTH 0 (fun i pn =>
    let pn := if (i + k + 1 <? WIDTH)%nat && negb (s =? 0)
              then <[(i + k + 1)%nat := Z.lor (pn !!! (i + k + 1)%nat) (Z.shiftr (a !!! i) (32 - s))]> pn
              else pn in
    if (i + k <? WIDTH)%nat
    then <[(i + k)%nat := Z.lor (pn !!! (i + k)%nat) (u32 (Z.shiftl (a !!! i) s))]> pn
    else pn) zero.
Definition shr (a : list Z) (shift : Z) : list Z :=
  let k := Z.to_nat (shift / 32) in
  let s := shift mod 32 in
  for_loop WIDTH 0 (fun i pn =>
    let pn := if (k + 1 <=? i)%nat && negb (s =? 0)
              then <[(i - k - 1)%nat := Z.lor (pn !!! (i - k - 1)%nat) (u32 (Z.shiftl (a !!! i) (32 - s)))]> pn
              else pn in
    if (k <=? i)%nat
    then <[(i - k)%nat := Z.lor (pn !!! (i - k)%nat) (Z.shiftr (a !!! i) s)]> pn
    else pn) zero.

(** The loops that carry: the digits so far and the carry, a [uint64_t]. *)
Definition add (a b : list Z) : list Z :=
  fst (for_loop WIDTH 0 (fun i '(pn, carry) =>
    let n := u64 (carry + pn !!! i + b !!! i) in
    (<[i := Z.land n 0xffffffff]> pn, Z.shiftr n 32)) (a, 0)).
Definition sub (a b : list Z) : list Z := add a (neg b).
Definition mul32 (a : list Z) (b32 : Z) : list Z :=
  fst (for_loop WIDTH 0 (fun i '(pn, carry) =>
    let n := u64 (carry + u64 (b32 * pn !!! i)) in
    (<[i := Z.land n 0xffffffff]> pn, Z.shiftr n 32)) (a, 0)).
Definition mul (p b : list Z) : list Z :=
  for_loop WIDTH 0 (fun j a =>
    fst (for_loop (WIDTH - j) 0 (fun i '(a, carry) =>
      let n := u64 (carry + a !!! (i + j)%nat + u64 (p !!! j * b !!! i)) in
      (<[(i + j)%nat := Z.land n 0xffffffff]> a, Z.shiftr n 32)) (a, 0))) zero.

(** [CompareTo]: from the most significant digit down. *)
Fixpoint compare_loop (n : nat) (a b : list Z) : Z :=
  match n with
  | O => 0
  | S i => if a !!! i <? b !!! i then -1 else if a !!! i >? b !!! i then 1 else compare_loop i a b
  end.
Definition CompareTo (a b : list Z) : Z := compare_loop WIDTH a b.
Definition gt (a b : list Z) : bool := CompareTo a b >? 0.
Definition ge (a b : list Z) : bool := CompareTo a b >=? 0.
Definition EqualTo (a : list Z) (b : Z) : bool :=
  forallb (fun i => a !!! i =? 0) (seq 2 (WIDTH - 2)) &&
  (a !!! 1%nat =? Z.shiftr b 32) && (a !!! 0%nat =? Z.land b 0xffffffff).

(** [bits]: position of the highest set bit plus one. *)
Fixpoint digit_bits (nbits : nat) (d : Z) : Z :=
  match nbits with
  | O => 1
  | S n => if negb (Z.land d (u32 (Z.shiftl 1 (Z.of_nat nbits))) =? 0) then Z.of_nat nbits + 1
           else digit_bits n d
  end.
Fixpoint bits_loop (n : nat) (pn : list Z) : Z :=
  match n with
  | O => 0
  | S pos => if negb (pn !!! pos =? 0) then 32 * Z.of_nat pos + digit_bits 31 (pn !!! pos)
             else bits_loop pos pn
  end.
Definition bits (pn : list Z) : Z := bits_loop WIDTH pn.
Definition GetLow64 (pn : list Z) : Z := Z.lor (pn !!! 0%nat) (u64 (Z.shiftl (pn !!! 1%nat) 32)).

(** [operator/=]: shift and subtract; [n] iterations are left, the current
    shift is [n - 1].  [None] is the thrown "Division by zero". *)
Fixpoint div_loop (n : nat) (num div q : list Z) : list Z :=
  match n with
  | O => q
  | S shift =>
      let '(num, q) :=
        if ge num div
        then (sub num div,
              <[(shift / 32)%nat := Z.lor (q !!! (shift / 32)%nat)
                  (u32 (Z.shiftl 1 (Z.of_nat (shift mod 32))))]> q)
        else (num, q) in
      div_loop shift num (shr div 1) q
  end.
Definition div (a b : list Z) : option (list Z) :=
  let num_bits := bits a in
  let div_bits := bits b in
  if div_bits =? 0 then None
  else if div_bits >? num_bits then Some zero
  else
    let shift := num_bits - div_bits in
    Some (div_loop (Z.to_nat (shift + 1)) a (shl b shift) zero).

(** ** [arith_uint256] *)

(** The number, [*pfNegative] and [*pfOverflow]. *)
Definition SetCompact (nCompact : Z) : list Z * bool * bool :=
  let nSize := Z.shiftr nCompact 24 in
  let nWord := Z.land nCompact 0x007fffff in
  let '(this, nWord) :=
    if nSize <=? 3 then let nWord := Z.shiftr nWord (8 * (3 - nSize)) in (of_u64 nWord, nWord)
    else (shl (of_u64 nWord) (8 * (nSize - 3)), nWord) in
  (this,
   negb (nWord =? 0) && negb (Z.land nCompact 0x00800000 =? 0),
   negb (nWord =? 0) && ((nSize >? 34) || ((nWord >? 0xff) && (nSize >? 33))
                          || ((nWord >? 0xffff) && (nSize >? 32)))).

(** [None] is a failed [assert]. *)
Definition GetCompact (this : list Z) (fNegative : bool) : option Z :=
  let nSize := (bits this + 7) / 8 in
  let nCompact :=
    if nSize <=? 3 then u32 (u64 (Z.shiftl (GetLow64 this) (8 * (3 - nSize))))
    else u32 (GetLow64 (shr this (8 * (nSize - 3)))) in
  let '(nCompact, nSize) :=
    if negb (Z.land nCompact 0x00800000 =? 0) then (Z.shiftr nCompact 8, nSize + 1)
    else (nCompact, nSize) in
  if negb (Z.land nCompact (Z.lxor 0x007fffff 0xffffffff) =? 0) then None else
  if negb (nSize <? 256) then None else
  let nCompact := Z.lor nCompact (u32 (Z.shiftl nSize 24)) in
  Some (Z.lor nCompact (if fNegative && negb (Z.land nCompact 0x007fffff =? 0) then 0x00800000 else 0)).

(** A [uint256] is the number its little-endian bytes denote; the digits are
    read with [ReadLE32] and written with [WriteLE32]. *)
Definition UintToArith256 (a : Z) : list Z := fill WIDTH (fun x => u32 (Z.shiftr a (32 * Z.of_nat x))).
Definition ArithToUint256 (a : list Z) : Z :=
  for_loop WIDTH 0 (fun x b => Z.lor b (Z.shiftl (a !!! x) (32 * Z.of_nat x))) 0.

(** ** Values *)

Definition val_n (n : nat) (pn : list Z) : Z := zsum (fun i => pn !!! i * BASE ^ Z.of_nat i) n.
Definition val (pn : list Z) : Z := val_n WIDTH pn.
Definition limbs_ok (pn : list Z) : Prop := length pn = WIDTH /\ Forall is_u32 pn.
Definition R : Z := 2 ^ 256.

Example arith_test :
  val (mul (of_u64 123456789123) (of_u64 987654321987)) = 123456789123 * 987654321987 /\
  (fst (fst (SetCompact 0x1e0fffff)) = UintToArith256 (0x0fffff * 2 ^ (8 * 27))) /\
  GetCompact (UintToArith256 (2 ^ 236 - 1)) false = Some 0x1e0fffff.
Proof. vm_compute. auto. Qed.

(** ** Digits and values *)

Lemma BASE_pow n : BASE ^ Z.of_nat n = 2 ^ (32 * Z.of_nat n).
Proof. rewrite Z.pow_mul_r by lia. reflexivity. Qed.
Lemma BASE_pow_pos n : 0 < BASE ^ Z.of_nat n.
Proof. apply Z.pow_pos_nonneg; [unfold BASE; lia|lia]. Qed.
Lemma BASE_pow_S n : BASE ^ Z.of_nat (S n) = BASE * BASE ^ Z.of_nat n.
Proof. rewrite Nat2Z.inj_succ, Z.pow_succ_r by lia. reflexivity. Qed.
Lemma R_eq : R = BASE ^ Z.of_nat WIDTH.
Proof. reflexivity. Qed.

Lemma limb_u32 pn i : Forall is_u32 pn -> is_u32 (pn !!! i).
Proof.
  intros H. destruct (decide (i < length pn)%nat).
  - apply Forall_lookup_total_1; assumption.
  - rewrite list_lookup_total_alt, lookup_ge_None_2 by lia. unfold is_u32. cbn. lia.
Qed.
Lemma limbs_ok_fill f : (forall i, (i < WIDTH)%nat -> is_u32 (f i)) -> limbs_ok (fill WIDTH f).
Proof.
  intros H. split; [apply length_fill|]. apply Forall_lookup_2. intros i x Hx.
  assert (i < WIDTH)%nat by (apply lookup_lt_Some in Hx; rewrite length_fill in Hx; exact Hx).
  rewrite lookup_fill in Hx by assumption. injection Hx as <-. auto.
Qed.
Lemma limbs_ok_insert pn i d : limbs_ok pn -> is_u32 d -> limbs_ok (<[i := d]> pn).
Proof. intros [Hl Hu] Hd. split; [rewrite length_insert; exact Hl|]. apply Forall_insert; assumption. Qed.

Lemma val_n_bound n pn : Forall is_u32 pn -> 0 <= val_n n pn < BASE ^ Z.of_nat n.
Proof.
  intros H. unfold val_n. induction n as [|n IH]; [cbn; lia|]. cbn [zsum]. rewrite BASE_pow_S.
  pose proof (limb_u32 pn n H) as Hd. pose proof (BASE_pow_pos n). unfold is_u32, BASE in *. nia.
Qed.
Lemma val_bound pn : limbs_ok pn -> 0 <= val pn < R.
Proof. intros [_ H]. apply (val_n_bound WIDTH), H. Qed.

Lemma val_digit pn i :
  limbs_ok pn -> (i < WIDTH)%nat -> pn !!! i = (val pn / BASE ^ Z.of_nat i) mod BASE.
Proof.
  intros [_ H] Hi. unfold val, val_n. replace WIDTH with (i + S (WIDTH - S i))%nat at 1 by lia.
  rewrite zsum_split. change (zsum _ i) with (val_n i pn).
  rewrite (zsum_ext _ (fun j => BASE ^ Z.of_nat i * (pn !!! (i + j)%nat * BASE ^ Z.of_nat j))).
  2: { intros j _. rewrite Nat2Z.inj_add, Z.pow_add_r by lia. ring. }
  rewrite zsum_mul_l, (Z.mul_comm (BASE ^ _)), Z.div_add by (pose proof (BASE_pow_pos i); lia).
  rewrite (Z.div_small (val_n i pn)) by apply val_n_bound, H.
  change (S (WIDTH - S i)) with (1 + (WIDTH - S i))%nat. rewrite zsum_split. cbn [zsum].
  rewrite (zsum_ext _ (fun j => BASE * (pn !!! (i + (1 + j))%nat * BASE ^ Z.of_nat j))).
  2: { intros j _. change (1 + j)%nat with (S j) at 2. rewrite BASE_pow_S. ring. }
  rewrite zsum_mul_l. rewrite Nat.add_0_r.
  replace (0 + (0 + pn !!! i * BASE ^ Z.of_nat 0 + BASE * zsum (fun j => pn !!! (i + (1 + j))%nat * BASE ^ Z.of_nat j) (WIDTH - S i)))
    with (pn !!! i + zsum (fun j => pn !!! (i + (1 + j))%nat * BASE ^ Z.of_nat j) (WIDTH - S i) * BASE)
    by (change (BASE ^ Z.of_nat 0) with 1; ring).
  rewrite Z.mod_add by (unfold BASE; lia). symmetry. apply Z.mod_small.
  pose proof (limb_u32 pn i H). unfold is_u32, BASE in *. lia.
Qed.

Lemma limb_testbit pn j m :
  limbs_ok pn -> (j < WIDTH)%nat -> 0 <= m < 32 ->
  Z.testbit (pn !!! j) m = Z.testbit (val pn) (32 * Z.of_nat j + m).
Proof.
  intros H Hj Hm. rewrite (val_digit pn j H Hj), BASE_pow, <- shiftr_div by lia.
  change BASE with (2 ^ 32). rewrite Z.mod_pow2_bits_low by lia.
  rewrite Z.shiftr_spec by lia. f_equal. lia.
Qed.

(** An array denotes [x] when its digits have the bits of [x]. *)
Lemma val_by_bits pn x :
  limbs_ok pn -> 0 <= x < R ->
  (forall j m, (j < WIDTH)%nat -> 0 <= m < 32 ->
    Z.testbit (pn !!! j) m = Z.testbit x (32 * Z.of_nat j + m)) ->
  val pn = x.
Proof.
  intros H Hx Hb. pose proof (val_bound pn H) as Hv. apply Z.bits_inj'. intros n Hn.
  destruct (Z.lt_ge_cases n 256).
  - pose proof (Z.div_mod n 32 ltac:(lia)). pose proof (Z.mod_pos_bound n 32 ltac:(lia)).
    pose proof (Z.div_pos n 32 Hn ltac:(lia)).
    assert (n / 32 < 8) by (apply Z.div_lt_upper_bound; lia).
    replace n with (32 * Z.of_nat (Z.to_nat (n / 32)) + n mod 32) by lia.
    rewrite <- limb_testbit by (unfold WIDTH in *; try assumption; lia).
    apply Hb; unfold WIDTH; lia.
  - rewrite <- (Z.mod_small x R Hx), <- (Z.mod_small (val pn) R Hv).
    change R with (2 ^ 256). rewrite !Z.mod_pow2_bits_high by lia. reflexivity.
Qed.

Lemma limbs_val_inj a b : limbs_ok a -> limbs_ok b -> val a = val b -> a = b.
Proof.
  intros Ha Hb E. apply (list_eq_total _ _ WIDTH); [apply Ha|apply Hb|]. intros i Hi.
  rewrite (val_digit a), (val_digit b), E by assumption. reflexivity.
Qed.

Lemma UintToArith256_ok x : limbs_ok (UintToArith256 x).
Proof. apply limbs_ok_fill. intros. apply u32_range. Qed.
Lemma val_UintToArith256 x : 0 <= x < R -> val (UintToArith256 x) = x.
Proof.
  intros Hx. apply val_by_bits; [apply UintToArith256_ok|exact Hx|]. intros j m Hj Hm.
  unfold UintToArith256. rewrite lookup_total_fill, u32_mod by exact Hj. change 4294967296 with (2 ^ 32).
  rewrite Z.mod_pow2_bits_low, Z.shiftr_spec by lia. f_equal. lia.
Qed.
Lemma UintToArith256_val pn : limbs_ok pn -> UintToArith256 (val pn) = pn.
Proof.
  intros H. apply limbs_val_inj; [apply UintToArith256_ok|exact H|]. apply val_UintToArith256, val_bound, H.
Qed.
Lemma zero_ok : limbs_ok zero.
Proof. apply limbs_ok_fill. intros. unfold is_u32. lia. Qed.
Lemma val_zero : val zero = 0.
Proof. reflexivity. Qed.
Lemma of_u64_ok b : limbs_ok (of_u64 b).
Proof.
  apply limbs_ok_fill. intros i _.
  destruct (i =? 0)%nat; [apply u32_range|]. destruct (i =? 1)%nat; [apply u32_range|]. unfold is_u32. lia.
Qed.
Lemma val_of_u64 b : is_u64 b -> val (of_u64 b) = b.
Proof.
  intros Hb. change (val (of_u64 b)) with
    (0 + u32 b * 1 + u32 (Z.shiftr b 32) * BASE + 0 + 0 + 0 + 0 + 0 + 0).
  rewrite shiftr_div by lia. unfold BASE. zlia.
Qed.

(** ** Loops that carry *)

Definition carry_body (g : nat -> Z -> Z) (o i : nat) (s : list Z * Z) : list Z * Z :=
  let '(pn, carry) := s in
  let n := u64 (carry + g i (pn !!! (i + o)%nat)) in
  (<[(i + o)%nat := Z.land n 0xffffffff]> pn, Z.shiftr n 32).

Lemma carry_loop (g : nat -> Z -> Z) o n pn :
  limbs_ok pn -> (n + o <= WIDTH)%nat ->
  (forall i d, (i < n)%nat -> is_u32 d -> 0 <= g i d <= (BASE - 1) * (BASE - 1) + (BASE - 1)) ->
  let '(pn', c) := for_loop n 0 (carry_body g o) (pn, 0) in
  limbs_ok pn' /\ 0 <= c < BASE /\
  (forall j, (j < o \/ n + o <= j)%nat -> pn' !!! j = pn !!! j) /\
  zsum (fun i => pn' !!! (i + o)%nat * BASE ^ Z.of_nat i) n + c * BASE ^ Z.of_nat n
  = zsum (fun i => g i (pn !!! (i + o)%nat) * BASE ^ Z.of_nat i) n.
Proof.
  intros Hok Hn Hg.
  pose proof (for_loop_inv (fun i '(pn', c) => limbs_ok pn' /\ 0 <= c < BASE /\
    (forall j, (j < o \/ i + o <= j)%nat -> pn' !!! j = pn !!! j) /\
    zsum (fun i => pn' !!! (i + o)%nat * BASE ^ Z.of_nat i) i + c * BASE ^ Z.of_nat i
    = zsum (fun i => g i (pn !!! (i + o)%nat) * BASE ^ Z.of_nat i) i)
    (carry_body g o) n 0 (pn, 0)) as H. apply H; clear H.
  - split; [exact Hok|]. split; [unfold BASE; lia|]. split; [auto|]. cbn. lia.
  - intros i [p c] Hi (Hp & Hc & Hsame & Hsum). cbn [carry_body].
    rewrite (Hsame (i + o)%nat) by lia.
    assert (is_u32 (pn !!! (i + o)%nat)) as Hd by apply limb_u32, Hok.
    specialize (Hg i _ ltac:(lia) Hd). set (d := g i (pn !!! (i + o)%nat)) in *.
    rewrite u64_id by (unfold is_u64, BASE in *; lia).
    change (Z.land (c + d) 0xffffffff) with (u32 (c + d)). rewrite u32_mod, shiftr_div by lia.
    change (2 ^ 32) with BASE. change 4294967296 with BASE.
    pose proof (Z.div_mod (c + d) BASE ltac:(unfold BASE; lia)) as Hdm.
    pose proof (Z.mod_pos_bound (c + d) BASE ltac:(unfold BASE; lia)) as Hmb.
    split; [apply limbs_ok_insert; [exact Hp|unfold is_u32, BASE in *; lia]|]. split.
    { split; [apply Z.div_pos; unfold BASE in *; lia|]. apply Z.div_lt_upper_bound; unfold BASE in *; lia. }
    split.
    { intros j Hj. rewrite lookup_total_insert_ne by lia. apply Hsame. lia. }
    cbn [zsum]. rewrite lookup_total_insert_eq by first [lia | destruct Hp as [-> _]; lia].
    rewrite (zsum_ext _ (fun i => p !!! (i + o)%nat * BASE ^ Z.of_nat i)).
    2: { intros j Hj. rewrite lookup_total_insert_ne by lia. reflexivity. }
    rewrite <- Hsum, BASE_pow_S. fold d. nia.
Qed.

Lemma mod_R x y c : 0 <= x < R -> x = y - c * R -> x = y mod R.
Proof. intros Hx E. apply (Z.mod_unique_pos _ _ c); lia. Qed.

Lemma add_spec a b : limbs_ok a -> limbs_ok b -> limbs_ok (add a b) /\ val (add a b) = (val a + val b) mod R.
Proof.
  intros Ha Hb. unfold add.
  rewrite (for_loop_ext _ (carry_body (fun i d => d + b !!! i) 0)).
  2: { intros i [pn c] _. cbn [carry_body]. rewrite Nat.add_0_r, Z.add_assoc. reflexivity. }
  pose proof (carry_loop (fun i d => d + b !!! i) 0 WIDTH a Ha (le_n _)) as H.
  destruct (for_loop _ _ _ _) as [pn c]. destruct H as (Hok & Hc & _ & E).
  { intros i d _ Hd. pose proof (limb_u32 b i (proj2 Hb)). unfold is_u32, BASE in *. lia. }
  cbn [fst]. split; [exact Hok|]. apply (mod_R _ _ c); [apply val_bound, Hok|].
  rewrite (zsum_ext (fun i => pn !!! (i + 0)%nat * _) (fun i => pn !!! i * BASE ^ Z.of_nat i)) in E
    by (intros; rewrite Nat.add_0_r; reflexivity).
  rewrite (zsum_ext (fun i => (_ + _) * _) (fun i => a !!! i * BASE ^ Z.of_nat i + b !!! i * BASE ^ Z.of_nat i)) in E
    by (intros; rewrite Nat.add_0_r; ring).
  rewrite zsum_add in E. rewrite R_eq. unfold val, val_n. lia.
Qed.

Lemma mul32_spec a b :
  limbs_ok a -> is_u32 b -> limbs_ok (mul32 a b) /\ val (mul32 a b) = (val a * b) mod R.
Proof.
  intros Ha Hb. unfold mul32.
  assert (forall d, is_u32 d -> 0 <= b * d <= (BASE - 1) * (BASE - 1)) as Hbd
    by (intros d Hd; unfold is_u32, BASE in *; nia).
  pose proof (carry_loop (fun _ d => u64 (b * d)) 0 WIDTH a Ha (le_n _)) as H.
  rewrite (for_loop_ext _ (carry_body (fun _ d => u64 (b * d)) 0)).
  2: { intros i [pn c] _. cbn [carry_body]. rewrite Nat.add_0_r. reflexivity. }
  assert (forall d, is_u32 d -> u64 (b * d) = b * d) as Hid
    by (intros d Hd; apply u64_id; specialize (Hbd d Hd); unfold is_u64, BASE in *; lia).
  destruct (for_loop _ _ _ _) as [pn c]. destruct H as (Hok & Hc & _ & E).
  { intros i d _ Hd. rewrite Hid by exact Hd. specialize (Hbd d Hd). unfold BASE in *. lia. }
  cbn [fst]. split; [exact Hok|]. apply (mod_R _ _ c); [apply val_bound, Hok|].
  rewrite (zsum_ext (fun i => pn !!! (i + 0)%nat * _) (fun i => pn !!! i * BASE ^ Z.of_nat i)) in E
    by (intros; rewrite Nat.add_0_r; reflexivity).
  rewrite (zsum_ext (fun i => u64 _ * _) (fun i => b * (a !!! i * BASE ^ Z.of_nat i))) in E
    by (intros; rewrite Nat.add_0_r, Hid by apply limb_u32, Ha; ring).
  rewrite zsum_mul_l in E. rewrite R_eq. unfold val, val_n. lia.
Qed.

(** One row of the schoolbook product. *)
Lemma mul_row p b j a :
  limbs_ok a -> limbs_ok b -> is_u32 p -> (j < WIDTH)%nat ->
  let a' := fst (for_loop (WIDTH - j) 0 (fun i '(a, carry) =>
      let n := u64 (carry + a !!! (i + j)%nat + u64 (p * b !!! i)) in
      (<[(i + j)%nat := Z.land n 0xffffffff]> a, Z.shiftr n 32)) (a, 0)) in
  limbs_ok a' /\ val a' =[R]= val a + p * BASE ^ Z.of_nat j * val b.
Proof.
  intros Ha Hb Hp Hj.
  assert (forall i, 0 <= p * b !!! i <= (BASE - 1) * (BASE - 1)) as Hbd
    by (intros i; pose proof (limb_u32 b i (proj2 Hb)); unfold is_u32, BASE in *; nia).
  assert (forall i, u64 (p * b !!! i) = p * b !!! i) as Hid
    by (intros i; apply u64_id; specialize (Hbd i); unfold is_u64, BASE in *; lia).
  rewrite (for_loop_ext _ (carry_body (fun i d => d + p * b !!! i) j)).
  2: { intros i [pn c] _. cbn [carry_body]. rewrite Hid, Z.add_assoc. reflexivity. }
  pose proof (carry_loop (fun i d => d + p * b !!! i) j (WIDTH - j) a Ha ltac:(lia)) as H.
  destruct (for_loop _ _ _ _) as [a' c]. destruct H as (Hok & Hc & Hsame & E).
  { intros i d _ Hd. specialize (Hbd i). unfold is_u32, BASE in *. lia. }
  cbn [fst]. split; [exact Hok|].
  assert (forall x : list Z, val x = val_n j x
    + BASE ^ Z.of_nat j * zsum (fun i => x !!! (i + j)%nat * BASE ^ Z.of_nat i) (WIDTH - j)) as Hsplit.
  { intros x. unfold val, val_n. replace WIDTH with (j + (WIDTH - j))%nat at 1 by lia.
    rewrite zsum_split, <- zsum_mul_l. f_equal. apply zsum_ext. intros i _.
    rewrite (Nat.add_comm i), Nat2Z.inj_add, Z.pow_add_r by lia. ring. }
  rewrite (Hsplit a'), (Hsplit a).
  replace (val_n j a') with (val_n j a)
    by (unfold val_n; apply zsum_ext; intros i Hi; rewrite Hsame by lia; reflexivity).
  rewrite (zsum_ext (fun i => (_ + _) * _) (fun i => a !!! (i + j)%nat * BASE ^ Z.of_nat i
    + p * (b !!! i * BASE ^ Z.of_nat i))) in E by (intros; ring).
  rewrite zsum_add, zsum_mul_l in E.
  replace (zsum (fun i => a' !!! (i + j)%nat * BASE ^ Z.of_nat i) (WIDTH - j)) with
    (zsum (fun i => a !!! (i + j)%nat * BASE ^ Z.of_nat i) (WIDTH - j) + p * val_n (WIDTH - j) b
     - c * BASE ^ Z.of_nat (WIDTH - j)) by (unfold val_n; lia).
  assert (BASE ^ Z.of_nat j * BASE ^ Z.of_nat (WIDTH - j) = R) as HR
    by (rewrite <- Z.pow_add_r, R_eq by lia; f_equal; lia).
  assert (val b = val_n (WIDTH - j) b
    + BASE ^ Z.of_nat (WIDTH - j) * zsum (fun i => b !!! (i + (WIDTH - j))%nat * BASE ^ Z.of_nat i) j) as ->.
  { unfold val, val_n. replace WIDTH with ((WIDTH - j) + j)%nat at 1 by lia.
    rewrite zsum_split, <- zsum_mul_l. f_equal. apply zsum_ext. intros i _.
    rewrite (Nat.add_comm i), Nat2Z.inj_add, Z.pow_add_r by lia. ring. }
  exists (- c - p * zsum (fun i => b !!! (i + (WIDTH - j))%nat * BASE ^ Z.of_nat i) j).
  rewrite <- HR. ring.
Qed.

Lemma mul_spec a b : limbs_ok a -> limbs_ok b -> limbs_ok (mul a b) /\ val (mul a b) = (val a * val b) mod R.
Proof.
  intros Ha Hb.
  pose proof (for_loop_inv (fun j x => limbs_ok x /\ val x =[R]= val_n j a * val b) (fun j x =>
    fst (for_loop (WIDTH - j) 0 (fun i '(x, carry) =>
      let n := u64 (carry + x !!! (i + j)%nat + u64 (a !!! j * b !!! i)) in
      (<[(i + j)%nat := Z.land n 0xffffffff]> x, Z.shiftr n 32)) (x, 0))) WIDTH 0 zero) as H.
  fold (mul a b) in H. destruct H as [Hok Hv].
  - split; [apply zero_ok|]. rewrite val_zero. unfold val_n. cbn. reflexivity.
  - intros j x Hj [Hx Hv].
    destruct (mul_row (a !!! j) b j x Hx Hb (limb_u32 a j (proj2 Ha)) ltac:(lia)) as [Hx' Hv'].
    split; [exact Hx'|]. rewrite Hv', Hv. unfold val_n. cbn [zsum]. apply cong_refl_eq. ring.
  - split; [exact Hok|]. apply cong_mod in Hv; [|reflexivity].
    rewrite (Z.mod_small (val _)) in Hv by apply val_bound, Hok. exact Hv.
Qed.

(** ** Increment, negation, subtraction *)

Lemma val_insert pn i d :
  length pn = WIDTH -> (i < WIDTH)%nat -> val (<[i := d]> pn) = val pn + (d - pn !!! i) * BASE ^ Z.of_nat i.
Proof.
  intros Hl Hi. unfold val, val_n.
  assert (forall n, zsum (fun k => <[i := d]> pn !!! k * BASE ^ Z.of_nat k) n
    = zsum (fun k => pn !!! k * BASE ^ Z.of_nat k) n
      + if decide (i < n)%nat then (d - pn !!! i) * BASE ^ Z.of_nat i else 0) as H.
  { induction n as [|n IH]; [rewrite decide_False by lia; reflexivity|]. cbn [zsum]. rewrite IH.
    destruct (decide (n = i)) as [->|Hne].
    - rewrite lookup_total_insert_eq, decide_False, decide_True by lia. ring.
    - rewrite lookup_total_insert_ne by lia. destruct (decide (i < n)%nat), (decide (i < S n)%nat); lia. }
  rewrite H, decide_True by lia. reflexivity.
Qed.

Lemma incr_loop_spec n i pn :
  limbs_ok pn -> (i + n = WIDTH)%nat ->
  limbs_ok (incr_loop n i pn) /\ exists c, val (incr_loop n i pn) = val pn + BASE ^ Z.of_nat i - c * R.
Proof.
  revert i pn. induction n as [|n IH]; intros i pn Hp Hi; cbn [incr_loop].
  - split; [exact Hp|]. exists 1. rewrite R_eq. replace i with WIDTH by lia. ring.
  - pose proof (limb_u32 pn i (proj2 Hp)) as Hd.
    assert (limbs_ok (<[i := u32 (pn !!! i + 1)]> pn)) as Hp' by (apply limbs_ok_insert; [exact Hp|apply u32_range]).
    pose proof (val_insert pn i (u32 (pn !!! i + 1)) (proj1 Hp) ltac:(lia)) as Hv.
    destruct (Z.eqb_spec (u32 (pn !!! i + 1)) 0) as [E|E].
    + destruct (IH (S i) _ Hp' ltac:(lia)) as [Hok [c Hc]]. split; [exact Hok|]. exists c.
      rewrite Hc, Hv, BASE_pow_S, E. assert (pn !!! i = BASE - 1) as -> by (unfold BASE; zlia). ring.
    + split; [exact Hp'|]. exists 0. rewrite Hv.
      assert (u32 (pn !!! i + 1) = pn !!! i + 1) as -> by zlia. ring.
Qed.
Lemma incr_spec pn : limbs_ok pn -> limbs_ok (incr pn) /\ val (incr pn) = (val pn + 1) mod R.
Proof.
  intros Hp. destruct (incr_loop_spec WIDTH 0 pn Hp eq_refl) as [Hok [c Hc]]. split; [exact Hok|].
  apply (mod_R _ _ c); [apply val_bound, Hok|]. exact Hc.
Qed.
Lemma decr_loop_spec n i pn :
  limbs_ok pn -> (i + n = WIDTH)%nat ->
  limbs_ok (decr_loop n i pn) /\ exists c, val (decr_loop n i pn) = val pn - BASE ^ Z.of_nat i - c * R.
Proof.
  revert i pn. induction n as [|n IH]; intros i pn Hp Hi; cbn [decr_loop].
  - split; [exact Hp|]. exists (-1). rewrite R_eq. replace i with WIDTH by lia. ring.
  - pose proof (limb_u32 pn i (proj2 Hp)) as Hd.
    assert (limbs_ok (<[i := u32 (pn !!! i - 1)]> pn)) as Hp' by (apply limbs_ok_insert; [exact Hp|apply u32_range]).
    pose proof (val_insert pn i (u32 (pn !!! i - 1)) (proj1 Hp) ltac:(lia)) as Hv.
    destruct (Z.eqb_spec (u32 (pn !!! i - 1)) 4294967295) as [E|E].
    + destruct (IH (S i) _ Hp' ltac:(lia)) as [Hok [c Hc]]. split; [exact Hok|]. exists c.
      rewrite Hc, Hv, BASE_pow_S, E. assert (pn !!! i = 0) as -> by zlia. unfold BASE. ring.
    + split; [exact Hp'|]. exists 0. rewrite Hv.
      assert (u32 (pn !!! i - 1) = pn !!! i - 1) as -> by zlia. ring.
Qed.
Lemma decr_spec pn : limbs_ok pn -> limbs_ok (decr pn) /\ val (decr pn) = (val pn - 1) mod R.
Proof.
  intros Hp. destruct (decr_loop_spec WIDTH 0 pn Hp eq_refl) as [Hok [c Hc]]. split; [exact Hok|].
  apply (mod_R _ _ c); [apply val_bound, Hok|]. exact Hc.
Qed.

Lemma not_digit d : is_u32 d -> Z.lxor d 4294967295 = 4294967295 - d.
Proof.
  intros Hd. unfold is_u32 in Hd. change 4294967295 with (Z.ones 32).
  assert (forall n, 32 <= n -> Z.testbit d n = false) as Hhigh.
  { intros n Hn. rewrite <- (Z.mod_small d (2 ^ 32)) by lia. apply Z.mod_pow2_bits_high. lia. }
  replace (Z.lxor d (Z.ones 32)) with (Z.ldiff (Z.ones 32) d).
  - symmetry. apply Z.sub_nocarry_ldiff. apply Z.bits_inj'. intros n Hn.
    rewrite Z.ldiff_spec, Z.bits_0. destruct (Z.lt_ge_cases n 32).
    + rewrite Z.ones_spec_low by lia. apply andb_false_r.
    + rewrite Hhigh by lia. reflexivity.
  - apply Z.bits_inj'. intros n Hn. rewrite Z.ldiff_spec, Z.lxor_spec. destruct (Z.lt_ge_cases n 32).
    + rewrite Z.ones_spec_low by lia. destruct (Z.testbit d n); reflexivity.
    + rewrite Z.ones_spec_high, Hhigh by lia. reflexivity.
Qed.
Lemma bnot_spec pn : limbs_ok pn -> limbs_ok (bnot pn) /\ val (bnot pn) = R - 1 - val pn.
Proof.
  intros Hp. assert (forall i, Z.lxor (pn !!! i) 4294967295 = 4294967295 - pn !!! i) as Hd
    by (intros i; apply not_digit, limb_u32, Hp).
  split.
  - apply limbs_ok_fill. intros i _. rewrite Hd. pose proof (limb_u32 pn i (proj2 Hp)). unfold is_u32 in *. lia.
  - unfold val, val_n. rewrite (zsum_ext _ (fun i => (BASE - 1) * BASE ^ Z.of_nat i + (-1) * (pn !!! i * BASE ^ Z.of_nat i))).
    2: { intros i Hi. unfold bnot. rewrite lookup_total_fill, Hd by exact Hi. unfold BASE. ring. }
    rewrite zsum_add, (zsum_mul_l (-1)). change (zsum (fun i => (BASE - 1) * BASE ^ Z.of_nat i) WIDTH) with (R - 1). ring.
Qed.
Lemma neg_spec pn : limbs_ok pn -> limbs_ok (neg pn) /\ val (neg pn) = (- val pn) mod R.
Proof.
  intros Hp. destruct (bnot_spec pn Hp) as [H1 E1]. destruct (incr_spec _ H1) as [H2 E2].
  split; [exact H2|]. unfold neg. rewrite E2, E1. replace (R - 1 - val pn + 1) with (- val pn + 1 * R) by ring.
  apply Z.mod_add. discriminate.
Qed.
Lemma sub_spec a b : limbs_ok a -> limbs_ok b -> limbs_ok (sub a b) /\ val (sub a b) = (val a - val b) mod R.
Proof.
  intros Ha Hb. destruct (neg_spec b Hb) as [Hn En]. destruct (add_spec a _ Ha Hn) as [Hs Es].
  split; [exact Hs|]. unfold sub. rewrite Es, En, Zplus_mod_idemp_r. reflexivity.
Qed.

(** ** Shifts *)

Lemma limb_high d n : is_u32 d -> 32 <= n -> Z.testbit d n = false.
Proof.
  intros Hd Hn. unfold is_u32 in Hd. rewrite <- (Z.mod_small d (2 ^ 32)) by lia.
  apply Z.mod_pow2_bits_high. lia.
Qed.
Lemma lor_u32 x y : is_u32 x -> is_u32 y -> is_u32 (Z.lor x y).
Proof.
  intros Hx Hy. rewrite <- (u32_id x Hx), <- (u32_id y Hy). unfold u32.
  rewrite <- Z.land_lor_distr_l. apply u32_range.
Qed.
Lemma shiftr_u32 x n : is_u32 x -> 0 <= n -> is_u32 (Z.shiftr x n).
Proof.
  intros Hx Hn. unfold is_u32 in *. rewrite shiftr_div by exact Hn.
  assert (0 < 2 ^ n) by (apply Z.pow_pos_nonneg; lia).
  split; [apply Z.div_pos; lia|]. apply Z.div_lt_upper_bound; nia.
Qed.
#[local] Hint Resolve lor_u32 shiftr_u32 u32_range limb_u32 limbs_ok_insert : arith.

(** The bits one iteration ors into digit [j]: those of digit [i] moved by the
    word offset [k] and the bit offset [s]. *)
Definition piece (b : bool) (x : Z) : Z := if b then x else 0.
Lemma piece_u32 b x : is_u32 x -> is_u32 (piece b x).
Proof. destruct b; [auto|]. intros _. unfold is_u32. cbn. lia. Qed.
Lemma lor_piece_0 x b y : b = false -> Z.lor x (piece b y) = x.
Proof. intros ->. apply Z.lor_0_r. Qed.

Lemma shl_limbs a sh :
  limbs_ok a -> 0 <= sh ->
  let k := Z.to_nat (sh / 32) in
  let s := sh mod 32 in
  limbs_ok (shl a sh) /\
  forall j, (j < WIDTH)%nat -> shl a sh !!! j
    = Z.lor (piece (k <=? j)%nat (u32 (Z.shiftl (a !!! (j - k)%nat) s)))
            (piece ((k + 1 <=? j)%nat && negb (s =? 0)) (Z.shiftr (a !!! (j - k - 1)%nat) (32 - s))).
Proof.
  intros Ha Hsh k s. unfold shl. fold k s.
  pose proof (Z.mod_pos_bound sh 32 ltac:(lia)) as Hs. fold s in Hs.
  set (body := fun (i : nat) (pn : list Z) => _).
  pose proof (for_loop_inv (fun i pn => limbs_ok pn /\ forall j, (j < WIDTH)%nat -> pn !!! j
    = Z.lor (piece ((k <=? j)%nat && (j - k <? i)%nat) (u32 (Z.shiftl (a !!! (j - k)%nat) s)))
            (piece ((k + 1 <=? j)%nat && negb (s =? 0) && (j - k - 1 <? i)%nat)
                   (Z.shiftr (a !!! (j - k - 1)%nat) (32 - s)))) body WIDTH 0 zero) as H.
  cbn [Nat.add] in H. destruct H as [Hok H].
  - split; [apply zero_ok|]. intros j Hj. unfold zero. rewrite lookup_total_fill by exact Hj.
    rewrite !andb_false_r. reflexivity.
  - intros i pn Hi [Hp E]. unfold body.
    set (pn1 := if (i + k + 1 <? WIDTH)%nat && negb (s =? 0) then _ else pn).
    assert (limbs_ok pn1 /\ forall j, (j < WIDTH)%nat -> pn1 !!! j
      = Z.lor (piece ((k <=? j)%nat && (j - k <? i)%nat) (u32 (Z.shiftl (a !!! (j - k)%nat) s)))
            (piece ((k + 1 <=? j)%nat && negb (s =? 0) && (j - k - 1 <? S i)%nat)
                   (Z.shiftr (a !!! (j - k - 1)%nat) (32 - s)))) as [Hp1 E1].
    { unfold pn1. destruct (Nat.ltb_spec (i + k + 1) WIDTH), (negb (s =? 0)) eqn:Es; cbn [andb].
      2,4: split; [exact Hp|]; intros j Hj; rewrite E, !andb_false_r by exact Hj; reflexivity.
      - split; [apply limbs_ok_insert; [exact Hp|]; apply lor_u32; [apply limb_u32, Hp|];
          apply shiftr_u32; [apply limb_u32, Ha|lia]|].
        intros j Hj. destruct (decide (j = i + k + 1)%nat) as [->|Hne].
        + rewrite lookup_total_insert_eq, E by first [lia | destruct Hp as [-> _]; lia].
          replace (i + k + 1 - k - 1)%nat with i by lia. replace (i + k + 1 - k)%nat with (S i) by lia.
          rewrite (proj2 (Nat.ltb_ge i i)), (proj2 (Nat.ltb_ge (S i) i)), (proj2 (Nat.ltb_lt i (S i))) by lia.
          rewrite (proj2 (Nat.leb_le (k + 1) (i + k + 1))), !andb_false_r by lia. reflexivity.
        + rewrite lookup_total_insert_ne, E by lia. do 2 f_equal.
          destruct (Nat.leb_spec (k + 1) j); [|reflexivity]. cbn [andb].
          destruct (Nat.ltb_spec (j - k - 1) i), (Nat.ltb_spec (j - k - 1) (S i)); lia || reflexivity.
      - split; [exact Hp|]. intros j Hj. rewrite E by exact Hj. do 2 f_equal.
        destruct (Nat.leb_spec (k + 1) j); [|reflexivity]. cbn [andb].
        destruct (Nat.ltb_spec (j - k - 1) i), (Nat.ltb_spec (j - k - 1) (S i)); lia || reflexivity. }
    clearbody pn1. destruct (Nat.ltb_spec (i + k) WIDTH).
    + split; [apply limbs_ok_insert; [exact Hp1|]; apply lor_u32; [apply limb_u32, Hp1|apply u32_range]|].
      intros j Hj. destruct (decide (j = i + k)%nat) as [->|Hne].
      * rewrite lookup_total_insert_eq, E1 by first [lia | destruct Hp1 as [-> _]; lia].
        replace (i + k - k)%nat with i by lia.
        rewrite (proj2 (Nat.ltb_ge i i)), (proj2 (Nat.ltb_lt i (S i))), (proj2 (Nat.leb_le k (i + k))) by lia.
        cbn [andb]. unfold piece at 1 3. rewrite Z.lor_0_l. apply Z.lor_comm.
      * rewrite lookup_total_insert_ne, E1 by lia. do 2 f_equal.
        destruct (Nat.leb_spec k j); [|reflexivity]. cbn [andb].
        destruct (Nat.ltb_spec (j - k) i), (Nat.ltb_spec (j - k) (S i)); lia || reflexivity.
    + split; [exact Hp1|]. intros j Hj. rewrite E1 by exact Hj. do 2 f_equal.
      destruct (Nat.leb_spec k j); [|reflexivity]. cbn [andb].
      destruct (Nat.ltb_spec (j - k) i), (Nat.ltb_spec (j - k) (S i)); lia || reflexivity.
  - split; [exact Hok|]. intros j Hj. rewrite H by exact Hj.
    rewrite (proj2 (Nat.ltb_lt (j - k) WIDTH)), (proj2 (Nat.ltb_lt (j - k - 1) WIDTH)), !andb_true_r by lia.
    reflexivity.
Qed.

Lemma piece_testbit b x n : Z.testbit (piece b x) n = b && Z.testbit x n.
Proof. destruct b; [reflexivity|apply Z.bits_0]. Qed.
Lemma u32_testbit x n : 0 <= n < 32 -> Z.testbit (u32 x) n = Z.testbit x n.
Proof. intros. rewrite u32_mod. change 4294967296 with (2 ^ 32). apply Z.mod_pow2_bits_low. lia. Qed.

Lemma shl_spec a sh :
  limbs_ok a -> 0 <= sh -> limbs_ok (shl a sh) /\ val (shl a sh) = (val a * 2 ^ sh) mod R.
Proof.
  intros Ha Hsh. destruct (shl_limbs a sh Ha Hsh) as [Hok H]. split; [exact Hok|].
  set (k := Z.to_nat (sh / 32)) in *. set (s := sh mod 32) in *.
  pose proof (Z.mod_pos_bound sh 32 ltac:(lia)) as Hs. fold s in Hs.
  assert (sh = 32 * Z.of_nat k + s) as Esh.
  { unfold k, s. rewrite Z2Nat.id by (apply Z.div_pos; lia). apply Z.div_mod. lia. }
  apply val_by_bits; [exact Hok|apply Z.mod_pos_bound; reflexivity|]. intros j m Hj Hm.
  change R with (2 ^ 256). rewrite Z.mod_pow2_bits_low by (unfold WIDTH in Hj; lia).
  rewrite <- shiftl_mul, Z.shiftl_spec, H, Z.lor_spec, !piece_testbit, u32_testbit, Z.shiftl_spec,
    Z.shiftr_spec by lia.
  destruct (Z.lt_ge_cases m s).
  - rewrite (Z.testbit_neg_r _ (m - s)), andb_false_r, orb_false_l by lia.
    replace (s =? 0) with false by lia. cbn [negb]. rewrite andb_true_r.
    destruct (Nat.leb_spec (k + 1) j).
    + cbn [andb]. rewrite limb_testbit by (try exact Ha; lia). f_equal. lia.
    + cbn [andb]. symmetry. apply Z.testbit_neg_r. lia.
  - rewrite (limb_high _ (m + (32 - s))), andb_false_r, orb_false_r by (try apply limb_u32, Ha; lia).
    destruct (Nat.leb_spec k j).
    + cbn [andb]. rewrite limb_testbit by (try exact Ha; lia). f_equal. lia.
    + cbn [andb]. symmetry. apply Z.testbit_neg_r. lia.
Qed.

Lemma shr_limbs a sh :
  limbs_ok a -> 0 <= sh ->
  let k := Z.to_nat (sh / 32) in
  let s := sh mod 32 in
  limbs_ok (shr a sh) /\
  forall j, (j < WIDTH)%nat -> shr a sh !!! j
    = Z.lor (piece (j + k <? WIDTH)%nat (Z.shiftr (a !!! (j + k)%nat) s))
            (piece ((j + k + 1 <? WIDTH)%nat && negb (s =? 0)) (u32 (Z.shiftl (a !!! (j + k + 1)%nat) (32 - s)))).
Proof.
  intros Ha Hsh k s. unfold shr. fold k s.
  pose proof (Z.mod_pos_bound sh 32 ltac:(lia)) as Hs. fold s in Hs.
  set (body := fun (i : nat) (pn : list Z) => _).
  pose proof (for_loop_inv (fun i pn => limbs_ok pn /\ forall j, (j < WIDTH)%nat -> pn !!! j
    = Z.lor (piece (j + k <? i)%nat (Z.shiftr (a !!! (j + k)%nat) s))
            (piece ((j + k + 1 <? i)%nat && negb (s =? 0)) (u32 (Z.shiftl (a !!! (j + k + 1)%nat) (32 - s)))))
    body WIDTH 0 zero) as H.
  cbn [Nat.add] in H. destruct H as [Hok H]; [| |split; [exact Hok|exact H]].
  - split; [apply zero_ok|]. intros j Hj. unfold zero. rewrite lookup_total_fill by exact Hj. reflexivity.
  - intros i pn Hi [Hp E]. unfold body.
    set (pn1 := if (k + 1 <=? i)%nat && negb (s =? 0) then _ else pn).
    assert (limbs_ok pn1 /\ forall j, (j < WIDTH)%nat -> pn1 !!! j
      = Z.lor (piece (j + k <? i)%nat (Z.shiftr (a !!! (j + k)%nat) s))
            (piece ((j + k + 1 <? S i)%nat && negb (s =? 0)) (u32 (Z.shiftl (a !!! (j + k + 1)%nat) (32 - s)))))
      as [Hp1 E1].
    { unfold pn1. destruct (Nat.leb_spec (k + 1) i), (negb (s =? 0)) eqn:Es; cbn [andb].
      2,4: split; [exact Hp|]; intros j Hj; rewrite E, !andb_false_r by exact Hj; reflexivity.
      - split; [apply limbs_ok_insert; [exact Hp|]; apply lor_u32; [apply limb_u32, Hp|apply u32_range]|].
        intros j Hj. destruct (decide (j = i - k - 1)%nat) as [->|Hne].
        + rewrite lookup_total_insert_eq, E by first [lia | destruct Hp as [-> _]; lia].
          replace (i - k - 1 + k + 1)%nat with i by lia. replace (i - k - 1 + k)%nat with (i - 1)%nat by lia.
          rewrite (proj2 (Nat.ltb_ge i i)), (proj2 (Nat.ltb_lt i (S i))) by lia.
          cbn [andb]. unfold piece at 2 4. rewrite Z.lor_0_r. reflexivity.
        + rewrite lookup_total_insert_ne, E by lia. do 3 f_equal.
          destruct (Nat.ltb_spec (j + k + 1) i), (Nat.ltb_spec (j + k + 1) (S i)); lia || reflexivity.
      - split; [exact Hp|]. intros j Hj. rewrite E by exact Hj. do 3 f_equal.
        destruct (Nat.ltb_spec (j + k + 1) i), (Nat.ltb_spec (j + k + 1) (S i)); lia || reflexivity. }
    clearbody pn1. destruct (Nat.leb_spec k i).
    + split; [apply limbs_ok_insert; [exact Hp1|]; apply lor_u32; [apply limb_u32, Hp1|];
        apply shiftr_u32; [apply limb_u32, Ha|lia]|].
      intros j Hj. destruct (decide (j = i - k)%nat) as [->|Hne].
      * rewrite lookup_total_insert_eq, E1 by first [lia | destruct Hp1 as [-> _]; lia].
        replace (i - k + k + 1)%nat with (S i) by lia. replace (i - k + k)%nat with i by lia.
        rewrite (proj2 (Nat.ltb_ge i i)), (proj2 (Nat.ltb_lt i (S i))), (proj2 (Nat.ltb_ge (S i) (S i))) by lia.
        cbn [andb]. unfold piece. rewrite !Z.lor_0_l, Z.lor_0_r. reflexivity.
      * rewrite lookup_total_insert_ne, E1 by lia. do 2 f_equal.
        destruct (Nat.ltb_spec (j + k) i), (Nat.ltb_spec (j + k) (S i)); lia || reflexivity.
    + split; [exact Hp1|]. intros j Hj. rewrite E1 by exact Hj. do 2 f_equal.
      destruct (Nat.ltb_spec (j + k) i), (Nat.ltb_spec (j + k) (S i)); lia || reflexivity.
Qed.

Lemma val_high pn n : limbs_ok pn -> 256 <= n -> Z.testbit (val pn) n = false.
Proof.
  intros H Hn. rewrite <- (Z.mod_small (val pn) R) by apply val_bound, H.
  change R with (2 ^ 256). apply Z.mod_pow2_bits_high. lia.
Qed.

Lemma shr_spec a sh : limbs_ok a -> 0 <= sh -> limbs_ok (shr a sh) /\ val (shr a sh) = val a / 2 ^ sh.
Proof.
  intros Ha Hsh. destruct (shr_limbs a sh Ha Hsh) as [Hok H]. split; [exact Hok|].
  set (k := Z.to_nat (sh / 32)) in *. set (s := sh mod 32) in *.
  pose proof (Z.mod_pos_bound sh 32 ltac:(lia)) as Hs. fold s in Hs.
  assert (sh = 32 * Z.of_nat k + s) as Esh.
  { unfold k, s. rewrite Z2Nat.id by (apply Z.div_pos; lia). apply Z.div_mod. lia. }
  assert (0 < 2 ^ sh) by (apply Z.pow_pos_nonneg; lia). pose proof (val_bound a Ha).
  apply val_by_bits; [exact Hok|split; [apply Z.div_pos; lia|apply Z.div_lt_upper_bound; nia]|].
  intros j m Hj Hm. rewrite <- shiftr_div, Z.shiftr_spec, H, Z.lor_spec, !piece_testbit, u32_testbit,
    Z.shiftl_spec, Z.shiftr_spec by lia.
  destruct (Z.lt_ge_cases (m + s) 32).
  - rewrite (Z.testbit_neg_r _ (m - (32 - s))), andb_false_r, orb_false_r by lia.
    destruct (Nat.ltb_spec (j + k) WIDTH).
    + cbn [andb]. rewrite limb_testbit by (try exact Ha; lia). f_equal. lia.
    + cbn [andb]. symmetry. apply val_high; [exact Ha|unfold WIDTH in *; lia].
  - rewrite (limb_high _ (m + s)), andb_false_r, orb_false_l by (try apply limb_u32, Ha; lia).
    replace (s =? 0) with false by lia. cbn [negb]. rewrite andb_true_r.
    destruct (Nat.ltb_spec (j + k + 1) WIDTH).
    + cbn [andb]. rewrite limb_testbit by (try exact Ha; lia). f_equal. lia.
    + cbn [andb]. symmetry. apply val_high; [exact Ha|unfold WIDTH in *; lia].
Qed.

(** ** Comparison *)

Lemma compare_loop_spec n a b :
  Forall is_u32 a -> Forall is_u32 b ->
  compare_loop n a b
  = if val_n n a <? val_n n b then -1 else if val_n n a >? val_n n b then 1 else 0.
Proof.
  intros Ha Hb. induction n as [|n IH]; [reflexivity|]. cbn [compare_loop]. rewrite IH. clear IH.
  unfold val_n. cbn [zsum]. change (zsum (fun i => a !!! i * BASE ^ Z.of_nat i) n) with (val_n n a).
  change (zsum (fun i => b !!! i * BASE ^ Z.of_nat i) n) with (val_n n b).
  pose proof (val_n_bound n a Ha). pose proof (val_n_bound n b Hb).
  set (P := BASE ^ Z.of_nat n) in *.
  destruct (Z.ltb_spec (a !!! n) (b !!! n)); [replace (_ <? _) with true; [reflexivity|]; symmetry; nia|].
  rewrite !Z.gtb_ltb. destruct (Z.ltb_spec (b !!! n) (a !!! n)).
  - replace (_ <? val_n n b + _) with false by nia. replace (_ <? val_n n a + _) with true by nia. reflexivity.
  - assert (a !!! n = b !!! n) as -> by lia.
    destruct (Z.ltb_spec (val_n n a) (val_n n b)), (Z.ltb_spec (val_n n a + b !!! n * P) (val_n n b + b !!! n * P)),
      (Z.ltb_spec (val_n n b) (val_n n a)), (Z.ltb_spec (val_n n b + b !!! n * P) (val_n n a + b !!! n * P));
      reflexivity || lia.
Qed.
Lemma gt_spec a b : limbs_ok a -> limbs_ok b -> gt a b = (val a >? val b).
Proof.
  intros [_ Ha] [_ Hb]. unfold gt, CompareTo. rewrite compare_loop_spec by assumption.
  fold (val a) (val b). destruct (Z.ltb_spec (val a) (val b)); [|destruct (val a >? val b); reflexivity].
  rewrite !Z.gtb_ltb. symmetry. apply Z.ltb_ge. lia.
Qed.
Lemma ge_spec a b : limbs_ok a -> limbs_ok b -> ge a b = (val a >=? val b).
Proof.
  intros [_ Ha] [_ Hb]. unfold ge, CompareTo. rewrite compare_loop_spec by assumption.
  fold (val a) (val b). rewrite !Z.geb_leb, Z.gtb_ltb.
  destruct (Z.ltb_spec (val a) (val b)), (Z.ltb_spec (val b) (val a)), (Z.leb_spec (val b) (val a)); lia || reflexivity.
Qed.
Lemma EqualTo_spec a b : limbs_ok a -> is_u64 b -> EqualTo a b = (val a =? b).
Proof.
  intros Ha Hb. apply eq_true_iff_eq. rewrite Z.eqb_eq. unfold EqualTo. rewrite !andb_true_iff, !Z.eqb_eq.
  split.
  - intros ((Hz & H1) & H0). rewrite <- (val_of_u64 b Hb). f_equal.
    apply (list_eq_total _ _ WIDTH); [apply Ha|apply length_fill|]. intros i Hi.
    unfold of_u64. rewrite lookup_total_fill by exact Hi.
    destruct i as [|[|i]]; cbn [Nat.eqb].
    + rewrite H0. reflexivity.
    + rewrite H1, u32_id; [reflexivity|]. rewrite shiftr_div by lia. unfold is_u32, is_u64 in *.
      split; [apply Z.div_pos; lia|apply Z.div_lt_upper_bound; lia].
    + rewrite forallb_forall in Hz. apply Z.eqb_eq, Hz, in_seq. unfold WIDTH in *. lia.
  - intros E. assert (a = of_u64 b) as ->.
    { apply limbs_val_inj; [exact Ha|apply of_u64_ok|]. rewrite val_of_u64; assumption. }
    split; [split|]; [reflexivity| |reflexivity].
    change (of_u64 b !!! 1%nat) with (u32 (Z.shiftr b 32)). apply u32_id. rewrite shiftr_div by lia.
    unfold is_u32, is_u64 in *. split; [apply Z.div_pos; lia|apply Z.div_lt_upper_bound; lia].
Qed.

(** ** Bit length *)

Lemma digit_bits_spec n d : 0 < d < 2 ^ (Z.of_nat n + 1) -> (n < 32)%nat -> digit_bits n d = Z.log2 d + 1.
Proof.
  induction n as [|n IH]; intros Hd Hn.
  - assert (d = 1) as -> by (change (2 ^ (Z.of_nat 0 + 1)) with 2 in Hd; lia). reflexivity.
  - cbn [digit_bits]. set (k := Z.of_nat (S n)) in *.
    assert (u32 (Z.shiftl 1 k) = 2 ^ k) as ->.
    { rewrite shiftl_mul, Z.mul_1_l by lia. apply u32_id. unfold is_u32.
      split; [apply Z.pow_nonneg; lia|]. apply (Z.pow_lt_mono_r 2 k 32); lia. }
    replace (Z.land d (2 ^ k) =? 0) with (negb (Z.testbit d k)).
    + destruct (Z.testbit d k) eqn:Eb; cbn [negb].
      * assert (Z.log2 d = k) as ->; [|reflexivity].
        apply Z.log2_unique; [lia|]. replace (Z.succ k) with (k + 1) by lia. split; [|apply Hd].
        destruct (Z.lt_ge_cases d (2 ^ k)); [|assumption]. exfalso.
        rewrite <- (Z.mod_small d (2 ^ k)), Z.mod_pow2_bits_high in Eb by lia. discriminate.
      * apply IH; [|lia]. split; [lia|]. replace (Z.of_nat n + 1) with k by lia.
        destruct (Z.lt_ge_cases d (2 ^ k)) as [|Hge]; [assumption|]. exfalso.
        assert (Z.log2 d = k) as El by (apply Z.log2_unique; [lia|]; replace (Z.succ k) with (k + 1) by lia; lia).
        rewrite <- El, Z.bit_log2 in Eb by lia. discriminate.
    + symmetry. destruct (Z.testbit d k) eqn:Eb; cbn [negb].
      * apply Z.eqb_neq. intros E. apply (f_equal (fun x => Z.testbit x k)) in E.
        rewrite Z.land_spec, Eb, Z.pow2_bits_true, Z.bits_0 in E by lia. discriminate.
      * apply Z.eqb_eq. apply Z.bits_inj'. intros m Hm. rewrite Z.land_spec, Z.bits_0.
        destruct (Z.eq_dec m k) as [->|]; [rewrite Eb; reflexivity|].
        rewrite Z.pow2_bits_false by lia. apply andb_false_r.
Qed.

Lemma bits_loop_spec n pn :
  Forall is_u32 pn -> bits_loop n pn = if val_n n pn =? 0 then 0 else Z.log2 (val_n n pn) + 1.
Proof.
  intros H. induction n as [|n IH]; [reflexivity|]. cbn [bits_loop].
  unfold val_n. cbn [zsum]. change (zsum _ n) with (val_n n pn).
  pose proof (val_n_bound n pn H) as Hb. pose proof (limb_u32 pn n H) as Hd. unfold is_u32 in Hd.
  pose proof (BASE_pow_pos n) as HP.
  destruct (Z.eqb_spec (pn !!! n) 0) as [E|E]; cbn [negb].
  - rewrite E, Z.mul_0_l, Z.add_0_r. exact IH.
  - replace (_ =? 0) with false by nia. rewrite digit_bits_spec by (try lia; change (2 ^ (Z.of_nat 31 + 1)) with 4294967296; lia).
    rewrite Z.add_assoc. f_equal. symmetry. set (d := pn !!! n) in *.
    pose proof (Z.log2_spec d ltac:(lia)) as Hl. pose proof (Z.log2_nonneg d) as Hl0.
    apply Z.log2_unique; [lia|]. rewrite Z.pow_succ_r, Z.pow_add_r by lia. rewrite Z.pow_succ_r in Hl by lia.
    rewrite <- BASE_pow. nia.
Qed.
Lemma bits_spec pn : limbs_ok pn -> bits pn = if val pn =? 0 then 0 else Z.log2 (val pn) + 1.
Proof. intros [_ H]. apply bits_loop_spec, H. Qed.
Lemma bits_bound pn : limbs_ok pn -> 0 <= bits pn <= 256 /\ val pn < 2 ^ bits pn /\
  (val pn <> 0 -> 2 ^ (bits pn - 1) <= val pn) /\ (bits pn = 0 <-> val pn = 0).
Proof.
  intros H. rewrite bits_spec by exact H. pose proof (val_bound pn H) as Hb.
  destruct (Z.eqb_spec (val pn) 0) as [->|E]; [split; [lia|]; split; [reflexivity|]; lia|].
  pose proof (Z.log2_spec (val pn) ltac:(lia)) as Hl. pose proof (Z.log2_nonneg (val pn)).
  assert (Z.log2 (val pn) < 256) by (apply Z.log2_lt_pow2; [lia|apply Hb]).
  rewrite Z.add_simpl_r. replace (Z.succ (Z.log2 (val pn))) with (Z.log2 (val pn) + 1) in Hl by lia. lia.
Qed.
Lemma GetLow64_spec pn : limbs_ok pn -> GetLow64 pn = val pn mod 2 ^ 64.
Proof.
  intros H. unfold GetLow64. pose proof (limb_u32 pn 0 (proj2 H)) as H0. pose proof (limb_u32 pn 1 (proj2 H)) as H1.
  unfold is_u32 in *. rewrite u64_id by (rewrite shiftl_mul by lia; unfold is_u64; lia).
  rewrite lor_shl by lia.
  rewrite (val_digit pn 0), (val_digit pn 1) by (try exact H; unfold WIDTH; lia).
  change (BASE ^ Z.of_nat 0) with 1. change (BASE ^ Z.of_nat 1) with BASE. rewrite Z.div_1_r.
  change (2 ^ 64) with (BASE * BASE). rewrite Z.rem_mul_r by (unfold BASE; lia). change (2 ^ 32) with BASE. ring.
Qed.

(** ** Division *)

Lemma mult_testbit q n m : 0 <= m < n -> Z.testbit (q * 2 ^ n) m = false.
Proof. intros H. apply Z.mul_pow2_bits_low. lia. Qed.

Lemma set_bit_spec q n sh :
  limbs_ok q -> val q = n * 2 ^ (Z.of_nat sh + 1) -> (sh < 256)%nat ->
  let q' := <[(sh / 32)%nat := Z.lor (q !!! (sh / 32)%nat) (u32 (Z.shiftl 1 (Z.of_nat (sh mod 32))))]> q in
  limbs_ok q' /\ val q' = val q + 2 ^ Z.of_nat sh.
Proof.
  intros Hq Hv Hsh q'. pose proof (Nat.div_mod sh 32 ltac:(lia)) as Hdm.
  pose proof (Nat.mod_upper_bound sh 32 ltac:(lia)) as Hm.
  set (i := (sh / 32)%nat) in *. set (m := (sh mod 32)%nat) in *.
  assert (i < WIDTH)%nat as Hi by (unfold WIDTH; lia).
  assert (u32 (Z.shiftl 1 (Z.of_nat m)) = 2 ^ Z.of_nat m) as E.
  { rewrite shiftl_mul, Z.mul_1_l by lia. apply u32_id. unfold is_u32. split; [apply Z.pow_nonneg; lia|].
    apply (Z.pow_lt_mono_r 2 (Z.of_nat m) 32); lia. }
  unfold q'. split.
  { apply limbs_ok_insert; [exact Hq|]. apply lor_u32; [apply limb_u32, Hq|apply u32_range]. }
  rewrite val_insert by (try apply Hq; exact Hi). rewrite E.
  assert (Z.lor (q !!! i) (2 ^ Z.of_nat m) = q !!! i + 2 ^ Z.of_nat m) as ->.
  { symmetry. apply Z.add_nocarry_lor. apply Z.bits_inj'. intros k Hk. rewrite Z.land_spec, Z.bits_0.
    destruct (Z.eq_dec k (Z.of_nat m)) as [->|]; [|rewrite Z.pow2_bits_false by lia; apply andb_false_r].
    rewrite limb_testbit by (try exact Hq; lia). rewrite Hv, mult_testbit by lia. reflexivity. }
  rewrite BASE_pow. replace (Z.of_nat sh) with (Z.of_nat m + 32 * Z.of_nat i) by lia.
  rewrite Z.pow_add_r by lia. ring.
Qed.

Lemma div_loop_spec n num dv q a b :
  limbs_ok num -> limbs_ok dv -> limbs_ok q -> 0 < b ->
  val num < b * 2 ^ Z.of_nat n -> (exists k, val q = k * 2 ^ Z.of_nat n) ->
  b * val q + val num = a ->
  (forall sh, n = S sh -> val dv = b * 2 ^ Z.of_nat sh) ->
  limbs_ok (div_loop n num dv q) /\ val (div_loop n num dv q) = a / b.
Proof.
  revert num dv q. induction n as [|sh IH]; intros num dv q Hn Hd Hq Hb Hlt [k Hk] Ha Hdv; cbn [div_loop].
  - split; [exact Hq|]. pose proof (val_bound num Hn). apply (Z.div_unique_pos a b (val q) (val num)); [|lia].
    change (2 ^ Z.of_nat 0) with 1 in Hlt. lia.
  - specialize (Hdv sh eq_refl). rewrite Nat2Z.inj_succ, Z.pow_succ_r in Hlt, Hk by lia.
    assert (0 < 2 ^ Z.of_nat sh) as HP by (apply Z.pow_pos_nonneg; lia).
    pose proof (val_bound num Hn) as Hnb. pose proof (val_bound dv Hd) as Hdb.
    destruct (shr_spec dv 1 Hd ltac:(lia)) as [Hd' Ed'].
    assert (forall s, sh = S s -> val (shr dv 1) = b * 2 ^ Z.of_nat s) as Hdv'.
    { intros s ->. rewrite Ed', Hdv, Nat2Z.inj_succ, Z.pow_succ_r by lia.
      replace (b * (2 * 2 ^ Z.of_nat s)) with (b * 2 ^ Z.of_nat s * 2 ^ 1) by (change (2 ^ 1) with 2; ring).
      apply Z.div_mul. discriminate. }
    rewrite ge_spec, Z.geb_leb by assumption. destruct (Z.leb_spec (val dv) (val num)).
    + destruct (sub_spec num dv Hn Hd) as [Hs Es]. rewrite Z.mod_small in Es by lia.
      destruct (set_bit_spec q k sh Hq) as [Hq' Eq'].
      { rewrite Hk, Z.pow_add_r by lia. change (2 ^ 1) with 2. ring. }
      { destruct (le_lt_dec 256 sh); [exfalso|assumption].
        assert (2 ^ 256 <= 2 ^ Z.of_nat sh) by (apply Z.pow_le_mono_r; lia). unfold R in Hdb. nia. }
      apply IH; try assumption; [lia|exists (2 * k + 1); lia|rewrite Eq', Es; lia].
    + apply IH; try assumption; [lia|exists (2 * k); lia].
Qed.

Lemma div_spec a b :
  limbs_ok a -> limbs_ok b ->
  match div a b with
  | None => val b = 0
  | Some q => val b <> 0 /\ limbs_ok q /\ val q = val a / val b
  end.
Proof.
  intros Ha Hb. unfold div.
  destruct (bits_bound a Ha) as (Ba & La & _ & _). destruct (bits_bound b Hb) as (Bb & _ & Lb & Zb).
  pose proof (val_bound a Ha) as Va. pose proof (val_bound b Hb) as Vb.
  destruct (Z.eqb_spec (bits b) 0) as [E|E]; [apply Zb, E|].
  assert (val b <> 0) as Hb0 by tauto. specialize (Lb Hb0). rewrite Z.gtb_ltb.
  destruct (Z.ltb_spec (bits a) (bits b)) as [Hlt|Hge].
  - split; [exact Hb0|]. split; [apply zero_ok|]. rewrite val_zero. symmetry. apply Z.div_small.
    split; [lia|]. eapply Z.lt_le_trans; [exact La|]. etransitivity; [|exact Lb]. apply Z.pow_le_mono_r; lia.
  - split; [exact Hb0|]. set (sh := bits a - bits b) in *.
    destruct (shl_spec b sh Hb ltac:(lia)) as [Hs Es].
    assert (val b * 2 ^ sh < R) as Hsm.
    { destruct (bits_bound b Hb) as (_ & Ub & _). apply Z.lt_le_trans with (2 ^ bits b * 2 ^ sh).
      - apply Z.mul_lt_mono_pos_r; [apply Z.pow_pos_nonneg; lia|exact Ub].
      - rewrite <- Z.pow_add_r by lia. unfold R. apply Z.pow_le_mono_r; lia. }
    rewrite Z.mod_small in Es by (split; [|exact Hsm]; apply Z.mul_nonneg_nonneg; [lia|apply Z.pow_nonneg; lia]).
    apply div_loop_spec; try assumption; try apply zero_ok.
    + lia.
    + rewrite Z2Nat.id by lia. eapply Z.lt_le_trans; [exact La|].
      replace (bits a) with (bits b - 1 + (sh + 1)) by lia. rewrite Z.pow_add_r by lia.
      apply Z.mul_le_mono_nonneg_r; [apply Z.pow_nonneg; lia|exact Lb].
    + exists 0. apply val_zero.
    + rewrite val_zero. lia.
    + intros s Es'. rewrite Es. do 2 f_equal. lia.
Qed.

(** ** The compact encoding *)

(** The size byte and the 23-bit mantissa of [v], and the number they keep. *)
Definition csize (v : Z) : Z := if v =? 0 then 0 else (Z.log2 v + 1) / 8 + 1.
Definition mantissa (v : Z) : Z :=
  let n := csize v in if n <=? 3 then v * 2 ^ (8 * (3 - n)) else v / 2 ^ (8 * (n - 3)).
Definition trunc (v : Z) : Z :=
  let n := csize v in if n <=? 3 then v else v / 2 ^ (8 * (n - 3)) * 2 ^ (8 * (n - 3)).

Lemma csize_range v : 0 < v -> 1 <= csize v /\ 2 ^ (8 * csize v - 9) <= v < 2 ^ (8 * csize v - 1) /\
  (csize v = 1 -> v < 128).
Proof.
  intros Hv. unfold csize. replace (v =? 0) with false by lia.
  pose proof (Z.log2_spec v Hv) as Hl. pose proof (Z.log2_nonneg v) as H0.
  pose proof (Z.div_mod (Z.log2 v + 1) 8 ltac:(lia)). pose proof (Z.mod_pos_bound (Z.log2 v + 1) 8 ltac:(lia)).
  set (k := (Z.log2 v + 1) / 8) in *. split; [lia|].
  assert (v < 2 ^ (8 * (k + 1) - 1)).
  { eapply Z.lt_le_trans; [apply Hl|]. apply Z.pow_le_mono_r; lia. }
  split; [split; [|assumption]|].
  - destruct (Z.eq_dec k 0) as [->|]; [change (2 ^ _) with 0 at 1; lia|].
    etransitivity; [|apply Hl]. apply Z.pow_le_mono_r; lia.
  - intros Hk. replace (8 * (k + 1) - 1) with 7 in * by lia. change 128 with (2 ^ 7). lia.
Qed.
Lemma csize_unique v n : 0 < v -> 1 <= n -> 2 ^ (8 * n - 9) <= v < 2 ^ (8 * n - 1) -> csize v = n.
Proof.
  intros Hv Hn [H1 H2]. destruct (csize_range v Hv) as (Hc & [H3 H4] & _).
  destruct (Z.lt_trichotomy (csize v) n) as [Hlt|[E|Hgt]]; [|exact E|].
  - assert (2 ^ (8 * csize v - 1) <= 2 ^ (8 * n - 9)) by (apply Z.pow_le_mono_r; lia). lia.
  - assert (2 ^ (8 * n - 1) <= 2 ^ (8 * csize v - 9)) by (apply Z.pow_le_mono_r; lia). lia.
Qed.
Lemma csize_R v : 0 <= v < R -> csize v <= 33.
Proof.
  intros Hv. destruct (Z.eq_dec v 0) as [->|]; [cbn; lia|].
  destruct (csize_range v ltac:(lia)) as (_ & [H _] & _). destruct (Z.le_gt_cases (csize v) 33); [assumption|].
  assert (2 ^ 256 <= 2 ^ (8 * csize v - 9)) by (apply Z.pow_le_mono_r; lia). unfold R in Hv. lia.
Qed.
Lemma csize_nonneg v : 0 <= csize v.
Proof.
  unfold csize. destruct (v =? 0); [lia|]. pose proof (Z.log2_nonneg v).
  pose proof (Z.div_pos (Z.log2 v + 1) 8 ltac:(lia) ltac:(lia)). lia.
Qed.
Lemma mantissa_range v : 0 <= v -> 0 <= mantissa v < 2 ^ 23 /\ (0 < v -> 2 ^ 15 <= mantissa v \/ csize v = 1).
Proof.
  intros Hv. unfold mantissa. destruct (Z.eq_dec v 0) as [->|Hv0]; [cbn; lia|].
  destruct (csize_range v ltac:(lia)) as (Hn & [H1 H2] & H3). set (n := csize v) in *.
  destruct (Z.leb_spec n 3).
  - assert (0 < 2 ^ (8 * (3 - n))) by (apply Z.pow_pos_nonneg; lia).
    assert (2 ^ 23 = 2 ^ (8 * n - 1) * 2 ^ (8 * (3 - n))) as -> by (rewrite <- Z.pow_add_r by lia; f_equal; lia).
    split; [nia|]. intros _. destruct (Z.eq_dec n 1); [right; assumption|left].
    assert (2 ^ 15 = 2 ^ (8 * n - 9) * 2 ^ (8 * (3 - n))) as -> by (rewrite <- Z.pow_add_r by lia; f_equal; lia). nia.
  - assert (0 < 2 ^ (8 * (n - 3))) by (apply Z.pow_pos_nonneg; lia). split.
    + split; [apply Z.div_pos; lia|]. apply Z.div_lt_upper_bound; [lia|].
      rewrite <- Z.pow_add_r by lia. replace (8 * (n - 3) + 23) with (8 * n - 1) by lia. exact H2.
    + intros _. left. apply Z.div_le_lower_bound; [lia|]. rewrite <- Z.pow_add_r by lia.
      replace (8 * (n - 3) + 15) with (8 * n - 9) by lia. exact H1.
Qed.

Lemma bit23 x : 0 <= x < 2 ^ 24 -> negb (Z.land x 0x00800000 =? 0) = (2 ^ 23 <=? x).
Proof.
  intros Hx. change 0x00800000 with (2 ^ 23).
  destruct (Z.leb_spec (2 ^ 23) x).
  - apply negb_true_iff, Z.eqb_neq. intros E. apply (f_equal (fun y => Z.testbit y 23)) in E.
    rewrite Z.land_spec, Z.pow2_bits_true, Z.bits_0, andb_true_r in E by lia.
    assert (Z.log2 x = 23) as El by (apply Z.log2_unique; lia).
    rewrite <- El, Z.bit_log2 in E by lia. discriminate.
  - apply negb_false_iff, Z.eqb_eq. apply Z.bits_inj'. intros m Hm. rewrite Z.land_spec, Z.bits_0.
    destruct (Z.eq_dec m 23) as [->|]; [|rewrite Z.pow2_bits_false by lia; apply andb_false_r].
    rewrite <- (Z.mod_small x (2 ^ 23)), Z.mod_pow2_bits_high by lia. reflexivity.
Qed.
Lemma low_mask x : 0 <= x < 2 ^ 23 -> Z.land x (Z.lxor 0x007fffff 0xffffffff) = 0.
Proof.
  intros Hx. change (Z.lxor 0x007fffff 0xffffffff) with (Z.shiftl 511 23).
  apply Z.bits_inj'. intros m Hm. rewrite Z.land_spec, Z.shiftl_spec, Z.bits_0 by lia.
  destruct (Z.lt_ge_cases m 23); [rewrite (Z.testbit_neg_r 511) by lia; apply andb_false_r|].
  rewrite <- (Z.mod_small x (2 ^ 23)), Z.mod_pow2_bits_high by lia. reflexivity.
Qed.

(** Before the sign bit is looked at: at most 24 bits, bit 23 set exactly when
    the bit length is a multiple of 8. *)
Definition raw_mantissa (v nSize : Z) : Z :=
  if nSize <=? 3 then v * 2 ^ (8 * (3 - nSize)) else v / 2 ^ (8 * (nSize - 3)).

Lemma raw_mantissa_range v B :
  0 < v -> 1 <= B -> 2 ^ (B - 1) <= v < 2 ^ B ->
  let nSize := (B + 7) / 8 in
  0 <= raw_mantissa v nSize < 2 ^ 24 /\ (2 ^ 23 <=? raw_mantissa v nSize) = (B =? 8 * nSize).
Proof.
  intros Hv HB [H1 H2] n. pose proof (Z.div_mod (B + 7) 8 ltac:(lia)) as Hdm.
  pose proof (Z.mod_pos_bound (B + 7) 8 ltac:(lia)) as Hm. fold n in Hdm. unfold raw_mantissa.
  assert (0 <= (if n <=? 3 then v * 2 ^ (8 * (3 - n)) else v / 2 ^ (8 * (n - 3))) /\
    2 ^ (B - 8 * n + 23) <= (if n <=? 3 then v * 2 ^ (8 * (3 - n)) else v / 2 ^ (8 * (n - 3))) < 2 ^ (B - 8 * n + 24))
    as (Hn & Hlo & Hhi).
  { destruct (Z.leb_spec n 3).
    - assert (0 < 2 ^ (8 * (3 - n))) by (apply Z.pow_pos_nonneg; lia).
      replace (B - 8 * n + 23) with (B - 1 + 8 * (3 - n)) by lia.
      replace (B - 8 * n + 24) with (B + 8 * (3 - n)) by lia. rewrite !Z.pow_add_r by lia. nia.
    - assert (0 < 2 ^ (8 * (n - 3))) by (apply Z.pow_pos_nonneg; lia). split; [apply Z.div_pos; lia|]. split.
      + apply Z.div_le_lower_bound; [lia|]. rewrite <- Z.pow_add_r by lia.
        replace (8 * (n - 3) + (B - 8 * n + 23)) with (B - 1) by lia. exact H1.
      + apply Z.div_lt_upper_bound; [lia|]. rewrite <- Z.pow_add_r by lia.
        replace (8 * (n - 3) + (B - 8 * n + 24)) with B by lia. exact H2. }
  set (x := if n <=? 3 then _ else _) in *.
  assert (2 ^ (B - 8 * n + 24) <= 2 ^ 24) by (apply Z.pow_le_mono_r; lia). split; [lia|].
  destruct (Z.eqb_spec B (8 * n)) as [E|E].
  - apply Z.leb_le. replace 23 with (B - 8 * n + 23) by lia. exact Hlo.
  - apply Z.leb_gt. eapply Z.lt_le_trans; [exact Hhi|]. apply Z.pow_le_mono_r; lia.
Qed.

Lemma GetCompact_word pn :
  limbs_ok pn -> let nSize := (bits pn + 7) / 8 in
  raw_mantissa (val pn) nSize < 2 ^ 24 ->
  (if nSize <=? 3 then u32 (u64 (Z.shiftl (GetLow64 pn) (8 * (3 - nSize))))
   else u32 (GetLow64 (shr pn (8 * (nSize - 3))))) = raw_mantissa (val pn) nSize.
Proof.
  intros Hp n Hr. pose proof (val_bound pn Hp) as Hv. destruct (bits_bound pn Hp) as (HB & HBv & _).
  pose proof (Z.div_mod (bits pn + 7) 8 ltac:(lia)) as Hdm.
  pose proof (Z.mod_pos_bound (bits pn + 7) 8 ltac:(lia)) as Hm. fold n in Hdm. unfold raw_mantissa in *.
  destruct (Z.leb_spec n 3).
  - assert (0 < 2 ^ (8 * (3 - n))) by (apply Z.pow_pos_nonneg; lia).
    assert (val pn < 2 ^ 24) by (eapply Z.lt_le_trans; [exact HBv|]; apply Z.pow_le_mono_r; lia).
    rewrite GetLow64_spec, Z.mod_small, shiftl_mul by (try exact Hp; lia).
    rewrite u64_id, u32_id by (unfold is_u64, is_u32; nia). reflexivity.
  - destruct (shr_spec pn (8 * (n - 3)) Hp ltac:(lia)) as [Hs Es].
    rewrite GetLow64_spec, Es by exact Hs. pose proof (val_bound _ Hs) as Hb. rewrite Es in Hb.
    rewrite Z.mod_small, u32_id by (unfold is_u32; lia). reflexivity.
Qed.

Lemma GetCompact_spec pn :
  limbs_ok pn -> GetCompact pn false = Some (mantissa (val pn) + csize (val pn) * 2 ^ 24).
Proof.
  intros Hp. pose proof (val_bound pn Hp) as Hv. destruct (bits_bound pn Hp) as (HB & HBv & HBl & HB0).
  assert (exists n, csize (val pn) = n /\ mantissa (val pn) = (let m := raw_mantissa (val pn) ((bits pn + 7) / 8) in
      if 2 ^ 23 <=? m then Z.shiftr m 8 else m) /\
    n = (let m := raw_mantissa (val pn) ((bits pn + 7) / 8) in
      if 2 ^ 23 <=? m then (bits pn + 7) / 8 + 1 else (bits pn + 7) / 8) /\
    0 <= raw_mantissa (val pn) ((bits pn + 7) / 8) < 2 ^ 24) as (n & En & Em & Ens & Hr).
  { destruct (Z.eq_dec (val pn) 0) as [E|Hne].
    - replace (bits pn) with 0 by (symmetry; apply HB0, E). rewrite E. exists 0. vm_compute. intuition discriminate.
    - specialize (HBl Hne). assert (1 <= bits pn) as HB1 by (destruct (Z.eq_dec (bits pn) 0); lia).
      destruct (raw_mantissa_range (val pn) (bits pn) ltac:(lia) HB1 ltac:(lia)) as [Hr Hbit].
      pose proof (bits_spec pn Hp) as Hbs. replace (val pn =? 0) with false in Hbs by lia.
      pose proof (Z.div_mod (bits pn + 7) 8 ltac:(lia)) as Hdm.
      pose proof (Z.mod_pos_bound (bits pn + 7) 8 ltac:(lia)) as Hm.
      set (k := (bits pn + 7) / 8) in *. exists (bits pn / 8 + 1).
      assert (csize (val pn) = bits pn / 8 + 1) as Ec
        by (unfold csize; replace (val pn =? 0) with false by lia; rewrite Hbs; reflexivity).
      split; [exact Ec|]. cbv zeta. rewrite Hbit. unfold mantissa. rewrite Ec.
      destruct (Z.eqb_spec (bits pn) (8 * k)) as [E|E].
      + assert (bits pn / 8 = k) as -> by (rewrite E, Z.mul_comm; apply Z.div_mul; lia).
        split; [|split; [reflexivity|exact Hr]]. unfold raw_mantissa. rewrite shiftr_div by lia.
        destruct (Z.leb_spec k 3), (Z.leb_spec (k + 1) 3); try lia.
        * replace (8 * (3 - k)) with (8 * (3 - (k + 1)) + 8) by lia. rewrite (Z.pow_add_r 2 _ 8), Z.mul_assoc by lia.
          symmetry. apply Z.div_mul. discriminate.
        * replace k with 3 by lia. change (2 ^ (8 * (3 - 3))) with 1. rewrite (Z.mul_1_r (val pn)). reflexivity.
        * rewrite Z.div_div by (try apply Z.pow_nonzero; lia). rewrite <- Z.pow_add_r by lia. do 2 f_equal. lia.
      + assert (bits pn / 8 = k - 1) as ->
          by (symmetry; apply (Z.div_unique_pos _ _ _ (bits pn - 8 * (k - 1))); lia).
        rewrite Z.sub_add.
        split; [reflexivity|]. split; [reflexivity|exact Hr]. }
  unfold GetCompact. rewrite GetCompact_word by (try exact Hp; apply Hr).
  rewrite (bit23 _ Hr). set (m := raw_mantissa _ _) in *.
  pose proof (mantissa_range (val pn) ltac:(lia)) as [Hmr _]. pose proof (csize_R (val pn) Hv) as Hn33.
  pose proof (csize_nonneg (val pn)) as Hn0. rewrite En in *.
  cbv zeta in Em, Ens. destruct (2 ^ 23 <=? m); rewrite <- Em, <- Ens; clear Em Ens;
    rewrite low_mask by exact Hmr; cbn [Z.eqb negb];
    replace (n <? 256) with true by lia; cbn [negb andb];
    rewrite u32_id by (rewrite shiftl_mul by lia; unfold is_u32; lia);
    rewrite lor_shl by lia; rewrite Z.lor_0_r; reflexivity.
Qed.

(** [SetCompact] on any word: the number, exactly, unless it overflows. *)
Lemma SetCompact_ok c : limbs_ok (fst (fst (SetCompact c))).
Proof.
  unfold SetCompact. destruct (Z.leb_spec (Z.shiftr c 24) 3); cbn [fst]; [apply of_u64_ok|].
  apply shl_spec; [apply of_u64_ok|lia].
Qed.
Definition compact_word (c : Z) : Z :=
  let s := c / 2 ^ 24 in
  let w := c mod 2 ^ 23 in
  if s <=? 3 then w / 2 ^ (8 * (3 - s)) else w.
Definition compact_value (c : Z) : Z :=
  let s := c / 2 ^ 24 in
  compact_word c * (if s <=? 3 then 1 else 2 ^ (8 * (s - 3))).

Lemma low23 c : Z.land c 0x007fffff = c mod 2 ^ 23.
Proof. exact (land_ones_mod c 23 ltac:(lia)). Qed.
(** The overflow test of [SetCompact] is exact. *)
Lemma overflow_iff s w :
  3 < s < 256 -> 0 <= w < 2 ^ 23 ->
  negb (w =? 0) && ((s >? 34) || ((w >? 0xff) && (s >? 33)) || ((w >? 0xffff) && (s >? 32))) = false
  <-> w * 2 ^ (8 * (s - 3)) < R.
Proof.
  intros Hs Hw. assert (0 < 2 ^ (8 * (s - 3))) as HP by (apply Z.pow_pos_nonneg; lia).
  rewrite andb_false_iff, negb_false_iff, !orb_false_iff, !andb_false_iff, Z.eqb_eq, !Z.gtb_ltb, !Z.ltb_ge.
  destruct (Z.eq_dec w 0) as [->|Hw0]; [split; [intros _; rewrite Z.mul_0_l; reflexivity|auto]|].
  destruct (Z.le_gt_cases s 32) as [H32|H32].
  - assert (2 ^ (8 * (s - 3)) * 2 ^ 24 <= R)
      by (unfold R; rewrite <- Z.pow_add_r by lia; apply Z.pow_le_mono_r; lia).
    split; [nia|lia].
  - assert (R = 2 ^ 240 * 65536) as HR by reflexivity. assert (0 < 2 ^ 240) as HQ by reflexivity.
    destruct (Z.eq_dec s 33) as [->|H33]; [|destruct (Z.eq_dec s 34) as [->|H34]].
    + replace (2 ^ (8 * (33 - 3))) with (2 ^ 240) by reflexivity. rewrite HR. generalize dependent (2 ^ 240). intros. nia.
    + replace (2 ^ (8 * (34 - 3))) with (2 ^ 240 * 256) by reflexivity. rewrite HR.
      generalize dependent (2 ^ 240). intros. nia.
    + assert (R <= 2 ^ (8 * (s - 3))) by (unfold R; apply Z.pow_le_mono_r; lia).
      split; [lia|]. intros. exfalso. nia.
Qed.
Lemma small_lt_R x : x < 2 ^ 64 -> x < R.
Proof. intros H. eapply Z.lt_trans; [exact H|reflexivity]. Qed.

Lemma SetCompact_spec c :
  is_u32 c ->
  let '(t, fNegative, fOverflow) := SetCompact c in
  limbs_ok t /\ val t = compact_value c mod R /\
  fNegative = negb (compact_word c =? 0) && (2 ^ 23 <=? c mod 2 ^ 24) /\
  (fOverflow = false <-> compact_value c < R).
Proof.
  intros Hc. unfold is_u32 in Hc. unfold SetCompact.
  rewrite shiftr_div by lia. rewrite low23. unfold compact_value, compact_word.
  assert (negb (Z.land c 0x00800000 =? 0) = (2 ^ 23 <=? c mod 2 ^ 24)) as Hneg.
  { rewrite <- bit23 by (apply Z.mod_pos_bound; lia). rewrite <- land_ones_mod, <- Z.land_assoc by lia.
    replace (Z.land (2 ^ 24 - 1) 0x00800000) with 0x00800000 by reflexivity. reflexivity. }
  rewrite Hneg. generalize (2 ^ 23 <=? c mod 2 ^ 24). intros neg0. clear Hneg.
  assert (0 <= c / 2 ^ 24 < 256) as Hs by (split; [apply Z.div_pos; lia|apply Z.div_lt_upper_bound; lia]).
  pose proof (Z.mod_pos_bound c (2 ^ 23) ltac:(lia)) as Hw.
  set (s := c / 2 ^ 24) in *. set (w := c mod 2 ^ 23) in *. clearbody s w. clear Hc c. destruct (Z.leb_spec s 3).
  - rewrite shiftr_div by lia. rewrite Z.mul_1_r.
    assert (0 < 2 ^ (8 * (3 - s))) by (apply Z.pow_pos_nonneg; lia).
    assert (0 <= w / 2 ^ (8 * (3 - s)) < 2 ^ 23) as Hm by (split; [apply Z.div_pos; lia|apply Z.div_lt_upper_bound; nia]).
    set (m := w / 2 ^ (8 * (3 - s))) in *. clearbody m.
    assert (m < R) by (apply small_lt_R; lia). split; [apply of_u64_ok|]. split.
    { rewrite val_of_u64 by (unfold is_u64; lia). symmetry. apply Z.mod_small. lia. }
    split; [reflexivity|].
    replace (s >? 34) with false by lia. replace (s >? 33) with false by lia. replace (s >? 32) with false by lia.
    rewrite !andb_false_r. split; auto.
  - destruct (shl_spec (of_u64 w) (8 * (s - 3)) (of_u64_ok w) ltac:(lia)) as [Hok E].
    split; [exact Hok|]. split.
    { rewrite E, val_of_u64 by (unfold is_u64; lia). reflexivity. }
    split; [reflexivity|]. apply overflow_iff; lia.
Qed.

(** Decoding what [GetCompact] encodes keeps the leading digits. *)
Lemma trunc_range v : 0 <= v -> 0 <= trunc v <= v /\ (v - trunc v) * 2 ^ 15 <= v.
Proof.
  intros Hv. unfold trunc. destruct (Z.leb_spec (csize v) 3) as [|Hn]; [lia|].
  assert (0 < v) as Hp by (destruct (Z.eq_dec v 0) as [->|]; [cbn in Hn; lia|lia]).
  destruct (csize_range v Hp) as (_ & [H1 _] & _). set (n := csize v) in *.
  assert (0 < 2 ^ (8 * (n - 3))) as HP by (apply Z.pow_pos_nonneg; lia).
  pose proof (Z.div_mod v (2 ^ (8 * (n - 3))) ltac:(lia)) as Hd.
  pose proof (Z.mod_pos_bound v (2 ^ (8 * (n - 3))) HP) as Hm.
  replace (8 * n - 9) with (8 * (n - 3) + 15) in H1 by lia. rewrite Z.pow_add_r in H1 by lia. nia.
Qed.
Lemma compact_value_encoded v :
  0 <= v < R -> compact_word (mantissa v + csize v * 2 ^ 24) <= mantissa v /\
  compact_value (mantissa v + csize v * 2 ^ 24) = trunc v /\ is_u32 (mantissa v + csize v * 2 ^ 24) /\
  (mantissa v + csize v * 2 ^ 24) mod 2 ^ 24 < 2 ^ 23 /\
  (compact_word (mantissa v + csize v * 2 ^ 24) = 0 -> v = 0).
Proof.
  intros Hv. destruct (mantissa_range v ltac:(lia)) as [Hm _]. pose proof (csize_R v Hv) as Hn.
  pose proof (csize_nonneg v) as Hn0. set (c := mantissa v + csize v * 2 ^ 24).
  assert (c / 2 ^ 24 = csize v) as Ec
    by (symmetry; apply (Z.div_unique_pos _ _ _ (mantissa v)); unfold c; lia).
  assert (c mod 2 ^ 24 = mantissa v) as Em
    by (symmetry; apply (Z.mod_unique_pos _ _ (csize v)); unfold c; lia).
  assert (c mod 2 ^ 23 = mantissa v) as Ew
    by (symmetry; apply (Z.mod_unique_pos _ _ (2 * csize v)); unfold c; lia).
  assert (compact_word c = if csize v <=? 3 then v else mantissa v) as Ecw.
  { unfold compact_word. rewrite Ec, Ew. unfold mantissa. destruct (Z.leb_spec (csize v) 3); [|reflexivity].
    apply Z.div_mul. apply Z.pow_nonzero; lia. }
  split; [|split; [|split; [unfold is_u32, c; lia|split; [lia|]]]].
  - rewrite Ecw. unfold mantissa. destruct (Z.leb_spec (csize v) 3); [|lia].
    assert (0 < 2 ^ (8 * (3 - csize v))) by (apply Z.pow_pos_nonneg; lia). nia.
  - unfold compact_value. rewrite Ecw, Ec. unfold trunc, mantissa.
    destruct (Z.leb_spec (csize v) 3); [lia|reflexivity].
  - rewrite Ecw. destruct (Z.leb_spec (csize v) 3); [auto|]. intros E0.
    destruct (Z.eq_dec v 0); [assumption|]. destruct (mantissa_range v ltac:(lia)) as [_ H']. lia.
Qed.

Lemma trunc_mono v w : 0 <= v <= w -> trunc v <= trunc w.
Proof.
  intros [Hv Hw]. destruct (Z.eq_dec v 0) as [->|Hv0]; [cbn; apply trunc_range; lia|].
  destruct (csize_range v ltac:(lia)) as (Hcv & [H1 H2] & _).
  destruct (csize_range w ltac:(lia)) as (Hcw & [H3 H4] & _).
  destruct (Z.lt_trichotomy (csize v) (csize w)) as [Hlt|[E|Hgt]].
  - pose proof (trunc_range v Hv) as [Ht _].
    assert (2 ^ (8 * csize v - 1) <= 2 ^ (8 * csize w - 9)) by (apply Z.pow_le_mono_r; lia).
    assert (2 ^ (8 * csize w - 9) <= trunc w); [|lia]. unfold trunc.
    destruct (Z.leb_spec (csize w) 3); [exact H3|]. set (n := csize w) in *.
    assert (0 < 2 ^ (8 * (n - 3))) as HP by (apply Z.pow_pos_nonneg; lia).
    replace (8 * n - 9) with (15 + 8 * (n - 3)) in * by lia. rewrite Z.pow_add_r in * by lia.
    apply Z.mul_le_mono_nonneg_r; [lia|]. apply Z.div_le_lower_bound; lia.
  - unfold trunc. rewrite E. destruct (Z.leb_spec (csize w) 3); [exact Hw|].
    assert (0 < 2 ^ (8 * (csize w - 3))) as HP by (apply Z.pow_pos_nonneg; lia).
    apply Z.mul_le_mono_nonneg_r; [lia|]. apply Z.div_le_mono; lia.
  - assert (2 ^ (8 * csize w - 1) <= 2 ^ (8 * csize v - 9)) by (apply Z.pow_le_mono_r; lia). lia.
Qed.
Lemma trunc_idem v : 0 <= v -> trunc (trunc v) = trunc v /\ csize (trunc v) = csize v /\ mantissa (trunc v) = mantissa v.
Proof.
  intros Hv. destruct (Z.leb_spec (csize v) 3) as [Hs|Hs].
  - assert (trunc v = v) as E by (unfold trunc; replace (csize v <=? 3) with true by lia; reflexivity).
    rewrite !E. auto.
  - assert (0 < v) as Hp by (destruct (Z.eq_dec v 0) as [->|]; [cbn in Hs; lia|lia]).
    destruct (csize_range v Hp) as (Hn & [H1 H2] & _). set (n := csize v) in *.
    assert (0 < 2 ^ (8 * (n - 3))) as HP by (apply Z.pow_pos_nonneg; lia).
    assert (trunc v = v / 2 ^ (8 * (n - 3)) * 2 ^ (8 * (n - 3))) as Et
      by (unfold trunc; fold n; replace (n <=? 3) with false by lia; reflexivity).
    assert (csize (trunc v) = n) as Ec.
    { pose proof (trunc_range v Hv) as [Ht _]. apply csize_unique; [|lia|].
      - rewrite Et. assert (1 <= v / 2 ^ (8 * (n - 3))); [|nia]. apply Z.div_le_lower_bound; [lia|].
        rewrite Z.mul_1_r. etransitivity; [|exact H1]. apply Z.pow_le_mono_r; lia.
      - split; [|lia]. rewrite Et. replace (8 * n - 9) with (15 + 8 * (n - 3)) in * by lia.
        rewrite Z.pow_add_r in * by lia. apply Z.mul_le_mono_nonneg_r; [lia|]. apply Z.div_le_lower_bound; lia. }
    split; [|split; [exact Ec|]].
    + unfold trunc at 1. rewrite Ec. replace (n <=? 3) with false by lia. rewrite Et, Z.div_mul by lia. reflexivity.
    + unfold mantissa. rewrite Ec. fold n. replace (n <=? 3) with false by lia. rewrite Et, Z.div_mul by lia. reflexivity.
Qed.

Lemma SetCompact_GetCompact pn c :
  limbs_ok pn -> GetCompact pn false = Some c ->
  is_u32 c /\ SetCompact c = (UintToArith256 (trunc (val pn)), false, false).
Proof.
  intros Hp E. rewrite (GetCompact_spec pn Hp) in E. injection E as <-. pose proof (val_bound pn Hp) as Hv.
  destruct (compact_value_encoded (val pn) Hv) as (_ & Ev & Hc & Hlow & _). split; [exact Hc|].
  pose proof (SetCompact_spec _ Hc) as H. destruct (SetCompact _) as [[t neg'] ov].
  destruct H as (Ht & Hval & -> & Hov). rewrite Ev in *.
  pose proof (trunc_range (val pn) ltac:(lia)) as [Htr _]. rewrite Z.mod_small in Hval by lia.
  replace (2 ^ 23 <=? _) with false by lia. rewrite andb_false_r.
  replace ov with false by (symmetry; apply Hov; lia). rewrite <- Hval, UintToArith256_val by exact Ht. reflexivity.
Qed.

(** ** The operations on values *)

Lemma bitwise_spec (op : Z -> Z -> Z) (bop : bool -> bool -> bool) a b :
  (forall x y n, 0 <= n -> Z.testbit (op x y) n = bop (Z.testbit x n) (Z.testbit y n)) ->
  (forall x y n, 0 <= n -> 0 <= x < 2 ^ n -> 0 <= y < 2 ^ n -> 0 <= op x y < 2 ^ n) ->
  limbs_ok a -> limbs_ok b ->
  let c := fill WIDTH (fun i => op (a !!! i) (b !!! i)) in
  limbs_ok c /\ val c = op (val a) (val b).
Proof.
  intros Hbit Hrange Ha Hb c. assert (limbs_ok c) as Hc.
  { apply limbs_ok_fill. intros i _. apply (Hrange _ _ 32); [lia| |]; apply limb_u32; [apply Ha|apply Hb]. }
  split; [exact Hc|]. apply val_by_bits; [exact Hc| |].
  - apply (Hrange _ _ 256); [lia|apply val_bound, Ha|apply val_bound, Hb].
  - intros j m Hj Hm. unfold c. rewrite lookup_total_fill, !Hbit, !limb_testbit by (assumption || lia). reflexivity.
Qed.

Lemma bit_op_range (op : Z -> Z -> Z) (bop : bool -> bool -> bool) x y n :
  (forall x y n, 0 <= n -> Z.testbit (op x y) n = bop (Z.testbit x n) (Z.testbit y n)) ->
  bop false false = false -> 0 <= n -> 0 <= op x y -> 0 <= x < 2 ^ n -> 0 <= y < 2 ^ n -> 0 <= op x y < 2 ^ n.
Proof.
  intros Hbit Hff Hn Hpos Hx Hy. split; [exact Hpos|].
  replace (op x y) with (op x y mod 2 ^ n); [apply Z.mod_pos_bound, Z.pow_pos_nonneg; lia|].
  apply Z.bits_inj'. intros m Hm. destruct (Z.ltb_spec m n); [apply Z.mod_pow2_bits_low; lia|].
  rewrite Z.mod_pow2_bits_high, Hbit, <- (Z.mod_small x (2 ^ n)), <- (Z.mod_small y (2 ^ n)),
    !Z.mod_pow2_bits_high by lia. symmetry. exact Hff.
Qed.

Lemma band_spec a b : limbs_ok a -> limbs_ok b -> limbs_ok (band a b) /\ val (band a b) = Z.land (val a) (val b).
Proof.
  apply (bitwise_spec Z.land andb); [intros; apply Z.land_spec|]. intros x y n Hn Hx Hy.
  apply (bit_op_range Z.land andb); try assumption; [intros; apply Z.land_spec|reflexivity|].
  apply Z.land_nonneg. lia.
Qed.
Lemma bor_spec a b : limbs_ok a -> limbs_ok b -> limbs_ok (bor a b) /\ val (bor a b) = Z.lor (val a) (val b).
Proof.
  apply (bitwise_spec Z.lor orb); [intros; apply Z.lor_spec|]. intros x y n Hn Hx Hy.
  apply (bit_op_range Z.lor orb); try assumption; [intros; apply Z.lor_spec|reflexivity|].
  apply Z.lor_nonneg. lia.
Qed.
Lemma bxor_spec a b : limbs_ok a -> limbs_ok b -> limbs_ok (bxor a b) /\ val (bxor a b) = Z.lxor (val a) (val b).
Proof.
  apply (bitwise_spec Z.lxor xorb); [intros; apply Z.lxor_spec|]. intros x y n Hn Hx Hy.
  apply (bit_op_range Z.lxor xorb); try assumption; [intros; apply Z.lxor_spec|reflexivity|].
  apply Z.lxor_nonneg. lia.
Qed.
Lemma CompareTo_spec a b :
  limbs_ok a -> limbs_ok b -> CompareTo a b = if val a <? val b then -1 else if val a >? val b then 1 else 0.
Proof. intros [_ Ha] [_ Hb]. apply compare_loop_spec; assumption. Qed.

Lemma ArithToUint256_val pn : limbs_ok pn -> ArithToUint256 pn = val pn.
Proof.
  intros [Hl Hu]. unfold ArithToUint256, val.
  assert (forall n, for_loop n 0 (fun x b => Z.lor b (Z.shiftl (pn !!! x) (32 * Z.of_nat x))) 0 = val_n n pn) as H.
  { induction n as [|n IH]; [reflexivity|]. rewrite <- Nat.add_1_r, for_loop_app, IH. cbn [for_loop].
    rewrite lor_shl by (try lia; rewrite <- BASE_pow; apply val_n_bound, Hu).
    rewrite Nat.add_0_l, <- BASE_pow, Nat.add_1_r. reflexivity. }
  apply H.
Qed.

(** What the class promises: arrays of eight digits with the operations on
    them represent the integers modulo [2^256]. *)
Record represents (v : Z) (pn : list Z) : Prop := {
  rep_ok : limbs_ok pn;
  rep_val : val pn = v
}.
Lemma represents_val pn : limbs_ok pn -> represents (val pn) pn.
Proof. intros H. split; [exact H|reflexivity]. Qed.
Lemma represents_of v pn : limbs_ok pn /\ val pn = v -> represents v pn.
Proof. intros [H E]. split; assumption. Qed.

Section Represents.
Context {x y : Z} {a b : list Z} (Ra : represents x a) (Rb : represents y b).
Lemma rep_add : represents ((x + y) mod R) (add a b).
Proof. destruct Ra as [Ha <-], Rb as [Hb <-]. apply represents_of, (add_spec a b Ha Hb). Qed.
Lemma rep_sub : represents ((x - y) mod R) (sub a b).
Proof. destruct Ra as [Ha <-], Rb as [Hb <-]. apply represents_of, (sub_spec a b Ha Hb). Qed.
Lemma rep_mul : represents ((x * y) mod R) (mul a b).
Proof. destruct Ra as [Ha <-], Rb as [Hb <-]. apply represents_of, (mul_spec a b Ha Hb). Qed.
Lemma rep_mul32 w : is_u32 w -> represents ((x * w) mod R) (mul32 a w).
Proof. intros Hw. destruct Ra as [Ha <-]. apply represents_of, (mul32_spec a w Ha Hw). Qed.
Lemma rep_neg : represents ((- x) mod R) (neg a).
Proof. destruct Ra as [Ha <-]. apply represents_of, (neg_spec a Ha). Qed.
Lemma rep_bnot : represents (R - 1 - x) (bnot a).
Proof. destruct Ra as [Ha <-]. apply represents_of, (bnot_spec a Ha). Qed.
Lemma rep_incr : represents ((x + 1) mod R) (incr a).
Proof. destruct Ra as [Ha <-]. apply represents_of, (incr_spec a Ha). Qed.
Lemma rep_decr : represents ((x - 1) mod R) (decr a).
Proof. destruct Ra as [Ha <-]. apply represents_of, (decr_spec a Ha). Qed.
Lemma rep_band : represents (Z.land x y) (band a b).
Proof. destruct Ra as [Ha <-], Rb as [Hb <-]. apply represents_of, (band_spec a b Ha Hb). Qed.
Lemma rep_bor : represents (Z.lor x y) (bor a b).
Proof. destruct Ra as [Ha <-], Rb as [Hb <-]. apply represents_of, (bor_spec a b Ha Hb). Qed.
Lemma rep_bxor : represents (Z.lxor x y) (bxor a b).
Proof. destruct Ra as [Ha <-], Rb as [Hb <-]. apply represents_of, (bxor_spec a b Ha Hb). Qed.
Lemma rep_shl s : 0 <= s -> represents ((x * 2 ^ s) mod R) (shl a s).
Proof. intros Hs. destruct Ra as [Ha <-]. apply represents_of, (shl_spec a s Ha Hs). Qed.
Lemma rep_shr s : 0 <= s -> represents (x / 2 ^ s) (shr a s).
Proof. intros Hs. destruct Ra as [Ha <-]. apply represents_of, (shr_spec a s Ha Hs). Qed.
Lemma rep_div : y <> 0 -> exists q, div a b = Some q /\ represents (x / y) q.
Proof.
  destruct Ra as [Ha <-], Rb as [Hb <-]. intros E. pose proof (div_spec a b Ha Hb) as H.
  destruct (div a b) as [q|]; [|contradiction]. exists q. destruct H as (_ & Hq & Ev). split; [reflexivity|].
  split; assumption.
Qed.
Lemma rep_div_zero : y = 0 -> div a b = None.
Proof.
  destruct Ra as [Ha <-], Rb as [Hb <-]. intros E. pose proof (div_spec a b Ha Hb).
  destruct (div a b) as [q|]; [tauto|reflexivity].
Qed.
Lemma rep_gt : gt a b = (x >? y).
Proof. destruct Ra as [Ha <-], Rb as [Hb <-]. apply gt_spec; assumption. Qed.
Lemma rep_EqualTo w : is_u64 w -> EqualTo a w = (x =? w).
Proof. intros Hw. destruct Ra as [Ha <-]. apply EqualTo_spec; assumption. Qed.
Lemma rep_bound : 0 <= x < R.
Proof. destruct Ra as [Ha <-]. apply val_bound, Ha. Qed.
Lemma rep_GetCompact : GetCompact a false = Some (mantissa x + csize x * 2 ^ 24).
Proof. destruct Ra as [Ha <-]. apply GetCompact_spec, Ha. Qed.
Lemma rep_change z : x = z -> represents z a.
Proof. intros <-. exact Ra. Qed.
End Represents.
Lemma rep_UintToArith256 x : 0 <= x < R -> represents x (UintToArith256 x).
Proof. intros H. split; [apply UintToArith256_ok|apply val_UintToArith256, H]. Qed.
Lemma rep_of_u64 x : is_u64 x -> represents x (of_u64 x).
Proof. intros H. split; [apply of_u64_ok|apply val_of_u64, H]. Qed.
Lemma rep_zero : represents 0 zero.
Proof. split; [apply zero_ok|apply val_zero]. Qed.
Lemma rep_SetCompact c : is_u32 c -> represents (compact_value c mod R) (fst (fst (SetCompact c))).
Proof.
  intros Hc. pose proof (SetCompact_spec c Hc) as H. destruct (SetCompact c) as [[t n] o].
  destruct H as (Ht & Hv & _). split; assumption.
Qed.
Lemma rep_inj v a b : represents v a -> represents v b -> a = b.
Proof. intros [Ha <-] [Hb E]. apply limbs_val_inj; auto. Qed.

Create HintDb rep.
#[export] Hint Resolve rep_add rep_sub rep_mul rep_mul32 rep_neg rep_bnot rep_incr rep_decr rep_band rep_bor
  rep_bxor rep_shl rep_shr rep_UintToArith256 rep_of_u64 rep_zero rep_SetCompact : rep.

(** C39: Refinement of integers modulo [2^256]: on the arrays that represent
    [x] and [y], the digit loops of [base_uint<256>] compute the sum, the
    difference, both products, negation, complement, increment, decrement,
    the bitwise operations, the shifts by [s] and the quotient modulo
    [2^256]; division fails exactly when the divisor is zero; the
    comparisons, [bits], [GetLow64] and the conversion to [uint256] return
    what they return on the integers. *)
Theorem arith_uint256_refines x y a b w s :
  represents x a -> represents y b -> is_u32 w -> 0 <= s ->
  (represents ((x + y) mod R) (add a b) /\ represents ((x - y) mod R) (sub a b) /\
   represents ((x * y) mod R) (mul a b) /\ represents ((x * w) mod R) (mul32 a w) /\
   represents ((- x) mod R) (neg a) /\ represents (R - 1 - x) (bnot a) /\
   represents ((x + 1) mod R) (incr a) /\ represents ((x - 1) mod R) (decr a)) /\
  (represents (Z.land x y) (band a b) /\ represents (Z.lor x y) (bor a b) /\
   represents (Z.lxor x y) (bxor a b) /\
   represents ((x * 2 ^ s) mod R) (shl a s) /\ represents (x / 2 ^ s) (shr a s)) /\
  (y = 0 -> div a b = None) /\
  (y <> 0 -> exists q, div a b = Some q /\ represents (x / y) q) /\
  (CompareTo a b = (if x <? y then -1 else if x >? y then 1 else 0) /\
   gt a b = (x >? y) /\ ge a b = (x >=? y) /\ EqualTo a w = (x =? w) /\
   bits a = (if x =? 0 then 0 else Z.log2 x + 1) /\ GetLow64 a = x mod 2 ^ 64 /\
   ArithToUint256 a = x /\ UintToArith256 x = a).
Proof.
  intros Ra Rb Hw Hs. split; [auto 12 with rep|]. split; [auto 12 with rep|].
  split; [apply (rep_div_zero Ra Rb)|]. split; [apply (rep_div Ra Rb)|].
  assert (is_u64 w) by (unfold is_u64, is_u32 in *; lia). destruct Ra as [Ha <-], Rb as [Hb <-].
  rewrite CompareTo_spec, gt_spec, ge_spec, EqualTo_spec, bits_spec, GetLow64_spec, ArithToUint256_val, UintToArith256_val
    by assumption. tauto.
Qed.
Lemma arith_uint256_refines_witness :
  represents ((R - 5 + 7) mod R) (add (UintToArith256 (R - 5)) (of_u64 7)) /\
  represents ((R - 5) / 7)%Z (default zero (div (UintToArith256 (R - 5)) (of_u64 7))).
Proof.
  destruct (arith_uint256_refines (R - 5) 7 (UintToArith256 (R - 5)) (of_u64 7) 3 17) as ((H & _) & _ & _ & Hd & _).
  - split; [apply UintToArith256_ok|vm_compute; reflexivity].
  - split; [apply of_u64_ok|vm_compute; reflexivity].
  - unfold is_u32. lia.
  - lia.
  - split; [exact H|]. destruct (Hd ltac:(lia)) as (q & -> & Hq). exact Hq.
Defined.

(** The compact encoding keeps the leading digits: for every 256-bit
    number, [GetCompact] meets its assertions, and decoding what it returns
    gives, with neither flag set, a number that is at most the original,
    falls short of it by no more than one part in [2^15], is never zero
    unless the original is, and encodes to the same word again; a larger
    number never decodes to a smaller one. *)
Theorem compact_encoding_truncates a b :
  limbs_ok a -> limbs_ok b -> val a <= val b ->
  exists ca cb ta tb,
    GetCompact a false = Some ca /\ GetCompact b false = Some cb /\
    SetCompact ca = (ta, false, false) /\ SetCompact cb = (tb, false, false) /\
    GetCompact ta false = Some ca /\
    val ta <= val a /\ (val a - val ta) * 2 ^ 15 <= val a /\ (val ta = 0 -> val a = 0) /\ val ta <= val tb.
Proof.
  intros Ha Hb Hle. pose proof (val_bound a Ha) as Ba. pose proof (val_bound b Hb) as Bb.
  pose proof (GetCompact_spec a Ha) as Ea. pose proof (GetCompact_spec b Hb) as Eb.
  destruct (trunc_range (val a) ltac:(lia)) as [Ta Da]. destruct (trunc_range (val b) ltac:(lia)) as [Tb _].
  do 2 eexists. exists (UintToArith256 (trunc (val a))), (UintToArith256 (trunc (val b))).
  split; [exact Ea|]. split; [exact Eb|].
  split; [apply (SetCompact_GetCompact a); assumption|]. split; [apply (SetCompact_GetCompact b); assumption|].
  rewrite GetCompact_spec, !val_UintToArith256 by (apply UintToArith256_ok || lia).
  destruct (trunc_idem (val a) ltac:(lia)) as (_ & -> & ->).
  repeat split; [apply Ta|exact Da| |apply trunc_mono; lia]. lia.
Qed.
Lemma compact_encoding_truncates_witness :
  exists ca cb ta tb,
    GetCompact (UintToArith256 (2 ^ 236 - 1)) false = Some ca /\ GetCompact (UintToArith256 (2 ^ 237)) false = Some cb /\
    SetCompact ca = (ta, false, false) /\ SetCompact cb = (tb, false, false) /\ GetCompact ta false = Some ca /\
    val ta <= val tb.
Proof.
  destruct (compact_encoding_truncates (UintToArith256 (2 ^ 236 - 1)) (UintToArith256 (2 ^ 237)))
    as (ca & cb & ta & tb & ? & ? & ? & ? & ? & _ & _ & _ & ?).
  - apply UintToArith256_ok.
  - apply UintToArith256_ok.
  - vm_compute. discriminate.
  - exists ca, cb, ta, tb. auto 10.
Defined.
