(* ===== verification/BlockIndex.v ===== *)
(** * The block index

    [CBlockIndex] of [src/chain.h] and [src/chain.cpp] and the part of
    [BlockManager] ([src/node/blockstorage.cpp]) that adds entries to it.
    The index is a map from block hashes to entries; a pointer to an entry is
    the hash it is stored under (the code never moves an entry, so a pointer
    and a key name the same object), [nullptr] is [None].  Reading through a
    pointer that is not in the map, or a failed [assert], is the result
    [None] of the option monad.

    The entries form a tree through [pprev], and [pskip] makes it a skip list.
    The theorems say that walking the skip list finds the ancestor that
    walking [pprev] finds, that adding an entry keeps the tree well formed,
    and that the last common ancestor of two entries is found. *)

From stdpp Require Import sorting.
From S2P Require Import Prelude ConsensusParams ArithUint256.

Local Open Scope Z_scope.

(** ** Entries *)

(** [src/primitives/block.h] *)
Record CBlockHeader := mkHeader {
  hdr_nVersion : Z;
  hdr_hashPrevBlock : Z;
  hdr_hashMerkleRoot : Z;
  hdr_nTime : Z;
  hdr_nBits : Z;
  hdr_nNonce : Z
}.
#[export] Instance CBlockHeader_eq_dec : EqDecision CBlockHeader.
Proof. solve_decision. Defined.
(** The 32-bit header fields. *)
Definition header_ok (b : CBlockHeader) : Prop := is_u32 (hdr_nTime b) /\ is_u32 (hdr_nBits b).

Definition BLOCK_VALID_UNKNOWN : Z := 0.
Definition BLOCK_VALID_RESERVED : Z := 1.
Definition BLOCK_VALID_TREE : Z := 2.
Definition BLOCK_VALID_TRANSACTIONS : Z := 3.
Definition BLOCK_VALID_CHAIN : Z := 4.
Definition BLOCK_VALID_SCRIPTS : Z := 5.
Definition BLOCK_VALID_MASK : Z :=
  Z.lor (Z.lor (Z.lor (Z.lor BLOCK_VALID_RESERVED BLOCK_VALID_TREE) BLOCK_VALID_TRANSACTIONS) BLOCK_VALID_CHAIN)
    BLOCK_VALID_SCRIPTS.
Definition BLOCK_HAVE_DATA : Z := 8.
Definition BLOCK_HAVE_UNDO : Z := 16.
Definition BLOCK_HAVE_MASK : Z := Z.lor BLOCK_HAVE_DATA BLOCK_HAVE_UNDO.
Definition BLOCK_FAILED_VALID : Z := 32.
Definition BLOCK_FAILED_CHILD : Z := 64.
Definition BLOCK_OPT_WITNESS : Z := 128.
Definition BLOCK_STATUS_RESERVED : Z := 256.

Definition SEQ_ID_BEST_CHAIN_FROM_DISK : Z := 0.
Definition SEQ_ID_INIT_FROM_DISK : Z := 1.

Record CBlockIndex := mkBlockIndex {
  phashBlock : option Z;
  pprev : option Z;
  pskip : option Z;
  nHeight : Z;
  nFile : Z;
  nDataPos : Z;
  nUndoPos : Z;
  nChainWork : list Z;
  nTx : Z;
  m_chain_tx_count : Z;
  nStatus : Z;
  nVersion : Z;
  hashMerkleRoot : Z;
  nTime : Z;
  nBits : Z;
  nNonce : Z;
  nSequenceId : Z;
  nTimeMax : Z
}.

(** [explicit CBlockIndex(const CBlockHeader&)] with the default member
    initialisers. *)
Definition CBlockIndex_of (block : CBlockHeader) : CBlockIndex :=
  mkBlockIndex None None None 0 0 0 0 zero 0 0 0
    (hdr_nVersion block) (hdr_hashMerkleRoot block) (hdr_nTime block) (hdr_nBits block) (hdr_nNonce block)
    SEQ_ID_INIT_FROM_DISK 0.

(** The fields that change after construction. *)
Definition set_links (b : CBlockIndex) (prev skip : option Z) (height : Z) : CBlockIndex :=
  mkBlockIndex (phashBlock b) prev skip height (nFile b) (nDataPos b) (nUndoPos b) (nChainWork b) (nTx b)
    (m_chain_tx_count b) (nStatus b) (nVersion b) (hashMerkleRoot b) (nTime b) (nBits b) (nNonce b)
    (nSequenceId b) (nTimeMax b).
Definition set_hash (b : CBlockIndex) (h : Z) (seq : Z) : CBlockIndex :=
  mkBlockIndex (Some h) (pprev b) (pskip b) (nHeight b) (nFile b) (nDataPos b) (nUndoPos b) (nChainWork b) (nTx b)
    (m_chain_tx_count b) (nStatus b) (nVersion b) (hashMerkleRoot b) (nTime b) (nBits b) (nNonce b)
    seq (nTimeMax b).
Definition set_totals (b : CBlockIndex) (timemax : Z) (work : list Z) : CBlockIndex :=
  mkBlockIndex (phashBlock b) (pprev b) (pskip b) (nHeight b) (nFile b) (nDataPos b) (nUndoPos b) work (nTx b)
    (m_chain_tx_count b) (nStatus b) (nVersion b) (hashMerkleRoot b) (nTime b) (nBits b) (nNonce b)
    (nSequenceId b) timemax.
Definition set_status (b : CBlockIndex) (status : Z) : CBlockIndex :=
  mkBlockIndex (phashBlock b) (pprev b) (pskip b) (nHeight b) (nFile b) (nDataPos b) (nUndoPos b) (nChainWork b)
    (nTx b) (m_chain_tx_count b) status (nVersion b) (hashMerkleRoot b) (nTime b) (nBits b) (nNonce b)
    (nSequenceId b) (nTimeMax b).

Definition GetBlockTime (b : CBlockIndex) : Z := nTime b.
Definition GetBlockTimeMax (b : CBlockIndex) : Z := nTimeMax b.
Definition HaveNumChainTxs (b : CBlockIndex) : bool := negb (m_chain_tx_count b =? 0).

(** [None] is the failed [assert] on [nUpTo]. *)
Definition IsValid (b : CBlockIndex) (nUpTo : Z) : option bool :=
  if negb (Z.land nUpTo (Z.lnot BLOCK_VALID_MASK) =? 0) then None
  else if negb (Z.land (nStatus b) BLOCK_FAILED_VALID =? 0) then Some false
  else Some (Z.land (nStatus b) BLOCK_VALID_MASK >=? nUpTo).
Definition RaiseValidity (b : CBlockIndex) (nUpTo : Z) : option (CBlockIndex * bool) :=
  if negb (Z.land nUpTo (Z.lnot BLOCK_VALID_MASK) =? 0) then None
  else if negb (Z.land (nStatus b) BLOCK_FAILED_VALID =? 0) then Some (b, false)
  else if Z.land (nStatus b) BLOCK_VALID_MASK <? nUpTo
  then Some (set_status b (Z.lor (Z.land (nStatus b) (u32 (Z.lnot BLOCK_VALID_MASK))) nUpTo), true)
  else Some (b, false).

(** ** The index and the walk along it *)

Abbreviation BlockMap := (gmap Z CBlockIndex).
Definition deref (m : BlockMap) (p : option Z) : option CBlockIndex := p ≫= (m !!.).

Definition InvertLowestOne (n : Z) : Z := Z.land n (n - 1).
Definition GetSkipHeight (height : Z) : Z :=
  if height <? 2 then 0
  else if negb (Z.land height 1 =? 0) then InvertLowestOne (InvertLowestOne (height - 1)) + 1
  else InvertLowestOne height.

(** The [while] loop of [GetAncestor]; out of [fuel] it returns [None], like a
    failed assertion. *)
Fixpoint GetAncestor_loop (fuel : nat) (m : BlockMap) (height pindexWalk heightWalk : Z) : option Z :=
  if heightWalk >? height then
    match fuel with
    | O => None
    | S fuel =>
        let heightSkip := GetSkipHeight heightWalk in
        let heightSkipPrev := GetSkipHeight (heightWalk - 1) in
        w ← m !! pindexWalk;
        match pskip w with
        | Some skip =>
            if (heightSkip =? height) ||
               ((heightSkip >? height) && negb ((heightSkipPrev <? heightSkip - 2) && (heightSkipPrev >=? height)))
            then GetAncestor_loop fuel m height skip heightSkip
            else prev ← pprev w; GetAncestor_loop fuel m height prev (heightWalk - 1)
        | None => prev ← pprev w; GetAncestor_loop fuel m height prev (heightWalk - 1)
        end
    end
  else Some pindexWalk.
Definition GetAncestor (m : BlockMap) (this : Z) (height : Z) : option (option Z) :=
  b ← m !! this;
  if (height >? nHeight b) || (height <? 0) then Some None
  else Some <$> GetAncestor_loop (Z.to_nat (nHeight b)) m height this (nHeight b).

(** [BuildSkip] on the entry with these links; the result is the new
    [pskip]. *)
Definition BuildSkip (m : BlockMap) (b : CBlockIndex) : option (option Z) :=
  match pprev b with
  | Some prev => GetAncestor m prev (GetSkipHeight (nHeight b))
  | None => Some (pskip b)
  end.

(** ** Work *)

(** [None] is the exception of the division. *)
Definition GetBitsProof (bits : Z) : option (list Z) :=
  let '(bnTarget, fNegative, fOverflow) := SetCompact bits in
  if fNegative || fOverflow || EqualTo bnTarget 0 then Some (of_u64 0)
  else q ← div (bnot bnTarget) (add bnTarget (of_u64 1)); Some (add q (of_u64 1)).
Definition GetBlockProof (b : CBlockIndex) : option (list Z) := GetBitsProof (nBits b).

Definition GetBlockProofEquivalentTime (to from tip : CBlockIndex) (params : Params) : option Z :=
  let '(r, sign) :=
    if gt (nChainWork to) (nChainWork from) then (sub (nChainWork to) (nChainWork from), 1)
    else (sub (nChainWork from) (nChainWork to), -1) in
  proof ← GetBlockProof tip;
  r ← div (mul r (of_u64 (u64 (nPowTargetSpacing params)))) proof;
  if bits r >? 63 then Some (sign * 9223372036854775807)
  else Some (sign * GetLow64 r).

(** ** Forks *)

(** The inner loop of [LastCommonAncestor]: jump until the skip pointers
    agree.  A null [pskip] would be read through. *)
Fixpoint LastCommonAncestor_skip (fuel : nat) (m : BlockMap) (pa pb : Z) : option (Z * Z) :=
  a ← m !! pa;
  b ← m !! pb;
  if decide (pskip a = pskip b) then Some (pa, pb)
  else match fuel with
       | O => None
       | S fuel => sa ← pskip a; sb ← pskip b; LastCommonAncestor_skip fuel m sa sb
       end.
Fixpoint LastCommonAncestor_loop (fuel : nat) (m : BlockMap) (pa pb : option Z) : option (option Z) :=
  if decide (pa = pb) then Some pa
  else match fuel with
       | O => None
       | S fuel' =>
           pa ← pa; pb ← pb;
           '(pa, pb) ← LastCommonAncestor_skip fuel m pa pb;
           a ← m !! pa; b ← m !! pb;
           LastCommonAncestor_loop fuel' m (pprev a) (pprev b)
       end.
Definition LastCommonAncestor (m : BlockMap) (pa pb : Z) : option (option Z) :=
  a ← m !! pa;
  b ← m !! pb;
  pa' ← (if nHeight a >? nHeight b then GetAncestor m pa (nHeight b) else Some (Some pa));
  pb' ← (if negb (nHeight a >? nHeight b) && (nHeight b >? nHeight a) then GetAncestor m pb (nHeight a)
         else Some (Some pb));
  LastCommonAncestor_loop (S (Z.to_nat (nHeight a))) m pa' pb'.

(** ** Median time *)

Definition nMedianTimeSpan : nat := 11.
Fixpoint median_times (n : nat) (m : BlockMap) (pindex : option Z) : option (list Z) :=
  match n, pindex with
  | S n, Some h => b ← m !! h; rest ← median_times n m (pprev b); Some (rest ++ [GetBlockTime b])
  | _, _ => Some []
  end.
Definition sort (l : list Z) : list Z := merge_sort (≤)%Z l.
Definition GetMedianTimePast (m : BlockMap) (this : Z) : option Z :=
  times ← median_times nMedianTimeSpan m (Some this);
  Some (sort times !!! (length times / 2)%nat).

(** ** Adding entries *)

(** [node::BlockManager], with the best header the caller passes by
    reference. *)
Record BlockManager := mkBlockManager {
  m_block_index : BlockMap;
  m_dirty_blockindex : gset Z;
  m_best_header : option Z
}.
Definition empty_manager : BlockManager := mkBlockManager ∅ ∅ None.

Section Add.
(** [CBlockHeader::GetHash], the double SHA-256 of the serialised header. *)
Context (GetHash : CBlockHeader -> Z).

Definition LookupBlockIndex (s : BlockManager) (hash : Z) : option Z :=
  match m_block_index s !! hash with Some _ => Some hash | None => None end.

Definition AddToBlockIndex (s : BlockManager) (block : CBlockHeader) : option (BlockManager * Z) :=
  let hash := GetHash block in
  match m_block_index s !! hash with
  | Some _ => Some (s, hash)
  | None =>
      let new := set_hash (CBlockIndex_of block) hash SEQ_ID_INIT_FROM_DISK in
      let m := <[hash := new]> (m_block_index s) in
      new ← (match m !! hdr_hashPrevBlock block with
             | Some prev =>
                 let new := set_links new (Some (hdr_hashPrevBlock block)) (pskip new) (i32 (nHeight prev + 1)) in
                 skip ← BuildSkip (<[hash := new]> m) new;
                 Some (set_links new (pprev new) skip (nHeight new))
             | None => Some new
             end);
      let m := <[hash := new]> m in
      proof ← GetBlockProof new;
      new ← (match pprev new with
             | Some p => prev ← m !! p;
                 Some (set_totals new (Z.max (nTimeMax prev) (nTime new)) (add (nChainWork prev) proof))
             | None => Some (set_totals new (nTime new) (add (of_u64 0) proof))
             end);
      '(new, _) ← RaiseValidity new BLOCK_VALID_TREE;
      let m := <[hash := new]> m in
      best ← (match m_best_header s with
              | None => Some hash
              | Some bh => e ← m !! bh;
                  Some (if CompareTo (nChainWork e) (nChainWork new) <? 0 then hash else bh)
              end);
      Some (mkBlockManager m ({[ hash ]} ∪ m_dirty_blockindex s) (Some best), hash)
  end.

(** [CBlockIndexWorkComparator]; [addr] gives the addresses of the entries. *)
Definition CBlockIndexWorkComparator (addr : Z -> Z) (m : BlockMap) (pa pb : Z) : option bool :=
  a ← m !! pa;
  b ← m !! pb;
  Some (if gt (nChainWork a) (nChainWork b) then false
        else if CompareTo (nChainWork a) (nChainWork b) <? 0 then true
        else if nSequenceId a <? nSequenceId b then false
        else if nSequenceId a >? nSequenceId b then true
        else if addr pa <? addr pb then false
        else addr pa >? addr pb).
End Add.

(** A chain of ten blocks with a fork of three at height 5, hashed by an
    injective function of the nonce. *)
Definition toy_hash (b : CBlockHeader) : Z := hdr_nNonce b + 1000.
Definition toy_header (prev nonce : Z) : CBlockHeader := mkHeader 4 prev 0 (nonce * 300) 0x1e0fffff nonce.
Definition toy_headers : list CBlockHeader :=
  map (fun n => toy_header (if n =? 0 then 0 else 999 + n) n) (map Z.of_nat (seq 0 10)) ++
  [toy_header 1005 20; toy_header 1020 21; toy_header 1021 22].
Definition toy_manager : BlockManager :=
  foldl (fun s b => match AddToBlockIndex toy_hash s b with Some (s, _) => s | None => s end) empty_manager toy_headers.
Example toy_manager_test :
  (map (fun h => GetAncestor (m_block_index toy_manager) 1009 h) [9; 6; 3; 0; 10]
   = [Some (Some 1009); Some (Some 1006); Some (Some 1003); Some (Some 1000); Some None]) /\
  LastCommonAncestor (m_block_index toy_manager) 1009 1022 = Some (Some 1005) /\
  GetMedianTimePast (m_block_index toy_manager) 1009 = Some 1500 /\ m_best_header toy_manager = Some 1009.
Proof. vm_compute. auto. Qed.

(** ** Work of a target *)

(** The expected number of hashes to meet a target, as an integer. *)
Definition bits_work (c : Z) : Z :=
  let v := compact_value c in
  if (2 ^ 23 <=? c mod 2 ^ 24) || (v =? 0) || (R <=? v) then 0 else 2 ^ 256 / (v + 1).

Lemma compact_value_nonneg c : is_u32 c -> 0 <= compact_word c < 2 ^ 23 /\ 0 <= compact_value c.
Proof.
  intros Hc. assert (0 <= compact_word c < 2 ^ 23) as Hw.
  { unfold compact_word. pose proof (Z.mod_pos_bound c (2 ^ 23) ltac:(lia)) as Hm.
    destruct (c / 2 ^ 24 <=? 3) eqn:E; [|exact Hm]. apply Z.leb_le in E.
    assert (0 < 2 ^ (8 * (3 - c / 2 ^ 24))) as HP by (apply Z.pow_pos_nonneg; lia).
    split; [apply Z.div_pos; lia|]. apply Z.div_lt_upper_bound; [lia|]. nia. }
  split; [exact Hw|]. unfold compact_value. apply Z.mul_nonneg_nonneg; [lia|].
  destruct (_ <=? 3); [lia|]. apply Z.pow_nonneg. lia.
Qed.
Lemma compact_word_0 c : is_u32 c -> compact_word c = 0 <-> compact_value c = 0.
Proof.
  intros Hc. unfold compact_value. split; [intros ->; reflexivity|].
  intros H. apply Z.mul_eq_0 in H as [H|H]; [exact H|]. destruct (_ <=? 3) eqn:E; [lia|].
  apply Z.leb_gt in E. assert (0 < 2 ^ (8 * (c / 2 ^ 24 - 3))) by (apply Z.pow_pos_nonneg; lia). lia.
Qed.
(** No target is [2^256 - 1], so the divisor of [GetBitsProof] is not zero. *)
Lemma compact_value_not_max c : is_u32 c -> compact_value c <> R - 1.
Proof.
  intros Hc E. destruct (compact_value_nonneg c Hc) as [Hw _]. unfold compact_value in E.
  destruct (Z.leb_spec (c / 2 ^ 24) 3) as [|H3].
  - assert (2 ^ 23 < R - 1) by reflexivity. lia.
  - apply (f_equal (fun x => x mod 2)) in E. replace (8 * (c / 2 ^ 24 - 3)) with (1 + (8 * (c / 2 ^ 24 - 3) - 1)) in E by lia.
    rewrite Z.pow_add_r, Z.mul_assoc, (Z.mul_comm _ (2 ^ 1)), <- Z.mul_assoc in E by lia.
    change (2 ^ 1) with 2 in E. rewrite Z.mul_comm, Z.mod_mul in E by lia. discriminate E.
Qed.

Lemma rep_one : represents 1 (of_u64 1).
Proof. apply rep_of_u64. unfold is_u64. lia. Qed.
Lemma GetBitsProof_spec c :
  is_u32 c -> exists w, GetBitsProof c = Some w /\ represents (bits_work c) w.
Proof.
  intros Hc. unfold GetBitsProof, bits_work. pose proof (SetCompact_spec c Hc) as H.
  destruct (SetCompact c) as [[t fNeg] fOv]. destruct H as (Ht & Hv & -> & Hov).
  destruct (compact_value_nonneg c Hc) as [Hw H0]. pose proof (compact_word_0 c Hc) as Hz.
  rewrite EqualTo_spec by (exact Ht || (unfold is_u64; lia)). rewrite Hv.
  destruct (Z.leb_spec R (compact_value c)) as [Hbig|Hsmall].
  { rewrite !orb_true_r. destruct fOv; [|exfalso; lia]. rewrite orb_true_r. cbn [orb].
    eexists. split; [reflexivity|]. apply (rep_of_u64 0). unfold is_u64; lia. }
  replace fOv with false by (symmetry; apply Hov; exact Hsmall).
  rewrite !orb_false_r, Z.mod_small in * by lia. rewrite (Z.mod_small _ R) by lia.
  destruct (Z.eqb_spec (compact_value c) 0) as [E|E].
  { rewrite !orb_true_r. eexists. split; [reflexivity|]. apply (rep_of_u64 0). unfold is_u64; lia. }
  replace (compact_word c =? 0) with false by (symmetry; apply Z.eqb_neq; tauto). cbn [negb andb].
  rewrite !orb_false_r. destruct (2 ^ 23 <=? c mod 2 ^ 24).
  { eexists. split; [reflexivity|]. apply (rep_of_u64 0). unfold is_u64; lia. }
  assert (represents (compact_value c) t) as Rt by (split; assumption).
  pose proof (compact_value_not_max c Hc) as Hmax. set (v := compact_value c) in *.
  assert (represents (v + 1) (add t (of_u64 1))) as R1.
  { apply (rep_change (rep_add Rt rep_one)). apply Z.mod_small. lia. }
  destruct (rep_div (rep_bnot Rt) R1 ltac:(lia)) as (q & -> & Rq). cbn [mbind option_bind].
  eexists. split; [reflexivity|].
  assert ((R - 1 - v) / (v + 1) + 1 = 2 ^ 256 / (v + 1)) as Eq.
  { change (2 ^ 256) with R. replace R with (R - 1 - v + 1 * (v + 1)) at 2 by lia. rewrite Z.div_add by lia. reflexivity. }
  apply (rep_change (rep_add Rq rep_one)). rewrite Eq. apply Z.mod_small.
  change (2 ^ 256) with R. split; [apply Z.div_pos; lia|]. apply Z.div_lt_upper_bound; nia.
Qed.
Lemma bits_work_range c : is_u32 c -> 0 <= bits_work c < R.
Proof. intros Hc. destruct (GetBitsProof_spec c Hc) as (w & _ & H). apply (rep_bound H). Qed.

(** ** Ancestors by [pprev] *)

(** The entry [n] steps before [h]. *)
Fixpoint nth_prev (m : BlockMap) (h : Z) (n : nat) : option Z :=
  match n with
  | O => Some h
  | S n => b ← m !! h; p ← pprev b; nth_prev m p n
  end.

(** What an entry of the index satisfies: heights count the steps to the
    root, [pskip] is the ancestor at [GetSkipHeight], the totals add up. *)
Record entry_ok (m : BlockMap) (h : Z) (b : CBlockIndex) : Prop := {
  eo_hash : phashBlock b = Some h;
  eo_height : 0 <= nHeight b < 2 ^ 31;
  eo_time : is_u32 (nTime b);
  eo_bits : is_u32 (nBits b);
  eo_root : pprev b = None -> nHeight b = 0 /\ pskip b = None /\ nTimeMax b = nTime b /\
    represents (bits_work (nBits b)) (nChainWork b);
  eo_link : forall p, pprev b = Some p -> exists pb, m !! p = Some pb /\ nHeight b = nHeight pb + 1 /\
    pskip b = nth_prev m p (Z.to_nat (nHeight pb - GetSkipHeight (nHeight b))) /\
    nTimeMax b = Z.max (nTimeMax pb) (nTime b) /\
    represents ((val (nChainWork pb) + bits_work (nBits b)) mod R) (nChainWork b)
}.
Definition index_ok (m : BlockMap) : Prop := forall h b, m !! h = Some b -> entry_ok m h b.

Lemma nth_prev_add m h i j : nth_prev m h (i + j) = x ← nth_prev m h i; nth_prev m x j.
Proof.
  revert h. induction i as [|i IH]; intros h; [reflexivity|]. cbn [nth_prev Nat.add].
  destruct (m !! h) as [b|]; [|reflexivity]. cbn. destruct (pprev b) as [p|]; [|reflexivity]. cbn. apply IH.
Qed.
Lemma nth_prev_S m h b p n : m !! h = Some b -> pprev b = Some p -> nth_prev m h (S n) = nth_prev m p n.
Proof. intros E1 E2. cbn [nth_prev]. rewrite E1. cbn. rewrite E2. reflexivity. Qed.

Lemma land_le_l a b : 0 <= a -> 0 <= b -> Z.land a b <= a.
Proof.
  intros Ha Hb. rewrite <- (Z2N.id a), <- (Z2N.id b), <- N2Z.inj_land by assumption. apply N2Z.inj_le, N.land_le_l.
Qed.
Lemma InvertLowestOne_range n : 0 < n -> 0 <= InvertLowestOne n < n.
Proof.
  intros Hn. unfold InvertLowestOne. split; [apply Z.land_nonneg; lia|].
  rewrite Z.land_comm. assert (Z.land (n - 1) n <= n - 1); [|lia]. apply land_le_l; lia.
Qed.
Lemma GetSkipHeight_range h : 0 <= GetSkipHeight h /\ (1 <= h -> GetSkipHeight h < h).
Proof.
  unfold GetSkipHeight. destruct (Z.ltb_spec h 2); [lia|]. destruct (negb _).
  - pose proof (InvertLowestOne_range (h - 1) ltac:(lia)) as H1. set (k := InvertLowestOne (h - 1)) in *.
    destruct (Z.eq_dec k 0) as [->|]; [change (InvertLowestOne 0) with 0; lia|].
    pose proof (InvertLowestOne_range k ltac:(lia)). lia.
  - pose proof (InvertLowestOne_range h ltac:(lia)). lia.
Qed.

Section Walk.
Context {m : BlockMap} (Hm : index_ok m).

Lemma nth_prev_exists h b n :
  m !! h = Some b -> Z.of_nat n <= nHeight b ->
  exists x bx, nth_prev m h n = Some x /\ m !! x = Some bx /\ nHeight bx = nHeight b - Z.of_nat n.
Proof using Hm.
  revert h b. induction n as [|n IH]; intros h b Eh Hn.
  - exists h, b. split; [reflexivity|]. split; [exact Eh|lia].
  - destruct (Hm h b Eh) as [_ _ _ _ Hroot Hlink]. destruct (pprev b) as [p|] eqn:Ep; [|destruct (Hroot eq_refl); lia].
    destruct (Hlink p eq_refl) as (pb & Epb & Ehb & _). rewrite (nth_prev_S m h b p n Eh Ep).
    destruct (IH p pb Epb ltac:(lia)) as (x & bx & ? & ? & ?). exists x, bx. split; [assumption|]. split; [assumption|lia].
Qed.
Lemma nth_prev_none h b n : m !! h = Some b -> nHeight b < Z.of_nat n -> nth_prev m h n = None.
Proof using Hm.
  revert h b. induction n as [|n IH]; intros h b Eh Hn; destruct (Hm h b Eh) as [_ Hh _ _ Hroot Hlink]; [lia|].
  cbn [nth_prev]. rewrite Eh. cbn. destruct (pprev b) as [p|] eqn:Ep; [|reflexivity]. cbn.
  destruct (Hlink p eq_refl) as (pb & Epb & Ehb & _). apply (IH p pb Epb). lia.
Qed.
(** [pskip] by the walk. *)
Lemma skip_is_ancestor h b :
  m !! h = Some b -> 1 <= nHeight b -> pskip b = nth_prev m h (Z.to_nat (nHeight b - GetSkipHeight (nHeight b))).
Proof using Hm.
  intros Eh Hpos. destruct (Hm h b Eh) as [_ _ _ _ Hroot Hlink].
  destruct (pprev b) as [p|] eqn:Ep; [|destruct (Hroot eq_refl); lia].
  destruct (Hlink p eq_refl) as (pb & Epb & Ehb & -> & _). pose proof (GetSkipHeight_range (nHeight b)) as [_ Hs].
  rewrite <- (nth_prev_S m h b p _ Eh Ep). f_equal. lia.
Qed.

Lemma GetAncestor_loop_spec fuel height h b :
  m !! h = Some b -> 0 <= height <= nHeight b -> nHeight b - height <= Z.of_nat fuel ->
  GetAncestor_loop fuel m height h (nHeight b) = nth_prev m h (Z.to_nat (nHeight b - height)).
Proof using Hm.
  revert h b. induction fuel as [|fuel IH]; intros h b Eh Hh Hf; cbn [GetAncestor_loop]; rewrite Z.gtb_ltb.
  { replace (height <? nHeight b) with false by lia. replace (nHeight b - height) with 0 by lia. reflexivity. }
  destruct (Z.ltb_spec height (nHeight b)) as [Hlt|]; [|replace (nHeight b - height) with 0 by lia; reflexivity].
  rewrite Eh. cbn [mbind option_bind]. destruct (Hm h b Eh) as [_ _ _ _ Hroot Hlink].
  assert ((x ← pprev b; GetAncestor_loop fuel m height x (nHeight b - 1)) = nth_prev m h (Z.to_nat (nHeight b - height))) as Hprev.
  { destruct (pprev b) as [p|] eqn:Ep; [|destruct (Hroot eq_refl); lia].
    destruct (Hlink p eq_refl) as (pb & Epb & Ehb & _). cbn [mbind option_bind].
    replace (nHeight b - 1) with (nHeight pb) by lia. rewrite (IH p pb Epb) by lia.
    rewrite <- (nth_prev_S m h b p _ Eh Ep). f_equal. lia. }
  destruct (pskip b) as [skip|] eqn:Es; [|exact Hprev].
  match goal with |- (if ?c then _ else _) = _ => destruct c eqn:Ec end; [|exact Hprev].
  assert (height <= GetSkipHeight (nHeight b)) as Hge.
  { apply orb_true_iff in Ec as [Ec|Ec]; [lia|]. apply andb_true_iff in Ec as [Ec _]. lia. }
  rewrite (skip_is_ancestor h b Eh) in Es by lia. pose proof (GetSkipHeight_range (nHeight b)) as [Hs0 Hs1].
  destruct (nth_prev_exists h b _ Eh ltac:(instantiate (1 := Z.to_nat (nHeight b - GetSkipHeight (nHeight b))); lia))
    as (x & bx & Ex & Ebx & Hbx).
  rewrite Ex in Es. injection Es as <-. replace (GetSkipHeight (nHeight b)) with (nHeight bx) by lia.
  rewrite (IH x bx Ebx) by lia.
  replace (Z.to_nat (nHeight b - height))
    with (Z.to_nat (nHeight b - GetSkipHeight (nHeight b)) + Z.to_nat (nHeight bx - height))%nat by lia.
  rewrite nth_prev_add, Ex. reflexivity.
Qed.

Lemma GetAncestor_spec h b height :
  m !! h = Some b ->
  GetAncestor m h height
  = Some (if (height >? nHeight b) || (height <? 0) then None else nth_prev m h (Z.to_nat (nHeight b - height))).
Proof using Hm.
  intros Eh. unfold GetAncestor. rewrite Eh. cbn [mbind option_bind].
  destruct ((height >? nHeight b) || (height <? 0)) eqn:E; [reflexivity|].
  apply orb_false_iff in E as [E1 E2]. rewrite (GetAncestor_loop_spec _ _ h b Eh) by lia.
  destruct (nth_prev_exists h b (Z.to_nat (nHeight b - height)) Eh ltac:(lia)) as (x & bx & -> & _). reflexivity.
Qed.
End Walk.

(** ** Adding an entry keeps the index well formed *)

Section Extend.
Context {m : BlockMap} (Hm : index_ok m) (k : Z) (v : CBlockIndex) (Hk : m !! k = None).

Lemma lookup_extend h b : m !! h = Some b -> (<[k := v]> m) !! h = Some b.
Proof using Hk. intros Eh. rewrite lookup_insert_ne by congruence. exact Eh. Qed.
Lemma links_inside h b :
  m !! h = Some b -> (forall p, pprev b = Some p -> is_Some (m !! p)) /\ (forall p, pskip b = Some p -> is_Some (m !! p)).
Proof using Hm.
  intros Eh. destruct (Hm h b Eh) as [_ Hh _ _ Hroot Hlink]. split; intros p Ep.
  - destruct (Hlink p Ep) as (pb & E & _). eauto.
  - destruct (Z.eq_dec (nHeight b) 0) as [E0|E0].
    + destruct (pprev b) as [q|]; [|destruct (Hroot eq_refl) as (_ & E & _); congruence].
      destruct (Hlink q eq_refl) as (pb & Epb & E & _). destruct (Hm q pb Epb) as [_ ? _ _ _ _]. lia.
    + rewrite (skip_is_ancestor Hm h b Eh) in Ep by lia. pose proof (GetSkipHeight_range (nHeight b)) as [Hs _].
      destruct (nth_prev_exists Hm h b (Z.to_nat (nHeight b - GetSkipHeight (nHeight b))) Eh ltac:(lia))
        as (x & bx & Ex & Ebx & _). rewrite Ex in Ep. injection Ep as <-. eauto.
Qed.
Lemma nth_prev_extend h b n : m !! h = Some b -> nth_prev (<[k := v]> m) h n = nth_prev m h n.
Proof using Hm Hk.
  revert h b. induction n as [|n IH]; intros h b Eh; [reflexivity|]. cbn [nth_prev].
  rewrite (lookup_extend h b Eh), Eh. cbn. destruct (pprev b) as [p|] eqn:Ep; [|reflexivity]. cbn.
  destruct (proj1 (links_inside h b Eh) p Ep) as [pb E]. apply (IH p pb E).
Qed.
Lemma GetAncestor_loop_extend fuel height h b hw :
  m !! h = Some b -> GetAncestor_loop fuel (<[k := v]> m) height h hw = GetAncestor_loop fuel m height h hw.
Proof using Hm Hk.
  revert h b hw. induction fuel as [|fuel IH]; intros h b hw Eh; cbn [GetAncestor_loop]; [reflexivity|].
  rewrite (lookup_extend h b Eh), Eh. destruct (hw >? height); [|reflexivity]. cbn [mbind option_bind].
  destruct (links_inside h b Eh) as [Hp Hs].
  assert (forall q, (x ← pprev b; GetAncestor_loop fuel (<[k := v]> m) height x q)
                    = x ← pprev b; GetAncestor_loop fuel m height x q) as E.
  { intros q. destruct (pprev b) as [p|]; [|reflexivity]. destruct (Hp p eq_refl) as [pb E]. apply (IH p pb q E). }
  destruct (pskip b) as [s|]; [|apply E]. destruct (_ || _); [|apply E].
  destruct (Hs s eq_refl) as [sb Es]. apply (IH s sb _ Es).
Qed.
Lemma GetAncestor_extend h b height : m !! h = Some b -> GetAncestor (<[k := v]> m) h height = GetAncestor m h height.
Proof using Hm Hk.
  intros Eh. unfold GetAncestor. rewrite (lookup_extend h b Eh), Eh. cbn [mbind option_bind].
  destruct (_ || _); [reflexivity|]. rewrite (GetAncestor_loop_extend _ _ h b) by exact Eh. reflexivity.
Qed.
Lemma entry_ok_extend h b : m !! h = Some b -> entry_ok (<[k := v]> m) h b.
Proof using Hm Hk.
  intros Eh. destruct (Hm h b Eh) as [H1 H2 H3 H4 H5 H6]. split; try assumption.
  intros p Ep. destruct (H6 p Ep) as (pb & Epb & ? & ? & ? & ?). exists pb.
  split; [apply lookup_extend, Epb|]. rewrite (nth_prev_extend p pb) by exact Epb. auto.
Qed.
End Extend.

Lemma index_ok_insert m k v :
  index_ok m -> m !! k = None -> entry_ok (<[k := v]> m) k v -> index_ok (<[k := v]> m).
Proof.
  intros Hm Hk Hv h b E. destruct (decide (h = k)) as [->|Hne].
  - rewrite lookup_insert_eq in E. injection E as <-. exact Hv.
  - rewrite lookup_insert_ne in E by congruence. apply (entry_ok_extend Hm k v Hk h b E).
Qed.

(** The state of the manager: a well-formed index with one root, whose best
    header has the most work of all. *)
Record manager_ok (s : BlockManager) : Prop := {
  mo_index : index_ok (m_block_index s);
  mo_root : forall h b h' b', m_block_index s !! h = Some b -> m_block_index s !! h' = Some b' ->
    pprev b = None -> pprev b' = None -> h = h';
  mo_best_none : m_best_header s = None -> m_block_index s = ∅;
  mo_best : forall h, m_best_header s = Some h -> exists e, m_block_index s !! h = Some e /\
    forall h' b', m_block_index s !! h' = Some b' -> val (nChainWork b') <= val (nChainWork e);
  mo_dirty : m_dirty_blockindex s ⊆ dom (m_block_index s)
}.

Lemma empty_manager_ok : manager_ok empty_manager.
Proof.
  split; cbn.
  - intros h b E. rewrite lookup_empty in E. discriminate.
  - intros h b h' b' E. rewrite lookup_empty in E. discriminate.
  - reflexivity.
  - discriminate.
  - set_solver.
Qed.

Section AddProofs.
Context (GetHash : CBlockHeader -> Z).

(** When the code adds a header: the genesis block to an empty index
    ([LoadGenesisBlock]), any other one once its predecessor was found
    ([AcceptBlockHeader]). *)
Definition may_add (s : BlockManager) (block : CBlockHeader) : Prop :=
  header_ok block /\
  ((m_block_index s = ∅ /\ hdr_hashPrevBlock block <> GetHash block) \/
   exists pb, m_block_index s !! hdr_hashPrevBlock block = Some pb /\ nHeight pb < 2 ^ 31 - 1).

(** The entry [new] added for [block]. *)
Record added (m : BlockMap) (block : CBlockHeader) (new : CBlockIndex) : Prop := {
  ad_prev : pprev new = match m !! hdr_hashPrevBlock block with Some _ => Some (hdr_hashPrevBlock block) | None => None end;
  ad_version : nVersion new = hdr_nVersion block;
  ad_merkle : hashMerkleRoot new = hdr_hashMerkleRoot block;
  ad_time : nTime new = hdr_nTime block;
  ad_bits : nBits new = hdr_nBits block;
  ad_nonce : nNonce new = hdr_nNonce block;
  ad_status : nStatus new = BLOCK_VALID_TREE
}.

Lemma work_ok m h b : index_ok m -> m !! h = Some b -> limbs_ok (nChainWork b).
Proof.
  intros Hm Eh. destruct (Hm h b Eh) as [_ _ _ _ Hroot Hlink]. destruct (pprev b) as [p|].
  - destruct (Hlink p eq_refl) as (pb & _ & _ & _ & _ & [Hw _]). exact Hw.
  - destruct (Hroot eq_refl) as (_ & _ & _ & [Hw _]). exact Hw.
Qed.

Lemma RaiseValidity_fresh b :
  nStatus b = 0 -> RaiseValidity b BLOCK_VALID_TREE = Some (set_status b BLOCK_VALID_TREE, true).
Proof. intros E. unfold RaiseValidity. rewrite E. reflexivity. Qed.

(** Inserting the entry of a block with a predecessor. *)
Lemma add_linked s block pb :
  index_ok (m_block_index s) -> header_ok block -> m_block_index s !! GetHash block = None ->
  m_block_index s !! hdr_hashPrevBlock block = Some pb -> nHeight pb < 2 ^ 31 - 1 ->
  (forall bh, m_best_header s = Some bh -> is_Some (m_block_index s !! bh)) ->
  exists new best, AddToBlockIndex GetHash s block
    = Some (mkBlockManager (<[GetHash block := new]> (m_block_index s)) ({[ GetHash block ]} ∪ m_dirty_blockindex s)
              (Some best), GetHash block) /\
    entry_ok (<[GetHash block := new]> (m_block_index s)) (GetHash block) new /\ added (m_block_index s) block new /\
    match m_best_header s with
    | None => best = GetHash block
    | Some bh => exists e, m_block_index s !! bh = Some e /\
        best = if CompareTo (nChainWork e) (nChainWork new) <? 0 then GetHash block else bh
    end.
Proof.
  set (m := m_block_index s). set (hash := GetHash block). set (hp := hdr_hashPrevBlock block).
  intros Hm [Htime Hbits] Hfresh Eprev Hh Hbest. assert (hp <> hash) as Hne by congruence.
  destruct (Hm hp pb Eprev) as [_ Hpb _ _ _ _].
  destruct (GetBitsProof_spec (hdr_nBits block) Hbits) as (proof & Eproof & Rproof).
  destruct (GetSkipHeight_range (nHeight pb + 1)) as [Hs0 Hs1]. specialize (Hs1 ltac:(lia)).
  unfold AddToBlockIndex. fold m hash hp. rewrite Hfresh. rewrite lookup_insert_ne, Eprev by congruence.
  rewrite i32_id by (unfold is_i32; lia). unfold BuildSkip. cbn [set_links pprev nHeight set_hash].
  rewrite insert_insert_eq, (GetAncestor_extend Hm hash _ Hfresh hp pb _ Eprev), (GetAncestor_spec Hm hp pb _ Eprev).
  replace (GetSkipHeight (nHeight pb + 1) >? nHeight pb) with false by lia.
  replace (GetSkipHeight (nHeight pb + 1) <? 0) with false by lia. cbn [orb mbind option_bind].
  unfold GetBlockProof. cbn [set_links nBits set_hash CBlockIndex_of]. rewrite Eproof. cbn [mbind option_bind].
  cbn [set_links pprev]. rewrite !insert_insert_eq, lookup_insert_ne, Eprev by congruence. cbn [mbind option_bind].
  rewrite RaiseValidity_fresh by reflexivity. cbn [mbind option_bind].
  match goal with |- context [set_status ?x ?y] => set (new := set_status x y) end.
  rewrite insert_insert_eq.
  assert (entry_ok (<[hash := new]> m) hash new) as Hnew.
  { split; try reflexivity; try assumption; [cbn; lia|discriminate|].
    intros p Ep. injection Ep as <-. exists pb. cbn. split; [apply lookup_extend; assumption|].
    split; [reflexivity|]. split; [symmetry; apply (nth_prev_extend Hm hash _ Hfresh hp pb _ Eprev)|].
    split; [reflexivity|]. apply rep_add; [apply represents_val, (work_ok m hp pb Hm Eprev)|exact Rproof]. }
  assert (added m block new) as Ha by (split; try reflexivity; fold hp; rewrite Eprev; reflexivity).
  destruct (m_best_header s) as [bh|].
  - destruct (Hbest bh eq_refl) as [e Ee]. rewrite lookup_insert_ne, Ee by congruence. cbn [mbind option_bind].
    eexists new, _. split; [reflexivity|]. split; [exact Hnew|]. split; [exact Ha|]. exists e. split; reflexivity.
  - cbn [mbind option_bind]. eexists new, _. split; [reflexivity|]. auto.
Qed.

(** Inserting the first block. *)
Lemma add_first s block :
  m_block_index s = ∅ -> m_best_header s = None -> header_ok block -> hdr_hashPrevBlock block <> GetHash block ->
  exists new, AddToBlockIndex GetHash s block
    = Some (mkBlockManager {[ GetHash block := new ]} ({[ GetHash block ]} ∪ m_dirty_blockindex s)
              (Some (GetHash block)), GetHash block) /\
    entry_ok {[ GetHash block := new ]} (GetHash block) new /\ added ∅ block new.
Proof.
  intros Em Eb [Htime Hbits] Hne. destruct (GetBitsProof_spec (hdr_nBits block) Hbits) as (proof & Eproof & Rproof).
  unfold AddToBlockIndex. rewrite Em, Eb, lookup_empty. rewrite lookup_insert_ne, lookup_empty by congruence.
  cbn [mbind option_bind]. unfold GetBlockProof. cbn [nBits set_hash CBlockIndex_of]. rewrite Eproof.
  cbn [mbind option_bind set_hash pprev CBlockIndex_of]. rewrite RaiseValidity_fresh by reflexivity.
  cbn [mbind option_bind].
  rewrite !insert_insert_eq, insert_empty. eexists. split; [reflexivity|]. split.
  - split; try reflexivity; try assumption; [cbn; lia| |discriminate].
    intros _. cbn. split; [reflexivity|]. split; [reflexivity|]. split; [reflexivity|].
    assert (is_u64 0) as H0 by (unfold is_u64; lia).
    apply (rep_change (rep_add (rep_of_u64 0 H0) Rproof)). apply Z.mod_small, (rep_bound Rproof).
  - split; reflexivity.
Qed.

Lemma best_after s block new best :
  manager_ok s -> m_block_index s !! GetHash block = None -> limbs_ok (nChainWork new) ->
  match m_best_header s with
  | None => best = GetHash block
  | Some bh => exists e, m_block_index s !! bh = Some e /\
      best = if CompareTo (nChainWork e) (nChainWork new) <? 0 then GetHash block else bh
  end ->
  exists e, <[GetHash block := new]> (m_block_index s) !! best = Some e /\
    forall h' b', <[GetHash block := new]> (m_block_index s) !! h' = Some b' -> val (nChainWork b') <= val (nChainWork e).
Proof.
  intros [Hm _ Hnone Hb _] Hfresh Hnew H. destruct (m_best_header s) as [bh|].
  - destruct H as (e & Ee & ->). destruct (Hb bh eq_refl) as (e' & Ee' & Hmax). rewrite Ee in Ee'. injection Ee' as <-.
    rewrite CompareTo_spec by (exact Hnew || exact (work_ok _ bh e Hm Ee)). rewrite Z.gtb_ltb.
    destruct (Z.ltb_spec (val (nChainWork e)) (val (nChainWork new))) as [Hlt|Hge].
    + exists new. change (-1 <? 0) with true. rewrite lookup_insert_eq. split; [reflexivity|]. intros h' b' E.
      destruct (decide (h' = GetHash block)) as [->|]; [rewrite lookup_insert_eq in E; injection E as <-; lia|].
      rewrite lookup_insert_ne in E by congruence. specialize (Hmax h' b' E). lia.
    + exists e. destruct (Z.ltb_spec (val (nChainWork new)) (val (nChainWork e)));
      (cbn [Z.ltb Z.compare]; rewrite lookup_insert_ne by congruence; split; [exact Ee|]; intros h' b' E;
       destruct (decide (h' = GetHash block)) as [->|]; [rewrite lookup_insert_eq in E; injection E as <-; lia|];
       rewrite lookup_insert_ne in E by congruence; exact (Hmax h' b' E)).
  - subst best. exists new. rewrite lookup_insert_eq. split; [reflexivity|]. intros h' b' E.
    destruct (decide (h' = GetHash block)) as [->|]; [rewrite lookup_insert_eq in E; injection E as <-; lia|].
    rewrite lookup_insert_ne, (Hnone eq_refl), lookup_empty in E by congruence. discriminate.
Qed.

Lemma AddToBlockIndex_hash s block s' h : AddToBlockIndex GetHash s block = Some (s', h) -> h = GetHash block.
Proof.
  unfold AddToBlockIndex. destruct (m_block_index s !! GetHash block); intros E; [congruence|].
  apply bind_Some in E as (? & _ & E). apply bind_Some in E as (? & _ & E). apply bind_Some in E as (? & _ & E).
  apply bind_Some in E as ([] & _ & E). apply bind_Some in E as (? & _ & E). congruence.
Qed.

(** One call: it succeeds, keeps the state well formed, leaves every entry
    that was there and adds the one of the header. *)
Lemma AddToBlockIndex_ok s block :
  manager_ok s -> may_add s block ->
  exists s', AddToBlockIndex GetHash s block = Some (s', GetHash block) /\ manager_ok s' /\
    (is_Some (m_block_index s !! GetHash block) -> s' = s) /\
    (m_block_index s !! GetHash block = None -> exists new, m_block_index s' = <[GetHash block := new]> (m_block_index s) /\
       added (m_block_index s) block new).
Proof.
  intros Hs [Hhdr Hadd]. destruct (m_block_index s !! GetHash block) as [b0|] eqn:Hfresh.
  { exists s. unfold AddToBlockIndex. rewrite Hfresh. split; [reflexivity|]. split; [exact Hs|].
    split; [reflexivity|discriminate]. }
  pose proof Hs as [Hm Hroot Hnone Hb Hd]. destruct Hadd as [[Hempty Hne]|(pb & Eprev & Hh)].
  - assert (m_best_header s = None) as Eb.
    { destruct (m_best_header s) as [bh|]; [|reflexivity]. destruct (Hb bh eq_refl) as (e & Ee & _).
      rewrite Hempty, lookup_empty in Ee. discriminate. }
    destruct (add_first s block Hempty Eb Hhdr Hne) as (new & E & Hnew & Ha). eexists. split; [exact E|].
    rewrite Hempty in *. rewrite <- insert_empty in *. split; [split; cbn [m_block_index m_best_header m_dirty_blockindex]|].
    + apply index_ok_insert; assumption.
    + intros h b h' b' E1 E2 _ _. apply lookup_insert_Some in E1 as [[<- _]|[_ E1]]; [|rewrite lookup_empty in E1; discriminate].
      apply lookup_insert_Some in E2 as [[<- _]|[_ E2]]; [reflexivity|rewrite lookup_empty in E2; discriminate].
    + discriminate.
    + intros h Eh. injection Eh as <-. exists new. rewrite lookup_insert_eq. split; [reflexivity|].
      intros h' b' E1. apply lookup_insert_Some in E1 as [[_ <-]|[_ E1]]; [lia|rewrite lookup_empty in E1; discriminate].
    + rewrite dom_insert. apply union_mono_l, Hd.
    + split; [intros []; discriminate|]. intros _. exists new. split; [reflexivity|exact Ha].
  - destruct (add_linked s block pb Hm Hhdr Hfresh Eprev Hh) as (new & best & E & Hnew & Ha & Hbest).
    { intros bh Ebh. destruct (Hb bh Ebh) as (e & Ee & _). eauto. }
    eexists. split; [exact E|]. split; [split; cbn [m_block_index m_best_header m_dirty_blockindex]|].
    + apply index_ok_insert; assumption.
    + assert (pprev new <> None) as Hp by (rewrite (ad_prev _ _ _ Ha), Eprev; discriminate).
      intros h b h' b' E1 E2 P1 P2. apply lookup_insert_Some in E1 as [[_ <-]|[_ E1]]; [contradiction|].
      apply lookup_insert_Some in E2 as [[_ <-]|[_ E2]]; [contradiction|]. exact (Hroot h b h' b' E1 E2 P1 P2).
    + discriminate.
    + intros h Eh. injection Eh as <-. apply (best_after s block new best); try assumption.
      pose proof (index_ok_insert _ _ _ Hm Hfresh Hnew) as Hi. apply (work_ok _ (GetHash block) new Hi), lookup_insert_eq.
    + rewrite dom_insert. apply union_mono_l, Hd.
    + split; [intros []; discriminate|]. intros _. exists new. split; [reflexivity|exact Ha].
Qed.
End AddProofs.

(** ** The last common ancestor *)

Definition is_ancestor (m : BlockMap) (x h : Z) : Prop := exists n, nth_prev m h n = Some x.
(** The walks from [pa] and [pb] meet for the first time at [r]. *)
Definition meet (m : BlockMap) (pa pb : Z) (r : option Z) : Prop :=
  exists j, nth_prev m pa j = r /\ nth_prev m pb j = r /\ forall i, (i < j)%nat -> nth_prev m pa i <> nth_prev m pb i.

Lemma nth_prev_met m pa pb i j : (i <= j)%nat -> nth_prev m pa i = nth_prev m pb i -> nth_prev m pa j = nth_prev m pb j.
Proof. intros Hij E. replace j with (i + (j - i))%nat by lia. rewrite !nth_prev_add, E. reflexivity. Qed.

Lemma meet_later m pa pb j x y r :
  nth_prev m pa j = Some x -> nth_prev m pb j = Some y -> x <> y -> meet m x y r -> meet m pa pb r.
Proof.
  intros Ex Ey Hne (i & E1 & E2 & Hlt). exists (j + i)%nat. rewrite !nth_prev_add, Ex, Ey. split; [exact E1|].
  split; [exact E2|]. intros k Hk E. destruct (le_lt_dec k j) as [Hle|Hgt].
  - apply (nth_prev_met m pa pb k j Hle) in E. congruence.
  - apply (Hlt (k - j)%nat); [lia|]. replace k with (j + (k - j))%nat in E by lia.
    rewrite !nth_prev_add, Ex, Ey in E. exact E.
Qed.

Section Forks.
Context {m : BlockMap} (Hm : index_ok m).

Lemma nth_prev_height h b n x :
  m !! h = Some b -> nth_prev m h n = Some x -> exists bx, m !! x = Some bx /\ nHeight b = nHeight bx + Z.of_nat n.
Proof using Hm.
  intros Eh Ex. destruct (Z.le_gt_cases (Z.of_nat n) (nHeight b)) as [Hle|Hgt].
  - destruct (nth_prev_exists Hm h b n Eh Hle) as (x' & bx & E & Ebx & Hh). rewrite Ex in E. injection E as <-.
    exists bx. split; [exact Ebx|lia].
  - rewrite (nth_prev_none Hm h b n Eh Hgt) in Ex. discriminate.
Qed.
Lemma root_height h b : m !! h = Some b -> nHeight b = 0 <-> pprev b = None.
Proof using Hm.
  intros Eh. destruct (Hm h b Eh) as [_ _ _ _ Hroot Hlink]. destruct (pprev b) as [p|].
  - destruct (Hlink p eq_refl) as (pb & Epb & E & _). destruct (Hm p pb Epb) as [_ ? _ _ _ _]. split; [lia|discriminate].
  - split; [reflexivity|]. intros _. apply (Hroot eq_refl).
Qed.
Lemma skip_step h b :
  m !! h = Some b -> 1 <= nHeight b ->
  exists s bs, pskip b = Some s /\ m !! s = Some bs /\ nHeight bs = GetSkipHeight (nHeight b) /\
    nth_prev m h (Z.to_nat (nHeight b - GetSkipHeight (nHeight b))) = Some s.
Proof using Hm.
  intros Eh Hpos. pose proof (GetSkipHeight_range (nHeight b)) as [Hs0 Hs1].
  destruct (nth_prev_exists Hm h b (Z.to_nat (nHeight b - GetSkipHeight (nHeight b))) Eh ltac:(lia))
    as (x & bx & Ex & Ebx & Hbx).
  exists x, bx. rewrite (skip_is_ancestor Hm h b Eh Hpos), Ex. repeat split; [exact Ebx|lia].
Qed.

Lemma LastCommonAncestor_skip_spec fuel pa pb a b :
  m !! pa = Some a -> m !! pb = Some b -> nHeight a = nHeight b -> pa <> pb -> nHeight a <= Z.of_nat fuel ->
  exists x y bx byy j, LastCommonAncestor_skip fuel m pa pb = Some (x, y) /\ x <> y /\
    nth_prev m pa j = Some x /\ nth_prev m pb j = Some y /\ m !! x = Some bx /\ m !! y = Some byy /\
    nHeight bx = nHeight byy /\ nHeight bx <= nHeight a.
Proof using Hm.
  revert pa pb a b. induction fuel as [|fuel IH]; intros pa pb a b Ea Eb Hh Hne Hf;
    cbn [LastCommonAncestor_skip]; rewrite Ea, Eb; cbn [mbind option_bind];
    (destruct (decide (pskip a = pskip b)) as [E|E];
     [exists pa, pb, a, b, 0%nat; repeat split; try assumption; lia|]).
  - exfalso. apply E. destruct (Hm pa a Ea) as [_ Ha _ _ Hra _], (Hm pb b Eb) as [_ Hb _ _ Hrb _].
    destruct (Hra ltac:(apply (root_height pa a Ea); lia)) as (_ & -> & _).
    destruct (Hrb ltac:(apply (root_height pb b Eb); lia)) as (_ & -> & _). reflexivity.
  - destruct (Hm pa a Ea) as [_ Ha _ _ Hra _], (Hm pb b Eb) as [_ Hb _ _ Hrb _].
    assert (1 <= nHeight a) as Hpos.
    { destruct (Z.eq_dec (nHeight a) 0) as [E0|]; [exfalso; apply E|lia].
      destruct (Hra ltac:(apply (root_height pa a Ea); lia)) as (_ & -> & _).
      destruct (Hrb ltac:(apply (root_height pb b Eb); lia)) as (_ & -> & _). reflexivity. }
    destruct (skip_step pa a Ea Hpos) as (sa & bsa & Esa & Ebsa & Hsa & Wa).
    destruct (skip_step pb b Eb ltac:(lia)) as (sb & bsb & Esb & Ebsb & Hsb & Wb).
    rewrite Esa, Esb in *. cbn [mbind option_bind]. rewrite <- Hh in *.
    pose proof (GetSkipHeight_range (nHeight a)) as [_ Hs]. specialize (Hs Hpos).
    destruct (IH sa sb bsa bsb Ebsa Ebsb ltac:(congruence) ltac:(congruence) ltac:(lia))
      as (x & y & bx & byy & j & E1 & E2 & E3 & E4 & E5 & E6 & E7 & E8).
    exists x, y, bx, byy, (Z.to_nat (nHeight a - GetSkipHeight (nHeight a)) + j)%nat.
    rewrite !nth_prev_add, Wa, Wb. repeat split; try assumption. lia.
Qed.

Lemma LastCommonAncestor_loop_spec fuel pa pb a b :
  m !! pa = Some a -> m !! pb = Some b -> nHeight a = nHeight b -> nHeight a < Z.of_nat fuel ->
  exists r, LastCommonAncestor_loop fuel m (Some pa) (Some pb) = Some r /\ meet m pa pb r.
Proof using Hm.
  revert pa pb a b. induction fuel as [|fuel IH]; intros pa pb a b Ea Eb Hh Hf; destruct (Hm pa a Ea) as [_ Ha _ _ _ _];
    [lia|]. cbn [LastCommonAncestor_loop].
  destruct (decide (Some pa = Some pb)) as [E|E].
  { injection E as <-. exists (Some pa). split; [reflexivity|]. exists 0%nat. repeat split. lia. }
  cbn [mbind option_bind].
  destruct (LastCommonAncestor_skip_spec (S fuel) pa pb a b Ea Eb Hh ltac:(congruence) ltac:(lia))
    as (x & y & bx & byy & j & -> & Hne & Wx & Wy & Ex & Ey & Hxy & Hle).
  cbn [mbind option_bind]. rewrite Ex, Ey. cbn [mbind option_bind].
  enough (exists r, LastCommonAncestor_loop fuel m (pprev bx) (pprev byy) = Some r /\ meet m x y r) as (r & -> & Hr).
  { exists r. split; [reflexivity|]. exact (meet_later m pa pb j x y r Wx Wy Hne Hr). }
  pose proof (root_height x bx Ex) as Rx. pose proof (root_height y byy Ey) as Ry.
  destruct (Hm x bx Ex) as [_ Hbx _ _ _ Hlx], (Hm y byy Ey) as [_ _ _ _ _ Hly].
  destruct (pprev bx) as [px|] eqn:Epx, (pprev byy) as [py|] eqn:Epy.
  - destruct (Hlx px eq_refl) as (bpx & Ebpx & H1 & _), (Hly py eq_refl) as (bpy & Ebpy & H2 & _).
    destruct (IH px py bpx bpy Ebpx Ebpy ltac:(lia) ltac:(lia)) as (r & -> & i & E1 & E2 & Hlt).
    exists r. split; [reflexivity|]. exists (S i). rewrite (nth_prev_S m x bx px i Ex Epx), (nth_prev_S m y byy py i Ey Epy).
    split; [exact E1|]. split; [exact E2|]. intros [|k] Hk; [cbn; congruence|].
    rewrite (nth_prev_S m x bx px k Ex Epx), (nth_prev_S m y byy py k Ey Epy). apply Hlt. lia.
  - destruct Ry as [_ Ry]. specialize (Ry eq_refl). destruct Rx as [Rx _]. rewrite Hxy in Rx. discriminate (Rx Ry).
  - destruct Rx as [_ Rx]. specialize (Rx eq_refl). destruct Ry as [Ry _]. rewrite <- Hxy in Ry. discriminate (Ry Rx).
  - exists None. split; [destruct fuel; reflexivity|]. exists 1%nat. cbn [nth_prev]. rewrite Ex, Ey. cbn. rewrite Epx, Epy.
    split; [reflexivity|]. split; [reflexivity|]. intros [|k] Hk; [cbn; congruence|lia].
Qed.

(** Both pointers rewound to the lower of the two heights. *)
Lemma rewind pa pb a b :
  m !! pa = Some a -> m !! pb = Some b ->
  exists x y bx byy i k, LastCommonAncestor m pa pb = LastCommonAncestor_loop (S (Z.to_nat (nHeight a))) m (Some x) (Some y) /\
    nth_prev m pa i = Some x /\ nth_prev m pb k = Some y /\ m !! x = Some bx /\ m !! y = Some byy /\
    nHeight bx = Z.min (nHeight a) (nHeight b) /\ nHeight byy = Z.min (nHeight a) (nHeight b).
Proof using Hm.
  intros Ea Eb. destruct (Hm pa a Ea) as [_ Ha _ _ _ _], (Hm pb b Eb) as [_ Hb _ _ _ _].
  unfold LastCommonAncestor. rewrite Ea, Eb. cbn [mbind option_bind]. rewrite !Z.gtb_ltb.
  destruct (Z.ltb_spec (nHeight b) (nHeight a)) as [Hlt|Hge]; cbn [negb andb].
  - destruct (nth_prev_exists Hm pa a (Z.to_nat (nHeight a - nHeight b)) Ea ltac:(lia)) as (x & bx & Wx & Ex & Hx).
    rewrite (GetAncestor_spec Hm pa a _ Ea). replace ((nHeight b >? nHeight a) || (nHeight b <? 0)) with false by lia.
    rewrite Wx. exists x, pb, bx, b, (Z.to_nat (nHeight a - nHeight b)), 0%nat. repeat split; try assumption; lia.
  - destruct (Z.ltb_spec (nHeight a) (nHeight b)) as [Hlt|Hge'].
    + destruct (nth_prev_exists Hm pb b (Z.to_nat (nHeight b - nHeight a)) Eb ltac:(lia)) as (y & byy & Wy & Ey & Hy).
      cbn [mbind option_bind]. rewrite (GetAncestor_spec Hm pb b _ Eb).
      replace ((nHeight a >? nHeight b) || (nHeight a <? 0)) with false by lia.
      rewrite Wy. exists pa, y, a, byy, 0%nat, (Z.to_nat (nHeight b - nHeight a)). repeat split; try assumption; lia.
    + exists pa, pb, a, b, 0%nat, 0%nat. repeat split; try assumption; lia.
Qed.
End Forks.

Lemma LastCommonAncestor_spec m pa pb a b :
  index_ok m ->
  (forall h b h' b', m !! h = Some b -> m !! h' = Some b' -> pprev b = None -> pprev b' = None -> h = h') ->
  m !! pa = Some a -> m !! pb = Some b ->
  exists c, LastCommonAncestor m pa pb = Some (Some c) /\ is_ancestor m c pa /\ is_ancestor m c pb /\
    forall z, is_ancestor m z pa -> is_ancestor m z pb -> is_ancestor m z c.
Proof.
  intros Hm Hroot Ea Eb. destruct (Hm pa a Ea) as [_ Ha _ _ _ _], (Hm pb b Eb) as [_ Hb _ _ _ _].
  destruct (rewind Hm pa pb a b Ea Eb) as (x & y & bx & byy & i & k & -> & Wx & Wy & Ex & Ey & Hx & Hy).
  destruct (LastCommonAncestor_loop_spec Hm (S (Z.to_nat (nHeight a))) x y bx byy Ex Ey ltac:(lia) ltac:(lia))
    as (r & -> & j & E1 & E2 & Hlt).
  destruct (Hm x bx Ex) as [_ Hbx _ _ _ _].
  destruct (nth_prev_exists Hm x bx (Z.to_nat (nHeight bx)) Ex ltac:(lia)) as (rx & brx & Wrx & Erx & Hrx).
  destruct (nth_prev_exists Hm y byy (Z.to_nat (nHeight bx)) Ey ltac:(lia)) as (ry & bry & Wry & Ery & Hry).
  assert (rx = ry) as <-.
  { apply (Hroot rx brx ry bry Erx Ery); [apply (root_height Hm rx brx Erx)|apply (root_height Hm ry bry Ery)]; lia. }
  assert (forall n, nth_prev m x n = nth_prev m y n -> (j <= n)%nat) as Hmin.
  { intros n En. destruct (le_lt_dec j n) as [|Hn]; [assumption|]. exfalso. exact (Hlt n Hn En). }
  pose proof (Hmin (Z.to_nat (nHeight bx)) ltac:(congruence)) as Hj.
  destruct (nth_prev_exists Hm x bx j Ex ltac:(lia)) as (c & bc & Wc & Ec & Hc). rewrite Wc in E1. subst r.
  exists c. split; [reflexivity|]. split; [exists (i + j)%nat; rewrite nth_prev_add, Wx; exact Wc|].
  split; [exists (k + j)%nat; rewrite nth_prev_add, Wy; exact E2|]. intros z [ia Wza] [ib Wzb].
  destruct (nth_prev_height Hm pa a ia z Ea Wza) as (bz & Ez & Hza). destruct (Hm z bz Ez) as [_ Hz0 _ _ _ _].
  destruct (nth_prev_height Hm pb b ib z Eb Wzb) as (bz' & Ez' & Hzb). rewrite Ez in Ez'. injection Ez' as <-.
  destruct (nth_prev_height Hm pa a i x Ea Wx) as (bx' & Ebx' & Hix). rewrite Ex in Ebx'. injection Ebx' as <-.
  destruct (nth_prev_height Hm pb b k y Eb Wy) as (by' & Eby' & Hky). rewrite Ey in Eby'. injection Eby' as <-.
  assert (nth_prev m x (ia - i) = Some z) as Wxz.
  { replace ia with (i + (ia - i))%nat in Wza by lia. rewrite nth_prev_add, Wx in Wza. exact Wza. }
  assert (nth_prev m y (ia - i) = Some z) as Wyz.
  { replace ib with (k + (ib - k))%nat in Wzb by lia. rewrite nth_prev_add, Wy in Wzb.
    replace (ia - i)%nat with (ib - k)%nat by lia. exact Wzb. }
  exists (ia - i - j)%nat. pose proof (Hmin (ia - i)%nat ltac:(congruence)).
  replace (ia - i)%nat with (j + (ia - i - j))%nat in Wxz by lia. rewrite nth_prev_add, Wc in Wxz. exact Wxz.
Qed.

(** ** Median time past *)

Definition below (v : Z) (l : list Z) : nat := length (filter (fun x => x < v) l).
(** The rank of an element of a sorted list. *)
Lemma sorted_rank l k v :
  StronglySorted (≤)%Z l -> (k < length l)%nat -> (below v l <= k)%nat <-> v <= l !!! k.
Proof.
  intros Hs. revert k. induction Hs as [|x l Hs IH Hall]; intros k Hk; cbn [length] in Hk; [lia|].
  unfold below in *. rewrite filter_cons. destruct (decide (x < v)) as [Hlt|Hge].
  - destruct k as [|k]; cbn [length]; [cbn; lia|]. change ((x :: l) !!! S k) with (l !!! k). rewrite <- IH by lia. lia.
  - assert (filter (fun y => y < v) l = []) as ->.
    { clear IH Hk. induction Hall as [|y l Hy Hall IH']; [reflexivity|]. rewrite filter_cons, decide_False by lia.
      apply IH'. inversion Hs; assumption. }
    cbn [length]. split; [intros _|lia]. destruct k as [|k]; [cbn; lia|]. change ((x :: l) !!! S k) with (l !!! k).
    rewrite Forall_lookup in Hall. assert (x <= l !!! k); [|lia]. apply (Hall k). apply list_lookup_lookup_total_lt. lia.
Qed.
Definition median (l : list Z) : Z := sort l !!! (length l / 2)%nat.
Lemma median_rank l v : l <> [] -> (below v l <= length l / 2)%nat <-> v <= median l.
Proof.
  intros Hl. unfold median. assert (length (sort l) = length l) as El by (apply Permutation_length, merge_sort_Permutation).
  assert (0 < length l)%nat by (destruct l; [contradiction|cbn; lia]).
  rewrite <- (sorted_rank (sort l)).
  - unfold below, sort. rewrite merge_sort_Permutation. reflexivity.
  - apply StronglySorted_merge_sort; apply _.
  - rewrite El. apply Nat.div_lt; lia.
Qed.
(** Dropping the oldest time and appending one past the median never lowers
    the median. *)
Lemma median_slide l0 l1 t :
  (l1 = l0 \/ exists x, l1 = x :: l0) -> l1 <> [] -> median l1 <= t -> median l1 <= median (l0 ++ [t]).
Proof.
  intros Hl Hne Ht. apply median_rank; [destruct l0; discriminate|].
  assert (below (median l1) l1 <= length l1 / 2)%nat as Hr by (apply median_rank; [exact Hne|lia]).
  set (v := median l1) in *. clearbody v.
  assert (below v (l0 ++ [t]) <= below v l1)%nat as Hb.
  { unfold below. rewrite filter_app, length_app, filter_cons, decide_False, filter_nil by lia. cbn [length].
    destruct Hl as [->|[x ->]]; [lia|]. rewrite filter_cons. destruct (decide (x < v)); cbn [length]; lia. }
  assert (length l1 / 2 <= length (l0 ++ [t]) / 2)%nat; [|lia]. apply Nat.Div0.div_le_mono.
  rewrite length_app. cbn [length]. destruct Hl as [->|[x ->]]; cbn [length]; lia.
Qed.

Lemma median_times_prefix m h b n :
  index_ok m -> m !! h = Some b ->
  exists l0 l1, median_times n m (Some h) = Some l0 /\ median_times (S n) m (Some h) = Some l1 /\
    (l1 = l0 \/ exists x, l1 = x :: l0) /\ l1 <> [].
Proof.
  intros Hm. revert h b. induction n as [|n IH]; intros h b Eh.
  - exists [], [GetBlockTime b]. cbn [median_times]. rewrite Eh. cbn. destruct (pprev b); cbn; eauto 10.
  - destruct (Hm h b Eh) as [_ _ _ _ _ Hlink]. cbn [median_times]. rewrite Eh. cbn [mbind option_bind].
    destruct (pprev b) as [p|].
    + destruct (Hlink p eq_refl) as (pb & Epb & _). destruct (IH p pb Epb) as (l0 & l1 & E0 & E1 & Hl & Hne).
      cbn [median_times] in E1. rewrite E0, E1. cbn [mbind option_bind]. eexists _, _. split; [reflexivity|]. split; [reflexivity|].
      split; [|destruct l1; discriminate]. destruct Hl as [->|[x ->]]; [left; reflexivity|right; exists x; reflexivity].
    + exists [GetBlockTime b], [GetBlockTime b]. destruct n; cbn; eauto 10.
Qed.
Lemma GetMedianTimePast_total m h b : index_ok m -> m !! h = Some b -> is_Some (GetMedianTimePast m h).
Proof.
  intros Hm Eh. unfold GetMedianTimePast. destruct (median_times_prefix m h b 10 Hm Eh) as (l0 & l1 & _ & E & _).
  unfold nMedianTimeSpan. rewrite E. cbn. eauto.
Qed.
Lemma GetMedianTimePast_mono m h b p t :
  index_ok m -> m !! h = Some b -> pprev b = Some p -> GetMedianTimePast m p = Some t -> t < nTime b ->
  exists t', GetMedianTimePast m h = Some t' /\ t <= t'.
Proof.
  intros Hm Eh Ep Et Hlt. destruct (eo_link _ _ _ (Hm h b Eh) p Ep) as (pb & Epb & _).
  destruct (median_times_prefix m p pb 10 Hm Epb) as (l0 & l1 & E0 & E1 & Hl & Hne).
  unfold GetMedianTimePast, nMedianTimeSpan in *. rewrite E1 in Et. injection Et as <-.
  change (median_times 11 m (Some h)) with (b ← m !! h; rest ← median_times 10 m (pprev b); Some (rest ++ [GetBlockTime b])).
  rewrite Eh. cbn [mbind option_bind]. rewrite Ep, E0. cbn [mbind option_bind]. eexists. split; [reflexivity|].
  apply (median_slide l0 l1 (GetBlockTime b) Hl Hne). change (median l1 < nTime b) in Hlt. unfold GetBlockTime. lia.
Qed.

(** ** The component *)

(** The states [AddToBlockIndex] builds from an empty index. *)
Inductive reachable (GetHash : CBlockHeader -> Z) : BlockManager -> Prop :=
  | reach_empty : reachable GetHash empty_manager
  | reach_add s block s' h :
      reachable GetHash s -> may_add GetHash s block -> AddToBlockIndex GetHash s block = Some (s', h) ->
      reachable GetHash s'.

Lemma reachable_ok GetHash s : reachable GetHash s -> manager_ok s.
Proof.
  induction 1 as [|s block s' h _ IH Hadd E]; [apply empty_manager_ok|].
  destruct (AddToBlockIndex_ok GetHash s block IH Hadd) as (s'' & E' & Hs & _). congruence.
Qed.

(** A header whose predecessor is the entry [p] of a state. *)
Lemma may_add_child GetHash s block :
  header_ok block -> (exists pb, m_block_index s !! hdr_hashPrevBlock block = Some pb /\ nHeight pb < 2 ^ 31 - 1) ->
  may_add GetHash s block.
Proof. intros H1 H2. split; [exact H1|]. right. exact H2. Qed.

Definition may_addb (GetHash : CBlockHeader -> Z) (s : BlockManager) (block : CBlockHeader) : bool :=
  (0 <=? hdr_nTime block) && (hdr_nTime block <? 2 ^ 32) && (0 <=? hdr_nBits block) && (hdr_nBits block <? 2 ^ 32) &&
  ((size (m_block_index s) =? 0)%nat && negb (hdr_hashPrevBlock block =? GetHash block) ||
   match m_block_index s !! hdr_hashPrevBlock block with Some pb => nHeight pb <? 2 ^ 31 - 1 | None => false end).
Lemma may_addb_sound GetHash s block : may_addb GetHash s block = true -> may_add GetHash s block.
Proof.
  unfold may_addb. rewrite !andb_true_iff, orb_true_iff. intros ((((H1 & H2) & H3) & H4) & H5).
  split; [split; unfold is_u32; lia|]. destruct H5 as [H5|H5]; [left|right].
  { apply andb_true_iff in H5 as [H5 H6]. apply Nat.eqb_eq, map_size_empty_inv in H5. split; [exact H5|lia]. }
  destruct (m_block_index s !! hdr_hashPrevBlock block) as [pb|]; [|discriminate]. exists pb. split; [reflexivity|lia].
Qed.
Lemma index_build GetHash l s :
  reachable GetHash s ->
  (fix go l s := match l with
                 | [] => true
                 | b :: l => may_addb GetHash s b && match AddToBlockIndex GetHash s b with Some (s, _) => go l s | None => false end
                 end) l s = true ->
  reachable GetHash (foldl (fun s b => match AddToBlockIndex GetHash s b with Some (s, _) => s | None => s end) s l).
Proof.
  revert s. induction l as [|b l IH]; intros s Hs; [auto|]. rewrite andb_true_iff. intros [Hb Hl]. cbn [foldl].
  destruct (AddToBlockIndex GetHash s b) as [[s' h]|] eqn:E; [|discriminate]. apply IH; [|exact Hl].
  exact (reach_add _ s b s' h Hs (may_addb_sound GetHash s b Hb) E).
Qed.
Lemma toy_reachable : reachable toy_hash toy_manager.
Proof. apply index_build; [apply reach_empty|vm_compute; reflexivity]. Qed.

(** C37: The invariant of the block index: in every state that adding headers
    to an empty index reaches, heights count the steps to the only root,
    skip pointers lead to the ancestor at [GetSkipHeight], [nTimeMax] and
    [nChainWork] are the maximum and the sum (modulo [2^256]) along the
    chain, the best header has the most work of all entries; and the next
    call to [AddToBlockIndex] returns (no assertion fails, no null pointer
    is read), keeps the entries it finds and adds at most the one asked for. *)
Theorem block_index_invariant GetHash s block :
  reachable GetHash s -> may_add GetHash s block ->
  manager_ok s /\
  exists s', AddToBlockIndex GetHash s block = Some (s', GetHash block) /\ reachable GetHash s' /\
    (is_Some (m_block_index s !! GetHash block) -> s' = s) /\
    (m_block_index s !! GetHash block = None -> exists new,
       m_block_index s' = <[GetHash block := new]> (m_block_index s) /\ added (m_block_index s) block new).
Proof.
  intros Hs Hadd. pose proof (reachable_ok GetHash s Hs) as Hok. split; [exact Hok|].
  destruct (AddToBlockIndex_ok GetHash s block Hok Hadd) as (s' & E & _ & H1 & H2).
  exists s'. split; [exact E|]. split; [exact (reach_add GetHash s block s' _ Hs Hadd E)|]. split; [exact H1|exact H2].
Qed.
Lemma block_index_invariant_witness :
  exists s', AddToBlockIndex toy_hash toy_manager (toy_header 1009 30) = Some (s', 1030) /\ reachable toy_hash s'.
Proof.
  destruct (block_index_invariant toy_hash toy_manager (toy_header 1009 30)) as (_ & s' & E & Hs & _).
  - exact toy_reachable.
  - apply may_addb_sound. vm_compute. reflexivity.
  - exists s'. split; [exact E|exact Hs].
Defined.

(** C38: [GetAncestor] with skip pointers finds the ancestor that following
    [pprev] one block at a time finds, for every entry and height of every
    reachable index, and [nullptr] exactly for heights outside the chain;
    the loop ends within [nHeight] iterations. *)
Theorem GetAncestor_correct GetHash s h b height :
  reachable GetHash s -> m_block_index s !! h = Some b ->
  GetAncestor (m_block_index s) h height
  = Some (if (height >? nHeight b) || (height <? 0) then None
          else nth_prev (m_block_index s) h (Z.to_nat (nHeight b - height))) /\
  (0 <= height <= nHeight b -> exists x bx, GetAncestor (m_block_index s) h height = Some (Some x) /\
     m_block_index s !! x = Some bx /\ nHeight bx = height).
Proof.
  intros Hs Eh. apply reachable_ok, mo_index in Hs. split; [apply (GetAncestor_spec Hs h b height Eh)|].
  intros Hh. rewrite (GetAncestor_spec Hs h b height Eh).
  replace ((height >? nHeight b) || (height <? 0)) with false by lia.
  destruct (nth_prev_exists Hs h b (Z.to_nat (nHeight b - height)) Eh ltac:(lia)) as (x & bx & -> & Ex & Hx).
  exists x, bx. split; [reflexivity|]. split; [exact Ex|lia].
Qed.
Lemma GetAncestor_correct_witness :
  exists x bx, GetAncestor (m_block_index toy_manager) 1009 4 = Some (Some x) /\
    m_block_index toy_manager !! x = Some bx /\ nHeight bx = 4.
Proof.
  destruct (m_block_index toy_manager !! 1009) as [b|] eqn:E; [|vm_compute in E; discriminate].
  apply (GetAncestor_correct toy_hash toy_manager 1009 b 4); [exact toy_reachable|exact E|].
  vm_compute in E. injection E as <-. cbn. lia.
Defined.

(** [LastCommonAncestor] of two entries of a reachable index returns, and
    returns their last common ancestor: an ancestor of both of which every
    common ancestor is an ancestor. *)
Theorem LastCommonAncestor_greatest GetHash s pa pb :
  reachable GetHash s -> is_Some (m_block_index s !! pa) -> is_Some (m_block_index s !! pb) ->
  exists c, LastCommonAncestor (m_block_index s) pa pb = Some (Some c) /\
    is_ancestor (m_block_index s) c pa /\ is_ancestor (m_block_index s) c pb /\
    forall z, is_ancestor (m_block_index s) z pa -> is_ancestor (m_block_index s) z pb -> is_ancestor (m_block_index s) z c.
Proof.
  intros Hs [a Ea] [b Eb]. apply reachable_ok in Hs as [Hm Hroot _ _ _].
  exact (LastCommonAncestor_spec _ pa pb a b Hm Hroot Ea Eb).
Qed.
Lemma LastCommonAncestor_greatest_witness :
  exists c, LastCommonAncestor (m_block_index toy_manager) 1009 1022 = Some (Some c) /\
    is_ancestor (m_block_index toy_manager) c 1009 /\ is_ancestor (m_block_index toy_manager) c 1022.
Proof.
  destruct (LastCommonAncestor_greatest toy_hash toy_manager 1009 1022) as (c & E & H1 & H2 & _).
  - exact toy_reachable.
  - vm_compute. eauto.
  - vm_compute. eauto.
  - exists c. auto.
Defined.

(** The work of a target: on every 32-bit [nBits] the digit arithmetic of
    [GetBitsProof] returns without a division by zero; for a target [t] that
    is neither negative, zero nor too large it is the expected number of
    attempts [2^256 / (t + 1)], and otherwise zero; an easier target never
    counts for more work. *)
Theorem GetBitsProof_exact c :
  is_u32 c ->
  exists w, GetBitsProof c = Some w /\ represents (bits_work c) w /\
  let '(t, fNegative, fOverflow) := SetCompact c in
  (fNegative || fOverflow || EqualTo t 0 = false -> val w = 2 ^ 256 / (val t + 1) /\
     forall c', is_u32 c' -> let '(t', n', o') := SetCompact c' in n' || o' || EqualTo t' 0 = false ->
       val t <= val t' -> bits_work c' <= val w) /\
  (fNegative || fOverflow || EqualTo t 0 = true -> val w = 0).
Proof.
  intros Hc. destruct (GetBitsProof_spec c Hc) as (w & E & Hw). exists w. split; [exact E|]. split; [exact Hw|].
  destruct (SetCompact c) as [[t n] o] eqn:Es.
  assert (forall d td nd od, is_u32 d -> SetCompact d = (td, nd, od) ->
    bits_work d = if nd || od || EqualTo td 0 then 0 else 2 ^ 256 / (val td + 1)) as Hspec.
  { clear. intros d td nd od Hd Ed. pose proof (SetCompact_spec d Hd) as H. rewrite Ed in H.
    destruct H as (Ht & Hv & -> & Hov). unfold bits_work. destruct (compact_value_nonneg d Hd) as [_ H0].
    pose proof (compact_word_0 d Hd) as Hz. rewrite EqualTo_spec, Hv by (exact Ht || (unfold is_u64; lia)).
    destruct (Z.leb_spec R (compact_value d)) as [Hb|Hb].
    - replace od with true by (destruct od; [reflexivity|exfalso; lia]). rewrite !orb_true_r. reflexivity.
    - replace od with false by (symmetry; apply Hov; exact Hb). rewrite !orb_false_r, (Z.mod_small (compact_value d) R) by lia.
      destruct (Z.eqb_spec (compact_value d) 0) as [E0|E0]; [rewrite !orb_true_r; reflexivity|].
      replace (compact_word d =? 0) with false by (symmetry; apply Z.eqb_neq; tauto). rewrite !orb_false_r. reflexivity. }
  pose proof (Hspec c t n o Hc Es) as Hcw. destruct Hw as [_ ->]. split; intros Hf; rewrite Hcw, Hf; [|reflexivity].
  split; [reflexivity|]. intros c' Hc'. destruct (SetCompact c') as [[t' n'] o'] eqn:Es'. intros Hf' Hle.
  rewrite (Hspec c' t' n' o' Hc' Es'), Hf'. pose proof (SetCompact_ok c) as Ht. rewrite Es in Ht. apply val_bound in Ht.
  cbn [fst] in Ht.
  apply Z.div_le_compat_l; [apply Z.pow_nonneg; lia|lia].
Qed.
Lemma GetBitsProof_exact_witness : exists w, GetBitsProof 0x1e0fffff = Some w /\ represents (bits_work 0x1e0fffff) w.
Proof.
  destruct (GetBitsProof_exact 0x1e0fffff ltac:(unfold is_u32; lia)) as (w & E & H & _). exists w. split; [exact E|exact H].
Defined.
