(* ===== verification/ActiveChain.v ===== *)
(** * The active chain

    [CChain] of [src/chain.h] and [src/chain.cpp], block locators and the
    searches along the chain.  A chain is the vector [vChain] of pointers
    into a block index; [chain_of] is the chain that ends in a block, by
    definition, and the theorems say that [SetTip] computes it from any other
    chain, that [FindFork] is the last common ancestor with the tip, what a
    locator lists, and what the binary search finds. *)

From S2P Require Import Prelude ConsensusParams ArithUint256 BlockIndex.

Local Open Scope Z_scope.

(** ** [CChain] *)

Definition Genesis (vChain : list (option Z)) : option Z :=
  if (0 <? length vChain)%nat then vChain !!! 0%nat else None.
Definition Tip (vChain : list (option Z)) : option Z :=
  if (0 <? length vChain)%nat then vChain !!! (length vChain - 1)%nat else None.
(** [operator[]] *)
Definition at_height (vChain : list (option Z)) (height : Z) : option Z :=
  if (height <? 0) || (height >=? Z.of_nat (length vChain)) then None else vChain !!! Z.to_nat height.
Definition Height (vChain : list (option Z)) : Z := Z.of_nat (length vChain) - 1.
Definition Contains (m : BlockMap) (vChain : list (option Z)) (pindex : Z) : option bool :=
  b ← m !! pindex; Some (bool_decide (at_height vChain (nHeight b) = Some pindex)).
Definition Next (m : BlockMap) (vChain : list (option Z)) (pindex : Z) : option (option Z) :=
  b ← m !! pindex;
  c ← Contains m vChain pindex;
  Some (if (c : bool) then at_height vChain (nHeight b + 1) else None).

(** [vChain.resize(n)]: new elements are null. *)
Definition resize (n : nat) (vChain : list (option Z)) : list (option Z) :=
  take n vChain ++ replicate (n - length vChain) None.
Fixpoint SetTip_loop (fuel : nat) (m : BlockMap) (vChain : list (option Z)) (pindex : option Z)
    : option (list (option Z)) :=
  match pindex with
  | None => Some vChain
  | Some h =>
      b ← m !! h;
      if decide (vChain !!! Z.to_nat (nHeight b) = Some h) then Some vChain
      else match fuel with
           | O => None
           | S fuel => SetTip_loop fuel m (<[Z.to_nat (nHeight b) := Some h]> vChain) (pprev b)
           end
  end.
Definition SetTip (m : BlockMap) (vChain : list (option Z)) (block : Z) : option (list (option Z)) :=
  b ← m !! block;
  SetTip_loop (S (Z.to_nat (nHeight b))) m (resize (Z.to_nat (nHeight b + 1)) vChain) (Some block).

Fixpoint FindFork_loop (fuel : nat) (m : BlockMap) (vChain : list (option Z)) (pindex : option Z) : option (option Z) :=
  match pindex with
  | None => Some None
  | Some h =>
      c ← Contains m vChain h;
      if (c : bool) then Some (Some h)
      else match fuel with
           | O => None
           | S fuel => b ← m !! h; FindFork_loop fuel m vChain (pprev b)
           end
  end.
Definition FindFork (m : BlockMap) (vChain : list (option Z)) (pindex : option Z) : option (option Z) :=
  match pindex with
  | None => Some None
  | Some h =>
      b ← m !! h;
      pindex ← (if nHeight b >? Height vChain then GetAncestor m h (Height vChain) else Some (Some h));
      FindFork_loop (S (Z.to_nat (nHeight b))) m vChain pindex
  end.

(** [std::lower_bound] over the indices [first .. first + len]: the first one
    at which [pred] is false, by bisection. *)
Fixpoint lower_bound (fuel : nat) (pred : nat -> option bool) (first len : nat) : option nat :=
  if (len =? 0)%nat then Some first
  else match fuel with
       | O => None
       | S fuel =>
           let half := (len / 2)%nat in
           p ← pred (first + half)%nat;
           if (p : bool) then lower_bound fuel pred (first + half + 1)%nat (len - half - 1)%nat
           else lower_bound fuel pred first half
       end.
Definition FindEarliestAtLeast (m : BlockMap) (vChain : list (option Z)) (nTime height : Z) : option (option Z) :=
  lower ← lower_bound (length vChain) (fun i =>
    pBlock ← vChain !! i; b ← deref m pBlock;
    Some ((GetBlockTimeMax b <? nTime) || (nHeight b <? height))) 0 (length vChain);
  Some (if (lower =? length vChain)%nat then None else vChain !!! lower).

(** ** Locators *)

Definition GetBlockHash (b : CBlockIndex) : option Z := phashBlock b.
Fixpoint LocatorEntries_loop (fuel : nat) (m : BlockMap) (index : option Z) (step : Z) (have : list Z) : option (list Z) :=
  match index with
  | None => Some have
  | Some h =>
      match fuel with
      | O => None
      | S fuel =>
          b ← m !! h;
          hash ← GetBlockHash b;
          let have := have ++ [hash] in
          if nHeight b =? 0 then Some have
          else
            let height := Z.max (i32 (nHeight b - step)) 0 in
            index ← GetAncestor m h height;
            LocatorEntries_loop fuel m index (if (10 <? length have)%nat then i32 (step * 2) else step) have
      end
  end.
Definition LocatorEntries (m : BlockMap) (index : option Z) : option (list Z) :=
  match index with
  | None => Some []
  | Some h => b ← m !! h; LocatorEntries_loop (S (Z.to_nat (nHeight b))) m index 1 []
  end.

Example active_chain_test :
  let m := m_block_index toy_manager in
  exists c, SetTip m [] 1009 = Some c /\
    exists c', SetTip m c 1022 = Some c' /\
      c' = map Some [1000; 1001; 1002; 1003; 1004; 1005; 1020; 1021; 1022] /\
      FindFork m c' (Some 1009) = Some (Some 1005) /\ Next m c' 1005 = Some (Some 1020) /\
      LocatorEntries m (Some 1009) = Some [1009; 1008; 1007; 1006; 1005; 1004; 1003; 1002; 1001; 1000] /\
      FindEarliestAtLeast m c' 1400 2 = Some (Some 1005).
Proof. vm_compute. eexists. split; [reflexivity|]. eexists. repeat split. Qed.

(** ** The chain that ends in a block *)

Definition chain_of (m : BlockMap) (h : Z) (n : Z) : list (option Z) :=
  fill (Z.to_nat (n + 1)) (fun i => nth_prev m h (Z.to_nat n - i)).
(** A chain set up by [SetTip]: none yet, or the one of some block. *)
Definition chain_ok (m : BlockMap) (vChain : list (option Z)) : Prop :=
  vChain = [] \/ exists h b, m !! h = Some b /\ vChain = chain_of m h (nHeight b).

Lemma length_chain_of m h n : length (chain_of m h n) = Z.to_nat (n + 1).
Proof. apply length_fill. Qed.
Lemma lookup_chain_of m h n i : (i < Z.to_nat (n + 1))%nat -> chain_of m h n !!! i = nth_prev m h (Z.to_nat n - i).
Proof. intros Hi. unfold chain_of. rewrite lookup_total_fill by exact Hi. reflexivity. Qed.

Lemma list_eq_total_of {A : Type} `{Inhabited A} (l k : list A) :
  length l = length k -> (forall i, (i < length l)%nat -> l !!! i = k !!! i) -> l = k.
Proof.
  intros Hl Hi. apply list_eq. intros i. destruct (le_lt_dec (length l) i) as [Hge|Hlt].
  - rewrite !lookup_ge_None_2 by lia. reflexivity.
  - rewrite !list_lookup_lookup_total_lt by lia. rewrite Hi by exact Hlt. reflexivity.
Qed.
Lemma length_resize n c : length (resize n c) = n.
Proof. unfold resize. rewrite length_app, length_take, length_replicate. lia. Qed.
Lemma lookup_resize n c i : (i < n)%nat -> resize n c !!! i = if (i <? length c)%nat then c !!! i else None.
Proof.
  intros Hi. unfold resize. destruct (Nat.ltb_spec i (length c)).
  - rewrite lookup_total_app_l by (rewrite length_take; lia). rewrite lookup_total_take, decide_True by lia. reflexivity.
  - rewrite lookup_total_app_r by (rewrite length_take; lia). apply lookup_total_replicate_2. rewrite length_take. lia.
Qed.

Section ChainProofs.
Context {m : BlockMap} (Hm : index_ok m).

(** Where an old chain and the walk from the new tip agree once, they agree
    all the way down. *)
Lemma chain_ok_below c k p b :
  chain_ok m c -> m !! p = Some b -> nHeight b = Z.of_nat k -> (k < length c)%nat -> c !!! k = Some p ->
  forall i, (i <= k)%nat -> c !!! i = nth_prev m p (k - i).
Proof using Hm.
  intros [->|(t & bt & Et & ->)] Ep Hk Hlen Hc i Hi; [cbn in Hlen; lia|].
  rewrite length_chain_of in Hlen. rewrite lookup_chain_of in * by lia.
  replace (Z.to_nat (nHeight bt) - i)%nat with ((Z.to_nat (nHeight bt) - k) + (k - i))%nat by lia.
  rewrite nth_prev_add, Hc. reflexivity.
Qed.

Lemma SetTip_loop_spec fuel c0 c h H k p b :
  chain_ok m c0 -> m !! h = Some H -> m !! p = Some b -> nHeight b = Z.of_nat k -> Z.of_nat k <= nHeight H ->
  nth_prev m h (Z.to_nat (nHeight H) - k) = Some p -> length c = Z.to_nat (nHeight H + 1) ->
  (forall i, (k < i < length c)%nat -> c !!! i = nth_prev m h (Z.to_nat (nHeight H) - i)) ->
  (forall i, (i <= k)%nat -> c !!! i = resize (Z.to_nat (nHeight H + 1)) c0 !!! i) -> (k < fuel)%nat ->
  SetTip_loop fuel m c (Some p) = Some (chain_of m h (nHeight H)).
Proof using Hm.
  intros Hc0 Eh. revert c k p b. induction fuel as [|fuel IH]; intros c k p b Ep Hk Hle Hw Hlen Hhi Hlo Hf; [lia|].
  assert (forall i, (i <= k)%nat -> nth_prev m p (k - i) = nth_prev m h (Z.to_nat (nHeight H) - i)) as Hbelow.
  { intros i Hi. replace (Z.to_nat (nHeight H) - i)%nat with ((Z.to_nat (nHeight H) - k) + (k - i))%nat by lia.
    rewrite nth_prev_add, Hw. reflexivity. }
  cbn [SetTip_loop]. rewrite Ep. cbn [mbind option_bind]. rewrite Hk, Nat2Z.id.
  destruct (decide (c !!! k = Some p)) as [E|E].
  - f_equal. apply list_eq_total_of; [rewrite length_chain_of; exact Hlen|]. intros i Hi.
    rewrite lookup_chain_of by lia. destruct (le_lt_dec i k) as [Hik|Hik]; [|apply Hhi; lia].
    rewrite Hlo in * by lia. rewrite lookup_resize in * by lia. destruct (Nat.ltb_spec k (length c0)) as [Hk0|]; [|discriminate].
    replace (i <? length c0)%nat with true by (symmetry; apply Nat.ltb_lt; lia).
    rewrite (chain_ok_below c0 k p b Hc0 Ep Hk Hk0 E i Hik). apply Hbelow, Hik.
  - assert (k < length c)%nat as Hkc by lia.
    assert (forall i, (k <= i < length c)%nat -> <[k := Some p]> c !!! i = nth_prev m h (Z.to_nat (nHeight H) - i)) as Hhi'.
    { intros i Hi. destruct (Nat.eq_dec i k) as [->|Hne].
      - rewrite list_lookup_total_insert_eq by exact Hkc. rewrite <- Hbelow, Nat.sub_diag by lia. reflexivity.
      - rewrite list_lookup_total_insert_ne by lia. apply Hhi. lia. }
    destruct (Hm p b Ep) as [_ _ _ _ _ Hlink]. pose proof (root_height Hm p b Ep) as Hroot.
    destruct (pprev b) as [q|] eqn:Eq.
    + destruct (Hlink q eq_refl) as (qb & Eqb & Hq & _). destruct (Hm q qb Eqb) as [_ Hq0 _ _ _ _].
      apply (IH _ (k - 1)%nat q qb); try assumption; try lia.
      * rewrite <- Hbelow by lia. replace (k - (k - 1))%nat with 1%nat by lia. cbn. rewrite Ep. cbn. rewrite Eq. reflexivity.
      * rewrite length_insert. exact Hlen.
      * intros i Hi. rewrite length_insert in Hi. apply Hhi'. lia.
      * intros i Hi. rewrite list_lookup_total_insert_ne by lia. apply Hlo. lia.
    + assert (k = 0%nat) as -> by (destruct Hroot as [_ Hr]; specialize (Hr eq_refl); lia).
      assert (SetTip_loop fuel m (<[0%nat := Some p]> c) None = Some (<[0%nat := Some p]> c)) as -> by (destruct fuel; reflexivity).
      f_equal. apply list_eq_total_of; [rewrite length_insert, length_chain_of; exact Hlen|].
      intros i Hi. rewrite length_insert in Hi. rewrite lookup_chain_of by lia. apply Hhi'. lia.
Qed.

Lemma SetTip_spec c h b : chain_ok m c -> m !! h = Some b -> SetTip m c h = Some (chain_of m h (nHeight b)).
Proof using Hm.
  intros Hc Eh. destruct (Hm h b Eh) as [_ Hh _ _ _ _]. unfold SetTip. rewrite Eh. cbn [mbind option_bind].
  apply (SetTip_loop_spec _ c _ h b (Z.to_nat (nHeight b)) h b); try assumption; try lia.
  - rewrite Nat.sub_diag. reflexivity.
  - apply length_resize.
  - intros i. rewrite length_resize. lia.
  - reflexivity.
Qed.

(** ** Membership and forks *)

Context (t : Z) (bt : CBlockIndex) (Et : m !! t = Some bt).
Let vChain := chain_of m t (nHeight bt).

Lemma at_height_chain_of n :
  at_height vChain n = if (n <? 0) || (n >? nHeight bt) then None else nth_prev m t (Z.to_nat (nHeight bt - n)).
Proof using Hm Et.
  destruct (Hm t bt Et) as [_ Hh _ _ _ _]. unfold at_height, vChain. rewrite length_chain_of, Z.geb_leb.
  rewrite Z2Nat.id, Z.gtb_ltb by lia.
  destruct (Z.ltb_spec n 0), (Z.ltb_spec (nHeight bt) n), (Z.leb_spec (nHeight bt + 1) n); cbn [orb]; try (reflexivity || lia).
  rewrite lookup_chain_of by lia. f_equal. lia.
Qed.
Lemma Contains_spec h b : m !! h = Some b -> exists c, Contains m vChain h = Some c /\ (c = true <-> is_ancestor m h t).
Proof using Hm Et.
  intros Eh. unfold Contains. rewrite Eh. cbn [mbind option_bind]. eexists. split; [reflexivity|].
  rewrite bool_decide_eq_true, at_height_chain_of. destruct (Hm h b Eh) as [_ Hb _ _ _ _]. split.
  - destruct (_ || _); [discriminate|]. intros E. eexists. exact E.
  - intros [n E]. destruct (nth_prev_height Hm t bt n h Et E) as (b' & E' & Hn). rewrite Eh in E'. injection E' as <-.
    replace ((nHeight b <? 0) || (nHeight b >? nHeight bt)) with false by lia.
    replace (Z.to_nat (nHeight bt - nHeight b)) with n by lia. exact E.
Qed.

(** [r] is the last common ancestor of [h] and the tip. *)
Definition last_common (h : Z) (r : option Z) : Prop :=
  match r with
  | Some c => is_ancestor m c h /\ is_ancestor m c t /\ forall z, is_ancestor m z h -> is_ancestor m z t -> is_ancestor m z c
  | None => forall z, is_ancestor m z h -> ~ is_ancestor m z t
  end.
Lemma FindFork_loop_spec fuel h b :
  m !! h = Some b -> nHeight b < Z.of_nat fuel -> exists r, FindFork_loop fuel m vChain (Some h) = Some r /\ last_common h r.
Proof using Hm Et.
  revert h b. induction fuel as [|fuel IH]; intros h b Eh Hf; destruct (Hm h b Eh) as [_ Hb _ _ _ Hlink]; [lia|].
  cbn [FindFork_loop]. destruct (Contains_spec h b Eh) as (c & -> & Hc). cbn [mbind option_bind].
  destruct c; [exists (Some h); split; [reflexivity|]; split; [exists 0%nat; reflexivity|]; split; [apply Hc; reflexivity|auto]|].
  rewrite Eh. cbn [mbind option_bind]. assert (~ is_ancestor m h t) as Hnot by (intros H; apply Hc in H; discriminate).
  destruct (pprev b) as [p|] eqn:Ep.
  - destruct (Hlink p eq_refl) as (pb & Epb & Hh & _). destruct (IH p pb Epb ltac:(lia)) as (r & -> & Hr).
    exists r. split; [reflexivity|].
    assert (forall z, is_ancestor m z h -> is_ancestor m z t -> is_ancestor m z p) as Hup.
    { intros z [[|n] Hn] Hz; [injection Hn as <-; contradiction|]. rewrite (nth_prev_S m h b p n Eh Ep) in Hn. exists n. exact Hn. }
    destruct r as [c|]; cbn in *; [|intros z H1 H2; exact (Hr z (Hup z H1 H2) H2)].
    destruct Hr as ([n Hn] & H2 & H3). split; [exists (S n); rewrite (nth_prev_S m h b p n Eh Ep); exact Hn|]. split; [exact H2|].
    intros z Hz1 Hz2. exact (H3 z (Hup z Hz1 Hz2) Hz2).
  - exists None. split; [destruct fuel; reflexivity|]. intros z [[|n] Hn] Hz; [injection Hn as <-; contradiction|].
    cbn in Hn. rewrite Eh in Hn. cbn in Hn. rewrite Ep in Hn. discriminate.
Qed.
Lemma FindFork_spec h b : m !! h = Some b -> exists r, FindFork m vChain (Some h) = Some r /\ last_common h r.
Proof using Hm Et.
  intros Eh. destruct (Hm h b Eh) as [_ Hb _ _ _ _], (Hm t bt Et) as [_ Ht _ _ _ _].
  unfold FindFork. rewrite Eh. cbn [mbind option_bind].
  assert (Height vChain = nHeight bt) as -> by (unfold Height, vChain; rewrite length_chain_of; lia).
  rewrite Z.gtb_ltb. destruct (Z.ltb_spec (nHeight bt) (nHeight b)) as [Hgt|Hle]; [|apply (FindFork_loop_spec _ h b Eh); lia].
  rewrite (GetAncestor_spec Hm h b _ Eh). replace ((nHeight bt >? nHeight b) || (nHeight bt <? 0)) with false by lia.
  destruct (nth_prev_exists Hm h b (Z.to_nat (nHeight b - nHeight bt)) Eh ltac:(lia)) as (x & bx & Wx & Ex & Hx).
  rewrite Wx. cbn [mbind option_bind]. destruct (FindFork_loop_spec (S (Z.to_nat (nHeight b))) x bx Ex ltac:(lia)) as (r & -> & Hr).
  exists r. split; [reflexivity|].
  assert (forall z, is_ancestor m z h -> is_ancestor m z t -> is_ancestor m z x) as Hup.
  { intros z [n Hn] [n' Hn']. destruct (nth_prev_height Hm t bt n' z Et Hn') as (bz & Ez & Hz).
    destruct (nth_prev_height Hm h b n z Eh Hn) as (bz' & Ez' & Hz'). rewrite Ez in Ez'. injection Ez' as <-.
    exists (n - Z.to_nat (nHeight b - nHeight bt))%nat.
    replace n with (Z.to_nat (nHeight b - nHeight bt) + (n - Z.to_nat (nHeight b - nHeight bt)))%nat in Hn by lia.
    rewrite nth_prev_add, Wx in Hn. exact Hn. }
  destruct r as [c|]; cbn in *; [|intros z H1 H2; exact (Hr z (Hup z H1 H2) H2)].
  destruct Hr as ([n Hn] & H2 & H3). split; [|split; [exact H2|intros z Hz1 Hz2; exact (H3 z (Hup z Hz1 Hz2) Hz2)]].
  exists (Z.to_nat (nHeight b - nHeight bt) + n)%nat. rewrite nth_prev_add, Wx. exact Hn.
Qed.
End ChainProofs.

(** ** Bisection *)

Lemma lower_bound_spec fuel (pred : nat -> option bool) (p : nat -> bool) first len :
  (forall i, (first <= i < first + len)%nat -> pred i = Some (p i)) ->
  (forall i, (first <= i)%nat -> (S i < first + len)%nat -> p (S i) = true -> p i = true) -> (len <= fuel)%nat ->
  exists r, lower_bound fuel pred first len = Some r /\ (first <= r <= first + len)%nat /\
    (forall i, (first <= i < r)%nat -> p i = true) /\ (forall i, (r <= i < first + len)%nat -> p i = false).
Proof.
  revert first len. induction fuel as [|fuel IH]; intros first len Hp Hmono Hf.
  { exists first. replace len with 0%nat by lia. cbn. repeat split; intros; lia. }
  cbn [lower_bound]. destruct (Nat.eqb_spec len 0) as [->|Hne]; [exists first; repeat split; intros; lia|].
  pose proof (Nat.div_lt len 2 ltac:(lia) ltac:(lia)) as Hhalf. set (half := (len / 2)%nat) in *.
  rewrite Hp by lia. cbn [mbind option_bind].
  assert (forall j i, (first <= i)%nat -> (i + j < first + len)%nat -> p (i + j)%nat = true -> p i = true) as Hm.
  { induction j as [|j IHj]; intros i Hi Hij E; [rewrite Nat.add_0_r in E; exact E|].
    apply (IHj i Hi); [lia|]. apply Hmono; [lia|lia|]. replace (S (i + j)) with (i + S j)%nat by lia. exact E. }
  destruct (p (first + half)%nat) eqn:E.
  - destruct (IH (first + half + 1)%nat (len - half - 1)%nat) as (r & -> & Hr & H1 & H2).
    + intros i Hi. apply Hp. lia.
    + intros i Hi Hi' Ei. apply Hmono; (lia || exact Ei).
    + lia.
    + exists r. split; [reflexivity|]. split; [lia|]. split; [|intros i Hi; apply H2; lia].
      intros i Hi. destruct (le_lt_dec (first + half + 1) i) as [Hge|Hlt]; [apply H1; lia|].
      apply (Hm (first + half - i)%nat i); [lia|lia|]. replace (i + (first + half - i))%nat with (first + half)%nat by lia. exact E.
  - destruct (IH first half) as (r & -> & Hr & H1 & H2).
    + intros i Hi. apply Hp. lia.
    + intros i Hi Hi' Ei. apply Hmono; (lia || exact Ei).
    + lia.
    + exists r. split; [reflexivity|]. split; [lia|]. split; [exact H1|]. intros i Hi.
      destruct (le_lt_dec (first + half) i) as [Hge|Hlt]; [|apply H2; lia].
      destruct (p i) eqn:Ei; [|reflexivity]. exfalso.
      rewrite (Hm (i - (first + half))%nat (first + half)%nat) in E; [discriminate|lia|lia|].
      replace (first + half + (i - (first + half)))%nat with i by lia. exact Ei.
Qed.

Section Search.
Context {m : BlockMap} (Hm : index_ok m) (t : Z) (bt : CBlockIndex) (Et : m !! t = Some bt).
Let vChain := chain_of m t (nHeight bt).

Lemma chain_entry i :
  (i < length vChain)%nat -> exists h b, vChain !! i = Some (Some h) /\ m !! h = Some b /\ nHeight b = Z.of_nat i /\
    nth_prev m t (Z.to_nat (nHeight bt) - i) = Some h.
Proof using Hm Et.
  intros Hi. unfold vChain in *. rewrite length_chain_of in Hi. destruct (Hm t bt Et) as [_ Ht _ _ _ _].
  destruct (nth_prev_exists Hm t bt (Z.to_nat (nHeight bt) - i) Et ltac:(lia)) as (h & b & W & E & Hh).
  exists h, b. unfold chain_of. rewrite lookup_fill, W by exact Hi. repeat split; [exact E|lia].
Qed.
Lemma chain_entry_next i h b h' b' :
  vChain !! i = Some (Some h) -> m !! h = Some b -> vChain !! S i = Some (Some h') -> m !! h' = Some b' ->
  nTimeMax b <= nTimeMax b' /\ pprev b' = Some h.
Proof using Hm Et.
  intros E1 E2 E3 E4. assert (S i < length vChain)%nat as Hi by (apply lookup_lt_Some in E3; exact E3).
  destruct (chain_entry i ltac:(lia)) as (x & bx & Ex & _ & _ & Wx). rewrite E1 in Ex. injection Ex as <-.
  destruct (chain_entry (S i) Hi) as (y & byy & Ey & Eby & Hy & Wy). rewrite E3 in Ey. injection Ey as <-.
  rewrite E4 in Eby. injection Eby as <-. unfold vChain in Hi. rewrite length_chain_of in Hi.
  replace (Z.to_nat (nHeight bt) - i)%nat with ((Z.to_nat (nHeight bt) - S i) + 1)%nat in Wx by lia.
  rewrite nth_prev_add, Wy in Wx. cbn in Wx. rewrite E4 in Wx. cbn in Wx.
  destruct (pprev b') as [q|] eqn:Eq; [|discriminate]. injection Wx as ->.
  destruct (eo_link _ _ _ (Hm h' b' E4) h Eq) as (pb & Epb & _ & _ & Htm & _). rewrite E2 in Epb. injection Epb as <-.
  split; [lia|reflexivity].
Qed.

(** The block is old enough and high enough. *)
Definition at_least (b : CBlockIndex) (time height : Z) : Prop := time <= nTimeMax b /\ height <= nHeight b.
Lemma FindEarliestAtLeast_spec time height :
  exists r, FindEarliestAtLeast m vChain time height = Some r /\
  match r with
  | None => forall i h b, vChain !! i = Some (Some h) -> m !! h = Some b -> ~ at_least b time height
  | Some x => exists k bx, vChain !! k = Some (Some x) /\ m !! x = Some bx /\ at_least bx time height /\
      forall i h b, (i < k)%nat -> vChain !! i = Some (Some h) -> m !! h = Some b -> ~ at_least b time height
  end.
Proof using Hm Et.
  unfold FindEarliestAtLeast.
  set (p := fun i : nat => match vChain !! i ≫= deref m with
                     | Some b => (GetBlockTimeMax b <? time) || (nHeight b <? height) | None => false end).
  assert (forall i h b, vChain !! i = Some (Some h) -> m !! h = Some b -> p i = true <-> ~ at_least b time height) as Hpi.
  { intros i h b E1 E2. unfold p. rewrite E1. cbn. rewrite E2. unfold at_least, GetBlockTimeMax.
    destruct (Z.ltb_spec (nTimeMax b) time), (Z.ltb_spec (nHeight b) height); cbn [orb];
      (split; [intros; lia||discriminate|intros; try reflexivity; exfalso; lia]). }
  destruct (lower_bound_spec (length vChain) (fun i =>
    pBlock ← vChain !! i; b ← deref m pBlock; Some ((GetBlockTimeMax b <? time) || (nHeight b <? height))) p 0 (length vChain))
    as (r & -> & Hr & Htrue & Hfalse); [| |lia|].
  - intros i Hi. destruct (chain_entry i ltac:(lia)) as (h & b & E1 & E2 & _). unfold p. rewrite E1. cbn. rewrite E2. reflexivity.
  - intros i _ Hi Ep. destruct (chain_entry i ltac:(lia)) as (h & b & E1 & E2 & Hh & _).
    destruct (chain_entry (S i) ltac:(lia)) as (h' & b' & E1' & E2' & Hh' & _).
    destruct (chain_entry_next i h b h' b' E1 E2 E1' E2') as [Htm _].
    apply (Hpi i h b E1 E2). apply (Hpi (S i) h' b' E1' E2') in Ep. unfold at_least in *. lia.
  - cbn [mbind option_bind]. eexists. split; [reflexivity|]. destruct (Nat.eqb_spec r (length vChain)) as [->|Hne].
    + intros i h b E1 E2. apply (Hpi i h b E1 E2). apply Htrue. apply lookup_lt_Some in E1. lia.
    + destruct (chain_entry r ltac:(lia)) as (x & bx & E1 & E2 & _). rewrite (list_lookup_total_correct _ _ _ E1).
      exists r, bx. split; [exact E1|]. split; [exact E2|]. split.
      * pose proof (Hfalse r ltac:(lia)) as Hf. pose proof (Hpi r x bx E1 E2) as Hiff. unfold at_least in *. rewrite Hf in Hiff. lia.
      * intros i h b Hi E1' E2'. apply (Hpi i h b E1' E2'). apply Htrue. lia.
Qed.
End Search.

(** ** Locators *)

(** The height of the [n]-th entry of the locator of a block of height [H]:
    ten steps of one block, then steps that double. *)
Definition locator_height (H : Z) (n : nat) : Z :=
  Z.max (H - (if (n <=? 10)%nat then Z.of_nat n else 9 + 2 ^ (Z.of_nat n - 10))) 0.
Definition locator_step (n : nat) : Z := if (n <=? 10)%nat then 1 else 2 ^ (Z.of_nat n - 10).

Lemma locator_step_next n : locator_step (S n) = if (10 <? S n)%nat then locator_step n * 2 else locator_step n.
Proof.
  unfold locator_step. destruct (Nat.leb_spec (S n) 10), (Nat.ltb_spec 10 (S n)), (Nat.leb_spec n 10); try lia.
  - assert (n = 10%nat) as -> by lia. reflexivity.
  - replace (Z.of_nat (S n) - 10) with (Z.of_nat n - 10 + 1) by lia. rewrite Z.pow_add_r by lia. reflexivity.
Qed.
Lemma locator_height_next H n :
  0 < locator_height H n -> locator_height H (S n) = Z.max (locator_height H n - locator_step n) 0.
Proof.
  unfold locator_height, locator_step. intros Hpos.
  destruct (Nat.leb_spec (S n) 10), (Nat.leb_spec n 10); try lia.
  - assert (n = 10%nat) as -> by lia. change (2 ^ (Z.of_nat 11 - 10)) with 2. lia.
  - replace (Z.of_nat (S n) - 10) with (Z.of_nat n - 10 + 1) by lia. rewrite Z.pow_add_r by lia.
    assert (0 < 2 ^ (Z.of_nat n - 10)) by (apply Z.pow_pos_nonneg; lia). lia.
Qed.
Lemma locator_step_bound H n : 0 < locator_height H n -> 1 <= locator_step n <= Z.max (H - 10) 1.
Proof.
  unfold locator_height, locator_step. intros Hpos. destruct (Nat.leb_spec n 10); [lia|].
  assert (0 < 2 ^ (Z.of_nat n - 10)) by (apply Z.pow_pos_nonneg; lia). lia.
Qed.

Lemma LocatorEntries_loop_spec m fuel h H n x bx have :
  index_ok m -> m !! h = Some H -> nHeight H <= 2 ^ 30 -> length have = n -> m !! x = Some bx ->
  nHeight bx = locator_height (nHeight H) n -> nth_prev m h (Z.to_nat (nHeight H - nHeight bx)) = Some x ->
  nHeight bx < Z.of_nat fuel ->
  exists k rest, LocatorEntries_loop fuel m (Some x) (locator_step n) have = Some (have ++ rest) /\
    length rest = S k /\ locator_height (nHeight H) (n + k) = 0 /\
    (forall i, (i < k)%nat -> 0 < locator_height (nHeight H) (n + i)) /\
    (forall i, (i <= k)%nat -> rest !! i = nth_prev m h (Z.to_nat (nHeight H - locator_height (nHeight H) (n + i)))).
Proof.
  intros Hm Eh HH. revert n x bx have. induction fuel as [|fuel IH]; intros n x bx have Hn Ex Hx Wx Hf;
    destruct (Hm x bx Ex) as [Ehash Hbx _ _ _ _]; [lia|].
  cbn [LocatorEntries_loop]. rewrite Ex. cbn [mbind option_bind]. unfold GetBlockHash. rewrite Ehash. cbn [mbind option_bind].
  destruct (Z.eqb_spec (nHeight bx) 0) as [E0|E0].
  { exists 0%nat, [x]. rewrite !Nat.add_0_r, <- Hx. repeat split; try assumption; [intros; lia|].
    intros i Hi. replace i with 0%nat by lia. rewrite Nat.add_0_r, <- Hx, Wx. reflexivity. }
  pose proof (locator_step_bound (nHeight H) n ltac:(lia)) as Hstep.
  pose proof (locator_height_next (nHeight H) n ltac:(lia)) as Hnext. rewrite <- Hx in Hnext.
  rewrite (i32_id (nHeight bx - locator_step n)) by (unfold is_i32; lia). rewrite <- Hnext.
  rewrite (GetAncestor_spec Hm x bx _ Ex).
  replace ((locator_height (nHeight H) (S n) >? nHeight bx) || (locator_height (nHeight H) (S n) <? 0)) with false by lia.
  destruct (nth_prev_exists Hm x bx (Z.to_nat (nHeight bx - locator_height (nHeight H) (S n))) Ex ltac:(lia))
    as (y & byy & Wy & Ey & Hy). rewrite Wy. cbn [mbind option_bind].
  assert ((if (10 <? length (have ++ [x]))%nat then i32 (locator_step n * 2) else locator_step n) = locator_step (S n)) as ->.
  { rewrite length_app, Hn, Nat.add_1_r, locator_step_next. destruct (10 <? S n)%nat; [|reflexivity].
    apply i32_id. unfold is_i32. lia. }
  destruct (IH (S n) y byy (have ++ [x])) as (k & rest & E & Hlen & H0 & Hpos & Hrest); try assumption; try lia.
  - rewrite length_app, Hn. cbn [length]. lia.
  - replace (Z.to_nat (nHeight H - nHeight byy))
      with (Z.to_nat (nHeight H - nHeight bx) + Z.to_nat (nHeight bx - locator_height (nHeight H) (S n)))%nat
      by (destruct (nth_prev_height Hm h H _ x Eh Wx) as (bx' & E' & Hge); rewrite Ex in E'; injection E' as <-; lia).
    rewrite nth_prev_add, Wx. exact Wy.
  - exists (S k), (x :: rest). rewrite E, <- app_assoc. split; [reflexivity|]. split; [cbn; lia|].
    split; [rewrite <- H0; f_equal; lia|]. split.
    + intros [|i] Hi; [rewrite Nat.add_0_r; lia|]. replace (n + S i)%nat with (S n + i)%nat by lia. apply Hpos. lia.
    + intros [|i] Hi; [rewrite Nat.add_0_r, <- Hx; symmetry; exact Wx|].
      replace (n + S i)%nat with (S n + i)%nat by lia. apply Hrest. lia.
Qed.

(** ** The component *)

(** [SetTip] from any chain it built before, over any index [AddToBlockIndex]
    builds, returns the chain of the new tip: at every height the ancestor of
    the tip, whatever was there (the loop that stops at the first block
    already in place misses nothing).  A block is contained in the chain
    exactly when it is an ancestor of the tip. *)
Theorem SetTip_rebuilds GetHash s vChain h b :
  reachable GetHash s -> chain_ok (m_block_index s) vChain -> m_block_index s !! h = Some b ->
  let m := m_block_index s in
  SetTip m vChain h = Some (chain_of m h (nHeight b)) /\ chain_ok m (chain_of m h (nHeight b)) /\
  Tip (chain_of m h (nHeight b)) = Some h /\
  (forall n, at_height (chain_of m h (nHeight b)) n
     = if (n <? 0) || (n >? nHeight b) then None else nth_prev m h (Z.to_nat (nHeight b - n))) /\
  (forall x, is_Some (m !! x) -> exists c, Contains m (chain_of m h (nHeight b)) x = Some c /\ (c = true <-> is_ancestor m x h)).
Proof.
  intros Hs Hc Eh m. apply reachable_ok, mo_index in Hs. split; [exact (SetTip_spec Hs vChain h b Hc Eh)|].
  split; [right; exists h, b; auto|]. split; [|split].
  - destruct (Hs h b Eh) as [_ Hh _ _ _ _]. unfold Tip. rewrite length_chain_of.
    replace (0 <? Z.to_nat (nHeight b + 1))%nat with true by (symmetry; apply Nat.ltb_lt; lia).
    rewrite lookup_chain_of by lia. replace (Z.to_nat (nHeight b) - _)%nat with 0%nat by lia. reflexivity.
  - exact (at_height_chain_of Hs h b Eh).
  - intros x [bx Ex]. exact (Contains_spec Hs h b Eh x bx Ex).
Qed.
Lemma SetTip_rebuilds_witness :
  exists b, m_block_index toy_manager !! 1022 = Some b /\
    SetTip (m_block_index toy_manager) [] 1022 = Some (chain_of (m_block_index toy_manager) 1022 (nHeight b)).
Proof.
  destruct (m_block_index toy_manager !! 1022) as [b|] eqn:E; [|vm_compute in E; discriminate].
  exists b. split; [reflexivity|].
  apply (SetTip_rebuilds toy_hash toy_manager [] 1022 b); [exact toy_reachable|left; reflexivity|exact E].
Defined.

(** [FindFork] of a block against the chain of a tip is
    [LastCommonAncestor] of the block and the tip. *)
Theorem FindFork_is_LastCommonAncestor GetHash s t bt h :
  reachable GetHash s -> m_block_index s !! t = Some bt -> is_Some (m_block_index s !! h) ->
  FindFork (m_block_index s) (chain_of (m_block_index s) t (nHeight bt)) (Some h)
  = LastCommonAncestor (m_block_index s) h t /\
  is_Some (LastCommonAncestor (m_block_index s) h t).
Proof.
  intros Hs Et [b Eh]. apply reachable_ok in Hs as [Hm Hroot _ _ _].
  destruct (LastCommonAncestor_spec _ h t b bt Hm Hroot Eh Et) as (c & -> & H1 & H2 & H3). split; [|eauto].
  destruct (FindFork_spec Hm t bt Et h b Eh) as (r & -> & Hr). f_equal.
  destruct r as [x|]; cbn in Hr; [|exfalso; exact (Hr c H1 H2)]. destruct Hr as (K1 & K2 & K3). f_equal.
  destruct (H3 x K1 K2) as [i Hi], (K3 c H1 H2) as [j Hj]. destruct H1 as [n Hn].
  destruct (nth_prev_height Hm h b n c Eh Hn) as (bc & Ec & _).
  destruct (nth_prev_height Hm c bc i x Ec Hi) as (bx & Ex & E1). destruct (nth_prev_height Hm x bx j c Ex Hj) as (bc' & Ec' & E2).
  rewrite Ec in Ec'. injection Ec' as <-. assert (i = 0%nat) as -> by lia. cbn in Hi. congruence.
Qed.
Lemma FindFork_is_LastCommonAncestor_witness :
  exists bt, m_block_index toy_manager !! 1022 = Some bt /\
  FindFork (m_block_index toy_manager) (chain_of (m_block_index toy_manager) 1022 (nHeight bt)) (Some 1009)
  = LastCommonAncestor (m_block_index toy_manager) 1009 1022.
Proof.
  destruct (m_block_index toy_manager !! 1022) as [b|] eqn:E; [|vm_compute in E; discriminate].
  exists b. split; [reflexivity|].
  apply (FindFork_is_LastCommonAncestor toy_hash toy_manager 1022 b 1009); [exact toy_reachable|exact E|vm_compute; eauto].
Defined.

(** The binary search of [FindEarliestAtLeast] along the chain of a tip
    returns its lowest block whose maximal time reaches [time] and whose
    height reaches [height], and [nullptr] exactly when there is none. *)
Theorem FindEarliestAtLeast_first GetHash s t bt time height :
  reachable GetHash s -> m_block_index s !! t = Some bt ->
  let m := m_block_index s in
  let vChain := chain_of m t (nHeight bt) in
  exists r, FindEarliestAtLeast m vChain time height = Some r /\
  match r with
  | None => forall i h b, vChain !! i = Some (Some h) -> m !! h = Some b -> ~ at_least b time height
  | Some x => exists k bx, vChain !! k = Some (Some x) /\ m !! x = Some bx /\ at_least bx time height /\
      forall i h b, (i < k)%nat -> vChain !! i = Some (Some h) -> m !! h = Some b -> ~ at_least b time height
  end.
Proof.
  intros Hs Et m vChain. apply reachable_ok, mo_index in Hs. exact (FindEarliestAtLeast_spec Hs t bt Et time height).
Qed.
Lemma FindEarliestAtLeast_first_witness :
  exists bt r, m_block_index toy_manager !! 1009 = Some bt /\
    FindEarliestAtLeast (m_block_index toy_manager) (chain_of (m_block_index toy_manager) 1009 (nHeight bt)) 1400 2 = Some r.
Proof.
  destruct (m_block_index toy_manager !! 1009) as [b|] eqn:E; [|vm_compute in E; discriminate].
  destruct (FindEarliestAtLeast_first toy_hash toy_manager 1009 b 1400 2 toy_reachable E) as (r & Hr & _).
  exists b, r. split; [reflexivity|exact Hr].
Defined.

(** A block locator: for a block of height at most [2^30] (beyond which
    the doubling [step] could overflow), [LocatorEntries] returns the hashes
    of its ancestors at the heights [locator_height]: ten single steps back,
    then steps that double, the root last, and nothing after the root; there
    are at most [12 + log2] of the height entries. *)
Theorem LocatorEntries_exact GetHash s h b :
  reachable GetHash s -> m_block_index s !! h = Some b -> nHeight b <= 2 ^ 30 ->
  exists k l, LocatorEntries (m_block_index s) (Some h) = Some l /\ length l = S k /\
    (forall i, (i <= k)%nat -> l !! i = nth_prev (m_block_index s) h (Z.to_nat (nHeight b - locator_height (nHeight b) i))) /\
    locator_height (nHeight b) k = 0 /\ (forall i, (i < k)%nat -> 0 < locator_height (nHeight b) i) /\
    Z.of_nat k <= 11 + Z.log2 (nHeight b).
Proof.
  intros Hs Eh Hb. apply reachable_ok, mo_index in Hs. destruct (Hs h b Eh) as [_ Hh _ _ _ _].
  assert (locator_height (nHeight b) 0 = nHeight b) as E0 by (unfold locator_height; cbn [Nat.leb]; lia).
  destruct (LocatorEntries_loop_spec (m_block_index s) (S (Z.to_nat (nHeight b))) h b 0 h b []) as (k & l & E & Hlen & Hk & Hpos & Hl);
    try assumption; try reflexivity; try lia.
  { replace (nHeight b - nHeight b) with 0 by lia. reflexivity. }
  exists k, l. unfold LocatorEntries. rewrite Eh. cbn [mbind option_bind]. split; [exact E|].
  split; [exact Hlen|]. split; [exact Hl|]. split; [exact Hk|]. split; [exact Hpos|].
  destruct (le_lt_dec k 11) as [Hle|Hgt]; [pose proof (Z.log2_nonneg (nHeight b)); lia|].
  specialize (Hpos (k - 1)%nat ltac:(lia)). cbn [Nat.add] in Hpos. unfold locator_height in Hpos.
  destruct (Nat.leb_spec (k - 1) 10); [lia|].
  assert (Z.of_nat (k - 1) - 10 <= Z.log2 (nHeight b)); [|lia].
  apply Z.log2_le_pow2; [|lia]. lia.
Qed.
Lemma LocatorEntries_exact_witness :
  exists k l, LocatorEntries (m_block_index toy_manager) (Some 1009) = Some l /\ length l = S k.
Proof.
  destruct (m_block_index toy_manager !! 1009) as [b|] eqn:E; [|vm_compute in E; discriminate].
  destruct (LocatorEntries_exact toy_hash toy_manager 1009 b toy_reachable E) as (k & l & E1 & E2 & _).
  - vm_compute in E. injection E as <-. cbn. lia.
  - exists k, l. split; [exact E1|exact E2].
Defined.
