(* ===== verification/Pow.v ===== *)
(** * Proof of work

    [src/pow.cpp]: the next target (ASERT and the classic retarget), the range
    check of header synchronisation, and the check of a hash against its
    target.  The 256-bit arithmetic is the digit arithmetic of
    [ArithUint256], blocks are entries of the index of [BlockIndex].  A
    failed assertion, a null pointer or a division by zero is [None].

    [asert_target] is the rule the comments describe, on integers: the
    anchor's target times a fixed-point power of two of the schedule error,
    clamped to [1, powLimit].  The theorems say that the code computes the
    compact form of it without overflow, that it is monotone in the block
    time, and that header synchronisation accepts consecutive targets. *)

From S2P Require Import Prelude ConsensusParams ArithUint256 BlockIndex.

Local Open Scope Z_scope.

(** ** The code *)

(** [bnPowLimit] *)
Definition bn_limit (params : Params) : list Z := UintToArith256 (powLimit params).

(** [AsertGetNextWorkRequired], in the order of the code. *)
Definition asert_exponent (schedule_error halflife : Z) : Z :=
  let numerator := i64 (schedule_error * 65536) in
  let exponent := numerator /c halflife in
  if (numerator <? 0) && negb (numerator %c halflife =? 0) then exponent - 1 else exponent.
Definition asert_factor (frac : Z) : Z :=
  u64 (65536 + Z.shiftr (u64 (u64 (u64 (u64 (195766423245049 * frac) + u64 (u64 (971821376 * frac) * frac))
    + u64 (u64 (u64 (5127 * frac) * frac) * frac)) + u64 (Z.shiftl 1 47))) 48).
Definition asert_finish (bnPowLimit target : list Z) : option Z :=
  let target := if EqualTo target 0 then of_u64 1 else target in
  let target := if gt target bnPowLimit then bnPowLimit else target in
  GetCompact target false.
Definition asert_scale (target bnPowLimit : list Z) (exponent : Z) : option Z :=
  let shifts := Z.shiftr exponent 16 in
  let frac := u16 exponent in
  let target := mul32 (shr target 16) (u32 (asert_factor frac)) in
  if shifts <? 0 then
    let right := - shifts in
    if right >=? 256 then GetCompact (of_u64 1) false else asert_finish bnPowLimit (shr target (u32 right))
  else if (shifts >=? 256) || gt target (shr bnPowLimit (u32 (i32 shifts)))
  then asert_finish bnPowLimit bnPowLimit
  else asert_finish bnPowLimit (shl target (u32 shifts)).
Definition AsertGetNextWorkRequired (m : BlockMap) (pindexLast : Z) (params : Params) : option Z :=
  last ← m !! pindexLast;
  if fPowNoRetargeting params then Some (nBits last) else
  if negb (nASERTHalfLife params >? 0) then None else
  anchor_ptr ← GetAncestor m pindexLast 0;
  anchor ← deref m anchor_ptr;
  let target := fst (fst (SetCompact (nBits anchor))) in
  let height_diff := i32 (nHeight last - nHeight anchor) in
  let time_diff := i64 (GetBlockTime last - GetBlockTime anchor) in
  let schedule_error := i64 (time_diff - i64 (height_diff * nPowTargetSpacing params)) in
  asert_scale target (bn_limit params) (asert_exponent schedule_error (nASERTHalfLife params)).

(** [bnNew *= nActualTimespan] takes the [uint32_t] overload. *)
Definition CalculateNextWorkRequired (m : BlockMap) (pindexLast nFirstBlockTime : Z) (params : Params) : option Z :=
  last ← m !! pindexLast;
  if fPowNoRetargeting params then Some (nBits last) else
  let nActualTimespan := i64 (GetBlockTime last - nFirstBlockTime) in
  let nActualTimespan := if nActualTimespan <? nPowTargetTimespan params /c 4 then nPowTargetTimespan params /c 4
                         else nActualTimespan in
  let nActualTimespan := if nActualTimespan >? i64 (nPowTargetTimespan params * 4) then i64 (nPowTargetTimespan params * 4)
                         else nActualTimespan in
  bits ← (if enforce_BIP94 params then
            let nHeightFirst := i32 (nHeight last - (DifficultyAdjustmentInterval params - 1)) in
            p ← GetAncestor m pindexLast nHeightFirst; first ← deref m p; Some (nBits first)
          else Some (nBits last));
  let bnNew := fst (fst (SetCompact bits)) in
  let bnNew := mul32 bnNew (u32 nActualTimespan) in
  bnNew ← div bnNew (of_u64 (u64 (nPowTargetTimespan params)));
  let bnNew := if gt bnNew (bn_limit params) then bn_limit params else bnNew in
  GetCompact bnNew false.

(** The search for the last block that is not a minimum-difficulty one. *)
Fixpoint last_real_bits (fuel : nat) (m : BlockMap) (pindex interval limit : Z) : option Z :=
  b ← m !! pindex;
  match pprev b with
  | Some prev =>
      if negb (nHeight b %c interval =? 0) && (nBits b =? limit)
      then match fuel with O => None | S fuel => last_real_bits fuel m prev interval limit end
      else Some (nBits b)
  | None => Some (nBits b)
  end.
Definition GetNextWorkRequired (m : BlockMap) (pindexLast : Z) (pblock : CBlockHeader) (params : Params) : option Z :=
  last ← m !! pindexLast;
  nProofOfWorkLimit ← GetCompact (bn_limit params) false;
  if i32 (nHeight last + 1) >=? nASERTActivationHeight params then AsertGetNextWorkRequired m pindexLast params else
  let interval := DifficultyAdjustmentInterval params in
  if interval =? 0 then None else
  if negb (i32 (nHeight last + 1) %c interval =? 0) then
    if fPowAllowMinDifficultyBlocks params then
      if hdr_nTime pblock >? i64 (GetBlockTime last + i64 (nPowTargetSpacing params * 2)) then Some nProofOfWorkLimit
      else last_real_bits (Z.to_nat (nHeight last)) m pindexLast interval nProofOfWorkLimit
    else Some (nBits last)
  else
    let nHeightFirst := i32 (nHeight last - (interval - 1)) in
    if negb (nHeightFirst >=? 0) then None else
    p ← GetAncestor m pindexLast nHeightFirst;
    first ← deref m p;
    CalculateNextWorkRequired m pindexLast (GetBlockTime first) params.

(** One end of the permitted range before ASERT. *)
Definition scaled_target (old_nbits timespan : Z) (params : Params) : option (list Z) :=
  let t := mul32 (fst (fst (SetCompact old_nbits))) (u32 timespan) in
  t ← div t (of_u64 (u64 (nPowTargetTimespan params)));
  let t := if gt t (bn_limit params) then bn_limit params else t in
  c ← GetCompact t false;
  Some (fst (fst (SetCompact c))).
Definition PermittedDifficultyTransition (params : Params) (height old_nbits new_nbits : Z) : option bool :=
  if fPowAllowMinDifficultyBlocks params then Some true else
  let observed_new_target := fst (fst (SetCompact new_nbits)) in
  if height >=? nASERTActivationHeight params then
    if gt observed_new_target (bn_limit params) then Some false else
    let old_target := fst (fst (SetCompact old_nbits)) in
    hardest_allowed ← div old_target (of_u64 4);
    c ← GetCompact hardest_allowed false;
    let minimum_new := fst (fst (SetCompact c)) in
    Some (negb (gt minimum_new observed_new_target))
  else
    let interval := DifficultyAdjustmentInterval params in
    if interval =? 0 then None else
    if height %c interval =? 0 then
      maximum_new_target ← scaled_target old_nbits (i64 (nPowTargetTimespan params * 4)) params;
      if gt observed_new_target maximum_new_target then Some false else
      minimum_new_target ← scaled_target old_nbits (nPowTargetTimespan params /c 4) params;
      Some (negb (gt minimum_new_target observed_new_target))
    else Some (old_nbits =? new_nbits).

Definition DeriveTarget (bits pow_limit : Z) : option (list Z) :=
  let '(bnTarget, fNegative, fOverflow) := SetCompact bits in
  if fNegative || EqualTo bnTarget 0 || fOverflow || gt bnTarget (UintToArith256 pow_limit) then None
  else Some bnTarget.
Definition CheckProofOfWorkImpl (hash bits : Z) (params : Params) : bool :=
  match DeriveTarget bits (powLimit params) with
  | None => false
  | Some bnTarget => negb (gt (UintToArith256 hash) bnTarget)
  end.

Section CheckPow.
(** [EnableFuzzDeterminism()], [CBlockHeader::GetHash] and
    [metaldag::PoWHash]. *)
Context (EnableFuzzDeterminism : bool) (GetHash : CBlockHeader -> Z) (PoWHash : CBlockHeader -> Params -> Z).

(** Byte 31 of a hash is its most significant one. *)
Definition fuzz_accepts (hash : Z) : bool := Z.land (u8 (Z.shiftr hash 248)) 0x80 =? 0.
Definition CheckProofOfWork_hash (hash bits : Z) (params : Params) : bool :=
  if EnableFuzzDeterminism then fuzz_accepts hash else CheckProofOfWorkImpl hash bits params.
Definition CheckProofOfWork (header : CBlockHeader) (bits : Z) (params : Params) : bool :=
  if GetHash header =? hashGenesisBlock params then true
  else if EnableFuzzDeterminism then fuzz_accepts (GetHash header)
  else CheckProofOfWorkImpl (PoWHash header params) bits params.
End CheckPow.

(** The vectors of [asert_reference_vectors] in [src/test/pow_tests.cpp]: anchor
    bits, height, time since the anchor, expected bits, on the two-entry index
    the test builds. *)
Definition asert_vectors : list (Z * Z * Z * Z) :=
  [(0x1e0fffff, 1, 300, 0x1e0fffff); (0x1e0fffff, 1, 0, 0x1e0f8b9f); (0x1e0fffff, 1, 600, 0x1e0fffff);
   (0x1e0fffff, 1, 7500, 0x1e0fffff); (0x1e0fffff, 1, (-6900), 0x1e07ffff); (0x1e0fffff, 1, 21900, 0x1e0fffff);
   (0x1e0fffff, 1, 72300, 0x1e0fffff); (0x1e0fffff, 64, 19200, 0x1e0fffff); (0x1e0fffff, 64, 12000, 0x1e07ffff);
   (0x1e0fffff, 64, (-9600), 0x1e00ffff); (0x1e0fffff, 64, (-25234), 0x1d38d63c); (0x1e0fffff, 1024, 235200, 0x1d03ffff);
   (0x1e0fffff, 1024, 240200, 0x1d067923); (0x1e0fffff, 1024, 255200, 0x1d1b6f1e); (0x1e0fffff, 524288, 157070400, 0x1a3ffffc);
   (0x1e0fffff, 524288, 157070399, 0x1a3ffe3c); (0x1e0fffff, 524288, 157193856, 0x1d008db5); (0x1e0fffff, 32, 32, 0x1e065e83);
   (0x1e0fffff, 64, 200064, 0x1e0fffff); (0x1e0fffff, 1, (-1439700), 0x050fffff); (0x1e0fffff, 1, (-1835800), 0x01010000);
   (0x1e0fffff, 2, (-3000), 0x1e0b500f); (0x1e0fffff, 4096, 4096, 0x0903bcff); (0x1d3fffff, 1, 21900, 0x1e01ffff);
   (0x1d3fffff, 1, (-21300), 0x1d07ffff); (0x1d3fffff, 1, 3900, 0x1d5a807e); (0x1d3fffff, 1, 72300, 0x1e0fffff);
   (0x1d3fffff, 1, 43500, 0x1e0fffff); (0x1d3fffff, 1, 36301, 0x1e08002f); (0x1d3fffff, 2, 9600, 0x1e009838);
   (0x1d3fffff, 1, 6000, 0x1d6ecc3e); (0x1d3fffff, 1, 72300, 0x1e0fffff); (0x1d3fffff, 1, 300, 0x1d3fffff);
   (0x1d3fffff, 1024, 336077, 0x1e0407a3)].
Definition vector_index (bits height delta : Z) : BlockMap :=
  let entry prev h t := set_links (CBlockIndex_of (mkHeader 0 0 0 t bits 0)) prev prev h in
  <[0 := entry None 0 1800000000]> (<[1 := entry (Some 0) height (1800000000 + delta)]> ∅).
Example asert_reference_vectors :
  forallb (fun '(bits, height, delta, expected) =>
    bool_decide (AsertGetNextWorkRequired (vector_index bits height delta) 1 CMainParams = Some expected)) asert_vectors = true.
Proof. vm_compute. reflexivity. Qed.

(** ** The rule on integers *)

(** The compact form of a number. *)
Definition compact (v : Z) : Z := mantissa v + csize v * 2 ^ 24.
(** [2^(f / 65536)] in 16.16 fixed point. *)
Definition power_of_two (f : Z) : Z :=
  65536 + (195766423245049 * f + 971821376 * f ^ 2 + 5127 * f ^ 3 + 2 ^ 47) / 2 ^ 48.
(** [x * 2^s], rounded down. *)
Definition scale2 (s x : Z) : Z := if s <? 0 then x / 2 ^ (- s) else x * 2 ^ s.
(** The target [e / 65536] half-lives behind schedule (ahead when negative). *)
Definition asert_target (anchor limit e : Z) : Z :=
  Z.max 1 (Z.min limit (scale2 (e / 65536) (anchor / 65536 * power_of_two (e mod 65536)))).

Lemma power_of_two_mono f g : 0 <= f <= g -> power_of_two f <= power_of_two g.
Proof.
  intros H. unfold power_of_two. apply Z.add_le_mono_l. apply Z.div_le_mono; [lia|].
  assert (f ^ 2 <= g ^ 2) by (apply Z.pow_le_mono_l; lia). assert (f ^ 3 <= g ^ 3) by (apply Z.pow_le_mono_l; lia). lia.
Qed.
Lemma power_of_two_range f : 0 <= f < 65536 -> 65536 <= power_of_two f <= 131071.
Proof.
  intros Hf. split; [etransitivity; [|apply (power_of_two_mono 0 f); lia]; vm_compute; discriminate|].
  etransitivity; [apply (power_of_two_mono f 65535); lia|]. vm_compute. discriminate.
Qed.
Lemma asert_factor_spec f : 0 <= f < 65536 -> asert_factor f = power_of_two f.
Proof.
  intros Hf. pose proof (power_of_two_range f Hf) as Hp. unfold power_of_two in Hp. unfold asert_factor, power_of_two.
  assert (0 <= f * f <= 65535 * 65535) as H2 by nia. assert (0 <= f * f * f <= 65535 * 65535 * 65535) as H3 by nia.
  change (f ^ 2) with (f * (f * 1)) in *. change (f ^ 3) with (f * (f * (f * 1))) in *. rewrite !Z.mul_1_r in *.
  change (u64 (Z.shiftl 1 47)) with (2 ^ 47).
  rewrite (u64_id (195766423245049 * f)), (u64_id (971821376 * f)), (u64_id (971821376 * f * f)), (u64_id (5127 * f)),
    (u64_id (5127 * f * f)), (u64_id (5127 * f * f * f)) by (unfold is_u64; lia).
  rewrite (u64_id (195766423245049 * f + 971821376 * f * f)) by (unfold is_u64; lia).
  rewrite (u64_id (195766423245049 * f + 971821376 * f * f + 5127 * f * f * f)) by (unfold is_u64; lia).
  rewrite (u64_id (195766423245049 * f + 971821376 * f * f + 5127 * f * f * f + 2 ^ 47)) by (unfold is_u64; lia).
  rewrite shiftr_div by lia. replace (971821376 * f * f) with (971821376 * (f * f)) by ring.
  replace (5127 * f * f * f) with (5127 * (f * (f * f))) by ring. apply u64_id. unfold is_u64. lia.
Qed.

Lemma asert_exponent_spec x halflife :
  is_i64 (x * 65536) -> 0 < halflife -> asert_exponent x halflife = x * 65536 / halflife.
Proof.
  intros Hx Hh. unfold asert_exponent. rewrite i64_id by exact Hx. set (n := x * 65536).
  pose proof (Z.quot_rem n halflife ltac:(lia)) as Hqr. pose proof (Z.rem_bound_abs n halflife ltac:(lia)) as Hb.
  destruct (Z.ltb_spec n 0) as [Hneg|Hpos]; cbn [andb].
  - pose proof (Z.rem_nonpos n halflife ltac:(lia) ltac:(lia)) as Hr.
    destruct (Z.eqb_spec (n %c halflife) 0) as [E|E]; cbn [negb].
    + apply (Z.div_unique n halflife _ 0); lia.
    + apply (Z.div_unique n halflife _ (n %c halflife + halflife)); lia.
  - apply Z.quot_div_nonneg; lia.
Qed.

Lemma scale2_mono s x y : 0 <= x <= y -> scale2 s x <= scale2 s y.
Proof.
  intros H. unfold scale2. destruct (Z.ltb_spec s 0).
  - apply Z.div_le_mono; [apply Z.pow_pos_nonneg; lia|lia].
  - apply Z.mul_le_mono_nonneg_r; [apply Z.pow_nonneg|]; lia.
Qed.
(** One more doubling. *)
Lemma scale2_succ s x y : 0 <= x <= 2 * y -> scale2 s x <= scale2 (s + 1) y.
Proof.
  intros H. unfold scale2. destruct (Z.ltb_spec s 0), (Z.ltb_spec (s + 1) 0); try lia.
  - replace (- s) with (1 + - (s + 1)) by lia. rewrite Z.pow_add_r by lia.
    assert (0 < 2 ^ (- (s + 1))) by (apply Z.pow_pos_nonneg; lia). rewrite <- Z.div_div by lia.
    apply Z.div_le_mono; [lia|]. apply Z.div_le_upper_bound; lia.
  - replace s with (-1) by lia. change (2 ^ (-1 + 1)) with 1. change (2 ^ (- (-1))) with 2. apply Z.div_le_upper_bound; lia.
  - rewrite Z.pow_add_r by lia. change (2 ^ 1) with 2. assert (0 <= 2 ^ s) by (apply Z.pow_nonneg; lia). nia.
Qed.
Lemma scale2_mono_s s n x : 0 <= x -> 0 <= n -> scale2 s x <= scale2 (s + n) x.
Proof.
  intros Hx Hn. pattern n. apply Zlt_0_ind; [|exact Hn]. intros k IH Hk.
  destruct (Z.eq_dec k 0) as [->|]; [rewrite Z.add_0_r; reflexivity|].
  etransitivity; [apply (IH (k - 1)); lia|]. replace (s + k) with (s + (k - 1) + 1) by lia. apply scale2_succ. lia.
Qed.
Lemma scale2_quarter s x : 0 <= x -> scale2 (s - 2) x = scale2 s x / 4.
Proof.
  intros Hx. unfold scale2. destruct (Z.ltb_spec (s - 2) 0), (Z.ltb_spec s 0); try lia.
  - replace (- (s - 2)) with (- s + 2) by lia. rewrite Z.pow_add_r by lia. change (2 ^ 2) with 4.
    apply eq_sym, Z.div_div; [|lia]. assert (0 < 2 ^ (- s)) by (apply Z.pow_pos_nonneg; lia). lia.
  - assert (s = 0 \/ s = 1) as [-> | ->] by lia; cbn [Z.sub Z.add Z.opp Z.pos_sub Z.pred_double].
    + rewrite Z.mul_1_r. reflexivity.
    + change (2 ^ (- (1 - 2))) with 2. change (2 ^ 1) with 2. change 4 with (2 * 2). rewrite Z.div_mul_cancel_r by lia. reflexivity.
  - replace s with (s - 2 + 2) at 2 by lia. rewrite Z.pow_add_r by lia. change (2 ^ 2) with 4.
    rewrite Z.mul_assoc, Z.div_mul by lia. reflexivity.
Qed.

Section Target.
Context (anchor limit : Z) (Hanchor : 65536 <= anchor <= limit) (Hlimit : limit < 2 ^ 255).

Lemma asert_target_range e : 1 <= asert_target anchor limit e <= limit.
Proof using Hanchor. unfold asert_target. lia. Qed.
Lemma anchor_pos : 1 <= anchor / 65536.
Proof using Hanchor. apply Z.div_le_lower_bound; lia. Qed.
Lemma asert_target_mono e e' : e <= e' -> asert_target anchor limit e <= asert_target anchor limit e'.
Proof using Hanchor.
  intros He. unfold asert_target. apply Z.max_le_compat_l, Z.min_le_compat_l.
  pose proof anchor_pos as Ha. pose proof (Z.div_mod e 65536 ltac:(lia)) as E1. pose proof (Z.div_mod e' 65536 ltac:(lia)) as E2.
  pose proof (Z.mod_pos_bound e 65536 ltac:(lia)) as B1. pose proof (Z.mod_pos_bound e' 65536 ltac:(lia)) as B2.
  pose proof (power_of_two_range _ B1) as P1. pose proof (power_of_two_range _ B2) as P2.
  destruct (Z.eq_dec (e / 65536) (e' / 65536)) as [E|E].
  - rewrite E. apply scale2_mono. pose proof (power_of_two_mono (e mod 65536) (e' mod 65536) ltac:(lia)). nia.
  - etransitivity; [apply (scale2_succ _ _ (anchor / 65536 * power_of_two (e' mod 65536))); nia|].
    replace (e' / 65536) with (e / 65536 + 1 + (e' / 65536 - e / 65536 - 1)) by lia. apply scale2_mono_s; nia.
Qed.
(** Two half-lives less schedule error make the target at most four times
    smaller. *)
Lemma asert_target_quarter e e' : e - 131072 <= e' -> asert_target anchor limit e / 4 <= asert_target anchor limit e'.
Proof using Hanchor.
  intros He. etransitivity; [|apply asert_target_mono; exact He].
  unfold asert_target. replace (e - 131072) with (e + (-2) * 65536) by lia. rewrite Z.div_add, Z.mod_add by lia.
  pose proof anchor_pos as Ha. pose proof (Z.mod_pos_bound e 65536 ltac:(lia)) as B1. pose proof (power_of_two_range _ B1) as P1.
  replace (e / 65536 + -2) with (e / 65536 - 2) by lia. rewrite scale2_quarter by nia.
  set (r := scale2 _ _). clearbody r. clear -Hanchor.
  assert (Z.max 1 (Z.min limit r) / 4 <= Z.max (1 / 4) (Z.min (limit / 4) (r / 4))) as H.
  { destruct (Z.max_spec 1 (Z.min limit r)) as [[_ ->]|[_ ->]]; [|lia].
    destruct (Z.min_spec limit r) as [[Hlt ->]|[Hlt ->]].
    - pose proof (Z.div_le_mono limit r 4 ltac:(lia) ltac:(lia)). lia.
    - pose proof (Z.div_le_mono r limit 4 ltac:(lia) ltac:(lia)). lia. }
  change (1 / 4) with 0 in H. assert (limit / 4 <= limit) by (apply Z.div_le_upper_bound; lia). lia.
Qed.

Lemma rep_compact v t : represents v t -> GetCompact t false = Some (compact v).
Proof. apply rep_GetCompact. Qed.

Lemma asert_scale_spec t p e :
  represents anchor t -> represents limit p -> asert_scale t p e = Some (compact (asert_target anchor limit e)).
Proof using Hanchor Hlimit.
  intros Rt Rp. unfold asert_scale. pose proof anchor_pos as Ha. pose proof (Z.mod_pos_bound e 65536 ltac:(lia)) as B.
  pose proof (power_of_two_range _ B) as P. rewrite shiftr_div, u16_mod, asert_factor_spec by lia.
  change (2 ^ 16) with 65536. rewrite u32_id by (unfold is_u32; lia). unfold asert_target.
  set (s := e / 65536). set (F := power_of_two (e mod 65536)) in *. set (A := anchor / 65536) in *.
  assert (2 ^ 255 * 2 = R) as HR by reflexivity. assert (A * 65536 <= anchor) as HA by (unfold A; zlia).
  assert (represents (A * F) (mul32 (shr t 16) F)) as RA.
  { apply (rep_change (rep_mul32 (rep_shr Rt 16 ltac:(lia)) F ltac:(unfold is_u32; lia))). apply Z.mod_small. fold A. nia. }
  set (tf := mul32 (shr t 16) F) in *. clearbody tf.
  assert (forall v x, represents v x -> v <= limit ->
    asert_finish p x = Some (compact (Z.max 1 v))) as Hfin.
  { intros v x Rx Hv. pose proof (rep_bound Rx) as Bx. unfold asert_finish. rewrite (rep_EqualTo Rx 0) by (unfold is_u64; lia).
    destruct (Z.eqb_spec v 0) as [->|Hne].
    - rewrite (rep_gt rep_one Rp). replace (1 >? limit) with false by lia. apply (rep_compact 1), rep_one.
    - rewrite (rep_gt Rx Rp). replace (v >? limit) with false by lia. rewrite Z.max_r by lia. apply rep_compact, Rx. }
  unfold scale2. destruct (Z.ltb_spec s 0) as [Hneg|Hpos].
  - rewrite Z.geb_leb. destruct (Z.leb_spec 256 (- s)) as [Hbig|Hsmall].
    + assert (A * F / 2 ^ (- s) = 0) as ->.
      { apply Z.div_small. split; [nia|]. apply Z.lt_le_trans with R; [pose proof (rep_bound RA); lia|].
        unfold R. apply Z.pow_le_mono_r; lia. }
      replace (Z.max 1 (Z.min limit 0)) with 1 by lia. apply (rep_compact 1), rep_one.
    + rewrite u32_id by (unfold is_u32; lia). pose proof (rep_shr RA (- s) ltac:(lia)) as Rs.
      assert (A * F / 2 ^ (- s) <= limit) as Hle.
      { assert (1 <= - s) by lia. replace (- s) with (1 + (- s - 1)) by lia. rewrite Z.pow_add_r by lia.
        assert (0 < 2 ^ (- s - 1)) by (apply Z.pow_pos_nonneg; lia). apply Z.div_le_upper_bound; [lia|]. nia. }
      rewrite (Hfin _ _ Rs Hle), Z.min_r by exact Hle. reflexivity.
  - rewrite Z.geb_leb. destruct (Z.leb_spec 256 s) as [Hbig|Hsmall]; cbn [orb].
    + rewrite (Hfin _ _ Rp) by lia. do 3 f_equal. symmetry. apply Z.min_l.
      assert (2 ^ 256 <= 2 ^ s) by (apply Z.pow_le_mono_r; lia). change (2 ^ 256) with R in *. nia.
    + rewrite i32_id, u32_id by (unfold is_i32, is_u32; lia). rewrite (rep_gt RA (rep_shr Rp s Hpos)), Z.gtb_ltb.
      assert (0 < 2 ^ s) as HP by (apply Z.pow_pos_nonneg; lia).
      destruct (Z.ltb_spec (limit / 2 ^ s) (A * F)) as [Hgt|Hle].
      * rewrite (Hfin _ _ Rp) by lia. do 3 f_equal. symmetry. apply Z.min_l.
        pose proof (Z.div_mod limit (2 ^ s) ltac:(lia)). pose proof (Z.mod_pos_bound limit (2 ^ s) HP). nia.
      * assert (A * F * 2 ^ s <= limit) as Hb.
        { pose proof (Z.div_mod limit (2 ^ s) ltac:(lia)). pose proof (Z.mod_pos_bound limit (2 ^ s) HP). nia. }
        rewrite Z.min_r by exact Hb. apply Hfin; [|exact Hb].
        apply (rep_change (rep_shl RA s Hpos)). apply Z.mod_small. split; [nia|lia].
Qed.
End Target.

(** ** Decoding a compact target *)

Lemma SetCompact_compact v : 0 <= v < R -> is_u32 (compact v) /\ SetCompact (compact v) = (UintToArith256 (trunc v), false, false).
Proof.
  intros Hv. pose proof (rep_UintToArith256 v Hv) as Rv. pose proof (rep_compact v _ Rv) as E.
  destruct (SetCompact_GetCompact _ _ (rep_ok _ _ Rv) E) as [H1 H2]. rewrite (rep_val _ _ Rv) in H2. auto.
Qed.
Lemma rep_decode v : 0 <= v < R -> represents (trunc v) (fst (fst (SetCompact (compact v)))).
Proof.
  intros Hv. destruct (SetCompact_compact v Hv) as [_ ->]. cbn [fst]. apply rep_UintToArith256.
  pose proof (trunc_range v ltac:(lia)). lia.
Qed.
Lemma trunc_pos v : 1 <= v -> 1 <= trunc v.
Proof. intros Hv. pose proof (trunc_range v ltac:(lia)). lia. Qed.

(** ** ASERT over the block index *)

Record asert_params_ok (params : Params) : Prop := {
  ap_halflife : 0 < nASERTHalfLife params;
  ap_spacing : 0 <= nPowTargetSpacing params <= 32768;
  ap_limit : 0 < powLimit params < 2 ^ 255;
  ap_retarget : fPowNoRetargeting params = false
}.
Lemma CMainParams_asert_ok : asert_params_ok CMainParams.
Proof. split; [reflexivity|vm_compute; split; discriminate|vm_compute; split; reflexivity|reflexivity]. Qed.

(** The target of the root of the index, and the fixed-point number of
    half-lives by which a block is behind schedule. *)
Definition anchor_ok (params : Params) (root : CBlockIndex) : Prop :=
  65536 <= compact_value (nBits root) <= powLimit params.
Definition behind_schedule (params : Params) (last root : CBlockIndex) : Z :=
  (nTime last - nTime root - nHeight last * nPowTargetSpacing params) * 65536 / nASERTHalfLife params.
Definition asert_rule (params : Params) (last root : CBlockIndex) : Z :=
  asert_target (compact_value (nBits root)) (powLimit params) (behind_schedule params last root).

Lemma limit_R x : x < 2 ^ 255 -> x < R.
Proof. intros H. assert (2 ^ 255 < R) by reflexivity. lia. Qed.

Section Asert.
Context {s : BlockManager} (Hs : manager_ok s) (params : Params) (Hp : asert_params_ok params).
Context (r : Z) (root : CBlockIndex) (Er : m_block_index s !! r = Some root) (Hr : pprev root = None)
  (Ha : anchor_ok params root).

Lemma the_root h last :
  m_block_index s !! h = Some last -> nth_prev (m_block_index s) h (Z.to_nat (nHeight last)) = Some r.
Proof using Hs Er Hr.
  intros Eh. destruct Hs as [Hm Hroot _ _ _]. destruct (Hm h last Eh) as [_ Hh _ _ _ _].
  destruct (nth_prev_exists Hm h last (Z.to_nat (nHeight last)) Eh ltac:(lia)) as (x & bx & W & Ex & Hx). rewrite W. f_equal.
  apply (Hroot x bx r root Ex Er); [|exact Hr]. apply (root_height Hm x bx Ex). lia.
Qed.
Lemma root_nHeight : nHeight root = 0.
Proof using Hs Er Hr. apply (root_height (mo_index _ Hs) r root Er), Hr. Qed.

Lemma Asert_spec h last :
  m_block_index s !! h = Some last -> AsertGetNextWorkRequired (m_block_index s) h params = Some (compact (asert_rule params last root)).
Proof using Hs Hp Er Hr Ha.
  intros Eh. destruct Hp as [H1 H2 H3 H4]. pose proof (mo_index _ Hs) as Hm. destruct (Hm h last Eh) as [_ Hh Ht _ _ _].
  destruct (Hm r root Er) as [_ _ Htr Hb _ _]. unfold AsertGetNextWorkRequired. rewrite Eh, H4. cbn [mbind option_bind].
  replace (nASERTHalfLife params >? 0) with true by lia. cbn [negb].
  rewrite (GetAncestor_spec Hm h last 0 Eh). replace ((0 >? nHeight last) || (0 <? 0)) with false by lia.
  rewrite Z.sub_0_r, (the_root h last Eh). cbn [mbind option_bind deref]. rewrite Er. cbn [mbind option_bind].
  rewrite root_nHeight, Z.sub_0_r. unfold GetBlockTime, is_u32 in *.
  assert (0 <= nHeight last * nPowTargetSpacing params <= 2 ^ 31 * 32768) as Hhs by nia.
  rewrite (i32_id (nHeight last)) by (unfold is_i32; lia).
  rewrite (i64_id (nTime last - nTime root)), (i64_id (nHeight last * _)) by (unfold is_i64; lia).
  rewrite i64_id by (unfold is_i64; lia). rewrite asert_exponent_spec by (unfold is_i64; lia).
  apply asert_scale_spec; [exact Ha|apply H3| |].
  - apply (rep_change (rep_SetCompact (nBits root) Hb)). apply Z.mod_small. unfold anchor_ok in Ha.
    split; [lia|]. apply limit_R. lia.
  - apply rep_UintToArith256. split; [lia|]. apply limit_R. lia.
Qed.
Lemma asert_rule_range last : 1 <= asert_rule params last root <= powLimit params /\ asert_rule params last root < R.
Proof using Hp Ha.
  assert (1 <= asert_rule params last root <= powLimit params) as H by (apply asert_target_range; exact Ha).
  split; [exact H|]. apply limit_R. destruct Hp as [_ _ H3 _]. lia.
Qed.

(** The target the header of a block carries: the anchor's own, or the rule
    at its predecessor. *)
Definition carries (h : Z) (b : CBlockIndex) : Prop :=
  match pprev b with
  | None => True
  | Some p => exists pb, m_block_index s !! p = Some pb /\ nBits b = compact (asert_rule params pb root) /\
      nTime pb + nPowTargetSpacing params - 2 * nASERTHalfLife params <= nTime b
  end.
(** What header synchronisation needs: no target falls below a quarter of the
    one before it. *)
Lemma asert_step h b v :
  m_block_index s !! h = Some b -> carries h b -> represents v (fst (fst (SetCompact (nBits b)))) ->
  v / 4 <= asert_rule params b root /\ 0 <= v < R.
Proof using Hs Hp Er Hr Ha.
  intros Eh Hc Rv. pose proof (rep_bound Rv) as Bv. split; [|exact Bv]. unfold carries in Hc.
  pose proof (mo_index _ Hs) as Hm. destruct (Hm h b Eh) as [_ Hh _ _ _ Hlink].
  destruct (pprev b) as [p|] eqn:Ep.
  - destruct Hc as (pb & Epb & Eb & Ht). rewrite Eb in Rv. destruct (asert_rule_range pb) as [Hr1 Hr2].
    pose proof (rep_decode (asert_rule params pb root) ltac:(lia)) as Rv'.
    assert (v = trunc (asert_rule params pb root)) as -> by (rewrite <- (rep_val _ _ Rv), (rep_val _ _ Rv'); reflexivity).
    destruct (trunc_range (asert_rule params pb root) ltac:(lia)) as [Htr _].
    etransitivity; [apply Z.div_le_mono; [lia|apply Htr]|]. apply asert_target_quarter; [exact Ha|].
    unfold behind_schedule. destruct Hp as [H1 H2 H3 H4]. destruct (Hlink p eq_refl) as (pb' & Epb' & Hhb & _).
    rewrite Epb in Epb'. injection Epb' as <-. rewrite Hhb.
    set (d := nTime pb - nTime root - nHeight pb * nPowTargetSpacing params).
    replace (d * 65536 / nASERTHalfLife params - 131072) with (d * 65536 / nASERTHalfLife params + (-131072)) by lia.
    rewrite <- Z.div_add by lia. apply Z.div_le_mono; [lia|]. lia.
  - assert (h = r) as -> by (apply (mo_root _ Hs h b r root Eh Er Ep Hr)). rewrite Er in Eh. injection Eh as <-.
    destruct (Hm r root Er) as [_ _ _ Hb _ _]. unfold anchor_ok in Ha. destruct Hp as [H1 H2 H3 H4].
    pose proof (rep_SetCompact (nBits root) Hb) as Rv'. rewrite Z.mod_small in Rv' by (split; [lia|apply limit_R; lia]).
    assert (v = compact_value (nBits root)) as -> by (rewrite <- (rep_val _ _ Rv), (rep_val _ _ Rv'); reflexivity).
    unfold asert_rule, behind_schedule. rewrite root_nHeight.
    replace (nTime root - nTime root - 0 * nPowTargetSpacing params) with 0 by lia. rewrite Z.mul_0_l, Z.div_0_l by lia.
    unfold asert_target. change (0 / 65536) with 0. change (power_of_two (0 mod 65536)) with 65536. unfold scale2. cbn [Z.ltb Z.compare].
    change (2 ^ 0) with 1. set (T := compact_value (nBits root)) in *. clearbody T.
    assert (T / 4 <= T / 65536 * 65536 * 1) by zlia. assert (T / 4 <= powLimit params) by zlia. lia.
Qed.
End Asert.

(** ** The component *)

(** C32: ASERT is computed exactly: for a block of a reachable index whose root
    carries a target between [2^16] and [powLimit], the 64-bit and 256-bit
    arithmetic of [AsertGetNextWorkRequired] does not overflow, no assertion
    fails, and the result is the compact form of the rule on integers: the
    root's target times [2^(error / half-life)] in 16.16 fixed point,
    clamped to [1, powLimit]; that result decodes to a target in range. *)
Theorem asert_exact GetHash s params r root h last :
  reachable GetHash s -> asert_params_ok params ->
  m_block_index s !! r = Some root -> pprev root = None -> anchor_ok params root ->
  m_block_index s !! h = Some last ->
  AsertGetNextWorkRequired (m_block_index s) h params = Some (compact (asert_rule params last root)) /\
  1 <= asert_rule params last root <= powLimit params /\
  exists t, DeriveTarget (compact (asert_rule params last root)) (powLimit params) = Some t /\
    represents (trunc (asert_rule params last root)) t.
Proof.
  intros Hs Hp Er Hr Ha Eh. apply reachable_ok in Hs. split; [exact (Asert_spec Hs params Hp r root Er Hr Ha h last Eh)|].
  destruct (asert_rule_range params Hp root Ha last) as [H1 H2]. split; [exact H1|].
  destruct (SetCompact_compact (asert_rule params last root) ltac:(lia)) as [_ E]. unfold DeriveTarget. rewrite E.
  pose proof (trunc_range (asert_rule params last root) ltac:(lia)) as [Ht _]. pose proof (trunc_pos _ (proj1 H1)) as Htp.
  assert (represents (trunc (asert_rule params last root)) (UintToArith256 (trunc (asert_rule params last root)))) as Rt
    by (apply rep_UintToArith256; lia).
  assert (represents (powLimit params) (UintToArith256 (powLimit params))) as Rl.
  { apply rep_UintToArith256. destruct Hp as [_ _ H3 _]. split; [lia|]. apply limit_R. lia. }
  rewrite (rep_EqualTo Rt 0), (rep_gt Rt Rl) by (unfold is_u64; lia).
  replace (trunc _ =? 0) with false by lia. replace (trunc _ >? powLimit params) with false by lia. cbn [orb]. eauto.
Qed.
Lemma toy_root : exists root, m_block_index toy_manager !! 1000 = Some root /\ pprev root = None /\ anchor_ok CMainParams root.
Proof.
  destruct (m_block_index toy_manager !! 1000) as [b|] eqn:E; [|vm_compute in E; discriminate]. exists b.
  vm_compute in E. injection E as <-. split; [reflexivity|]. split; [reflexivity|]. vm_compute. split; discriminate.
Qed.
Lemma asert_exact_witness :
  exists last root, m_block_index toy_manager !! 1009 = Some last /\
    AsertGetNextWorkRequired (m_block_index toy_manager) 1009 CMainParams = Some (compact (asert_rule CMainParams last root)).
Proof.
  destruct toy_root as (root & Er & Hr & Ha).
  destruct (m_block_index toy_manager !! 1009) as [last|] eqn:E; [|vm_compute in E; discriminate].
  exists last, root. split; [reflexivity|].
  apply (asert_exact toy_hash toy_manager CMainParams 1000 root 1009 last toy_reachable CMainParams_asert_ok Er Hr Ha E).
Defined.

(** The difficulty follows the clock: of two blocks of an index, the one
    further behind its schedule (a later time at the same height, for
    instance) is followed by a target that is not smaller, also after the
    rounding of the compact form. *)
Theorem asert_monotone GetHash s params r root a b ba bb :
  reachable GetHash s -> asert_params_ok params ->
  m_block_index s !! r = Some root -> pprev root = None -> anchor_ok params root ->
  m_block_index s !! a = Some ba -> m_block_index s !! b = Some bb ->
  nTime ba - nHeight ba * nPowTargetSpacing params <= nTime bb - nHeight bb * nPowTargetSpacing params ->
  exists ca cb, AsertGetNextWorkRequired (m_block_index s) a params = Some ca /\
    AsertGetNextWorkRequired (m_block_index s) b params = Some cb /\
    val (fst (fst (SetCompact ca))) <= val (fst (fst (SetCompact cb))) /\ bits_work cb <= bits_work ca.
Proof.
  intros Hs Hp Er Hr Ha Ea Eb Hle. apply reachable_ok in Hs. do 2 eexists.
  split; [exact (Asert_spec Hs params Hp r root Er Hr Ha a ba Ea)|]. split; [exact (Asert_spec Hs params Hp r root Er Hr Ha b bb Eb)|].
  destruct (asert_rule_range params Hp root Ha ba) as [A1 A2]. destruct (asert_rule_range params Hp root Ha bb) as [B1 B2].
  assert (asert_rule params ba root <= asert_rule params bb root) as Hrule.
  { apply asert_target_mono; [exact Ha|]. unfold behind_schedule. apply Z.div_le_mono; [apply Hp|]. lia. }
  pose proof (trunc_mono _ _ (conj (Z.le_trans _ _ _ Z.le_0_1 (proj1 A1)) Hrule)) as Htr.
  split; [rewrite (rep_val _ _ (rep_decode (asert_rule params ba root) ltac:(lia))), (rep_val _ _ (rep_decode (asert_rule params bb root) ltac:(lia))); exact Htr|].
  unfold bits_work, compact. destruct (compact_value_encoded (asert_rule params ba root) ltac:(lia)) as (_ & -> & _ & Ca & _).
  destruct (compact_value_encoded (asert_rule params bb root) ltac:(lia)) as (_ & -> & _ & Cb & _).
  pose proof (trunc_range (asert_rule params ba root) ltac:(lia)) as [Ra _].
  pose proof (trunc_range (asert_rule params bb root) ltac:(lia)) as [Rb _].
  pose proof (trunc_pos _ (proj1 A1)) as Pa. pose proof (trunc_pos _ (proj1 B1)) as Pb.
  assert (forall x, 1 <= x < R -> ((x =? 0) || (R <=? x)) = false) as Hx by (intros; lia).
  rewrite <- !orb_assoc, !Hx by lia. replace (2 ^ 23 <=? _) with false by lia. replace (2 ^ 23 <=? _) with false by lia. cbn [orb].
  apply Z.div_le_compat_l; [apply Z.pow_nonneg; lia|lia].
Qed.
Lemma asert_monotone_witness :
  exists ca cb, AsertGetNextWorkRequired (m_block_index toy_manager) 1009 CMainParams = Some ca /\
    AsertGetNextWorkRequired (m_block_index toy_manager) 1022 CMainParams = Some cb /\ bits_work cb <= bits_work ca.
Proof.
  destruct toy_root as (root & Er & Hr & Ha).
  destruct (m_block_index toy_manager !! 1009) as [ba|] eqn:E1; [|vm_compute in E1; discriminate].
  destruct (m_block_index toy_manager !! 1022) as [bb|] eqn:E2; [|vm_compute in E2; discriminate].
  destruct (asert_monotone toy_hash toy_manager CMainParams 1000 root 1009 1022 ba bb toy_reachable CMainParams_asert_ok Er Hr Ha E1 E2)
    as (ca & cb & H1 & H2 & _ & H3).
  - vm_compute in E1, E2. injection E1 as <-. injection E2 as <-. vm_compute. discriminate.
  - exists ca, cb. auto.
Defined.

(** Header synchronisation rejects nothing the difficulty rule produces:
    for a block that carries the root's target or the ASERT target of its
    predecessor, and whose time is at most two half-lives (less one spacing)
    before its predecessor's, [PermittedDifficultyTransition] accepts the
    ASERT target that follows it. *)
Theorem asert_transition_permitted GetHash s params r root h b :
  reachable GetHash s -> asert_params_ok params ->
  m_block_index s !! r = Some root -> pprev root = None -> anchor_ok params root ->
  m_block_index s !! h = Some b -> nASERTActivationHeight params <= nHeight b + 1 ->
  carries (s := s) params root h b ->
  exists new, AsertGetNextWorkRequired (m_block_index s) h params = Some new /\
    PermittedDifficultyTransition params (nHeight b + 1) (nBits b) new = Some true.
Proof.
  intros Hs Hp Er Hr Ha Eh Hact Hc. apply reachable_ok in Hs. eexists. split; [exact (Asert_spec Hs params Hp r root Er Hr Ha h b Eh)|].
  unfold PermittedDifficultyTransition. destruct (fPowAllowMinDifficultyBlocks params); [reflexivity|].
  replace (nHeight b + 1 >=? nASERTActivationHeight params) with true by lia.
  destruct (asert_rule_range params Hp root Ha b) as [H1 H2]. pose proof (rep_decode (asert_rule params b root) ltac:(lia)) as Rn.
  pose proof (trunc_range (asert_rule params b root) ltac:(lia)) as [Ht _].
  assert (represents (powLimit params) (bn_limit params)) as Rl.
  { apply rep_UintToArith256. destruct Hp as [_ _ H3 _]. split; [lia|]. apply limit_R. lia. }
  rewrite (rep_gt Rn Rl). replace (trunc _ >? powLimit params) with false by lia.
  destruct (mo_index _ Hs h b Eh) as [_ _ _ Hbits _ _]. pose proof (rep_SetCompact (nBits b) Hbits) as Ro.
  destruct (asert_step Hs params Hp r root Er Hr Ha h b _ Eh Hc Ro) as [Hstep Hv].
  set (v := compact_value (nBits b) mod R) in *. clearbody v.
  assert (represents 4 (of_u64 4)) as R4 by (apply rep_of_u64; unfold is_u64; lia).
  destruct (rep_div Ro R4 ltac:(lia)) as (q & -> & Rq). cbn [mbind option_bind]. rewrite (rep_compact _ _ Rq). cbn [mbind option_bind].
  assert (0 <= v / 4 < R) as Hq by (split; [apply Z.div_pos; lia|apply Z.div_lt_upper_bound; lia]).
  rewrite (rep_gt (rep_decode (v / 4) Hq) Rn). pose proof (trunc_mono (v / 4) (asert_rule params b root) ltac:(lia)).
  replace (trunc (v / 4) >? _) with false by lia. reflexivity.
Qed.
Lemma asert_transition_permitted_witness :
  exists root new, m_block_index toy_manager !! 1000 = Some root /\
    AsertGetNextWorkRequired (m_block_index toy_manager) 1000 CMainParams = Some new /\
    PermittedDifficultyTransition CMainParams 1 (nBits root) new = Some true.
Proof.
  destruct toy_root as (root & Er & Hr & Ha). pose proof (root_nHeight (reachable_ok _ _ toy_reachable) 1000 root Er Hr) as H0.
  destruct (asert_transition_permitted toy_hash toy_manager CMainParams 1000 root 1000 root toy_reachable CMainParams_asert_ok Er Hr Ha Er)
    as (new & E & H).
  - rewrite H0. cbn. lia.
  - unfold carries. rewrite Hr. exact I.
  - exists root, new. rewrite H0 in H. auto.
Defined.

(** The proof-of-work check on every 32-bit [nBits] and 256-bit hash:
    [DeriveTarget] returns a target exactly when the compact number is not
    negative, not zero, fits 256 bits and does not exceed the limit, and the
    hash passes exactly when, read as a number, it is at most that target. *)
Theorem CheckProofOfWork_exact c hash params :
  is_u32 c -> 0 <= hash < R -> 0 <= powLimit params < R ->
  let t := compact_value c in
  let ok := c mod 2 ^ 24 < 2 ^ 23 /\ 0 < t <= powLimit params in
  (ok -> exists b, DeriveTarget c (powLimit params) = Some b /\ represents t b) /\
  (DeriveTarget c (powLimit params) <> None -> ok) /\
  (CheckProofOfWorkImpl hash c params = true <-> ok /\ hash <= t).
Proof.
  intros Hc Hh Hl t ok. pose proof (SetCompact_spec c Hc) as H. unfold CheckProofOfWorkImpl, DeriveTarget.
  destruct (SetCompact c) as [[b n] o]. destruct H as (Hb & Hv & -> & Ho). destruct (compact_value_nonneg c Hc) as [_ H0].
  pose proof (compact_word_0 c Hc) as Hz. fold t in Hv, Ho, H0, Hz.
  assert (represents (t mod R) b) as Rb by (split; assumption).
  pose proof (rep_UintToArith256 (powLimit params) Hl) as Rl.
  rewrite (rep_EqualTo Rb 0), (rep_gt Rb Rl) by (unfold is_u64; lia).
  destruct (Z.ltb_spec t R) as [Hsmall|Hbig].
  - replace o with false by (symmetry; apply Ho; exact Hsmall). rewrite !(Z.mod_small t R) in * by lia. rewrite orb_false_r.
    assert ((negb (compact_word c =? 0) && (2 ^ 23 <=? c mod 2 ^ 24) || (t =? 0) || (t >? powLimit params)) = false <-> ok) as Hok.
    { unfold ok. destruct (Z.eqb_spec (compact_word c) 0), (Z.eqb_spec t 0), (Z.leb_spec (2 ^ 23) (c mod 2 ^ 24)),
        (Z.gtb_spec t (powLimit params)); cbn [negb andb orb]; split; intros; try (discriminate || reflexivity || lia || tauto). }
    destruct (_ || _ || _) eqn:E.
    + split; [intros Hk; apply Hok in Hk; discriminate|]. split; [intros Hn; destruct (Hn eq_refl)|]. split; [discriminate|].
      intros [Hk _]. apply Hok in Hk. discriminate.
    + assert ok as Hk by (apply Hok; reflexivity). split; [intros _; exists b; auto|]. split; [auto|].
      rewrite (rep_gt (rep_UintToArith256 hash Hh) Rb), Z.gtb_ltb, negb_true_iff, Z.ltb_ge. tauto.
  - assert (o = true) as -> by (destruct o; [reflexivity|exfalso; lia]). rewrite !orb_true_r. cbn [orb].
    assert (~ ok) as Hk by (unfold ok; lia). split; [tauto|]. split; [intros Hn; destruct (Hn eq_refl)|]. split; [discriminate|tauto].
Qed.
Lemma CheckProofOfWork_exact_witness : CheckProofOfWorkImpl (2 ^ 235) 0x1e0fffff CMainParams = true.
Proof.
  apply (CheckProofOfWork_exact 0x1e0fffff (2 ^ 235) CMainParams).
  - unfold is_u32. lia.
  - vm_compute. split; [discriminate|reflexivity].
  - vm_compute. split; [discriminate|reflexivity].
  - vm_compute. repeat split; discriminate || reflexivity.
Defined.

(** ** The classic retarget *)

Record retarget_params_ok (params : Params) (T : Z) : Prop := {
  rp_timespan : 0 < nPowTargetTimespan params < 2 ^ 30;
  rp_limit : 0 < powLimit params < R;
  rp_retarget : fPowNoRetargeting params = false;
  rp_bip94 : enforce_BIP94 params = false;
  rp_target : 0 <= T /\ T * (nPowTargetTimespan params * 4) < R
}.
(** A target scaled by [timespan] over the nominal time span. *)
Definition scaled (params : Params) (T timespan : Z) : Z :=
  Z.min (powLimit params) (T * timespan / nPowTargetTimespan params).
Definition clamp_timespan (params : Params) (t : Z) : Z :=
  Z.min (Z.max t (nPowTargetTimespan params / 4)) (nPowTargetTimespan params * 4).

Section Retarget.
Context (params : Params) (T : Z) (Hp : retarget_params_ok params T).

Lemma scaled_range t : 0 <= t -> 0 <= scaled params T t < R.
Proof using Hp.
  intros Ht. destruct Hp as [H1 H2 _ _ H5]. unfold scaled.
  assert (0 <= T * t / nPowTargetTimespan params) by (apply Z.div_pos; nia). lia.
Qed.
Lemma scaled_mono t u : 0 <= t <= u -> scaled params T t <= scaled params T u.
Proof using Hp.
  intros Ht. destruct Hp as [H1 _ _ _ H5]. unfold scaled. apply Z.min_le_compat_l, Z.div_le_mono; [lia|]. nia.
Qed.
Lemma scale_code tt timespan :
  represents T tt -> 0 <= timespan <= nPowTargetTimespan params * 4 ->
  exists q, div (mul32 tt (u32 timespan)) (of_u64 (u64 (nPowTargetTimespan params))) = Some q /\
    represents (scaled params T timespan) (if gt q (bn_limit params) then bn_limit params else q).
Proof using Hp.
  intros Rt Ht. destruct Hp as [H1 H2 _ _ H5]. rewrite u32_id, u64_id by (unfold is_u32, is_u64; lia).
  assert (represents (T * timespan) (mul32 tt timespan)) as Rm.
  { apply (rep_change (rep_mul32 Rt timespan ltac:(unfold is_u32; lia))). apply Z.mod_small. nia. }
  assert (represents (nPowTargetTimespan params) (of_u64 (nPowTargetTimespan params))) as Rd
    by (apply rep_of_u64; unfold is_u64; lia).
  destruct (rep_div Rm Rd ltac:(lia)) as (q & -> & Rq). exists q. split; [reflexivity|].
  assert (represents (powLimit params) (bn_limit params)) as Rl by (apply rep_UintToArith256; lia).
  rewrite (rep_gt Rq Rl), Z.gtb_ltb. unfold scaled.
  destruct (Z.ltb_spec (powLimit params) (T * timespan / nPowTargetTimespan params)).
  - rewrite Z.min_l by lia. exact Rl.
  - rewrite Z.min_r by lia. exact Rq.
Qed.
Lemma clamp_code t :
  is_i64 t ->
  (let t := if t <? nPowTargetTimespan params /c 4 then nPowTargetTimespan params /c 4 else t in
   if t >? i64 (nPowTargetTimespan params * 4) then i64 (nPowTargetTimespan params * 4) else t) = clamp_timespan params t.
Proof using Hp.
  intros Ht. destruct Hp as [H1 _ _ _ _]. rewrite i64_id by (unfold is_i64; lia). rewrite Z.quot_div_nonneg by lia.
  unfold clamp_timespan. cbn zeta. set (q := nPowTargetTimespan params / 4). rewrite !Z.gtb_ltb.
  assert (0 <= q <= nPowTargetTimespan params * 4) by (unfold q; zlia).
  destruct (Z.ltb_spec t q); match goal with |- context [?a <? ?b] => destruct (Z.ltb_spec a b) end; lia.
Qed.
Lemma clamp_range t :
  nPowTargetTimespan params / 4 <= clamp_timespan params t <= nPowTargetTimespan params * 4 /\ 0 <= nPowTargetTimespan params / 4.
Proof using Hp. destruct Hp as [H1 _ _ _ _]. unfold clamp_timespan. zlia. Qed.
End Retarget.

(** The classic retarget: when the old target times four time spans fits
    256 bits, [CalculateNextWorkRequired] returns, without overflow, the
    compact form of [min(powLimit, old * clamp(actual) / timespan)] with the
    actual time span clamped to a factor of four either way, and
    [PermittedDifficultyTransition] accepts it at a retarget height. *)
Theorem retarget_exact_and_permitted GetHash s params h last firstTime height :
  reachable GetHash s -> m_block_index s !! h = Some last -> is_u32 firstTime ->
  retarget_params_ok params (compact_value (nBits last)) ->
  height < nASERTActivationHeight params -> DifficultyAdjustmentInterval params <> 0 ->
  height %c DifficultyAdjustmentInterval params = 0 ->
  let T := compact_value (nBits last) in
  let new := scaled params T (clamp_timespan params (nTime last - firstTime)) in
  CalculateNextWorkRequired (m_block_index s) h firstTime params = Some (compact new) /\
  PermittedDifficultyTransition params height (nBits last) (compact new) = Some true.
Proof.
  intros Hs Eh Hf Hp Hact Hint Hrem T new. apply reachable_ok, mo_index in Hs. destruct (Hs h last Eh) as [_ _ Ht Hb _ _].
  assert (represents T (fst (fst (SetCompact (nBits last))))) as Rt.
  { apply (rep_change (rep_SetCompact _ Hb)). apply Z.mod_small. destruct Hp as [H1 _ _ _ H5]. fold T in H5. nia. }
  pose proof (clamp_range params T Hp (nTime last - firstTime)) as [Hc Hq]. unfold is_u32 in *.
  pose proof (scaled_range params T Hp _ ltac:(instantiate (1 := clamp_timespan params (nTime last - firstTime)); lia)) as Hn.
  fold new in Hn. split.
  - unfold CalculateNextWorkRequired. rewrite Eh. cbn [mbind option_bind]. rewrite (rp_retarget _ _ Hp), (rp_bip94 _ _ Hp).
    cbn [mbind option_bind]. unfold GetBlockTime. rewrite (i64_id (nTime last - firstTime)) by (unfold is_i64; lia).
    pose proof (clamp_code params T Hp (nTime last - firstTime) ltac:(unfold is_i64; lia)) as Ec. cbn zeta in Ec. rewrite Ec.
    destruct (scale_code params T Hp _ _ Rt (conj (Z.le_trans _ _ _ Hq (proj1 Hc)) (proj2 Hc))) as (q & -> & Rq).
    cbn [mbind option_bind]. apply rep_compact, Rq.
  - unfold PermittedDifficultyTransition. destruct (fPowAllowMinDifficultyBlocks params); [reflexivity|].
    replace (height >=? nASERTActivationHeight params) with false by lia.
    replace (DifficultyAdjustmentInterval params =? 0) with false by lia. rewrite Hrem. cbn [Z.eqb].
    pose proof (rep_decode new Hn) as Rn. destruct Hp as [H1 H2 H3 H4 H5] eqn:EHp. clear EHp.
    assert (forall t, 0 <= t <= nPowTargetTimespan params * 4 -> exists b, scaled_target (nBits last) t params = Some b /\
      represents (trunc (scaled params T t)) b) as Hscaled.
    { intros t Htt. unfold scaled_target. destruct (scale_code params T Hp _ t Rt Htt) as (q & -> & Rq). cbn [mbind option_bind].
      rewrite (rep_compact _ _ Rq). cbn [mbind option_bind]. eexists. split; [reflexivity|]. apply rep_decode, scaled_range; [exact Hp|lia]. }
    rewrite i64_id by (unfold is_i64; lia). rewrite Z.quot_div_nonneg by lia.
    destruct (Hscaled (nPowTargetTimespan params * 4) ltac:(lia)) as (bmax & -> & Rmax). cbn [mbind option_bind].
    rewrite (rep_gt Rn Rmax). destruct (Hscaled (nPowTargetTimespan params / 4) ltac:(lia)) as (bmin & -> & Rmin). cbn [mbind option_bind].
    rewrite (rep_gt Rmin Rn).
    pose proof (scaled_mono params T Hp (clamp_timespan params (nTime last - firstTime)) (nPowTargetTimespan params * 4) ltac:(lia)) as M1.
    pose proof (scaled_mono params T Hp (nPowTargetTimespan params / 4) (clamp_timespan params (nTime last - firstTime)) ltac:(lia)) as M2.
    fold new in M1, M2. pose proof (scaled_range params T Hp (nPowTargetTimespan params / 4) ltac:(lia)) as Hmin.
    pose proof (trunc_mono _ _ (conj (proj1 Hn) M1)). pose proof (trunc_mono _ _ (conj (proj1 Hmin) M2)).
    replace (trunc new >? _) with false by lia. replace (_ >? trunc new) with false by lia. reflexivity.
Qed.
Definition late_asert (p : Params) : Params := mkParams (hashGenesisBlock p) (nSubsidyHalvingInterval p)
  (script_flag_exceptions p) (BIP34Height p) (BIP34Hash p) (BIP65Height p) (BIP66Height p) (CSVHeight p) (SegwitHeight p)
  (MinBIP9WarningHeight p) (vDeployments p) (powLimit p) (fPowAllowMinDifficultyBlocks p) (enforce_BIP94 p)
  (fPowNoRetargeting p) (nPowTargetSpacing p) (nPowTargetTimespan p) 1000 (nASERTHalfLife p) (metaldagBaseTime p)
  (metaldagEpochSeconds p) (metaldagDagInitBytes p) (metaldagDagGrowthBytes p) (metaldagCacheDivisor p) (nMinimumChainWork p)
  (defaultAssumeValid p) (emissionTable p) (emissionClosingDustSat p) (permitV2Outputs p) (settlementLevySchedule p)
  (minOutputValueSat p) (coinbaseMaturity p) (release_checkpoints p) (pow_algos p) (pow_share p) (max_consecutive_same_algo p)
  (multi_algo_activation_height p).
Lemma retarget_exact_and_permitted_witness :
  exists last new, m_block_index toy_manager !! 1009 = Some last /\
    CalculateNextWorkRequired (m_block_index toy_manager) 1009 300 (late_asert CMainParams) = Some new /\
    PermittedDifficultyTransition (late_asert CMainParams) 50 (nBits last) new = Some true.
Proof.
  destruct (m_block_index toy_manager !! 1009) as [last|] eqn:E; [|vm_compute in E; discriminate].
  destruct (retarget_exact_and_permitted toy_hash toy_manager (late_asert CMainParams) 1009 last 300 50 toy_reachable E) as [H1 H2].
  - unfold is_u32. lia.
  - vm_compute in E. injection E as <-. split; try reflexivity; vm_compute; split; (discriminate || reflexivity).
  - reflexivity.
  - discriminate.
  - reflexivity.
  - eexists last, _. split; [reflexivity|]. split; [exact H1|exact H2].
Defined.
