(* ===== verification/Headers.v ===== *)
(** * Accepting block headers

    The header rules of [src/validation.cpp]: [CheckBlockHeader],
    [ContextualCheckBlockHeader], [ChainstateManager::AcceptBlockHeader] and
    [ProcessNewBlockHeaders], over the block index of [BlockIndex] and the
    proof-of-work rules of [Pow].  A verdict is the result and the reject
    reason the code stores in its [BlockValidationState]; the debug text of a
    rejection and the log are left out.  [None] is a failed assertion.

    The theorems: every header in the index passed every rule against its
    predecessor, a rejection changes nothing, the median time past never
    decreases along a chain, mainnet's targets are those of the ASERT rule,
    and a header from the future is rejected whatever its proof of work. *)

From Stdlib Require Import String Ascii.
From S2P Require Import Prelude ConsensusParams ArithUint256 BlockIndex Pow.

Local Open Scope Z_scope.

(** ** Verdicts *)

Inductive BlockValidationResult :=
  | BLOCK_RESULT_UNSET | BLOCK_CONSENSUS | BLOCK_CACHED_INVALID | BLOCK_INVALID_HEADER | BLOCK_MUTATED
  | BLOCK_MISSING_PREV | BLOCK_INVALID_PREV | BLOCK_TIME_FUTURE | BLOCK_HEADER_LOW_WORK.
#[export] Instance BlockValidationResult_eq_dec : EqDecision BlockValidationResult.
Proof. solve_decision. Defined.

Inductive Verdict :=
  | Valid
  | Invalid (result : BlockValidationResult) (reject_reason : string).
#[export] Instance Verdict_eq_dec : EqDecision Verdict.
Proof. solve_decision. Defined.

Definition hex_digit (d : Z) : ascii :=
  if d <? 10 then ascii_of_nat (Z.to_nat (48 + d)) else ascii_of_nat (Z.to_nat (87 + d)).
(** [%08x] *)
Definition hex8 (x : Z) : string :=
  fold_right (fun i s => String (hex_digit (Z.shiftr (u32 x) (4 * Z.of_nat i) mod 16)) s) EmptyString (rev (seq 0 8)).
Definition bad_version (nVersion : Z) : string := ("bad-version(0x" ++ hex8 nVersion ++ ")")%string.
Example bad_version_test : bad_version 0x2000abcd = "bad-version(0x2000abcd)"%string.
Proof. reflexivity. Qed.

(** ** The rules *)

Definition MAX_TIMEWARP : Z := 600.
Definition MAX_FUTURE_BLOCK_TIME : Z := 2 * 60 * 60.
(** [block.Time() > NodeClock::now() + 2h]; the clock counts nanoseconds. *)
Definition NANO : Z := 1000000000.
Definition too_new (block : CBlockHeader) (now : Z) : bool := hdr_nTime block * NANO >? now + MAX_FUTURE_BLOCK_TIME * NANO.

Definition DeploymentActiveAfter (pindexPrev : option CBlockIndex) (params : Params) (dep : BuriedDeployment) : bool :=
  (match pindexPrev with None => 0 | Some b => i32 (nHeight b + 1) end) >=? DeploymentHeight params dep.

Section Rules.
Context (EnableFuzzDeterminism : bool) (GetHash : CBlockHeader -> Z) (PoWHash : CBlockHeader -> Params -> Z) (params : Params).

Definition CheckBlockHeader (block : CBlockHeader) (fCheckPOW : bool) : Verdict :=
  if fCheckPOW && negb (CheckProofOfWork EnableFuzzDeterminism GetHash PoWHash block (hdr_nBits block) params)
  then Invalid BLOCK_INVALID_HEADER "high-hash"
  else Valid.

(** [now] is the clock when the rule reads it. *)
Definition ContextualCheckBlockHeader (m : BlockMap) (block : CBlockHeader) (pindexPrev now : Z) : option Verdict :=
  prev ← m !! pindexPrev;
  let nHeight := i32 (nHeight prev + 1) in
  work ← GetNextWorkRequired m pindexPrev block params;
  if negb (hdr_nBits block =? work) then Some (Invalid BLOCK_INVALID_HEADER "bad-diffbits") else
  mtp ← GetMedianTimePast m pindexPrev;
  if hdr_nTime block <=? mtp then Some (Invalid BLOCK_INVALID_HEADER "time-too-old") else
  timewarp ← (if enforce_BIP94 params
              then if DifficultyAdjustmentInterval params =? 0 then None
                   else Some ((nHeight %c DifficultyAdjustmentInterval params =? 0) &&
                              (hdr_nTime block <? GetBlockTime prev - MAX_TIMEWARP))
              else Some false);
  if (timewarp : bool) then Some (Invalid BLOCK_INVALID_HEADER "time-timewarp-attack") else
  if too_new block now then Some (Invalid BLOCK_TIME_FUTURE "time-too-new") else
  if ((hdr_nVersion block <? 2) && DeploymentActiveAfter (Some prev) params DEPLOYMENT_HEIGHTINCB) ||
     ((hdr_nVersion block <? 3) && DeploymentActiveAfter (Some prev) params DEPLOYMENT_DERSIG) ||
     ((hdr_nVersion block <? 4) && DeploymentActiveAfter (Some prev) params DEPLOYMENT_CLTV)
  then Some (Invalid BLOCK_INVALID_HEADER (bad_version (hdr_nVersion block))) else
  let algo := GetPowAlgoId (hdr_nVersion block) in
  if negb (algo =? POW_ALGO_METALDAG) && negb (MultiAlgoActiveAt params nHeight)
  then Some (Invalid BLOCK_INVALID_HEADER "bad-pow-algo") else
  if negb (ReleaseCheckpointAllows params nHeight (GetHash block))
  then Some (Invalid BLOCK_INVALID_HEADER "bad-checkpoint-release") else
  Some Valid.

(** The state, [*ppindex] when the call sets it, and the verdict.  The clock
    is read twice. *)
Definition AcceptBlockHeader (s : BlockManager) (block : CBlockHeader) (min_pow_checked : bool) (now now' : Z)
    : option (BlockManager * option Z * Verdict) :=
  let hash := GetHash block in
  let m := m_block_index s in
  let add :=
    if negb min_pow_checked then Some (s, None, Invalid BLOCK_HEADER_LOW_WORK "too-little-chainwork")
    else '(s', pindex) ← AddToBlockIndex GetHash s block; Some (s', Some pindex, Valid) in
  if hash =? hashGenesisBlock params then add
  else match m !! hash with
  | Some pindex =>
      if negb (Z.land (nStatus pindex) BLOCK_FAILED_VALID =? 0)
      then Some (s, Some hash, Invalid BLOCK_CACHED_INVALID "duplicate-invalid")
      else Some (s, Some hash, Valid)
  | None =>
      if too_new block now then Some (s, None, Invalid BLOCK_TIME_FUTURE "time-too-new") else
      match CheckBlockHeader block true with
      | Invalid r reason => Some (s, None, Invalid r reason)
      | Valid =>
          match m !! hdr_hashPrevBlock block with
          | None => Some (s, None, Invalid BLOCK_MISSING_PREV "prev-blk-not-found")
          | Some prev =>
              if negb (Z.land (nStatus prev) BLOCK_FAILED_VALID =? 0)
              then Some (s, None, Invalid BLOCK_INVALID_PREV "bad-prevblk")
              else
                v ← ContextualCheckBlockHeader m block (hdr_hashPrevBlock block) now';
                match v with
                | Invalid r reason => Some (s, None, Invalid r reason)
                | Valid => add
                end
          end
      end
  end.

(** The loop of [ProcessNewBlockHeaders]; [clock n] is the reading at the
    [n]-th header.  The result has the last accepted entry. *)
Fixpoint ProcessNewBlockHeaders_loop (clock : nat -> Z * Z) (n : nat) (s : BlockManager) (headers : list CBlockHeader)
    (min_pow_checked : bool) (ppindex : option Z) : option (BlockManager * option Z * Verdict) :=
  match headers with
  | [] => Some (s, ppindex, Valid)
  | header :: rest =>
      '(s', pindex, v) ← AcceptBlockHeader s header min_pow_checked (fst (clock n)) (snd (clock n));
      match v with
      | Invalid r reason => Some (s', ppindex, Invalid r reason)
      | Valid => ProcessNewBlockHeaders_loop clock (S n) s' rest min_pow_checked pindex
      end
  end.
Definition ProcessNewBlockHeaders (clock : nat -> Z * Z) (s : BlockManager) (headers : list CBlockHeader)
    (min_pow_checked : bool) : option (BlockManager * option Z * Verdict) :=
  ProcessNewBlockHeaders_loop clock 0 s headers min_pow_checked None.

Definition HasValidProofOfWork (headers : list CBlockHeader) : bool :=
  forallb (fun header => CheckProofOfWork EnableFuzzDeterminism GetHash PoWHash header (hdr_nBits header) params) headers.
Definition CalculateClaimedHeadersWork (headers : list CBlockHeader) : option (list Z) :=
  foldl (fun total header => t ← total; w ← GetBitsProof (hdr_nBits header); Some (add t w)) (Some (of_u64 0)) headers.
End Rules.

(** ** The rules read only ancestors *)

Section Stable.
Context {m : BlockMap} (Hm : index_ok m) (k : Z) (v : CBlockIndex) (Hk : m !! k = None).
Let m' : BlockMap := <[k := v]> m.

Lemma lookup_m' h b : m !! h = Some b -> m' !! h = Some b.
Proof using Hk. exact (lookup_extend k v Hk h b). Qed.
Lemma median_times_extend n p :
  (forall h, p = Some h -> is_Some (m !! h)) -> median_times n m' p = median_times n m p.
Proof using Hm Hk.
  revert p. induction n as [|n IH]; intros [h|] Hp; cbn [median_times]; try reflexivity.
  destruct (Hp h eq_refl) as [b Eh]. rewrite (lookup_m' h b Eh), Eh. cbn [mbind option_bind].
  rewrite IH; [reflexivity|]. intros q Eq. exact (proj1 (links_inside Hm h b Eh) q Eq).
Qed.
Lemma GetMedianTimePast_extend h : is_Some (m !! h) -> GetMedianTimePast m' h = GetMedianTimePast m h.
Proof using Hm Hk. intros Hh. unfold GetMedianTimePast. rewrite median_times_extend; [reflexivity|]. congruence. Qed.

Lemma ancestor_lookup h height p : is_Some (m !! h) -> GetAncestor m h height = Some p -> deref m' p = deref m p.
Proof using Hm Hk.
  intros [b Eh] E. rewrite (GetAncestor_spec Hm h b height Eh) in E. destruct (_ || _) eqn:Er; injection E as <-; [reflexivity|].
  apply orb_false_iff in Er as [E1 E2].
  destruct (nth_prev_exists Hm h b (Z.to_nat (nHeight b - height)) Eh ltac:(lia)) as (x & bx & -> & Ex & _).
  cbn. rewrite (lookup_m' x bx Ex), Ex. reflexivity.
Qed.
Lemma ancestor_step {B : Type} h height (f : option CBlockIndex -> option B) :
  is_Some (m !! h) ->
  (p ← GetAncestor m' h height; f (deref m' p)) = (p ← GetAncestor m h height; f (deref m p)).
Proof using Hm Hk.
  intros Hh. pose proof Hh as [b Eh]. rewrite (GetAncestor_extend Hm k v Hk h b height Eh : GetAncestor m' h height = _).
  destruct (GetAncestor m h height) as [p|] eqn:E; [|reflexivity]. cbn. rewrite (ancestor_lookup h height p Hh E). reflexivity.
Qed.

Lemma Asert_extend h params : is_Some (m !! h) -> AsertGetNextWorkRequired m' h params = AsertGetNextWorkRequired m h params.
Proof using Hm Hk.
  intros Hh. pose proof Hh as [b Eh]. unfold AsertGetNextWorkRequired. rewrite (lookup_m' h b Eh), Eh.
  cbn [mbind option_bind]. destruct (fPowNoRetargeting params); [reflexivity|]. destruct (negb _); [reflexivity|].
  exact (ancestor_step h 0 (fun a => a ≫= _) Hh).
Qed.
Lemma CalculateNextWorkRequired_extend h t params :
  is_Some (m !! h) -> CalculateNextWorkRequired m' h t params = CalculateNextWorkRequired m h t params.
Proof using Hm Hk.
  intros Hh. pose proof Hh as [b Eh]. unfold CalculateNextWorkRequired. rewrite (lookup_m' h b Eh), Eh.
  cbn [mbind option_bind]. destruct (fPowNoRetargeting params); [reflexivity|]. f_equal.
  destruct (enforce_BIP94 params); [|reflexivity].
  exact (ancestor_step h _ (fun a => a ≫= fun first => Some (nBits first)) Hh).
Qed.
Lemma last_real_bits_extend fuel h interval limit :
  is_Some (m !! h) -> last_real_bits fuel m' h interval limit = last_real_bits fuel m h interval limit.
Proof using Hm Hk.
  revert h. induction fuel as [|fuel IH]; intros h [b Eh]; cbn [last_real_bits];
    rewrite (lookup_m' h b Eh), Eh; cbn [mbind option_bind]; [reflexivity|].
  destruct (pprev b) as [p|] eqn:Ep; [|reflexivity]. destruct (_ && _); [|reflexivity].
  apply IH, (proj1 (links_inside Hm h b Eh) p Ep).
Qed.
Lemma GetNextWorkRequired_extend h block params :
  is_Some (m !! h) -> GetNextWorkRequired m' h block params = GetNextWorkRequired m h block params.
Proof using Hm Hk.
  intros Hh. pose proof Hh as [b Eh]. unfold GetNextWorkRequired. rewrite (lookup_m' h b Eh), Eh.
  cbn [mbind option_bind]. destruct (GetCompact _ _) as [limit|]; [|reflexivity]. cbn [mbind option_bind].
  destruct (_ >=? _); [apply Asert_extend, Hh|]. destruct (_ =? 0); [reflexivity|]. destruct (negb _).
  - destruct (fPowAllowMinDifficultyBlocks params); [|reflexivity]. destruct (_ >? _); [reflexivity|].
    apply last_real_bits_extend, Hh.
  - destruct (negb _); [reflexivity|].
    rewrite (ancestor_step h _ (fun a => a ≫= fun first => CalculateNextWorkRequired m' h (GetBlockTime first) params) Hh).
    destruct (GetAncestor m h _) as [p|]; [|reflexivity]. cbn. destruct (deref m p) as [f|]; [|reflexivity]. cbn.
    apply CalculateNextWorkRequired_extend, Hh.
Qed.
End Stable.

(** ** What an accepted header satisfies *)

Section Accepted.
Context (EnableFuzzDeterminism : bool) (GetHash : CBlockHeader -> Z) (PoWHash : CBlockHeader -> Params -> Z) (params : Params).
Let pow_ok := CheckProofOfWork EnableFuzzDeterminism GetHash PoWHash.

(** The header of entry [b], with predecessor [p], passed the rules. *)
Record rules_ok (m : BlockMap) (h : Z) (b : CBlockIndex) (p : Z) (block : CBlockHeader) : Prop := {
  ro_hash : GetHash block = h;
  ro_prev : hdr_hashPrevBlock block = p;
  ro_version : hdr_nVersion block = nVersion b;
  ro_merkle : hdr_hashMerkleRoot block = hashMerkleRoot b;
  ro_time : hdr_nTime block = nTime b;
  ro_bits : hdr_nBits block = nBits b;
  ro_nonce : hdr_nNonce block = nNonce b;
  ro_pow : pow_ok block (nBits b) params = true;
  ro_work : GetNextWorkRequired m p block params = Some (nBits b);
  ro_mtp : exists t, GetMedianTimePast m p = Some t /\ t < nTime b;
  ro_timewarp : enforce_BIP94 params = true -> (DifficultyAdjustmentInterval params | nHeight b) ->
    forall pb, m !! p = Some pb -> nTime pb - MAX_TIMEWARP <= nTime b;
  ro_algo : GetPowAlgoId (nVersion b) = POW_ALGO_METALDAG \/ MultiAlgoActiveAt params (nHeight b) = true;
  ro_deployments : forall dep v, (dep, v) ∈ [(DEPLOYMENT_HEIGHTINCB, 2); (DEPLOYMENT_DERSIG, 3); (DEPLOYMENT_CLTV, 4)] ->
    DeploymentHeight params dep <= nHeight b -> v <= nVersion b;
  ro_checkpoint : ReleaseCheckpointAllows params (nHeight b) h = true
}.
Definition headers_ok (s : BlockManager) : Prop :=
  forall h b p, m_block_index s !! h = Some b -> pprev b = Some p -> exists block, rules_ok (m_block_index s) h b p block.

Lemma rules_ok_extend m k v h b p block :
  index_ok m -> m !! k = None -> is_Some (m !! p) -> rules_ok m h b p block -> rules_ok (<[k := v]> m) h b p block.
Proof.
  intros Hm Hk Hp [H1 H2 H3 H4 H5 H6 H7 H8 H9 H10 Htw H11 H12 H13]. split; try assumption.
  - rewrite (GetNextWorkRequired_extend Hm k v Hk p block params Hp). exact H9.
  - rewrite (GetMedianTimePast_extend Hm k v Hk p Hp). exact H10.
  - destruct Hp as [pb Epb]. intros E Hd pb'. rewrite lookup_insert_ne by congruence. apply Htw; assumption.
Qed.

(** The rules as read from a valid verdict. *)
Lemma contextual_valid m block p prev now :
  m !! p = Some prev -> 0 <= nHeight prev < 2 ^ 31 - 1 ->
  ContextualCheckBlockHeader GetHash params m block p now = Some Valid ->
  GetNextWorkRequired m p block params = Some (hdr_nBits block) /\
  (exists t, GetMedianTimePast m p = Some t /\ t < hdr_nTime block) /\
  too_new block now = false /\
  (enforce_BIP94 params = true -> (DifficultyAdjustmentInterval params | nHeight prev + 1) -> nTime prev - MAX_TIMEWARP <= hdr_nTime block) /\
  (GetPowAlgoId (hdr_nVersion block) = POW_ALGO_METALDAG \/ MultiAlgoActiveAt params (nHeight prev + 1) = true) /\
  (forall dep v, (dep, v) ∈ [(DEPLOYMENT_HEIGHTINCB, 2); (DEPLOYMENT_DERSIG, 3); (DEPLOYMENT_CLTV, 4)] ->
     DeploymentHeight params dep <= nHeight prev + 1 -> v <= hdr_nVersion block) /\
  ReleaseCheckpointAllows params (nHeight prev + 1) (GetHash block) = true.
Proof.
  intros Ep Hh. unfold ContextualCheckBlockHeader. rewrite Ep. cbn [mbind option_bind].
  rewrite i32_id by (unfold is_i32; lia).
  destruct (GetNextWorkRequired m p block params) as [w|]; [|discriminate]. cbn [mbind option_bind].
  destruct (Z.eqb_spec (hdr_nBits block) w) as [<-|]; [|discriminate]. cbn [negb].
  destruct (GetMedianTimePast m p) as [t|]; [|discriminate]. cbn [mbind option_bind].
  destruct (Z.leb_spec (hdr_nTime block) t) as [|Ht]; [discriminate|].
  assert (Htw : forall warp, (if enforce_BIP94 params then if DifficultyAdjustmentInterval params =? 0 then None
      else Some ((Z.rem (nHeight prev + 1) (DifficultyAdjustmentInterval params) =? 0) && (hdr_nTime block <? GetBlockTime prev - MAX_TIMEWARP)) else Some false) = Some warp ->
    warp = false -> enforce_BIP94 params = true -> (DifficultyAdjustmentInterval params | nHeight prev + 1) -> nTime prev - MAX_TIMEWARP <= hdr_nTime block).
  { intros warp E -> E94 Hdiv. rewrite E94 in E. destruct (Z.eqb_spec (DifficultyAdjustmentInterval params) 0) as [|Hnz]; [discriminate|]. injection E as E.
    rewrite (proj2 (Z.rem_divide _ _ Hnz) Hdiv) in E. apply Z.ltb_ge in E. exact E. }
  destruct (if enforce_BIP94 params then _ else _) as [warp|]; [|discriminate]. specialize (Htw warp eq_refl). cbn [mbind option_bind].
  destruct warp; [discriminate|]. specialize (Htw eq_refl).
  destruct (too_new block now); [discriminate|].
  match goal with |- context [if ?c then Some (Invalid _ (bad_version _)) else _] => destruct c eqn:Ev end; [discriminate|].
  match goal with |- context [if ?c then Some (Invalid _ "bad-pow-algo") else _] => destruct c eqn:Ea end; [discriminate|].
  destruct (ReleaseCheckpointAllows _ _ _) eqn:Ec; [|discriminate]. cbn [negb]. intros _.
  split; [reflexivity|]. split; [exists t; auto|]. split; [reflexivity|]. split; [exact Htw|]. split; [|split; [|reflexivity]].
  - apply andb_false_iff in Ea as [Ea|Ea]; apply negb_false_iff in Ea; [left; lia|right; exact Ea].
  - apply orb_false_iff in Ev as [Ev E4]. apply orb_false_iff in Ev as [E2 E3]. unfold DeploymentActiveAfter in *.
    rewrite i32_id in * by (unfold is_i32; lia). intros dep v Hin Hdep.
    rewrite !elem_of_cons, elem_of_nil in Hin. destruct Hin as [E|[E|[E|[]]]]; injection E as -> ->; lia.
Qed.

Lemma AcceptBlockHeader_cases s block mpc now now' s' pi v :
  AcceptBlockHeader EnableFuzzDeterminism GetHash PoWHash params s block mpc now now' = Some (s', pi, v) ->
  (s' = s /\ (v = Valid -> pi = Some (GetHash block) /\ is_Some (m_block_index s !! GetHash block))) \/
  (v = Valid /\ mpc = true /\ AddToBlockIndex GetHash s block = Some (s', GetHash block) /\ pi = Some (GetHash block) /\
   (GetHash block = hashGenesisBlock params \/
    m_block_index s !! GetHash block = None /\ too_new block now = false /\ pow_ok block (hdr_nBits block) params = true /\
    exists prev, m_block_index s !! hdr_hashPrevBlock block = Some prev /\
      Z.land (nStatus prev) BLOCK_FAILED_VALID = 0 /\
      ContextualCheckBlockHeader GetHash params (m_block_index s) block (hdr_hashPrevBlock block) now' = Some Valid)).
Proof.
  unfold AcceptBlockHeader. cbv zeta.
  assert (forall C : Prop, C ->
    (if negb mpc then Some (s, None, Invalid BLOCK_HEADER_LOW_WORK "too-little-chainwork")
     else '(s', pindex) ← AddToBlockIndex GetHash s block; Some (s', Some pindex, Valid)) = Some (s', pi, v) ->
    s' = s /\ (v = Valid -> pi = Some (GetHash block) /\ is_Some (m_block_index s !! GetHash block)) \/
    (v = Valid /\ mpc = true /\ AddToBlockIndex GetHash s block = Some (s', GetHash block) /\ pi = Some (GetHash block) /\ C)) as Hadd.
  { intros C HC. destruct mpc; cbn [negb]; [|intros E; inversion E; subst; left; split; [reflexivity|discriminate]].
    destruct (AddToBlockIndex GetHash s block) as [[s1 h1]|] eqn:E; [|discriminate]. cbn [mbind option_bind].
    intros E'. injection E' as <- <- <-. right.
    rewrite <- (AddToBlockIndex_hash GetHash s block s1 h1 E) in *. auto. }
  destruct (Z.eqb_spec (GetHash block) (hashGenesisBlock params)) as [Eg|Hg]; [apply Hadd; left; exact Eg|].
  destruct (m_block_index s !! GetHash block) as [pindex|] eqn:Es.
  { destruct (Z.land (nStatus pindex) BLOCK_FAILED_VALID =? 0); cbn [negb]; intros E; inversion E; subst;
    left; (split; [reflexivity|]); [eauto|discriminate]. }
  destruct (too_new block now) eqn:En; [intros E; inversion E; subst; left; split; [reflexivity|discriminate]|].
  unfold CheckBlockHeader. cbn [andb].
  destruct (CheckProofOfWork _ _ _ _ _ _) eqn:Epow; cbn [negb];
    [|intros E; inversion E; subst; left; split; [reflexivity|discriminate]].
  destruct (m_block_index s !! hdr_hashPrevBlock block) as [prev|] eqn:Ep;
    [|intros E; inversion E; subst; left; split; [reflexivity|discriminate]].
  destruct (Z.eqb_spec (Z.land (nStatus prev) BLOCK_FAILED_VALID) 0) as [Ef|]; cbn [negb];
    [|intros E; inversion E; subst; left; split; [reflexivity|discriminate]].
  destruct (ContextualCheckBlockHeader _ _ _ _ _ _) as [[|r reason]|] eqn:Ec; cbn [mbind option_bind];
    [|intros E; inversion E; subst; left; split; [reflexivity|discriminate]|discriminate].
  apply Hadd. right. split; [reflexivity|]. split; [reflexivity|]. split; [exact Epow|]. exists prev. auto.
Qed.
End Accepted.

(** ** States reached by accepting headers *)

Section Reach.
Context (EnableFuzzDeterminism : bool) (GetHash : CBlockHeader -> Z) (PoWHash : CBlockHeader -> Params -> Z) (params : Params).
Let accept := AcceptBlockHeader EnableFuzzDeterminism GetHash PoWHash params.

(** The genesis block, then any headers with any clock; heights stay below
    the largest [int]. *)
Inductive header_reachable : BlockManager -> Prop :=
  | hr_genesis genesis s h :
      header_ok genesis -> GetHash genesis = hashGenesisBlock params -> hdr_hashPrevBlock genesis <> GetHash genesis ->
      AddToBlockIndex GetHash empty_manager genesis = Some (s, h) -> header_reachable s
  | hr_accept s block min_pow_checked now now' s' pindex v :
      header_reachable s -> header_ok block ->
      (forall h b, m_block_index s !! h = Some b -> nHeight b < 2 ^ 31 - 1) ->
      accept s block min_pow_checked now now' = Some (s', pindex, v) -> header_reachable s'.

Record header_state_ok (s : BlockManager) : Prop := {
  hs_reachable : reachable GetHash s;
  hs_rules : headers_ok EnableFuzzDeterminism GetHash PoWHash params s;
  hs_genesis : exists g, m_block_index s !! hashGenesisBlock params = Some g /\ pprev g = None
}.

(** Adding a header that passed the rules. *)
Lemma add_accepted s block s' prev now' :
  header_state_ok s -> header_ok block -> nHeight prev < 2 ^ 31 - 1 ->
  AddToBlockIndex GetHash s block = Some (s', GetHash block) -> m_block_index s !! GetHash block = None ->
  CheckProofOfWork EnableFuzzDeterminism GetHash PoWHash block (hdr_nBits block) params = true ->
  m_block_index s !! hdr_hashPrevBlock block = Some prev ->
  ContextualCheckBlockHeader GetHash params (m_block_index s) block (hdr_hashPrevBlock block) now' = Some Valid ->
  header_state_ok s'.
Proof.
  intros [Hr Hrules (g & Eg & Hg)] Hhdr Hmax Eadd Hfresh Hpow Eprev Hctx.
  pose proof (reachable_ok GetHash s Hr) as Hok. pose proof (mo_index _ Hok) as Hm.
  assert (may_add GetHash s block) as Hadd by (apply may_add_child; [exact Hhdr|exists prev; auto]).
  destruct (AddToBlockIndex_ok GetHash s block Hok Hadd) as (s1 & E1 & Hok1 & _ & Hnew). rewrite Eadd in E1. injection E1 as <-.
  destruct (Hnew Hfresh) as (new & Em & Ha). destruct (Hm _ _ Eprev) as [_ Hph _ _ _ _].
  destruct (contextual_valid GetHash params (m_block_index s) block _ prev now' Eprev ltac:(lia) Hctx) as (W1 & W2 & _ & Wt & W4 & W5 & W6).
  assert (m_block_index s' !! GetHash block = Some new) as Enew by (rewrite Em; apply lookup_insert_eq).
  assert (nHeight new = nHeight prev + 1) as Hnh.
  { destruct (mo_index _ Hok1 _ _ Enew) as [_ _ _ _ _ Hlink]. pose proof (ad_prev _ _ _ Ha) as Ep. rewrite Eprev in Ep.
    destruct (Hlink _ Ep) as (pb & Epb & E & _). rewrite Em, lookup_insert_ne, Eprev in Epb by congruence. congruence. }
  split.
  - exact (reach_add GetHash s block s' _ Hr Hadd Eadd).
  - intros h b p Eh Ep. rewrite Em in *. apply lookup_insert_Some in Eh as [[<- <-]|[Hne Eh]].
    + rewrite (ad_prev _ _ _ Ha), Eprev in Ep. injection Ep as <-. exists block. destruct Ha as [A1 A2 A3 A4 A5 A6 A7].
      apply rules_ok_extend; [exact Hm|exact Hfresh|eauto|].
      split; try congruence; try (rewrite ?A2, ?A4, ?A5, ?Hnh; assumption).
      rewrite A4, Hnh, Eprev. intros E Hd pb [= <-]. exact (Wt E Hd).
    + destruct (Hrules h b p Eh Ep) as [blk Hblk]. exists blk.
      apply rules_ok_extend; [exact Hm|exact Hfresh|exact (proj1 (links_inside Hm h b Eh) p Ep)|exact Hblk].
  - exists g. split; [|exact Hg]. rewrite Em, lookup_insert_ne; [exact Eg|]. congruence.
Qed.

Lemma header_reachable_ok s : header_reachable s -> header_state_ok s.
Proof.
  induction 1 as [genesis s h Hhdr Eg Hne E|s block mpc now now' s' pi v _ IH Hhdr Hmax E].
  - assert (may_add GetHash empty_manager genesis) as Hadd by (split; [exact Hhdr|left; auto]).
    destruct (AddToBlockIndex_ok GetHash empty_manager genesis empty_manager_ok Hadd) as (s1 & E1 & Hok1 & _ & Hnew).
    rewrite E in E1. injection E1 as <- ->. destruct (Hnew (lookup_empty _)) as (new & Em & Ha).
    pose proof (ad_prev _ _ _ Ha) as Ep. cbn in Ep. rewrite lookup_empty in Ep. split.
    + exact (reach_add GetHash _ genesis s _ (reach_empty GetHash) Hadd E).
    + intros h b p Eh Ep'. rewrite Em in Eh. cbn in Eh. apply lookup_insert_Some in Eh as [[_ <-]|[_ Eh]];
        [congruence|rewrite lookup_empty in Eh; discriminate].
    + exists new. rewrite Em, <- Eg. split; [apply lookup_insert_eq|exact Ep].
  - destruct (AcceptBlockHeader_cases _ _ _ _ s block mpc now now' s' pi v E) as [[-> _]|(_ & _ & Eadd & _ & Hcase)]; [exact IH|].
    destruct Hcase as [Eg|(Hfresh & _ & Hpow & prev & Eprev & _ & Hctx)].
    + destruct IH as [Hr Hrules (g & Egg & Hg)]. rewrite <- Eg in Egg. unfold AddToBlockIndex in Eadd. rewrite Egg in Eadd.
      injection Eadd as <-. split; try assumption. exists g. rewrite <- Eg. auto.
    + exact (add_accepted s block s' prev now' IH Hhdr (Hmax _ _ Eprev) Eadd Hfresh Hpow Eprev Hctx).
Qed.

(** The median time past along a chain. *)
Lemma mtp_step s h b p :
  header_reachable s -> m_block_index s !! h = Some b -> pprev b = Some p ->
  exists t t', GetMedianTimePast (m_block_index s) p = Some t /\ GetMedianTimePast (m_block_index s) h = Some t' /\
    t <= t' /\ t < nTime b.
Proof.
  intros Hs Eh Ep. destruct (header_reachable_ok s Hs) as [Hr Hrules _]. apply reachable_ok, mo_index in Hr.
  destruct (Hrules h b p Eh Ep) as [blk Hblk]. destruct (ro_mtp _ _ _ _ _ _ _ _ _ Hblk) as (t & Et & Hlt).
  destruct (GetMedianTimePast_mono _ h b p t Hr Eh Ep Et Hlt) as (t' & Et' & Hle). exists t, t'. auto.
Qed.
Lemma mtp_chain s n : forall h b x,
  header_reachable s -> m_block_index s !! h = Some b -> nth_prev (m_block_index s) h n = Some x ->
  exists t t', GetMedianTimePast (m_block_index s) x = Some t /\ GetMedianTimePast (m_block_index s) h = Some t' /\
    t <= t' /\ ((0 < n)%nat -> t < nTime b).
Proof.
  induction n as [|n IH]; intros h b x Hs Eh Ex.
  - injection Ex as <-. destruct (header_reachable_ok s Hs) as [Hr _ _]. apply reachable_ok, mo_index in Hr.
    destruct (GetMedianTimePast_total _ h b Hr Eh) as [t Et]. exists t, t. repeat split; try assumption; lia.
  - pose proof Ex as Ex'. cbn [nth_prev] in Ex. rewrite Eh in Ex. cbn in Ex. destruct (pprev b) as [p|] eqn:Ep; [|discriminate].
    cbn in Ex. destruct (mtp_step s h b p Hs Eh Ep) as (tp & th & Etp & Eth & Hle & Hlt).
    destruct (header_reachable_ok s Hs) as [Hr _ _]. apply reachable_ok, mo_index in Hr.
    destruct (proj1 (links_inside Hr h b Eh) p Ep) as [pb Epb].
    destruct (IH p pb x Hs Epb Ex) as (t & t' & Et & Et' & Hle' & _). rewrite Etp in Et'. injection Et' as <-.
    exists t, th. repeat split; try assumption; lia.
Qed.
End Reach.

(** ** Chains under ASERT from block 1 *)

Record asert_chain (params : Params) : Prop := {
  ac_params : asert_params_ok params;
  ac_activation : nASERTActivationHeight params <= 1;
  ac_bip94 : enforce_BIP94 params = false
}.
Lemma CMainParams_asert_chain : asert_chain CMainParams.
Proof. split; [exact CMainParams_asert_ok|vm_compute; discriminate|reflexivity]. Qed.

Section AsertChain.
Context (EnableFuzzDeterminism : bool) (GetHash : CBlockHeader -> Z) (PoWHash : CBlockHeader -> Params -> Z) (params : Params).
Context (Hp : asert_chain params) (s : BlockManager) (Hs : header_state_ok EnableFuzzDeterminism GetHash PoWHash params s).
Context (g : CBlockIndex) (Eg : m_block_index s !! hashGenesisBlock params = Some g) (Hg : pprev g = None) (Ha : anchor_ok params g).

Lemma GetNextWorkRequired_asert h last block :
  m_block_index s !! h = Some last -> nHeight last < 2 ^ 31 - 1 ->
  GetNextWorkRequired (m_block_index s) h block params = Some (compact (asert_rule params last g)).
Proof using Hp Hs Eg Hg Ha.
  intros Eh Hh. pose proof (reachable_ok _ _ (hs_reachable _ _ _ _ _ Hs)) as Hok. destruct Hp as [H1 H2 _].
  destruct (mo_index _ Hok h last Eh) as [_ Hb _ _ _ _]. unfold GetNextWorkRequired. rewrite Eh. cbn [mbind option_bind].
  assert (represents (powLimit params) (bn_limit params)) as Rl.
  { apply rep_UintToArith256. destruct H1 as [_ _ H3 _]. split; [lia|]. apply limit_R. lia. }
  rewrite (rep_compact _ _ Rl). cbn [mbind option_bind]. rewrite i32_id by (unfold is_i32; lia).
  replace (nHeight last + 1 >=? nASERTActivationHeight params) with true by lia.
  exact (Asert_spec Hok params H1 _ g Eg Hg Ha h last Eh).
Qed.
Lemma ContextualCheckBlockHeader_total block p now :
  is_Some (m_block_index s !! p) -> (forall b, m_block_index s !! p = Some b -> nHeight b < 2 ^ 31 - 1) ->
  is_Some (ContextualCheckBlockHeader GetHash params (m_block_index s) block p now).
Proof using Hp Hs Eg Hg Ha.
  intros [prev Ep] Hmax. unfold ContextualCheckBlockHeader. rewrite Ep. cbn [mbind option_bind].
  rewrite (GetNextWorkRequired_asert p prev block Ep (Hmax prev Ep)). cbn [mbind option_bind]. destruct (negb _); [eauto|].
  pose proof (mo_index _ (reachable_ok _ _ (hs_reachable _ _ _ _ _ Hs))) as Hm.
  destruct (GetMedianTimePast_total _ p prev Hm Ep) as [t ->]. cbn [mbind option_bind].
  rewrite (ac_bip94 _ Hp). cbn [mbind option_bind].
  repeat match goal with |- is_Some (if ?c then _ else _) => destruct c; [eauto|] end. eauto.
Qed.
Lemma AcceptBlockHeader_total block mpc now now' :
  header_ok block -> (forall h b, m_block_index s !! h = Some b -> nHeight b < 2 ^ 31 - 1) ->
  is_Some (AcceptBlockHeader EnableFuzzDeterminism GetHash PoWHash params s block mpc now now').
Proof using Hp Hs Eg Hg Ha.
  intros Hhdr Hmax. unfold AcceptBlockHeader. cbv zeta.
  pose proof (reachable_ok _ _ (hs_reachable _ _ _ _ _ Hs)) as Hok.
  assert (is_Some (AddToBlockIndex GetHash s block) ->
    is_Some (if negb mpc then Some (s, None, Invalid BLOCK_HEADER_LOW_WORK "too-little-chainwork")
     else '(s', pindex) ← AddToBlockIndex GetHash s block; Some (s', Some pindex, Valid))) as Hadd.
  { intros [[s1 h1] ->]. destruct mpc; cbn; eauto. }
  destruct (Z.eqb_spec (GetHash block) (hashGenesisBlock params)) as [E|Hne].
  { apply Hadd. unfold AddToBlockIndex. rewrite E, Eg. eauto. }
  destruct (m_block_index s !! GetHash block) eqn:Es; [destruct (_ =? 0); cbn; eauto|]. destruct (too_new block now); [eauto|].
  destruct (CheckBlockHeader _ _ _ _ _ _); [|eauto].
  destruct (m_block_index s !! hdr_hashPrevBlock block) as [prev|] eqn:Ep; [|eauto]. destruct (_ =? 0); cbn [negb]; [|eauto].
  destruct (ContextualCheckBlockHeader_total block (hdr_hashPrevBlock block) now' ltac:(eauto) ltac:(eauto)) as [[|r reason] ->];
    cbn [mbind option_bind]; [|eauto]. apply Hadd.
  destruct (AddToBlockIndex_ok GetHash s block Hok) as (s1 & -> & _); [|eauto].
  apply may_add_child; [exact Hhdr|]. exists prev. eauto.
Qed.
End AsertChain.

(** ** A small header chain *)

Definition demo_hash (b : CBlockHeader) : Z := if hdr_nNonce b =? 0 then hashGenesisBlock CMainParams else hdr_nNonce b + 1000.
Definition demo_pow (b : CBlockHeader) (p : Params) : Z := 0.
Definition demo_genesis : CBlockHeader := mkHeader 4 0 0 1790380800 0x1e0fffff 0.
Definition demo_block : CBlockHeader := mkHeader 4 (hashGenesisBlock CMainParams) 0 1790381100 0x1e0fffff 1.
Definition demo_now : Z := 1790381000 * NANO.
Lemma demo_reachable :
  exists s g, header_reachable false demo_hash demo_pow CMainParams s /\
    m_block_index s !! hashGenesisBlock CMainParams = Some g /\ pprev g = None /\ anchor_ok CMainParams g /\
    (forall h b, m_block_index s !! h = Some b -> nHeight b < 2 ^ 31 - 1) /\
    AcceptBlockHeader false demo_hash demo_pow CMainParams s demo_block true demo_now demo_now <> None.
Proof.
  destruct (AddToBlockIndex demo_hash empty_manager demo_genesis) as [[s h]|] eqn:E; [|vm_compute in E; discriminate].
  exists s. assert (header_ok demo_genesis) as Hh by (split; unfold is_u32; cbn; lia).
  assert (header_reachable false demo_hash demo_pow CMainParams s) as Hr.
  { apply (hr_genesis _ _ _ _ demo_genesis s h); [exact Hh|reflexivity|vm_compute; discriminate|exact E]. }
  pose proof (header_reachable_ok _ _ _ _ s Hr) as Hs. destruct (hs_genesis _ _ _ _ _ Hs) as (g & Eg & Hg).
  assert (forall h b, m_block_index s !! h = Some b -> nHeight b = 0 /\ anchor_ok CMainParams b) as Hall.
  { destruct (AddToBlockIndex_ok demo_hash empty_manager demo_genesis empty_manager_ok) as (s1 & E1 & Hok & _ & Hnew).
    - split; [exact Hh|]. left. split; [reflexivity|vm_compute; discriminate].
    - rewrite E in E1. injection E1 as <- _. destruct (Hnew (lookup_empty _)) as (new & Em & Hadd).
      intros h' b Eb. pose proof Eb as Eb'. rewrite Em in Eb. cbn in Eb.
      apply lookup_insert_Some in Eb as [[_ <-]|[_ Eb]]; [|rewrite lookup_empty in Eb; discriminate].
      split; [apply (root_height (mo_index _ Hok) h' new Eb'), (ad_prev _ _ _ Hadd)|].
      unfold anchor_ok. rewrite (ad_bits _ _ _ Hadd). vm_compute. split; discriminate. }
  exists g. split; [exact Hr|]. split; [exact Eg|]. split; [exact Hg|]. split; [apply (Hall _ _ Eg)|].
  split; [intros h' b Eb; destruct (Hall h' b Eb); lia|].
  destruct (AcceptBlockHeader_total false demo_hash demo_pow CMainParams CMainParams_asert_chain s Hs g Eg Hg (proj2 (Hall _ _ Eg))
    demo_block true demo_now demo_now) as [x Hx]; [split; unfold is_u32; cbn; lia| |congruence].
  intros h' b Eb. destruct (Hall h' b Eb). lia.
Qed.

(** ** The component *)

(** C12: Every header in the index is valid, and rejections change nothing: in
    every state reached from the genesis block by [AcceptBlockHeader] (any
    headers, any clock), each entry but the root comes from a header whose
    proof of work passes, whose [nBits] is what [GetNextWorkRequired] demands
    of its predecessor, whose time is past the median of its predecessors,
    whose version, algorithm id and hash meet the deployments, the reserved
    bits and the checkpoints.  A rejected header leaves the state as it
    was; an accepted one is in the new state. *)
Theorem accepted_headers_valid fuzz GetHash PoWHash params s block min_pow_checked now now' s' pindex v :
  header_reachable fuzz GetHash PoWHash params s ->
  AcceptBlockHeader fuzz GetHash PoWHash params s block min_pow_checked now now' = Some (s', pindex, v) ->
  manager_ok s /\ headers_ok fuzz GetHash PoWHash params s /\
  (v <> Valid -> s' = s) /\
  (v = Valid -> pindex = Some (GetHash block) /\ is_Some (m_block_index s' !! GetHash block)) /\
  (forall h b, m_block_index s !! h = Some b -> m_block_index s' !! h = Some b).
Proof.
  intros Hr E. pose proof (header_reachable_ok _ _ _ _ s Hr) as [Hrr Hrules (g & Eg & Hg)].
  pose proof (reachable_ok _ _ Hrr) as Hok. split; [exact Hok|]. split; [exact Hrules|].
  destruct (AcceptBlockHeader_cases _ _ _ _ s block _ now now' s' pindex v E) as [[-> Hv]|(-> & _ & Eadd & -> & Hcase)].
  - split; [reflexivity|]. split; [exact Hv|auto].
  - split; [congruence|]. revert Eadd. unfold AddToBlockIndex at 1.
    destruct (m_block_index s !! GetHash block) as [e|] eqn:Es.
    { intros E'. injection E' as <-. rewrite Es. split; [eauto|auto]. }
    destruct Hcase as [Eh|(_ & _ & _ & prev & Eprev & _)]; [rewrite Eh, Eg in Es; discriminate|]. intros Eadd.
    assert (exists new, m_block_index s' = <[GetHash block := new]> (m_block_index s)) as [new Em].
    { apply bind_Some in Eadd as (n1 & _ & Eadd). apply bind_Some in Eadd as (n2 & _ & Eadd).
      apply bind_Some in Eadd as (n3 & _ & Eadd). apply bind_Some in Eadd as ([n4 f] & _ & Eadd).
      apply bind_Some in Eadd as (n5 & _ & Eadd). injection Eadd as <-. cbn. rewrite !insert_insert_eq. eauto. }
    rewrite Em. split; [intros _; split; [reflexivity|rewrite lookup_insert_eq; eauto]|].
    intros h b Eb. rewrite lookup_insert_ne by congruence. exact Eb.
Qed.
Lemma accepted_headers_valid_witness :
  exists s s' pindex v, AcceptBlockHeader false demo_hash demo_pow CMainParams s demo_block true demo_now demo_now = Some (s', pindex, v) /\
    headers_ok false demo_hash demo_pow CMainParams s.
Proof.
  destruct demo_reachable as (s & g & Hr & _ & _ & _ & _ & Hne).
  destruct (AcceptBlockHeader false demo_hash demo_pow CMainParams s demo_block true demo_now demo_now) as [[[s' pi] v]|] eqn:E;
    [|contradiction].
  exists s, s', pi, v. split; [exact E|].
  apply (accepted_headers_valid false demo_hash demo_pow CMainParams s demo_block true demo_now demo_now s' pi v Hr E).
Defined.

(** Time moves forward: along every chain of accepted headers the median
    time past never decreases, and every block is later than the median time
    past of each of its ancestors. *)
Theorem median_time_monotone fuzz GetHash PoWHash params s h b x :
  header_reachable fuzz GetHash PoWHash params s ->
  m_block_index s !! h = Some b -> is_ancestor (m_block_index s) x h ->
  exists t t', GetMedianTimePast (m_block_index s) x = Some t /\ GetMedianTimePast (m_block_index s) h = Some t' /\
    t <= t' /\ (x <> h -> t < nTime b).
Proof.
  intros Hr Eh [n Hn]. destruct (mtp_chain fuzz GetHash PoWHash params s n h b x Hr Eh Hn) as (t & t' & E1 & E2 & Hle & Hlt).
  exists t, t'. split; [exact E1|]. split; [exact E2|]. split; [exact Hle|]. intros Hne. apply Hlt.
  destruct n; [cbn in Hn; congruence|lia].
Qed.
Lemma median_time_monotone_witness :
  exists s g t t', m_block_index s !! hashGenesisBlock CMainParams = Some g /\
    GetMedianTimePast (m_block_index s) (hashGenesisBlock CMainParams) = Some t /\
    GetMedianTimePast (m_block_index s) (hashGenesisBlock CMainParams) = Some t' /\ t <= t'.
Proof.
  destruct demo_reachable as (s & g & Hr & Eg & _).
  destruct (median_time_monotone false demo_hash demo_pow CMainParams s _ g _ Hr Eg (ex_intro _ 0%nat eq_refl)) as (t & t' & H1 & H2 & H3 & _).
  exists s, g, t, t'. auto.
Defined.

(** On a chain under ASERT from block 1, as mainnet, every accepted entry
    but the genesis block carries exactly the compact form of the ASERT rule
    at its predecessor, anchored at the genesis block, and accepting a header
    always returns a verdict: no assertion fails and no division is by
    zero, whatever the header and the clock. *)
Theorem asert_chain_targets fuzz GetHash PoWHash params s g :
  asert_chain params -> header_reachable fuzz GetHash PoWHash params s ->
  m_block_index s !! hashGenesisBlock params = Some g -> anchor_ok params g ->
  (forall h b, m_block_index s !! h = Some b -> nHeight b < 2 ^ 31 - 1) ->
  (forall h b p pb, m_block_index s !! h = Some b -> pprev b = Some p -> m_block_index s !! p = Some pb ->
     nBits b = compact (asert_rule params pb g)) /\
  (forall block min_pow_checked now now', header_ok block ->
     is_Some (AcceptBlockHeader fuzz GetHash PoWHash params s block min_pow_checked now now')).
Proof.
  intros Hp Hr Eg Ha Hmax. pose proof (header_reachable_ok _ _ _ _ s Hr) as Hs.
  assert (pprev g = None) as Hg by (destruct (hs_genesis _ _ _ _ _ Hs) as (g' & Eg' & H); rewrite Eg in Eg'; injection Eg' as <-; exact H).
  split.
  - intros h b p pb Eh Ep Epb. destruct (hs_rules _ _ _ _ _ Hs h b p Eh Ep) as [blk Hblk].
    pose proof (ro_work _ _ _ _ _ _ _ _ _ Hblk) as W.
    rewrite (GetNextWorkRequired_asert fuzz GetHash PoWHash params Hp s Hs g Eg Hg Ha p pb blk Epb (Hmax _ _ Epb)) in W. congruence.
  - intros block mpc now now' Hhdr.
    exact (AcceptBlockHeader_total fuzz GetHash PoWHash params Hp s Hs g Eg Hg Ha block mpc now now' Hhdr Hmax).
Qed.
Lemma asert_chain_targets_witness :
  exists s, header_reachable false demo_hash demo_pow CMainParams s /\
    is_Some (AcceptBlockHeader false demo_hash demo_pow CMainParams s demo_block true demo_now demo_now).
Proof.
  destruct demo_reachable as (s & g & Hr & Eg & Hg & Ha & Hmax & _). exists s. split; [exact Hr|].
  apply (asert_chain_targets false demo_hash demo_pow CMainParams s g CMainParams_asert_chain Hr Eg Ha Hmax).
  split; unfold is_u32; cbn; lia.
Defined.

(** The memory-hard hash is never computed for a header from the future:
    a new header (not the genesis block) more than two hours ahead of the
    clock is rejected with the non-punishable [BLOCK_TIME_FUTURE], with the
    state unchanged, and the outcome is the same whatever function computes
    the proof of work. *)
Theorem future_header_not_hashed fuzz GetHash PoWHash PoWHash' params s block min_pow_checked now now' :
  GetHash block <> hashGenesisBlock params -> m_block_index s !! GetHash block = None ->
  now + MAX_FUTURE_BLOCK_TIME * NANO < hdr_nTime block * NANO ->
  AcceptBlockHeader fuzz GetHash PoWHash params s block min_pow_checked now now'
  = Some (s, None, Invalid BLOCK_TIME_FUTURE "time-too-new") /\
  AcceptBlockHeader fuzz GetHash PoWHash' params s block min_pow_checked now now'
  = AcceptBlockHeader fuzz GetHash PoWHash params s block min_pow_checked now now'.
Proof.
  intros Hg Hfresh Ht. unfold AcceptBlockHeader. cbv zeta. rewrite Hfresh.
  replace (GetHash block =? hashGenesisBlock params) with false by lia.
  assert (too_new block now = true) as -> by (unfold too_new; lia). auto.
Qed.
Lemma future_header_not_hashed_witness :
  AcceptBlockHeader false demo_hash demo_pow CMainParams empty_manager demo_block true 0 0
  = Some (empty_manager, None, Invalid BLOCK_TIME_FUTURE "time-too-new").
Proof.
  apply (future_header_not_hashed false demo_hash demo_pow demo_pow CMainParams empty_manager demo_block true 0 0).
  - vm_compute. discriminate.
  - reflexivity.
  - vm_compute. reflexivity.
Defined.
