(* ===== verification/Serialize.v ===== *)
(** * Serialization ([src/src/serialize.h], [src/src/compressor.{h,cpp}])

    A stream is the list of bytes still to be read; writing returns the bytes
    written.  A failed read ([std::ios_base::failure]) is [None].  A formatter
    is the pair of functions that the C++ formatter structs provide, and the
    classes [FormatterOk] and [FormatterCanonical] state what a format
    promises: reading what was written gives it back and leaves the rest of
    the stream, and nothing but what would be written is accepted.  Vectors
    and records take their laws from those of their elements. *)

From S2P Require Import Prelude.

Local Open Scope Z_scope.

(** ** Integers of fixed width *)

Fixpoint le_bytes (n : nat) (v : Z) : list Z :=
  match n with
  | O => []
  | S n => Z.land v 255 :: le_bytes n (Z.shiftr v 8)
  end.
Fixpoint le_value (b : list Z) : Z :=
  match b with
  | [] => 0
  | x :: b => x + 256 * le_value b
  end.

(** [s.read]: the next [n] bytes, or a failure when there are fewer. *)
Definition read (n : Z) (s : list Z) : option (list Z * list Z) :=
  if n <=? Z.of_nat (length s) then Some (take (Z.to_nat n) s, drop (Z.to_nat n) s) else None.

Definition ser_writedata8 (obj : Z) : list Z := le_bytes 1 (u8 obj).
Definition ser_writedata16 (obj : Z) : list Z := le_bytes 2 (u16 obj).
Definition ser_writedata32 (obj : Z) : list Z := le_bytes 4 (u32 obj).
Definition ser_writedata64 (obj : Z) : list Z := le_bytes 8 (u64 obj).
Definition ser_readdata (bytes : Z) (s : list Z) : option (Z * list Z) :=
  '(b, s) ← read bytes s; Some (le_value b, s).
Definition ser_readdata8 := ser_readdata 1.
Definition ser_readdata16 := ser_readdata 2.
Definition ser_readdata32 := ser_readdata 4.
Definition ser_readdata64 := ser_readdata 8.

(** ** CompactSize *)

Definition MAX_SIZE : Z := 33554432. (* 0x02000000 *)

Definition GetSizeOfCompactSize (nSize : Z) : Z :=
  if nSize <? 253 then 1
  else if nSize <=? 65535 then 1 + 2
  else if nSize <=? 4294967295 then 1 + 4
  else 1 + 8.

Definition WriteCompactSize (nSize : Z) : list Z :=
  if nSize <? 253 then ser_writedata8 nSize
  else if nSize <=? 65535 then ser_writedata8 253 ++ ser_writedata16 nSize
  else if nSize <=? 4294967295 then ser_writedata8 254 ++ ser_writedata32 nSize
  else ser_writedata8 255 ++ ser_writedata64 nSize.

Definition ReadCompactSize (range_check : bool) (s : list Z) : option (Z * list Z) :=
  '(chSize, s) ← ser_readdata8 s;
  '(nSizeRet, s) ←
    (if chSize <? 253 then Some (chSize, s)
     else if chSize =? 253 then
       '(n, s) ← ser_readdata16 s; if n <? 253 then None else Some (n, s)
     else if chSize =? 254 then
       '(n, s) ← ser_readdata32 s; if n <? 65536 then None else Some (n, s)
     else
       '(n, s) ← ser_readdata64 s; if n <? 4294967296 then None else Some (n, s));
  if range_check && (nSizeRet >? MAX_SIZE) then None else Some (nSizeRet, s).

(** ** VarInt

    [tmp] holds [tmp[len] .. tmp[0]], the order in which they are written;
    [slots] is the room left in the array. *)
Fixpoint WriteVarInt_loop (slots : nat) (n : Z) (tmp : list Z) : list Z :=
  let tmp := Z.lor (Z.land n 127) (match tmp with [] => 0 | _ => 128 end) :: tmp in
  if n <=? 127 then tmp
  else match slots with
       | O => tmp
       | S slots => WriteVarInt_loop slots (Z.shiftr n 7 - 1) tmp
       end.
(** [CeilDiv(sizeof(n) * 8, 7u)] entries, one of which the first iteration uses. *)
Definition varint_slots (bits : Z) : nat := Z.to_nat ((bits + 6) / 7 - 1).
Definition WriteVarInt (bits : Z) (n : Z) : list Z := WriteVarInt_loop (varint_slots bits) n [].

Fixpoint ReadVarInt_loop (max n : Z) (s : list Z) : option (Z * list Z) :=
  match s with
  | [] => None
  | chData :: s =>
      if n >? Z.shiftr max 7 then None else
      let n := Z.lor (Z.shiftl n 7) (Z.land chData 127) in
      if negb (Z.land chData 128 =? 0)
      then if n =? max then None else ReadVarInt_loop max (n + 1) s
      else Some (n, s)
  end.
Definition ReadVarInt (bits : Z) (s : list Z) : option (Z * list Z) := ReadVarInt_loop (2 ^ bits - 1) 0 s.

(** ** Formatters *)

Record Formatter (A : Type) := mkFormatter {
  Ser : A -> list Z;
  Unser : list Z -> option (A * list Z)
}.
Arguments mkFormatter {A} _ _.
Arguments Ser {A} _ _.
Arguments Unser {A} _ _.

Class FormatterOk {A} (F : Formatter A) (valid : A -> Prop) : Prop := {
  Unser_Ser a s : valid a -> Unser F (Ser F a ++ s) = Some (a, s);
  Ser_bytes a : valid a -> bytes_ok (Ser F a)
}.
Class FormatterCanonical {A} (F : Formatter A) (valid : A -> Prop) : Prop := {
  Ser_Unser a s s' : bytes_ok s -> Unser F s = Some (a, s') -> valid a /\ s = Ser F a ++ s'
}.

Definition uint8Formatter := mkFormatter ser_writedata8 ser_readdata8.
Definition uint32Formatter := mkFormatter ser_writedata32 ser_readdata32.
Definition uint64Formatter := mkFormatter ser_writedata64 ser_readdata64.
(** [int64_t] is written through a conversion to [uint64_t] and read back
    through one from it. *)
Definition int64Formatter :=
  mkFormatter ser_writedata64 (fun s => '(v, s) ← ser_readdata64 s; Some (i64 v, s)).
Definition CompactSizeFormatter := mkFormatter WriteCompactSize (ReadCompactSize true).
Definition VarIntFormatter (bits : Z) := mkFormatter (WriteVarInt bits) (ReadVarInt bits).

(** A [uint256] is written as its 32 bytes; the number stands for them in
    little-endian order. *)
Definition uint256Formatter := mkFormatter (le_bytes 32) (ser_readdata 32).

(** A byte vector is read in blocks of at most 5,000,000 bytes. *)
Fixpoint read_blocks (fuel : nat) (n : Z) (v s : list Z) : option (list Z * list Z) :=
  if n <=? 0 then Some (v, s)
  else match fuel with
       | O => None
       | S fuel =>
           let blk := Z.min n (1 + 4999999) in
           '(b, s) ← read blk s; read_blocks fuel (n - blk) (v ++ b) s
       end.
Definition Unserialize_bytes (s : list Z) : option (list Z * list Z) :=
  '(nSize, s) ← ReadCompactSize true s;
  read_blocks (Z.to_nat (MAX_SIZE / 5000000 + 1)) nSize [] s.
Definition bytesFormatter :=
  mkFormatter (fun v => WriteCompactSize (Z.of_nat (length v)) ++ v) Unserialize_bytes.

(** The batches in which [Unser] reserves memory do not change what is read. *)
Fixpoint Unser_elems {A} (F : Formatter A) (n : nat) (s : list Z) : option (list A * list Z) :=
  match n with
  | O => Some ([], s)
  | S n => '(a, s) ← Unser F s; '(l, s) ← Unser_elems F n s; Some (a :: l, s)
  end.
Definition VectorFormatter {A} (F : Formatter A) : Formatter (list A) :=
  mkFormatter
    (fun v => WriteCompactSize (Z.of_nat (length v)) ++ concat (map (Ser F) v))
    (fun s => '(size, s) ← ReadCompactSize true s; Unser_elems F (Z.to_nat size) s).

(** [READWRITE(a, b)] *)
Definition pairFormatter {A B} (F : Formatter A) (G : Formatter B) : Formatter (A * B) :=
  mkFormatter
    (fun p => Ser F p.1 ++ Ser G p.2)
    (fun s => '(a, s) ← Unser F s; '(b, s) ← Unser G s; Some ((a, b), s)).

(** A class serialized field by field, through the tuple of its fields. *)
Definition isoFormatter {A B} (to : A -> B) (fro : B -> A) (F : Formatter B) : Formatter A :=
  mkFormatter (fun a => Ser F (to a)) (fun s => '(b, s) ← Unser F s; Some (fro b, s)).

(** ** Amounts *)

Fixpoint CompressAmount_loop (fuel : nat) (n e : Z) : Z * Z :=
  match fuel with
  | O => (n, e)
  | S fuel => if (n mod 10 =? 0) && (e <? 9) then CompressAmount_loop fuel (n / 10) (e + 1) else (n, e)
  end.
(** The loop raises [e] to at most 9. *)
Definition CompressAmount (n : Z) : Z :=
  if n =? 0 then 0 else
  let '(n, e) := CompressAmount_loop 9 n 0 in
  if e <? 9
  then let d := n mod 10 in let n := n / 10 in
       u64 (u64 (1 + u64 (u64 (u64 (n * 9) + d - 1) * 10)) + e)
  else u64 (u64 (1 + u64 (u64 (n - 1) * 10)) + 9).
Fixpoint DecompressAmount_loop (e : nat) (n : Z) : Z :=
  match e with
  | O => n
  | S e => DecompressAmount_loop e (u64 (n * 10))
  end.
Definition DecompressAmount (x : Z) : Z :=
  if x =? 0 then 0 else
  let x := x - 1 in
  let e := x mod 10 in
  let x := x / 10 in
  let n := if e <? 9 then let d := x mod 9 + 1 in u64 (u64 (x / 9 * 10) + d) else u64 (x + 1) in
  DecompressAmount_loop (Z.to_nat e) n.
Definition AmountCompression :=
  mkFormatter (fun val => WriteVarInt 64 (CompressAmount (u64 val)))
              (fun s => '(v, s) ← ReadVarInt 64 s; Some (i64 (DecompressAmount v), s)).

Example compact_size_test :
  WriteCompactSize 252 = [252] /\ WriteCompactSize 253 = [253; 253; 0] /\
  ReadCompactSize true [253; 252; 0] = None /\
  map (WriteVarInt 64) [0; 127; 128; 255; 256; 16383; 16384; 16511; 65535; 4294967296] =
    [[0]; [127]; [128; 0]; [128; 127]; [129; 0]; [254; 127]; [255; 0]; [255; 127]; [130; 254; 127];
     [142; 254; 254; 255; 0]] /\
  ReadVarInt 32 [142; 254; 254; 255; 0] = None /\
  map CompressAmount [0; 1; 1000000; 100000000; 5000000000; 2100000000000000] = [0; 1; 7; 9; 50; 21000000] /\
  CompressAmount (u64 (-1)) = u64 (9 * 1844674407370955161 * 10 + (5 - 1) * 10 + 1).
Proof. repeat split; vm_compute; reflexivity. Qed.

(** ** Fixed-width laws *)

Lemma length_le_bytes n v : length (le_bytes n v) = n.
Proof. revert v. induction n as [|n IH]; intros v; cbn; [reflexivity|]. rewrite IH. reflexivity. Qed.

Lemma le_bytes_ok n v : bytes_ok (le_bytes n v).
Proof.
  revert v. induction n as [|n IH]; intros v; cbn; [constructor|]. constructor; [|apply IH].
  apply u8_range.
Qed.

Lemma le_value_bytes n v : 0 <= v < 256 ^ Z.of_nat n -> le_value (le_bytes n v) = v.
Proof.
  revert v. induction n as [|n IH]; intros v Hv; cbn [le_bytes le_value]; [cbn in Hv; lia|].
  rewrite Nat2Z.inj_succ, Z.pow_succ_r in Hv by lia. fold (u8 v). rewrite u8_mod, Z.shiftr_div_pow2 by lia.
  change (2 ^ 8) with 256. rewrite IH; [|split; [apply Z.div_pos; lia|apply Z.div_lt_upper_bound; lia]].
  pose proof (Z.div_mod v 256 ltac:(lia)). lia.
Qed.

Lemma le_value_bound b : bytes_ok b -> 0 <= le_value b < 256 ^ Z.of_nat (length b).
Proof.
  induction b as [|x b IH]; intros Hb; cbn [le_value length]; [cbn; lia|].
  apply Forall_cons in Hb as [Hx Hb]. specialize (IH Hb). unfold is_u8 in Hx.
  rewrite Nat2Z.inj_succ, Z.pow_succ_r by lia. lia.
Qed.

Lemma le_bytes_value b : bytes_ok b -> le_bytes (length b) (le_value b) = b.
Proof.
  induction b as [|x b IH]; intros Hb; cbn [le_bytes le_value length]; [reflexivity|].
  apply Forall_cons in Hb as [Hx Hb]. unfold is_u8 in Hx. pose proof (le_value_bound b Hb).
  f_equal.
  - fold (u8 (x + 256 * le_value b)). rewrite u8_mod, Z.mul_comm, Z_mod_plus_full. apply Z.mod_small. lia.
  - rewrite Z.shiftr_div_pow2 by lia. change (2 ^ 8) with 256.
    replace ((x + 256 * le_value b) / 256) with (le_value b); [exact (IH Hb)|].
    apply (Z.div_unique _ 256 _ x); lia.
Qed.

Lemma read_app n b s : n = Z.of_nat (length b) -> read n (b ++ s) = Some (b, s).
Proof.
  intros ->. unfold read. rewrite (proj2 (Z.leb_le _ _)) by (rewrite length_app; lia).
  rewrite Nat2Z.id, take_app_length, drop_app_length. reflexivity.
Qed.

Lemma read_Some n s b s' : 0 <= n -> read n s = Some (b, s') -> s = b ++ s' /\ Z.of_nat (length b) = n.
Proof.
  unfold read. intros Hn. destruct (Z.leb_spec n (Z.of_nat (length s))); [|discriminate].
  intros [= <- <-]. rewrite take_drop, length_take. split; [reflexivity|lia].
Qed.

Lemma bytes_ok_app b s : bytes_ok (b ++ s) <-> bytes_ok b /\ bytes_ok s.
Proof. apply Forall_app. Qed.

Definition bytesb (v : list Z) : bool := forallb (fun x => (0 <=? x) && (x <? 256)) v.
Lemma bytesb_sound v : bytesb v = true -> bytes_ok v.
Proof.
  intros H. apply Forall_forall. intros x Hx. apply list_elem_of_In in Hx. unfold bytesb in H.
  rewrite forallb_forall in H. specialize (H x Hx). unfold is_u8. lia.
Qed.

Lemma readdata_app n v s :
  0 <= v < 256 ^ Z.of_nat n -> ser_readdata (Z.of_nat n) (le_bytes n v ++ s) = Some (v, s).
Proof.
  intros Hv. unfold ser_readdata. rewrite read_app by (rewrite length_le_bytes; reflexivity).
  cbn. rewrite le_value_bytes by exact Hv. reflexivity.
Qed.

Lemma readdata_Some n v s s' :
  bytes_ok s -> ser_readdata (Z.of_nat n) s = Some (v, s') ->
  0 <= v < 256 ^ Z.of_nat n /\ s = le_bytes n v ++ s' /\ bytes_ok s'.
Proof.
  intros Hs. unfold ser_readdata. destruct (read (Z.of_nat n) s) as [[b r]|] eqn:E; [|discriminate].
  intros [= <- <-]. apply read_Some in E as [-> Hl]; [|lia]. apply bytes_ok_app in Hs as [Hb Hr].
  rewrite <- Hl. split; [apply le_value_bound, Hb|]. replace n with (length b) by lia.
  rewrite le_bytes_value by exact Hb. auto.
Qed.

(** The four widths: what is written is [le_bytes] of a value in range. *)
Lemma writedata8_id v : is_u8 v -> ser_writedata8 v = le_bytes 1 v.
Proof. intros H. unfold ser_writedata8. rewrite u8_id by exact H. reflexivity. Qed.
Lemma writedata16_id v : is_u16 v -> ser_writedata16 v = le_bytes 2 v.
Proof. intros H. unfold ser_writedata16. rewrite u16_id by exact H. reflexivity. Qed.
Lemma writedata32_id v : is_u32 v -> ser_writedata32 v = le_bytes 4 v.
Proof. intros H. unfold ser_writedata32. rewrite u32_id by exact H. reflexivity. Qed.
Lemma writedata64_id v : is_u64 v -> ser_writedata64 v = le_bytes 8 v.
Proof. intros H. unfold ser_writedata64. rewrite u64_id by exact H. reflexivity. Qed.

#[export] Instance uint8_ok : FormatterOk uint8Formatter is_u8.
Proof.
  split; cbn [Ser Unser uint8Formatter]; intros; rewrite writedata8_id by assumption;
    [apply (readdata_app 1); assumption|apply le_bytes_ok].
Qed.
#[export] Instance uint32_ok : FormatterOk uint32Formatter is_u32.
Proof.
  split; cbn [Ser Unser uint32Formatter]; intros; rewrite writedata32_id by assumption;
    [apply (readdata_app 4); assumption|apply le_bytes_ok].
Qed.
#[export] Instance uint32_canonical : FormatterCanonical uint32Formatter is_u32.
Proof.
  split. cbn [Ser Unser uint32Formatter]. intros a s s' Hs E. apply (readdata_Some 4) in E as (Ha & E & _); [|exact Hs].
  change (is_u32 a) in Ha. rewrite writedata32_id by exact Ha. auto.
Qed.
#[export] Instance uint8_canonical : FormatterCanonical uint8Formatter is_u8.
Proof.
  split. cbn [Ser Unser uint8Formatter]. intros a s s' Hs E. apply (readdata_Some 1) in E as (Ha & E & _); [|exact Hs].
  change (is_u8 a) in Ha. rewrite writedata8_id by exact Ha. auto.
Qed.

Lemma i64_u64 v : is_i64 v -> i64 (u64 v) = v.
Proof.
  intros Hv. rewrite i64_mod, u64_mod. rewrite Zplus_mod_idemp_l. rewrite Z.mod_small; unfold is_i64 in Hv; lia.
Qed.
Lemma u64_i64 v : is_u64 v -> u64 (i64 v) = v.
Proof.
  intros Hv. rewrite i64_mod, u64_mod. rewrite Zminus_mod_idemp_l.
  replace (v + 9223372036854775808 - 9223372036854775808) with v by lia. apply Z.mod_small. exact Hv.
Qed.

#[export] Instance int64_ok : FormatterOk int64Formatter is_i64.
Proof.
  split; cbn [Ser Unser int64Formatter]; intros a; unfold ser_writedata64; [intros s Ha|intros Ha; apply le_bytes_ok].
  unfold ser_readdata64. rewrite (readdata_app 8) by apply u64_range. cbn. rewrite i64_u64 by exact Ha. reflexivity.
Qed.
#[export] Instance int64_canonical : FormatterCanonical int64Formatter is_i64.
Proof.
  split. cbn [Ser Unser int64Formatter]. intros a s s' Hs. unfold ser_readdata64.
  destruct (ser_readdata 8 s) as [[v r]|] eqn:E; [|discriminate]. apply (readdata_Some 8) in E as (Hv & -> & _); [|exact Hs].
  change (is_u64 v) in Hv. intros [= <- <-]. split; [apply i64_range|].
  unfold ser_writedata64. rewrite u64_i64 by exact Hv. reflexivity.
Qed.

Definition is_hash (h : Z) : Prop := 0 <= h < 2 ^ 256.
#[export] Instance uint256_ok : FormatterOk uint256Formatter is_hash.
Proof. split; intros; [apply (readdata_app 32); assumption|apply le_bytes_ok]. Qed.
#[export] Instance uint256_canonical : FormatterCanonical uint256Formatter is_hash.
Proof. split. intros a s s' Hs E. apply (readdata_Some 32) in E as (Ha & E & _); [|exact Hs]. split; assumption. Qed.

(** ** CompactSize laws *)

Definition is_size (n : Z) : Prop := 0 <= n <= MAX_SIZE.

Lemma ReadWriteCompactSize (check : bool) n s :
  is_u64 n -> (check = true -> n <= MAX_SIZE) -> ReadCompactSize check (WriteCompactSize n ++ s) = Some (n, s).
Proof.
  intros Hn Hmax. unfold ReadCompactSize, WriteCompactSize, is_u64 in *.
  assert (Hguard : check && (n >? MAX_SIZE) = false).
  { destruct check; [|reflexivity]. specialize (Hmax eq_refl). cbn. lia. }
  unfold ser_readdata8, ser_readdata16, ser_readdata32, ser_readdata64.
  destruct (Z.ltb_spec n 253); [|destruct (Z.leb_spec n 65535); [|destruct (Z.leb_spec n 4294967295)]];
    rewrite ?writedata8_id, ?writedata16_id, ?writedata32_id, ?writedata64_id, <-?app_assoc by
      (unfold is_u8, is_u16, is_u32, is_u64; lia);
    rewrite (readdata_app 1) by lia; cbn [mbind option_bind].
  - replace (n <? 253) with true by lia. cbn. rewrite Hguard. reflexivity.
  - change (253 <? 253) with false. change (253 =? 253) with true. cbv iota.
    rewrite (readdata_app 2) by (cbn; lia). cbn. replace (n <? 253) with false by lia. cbn. rewrite Hguard. reflexivity.
  - change (254 <? 253) with false. change (254 =? 253) with false. change (254 =? 254) with true. cbv iota.
    rewrite (readdata_app 4) by (cbn; lia). cbn. replace (n <? 65536) with false by lia. cbn. rewrite Hguard. reflexivity.
  - change (255 <? 253) with false. change (255 =? 253) with false. change (255 =? 254) with false. cbv iota.
    rewrite (readdata_app 8) by (cbn; lia). cbn. replace (n <? 4294967296) with false by lia. cbn. rewrite Hguard. reflexivity.
Qed.

Lemma ReadCompactSize_Some (check : bool) n s s' :
  bytes_ok s -> ReadCompactSize check s = Some (n, s') ->
  is_u64 n /\ (check = true -> n <= MAX_SIZE) /\ s = WriteCompactSize n ++ s' /\ bytes_ok s'.
Proof.
  intros Hs. unfold ReadCompactSize, ser_readdata8, ser_readdata16, ser_readdata32, ser_readdata64.
  destruct (ser_readdata 1 s) as [[ch r]|] eqn:E; [|discriminate].
  apply (readdata_Some 1) in E as (Hch & -> & Hr); [|exact Hs]. change (256 ^ Z.of_nat 1) with 256 in Hch.
  cbn [mbind option_bind].
  match goal with |- (?x ≫= _ = _) -> _ => set (inner := x) end.
  enough (Hi : forall v q, inner = Some (v, q) -> is_u64 v /\ le_bytes 1 ch ++ r = WriteCompactSize v ++ q /\ bytes_ok q).
  { destruct inner as [[v q]|]; [|discriminate]. destruct (Hi v q eq_refl) as (Hv & Heq & Hq). cbn.
    destruct (check && (v >? MAX_SIZE)) eqn:Eg; [discriminate|]. intros [= <- <-]. repeat split; auto; try apply Hv.
    intros ->. cbn in Eg. lia. }
  subst inner. intros v q. unfold WriteCompactSize, is_u64.
  destruct (Z.ltb_spec ch 253); [|destruct (Z.eqb_spec ch 253) as [->|]; [|destruct (Z.eqb_spec ch 254) as [->|]]].
  - intros [= <- <-]. replace (ch <? 253) with true by lia. rewrite writedata8_id by exact Hch. split; [lia|auto].
  - destruct (ser_readdata 2 r) as [[n2 r2]|] eqn:E; [|discriminate]. cbn [mbind option_bind].
    apply (readdata_Some 2) in E as (Hn & -> & Hr2); [|exact Hr]. change (256 ^ Z.of_nat 2) with 65536 in Hn.
    destruct (Z.ltb_spec n2 253); [discriminate|]. intros [= <- <-]. replace (n2 <? 253) with false by lia.
    replace (n2 <=? 65535) with true by lia. rewrite writedata16_id by exact Hn. rewrite <- app_assoc. split; [lia|auto].
  - destruct (ser_readdata 4 r) as [[n2 r2]|] eqn:E; [|discriminate]. cbn [mbind option_bind].
    apply (readdata_Some 4) in E as (Hn & -> & Hr2); [|exact Hr]. change (256 ^ Z.of_nat 4) with 4294967296 in Hn.
    destruct (Z.ltb_spec n2 65536); [discriminate|]. intros [= <- <-]. replace (n2 <? 253) with false by lia.
    replace (n2 <=? 65535) with false by lia. replace (n2 <=? 4294967295) with true by lia.
    rewrite writedata32_id by exact Hn. rewrite <- app_assoc. split; [lia|auto].
  - destruct (ser_readdata 8 r) as [[n2 r2]|] eqn:E; [|discriminate]. cbn [mbind option_bind].
    apply (readdata_Some 8) in E as (Hn & -> & Hr2); [|exact Hr]. change (256 ^ Z.of_nat 8) with 18446744073709551616 in Hn.
    destruct (Z.ltb_spec n2 4294967296); [discriminate|]. intros [= <- <-]. replace (n2 <? 253) with false by lia.
    replace (n2 <=? 65535) with false by lia. replace (n2 <=? 4294967295) with false by lia.
    rewrite writedata64_id by exact Hn. replace ch with 255 by lia. rewrite <- app_assoc. split; [lia|auto].
Qed.

#[export] Instance compact_size_ok : FormatterOk CompactSizeFormatter is_size.
Proof.
  split; cbn [Ser Unser CompactSizeFormatter]; intros a; unfold is_size, MAX_SIZE.
  - intros s Ha. apply ReadWriteCompactSize; [unfold is_u64|unfold MAX_SIZE]; lia.
  - intros _. unfold WriteCompactSize.
    repeat case_match; rewrite ?bytes_ok_app; repeat split; apply le_bytes_ok.
Qed.
#[export] Instance compact_size_canonical : FormatterCanonical CompactSizeFormatter is_size.
Proof.
  split. cbn [Ser Unser CompactSizeFormatter]. intros a s s' Hs E.
  apply ReadCompactSize_Some in E as (Ha & Hmax & -> & _); [|exact Hs].
  split; [|reflexivity]. specialize (Hmax eq_refl). destruct Ha. split; lia.
Qed.

Lemma length_WriteCompactSize n : Z.of_nat (length (WriteCompactSize n)) = GetSizeOfCompactSize n.
Proof.
  unfold WriteCompactSize, GetSizeOfCompactSize.
  repeat case_match; unfold ser_writedata8, ser_writedata16, ser_writedata32, ser_writedata64;
    rewrite ?length_app, !length_le_bytes; reflexivity.
Qed.

(** ** VarInt laws *)

Lemma land_127 n : Z.land n 127 = n mod 128.
Proof. change 127 with (Z.ones 7). rewrite Z.land_ones by lia. reflexivity. Qed.
(** A decidable property of bytes is checked by enumeration. *)
Lemma byte_enum (P : Z -> bool) c :
  forallb (fun i => P (Z.of_nat i)) (seq 0 256) = true -> is_u8 c -> P c = true.
Proof.
  intros H Hc. unfold is_u8 in Hc. rewrite forallb_forall in H.
  specialize (H (Z.to_nat c)). rewrite Z2Nat.id in H by lia. apply H. apply in_seq. lia.
Qed.
Lemma land_128 c : is_u8 c -> (Z.land c 128 =? 0) = (c <? 128).
Proof.
  intros Hc. apply eqb_prop. revert Hc.
  exact (byte_enum (fun c => Bool.eqb (Z.land c 128 =? 0) (c <? 128)) c ltac:(vm_compute; reflexivity)).
Qed.
Lemma lor_128 x : 0 <= x < 128 -> Z.lor x 128 = x + 128.
Proof. intros Hx. change 128 with (Z.shiftl 1 7) at 1. rewrite lor_shl by (cbn; lia). lia. Qed.
Lemma lor_digit n d : 0 <= d < 128 -> Z.lor (Z.shiftl n 7) d = n * 128 + d.
Proof. intros Hd. rewrite Z.lor_comm, lor_shl by (cbn; lia). change (2 ^ 7) with 128. lia. Qed.
Lemma shiftr_7 n : Z.shiftr n 7 = n / 128.
Proof. rewrite Z.shiftr_div_pow2 by lia. reflexivity. Qed.

(** One step of each loop, in arithmetic. *)
Lemma WriteVarInt_step slots n tmp :
  0 <= n ->
  WriteVarInt_loop slots n tmp =
  let tmp := (n mod 128 + match tmp with [] => 0 | _ => 128 end) :: tmp in
  if n <=? 127 then tmp
  else match slots with O => tmp | S slots => WriteVarInt_loop slots (n / 128 - 1) tmp end.
Proof.
  intros Hn. pose proof (Z.mod_pos_bound n 128 ltac:(lia)).
  destruct slots; cbn [WriteVarInt_loop]; rewrite ?shiftr_7, land_127;
    (destruct tmp; [rewrite Z.lor_0_r, Z.add_0_r|rewrite lor_128 by lia]); reflexivity.
Qed.

Lemma ReadVarInt_step max n c s :
  0 <= n -> is_u8 c ->
  ReadVarInt_loop max n (c :: s) =
  if n >? max / 128 then None else
  let n := n * 128 + c mod 128 in
  if 128 <=? c then if n =? max then None else ReadVarInt_loop max (n + 1) s else Some (n, s).
Proof.
  intros Hn Hc. cbn [ReadVarInt_loop]. rewrite shiftr_7, land_127, land_128 by exact Hc.
  rewrite lor_digit by (apply Z.mod_pos_bound; lia). rewrite Z.ltb_antisym, negb_involutive. reflexivity.
Qed.

Lemma add_128_mod r : 0 <= r < 128 -> (r + 128) mod 128 = r.
Proof. intros Hr. symmetry. apply (Z.mod_unique _ 128 1); lia. Qed.

(** Reading the digits that the loop adds in front of [tmp]. *)
Lemma varint_read_write max slots m tmp s :
  0 <= m < max -> m < 128 ^ Z.of_nat (S slots) -> tmp <> [] ->
  ReadVarInt_loop max 0 (WriteVarInt_loop slots m tmp ++ s) = ReadVarInt_loop max (m + 1) (tmp ++ s).
Proof.
  revert m tmp. induction slots as [|slots IH]; intros m tmp Hm Hs Ht;
    rewrite Nat2Z.inj_succ, Z.pow_succ_r in Hs by lia;
    rewrite WriteVarInt_step by lia; destruct tmp as [|x tmp]; try congruence; cbv zeta;
    pose proof (Z.mod_pos_bound m 128 ltac:(lia)); pose proof (Z.div_mod m 128 ltac:(lia));
    destruct (Z.leb_spec m 127); cbn [app].
  1, 3: rewrite (Z.mod_small m 128) by lia; rewrite ReadVarInt_step by (unfold is_u8; lia);
    pose proof (Z.div_pos max 128 ltac:(lia) ltac:(lia)); rewrite add_128_mod by lia; cbn zeta;
    replace (0 >? max / 128) with false by lia; replace (128 <=? m + 128) with true by lia;
    replace (0 * 128 + m =? max) with false by lia; reflexivity.
  - cbn in Hs. lia.
  - assert (1 <= m / 128) by (apply Z.div_le_lower_bound; lia).
    pose proof (Z.div_le_mono m max 128 ltac:(lia) ltac:(lia)).
    rewrite IH; [|split; [lia|]; nia|apply Z.lt_add_lt_sub_r; nia|discriminate]. cbn [app].
    rewrite Z.sub_add, ReadVarInt_step by (unfold is_u8; lia). rewrite add_128_mod by lia. cbn zeta.
    replace (m / 128 >? max / 128) with false by lia. replace (128 <=? m mod 128 + 128) with true by lia.
    replace (m / 128 * 128 + m mod 128) with m by lia. replace (m =? max) with false by lia. reflexivity.
Qed.

Lemma WriteVarInt_slots slots slots' n tmp :
  0 <= n < 128 ^ Z.of_nat (S slots) -> (slots <= slots')%nat ->
  WriteVarInt_loop slots' n tmp = WriteVarInt_loop slots n tmp.
Proof.
  revert slots' n tmp. induction slots as [|slots IH]; intros slots' n tmp Hn Hle;
    rewrite Nat2Z.inj_succ, Z.pow_succ_r in Hn by lia; rewrite !WriteVarInt_step by lia; cbv zeta;
    destruct (Z.leb_spec n 127); try reflexivity.
  - cbn in Hn. lia.
  - destruct slots' as [|slots']; [lia|]. apply IH; [|lia].
    assert (1 <= n / 128) by (apply Z.div_le_lower_bound; lia). pose proof (Z.div_mod n 128 ltac:(lia)).
    pose proof (Z.mod_pos_bound n 128 ltac:(lia)). nia.
Qed.

(** What a successful read consumed is what the write loop produces: from the
    start when nothing has been read, and in front of the rest otherwise. *)
Lemma varint_write_read max s n acc s' :
  max mod 128 = 127 -> 0 <= acc -> bytes_ok s -> ReadVarInt_loop max acc s = Some (n, s') ->
  acc <= n <= max /\
  exists l : list Z, s = l ++ s' /\ l <> [] /\
    (acc = 0 -> forall f, WriteVarInt_loop (f + length l)%nat n [] = l) /\
    (0 < acc -> forall f, WriteVarInt_loop (f + length l)%nat n [] = WriteVarInt_loop f (acc - 1) l).
Proof.
  intros H127. revert n acc s'. induction s as [|c s IH]; intros n acc s' Hacc Hs; [discriminate|].
  apply Forall_cons in Hs as [Hc Hs]. rewrite ReadVarInt_step by assumption. unfold is_u8 in Hc.
  pose proof (Z.mod_pos_bound c 128 ltac:(lia)) as Hr. pose proof (Z.div_mod max 128 ltac:(lia)) as Hmax.
  destruct (Z.gtb_spec acc (max / 128)); [discriminate|]. cbv zeta. remember (acc * 128 + c mod 128) as n1 eqn:En1.
  assert (Hn1 : n1 mod 128 = c mod 128 /\ n1 / 128 = acc).
  { split; symmetry; [apply (Z.mod_unique _ 128 acc)|apply (Z.div_unique _ 128 _ (c mod 128))]; lia. }
  destruct Hn1 as [Hm Hd].
  destruct (Z.leb_spec 128 c).
  - assert (Hcm : c mod 128 = c - 128) by (symmetry; apply (Z.mod_unique c 128 1); lia).
    destruct (Z.eqb_spec n1 max); [discriminate|]. intros E.
    apply IH in E as (Hn & l & -> & Hl & _ & Hw); [|lia|exact Hs]. specialize (Hw ltac:(lia)).
    rewrite Z.add_simpl_r in Hw. split; [lia|]. exists (c :: l). repeat split; [discriminate| |].
    + intros -> f. cbn [length]. rewrite <- Nat.add_succ_comm, Hw, WriteVarInt_step by lia. cbv zeta.
      replace (n1 <=? 127) with true by lia. rewrite Hm, Hcm. destruct l; [done|]. f_equal. lia.
    + intros Hpos f. cbn [length]. rewrite <- Nat.add_succ_comm, Hw, WriteVarInt_step by lia. cbv zeta.
      replace (n1 <=? 127) with false by lia. rewrite Hm, Hd, Hcm. destruct l; [done|]. do 2 f_equal. lia.
  - rewrite (Z.mod_small c 128) in * by lia. intros [= <- <-]. split; [lia|]. exists [c].
    repeat split; [discriminate| |]; intros Ha f; cbn [length]; rewrite Nat.add_1_r, WriteVarInt_step by lia;
      cbv zeta; rewrite Hm, Z.add_0_r.
    + replace (n1 <=? 127) with true by lia. reflexivity.
    + replace (n1 <=? 127) with false by lia. rewrite Hd. reflexivity.
Qed.

Lemma varint_room bits : 0 < bits -> 2 ^ bits <= 128 ^ Z.of_nat (S (varint_slots bits)).
Proof.
  intros Hb. unfold varint_slots. change 128 with (2 ^ 7). rewrite <- Z.pow_mul_r by lia.
  apply Z.pow_le_mono_r; [lia|]. pose proof (Z.div_mod (bits + 6) 7 ltac:(lia)).
  pose proof (Z.mod_pos_bound (bits + 6) 7 ltac:(lia)). lia.
Qed.

Lemma WriteVarInt_bytes slots n tmp : 0 <= n -> bytes_ok tmp -> bytes_ok (WriteVarInt_loop slots n tmp).
Proof.
  revert n tmp. induction slots as [|slots IH]; intros n tmp Hn Ht; rewrite WriteVarInt_step by lia; cbv zeta;
    pose proof (Z.mod_pos_bound n 128 ltac:(lia));
    (assert (Hd : bytes_ok ((n mod 128 + match tmp with [] => 0 | _ => 128 end) :: tmp))
       by (constructor; [unfold is_u8; destruct tmp; lia|exact Ht]));
    destruct (Z.leb_spec n 127); try exact Hd.
  apply IH; [|exact Hd]. assert (1 <= n / 128) by (apply Z.div_le_lower_bound; lia). lia.
Qed.

Section VarInt.
Variable bits : Z.
Context (Hbits : 7 <= bits).

Lemma max_digit : (2 ^ bits - 1) mod 128 = 127.
Proof.
  replace bits with (bits - 7 + 7) by lia. rewrite Z.pow_add_r by lia. change (2 ^ 7) with 128.
  symmetry. apply (Z.mod_unique _ 128 (2 ^ (bits - 7) - 1)); lia.
Qed.

Lemma ReadVarInt_WriteVarInt n s : 0 <= n < 2 ^ bits -> ReadVarInt bits (WriteVarInt bits n ++ s) = Some (n, s).
Proof.
  intros Hn. unfold ReadVarInt, WriteVarInt. pose proof (varint_room bits ltac:(lia)) as Hroom.
  assert (H0 : 0 <= (2 ^ bits - 1) / 128) by (apply Z.div_pos; lia).
  assert (Hd : 0 <= n / 128 <= (2 ^ bits - 1) / 128) by (split; [apply Z.div_pos|apply Z.div_le_mono]; lia).
  pose proof (Z.div_mod n 128 ltac:(lia)). pose proof (Z.mod_pos_bound n 128 ltac:(lia)) as Hr.
  rewrite Nat2Z.inj_succ, Z.pow_succ_r in Hroom by lia.
  rewrite WriteVarInt_step by lia. cbv zeta. rewrite Z.add_0_r. destruct (Z.leb_spec n 127); cbn [app].
  - rewrite (Z.mod_small n 128) by lia. rewrite ReadVarInt_step by (unfold is_u8; lia). cbv zeta.
    rewrite (Z.mod_small n 128) by lia. replace (0 >? _) with false by lia. replace (128 <=? n) with false by lia.
    reflexivity.
  - assert (1 <= n / 128) by (apply Z.div_le_lower_bound; lia).
    destruct (varint_slots bits) as [|slots]; [cbn in Hroom; lia|].
    rewrite varint_read_write; [|lia|nia|discriminate]. cbn [app].
    rewrite Z.sub_add, ReadVarInt_step by (unfold is_u8; lia). cbv zeta. rewrite Z.mod_mod by lia.
    replace (n / 128 >? _) with false by lia. replace (128 <=? n mod 128) with false by lia.
    do 2 f_equal. lia.
Qed.

#[export] Instance varint_ok : FormatterOk (VarIntFormatter bits) (fun n => 0 <= n < 2 ^ bits).
Proof.
  split; cbn [Ser Unser VarIntFormatter].
  - apply ReadVarInt_WriteVarInt.
  - intros n Hn. apply WriteVarInt_bytes; [lia|constructor].
Qed.
#[export] Instance varint_canonical : FormatterCanonical (VarIntFormatter bits) (fun n => 0 <= n < 2 ^ bits).
Proof.
  split. cbn [Ser Unser VarIntFormatter]. intros n s s' Hs E.
  apply varint_write_read in E as (Hn & l & -> & _ & Hw & _); [|exact max_digit|lia|exact Hs].
  split; [lia|]. f_equal. transitivity (WriteVarInt_loop (varint_slots bits + length l) n []); [symmetry; apply (Hw eq_refl)|].
  apply WriteVarInt_slots; [|lia]. pose proof (varint_room bits ltac:(lia)). lia.
Qed.
End VarInt.

(** ** Vectors and pairs *)

Lemma read_0 s : read 0 s = Some ([], s).
Proof. exact (read_app 0 [] s eq_refl). Qed.

Lemma read_blocks_read fuel n v s :
  0 <= n <= 5000000 * Z.of_nat fuel ->
  read_blocks fuel n v s = ('(b, s) ← read n s; Some (v ++ b, s)).
Proof.
  revert n v s. induction fuel as [|fuel IH]; intros n v s Hn; cbn [read_blocks].
  - replace n with 0 by lia. rewrite read_0. cbn. rewrite app_nil_r. reflexivity.
  - destruct (Z.leb_spec n 0) as [H0|H0].
    { replace n with 0 by lia. rewrite read_0. cbn. rewrite app_nil_r. reflexivity. }
    change (1 + 4999999) with 5000000. set (blk := Z.min n 5000000). unfold read.
    destruct (Z.leb_spec blk (Z.of_nat (length s))); cbn [mbind option_bind];
      [|rewrite (proj2 (Z.leb_gt _ _)) by lia; reflexivity].
    rewrite IH by lia. unfold read. rewrite length_drop.
    destruct (Z.leb_spec n (Z.of_nat (length s))).
    + rewrite (proj2 (Z.leb_le _ _)) by lia. cbn. rewrite <- app_assoc, drop_drop. do 3 f_equal; [|f_equal; lia].
      rewrite <- (take_drop (Z.to_nat blk) (take (Z.to_nat n) s)).
      rewrite take_take, skipn_firstn_comm. do 2 f_equal; lia.
    + rewrite (proj2 (Z.leb_gt _ _)) by lia. reflexivity.
Qed.

Lemma Unserialize_bytes_read s :
  Unserialize_bytes s = ('(n, s) ← ReadCompactSize true s; if n <? 0 then Some ([], s) else read n s).
Proof.
  unfold Unserialize_bytes. destruct (ReadCompactSize true s) as [[n r]|] eqn:E; [|reflexivity]. cbn [mbind option_bind].
  assert (Hn : n <= MAX_SIZE).
  { revert E. unfold ReadCompactSize. destruct (ser_readdata8 s) as [[ch q]|]; [|discriminate]. cbn [mbind option_bind].
    match goal with |- (?x ≫= _ = _) -> _ => destruct x as [[v q']|]; [|discriminate] end. cbn [mbind option_bind andb].
    destruct (Z.gtb_spec v MAX_SIZE); [discriminate|]. intros [= <- <-]. lia. }
  destruct (Z.ltb_spec n 0).
  - change (Z.to_nat _) with 7%nat. cbn [read_blocks]. rewrite (proj2 (Z.leb_le _ _)) by lia. reflexivity.
  - rewrite read_blocks_read by (change (Z.of_nat _) with 7; unfold MAX_SIZE in Hn; lia).
    destruct (read n r) as [[b r']|]; reflexivity.
Qed.

Definition is_bytes (v : list Z) : Prop := bytes_ok v /\ Z.of_nat (length v) <= MAX_SIZE.

Lemma size_length {A} (v : list A) : Z.of_nat (length v) <= MAX_SIZE -> is_size (Z.of_nat (length v)).
Proof. intros H. split; lia. Qed.
Lemma length_u64 {A} (v : list A) : Z.of_nat (length v) <= MAX_SIZE -> is_u64 (Z.of_nat (length v)).
Proof. unfold MAX_SIZE. intros H. split; lia. Qed.

#[export] Instance bytes_formatter_ok : FormatterOk bytesFormatter is_bytes.
Proof.
  split; cbn [Ser Unser bytesFormatter]; intros v.
  - intros s [Hb Hl]. rewrite Unserialize_bytes_read, <- app_assoc.
    rewrite ReadWriteCompactSize by (auto using length_u64). cbn [mbind option_bind].
    rewrite (proj2 (Z.ltb_ge _ _)) by lia. apply read_app. reflexivity.
  - intros [Hb Hl]. apply bytes_ok_app. split; [|exact Hb]. apply (Ser_bytes (F := CompactSizeFormatter)), size_length, Hl.
Qed.
#[export] Instance bytes_formatter_canonical : FormatterCanonical bytesFormatter is_bytes.
Proof.
  split. cbn [Ser Unser bytesFormatter]. intros v s s' Hs. rewrite Unserialize_bytes_read.
  destruct (ReadCompactSize true s) as [[n r]|] eqn:E; [|discriminate].
  apply ReadCompactSize_Some in E as (Hn & Hmax & -> & Hr); [|exact Hs]. cbn [mbind option_bind].
  destruct Hn as [Hn _]. rewrite (proj2 (Z.ltb_ge _ _)) by lia. intros E. apply read_Some in E as [-> <-]; [|exact Hn].
  apply bytes_ok_app in Hr as [Hv _]. specialize (Hmax eq_refl). rewrite <- app_assoc. repeat split; auto.
Qed.

Section Vector.
Context {A : Type} (F : Formatter A) (valid : A -> Prop).
Definition is_vector (v : list A) : Prop := Forall valid v /\ Z.of_nat (length v) <= MAX_SIZE.

Lemma Unser_elems_app `{!FormatterOk F valid} v s :
  Forall valid v -> Unser_elems F (length v) (concat (map (Ser F) v) ++ s) = Some (v, s).
Proof.
  induction 1 as [|a v Ha Hv IH]; [reflexivity|]. cbn [length map concat Unser_elems].
  rewrite <- app_assoc, Unser_Ser by exact Ha. cbn [mbind option_bind]. rewrite IH. reflexivity.
Qed.

Lemma Unser_elems_Some `{!FormatterCanonical F valid} n v s s' :
  bytes_ok s -> Unser_elems F n s = Some (v, s') ->
  Forall valid v /\ length v = n /\ s = concat (map (Ser F) v) ++ s'.
Proof.
  revert v s. induction n as [|n IH]; intros v s Hs; cbn [Unser_elems].
  - intros [= <- <-]. repeat split. constructor.
  - destruct (Unser F s) as [[a r]|] eqn:E; [|discriminate]. cbn [mbind option_bind].
    apply Ser_Unser in E as [Ha ->]; [|exact Hs]. apply bytes_ok_app in Hs as [_ Hr].
    destruct (Unser_elems F n r) as [[l r']|] eqn:E; [|discriminate]. cbn [mbind option_bind].
    intros [= <- <-]. apply IH in E as (Hl & <- & ->); [|exact Hr]. cbn. rewrite <- app_assoc. repeat split.
    constructor; assumption.
Qed.

#[export] Instance vector_ok `{!FormatterOk F valid} : FormatterOk (VectorFormatter F) is_vector.
Proof.
  split; cbn [Ser Unser VectorFormatter]; intros v.
  - intros s [Hv Hl]. rewrite <- app_assoc, ReadWriteCompactSize by (auto using length_u64). cbn [mbind option_bind].
    rewrite Nat2Z.id. apply Unser_elems_app, Hv.
  - intros [Hv Hl]. apply bytes_ok_app. split; [apply (Ser_bytes (F := CompactSizeFormatter)), size_length, Hl|].
    clear Hl. induction Hv as [|a v Ha Hv IH]; [constructor|]. cbn. apply bytes_ok_app. split; [|exact IH].
    apply Ser_bytes, Ha.
Qed.
#[export] Instance vector_canonical `{!FormatterCanonical F valid} : FormatterCanonical (VectorFormatter F) is_vector.
Proof.
  split. cbn [Ser Unser VectorFormatter]. intros v s s' Hs.
  destruct (ReadCompactSize true s) as [[n r]|] eqn:E; [|discriminate].
  apply ReadCompactSize_Some in E as (Hn & Hmax & -> & Hr); [|exact Hs]. cbn [mbind option_bind]. destruct Hn as [Hn _].
  intros E. apply Unser_elems_Some in E as (Hv & Hl & ->); [|exact Hr]. rewrite Hl, Z2Nat.id by exact Hn.
  specialize (Hmax eq_refl). rewrite <- app_assoc. repeat split; [exact Hv|lia].
Qed.
End Vector.

#[export] Instance pair_ok {A B} (F : Formatter A) (G : Formatter B) validA validB
  `{!FormatterOk F validA, !FormatterOk G validB} :
  FormatterOk (pairFormatter F G) (fun p => validA p.1 /\ validB p.2).
Proof.
  split; cbn [Ser Unser pairFormatter]; intros [a b]; cbn [fst snd].
  - intros s [Ha Hb]. rewrite <- app_assoc, Unser_Ser by exact Ha. cbn [mbind option_bind].
    rewrite Unser_Ser by exact Hb. reflexivity.
  - intros [Ha Hb]. apply bytes_ok_app. split; apply Ser_bytes; assumption.
Qed.
#[export] Instance pair_canonical {A B} (F : Formatter A) (G : Formatter B) validA validB
  `{!FormatterCanonical F validA, !FormatterCanonical G validB} :
  FormatterCanonical (pairFormatter F G) (fun p => validA p.1 /\ validB p.2).
Proof.
  split. cbn [Ser Unser pairFormatter]. intros [a b] s s' Hs.
  destruct (Unser F s) as [[a' r]|] eqn:E; [|discriminate]. cbn [mbind option_bind].
  apply Ser_Unser in E as [Ha ->]; [|exact Hs]. apply bytes_ok_app in Hs as [_ Hr].
  destruct (Unser G r) as [[b' r']|] eqn:E; [|discriminate]. apply Ser_Unser in E as [Hb ->]; [|exact Hr].
  cbn. intros [= -> -> ->]. rewrite <- app_assoc. auto.
Qed.

Section Iso.
Context {A B : Type} (to : A -> B) (fro : B -> A) (F : Formatter B) (valid : B -> Prop).

#[export] Instance iso_ok `{!FormatterOk F valid, !Cancel (=) fro to} :
  FormatterOk (isoFormatter to fro F) (fun a => valid (to a)).
Proof.
  split; cbn [Ser Unser isoFormatter]; intros a; [|apply Ser_bytes].
  intros s Ha. rewrite Unser_Ser by exact Ha. cbn. rewrite (cancel fro to). reflexivity.
Qed.
#[export] Instance iso_canonical `{!FormatterCanonical F valid, !Cancel (=) to fro} :
  FormatterCanonical (isoFormatter to fro F) (fun a => valid (to a)).
Proof.
  split. cbn [Ser Unser isoFormatter]. intros a s s' Hs. destruct (Unser F s) as [[b r]|] eqn:E; [|discriminate].
  cbn. intros [= <- <-]. rewrite (cancel to fro). exact (Ser_Unser b s r Hs E).
Qed.
End Iso.

(** ** Amounts *)

Lemma CompressAmount_loop_spec fuel n e :
  0 < n -> 0 <= e -> e + Z.of_nat fuel = 9 ->
  let '(n', e') := CompressAmount_loop fuel n e in
  0 < n' /\ e <= e' <= 9 /\ n = n' * 10 ^ (e' - e) /\ (e' < 9 -> n' mod 10 <> 0).
Proof.
  revert n e. induction fuel as [|fuel IH]; intros n e Hn He Hf; cbn [CompressAmount_loop].
  - rewrite Z.sub_diag. repeat split; lia.
  - destruct (Z.eqb_spec (n mod 10) 0) as [E|E]; cbn [andb]; [|rewrite Z.sub_diag; repeat split; lia].
    replace (e <? 9) with true by lia. pose proof (Z.div_mod n 10 ltac:(lia)).
    specialize (IH (n / 10) (e + 1) ltac:(lia) ltac:(lia) ltac:(lia)).
    destruct (CompressAmount_loop fuel (n / 10) (e + 1)) as [n' e']. destruct IH as (Hn' & He' & Hq & Hm).
    repeat split; try lia. replace (e' - e) with (Z.succ (e' - (e + 1))) by lia.
    rewrite Z.pow_succ_r by lia. lia.
Qed.

Lemma times_ten_spec k n :
  0 <= n -> n * 10 ^ Z.of_nat k < 2 ^ 64 -> DecompressAmount_loop k n = n * 10 ^ Z.of_nat k.
Proof.
  revert n. induction k as [|k IH]; intros n Hn Hk; [cbn; lia|]. rewrite Nat2Z.inj_succ, Z.pow_succ_r in * by lia.
  cbn [DecompressAmount_loop]. pose proof (Z.pow_pos_nonneg 10 (Z.of_nat k) ltac:(lia) ltac:(lia)).
  rewrite u64_id by (unfold is_u64; change (2 ^ 64) with 18446744073709551616 in *; nia).
  rewrite IH by nia. lia.
Qed.

Definition MAX_COMPRESSIBLE : Z := 2049638230412172401.

(** Compression is exact up to a bound far above [MAX_MONEY]: above it the
    products of [CompressAmount] can wrap around. *)
Lemma DecompressAmount_CompressAmount n :
  0 <= n <= MAX_COMPRESSIBLE -> DecompressAmount (CompressAmount n) = n /\ is_u64 (CompressAmount n).
Proof.
  intros Hn. unfold CompressAmount. destruct (Z.eqb_spec n 0) as [->|H0]; [repeat split; lia|].
  pose proof (CompressAmount_loop_spec 9 n 0 ltac:(lia) ltac:(lia) ltac:(lia)) as H.
  destruct (CompressAmount_loop 9 n 0) as [m e]. destruct H as (Hm & He & Hq & Hd). rewrite Z.sub_0_r in Hq.
  pose proof (Z.pow_pos_nonneg 10 e ltac:(lia) ltac:(lia)). unfold MAX_COMPRESSIBLE in Hn.
  assert (m <= n) by nia.
  destruct (Z.ltb_spec e 9).
  - specialize (Hd ltac:(lia)). pose proof (Z.mod_pos_bound m 10 ltac:(lia)). pose proof (Z.div_mod m 10 ltac:(lia)).
    set (q := m / 10) in *. set (d := m mod 10) in *.
    rewrite (u64_id (q * 9)) by (unfold is_u64; lia). rewrite (u64_id (q * 9 + d - 1)) by (unfold is_u64; lia).
    rewrite (u64_id (_ * 10)) by (unfold is_u64; lia). rewrite (u64_id (1 + _)) by (unfold is_u64; lia).
    rewrite u64_id by (unfold is_u64; lia). split; [|unfold is_u64; lia].
    unfold DecompressAmount. replace (_ =? 0) with false by lia.
    replace (1 + (q * 9 + d - 1) * 10 + e - 1) with (e + (q * 9 + d - 1) * 10) by lia.
    rewrite Z_mod_plus_full, Z.div_add, (Z.mod_small e 10), (Z.div_small e 10) by lia. cbv zeta.
    replace (e <? 9) with true by lia. rewrite Z.add_0_l.
    replace (q * 9 + d - 1) with (d - 1 + q * 9) by lia.
    rewrite Z_mod_plus_full, Z.div_add, (Z.mod_small (d - 1) 9), (Z.div_small (d - 1) 9) by lia. rewrite Z.add_0_l.
    rewrite (u64_id (q * 10)) by (unfold is_u64; lia). rewrite u64_id by (unfold is_u64; lia).
    rewrite times_ten_spec; rewrite ?Z2Nat.id by lia; change (2 ^ 64) with 18446744073709551616; try lia.
  - assert (e = 9) by lia. subst e.
    rewrite (u64_id (m - 1)) by (unfold is_u64; lia). rewrite (u64_id (_ * 10)) by (unfold is_u64; lia).
    rewrite (u64_id (1 + _)) by (unfold is_u64; lia). rewrite u64_id by (unfold is_u64; lia).
    split; [|unfold is_u64; lia]. unfold DecompressAmount. replace (_ =? 0) with false by lia.
    replace (1 + (m - 1) * 10 + 9 - 1) with (9 + (m - 1) * 10) by lia.
    rewrite Z_mod_plus_full, Z.div_add by lia. change (9 mod 10) with 9. change (9 / 10) with 0. cbv zeta.
    change (9 <? 9) with false. rewrite Z.add_0_l, Z.sub_add. rewrite u64_id by (unfold is_u64; lia).
    change (Z.to_nat 9) with 9%nat. rewrite times_ten_spec by (change (10 ^ Z.of_nat 9) with (10 ^ 9); change (2 ^ 64) with 18446744073709551616; lia).
    exact (eq_sym Hq).
Qed.

#[export] Instance amount_ok : FormatterOk AmountCompression (fun v => 0 <= v <= MAX_COMPRESSIBLE).
Proof.
  split; cbn [Ser Unser AmountCompression]; intros v.
  - intros s Hv. rewrite u64_id by (unfold is_u64, MAX_COMPRESSIBLE in *; lia).
    destruct (DecompressAmount_CompressAmount v Hv) as [Hd Hu].
    rewrite ReadVarInt_WriteVarInt by (lia || exact Hu). cbn [mbind option_bind]. rewrite Hd, i64_id; [reflexivity|].
    unfold is_i64, MAX_COMPRESSIBLE in *. lia.
  - intros Hv. rewrite u64_id by (unfold is_u64, MAX_COMPRESSIBLE in *; lia).
    destruct (DecompressAmount_CompressAmount v Hv) as [_ [Hu _]]. apply WriteVarInt_bytes; [exact Hu|constructor].
Qed.
