(* ===== verification/Script.v ===== *)
(** * Scripts ([src/src/script/script.{h,cpp}], [solver.{h,cpp}], [pubkey.h])

    A script is its list of bytes, and an iterator into it the bytes from it
    to the end.  [GetScriptOp] returns [None] where the code returns [false]
    (it then leaves [OP_INVALIDOPCODE] and no data behind, which is what the
    one caller that goes on looking at them sees).  Loops over a script take
    its length as fuel: every opcode consumes a byte. *)

From S2P Require Import Prelude Serialize.

Local Open Scope Z_scope.

Definition OP_0 : Z := 0.
Definition OP_PUSHDATA1 : Z := 76.
Definition OP_PUSHDATA2 : Z := 77.
Definition OP_PUSHDATA4 : Z := 78.
Definition OP_1NEGATE : Z := 79.
Definition OP_1 : Z := 81.
Definition OP_3 : Z := 83.
Definition OP_16 : Z := 96.
Definition OP_RETURN : Z := 106.
Definition OP_DUP : Z := 118.
Definition OP_EQUAL : Z := 135.
Definition OP_EQUALVERIFY : Z := 136.
Definition OP_HASH160 : Z := 169.
Definition OP_CHECKSIG : Z := 172.
Definition OP_CHECKSIGVERIFY : Z := 173.
Definition OP_CHECKMULTISIG : Z := 174.
Definition OP_CHECKMULTISIGVERIFY : Z := 175.
Definition OP_INVALIDOPCODE : Z := 255.
Definition MAX_OPCODE : Z := 185. (* OP_NOP10 *)

Definition MAX_SCRIPT_ELEMENT_SIZE : Z := 520.
Definition MAX_PUBKEYS_PER_MULTISIG : Z := 20.
Definition MAX_SCRIPT_SIZE : Z := 10000.

Abbreviation CScript := (list Z).
Definition size {A} (l : list A) : Z := Z.of_nat (length l).
(** [script[i]] and [script.back()], in bounds. *)
Definition byte (l : list Z) (i : nat) : Z := l !!! i.
Definition back (l : list Z) : Z := l !!! (length l - 1)%nat.

(** ** Numbers *)

(** [result |= static_cast<int64_t>(vch[i]) << 8*i] *)
Definition set_vch_bits (vch : list Z) : Z :=
  for_loop (length vch) 0 (fun i result => Z.lor result (Z.shiftl (byte vch i) (8 * Z.of_nat i))) 0.
Definition set_vch (vch : list Z) : Z :=
  match vch with
  | [] => 0
  | _ =>
      let result := set_vch_bits vch in
      if negb (Z.land (back vch) 128 =? 0)
      then - Z.land result (u64 (Z.lnot (Z.shiftl 128 (8 * (size vch - 1)))))
      else result
  end.

(** [None] is the exception [scriptnum_error]. *)
Definition CScriptNum (vch : list Z) (fRequireMinimal : bool) (nMaxNumSize : Z) : option Z :=
  if size vch >? nMaxNumSize then None
  else if fRequireMinimal && (size vch >? 0) && (Z.land (back vch) 127 =? 0) &&
          ((size vch <=? 1) || (Z.land (byte vch (length vch - 2)) 128 =? 0))
  then None
  else Some (set_vch vch).

Fixpoint serialize_loop (fuel : nat) (absvalue : Z) (result : list Z) : list Z :=
  match fuel with
  | O => result
  | S fuel =>
      if absvalue =? 0 then result
      else serialize_loop fuel (Z.shiftr absvalue 8) (result ++ [Z.land absvalue 255])
  end.
(** A [uint64_t] has 8 bytes. *)
Definition serialize (value : Z) : list Z :=
  if value =? 0 then []
  else
    let neg := value <? 0 in
    let absvalue := if neg then u64 (Z.lxor (u64 value) 18446744073709551615 + 1) else u64 value in
    let result := serialize_loop 8 absvalue [] in
    if negb (Z.land (back result) 128 =? 0) then result ++ [if neg then 128 else 0]
    else if neg then <[(length result - 1)%nat := Z.lor (back result) 128]> result
    else result.

Definition getint (m_value : Z) : Z :=
  if m_value >? 2147483647 then 2147483647
  else if m_value <? -2147483648 then -2147483648 else m_value.

(** ** Reading and writing opcodes *)

Definition ReadLE (n : Z) (pc : list Z) : option (Z * list Z) := '(b, pc) ← read n pc; Some (le_value b, pc).

Definition GetScriptOp (pc : list Z) : option (Z * list Z * list Z) :=
  match pc with
  | [] => None
  | opcode :: pc =>
      if opcode <=? OP_PUSHDATA4 then
        '(nSize, pc) ←
          (if opcode <? OP_PUSHDATA1 then Some (opcode, pc)
           else if opcode =? OP_PUSHDATA1 then ReadLE 1 pc
           else if opcode =? OP_PUSHDATA2 then ReadLE 2 pc
           else ReadLE 4 pc);
        '(data, pc) ← read nSize pc;
        Some (opcode, data, pc)
      else Some (opcode, [], pc)
  end.

Definition AppendDataSize (n : Z) : list Z :=
  if n <? OP_PUSHDATA1 then [u8 n]
  else if n <=? 255 then [OP_PUSHDATA1; u8 n]
  else if n <=? 65535 then OP_PUSHDATA2 :: le_bytes 2 (u16 n)
  else OP_PUSHDATA4 :: le_bytes 4 (u32 n).
(** [script << data] *)
Definition push_data (script data : list Z) : list Z := script ++ AppendDataSize (size data) ++ data.
Definition push_int64 (script : list Z) (n : Z) : list Z :=
  if (n =? -1) || ((n >=? 1) && (n <=? 16)) then script ++ [n + (OP_1 - 1)]
  else if n =? 0 then script ++ [OP_0]
  else push_data script (serialize n).

(** Every call is under a test that [opcode] is [OP_0] or [OP_1] .. [OP_16],
    which is what the function asserts. *)
Definition DecodeOP_N (opcode : Z) : Z := if opcode =? OP_0 then 0 else opcode - (OP_1 - 1).

Fixpoint GetSigOpCount_loop (fuel : nat) (pc : list Z) (fAccurate : bool) (lastOpcode n : Z) : Z :=
  match fuel with
  | O => n
  | S fuel =>
      match GetScriptOp pc with
      | None => n
      | Some (opcode, _, pc) =>
          let n :=
            if (opcode =? OP_CHECKSIG) || (opcode =? OP_CHECKSIGVERIFY) then u32 (n + 1)
            else if (opcode =? OP_CHECKMULTISIG) || (opcode =? OP_CHECKMULTISIGVERIFY) then
              if fAccurate && (lastOpcode >=? OP_1) && (lastOpcode <=? OP_16)
              then u32 (n + DecodeOP_N lastOpcode)
              else u32 (n + MAX_PUBKEYS_PER_MULTISIG)
            else n in
          GetSigOpCount_loop fuel pc fAccurate opcode n
      end
  end.
Definition GetSigOpCount (script : CScript) (fAccurate : bool) : Z :=
  GetSigOpCount_loop (length script) script fAccurate OP_INVALIDOPCODE 0.

(** The data of the last push, [None] when an opcode is not a push or the
    script ends inside one. *)
Fixpoint last_push (fuel : nat) (pc vData : list Z) : option (list Z) :=
  match pc, fuel with
  | [], _ => Some vData
  | _, O => None
  | _, S fuel =>
      match GetScriptOp pc with
      | None => None
      | Some (opcode, data, pc) => if opcode >? OP_16 then None else last_push fuel pc data
      end
  end.

Definition IsPayToScriptHash (s : CScript) : bool :=
  (size s =? 23) && (byte s 0 =? OP_HASH160) && (byte s 1 =? 20) && (byte s 22 =? OP_EQUAL).
Definition IsPayToAnchor (s : CScript) : bool :=
  (size s =? 4) && (byte s 0 =? OP_1) && (byte s 1 =? 2) && (byte s 2 =? 78) && (byte s 3 =? 115).
Definition IsPayToXcoinV3 (s : CScript) : bool := (size s =? 34) && (byte s 0 =? OP_3) && (byte s 1 =? 32).
Definition IsWitnessProgram (s : CScript) : option (Z * list Z) :=
  if (size s <? 4) || (size s >? 42) then None
  else if negb (byte s 0 =? OP_0) && ((byte s 0 <? OP_1) || (byte s 0 >? OP_16)) then None
  else if byte s 1 + 2 =? size s then Some (DecodeOP_N (byte s 0), drop 2 s)
  else None.

Definition GetSigOpCount_p2sh (s scriptSig : CScript) : Z :=
  if negb (IsPayToScriptHash s) then GetSigOpCount s true
  else match last_push (length scriptSig) scriptSig [] with
       | None => 0
       | Some vData => GetSigOpCount vData true
       end.

Fixpoint IsPushOnly_loop (fuel : nat) (pc : list Z) : bool :=
  match pc, fuel with
  | [], _ => true
  | _, O => false
  | _, S fuel =>
      match GetScriptOp pc with
      | None => false
      | Some (opcode, _, pc) => if opcode >? OP_16 then false else IsPushOnly_loop fuel pc
      end
  end.
Definition IsPushOnly (s : CScript) : bool := IsPushOnly_loop (length s) s.

Fixpoint HasValidOps_loop (fuel : nat) (it : list Z) : bool :=
  match it, fuel with
  | [], _ => true
  | _, O => false
  | _, S fuel =>
      match GetScriptOp it with
      | None => false
      | Some (opcode, item, it) =>
          if (opcode >? MAX_OPCODE) || (size item >? MAX_SCRIPT_ELEMENT_SIZE) then false
          else HasValidOps_loop fuel it
      end
  end.
Definition HasValidOps (s : CScript) : bool := HasValidOps_loop (length s) s.

Definition IsUnspendable (s : CScript) : bool :=
  ((size s >? 0) && (byte s 0 =? OP_RETURN)) || (size s >? MAX_SCRIPT_SIZE).

Definition CheckMinimalPush (data : list Z) (opcode : Z) : bool :=
  if size data =? 0 then opcode =? OP_0
  else if (size data =? 1) && (byte data 0 >=? 1) && (byte data 0 <=? 16) then false
  else if (size data =? 1) && (byte data 0 =? 129) then false
  else if size data <=? 75 then opcode =? size data
  else if size data <=? 255 then opcode =? OP_PUSHDATA1
  else if size data <=? 65535 then opcode =? OP_PUSHDATA2
  else true.

(** ** Output types *)

Inductive TxoutType :=
  | NONSTANDARD | ANCHOR | PUBKEY | PUBKEYHASH | SCRIPTHASH | MULTISIG | NULL_DATA
  | WITNESS_V0_SCRIPTHASH | WITNESS_V0_KEYHASH | WITNESS_V1_TAPROOT | WITNESS_V2_PQ | WITNESS_V3_PQ
  | WITNESS_UNKNOWN.
#[export] Instance TxoutType_eq_dec : EqDecision TxoutType.
Proof. solve_decision. Defined.

Definition WITNESS_V0_SCRIPTHASH_SIZE : Z := 32.
Definition WITNESS_V0_KEYHASH_SIZE : Z := 20.
Definition WITNESS_V1_TAPROOT_SIZE : Z := 32.
Definition WITNESS_V3_SIZE : Z := 32.
Definition PUBKEY_SIZE : Z := 65.
Definition COMPRESSED_SIZE : Z := 33.

Definition GetLen (chHeader : Z) : Z :=
  if (chHeader =? 2) || (chHeader =? 3) then COMPRESSED_SIZE
  else if (chHeader =? 4) || (chHeader =? 6) || (chHeader =? 7) then PUBKEY_SIZE
  else 0.
Definition ValidSize (vch : list Z) : bool := (size vch >? 0) && (GetLen (byte vch 0) =? size vch).

Definition MatchPayToPubkey (script : CScript) : option (list Z) :=
  if (size script =? PUBKEY_SIZE + 2) && (byte script 0 =? PUBKEY_SIZE) && (back script =? OP_CHECKSIG) then
    let pubkey := take 65 (drop 1 script) in if ValidSize pubkey then Some pubkey else None
  else if (size script =? COMPRESSED_SIZE + 2) && (byte script 0 =? COMPRESSED_SIZE) && (back script =? OP_CHECKSIG) then
    let pubkey := take 33 (drop 1 script) in if ValidSize pubkey then Some pubkey else None
  else None.
Definition MatchPayToPubkeyHash (script : CScript) : option (list Z) :=
  if (size script =? 25) && (byte script 0 =? OP_DUP) && (byte script 1 =? OP_HASH160) && (byte script 2 =? 20) &&
     (byte script 23 =? OP_EQUALVERIFY) && (byte script 24 =? OP_CHECKSIG)
  then Some (take 20 (drop 3 script))
  else None.
Definition IsSmallInteger (opcode : Z) : bool := (opcode >=? OP_1) && (opcode <=? OP_16).
Definition IsPushdataOp (opcode : Z) : bool := (opcode >? OP_0) && (opcode <=? OP_PUSHDATA4).
Definition GetScriptNumber (opcode : Z) (data : list Z) (min max : Z) : option Z :=
  count ← (if IsSmallInteger opcode then Some (DecodeOP_N opcode)
           else if IsPushdataOp opcode then
             if negb (CheckMinimalPush data opcode) then None
             else n ← CScriptNum data true 4; Some (getint n)
           else None);
  if (count <? min) || (count >? max) then None else Some count.

(** [while (script.GetOp(it, opcode, data) && CPubKey::ValidSize(data))]: the
    keys, and the opcode, data and iterator the loop ends with. *)
Fixpoint multisig_keys (fuel : nat) (it : list Z) (pubkeys : list (list Z)) : list (list Z) * Z * list Z * list Z :=
  match fuel with
  | O => (pubkeys, OP_INVALIDOPCODE, [], it)
  | S fuel =>
      match GetScriptOp it with
      | None => (pubkeys, OP_INVALIDOPCODE, [], it)
      | Some (opcode, data, it) =>
          if ValidSize data then multisig_keys fuel it (pubkeys ++ [data]) else (pubkeys, opcode, data, it)
      end
  end.
Definition MatchMultisig (script : CScript) : option (Z * list (list Z)) :=
  if (size script <? 1) || negb (back script =? OP_CHECKMULTISIG) then None else
  '(opcode, data, it) ← GetScriptOp script;
  required_sigs ← GetScriptNumber opcode data 1 MAX_PUBKEYS_PER_MULTISIG;
  let '(pubkeys, opcode, data, it) := multisig_keys (length script) it [] in
  num_keys ← GetScriptNumber opcode data required_sigs MAX_PUBKEYS_PER_MULTISIG;
  if negb (size pubkeys =? num_keys) then None
  else if size it =? 1 then Some (required_sigs, pubkeys) else None.

(** The type and [vSolutionsRet]. *)
Definition Solver (scriptPubKey : CScript) : TxoutType * list (list Z) :=
  if IsPayToScriptHash scriptPubKey then (SCRIPTHASH, [take 20 (drop 2 scriptPubKey)]) else
  match IsWitnessProgram scriptPubKey with
  | Some (witnessversion, witnessprogram) =>
      if (witnessversion =? 0) && (size witnessprogram =? WITNESS_V0_KEYHASH_SIZE)
      then (WITNESS_V0_KEYHASH, [witnessprogram])
      else if (witnessversion =? 0) && (size witnessprogram =? WITNESS_V0_SCRIPTHASH_SIZE)
      then (WITNESS_V0_SCRIPTHASH, [witnessprogram])
      else if (witnessversion =? 1) && (size witnessprogram =? WITNESS_V1_TAPROOT_SIZE)
      then (WITNESS_V1_TAPROOT, [witnessprogram])
      else if (witnessversion =? 2) && (size witnessprogram =? 32)
      then (WITNESS_V2_PQ, [witnessprogram])
      else if (witnessversion =? 3) && (size witnessprogram =? WITNESS_V3_SIZE)
      then (WITNESS_V3_PQ, [witnessprogram])
      else if IsPayToAnchor scriptPubKey then (ANCHOR, [])
      else if negb (witnessversion =? 0) then (WITNESS_UNKNOWN, [[u8 witnessversion]; witnessprogram])
      else (NONSTANDARD, [])
  | None =>
      if (size scriptPubKey >=? 1) && (byte scriptPubKey 0 =? OP_RETURN) && IsPushOnly (drop 1 scriptPubKey)
      then (NULL_DATA, [])
      else match MatchPayToPubkey scriptPubKey with
      | Some data => (PUBKEY, [data])
      | None =>
          match MatchPayToPubkeyHash scriptPubKey with
          | Some data => (PUBKEYHASH, [data])
          | None =>
              match MatchMultisig scriptPubKey with
              | Some (required, keys) => (MULTISIG, [u8 required] :: keys ++ [[u8 (size keys)]])
              | None => (NONSTANDARD, [])
              end
          end
      end
  end.

(** ** Witness signature operations ([interpreter.cpp]) *)

Definition PQ_SIGOPS_COST : Z := 2.
Definition SCRIPT_VERIFY_P2SH_bit : Z := 0.
Definition SCRIPT_VERIFY_WITNESS_bit : Z := 11.

Definition WitnessSigOps (witversion : Z) (witprogram : list Z) (witness : list (list Z)) : Z :=
  if (witversion =? 0) && (size witprogram =? WITNESS_V0_KEYHASH_SIZE) then 1
  else if (witversion =? 0) && (size witprogram =? WITNESS_V0_SCRIPTHASH_SIZE) && (size witness >? 0)
  then GetSigOpCount (witness !!! (length witness - 1)%nat) true
  else if (witversion =? 2) && (size witprogram =? 32) then PQ_SIGOPS_COST
  else if (witversion =? 3) && (size witprogram =? WITNESS_V3_SIZE) then PQ_SIGOPS_COST
  else 0.

(** The data of the last opcode; the script is push only. *)
Fixpoint last_data (fuel : nat) (pc data : list Z) : list Z :=
  match fuel with
  | O => data
  | S fuel => match GetScriptOp pc with None => data | Some (_, data, pc) => last_data fuel pc data end
  end.
(** [None] is the failed assertion that [SCRIPT_VERIFY_P2SH] is set. *)
Definition CountWitnessSigOps (scriptSig scriptPubKey : CScript) (witness : list (list Z)) (flags : Z) : option Z :=
  if negb (Z.testbit flags SCRIPT_VERIFY_WITNESS_bit) then Some 0
  else if negb (Z.testbit flags SCRIPT_VERIFY_P2SH_bit) then None else
  Some match IsWitnessProgram scriptPubKey with
  | Some (version, program) => WitnessSigOps version program witness
  | None =>
      if IsPayToScriptHash scriptPubKey && IsPushOnly scriptSig then
        match IsWitnessProgram (last_data (length scriptSig) scriptSig []) with
        | Some (version, program) => WitnessSigOps version program witness
        | None => 0
        end
      else 0
  end.

Definition sample_v3 : CScript := [OP_3; 32] ++ replicate 32 7.
Example script_test :
  Solver sample_v3 = (WITNESS_V3_PQ, [replicate 32 7]) /\
  Solver [OP_RETURN; 2; 9; 9] = (NULL_DATA, []) /\
  Solver ([OP_1; 33] ++ (2 :: replicate 32 1) ++ [33] ++ (3 :: replicate 32 1) ++ [OP_1 + 1; OP_CHECKMULTISIG]) =
    (MULTISIG, [[1]; 2 :: replicate 32 1; 3 :: replicate 32 1; [2]]) /\
  map serialize [0; 1; 127; 128; 255; 256; -1; -128; -255; 8388608] =
    [[]; [1]; [127]; [128; 0]; [255; 0]; [0; 1]; [129]; [128; 128]; [255; 128]; [0; 0; 128; 0]] /\
  GetSigOpCount [OP_1 + 1; OP_CHECKMULTISIG; OP_CHECKSIG] true = 3 /\
  GetSigOpCount [OP_1 + 1; OP_CHECKMULTISIG; OP_CHECKSIG] false = 21.
Proof. repeat split; vm_compute; reflexivity. Qed.

(** ** Opcodes *)

Lemma read_shorter n s b s' : read n s = Some (b, s') -> (length s' <= length s)%nat.
Proof. unfold read. case_match; [|discriminate]. intros [= <- <-]. rewrite length_drop. lia. Qed.

Lemma ReadLE_shorter n s v s' : ReadLE n s = Some (v, s') -> (length s' <= length s)%nat.
Proof.
  unfold ReadLE. destruct (read n s) as [[b r]|] eqn:E; [|discriminate]. intros [= <- <-].
  apply (read_shorter _ _ _ _ E).
Qed.

Lemma GetScriptOp_shorter pc opcode data pc' :
  GetScriptOp pc = Some (opcode, data, pc') -> (length pc' < length pc)%nat.
Proof.
  destruct pc as [|op pc]; [discriminate|]. cbn [GetScriptOp length].
  destruct (op <=? OP_PUSHDATA4); [|intros [= <- <- <-]; lia].
  match goal with |- (?x ≫= _ = _) -> _ => destruct x as [[n q]|] eqn:E; [|discriminate] end. cbn [mbind option_bind].
  destruct (read n q) as [[b r]|] eqn:Er; [|discriminate]. intros [= <- <- <-]. apply read_shorter in Er.
  assert (length q <= length pc)%nat; [|lia].
  revert E. repeat case_match; intros E; try (injection E as <- <-; lia); exact (ReadLE_shorter _ _ _ _ E).
Qed.

(** The length of a script is enough fuel for the loops over it. *)
Lemma IsPushOnly_fuel fuel fuel' pc :
  (length pc <= fuel)%nat -> (length pc <= fuel')%nat -> IsPushOnly_loop fuel pc = IsPushOnly_loop fuel' pc.
Proof.
  revert fuel' pc. induction fuel as [|fuel IH]; intros [|fuel'] [|c pc] H H'; cbn [length] in *; try lia; try reflexivity.
  cbn [IsPushOnly_loop]. destruct (GetScriptOp (c :: pc)) as [[[op d] r]|] eqn:E; [|reflexivity].
  apply GetScriptOp_shorter in E. cbn [length] in E. destruct (op >? OP_16); [reflexivity|]. apply IH; lia.
Qed.
Lemma last_push_fuel fuel fuel' pc d :
  (length pc <= fuel)%nat -> (length pc <= fuel')%nat -> last_push fuel pc d = last_push fuel' pc d.
Proof.
  revert fuel' pc d. induction fuel as [|fuel IH]; intros [|fuel'] [|c pc] d H H'; cbn [length] in *; try lia; try reflexivity.
  cbn [last_push]. destruct (GetScriptOp (c :: pc)) as [[[op d'] r]|] eqn:E; [|reflexivity].
  apply GetScriptOp_shorter in E. cbn [length] in E. destruct (op >? OP_16); [reflexivity|]. apply IH; lia.
Qed.

Lemma ReadLE_bytes n v s : 0 <= v < 256 ^ Z.of_nat n -> ReadLE (Z.of_nat n) (le_bytes n v ++ s) = Some (v, s).
Proof. apply readdata_app. Qed.

(** A pushed string is read back. *)
Lemma GetScriptOp_push data s :
  size data < 2 ^ 32 ->
  exists opcode, GetScriptOp (AppendDataSize (size data) ++ data ++ s) = Some (opcode, data, s) /\
                 0 <= opcode <= OP_PUSHDATA4.
Proof.
  unfold size. intros Hs. unfold AppendDataSize.
  assert (Hr : read (Z.of_nat (length data)) (data ++ s) = Some (data, s)) by (apply read_app; reflexivity).
  assert (H1 := fun x => ReadLE_bytes 1 (Z.of_nat (length data)) x). assert (H2 := fun x => ReadLE_bytes 2 (Z.of_nat (length data)) x).
  assert (H4 := fun x => ReadLE_bytes 4 (Z.of_nat (length data)) x). change (Z.of_nat 1) with 1 in H1.
  change (Z.of_nat 2) with 2 in H2. change (Z.of_nat 4) with 4 in H4. cbn [Z.pow Z.pow_pos Pos.iter Z.mul] in *.
  unfold OP_PUSHDATA1, OP_PUSHDATA2, OP_PUSHDATA4 in *.
  destruct (Z.ltb_spec (Z.of_nat (length data)) 76); [|destruct (Z.leb_spec (Z.of_nat (length data)) 255);
    [|destruct (Z.leb_spec (Z.of_nat (length data)) 65535)]].
  - exists (Z.of_nat (length data)). rewrite u8_id by (unfold is_u8; lia). cbn [app GetScriptOp].
    rewrite (proj2 (Z.leb_le _ _)) by (unfold OP_PUSHDATA4; lia). rewrite (proj2 (Z.ltb_lt _ _)) by (unfold OP_PUSHDATA1; lia).
    cbn [mbind option_bind]. rewrite Hr. split; [reflexivity|lia].
  - exists 76. cbn [app GetScriptOp]. change (76 <=? OP_PUSHDATA4) with true. change (76 <? OP_PUSHDATA1) with false.
    change (76 =? OP_PUSHDATA1) with true. cbv iota. rewrite u8_id by (unfold is_u8; lia).
    specialize (H1 (data ++ s)). cbn [le_bytes app] in H1. fold (u8 (Z.of_nat (length data))) in H1.
    rewrite u8_id in H1 by (unfold is_u8; lia). rewrite H1 by lia. cbn [mbind option_bind]. rewrite Hr. split; [reflexivity|lia].
  - exists 77. rewrite u16_id by (unfold is_u16; lia). cbn [app GetScriptOp]. change (77 <=? OP_PUSHDATA4) with true.
    change (77 <? OP_PUSHDATA1) with false. change (77 =? OP_PUSHDATA1) with false. change (77 =? OP_PUSHDATA2) with true.
    cbv iota. rewrite H2 by lia. cbn [mbind option_bind]. rewrite Hr. split; [reflexivity|lia].
  - exists 78. rewrite u32_id by (unfold is_u32; lia). cbn [app GetScriptOp]. change (78 <=? OP_PUSHDATA4) with true.
    change (78 <? OP_PUSHDATA1) with false. change (78 =? OP_PUSHDATA1) with false. change (78 =? OP_PUSHDATA2) with false.
    cbv iota. rewrite H4 by lia. cbn [mbind option_bind]. rewrite Hr. split; [reflexivity|lia].
Qed.

(** ** The output types that consensus distinguishes *)

Lemma Solver_shape s :
  match (Solver s).1 with
  | WITNESS_V2_PQ => size s = 34 /\ byte s 0 = 82 /\ byte s 1 = 32
  | WITNESS_V3_PQ => IsPayToXcoinV3 s = true
  | NULL_DATA => 0 < size s /\ byte s 0 = OP_RETURN
  | _ => IsPayToXcoinV3 s = false
  end.
Proof.
  unfold Solver, IsPayToXcoinV3. destruct (IsPayToScriptHash s) eqn:Ep.
  { cbn [fst]. unfold IsPayToScriptHash in Ep. destruct (Z.eqb_spec (size s) 34) as [E|]; [|reflexivity].
    rewrite E in Ep. discriminate. }
  destruct (IsWitnessProgram s) as [[v p]|] eqn:Ew.
  - revert Ew. unfold IsWitnessProgram.
    destruct ((size s <? 4) || (size s >? 42)) eqn:E1; [discriminate|].
    destruct (negb (byte s 0 =? OP_0) && ((byte s 0 <? OP_1) || (byte s 0 >? OP_16))) eqn:E2; [discriminate|].
    destruct (byte s 1 + 2 =? size s) eqn:E3; [|discriminate]. intros [= Ev Ep'].
    assert (Hp : size p = size s - 2) by (subst p; unfold size in *; rewrite length_drop; lia).
    unfold DecodeOP_N, OP_0, OP_1, OP_16, OP_3, WITNESS_V3_SIZE, WITNESS_V0_KEYHASH_SIZE, WITNESS_V0_SCRIPTHASH_SIZE,
      WITNESS_V1_TAPROOT_SIZE in *.
    destruct (byte s 0 =? 0) eqn:E0;
      repeat (match goal with |- context [if ?b then _ else _] => destruct b eqn:? end; cbn [fst]); lia.
  - assert (Hv3 : (size s =? 34) && (byte s 0 =? OP_3) && (byte s 1 =? 32) = false).
    { revert Ew. unfold IsWitnessProgram, OP_0, OP_1, OP_16, OP_3.
      destruct ((size s =? 34) && (byte s 0 =? 83) && (byte s 1 =? 32)) eqn:E; [|reflexivity].
      replace ((size s <? 4) || (size s >? 42)) with false by lia.
      replace (negb (byte s 0 =? 0) && ((byte s 0 <? 81) || (byte s 0 >? 96))) with false by lia.
      replace (byte s 1 + 2 =? size s) with true by lia. discriminate. }
    destruct ((size s >=? 1) && (byte s 0 =? OP_RETURN) && IsPushOnly (drop 1 s)) eqn:E; [cbn [fst]; split; lia|].
    destruct (MatchPayToPubkey s); [exact Hv3|]. destruct (MatchPayToPubkeyHash s); [exact Hv3|].
    destruct (MatchMultisig s) as [[? ?]|]; exact Hv3.
Qed.

(** The only spendable outputs the solver calls post-quantum are the two
    witness programs, and a data output is unspendable. *)
Lemma Solver_v3 s : (Solver s).1 = WITNESS_V3_PQ <-> IsPayToXcoinV3 s = true.
Proof.
  pose proof (Solver_shape s) as H. destruct (Solver s).1; split; intros E; try congruence; auto.
  - exfalso. destruct H as [_ Hb]. unfold IsPayToXcoinV3, OP_3, OP_RETURN in *. lia.
  - exfalso. destruct H as (_ & Hb & _). unfold IsPayToXcoinV3, OP_3 in *. lia.
Qed.
Lemma Solver_null_data s : (Solver s).1 = NULL_DATA -> IsUnspendable s = true.
Proof. intros E. pose proof (Solver_shape s) as H. rewrite E in H. unfold IsUnspendable. lia. Qed.
Lemma Solver_pq_spendable s : (Solver s).1 = WITNESS_V2_PQ \/ (Solver s).1 = WITNESS_V3_PQ -> IsUnspendable s = false.
Proof.
  intros E. pose proof (Solver_shape s) as H. unfold IsUnspendable, IsPayToXcoinV3, OP_3, OP_RETURN, MAX_SCRIPT_SIZE in *.
  destruct E as [E|E]; rewrite E in H; lia.
Qed.
