(* ===== verification/Transaction.v ===== *)
(** * Transactions ([src/src/primitives/transaction.{h,cpp}])

    The transaction types as records, their wire format with and without
    witness data, and [GetValueOut].  A hash is the number of its 32 bytes.
    The cached hashes of [CTransaction] are the hash function applied to the
    serialization, so they are recomputed here; the hash function itself is a
    parameter of the files that need it. *)

From stdpp Require Import countable.
From S2P Require Import Prelude ConsensusParams Serialize Script.

Local Open Scope Z_scope.

Record COutPoint := mkOutPoint { op_hash : Z; op_n : Z }.
Definition NULL_INDEX : Z := 4294967295.
Definition COutPoint_IsNull (o : COutPoint) : bool := (op_hash o =? 0) && (op_n o =? NULL_INDEX).
#[export] Instance COutPoint_eq_dec : EqDecision COutPoint.
Proof. solve_decision. Defined.
#[export] Instance COutPoint_countable : Countable COutPoint.
Proof. apply (inj_countable' (fun o => (op_hash o, op_n o)) (fun p => mkOutPoint p.1 p.2)). intros []; reflexivity. Defined.

Record CTxIn := mkTxIn {
  prevout : COutPoint;
  scriptSig : CScript;
  nSequence : Z;
  scriptWitness : list (list Z)
}.
Definition SEQUENCE_FINAL : Z := 4294967295.
Definition SEQUENCE_LOCKTIME_DISABLE_FLAG : Z := 2147483648.
Definition SEQUENCE_LOCKTIME_TYPE_FLAG : Z := 4194304.
Definition SEQUENCE_LOCKTIME_MASK : Z := 65535.
Definition SEQUENCE_LOCKTIME_GRANULARITY : Z := 9.

Record CTxOut := mkTxOut { nValue : Z; scriptPubKey : CScript }.
Definition CTxOut_null : CTxOut := mkTxOut (-1) [].
Definition CTxOut_IsNull (o : CTxOut) : bool := nValue o =? -1.
#[export] Instance CTxOut_eq_dec : EqDecision CTxOut.
Proof. solve_decision. Defined.

Record CTransaction := mkTransaction {
  vin : list CTxIn;
  vout : list CTxOut;
  tx_version : Z;
  nLockTime : Z
}.
Definition IsCoinBase (tx : CTransaction) : bool :=
  match vin tx with
  | [i] => COutPoint_IsNull (prevout i)
  | _ => false
  end.
Definition HasWitness (tx : CTransaction) : bool :=
  existsb (fun i => negb (match scriptWitness i with [] => true | _ => false end)) (vin tx).

(** [None] is the exception of an output, or of a sum, out of range. *)
Fixpoint GetValueOut_loop (outs : list CTxOut) (nValueOut : Z) : option Z :=
  match outs with
  | [] => Some nValueOut
  | o :: outs =>
      if negb (MoneyRange (nValue o)) || negb (MoneyRange (i64 (nValueOut + nValue o))) then None
      else GetValueOut_loop outs (i64 (nValueOut + nValue o))
  end.
Definition GetValueOut (tx : CTransaction) : option Z :=
  nValueOut ← GetValueOut_loop (vout tx) 0;
  if MoneyRange nValueOut then Some nValueOut else None.

(** ** Wire format *)

Definition COutPointFormatter : Formatter COutPoint :=
  isoFormatter (fun o => (op_hash o, op_n o)) (fun p => mkOutPoint p.1 p.2)
               (pairFormatter uint256Formatter uint32Formatter).
(** Reading an input leaves its witness empty. *)
Definition CTxInFormatter : Formatter CTxIn :=
  mkFormatter
    (fun i => Ser COutPointFormatter (prevout i) ++ Ser bytesFormatter (scriptSig i) ++ Ser uint32Formatter (nSequence i))
    (fun s => '(o, s) ← Unser COutPointFormatter s;
              '(sig, s) ← Unser bytesFormatter s;
              '(seq, s) ← Unser uint32Formatter s;
              Some (mkTxIn o sig seq [], s)).
Definition CTxOutFormatter : Formatter CTxOut :=
  isoFormatter (fun o => (nValue o, scriptPubKey o)) (fun p => mkTxOut p.1 p.2)
               (pairFormatter int64Formatter bytesFormatter).
Definition vinFormatter := VectorFormatter CTxInFormatter.
Definition voutFormatter := VectorFormatter CTxOutFormatter.
Definition stackFormatter := VectorFormatter bytesFormatter.

Definition SerializeTransaction (fAllowWitness : bool) (tx : CTransaction) : list Z :=
  let flags := if fAllowWitness && HasWitness tx then 1 else 0 in
  Ser uint32Formatter (tx_version tx) ++
  (if negb (flags =? 0) then Ser vinFormatter [] ++ Ser uint8Formatter flags else []) ++
  Ser vinFormatter (vin tx) ++
  Ser voutFormatter (vout tx) ++
  (if negb (Z.land flags 1 =? 0) then concat (map (fun i => Ser stackFormatter (scriptWitness i)) (vin tx)) else []) ++
  Ser uint32Formatter (nLockTime tx).

Fixpoint read_witnesses (ins : list CTxIn) (s : list Z) : option (list CTxIn * list Z) :=
  match ins with
  | [] => Some ([], s)
  | i :: ins =>
      '(stack, s) ← Unser stackFormatter s;
      '(ins, s) ← read_witnesses ins s;
      Some (mkTxIn (prevout i) (scriptSig i) (nSequence i) stack :: ins, s)
  end.

Definition UnserializeTransaction (fAllowWitness : bool) (s : list Z) : option (CTransaction * list Z) :=
  '(version, s) ← Unser uint32Formatter s;
  '(vin0, s) ← Unser vinFormatter s;
  '(flags, vin0, vout0, s) ←
    (if (size vin0 =? 0) && fAllowWitness then
       '(flags, s) ← Unser uint8Formatter s;
       if negb (flags =? 0) then
         '(vin0, s) ← Unser vinFormatter s;
         '(vout0, s) ← Unser voutFormatter s;
         Some (flags, vin0, vout0, s)
       else Some (flags, vin0, [], s)
     else '(vout0, s) ← Unser voutFormatter s; Some (0, vin0, vout0, s));
  '(flags, vin0, s) ←
    (if negb (Z.land flags 1 =? 0) && fAllowWitness then
       '(vin0, s) ← read_witnesses vin0 s;
       if negb (HasWitness (mkTransaction vin0 vout0 version 0)) then None
       else Some (Z.lxor flags 1, vin0, s)
     else Some (flags, vin0, s));
  if negb (flags =? 0) then None else
  '(locktime, s) ← Unser uint32Formatter s;
  Some (mkTransaction vin0 vout0 version locktime, s).

(** [TX_WITH_WITNESS], [TX_NO_WITNESS] and the sizes [GetSerializeSize] gives. *)
Definition TX_WITH_WITNESS : bool := true.
Definition TX_NO_WITNESS : bool := false.
Definition GetSerializeSize (fAllowWitness : bool) (tx : CTransaction) : Z := size (SerializeTransaction fAllowWitness tx).
Definition WITNESS_SCALE_FACTOR : Z := 4.
Definition GetTransactionWeight (tx : CTransaction) : Z :=
  i32 (GetSerializeSize TX_NO_WITNESS tx * (WITNESS_SCALE_FACTOR - 1) + GetSerializeSize TX_WITH_WITNESS tx).

(** ** Round trips *)

Definition strip (i : CTxIn) : CTxIn := mkTxIn (prevout i) (scriptSig i) (nSequence i) [].
Definition strip_tx (tx : CTransaction) : CTransaction :=
  mkTransaction (map strip (vin tx)) (vout tx) (tx_version tx) (nLockTime tx).

Definition is_outpoint (o : COutPoint) : Prop := is_hash (op_hash o) /\ is_u32 (op_n o).
Definition is_txin (i : CTxIn) : Prop := is_outpoint (prevout i) /\ is_bytes (scriptSig i) /\ is_u32 (nSequence i).
Definition is_stack : list (list Z) -> Prop := is_vector is_bytes.
Definition is_txout (o : CTxOut) : Prop := is_i64 (nValue o) /\ is_bytes (scriptPubKey o).
Record is_tx (tx : CTransaction) : Prop := {
  tx_vin : is_vector is_txin (vin tx);
  tx_stacks : Forall (fun i => is_stack (scriptWitness i)) (vin tx);
  tx_vout : is_vector is_txout (vout tx);
  tx_u32 : is_u32 (tx_version tx) /\ is_u32 (nLockTime tx)
}.

#[export] Instance outpoint_cancel : Cancel (=) (fun p => mkOutPoint p.1 p.2) (fun o => (op_hash o, op_n o)).
Proof. intros []; reflexivity. Qed.
#[export] Instance outpoint_cancel' : Cancel (=) (fun o => (op_hash o, op_n o)) (fun p => mkOutPoint p.1 p.2).
Proof. intros []; reflexivity. Qed.
#[export] Instance outpoint_ok : FormatterOk COutPointFormatter is_outpoint := iso_ok _ _ _ _.
#[export] Instance outpoint_canonical : FormatterCanonical COutPointFormatter is_outpoint := iso_canonical _ _ _ _.

#[export] Instance txout_cancel : Cancel (=) (fun p => mkTxOut p.1 p.2) (fun o => (nValue o, scriptPubKey o)).
Proof. intros []; reflexivity. Qed.
#[export] Instance txout_cancel' : Cancel (=) (fun o => (nValue o, scriptPubKey o)) (fun p => mkTxOut p.1 p.2).
Proof. intros []; reflexivity. Qed.
#[export] Instance txout_ok : FormatterOk CTxOutFormatter is_txout := iso_ok _ _ _ _.
#[export] Instance txout_canonical : FormatterCanonical CTxOutFormatter is_txout := iso_canonical _ _ _ _.
#[export] Instance vout_ok : FormatterOk voutFormatter (is_vector is_txout) := vector_ok _ _.
#[export] Instance vout_canonical : FormatterCanonical voutFormatter (is_vector is_txout) := vector_canonical _ _.
#[export] Instance stack_ok : FormatterOk stackFormatter is_stack := vector_ok _ _.
#[export] Instance stack_canonical : FormatterCanonical stackFormatter is_stack := vector_canonical _ _.

Definition is_bare_txin (i : CTxIn) : Prop := is_txin i /\ scriptWitness i = [].
#[export] Instance txin_ok : FormatterOk CTxInFormatter is_bare_txin.
Proof.
  split; cbn [Ser Unser CTxInFormatter]; intros [o sig seq wit]; cbn [prevout scriptSig nSequence scriptWitness].
  - intros s [(Ho & Hsig & Hseq) Hw]. cbn in Hw. subst wit. rewrite <- !app_assoc. rewrite Unser_Ser by exact Ho. cbn [mbind option_bind].
    rewrite Unser_Ser by exact Hsig. cbn [mbind option_bind]. rewrite Unser_Ser by exact Hseq. reflexivity.
  - intros [(Ho & Hsig & Hseq) _]. rewrite !bytes_ok_app. repeat split; apply Ser_bytes; assumption.
Qed.
(** One field of a record read by hand. *)
Ltac read_field E H :=
  match type of E with
  | (?x ≫= _) = Some _ =>
      let v := fresh "v" in let r := fresh "r" in let Er := fresh "Er" in let Hv := fresh "Hv" in
      destruct x as [[v r]|] eqn:Er; [|discriminate E]; cbn [mbind option_bind] in E;
      apply Ser_Unser in Er as [Hv ->]; [|exact H]; apply bytes_ok_app in H as [_ H]
  end.
#[export] Instance txin_canonical : FormatterCanonical CTxInFormatter is_bare_txin.
Proof.
  split. cbn [Ser Unser CTxInFormatter]. intros a s s' Hs E. do 3 read_field E Hs. injection E as <- <-.
  cbn [prevout scriptSig nSequence]. rewrite <- !app_assoc. split; [|reflexivity]. split; [|reflexivity].
  split; [|split]; assumption.
Qed.
#[export] Instance vin_ok : FormatterOk vinFormatter (is_vector is_bare_txin) := vector_ok _ _.
#[export] Instance vin_canonical : FormatterCanonical vinFormatter (is_vector is_bare_txin) := vector_canonical _ _.

Lemma Ser_vin_strip ins : Ser vinFormatter ins = Ser vinFormatter (map strip ins).
Proof. cbn [Ser vinFormatter VectorFormatter]. rewrite length_map, map_map. reflexivity. Qed.

Lemma strip_bare ins : is_vector is_txin ins -> is_vector is_bare_txin (map strip ins).
Proof.
  intros [H Hl]. split; [|rewrite length_map; exact Hl]. apply Forall_map. eapply Forall_impl; [exact H|].
  intros i Hi. split; [exact Hi|reflexivity].
Qed.

Lemma nil_vector {A} (P : A -> Prop) : is_vector P [].
Proof. split; [constructor|]. unfold MAX_SIZE. cbn. lia. Qed.

Lemma strip_no_witness ins :
  existsb (fun i => negb (match scriptWitness i with [] => true | _ => false end)) ins = false -> map strip ins = ins.
Proof.
  induction ins as [|[o sig seq wit] ins IH]; cbn; [reflexivity|]. destruct wit; cbn; [|discriminate].
  intros H. rewrite IH by exact H. reflexivity.
Qed.

Lemma read_witnesses_app ins s :
  Forall (fun i => is_stack (scriptWitness i)) ins ->
  read_witnesses (map strip ins) (concat (map (fun i => Ser stackFormatter (scriptWitness i)) ins) ++ s) = Some (ins, s).
Proof.
  induction 1 as [|i ins Hi Hins IH]; [reflexivity|]. cbn [map concat read_witnesses].
  rewrite <- app_assoc, Unser_Ser by exact Hi. cbn [mbind option_bind]. rewrite IH. cbn. destruct i; reflexivity.
Qed.

Lemma read_witnesses_Some ins ins' s s' :
  Forall (fun i => scriptWitness i = []) ins -> bytes_ok s -> read_witnesses ins s = Some (ins', s') ->
  map strip ins' = ins /\ Forall (fun i => is_stack (scriptWitness i)) ins' /\
  s = concat (map (fun i => Ser stackFormatter (scriptWitness i)) ins') ++ s' /\ bytes_ok s'.
Proof.
  revert ins' s. induction ins as [|i ins IH]; intros ins' s Hw Hs; cbn [read_witnesses].
  - intros [= <- <-]. repeat split; [constructor|exact Hs].
  - apply Forall_cons in Hw as [Hi Hw]. intros E. read_field E Hs.
    destruct (read_witnesses ins r) as [[l q]|] eqn:Er; [|discriminate]. cbn in E. injection E as <- <-.
    apply IH in Er as (<- & Hl & -> & Hq); [|exact Hw|exact Hs]. cbn [map concat scriptWitness]. rewrite <- app_assoc.
    destruct i as [o sig seq wit]. cbn in Hi. subst wit. split; [reflexivity|]. split; [constructor; assumption|]. split; [reflexivity|exact Hq].
Qed.

Lemma size_nil {A} (l : list A) : (size l =? 0) = match l with [] => true | _ => false end.
Proof. destruct l; reflexivity. Qed.

(** Reading a body without witness, and one with it. *)
Lemma unserialize_plain allow tx s :
  is_tx tx -> allow && HasWitness tx = false -> (allow = true -> vin tx <> [] \/ vout tx = []) ->
  UnserializeTransaction allow (SerializeTransaction allow tx ++ s) = Some (strip_tx tx, s).
Proof.
  intros [Hin _ Hout [Hv Hl]] Hw Hne. unfold SerializeTransaction. rewrite Hw. cbn [Z.eqb negb]. change (Z.land 0 1 =? 0) with true. cbn [negb].
  rewrite !app_nil_l, <- !app_assoc. unfold UnserializeTransaction.
  rewrite Unser_Ser by exact Hv. cbn [mbind option_bind]. rewrite Ser_vin_strip, Unser_Ser by (apply strip_bare, Hin).
  cbn [mbind option_bind]. rewrite size_nil.
  destruct (vin tx) as [|i ins] eqn:Ei; [destruct allow|]; cbn [map andb].
  - destruct (Hne eq_refl) as [?|E]; [done|]. rewrite E. change (Ser voutFormatter []) with (Ser uint8Formatter 0).
    rewrite (Unser_Ser (F := uint8Formatter)) by (unfold is_u8; lia). cbn [mbind option_bind Z.eqb negb]. change (Z.land 0 1 =? 0) with true. cbn [negb andb mbind option_bind Z.eqb].
    rewrite Unser_Ser by exact Hl. cbn. unfold strip_tx. rewrite Ei, E. reflexivity.
  - rewrite Unser_Ser by exact Hout. cbn [mbind option_bind Z.eqb negb]. change (Z.land 0 1 =? 0) with true. cbn [negb andb mbind option_bind Z.eqb]. rewrite Unser_Ser by exact Hl.
    cbn. unfold strip_tx. rewrite Ei. reflexivity.
  - rewrite Unser_Ser by exact Hout. cbn [mbind option_bind Z.eqb negb]. change (Z.land 0 1 =? 0) with true. cbn [negb andb mbind option_bind Z.eqb]. rewrite Unser_Ser by exact Hl.
    cbn. unfold strip_tx. rewrite Ei. reflexivity.
Qed.

Lemma unserialize_witness tx s :
  is_tx tx -> HasWitness tx = true -> UnserializeTransaction true (SerializeTransaction true tx ++ s) = Some (tx, s).
Proof.
  intros [Hin Hst Hout [Hv Hl]] Hw. unfold SerializeTransaction. rewrite Hw. cbn [andb Z.eqb negb].
  change (Z.land 1 1 =? 0) with false. cbn [negb]. rewrite <- !app_assoc. unfold UnserializeTransaction.
  rewrite Unser_Ser by exact Hv. cbn [mbind option_bind]. rewrite Unser_Ser by apply nil_vector. cbn [mbind option_bind].
  change (size (A := CTxIn) [] =? 0) with true. cbn [andb].
  rewrite (Unser_Ser (F := uint8Formatter)) by (unfold is_u8; lia). cbn [mbind option_bind Z.eqb negb].
  rewrite Ser_vin_strip, Unser_Ser by (apply strip_bare, Hin). cbn [mbind option_bind].
  rewrite Unser_Ser by exact Hout. cbn [mbind option_bind]. change (Z.land 1 1 =? 0) with false. cbn [negb andb].
  rewrite read_witnesses_app by exact Hst. cbn [mbind option_bind].
  change (HasWitness _) with (HasWitness tx). rewrite Hw. cbn [negb mbind option_bind]. change (Z.lxor 1 1 =? 0) with true.
  cbn [negb]. rewrite Unser_Ser by exact Hl. destruct tx; reflexivity.
Qed.

Lemma bare_is_txin ins : is_vector is_bare_txin ins -> is_vector is_txin ins /\ Forall (fun i => scriptWitness i = []) ins.
Proof. intros [H Hl]. repeat split; [|exact Hl|]; (eapply Forall_impl; [exact H|]); intros i [? ?]; assumption. Qed.

Lemma no_witness ins : Forall (fun i => scriptWitness i = []) ins ->
  existsb (fun i => negb (match scriptWitness i with [] => true | _ => false end)) ins = false /\
  Forall (fun i => is_stack (scriptWitness i)) ins.
Proof.
  induction 1 as [|i ins Hi Hins [IH1 IH2]]; [split; [reflexivity|constructor]|]. cbn. rewrite Hi. cbn.
  split; [exact IH1|]. constructor; [rewrite Hi; apply nil_vector|exact IH2].
Qed.

(** The bytes of a transaction that was read. *)
Lemma unserialize_canonical allow tx s s' :
  bytes_ok s -> UnserializeTransaction allow s = Some (tx, s') ->
  is_tx tx /\ s = SerializeTransaction allow tx ++ s' /\ (allow = false -> HasWitness tx = false).
Proof.
  intros Hs E. unfold UnserializeTransaction in E. read_field E Hs. read_field E Hs.
  apply bare_is_txin in Hv0 as [Hin0 Hbare0]. destruct (no_witness _ Hbare0) as [Hnw0 Hst0].
  assert (Hplain : forall outs lt r', is_vector is_txout outs -> is_u32 lt -> (allow = true -> v0 <> [] \/ outs = []) ->
    let tx := mkTransaction v0 outs v lt in
    is_tx tx /\ Ser uint32Formatter v ++ Ser vinFormatter v0 ++ Ser voutFormatter outs ++ Ser uint32Formatter lt ++ r' =
    SerializeTransaction allow tx ++ r' /\ (allow = false -> HasWitness tx = false)).
  { intros outs lt r' Ho Hlt _. cbn zeta. split; [split; cbn; auto|]. split; [|intros _; exact Hnw0].
    unfold SerializeTransaction, HasWitness. cbn [vin vout tx_version nLockTime]. rewrite Hnw0, andb_false_r.
    cbn [Z.eqb negb]. change (Z.land 0 1 =? 0) with true. cbn [negb]. rewrite !app_nil_l, <- !app_assoc. reflexivity. }
  destruct ((size v0 =? 0) && allow) eqn:E0.
  - apply andb_true_iff in E0 as [E0 ->]. rewrite size_nil in E0. destruct v0; [|discriminate].
    destruct (Unser uint8Formatter r0) as [[flags q]|] eqn:Ef; [|discriminate]. cbn [mbind option_bind] in E.
    apply Ser_Unser in Ef as [Hf ->]; [|exact Hs]. apply bytes_ok_app in Hs as [_ Hs].
    destruct (Z.eqb_spec flags 0) as [->|Hf0]; cbn [negb] in E.
    + cbn [mbind option_bind Z.eqb negb] in E. change (Z.land 0 1 =? 0) with true in E. cbn [negb andb mbind option_bind Z.eqb] in E. read_field E Hs. injection E as <- <-.
      specialize (Hplain [] v0 r (nil_vector _) Hv0 ltac:(auto)). cbn zeta in Hplain.
      destruct Hplain as (Ht & Heq & _). split; [exact Ht|]. split; [exact Heq|discriminate].
    + destruct (Unser vinFormatter q) as [[ins q1]|] eqn:Ei; [|discriminate]. cbn [mbind option_bind] in E.
      apply Ser_Unser in Ei as [Hins ->]; [|exact Hs]. apply bytes_ok_app in Hs as [_ Hs].
      apply bare_is_txin in Hins as [Hins Hbare].
      destruct (Unser voutFormatter q1) as [[outs q2]|] eqn:Eo; [|discriminate]. cbn [mbind option_bind] in E.
      apply Ser_Unser in Eo as [Hout ->]; [|exact Hs]. apply bytes_ok_app in Hs as [_ Hs]. rewrite andb_true_r in E.
      destruct (Z.eqb_spec (Z.land flags 1) 0) as [|Hl1]; cbn [negb mbind option_bind] in E.
      { rewrite (proj2 (Z.eqb_neq flags 0)) in E by exact Hf0. discriminate. }
      destruct (read_witnesses ins q2) as [[ins' q3]|] eqn:Ew; [|discriminate]. cbn [mbind option_bind] in E.
      apply read_witnesses_Some in Ew as (<- & Hst & -> & Hs3); [|exact Hbare|exact Hs].
      destruct (HasWitness _) eqn:Hw in E; [|discriminate]. cbn [negb mbind option_bind] in E.
      destruct (Z.eqb_spec (Z.lxor flags 1) 0) as [Hx|]; [|discriminate]. cbn [negb] in E. apply Z.lxor_eq in Hx as ->.
      destruct (Unser uint32Formatter q3) as [[lt q4]|] eqn:El; [|discriminate]. cbn in E. injection E as <- <-.
      apply Ser_Unser in El as [Hlt ->]; [|exact Hs3].
      assert (Hins' : is_vector is_txin ins').
      { destruct Hins as [Hi Hn]. rewrite length_map in Hn. split; [|exact Hn]. exact (proj1 (Forall_map strip is_txin ins') Hi). }
      split; [split; cbn; auto|]. split; [|discriminate].
      unfold SerializeTransaction. change (HasWitness (mkTransaction ins' outs v lt)) with (HasWitness (mkTransaction ins' outs v 0)).
      rewrite Hw. cbn [andb Z.eqb negb vin vout tx_version nLockTime]. change (Z.land 1 1 =? 0) with false. cbn [negb].
      rewrite (Ser_vin_strip ins'), <- !app_assoc. reflexivity.
  - destruct (Unser voutFormatter r0) as [[outs q]|] eqn:Eo; [|discriminate]. cbn [mbind option_bind Z.eqb negb] in E. change (Z.land 0 1 =? 0) with true in E. cbn [negb andb mbind option_bind Z.eqb] in E.
    apply Ser_Unser in Eo as [Hout ->]; [|exact Hs]. apply bytes_ok_app in Hs as [_ Hs]. read_field E Hs. injection E as <- <-.
    apply Hplain; [exact Hout|exact Hv0|]. intros ->. rewrite andb_true_r, size_nil in E0. left. destruct v0; done.
Qed.

(** ** Claims *)

(** Every transaction that has an input (or neither input nor output) is read
    back from its serialization with witness, and without its witness from
    the one without; the bytes that follow are left in the stream. *)
Theorem transaction_roundtrip tx rest :
  is_tx tx -> vin tx <> [] \/ vout tx = [] ->
  UnserializeTransaction TX_WITH_WITNESS (SerializeTransaction TX_WITH_WITNESS tx ++ rest) = Some (tx, rest) /\
  UnserializeTransaction TX_NO_WITNESS (SerializeTransaction TX_NO_WITNESS tx ++ rest) = Some (strip_tx tx, rest).
Proof.
  intros Htx Hne. split; [|apply unserialize_plain; [exact Htx|reflexivity|discriminate]].
  destruct (HasWitness tx) eqn:Hw; [apply unserialize_witness; assumption|].
  unfold TX_WITH_WITNESS. rewrite unserialize_plain by auto. unfold strip_tx.
  rewrite (strip_no_witness (vin tx) Hw). destruct tx; reflexivity.
Qed.

Definition sample_tx : CTransaction :=
  mkTransaction [mkTxIn (mkOutPoint 77 1) [] SEQUENCE_FINAL [[1; 2; 3]; []]] [mkTxOut 12345 sample_v3] 2 500.
Lemma sample_tx_ok : is_tx sample_tx.
Proof.
  assert (Hb : forall v : list Z, bytesb v = true -> (size v <=? MAX_SIZE) = true -> is_bytes v).
  { intros v H Hl. split; [apply bytesb_sound, H|unfold size in Hl; lia]. }
  unfold sample_tx, SEQUENCE_FINAL. split; cbn [vin vout tx_version nLockTime].
  - split; [|cbn; unfold MAX_SIZE; lia]. apply Forall_singleton. unfold is_txin, is_outpoint, is_hash, is_u32. cbn [prevout scriptSig nSequence op_hash op_n].
    split; [lia|]. split; [apply Hb; vm_compute; reflexivity|lia].
  - apply Forall_singleton. cbn [scriptWitness]. split; [|cbn; unfold MAX_SIZE; lia].
    repeat (apply Forall_cons; split; [apply Hb; vm_compute; reflexivity|]). constructor.
  - split; [|cbn; unfold MAX_SIZE; lia]. apply Forall_singleton. split; cbn [nValue scriptPubKey]; [unfold is_i64; lia|].
    apply Hb; vm_compute; reflexivity.
  - unfold is_u32. lia.
Qed.
Lemma transaction_roundtrip_witness :
  UnserializeTransaction true (SerializeTransaction true sample_tx ++ [9]) = Some (sample_tx, [9]) /\
  UnserializeTransaction false (SerializeTransaction false sample_tx ++ [9]) = Some (strip_tx sample_tx, [9]).
Proof. apply (transaction_roundtrip sample_tx [9]); [exact sample_tx_ok|left; discriminate]. Defined.

(** A transaction has one encoding: bytes that are read as a transaction are
    its serialization, followed by what is left in the stream. *)
Theorem transaction_encoding_unique allow tx s rest :
  bytes_ok s -> UnserializeTransaction allow s = Some (tx, rest) ->
  is_tx tx /\ s = SerializeTransaction allow tx ++ rest.
Proof. intros Hs E. destruct (unserialize_canonical allow tx s rest Hs E) as (Ht & -> & _). split; [exact Ht|reflexivity]. Qed.
Lemma transaction_encoding_unique_witness :
  is_tx sample_tx /\ SerializeTransaction true sample_tx ++ [9] = SerializeTransaction true sample_tx ++ [9].
Proof.
  apply (transaction_encoding_unique true sample_tx); [|vm_compute; reflexivity].
  apply bytesb_sound. reflexivity.
Defined.
