(* ===== verification/Coins.v ===== *)
(** * The coins view and its cache ([src/src/coins.{h,cpp}], [src/src/txdb.cpp])

    A view answers for the set of unspent outputs.  [CCoinsView] is the
    interface (the virtual functions), with the state of the view passed along
    because reading through a cache fills it; [CCoinsViewLaws] is what a view
    promises about the finite map it stands for.  [CCoinsViewDB] implements it
    over a key-value store, and [CCoinsViewCache] implements it over any view,
    so caches stack.

    A failed [assert] and an exception are [None].  The doubly linked list of
    flagged entries is the list of their keys in order; [m_flags] is kept as
    its two bits.  [cachedCoinsUsage], a memory statistic that only [Assume]
    and the destructor look at, is left out. *)

From stdpp Require Import gmap fin_maps.
From S2P Require Import Prelude ConsensusParams Serialize Script Transaction.

Local Open Scope Z_scope.

Record Coin := mkCoin { out : CTxOut; fCoinBase : bool; coin_nHeight : Z }.
#[export] Instance Coin_eq_dec : EqDecision Coin.
Proof. solve_decision. Defined.
(** The height is a 31-bit field. *)
Definition make_coin (o : CTxOut) (nHeightIn : Z) (fCoinBaseIn : bool) : Coin :=
  mkCoin o fCoinBaseIn (Z.land nHeightIn 2147483647).
(** [Coin()], what [Clear] leaves, [coinEmpty]. *)
Definition coinEmpty : Coin := mkCoin CTxOut_null false 0.
Definition IsSpent (c : Coin) : bool := CTxOut_IsNull (out c).

Record CCoinsCacheEntry := mkEntry { coin : Coin; IsDirty : bool; IsFresh : bool }.
Definition new_entry (c : Coin) : CCoinsCacheEntry := mkEntry c false false.

(** ** The interface *)

Class CCoinsView (B : Type) := {
  GetCoin : B -> COutPoint -> option (B * option Coin);
  PeekCoin : B -> COutPoint -> option (option Coin);
  HaveCoin : B -> COutPoint -> option (B * bool);
  GetBestBlock : B -> B * Z;
  (** The flagged entries of the child in list order, and its best block. *)
  BatchWrite : B -> list (COutPoint * CCoinsCacheEntry) -> Z -> option B
}.

(** ** The database

    The store holds coins, the best block and the pair of blocks between
    which a flush is under way.  Writing a batch is atomic; where the code
    writes a partial batch depends on the size of the batch, so the points at
    which it does are a parameter of [BatchWrite_states], which lists the
    stores a crash can leave. *)

Record CCoinsViewDB := mkDB {
  db_coins : gmap COutPoint Coin;
  db_best : option Z;
  db_heads : option (Z * Z)
}.
Definition DB_GetCoin (d : CCoinsViewDB) (o : COutPoint) : option (option Coin) :=
  match db_coins d !! o with
  | Some c => if IsSpent c then None else Some (Some c)
  | None => Some None
  end.
Definition DB_GetBestBlock (d : CCoinsViewDB) : Z := default 0 (db_best d).
Definition DB_write (coins : gmap COutPoint Coin) (it : COutPoint * CCoinsCacheEntry) : gmap COutPoint Coin :=
  if IsDirty it.2 then if IsSpent (coin it.2) then delete it.1 coins else <[it.1 := coin it.2]> coins
  else coins.
(** [old_tip] and the consistency assertion. *)
Definition DB_old_tip (d : CCoinsViewDB) (hashBlock : Z) : option Z :=
  let old_tip := DB_GetBestBlock d in
  if old_tip =? 0 then
    match db_heads d with
    | Some (h0, h1) => if h0 =? hashBlock then Some h1 else None
    | None => Some old_tip
    end
  else Some old_tip.
Definition DB_BatchWrite (d : CCoinsViewDB) (entries : list (COutPoint * CCoinsCacheEntry)) (hashBlock : Z)
    : option CCoinsViewDB :=
  if hashBlock =? 0 then None else
  old_tip ← DB_old_tip d hashBlock;
  Some (mkDB (foldl DB_write (db_coins d) entries) (Some hashBlock) None).
(** The stores that can be found on disk while a batch is written: the one
    before it, the partial ones, and the one after it. *)
Fixpoint partial_states (split : nat -> bool) (n : nat) (coins : gmap COutPoint Coin)
    (entries : list (COutPoint * CCoinsCacheEntry)) : list (gmap COutPoint Coin) :=
  match entries with
  | [] => []
  | it :: entries =>
      let coins := DB_write coins it in
      (if split n then [coins] else []) ++ partial_states split (S n) coins entries
  end.
Definition DB_crash_states (split : nat -> bool) (d : CCoinsViewDB) (entries : list (COutPoint * CCoinsCacheEntry))
    (hashBlock : Z) : list CCoinsViewDB :=
  match DB_BatchWrite d entries hashBlock, DB_old_tip d hashBlock with
  | Some d', Some old_tip =>
      d :: map (fun coins => mkDB coins None (Some (hashBlock, old_tip))) (partial_states split 0 (db_coins d) entries) ++ [d']
  | _, _ => [d]
  end.
#[export] Instance CCoinsViewDB_view : CCoinsView CCoinsViewDB := {|
  GetCoin d o := c ← DB_GetCoin d o; Some (d, c);
  PeekCoin := DB_GetCoin;
  HaveCoin d o := Some (d, bool_decide (is_Some (db_coins d !! o)));
  GetBestBlock d := (d, DB_GetBestBlock d);
  BatchWrite := DB_BatchWrite
|}.

(** ** The cache *)

Record CCoinsViewCache (B : Type) := mkCache {
  base : B;
  (** whether it is a [CoinsViewOverlay], which peeks instead of filling its base *)
  m_overlay : bool;
  hashBlock : Z;
  cacheCoins : gmap COutPoint CCoinsCacheEntry;
  flagged : list COutPoint;
  m_dirty_count : Z
}.
Arguments mkCache {B}.
Arguments base {B}.
Arguments m_overlay {B}.
Arguments hashBlock {B}.
Arguments cacheCoins {B}.
Arguments flagged {B}.
Arguments m_dirty_count {B}.

Section Cache.
Context {B : Type} `{!CCoinsView B}.
Implicit Types (c : CCoinsViewCache B) (o : COutPoint).

Definition set_base c (b : B) := mkCache b (m_overlay c) (hashBlock c) (cacheCoins c) (flagged c) (m_dirty_count c).
Definition set_hashBlock c h := mkCache (base c) (m_overlay c) h (cacheCoins c) (flagged c) (m_dirty_count c).
Definition set_count c n := mkCache (base c) (m_overlay c) (hashBlock c) (cacheCoins c) (flagged c) n.
Definition set_cache c m l := mkCache (base c) (m_overlay c) (hashBlock c) m l (m_dirty_count c).

(** [TrySub(m_dirty_count, ...)] *)
Definition TrySub (i j : Z) : Z := if i <? j then i else i - j.
Definition b2z (b : bool) : Z := if b then 1 else 0.
Definition count_sub c (e : CCoinsCacheEntry) := set_count c (TrySub (m_dirty_count c) (b2z (IsDirty e))).

(** Put a coin into an entry of the map, keeping its flags. *)
Definition put c o (e : CCoinsCacheEntry) := set_cache c (<[o := e]> (cacheCoins c)) (flagged c).
Definition AddFlags c o (dirty fresh : bool) :=
  match cacheCoins c !! o with
  | Some e =>
      set_cache c (<[o := mkEntry (coin e) (IsDirty e || dirty) (IsFresh e || fresh)]> (cacheCoins c))
                (if IsDirty e || IsFresh e then flagged c else flagged c ++ [o])
  | None => c
  end.
Definition SetDirty c o := AddFlags c o true false.
Definition SetFresh c o := AddFlags c o false true.
(** Unlinking a key from the list; erasing an entry runs its destructor, which does it. *)
Definition unlink (l : list COutPoint) o : list COutPoint := filter (fun k => k <> o) l.
Definition erase c o := set_cache c (delete o (cacheCoins c)) (unlink (flagged c) o).
Definition SetClean c o :=
  match cacheCoins c !! o with
  | Some e => set_cache c (<[o := mkEntry (coin e) false false]> (cacheCoins c)) (unlink (flagged c) o)
  | None => c
  end.

Definition FetchCoinFromBase c o : option (CCoinsViewCache B * option Coin) :=
  if m_overlay c then r ← PeekCoin (base c) o; Some (c, r)
  else '(b, r) ← GetCoin (base c) o; Some (set_base c b, r).
Definition FetchCoin c o : option (CCoinsViewCache B * option CCoinsCacheEntry) :=
  match cacheCoins c !! o with
  | Some e => Some (c, Some e)
  | None =>
      '(c, r) ← FetchCoinFromBase c o;
      match r with
      | Some coin => if IsSpent coin then None else Some (put c o (new_entry coin), Some (new_entry coin))
      | None => Some (c, None)
      end
  end.

Definition cache_GetCoin c o : option (CCoinsViewCache B * option Coin) :=
  '(c, it) ← FetchCoin c o;
  match it with
  | Some e => if IsSpent (coin e) then Some (c, None) else Some (c, Some (coin e))
  | None => Some (c, None)
  end.
Definition cache_PeekCoin c o : option (option Coin) :=
  match cacheCoins c !! o with
  | Some e => Some (if IsSpent (coin e) then None else Some (coin e))
  | None => PeekCoin (base c) o
  end.
Definition AccessCoin c o : option (CCoinsViewCache B * Coin) :=
  '(c, it) ← FetchCoin c o;
  Some (c, match it with Some e => coin e | None => coinEmpty end).
Definition cache_HaveCoin c o : option (CCoinsViewCache B * bool) :=
  '(c, it) ← FetchCoin c o;
  Some (c, match it with Some e => negb (IsSpent (coin e)) | None => false end).
Definition HaveCoinInCache c o : bool :=
  match cacheCoins c !! o with Some e => negb (IsSpent (coin e)) | None => false end.
Definition cache_GetBestBlock c : CCoinsViewCache B * Z :=
  if hashBlock c =? 0
  then let '(b, h) := GetBestBlock (base c) in (set_hashBlock (set_base c b) h, h)
  else (c, hashBlock c).
Definition SetBestBlock c (hashBlockIn : Z) := set_hashBlock c hashBlockIn.

Definition AddCoin c o (cn : Coin) (possible_overwrite : bool) : option (CCoinsViewCache B) :=
  if IsSpent cn then None
  else if IsUnspendable (scriptPubKey (out cn)) then Some c
  else
    let found := cacheCoins c !! o in
    let e := default (new_entry coinEmpty) found in
    if negb possible_overwrite && negb (IsSpent (coin e)) then None
    else
      let fresh := negb possible_overwrite && negb (IsDirty e) in
      let c := match found with Some _ => count_sub c e | None => c end in
      let c := put c o (mkEntry cn (IsDirty e) (IsFresh e)) in
      let c := SetDirty c o in
      let c := set_count c (m_dirty_count c + 1) in
      Some (if fresh then SetFresh c o else c).

Definition EmplaceCoinInternalDANGER c o (cn : Coin) : CCoinsViewCache B :=
  match cacheCoins c !! o with
  | Some _ => c
  | None => let c := SetDirty (put c o (new_entry cn)) o in set_count c (m_dirty_count c + 1)
  end.

(** The result and what [moveout] receives. *)
Definition SpendCoin c o : option (CCoinsViewCache B * option Coin) :=
  '(c, it) ← FetchCoin c o;
  match it with
  | None => Some (c, None)
  | Some e =>
      let c := count_sub c e in
      if IsFresh e then Some (erase c o, Some (coin e))
      else
        let c := SetDirty c o in
        let c := set_count c (m_dirty_count c + 1) in
        let c := put c o (mkEntry coinEmpty (IsDirty e || true) (IsFresh e)) in
        Some (c, Some (coin e))
  end.

Definition BatchWrite_step c (it : COutPoint * CCoinsCacheEntry) : option (CCoinsViewCache B) :=
  let '(o, e) := it in
  if negb (IsDirty e) then Some c
  else match cacheCoins c !! o with
  | None =>
      if IsFresh e && IsSpent (coin e) then Some c
      else
        let c := put c o (new_entry (coin e)) in
        let c := SetDirty c o in
        let c := set_count c (m_dirty_count c + 1) in
        Some (if IsFresh e then SetFresh c o else c)
  | Some us =>
      if IsFresh e && negb (IsSpent (coin us)) then None
      else if IsFresh us && IsSpent (coin e) then Some (erase (count_sub c us) o)
      else
        let c := put c o (mkEntry (coin e) (IsDirty us) (IsFresh us)) in
        Some (if IsDirty us then c
              else let c := SetDirty c o in set_count c (m_dirty_count c + 1))
  end.
Fixpoint BatchWrite_loop c (entries : list (COutPoint * CCoinsCacheEntry)) : option (CCoinsViewCache B) :=
  match entries with
  | [] => Some c
  | it :: entries => c ← BatchWrite_step c it; BatchWrite_loop c entries
  end.
Definition cache_BatchWrite c (entries : list (COutPoint * CCoinsCacheEntry)) (hashBlockIn : Z)
    : option (CCoinsViewCache B) :=
  c ← BatchWrite_loop c entries; Some (SetBestBlock c hashBlockIn).

(** The cursor over the flagged entries: what it yields, and what moving it
    past an entry does to this cache.  Only the parent's map is touched in
    between, so all the entries are written first and passed over after. *)
Definition flagged_entries c : list (COutPoint * CCoinsCacheEntry) :=
  omap (fun o => e ← cacheCoins c !! o; Some (o, e)) (flagged c).
Definition NextAndMaybeErase (m_will_erase : bool) c (it : COutPoint * CCoinsCacheEntry) : CCoinsViewCache B :=
  let '(o, e) := it in
  let c := count_sub c e in
  if m_will_erase then c else if IsSpent (coin e) then erase c o else SetClean c o.
Definition Flush c : option (CCoinsViewCache B) :=
  let entries := flagged_entries c in
  b ← BatchWrite (base c) entries (hashBlock c);
  let c := foldl (NextAndMaybeErase true) (set_base c b) entries in
  Some (set_cache c ∅ []).
Definition Sync c : option (CCoinsViewCache B) :=
  let entries := flagged_entries c in
  b ← BatchWrite (base c) entries (hashBlock c);
  let c := foldl (NextAndMaybeErase false) (set_base c b) entries in
  match flagged c with [] => Some c | _ => None end.
Definition Reset c : CCoinsViewCache B := SetBestBlock (set_count (set_cache c ∅ []) 0) 0.
Definition Uncache c o : CCoinsViewCache B :=
  match cacheCoins c !! o with
  | Some e => if IsDirty e then c else erase c o
  | None => c
  end.

(** ** Operations on transactions *)

Fixpoint HaveInputs_loop c (ins : list CTxIn) : option (CCoinsViewCache B * bool) :=
  match ins with
  | [] => Some (c, true)
  | i :: ins =>
      '(c, h) ← cache_HaveCoin c (prevout i);
      if (h : bool) then HaveInputs_loop c ins else Some (c, false)
  end.
Definition HaveInputs c (tx : CTransaction) : option (CCoinsViewCache B * bool) :=
  if IsCoinBase tx then Some (c, true) else HaveInputs_loop c (vin tx).

Fixpoint AddCoins_loop c (txid : Z) (fCoinbase : bool) (nHeight : Z) (check_for_overwrite : bool) (i : nat)
    (outs : list CTxOut) : option (CCoinsViewCache B) :=
  match outs with
  | [] => Some c
  | txout :: outs =>
      let o := mkOutPoint txid (u32 (Z.of_nat i)) in
      '(c, overwrite) ← (if check_for_overwrite then cache_HaveCoin c o else Some (c, fCoinbase));
      c ← AddCoin c o (make_coin txout nHeight fCoinbase) overwrite;
      AddCoins_loop c txid fCoinbase nHeight check_for_overwrite (S i) outs
  end.
Definition AddCoins c (txid : Z) (tx : CTransaction) (nHeight : Z) (check_for_overwrite : bool) :=
  AddCoins_loop c txid (IsCoinBase tx) nHeight check_for_overwrite 0 (vout tx).

(** [MAX_BLOCK_WEIGHT / (WITNESS_SCALE_FACTOR * 9)]; an empty [CTxOut] takes 9 bytes. *)
Definition MAX_BLOCK_WEIGHT : Z := 64000000.
Definition MAX_OUTPUTS_PER_BLOCK : Z := MAX_BLOCK_WEIGHT / (WITNESS_SCALE_FACTOR * size (Ser CTxOutFormatter CTxOut_null)).
Fixpoint AccessByTxid_loop (fuel : nat) c (txid n : Z) : option (CCoinsViewCache B * Coin) :=
  match fuel with
  | O => Some (c, coinEmpty)
  | S fuel =>
      '(c, alternate) ← AccessCoin c (mkOutPoint txid n);
      if negb (IsSpent alternate) then Some (c, alternate) else AccessByTxid_loop fuel c txid (n + 1)
  end.
Definition AccessByTxid c (txid : Z) := AccessByTxid_loop (Z.to_nat MAX_OUTPUTS_PER_BLOCK) c txid 0.

(** ** The assertions of [SanityCheck] *)

Definition entry_sane (e : CCoinsCacheEntry) : bool :=
  if IsSpent (coin e) then IsDirty e && negb (IsFresh e) else IsDirty e || negb (IsFresh e).
Definition SanityCheck c : bool :=
  forallb (fun kv => entry_sane kv.2) (map_to_list (cacheCoins c)) &&
  forallb (fun o => match cacheCoins c !! o with Some e => IsDirty e | None => false end) (flagged c) &&
  (Z.of_nat (length (filter (fun kv => IsDirty kv.2 = true) (map_to_list (cacheCoins c)))) =? Z.of_nat (length (flagged c))) &&
  (Z.of_nat (length (flagged c)) =? m_dirty_count c).

End Cache.

#[export] Instance CCoinsViewCache_view {B} `{!CCoinsView B} : CCoinsView (CCoinsViewCache B) := {|
  GetCoin := cache_GetCoin;
  PeekCoin := cache_PeekCoin;
  HaveCoin := cache_HaveCoin;
  GetBestBlock := cache_GetBestBlock;
  BatchWrite := cache_BatchWrite
|}.
Definition new_cache {B} (b : B) (overlay : bool) : CCoinsViewCache B := mkCache b overlay 0 ∅ [] 0.

(** ** What a view promises *)

(** The entries written so far may make a later one fresh, so the condition
    on a fresh entry follows the writes. *)
Fixpoint batch_ok (u : gmap COutPoint Coin) (entries : list (COutPoint * CCoinsCacheEntry)) : Prop :=
  match entries with
  | [] => True
  | it :: entries => (IsDirty it.2 = true -> IsFresh it.2 = true -> u !! it.1 = None) /\ batch_ok (DB_write u it) entries
  end.
Definition apply_batch (u : gmap COutPoint Coin) (entries : list (COutPoint * CCoinsCacheEntry)) := foldl DB_write u entries.

Class CCoinsViewLaws (B : Type) `{!CCoinsView B} := {
  utxo : B -> gmap COutPoint Coin;
  best : B -> Z;
  view_ok : B -> Prop;
  same_view (b b' : B) : Prop := view_ok b' /\ utxo b' = utxo b /\ best b' = best b;
  utxo_unspent b o c : view_ok b -> utxo b !! o = Some c -> IsSpent c = false;
  GetCoin_law b o : view_ok b -> exists b', GetCoin b o = Some (b', utxo b !! o) /\ same_view b b';
  PeekCoin_law b o : view_ok b -> PeekCoin b o = Some (utxo b !! o);
  HaveCoin_law b o :
    view_ok b -> exists b', HaveCoin b o = Some (b', bool_decide (is_Some (utxo b !! o))) /\ same_view b b';
  GetBestBlock_law b : view_ok b -> exists b', GetBestBlock b = (b', best b) /\ same_view b b';
  BatchWrite_law b entries h :
    view_ok b -> batch_ok (utxo b) entries -> h <> 0 ->
    exists b', BatchWrite b entries h = Some b' /\ view_ok b' /\ utxo b' = apply_batch (utxo b) entries /\ best b' = h
}.
Arguments utxo : simpl never.
Arguments best : simpl never.

(** ** The database keeps the promises *)

Record db_ok (d : CCoinsViewDB) : Prop := {
  db_unspent : map_Forall (fun _ c => IsSpent c = false) (db_coins d);
  db_consistent : db_heads d = None
}.

Lemma DB_write_unspent u it : map_Forall (fun _ c => IsSpent c = false) u -> map_Forall (fun _ c => IsSpent c = false) (DB_write u it).
Proof.
  intros Hu. unfold DB_write. destruct (IsDirty it.2); [|exact Hu]. destruct (IsSpent (coin it.2)) eqn:E.
  - apply map_Forall_delete, Hu.
  - apply map_Forall_insert_2; [exact E|exact Hu].
Qed.
Lemma apply_batch_unspent u entries :
  map_Forall (fun _ c => IsSpent c = false) u -> map_Forall (fun _ c => IsSpent c = false) (apply_batch u entries).
Proof.
  revert u. induction entries as [|it entries IH]; intros u Hu; [exact Hu|]. apply IH, DB_write_unspent, Hu.
Qed.

Lemma DB_GetCoin_ok d o : db_ok d -> DB_GetCoin d o = Some (db_coins d !! o).
Proof.
  intros [Hu _]. unfold DB_GetCoin. destruct (db_coins d !! o) as [c|] eqn:E; [|reflexivity].
  rewrite (Hu o c E). reflexivity.
Qed.

#[export] Program Instance CCoinsViewDB_laws : CCoinsViewLaws CCoinsViewDB := {|
  utxo := db_coins;
  best := DB_GetBestBlock;
  view_ok := db_ok
|}.
Next Obligation. intros d o c [Hu _] E. exact (Hu o c E). Qed.
Next Obligation. intros d o Hd. exists d. cbn. rewrite DB_GetCoin_ok by exact Hd. repeat split; apply Hd. Qed.
Next Obligation. intros d o Hd. apply DB_GetCoin_ok, Hd. Qed.
Next Obligation. intros d o Hd. exists d. repeat split; apply Hd. Qed.
Next Obligation. intros d Hd. exists d. repeat split; apply Hd. Qed.
Next Obligation.
  intros d entries h [Hu Hc] _ Hh. exists (mkDB (apply_batch (db_coins d) entries) (Some h) None).
  cbn. unfold DB_BatchWrite, DB_old_tip. rewrite (proj2 (Z.eqb_neq h 0) Hh), Hc.
  destruct (DB_GetBestBlock d =? 0); repeat split; try reflexivity; apply apply_batch_unspent, Hu.
Qed.

(** ** The invariant of a cache *)

(** The bookkeeping of the flagged list: its keys are the dirty ones. *)
Record list_ok (m : gmap COutPoint CCoinsCacheEntry) (l : list COutPoint) (n : Z) : Prop := {
  lo_nodup : NoDup l;
  lo_dirty o : o ∈ l <-> exists e, m !! o = Some e /\ IsDirty e = true;
  lo_count : n = Z.of_nat (length l)
}.
Definition dirty_at (m : gmap COutPoint CCoinsCacheEntry) (o : COutPoint) : bool :=
  match m !! o with Some e => IsDirty e | None => false end.

Lemma unlink_absent l o : o ∉ l -> unlink l o = l.
Proof.
  unfold unlink. induction l as [|x l IH]; [reflexivity|]. rewrite not_elem_of_cons. intros [Hx Hl].
  rewrite filter_cons_True by congruence. rewrite IH by exact Hl. reflexivity.
Qed.

Section List.
Context {m : gmap COutPoint CCoinsCacheEntry} {l : list COutPoint} {n : Z} (Hok : list_ok m l n).
Implicit Type o : COutPoint.

Lemma dirty_elem o : o ∈ l <-> dirty_at m o = true.
Proof.
  rewrite (lo_dirty _ _ _ Hok). unfold dirty_at. split.
  - intros (e & -> & H). exact H.
  - destruct (m !! o) as [e|]; [|discriminate]. eauto.
Qed.

Lemma count_TrySub o : TrySub n (b2z (dirty_at m o)) = n - b2z (dirty_at m o).
Proof.
  unfold TrySub. destruct (dirty_at m o) eqn:E; cbn [b2z]; [|destruct (Z.ltb_spec n 0); lia].
  apply dirty_elem in E. rewrite (lo_count _ _ _ Hok). destruct l; [set_solver|]. cbn [length].
  destruct (Z.ltb_spec (Z.of_nat (S (length l0))) 1); lia.
Qed.

(** Making an entry dirty. *)
Lemma list_ok_dirty o e :
  IsDirty e = true ->
  list_ok (<[o := e]> m) (if dirty_at m o then l else l ++ [o]) (n - b2z (dirty_at m o) + 1).
Proof.
  intros He. pose proof (dirty_elem o) as Ho. split.
  - destruct (dirty_at m o) eqn:E; [apply Hok|]. apply NoDup_app. split; [apply Hok|]. split; [|apply NoDup_singleton].
    intros x Hx Hx'. apply list_elem_of_singleton in Hx' as ->. apply Ho in Hx. congruence.
  - intros x. destruct (decide (x = o)) as [->|Hne].
    + rewrite lookup_insert_eq. split; [intros _; eauto|intros _].
      destruct (dirty_at m o) eqn:E; [apply Ho; reflexivity|]. apply elem_of_app. right. apply list_elem_of_singleton. reflexivity.
    + rewrite lookup_insert_ne by congruence. rewrite <- (lo_dirty _ _ _ Hok).
      destruct (dirty_at m o); [reflexivity|]. rewrite elem_of_app, list_elem_of_singleton. tauto.
  - rewrite (lo_count _ _ _ Hok). destruct (dirty_at m o); cbn [b2z]; rewrite ?length_app; cbn [length]; lia.
Qed.

(** Putting an entry that is as dirty as the one it replaces. *)
Lemma list_ok_same o e : IsDirty e = dirty_at m o -> list_ok (<[o := e]> m) l n.
Proof.
  intros He. pose proof (dirty_elem o) as Ho. split; [apply Hok| |apply Hok].
  intros x. destruct (decide (x = o)) as [->|Hne].
  - rewrite lookup_insert_eq, Ho, <- He. split; [eauto|]. intros (e' & [= <-] & H). exact H.
  - rewrite lookup_insert_ne by congruence. apply Hok.
Qed.

Lemma elem_of_unlink x o : x ∈ unlink l o <-> x ∈ l /\ x <> o.
Proof. unfold unlink. rewrite list_elem_of_filter. tauto. Qed.

Lemma length_unlink o : Z.of_nat (length (unlink l o)) = n - b2z (dirty_at m o).
Proof.
  pose proof (dirty_elem o) as Ho. rewrite (lo_count _ _ _ Hok). pose proof (lo_nodup _ _ _ Hok) as Hnd.
  destruct (dirty_at m o); cbn [b2z].
  - destruct (list_elem_of_split l o (proj2 Ho eq_refl)) as (l1 & l2 & E). unfold unlink. subst l.
    apply NoDup_app in Hnd as (_ & H1 & H2). apply NoDup_cons in H2 as [H2 _].
    rewrite filter_app, filter_cons_False by tauto.
    fold (unlink l1 o) (unlink l2 o). rewrite !unlink_absent, !length_app; [cbn [length]; lia|exact H2|].
    intros Hx. apply (H1 o Hx), list_elem_of_here.
  - rewrite unlink_absent; [lia|]. intros Hx. apply Ho in Hx. discriminate.
Qed.

(** Removing an entry, or making it clean. *)
Lemma list_ok_unlink o m' :
  dirty_at m' o = false -> (forall x, x <> o -> m' !! x = m !! x) ->
  list_ok m' (unlink l o) (n - b2z (dirty_at m o)).
Proof.
  intros Hd Hm. split; [apply NoDup_filter, Hok| |rewrite length_unlink; reflexivity].
  intros x. rewrite elem_of_unlink. destruct (decide (x = o)) as [->|Hne].
  - split; [tauto|]. intros (e & E & He). unfold dirty_at in Hd. rewrite E in Hd. congruence.
  - rewrite Hm by exact Hne. rewrite <- (lo_dirty _ _ _ Hok). tauto.
Qed.
End List.

(** How an entry relates to the coin below it. *)
Record entry_ok (u : gmap COutPoint Coin) (o : COutPoint) (e : CCoinsCacheEntry) : Prop := {
  eo_sane : entry_sane e = true;
  eo_fresh : IsFresh e = true -> u !! o = None;
  eo_clean : IsDirty e = false -> u !! o = Some (coin e)
}.

Section CacheLaws.
Context {B : Type} `{!CCoinsView B} `{!CCoinsViewLaws B}.
Implicit Types (c : CCoinsViewCache B) (o : COutPoint) (e : CCoinsCacheEntry).

Definition visible (e : option CCoinsCacheEntry) (below : option Coin) : option Coin :=
  match e with
  | Some e => if IsSpent (coin e) then None else Some (coin e)
  | None => below
  end.
(** The map a cache stands for: its entries over the map of its base. *)
Definition cache_utxo c : gmap COutPoint Coin := merge visible (cacheCoins c) (utxo (base c)).
Definition cache_best c : Z := if hashBlock c =? 0 then best (base c) else hashBlock c.

Record cache_ok c : Prop := {
  co_base : view_ok (base c);
  co_entries : map_Forall (entry_ok (utxo (base c))) (cacheCoins c);
  co_list : list_ok (cacheCoins c) (flagged c) (m_dirty_count c)
}.
(** The base stands for what it stood for. *)
Definition same_base c c' : Prop := utxo (base c') = utxo (base c) /\ best (base c') = best (base c).
Definition same_cache c c' : Prop :=
  cache_ok c' /\ cache_utxo c' = cache_utxo c /\ cache_best c' = cache_best c /\ hashBlock c' = hashBlock c /\ same_base c c'.

Lemma lookup_cache_utxo c o : cache_utxo c !! o = visible (cacheCoins c !! o) (utxo (base c) !! o).
Proof. unfold cache_utxo. rewrite lookup_merge. destruct (cacheCoins c !! o), (utxo (base c) !! o); reflexivity. Qed.

Lemma cache_utxo_unspent c o cn : cache_ok c -> cache_utxo c !! o = Some cn -> IsSpent cn = false.
Proof.
  intros Hc. rewrite lookup_cache_utxo. destruct (cacheCoins c !! o) as [e|]; cbn.
  - destruct (IsSpent (coin e)) eqn:E; [discriminate|]. intros [= <-]. exact E.
  - apply utxo_unspent, Hc.
Qed.

Lemma same_cache_refl c : cache_ok c -> same_cache c c.
Proof. intros H. split; [exact H|]. unfold same_base. auto. Qed.
Lemma same_base_trans c c' c'' : same_base c c' -> same_base c' c'' -> same_base c c''.
Proof. intros [E F] [E' F']. split; congruence. Qed.
Lemma same_cache_trans c c' c'' : same_cache c c' -> same_cache c' c'' -> same_cache c c''.
Proof.
  intros (H1 & E1 & F1 & G1 & K1) (H2 & E2 & F2 & G2 & K2). split; [exact H2|]. split; [congruence|]. split; [congruence|].
  split; [congruence|]. eapply same_base_trans; eassumption.
Qed.

(** A cache may change its base for one that stands for the same map. *)
Lemma cache_ok_base c b : cache_ok c -> same_view (base c) b -> same_cache c (set_base c b).
Proof.
  intros [Hb He Hl] (Hb' & Hu & Hbest). split; [split; cbn; [exact Hb'|rewrite Hu; exact He|exact Hl]|split; [|split; [|split; [reflexivity|split; assumption]]]].
  - unfold cache_utxo. cbn. rewrite Hu. reflexivity.
  - unfold cache_best. cbn. rewrite Hbest. reflexivity.
Qed.

(** ** Two ways of changing an entry *)

Definition put_dirty c o e :=
  mkCache (base c) (m_overlay c) (hashBlock c) (<[o := e]> (cacheCoins c))
          (if dirty_at (cacheCoins c) o then flagged c else flagged c ++ [o])
          (m_dirty_count c - b2z (dirty_at (cacheCoins c) o) + 1).
Definition write_coin (cn : Coin) o (u : gmap COutPoint Coin) : gmap COutPoint Coin :=
  if IsSpent cn then delete o u else <[o := cn]> u.

Lemma cache_utxo_insert c c' o e :
  base c' = base c -> cacheCoins c' = <[o := e]> (cacheCoins c) -> cache_utxo c' = write_coin (coin e) o (cache_utxo c).
Proof.
  intros Hb Hm. apply map_eq. intros x. rewrite lookup_cache_utxo, Hb, Hm. unfold write_coin.
  destruct (decide (x = o)) as [->|Hne].
  - rewrite lookup_insert_eq. cbn. destruct (IsSpent (coin e)); [rewrite lookup_delete_eq|rewrite lookup_insert_eq]; reflexivity.
  - rewrite lookup_insert_ne by congruence. destruct (IsSpent (coin e)); [rewrite lookup_delete_ne by congruence|rewrite lookup_insert_ne by congruence];
      rewrite lookup_cache_utxo; reflexivity.
Qed.

Lemma cache_ok_put_dirty c o e :
  cache_ok c -> IsDirty e = true -> entry_ok (utxo (base c)) o e ->
  cache_ok (put_dirty c o e) /\ cache_utxo (put_dirty c o e) = write_coin (coin e) o (cache_utxo c).
Proof.
  intros [Hb He Hl] Hd Hok. split; [split|]; cbn.
  - exact Hb.
  - apply map_Forall_insert_2; assumption.
  - apply list_ok_dirty; assumption.
  - exact (cache_utxo_insert c (put_dirty c o e) o e eq_refl eq_refl).
Qed.

(** Erasing an entry uncovers the coin below. *)
Lemma cache_ok_erase c o :
  cache_ok c -> cache_ok (set_count (erase c o) (m_dirty_count c - b2z (dirty_at (cacheCoins c) o))).
Proof.
  intros [Hb He Hl]. split; cbn; [exact Hb|apply map_Forall_delete, He|].
  apply (list_ok_unlink Hl).
  - unfold dirty_at. rewrite lookup_delete_eq. reflexivity.
  - intros x Hx. apply lookup_delete_ne. congruence.
Qed.
Lemma lookup_cache_erase c o x :
  cache_utxo (erase c o) !! x = if decide (x = o) then utxo (base c) !! o else cache_utxo c !! x.
Proof.
  rewrite !lookup_cache_utxo. cbn. destruct (decide (x = o)) as [->|Hne].
  - rewrite lookup_delete_eq. reflexivity.
  - rewrite lookup_delete_ne by congruence. reflexivity.
Qed.

(** A new entry that repeats the coin below. *)
Lemma cache_ok_fetched c o cn :
  cache_ok c -> cacheCoins c !! o = None -> utxo (base c) !! o = Some cn ->
  same_cache c (put c o (new_entry cn)).
Proof.
  intros Hc Hn Hu. pose proof (utxo_unspent _ _ _ (co_base _ Hc) Hu) as Hs. destruct Hc as [Hb He Hl]. split; [split|split; [|split; [|split]]]; cbn.
  - exact Hb.
  - apply map_Forall_insert_2; [|exact He]. split; cbn; [unfold entry_sane; cbn; rewrite Hs; reflexivity|discriminate|auto].
  - apply (list_ok_same Hl). unfold dirty_at. rewrite Hn. reflexivity.
  - change (cache_utxo (put c o (new_entry cn)) = cache_utxo c).
    rewrite (cache_utxo_insert c (put c o (new_entry cn)) o (new_entry cn)) by reflexivity. unfold write_coin. cbn. rewrite Hs.
    apply insert_id. rewrite lookup_cache_utxo, Hn. exact Hu.
  - reflexivity.
  - reflexivity.
  - split; reflexivity.
Qed.

(** ** Reading *)

Lemma FetchCoinFromBase_spec c o :
  cache_ok c -> exists c', FetchCoinFromBase c o = Some (c', utxo (base c) !! o) /\ same_cache c c' /\
                           utxo (base c') = utxo (base c) /\ cacheCoins c' = cacheCoins c.
Proof.
  intros Hc. unfold FetchCoinFromBase. destruct (m_overlay c).
  - rewrite PeekCoin_law by apply Hc. exists c. cbn. auto using same_cache_refl.
  - destruct (GetCoin_law (base c) o (co_base _ Hc)) as (b' & -> & Hs). exists (set_base c b'). cbn.
    split; [reflexivity|]. split; [apply cache_ok_base; assumption|]. split; [apply Hs|reflexivity].
Qed.

Lemma FetchCoin_spec c o :
  cache_ok c ->
  exists c' it, FetchCoin c o = Some (c', it) /\ same_cache c c' /\ cacheCoins c' !! o = it /\
                visible it None = cache_utxo c !! o.
Proof.
  intros Hc. unfold FetchCoin. rewrite lookup_cache_utxo. destruct (cacheCoins c !! o) as [e|] eqn:E.
  { exists c, (Some e). auto using same_cache_refl. }
  destruct (FetchCoinFromBase_spec c o Hc) as (c' & -> & Hs & Hu & Hm). cbn [mbind option_bind visible].
  destruct (utxo (base c) !! o) as [cn|] eqn:Ec.
  - assert (Hsp : IsSpent cn = false) by (eapply utxo_unspent; [apply Hc|exact Ec]). rewrite Hsp.
    eexists _, _. split; [reflexivity|]. split; [|split].
    + eapply same_cache_trans; [exact Hs|]. apply cache_ok_fetched; [apply Hs|rewrite Hm; exact E|rewrite Hu; exact Ec].
    + cbn. apply lookup_insert_eq.
    + cbn. rewrite Hsp. reflexivity.
  - exists c', None. rewrite Hm. auto.
Qed.

Lemma cache_GetCoin_spec c o :
  cache_ok c -> exists c', cache_GetCoin c o = Some (c', cache_utxo c !! o) /\ same_cache c c'.
Proof.
  intros Hc. unfold cache_GetCoin. destruct (FetchCoin_spec c o Hc) as (c' & it & -> & Hs & _ & Hv). exists c'. cbn.
  split; [|exact Hs]. rewrite <- Hv. destruct it as [e|]; cbn; [destruct (IsSpent (coin e))|]; reflexivity.
Qed.
Lemma cache_PeekCoin_spec c o : cache_ok c -> cache_PeekCoin c o = Some (cache_utxo c !! o).
Proof.
  intros Hc. unfold cache_PeekCoin. rewrite lookup_cache_utxo. destruct (cacheCoins c !! o); [reflexivity|].
  apply PeekCoin_law, Hc.
Qed.
Lemma cache_HaveCoin_spec c o :
  cache_ok c -> exists c', cache_HaveCoin c o = Some (c', bool_decide (is_Some (cache_utxo c !! o))) /\ same_cache c c'.
Proof.
  intros Hc. unfold cache_HaveCoin. destruct (FetchCoin_spec c o Hc) as (c' & it & -> & Hs & _ & Hv). exists c'. cbn.
  split; [|exact Hs]. rewrite <- Hv. do 2 f_equal. destruct it as [e|]; cbn; [destruct (IsSpent (coin e))|]; reflexivity.
Qed.
(** [AccessCoin] gives the coin, and a spent one where there is none. *)
Lemma AccessCoin_spec c o :
  cache_ok c ->
  exists c' cn, AccessCoin c o = Some (c', cn) /\ same_cache c c' /\
    match cache_utxo c !! o with Some cn' => cn = cn' | None => IsSpent cn = true end.
Proof.
  intros Hc. unfold AccessCoin. destruct (FetchCoin_spec c o Hc) as (c' & it & -> & Hs & _ & Hv). cbn.
  eexists _, _. split; [reflexivity|]. split; [exact Hs|]. rewrite <- Hv.
  destruct it as [e|]; cbn; [destruct (IsSpent (coin e)) eqn:E; auto|reflexivity].
Qed.
Lemma cache_GetBestBlock_spec c :
  cache_ok c ->
  exists c', cache_GetBestBlock c = (c', cache_best c) /\ cache_ok c' /\ cache_utxo c' = cache_utxo c /\ cache_best c' = cache_best c.
Proof.
  intros Hc. unfold cache_GetBestBlock, cache_best. destruct (hashBlock c =? 0) eqn:E.
  - destruct (GetBestBlock_law (base c) (co_base _ Hc)) as (b' & -> & Hs). eexists. split; [reflexivity|].
    destruct (cache_ok_base c b' Hc Hs) as (Hok & Hu & _). split; [|split].
    + destruct Hok. split; assumption.
    + exact Hu.
    + cbn. destruct (best (base c) =? 0) eqn:E0; [|reflexivity]. destruct Hs as (_ & _ & ->). reflexivity.
  - exists c. rewrite E. auto.
Qed.

(** ** Writing *)

Lemma sane_fresh e : entry_sane e = true -> IsFresh e = true -> IsDirty e = true.
Proof. unfold entry_sane. destruct (IsSpent (coin e)), (IsDirty e), (IsFresh e); cbn; congruence. Qed.
Lemma sane_clean e : entry_sane e = true -> IsDirty e = false -> IsSpent (coin e) = false /\ IsFresh e = false.
Proof. unfold entry_sane. destruct (IsSpent (coin e)), (IsDirty e), (IsFresh e); cbn; try congruence. auto. Qed.

(** The steps that add a coin come down to one dirty entry. *)
Lemma set_dirty_put c o cn d f :
  cache_ok c -> d = dirty_at (cacheCoins c) o -> (f = true -> d = true) ->
  set_count (SetDirty (put c o (mkEntry cn d f)) o) (m_dirty_count c - b2z d + 1) = put_dirty c o (mkEntry cn true f).
Proof.
  intros Hc -> Hf. unfold SetDirty, AddFlags, put. cbn. rewrite lookup_insert_eq. cbn. rewrite insert_insert_eq.
  unfold put_dirty, set_count. cbn. rewrite orb_true_r, orb_false_r.
  destruct (dirty_at (cacheCoins c) o); [reflexivity|]. destruct f; [specialize (Hf eq_refl); discriminate|]. reflexivity.
Qed.
Lemma set_fresh_put c o cn f :
  SetFresh (put_dirty c o (mkEntry cn true f)) o = put_dirty c o (mkEntry cn true true).
Proof.
  unfold SetFresh, AddFlags, put_dirty. cbn. rewrite lookup_insert_eq. cbn. unfold set_cache. cbn.
  rewrite insert_insert_eq, orb_true_r. reflexivity.
Qed.

Lemma AddCoin_eq c o cn po :
  cache_ok c -> IsSpent cn = false -> IsUnspendable (scriptPubKey (out cn)) = false ->
  (po = false -> cache_utxo c !! o = None) ->
  AddCoin c o cn po =
  Some (put_dirty c o (mkEntry cn true (match cacheCoins c !! o with Some e => IsFresh e | None => false end ||
                                        (negb po && negb (dirty_at (cacheCoins c) o))))).
Proof.
  intros Hc Hsp Hun Hpo. unfold AddCoin. rewrite Hsp, Hun. rewrite lookup_cache_utxo in Hpo.
  pose proof (co_list _ Hc) as Hl. pose proof (count_TrySub Hl o) as Ht. unfold dirty_at in Ht |- *.
  cbv zeta. destruct (cacheCoins c !! o) as [e|] eqn:E; cbn [from_option id].
  - pose proof (co_entries _ Hc o e E) as He. cbn in Hpo.
    replace (negb po && negb (IsSpent (coin e))) with false.
    2: { destruct po; [reflexivity|]. destruct (IsSpent (coin e)); [reflexivity|]. discriminate (Hpo eq_refl). }
    unfold count_sub. rewrite Ht.
    assert (Hf : IsFresh e = true -> IsDirty e = true) by (apply sane_fresh, He).
    pose proof (set_dirty_put c o cn (IsDirty e) (IsFresh e) Hc ltac:(unfold dirty_at; rewrite E; reflexivity) Hf) as Hput.
    replace (set_count (SetDirty _ o) _) with (put_dirty c o (mkEntry cn true (IsFresh e))).
    2: { rewrite <- Hput. unfold SetDirty, AddFlags, put. cbn. rewrite !lookup_insert_eq. reflexivity. }
    destruct (negb po && negb (IsDirty e)); [rewrite set_fresh_put, orb_true_r|rewrite orb_false_r]; reflexivity.
  - cbn. rewrite andb_false_r.
    pose proof (set_dirty_put c o cn false false Hc ltac:(unfold dirty_at; rewrite E; reflexivity) ltac:(discriminate)) as Hput.
    replace (set_count (SetDirty _ o) _) with (put_dirty c o (mkEntry cn true false)).
    2: { rewrite <- Hput. unfold SetDirty, AddFlags, put. cbn. rewrite !lookup_insert_eq. cbn. unfold set_count. cbn. f_equal. lia. }
    destruct (negb po); [rewrite set_fresh_put|]; reflexivity.
Qed.

Lemma AddCoin_spec c o cn po :
  cache_ok c -> IsSpent cn = false -> (po = false -> cache_utxo c !! o = None) ->
  exists c', AddCoin c o cn po = Some c' /\ cache_ok c' /\ hashBlock c' = hashBlock c /\ base c' = base c /\
    cache_utxo c' = if IsUnspendable (scriptPubKey (out cn)) then cache_utxo c else <[o := cn]> (cache_utxo c).
Proof.
  intros Hc Hsp Hpo. destruct (IsUnspendable (scriptPubKey (out cn))) eqn:Hun.
  { exists c. unfold AddCoin. rewrite Hsp, Hun. auto. }
  rewrite AddCoin_eq by assumption. eexists. split; [reflexivity|]. rewrite lookup_cache_utxo in Hpo.
  match goal with |- context [put_dirty c o ?e] => set (new := e) end.
  destruct (cache_ok_put_dirty c o new Hc eq_refl) as [Hok Hu].
  - subst new. unfold dirty_at. split; cbn [IsDirty IsFresh coin]; [unfold entry_sane; cbn; rewrite Hsp; reflexivity| |discriminate].
    destruct (cacheCoins c !! o) as [e|] eqn:E; cbn [visible] in Hpo.
    + destruct (co_entries _ Hc o e E) as [Hs Hf Hcl]. destruct (IsFresh e); [intros _; exact (Hf eq_refl)|].
      destruct po; [discriminate|]. destruct (IsDirty e) eqn:Hd; [discriminate|]. specialize (Hpo eq_refl).
      destruct (sane_clean e Hs) as [Hsp' _]; [exact Hd|]. rewrite Hsp' in Hpo. discriminate.
    + destruct po; [discriminate|]. intros _. exact (Hpo eq_refl).
  - split; [exact Hok|]. split; [reflexivity|]. split; [reflexivity|]. rewrite Hu. unfold write_coin. subst new. cbn.
    rewrite Hsp. reflexivity.
Qed.

Lemma SpendCoin_spec c o :
  cache_ok c ->
  exists c' r, SpendCoin c o = Some (c', r) /\ cache_ok c' /\ hashBlock c' = hashBlock c /\
    cache_best c' = cache_best c /\ same_base c c' /\ cache_utxo c' = delete o (cache_utxo c) /\
    match cache_utxo c !! o with
    | Some cn => r = Some cn
    | None => r = None \/ exists cn, r = Some cn /\ IsSpent cn = true
    end.
Proof.
  intros Hc. unfold SpendCoin. destruct (FetchCoin_spec c o Hc) as (c1 & it & -> & (H1 & Hu & Hb & Hh & Hs1 & Hs2) & Em & Hv).
  cbn [mbind option_bind]. unfold same_base. rewrite <- Hu, <- Hh, <- Hb, <- Hs1, <- Hs2. rewrite <- Hu in Hv.
  clear Hu Hb Hh Hs1 Hs2 Hc c. rename c1 into c, H1 into Hc.
  destruct it as [e|].
  2: { exists c, None. rewrite <- Hv. cbn [visible] in *. split; [reflexivity|]. split; [exact Hc|].
       split; [reflexivity|]. split; [reflexivity|]. split; [auto|]. split; [symmetry; apply delete_id; auto|auto]. }
  pose proof (co_entries _ Hc o e Em) as [Hs Hf Hcl]. pose proof (count_TrySub (co_list _ Hc) o) as Ht.
  unfold dirty_at in Ht. rewrite Em in Ht. unfold count_sub. rewrite Ht. cbv zeta.
  assert (Hr : match cache_utxo c !! o with Some cn => Some (coin e) = Some cn
               | None => Some (coin e) = None \/ exists cn, Some (coin e) = Some cn /\ IsSpent cn = true end).
  { rewrite <- Hv. cbn. destruct (IsSpent (coin e)) eqn:E; eauto. }
  destruct (IsFresh e) eqn:Ef.
  - pose proof (cache_ok_erase c o Hc) as Hok. unfold dirty_at in Hok. rewrite Em in Hok.
    eexists _, _. split; [reflexivity|]. split; [exact Hok|]. split; [reflexivity|]. split; [reflexivity|]. split; [auto|]. split; [|exact Hr].
    apply map_eq. intros x. change (cache_utxo (erase (set_count c (m_dirty_count c - b2z (IsDirty e))) o) !! x) with (cache_utxo (erase c o) !! x).
    rewrite lookup_cache_erase. destruct (decide (x = o)) as [->|Hne].
    + rewrite lookup_delete_eq. auto.
    + rewrite lookup_delete_ne by congruence. reflexivity.
  - destruct (cache_ok_put_dirty c o (mkEntry coinEmpty true false) Hc eq_refl) as [Hok Hu].
    { split; cbn; [reflexivity|discriminate|discriminate]. }
    eexists _, _. split; [reflexivity|].
    match goal with |- cache_ok ?x /\ _ => replace x with (put_dirty c o (mkEntry coinEmpty true false)) end.
    + split; [exact Hok|]. split; [reflexivity|]. split; [reflexivity|]. split; [auto|]. split; [exact Hu|exact Hr].
    + unfold SetDirty, AddFlags, put. cbn. rewrite Em. cbn. unfold put_dirty, dirty_at, set_count, set_cache. cbn. rewrite Em.
      rewrite insert_insert_eq, Ef, orb_true_r, orb_false_r. reflexivity.
Qed.

Lemma BatchWrite_step_spec c o e :
  cache_ok c -> (IsDirty e = true -> IsFresh e = true -> cache_utxo c !! o = None) ->
  exists c', BatchWrite_step c (o, e) = Some c' /\ cache_ok c' /\ cache_utxo c' = DB_write (cache_utxo c) (o, e) /\
             base c' = base c.
Proof.
  intros Hc Hfr. unfold BatchWrite_step, DB_write. cbn [fst snd]. destruct (IsDirty e) eqn:Hd; cbn [negb]; [|exists c; auto].
  specialize (Hfr eq_refl). rewrite lookup_cache_utxo in Hfr. fold (write_coin (coin e) o (cache_utxo c)).
  destruct (cacheCoins c !! o) as [us|] eqn:Em; cbn [visible] in Hfr.
  - destruct (co_entries _ Hc o us Em) as [Hs Hf Hcl].
    assert (Hthrow : IsFresh e && negb (IsSpent (coin us)) = false).
    { destruct (IsFresh e); [|reflexivity]. specialize (Hfr eq_refl). destruct (IsSpent (coin us)); [reflexivity|discriminate]. }
    rewrite Hthrow. destruct (IsFresh us && IsSpent (coin e)) eqn:Eer.
    + apply andb_true_iff in Eer as [Ef Esp]. pose proof (count_TrySub (co_list _ Hc) o) as Ht.
      pose proof (cache_ok_erase c o Hc) as Hok. unfold dirty_at in Ht, Hok. rewrite Em in Ht, Hok. unfold count_sub. rewrite Ht.
      eexists. split; [reflexivity|]. split; [exact Hok|]. split; [|reflexivity]. unfold write_coin. rewrite Esp.
      apply map_eq. intros x. change (cache_utxo (erase (set_count c (m_dirty_count c - b2z (IsDirty us))) o) !! x) with (cache_utxo (erase c o) !! x).
      rewrite lookup_cache_erase. destruct (decide (x = o)) as [->|Hne]; [rewrite lookup_delete_eq; auto|].
      rewrite lookup_delete_ne by congruence. reflexivity.
    + set (new := mkEntry (coin e) true (IsFresh us)).
      destruct (cache_ok_put_dirty c o new Hc eq_refl) as [Hok Hu].
      { subst new. split; cbn; [unfold entry_sane; cbn|exact Hf|discriminate].
        destruct (IsSpent (coin e)), (IsFresh us); cbn in *; congruence. }
      eexists. split; [reflexivity|]. match goal with |- cache_ok ?x /\ _ => replace x with (put_dirty c o new) end.
      { split; [exact Hok|]. split; [exact Hu|reflexivity]. }
      pose proof (sane_fresh us Hs) as Hsf. subst new. unfold put_dirty, dirty_at. rewrite Em. destruct (IsDirty us) eqn:Ed.
      * unfold put, set_cache. cbn. f_equal. lia.
      * unfold put, SetDirty, AddFlags, set_cache. cbn. rewrite lookup_insert_eq. cbn. rewrite insert_insert_eq, orb_false_r.
        destruct (IsFresh us); [specialize (Hsf eq_refl); discriminate|]. unfold set_count. cbn. f_equal. lia.
  - destruct (IsFresh e && IsSpent (coin e)) eqn:Efs.
    + apply andb_true_iff in Efs as [Ef Esp]. exists c. split; [reflexivity|]. split; [exact Hc|]. split; [|reflexivity].
      unfold write_coin. rewrite Esp, delete_id; [reflexivity|]. rewrite lookup_cache_utxo, Em. auto.
    + set (new := mkEntry (coin e) true (IsFresh e)).
      destruct (cache_ok_put_dirty c o new Hc eq_refl) as [Hok Hu].
      { subst new. split; cbn; [unfold entry_sane; cbn|exact Hfr|discriminate].
        destruct (IsSpent (coin e)), (IsFresh e); cbn in *; congruence. }
      eexists. split; [reflexivity|]. match goal with |- cache_ok ?x /\ _ => replace x with (put_dirty c o new) end.
      { split; [exact Hok|]. split; [exact Hu|reflexivity]. }
      cbv zeta. pose proof (set_dirty_put c o (coin e) false false Hc ltac:(unfold dirty_at; rewrite Em; reflexivity) ltac:(discriminate)) as Hput.
      replace (set_count (SetDirty (put c o (new_entry (coin e))) o) _) with (put_dirty c o (mkEntry (coin e) true false)).
      2: { rewrite <- Hput. unfold SetDirty, AddFlags, put. cbn. rewrite !lookup_insert_eq. cbn. unfold set_count. cbn. f_equal. lia. }
      subst new. destruct (IsFresh e); [rewrite set_fresh_put|]; reflexivity.
Qed.

Lemma BatchWrite_loop_spec c entries :
  cache_ok c -> batch_ok (cache_utxo c) entries ->
  exists c', BatchWrite_loop c entries = Some c' /\ cache_ok c' /\ cache_utxo c' = apply_batch (cache_utxo c) entries /\
             base c' = base c.
Proof.
  revert c. induction entries as [|[o e] entries IH]; intros c Hc Hb; [exists c; auto|]. destruct Hb as [Hf Hb].
  cbn [BatchWrite_loop]. destruct (BatchWrite_step_spec c o e Hc Hf) as (c1 & -> & H1 & Hu & Hbase). cbn [mbind option_bind].
  rewrite <- Hu in Hb. destruct (IH c1 H1 Hb) as (c2 & E & H2 & Hu2 & Hb2). exists c2. rewrite E, Hu2, Hu, Hb2, Hbase. auto.
Qed.

Lemma cache_BatchWrite_spec c entries h :
  cache_ok c -> batch_ok (cache_utxo c) entries -> h <> 0 ->
  exists c', cache_BatchWrite c entries h = Some c' /\ cache_ok c' /\ cache_utxo c' = apply_batch (cache_utxo c) entries /\
             cache_best c' = h.
Proof.
  intros Hc Hb Hh. unfold cache_BatchWrite. destruct (BatchWrite_loop_spec c entries Hc Hb) as (c1 & -> & [H1 H2 H3] & Hu & _).
  cbn. eexists. split; [reflexivity|]. split; [split; assumption|]. split; [exact Hu|].
  unfold cache_best. cbn. rewrite (proj2 (Z.eqb_neq h 0) Hh). reflexivity.
Qed.

(** ** Handing the changes down *)

Section Flagged.
Context (m : gmap COutPoint CCoinsCacheEntry).
Let entries_of (l : list COutPoint) := omap (fun o => e ← m !! o; Some (o, e)) l.
Let all_dirty (l : list COutPoint) := Forall (fun o => exists e, m !! o = Some e /\ IsDirty e = true) l.

Lemma apply_flagged l u o :
  NoDup l -> all_dirty l ->
  apply_batch u (entries_of l) !! o = if decide (o ∈ l) then visible (m !! o) None else u !! o.
Proof.
  intros Hnd. revert u. induction Hnd as [|k l Hk Hnd IH]; intros u Hd.
  { rewrite decide_False by apply not_elem_of_nil. reflexivity. }
  apply Forall_cons in Hd as [(e & Em & He) Hd]. unfold entries_of. cbn [omap list_omap]. rewrite Em. cbn [mbind option_bind].
  cbn [apply_batch foldl]. fold (entries_of l). fold (apply_batch (DB_write u (k, e)) (entries_of l)). rewrite IH by exact Hd.
  destruct (decide (o ∈ l)) as [Ho|Ho]; [rewrite decide_True by (apply elem_of_cons; auto); reflexivity|].
  unfold DB_write. cbn. rewrite He. destruct (decide (o = k)) as [->|Hne].
  - rewrite decide_True by apply list_elem_of_here. rewrite Em. cbn.
    destruct (IsSpent (coin e)); [apply lookup_delete_eq|apply lookup_insert_eq].
  - rewrite decide_False by (rewrite elem_of_cons; tauto).
    destruct (IsSpent (coin e)); [apply lookup_delete_ne|apply lookup_insert_ne]; congruence.
Qed.

Lemma flagged_batch_ok u0 l u :
  NoDup l -> all_dirty l -> map_Forall (entry_ok u0) m -> (forall o, o ∈ l -> u !! o = u0 !! o) ->
  batch_ok u (entries_of l).
Proof.
  intros Hnd. revert u. induction Hnd as [|k l Hk Hnd IH]; intros u Hd Hm Hu; [exact I|].
  apply Forall_cons in Hd as [(e & Em & He) Hd]. unfold entries_of. cbn [omap list_omap]. rewrite Em. cbn [mbind option_bind].
  fold (entries_of l). split.
  - cbn. intros _ Hf. rewrite Hu by apply list_elem_of_here. apply (Hm k e Em), Hf.
  - apply IH; [exact Hd|exact Hm|]. intros o Ho. unfold DB_write. cbn. rewrite He.
    assert (o <> k) by (intros ->; exact (Hk Ho)). rewrite <- Hu by (apply elem_of_cons; auto).
    destruct (IsSpent (coin e)); [apply lookup_delete_ne|apply lookup_insert_ne]; congruence.
Qed.
End Flagged.

Lemma flagged_dirty c :
  cache_ok c -> Forall (fun o => exists e, cacheCoins c !! o = Some e /\ IsDirty e = true) (flagged c).
Proof. intros Hc. apply Forall_forall. intros o. apply (lo_dirty _ _ _ (co_list _ Hc)). Qed.

(** The flagged entries are a batch the base accepts, and it makes the base
    stand for what the cache stands for. *)
Lemma flagged_entries_spec c :
  cache_ok c ->
  batch_ok (utxo (base c)) (flagged_entries c) /\ apply_batch (utxo (base c)) (flagged_entries c) = cache_utxo c.
Proof.
  intros Hc. pose proof (flagged_dirty c Hc) as Hd. pose proof (lo_nodup _ _ _ (co_list _ Hc)) as Hnd. split.
  - exact (flagged_batch_ok (cacheCoins c) (utxo (base c)) (flagged c) (utxo (base c)) Hnd Hd (co_entries _ Hc) (fun o _ => eq_refl)).
  - apply map_eq. intros o. rewrite lookup_cache_utxo. etransitivity; [exact (apply_flagged (cacheCoins c) (flagged c) (utxo (base c)) o Hnd Hd)|].
    destruct (decide (o ∈ flagged c)) as [Ho|Ho].
    + apply (lo_dirty _ _ _ (co_list _ Hc)) in Ho as (e & -> & _). reflexivity.
    + destruct (cacheCoins c !! o) as [e|] eqn:E; [|reflexivity]. destruct (co_entries _ Hc o e E) as [Hs _ Hcl].
      destruct (IsDirty e) eqn:Ed; [destruct Ho; apply (lo_dirty _ _ _ (co_list _ Hc)); eauto|].
      rewrite Hcl by exact eq_refl. cbn. destruct (sane_clean e Hs Ed) as [-> _]. reflexivity.
Qed.

Lemma flagged_entries_fst c : cache_ok c -> map fst (flagged_entries c) = flagged c.
Proof.
  intros Hc. pose proof (flagged_dirty c Hc) as Hd. unfold flagged_entries. induction Hd as [|o l (e & E & _) Hd IH]; [reflexivity|].
  cbn [omap list_omap]. rewrite E. cbn. f_equal. exact IH.
Qed.
Lemma flagged_entries_dirty c : cache_ok c ->
  Forall (fun it => cacheCoins c !! it.1 = Some it.2 /\ IsDirty it.2 = true) (flagged_entries c).
Proof.
  intros Hc. pose proof (flagged_dirty c Hc) as Hd. unfold flagged_entries. induction Hd as [|o l (e & E & He) Hd IH]; [constructor|].
  cbn [omap list_omap]. rewrite E. cbn. constructor; [auto|exact IH].
Qed.

Lemma dirty_TrySub n : 0 < n -> TrySub n 1 = n - 1.
Proof. intros H. unfold TrySub. destruct (Z.ltb_spec n 1); lia. Qed.

(** Passing over the entries of an erasing cursor only counts them down. *)
Lemma erasing_cursor (c : CCoinsViewCache B) entries :
  Forall (fun it => IsDirty it.2 = true) entries -> Z.of_nat (length entries) <= m_dirty_count c ->
  foldl (NextAndMaybeErase true) c entries = set_count c (m_dirty_count c - Z.of_nat (length entries)).
Proof.
  intros Hd. revert c. induction Hd as [|[o e] entries He Hd IH]; intros c Hl; cbn [foldl length] in *.
  - destruct c. unfold set_count. cbn. f_equal. lia.
  - cbn in He. rewrite IH; unfold NextAndMaybeErase, count_sub; rewrite He; cbn [b2z]; rewrite dirty_TrySub by lia; cbn; [|lia].
    unfold set_count. cbn. f_equal. lia.
Qed.

Lemma Flush_spec c :
  cache_ok c -> hashBlock c <> 0 ->
  exists c', Flush c = Some c' /\ cache_ok c' /\ cacheCoins c' = ∅ /\ cache_utxo c' = cache_utxo c /\
             utxo (base c') = cache_utxo c /\ best (base c') = hashBlock c /\ hashBlock c' = hashBlock c.
Proof.
  intros Hc Hh. unfold Flush. destruct (flagged_entries_spec c Hc) as [Hb Ha].
  destruct (BatchWrite_law (base c) (flagged_entries c) (hashBlock c) (co_base _ Hc) Hb Hh) as (b & -> & Hok & Hu & Hbest).
  cbn [mbind option_bind]. pose proof (flagged_entries_fst c Hc) as Hfst.
  assert (Hlen : Z.of_nat (length (flagged_entries c)) = m_dirty_count c).
  { rewrite (lo_count _ _ _ (co_list _ Hc)), <- Hfst, length_map. reflexivity. }
  rewrite erasing_cursor; [|eapply Forall_impl; [apply flagged_entries_dirty, Hc|]; intros it [_ H]; exact H|cbn; lia].
  cbn. rewrite Hlen, Z.sub_diag. eexists. split; [reflexivity|]. rewrite Ha in Hu. split; [|split; [reflexivity|split; [|auto]]].
  - split; cbn; [exact Hok|apply map_Forall_empty|]. split; [constructor| |reflexivity]. intros o. split; [set_solver|].
    intros (e & E & _). rewrite lookup_empty in E. discriminate.
  - apply map_eq. intros o. rewrite (lookup_cache_utxo (set_cache _ _ _)). cbn. rewrite lookup_empty. cbn. rewrite Hu. reflexivity.
Qed.

(** Passing over the entries of a cursor that keeps the cache. *)
Lemma keeping_cursor (c : CCoinsViewCache B) entries :
  NoDup (map fst entries) -> flagged c = map fst entries -> m_dirty_count c = Z.of_nat (length entries) ->
  Forall (fun it => cacheCoins c !! it.1 = Some it.2 /\ IsDirty it.2 = true) entries ->
  let c' := foldl (NextAndMaybeErase false) c entries in
  base c' = base c /\ hashBlock c' = hashBlock c /\ flagged c' = [] /\ m_dirty_count c' = 0 /\
  forall o, cacheCoins c' !! o =
    if decide (o ∈ map fst entries)
    then match cacheCoins c !! o with Some e => if IsSpent (coin e) then None else Some (new_entry (coin e)) | None => None end
    else cacheCoins c !! o.
Proof.
  revert c. induction entries as [|[k e] entries IH]; intros c Hnd Hfl Hn Hd; cbn [foldl map fst length] in *.
  { repeat split; auto. }
  apply NoDup_cons in Hnd as [Hk Hnd]. apply Forall_cons in Hd as [[Ek He] Hd]. cbn in Ek, He.
  set (c1 := NextAndMaybeErase false c (k, e)).
  assert (Hc1 : base c1 = base c /\ hashBlock c1 = hashBlock c /\ flagged c1 = map fst entries /\
                m_dirty_count c1 = Z.of_nat (length entries) /\
                cacheCoins c1 = partial_alter (fun _ => if IsSpent (coin e) then None else Some (new_entry (coin e))) k (cacheCoins c)).
  { subst c1. unfold NextAndMaybeErase, count_sub. rewrite He. cbn [b2z]. rewrite dirty_TrySub by lia.
    assert (Hun : unlink (flagged c) k = map fst entries).
    { rewrite Hfl. unfold unlink. rewrite filter_cons_False by tauto. apply unlink_absent, Hk. }
    destruct (IsSpent (coin e)); [|unfold SetClean; cbn; rewrite Ek]; cbn; repeat split; auto; lia. }
  destruct Hc1 as (Hb & Hh & Hf1 & Hn1 & Hm1).
  destruct (IH c1 Hnd Hf1 Hn1) as (Hb' & Hh' & Hf' & Hn' & Hm').
  { apply Forall_forall. intros it Hit. rewrite Forall_forall in Hd. destruct (Hd it Hit) as [E Hdi]. split; [|exact Hdi]. rewrite Hm1, lookup_partial_alter_ne; [exact E|].
    intros ->. apply Hk. apply list_elem_of_fmap. eauto. }
  rewrite Hb', Hh', Hb, Hh. repeat split; auto. intros o. rewrite Hm', Hm1.
  destruct (decide (o = k)) as [->|Hne].
  - rewrite (decide_True (P := k ∈ k :: _)) by apply list_elem_of_here. rewrite decide_False by exact Hk.
    rewrite lookup_partial_alter_eq, Ek. reflexivity.
  - rewrite lookup_partial_alter_ne by congruence.
    destruct (decide (o ∈ map fst entries)) as [Ho|Ho]; [rewrite decide_True by (apply elem_of_cons; auto); reflexivity|].
    rewrite decide_False by (rewrite elem_of_cons; tauto). reflexivity.
Qed.

Lemma Sync_spec c :
  cache_ok c -> hashBlock c <> 0 ->
  exists c', Sync c = Some c' /\ cache_ok c' /\ cache_utxo c' = cache_utxo c /\ utxo (base c') = cache_utxo c /\
             best (base c') = hashBlock c /\ hashBlock c' = hashBlock c /\ m_dirty_count c' = 0.
Proof.
  intros Hc Hh. unfold Sync. destruct (flagged_entries_spec c Hc) as [Hb Ha].
  destruct (BatchWrite_law (base c) (flagged_entries c) (hashBlock c) (co_base _ Hc) Hb Hh) as (b & -> & Hok & Hu & Hbest).
  cbn [mbind option_bind]. rewrite Ha in Hu. pose proof (flagged_entries_fst c Hc) as Hfst.
  destruct (keeping_cursor (set_base c b) (flagged_entries c)) as (Hb' & Hh' & Hf' & Hn' & Hm'); cbn.
  { rewrite Hfst. apply Hc. }
  { symmetry. exact Hfst. }
  { rewrite (lo_count _ _ _ (co_list _ Hc)), <- Hfst, length_map. reflexivity. }
  { apply flagged_entries_dirty, Hc. }
  cbn in *. set (c' := foldl _ _ _) in *. rewrite Hf'. exists c'. split; [reflexivity|].
  assert (Hclean : map_Forall (fun o e => IsDirty e = false /\ IsFresh e = false /\ IsSpent (coin e) = false /\ utxo b !! o = Some (coin e)) (cacheCoins c')).
  { intros o e. rewrite Hm', Hfst, Hu, lookup_cache_utxo. destruct (decide (o ∈ flagged c)) as [Ho|Ho].
    - destruct (cacheCoins c !! o) as [e0|]; [|discriminate]. cbn. destruct (IsSpent (coin e0)) eqn:Es; [discriminate|].
      intros [= <-]. cbn. auto.
    - intros E. rewrite E. cbn. destruct (co_entries _ Hc o e E) as [Hs _ _].
      destruct (IsDirty e) eqn:Ed; [destruct Ho; apply (lo_dirty _ _ _ (co_list _ Hc)); eauto|].
      destruct (sane_clean e Hs Ed) as [Hsp Hf]. rewrite Hsp. auto. }
  split; [split|split].
  - rewrite Hb'. exact Hok.
  - intros o e E. destruct (Hclean o e E) as (Hd & Hf & Hsp & Hub). rewrite Hb'. split; [unfold entry_sane; rewrite Hsp, Hf; apply orb_true_r|congruence|auto].
  - rewrite Hf', Hn'. split; [constructor| |reflexivity]. intros o. split; [set_solver|]. intros (e & E & Hd).
    destruct (Hclean o e E) as (Hd' & _). congruence.
  - apply map_eq. intros o. rewrite lookup_cache_utxo, Hb', <- Hu. destruct (cacheCoins c' !! o) as [e|] eqn:E; [|reflexivity].
    destruct (Hclean o e E) as (_ & _ & Hsp & Hub). cbn. rewrite Hsp. auto.
  - rewrite Hb', Hu. auto.
Qed.

(** ** The other operations *)

Lemma Uncache_spec c o : cache_ok c -> same_cache c (Uncache c o).
Proof.
  intros Hc. unfold Uncache. destruct (cacheCoins c !! o) as [e|] eqn:E; [|apply same_cache_refl, Hc].
  destruct (IsDirty e) eqn:Ed; [apply same_cache_refl, Hc|].
  pose proof (cache_ok_erase c o Hc) as Hok. unfold dirty_at in Hok. rewrite E, Ed in Hok. cbn [b2z] in Hok.
  rewrite Z.sub_0_r in Hok. split; [destruct Hok; split; assumption|]. split; [|unfold same_base; auto].
  apply map_eq. intros x. rewrite lookup_cache_erase. destruct (decide (x = o)) as [->|]; [|reflexivity].
  destruct (co_entries _ Hc o e E) as [Hs _ Hcl]. rewrite lookup_cache_utxo, E. cbn.
  destruct (sane_clean e Hs Ed) as [-> _]. auto.
Qed.

Lemma Reset_spec c : cache_ok c -> cache_ok (Reset c) /\ cache_utxo (Reset c) = utxo (base c) /\ cache_best (Reset c) = best (base c).
Proof.
  intros Hc. split; [split; cbn; [apply Hc|apply map_Forall_empty|]|split; [|reflexivity]].
  - split; [constructor| |reflexivity]. intros o. split; [set_solver|]. intros (e & E & _). rewrite lookup_empty in E. discriminate.
  - apply map_eq. intros o. rewrite lookup_cache_utxo. cbn. rewrite lookup_empty. reflexivity.
Qed.

(** Loading a coin without checks is sound for a coin that is not cached. *)
Lemma EmplaceCoin_spec c o cn :
  cache_ok c -> IsSpent cn = false -> cacheCoins c !! o = None ->
  cache_ok (EmplaceCoinInternalDANGER c o cn) /\ cache_utxo (EmplaceCoinInternalDANGER c o cn) = <[o := cn]> (cache_utxo c).
Proof.
  intros Hc Hsp Hn. unfold EmplaceCoinInternalDANGER. rewrite Hn.
  assert (Heq : (let c := SetDirty (put c o (new_entry cn)) o in set_count c (m_dirty_count c + 1)) = put_dirty c o (mkEntry cn true false)).
  { unfold SetDirty, AddFlags, put, put_dirty, dirty_at. cbn. rewrite lookup_insert_eq, Hn. cbn. rewrite insert_insert_eq.
    unfold set_count. cbn. f_equal. lia. }
  cbv zeta in Heq |- *. rewrite Heq. destruct (cache_ok_put_dirty c o (mkEntry cn true false) Hc eq_refl) as [Hok Hu].
  { split; cbn; [unfold entry_sane; cbn; rewrite Hsp; reflexivity|discriminate|discriminate]. }
  split; [exact Hok|]. rewrite Hu. unfold write_coin. cbn. rewrite Hsp. reflexivity.
Qed.

Lemma SetBestBlock_spec c h :
  cache_ok c -> cache_ok (SetBestBlock c h) /\ cache_utxo (SetBestBlock c h) = cache_utxo c /\ hashBlock (SetBestBlock c h) = h.
Proof. intros [H1 H2 H3]. split; [split; assumption|]. split; reflexivity. Qed.

Lemma new_cache_ok b overlay : view_ok b -> cache_ok (new_cache b overlay) /\ cache_utxo (new_cache b overlay) = utxo b.
Proof.
  intros Hb. split; [split; cbn; [exact Hb|apply map_Forall_empty|]|].
  - split; [constructor| |reflexivity]. intros o. split; [set_solver|]. intros (e & E & _). rewrite lookup_empty in E. discriminate.
  - apply map_eq. intros o. rewrite lookup_cache_utxo. cbn. rewrite lookup_empty. reflexivity.
Qed.

(** The invariant implies every assertion of [SanityCheck]. *)
Lemma SanityCheck_ok c : cache_ok c -> SanityCheck c = true.
Proof.
  intros Hc. destruct (co_list _ Hc) as [Hnd Hdi Hn]. unfold SanityCheck. rewrite !andb_true_iff. repeat split.
  - apply forallb_forall. intros [o e] Hin. apply list_elem_of_In, elem_of_map_to_list in Hin. apply (co_entries _ Hc o e Hin).
  - apply forallb_forall. intros o Hin. apply list_elem_of_In, Hdi in Hin as (e & -> & He). exact He.
  - apply Z.eqb_eq. f_equal. rewrite <- (length_map fst). apply Permutation_length, NoDup_Permutation; [|exact Hnd|].
    + apply (NoDup_fmap_fst (filter (fun kv => IsDirty kv.2 = true) (map_to_list (cacheCoins c)))).
      * intros o e1 e2 H1 H2. apply list_elem_of_filter in H1 as [_ H1], H2 as [_ H2].
        apply elem_of_map_to_list in H1, H2. congruence.
      * apply NoDup_filter, NoDup_map_to_list.
    + intros o. rewrite Hdi. split.
      * intros Hin. apply list_elem_of_fmap in Hin as ([o' e] & -> & Hin). apply list_elem_of_filter in Hin as [He Hin].
        apply elem_of_map_to_list in Hin. cbn in *. eauto.
      * intros (e & E & He). apply list_elem_of_fmap. exists (o, e). split; [reflexivity|]. apply list_elem_of_filter.
        split; [exact He|]. apply elem_of_map_to_list, E.
  - apply Z.eqb_eq. auto.
Qed.
End CacheLaws.

(** A cache over a view that keeps its promises keeps them too. *)
#[export] Program Instance CCoinsViewCache_laws {B} `{!CCoinsView B} `{!CCoinsViewLaws B} : CCoinsViewLaws (CCoinsViewCache B) := {|
  utxo := cache_utxo;
  best := cache_best;
  view_ok := cache_ok
|}.
Next Obligation. intros B ? ? c o cn. apply cache_utxo_unspent. Qed.
Next Obligation.
  intros B ? ? c o Hc. destruct (cache_GetCoin_spec c o Hc) as (c' & E & H1 & H2 & H3 & _). exists c'. split; [exact E|]. split; auto.
Qed.
Next Obligation. intros B ? ? c o. apply cache_PeekCoin_spec. Qed.
Next Obligation.
  intros B ? ? c o Hc. destruct (cache_HaveCoin_spec c o Hc) as (c' & E & H1 & H2 & H3 & _). exists c'. split; [exact E|]. split; auto.
Qed.
Next Obligation.
  intros B ? ? c Hc. destruct (cache_GetBestBlock_spec c Hc) as (c' & E & H1 & H2 & H3). exists c'. split; [exact E|]. split; auto.
Qed.
Next Obligation. intros B ? ? c entries h. apply cache_BatchWrite_spec. Qed.

(** ** Operations on transactions *)

Section TxOps.
Context {B : Type} `{!CCoinsView B} `{!CCoinsViewLaws B}.
Implicit Types (c : CCoinsViewCache B).

Lemma HaveInputs_loop_spec c ins :
  cache_ok c ->
  exists c', HaveInputs_loop c ins = Some (c', forallb (fun i => bool_decide (is_Some (cache_utxo c !! prevout i))) ins) /\ same_cache c c'.
Proof.
  revert c. induction ins as [|i ins IH]; intros c Hc; cbn [HaveInputs_loop forallb]; [exists c; auto using same_cache_refl|].
  destruct (cache_HaveCoin_spec c (prevout i) Hc) as (c1 & -> & Hs). cbn [mbind option_bind].
  destruct (bool_decide _); [|exists c1; auto]. destruct (IH c1 (proj1 Hs)) as (c2 & -> & Hs2). exists c2.
  split; [|eapply same_cache_trans; eassumption]. destruct Hs as (_ & -> & _). reflexivity.
Qed.

(** The outputs of a transaction as coins, and their addition to a map. *)
Definition add_output (txid nHeight : Z) (fCoinbase : bool) (u : gmap COutPoint Coin) (io : nat * CTxOut) : gmap COutPoint Coin :=
  if IsUnspendable (scriptPubKey io.2) then u
  else <[mkOutPoint txid (u32 (Z.of_nat io.1)) := make_coin io.2 nHeight fCoinbase]> u.
Definition add_outputs (txid nHeight : Z) (fCoinbase : bool) (i : nat) (outs : list CTxOut) (u : gmap COutPoint Coin) :=
  foldl (add_output txid nHeight fCoinbase) u (zip (seq i (length outs)) outs).

Lemma add_outputs_cons txid h cb i o outs u :
  add_outputs txid h cb i (o :: outs) u = add_outputs txid h cb (S i) outs (add_output txid h cb u (i, o)).
Proof. reflexivity. Qed.

(** Without the check, an output that is present and not of a coinbase
    transaction would be an error; with it, every output is added. *)
Lemma AddCoins_loop_spec c txid cb h check i outs :
  cache_ok c -> Z.of_nat (i + length outs) <= 2 ^ 32 -> Forall (fun o => nValue o <> -1) outs ->
  (cb = false -> check = false -> forall j, (i <= j < i + length outs)%nat -> cache_utxo c !! mkOutPoint txid (Z.of_nat j) = None) ->
  exists c', AddCoins_loop c txid cb h check i outs = Some c' /\ cache_ok c' /\ hashBlock c' = hashBlock c /\
             cache_best c' = cache_best c /\ same_base c c' /\ cache_utxo c' = add_outputs txid h cb i outs (cache_utxo c).
Proof.
  intros Hc Hi Ho. revert c i Hc Hi. induction Ho as [|o outs Ho Hos IH]; intros c i Hc Hi Habs; cbn [AddCoins_loop length] in *.
  { exists c. unfold same_base. auto 10. }
  rewrite u32_id by (unfold is_u32; lia).
  assert (Hov : exists c1 ov, (if check then cache_HaveCoin c (mkOutPoint txid (Z.of_nat i)) else Some (c, cb)) = Some (c1, ov) /\
            same_cache c c1 /\ (ov = false -> cache_utxo c !! mkOutPoint txid (Z.of_nat i) = None)).
  { destruct check.
    - destruct (cache_HaveCoin_spec c (mkOutPoint txid (Z.of_nat i)) Hc) as (c1 & E & Hs). exists c1. eexists. split; [exact E|].
      split; [exact Hs|]. intros Hb. apply bool_decide_eq_false in Hb. apply eq_None_not_Some. exact Hb.
    - exists c, cb. split; [reflexivity|]. split; [apply same_cache_refl, Hc|]. intros Hcb. apply (Habs Hcb eq_refl). lia. }
  destruct Hov as (c1 & ov & -> & (H1 & Hu1 & Hb1 & Hh1 & Hs1) & Hov). cbn [mbind option_bind].
  destruct (AddCoin_spec c1 (mkOutPoint txid (Z.of_nat i)) (make_coin o h cb) ov H1) as (c2 & -> & H2 & Hh2 & Hb2 & Hu2).
  { unfold IsSpent, CTxOut_IsNull. cbn. apply Z.eqb_neq, Ho. }
  { rewrite Hu1. exact Hov. }
  cbn [mbind option_bind]. rewrite Hu1 in Hu2.
  destruct (IH c2 (S i) H2 ltac:(lia)) as (c3 & -> & H3 & Hh3 & Hb3 & Hs3 & Hu3).
  { intros Hcb Hck j Hj. rewrite Hu2. cbn [out make_coin]. specialize (Habs Hcb Hck j ltac:(lia)).
    destruct (IsUnspendable (scriptPubKey o)); [exact Habs|]. rewrite lookup_insert_ne; [exact Habs|].
    intros [= E]. lia. }
  exists c3. split; [reflexivity|]. split; [exact H3|]. split; [congruence|]. split.
  - rewrite Hb3. unfold cache_best. rewrite Hh2, Hb2, Hh1. unfold cache_best in Hb1. rewrite Hh1 in Hb1. exact Hb1.
  - split; [|clear Hs1 Hs3]. { eapply same_base_trans; [exact Hs1|]. destruct Hs3 as [E E']. split; rewrite ?E, ?E', Hb2; reflexivity. }
    rewrite Hu3, add_outputs_cons, Hu2. unfold add_output. cbn [fst snd out make_coin].
    rewrite u32_id by (unfold is_u32; lia). reflexivity.
Qed.
End TxOps.

(** ** Crashes *)

Lemma apply_batch_agree u u' entries :
  (forall o, o ∉ map fst entries -> u !! o = u' !! o) -> (Forall (fun it => IsDirty it.2 = true) entries) ->
  apply_batch u entries = apply_batch u' entries.
Proof.
  revert u u'. induction entries as [|[k e] entries IH]; intros u u' Hag Hd; cbn.
  - apply map_eq. intros o. apply Hag. apply not_elem_of_nil.
  - apply Forall_cons in Hd as [He Hd]. cbn in He. apply IH; [|exact Hd]. intros o Ho. unfold DB_write. cbn. rewrite He.
    destruct (decide (o = k)) as [->|Hne].
    + destruct (IsSpent (coin e)); [rewrite !lookup_delete_eq|rewrite !lookup_insert_eq]; reflexivity.
    + assert (Hag' : u !! o = u' !! o) by (apply Hag; cbn; rewrite elem_of_cons; tauto).
      destruct (IsSpent (coin e)); [rewrite !lookup_delete_ne by congruence|rewrite !lookup_insert_ne by congruence]; exact Hag'.
Qed.

Lemma DB_write_other u it o : o <> it.1 -> DB_write u it !! o = u !! o.
Proof.
  intros Hne. unfold DB_write. destruct (IsDirty it.2); [|reflexivity].
  destruct (IsSpent (coin it.2)); [apply lookup_delete_ne|apply lookup_insert_ne]; congruence.
Qed.

Lemma partial_states_agree split n u entries w o :
  w ∈ partial_states split n u entries -> o ∉ map fst entries -> w !! o = u !! o.
Proof.
  revert n u. induction entries as [|it entries IH]; intros n u Hw Ho; cbn in Hw; [apply elem_of_nil in Hw as []|].
  cbn in Ho. rewrite not_elem_of_cons in Ho. destruct Ho as [Hk Ho]. apply elem_of_app in Hw as [Hw|Hw].
  - destruct (split n); [apply list_elem_of_singleton in Hw as ->|apply elem_of_nil in Hw as []]. apply DB_write_other, Hk.
  - rewrite (IH _ _ Hw Ho). apply DB_write_other, Hk.
Qed.

(** ** The cache as an implementation of a map *)

Inductive cache_op :=
  | OpGetCoin (o : COutPoint)
  | OpPeekCoin (o : COutPoint)
  | OpHaveCoin (o : COutPoint)
  | OpAccessCoin (o : COutPoint)
  | OpAddCoin (o : COutPoint) (cn : Coin) (possible_overwrite : bool)
  | OpSpendCoin (o : COutPoint)
  | OpUncache (o : COutPoint)
  | OpSetBestBlock (h : Z)
  | OpGetBestBlock
  | OpFlush
  | OpSync
  | OpReset.
(** [Accessed] is the coin [AccessCoin] refers to, [Moved] what [SpendCoin]
    returns: [None] is [false], [Some cn] is [true] with [cn] moved out. *)
Inductive cache_answer :=
  | Done
  | TheCoin (cn : option Coin)
  | Yes (b : bool)
  | TheBlock (h : Z)
  | Accessed (cn : Coin)
  | Moved (r : option Coin).
(** The answers that may be given for one of the specification: the same one,
    except that where there is no coin, [AccessCoin] may refer to any spent
    coin and [SpendCoin] may return [true] and move out a spent coin. *)
Definition answer_ok (wanted given : cache_answer) : Prop :=
  given = wanted \/
  match wanted, given with
  | Accessed cn, Accessed cn' => IsSpent cn = true /\ IsSpent cn' = true
  | Moved None, Moved (Some cn) => IsSpent cn = true
  | _, _ => False
  end.

(** The specification: what the view and the view below hold, and the best
    block of each.  [None] is a use that the caller must not make: a spent
    coin, a promise of absence that is false, a flush with no best block. *)
Record map_view := mkView { here : gmap COutPoint Coin; below : gmap COutPoint Coin; here_best : Z; below_best : Z }.
Definition seen_best (s : map_view) : Z := if here_best s =? 0 then below_best s else here_best s.
Definition spec_op (op : cache_op) (s : map_view) : option (map_view * cache_answer) :=
  match op with
  | OpGetCoin o | OpPeekCoin o => Some (s, TheCoin (here s !! o))
  | OpAccessCoin o => Some (s, Accessed (default coinEmpty (here s !! o)))
  | OpHaveCoin o => Some (s, Yes (bool_decide (is_Some (here s !! o))))
  | OpAddCoin o cn po =>
      if IsSpent cn || (negb po && bool_decide (is_Some (here s !! o))) then None
      else Some (mkView (if IsUnspendable (scriptPubKey (out cn)) then here s else <[o := cn]> (here s))
                        (below s) (here_best s) (below_best s), Done)
  | OpSpendCoin o => Some (mkView (delete o (here s)) (below s) (here_best s) (below_best s), Moved (here s !! o))
  | OpUncache o => Some (s, Done)
  | OpSetBestBlock h => Some (mkView (here s) (below s) h (below_best s), Done)
  | OpGetBestBlock => Some (mkView (here s) (below s) (seen_best s) (below_best s), TheBlock (seen_best s))
  | OpFlush | OpSync =>
      if here_best s =? 0 then None else Some (mkView (here s) (here s) (here_best s) (here_best s), Done)
  | OpReset => Some (mkView (below s) (below s) 0 (below_best s), Done)
  end.

Section Simulation.
Context {B : Type} `{!CCoinsView B} `{!CCoinsViewLaws B}.
Implicit Types (c : CCoinsViewCache B).

Definition run_op (op : cache_op) c : option (CCoinsViewCache B * cache_answer) :=
  match op with
  | OpGetCoin o => '(c, r) ← cache_GetCoin c o; Some (c, TheCoin r)
  | OpPeekCoin o => r ← cache_PeekCoin c o; Some (c, TheCoin r)
  | OpHaveCoin o => '(c, b) ← cache_HaveCoin c o; Some (c, Yes b)
  | OpAccessCoin o => '(c, cn) ← AccessCoin c o; Some (c, Accessed cn)
  | OpAddCoin o cn po => c ← AddCoin c o cn po; Some (c, Done)
  | OpSpendCoin o => '(c, r) ← SpendCoin c o; Some (c, Moved r)
  | OpUncache o => Some (Uncache c o, Done)
  | OpSetBestBlock h => Some (SetBestBlock c h, Done)
  | OpGetBestBlock => let '(c, h) := cache_GetBestBlock c in Some (c, TheBlock h)
  | OpFlush => c ← Flush c; Some (c, Done)
  | OpSync => c ← Sync c; Some (c, Done)
  | OpReset => Some (Reset c, Done)
  end.
Fixpoint run_ops (ops : list cache_op) c : option (CCoinsViewCache B * list cache_answer) :=
  match ops with
  | [] => Some (c, [])
  | op :: ops => '(c, r) ← run_op op c; '(c, rs) ← run_ops ops c; Some (c, r :: rs)
  end.

Record simulates c (s : map_view) : Prop := {
  sim_ok : cache_ok c;
  sim_here : cache_utxo c = here s;
  sim_below : utxo (base c) = below s;
  sim_best : hashBlock c = here_best s;
  sim_below_best : best (base c) = below_best s
}.

(** Every operation that goes through [FetchCoin] starts from a cache that
    simulates the same state and has the entry in it. *)
Lemma fetch_simulates c s o :
  simulates c s ->
  exists c' it, FetchCoin c o = Some (c', it) /\ simulates c' s /\ cacheCoins c' !! o = it /\ visible it None = here s !! o.
Proof.
  intros [Hc Hh Hb Hx Hy]. destruct (FetchCoin_spec c o Hc) as (c' & it & E & (Hc' & Hu & _ & Hh' & E1 & E2) & Em & Hv). exists c', it. split; [exact E|]. split; [split; congruence|].
  split; [exact Em|congruence].
Qed.

Lemma answer_ok_refl r : answer_ok r r.
Proof. left. reflexivity. Qed.
Lemma access_simulates c s o :
  simulates c s -> exists c' cn, AccessCoin c o = Some (c', cn) /\ simulates c' s /\ answer_ok (Accessed (default coinEmpty (here s !! o))) (Accessed cn).
Proof.
  intros Hs. destruct (fetch_simulates c s o Hs) as (c' & it & E & Hs' & _ & Hv). unfold AccessCoin. rewrite E, <- Hv. cbn [mbind option_bind].
  eexists c', _. split; [reflexivity|]. split; [exact Hs'|]. destruct it as [e|]; cbn; [|apply answer_ok_refl].
  destruct (IsSpent (coin e)) eqn:Esp; [right; auto|apply answer_ok_refl].
Qed.
Lemma spend_simulates c s o :
  simulates c s ->
  exists c' r, SpendCoin c o = Some (c', r) /\ simulates c' (mkView (delete o (here s)) (below s) (here_best s) (below_best s)) /\
               answer_ok (Moved (here s !! o)) (Moved r).
Proof.
  intros [Hc Hh Hb Hx Hy]. destruct (SpendCoin_spec c o Hc) as (c' & q & E & Hc' & Hh' & _ & Hbase & Hu' & Hr).
  exists c', q. split; [exact E|]. split.
  - destruct Hbase. split; cbn; [exact Hc'|change (cache_utxo c' = delete o (here s))|..]; congruence.
  - rewrite <- Hh. destruct (cache_utxo c !! o) as [cn|]; [subst q; apply answer_ok_refl|].
    destruct Hr as [->|(cn & -> & Hsp)]; [apply answer_ok_refl|right; exact Hsp].
Qed.
Lemma add_simulates c s o cn po s' r :
  simulates c s -> spec_op (OpAddCoin o cn po) s = Some (s', r) -> exists c', run_op (OpAddCoin o cn po) c = Some (c', r) /\ simulates c' s'.
Proof.
  intros [Hc Hh Hb Hx Hy] E. cbn [spec_op run_op] in *. destruct (IsSpent cn) eqn:Esp; cbn [orb] in E; [discriminate|].
  destruct (negb po && bool_decide (is_Some (here s !! o))) eqn:Ep; [discriminate|]. injection E as <- <-.
  destruct (AddCoin_spec c o cn po Hc Esp) as (c' & -> & Hc' & Hh' & Hb' & Hu').
  { intros ->. cbn in Ep. apply bool_decide_eq_false, eq_None_not_Some in Ep. congruence. }
  exists c'. split; [reflexivity|]. split; cbn; [exact Hc'|rewrite Hu', Hh; reflexivity|congruence..].
Qed.
Lemma best_simulates c s :
  simulates c s ->
  exists c', cache_GetBestBlock c = (c', seen_best s) /\ simulates c' (mkView (here s) (below s) (seen_best s) (below_best s)).
Proof.
  intros [Hc Hh Hb Hx Hy]. unfold cache_GetBestBlock, seen_best. rewrite Hx. destruct (here_best s =? 0) eqn:E0.
  - destruct (GetBestBlock_law (base c) (co_base _ Hc)) as (b' & -> & Hsv). eexists. rewrite Hy. split; [reflexivity|].
    destruct (cache_ok_base c b' Hc Hsv) as ([A1 A2 A3] & Hu & _ & _). destruct Hsv as (_ & Hu2 & Hb2).
    split; cbn [here below here_best below_best]; [split; assumption|change (cache_utxo (set_base c b') = here s)|cbn..]; congruence.
  - exists c. split; [rewrite <- Hx; reflexivity|]. split; cbn; congruence || assumption.
Qed.

Lemma op_simulates op c s s' r :
  simulates c s -> spec_op op s = Some (s', r) -> exists c' r', run_op op c = Some (c', r') /\ answer_ok r r' /\ simulates c' s'.
Proof.
  intros Hs E.
  assert (Hexact : (exists c', run_op op c = Some (c', r) /\ simulates c' s') -> exists c' r', run_op op c = Some (c', r') /\ answer_ok r r' /\ simulates c' s').
  { intros (c' & H1 & H2). exists c', r. auto using answer_ok_refl. }
  pose proof Hs as [Hc Hh Hb Hx Hy]. destruct op; try (apply (add_simulates c s) in E; [apply Hexact, E|exact Hs]); cbn [spec_op run_op] in *.
  - apply Hexact. injection E as <- <-. destruct (fetch_simulates c s o Hs) as (c' & it & E & Hs' & _ & Hv). exists c'. unfold cache_GetCoin. rewrite E, <- Hv.
    split; [|exact Hs']. destruct it as [e|]; cbn; [destruct (IsSpent (coin e))|]; reflexivity.
  - apply Hexact. injection E as <- <-. exists c. rewrite (cache_PeekCoin_spec c o Hc), Hh. auto.
  - apply Hexact. injection E as <- <-. destruct (fetch_simulates c s o Hs) as (c' & it & E & Hs' & _ & Hv). exists c'. unfold cache_HaveCoin. rewrite E, <- Hv.
    split; [|exact Hs']. destruct it as [e|]; cbn; [destruct (IsSpent (coin e))|]; reflexivity.
  - injection E as <- <-. destruct (access_simulates c s o Hs) as (c' & cn & -> & H1 & H2). exists c', (Accessed cn). auto.
  - injection E as <- <-. destruct (spend_simulates c s o Hs) as (c' & q & -> & H1 & H2). exists c', (Moved q). auto.
  - apply Hexact. injection E as <- <-. eexists. split; [reflexivity|]. destruct (Uncache_spec c o Hc) as (Hc' & Hu' & _ & Hh' & _).
    split; cbn [here below here_best below_best]; [exact Hc'|congruence| |congruence|]; unfold Uncache; destruct (cacheCoins c !! o) as [e|]; try destruct (IsDirty e); assumption.
  - apply Hexact. injection E as <- <-. eexists. split; [reflexivity|]. destruct (SetBestBlock_spec c h Hc) as (Hc' & Hu' & _). split; cbn [here below here_best below_best]; [exact Hc'|congruence|exact Hb|reflexivity|exact Hy].
  - apply Hexact. injection E as <- <-. destruct (best_simulates c s Hs) as (c' & -> & H). exists c'. auto.
  - apply Hexact. destruct (here_best s =? 0) eqn:E0; [discriminate|]. injection E as <- <-.
    destruct (Flush_spec c Hc ltac:(rewrite Hx; apply Z.eqb_neq, E0)) as (c' & -> & Hc' & _ & Hu & Hub & Hbb & Hh').
    exists c'. split; [reflexivity|]. split; cbn; congruence || assumption.
  - apply Hexact. destruct (here_best s =? 0) eqn:E0; [discriminate|]. injection E as <- <-.
    destruct (Sync_spec c Hc ltac:(rewrite Hx; apply Z.eqb_neq, E0)) as (c' & -> & Hc' & Hu & Hub & Hbb & Hh' & _).
    exists c'. split; [reflexivity|]. split; cbn; congruence || assumption.
  - apply Hexact. injection E as <- <-. eexists. split; [reflexivity|]. destruct (Reset_spec c Hc) as (Hc' & Hu & Hbb).
    split; cbn; auto. change (cache_utxo (Reset c) = below s). congruence.
Qed.

Fixpoint spec_ops (ops : list cache_op) (s : map_view) : option (map_view * list cache_answer) :=
  match ops with
  | [] => Some (s, [])
  | op :: ops => '(s, r) ← spec_op op s; '(s, rs) ← spec_ops ops s; Some (s, r :: rs)
  end.
Lemma ops_simulate ops c s s' rs :
  simulates c s -> spec_ops ops s = Some (s', rs) ->
  exists c' rs', run_ops ops c = Some (c', rs') /\ Forall2 answer_ok rs rs' /\ simulates c' s'.
Proof.
  revert c s rs. induction ops as [|op ops IH]; intros c s rs Hs; cbn [spec_ops run_ops].
  - intros [= <- <-]. exists c, []. auto.
  - destruct (spec_op op s) as [[s1 r]|] eqn:E; [|discriminate]. cbn [mbind option_bind].
    destruct (op_simulates op c s s1 r Hs E) as (c1 & r1 & -> & Hr & Hs1). cbn [mbind option_bind].
    destruct (spec_ops ops s1) as [[s2 rs2]|] eqn:E2; [|discriminate]. cbn. intros [= <- <-].
    destruct (IH c1 s1 rs2 Hs1 E2) as (c2 & rs3 & -> & Hrs & Hs2). exists c2, (r1 :: rs3). auto.
Qed.

(** ** Claims *)

(** C10: A coins cache over any view that keeps its promises behaves like a
    map of unspent coins.  The uses the specification allows are all but
    three: adding a spent coin, adding a coin over an unspent one without
    [possible_overwrite], and a flush or sync before there is a best block.
    Every sequence of reads, peeks, accesses, additions, spends, uncachings,
    flushes, syncs and resets that it allows runs without an exception or a
    failed assertion; gives the answers of the map, with one freedom: where
    there is no coin, [AccessCoin] may refer to any spent coin, and
    [SpendCoin] may return [true] with a spent coin moved out instead of
    [false]; leaves what the base holds as specified (after a flush or a
    sync: everything); and ends in a state in which every assertion of
    [SanityCheck] holds. *)
Theorem coins_cache_refines (b : B) (overlay : bool) ops s' rs :
  view_ok b ->
  spec_ops ops (mkView (utxo b) (utxo b) 0 (best b)) = Some (s', rs) ->
  exists c' rs', run_ops ops (new_cache b overlay) = Some (c', rs') /\ Forall2 answer_ok rs rs' /\
                 utxo c' = here s' /\ utxo (base c') = below s' /\ best c' = seen_best s' /\ SanityCheck c' = true.
Proof.
  intros Hb E. destruct (new_cache_ok b overlay Hb) as [Hok Hu].
  assert (H0 : simulates (new_cache b overlay) (mkView (utxo b) (utxo b) 0 (best b))) by (split; [exact Hok|exact Hu|reflexivity..]).
  destruct (ops_simulate ops (new_cache b overlay) _ s' rs H0 E) as (c' & rs' & Er & Hrs & [Hc Hh Hbl Hx Hy]).
  exists c', rs'. split; [exact Er|]. split; [exact Hrs|]. split; [exact Hh|]. split; [exact Hbl|]. split; [|apply SanityCheck_ok, Hc].
  change (best c') with (cache_best c'). unfold cache_best, seen_best. rewrite Hx, Hy. reflexivity.
Qed.
End Simulation.

Definition demo_db : CCoinsViewDB := mkDB {[mkOutPoint 5 0 := mkCoin (mkTxOut 70 sample_v3) false 3]} (Some 11) None.
Definition demo_coin : Coin := mkCoin (mkTxOut 50 sample_v3) true 4.
Definition demo_ops : list cache_op :=
  [OpAddCoin (mkOutPoint 6 0) demo_coin false; OpSpendCoin (mkOutPoint 5 0); OpGetCoin (mkOutPoint 5 0); OpPeekCoin (mkOutPoint 6 0);
   OpSetBestBlock 12; OpSync; OpSpendCoin (mkOutPoint 6 0); OpSpendCoin (mkOutPoint 6 0); OpAddCoin (mkOutPoint 6 1) demo_coin false;
   OpSpendCoin (mkOutPoint 6 1); OpFlush; OpHaveCoin (mkOutPoint 6 0)].
(** Over a cache over the database.  The second spend of one coin is the one
    that is answered differently. *)
Lemma coins_cache_refines_witness :
  exists c' rs', run_ops demo_ops (new_cache (new_cache demo_db false) true) = Some (c', rs') /\
    Forall2 answer_ok
      [Done; Moved (Some (mkCoin (mkTxOut 70 sample_v3) false 3)); TheCoin None; TheCoin (Some demo_coin); Done; Done;
       Moved (Some demo_coin); Moved None; Done; Moved (Some demo_coin); Done; Yes false] rs' /\
    utxo c' = ∅ /\ utxo (base c') = ∅ /\ best c' = 12 /\ SanityCheck c' = true.
Proof.
  apply (coins_cache_refines (new_cache demo_db false) true demo_ops (mkView ∅ ∅ 12 12)).
  - assert (Hdb : db_ok demo_db) by (split; [apply map_Forall_singleton; reflexivity|reflexivity]).
    exact (proj1 (new_cache_ok demo_db false Hdb)).
  - vm_compute. reflexivity.
Defined.
Example second_spend_is_true :
  option_map (fun p => p.2 !! 7%nat) (run_ops demo_ops (new_cache (new_cache demo_db false) true)) = Some (Some (Moved (Some coinEmpty))).
Proof. vm_compute. reflexivity. Qed.

(** C18: A crash while a batch is written to the database loses nothing: whatever
    the points at which partial batches are written, every store that can be
    found on disk is the old one, the new one, or one that names the two
    blocks between which it was; and writing the batch again to any of them
    gives the new store. *)
Theorem flush_survives_crash (split : nat -> bool) (d d' crashed : CCoinsViewDB) entries h :
  Forall (fun it => IsDirty it.2 = true) entries ->
  db_heads d = None ->
  DB_BatchWrite d entries h = Some d' ->
  crashed ∈ DB_crash_states split d entries h ->
  DB_BatchWrite crashed entries h = Some d' /\
  (crashed = d \/ crashed = d' \/ (db_best crashed = None /\ db_heads crashed = Some (h, DB_GetBestBlock d))).
Proof.
  intros Hd Hheads Hw Hin. unfold DB_crash_states in Hin. rewrite Hw in Hin.
  assert (Hold : DB_old_tip d h = Some (DB_GetBestBlock d)).
  { unfold DB_old_tip. rewrite Hheads. destruct (DB_GetBestBlock d =? 0); reflexivity. }
  assert (Hh : h <> 0).
  { intros ->. discriminate. }
  assert (Hd' : d' = mkDB (apply_batch (db_coins d) entries) (Some h) None).
  { unfold DB_BatchWrite in Hw. rewrite (proj2 (Z.eqb_neq h 0) Hh), Hold in Hw. injection Hw as <-. reflexivity. }
  assert (Hagain : forall u b hd, DB_old_tip (mkDB u b hd) h <> None -> (forall o, o ∉ map fst entries -> u !! o = db_coins d !! o) ->
             DB_BatchWrite (mkDB u b hd) entries h = Some d').
  { intros u b hd Ht Hag. unfold DB_BatchWrite. rewrite (proj2 (Z.eqb_neq h 0) Hh).
    destruct (DB_old_tip (mkDB u b hd) h); [|done]. cbn. rewrite Hd'. do 2 f_equal. apply (apply_batch_agree u (db_coins d) entries Hag Hd). }
  rewrite Hold in Hin. apply elem_of_cons in Hin as [->|Hin]; [auto|]. apply elem_of_app in Hin as [Hin|Hin].
  - apply list_elem_of_fmap in Hin as (u & -> & Hu). split; [|right; right; auto]. apply Hagain.
    + unfold DB_old_tip. cbn. rewrite Z.eqb_refl. discriminate.
    + intros o Ho. exact (partial_states_agree split 0 (db_coins d) entries u o Hu Ho).
  - apply list_elem_of_singleton in Hin as ->. split; [|auto]. rewrite Hd'. rewrite Hd' in Hagain. apply Hagain.
    + unfold DB_old_tip. cbn. rewrite (proj2 (Z.eqb_neq h 0) Hh). discriminate.
    + intros o Ho. clear - Ho. generalize (db_coins d). induction entries as [|it entries IH]; intros u; [reflexivity|].
      cbn in Ho. rewrite not_elem_of_cons in Ho. cbn [apply_batch foldl]. fold (apply_batch (DB_write u it) entries).
      rewrite IH by apply Ho. apply DB_write_other, Ho.
Qed.
Definition demo_batch : list (COutPoint * CCoinsCacheEntry) :=
  [(mkOutPoint 5 0, mkEntry coinEmpty true false); (mkOutPoint 6 0, mkEntry demo_coin true true)].
Lemma flush_survives_crash_witness :
  let crashed := mkDB ∅ None (Some (12, 11)) in
  let d' := mkDB {[mkOutPoint 6 0 := demo_coin]} (Some 12) None in
  DB_BatchWrite crashed demo_batch 12 = Some d' /\
  (crashed = demo_db \/ crashed = d' \/ (db_best crashed = None /\ db_heads crashed = Some (12, 11))).
Proof.
  apply (flush_survives_crash (fun _ => true) demo_db _ _ demo_batch 12).
  - repeat constructor.
  - reflexivity.
  - vm_compute. reflexivity.
  - apply list_elem_of_In. vm_compute. right. left. reflexivity.
Defined.
