(* ===== verification/TxCheck.v ===== *)
(** * Transaction checks ([src/src/consensus/tx_check.cpp], [tx_verify.cpp])

    The context-free checks, the checks of the inputs against a coins view,
    lock times and the settlement levy.  A verdict is the result and the
    reject reason stored in [TxValidationState]; the debug text is left out.
    Reading coins goes through the cache, so the checks that do pass it on.
    [None] is an exception or a failed assertion. *)

From Stdlib Require Import String.
From stdpp Require Import gmap sorting.
From S2P Require Import Prelude ConsensusParams Levy BlockIndex Serialize Script Transaction Coins.

Local Open Scope Z_scope.

Inductive TxValidationResult :=
  | TX_RESULT_UNSET | TX_CONSENSUS | TX_INPUTS_NOT_STANDARD | TX_NOT_STANDARD | TX_MISSING_INPUTS | TX_PREMATURE_SPEND
  | TX_WITNESS_MUTATED | TX_WITNESS_STRIPPED | TX_CONFLICT | TX_MEMPOOL_POLICY | TX_NO_MEMPOOL | TX_RECONSIDERABLE | TX_UNKNOWN.
Inductive TxVerdict :=
  | TxValid
  | TxInvalid (result : TxValidationResult) (reject_reason : string).

(** ** Without context *)

Fixpoint check_values (outs : list CTxOut) (nValueOut : Z) : TxVerdict :=
  match outs with
  | [] => TxValid
  | txout :: outs =>
      if nValue txout <? 0 then TxInvalid TX_CONSENSUS "bad-txns-vout-negative"
      else if nValue txout >? MAX_MONEY then TxInvalid TX_CONSENSUS "bad-txns-vout-toolarge"
      else
        let nValueOut := i64 (nValueOut + nValue txout) in
        if negb (MoneyRange nValueOut) then TxInvalid TX_CONSENSUS "bad-txns-txouttotal-toolarge"
        else check_values outs nValueOut
  end.

Definition allowed_type (permit_v2_outputs : bool) (t : TxoutType) : bool :=
  match t with
  | WITNESS_V3_PQ | NULL_DATA => true
  | WITNESS_V2_PQ => permit_v2_outputs
  | _ => false
  end.
(** The counters [spendable_outputs], [below_floor], [zero_value]; [None] when
    an output is not allowed. *)
Fixpoint check_types (permit_v2_outputs : bool) (min_output_value : Z) (outs : list CTxOut)
    (spendable : Z) (below_floor zero_value : bool) : option (Z * bool * bool) :=
  match outs with
  | [] => Some (spendable, below_floor, zero_value)
  | txout :: outs =>
      let whichType := (Solver (scriptPubKey txout)).1 in
      if negb (allowed_type permit_v2_outputs whichType) then None
      else if decide (whichType = NULL_DATA)
      then check_types permit_v2_outputs min_output_value outs spendable below_floor zero_value
      else check_types permit_v2_outputs min_output_value outs (u64 (spendable + 1))
             (below_floor || (nValue txout <? min_output_value)) (zero_value || (nValue txout <? 1))
  end.

Fixpoint has_duplicate (ins : list CTxIn) (vInOutPoints : gset COutPoint) : bool :=
  match ins with
  | [] => false
  | i :: ins =>
      if decide (prevout i ∈ vInOutPoints) then true
      else has_duplicate ins ({[prevout i]} ∪ vInOutPoints)
  end.

Definition CheckTransaction (tx : CTransaction) (permit_v2_outputs : bool) (min_output_value : Z) : TxVerdict :=
  if (match vin tx with [] => true | _ => false end) then TxInvalid TX_CONSENSUS "bad-txns-vin-empty"
  else if (match vout tx with [] => true | _ => false end) then TxInvalid TX_CONSENSUS "bad-txns-vout-empty"
  else if u64 (GetSerializeSize TX_NO_WITNESS tx * WITNESS_SCALE_FACTOR) >? MAX_BLOCK_WEIGHT
  then TxInvalid TX_CONSENSUS "bad-txns-oversize"
  else match check_values (vout tx) 0 with
  | TxInvalid r reason => TxInvalid r reason
  | TxValid =>
  match check_types permit_v2_outputs min_output_value (vout tx) 0 false false with
  | None => TxInvalid TX_CONSENSUS "bad-txout-not-pq"
  | Some (spendable_outputs, below_floor, zero_value) =>
      if (min_output_value >? 0) && below_floor &&
         negb (IsCoinBase tx && (spendable_outputs =? 1) && negb zero_value)
      then TxInvalid TX_CONSENSUS "bad-txout-below-min"
      else if has_duplicate (vin tx) ∅ then TxInvalid TX_CONSENSUS "bad-txns-inputs-duplicate"
      else if IsCoinBase tx then
        let n := match vin tx with [] => 0 | i :: _ => size (scriptSig i) end in
        if (n <? 2) || (n >? 100) then TxInvalid TX_CONSENSUS "bad-cb-length" else TxValid
      else if existsb (fun i => COutPoint_IsNull (prevout i)) (vin tx)
      then TxInvalid TX_CONSENSUS "bad-txns-prevout-null"
      else TxValid
  end
  end.

(** ** Lock times *)

Definition LOCKTIME_THRESHOLD : Z := 500000000.
Definition IsFinalTx (tx : CTransaction) (nBlockHeight nBlockTime : Z) : bool :=
  if nLockTime tx =? 0 then true
  else if nLockTime tx <? (if nLockTime tx <? LOCKTIME_THRESHOLD then nBlockHeight else nBlockTime) then true
  else forallb (fun i => nSequence i =? SEQUENCE_FINAL) (vin tx).

Definition LOCKTIME_VERIFY_SEQUENCE : Z := 1.

(** The loop over the inputs; the third component is [prevHeights] after it. *)
Fixpoint sequence_locks_loop (m : BlockMap) (block : Z) (ins : list CTxIn) (prevHeights : list Z) (nMinHeight nMinTime : Z)
    : option (Z * Z * list Z) :=
  match ins, prevHeights with
  | txin :: ins, nCoinHeight :: prevHeights =>
      if negb (Z.land (nSequence txin) SEQUENCE_LOCKTIME_DISABLE_FLAG =? 0) then
        '(h, t, hs) ← sequence_locks_loop m block ins prevHeights nMinHeight nMinTime; Some (h, t, 0 :: hs)
      else if negb (Z.land (nSequence txin) SEQUENCE_LOCKTIME_TYPE_FLAG =? 0) then
        a ← GetAncestor m block (Z.max (i32 (nCoinHeight - 1)) 0);
        a ← a;
        nCoinTime ← GetMedianTimePast m a;
        let v := u32 (Z.shiftl (Z.land (nSequence txin) SEQUENCE_LOCKTIME_MASK) SEQUENCE_LOCKTIME_GRANULARITY) in
        let nMinTime := Z.max nMinTime (i64 (i64 (nCoinTime + v) - 1)) in
        '(h, t, hs) ← sequence_locks_loop m block ins prevHeights nMinHeight nMinTime; Some (h, t, nCoinHeight :: hs)
      else
        let nMinHeight := Z.max nMinHeight (i32 (i32 (nCoinHeight + Z.land (nSequence txin) SEQUENCE_LOCKTIME_MASK) - 1)) in
        '(h, t, hs) ← sequence_locks_loop m block ins prevHeights nMinHeight nMinTime; Some (h, t, nCoinHeight :: hs)
  | _, _ => Some (nMinHeight, nMinTime, prevHeights)
  end.
Definition CalculateSequenceLocks (m : BlockMap) (tx : CTransaction) (flags : Z) (prevHeights : list Z) (block : Z)
    : option (Z * Z * list Z) :=
  if negb (size prevHeights =? size (vin tx)) then None
  else if negb ((tx_version tx >=? 2) && negb (Z.land flags LOCKTIME_VERIFY_SEQUENCE =? 0)) then Some (-1, -1, prevHeights)
  else sequence_locks_loop m block (vin tx) prevHeights (-1) (-1).
Definition EvaluateSequenceLocks (m : BlockMap) (block : Z) (lockPair : Z * Z) : option bool :=
  b ← m !! block;
  prev ← pprev b;
  nBlockTime ← GetMedianTimePast m prev;
  Some (negb ((lockPair.1 >=? nHeight b) || (lockPair.2 >=? nBlockTime))).
Definition SequenceLocks (m : BlockMap) (tx : CTransaction) (flags : Z) (prevHeights : list Z) (block : Z) : option bool :=
  '(h, t, _) ← CalculateSequenceLocks m tx flags prevHeights block;
  EvaluateSequenceLocks m block (h, t).

(** ** Against the coins view *)

Section Inputs.
Context {B : Type} `{!CCoinsView B}.
Implicit Type c : CCoinsViewCache B.

(** [unsigned int] sums *)
Definition GetLegacySigOpCount (tx : CTransaction) : Z :=
  let n := foldl (fun n i => u32 (n + GetSigOpCount (scriptSig i) false)) 0 (vin tx) in
  foldl (fun n o => u32 (n + GetSigOpCount (scriptPubKey o) false)) n (vout tx).

Fixpoint GetP2SHSigOpCount_loop c (ins : list CTxIn) (nSigOps : Z) : option (CCoinsViewCache B * Z) :=
  match ins with
  | [] => Some (c, nSigOps)
  | i :: ins =>
      '(c, cn) ← AccessCoin c (prevout i);
      if IsSpent cn then None else
      GetP2SHSigOpCount_loop c ins
        (if IsPayToScriptHash (scriptPubKey (out cn))
         then u32 (nSigOps + GetSigOpCount_p2sh (scriptPubKey (out cn)) (scriptSig i)) else nSigOps)
  end.
Definition GetP2SHSigOpCount c (tx : CTransaction) : option (CCoinsViewCache B * Z) :=
  if IsCoinBase tx then Some (c, 0) else GetP2SHSigOpCount_loop c (vin tx) 0.

Fixpoint witness_sigops_loop c (ins : list CTxIn) (flags nSigOps : Z) : option (CCoinsViewCache B * Z) :=
  match ins with
  | [] => Some (c, nSigOps)
  | i :: ins =>
      '(c, cn) ← AccessCoin c (prevout i);
      if IsSpent cn then None else
      n ← CountWitnessSigOps (scriptSig i) (scriptPubKey (out cn)) (scriptWitness i) flags;
      witness_sigops_loop c ins flags (i64 (nSigOps + n))
  end.
Definition GetTransactionSigOpCost c (tx : CTransaction) (flags : Z) : option (CCoinsViewCache B * Z) :=
  let nSigOps := u32 (GetLegacySigOpCount tx * WITNESS_SCALE_FACTOR) in
  if IsCoinBase tx then Some (c, nSigOps)
  else
    '(c, nSigOps) ← (if Z.testbit flags SCRIPT_VERIFY_P2SH_bit
                     then '(c, n) ← GetP2SHSigOpCount c tx; Some (c, i64 (nSigOps + u32 (n * WITNESS_SCALE_FACTOR)))
                     else Some (c, nSigOps));
    witness_sigops_loop c (vin tx) flags nSigOps.

(** The sum of the input values, or the verdict of the first bad input. *)
Fixpoint CheckTxInputs_loop c (ins : list CTxIn) (nSpendHeight coinbase_maturity nValueIn : Z)
    : option (CCoinsViewCache B * (TxVerdict + Z)) :=
  match ins with
  | [] => Some (c, inr nValueIn)
  | i :: ins =>
      '(c, cn) ← AccessCoin c (prevout i);
      if IsSpent cn then None
      else if fCoinBase cn && (i32 (nSpendHeight - coin_nHeight cn) <? coinbase_maturity)
      then Some (c, inl (TxInvalid TX_PREMATURE_SPEND "bad-txns-premature-spend-of-coinbase"))
      else
        let nValueIn := i64 (nValueIn + nValue (out cn)) in
        if negb (MoneyRange (nValue (out cn))) || negb (MoneyRange nValueIn)
        then Some (c, inl (TxInvalid TX_CONSENSUS "bad-txns-inputvalues-outofrange"))
        else CheckTxInputs_loop c ins nSpendHeight coinbase_maturity nValueIn
  end.
(** The verdict, or the fee. *)
Definition CheckTxInputs c (tx : CTransaction) (nSpendHeight coinbase_maturity : Z)
    : option (CCoinsViewCache B * (TxVerdict + Z)) :=
  '(c, have) ← HaveInputs c tx;
  if negb have then Some (c, inl (TxInvalid TX_MISSING_INPUTS "bad-txns-inputs-missingorspent")) else
  '(c, r) ← CheckTxInputs_loop c (vin tx) nSpendHeight coinbase_maturity 0;
  match r with
  | inl v => Some (c, inl v)
  | inr nValueIn =>
      value_out ← GetValueOut tx;
      if nValueIn <? value_out then Some (c, inl (TxInvalid TX_CONSENSUS "bad-txns-in-belowout"))
      else
        let txfee_aux := i64 (nValueIn - value_out) in
        if negb (MoneyRange txfee_aux) then Some (c, inl (TxInvalid TX_CONSENSUS "bad-txns-fee-outofrange"))
        else Some (c, inr txfee_aux)
  end.
End Inputs.

Definition CheckSettlementLevy (tx : CTransaction) (txfee : Z) (rule : SettlementLevyRule) : option TxVerdict :=
  if IsCoinBase tx then Some TxValid
  else
    value_out ← GetValueOut tx;
    let levy := SettlementLevy_rule value_out rule in
    if txfee <? levy then Some (TxInvalid TX_CONSENSUS "bad-txns-levy") else Some TxValid.

(** ** Values *)

Definition total (outs : list CTxOut) : Z := foldr (fun o s => nValue o + s) 0 outs.
Definition in_range (outs : list CTxOut) : Prop := Forall (fun o => 0 <= nValue o <= MAX_MONEY) outs.

Lemma total_nonneg outs : in_range outs -> 0 <= total outs.
Proof. unfold total. induction 1 as [|o outs Ho _ IH]; cbn [foldr]; lia. Qed.
Lemma in_range_cons o outs : in_range (o :: outs) <-> 0 <= nValue o <= MAX_MONEY /\ in_range outs.
Proof. unfold in_range. rewrite Forall_cons. reflexivity. Qed.
Lemma i64_money x y : 0 <= x <= MAX_MONEY -> 0 <= y <= MAX_MONEY -> i64 (x + y) = x + y.
Proof. intros Hx Hy. apply i64_id. unfold is_i64, MAX_MONEY, COIN in *. lia. Qed.
Lemma MoneyRange_dec v : reflect (0 <= v <= MAX_MONEY) (MoneyRange v).
Proof. apply iff_reflect. symmetry. apply MoneyRange_spec. Qed.

Lemma check_values_spec outs acc :
  0 <= acc <= MAX_MONEY -> check_values outs acc = TxValid <-> in_range outs /\ acc + total outs <= MAX_MONEY.
Proof.
  revert acc. induction outs as [|o outs IH]; intros acc Ha; cbn [check_values total foldr].
  { split; [intros _; split; [constructor|lia]|auto]. }
  destruct (Z.ltb_spec (nValue o) 0) as [|H0].
  { split; [discriminate|]. intros [Hr _]. apply Forall_cons in Hr as [? _]. lia. }
  destruct (Z.gtb_spec (nValue o) MAX_MONEY) as [|H1].
  { split; [discriminate|]. intros [Hr _]. apply Forall_cons in Hr as [? _]. lia. }
  cbv zeta. rewrite i64_money by lia. fold (total outs). destruct (MoneyRange_dec (acc + nValue o)) as [Hm|Hm]; cbn [negb].
  - rewrite IH by exact Hm. unfold in_range. rewrite Forall_cons. intuition lia.
  - split; [discriminate|]. intros [Hr Ht]. apply Forall_cons in Hr as [_ Hr]. pose proof (total_nonneg outs Hr). lia.
Qed.

Lemma GetValueOut_loop_spec outs acc v :
  0 <= acc <= MAX_MONEY ->
  GetValueOut_loop outs acc = Some v <-> in_range outs /\ acc + total outs <= MAX_MONEY /\ v = acc + total outs.
Proof.
  revert acc. induction outs as [|o outs IH]; intros acc Ha; cbn [GetValueOut_loop total foldr].
  { rewrite Z.add_0_r. split; [intros [= <-]; split; [constructor|lia]|intros (_ & _ & ->); reflexivity]. }
  fold (total outs). unfold in_range. rewrite Forall_cons.
  destruct (MoneyRange_dec (nValue o)) as [Ho|Ho]; cbn [negb orb].
  - rewrite i64_money by assumption. destruct (MoneyRange_dec (acc + nValue o)) as [Hm|Hm]; cbn [negb].
    + rewrite IH by exact Hm. fold (in_range outs). rewrite Z.add_assoc. tauto.
    + split; [discriminate|]. intros ([_ Hr] & Ht & _). pose proof (total_nonneg outs Hr). lia.
  - split; [discriminate|]. tauto.
Qed.

Lemma GetValueOut_spec tx v :
  GetValueOut tx = Some v <-> in_range (vout tx) /\ total (vout tx) <= MAX_MONEY /\ v = total (vout tx).
Proof.
  unfold GetValueOut. assert (H0 : 0 <= 0 <= MAX_MONEY) by (unfold MAX_MONEY, COIN; lia). split.
  - destruct (GetValueOut_loop (vout tx) 0) as [x|] eqn:E; [|discriminate]. apply (GetValueOut_loop_spec _ _ _ H0) in E as (Hr & Ht & ->).
    cbn. destruct (MoneyRange _); [|discriminate]. intros [= <-]. auto.
  - intros (Hr & Ht & ->). rewrite (proj2 (GetValueOut_loop_spec (vout tx) 0 (0 + total (vout tx)) H0)) by auto.
    cbn. rewrite (proj2 (MoneyRange_spec _)); [reflexivity|]. pose proof (total_nonneg _ Hr). lia.
Qed.

(** ** Output types and the floor *)

Definition out_type (o : CTxOut) : TxoutType := (Solver (scriptPubKey o)).1.
Definition carries_data (o : CTxOut) : bool := bool_decide (out_type o = NULL_DATA).
Definition spendable (outs : list CTxOut) : list CTxOut := filter (fun o => carries_data o = false) outs.
Definition all_allowed (permit_v2_outputs : bool) (outs : list CTxOut) : Prop :=
  Forall (fun o => allowed_type permit_v2_outputs (out_type o) = true) outs.

Lemma check_types_spec permit min outs n b z :
  0 <= n -> n + size outs < 2 ^ 64 ->
  match check_types permit min outs n b z with
  | Some (n', b', z') =>
      all_allowed permit outs /\ n' = n + size (spendable outs) /\
      b' = b || existsb (fun o => nValue o <? min) (spendable outs) /\
      z' = z || existsb (fun o => nValue o <? 1) (spendable outs)
  | None => ~ all_allowed permit outs
  end.
Proof.
  revert n b z. induction outs as [|o outs IH]; intros n b z Hn Hl; cbn [check_types].
  { change (spendable []) with (@nil CTxOut). cbn [existsb]. rewrite !orb_false_r. split; [constructor|].
    unfold size. cbn [length]. split; [lia|auto]. }
  assert (Hall : all_allowed permit (o :: outs) <-> allowed_type permit (out_type o) = true /\ all_allowed permit outs) by (unfold all_allowed; rewrite Forall_cons; reflexivity).
  assert (Hsz : size (o :: outs) = size outs + 1 /\ 0 <= size outs) by (unfold size; cbn [length]; lia). fold (out_type o).
  destruct (allowed_type permit (out_type o)) eqn:Ea; cbn [negb]; [|rewrite Hall; intros [H _]; discriminate].
  assert (Hsp : spendable (o :: outs) = if decide (out_type o = NULL_DATA) then spendable outs else o :: spendable outs).
  { unfold spendable, carries_data. rewrite filter_cons.
    destruct (decide (out_type o = NULL_DATA)) as [En|En]; [rewrite bool_decide_true by exact En|rewrite bool_decide_false by exact En];
      [rewrite decide_False by discriminate|rewrite decide_True by reflexivity]; reflexivity. }
  destruct (decide (out_type o = NULL_DATA)) as [En|En].
  - specialize (IH n b z Hn ltac:(lia)). destruct (check_types permit min outs n b z) as [[[n' b'] z']|]; rewrite Hall, ?Hsp; tauto.
  - rewrite u64_id by (unfold is_u64; lia).
    specialize (IH (n + 1) (b || (nValue o <? min)) (z || (nValue o <? 1)) ltac:(lia) ltac:(lia)).
    destruct (check_types permit min outs (n + 1) _ _) as [[[n' b'] z']|]; rewrite Hall, ?Hsp; [|tauto].
    destruct IH as (H1 & H2 & H3 & H4). cbn [existsb]. rewrite !orb_assoc. split; [auto|]. split; [|auto].
    rewrite H2. unfold size. cbn [length]. lia.
Qed.

Lemma has_duplicate_spec ins (seen : gset COutPoint) :
  has_duplicate ins seen = false <-> NoDup (map prevout ins) /\ forall i, i ∈ ins -> prevout i ∉ seen.
Proof.
  revert seen. induction ins as [|i ins IH]; intros seen; cbn [has_duplicate map].
  { split; [intros _; split; [constructor|set_solver]|auto]. }
  destruct (decide (prevout i ∈ seen)) as [Hi|Hi].
  - split; [discriminate|]. intros [_ H]. destruct (H i); [apply list_elem_of_here|exact Hi].
  - rewrite IH, NoDup_cons. split.
    + intros [Hn Hs]. split; [split; [|exact Hn]|].
      * intros Hin. apply list_elem_of_fmap in Hin as (j & E & Hj). apply (Hs j Hj). rewrite <- E. set_solver.
      * intros j Hj. apply elem_of_cons in Hj as [->|Hj]; [exact Hi|]. specialize (Hs j Hj). set_solver.
    + intros [[Hni Hn] Hs]. split; [exact Hn|]. intros j Hj Hin. apply elem_of_union in Hin as [Hin|Hin].
      * apply elem_of_singleton in Hin. apply Hni, list_elem_of_fmap. exists j. auto.
      * apply (Hs j); [apply elem_of_cons; auto|exact Hin].
Qed.

(** What [CheckTransaction] accepts. *)
Record tx_well_formed (tx : CTransaction) (permit_v2_outputs : bool) (min_output_value : Z) : Prop := {
  wf_vin : vin tx <> [];
  wf_vout : vout tx <> [];
  wf_size : u64 (GetSerializeSize TX_NO_WITNESS tx * WITNESS_SCALE_FACTOR) <= MAX_BLOCK_WEIGHT;
  wf_values : in_range (vout tx);
  wf_total : total (vout tx) <= MAX_MONEY;
  wf_types : all_allowed permit_v2_outputs (vout tx);
  wf_floor : 0 < min_output_value ->
    Forall (fun o => min_output_value <= nValue o) (spendable (vout tx)) \/
    (IsCoinBase tx = true /\ exists o, spendable (vout tx) = [o] /\ 1 <= nValue o);
  wf_nodup : NoDup (map prevout (vin tx));
  wf_coinbase : IsCoinBase tx = true -> Forall (fun i => 2 <= size (scriptSig i) <= 100) (vin tx);
  wf_prevouts : IsCoinBase tx = false -> Forall (fun i => COutPoint_IsNull (prevout i) = false) (vin tx)
}.

Lemma existsb_ltb_false min outs : existsb (fun o => nValue o <? min) outs = false <-> Forall (fun o => min <= nValue o) outs.
Proof.
  induction outs as [|o outs IH]; cbn; [split; [constructor|reflexivity]|]. rewrite Forall_cons, orb_false_iff, IH, Z.ltb_ge. reflexivity.
Qed.

Lemma floor_rule tx min :
  let outs := spendable (vout tx) in
  ((min >? 0) && existsb (fun o => nValue o <? min) outs &&
   negb (IsCoinBase tx && (size outs =? 1) && negb (existsb (fun o => nValue o <? 1) outs))) = false <->
  (0 < min -> Forall (fun o => min <= nValue o) outs \/ (IsCoinBase tx = true /\ exists o, outs = [o] /\ 1 <= nValue o)).
Proof.
  cbv zeta. set (outs := spendable (vout tx)). pose proof (existsb_ltb_false min outs) as Hm. pose proof (existsb_ltb_false 1 outs) as H1.
  destruct (Z.gtb_spec min 0) as [Hp|Hp]; cbn [andb]; [|split; [intros _ ?; lia|reflexivity]].
  destruct (existsb (fun o => nValue o <? min) outs); cbn [andb]; [|split; [left; apply Hm; reflexivity|reflexivity]].
  rewrite negb_false_iff, !andb_true_iff, negb_true_iff. split.
  - intros ((Hc & Hs) & Hz) _. right. split; [exact Hc|]. apply H1 in Hz. apply Z.eqb_eq in Hs. unfold size in Hs.
    destruct outs as [|o [|]]; cbn [length] in Hs; try lia. exists o. split; [reflexivity|]. rewrite Forall_singleton in Hz. exact Hz.
  - intros H. destruct (H ltac:(lia)) as [Hf|(Hc & o & Eo & Ho)]; [apply Hm in Hf; discriminate|]. rewrite Eo. cbn.
    split; [split; [exact Hc|reflexivity]|]. apply orb_false_iff. split; [lia|reflexivity].
Qed.

Lemma coinbase_one tx : IsCoinBase tx = true -> exists i, vin tx = [i] /\ COutPoint_IsNull (prevout i) = true.
Proof. unfold IsCoinBase. destruct (vin tx) as [|i [|]]; try discriminate. eauto. Qed.

Lemma CheckTransaction_spec tx permit min :
  size (vout tx) < 2 ^ 64 -> CheckTransaction tx permit min = TxValid <-> tx_well_formed tx permit min.
Proof.
  intros Hl. assert (H0 : 0 <= 0 <= MAX_MONEY) by (unfold MAX_MONEY, COIN; lia).
  pose proof (check_values_spec (vout tx) 0 H0) as Hv. pose proof (check_types_spec permit min (vout tx) 0 false false ltac:(lia) ltac:(lia)) as Ht.
  pose proof (has_duplicate_spec (vin tx) ∅) as Hd. pose proof (floor_rule tx min) as Hf. cbv zeta in Hf.
  unfold CheckTransaction. destruct (match vin tx with [] => true | _ => false end) eqn:Ei.
  { split; [discriminate|]. intros [H]. destruct (vin tx); [congruence|discriminate]. }
  destruct (match vout tx with [] => true | _ => false end) eqn:Eo.
  { split; [discriminate|]. intros [_ H]. destruct (vout tx); [congruence|discriminate]. }
  destruct (Z.gtb_spec (u64 (GetSerializeSize TX_NO_WITNESS tx * WITNESS_SCALE_FACTOR)) MAX_BLOCK_WEIGHT) as [Hsz|Hsz].
  { split; [discriminate|]. intros [_ _ H]. lia. }
  destruct (check_values (vout tx) 0) as [|r reason].
  2: { split; [discriminate|]. intros [_ _ _ H1 H2]. discriminate (proj2 Hv (conj H1 H2)). }
  destruct (proj1 Hv eq_refl) as [Hr Htot].
  destruct (check_types permit min (vout tx) 0 false false) as [[[n b] z]|].
  2: { split; [discriminate|]. intros []. contradiction. }
  destruct Ht as (Ha & -> & -> & ->). cbn [orb]. rewrite Z.add_0_l.
  match goal with |- context [if ?x then _ else _] => destruct x eqn:Efl end.
  { split; [discriminate|]. intros []. assert (E : true = false) by (apply Hf; assumption). discriminate E. }
  destruct (has_duplicate (vin tx) ∅) eqn:Edup.
  { split; [discriminate|]. intros []. assert (E : true = false); [|discriminate E]. apply Hd. split; [assumption|]. intros. apply not_elem_of_empty. }
  pose proof (proj1 Hd eq_refl) as [Hnd _]. pose proof (proj1 Hf eq_refl) as Hfloor.
  assert (Hi : vin tx <> []) by (destruct (vin tx); [discriminate|done]). assert (Ho : vout tx <> []) by (destruct (vout tx); [discriminate|done]).
  assert (Hmk : (IsCoinBase tx = true -> Forall (fun i => 2 <= size (scriptSig i) <= 100) (vin tx)) ->
    (IsCoinBase tx = false -> Forall (fun i => COutPoint_IsNull (prevout i) = false) (vin tx)) -> tx_well_formed tx permit min)
    by (intros; split; auto).
  clear Hfloor Hf. destruct (IsCoinBase tx) eqn:Ec.
  - destruct (coinbase_one tx Ec) as (i & Evin & _). rewrite Evin. cbv zeta.
    destruct ((size (scriptSig i) <? 2) || (size (scriptSig i) >? 100)) eqn:El; (split; [try discriminate|]).
    + intros []. rewrite Evin in *. specialize (wf_coinbase0 Ec). rewrite Forall_singleton in wf_coinbase0. lia.
    + intros _. apply Hmk; [|discriminate]. intros _. rewrite Evin. apply Forall_singleton. lia.
    + reflexivity.
  - destruct (existsb (fun i => COutPoint_IsNull (prevout i)) (vin tx)) eqn:En; (split; [try discriminate|]).
    + intros []. specialize (wf_prevouts0 Ec). apply existsb_exists in En as (i & Hin & Hn). apply list_elem_of_In in Hin.
      rewrite Forall_forall in wf_prevouts0. rewrite (wf_prevouts0 i Hin) in Hn. discriminate.
    + intros _. apply Hmk; [discriminate|]. intros _. apply Forall_forall. intros i Hin. apply list_elem_of_In in Hin.
      destruct (COutPoint_IsNull (prevout i)) eqn:E; [|reflexivity]. rewrite <- En. symmetry. apply existsb_exists. eauto.
    + reflexivity.
Qed.

(** ** Inputs *)

(** The coins a list of inputs spends, where all of them exist. *)
Definition input_coins (u : gmap COutPoint Coin) (ins : list CTxIn) : option (list Coin) := mapM (fun i => u !! prevout i) ins.
Definition mature (nSpendHeight coinbase_maturity : Z) (cn : Coin) : Prop :=
  fCoinBase cn = true -> coinbase_maturity <= nSpendHeight - coin_nHeight cn.
(** A verdict that is not about missing inputs. *)
Definition rejects (r : TxVerdict + Z) : Prop :=
  forall v, r = inl v -> exists res reason, v = TxInvalid res reason /\ res <> TX_MISSING_INPUTS.
(** Heights fit the 31 bits a coin has for them. *)
Definition heights_ok (u : gmap COutPoint Coin) : Prop := map_Forall (fun _ cn => 0 <= coin_nHeight cn < 2 ^ 31) u.

Lemma input_coins_forallb u ins :
  forallb (fun i => bool_decide (is_Some (u !! prevout i))) ins = bool_decide (is_Some (input_coins u ins)).
Proof.
  unfold input_coins. induction ins as [|i ins IH]; [reflexivity|]. cbn [forallb mapM]. rewrite IH.
  destruct (u !! prevout i) as [cn|]; cbn; [|reflexivity]. destruct (mapM _ ins); reflexivity.
Qed.

Section InputsLaws.
Context {B : Type} `{!CCoinsView B} `{!CCoinsViewLaws B}.
Implicit Type c : CCoinsViewCache B.

Lemma CheckTxInputs_loop_spec c ins h mat acc coins :
  cache_ok c -> heights_ok (cache_utxo c) -> 0 <= h < 2 ^ 31 -> 0 <= acc <= MAX_MONEY ->
  input_coins (cache_utxo c) ins = Some coins ->
  exists c' r, CheckTxInputs_loop c ins h mat acc = Some (c', r) /\ same_cache c c' /\
    (forall v, r = inr v <-> Forall (mature h mat) coins /\ in_range (map out coins) /\
                             acc + total (map out coins) <= MAX_MONEY /\ v = acc + total (map out coins)) /\
    rejects r.
Proof.
  intros Hc Hh Hr. revert c acc coins Hc Hh. induction ins as [|i ins IH]; intros c acc coins Hc Hh Ha Hin; cbn [CheckTxInputs_loop].
  { injection Hin as <-. exists c, (inr acc). split; [reflexivity|]. split; [apply same_cache_refl, Hc|]. split; [|discriminate].
    intros v. cbn [map total foldr]. rewrite Z.add_0_r.
    split; [intros [= <-]; split; [constructor|split; [constructor|lia]]|intros (_ & _ & _ & ->); reflexivity]. }
  unfold input_coins in Hin. cbn [mapM] in Hin. destruct (cache_utxo c !! prevout i) as [cn|] eqn:Ei; [|discriminate]. cbn in Hin.
  change (mapM (fun i => cache_utxo c !! prevout i) ins) with (input_coins (cache_utxo c) ins) in Hin.
  destruct (input_coins (cache_utxo c) ins) as [rest|] eqn:Er; [|discriminate]. injection Hin as <-.
  destruct (AccessCoin_spec c (prevout i) Hc) as (c1 & cn' & -> & Hs & Hcn). rewrite Ei in Hcn. subst cn'.
  cbn [mbind option_bind]. rewrite (cache_utxo_unspent c _ _ Hc Ei). pose proof (Hh _ _ Ei) as Hcn. cbn in Hcn.
  rewrite i32_id by (unfold is_i32; lia). cbn [map total foldr]. fold (total (map out rest)).
  assert (Hno : forall res reason, res <> TX_MISSING_INPUTS -> rejects (inl (B:=Z) (TxInvalid res reason))).
  { intros res reason Hres v [= <-]. eauto. }
  destruct (fCoinBase cn && (h - coin_nHeight cn <? mat)) eqn:Em.
  { eexists _, _. split; [reflexivity|]. split; [exact Hs|]. split; [|apply Hno; discriminate].
    intros v. rewrite Forall_cons. split; [discriminate|]. intros ((Hm & _) & _). unfold mature in Hm. apply andb_true_iff in Em as [Ec Em]. specialize (Hm Ec). lia. }
  assert (Hm : mature h mat cn) by (intros Ec; rewrite Ec in Em; cbn in Em; lia). cbv zeta.
  destruct (MoneyRange_dec (nValue (out cn))) as [Hv|Hv]; cbn [negb orb].
  2: { eexists _, _. split; [reflexivity|]. split; [exact Hs|]. split; [|apply Hno; discriminate].
       intros v. rewrite in_range_cons. split; [discriminate|tauto]. }
  rewrite i64_money by assumption. destruct (MoneyRange_dec (acc + nValue (out cn))) as [Hs2|Hs2]; cbn [negb].
  - destruct (IH c1 (acc + nValue (out cn)) rest) as (c2 & r & -> & Hs3 & Hiff & Hne); [apply Hs| |exact Hs2| |].
    { destruct Hs as (_ & -> & _). exact Hh. } { destruct Hs as (_ & -> & _). exact Er. }
    exists c2, r. split; [reflexivity|]. split; [eapply same_cache_trans; eassumption|]. split; [|exact Hne].
    intros v. rewrite (Hiff v), Forall_cons, in_range_cons, Z.add_assoc. tauto.
  - eexists _, _. split; [reflexivity|]. split; [exact Hs|]. split; [|apply Hno; discriminate].
    intros v. rewrite in_range_cons. split; [discriminate|]. intros (_ & (_ & Hr2) & Ht & _). pose proof (total_nonneg _ Hr2). lia.
Qed.

Lemma CheckTxInputs_spec c tx h mat :
  cache_ok c -> heights_ok (cache_utxo c) -> 0 <= h < 2 ^ 31 -> in_range (vout tx) -> total (vout tx) <= MAX_MONEY -> IsCoinBase tx = false ->
  exists c' r, CheckTxInputs c tx h mat = Some (c', r) /\ same_cache c c' /\
    (forall fee, r = inr fee <-> exists coins, input_coins (cache_utxo c) (vin tx) = Some coins /\ Forall (mature h mat) coins /\
      in_range (map out coins) /\ total (map out coins) <= MAX_MONEY /\
      fee = total (map out coins) - total (vout tx) /\ 0 <= fee) /\
    (input_coins (cache_utxo c) (vin tx) = None <-> r = inl (TxInvalid TX_MISSING_INPUTS "bad-txns-inputs-missingorspent")).
Proof.
  intros Hc Hh Hr Hvo Htot Ecb. unfold CheckTxInputs, HaveInputs. rewrite Ecb.
  destruct (HaveInputs_loop_spec c (vin tx) Hc) as (c1 & -> & Hs). cbn [mbind option_bind]. rewrite input_coins_forallb.
  destruct (input_coins (cache_utxo c) (vin tx)) as [coins|] eqn:Ec.
  2: { rewrite bool_decide_eq_false_2 by (intros []; discriminate). eexists _, _. split; [reflexivity|]. split; [exact Hs|].
       split; [|tauto]. intros fee. split; [discriminate|]. intros (? & [=] & _). }
  rewrite bool_decide_eq_true_2 by eauto. cbn [negb].
  pose proof (proj1 (proj2 Hs)) as Hu. pose proof Hs as (Hc1 & _).
  assert (H0 : 0 <= 0 <= MAX_MONEY) by (unfold MAX_MONEY, COIN; lia).
  destruct (CheckTxInputs_loop_spec c1 (vin tx) h mat 0 coins) as (c2 & r & -> & Hs2 & Hiff & Hrej); try assumption; [rewrite Hu; assumption..|].
  cbn [mbind option_bind]. pose proof (same_cache_trans _ _ _ Hs Hs2) as Hs3.
  destruct r as [v|v].
  { eexists _, _. split; [reflexivity|]. split; [exact Hs3|]. destruct (Hrej v eq_refl) as (res & reason & -> & Hres). split.
    - intros fee. split; [discriminate|]. intros (coins' & [= <-] & Hm & Hir & Ht & _ & _).
      discriminate (proj2 (Hiff _) (conj Hm (conj Hir (conj Ht eq_refl)))).
    - split; [discriminate|]. intros [= -> _]. contradiction. }
  destruct (proj1 (Hiff v) eq_refl) as (Hm & Hir & Ht & ->). rewrite Z.add_0_l in *. pose proof (total_nonneg _ Hir) as Hp.
  rewrite (proj2 (GetValueOut_spec tx (total (vout tx)))) by auto. cbn [mbind option_bind]. pose proof (total_nonneg _ Hvo) as Hq.
  destruct (Z.ltb_spec (total (map out coins)) (total (vout tx))) as [Hlt|Hge].
  { eexists _, _. split; [reflexivity|]. split; [exact Hs3|]. split; [|split; discriminate].
    intros fee. split; [discriminate|]. intros (coins' & [= <-] & _ & _ & _ & -> & ?). lia. }
  cbv zeta. rewrite i64_id by (unfold is_i64, MAX_MONEY, COIN in *; lia).
  rewrite (proj2 (MoneyRange_spec _)) by lia. cbn [negb]. eexists _, _. split; [reflexivity|]. split; [exact Hs3|]. split.
  - intros fee. split; [|intros (coins' & [= <-] & _ & _ & _ & -> & _); reflexivity].
    intros [= <-]. exists coins. repeat split; auto; lia.
  - split; discriminate.
Qed.
End InputsLaws.

(** ** Relative lock times *)

(** The time a coin of a height counts from: the median time of the block
    before it, on the branch of the block that spends it. *)
Definition coin_time (m : BlockMap) (block nCoinHeight : Z) : option Z :=
  a ← GetAncestor m block (Z.max (nCoinHeight - 1) 0); a ← a; GetMedianTimePast m a.
(** BIP 68 for one input, in a block of a height and a median time. *)
Definition unlocked (m : BlockMap) (block height time : Z) (i : CTxIn) (nCoinHeight : Z) : Prop :=
  Z.testbit (nSequence i) 31 = false ->
  if Z.testbit (nSequence i) 22
  then exists t, coin_time m block nCoinHeight = Some t /\ t + 512 * (nSequence i mod 2 ^ 16) <= time
  else nCoinHeight + nSequence i mod 2 ^ 16 <= height.

Lemma sorted_elem_range l k : Forall is_u32 l -> (k < length l)%nat -> is_u32 (sort l !!! k).
Proof.
  intros Hl Hk. assert (Hp : sort l ≡ₚ l) by apply merge_sort_Permutation. rewrite <- Hp in Hl. rewrite Forall_lookup in Hl.
  apply (Hl k), list_lookup_lookup_total_lt. rewrite Hp. exact Hk.
Qed.
Lemma median_times_u32 m n h l : index_ok m -> median_times n m h = Some l -> Forall is_u32 l.
Proof.
  intros Hm. revert h l. induction n as [|n IH]; intros h l; cbn [median_times]; [intros [= <-]; constructor|].
  destruct h as [h|]; [|intros [= <-]; constructor]. destruct (m !! h) as [b|] eqn:Eb; [|discriminate]. cbn [mbind option_bind].
  destruct (median_times n m (pprev b)) as [rest|] eqn:Er; [|discriminate]. intros [= <-]. apply Forall_app. split; [eapply IH, Er|].
  constructor; [apply (eo_time _ _ _ (Hm h b Eb))|constructor].
Qed.
Lemma GetMedianTimePast_u32 m h b : index_ok m -> m !! h = Some b -> exists t, GetMedianTimePast m h = Some t /\ is_u32 t.
Proof.
  intros Hm Eh. unfold GetMedianTimePast, nMedianTimeSpan. destruct (median_times_prefix m h b 10 Hm Eh) as (_ & l & _ & E & _ & Hne).
  rewrite E. eexists. split; [reflexivity|]. apply sorted_elem_range; [eapply median_times_u32; eassumption|].
  destruct l; [contradiction|]. apply Nat.div_lt; cbn; lia.
Qed.
Lemma coin_time_u32 m block b hc :
  index_ok m -> m !! block = Some b -> 0 <= hc <= nHeight b -> exists t, coin_time m block hc = Some t /\ is_u32 t.
Proof.
  intros Hm Eb Hh. unfold coin_time. rewrite (GetAncestor_spec Hm block b _ Eb).
  replace ((Z.max (hc - 1) 0 >? nHeight b) || (Z.max (hc - 1) 0 <? 0)) with false by lia.
  destruct (nth_prev_exists Hm block b (Z.to_nat (nHeight b - Z.max (hc - 1) 0)) Eb ltac:(lia)) as (x & bx & -> & Ex & _).
  cbn [mbind option_bind]. apply (GetMedianTimePast_u32 m x bx Hm Ex).
Qed.

(** The loop computes the last height and time at which an input is locked. *)
Lemma sequence_locks_loop_spec m block b ins hs mh mt :
  index_ok m -> m !! block = Some b -> nHeight b + 2 ^ 16 < 2 ^ 31 -> length ins = length hs ->
  Forall (fun hc => 0 <= hc <= nHeight b) hs ->
  exists h t hs', sequence_locks_loop m block ins hs mh mt = Some (h, t, hs') /\
    forall height time, h < height /\ t < time <->
      mh < height /\ mt < time /\ Forall2 (unlocked m block height time) ins hs.
Proof.
  intros Hm Eb Hbig Hl Hhs. revert hs Hl Hhs mh mt.
  induction ins as [|i ins IH]; intros [|hc hs] Hl Hhs mh mt; try discriminate; cbn [sequence_locks_loop].
  { exists mh, mt, []. split; [reflexivity|]. intros. split; [intros [? ?]; auto|tauto]. }
  injection Hl as Hl. apply Forall_cons in Hhs as [Hhc Hhs]. pose proof (IH hs Hl Hhs) as IH'. clear IH.
  change SEQUENCE_LOCKTIME_DISABLE_FLAG with (2 ^ 31). change SEQUENCE_LOCKTIME_TYPE_FLAG with (2 ^ 22). rewrite !land_flag by lia.
  assert (Hmask : Z.land (nSequence i) SEQUENCE_LOCKTIME_MASK = nSequence i mod 2 ^ 16) by (apply (Z.land_ones _ 16); lia).
  pose proof (Z.mod_pos_bound (nSequence i) (2 ^ 16) ltac:(lia)) as Hmod. rewrite Hmask.
  assert (Hstep : forall h t mh' mt', (forall height time, h < height /\ t < time <-> mh' < height /\ mt' < time /\ Forall2 (unlocked m block height time) ins hs) ->
    (forall height time, mh' < height /\ mt' < time <-> (mh < height /\ mt < time /\ unlocked m block height time i hc)) ->
    forall height time, h < height /\ t < time <-> mh < height /\ mt < time /\ Forall2 (unlocked m block height time) (i :: ins) (hc :: hs)).
  { intros h t mh' mt' H1 H2 height time. rewrite H1, Forall2_cons. specialize (H2 height time). tauto. }
  destruct (Z.testbit (nSequence i) 31) eqn:E31.
  { destruct (IH' mh mt) as (h & t & hs' & -> & H). cbn. do 3 eexists. split; [reflexivity|]. apply (Hstep _ _ _ _ H).
    intros height time. unfold unlocked. rewrite E31. intuition discriminate. }
  destruct (Z.testbit (nSequence i) 22) eqn:E22.
  - rewrite i32_id by (unfold is_i32; lia). destruct (coin_time_u32 m block b hc Hm Eb Hhc) as (ct & Ect & Hct).
    pose proof Ect as Ect'. unfold coin_time in Ect. destruct (GetAncestor m block (Z.max (hc - 1) 0)) as [a|]; [|discriminate].
    cbn [mbind option_bind] in Ect |- *. destruct a as [a|]; [|discriminate]. cbn [mbind option_bind] in Ect |- *. rewrite Ect. cbn [mbind option_bind].
    replace (Z.shiftl (nSequence i mod 2 ^ 16) SEQUENCE_LOCKTIME_GRANULARITY) with (512 * (nSequence i mod 2 ^ 16)).
    2: { rewrite Z.shiftl_mul_pow2 by (cbv; discriminate). change (2 ^ SEQUENCE_LOCKTIME_GRANULARITY) with 512. lia. }
    unfold is_u32 in Hct. rewrite u32_id by (unfold is_u32; lia). rewrite (i64_id (ct + _)) by (unfold is_i64; lia).
    rewrite i64_id by (unfold is_i64; lia). cbv zeta.
    match goal with |- context [sequence_locks_loop m block ins hs ?x ?y] => destruct (IH' x y) as (h & t & hs' & -> & H) end.
    cbn. do 3 eexists. split; [reflexivity|]. apply (Hstep _ _ _ _ H).
    intros height time. unfold unlocked. rewrite E31, E22. split.
    + intros [? ?]. split; [lia|]. split; [lia|]. intros _. exists ct. split; [exact Ect'|lia].
    + intros (? & ? & Hu). destruct (Hu eq_refl) as (ct' & E & ?). rewrite Ect' in E. injection E as <-. lia.
  - rewrite (i32_id (hc + _)) by (unfold is_i32; lia). rewrite i32_id by (unfold is_i32; lia). cbv zeta.
    match goal with |- context [sequence_locks_loop m block ins hs ?x ?y] => destruct (IH' x y) as (h & t & hs' & -> & H) end.
    cbn. do 3 eexists. split; [reflexivity|]. apply (Hstep _ _ _ _ H).
    intros height time. unfold unlocked. rewrite E31, E22. split; [intros [? ?]|intros (? & ? & Hu); specialize (Hu eq_refl)]; lia.
Qed.

Lemma SequenceLocks_spec m tx flags hs block b p pb :
  index_ok m -> m !! block = Some b -> pprev b = Some p -> m !! p = Some pb -> nHeight b + 2 ^ 16 < 2 ^ 31 ->
  length (vin tx) = length hs -> Forall (fun hc => 0 <= hc <= nHeight b) hs ->
  exists r mtp, SequenceLocks m tx flags hs block = Some r /\ GetMedianTimePast m p = Some mtp /\
    (r = true <-> (2 <= tx_version tx -> Z.testbit flags 0 = true -> Forall2 (unlocked m block (nHeight b) mtp) (vin tx) hs)).
Proof.
  intros Hm Eb Ep Epb Hbig Hl Hhs. destruct (GetMedianTimePast_u32 m p pb Hm Epb) as (mtp & Emtp & Hmtp). unfold is_u32 in Hmtp.
  pose proof (eo_height _ _ _ (Hm block b Eb)) as Hh.
  assert (Hev : forall h t, EvaluateSequenceLocks m block (h, t) = Some ((h <? nHeight b) && (t <? mtp))).
  { intros h t. unfold EvaluateSequenceLocks. rewrite Eb. cbn [mbind option_bind]. rewrite Ep. cbn [mbind option_bind]. rewrite Emtp. cbn.
    f_equal. rewrite negb_orb, !Z.geb_leb, !Z.leb_antisym, !negb_involutive. reflexivity. }
  unfold SequenceLocks, CalculateSequenceLocks.
  replace (size hs =? size (vin tx)) with true by (symmetry; apply Z.eqb_eq; unfold size; lia). cbn [negb].
  change LOCKTIME_VERIFY_SEQUENCE with (2 ^ 0). rewrite land_flag, Z.geb_leb by lia.
  destruct (Z.leb_spec 2 (tx_version tx)) as [Hv|Hv]; cbn [andb negb].
  2: { cbn. rewrite Hev. eexists _, _. split; [reflexivity|]. split; [exact Emtp|]. split; [lia|intros _]. lia. }
  destruct (Z.testbit flags 0); cbn [negb].
  2: { cbn. rewrite Hev. eexists _, _. split; [reflexivity|]. split; [exact Emtp|]. split; [discriminate|intros _]. lia. }
  destruct (sequence_locks_loop_spec m block b (vin tx) hs (-1) (-1) Hm Eb Hbig Hl Hhs) as (h & t & hs' & -> & H).
  cbn [mbind option_bind]. rewrite Hev. eexists _, _. split; [reflexivity|]. split; [exact Emtp|].
  rewrite andb_true_iff, !Z.ltb_lt, H. split; [tauto|]. intros Hu. specialize (Hu Hv eq_refl). split; [lia|]. split; [lia|exact Hu].
Qed.

(** ** The checks are exact *)

(** C15: [CheckTransaction] accepts exactly the well-formed transactions: inputs
    and outputs present, within the weight limit, every value and their sum
    within the money range, only post-quantum or data outputs, the value
    floor, no input twice, and the shape of the inputs; the sum of the outputs
    of an accepted transaction is then defined. *)
Theorem CheckTransaction_exact tx permit_v2_outputs min_output_value :
  size (vout tx) < 2 ^ 64 ->
  (CheckTransaction tx permit_v2_outputs min_output_value = TxValid <-> tx_well_formed tx permit_v2_outputs min_output_value) /\
  (CheckTransaction tx permit_v2_outputs min_output_value = TxValid -> GetValueOut tx = Some (total (vout tx))).
Proof.
  intros Hl. pose proof (CheckTransaction_spec tx permit_v2_outputs min_output_value Hl) as Hs. split; [exact Hs|].
  intros H. apply Hs in H. apply GetValueOut_spec. split; [apply H|]. split; [apply H|reflexivity].
Qed.
Lemma CheckTransaction_exact_witness :
  tx_well_formed sample_tx false 1000 /\ GetValueOut sample_tx = Some 12345.
Proof.
  destruct (CheckTransaction_exact sample_tx false 1000) as [H1 H2]; [reflexivity|].
  split; [apply H1|apply H2]; vm_compute; reflexivity.
Defined.

(** C20: [CheckTxInputs] accepts a transaction exactly when every coin it spends
    is unspent in the view, coinbase coins are mature, and the coins' values
    are within the money range and cover the outputs; the fee is then the
    difference. It leaves the set of coins as it was, and reports missing
    inputs exactly when there are some. *)
Theorem CheckTxInputs_exact {B} `{!CCoinsView B} `{!CCoinsViewLaws B} (c : CCoinsViewCache B) tx permit min nSpendHeight coinbase_maturity :
  cache_ok c -> heights_ok (cache_utxo c) -> 0 <= nSpendHeight < 2 ^ 31 ->
  size (vout tx) < 2 ^ 64 -> CheckTransaction tx permit min = TxValid -> IsCoinBase tx = false ->
  exists c' r, CheckTxInputs c tx nSpendHeight coinbase_maturity = Some (c', r) /\ same_cache c c' /\
    (forall fee, r = inr fee <-> exists coins, input_coins (cache_utxo c) (vin tx) = Some coins /\
      Forall (mature nSpendHeight coinbase_maturity) coins /\ in_range (map out coins) /\ total (map out coins) <= MAX_MONEY /\
      fee = total (map out coins) - total (vout tx) /\ 0 <= fee) /\
    (input_coins (cache_utxo c) (vin tx) = None <-> r = inl (TxInvalid TX_MISSING_INPUTS "bad-txns-inputs-missingorspent")).
Proof.
  intros Hc Hh Hr Hl Hok Hcb. apply (CheckTransaction_spec _ _ _ Hl) in Hok.
  apply CheckTxInputs_spec; try assumption; apply Hok.
Qed.
Definition pay_tx : CTransaction := mkTransaction [mkTxIn (mkOutPoint 5 0) [] 3 []] [mkTxOut 60 sample_v3] 2 0.
Lemma demo_db_ok : view_ok demo_db.
Proof. split; [apply map_Forall_singleton; reflexivity|reflexivity]. Qed.
Lemma CheckTxInputs_exact_witness :
  exists c', CheckTxInputs (new_cache demo_db false) pay_tx 10 100 = Some (c', inr 10).
Proof.
  destruct (new_cache_ok demo_db false demo_db_ok) as [Hc Hu].
  destruct (CheckTxInputs_exact (new_cache demo_db false) pay_tx false 50 10 100) as (c' & r & E & _ & H & _);
    [exact Hc| |lia|reflexivity|vm_compute; reflexivity|reflexivity|].
  { rewrite Hu. refine (proj2 (map_Forall_singleton _ _ _) _). cbn. lia. }
  exists c'. rewrite E. do 2 f_equal. apply H. rewrite Hu. exists [mkCoin (mkTxOut 70 sample_v3) false 3].
  split; [reflexivity|]. split; [apply Forall_singleton; discriminate|].
  split; [apply Forall_singleton; cbn; unfold MAX_MONEY, COIN; lia|]. vm_compute. intuition discriminate.
Defined.

(** [SequenceLocks] is BIP 68: it accepts exactly when every input with a
    relative lock is old enough, in blocks from the height of its coin, or in
    units of 512 seconds from the median time before it; transactions of
    version 1 and unset [LOCKTIME_VERIFY_SEQUENCE] are not restricted. *)
Theorem SequenceLocks_exact GetHash s tx flags prevHeights block b p :
  reachable GetHash s -> m_block_index s !! block = Some b -> pprev b = Some p -> nHeight b + 2 ^ 16 < 2 ^ 31 ->
  length (vin tx) = length prevHeights -> Forall (fun h => 0 <= h <= nHeight b) prevHeights ->
  exists r mtp, SequenceLocks (m_block_index s) tx flags prevHeights block = Some r /\ GetMedianTimePast (m_block_index s) p = Some mtp /\
    (r = true <-> (2 <= tx_version tx -> Z.testbit flags 0 = true ->
                   Forall2 (unlocked (m_block_index s) block (nHeight b) mtp) (vin tx) prevHeights)).
Proof.
  intros Hs Eb Ep Hbig Hl Hh. apply reachable_ok, mo_index in Hs. destruct (eo_link _ _ _ (Hs block b Eb) p Ep) as (pb & Epb & _).
  eapply SequenceLocks_spec; eassumption.
Qed.
Lemma SequenceLocks_exact_witness :
  SequenceLocks (m_block_index toy_manager) pay_tx 1 [7] 1009 = Some false /\
  SequenceLocks (m_block_index toy_manager) pay_tx 1 [6] 1009 = Some true.
Proof.
  destruct (m_block_index toy_manager !! 1009) as [b|] eqn:Eb; [|vm_compute in Eb; discriminate].
  assert (Hb : nHeight b = 9 /\ pprev b = Some 1008) by (vm_compute in Eb; injection Eb as <-; split; reflexivity).
  destruct Hb as [Hb Ep].
  split.
  - destruct (SequenceLocks_exact toy_hash toy_manager pay_tx 1 [7] 1009 b 1008) as (r & mtp & -> & _ & H);
      [exact toy_reachable|exact Eb|exact Ep|rewrite Hb; reflexivity|reflexivity|apply Forall_singleton; lia|].
    destruct r; [|reflexivity]. specialize (proj1 H eq_refl ltac:(cbn; lia) eq_refl) as HF. inversion_clear HF as [|? ? ? ? H1 _].
    specialize (H1 eq_refl). change (7 + 3 <= nHeight b) in H1. lia.
  - destruct (SequenceLocks_exact toy_hash toy_manager pay_tx 1 [6] 1009 b 1008) as (r & mtp & -> & _ & H);
      [exact toy_reachable|exact Eb|exact Ep|rewrite Hb; reflexivity|reflexivity|apply Forall_singleton; lia|].
    f_equal. apply H. intros _ _. constructor; [|constructor]. intros _. change (6 + 3 <= nHeight b). lia.
Defined.
