(* ===== verification/Merkle.v ===== *)
(** * Merkle trees ([src/src/consensus/merkle.cpp])

    The root of the transaction hashes with the test for repeated hashes
    (CVE-2012-2459), and the constant-space computation of the path from a
    leaf to the root.  A hash is the [uint256] as an integer and [Hash2] is
    double SHA-256 of two of them, 64 bytes; nothing is assumed about it, so
    the theorems name the collision that a counterexample would contain. *)

From stdpp Require Import list sets.
From S2P Require Import Prelude.

Local Open Scope Z_scope.

Section Merkle.
Context (Hash2 : Z -> Z -> Z).

(** ** The root *)

Fixpoint equal_pair (hashes : list Z) : bool :=
  match hashes with
  | a :: b :: rest => (a =? b) || equal_pair rest
  | _ => false
  end.
Definition push_back_odd (hashes : list Z) : list Z :=
  if Nat.odd (length hashes) then hashes ++ [List.last hashes 0] else hashes.
(** One double hash for every 64 bytes. *)
Fixpoint SHA256D64 (hashes : list Z) : list Z :=
  match hashes with
  | a :: b :: rest => Hash2 a b :: SHA256D64 rest
  | _ => []
  end.
(** The [while] loop; [None] is out of fuel. *)
Fixpoint ComputeMerkleRoot_loop (fuel : nat) (hashes : list Z) (mutation : bool) : option (Z * bool) :=
  match hashes with
  | [] => Some (0, mutation)
  | [h] => Some (h, mutation)
  | _ =>
      match fuel with
      | O => None
      | S fuel => ComputeMerkleRoot_loop fuel (SHA256D64 (push_back_odd hashes)) (mutation || equal_pair hashes)
      end
  end.
Definition ComputeMerkleRoot (hashes : list Z) : option (Z * bool) := ComputeMerkleRoot_loop (length hashes) hashes false.

(** ** The path *)

Definition set_inner (inner : list Z) (level : nat) (h : Z) : list Z := <[level := h]> inner.
(** [!(count & ((uint32_t{1}) << level))] *)
Definition bit_clear (count : Z) (level : nat) : bool := negb (Z.testbit count (Z.of_nat level)).

(** The inner loops: while the bit of [level] is clear, combine. *)
Fixpoint combine (fuel : nat) (inner : list Z) (matchlevel : option nat) (count : Z) (level : nat) (h : Z) (matchh : bool) (path : list Z)
    : option (nat * Z * bool * list Z) :=
  if bit_clear count level then
    match fuel with
    | O => None
    | S fuel =>
        let '(path, matchh) :=
          if matchh then (path ++ [inner !!! level], true)
          else if decide (matchlevel = Some level) then (path ++ [h], true)
          else (path, false) in
        combine fuel inner matchlevel count (S level) (Hash2 (inner !!! level) h) matchh path
    end
  else Some (level, h, matchh, path).

Definition LEVELS : nat := 32.
Fixpoint absorb_leaves (leaves : list Z) (leaf_pos count : Z) (inner : list Z) (matchlevel : option nat) (path : list Z)
    : option (Z * list Z * option nat * list Z) :=
  match leaves with
  | [] => Some (count, inner, matchlevel, path)
  | h :: leaves =>
      let matchh := count =? leaf_pos in
      let count := u32 (count + 1) in
      '(level, h, matchh, path) ← combine LEVELS inner matchlevel count 0 h matchh path;
      absorb_leaves leaves leaf_pos count (set_inner inner level h) (if (matchh : bool) then Some level else matchlevel) path
  end.
Fixpoint lowest_level (fuel : nat) (count : Z) (level : nat) : option nat :=
  if bit_clear count level then match fuel with O => None | S fuel => lowest_level fuel count (S level) end else Some level.
Fixpoint sweep (fuel : nat) (inner : list Z) (matchlevel : option nat) (count : Z) (level : nat) (h : Z) (matchh : bool) (path : list Z)
    : option (list Z) :=
  if count =? u32 (Z.shiftl 1 (Z.of_nat level)) then Some path
  else match fuel with
  | O => None
  | S fuel =>
      let path := if matchh then path ++ [h] else path in
      let h := Hash2 h h in
      let count := u32 (count + u32 (Z.shiftl 1 (Z.of_nat level))) in
      '(level, h, matchh, path) ← combine LEVELS inner matchlevel count (S level) h matchh path;
      sweep fuel inner matchlevel count level h matchh path
  end.
Definition MerkleComputation (leaves : list Z) (leaf_pos : Z) : option (list Z) :=
  match leaves with
  | [] => Some []
  | _ =>
      '(count, inner, matchlevel, path) ← absorb_leaves leaves leaf_pos 0 (replicate LEVELS 0) None [];
      level ← lowest_level LEVELS count 0;
      sweep LEVELS inner matchlevel count level (inner !!! level) (bool_decide (matchlevel = Some level)) path
  end.
Definition ComputeMerklePath (leaves : list Z) (position : Z) : option (list Z) := MerkleComputation leaves position.
End Merkle.

Definition toy_node (a b : Z) : Z := 1000 * a + b.
Example merkle_test :
  ComputeMerkleRoot toy_node [1; 2; 3] = Some (1005003, false) /\
  ComputeMerkleRoot toy_node [1; 2; 3; 3] = Some (1005003, true) /\
  map (ComputeMerklePath toy_node [1; 2; 3]) [0; 1; 2] = [Some [2; 3003]; Some [1; 3003]; Some [3; 1002]].
Proof. vm_compute. auto. Qed.

(** ** Binding *)

Lemma pairs_ind (P : list Z -> Prop) :
  P [] -> (forall a, P [a]) -> (forall a b l, P l -> P (a :: b :: l)) -> forall l, P l.
Proof.
  intros H0 H1 H2. enough (forall l, P l /\ forall a, P (a :: l)) by firstorder.
  induction l as [|b l [IH1 IH2]]; split; auto.
Qed.

Section Binding.
Context (Hash2 : Z -> Z -> Z).
Abbreviation HashP p := (Hash2 (fst p) (snd p)).

Fixpoint pair_up (l : list Z) : list (Z * Z) :=
  match l with a :: b :: rest => (a, b) :: pair_up rest | _ => [] end.
(** The pairs hashed for one level, and for all of them. *)
Definition level_pairs (l : list Z) : list (Z * Z) := pair_up (push_back_odd l).
Definition up (l : list Z) : list Z := SHA256D64 Hash2 (push_back_odd l).
Fixpoint node_pairs_loop (fuel : nat) (l : list Z) : list (Z * Z) :=
  match l, fuel with
  | _ :: _ :: _, S fuel => level_pairs l ++ node_pairs_loop fuel (up l)
  | _, _ => []
  end.
Definition node_pairs (l : list Z) : list (Z * Z) := node_pairs_loop (length l) l.

(** Two different pairs with one hash, and a leaf that is also a node. *)
Definition collision (ps qs : list (Z * Z)) : Prop := exists p q, p ∈ ps /\ q ∈ qs /\ p <> q /\ HashP p = HashP q.
Definition leaf_is_node (l : list Z) (ps : list (Z * Z)) : Prop := exists p, p ∈ ps /\ HashP p ∈ l.

Lemma up_pairs l : up l = map (fun p => HashP p) (level_pairs l).
Proof. unfold up, level_pairs. induction (push_back_odd l) using pairs_ind; cbn; congruence. Qed.
Lemma pair_up_fst l p : p ∈ pair_up l -> p.1 ∈ l.
Proof.
  induction l as [| |a b l IH] using pairs_ind; cbn; intros H; [apply not_elem_of_nil in H as []..|].
  apply elem_of_cons in H as [->|H]; [apply list_elem_of_here|]. do 2 apply list_elem_of_further. auto.
Qed.
Lemma last_elem (l : list Z) : l <> [] -> List.last l 0 ∈ l.
Proof.
  intros H. destruct (exists_last H) as (l' & x & ->). rewrite last_last. apply elem_of_app. right. apply list_elem_of_here.
Qed.
Lemma level_pairs_fst l p : l <> [] -> p ∈ level_pairs l -> p.1 ∈ l.
Proof.
  intros Hl Hp. apply pair_up_fst in Hp. unfold push_back_odd in Hp. destruct (Nat.odd (length l)); [|exact Hp].
  apply elem_of_app in Hp as [Hp|Hp]; [exact Hp|]. apply list_elem_of_singleton in Hp. rewrite Hp. apply last_elem, Hl.
Qed.

Lemma pair_up_inj x y :
  Nat.even (length x) = true -> Nat.even (length y) = true -> pair_up x = pair_up y -> x = y.
Proof.
  revert y. induction x as [|a|a b x IH] using pairs_ind; intros y Hx; [| discriminate|].
  - destruct y as [|? [|? y]]; [reflexivity|discriminate|discriminate].
  - destruct y as [|? [|? y]]; intros Hy; [discriminate|discriminate|]. intros [= -> -> E]. do 2 f_equal. apply IH; assumption.
Qed.
Lemma push_back_odd_even l : Nat.even (length (push_back_odd l)) = true.
Proof.
  unfold push_back_odd. destruct (Nat.odd (length l)) eqn:E.
  - rewrite length_app. cbn [length]. rewrite Nat.add_1_r, Nat.even_succ. exact E.
  - rewrite <- Nat.negb_odd, E. reflexivity.
Qed.
Lemma equal_pair_end k x : Nat.even (length k) = true -> equal_pair (k ++ [x; x]) = true.
Proof.
  induction k as [| |a b k IH] using pairs_ind; cbn; intros H; [rewrite Z.eqb_refl; reflexivity|discriminate|].
  rewrite (IH H). apply orb_true_r.
Qed.
Lemma pushed_is_mutated l : Nat.odd (length l) = true -> equal_pair (l ++ [List.last l 0]) = true.
Proof.
  intros H. destruct l as [|z l]; [discriminate|]. destruct (exists_last (l := z :: l)) as (k & x & E); [discriminate|]. rewrite E in *.
  rewrite last_last, <- app_assoc. apply equal_pair_end. rewrite length_app in H. cbn [length] in H.
  rewrite Nat.add_1_r, Nat.odd_succ in H. exact H.
Qed.
Lemma level_pairs_inj l1 l2 :
  equal_pair l1 = false -> equal_pair l2 = false -> level_pairs l1 = level_pairs l2 -> l1 = l2.
Proof.
  intros H1 H2 E. apply pair_up_inj in E; [|apply push_back_odd_even..]. unfold push_back_odd in E.
  destruct (Nat.odd (length l1)) eqn:O1, (Nat.odd (length l2)) eqn:O2.
  - apply app_inj_2 in E as [E _]; [exact E|reflexivity].
  - subst l2. rewrite pushed_is_mutated in H2 by exact O1. discriminate.
  - subst l1. rewrite pushed_is_mutated in H1 by exact O2. discriminate.
  - exact E.
Qed.
Lemma map_inj_or_collision ps qs :
  map (fun p => HashP p) ps = map (fun p => HashP p) qs -> ps = qs \/ collision ps qs.
Proof.
  revert qs. induction ps as [|p ps IH]; intros [|q qs]; cbn [map]; intros E; try discriminate; [auto|]. injection E as Ep E.
  destruct (decide (p = q)) as [->|Hne].
  - destruct (IH qs E) as [->|(p' & q' & ? & ? & ?)]; [auto|]. right. exists p', q'. rewrite !elem_of_cons. auto.
  - right. exists p, q. rewrite !elem_of_cons. auto.
Qed.

Lemma node_pairs_step fuel a b l : node_pairs_loop (S fuel) (a :: b :: l) = level_pairs (a :: b :: l) ++ node_pairs_loop fuel (up (a :: b :: l)).
Proof. reflexivity. Qed.
Lemma up_elem l x : x ∈ up l -> exists p, p ∈ level_pairs l /\ x = HashP p.
Proof. rewrite up_pairs. intros H. apply list_elem_of_fmap in H as (p & -> & Hp). eauto. Qed.

(** Above the leaves every hashed value is itself a hash of the tree. *)
Lemma node_pairs_inner fuel a b l p :
  p ∈ node_pairs_loop fuel (up (a :: b :: l)) -> exists q, q ∈ node_pairs_loop (S fuel) (a :: b :: l) /\ p.1 = HashP q.
Proof.
  revert a b l. induction fuel as [|fuel IH]; intros a b l.
  { cbn [node_pairs_loop]. destruct (up _) as [|? [|]]; intros H; apply not_elem_of_nil in H as []. }
  destruct (up (a :: b :: l)) as [|a' [|b' l']] eqn:E; [intros H; apply not_elem_of_nil in H as []..|].
  rewrite node_pairs_step. intros H. rewrite node_pairs_step. apply elem_of_app in H as [H|H].
  - apply level_pairs_fst in H; [|discriminate]. rewrite <- E in H. apply up_elem in H as (q & Hq & Ep). exists q.
    split; [apply elem_of_app; auto|exact Ep].
  - destruct (IH a' b' l' H) as (q & Hq & Ep). exists q. split; [|exact Ep]. apply elem_of_app. right. rewrite E. exact Hq.
Qed.

Lemma loop_mutated fuel l r b : ComputeMerkleRoot_loop Hash2 fuel l true = Some (r, b) -> b = true.
Proof.
  revert l. induction fuel as [|fuel IH]; intros [|? [|? l]]; cbn; try (intros [= _ <-]; reflexivity); try discriminate. apply IH.
Qed.
Lemma loop_step fuel a b l m r :
  ComputeMerkleRoot_loop Hash2 fuel (a :: b :: l) m = Some (r, false) ->
  exists fuel', fuel = S fuel' /\ m = false /\ equal_pair (a :: b :: l) = false /\ ComputeMerkleRoot_loop Hash2 fuel' (up (a :: b :: l)) false = Some (r, false).
Proof.
  destruct fuel as [|fuel]; [discriminate|]. cbn [ComputeMerkleRoot_loop]. intros H. exists fuel. split; [reflexivity|].
  destruct m; [apply loop_mutated in H; discriminate|]. destruct (equal_pair (a :: b :: l)); [apply loop_mutated in H; discriminate|]. auto.
Qed.
Lemma up_nonempty a b l : up (a :: b :: l) <> [].
Proof. unfold up, push_back_odd. destruct (Nat.odd _); discriminate. Qed.
Lemma root_is_node fuel a b l m r :
  ComputeMerkleRoot_loop Hash2 fuel (a :: b :: l) m = Some (r, false) -> exists p, p ∈ node_pairs_loop fuel (a :: b :: l) /\ r = HashP p.
Proof.
  revert a b l m. induction fuel as [|fuel IH]; intros a b l m H; [discriminate|].
  destruct (loop_step _ _ _ _ _ _ H) as (fuel' & [= <-] & _ & _ & H'). rewrite node_pairs_step.
  destruct (up (a :: b :: l)) as [|x [|y l']] eqn:E; [destruct (up_nonempty _ _ _ E)| |].
  - assert (x = r) as -> by (destruct fuel; cbn in H'; congruence). destruct (up_elem (a :: b :: l) r) as (p & Hp & ->); [rewrite E; apply list_elem_of_here|].
    exists p. split; [apply elem_of_app; auto|reflexivity].
  - destruct (IH _ _ _ _ H') as (p & Hp & ->). exists p. split; [apply elem_of_app; auto|reflexivity].
Qed.

Lemma collision_mono ps qs ps' qs' : ps ⊆ ps' -> qs ⊆ qs' -> collision ps qs -> collision ps' qs'.
Proof. intros H1 H2 (p & q & Hp & Hq & H). exists p, q. auto. Qed.
Lemma leaf_of_up fuel1 fuel2 a b l a' b' l' :
  leaf_is_node (up (a :: b :: l)) (node_pairs_loop fuel2 (up (a' :: b' :: l'))) ->
  collision (node_pairs_loop (S fuel1) (a :: b :: l)) (node_pairs_loop (S fuel2) (a' :: b' :: l')) \/
  leaf_is_node (a :: b :: l) (node_pairs_loop (S fuel2) (a' :: b' :: l')).
Proof.
  intros (p & Hp & Hin). apply up_elem in Hin as (q & Hq & E). destruct (decide (p = q)) as [->|Hne].
  - right. destruct (node_pairs_inner _ _ _ _ _ Hp) as (q' & Hq' & Eq). exists q'. split; [exact Hq'|]. rewrite <- Eq.
    apply level_pairs_fst in Hq; [exact Hq|discriminate].
  - left. exists q, p. rewrite !node_pairs_step, !elem_of_app. auto.
Qed.
Lemma collision_sym ps qs : collision ps qs -> collision qs ps.
Proof. intros (p & q & Hp & Hq & Hn & E). exists q, p. auto. Qed.

Lemma root_binding fuel1 fuel2 l1 l2 m1 m2 r :
  ComputeMerkleRoot_loop Hash2 fuel1 l1 m1 = Some (r, false) -> ComputeMerkleRoot_loop Hash2 fuel2 l2 m2 = Some (r, false) ->
  l1 <> [] -> l2 <> [] ->
  l1 = l2 \/ collision (node_pairs_loop fuel1 l1) (node_pairs_loop fuel2 l2) \/
  leaf_is_node l1 (node_pairs_loop fuel2 l2) \/ leaf_is_node l2 (node_pairs_loop fuel1 l1).
Proof.
  assert (Hone : forall fuel x m, ComputeMerkleRoot_loop Hash2 fuel [x] m = Some (r, false) -> x = r) by (intros [] ? ?; cbn; congruence).
  revert fuel2 l1 l2 m1 m2. induction fuel1 as [|fuel1 IH]; intros fuel2 l1 l2 m1 m2 H1 H2 N1 N2;
    (destruct l1 as [|a [|b l1]]; [contradiction| |]); (destruct l2 as [|a' [|b' l2]]; [contradiction| |]);
    try (apply Hone in H1 as ->); try (apply Hone in H2 as ->); auto.
  1, 4: destruct (root_is_node _ _ _ _ _ _ H2) as (p & Hp & ->); right; right; left; exists p; split; [exact Hp|apply list_elem_of_here].
  1, 2: discriminate.
  - destruct (root_is_node _ _ _ _ _ _ H1) as (p & Hp & ->). right. right. right. exists p. split; [exact Hp|apply list_elem_of_here].
  - destruct (loop_step _ _ _ _ _ _ H1) as (? & [= <-] & _ & E1 & H1'). destruct (loop_step _ _ _ _ _ _ H2) as (fuel2' & -> & _ & E2 & H2').
    destruct (IH _ _ _ _ _ H1' H2' (up_nonempty _ _ _) (up_nonempty _ _ _)) as [E|[Hc|[Hl|Hl]]].
    + rewrite !up_pairs in E. apply map_inj_or_collision in E as [E|Hc].
      * left. apply level_pairs_inj; assumption.
      * right. left. eapply collision_mono; [| |exact Hc]; rewrite node_pairs_step; set_solver.
    + right. left. eapply collision_mono; [| |exact Hc]; rewrite node_pairs_step; set_solver.
    + destruct (leaf_of_up fuel1 fuel2' _ _ _ _ _ _ Hl); auto.
    + destruct (leaf_of_up fuel2' fuel1 _ _ _ _ _ _ Hl); auto using collision_sym.
Qed.

(** The loop ends: every pass halves the list. *)
Lemma length_up l : length (up l) = Nat.div2 (S (length l)).
Proof.
  rewrite up_pairs, length_map. unfold level_pairs.
  assert (H : forall x, length (pair_up x) = Nat.div2 (length x)) by (induction x using pairs_ind; cbn; congruence).
  rewrite H. unfold push_back_odd. destruct (Nat.odd (length l)) eqn:E.
  - rewrite length_app. cbn [length]. rewrite Nat.add_1_r. reflexivity.
  - assert (Nat.even (length l) = true) as Ev by (rewrite <- Nat.negb_odd, E; reflexivity). apply Nat.even_spec in Ev as [k ->].
    rewrite Nat.div2_double, Nat.div2_succ_double. reflexivity.
Qed.
Lemma loop_total fuel l m : (length l <= S fuel)%nat -> is_Some (ComputeMerkleRoot_loop Hash2 fuel l m).
Proof.
  revert l m. induction fuel as [|fuel IH]; intros [|a [|b l]] m Hl; cbn [length] in Hl; cbn [ComputeMerkleRoot_loop]; try lia; eauto.
  apply IH. fold (up (a :: b :: l)). rewrite length_up. cbn [length]. pose proof (Nat.lt_div2 (S (length l)) ltac:(lia)). cbn [Nat.div2] in *. lia.
Qed.
End Binding.

(** ** The path leads to the root *)

Section Path.
Context (Hash2 : Z -> Z -> Z) (leaves : list Z) (pos : Z).
Abbreviation n := (Z.of_nat (length leaves)).
Context (Hn : 0 < n <= 2 ^ 31) (Hpos : 0 <= pos < n).

Definition pw (k : nat) : Z := 2 ^ Z.of_nat k.
Definition idx (x : Z) (k : nat) : Z := x / pw k.
(** The number of nodes of a level, and the nodes; the last node of an odd
    level is its own sibling. *)
Definition width (l : nat) : Z := (n + pw l - 1) / pw l.
Fixpoint node (l : nat) (i : Z) : Z :=
  match l with
  | O => leaves !!! Z.to_nat i
  | S l => Hash2 (node l (2 * i)) (node l (if 2 * i + 1 <? width l then 2 * i + 1 else 2 * i))
  end.
Definition sibling (l : nat) (i : Z) : Z :=
  let s := if Z.even i then i + 1 else i - 1 in node l (if s <? width l then s else i).
Definition siblings (k : nat) : list Z := map (fun l => sibling l (idx pos l)) (seq 0 k).

Lemma pw_pos k : 0 < pw k.
Proof. apply Z.pow_pos_nonneg; lia. Qed.
Lemma pw_S k : pw (S k) = 2 * pw k.
Proof. unfold pw. rewrite Nat2Z.inj_succ, Z.pow_succ_r by lia. reflexivity. Qed.
Lemma idx_S x k : idx x (S k) = idx x k / 2.
Proof. unfold idx. rewrite pw_S, Z.mul_comm, Z.div_div; pose proof (pw_pos k); lia. Qed.
Lemma bit_clear_even c k : 0 <= c -> bit_clear c k = Z.even (idx c k).
Proof.
  intros Hc. unfold bit_clear, idx, pw. rewrite Z.testbit_odd, Z.shiftr_div_pow2 by lia. apply Z.negb_odd.
Qed.
Lemma idx_0 x : idx x 0 = x.
Proof. unfold idx, pw. apply Z.div_1_r. Qed.
(** [q] counts the nodes of level [k] over exactly [c] leaves. *)
Lemma idx_exact c k q : c = q * pw k -> idx c k = q.
Proof. intros ->. apply Z.div_mul. pose proof (pw_pos k). lia. Qed.
Lemma exact_up c k q : c = q * pw k -> Z.even q = true -> c = (q / 2) * pw (S k).
Proof.
  intros -> Hq. apply Z.even_spec in Hq as [x ->]. rewrite (Z.mul_comm 2 x), Z.div_mul, pw_S by lia. lia.
Qed.
Lemma siblings_S k : siblings (S k) = siblings k ++ [sibling k (idx pos k)].
Proof. unfold siblings. rewrite seq_S, map_app. reflexivity. Qed.
Lemma width_exact c l : n <= c < n + pw l -> c = idx c l * pw l -> width l = idx c l.
Proof.
  intros H1 H2. unfold width. pose proof (pw_pos l). symmetry. apply (Z.div_unique _ _ _ (n + pw l - 1 - c)); lia.
Qed.
Lemma node_pair l q : Z.even q = true -> q <= width l -> node (S l) (q / 2 - 1) = Hash2 (node l (q - 2)) (node l (q - 1)).
Proof.
  intros Hq Hw. apply Z.even_spec in Hq as [x ->]. rewrite (Z.mul_comm 2 x), Z.div_mul by lia. cbn [node].
  replace (2 * (x - 1) + 1) with (x * 2 - 1) by lia. rewrite (proj2 (Z.ltb_lt _ _)) by lia. do 2 f_equal. lia.
Qed.

(** The loops that combine: the state at a level describes the last node. *)
Lemma combine_spec fuel inner ml c l h mh path :
  0 < c < pw (l + fuel) -> c = idx c l * pw l -> h = node l (idx c l - 1) ->
  (forall k, (l <= k)%nat -> c = idx c k * pw k -> idx c k <= width k) ->
  (forall k, (l <= k)%nat -> c = idx c (S k) * pw (S k) -> inner !!! k = node k (idx c k - 2)) ->
  (mh = true <-> idx pos l = idx c l - 1) -> (mh = true -> path = siblings l) ->
  (mh = false -> forall k, (l <= k)%nat -> c = idx c (S k) * pw (S k) ->
     (ml = Some k <-> idx pos k = idx c k - 2) /\ (ml = Some k -> path = siblings k)) ->
  exists L mh' path', combine Hash2 fuel inner ml c l h mh path = Some (L, node L (idx c L - 1), mh', path') /\
    (l <= L)%nat /\ c = idx c L * pw L /\ Z.even (idx c L) = false /\
    (mh' = true <-> idx pos L = idx c L - 1) /\ (mh' = true -> path' = siblings L) /\ (mh' = false -> mh = false /\ path' = path).
Proof.
  revert l h mh path. induction fuel as [|fuel IH]; intros l h mh path Hc Ex Eh Hw Hin Hmh Hp Hml.
  { rewrite Nat.add_0_r in Hc. assert (0 < idx c l) by (pose proof (pw_pos l); nia). nia. }
  cbn [combine]. rewrite bit_clear_even by lia. destruct (Z.even (idx c l)) eqn:Ev.
  2: { exists l, mh, path. split; [rewrite Eh; reflexivity|]. auto 10. }
  pose proof (exact_up c l _ Ex Ev) as Ex'. rewrite <- idx_S in Ex'. pose proof (Hw l ltac:(lia) Ex) as Hwl.
  pose proof (node_pair l _ Ev Hwl) as Hpair. rewrite <- idx_S in Hpair. rewrite (Hin l ltac:(lia) Ex').
  assert (Hev : exists x, idx c l = 2 * x) by (apply Z.even_spec, Ev). destruct Hev as [x Hx].
  assert (HS : forall y, idx y (S l) = idx y l / 2) by (intros; apply idx_S).
  assert (Hsame : idx pos (S l) = idx c (S l) - 1 <-> idx pos l = idx c l - 1 \/ idx pos l = idx c l - 2).
  { rewrite !HS, Hx, (Z.mul_comm 2 x), Z.div_mul by lia. pose proof (Z.div_mod (idx pos l) 2). pose proof (Z.mod_pos_bound (idx pos l) 2). lia. }
  assert (Hnext : exists mh1 path1,
    (if mh then (path ++ [node l (idx c l - 2)], true) else if decide (ml = Some l) then (path ++ [h], true) else (path, false)) = (path1, mh1) /\
    (mh1 = true <-> idx pos (S l) = idx c (S l) - 1) /\ (mh1 = true -> path1 = siblings (S l)) /\ (mh1 = false -> mh = false /\ path1 = path)).
  { rewrite siblings_S. destruct mh; [|destruct (decide (ml = Some l)) as [El|El]]; do 2 eexists; (split; [reflexivity|]); rewrite Hsame.
    - split; [tauto|]. split; [|discriminate]. intros _. rewrite <- (Hp eq_refl). do 2 f_equal. unfold sibling.
      rewrite (proj1 Hmh eq_refl), Hx. replace (Z.even (2 * x - 1)) with false by (symmetry; rewrite <- Z.negb_odd; apply negb_false_iff, Z.odd_spec; exists (x - 1); lia).
      rewrite (proj2 (Z.ltb_lt _ _)) by lia. f_equal. lia.
    - destruct (Hml eq_refl l ltac:(lia) Ex') as [[Hi _] Hpl]. split; [tauto|]. split; [|discriminate]. intros _. rewrite (Hpl El). do 2 f_equal.
      rewrite Eh. unfold sibling. rewrite (Hi El), Hx. replace (Z.even (2 * x - 2)) with true by (symmetry; apply Z.even_spec; exists (x - 1); lia).
      rewrite (proj2 (Z.ltb_lt _ _)) by lia. f_equal. lia.
    - destruct (Hml eq_refl l ltac:(lia) Ex') as [Hi _]. split; [|split; [discriminate|auto]]. split; [discriminate|]. intros [E|E]; [apply Hmh in E; discriminate|tauto]. }
  destruct Hnext as (mh1 & path1 & -> & Hmh1 & Hp1 & Hno). cbv beta iota zeta.
  destruct (IH (S l) (Hash2 (node l (idx c l - 2)) h) mh1 path1) as (L & mh' & path' & -> & HL & H1 & H2 & H3 & H4 & H5).
  - rewrite Nat.add_succ_comm. exact Hc.
  - exact Ex'.
  - rewrite Eh. symmetry. exact Hpair.
  - intros k Hk. apply Hw. lia.
  - intros k Hk. apply Hin. lia.
  - exact Hmh1.
  - exact Hp1.
  - intros E k Hk Hd. destruct (Hno E) as [E0 ->]. apply (Hml E0 k ltac:(lia) Hd).
  - exists L, mh', path'. split; [reflexivity|]. split; [lia|]. split; [exact H1|]. split; [exact H2|]. split; [exact H3|]. split; [exact H4|].
    intros E. destruct (H5 E) as [E1 ->]. exact (Hno E1).
Qed.

Lemma pw_add k d : pw (k + d) = pw k * pw d.
Proof. unfold pw. rewrite Nat2Z.inj_add, Z.pow_add_r by lia. reflexivity. Qed.
Lemma pw_mono k k' : (k <= k')%nat -> pw k <= pw k'.
Proof. intros H. unfold pw. apply Z.pow_le_mono_r; lia. Qed.
Lemma idx_add x k d : idx x (k + d) = idx x k / pw d.
Proof. unfold idx. rewrite pw_add, Z.div_div; [reflexivity|pose proof (pw_pos k); lia|apply pw_pos]. Qed.
Lemma exact_down c k : c = idx c (S k) * pw (S k) -> c = idx c k * pw k /\ idx c k = 2 * idx c (S k).
Proof.
  intros H. assert (E : idx c k = 2 * idx c (S k)) by (apply idx_exact; rewrite H at 1; rewrite pw_S; lia).
  split; [|exact E]. rewrite E. rewrite H at 1. rewrite pw_S. lia.
Qed.
Lemma exact_le c j k : (j < k)%nat -> c = idx c k * pw k -> c = idx c (S j) * pw (S j).
Proof.
  intros Hj H. induction k as [|k IH]; [lia|]. destruct (decide (j = k)) as [->|Hne]; [exact H|]. apply IH; [lia|]. apply exact_down, H.
Qed.
Lemma below_exact x c k : c = idx c k * pw k -> c - pw k <= x < c -> idx x k = idx c k - 1.
Proof. intros H1 H2. symmetry. apply (Z.div_unique _ _ _ (x - (idx c k - 1) * pw k)); lia. Qed.

(** The node of a level that ends at [c] leaves and holds the leaf. *)
Definition holder (c : Z) (k : nat) : Prop := Z.even (idx c k) = false /\ idx pos k = idx c k - 1.
Lemma holder_unique c j k : holder c j -> holder c k -> j = k.
Proof.
  assert (Hlt : forall a b, (a < b)%nat -> holder c a -> holder c b -> False).
  { intros a b Hab [Ha1 Ha2] [_ Hb]. replace b with (S a + (b - S a))%nat in Hb by lia. rewrite !idx_add, !idx_S, Ha2 in Hb.
    rewrite <- Z.negb_odd in Ha1. apply negb_false_iff, Z.odd_spec in Ha1 as [y Hy]. rewrite Hy in Hb.
    replace ((2 * y + 1 - 1) / 2) with ((2 * y + 1) / 2) in Hb; [lia|]. rewrite Z.add_simpl_r.
    rewrite (Z.mul_comm 2 y), Z.div_mul, Z.div_add_l by lia. apply Z.add_0_r. }
  intros H1 H2. destruct (Nat.lt_trichotomy j k) as [H|[H|H]]; [destruct (Hlt _ _ H H1 H2)|exact H|destruct (Hlt _ _ H H2 H1)].
Qed.

Definition inner_ok (c : Z) (inner : list Z) : Prop :=
  length inner = LEVELS /\ forall k, Z.even (idx c k) = false -> inner !!! k = node k (idx c k - 1).
Definition match_ok (c : Z) (ml : option nat) (path : list Z) : Prop :=
  if pos <? c then exists k, ml = Some k /\ holder c k /\ path = siblings k else ml = None /\ path = [].

(** What the next count needs of the state at [x] leaves. *)
Lemma carry x c inner ml path k :
  inner_ok x inner -> match_ok x ml path -> c - pw k <= x < c -> c = idx c (S k) * pw (S k) ->
  inner !!! k = node k (idx c k - 2) /\ (ml = Some k <-> idx pos k = idx c k - 2) /\ (ml = Some k -> path = siblings k).
Proof.
  intros [_ Hi] Hm Hx Hc. destruct (exact_down c k Hc) as [Hc' E2]. pose proof (below_exact x c k Hc' Hx) as Ex.
  assert (Hodd : Z.even (idx x k) = false).
  { rewrite Ex, E2. rewrite <- Z.negb_odd. apply negb_false_iff, Z.odd_spec. exists (idx c (S k) - 1). lia. }
  split; [rewrite (Hi k Hodd); f_equal; lia|]. unfold match_ok in Hm. destruct (Z.ltb_spec pos x) as [Hlt|Hge].
  - destruct Hm as (k0 & -> & Hh & ->). split; [|intros [= ->]; reflexivity]. split.
    + intros [= ->]. destruct Hh as [_ ->]. lia.
    + intros E. f_equal. apply (holder_unique x); [exact Hh|]. split; [exact Hodd|lia].
  - destruct Hm as [-> ->]. split; [|discriminate]. split; [discriminate|]. intros E. exfalso.
    pose proof (pw_pos k) as Hp. pose proof (Z.mul_succ_div_gt pos (pw k) Hp) as H1. pose proof (Z.mul_div_le x (pw k) Hp) as H2.
    unfold idx in *. nia.
Qed.

Lemma siblings_0 : siblings 0 = [].
Proof. reflexivity. Qed.
Lemma level_bound c L : 0 < c <= 2 ^ 31 -> c = idx c L * pw L -> (L < 32)%nat.
Proof.
  intros Hc H. destruct (Nat.lt_ge_cases L 32) as [|HL]; [assumption|]. apply pw_mono in HL. change (pw 32) with (2 ^ 32) in HL.
  assert (0 < idx c L) by nia. nia.
Qed.

(** One more leaf. *)
Lemma absorb_step c inner ml path :
  0 <= c < n -> inner_ok c inner -> match_ok c ml path ->
  exists L h mh path', combine Hash2 LEVELS inner ml (c + 1) 0 (leaves !!! Z.to_nat c) (c =? pos) path = Some (L, h, mh, path') /\
    inner_ok (c + 1) (set_inner inner L h) /\ match_ok (c + 1) (if mh then Some L else ml) path'.
Proof.
  intros Hc Hi Hm. set (c' := c + 1).
  destruct (combine_spec LEVELS inner ml c' 0 (leaves !!! Z.to_nat c) (c =? pos) path) as (L & mh & path' & E & _ & HL & Hodd & Hmh & Hp & Hno).
  - change (pw (0 + LEVELS)) with (2 ^ 32). lia.
  - rewrite idx_0. change (pw 0) with 1. lia.
  - rewrite idx_0. cbn [node]. subst c'. rewrite Z.add_simpl_r. reflexivity.
  - intros k _ _. unfold idx, width. pose proof (pw_pos k). apply Z.div_le_mono; lia.
  - intros k _ Hk. pose proof (pw_pos k). apply (carry c c' inner ml path k); auto; lia.
  - rewrite !idx_0. subst c'. rewrite Z.eqb_eq. lia.
  - rewrite Z.eqb_eq. intros ->. unfold match_ok in Hm. rewrite Z.ltb_irrefl in Hm. apply Hm.
  - intros _ k _ Hk. pose proof (pw_pos k). apply (carry c c' inner ml path k); auto; lia.
  - exists L, (node L (idx c' L - 1)), mh, path'. split; [exact E|].
    assert (HL32 : (L < 32)%nat) by (apply (level_bound c'); [lia|exact HL]).
    assert (Hhigh : forall k, (L < k)%nat -> idx c' k = idx c k).
    { intros k Hk. pose proof (pw_pos k) as Hpk. destruct (Z.eq_dec (c' mod pw k) 0) as [E0|E0].
      - exfalso. assert (Hex : c' = idx c' k * pw k) by (unfold idx; pose proof (Z.div_mod c' (pw k)); lia).
        apply (exact_le c' L k Hk), exact_down in Hex as [_ E2]. rewrite E2, Z.even_mul in Hodd. discriminate.
      - unfold idx. apply (Z.div_unique _ _ _ (c' mod pw k - 1)) ; pose proof (Z.div_mod c' (pw k)); pose proof (Z.mod_pos_bound c' (pw k)); lia. }
    assert (Hlow : forall k, Z.even (idx c' k) = false -> (L <= k)%nat).
    { intros k Hk. destruct (Nat.lt_ge_cases k L) as [Hlt|]; [|assumption]. exfalso.
      apply (exact_le c' k L Hlt), exact_down in HL as [_ E2]. rewrite E2, Z.even_mul in Hk. discriminate. }
    split.
    + split; [unfold set_inner; rewrite length_insert; apply Hi|]. intros k Hk. unfold set_inner.
      destruct (decide (k = L)) as [->|Hne]; [apply list_lookup_total_insert_eq; rewrite (proj1 Hi); exact HL32|].
      rewrite list_lookup_total_insert_ne by congruence. pose proof (Hlow k Hk). rewrite (Hhigh k) in * by lia. apply Hi, Hk.
    + unfold match_ok in *. destruct mh.
      * rewrite (proj2 (Z.ltb_lt _ _)).
        -- exists L. split; [reflexivity|]. split; [split; [exact Hodd|apply Hmh; reflexivity]|auto].
        -- pose proof (proj1 Hmh eq_refl) as Ep. pose proof (pw_pos L) as HpL. pose proof (Z.mul_succ_div_gt pos (pw L) HpL).
           unfold idx in Ep, HL. rewrite HL. nia.
      * destruct (Hno eq_refl) as [Hne ->]. apply Z.eqb_neq in Hne. subst c'.
        destruct (Z.ltb_spec pos c) as [Hlt|Hge]; [|rewrite (proj2 (Z.ltb_ge _ _)) by lia; exact Hm].
        rewrite (proj2 (Z.ltb_lt _ _)) by lia. destruct Hm as (k & Ek & [Hk1 Hk2] & ->). exists k. split; [exact Ek|]. split; [|reflexivity].
        assert (Hk : (L < k)%nat).
        { destruct (Nat.lt_trichotomy L k) as [|[<-|Hlt']]; [assumption| |].
          - exfalso. rewrite (below_exact c (c + 1) L HL) in Hk1 by (pose proof (pw_pos L); lia).
            rewrite Z.even_sub, Hodd in Hk1. discriminate.
          - exfalso. pose proof (exact_le _ _ _ Hlt' HL) as Hex. pose proof (exact_down _ _ Hex) as [Hex' _].
            rewrite (below_exact c (c + 1) k Hex') in Hk2 by (pose proof (pw_pos k); lia).
            enough (idx pos L = idx (c + 1) L - 1) as Hm by (apply Hmh in Hm; discriminate).
            apply (below_exact pos (c + 1) L HL). split; [|lia]. pose proof (pw_mono (S k) L Hlt') as Hpw. rewrite pw_S in Hpw.
            pose proof (Z.mul_div_le pos (pw k) (pw_pos k)). unfold idx in Hk2, Hex'. nia. }
        unfold holder. rewrite (Hhigh k Hk). auto.
Qed.

Lemma absorb_leaves_spec rest c inner ml path :
  (forall i, (i < length rest)%nat -> rest !!! i = leaves !!! (Z.to_nat c + i)%nat) -> 0 <= c -> c + Z.of_nat (length rest) = n ->
  inner_ok c inner -> match_ok c ml path ->
  exists inner' ml' path', absorb_leaves Hash2 rest pos c inner ml path = Some (n, inner', ml', path') /\ inner_ok n inner' /\ match_ok n ml' path'.
Proof.
  revert c inner ml path. induction rest as [|h rest IH]; intros c inner ml path Hr Hc Hl Hi Hm; cbn [absorb_leaves length] in *.
  { replace n with c by lia. exists inner, ml, path. auto. }
  assert (Eh : h = leaves !!! Z.to_nat c) by (specialize (Hr 0%nat ltac:(lia)); rewrite Nat.add_0_r in Hr; exact Hr).
  rewrite u32_id by (unfold is_u32; lia). rewrite Eh. destruct (absorb_step c inner ml path ltac:(lia) Hi Hm) as (L & h' & mh & path' & -> & Hi' & Hm').
  cbn [mbind option_bind]. apply IH; [|lia|lia|exact Hi'|exact Hm'].
  intros i Hlt. replace (Z.to_nat (c + 1) + i)%nat with (Z.to_nat c + S i)%nat by lia. exact (Hr (S i) ltac:(lia)).
Qed.

Lemma lowest_level_spec fuel c l :
  0 < c < pw (l + fuel) -> c = idx c l * pw l ->
  exists L, lowest_level fuel c l = Some L /\ c = idx c L * pw L /\ Z.even (idx c L) = false.
Proof.
  revert l. induction fuel as [|fuel IH]; intros l Hc Ex.
  { rewrite Nat.add_0_r in Hc. assert (0 < idx c l) by (pose proof (pw_pos l); nia). nia. }
  cbn [lowest_level]. rewrite bit_clear_even by lia. destruct (Z.even (idx c l)) eqn:Ev; [|eauto].
  pose proof (exact_up c l _ Ex Ev) as Ex'. rewrite <- idx_S in Ex'. apply IH; [rewrite Nat.add_succ_comm; exact Hc|exact Ex'].
Qed.

(** The sweep over the right edge. *)
Lemma sweep_spec fuel inner ml c l h mh path :
  inner_ok n inner -> n <= c < n + pw l -> c <= 2 ^ 31 -> (c = pw l -> c < 2 * n) -> (32 <= l + fuel)%nat ->
  c = idx c l * pw l -> Z.even (idx c l) = false -> h = node l (idx c l - 1) ->
  (mh = true <-> idx pos l = idx c l - 1) -> (mh = true -> path = siblings l) -> (mh = false -> match_ok n ml path) ->
  (exists k, ml = Some k /\ holder n k) ->
  exists L, sweep Hash2 fuel inner ml c l h mh path = Some (siblings L) /\ n <= pw L < 2 * n.
Proof.
  intros Hi. revert c l h mh path. induction fuel as [|fuel IH]; intros c l h mh path Hc Hc31 Hmin Hf Ex Hodd Eh Hmh Hp Hno Hml.
  { pose proof (level_bound c l ltac:(lia) Ex). lia. }
  pose proof (level_bound c l ltac:(lia) Ex) as Hl. pose proof (pw_pos l) as Hpl.
  assert (Hpl31 : pw l <= 2 ^ 31) by (apply (pw_mono l 31); lia).
  cbn [sweep]. rewrite Z.shiftl_1_l. change (2 ^ Z.of_nat l) with (pw l). rewrite !(u32_id (pw l)) by (unfold is_u32; lia).
  pose proof (width_exact c l Hc Ex) as Hw.
  destruct (Z.eqb_spec c (pw l)) as [E|Hne].
  { exists l. specialize (Hmin E). split; [|lia]. f_equal. apply Hp, Hmh. unfold idx. rewrite E, Z.div_same by lia. apply Z.div_small. lia. }
  set (c' := c + pw l). rewrite <- Z.negb_odd in Hodd. apply negb_false_iff, Z.odd_spec in Hodd as [y Hy].
  assert (Ec : c = (2 * y + 1) * pw l) by (rewrite <- Hy; exact Ex).
  assert (Hy0 : 1 <= y).
  { destruct (Z_lt_le_dec y 1) as [Hlt|]; [exfalso|assumption]. assert (y = 0 \/ y < 0) as [->|] by lia; [lia|nia]. }
  assert (Ex' : c' = (y + 1) * pw (S l)) by (subst c'; rewrite pw_S, Ec; lia).
  pose proof (idx_exact c' (S l) _ Ex') as Hic.
  assert (Hc' : c' <= 2 ^ 31).
  { assert (Hl31 : (S l <= 31)%nat).
    { destruct (Nat.le_gt_cases (S l) 31) as [|Hgt]; [assumption|]. pose proof (pw_mono 31 l ltac:(lia)) as Hg. change (pw 31) with (2 ^ 31) in Hg. nia. }
    assert (E31 : 2 ^ 31 = pw (31 - S l) * pw (S l)) by (rewrite Z.mul_comm, <- pw_add; replace (S l + (31 - S l))%nat with 31%nat by lia; reflexivity).
    assert (Hlt : y * pw (S l) < pw (31 - S l) * pw (S l)) by (rewrite pw_S in *; nia).
    apply Z.mul_lt_mono_pos_r in Hlt; [|apply pw_pos]. rewrite Ex', E31. apply Z.mul_le_mono_nonneg_r; [pose proof (pw_pos (S l)); lia|lia]. }
  rewrite (u32_id c') by (unfold is_u32; lia).
  assert (Hbelow : forall k, (S l <= k)%nat -> c' - pw k < n < c').
  { intros k Hk. apply pw_mono in Hk. rewrite pw_S in Hk. lia. }
  destruct (combine_spec LEVELS inner ml c' (S l) (Hash2 h h) mh (if mh then path ++ [h] else path))
    as (L & mh' & path' & -> & HL & H1 & H2 & H3 & H4 & H5).
  - split; [lia|]. rewrite pw_add. change (pw LEVELS) with (2 ^ 32). pose proof (pw_pos (S l)).
    apply (Z.lt_le_trans _ (1 * 2 ^ 32)); [lia|apply Z.mul_le_mono_nonneg_r; lia].
  - rewrite Hic. exact Ex'.
  - rewrite Hic, Eh, Hy. cbn [node]. replace (2 * (y + 1 - 1)) with (2 * y) by lia. rewrite Hw, Hy, Z.ltb_irrefl. do 2 f_equal; f_equal; lia.
  - intros k Hk Hex. rewrite (width_exact c' k); [lia| |exact Hex]. specialize (Hbelow k Hk). lia.
  - intros k Hk Hex. destruct (decide (mh = false)) as [->|Hmt].
    + apply (carry n c' inner ml path k); auto; specialize (Hbelow k Hk); lia.
    + destruct Hml as (k0 & Ek & Hh). apply (carry n c' inner ml (siblings k0) k); auto; [|specialize (Hbelow k Hk); lia].
      unfold match_ok. rewrite (proj2 (Z.ltb_lt _ _)) by lia. eauto.
  - rewrite Hmh, idx_S, Hic, Hy. pose proof (Z.div_mod (idx pos l) 2). pose proof (Z.mod_pos_bound (idx pos l) 2).
    assert (idx pos l < 2 * y + 1); [|lia]. rewrite <- Hy. apply Z.div_lt_upper_bound; [exact Hpl|]. lia.
  - intros ->. rewrite siblings_S, <- (Hp eq_refl). do 2 f_equal. rewrite Eh. unfold sibling. rewrite (proj1 Hmh eq_refl), Hw, Hy.
    replace (Z.even (2 * y + 1 - 1)) with true by (symmetry; apply Z.even_spec; exists y; lia).
    rewrite (proj2 (Z.ltb_ge _ _)) by lia. reflexivity.
  - intros -> k Hk Hex. apply (carry n c' inner ml path k); auto; specialize (Hbelow k Hk); lia.
  - cbn [mbind option_bind]. apply IH; auto; [| |lia| ].
    + pose proof (pw_mono _ _ HL) as HpL. rewrite pw_S in HpL. lia.
    + intros EL. assert (HL2 : (S (S l) <= L)%nat).
      { destruct (decide (L = S l)) as [->|]; [|lia]. exfalso. rewrite pw_S in *. nia. }
      apply pw_mono in HL2. rewrite !pw_S in HL2. lia.
    + intros E. destruct (H5 E) as [-> ->]. auto.
Qed.

Lemma path_spec : exists L, ComputeMerklePath Hash2 leaves pos = Some (siblings L) /\ n <= pw L < 2 * n.
Proof.
  unfold ComputeMerklePath. assert (Hne : leaves <> []) by (intros E; rewrite E in Hn; cbn in Hn; lia).
  assert (Eq : MerkleComputation Hash2 leaves pos =
    ('(count, inner, matchlevel, path) ← absorb_leaves Hash2 leaves pos 0 (replicate LEVELS 0) None [];
      level ← lowest_level LEVELS count 0;
      sweep Hash2 LEVELS inner matchlevel count level (inner !!! level) (bool_decide (matchlevel = Some level)) path))
    by (unfold MerkleComputation; clear Hn Hpos; destruct leaves; [contradiction|reflexivity]).
  rewrite Eq.
  destruct (absorb_leaves_spec leaves 0 (replicate LEVELS 0) None []) as (inner & ml & path & -> & Hi & Hm); auto; [lia|split; [reflexivity|]|unfold match_ok; rewrite (proj2 (Z.ltb_ge _ _)) by lia; auto|].
  { intros k Hk. unfold idx in Hk. rewrite Z.div_0_l in Hk by (pose proof (pw_pos k); lia). discriminate. }
  cbn [mbind option_bind]. destruct (lowest_level_spec LEVELS n 0) as (L & -> & Ex & Hodd).
  { change (pw (0 + LEVELS)) with (2 ^ 32). lia. } { rewrite idx_0. change (pw 0) with 1. lia. }
  cbn [mbind option_bind]. pose proof Hm as Hm'. unfold match_ok in Hm'. rewrite (proj2 (Z.ltb_lt _ _)) in Hm' by lia.
  destruct Hm' as (k & -> & Hh & Ep). apply sweep_spec; auto; try (pose proof (pw_pos L); lia); [change LEVELS with 32%nat; lia|apply Hi, Hodd| | |eauto].
  - rewrite bool_decide_eq_true. split; [intros [= ->]; apply Hh|]. intros E. f_equal. apply (holder_unique n k L Hh). split; assumption.
  - rewrite bool_decide_eq_true. intros [= ->]. exact Ep.
Qed.

(** The levels of the tree are the lists the root is computed from. *)
Definition level_list (l : nat) : list Z := map (fun i => node l (Z.of_nat i)) (seq 0 (Z.to_nat (width l))).

Lemma width_pos l : 1 <= width l.
Proof. unfold width. pose proof (pw_pos l). apply Z.div_le_lower_bound; lia. Qed.
Lemma width_S l : width (S l) = (width l + 1) / 2.
Proof.
  unfold width. rewrite pw_S. pose proof (pw_pos l) as Hp. rewrite (Z.mul_comm 2), <- Z.div_div by lia. f_equal.
  replace (n + pw l * 2 - 1) with (n + pw l - 1 + 1 * pw l) by lia. rewrite Z.div_add by lia. reflexivity.
Qed.
Lemma level_list_0 : level_list 0 = leaves.
Proof.
  unfold level_list, width. change (pw 0) with 1. rewrite Z.div_1_r. replace (n + 1 - 1) with n by lia. rewrite Nat2Z.id.
  apply list_eq_same_length with (n := length leaves); [reflexivity|rewrite length_map, length_seq; reflexivity|].
  intros i x y Hi Hx Hy. rewrite list_lookup_fmap, lookup_seq_lt in Hx by exact Hi. cbn in Hx. injection Hx as <-.
  rewrite Nat2Z.id. rewrite (list_lookup_total_correct _ _ _ Hy). reflexivity.
Qed.

(** Hashing the pairs of a level, counted from an even position. *)
Lemma level_pairs_map l a k :
  SHA256D64 Hash2 (map (fun i => node l (Z.of_nat i)) (seq (2 * a) (2 * k))) =
  map (fun i => Hash2 (node l (2 * Z.of_nat i)) (node l (2 * Z.of_nat i + 1))) (seq a k).
Proof.
  revert a. induction k as [|k IH]; intros a; [reflexivity|]. replace (2 * S k)%nat with (S (S (2 * k))) by lia.
  cbn [seq map SHA256D64]. f_equal; [f_equal; f_equal; lia|]. replace (S (S (2 * a))) with (2 * S a)%nat by lia. apply IH.
Qed.
Lemma up_level l : up Hash2 (level_list l) = level_list (S l).
Proof.
  unfold up, level_list at 1, push_back_odd. rewrite length_map, length_seq. pose proof (width_pos l) as Hw. pose proof (width_S l) as HwS.
  set (w := Z.to_nat (width l)). destruct (Nat.odd w) eqn:Eo.
  - apply Nat.odd_spec in Eo as [k Ek]. replace (seq 0 w) with (seq 0 (2 * k) ++ [2 * k]%nat) by (rewrite Ek, Nat.add_1_r, seq_S; reflexivity).
    rewrite map_app. cbn [map]. rewrite last_last, <- app_assoc. cbn [app].
    assert (Happ : forall x y z, Nat.even (length x) = true -> SHA256D64 Hash2 (x ++ [y; z]) = SHA256D64 Hash2 x ++ [Hash2 y z]).
    { intros x y z. induction x as [| |? ? x IH] using pairs_ind; cbn; intros H; [reflexivity|discriminate|rewrite IH by exact H; reflexivity]. }
    rewrite Happ by (rewrite length_map, length_seq; apply Nat.even_spec; exists k; lia).
    change (seq 0 (2 * k)) with (seq (2 * 0) (2 * k)). rewrite (level_pairs_map l 0 k). unfold level_list. replace (Z.to_nat (width (S l))) with (S k).
    2: { rewrite HwS. replace (width l + 1) with (Z.of_nat (S k) * 2) by lia. rewrite Z.div_mul by lia. lia. }
    rewrite seq_S, map_app. cbn [map]. f_equal.
    + apply map_ext_in. intros i Hi. apply in_seq in Hi. cbn [node]. rewrite (proj2 (Z.ltb_lt _ _)) by lia. reflexivity.
    + cbn [node]. rewrite Nat.add_0_l, (proj2 (Z.ltb_ge _ _)) by lia. do 2 f_equal; f_equal; lia.
  - assert (Ev : Nat.even w = true) by (rewrite <- Nat.negb_odd, Eo; reflexivity). apply Nat.even_spec in Ev as [k Ek]. rewrite Ek.
    change (seq 0 (2 * k)) with (seq (2 * 0) (2 * k)). rewrite (level_pairs_map l 0 k). unfold level_list. replace (Z.to_nat (width (S l))) with k.
    2: { rewrite HwS. replace (width l + 1) with (1 + Z.of_nat k * 2) by lia. rewrite Z.div_add by lia. change (1 / 2) with 0. lia. }
    apply map_ext_in. intros i Hi. apply in_seq in Hi. cbn [node]. rewrite (proj2 (Z.ltb_lt _ _)) by lia. reflexivity.
Qed.

Lemma root_spec fuel l m r b :
  (width l = 1 -> pw l < 2 * n) -> ComputeMerkleRoot_loop Hash2 fuel (level_list l) m = Some (r, b) ->
  exists L, n <= pw L < 2 * n /\ r = node L 0.
Proof.
  revert l m. induction fuel as [|fuel IH]; intros l m Hl H; pose proof (width_pos l) as Hw.
  all: assert (Hlen : length (level_list l) = Z.to_nat (width l)) by (unfold level_list; rewrite length_map, length_seq; reflexivity).
  all: destruct (level_list l) as [|x [|y xs]] eqn:E; cbn [length] in Hlen; [lia| |].
  1, 3: exists l; assert (width l = 1) as E1 by lia; specialize (Hl E1); split;
    [|unfold level_list in E; rewrite E1 in E; cbn [seq map] in E; change (Z.to_nat 1) with 1%nat in E;
     cbn [seq map] in E; change (Z.of_nat 0) with 0 in E; cbn [ComputeMerkleRoot_loop] in H; congruence].
  1, 2: unfold width in E1; pose proof (pw_pos l); split; [|exact Hl]; pose proof (Z.mul_succ_div_gt (n + pw l - 1) (pw l)); lia.
  - discriminate.
  - cbn [ComputeMerkleRoot_loop] in H. fold (up Hash2 (x :: y :: xs)) in H. rewrite <- E, up_level in H. eapply IH; [|exact H].
    intros _. rewrite pw_S. assert (pw l < n); [|lia]. assert (2 <= width l) as Hw2 by lia. unfold width in Hw2. pose proof (pw_pos l) as Hp.
    pose proof (Z.mul_div_le (n + pw l - 1) (pw l) Hp). nia.
Qed.

Lemma depth_unique L L' : n <= pw L < 2 * n -> n <= pw L' < 2 * n -> L = L'.
Proof.
  assert (H : forall a b, (a < b)%nat -> n <= pw a -> pw b < 2 * n -> False).
  { intros a b Hab Ha Hb. apply (pw_mono (S a) b) in Hab. rewrite pw_S in Hab. lia. }
  intros H1 H2. destruct (Nat.lt_trichotomy L L') as [Hl|[|Hl]]; [destruct (H _ _ Hl); lia|assumption|destruct (H _ _ Hl); lia].
Qed.

(** Following a path from a leaf. *)
Fixpoint follow (i h : Z) (path : list Z) : Z :=
  match path with [] => h | s :: path => follow (i / 2) (if Z.even i then Hash2 h s else Hash2 s h) path end.
Lemma node_parent l i :
  0 <= i < width l -> node (S l) (i / 2) = if Z.even i then Hash2 (node l i) (sibling l i) else Hash2 (sibling l i) (node l i).
Proof.
  intros Hi. unfold sibling. destruct (Z.even i) eqn:E.
  - apply Z.even_spec in E as [x ->]. rewrite (Z.mul_comm 2 x), Z.div_mul by lia. cbn [node]. rewrite (Z.mul_comm x 2). reflexivity.
  - rewrite <- Z.negb_odd in E. apply negb_false_iff, Z.odd_spec in E as [x ->].
    replace ((2 * x + 1) / 2) with x by (apply (Z.div_unique _ _ _ 1); lia). cbn [node].
    rewrite !(proj2 (Z.ltb_lt _ _)) by lia. f_equal. f_equal. lia.
Qed.
Lemma idx_width l : 0 <= idx pos l < width l.
Proof.
  pose proof (pw_pos l) as Hp. unfold idx, width. split; [apply Z.div_pos; lia|].
  apply Z.div_lt_upper_bound; [exact Hp|]. pose proof (Z.mul_succ_div_gt (n + pw l - 1) (pw l) Hp). lia.
Qed.
Lemma follow_siblings k l :
  follow (idx pos l) (node l (idx pos l)) (map (fun j => sibling j (idx pos j)) (seq l k)) = node (l + k) (idx pos (l + k)).
Proof.
  revert l. induction k as [|k IH]; intros l; [rewrite Nat.add_0_r; reflexivity|]. cbn [seq map follow].
  rewrite <- (node_parent l _ (idx_width l)), <- idx_S, IH. rewrite Nat.add_succ_comm. reflexivity.
Qed.

Lemma path_to_root :
  exists path r m, ComputeMerklePath Hash2 leaves pos = Some path /\ ComputeMerkleRoot Hash2 leaves = Some (r, m) /\
    follow pos (leaves !!! Z.to_nat pos) path = r /\ n <= 2 ^ Z.of_nat (length path) < 2 * n.
Proof.
  destruct path_spec as (L & E & HL). destruct (loop_total Hash2 (length leaves) leaves false ltac:(lia)) as [[r m] Er].
  exists (siblings L), r, m. split; [exact E|]. split; [exact Er|]. rewrite <- level_list_0 in Er at 2.
  apply root_spec in Er as (L' & HL' & ->).
  2: { change (pw 0) with 1. lia. }
  rewrite (depth_unique L' L HL' HL). split.
  - pose proof (follow_siblings L 0) as H. rewrite idx_0 in H. cbn [node Nat.add] in H. unfold siblings. rewrite H. f_equal.
    unfold idx. apply Z.div_small. lia.
  - unfold siblings. rewrite length_map, length_seq. exact HL.
Qed.
End Path.

(** C22: The tree binds the list of hashes: two lists without a repeated pair that
    have the same root are equal, or their trees contain two different pairs
    with the same double hash, or a leaf of one is an inner node of the
    other; in particular the duplications of CVE-2012-2459 are always
    detected. *)
Theorem merkle_root_binding Hash2 l1 l2 r :
  l1 <> [] -> l2 <> [] ->
  ComputeMerkleRoot Hash2 l1 = Some (r, false) -> ComputeMerkleRoot Hash2 l2 = Some (r, false) ->
  l1 = l2 \/ collision Hash2 (node_pairs Hash2 l1) (node_pairs Hash2 l2) \/
  leaf_is_node Hash2 l1 (node_pairs Hash2 l2) \/ leaf_is_node Hash2 l2 (node_pairs Hash2 l1).
Proof. intros N1 N2 H1 H2. eapply root_binding; eassumption. Qed.
Lemma merkle_root_binding_witness :
  [1; 2] = [0; 1002] \/ collision toy_node (node_pairs toy_node [1; 2]) (node_pairs toy_node [0; 1002]) \/
  leaf_is_node toy_node [1; 2] (node_pairs toy_node [0; 1002]) \/ leaf_is_node toy_node [0; 1002] (node_pairs toy_node [1; 2]).
Proof. apply (merkle_root_binding toy_node [1; 2] [0; 1002] 1002); [discriminate|discriminate|reflexivity|reflexivity]. Defined.

(** C17: The constant-space computation of a path agrees with the root: from every
    leaf of a list of up to [2^31] hashes, following the path that
    [ComputeMerklePath] returns gives the root that [ComputeMerkleRoot]
    returns, and the path has one hash per level. *)
Theorem merkle_path_reaches_root Hash2 leaves pos :
  0 < Z.of_nat (length leaves) <= 2 ^ 31 -> 0 <= pos < Z.of_nat (length leaves) ->
  exists path r m, ComputeMerklePath Hash2 leaves pos = Some path /\ ComputeMerkleRoot Hash2 leaves = Some (r, m) /\
    follow Hash2 pos (leaves !!! Z.to_nat pos) path = r /\
    Z.of_nat (length leaves) <= 2 ^ Z.of_nat (length path) < 2 * Z.of_nat (length leaves).
Proof. intros Hn Hp. apply path_to_root; assumption. Qed.
Lemma merkle_path_reaches_root_witness :
  exists path r m, ComputeMerklePath toy_node [1; 2; 3; 4; 5] 4 = Some path /\ ComputeMerkleRoot toy_node [1; 2; 3; 4; 5] = Some (r, m) /\
    follow toy_node 4 5 path = r /\ 5 <= 2 ^ Z.of_nat (length path) < 10.
Proof. apply (merkle_path_reaches_root toy_node [1; 2; 3; 4; 5] 4); cbn; lia. Defined.
