(* ===== verification/Block.v ===== *)
(** * Blocks and their context-free rules

    [CBlock] ([src/src/primitives/block.h]) with its serialization and its
    three memory-only flags, the Merkle roots of a block, the weights and the
    witness commitment ([src/src/consensus/validation.h]), and the rules of
    [src/src/validation.cpp] that need no coins: [CheckMerkleRoot],
    [CheckWitnessMalleation], [CheckBlock], [IsBlockMutated] and
    [ContextualCheckBlock].  The flags are mutable members of a constant
    object, so a check returns the block with the flags it leaves.

    [TxHash] and [WitnessHash] are the hashes of a transaction without and
    with its witness, [Hash2] double SHA-256 of two hashes. *)

From Stdlib Require Import String.
From stdpp Require Import gmap.
From S2P Require Import Prelude ConsensusParams ArithUint256 BlockIndex Pow Headers Serialize Script Transaction Coins TxCheck Merkle.

Local Open Scope Z_scope.

Record CBlock := mkBlock {
  header : CBlockHeader;
  vtx : list CTransaction;
  fChecked : bool;
  m_checked_witness_commitment : bool;
  m_checked_merkle_root : bool
}.
Definition set_fChecked (b : CBlock) : CBlock := mkBlock (header b) (vtx b) true (m_checked_witness_commitment b) (m_checked_merkle_root b).
Definition set_checked_witness (b : CBlock) : CBlock := mkBlock (header b) (vtx b) (fChecked b) true (m_checked_merkle_root b).
Definition set_checked_merkle (b : CBlock) : CBlock := mkBlock (header b) (vtx b) (fChecked b) (m_checked_witness_commitment b) true.

(** ** Serialization *)

Definition int32Formatter :=
  mkFormatter ser_writedata32 (fun s => '(v, s) ← ser_readdata32 s; Some (i32 v, s)).
Definition HeaderFormatter : Formatter CBlockHeader :=
  isoFormatter
    (fun h => (hdr_nVersion h, (hdr_hashPrevBlock h, (hdr_hashMerkleRoot h, (hdr_nTime h, (hdr_nBits h, hdr_nNonce h))))))
    (fun p => mkHeader p.1 p.2.1 p.2.2.1 p.2.2.2.1 p.2.2.2.2.1 p.2.2.2.2.2)
    (pairFormatter int32Formatter (pairFormatter uint256Formatter (pairFormatter uint256Formatter
      (pairFormatter uint32Formatter (pairFormatter uint32Formatter uint32Formatter))))).
Definition TxFormatter (fAllowWitness : bool) : Formatter CTransaction :=
  mkFormatter (SerializeTransaction fAllowWitness) (UnserializeTransaction fAllowWitness).
(** The members that are serialized. *)
Definition BlockFormatter (fAllowWitness : bool) : Formatter CBlock :=
  isoFormatter (fun b => (header b, vtx b)) (fun p => mkBlock p.1 p.2 false false false)
    (pairFormatter HeaderFormatter (VectorFormatter (TxFormatter fAllowWitness))).
Definition GetBlockSerializeSize (fAllowWitness : bool) (b : CBlock) : Z := size (Ser (BlockFormatter fAllowWitness) b).

(** ** Weights, data carriers and the witness commitment *)

Definition GetBlockWeight (b : CBlock) : Z :=
  i64 (u64 (u64 (GetBlockSerializeSize TX_NO_WITNESS b * (WITNESS_SCALE_FACTOR - 1)) + GetBlockSerializeSize TX_WITH_WITNESS b)).

Definition IsDataCarrierOutput (out : CTxOut) : bool :=
  match scriptPubKey out with [] => false | b :: _ => b =? OP_RETURN end.
Definition GetTransactionDataCarrierBytes (tx : CTransaction) : Z :=
  foldl (fun bytes out => if IsDataCarrierOutput out then u64 (bytes + size (scriptPubKey out)) else bytes) 0 (vout tx).
Definition GetBlockDataCarrierBytes (b : CBlock) : Z :=
  foldl (fun bytes tx => u64 (bytes + GetTransactionDataCarrierBytes tx)) 0 (vtx b).

Definition MINIMUM_WITNESS_COMMITMENT : Z := 38.
Definition is_commitment (s : CScript) : bool :=
  (MINIMUM_WITNESS_COMMITMENT <=? size s) && (byte s 0 =? OP_RETURN) && (byte s 1 =? 0x24) && (byte s 2 =? 0xaa) &&
  (byte s 3 =? 0x21) && (byte s 4 =? 0xa9) && (byte s 5 =? 0xed).
(** The loop keeps the last match; [None] is [NO_WITNESS_COMMITMENT]. *)
Definition GetWitnessCommitmentIndex (b : CBlock) : option nat :=
  match vtx b with
  | [] => None
  | tx :: _ => foldl (fun commitpos io => if is_commitment (scriptPubKey io.2) then Some io.1 else commitpos) None
                 (zip (seq 0 (length (vout tx))) (vout tx))
  end.

(** ** The rules *)

Definition MAX_BLOCK_SIGOPS_COST : Z := 1280000.
Definition MAX_BLOCK_DATACARRIER_BYTES : Z := 100 * 80.

Section Rules.
Context (EnableFuzzDeterminism : bool) (GetHash : CBlockHeader -> Z) (PoWHash : CBlockHeader -> Params -> Z) (params : Params).
Context (TxHash WitnessHash : CTransaction -> Z) (Hash2 : Z -> Z -> Z).

Definition BlockMerkleRoot (b : CBlock) : option (Z * bool) := ComputeMerkleRoot Hash2 (map TxHash (vtx b)).
Definition BlockWitnessMerkleRoot (b : CBlock) : option Z :=
  '(root, _) ← ComputeMerkleRoot Hash2 (0 :: map WitnessHash (drop 1 (vtx b))); Some root.

Definition CheckMerkleRoot (b : CBlock) : option (CBlock * Verdict) :=
  if m_checked_merkle_root b then Some (b, Valid)
  else
    '(merkle_root, mutated) ← BlockMerkleRoot b;
    if negb (hdr_hashMerkleRoot (header b) =? merkle_root) then Some (b, Invalid BLOCK_MUTATED "bad-txnmrklroot")
    else if (mutated : bool) then Some (b, Invalid BLOCK_MUTATED "bad-txns-duplicate")
    else Some (set_checked_merkle b, Valid).

(** The part of [CheckWitnessMalleation] without a commitment. *)
Definition unexpected_witness (b : CBlock) : Verdict :=
  if existsb HasWitness (vtx b) then Invalid BLOCK_MUTATED "unexpected-witness" else Valid.
Definition CheckWitnessMalleation (b : CBlock) (expect_witness_commitment : bool) : option (CBlock * Verdict) :=
  if expect_witness_commitment then
    if m_checked_witness_commitment b then Some (b, Valid)
    else match GetWitnessCommitmentIndex b with
    | Some commitpos =>
        tx ← vtx b !! 0%nat;
        txin ← vin tx !! 0%nat;
        match scriptWitness txin with
        | [reserved] =>
            if size reserved =? 32 then
              root ← BlockWitnessMerkleRoot b;
              out ← vout tx !! commitpos;
              let hash_witness := Hash2 root (le_value reserved) in
              if negb (le_value (take 32 (drop 6 (scriptPubKey out))) =? hash_witness)
              then Some (b, Invalid BLOCK_MUTATED "bad-witness-merkle-match")
              else Some (set_checked_witness b, Valid)
            else Some (b, Invalid BLOCK_MUTATED "bad-witness-nonce-size")
        | _ => Some (b, Invalid BLOCK_MUTATED "bad-witness-nonce-size")
        end
    | None => Some (b, unexpected_witness b)
    end
  else Some (b, unexpected_witness b).

Fixpoint check_transactions (txs : list CTransaction) (permit_v2_outputs : bool) (min_output_value : Z) : option Verdict :=
  match txs with
  | [] => Some Valid
  | tx :: txs =>
      match CheckTransaction tx permit_v2_outputs min_output_value with
      | TxValid => check_transactions txs permit_v2_outputs min_output_value
      | TxInvalid TX_CONSENSUS reason => Some (Invalid BLOCK_CONSENSUS reason)
      | TxInvalid _ _ => None
      end
  end.

(** Everything after the Merkle root. *)
Definition CheckBlock_transactions (b : CBlock) : option Verdict :=
  if (match vtx b with [] => true | _ => false end) ||
     (u64 (size (vtx b) * WITNESS_SCALE_FACTOR) >? MAX_BLOCK_WEIGHT) ||
     (u64 (GetBlockSerializeSize TX_NO_WITNESS b * WITNESS_SCALE_FACTOR) >? MAX_BLOCK_WEIGHT)
  then Some (Invalid BLOCK_CONSENSUS "bad-blk-length")
  else if negb (match vtx b with [] => false | tx :: _ => IsCoinBase tx end)
  then Some (Invalid BLOCK_CONSENSUS "bad-cb-missing")
  else if existsb IsCoinBase (drop 1 (vtx b)) then Some (Invalid BLOCK_CONSENSUS "bad-cb-multiple")
  else
    let is_genesis := GetHash (header b) =? hashGenesisBlock params in
    let permit_v2_outputs := permitV2Outputs params || is_genesis in
    let min_output_value := if is_genesis then 0 else minOutputValueSat params in
    v ← check_transactions (vtx b) permit_v2_outputs min_output_value;
    match v with
    | Invalid r reason => Some (Invalid r reason)
    | Valid =>
        let nSigOps := foldl (fun n tx => u32 (n + GetLegacySigOpCount tx)) 0 (vtx b) in
        if u32 (nSigOps * WITNESS_SCALE_FACTOR) >? MAX_BLOCK_SIGOPS_COST
        then Some (Invalid BLOCK_CONSENSUS "bad-blk-sigops") else Some Valid
    end.
Definition CheckBlock (b : CBlock) (fCheckPOW fCheckMerkleRoot : bool) : option (CBlock * Verdict) :=
  if fChecked b then Some (b, Valid)
  else match CheckBlockHeader EnableFuzzDeterminism GetHash PoWHash params (header b) fCheckPOW with
  | Invalid r reason => Some (b, Invalid r reason)
  | Valid =>
      '(b, v) ← (if fCheckMerkleRoot then CheckMerkleRoot b else Some (b, Valid));
      match v with
      | Invalid r reason => Some (b, Invalid r reason)
      | Valid =>
          v ← CheckBlock_transactions b;
          match v with
          | Invalid r reason => Some (b, Invalid r reason)
          | Valid => Some (if fCheckPOW && fCheckMerkleRoot then set_fChecked b else b, Valid)
          end
      end
  end.

Definition IsBlockMutated (b : CBlock) (check_witness_root : bool) : option (CBlock * bool) :=
  '(b, v) ← CheckMerkleRoot b;
  match v with
  | Invalid _ _ => Some (b, true)
  | Valid =>
      if negb (match vtx b with [] => false | tx :: _ => IsCoinBase tx end)
      then Some (b, existsb (fun tx => GetSerializeSize TX_NO_WITNESS tx =? 64) (vtx b))
      else
        '(b, v) ← CheckWitnessMalleation b check_witness_root;
        Some (b, match v with Invalid _ _ => true | Valid => false end)
  end.

(** [pindexPrev] is the entry of the block before, [None] for the genesis
    block. *)
Definition ContextualCheckBlock (m : BlockMap) (b : CBlock) (pindexPrev : option Z) : option (CBlock * Verdict) :=
  prev ← (match pindexPrev with None => Some None | Some p => e ← m !! p; Some (Some e) end);
  let nHeight := match prev with None => 0 | Some e => i32 (nHeight e + 1) end in
  nLockTimeCutoff ← (match pindexPrev with
                     | Some p => if DeploymentActiveAfter prev params DEPLOYMENT_CSV then GetMedianTimePast m p else Some (hdr_nTime (header b))
                     | None => Some (hdr_nTime (header b))
                     end);
  if existsb (fun tx => negb (IsFinalTx tx nHeight nLockTimeCutoff)) (vtx b)
  then Some (b, Invalid BLOCK_CONSENSUS "bad-txns-nonfinal")
  else
    height_ok ← (match prev with
                 | Some _ =>
                     if DeploymentActiveAfter prev params DEPLOYMENT_HEIGHTINCB then
                       tx ← vtx b !! 0%nat; txin ← vin tx !! 0%nat;
                       let expect := push_int64 [] nHeight in
                       Some ((size expect <=? size (scriptSig txin)) && bool_decide (take (length expect) (scriptSig txin) = expect))
                     else Some true
                 | None => Some true
                 end);
    if negb height_ok then Some (b, Invalid BLOCK_CONSENSUS "bad-cb-height")
    else
      '(b, v) ← CheckWitnessMalleation b (DeploymentActiveAfter prev params DEPLOYMENT_SEGWIT);
      match v with
      | Invalid r reason => Some (b, Invalid r reason)
      | Valid =>
          if GetBlockWeight b >? MAX_BLOCK_WEIGHT then Some (b, Invalid BLOCK_CONSENSUS "bad-blk-weight")
          else if GetBlockDataCarrierBytes b >? MAX_BLOCK_DATACARRIER_BYTES
          then Some (b, Invalid BLOCK_CONSENSUS "bad-blk-datacarrier")
          else Some (b, Valid)
      end.
End Rules.

(** ** Serialization laws *)

Lemma i32_u32 v : is_i32 v -> i32 (u32 v) = v.
Proof. intros Hv. rewrite i32_mod, u32_mod, Zplus_mod_idemp_l. rewrite Z.mod_small; unfold is_i32 in Hv; lia. Qed.
Lemma u32_i32 v : is_u32 v -> u32 (i32 v) = v.
Proof.
  intros Hv. rewrite i32_mod, u32_mod, Zminus_mod_idemp_l. replace (v + 2147483648 - 2147483648) with v by lia. apply Z.mod_small. exact Hv.
Qed.
#[export] Instance int32_ok : FormatterOk int32Formatter is_i32.
Proof.
  split; cbn [Ser Unser int32Formatter]; intros a; unfold ser_writedata32; [intros s Ha|intros Ha; apply le_bytes_ok].
  unfold ser_readdata32. rewrite (readdata_app 4) by apply u32_range. cbn. rewrite i32_u32 by exact Ha. reflexivity.
Qed.
#[export] Instance int32_canonical : FormatterCanonical int32Formatter is_i32.
Proof.
  split. cbn [Ser Unser int32Formatter]. intros a s s' Hs. unfold ser_readdata32.
  destruct (ser_readdata 4 s) as [[v r]|] eqn:E; [|discriminate]. apply (readdata_Some 4) in E as (Hv & -> & _); [|exact Hs].
  change (is_u32 v) in Hv. intros [= <- <-]. split; [apply i32_range|]. unfold ser_writedata32. rewrite u32_i32 by exact Hv. reflexivity.
Qed.

Definition is_header (h : CBlockHeader) : Prop :=
  is_i32 (hdr_nVersion h) /\ is_hash (hdr_hashPrevBlock h) /\ is_hash (hdr_hashMerkleRoot h) /\
  is_u32 (hdr_nTime h) /\ is_u32 (hdr_nBits h) /\ is_u32 (hdr_nNonce h).
Abbreviation header_tuple := (fun h => (hdr_nVersion h, (hdr_hashPrevBlock h, (hdr_hashMerkleRoot h, (hdr_nTime h, (hdr_nBits h, hdr_nNonce h)))))).
Abbreviation tuple_header := (fun p : Z * (Z * (Z * (Z * (Z * Z)))) => mkHeader p.1 p.2.1 p.2.2.1 p.2.2.2.1 p.2.2.2.2.1 p.2.2.2.2.2).
#[export] Instance header_cancel : Cancel (=) tuple_header header_tuple.
Proof. intros []; reflexivity. Qed.
#[export] Instance header_cancel' : Cancel (=) header_tuple tuple_header.
Proof. intros [? [? [? [? []]]]]; reflexivity. Qed.
#[export] Instance header_ok_fmt : FormatterOk HeaderFormatter is_header := iso_ok _ _ _ _.
#[export] Instance header_canonical : FormatterCanonical HeaderFormatter is_header := iso_canonical _ _ _ _.

(** A transaction that can be told from the extended format. *)
Definition is_wire_tx (tx : CTransaction) : Prop := is_tx tx /\ (vin tx <> [] \/ vout tx = []).
Lemma Serialize_bytes allow tx : is_tx tx -> bytes_ok (SerializeTransaction allow tx).
Proof.
  intros [Hin Hst Hout [Hv Hl]]. unfold SerializeTransaction. rewrite (Ser_vin_strip (vin tx)), !bytes_ok_app.
  assert (Hw : bytes_ok (concat (map (fun i => Ser stackFormatter (scriptWitness i)) (vin tx)))).
  { clear Hin. induction Hst as [|i ins Hi _ IH]; [constructor|]. cbn [map concat]. apply bytes_ok_app. split; [apply Ser_bytes, Hi|exact IH]. }
  split; [apply Ser_bytes, Hv|]. split.
  { destruct (allow && HasWitness tx); cbn [Z.eqb negb]; [|constructor]. apply bytes_ok_app. split; [apply Ser_bytes, nil_vector|apply (Ser_bytes (F := uint8Formatter)); unfold is_u8; lia]. }
  split; [apply Ser_bytes, strip_bare, Hin|]. split; [apply Ser_bytes, Hout|].
  split; [destruct (negb _); [exact Hw|constructor]|apply Ser_bytes, Hl].
Qed.
#[export] Instance tx_fmt_ok : FormatterOk (TxFormatter TX_WITH_WITNESS) is_wire_tx.
Proof.
  split; cbn [Ser Unser TxFormatter]; intros tx; [|intros [Ht _]; apply Serialize_bytes, Ht].
  intros s [Ht Hne]. destruct (HasWitness tx) eqn:Hw; [apply unserialize_witness; assumption|].
  unfold TX_WITH_WITNESS. rewrite unserialize_plain by auto. unfold strip_tx. rewrite (strip_no_witness (vin tx) Hw). destruct tx; reflexivity.
Qed.
#[export] Instance tx_fmt_canonical allow : FormatterCanonical (TxFormatter allow) is_tx.
Proof.
  split. cbn [Ser Unser TxFormatter]. intros tx s s' Hs E. destruct (unserialize_canonical allow tx s s' Hs E) as (Ht & -> & _). auto.
Qed.

Definition is_block (b : CBlock) : Prop := is_header (header b) /\ is_vector is_wire_tx (vtx b).
(** The memory-only flags are cleared by reading. *)
Definition unchecked (b : CBlock) : CBlock := mkBlock (header b) (vtx b) false false false.

(** A block is read back from its serialization with its memory-only flags
    cleared; and what is read as a block is exactly its serialization, so a
    block has one encoding. *)
Theorem block_encoding b s rest :
  (is_block b -> Unser (BlockFormatter TX_WITH_WITNESS) (Ser (BlockFormatter TX_WITH_WITNESS) b ++ rest) = Some (unchecked b, rest)) /\
  (bytes_ok s -> Unser (BlockFormatter TX_WITH_WITNESS) s = Some (b, rest) ->
   is_header (header b) /\ is_vector is_tx (vtx b) /\ s = Ser (BlockFormatter TX_WITH_WITNESS) b ++ rest /\ unchecked b = b).
Proof.
  set (F := pairFormatter HeaderFormatter (VectorFormatter (TxFormatter TX_WITH_WITNESS))). split.
  - intros Hb. cbn [Ser Unser BlockFormatter isoFormatter]. fold F.
    rewrite (Unser_Ser (F := F) (valid := fun p => is_header p.1 /\ is_vector is_wire_tx p.2)) by exact Hb. reflexivity.
  - intros Hs. cbn [Ser Unser BlockFormatter isoFormatter]. fold F. destruct (Unser F s) as [[[h txs] r]|] eqn:E; [|discriminate].
    apply (Ser_Unser (FormatterCanonical := pair_canonical _ _ _ _)) in E as [[Hh Ht] ->]; [|exact Hs].
    cbn. intros [= <- <-]. auto.
Qed.

Definition sample_header : CBlockHeader := mkHeader 4 0 77 1790380800 0x1e0fffff 5.
Definition sample_block : CBlock := mkBlock sample_header [sample_tx] true false true.
Lemma block_encoding_witness :
  Unser (BlockFormatter TX_WITH_WITNESS) (Ser (BlockFormatter TX_WITH_WITNESS) sample_block ++ [1; 2]) = Some (unchecked sample_block, [1; 2]).
Proof.
  apply (proj1 (block_encoding sample_block [] [1; 2])). split.
  - unfold is_header, is_i32, is_hash, is_u32. cbn. lia.
  - split; [apply Forall_singleton; split; [exact sample_tx_ok|left; discriminate]|cbn; unfold MAX_SIZE; lia].
Defined.

(** ** What [CheckBlock] accepts *)

Lemma check_types_None_reason tx permit min v :
  CheckTransaction tx permit min = v -> v = TxValid \/ exists reason, v = TxInvalid TX_CONSENSUS reason.
Proof.
  intros <-. unfold CheckTransaction.
  assert (Hcv : forall outs acc, check_values outs acc = TxValid \/ exists reason, check_values outs acc = TxInvalid TX_CONSENSUS reason).
  { induction outs as [|o outs IH]; intros acc; cbn [check_values]; [auto|]. cbv zeta.
    destruct (_ <? 0); [eauto|]. destruct (_ >? _); [eauto|]. destruct (negb _); [eauto|apply IH]. }
  repeat match goal with |- context [if ?x then _ else _] => destruct x; eauto end;
  (destruct (Hcv (vout tx) 0) as [->|[reason ->]]; [|eauto]);
  (destruct (check_types permit min (vout tx) 0 false false) as [[[n b] z]|]; [|eauto]); cbv zeta;
  repeat match goal with |- context [if ?x then _ else _] => destruct x; eauto end.
Qed.

Section Exact.
Context (EnableFuzzDeterminism : bool) (GetHash : CBlockHeader -> Z) (PoWHash : CBlockHeader -> Params -> Z) (params : Params).
Context (TxHash : CTransaction -> Z) (Hash2 : Z -> Z -> Z).
Abbreviation checkBlock := (CheckBlock EnableFuzzDeterminism GetHash PoWHash params TxHash Hash2).

Definition pow_ok (b : CBlock) : Prop :=
  CheckProofOfWork EnableFuzzDeterminism GetHash PoWHash (header b) (hdr_nBits (header b)) params = true.
Definition merkle_ok (b : CBlock) : Prop := ComputeMerkleRoot Hash2 (map TxHash (vtx b)) = Some (hdr_hashMerkleRoot (header b), false).
Definition is_genesis (b : CBlock) : bool := GetHash (header b) =? hashGenesisBlock params.

Record transactions_ok (b : CBlock) : Prop := {
  bo_coinbase : exists tx txs, vtx b = tx :: txs /\ IsCoinBase tx = true /\ Forall (fun t => IsCoinBase t = false) txs;
  bo_count : u64 (size (vtx b) * WITNESS_SCALE_FACTOR) <= MAX_BLOCK_WEIGHT;
  bo_size : u64 (GetBlockSerializeSize TX_NO_WITNESS b * WITNESS_SCALE_FACTOR) <= MAX_BLOCK_WEIGHT;
  bo_txs : Forall (fun tx => tx_well_formed tx (permitV2Outputs params || is_genesis b)
                               (if is_genesis b then 0 else minOutputValueSat params)) (vtx b);
  bo_sigops : u32 (foldl (fun n tx => u32 (n + GetLegacySigOpCount tx)) 0 (vtx b) * WITNESS_SCALE_FACTOR) <= MAX_BLOCK_SIGOPS_COST
}.
(** What a flag claims when it is set. *)
Record flags_ok (b : CBlock) : Prop := {
  fo_merkle : m_checked_merkle_root b = true -> merkle_ok b;
  fo_checked : fChecked b = true -> pow_ok b /\ merkle_ok b /\ transactions_ok b
}.
Definition same_block (b b' : CBlock) : Prop := header b' = header b /\ vtx b' = vtx b.

Lemma check_transactions_spec txs permit min :
  Forall (fun tx => size (vout tx) < 2 ^ 64) txs ->
  exists v, check_transactions txs permit min = Some v /\ (v = Valid <-> Forall (fun tx => tx_well_formed tx permit min) txs).
Proof.
  induction 1 as [|tx txs Htx _ IH]; cbn [check_transactions]; [exists Valid; split; [reflexivity|split; [constructor|reflexivity]]|].
  pose proof (CheckTransaction_spec tx permit min Htx) as Hs.
  destruct (check_types_None_reason tx permit min _ eq_refl) as [E|[reason E]]; rewrite E in *.
  - destruct IH as (v & -> & Hv). exists v. split; [reflexivity|]. rewrite Forall_cons, Hv. tauto.
  - eexists. split; [reflexivity|]. rewrite Forall_cons. split; [discriminate|]. intros [Hw _]. apply Hs in Hw. discriminate.
Qed.

Lemma CheckBlock_transactions_spec b :
  Forall (fun tx => size (vout tx) < 2 ^ 64) (vtx b) ->
  exists v, CheckBlock_transactions GetHash params b = Some v /\ (v = Valid <-> transactions_ok b).
Proof.
  intros Hl. unfold CheckBlock_transactions.
  destruct (vtx b) as [|tx txs] eqn:Ev; cbn [orb].
  { eexists. split; [reflexivity|]. split; [discriminate|]. intros [(? & ? & E & _)]. rewrite Ev in E. discriminate. }
  destruct (Z.gtb_spec (u64 (size (tx :: txs) * WITNESS_SCALE_FACTOR)) MAX_BLOCK_WEIGHT) as [|H1]; cbn [orb].
  { eexists. split; [reflexivity|]. split; [discriminate|]. intros Hok. pose proof (bo_count _ Hok) as H'. rewrite Ev in H'. lia. }
  destruct (Z.gtb_spec (u64 (GetBlockSerializeSize TX_NO_WITNESS b * WITNESS_SCALE_FACTOR)) MAX_BLOCK_WEIGHT) as [|H2].
  { eexists. split; [reflexivity|]. split; [discriminate|]. intros []. lia. }
  destruct (IsCoinBase tx) eqn:Ec; cbn [negb].
  2: { eexists. split; [reflexivity|]. split; [discriminate|]. intros [(? & ? & E & E' & _)]. rewrite Ev in E. injection E as <- <-. congruence. }
  change (drop 1 (tx :: txs)) with (drop 0 txs). rewrite drop_0. destruct (existsb IsCoinBase txs) eqn:Ex.
  { eexists. split; [reflexivity|]. split; [discriminate|]. intros [(? & ? & E & _ & E')]. rewrite Ev in E. injection E as <- <-.
    apply existsb_exists in Ex as (t & Ht & Hc). apply list_elem_of_In in Ht. rewrite Forall_forall in E'. rewrite (E' t Ht) in Hc. discriminate. }
  assert (Hrest : Forall (fun t => IsCoinBase t = false) txs).
  { apply Forall_forall. intros t Ht. apply list_elem_of_In in Ht. destruct (IsCoinBase t) eqn:E; [|reflexivity].
    rewrite <- Ex. symmetry. apply existsb_exists. eauto. }
  cbv zeta. fold (is_genesis b). rewrite <- Ev in *.
  destruct (check_transactions_spec (vtx b) (permitV2Outputs params || is_genesis b) (if is_genesis b then 0 else minOutputValueSat params) Hl) as (v & -> & Hv).
  cbn [mbind option_bind]. destruct v as [|r reason].
  2: { eexists. split; [reflexivity|]. split; [discriminate|]. intros []. destruct Hv as [_ Hv]. specialize (Hv ltac:(assumption)). discriminate. }
  destruct (Z.gtb_spec (u32 (foldl (fun n tx => u32 (n + GetLegacySigOpCount tx)) 0 (vtx b) * WITNESS_SCALE_FACTOR)) MAX_BLOCK_SIGOPS_COST) as [|H3].
  { eexists. split; [reflexivity|]. split; [discriminate|]. intros []. lia. }
  eexists. split; [reflexivity|]. split; [intros _|reflexivity]. split; try assumption; [eauto|apply Hv; reflexivity].
Qed.

Lemma CheckMerkleRoot_spec b :
  flags_ok b -> exists b' v, CheckMerkleRoot TxHash Hash2 b = Some (b', v) /\ same_block b b' /\
    (v = Valid <-> merkle_ok b) /\ fChecked b' = fChecked b /\ (m_checked_merkle_root b' = true -> merkle_ok b).
Proof.
  intros [Hf _]. unfold CheckMerkleRoot. destruct (m_checked_merkle_root b) eqn:Em.
  { exists b, Valid. specialize (Hf eq_refl). split; [reflexivity|]. split; [split; reflexivity|]. tauto. }
  unfold BlockMerkleRoot, merkle_ok in *. destruct (loop_total Hash2 (length (map TxHash (vtx b))) (map TxHash (vtx b)) false ltac:(lia)) as [[root mut] Er].
  change (ComputeMerkleRoot Hash2 (map TxHash (vtx b)) = Some (root, mut)) in Er. rewrite Er. cbn [mbind option_bind].
  destruct (Z.eqb_spec (hdr_hashMerkleRoot (header b)) root) as [<-|Hne]; cbn [negb].
  - destruct mut; eexists _, _; (split; [reflexivity|]); (split; [split; reflexivity|]); (split; [split; congruence|]); (split; [reflexivity|]); cbn; congruence.
  - eexists _, _. split; [reflexivity|]. split; [split; reflexivity|]. split; [split; congruence|]. split; [reflexivity|]. congruence.
Qed.

Lemma same_block_ok b b' : same_block b b' ->
  (pow_ok b <-> pow_ok b') /\ (merkle_ok b <-> merkle_ok b') /\ (transactions_ok b <-> transactions_ok b').
Proof.
  destruct b as [h t f1 f2 f3], b' as [h' t' f1' f2' f3']. intros [E1 E2]. cbn in E1, E2. subst h' t'.
  split; [reflexivity|]. split; [reflexivity|]. split; intros [H1 H2 H3 H4 H5]; split; assumption.
Qed.

Lemma CheckBlock_spec b fCheckPOW fCheckMerkleRoot :
  Forall (fun tx => size (vout tx) < 2 ^ 64) (vtx b) -> flags_ok b ->
  exists b' v, checkBlock b fCheckPOW fCheckMerkleRoot = Some (b', v) /\ same_block b b' /\ flags_ok b' /\
    (v = Valid <-> (fCheckPOW = true -> pow_ok b) /\ (fCheckMerkleRoot = true -> merkle_ok b) /\ transactions_ok b).
Proof.
  intros Hl Hf. unfold CheckBlock. destruct (fChecked b) eqn:Ef.
  { exists b, Valid. split; [reflexivity|]. split; [split; reflexivity|]. split; [exact Hf|]. pose proof (fo_checked _ Hf Ef). tauto. }
  unfold CheckBlockHeader. destruct (fCheckPOW && negb _) eqn:Ep.
  { exists b. eexists. split; [reflexivity|]. split; [split; reflexivity|]. split; [exact Hf|]. apply andb_true_iff in Ep as [-> Ep].
    split; [discriminate|]. intros (Hp & _). specialize (Hp eq_refl). unfold pow_ok in Hp. rewrite Hp in Ep. discriminate. }
  assert (Hpow : fCheckPOW = true -> pow_ok b) by (intros ->; cbn in Ep; apply negb_false_iff, Ep).
  assert (Hm : exists b1 v, (if fCheckMerkleRoot then CheckMerkleRoot TxHash Hash2 b else Some (b, Valid)) = Some (b1, v) /\ same_block b b1 /\
            (v = Valid <-> (fCheckMerkleRoot = true -> merkle_ok b)) /\ fChecked b1 = false /\ (m_checked_merkle_root b1 = true -> merkle_ok b)).
  { destruct fCheckMerkleRoot.
    - destruct (CheckMerkleRoot_spec b Hf) as (b1 & v & E & Hs & Hv & Hc & Hk). exists b1, v. split; [exact E|]. split; [exact Hs|].
      split; [tauto|]. split; [congruence|exact Hk].
    - exists b, Valid. split; [reflexivity|]. split; [split; reflexivity|]. split; [split; [discriminate|reflexivity]|]. split; [exact Ef|apply Hf]. }
  destruct Hm as (b1 & v & -> & Hs & Hv & Hc & Hk). cbn [mbind option_bind]. pose proof (same_block_ok b b1 Hs) as (Hb1 & Hb2 & Hb3).
  assert (Hf1 : flags_ok b1) by (split; [intros H; apply Hb2, Hk, H|congruence]).
  destruct v as [|r reason].
  2: { eexists _, _. split; [reflexivity|]. split; [exact Hs|]. split; [exact Hf1|]. split; [discriminate|]. intros (_ & Hmr & _). apply Hv in Hmr. discriminate. }
  pose proof (proj1 Hv eq_refl) as Hmr. destruct (CheckBlock_transactions_spec b1) as (v & -> & Hvt); [destruct Hs as [_ ->]; exact Hl|].
  cbn [mbind option_bind]. rewrite <- Hb3 in Hvt. destruct v as [|r reason].
  2: { eexists _, _. split; [reflexivity|]. split; [exact Hs|]. split; [exact Hf1|]. split; [discriminate|]. intros (_ & _ & Ht). apply Hvt in Ht. discriminate. }
  pose proof (proj1 Hvt eq_refl) as Ht. eexists _, _. split; [reflexivity|]. destruct (fCheckPOW && fCheckMerkleRoot) eqn:Eb.
  - apply andb_true_iff in Eb as [-> ->]. split; [exact Hs|]. split; [|tauto].
    assert (Hall : pow_ok (set_fChecked b1) /\ merkle_ok (set_fChecked b1) /\ transactions_ok (set_fChecked b1)).
    { pose proof (same_block_ok b1 (set_fChecked b1) (conj eq_refl eq_refl)) as (G1 & G2 & G3). rewrite <- G1, <- G2, <- G3. tauto. }
    split; tauto.
  - split; [exact Hs|]. split; [exact Hf1|tauto].
Qed.

(** C24: [CheckBlock] never fails an assertion and accepts exactly the blocks whose
    header meets its target, whose Merkle root is that of the transactions
    with no repetition, and whose transactions are well formed, start with the
    one coinbase and stay within the size and signature-operation limits; the
    flags that remember a passed check are only set when it passed, so they
    never change the answer. *)
Theorem CheckBlock_exact b fCheckPOW fCheckMerkleRoot :
  Forall (fun tx => size (vout tx) < 2 ^ 64) (vtx b) -> flags_ok b ->
  exists b' v, checkBlock b fCheckPOW fCheckMerkleRoot = Some (b', v) /\ same_block b b' /\ flags_ok b' /\
    (v = Valid <-> (fCheckPOW = true -> pow_ok b) /\ (fCheckMerkleRoot = true -> merkle_ok b) /\ transactions_ok b).
Proof. apply CheckBlock_spec. Qed.
End Exact.

(** A small block: one coinbase paying to a post-quantum output. *)
Definition pq_coinbase : CTransaction := mkTransaction [mkTxIn (mkOutPoint 0 4294967295) [1; 200] 4294967295 []] [mkTxOut 5000000000 sample_v3] 2 0.
Definition coinbase_block : CBlock := mkBlock (mkHeader 4 0 9 1790380800 0x1e0fffff 5) [pq_coinbase] false false false.
Lemma CheckBlock_exact_witness :
  exists b' v, CheckBlock false (fun _ => 1) (fun _ _ => 0) CMainParams (fun _ => 9) Z.add coinbase_block false true = Some (b', v) /\
    same_block coinbase_block b' /\ flags_ok false (fun _ => 1) (fun _ _ => 0) CMainParams (fun _ => 9) Z.add b' /\
    (v = Valid <-> (false = true -> pow_ok false (fun _ => 1) (fun _ _ => 0) CMainParams coinbase_block) /\
      (true = true -> merkle_ok (fun _ => 9) Z.add coinbase_block) /\ transactions_ok (fun _ => 1) CMainParams coinbase_block).
Proof.
  apply (CheckBlock_exact false (fun _ => 1) (fun _ _ => 0) CMainParams (fun _ => 9) Z.add coinbase_block false true).
  - apply Forall_singleton. vm_compute. reflexivity.
  - split; discriminate.
Defined.
Example coinbase_block_accepted :
  CheckBlock false (fun _ => 1) (fun _ _ => 0) CMainParams (fun _ => 9) Z.add coinbase_block false true = Some (set_checked_merkle coinbase_block, Valid).
Proof. vm_compute. reflexivity. Qed.

(** ** The height in the coinbase *)

Lemma le_value_app a b : le_value (a ++ b) = le_value a + 256 ^ size a * le_value b.
Proof.
  unfold size. induction a as [|x a IH]; cbn [app le_value length]; [change (256 ^ Z.of_nat 0) with 1; lia|].
  rewrite IH, Nat2Z.inj_succ, Z.pow_succ_r by lia. ring.
Qed.
Lemma serialize_loop_value fuel v acc :
  0 <= v < 256 ^ Z.of_nat fuel ->
  le_value (serialize_loop fuel v acc) = le_value acc + 256 ^ size acc * v /\ size acc <= size (serialize_loop fuel v acc) <= size acc + Z.of_nat fuel.
Proof.
  unfold size. revert v acc. induction fuel as [|fuel IH]; intros v acc Hv; cbn [serialize_loop].
  { cbn in Hv. replace v with 0 by lia. lia. }
  destruct (Z.eqb_spec v 0) as [->|Hne]; [lia|]. rewrite Nat2Z.inj_succ, Z.pow_succ_r in Hv by lia.
  rewrite Z.shiftr_div_pow2 by lia. change (2 ^ 8) with 256.
  assert (Hd : 0 <= v / 256 < 256 ^ Z.of_nat fuel) by (split; [apply Z.div_pos; lia|apply Z.div_lt_upper_bound; lia]).
  destruct (IH (v / 256) (acc ++ [Z.land v 255]) Hd) as [-> Hl]. rewrite length_app in *. cbn [length] in *.
  rewrite Nat2Z.inj_add in *. split; [|lia]. change (Z.of_nat 1) with 1. rewrite Z.pow_add_r by lia.
  rewrite le_value_app. cbn [le_value]. fold (u8 v). rewrite u8_mod. change (256 ^ 1) with 256.
  pose proof (f_equal (Z.mul (256 ^ Z.of_nat (length acc))) (Z.div_mod v 256 ltac:(lia))) as Hdm. unfold size. lia.
Qed.
Lemma serialize_value n : 0 <= n < 2 ^ 63 -> le_value (serialize n) = n /\ size (serialize n) <= 9 /\ (n <> 0 -> 1 <= size (serialize n)).
Proof.
  intros Hn. unfold serialize. destruct (Z.eqb_spec n 0) as [->|Hne]; [unfold size; cbn [le_value length]; lia|]. rewrite (proj2 (Z.ltb_ge _ _)) by lia. cbv zeta.
  rewrite u64_id by (unfold is_u64; lia). destruct (serialize_loop_value 8 n [] ltac:(lia)) as [Hv Hl].
  rewrite Z.mul_1_l in Hv. cbn [le_value size length] in *. change (size ([] : list Z)) with 0 in Hl.
  assert (H1 : 1 <= size (serialize_loop 8 n [])).
  { destruct (serialize_loop 8 n []) as [|x l]; [cbn in Hv; lia|unfold size; cbn [length]; lia]. }
  destruct (negb _); [|split; [exact Hv|lia]]. rewrite le_value_app. cbn [le_value]. unfold size in *. rewrite length_app. cbn [length]. lia.
Qed.
(** The pushes of two heights that start the same script are the same. *)
Lemma push_height_prefix n n' s s' :
  0 <= n < 2 ^ 31 -> 0 <= n' < 2 ^ 31 -> push_int64 [] n ++ s = push_int64 [] n' ++ s' -> n = n'.
Proof.
  intros Hn Hn'. destruct (serialize_value n ltac:(lia)) as (Hv & Hs & Hp). destruct (serialize_value n' ltac:(lia)) as (Hv' & Hs' & Hp').
  unfold push_int64, push_data, AppendDataSize, OP_1, OP_0, OP_PUSHDATA1. rewrite !app_nil_l.
  rewrite (proj2 (Z.ltb_lt (size (serialize n)) 76)), (proj2 (Z.ltb_lt (size (serialize n')) 76)) by lia.
  rewrite (u8_id (size (serialize n))), (u8_id (size (serialize n'))) by (unfold is_u8, size in *; lia).
  rewrite (proj2 (Z.eqb_neq n (-1))), (proj2 (Z.eqb_neq n' (-1))) by lia. cbn [orb].
  destruct (Z.geb_spec n 1), (Z.leb_spec n 16), (Z.geb_spec n' 1), (Z.leb_spec n' 16); cbn [andb];
    try (rewrite (proj2 (Z.eqb_neq n 0)) by lia); try (rewrite (proj2 (Z.eqb_neq n' 0)) by lia);
    try (replace n with 0 by lia); try (replace n' with 0 by lia); cbn [Z.eqb app]; intros E; try lia;
    try (injection E as E0 E1; lia).
  injection E as E0 E1.
  apply (f_equal (take (length (serialize n)))) in E1.
  assert (El : length (serialize n) = length (serialize n')) by (unfold size in *; lia).
  rewrite take_app_length, El, take_app_length in E1. congruence.
Qed.

Section Height.
Context (params : Params) (WitnessHash : CTransaction -> Z) (Hash2 : Z -> Z -> Z).
Abbreviation contextual := (ContextualCheckBlock params WitnessHash Hash2).

Lemma contextual_height m b p e b' :
  m !! p = Some e -> DeploymentActiveAfter (Some e) params DEPLOYMENT_HEIGHTINCB = true ->
  contextual m b (Some p) = Some (b', Valid) ->
  exists tx txin rest, vtx b !! 0%nat = Some tx /\ vin tx !! 0%nat = Some txin /\ scriptSig txin = push_int64 [] (i32 (nHeight e + 1)) ++ rest.
Proof.
  intros Hm Ha. unfold ContextualCheckBlock. rewrite Hm. cbn [mbind option_bind]. cbv zeta. rewrite Ha.
  match goal with |- (?x ≫= _ = _) -> _ => destruct x as [cutoff|]; [|discriminate] end. cbn [mbind option_bind].
  destruct (existsb _ _); [discriminate|]. destruct (vtx b !! 0%nat) as [tx|] eqn:Et; [|discriminate]. cbn [mbind option_bind].
  destruct (vin tx !! 0%nat) as [txin|] eqn:Ei; [|discriminate]. cbn [mbind option_bind].
  set (expect := push_int64 [] _). destruct (size expect <=? size (scriptSig txin)) eqn:E1; [|discriminate].
  destruct (bool_decide_reflect (take (length expect) (scriptSig txin) = expect)) as [E2|]; [|discriminate]. intros _.
  exists tx, txin, (drop (length expect) (scriptSig txin)). split; [reflexivity|]. split; [exact Ei|].
  rewrite <- E2 at 1. rewrite take_drop. reflexivity.
Qed.

(** Once the height rule is active, two blocks that pass the contextual checks
    at different heights never carry the same coinbase transaction. *)
Theorem coinbase_commits_height m m' b b' p p' e e' r r' :
  m !! p = Some e -> m' !! p' = Some e' ->
  0 <= nHeight e < 2 ^ 31 - 1 -> 0 <= nHeight e' < 2 ^ 31 - 1 ->
  DeploymentActiveAfter (Some e) params DEPLOYMENT_HEIGHTINCB = true ->
  DeploymentActiveAfter (Some e') params DEPLOYMENT_HEIGHTINCB = true ->
  ContextualCheckBlock params WitnessHash Hash2 m b (Some p) = Some (r, Valid) -> ContextualCheckBlock params WitnessHash Hash2 m' b' (Some p') = Some (r', Valid) ->
  vtx b !! 0%nat = vtx b' !! 0%nat -> nHeight e = nHeight e'.
Proof.
  intros Hm Hm' Hh Hh' Ha Ha' Hc Hc' Htx.
  destruct (contextual_height _ _ _ _ _ Hm Ha Hc) as (tx & i & s & E1 & E2 & E3).
  destruct (contextual_height _ _ _ _ _ Hm' Ha' Hc') as (tx' & i' & s' & E1' & E2' & E3').
  simplify_eq. assert (i = i') as <- by congruence. rewrite E3 in E3'. rewrite !i32_id in E3' by (unfold is_i32; lia).
  apply push_height_prefix in E3'; lia.
Qed.
End Height.

(** Two blocks with different headers on two genesis entries. *)
Definition entry_at (h t : Z) : CBlockIndex := mkBlockIndex (Some t) None None h 0 0 0 zero 1 1 0 4 0 t 0x1e0fffff 0 0 t.
Definition height_coinbase : CTransaction := mkTransaction [mkTxIn (mkOutPoint 0 4294967295) [OP_1; 7] 4294967295 []] [mkTxOut 5000000000 sample_v3] 2 0.
Definition height_block (nonce : Z) : CBlock := mkBlock (mkHeader 4 0 9 1790380800 0x1e0fffff nonce) [height_coinbase] false false false.
Lemma coinbase_commits_height_witness : nHeight (entry_at 0 1000) = nHeight (entry_at 0 2000) /\
  ContextualCheckBlock CMainParams (fun _ => 9) Z.add {[1000 := entry_at 0 1000]} (height_block 5) (Some 1000) = Some (height_block 5, Valid).
Proof.
  assert (H1 : ContextualCheckBlock CMainParams (fun _ => 9) Z.add {[1000 := entry_at 0 1000]} (height_block 5) (Some 1000) = Some (height_block 5, Valid))
    by (vm_compute; reflexivity).
  assert (H2 : ContextualCheckBlock CMainParams (fun _ => 9) Z.add {[2000 := entry_at 0 2000]} (height_block 6) (Some 2000) = Some (height_block 6, Valid))
    by (vm_compute; reflexivity).
  split; [|exact H1].
  apply (coinbase_commits_height CMainParams (fun _ => 9) Z.add {[1000 := entry_at 0 1000]} {[2000 := entry_at 0 2000]} (height_block 5) (height_block 6) 1000 2000
           (entry_at 0 1000) (entry_at 0 2000) _ _ (lookup_singleton_eq _ _) (lookup_singleton_eq _ _) ltac:(cbn; lia) ltac:(cbn; lia) eq_refl eq_refl H1 H2 eq_refl).
Defined.
