(* ===== verification/CuckooCache.v ===== *)
(** * The cuckoo cache ([src/src/cuckoocache.h])

    The lossy set of hashes that remembers which scripts have been executed:
    a table in which an element may sit at any of eight positions, flags for
    the entries that may be overwritten (packed eight to a byte), and two
    epochs of entries.  [hash_function] is the family of eight 32-bit hashes,
    [log2f] the logarithm of a [float].

    [ElementCache] is what the client, [CheckInputScripts], uses of it and
    [ElementCacheLaws] what it relies on: an element that is found has been
    inserted.  The table starts filled with the default element, which is
    therefore found from the start. *)

From stdpp Require Import gmap.
From S2P Require Import Prelude.

Local Open Scope Z_scope.

Class ElementCache (C : Type) := {
  cache_contains : C -> Z -> bool -> C * bool;
  cache_insert : C -> Z -> C
}.
Class ElementCacheLaws (C : Type) `{!ElementCache C} := {
  cache_valid : C -> Prop;
  holds : C -> Z -> Prop;
  contains_valid c e erase : cache_valid c -> cache_valid (cache_contains c e erase).1;
  contains_found c e erase : cache_valid c -> (cache_contains c e erase).2 = true -> holds c e;
  contains_keeps c e erase x : cache_valid c -> holds (cache_contains c e erase).1 x -> holds c x;
  insert_valid c e : cache_valid c -> cache_valid (cache_insert c e);
  insert_adds c e x : cache_valid c -> holds (cache_insert c e) x -> x = e \/ holds c x
}.

Module CuckooCache.

(** ** The collection flags *)

Definition CeilDiv (dividend divisor : Z) : Z := dividend / divisor + (if dividend mod divisor =? 0 then 0 else 1).
(** The constructor and [setup]: all the bits are set. *)
Definition flags_setup (b : Z) : list Z := replicate (Z.to_nat (CeilDiv b 8)) 255.
Definition slot (s : Z) : nat := Z.to_nat (Z.shiftr s 3).
Definition bit_set (mem : list Z) (s : Z) : list Z :=
  <[slot s := Z.lor (mem !!! slot s) (u8 (Z.shiftl 1 (Z.land s 7)))]> mem.
Definition bit_unset (mem : list Z) (s : Z) : list Z :=
  <[slot s := Z.land (mem !!! slot s) (u8 (Z.lnot (Z.shiftl 1 (Z.land s 7))))]> mem.
Definition bit_is_set (mem : list Z) (s : Z) : bool :=
  negb (Z.land (Z.shiftl 1 (Z.land s 7)) (mem !!! slot s) =? 0).

(** ** The cache *)

Record cache := mkCuckoo {
  table : list Z;
  csize : Z;
  collection_flags : list Z;
  epoch_flags : list bool;
  epoch_heuristic_counter : Z;
  epoch_size : Z;
  depth_limit : Z
}.
Definition set_table (c : cache) (t : list Z) : cache :=
  mkCuckoo t (csize c) (collection_flags c) (epoch_flags c) (epoch_heuristic_counter c) (epoch_size c) (depth_limit c).
Definition set_flags (c : cache) (mem : list Z) (epochs : list bool) : cache :=
  mkCuckoo (table c) (csize c) mem epochs (epoch_heuristic_counter c) (epoch_size c) (depth_limit c).
Definition set_counter (c : cache) (n : Z) : cache :=
  mkCuckoo (table c) (csize c) (collection_flags c) (epoch_flags c) n (epoch_size c) (depth_limit c).

Definition FastRange32 (x n : Z) : Z := u32 (Z.shiftr (u64 (x * n)) 32).
Definition invalid : Z := u32 (Z.lnot 0).
Definition allow_erase (c : cache) (n : Z) : cache := set_flags c (bit_set (collection_flags c) n) (epoch_flags c).
Definition please_keep (c : cache) (n : Z) : cache := set_flags c (bit_unset (collection_flags c) n) (epoch_flags c).

(** The element type has 32 bytes; its default value is 0. *)
Definition setup (log2f : Z -> Z) (new_size : Z) : cache :=
  let size := Z.max 2 new_size in
  let epoch_size := Z.max 1 (u32 (45 * size) / 100) in
  mkCuckoo (replicate (Z.to_nat size) 0) size (flags_setup size) (replicate (Z.to_nat size) false) epoch_size epoch_size (u8 (log2f size)).
Definition setup_bytes (log2f : Z -> Z) (bytes : Z) : cache * Z * Z :=
  let c := setup log2f (Z.min (bytes / 32) 4294967295) in
  (c, csize c, u64 (csize c * 32)).

Definition epoch_unused_count (c : cache) : Z :=
  for_loop (Z.to_nat (csize c)) 0
    (fun i n => u32 (n + (if (epoch_flags c !!! i : bool) && negb (bit_is_set (collection_flags c) (Z.of_nat i)) then 1 else 0))) 0.
Definition age (c : cache) : cache :=
  for_loop (Z.to_nat (csize c)) 0
    (fun i c => if (epoch_flags c !!! i : bool) then set_flags c (collection_flags c) (<[i := false]> (epoch_flags c))
                else allow_erase c (Z.of_nat i)) c.
Definition epoch_check (c : cache) : cache :=
  if negb (epoch_heuristic_counter c =? 0) then set_counter c (epoch_heuristic_counter c - 1)
  else
    let count := epoch_unused_count c in
    if count >=? epoch_size c then set_counter (age c) (epoch_size c)
    else set_counter c (Z.max 1 (Z.max (epoch_size c / 16) (epoch_size c - count))).

Section Table.
Context (hash_function : nat -> Z -> Z).

Definition compute_hashes (c : cache) (e : Z) : list Z := map (fun k => FastRange32 (hash_function k e) (csize c)) (seq 0 8).
(** [std::find(..) - begin()]: the length where there is none. *)
Fixpoint find_index (l : list Z) (x : Z) : nat :=
  match l with [] => O | y :: l => if y =? x then O else S (find_index l x) end.
Definition at_loc (c : cache) (loc : Z) : Z := table c !!! Z.to_nat loc.
Definition store (c : cache) (loc e : Z) : cache := set_table c (<[Z.to_nat loc := e]> (table c)).
Definition set_epoch (c : cache) (loc : Z) (epoch : bool) : cache :=
  set_flags c (collection_flags c) (<[Z.to_nat loc := epoch]> (epoch_flags c)).

Fixpoint insert_loop (depth : nat) (c : cache) (e last_loc : Z) (last_epoch : bool) : cache :=
  match depth with
  | O => c
  | S depth =>
      let locs := compute_hashes c e in
      match List.find (fun loc => bit_is_set (collection_flags c) loc) locs with
      | Some loc => set_epoch (please_keep (store c loc e) loc) loc last_epoch
      | None =>
          let last_loc := locs !!! Nat.land (1 + find_index locs last_loc) 7 in
          let evicted := at_loc c last_loc in
          let c := store c last_loc e in
          let epoch := last_epoch in
          let last_epoch := epoch_flags c !!! Z.to_nat last_loc in
          insert_loop depth (set_epoch c last_loc epoch) evicted last_loc last_epoch
      end
  end.
Definition insert (c : cache) (e : Z) : cache :=
  let c := epoch_check c in
  match List.find (fun loc => at_loc c loc =? e) (compute_hashes c e) with
  | Some loc => set_epoch (please_keep c loc) loc true
  | None => insert_loop (Z.to_nat (depth_limit c)) c e invalid true
  end.
Definition contains (c : cache) (e : Z) (erase : bool) : cache * bool :=
  match List.find (fun loc => at_loc c loc =? e) (compute_hashes c e) with
  | Some loc => (if erase then allow_erase c loc else c, true)
  | None => (c, false)
  end.
End Table.

(** ** The flags are bits *)

Lemma bit_is_set_testbit mem s : bit_is_set mem s = Z.testbit (mem !!! slot s) (s mod 8).
Proof.
  unfold bit_is_set. change 7 with (Z.ones 3). rewrite Z.land_ones by lia. change (2 ^ 3) with 8.
  rewrite Z.shiftl_1_l, Z.land_comm. apply land_flag. apply Z.mod_pos_bound. lia.
Qed.
Lemma slot_mod s t : 0 <= s -> 0 <= t -> slot s = slot t -> s mod 8 = t mod 8 -> s = t.
Proof.
  unfold slot. intros Hs Ht E Em. rewrite !Z.shiftr_div_pow2 in E by lia. change (2 ^ 3) with 8 in E.
  pose proof (Z.div_pos s 8 Hs ltac:(lia)). pose proof (Z.div_pos t 8 Ht ltac:(lia)).
  rewrite (Z.div_mod s 8), (Z.div_mod t 8) by lia. lia.
Qed.

(** Changing one byte by an operation that only touches one bit changes one flag. *)
Lemma flag_update mem s t f (b : bool) :
  0 <= s -> 0 <= t -> (slot s < length mem)%nat ->
  (forall j, 0 <= j < 8 -> Z.testbit (f (mem !!! slot s)) j = if j =? s mod 8 then b else Z.testbit (mem !!! slot s) j) ->
  bit_is_set (<[slot s := f (mem !!! slot s)]> mem) t = if bool_decide (s = t) then b else bit_is_set mem t.
Proof.
  intros Hs Ht Hl Hf. rewrite !bit_is_set_testbit. pose proof (Z.mod_pos_bound t 8 ltac:(lia)).
  destruct (decide (slot s = slot t)) as [E|E].
  - rewrite <- E, list_lookup_total_insert_eq by exact Hl. rewrite Hf by lia. case_bool_decide as Est; [subst; rewrite Z.eqb_refl; reflexivity|].
    rewrite (proj2 (Z.eqb_neq _ _)); [reflexivity|]. intros Em. apply Est, slot_mod; auto.
  - rewrite list_lookup_total_insert_ne by exact E. rewrite bool_decide_false; [reflexivity|]. intros ->. apply E. reflexivity.
Qed.
Lemma bit_set_spec mem s t :
  0 <= s -> 0 <= t -> (slot s < length mem)%nat -> bit_is_set (bit_set mem s) t = bool_decide (s = t) || bit_is_set mem t.
Proof.
  intros Hs Ht Hl. unfold bit_set. rewrite (flag_update mem s t (fun b => Z.lor b (u8 (Z.shiftl 1 (Z.land s 7)))) true Hs Ht Hl).
  { case_bool_decide; reflexivity. }
  intros j Hj. change 7 with (Z.ones 3). rewrite Z.land_ones by lia. change (2 ^ 3) with 8. pose proof (Z.mod_pos_bound s 8 ltac:(lia)).
  rewrite Z.shiftl_1_l, Z.lor_spec. unfold u8. change 255 with (Z.ones 8). rewrite Z.land_spec, Z.ones_spec_low, andb_true_r by lia.
  rewrite Z.pow2_bits_eqb by lia. rewrite Z.eqb_sym. destruct (j =? s mod 8); [apply orb_true_r|apply orb_false_r].
Qed.
Lemma bit_unset_spec mem s t :
  0 <= s -> 0 <= t -> (slot s < length mem)%nat -> bit_is_set (bit_unset mem s) t = negb (bool_decide (s = t)) && bit_is_set mem t.
Proof.
  intros Hs Ht Hl. unfold bit_unset. rewrite (flag_update mem s t (fun b => Z.land b (u8 (Z.lnot (Z.shiftl 1 (Z.land s 7))))) false Hs Ht Hl).
  { case_bool_decide; reflexivity. }
  intros j Hj. change 7 with (Z.ones 3). rewrite Z.land_ones by lia. change (2 ^ 3) with 8. pose proof (Z.mod_pos_bound s 8 ltac:(lia)).
  rewrite Z.shiftl_1_l, Z.land_spec. unfold u8. change 255 with (Z.ones 8). rewrite Z.land_spec, Z.ones_spec_low, andb_true_r by lia.
  rewrite Z.lnot_spec, Z.pow2_bits_eqb by lia. rewrite Z.eqb_sym. destruct (j =? s mod 8); [apply andb_false_r|apply andb_true_r].
Qed.
Lemma flags_setup_set b s : 0 <= s < b -> (slot s < length (flags_setup b))%nat /\ bit_is_set (flags_setup b) s = true.
Proof.
  intros Hs. assert (Hl : (slot s < length (flags_setup b))%nat).
  { unfold flags_setup, slot, CeilDiv. rewrite length_replicate, Z.shiftr_div_pow2 by lia. change (2 ^ 3) with 8.
    pose proof (Z.div_mod b 8 ltac:(lia)). pose proof (Z.mod_pos_bound b 8 ltac:(lia)). pose proof (Z.div_mod s 8 ltac:(lia)).
    pose proof (Z.mod_pos_bound s 8 ltac:(lia)). apply Z2Nat.inj_lt; [apply Z.div_pos; lia| |]; destruct (Z.eqb_spec (b mod 8) 0); lia. }
  split; [exact Hl|]. rewrite bit_is_set_testbit. unfold flags_setup in *. rewrite length_replicate in Hl.
  rewrite lookup_total_replicate_2 by exact Hl. pose proof (Z.mod_pos_bound s 8 ltac:(lia)). change 255 with (Z.ones 8). apply Z.ones_spec_low. lia.
Qed.

(** ** The invariant *)

Lemma FastRange32_range x n : is_u32 x -> 0 < n < 2 ^ 32 -> 0 <= FastRange32 x n < n.
Proof.
  unfold is_u32. intros Hx Hn. unfold FastRange32. rewrite u64_id by (unfold is_u64; nia). rewrite Z.shiftr_div_pow2 by lia.
  assert (0 <= x * n / 2 ^ 32 < n) by (split; [apply Z.div_pos; nia|apply Z.div_lt_upper_bound; nia]).
  rewrite u32_id by (unfold is_u32; lia). lia.
Qed.

Section Laws.
Context (hash_function : nat -> Z -> Z) (Hhash : forall k e, is_u32 (hash_function k e)).
Abbreviation locs_of := (compute_hashes hash_function).

(** The arrays have their sizes, and an element that is not the default one
    sits at one of its eight positions. *)
Record cuckoo_ok (c : cache) : Prop := {
  ck_size : 0 < csize c < 2 ^ 32;
  ck_table : length (table c) = Z.to_nat (csize c);
  ck_epochs : length (epoch_flags c) = Z.to_nat (csize c);
  ck_flags s : 0 <= s < csize c -> (slot s < length (collection_flags c))%nat;
  ck_placed loc : 0 <= loc < csize c -> at_loc c loc = 0 \/ loc ∈ locs_of c (at_loc c loc)
}.
(** An entry that must not be overwritten. *)
Definition live (c : cache) (x : Z) : Prop :=
  exists loc, 0 <= loc < csize c /\ at_loc c loc = x /\ bit_is_set (collection_flags c) loc = false.

Lemma locs_range c e loc : cuckoo_ok c -> loc ∈ locs_of c e -> 0 <= loc < csize c.
Proof. intros Hc H. apply list_elem_of_fmap in H as (k & -> & _). apply FastRange32_range; [apply Hhash|apply Hc]. Qed.
Lemma at_loc_elem c loc : cuckoo_ok c -> 0 <= loc < csize c -> at_loc c loc ∈ table c.
Proof.
  intros Hc Hl. unfold at_loc. apply list_elem_of_lookup_total. exists (Z.to_nat loc). split; [rewrite (ck_table _ Hc); lia|reflexivity].
Qed.
Lemma elem_at_loc c x : cuckoo_ok c -> x ∈ table c -> exists loc, 0 <= loc < csize c /\ at_loc c loc = x.
Proof.
  intros Hc H. apply list_elem_of_lookup_total in H as (n & Hn & E). rewrite (ck_table _ Hc) in Hn. exists (Z.of_nat n). split; [lia|].
  unfold at_loc. rewrite Nat2Z.id. exact E.
Qed.
Lemma find_elem {A} (f : A -> bool) l x : List.find f l = Some x -> x ∈ l /\ f x = true.
Proof. intros H. split; [apply list_elem_of_In|]; eapply List.find_some; eassumption. Qed.

Lemma at_loc_store c loc e loc' : cuckoo_ok c -> 0 <= loc < csize c -> 0 <= loc' ->
  at_loc (store c loc e) loc' = if bool_decide (loc = loc') then e else at_loc c loc'.
Proof.
  intros Hc Hl Hl'. unfold at_loc, store. cbn. case_bool_decide as E.
  - subst. apply list_lookup_total_insert_eq. rewrite (ck_table _ Hc). lia.
  - apply list_lookup_total_insert_ne. lia.
Qed.
(** Changing flags keeps the invariant. *)
Lemma cuckoo_ok_flags c mem eps n :
  cuckoo_ok c -> length mem = length (collection_flags c) -> length eps = length (epoch_flags c) -> cuckoo_ok (set_counter (set_flags c mem eps) n).
Proof.
  intros [H1 H2 H3 H4 H5] Hm He. split; cbn; [exact H1|exact H2|congruence|rewrite Hm; exact H4|exact H5].
Qed.
(** Storing an element at one of its positions. *)
Lemma cuckoo_ok_store c loc e : cuckoo_ok c -> loc ∈ locs_of c e -> cuckoo_ok (store c loc e).
Proof.
  intros Hc Hl. pose proof (locs_range c e loc Hc Hl) as Hr. split; cbn; try apply Hc.
  - rewrite length_insert. apply Hc.
  - intros loc' Hl'. rewrite (at_loc_store c loc e loc' Hc Hr (proj1 Hl')). case_bool_decide as E; [subst; right; exact Hl|].
    apply (ck_placed _ Hc loc' Hl').
Qed.
Lemma set_counter_same c : set_counter c (epoch_heuristic_counter c) = c.
Proof. destruct c; reflexivity. Qed.
Lemma cuckoo_ok_flags' c mem eps :
  cuckoo_ok c -> length mem = length (collection_flags c) -> length eps = length (epoch_flags c) -> cuckoo_ok (set_flags c mem eps).
Proof. intros Hc H1 H2. rewrite <- (set_counter_same (set_flags c mem eps)). apply cuckoo_ok_flags; assumption. Qed.
Lemma length_bit_set mem s : length (bit_set mem s) = length mem.
Proof. apply length_insert. Qed.
Lemma length_bit_unset mem s : length (bit_unset mem s) = length mem.
Proof. apply length_insert. Qed.

(** Ageing only touches the flags. *)
Lemma age_spec c : cuckoo_ok c -> exists mem eps, age c = set_flags c mem eps /\
  length mem = length (collection_flags c) /\ length eps = length (epoch_flags c).
Proof.
  intros Hc. unfold age. apply (for_loop_inv (fun _ c' => exists mem eps, c' = set_flags c mem eps /\
    length mem = length (collection_flags c) /\ length eps = length (epoch_flags c))).
  - exists (collection_flags c), (epoch_flags c). destruct c; auto.
  - intros j c' _ (mem & eps & -> & Hm & He). cbn [epoch_flags set_flags]. destruct (eps !!! j).
    + exists mem, (<[j := false]> eps). rewrite length_insert. auto.
    + exists (bit_set mem (Z.of_nat j)), eps. rewrite length_bit_set. auto.
Qed.
Lemma epoch_check_spec c : cuckoo_ok c ->
  cuckoo_ok (epoch_check c) /\ table (epoch_check c) = table c /\ csize (epoch_check c) = csize c.
Proof.
  intros Hc. unfold epoch_check. assert (Hset : forall n, cuckoo_ok (set_counter c n)).
  { intros n. replace (set_counter c n) with (set_counter (set_flags c (collection_flags c) (epoch_flags c)) n) by (destruct c; reflexivity).
    apply cuckoo_ok_flags; auto. }
  destruct (negb _); [auto|]. cbv zeta. destruct (_ >=? _); [|auto].
  destruct (age_spec c Hc) as (mem & eps & -> & Hm & He). split; [|auto]. apply cuckoo_ok_flags; auto.
Qed.

(** ** Epochs *)

Definition marked (c : cache) (loc : Z) : bool := bit_is_set (collection_flags c) loc.
Definition recent (c : cache) (loc : Z) : bool := epoch_flags c !!! Z.to_nat loc.
(** An epoch ends when the countdown has run out and the entries of the
    current epoch that are not marked fill it. *)
Definition epoch_full (c : cache) : Prop :=
  epoch_heuristic_counter c = 0 /\
  epoch_size c <= Z.of_nat (length (List.filter (fun i => recent c (Z.of_nat i) && negb (marked c (Z.of_nat i))) (seq 0 (Z.to_nat (csize c))))).
#[export] Instance epoch_full_dec c : Decision (epoch_full c).
Proof. apply _. Defined.
(** What the end of an epoch does: the entries of the epoch before are marked,
    those of the current one become the epoch before. *)
Definition aged (c c' : cache) : Prop :=
  table c' = table c /\ csize c' = csize c /\
  forall loc, 0 <= loc < csize c ->
    (epoch_full c -> recent c' loc = false /\ marked c' loc = marked c loc || negb (recent c loc)) /\
    (~ epoch_full c -> recent c' loc = recent c loc /\ marked c' loc = marked c loc).
(** The entries that outlive the end of an epoch, if it is due. *)
Definition kept (c : cache) (x : Z) : Prop :=
  exists loc, 0 <= loc < csize c /\ at_loc c loc = x /\ marked c loc = false /\ (epoch_full c -> recent c loc = true).

Lemma count_loop (f : nat -> bool) n i k :
  0 <= k -> k + Z.of_nat n < 2 ^ 32 ->
  for_loop n i (fun i k => u32 (k + (if f i then 1 else 0))) k = k + Z.of_nat (length (List.filter f (seq i n))).
Proof.
  revert i k. induction n as [|n IH]; intros i k Hk Hn; cbn [for_loop seq List.filter length]; [lia|].
  rewrite u32_id by (unfold is_u32; destruct (f i); lia). rewrite IH by (destruct (f i); lia). destruct (f i); cbn [length]; lia.
Qed.
Lemma epoch_unused_count_spec c : cuckoo_ok c ->
  epoch_unused_count c = Z.of_nat (length (List.filter (fun i => recent c (Z.of_nat i) && negb (marked c (Z.of_nat i))) (seq 0 (Z.to_nat (csize c))))).
Proof.
  intros Hc. pose proof (ck_size _ Hc). unfold epoch_unused_count.
  rewrite (for_loop_ext _ (fun i k => u32 (k + (if recent c (Z.of_nat i) && negb (marked c (Z.of_nat i)) then 1 else 0)))).
  - rewrite count_loop by lia. lia.
  - intros j k _. unfold recent. rewrite Nat2Z.id. reflexivity.
Qed.

Lemma age_flags c : cuckoo_ok c -> forall loc, 0 <= loc < csize c ->
  recent (age c) loc = false /\ marked (age c) loc = marked c loc || negb (recent c loc).
Proof.
  intros Hc. unfold age.
  enough (H : exists mem eps, age c = set_flags c mem eps /\ length mem = length (collection_flags c) /\ length eps = length (epoch_flags c) /\
    forall loc, 0 <= loc < csize c -> let old := Nat.ltb (Z.to_nat loc) (0 + Z.to_nat (csize c)) in
      eps !!! Z.to_nat loc = (if old then false else recent c loc) /\
      bit_is_set mem loc = (if old then marked c loc || negb (recent c loc) else marked c loc)).
  { destruct H as (mem & eps & E & _ & _ & H). fold (age c). rewrite E. intros loc Hl. specialize (H loc Hl).
    rewrite (proj2 (Nat.ltb_lt _ _)) in H by lia. exact H. }
  apply (for_loop_inv (fun n c' => exists mem eps, c' = set_flags c mem eps /\ length mem = length (collection_flags c) /\ length eps = length (epoch_flags c) /\
    forall loc, 0 <= loc < csize c -> let old := Nat.ltb (Z.to_nat loc) n in
      eps !!! Z.to_nat loc = (if old then false else recent c loc) /\
      bit_is_set mem loc = (if old then marked c loc || negb (recent c loc) else marked c loc))).
  - exists (collection_flags c), (epoch_flags c). repeat split; destruct c; reflexivity.
  - intros n c' Hn (mem & eps & -> & Hm & He & H). cbn [epoch_flags set_flags].
    pose proof (H (Z.of_nat n) ltac:(lia)) as Hcur. rewrite Nat2Z.id, Nat.ltb_irrefl in Hcur. destruct Hcur as [Hcur _]. rewrite Hcur.
    assert (Hstep : forall loc, 0 <= loc -> Z.to_nat loc <> n -> Nat.ltb (Z.to_nat loc) (S n) = Nat.ltb (Z.to_nat loc) n).
    { intros loc _ Hne. destruct (Nat.ltb_spec (Z.to_nat loc) n); [apply Nat.ltb_lt|apply Nat.ltb_ge]; lia. }
    pose proof (ck_epochs _ Hc) as Hep.
    destruct (recent c (Z.of_nat n)) eqn:Er; [exists mem, (<[n := false]> eps)|exists (bit_set mem (Z.of_nat n)), eps];
      (split; [reflexivity|]); (split; [rewrite ?length_bit_set; exact Hm|]); (split; [rewrite ?length_insert; exact He|]);
      intros loc Hl; cbv zeta; destruct (H loc Hl) as [H1 H2]; (destruct (decide (Z.to_nat loc = n)) as [En|Hne]; [|rewrite (Hstep loc (proj1 Hl) Hne)]).
    + rewrite En, (proj2 (Nat.ltb_lt n (S n))) by lia. rewrite list_lookup_total_insert_eq by lia. split; [reflexivity|].
      rewrite H2, En, Nat.ltb_irrefl. replace loc with (Z.of_nat n) by lia. rewrite Er. cbn. rewrite orb_false_r. reflexivity.
    + rewrite list_lookup_total_insert_ne by lia. auto.
    + rewrite bit_set_spec by (try (rewrite Hm; apply (ck_flags _ Hc)); lia). rewrite bool_decide_true by lia.
      rewrite En, (proj2 (Nat.ltb_lt n (S n))) by lia. split; [exact Hcur|]. replace loc with (Z.of_nat n) by lia. rewrite Er. cbn. rewrite orb_true_r. reflexivity.
    + rewrite bit_set_spec by (try (rewrite Hm; apply (ck_flags _ Hc)); lia). rewrite bool_decide_false by lia. auto.
Qed.
Lemma epoch_check_aged c : cuckoo_ok c -> aged c (epoch_check c).
Proof.
  intros Hc. destruct (epoch_check_spec c Hc) as (_ & Ht & Hs). split; [exact Ht|]. split; [exact Hs|]. intros loc Hl.
  unfold epoch_full. rewrite <- (epoch_unused_count_spec c Hc). unfold epoch_check.
  destruct (Z.eqb_spec (epoch_heuristic_counter c) 0) as [E0|E0]; cbn [negb].
  - cbv zeta. rewrite Z.geb_leb. destruct (Z.leb_spec (epoch_size c) (epoch_unused_count c)); (split; [intros H1|intros H1]).
    + apply (age_flags c Hc loc Hl).
    + exfalso. apply H1. auto.
    + exfalso. lia.
    + auto.
  - split; [intros [H1 _]; contradiction|auto].
Qed.
Lemma kept_live c x : cuckoo_ok c -> kept c x -> live (epoch_check c) x.
Proof.
  intros Hc (loc & Hl & E & Hm & Hf). destruct (epoch_check_aged c Hc) as (Ht & Hs & Ha). destruct (Ha loc Hl) as [Hfull Hnot].
  exists loc. rewrite Hs. split; [exact Hl|]. split; [unfold at_loc; rewrite Ht; exact E|]. fold (marked (epoch_check c) loc).
  destruct (decide (epoch_full c)) as [H|H].
  - rewrite (proj2 (Hfull H)), Hm, (Hf H). reflexivity.
  - rewrite (proj2 (Hnot H)). exact Hm.
Qed.

(** ** Insertion *)

(** Setting flags at a position: what the places and the marks become. *)
Lemma keep_live c loc x eps :
  cuckoo_ok c -> 0 <= loc < csize c ->
  live c x \/ x = at_loc c loc -> live (set_flags c (bit_unset (collection_flags c) loc) eps) x.
Proof.
  intros Hc Hl Hx. destruct Hx as [(l & Hr & E & Hb)| ->].
  - exists l. split; [exact Hr|]. split; [exact E|]. cbn. rewrite bit_unset_spec by (try apply (ck_flags _ Hc); lia). rewrite Hb. apply andb_false_r.
  - exists loc. split; [exact Hl|]. split; [reflexivity|]. cbn. rewrite bit_unset_spec by (try apply (ck_flags _ Hc); lia).
    rewrite bool_decide_true by reflexivity. reflexivity.
Qed.
(** Overwriting an entry keeps the live entries at other positions. *)
Lemma store_live c loc e x :
  cuckoo_ok c -> 0 <= loc < csize c -> live c x -> live (store c loc e) x \/ (x = at_loc c loc /\ bit_is_set (collection_flags c) loc = false).
Proof.
  intros Hc Hl (l & Hr & E & Hb). destruct (decide (l = loc)) as [->|Hne]; [right; auto|left].
  exists l. split; [exact Hr|]. split; [|exact Hb]. rewrite at_loc_store by (assumption || lia). rewrite bool_decide_false by congruence. exact E.
Qed.
Lemma store_elem c loc e x : cuckoo_ok c -> 0 <= loc < csize c -> cuckoo_ok (store c loc e) -> x ∈ table (store c loc e) -> x = e \/ x ∈ table c.
Proof.
  intros Hc Hl Hc' Hx. destruct (elem_at_loc _ _ Hc' Hx) as (l & Hr & <-). rewrite at_loc_store by (assumption || apply Hr).
  case_bool_decide; [auto|right]. apply at_loc_elem; [exact Hc|exact Hr].
Qed.

Lemma elem_store c loc e x : cuckoo_ok c -> 0 <= loc < csize c -> x = e \/ x ∈ table c -> x ∈ table (store c loc e) \/ x = at_loc c loc.
Proof.
  intros Hc Hl Hx. assert (Hn : (Z.to_nat loc < length (table c))%nat) by (rewrite (ck_table _ Hc); lia).
  destruct Hx as [->|Hx].
  - left. apply list_elem_of_lookup. exists (Z.to_nat loc). apply list_lookup_insert_eq. exact Hn.
  - destruct (elem_at_loc c x Hc Hx) as (l & Hr & <-). destruct (decide (l = loc)) as [->|Hne]; [auto|left].
    apply list_elem_of_lookup. exists (Z.to_nat l). cbn. rewrite list_lookup_insert_ne by lia. apply list_lookup_lookup_total_lt. rewrite (ck_table _ Hc). lia.
Qed.
Lemma insert_loop_spec depth c e last_loc last_epoch :
  cuckoo_ok c ->
  let c' := insert_loop hash_function depth c e last_loc last_epoch in
  cuckoo_ok c' /\ (forall x, x ∈ table c' -> x = e \/ x ∈ table c) /\
  exists victim, (forall x, x = e \/ x ∈ table c -> x = victim \/ x ∈ table c') /\ (forall x, x = e \/ live c x -> x = victim \/ live c' x).
Proof.
  cbv zeta. revert c e last_loc last_epoch. induction depth as [|depth IH]; intros c e last_loc last_epoch Hc; cbn [insert_loop].
  { split; [exact Hc|]. split; [auto|]. exists e. split; tauto. }
  destruct (List.find _ _) as [loc|] eqn:Ef.
  - apply find_elem in Ef as [Hin Hset]. pose proof (locs_range c e loc Hc Hin) as Hr.
    pose proof (cuckoo_ok_store c loc e Hc Hin) as Hs. split; [|split].
    + unfold set_epoch, please_keep. cbn [collection_flags set_flags]. apply (cuckoo_ok_flags' (store c loc e)); [exact Hs|apply length_bit_unset|apply length_insert].
    + intros x Hx. apply (store_elem c loc e x Hc Hr Hs Hx).
    + exists (at_loc c loc). split; [intros x Hx; destruct (elem_store c loc e x Hc Hr Hx); auto|]. intros x Hx. right. unfold set_epoch, please_keep. cbn [collection_flags set_flags].
      apply (keep_live (store c loc e) loc x); [exact Hs|exact Hr|]. destruct Hx as [->|Hx].
      * right. rewrite at_loc_store by (assumption || apply Hr). rewrite bool_decide_true by reflexivity. reflexivity.
      * destruct (store_live c loc e x Hc Hr Hx) as [H|[_ H]]; [auto|congruence].
  - cbv zeta. set (k := Nat.land _ 7). set (loc := locs_of c e !!! k). set (evicted := at_loc c loc).
    assert (Hin : loc ∈ locs_of c e).
    { apply list_elem_of_lookup_total. exists k. split; [|reflexivity]. unfold compute_hashes. rewrite length_map, length_seq.
      subst k. rewrite (Nat.land_ones _ 3 : Nat.land _ 7 = _). apply Nat.mod_upper_bound. discriminate. }
    pose proof (locs_range c e loc Hc Hin) as Hr. pose proof (cuckoo_ok_store c loc e Hc Hin) as Hs.
    assert (Hclear : bit_is_set (collection_flags c) loc = false).
    { apply (List.find_none _ _ Ef). apply list_elem_of_In, Hin. }
    set (c1 := set_epoch (store c loc e) loc last_epoch).
    assert (Hc1 : cuckoo_ok c1) by (apply (cuckoo_ok_flags' (store c loc e)); [exact Hs|reflexivity|apply length_insert]).
    destruct (IH c1 evicted loc (epoch_flags (store c loc e) !!! Z.to_nat loc) Hc1) as (H1 & H2 & victim & Hv & H3). split; [exact H1|]. split.
    + intros x Hx. destruct (H2 x Hx) as [->|Hx']; [right; apply at_loc_elem; assumption|]. apply (store_elem c loc e x Hc Hr Hs Hx').
    + exists victim. split; [intros x Hx; apply Hv, or_comm, (elem_store c loc e x Hc Hr Hx)|]. intros x Hx. apply H3. destruct Hx as [->|Hx].
      * right. exists loc. split; [exact Hr|]. split; [|exact Hclear]. change (at_loc c1 loc) with (at_loc (store c loc e) loc).
        rewrite at_loc_store by (assumption || apply Hr). rewrite bool_decide_true by reflexivity. reflexivity.
      * destruct (store_live c loc e x Hc Hr Hx) as [H|[-> _]]; [right; exact H|left; reflexivity].
Qed.

Lemma insert_spec c e :
  cuckoo_ok c ->
  cuckoo_ok (insert hash_function c e) /\ (forall x, x ∈ table (insert hash_function c e) -> x = e \/ x ∈ table c) /\
  exists victim, (forall x, x = e \/ x ∈ table c -> x = victim \/ x ∈ table (insert hash_function c e)) /\
                 (forall x, x = e \/ kept c x -> x = victim \/ live (insert hash_function c e) x).
Proof.
  intros Hc. pose proof (fun x => kept_live c x Hc) as Hk. destruct (epoch_check_spec c Hc) as (He & Ht & Hn). unfold insert. cbv zeta. destruct (List.find _ _) as [loc|] eqn:Ef.
  - apply find_elem in Ef as [Hin Hat]. apply Z.eqb_eq in Hat. pose proof (locs_range _ _ _ He Hin) as Hr. split; [|split].
    + apply (cuckoo_ok_flags' (epoch_check c)); [exact He|apply length_bit_unset|apply length_insert].
    + intros x Hx. right. rewrite <- Ht. exact Hx.
    + exists e. split; [intros x [->|Hx]; [auto|right; cbn; rewrite Ht; exact Hx]|]. intros x Hx. right.
      apply (keep_live (epoch_check c) loc x); [exact He|exact Hr|]. destruct Hx as [->|Hx]; auto.
  - destruct (insert_loop_spec (Z.to_nat (depth_limit (epoch_check c))) (epoch_check c) e invalid true He) as (H1 & H2 & victim & H3 & H4).
    rewrite Ht in H2, H3. split; [exact H1|]. split; [exact H2|]. exists victim. split; [exact H3|]. intros x [Hx|Hx]; apply H4; auto.
Qed.

Lemma contains_spec c e erase :
  cuckoo_ok c ->
  cuckoo_ok (contains hash_function c e erase).1 /\ table (contains hash_function c e erase).1 = table c /\
  csize (contains hash_function c e erase).1 = csize c /\
  ((contains hash_function c e erase).2 = true -> e ∈ table c) /\
  (e <> 0 -> e ∈ table c -> (contains hash_function c e erase).2 = true).
Proof.
  intros Hc. unfold contains. destruct (List.find _ _) as [loc|] eqn:Ef; cbn [fst snd].
  - apply find_elem in Ef as [Hin Hat]. apply Z.eqb_eq in Hat. pose proof (locs_range _ _ _ Hc Hin) as Hr.
    assert (Hel : e ∈ table c) by (rewrite <- Hat; apply at_loc_elem; assumption).
    destruct erase; [|auto]. split; [|auto]. apply (cuckoo_ok_flags' c); [exact Hc|apply length_bit_set|reflexivity].
  - split; [exact Hc|]. split; [reflexivity|]. split; [reflexivity|]. split; [discriminate|]. intros Hne Hel.
    destruct (elem_at_loc c e Hc Hel) as (loc & Hr & E). destruct (ck_placed _ Hc loc Hr) as [H0|Hp]; [congruence|]. rewrite E in Hp.
    apply list_elem_of_In in Hp. pose proof (List.find_none _ _ Ef loc Hp) as Hf. cbn in Hf. rewrite E, Z.eqb_refl in Hf. discriminate.
Qed.

Lemma setup_ok log2f n : 0 <= n < 2 ^ 32 -> cuckoo_ok (setup log2f n) /\ (forall x, x ∈ table (setup log2f n) -> x = 0).
Proof.
  intros Hn. assert (H0 : forall x, x ∈ table (setup log2f n) -> x = 0) by (intros x Hx; apply elem_of_replicate in Hx as [-> _]; reflexivity).
  split; [|exact H0]. split; cbn [csize table epoch_flags collection_flags setup].
  - lia.
  - apply length_replicate.
  - apply length_replicate.
  - intros s Hs. apply (flags_setup_set _ s Hs).
  - intros loc Hl. left. apply H0. unfold at_loc. apply list_elem_of_lookup_total. exists (Z.to_nat loc). split; [|reflexivity].
    cbn [table setup]. rewrite length_replicate. lia.
Qed.
End Laws.

(** The cache keeps what [CheckInputScripts] relies on. *)
#[export] Instance cuckoo_cache (hash_function : nat -> Z -> Z) : ElementCache cache := {|
  cache_contains := contains hash_function;
  cache_insert := insert hash_function
|}.
#[export] Program Instance cuckoo_laws hash_function (Hhash : forall k e, is_u32 (hash_function k e)) :
  @ElementCacheLaws cache (cuckoo_cache hash_function) := {|
  cache_valid := cuckoo_ok hash_function;
  holds c x := x ∈ table c
|}.
Next Obligation. intros h Hh c e er Hc. apply (contains_spec h Hh c e er Hc). Qed.
Next Obligation. intros h Hh c e er Hc. apply (contains_spec h Hh c e er Hc). Qed.
Next Obligation. intros h Hh c e er x Hc. destruct (contains_spec h Hh c e er Hc) as (_ & E & _). cbn. rewrite E. auto. Qed.
Next Obligation. intros h Hh c e Hc. apply (insert_spec h Hh c e Hc). Qed.
Next Obligation. intros h Hh c e x Hc. apply (insert_spec h Hh c e Hc). Qed.

(** ** The contract of the comments *)

(** What a run of the cache reaches. *)
Inductive cuckoo_reachable (hash_function : nat -> Z -> Z) (log2f : Z -> Z) : list Z -> cache -> Prop :=
  | cr_setup n : 0 <= n < 2 ^ 32 -> cuckoo_reachable hash_function log2f [] (setup log2f n)
  | cr_insert l c e : cuckoo_reachable hash_function log2f l c -> cuckoo_reachable hash_function log2f (e :: l) (insert hash_function c e)
  | cr_contains l c e erase : cuckoo_reachable hash_function log2f l c -> cuckoo_reachable hash_function log2f l (contains hash_function c e erase).1.

Lemma reachable_cuckoo_ok hash_function log2f l c :
  (forall k e, is_u32 (hash_function k e)) -> cuckoo_reachable hash_function log2f l c ->
  cuckoo_ok hash_function c /\ forall x, x ∈ table c -> x = 0 \/ x ∈ l.
Proof.
  intros Hh. induction 1 as [n Hn|l c e _ [Hc Hx]|l c e er _ [Hc Hx]].
  - destruct (setup_ok hash_function log2f n Hn). auto.
  - destruct (insert_spec hash_function Hh c e Hc) as (H1 & H2 & _). split; [exact H1|]. intros x Hi. destruct (H2 x Hi) as [->|H].
    + right. apply list_elem_of_here.
    + destruct (Hx x H); [auto|right; apply elem_of_cons; auto].
  - destruct (contains_spec hash_function Hh c e er Hc) as (H1 & H2 & _). split; [exact H1|]. rewrite H2. exact Hx.
Qed.


Definition toy_hashes (k : nat) (e : Z) : Z := u32 (e * 2654435761 + Z.of_nat k * 805306368).
Lemma toy_hashes_u32 k e : is_u32 (toy_hashes k e).
Proof. apply u32_range. Qed.
Definition toy_cache : cache := foldl (insert toy_hashes) (setup Z.log2 4) [11; 22; 33; 44].

(** The first position an insertion tries to vacate is the second of the
    eight, not the first. *)
Example first_eviction : Nat.land (1 + find_index [5; 6; 7; 8; 9; 10; 11; 12] invalid) 7 = 1%nat.
Proof. vm_compute. reflexivity. Qed.
(** A table of more than about 95 million entries has its epoch size wrapped around. *)
Example epoch_size_wraps : epoch_size (setup (fun _ => 1) 3) = 1 /\ Z.max 1 (u32 (45 * 95443718) / 100) = 1.
Proof. vm_compute. split; reflexivity. Qed.

End CuckooCache.
