(* ===== verification/CheckQueue.v ===== *)
(** * The check queue ([src/src/checkqueue.h])

    [CCheckQueue] runs verifications on several threads.  The shared members
    are only touched under [m_mutex], so a thread is modelled by the critical
    sections it runs and the work it does between them: [enter] is the body
    of the lock up to where the thread waits, takes a batch or, for the
    master, returns; [exec] is the work outside the lock.  [step] interleaves
    the threads.  A wait on a condition variable remembers whether it has been
    notified, and may also end spuriously.

    A check is an element of [T] and [run] its [operator()]; the destructor,
    which sets [m_request_stop], is left out. *)

From stdpp Require Import base list.
From S2P Require Import Prelude.

Local Open Scope Z_scope.

(** What a client relies on: no result when every check succeeded, else the
    result of one that did not. *)
Definition completes {T R : Type} (run : T -> option R) (checks : list T) (r : option R) : Prop :=
  match r with
  | None => Forall (fun c => run c = None) checks
  | Some e => exists c, c ∈ checks /\ run c = Some e
  end.

Section Queue.
Context {T R : Type} (run : T -> option R) (nBatchSize : Z).

(** The members guarded by [m_mutex]. *)
Record shared := mkShared {
  queue : list T;
  nIdle : Z;
  nTotal : Z;
  m_result : option R;
  nTodo : Z
}.
(** Where a thread in [Loop] is; [local_result] is kept from one batch to the
    next. [vChecks] is the batch, [nNow] its length. *)
Inductive thread :=
  | Start
  | Busy (vChecks : list T) (do_work : bool) (local_result : option R)
  | Ran (vChecks : list T) (local_result : option R)
  | Wait (local_result : option R) (notified : bool).
Inductive master := Outside | Inside (t : thread).
(** [added] is the history of the checks added since the last return. *)
Record state := mkState { sh : shared; control : master; workers : list thread; added : list T }.

(** ** The critical sections *)

(** The clean-up of the previous run of the loop: the new [local_result], and
    whether the master is notified. *)
Definition clean_up (fMaster : bool) (s : shared) (nNow : Z) (local_result : option R) : shared * option R * bool :=
  if negb (nNow =? 0) then
    let '(local_result, result) :=
      match local_result, m_result s with
      | Some _, None => (m_result s, local_result)
      | _, _ => (local_result, m_result s)
      end in
    let nTodo := u32 (nTodo s - nNow) in
    (mkShared (queue s) (nIdle s) (nTotal s) result nTodo, local_result, (nTodo =? 0) && negb fMaster)
  else (mkShared (queue s) (nIdle s) (nTotal s + 1) (m_result s) (nTodo s), local_result, false).

Definition batch_size (s : shared) : Z :=
  Z.max 1 (Z.min nBatchSize (u32 (Z.of_nat (length (queue s))) / u32 (nTotal s + nIdle s + 1))).
(** From the head of the inner loop: return (master), wait, or take a batch
    from the end of the queue. *)
Definition loop_head (fMaster : bool) (s : shared) (local_result : option R) : shared * (thread + option R) :=
  match queue s with
  | [] =>
      if fMaster && (nTodo s =? 0)
      then (mkShared (queue s) (nIdle s) (nTotal s - 1) None (nTodo s), inr (m_result s))
      else (mkShared (queue s) (nIdle s + 1) (nTotal s) (m_result s) (nTodo s), inl (Wait local_result false))
  | _ =>
      let start := (length (queue s) - Z.to_nat (batch_size s))%nat in
      (mkShared (take start (queue s)) (nIdle s) (nTotal s) (m_result s) (nTodo s),
       inl (Busy (drop start (queue s)) (match m_result s with None => true | _ => false end) local_result))
  end.

(** The checks of a batch in order, up to the first that fails. *)
Fixpoint exec (vChecks : list T) (local_result : option R) : option R :=
  match vChecks with
  | [] => local_result
  | check :: vChecks => match run check with Some e => Some e | None => exec vChecks None end
  end.

(** One step of a thread: what it does to the shared members and itself, and
    whether it notifies the master. *)
Definition resume (fMaster : bool) (s : shared) (t : thread) : shared * (thread + option R) * bool :=
  match t with
  | Start => let '(s, l, n) := clean_up fMaster s 0 None in (loop_head fMaster s l, n)
  | Busy vChecks do_work l => (s, inl (Ran vChecks (if do_work then exec vChecks l else l)), false)
  | Ran vChecks l => let '(s, l, n) := clean_up fMaster s (Z.of_nat (length vChecks)) l in (loop_head fMaster s l, n)
  | Wait l _ => (loop_head fMaster (mkShared (queue s) (nIdle s - 1) (nTotal s) (m_result s) (nTodo s)) l, false)
  end.

(** ** The interleavings *)

Definition notify (t : thread) : thread := match t with Wait l _ => Wait l true | _ => t end.
Definition notify_master (n : bool) (m : master) : master :=
  match m with Inside t => Inside (if n then notify t else t) | Outside => Outside end.
(** [notify_one] on the workers: one of the waiting threads, if there is any. *)
Inductive notify_one : list thread -> list thread -> Prop :=
  | notify_some ts i l b : ts !! i = Some (Wait l b) -> notify_one ts (<[i := Wait l true]> ts)
  | notify_none ts : Forall (fun t => match t with Wait _ _ => False | _ => True end) ts -> notify_one ts ts.
Definition notified_by_add (vChecks : list T) (ts ts' : list thread) : Prop :=
  if (length vChecks =? 1)%nat then notify_one ts ts' else ts' = map notify ts.

(** The label of a step is the result that [Complete] returns, if it does. *)
Inductive step : state -> option (option R) -> state -> Prop :=
  | step_Add s ws a vChecks ws' :
      vChecks <> [] -> nTodo s + Z.of_nat (length vChecks) < 2 ^ 32 -> notified_by_add vChecks ws ws' ->
      step (mkState s Outside ws a) None
        (mkState (mkShared (queue s ++ vChecks) (nIdle s) (nTotal s) (m_result s) (u32 (nTodo s + Z.of_nat (length vChecks))))
                 Outside ws' (a ++ vChecks))
  | step_Complete s ws a : step (mkState s Outside ws a) None (mkState s (Inside Start) ws a)
  | step_master s t ws a s' t' n :
      resume true s t = (s', inl t', n) -> step (mkState s (Inside t) ws a) None (mkState s' (Inside t') ws a)
  | step_return s t ws a s' r n :
      resume true s t = (s', inr r, n) -> step (mkState s (Inside t) ws a) (Some r) (mkState s' Outside ws [])
  | step_worker s m ws a i t s' t' n :
      ws !! i = Some t -> resume false s t = (s', inl t', n) ->
      step (mkState s m ws a) None (mkState s' (notify_master n m) (<[i := t']> ws) a).

Definition initial (workers : nat) : state := mkState (mkShared [] 0 0 None 0) Outside (replicate workers Start) [].
Inductive queue_reachable (workers : nat) : state -> Prop :=
  | qr_initial : queue_reachable workers (initial workers)
  | qr_step st l st' : queue_reachable workers st -> step st l st' -> queue_reachable workers st'.

(** ** The invariant *)

Definition in_flight (t : thread) : list T := match t with Busy v _ _ | Ran v _ => v | _ => [] end.
Definition flight (ts : list thread) : list T := concat (map in_flight ts).
#[local] Arguments flight : simpl never.
Definition threads (st : state) : list thread := match control st with Inside t => [t] | Outside => [] end ++ workers st.
(** A batch outside the lock: one that was skipped had a result to be skipped
    for; one that ran has its first failure, if there is one. *)
Definition thread_ok (result : option R) (t : thread) : Prop :=
  match t with
  | Busy v do_work _ => v <> [] /\ (do_work = false -> result <> None)
  | Ran v l => v <> [] /\ (result = None -> completes run v l)
  | _ => True
  end.
(** The part of the invariant about the queue, the batches outside the lock
    and what has been done. *)
Record parts_ok (s : shared) (F a : list T) : Prop := {
  pk_todo : nTodo s = Z.of_nat (length (queue s)) + Z.of_nat (length F);
  pk_range : nTodo s < 2 ^ 32;
  pk_done : exists finished, a ≡ₚ queue s ++ F ++ finished /\ (m_result s = None -> Forall (fun c => run c = None) finished);
  pk_result e : m_result s = Some e -> exists c, c ∈ a /\ run c = Some e
}.

Lemma parts_ok_perm s F F' a : F ≡ₚ F' -> parts_ok s F a -> parts_ok s F' a.
Proof.
  intros HF [H1 H2 (d & H3 & H4) H5]. split; [|exact H2| |exact H5].
  - rewrite H1, (Permutation_length HF). reflexivity.
  - exists d. rewrite <- HF. auto.
Qed.

Lemma exec_completes v l : v <> [] -> completes run v (exec v l).
Proof.
  assert (Hnone : forall v, completes run v (exec v None)).
  { clear. induction v as [|c v IH]; cbn; [constructor|]. destruct (run c) as [e|] eqn:E; [exists c; split; [apply list_elem_of_here|exact E]|].
    destruct (exec v None) as [e|]; cbn in *; [|constructor; assumption].
    destruct IH as (c' & Hin & Hc). exists c'. split; [apply elem_of_cons; auto|exact Hc]. }
  destruct v as [|c v]; [congruence|]. intros _. specialize (Hnone (c :: v)). cbn [exec] in *. exact Hnone.
Qed.

(** The clean-up counts a finished batch as done. *)
Lemma clean_up_ok fMaster s v l F a s' l' n :
  thread_ok (m_result s) (Ran v l) -> parts_ok s (v ++ F) a -> clean_up fMaster s (Z.of_nat (length v)) l = (s', l', n) ->
  parts_ok s' F a /\ queue s' = queue s /\ (m_result s <> None -> m_result s' <> None) /\ n = (nTodo s' =? 0) && negb fMaster.
Proof.
  intros [Hne Hres] [H1 H2 (d & H3 & H4) H5] E. unfold clean_up in E. rewrite length_app in H1.
  assert (Hl : Z.of_nat (length v) <> 0) by (destruct v; [congruence|cbn [length]; lia]). rewrite (proj2 (Z.eqb_neq _ _)) in E by exact Hl. cbn [negb] in E.
  rewrite u32_id in E by (unfold is_u32; lia).
  assert (Hr : exists result, (match l, m_result s with Some _, None => (m_result s, l) | _, _ => (l, m_result s) end).2 = result /\
    (m_result s <> None -> result <> None) /\ (result = None -> m_result s = None /\ l = None) /\
    (forall e, result = Some e -> m_result s = Some e \/ (m_result s = None /\ l = Some e))).
  { eexists. split; [reflexivity|]. destruct l, (m_result s); cbn; repeat split; auto; congruence. }
  destruct (match l, m_result s with Some _, None => (m_result s, l) | _, _ => (l, m_result s) end) as [l1 result].
  destruct Hr as (result' & <- & Hr1 & Hr2 & Hr3). cbn in *. injection E as <- <- <-. split; [split; cbn|cbn; auto].
  - lia.
  - lia.
  - exists (v ++ d). split; [rewrite H3; rewrite <- !app_assoc; apply Permutation_app_head; solve_Permutation|].
    intros E. destruct (Hr2 E) as [E1 ->]. apply Forall_app. split; [apply (Hres E1)|apply H4, E1].
  - intros e E. destruct (Hr3 e E) as [E1|[E1 ->]]; [apply H5, E1|]. destruct (Hres E1) as (c & Hc & Hr). exists c. split; [|exact Hr].
    rewrite H3. rewrite !elem_of_app. auto.
Qed.

(** The head of the loop hands over a batch, waits, or returns a correct
    result. *)
Lemma loop_head_ok fMaster s l F a s' r :
  parts_ok s F a -> loop_head fMaster s l = (s', r) ->
  match r with
  | inl t => parts_ok s' (in_flight t ++ F) a /\ thread_ok (m_result s') t /\ m_result s' = m_result s /\ nTodo s' = nTodo s /\
             (queue s = [] -> queue s' = []) /\
             (forall l b, t = Wait l b -> b = false /\ queue s = [] /\ (fMaster = true -> nTodo s <> 0))
  | inr res => fMaster = true /\ F = [] /\ completes run a res /\ parts_ok s' F []
  end.
Proof.
  intros Hp. pose proof Hp as [H1 H2 (d & H3 & H4) H5]. unfold loop_head. destruct (queue s) as [|c q] eqn:Eq.
  - destruct (fMaster && (nTodo s =? 0)) eqn:E; intros [= <- <-].
    + apply andb_true_iff in E as [-> E]. apply Z.eqb_eq in E. cbn [length] in H1. assert (F = []) as -> by (destruct F; [reflexivity|cbn [length] in H1; lia]).
      split; [reflexivity|]. split; [reflexivity|]. split.
      * cbn [app] in H3. destruct (m_result s) as [e|] eqn:Em; cbn; [apply H5; reflexivity|]. rewrite H3. apply H4. reflexivity.
      * split; cbn; [lia|lia| |discriminate]. exists []. split; [reflexivity|constructor].
    + cbn [in_flight app]. split; [split; cbn; try assumption; rewrite ?Eq; try assumption; exists d; auto|]. split; [exact I|].
      split; [reflexivity|]. split; [reflexivity|]. split; [auto|]. intros l' b [= <- <-]. split; [reflexivity|]. split; [reflexivity|].
      intros ->. cbn in E. apply Z.eqb_neq, E.
  - rewrite <- Eq in *. set (start := (length (queue s) - Z.to_nat (batch_size s))%nat). intros [= <- <-]. cbn [in_flight].
    assert (Hlt : (start < length (queue s))%nat) by (subst start; unfold batch_size; rewrite Eq; cbn [length]; lia).
    split; [split; cbn; try assumption|].
    + rewrite length_app, length_take, length_drop. lia.
    + exists d. split; [|exact H4]. rewrite H3 at 1. rewrite <- (take_drop start (queue s)) at 1. rewrite <- !app_assoc. reflexivity.
    + split; [split; [|cbn; destruct (m_result s); congruence]|].
      { intros E. apply (f_equal length) in E. rewrite length_drop in E. cbn in E. lia. }
      split; [reflexivity|]. split; [reflexivity|]. split; [intros E; rewrite E in Eq; discriminate|discriminate].
Qed.

Lemma resume_ok fMaster s t F a s' r n :
  thread_ok (m_result s) t -> parts_ok s (in_flight t ++ F) a -> resume fMaster s t = (s', r, n) ->
  match r with
  | inl t' => parts_ok s' (in_flight t' ++ F) a /\ thread_ok (m_result s') t' /\ (m_result s <> None -> m_result s' <> None) /\
              (queue s = [] -> queue s' = []) /\ (nTodo s <> 0 -> nTodo s' = 0 -> fMaster = true \/ n = true) /\
              (forall l b, t' = Wait l b -> b = false /\ queue s = [] /\ (fMaster = true -> nTodo s' <> 0))
  | inr res => fMaster = true /\ F = [] /\ completes run a res /\ parts_ok s' F []
  end.
Proof.
  intros Ht Hp. destruct t as [|v dw l|v l|l b]; cbn [resume in_flight] in *.
  - unfold clean_up. cbn [Z.eqb negb]. set (s1 := mkShared _ _ _ _ _).
    assert (Hp1 : parts_ok s1 F a) by (destruct Hp; split; assumption). destruct (loop_head fMaster s1 None) as [s2 r2] eqn:E. intros [= <- <- <-].
    pose proof (loop_head_ok _ _ _ _ _ _ _ Hp1 E) as H. destruct r2 as [t'|res]; [|exact H].
    destruct H as (G1 & G2 & G3 & G4 & G5 & G6). cbn in G3, G4, G5. rewrite G3, G4. rewrite G3 in G2. split; [exact G1|]. split; [exact G2|]. split; [auto|]. split; [exact G5|]. split; [intros; contradiction|exact G6].
  - intros [= <- <- <-]. destruct Ht as [Hne Hdw]. cbn [in_flight thread_ok]. split; [exact Hp|]. split; [split; [exact Hne|]|].
    + destruct dw; [intros _; apply exec_completes, Hne|]. intros E. destruct (Hdw eq_refl E).
    + split; [auto|]. split; [auto|]. split; [congruence|discriminate].
  - destruct (clean_up fMaster s (Z.of_nat (length v)) l) as [[s1 l1] n1] eqn:Ec.
    destruct (clean_up_ok _ _ _ _ _ _ _ _ _ Ht Hp Ec) as (Hp1 & Hq & Hm & Hn).
    destruct (loop_head fMaster s1 l1) as [s2 r2] eqn:E. intros [= <- <- <-].
    pose proof (loop_head_ok _ _ _ _ _ _ _ Hp1 E) as H. destruct r2 as [t'|res]; [|exact H].
    destruct H as (G1 & G2 & G3 & G4 & G5 & G6). rewrite G3, G4, <- Hq. rewrite G3 in G2.
    split; [exact G1|]. split; [exact G2|]. split; [exact Hm|]. split; [exact G5|]. split; [|exact G6].
    intros _ E0. rewrite Hn, E0. destruct fMaster; auto.
  - set (s1 := mkShared _ _ _ _ _). assert (Hp1 : parts_ok s1 F a) by (destruct Hp; split; assumption).
    destruct (loop_head fMaster s1 l) as [s2 r2] eqn:E. intros [= <- <- <-].
    pose proof (loop_head_ok _ _ _ _ _ _ _ Hp1 E) as H. destruct r2 as [t'|res]; [|exact H].
    destruct H as (G1 & G2 & G3 & G4 & G5 & G6). cbn in G3, G4, G5. rewrite G3, G4. rewrite G3 in G2. split; [exact G1|]. split; [exact G2|]. split; [auto|]. split; [exact G5|]. split; [intros; contradiction|exact G6].
Qed.

Record queue_ok (st : state) : Prop := {
  qo_parts : parts_ok (sh st) (flight (threads st)) (added st);
  qo_threads : Forall (thread_ok (m_result (sh st))) (threads st);
  qo_wait l b : control st = Inside (Wait l b) -> queue (sh st) = [] /\ (b = false -> nTodo (sh st) <> 0)
}.

Lemma flight_cons t ts : flight (t :: ts) = in_flight t ++ flight ts.
Proof. reflexivity. Qed.
Lemma flight_app ts us : flight (ts ++ us) = flight ts ++ flight us.
Proof. unfold flight. rewrite map_app, concat_app. reflexivity. Qed.
(** One thread among others. *)
Lemma flight_middle ts i t : ts !! i = Some t -> flight ts ≡ₚ in_flight t ++ flight (take i ts ++ drop (S i) ts).
Proof.
  intros H. rewrite <- (take_drop_middle ts i t H) at 1. rewrite !flight_app, flight_cons. solve_Permutation.
Qed.
Lemma flight_update ts i t t' : ts !! i = Some t -> flight (<[i := t']> ts) ≡ₚ in_flight t' ++ flight (take i ts ++ drop (S i) ts).
Proof.
  intros H. pose proof (lookup_lt_Some _ _ _ H) as Hi. rewrite (insert_take_drop ts i t' Hi), !flight_app, flight_cons. solve_Permutation.
Qed.
Lemma in_flight_notify t : in_flight (notify t) = in_flight t.
Proof. destruct t; reflexivity. Qed.
Lemma thread_ok_notify r t : thread_ok r t -> thread_ok r (notify t).
Proof. destruct t; auto. Qed.
Lemma thread_ok_mono r r' t : (r <> None -> r' <> None) -> thread_ok r t -> thread_ok r' t.
Proof.
  destruct t as [|v dw l|v l|l b]; cbn; auto; intros H [H1 H2]; (split; [exact H1|]); [auto|].
  intros E. apply H2. destruct r; [|reflexivity]. destruct (H ltac:(discriminate) E).
Qed.
Lemma notified_by_add_ok v ts ts' r :
  notified_by_add v ts ts' -> Forall (thread_ok r) ts -> flight ts' = flight ts /\ Forall (thread_ok r) ts'.
Proof.
  unfold notified_by_add. destruct (_ =? _)%nat.
  - intros [us i l b H|us _] Ho; [|auto]. split; [|apply Forall_insert; [exact Ho|exact I]].
    unfold flight. rewrite list_fmap_insert. rewrite list_insert_id; [reflexivity|]. change (map in_flight us) with (in_flight <$> us).
    rewrite list_lookup_fmap, H. reflexivity.
  - intros -> Ho. split.
    + unfold flight. rewrite map_map. f_equal. apply map_ext, in_flight_notify.
    + apply Forall_map. eapply Forall_impl; [exact Ho|]. apply thread_ok_notify.
Qed.

Lemma initial_ok n : queue_ok (initial n).
Proof.
  assert (Hf : flight (replicate n Start) = []) by (induction n as [|n IH]; [reflexivity|exact IH]).
  split; unfold threads, initial; cbn [control workers sh added app].
  - rewrite Hf. split; cbn; [reflexivity|lia| |discriminate]. exists []. split; [reflexivity|constructor].
  - apply Forall_replicate. exact I.
  - discriminate.
Qed.

Lemma step_ok st l st' : queue_ok st -> step st l st' ->
  queue_ok st' /\ forall r, l = Some r -> completes run (added st) r.
Proof.
  intros [Hp Ht Hw] Hs. destruct Hs as [s ws a v ws' Hv Hr Hn|s ws a|s t ws a s' t' n E|s t ws a s' r n E|s m ws a i t s' t' n Hi E];
    unfold threads in *; cbn in *.
  - split; [|discriminate]. destruct (notified_by_add_ok v ws ws' (m_result s) Hn Ht) as [Hf Ho]. destruct Hp as [H1 H2 (d & H3 & H4) H5].
    split; unfold threads; cbn; [|exact Ho|discriminate]. rewrite u32_id by (unfold is_u32; lia). rewrite Hf. split; cbn.
    + rewrite length_app. lia.
    + lia.
    + exists d. split; [rewrite H3; solve_Permutation|exact H4].
    + intros e He. destruct (H5 e He) as (c & Hc & Hrun). exists c. rewrite elem_of_app. auto.
  - split; [|discriminate]. split; unfold threads; cbn; [exact Hp|constructor; [exact I|exact Ht]|discriminate].
  - rewrite flight_cons in Hp. apply Forall_cons in Ht as [Ht1 Ht2]. split; [|discriminate].
    destruct (resume_ok true s t (flight ws) a s' (inl t') n Ht1 Hp E) as (G1 & G2 & G3 & G4 & _ & G6).
    split; unfold threads; cbn; [exact G1|constructor; [exact G2|]|].
    + eapply Forall_impl; [exact Ht2|]. intros u. apply thread_ok_mono, G3.
    + intros l b [= ->]. destruct (G6 l b eq_refl) as (_ & Hq & Hn). auto.
  - rewrite flight_cons in Hp. apply Forall_cons in Ht as [Ht1 Ht2].
    destruct (resume_ok true s t (flight ws) a s' (inr r) n Ht1 Hp E) as (_ & G2 & G3 & G4). split; [|intros r' [= <-]; exact G3].
    split; unfold threads; cbn; [exact G4| |discriminate].
    (* no batch is out when the master returns *)
    clear Hp Hw E G3 G4 Ht1. induction ws as [|u ws IH]; [constructor|]. rewrite flight_cons in G2. apply app_eq_nil in G2 as [G G']. apply Forall_cons in Ht2 as [Hu Ht2].
    constructor; [|apply IH; assumption]. destruct u as [|v dw l|v l|l b]; cbn in *; auto; destruct Hu; contradiction.
  - split; [|discriminate]. set (mt := match m with Inside t => [t] | Outside => [] end) in *.
    pose proof (proj1 (Forall_app _ _ _) Ht) as [Htm Htw]. pose proof (proj1 (Forall_lookup _ _) Htw i t Hi) as Hti.
    assert (Hp' : parts_ok s (in_flight t ++ (flight mt ++ flight (take i ws ++ drop (S i) ws))) a).
    { eapply parts_ok_perm; [|exact Hp]. rewrite (flight_app mt ws), (flight_middle ws i t Hi). solve_Permutation. }
    destruct (resume_ok false s t _ a s' (inl t') n Hti Hp' E) as (G1 & G2 & G3 & G4 & G5 & G6).
    assert (Hmt : flight (match notify_master n m with Inside t => [t] | Outside => [] end) = flight mt).
    { subst mt. destruct m as [|u]; [reflexivity|]. cbn. destruct n; rewrite ?flight_cons, ?in_flight_notify; reflexivity. }
    split; unfold threads; cbn [control workers sh added].
    + eapply parts_ok_perm; [|exact G1]. rewrite (flight_app _ (<[i := t']> ws)), Hmt, (flight_update ws i t t' Hi). solve_Permutation.
    + apply Forall_app. split; [|apply Forall_insert; [|exact G2]].
      * subst mt. destruct m as [|u]; [constructor|]. cbn in *. apply Forall_cons in Htm as [Hu _]. constructor; [|constructor].
        apply (thread_ok_mono _ _ _ G3) in Hu. destruct n; [apply thread_ok_notify|]; exact Hu.
      * eapply Forall_impl; [exact Htw|]. intros u. apply thread_ok_mono, G3.
    + intros l b Hc. destruct m as [|u]; [discriminate|]. cbn in Hc. injection Hc as Hc.
      assert (Hu : exists b', u = Wait l b' /\ (b = false -> b' = false /\ n = false)).
      { destruct n; [|subst; eauto]. destruct u; cbn in Hc; try discriminate. injection Hc as -> <-. eexists. split; [reflexivity|discriminate]. }
      destruct Hu as (b' & -> & Hb). destruct (Hw l b' eq_refl) as [Hq Hz]. split; [apply G4, Hq|].
      intros Eb E0. destruct (Hb Eb) as [-> ->]. destruct (G5 (Hz eq_refl) E0); discriminate.
Qed.

Lemma reachable_queue_ok n st : queue_reachable n st -> queue_ok st.
Proof. induction 1 as [|st l st' _ IH Hs]; [apply initial_ok|]. apply (step_ok st l st' IH Hs). Qed.

(** ** Progress *)

(** The steps of a thread that need no spurious wake-up. *)
Definition runnable (t : thread) : bool := match t with Wait _ false => false | _ => true end.
Inductive active : state -> option (option R) -> state -> Prop :=
  | active_master s t ws a s' t' n :
      runnable t = true -> resume true s t = (s', inl t', n) -> active (mkState s (Inside t) ws a) None (mkState s' (Inside t') ws a)
  | active_return s t ws a s' r n :
      runnable t = true -> resume true s t = (s', inr r, n) -> active (mkState s (Inside t) ws a) (Some r) (mkState s' Outside ws [])
  | active_worker s m ws a i t s' t' n :
      runnable t = true -> ws !! i = Some t -> resume false s t = (s', inl t', n) ->
      active (mkState s m ws a) None (mkState s' (notify_master n m) (<[i := t']> ws) a).
(** Whatever the threads do, they can go on until [Complete] returns, and do. *)
Inductive returns : state -> Prop :=
  | returns_intro st :
      (exists l st', active st l st') -> (forall st', active st None st' -> returns st') -> returns st.

Lemma active_step st l st' : active st l st' -> step st l st'.
Proof. intros []; econstructor; eassumption. Qed.

Definition weight (t : thread) : nat :=
  match t with Start => 1 | Busy _ _ _ => 3 | Ran _ _ => 2 | Wait _ b => if b then 1 else 0 end.
Definition load (ts : list thread) : nat := list_sum (map weight ts).
#[local] Arguments load : simpl never.
Definition work (st : state) : nat := (4 * length (queue (sh st)) + load (threads st))%nat.

Lemma loop_head_work fMaster s l s' t : loop_head fMaster s l = (s', inl t) ->
  (4 * length (queue s') + weight t <= 4 * length (queue s) /\ (4 * length (queue s') + weight t + 1 <= 4 * length (queue s) \/ weight t = 0))%nat.
Proof.
  unfold loop_head. destruct (queue s) as [|c q] eqn:Eq.
  - destruct (_ && _); [discriminate|]. intros [= <- <-]. cbn. lia.
  - rewrite <- Eq. intros [= <- <-]. cbn. rewrite length_take, Eq. unfold batch_size. rewrite Eq. cbn [length]. lia.
Qed.
Lemma resume_work fMaster s t s' t' n : runnable t = true -> resume fMaster s t = (s', inl t', n) ->
  (4 * length (queue s') + weight t' + (if n then 1 else 0) < 4 * length (queue s) + weight t)%nat.
Proof.
  intros Hr. assert (Hcl : forall k l s1 l1 n1, clean_up fMaster s k l = (s1, l1, n1) -> queue s1 = queue s).
  { intros k l s1 l1 n1. unfold clean_up. destruct (negb _); [|intros [= <- _ _]; reflexivity].
    destruct (match l, m_result s with Some _, None => _ | _, _ => _ end). intros [= <- _ _]. reflexivity. }
  destruct t as [|v dw l|v l|l b]; cbn [resume weight].
  - destruct (clean_up fMaster s 0 None) as [[s1 l1] n1] eqn:Ec. pose proof (Hcl _ _ _ _ _ Ec) as Hq.
    destruct (loop_head fMaster s1 l1) as [s2 r2] eqn:E. intros [= <- -> <-]. apply loop_head_work in E. rewrite Hq in E.
    unfold clean_up in Ec. cbn in Ec. injection Ec as _ _ <-. lia.
  - intros [= <- <- <-]. cbn. lia.
  - destruct (clean_up fMaster s (Z.of_nat (length v)) l) as [[s1 l1] n1] eqn:Ec. pose proof (Hcl _ _ _ _ _ Ec) as Hq.
    destruct (loop_head fMaster s1 l1) as [s2 r2] eqn:E. intros [= <- -> <-]. apply loop_head_work in E. rewrite Hq in E. destruct n1; lia.
  - cbn in Hr. destruct b; [|discriminate]. match goal with |- context [loop_head fMaster ?x l] => destruct (loop_head fMaster x l) as [s2 r2] eqn:E end.
    intros [= <- -> <-]. apply loop_head_work in E. cbn in E. lia.
Qed.
Lemma load_app ts us : load (ts ++ us) = (load ts + load us)%nat.
Proof. unfold load. rewrite map_app. apply list_sum_app. Qed.
Lemma load_update ts i t t' : ts !! i = Some t -> (load (<[i := t']> ts) + weight t = load ts + weight t')%nat.
Proof.
  intros H. pose proof (lookup_lt_Some _ _ _ H) as Hi. rewrite (insert_take_drop ts i t' Hi). rewrite <- (take_drop_middle ts i t H) at 3.
  rewrite !load_app. unfold load. cbn [map]. unfold list_sum. cbn [foldr]. lia.
Qed.
Lemma active_work st st' : active st None st' -> (work st' < work st)%nat.
Proof.
  unfold work, threads. intros H. remember None as l eqn:El. destruct H as [s t ws a s' t' n Hr E|s t ws a s' r n Hr E|s m ws a i t s' t' n Hr Hi E]; [|discriminate|].
  - apply resume_work in E; [|exact Hr]. cbn. destruct n; unfold load in *; cbn in *; lia.
  - apply resume_work in E; [|exact Hr]. pose proof (load_update ws i t t' Hi) as Hu. cbn. rewrite !load_app.
    assert (Hm : (load (match notify_master n m with Inside t => [t] | Outside => [] end) <=
                  load (match m with Inside t => [t] | Outside => [] end) + (if n then 1 else 0))%nat).
    { destruct m as [|u]; cbn; [destruct n; lia|]. unfold load. destruct n; [|cbn; lia]. destruct u as [| | |l0 b0]; cbn; try lia; destruct b0; cbn; lia. }
    lia.
Qed.

Lemma resume_worker s t s' r n : resume false s t <> (s', inr r, n).
Proof.
  assert (Hl : forall s1 l1, (loop_head false s1 l1).2 <> inr r).
  { intros s1 l1. unfold loop_head. destruct (queue s1); cbn; discriminate. }
  destruct t as [|v dw l|v l|l b]; cbn [resume].
  - destruct (clean_up false s 0 None) as [[s1 l1] n1]. pose proof (Hl s1 l1). destruct (loop_head false s1 l1); cbn in *; congruence.
  - discriminate.
  - destruct (clean_up false s (Z.of_nat (length v)) l) as [[s1 l1] n1]. pose proof (Hl s1 l1). destruct (loop_head false s1 l1); cbn in *; congruence.
  - match goal with |- context [loop_head false ?x l] => pose proof (Hl x l); destruct (loop_head false x l) end. cbn in *; congruence.
Qed.
Lemma worker_active s m ws a i t : ws !! i = Some t -> runnable t = true -> exists l st', active (mkState s m ws a) l st'.
Proof.
  intros Hi Hr. destruct (resume false s t) as [[s' [t'|r]] n] eqn:E; [|destruct (resume_worker _ _ _ _ _ E)].
  eexists _, _. eapply active_worker; eassumption.
Qed.
(** There is no deadlock: a master that waits without having been notified
    waits for a batch that a worker is busy with. *)
Lemma not_stuck st t : queue_ok st -> control st = Inside t -> exists l st', active st l st'.
Proof.
  intros [Hp _ Hw] Hc. destruct st as [s m ws a]. cbn in *. subst m. destruct (runnable t) eqn:Hr.
  - destruct (resume true s t) as [[s' [t'|r]] n] eqn:E; eexists _, _; [eapply active_master|eapply active_return]; eassumption.
  - destruct t as [| | |l b]; try discriminate. destruct b; [discriminate|]. destruct (Hw l false eq_refl) as [Hq Hz]. specialize (Hz eq_refl).
    destruct Hp as [H1 _ _ _]. unfold threads in H1. cbn in H1. rewrite Hq, flight_cons in H1. cbn [length in_flight app] in H1.
    assert (Hex : exists i u, ws !! i = Some u /\ in_flight u <> []).
    { clear -H1 Hz. induction ws as [|u ws IH]; [unfold flight in H1; cbn in H1; lia|]. rewrite flight_cons in H1. destruct (in_flight u) as [|c v] eqn:E.
      - destruct (IH H1) as (i & u' & Hi & Hu). exists (S i), u'. auto.
      - exists 0%nat, u. split; [reflexivity|]. rewrite E. discriminate. }
    destruct Hex as (i & u & Hi & Hu). apply (worker_active s _ ws a i u Hi). destruct u as [| | |l' b']; cbn in *; congruence.
Qed.

Lemma inside_returns n st t : queue_reachable n st -> control st = Inside t -> returns st.
Proof.
  remember (work st) as w eqn:Ew. revert st t Ew. induction w as [w IH] using lt_wf_ind. intros st t -> Hr Hc. constructor.
  - apply (not_stuck st t (reachable_queue_ok n st Hr) Hc).
  - intros st' Ha. assert (Hin : exists t', control st' = Inside t').
    { remember None as l eqn:El. destruct Ha; cbn in *; [eauto|discriminate|]. subst. cbn. eauto. }
    destruct Hin as (t' & Hc'). apply (IH (work st') (active_work st st' Ha) st' t' eq_refl); [|exact Hc'].
    eapply qr_step; [exact Hr|apply active_step, Ha].
Qed.

(** C11: The queue keeps its promise under every interleaving: when [Complete]
    returns, the result is that of a failed check that was added since the
    last return, and no result means that all of them succeeded. *)
Theorem check_queue_correct n st r st' :
  queue_reachable n st -> step st (Some r) st' -> completes run (added st) r.
Proof. intros Hr Hs. apply (step_ok st (Some r) st' (reachable_queue_ok n st Hr) Hs). reflexivity. Qed.

(** C19: [Complete] returns: from every reachable state in which the master is in
    it, some thread can run without a spurious wake-up, and every way of
    running such threads ends with the return. *)
Theorem check_queue_returns n st t : queue_reachable n st -> control st = Inside t -> returns st.
Proof. apply inside_returns. Qed.
End Queue.

(** One worker, three checks of which one fails. *)
Definition toy_run (x : Z) : option Z := if x <? 0 then Some x else None.
Abbreviation toy_shared := (@mkShared Z Z).
Definition toy_added : state := mkState (toy_shared [3; -4; 5] 0 0 None 3) Outside [Start] [3; -4; 5].
Lemma toy_added_reachable : queue_reachable toy_run 4 1 toy_added.
Proof.
  eapply qr_step; [apply qr_initial|]. apply (step_Add toy_run 4 (mkShared [] 0 0 None 0) [Start] [] [3; -4; 5] [Start]); [discriminate|reflexivity|reflexivity].
Qed.
(** The worker takes the last check, the master the two others. *)
Definition toy_last : state := mkState (toy_shared [] 2 2 (Some (-4)) 0) (Inside (Wait None true)) [Wait None false] [3; -4; 5].
Lemma toy_last_reachable : queue_reachable toy_run 4 1 toy_last.
Proof.
  assert (H1 : queue_reachable toy_run 4 1 (mkState (toy_shared [3; -4] 0 1 None 3) Outside [Busy [5] true None] [3; -4; 5])).
  { eapply qr_step; [apply toy_added_reachable|]. eapply (step_worker toy_run 4 _ Outside [Start] _ 0%nat Start); reflexivity. }
  assert (H2 : queue_reachable toy_run 4 1 (mkState (toy_shared [3] 0 2 None 3) (Inside (Busy [-4] true None)) [Busy [5] true None] [3; -4; 5])).
  { eapply qr_step; [eapply qr_step; [apply H1|apply step_Complete]|]. eapply (step_master toy_run 4); reflexivity. }
  assert (H3 : queue_reachable toy_run 4 1 (mkState (toy_shared [] 0 2 (Some (-4)) 2) (Inside (Busy [3] false None)) [Busy [5] true None] [3; -4; 5])).
  { eapply qr_step; [eapply qr_step; [apply H2|]|]; eapply (step_master toy_run 4); reflexivity. }
  assert (H4 : queue_reachable toy_run 4 1 (mkState (toy_shared [] 1 2 (Some (-4)) 1) (Inside (Wait None false)) [Ran [5] None] [3; -4; 5])).
  { eapply qr_step; [eapply qr_step; [eapply qr_step; [apply H3|]|]|]; [eapply (step_master toy_run 4); reflexivity..|].
    eapply (step_worker toy_run 4 _ (Inside (Wait None false)) [Busy [5] true None] _ 0%nat (Busy [5] true None) _ (Ran [5] None) false); reflexivity. }
  assert (H5 : queue_reachable toy_run 4 1 (mkState (toy_shared [] 2 2 (Some (-4)) 0) (Inside (Wait None true)) [Wait None false] [3; -4; 5])).
  { eapply qr_step; [apply H4|].
    eapply (step_worker toy_run 4 _ (Inside (Wait None false)) [Ran [5] None] _ 0%nat (Ran [5] None) _ (Wait None false) true); reflexivity. }
  exact H5.
Qed.
Lemma check_queue_correct_witness : completes toy_run [3; -4; 5] (Some (-4)).
Proof.
  apply (check_queue_correct toy_run 4 1 toy_last (Some (-4)) (mkState (toy_shared [] 1 1 None 0) Outside [Wait None false] [])).
  - apply toy_last_reachable.
  - eapply step_return. reflexivity.
Defined.
Lemma check_queue_returns_witness : returns toy_run 4 toy_last.
Proof. apply (check_queue_returns toy_run 4 1 toy_last (Wait None true)); [apply toy_last_reachable|reflexivity]. Defined.
