(* ===== verification/Ledger.v ===== *)
(** * Connecting and disconnecting blocks ([src/src/validation.cpp])

    [UpdateCoins], [CheckInputScripts], [ApplyTxInUndo], [DisconnectBlock],
    [GetBlockScriptFlags] and [ConnectBlock], with [WriteBlockUndo] of
    [src/src/node/blockstorage.cpp].  The members a call changes are passed
    along: the coins view, the block index, the script execution cache, the
    undo data (by block; where it lies in the files is not modelled) and the
    memory-only flags of the block.  [None] is a failed assertion or an
    exception.  Timers, log lines and notifications are left out.

    [VerifyScript] is the script interpreter on one input (its error as text),
    [CacheKey] the salted hash of a witness hash and flags, [Complete] the
    answer of the check queue, and [undo_io] says whether undo data could be
    written, and where. *)

From Stdlib Require Import String.
From stdpp Require Import gmap.
From S2P Require Import Prelude ConsensusParams Emission Levy ArithUint256 BlockIndex Pow Headers Serialize Script Transaction Coins TxCheck Merkle Block CuckooCache CheckQueue.

Local Open Scope Z_scope.

(** ** Undo data ([src/src/undo.h]) *)

(** [CTxUndo::vprevout] and [CBlockUndo::vtxundo]. *)
Abbreviation CTxUndo := (list Coin).
Abbreviation CBlockUndo := (list CTxUndo).

Section Coins.
Context {B : Type} `{!CCoinsView B}.
Implicit Type c : CCoinsViewCache B.
Context (TxHash : CTransaction -> Z).

Fixpoint spend_inputs c (ins : list CTxIn) : option (CCoinsViewCache B * CTxUndo) :=
  match ins with
  | [] => Some (c, [])
  | txin :: ins =>
      '(c, is_spent) ← SpendCoin c (prevout txin);
      undo ← is_spent;
      '(c, undos) ← spend_inputs c ins;
      Some (c, undo :: undos)
  end.
Definition UpdateCoins c (tx : CTransaction) (nHeight : Z) : option (CCoinsViewCache B * CTxUndo) :=
  '(c, txundo) ← (if negb (IsCoinBase tx) then spend_inputs c (vin tx) else Some (c, []));
  c ← AddCoins c (TxHash tx) tx nHeight false;
  Some (c, txundo).

Inductive DisconnectResult := DISCONNECT_OK | DISCONNECT_UNCLEAN | DISCONNECT_FAILED.

(** The coin with its metadata filled in from another output of the same
    transaction, where undo data of an old version lacks them. *)
Definition restore_metadata c (undo : Coin) (o : COutPoint) : option (CCoinsViewCache B * option Coin) :=
  if coin_nHeight undo =? 0 then
    '(c, alternate) ← AccessByTxid c (op_hash o);
    Some (c, if negb (IsSpent alternate) then Some (mkCoin (out undo) (fCoinBase alternate) (coin_nHeight alternate)) else None)
  else Some (c, Some undo).
Definition ApplyTxInUndo (undo : Coin) c (o : COutPoint) : option (CCoinsViewCache B * DisconnectResult) :=
  '(c, have) ← cache_HaveCoin c o;
  let fClean := negb have in
  '(c, undo) ← restore_metadata c undo o;
  match undo with
  | None => Some (c, DISCONNECT_FAILED)
  | Some undo =>
      c ← AddCoin c o undo (negb fClean);
      Some (c, if fClean then DISCONNECT_OK else DISCONNECT_UNCLEAN)
  end.

(** Remove the outputs of a transaction; [fClean] is cleared when one is not
    what the block says. *)
Fixpoint remove_outputs c (hash : Z) (nHeight : Z) (is_coinbase is_bip30_exception : bool) (o : nat) (outs : list CTxOut) (fClean : bool)
    : option (CCoinsViewCache B * bool) :=
  match outs with
  | [] => Some (c, fClean)
  | txout :: outs =>
      if negb (IsUnspendable (scriptPubKey txout)) then
        '(c, spent) ← SpendCoin c (mkOutPoint hash (u32 (Z.of_nat o)));
        let matches := match spent with
          | Some coin => bool_decide (txout = out coin) && (nHeight =? coin_nHeight coin) && Bool.eqb is_coinbase (fCoinBase coin)
          | None => false
          end in
        remove_outputs c hash nHeight is_coinbase is_bip30_exception (S o) outs
          (if negb matches && negb is_bip30_exception then false else fClean)
      else remove_outputs c hash nHeight is_coinbase is_bip30_exception (S o) outs fClean
  end.
(** Restore the inputs, given last to first; [None] in the result is [DISCONNECT_FAILED]. *)
Fixpoint restore_inputs c (ins : list (CTxIn * Coin)) (fClean : bool) : option (CCoinsViewCache B * option bool) :=
  match ins with
  | [] => Some (c, Some fClean)
  | (txin, undo) :: ins =>
      '(c, res) ← ApplyTxInUndo undo c (prevout txin);
      match res with
      | DISCONNECT_FAILED => Some (c, None)
      | DISCONNECT_OK => restore_inputs c ins fClean
      | DISCONNECT_UNCLEAN => restore_inputs c ins false
      end
  end.
(** The transactions last to first, with their undo data except for the first. *)
Fixpoint undo_transactions c (nHeight : Z) (fEnforceBIP30 : bool) (txs : list (CTransaction * option CTxUndo)) (fClean : bool)
    : option (CCoinsViewCache B * option bool) :=
  match txs with
  | [] => Some (c, Some fClean)
  | (tx, undo) :: txs =>
      let is_coinbase := IsCoinBase tx in
      '(c, fClean) ← remove_outputs c (TxHash tx) nHeight is_coinbase (is_coinbase && negb fEnforceBIP30) 0 (vout tx) fClean;
      match undo with
      | None => undo_transactions c nHeight fEnforceBIP30 txs fClean
      | Some vprevout =>
          if negb (length vprevout =? length (vin tx))%nat then Some (c, None)
          else
            '(c, res) ← restore_inputs c (rev (zip (vin tx) vprevout)) fClean;
            match res with
            | None => Some (c, None)
            | Some fClean => undo_transactions c nHeight fEnforceBIP30 txs fClean
            end
      end
  end.

(** [blockUndo] is what [ReadBlockUndo] reads. *)
Definition DisconnectBlock (m : BlockMap) (blockUndo : option CBlockUndo) (block : CBlock) (pindex : Z) c
    : option (CCoinsViewCache B * DisconnectResult) :=
  match blockUndo with
  | None => Some (c, DISCONNECT_FAILED)
  | Some vtxundo =>
      if negb (length vtxundo + 1 =? length (vtx block))%nat then Some (c, DISCONNECT_FAILED)
      else
        b ← m !! pindex;
        hash ← phashBlock b;
        let fEnforceBIP30 := negb (((nHeight b =? 91722) && (hash =? 0x00000000000271a2dc26e7667f8419f2e15416dc6955e5a6c6cdf3f2574dd08e)) ||
                                   ((nHeight b =? 91812) && (hash =? 0x00000000000af0aed4792b1acee3d966af36cf5def14935db8de83d6f9306f2f))) in
        '(c, res) ← undo_transactions c (nHeight b) fEnforceBIP30 (rev (zip (vtx block) (None :: map Some vtxundo))) true;
        match res with
        | None => Some (c, DISCONNECT_FAILED)
        | Some fClean =>
            p ← pprev b;
            prev ← m !! p;
            prevhash ← phashBlock prev;
            Some (SetBestBlock c prevhash, if (fClean : bool) then DISCONNECT_OK else DISCONNECT_UNCLEAN)
        end
  end.
End Coins.

(** ** Script flags ([src/src/script/interpreter.h], [src/src/policy/policy.h]) *)

Definition flag (bit : Z) : Z := Z.shiftl 1 bit.
Definition SCRIPT_VERIFY_P2SH := flag 0.
Definition SCRIPT_VERIFY_STRICTENC := flag 1.
Definition SCRIPT_VERIFY_DERSIG := flag 2.
Definition SCRIPT_VERIFY_LOW_S := flag 3.
Definition SCRIPT_VERIFY_NULLDUMMY := flag 4.
Definition SCRIPT_VERIFY_SIGPUSHONLY := flag 5.
Definition SCRIPT_VERIFY_MINIMALDATA := flag 6.
Definition SCRIPT_VERIFY_DISCOURAGE_UPGRADABLE_NOPS := flag 7.
Definition SCRIPT_VERIFY_CLEANSTACK := flag 8.
Definition SCRIPT_VERIFY_CHECKLOCKTIMEVERIFY := flag 9.
Definition SCRIPT_VERIFY_CHECKSEQUENCEVERIFY := flag 10.
Definition SCRIPT_VERIFY_WITNESS := flag 11.
Definition SCRIPT_VERIFY_DISCOURAGE_UPGRADABLE_WITNESS_PROGRAM := flag 12.
Definition SCRIPT_VERIFY_MINIMALIF := flag 13.
Definition SCRIPT_VERIFY_NULLFAIL := flag 14.
Definition SCRIPT_VERIFY_WITNESS_PUBKEYTYPE := flag 15.
Definition SCRIPT_VERIFY_CONST_SCRIPTCODE := flag 16.
Definition SCRIPT_VERIFY_TAPROOT := flag 17.
Definition SCRIPT_VERIFY_DISCOURAGE_UPGRADABLE_TAPROOT_VERSION := flag 18.
Definition SCRIPT_VERIFY_DISCOURAGE_OP_SUCCESS := flag 19.
Definition SCRIPT_VERIFY_DISCOURAGE_UPGRADABLE_PUBKEYTYPE := flag 20.
Definition SCRIPT_VERIFY_XCOIN_V3 := flag 21.
Definition any_flag (flags : list Z) : Z := foldr Z.lor 0 flags.
Definition MANDATORY_SCRIPT_VERIFY_FLAGS : Z :=
  any_flag [SCRIPT_VERIFY_P2SH; SCRIPT_VERIFY_DERSIG; SCRIPT_VERIFY_NULLDUMMY; SCRIPT_VERIFY_CHECKLOCKTIMEVERIFY;
            SCRIPT_VERIFY_CHECKSEQUENCEVERIFY; SCRIPT_VERIFY_WITNESS; SCRIPT_VERIFY_TAPROOT; SCRIPT_VERIFY_XCOIN_V3].
Definition STANDARD_SCRIPT_VERIFY_FLAGS : Z :=
  any_flag [MANDATORY_SCRIPT_VERIFY_FLAGS; SCRIPT_VERIFY_STRICTENC; SCRIPT_VERIFY_MINIMALDATA;
            SCRIPT_VERIFY_DISCOURAGE_UPGRADABLE_NOPS; SCRIPT_VERIFY_CLEANSTACK; SCRIPT_VERIFY_MINIMALIF; SCRIPT_VERIFY_NULLFAIL;
            SCRIPT_VERIFY_LOW_S; SCRIPT_VERIFY_DISCOURAGE_UPGRADABLE_WITNESS_PROGRAM; SCRIPT_VERIFY_WITNESS_PUBKEYTYPE;
            SCRIPT_VERIFY_CONST_SCRIPTCODE; SCRIPT_VERIFY_DISCOURAGE_UPGRADABLE_TAPROOT_VERSION;
            SCRIPT_VERIFY_DISCOURAGE_OP_SUCCESS; SCRIPT_VERIFY_DISCOURAGE_UPGRADABLE_PUBKEYTYPE].
Definition STANDARD_NOT_MANDATORY_VERIFY_FLAGS : Z := Z.land STANDARD_SCRIPT_VERIFY_FLAGS (u64 (Z.lnot MANDATORY_SCRIPT_VERIFY_FLAGS)).

Definition DeploymentActiveAt (b : CBlockIndex) (params : Params) (dep : BuriedDeployment) : bool := nHeight b >=? DeploymentHeight params dep.
Definition GetBlockScriptFlags (b : CBlockIndex) (params : Params) : option Z :=
  hash ← phashBlock b;
  let flags := match script_flag_exceptions params !! hash with
    | Some f => f
    | None => any_flag [SCRIPT_VERIFY_P2SH; SCRIPT_VERIFY_WITNESS; SCRIPT_VERIFY_TAPROOT; SCRIPT_VERIFY_XCOIN_V3]
    end in
  let flags := if DeploymentActiveAt b params DEPLOYMENT_DERSIG then Z.lor flags SCRIPT_VERIFY_DERSIG else flags in
  let flags := if DeploymentActiveAt b params DEPLOYMENT_CLTV then Z.lor flags SCRIPT_VERIFY_CHECKLOCKTIMEVERIFY else flags in
  let flags := if DeploymentActiveAt b params DEPLOYMENT_CSV then Z.lor flags SCRIPT_VERIFY_CHECKSEQUENCEVERIFY else flags in
  Some (if DeploymentActiveAt b params DEPLOYMENT_SEGWIT then Z.lor flags SCRIPT_VERIFY_NULLDUMMY else flags).

Definition IsBIP30Repeat (nHeight hash : Z) : bool :=
  ((nHeight =? 91842) && (hash =? 0x00000000000a4d0a398161ffc163c503763b1f4360639393e0e4c8e300e0caec)) ||
  ((nHeight =? 91880) && (hash =? 0x00000000000743f190a18c5577a3c2d2a1f610ae9601ac046a38084ccb7cd721)).

(** ** Checking scripts *)

(** One input to verify: [txdata] is the precomputed data, a function of the
    transaction and of the outputs it spends. *)
Record CScriptCheck := mkScriptCheck {
  m_tx_out : CTxOut;
  ptxTo : CTransaction;
  nIn : nat;
  m_flags : Z;
  txdata : list CTxOut
}.

Section Connect.
Context {B : Type} `{!CCoinsView B} {C : Type} `{!ElementCache C}.
Context (EnableFuzzDeterminism : bool) (GetHash : CBlockHeader -> Z) (PoWHash : CBlockHeader -> Params -> Z) (params : Params).
Context (TxHash WitnessHash : CTransaction -> Z) (Hash2 CacheKey : Z -> Z -> Z).
Context (VerifyScript : CScript -> CScript -> list (list Z) -> Z -> CTransaction -> nat -> Z -> list CTxOut -> option string).
Implicit Type c : CCoinsViewCache B.

(** [CScriptCheck::operator()]: the error, where there is one. *)
Definition run_check (ck : CScriptCheck) : option string :=
  match vin (ptxTo ck) !! nIn ck with
  | Some txin => VerifyScript (scriptSig txin) (scriptPubKey (m_tx_out ck)) (scriptWitness txin) (m_flags ck)
                   (ptxTo ck) (nIn ck) (nValue (m_tx_out ck)) (txdata ck)
  | None => None
  end.

Fixpoint spent_outputs_loop c (ins : list CTxIn) : option (CCoinsViewCache B * list CTxOut) :=
  match ins with
  | [] => Some (c, [])
  | txin :: ins =>
      '(c, cn) ← AccessCoin c (prevout txin);
      if IsSpent cn then None
      else '(c, outs) ← spent_outputs_loop c ins; Some (c, out cn :: outs)
  end.
Definition script_checks (tx : CTransaction) (flags : Z) (outs : list CTxOut) : list CScriptCheck :=
  map (fun io => mkScriptCheck io.2 tx io.1 flags outs) (zip (seq 0 (length outs)) outs).
(** Checks performed one after the other, up to the first error. *)
Fixpoint run_checks (checks : list CScriptCheck) : option string :=
  match checks with
  | [] => None
  | ck :: checks => match run_check ck with Some e => Some e | None => run_checks checks end
  end.

(** [ready] is [txdata.m_spent_outputs] once it has been filled; [pvChecks]
    the checks collected so far, when they are collected.  The result: the
    view, the cache, the collected checks and the verdict. *)
Definition CheckInputScripts (tx : CTransaction) c (flags : Z) (cacheFullScriptStore : bool) (ready : option (list CTxOut))
    (vc : C) (pvChecks : option (list CScriptCheck)) : option (CCoinsViewCache B * C * option (list CScriptCheck) * TxVerdict) :=
  if IsCoinBase tx then Some (c, vc, pvChecks, TxValid)
  else
    let hashCacheEntry := CacheKey (WitnessHash tx) flags in
    let '(vc, cached) := cache_contains vc hashCacheEntry (negb cacheFullScriptStore) in
    if cached then Some (c, vc, pvChecks, TxValid)
    else
      '(c, outs) ← (match ready with Some outs => Some (c, outs) | None => spent_outputs_loop c (vin tx) end);
      if negb (length outs =? length (vin tx))%nat then None
      else
        let checks := script_checks tx flags outs in
        match pvChecks with
        | Some collected => Some (c, vc, Some (collected ++ checks), TxValid)
        | None =>
            match run_checks checks with
            | Some err =>
                Some (c, vc, None,
                  if negb (Z.land flags STANDARD_NOT_MANDATORY_VERIFY_FLAGS =? 0)
                  then TxInvalid TX_NOT_STANDARD ("mempool-script-verify-flag-failed (" ++ err ++ ")")
                  else TxInvalid TX_CONSENSUS ("block-script-verify-flag-failed (" ++ err ++ ")"))
            | None => Some (c, if cacheFullScriptStore then cache_insert vc hashCacheEntry else vc, None, TxValid)
            end
        end.

(** ** One block *)

(** The members of the chain manager that the decision to skip script
    verification looks at. *)
Context (AssumedValidBlock : Z) (MinimumChainWork : list Z).
Definition TWO_WEEKS_IN_SECONDS : Z := 60 * 60 * 24 * 7 * 2.
Definition script_check_reason (s : BlockManager) (pindex : Z) (b : CBlockIndex) : option (option string) :=
  let m := m_block_index s in
  if AssumedValidBlock =? 0 then Some (Some "assumevalid=0 (always verify)"%string)
  else match m !! AssumedValidBlock with
  | None => Some (Some "assumevalid hash not in headers"%string)
  | Some it =>
      a ← GetAncestor m AssumedValidBlock (nHeight b);
      if negb (bool_decide (a = Some pindex))
      then Some (Some (if nHeight b >? nHeight it then "block height above assumevalid height" else "block not in assumevalid chain")%string)
      else
        bh ← m_best_header s;
        best_header ← m !! bh;
        a ← GetAncestor m bh (nHeight b);
        if negb (bool_decide (a = Some pindex)) then Some (Some "block not in best header chain"%string)
        else if CompareTo (nChainWork best_header) MinimumChainWork <? 0 then Some (Some "best header chainwork below minimumchainwork"%string)
        else
          t ← GetBlockProofEquivalentTime best_header b best_header params;
          if t <=? TWO_WEEKS_IN_SECONDS then Some (Some "block too recent relative to best header"%string) else Some None
  end.

(** The loops of the BIP 30 check. *)
Fixpoint have_outputs c (hash : Z) (o n : nat) : option (CCoinsViewCache B * bool) :=
  match n with
  | O => Some (c, false)
  | S n =>
      '(c, have) ← cache_HaveCoin c (mkOutPoint hash (u32 (Z.of_nat o)));
      '(c, more) ← have_outputs c hash (S o) n;
      Some (c, have || more)
  end.
Fixpoint have_any_output c (txs : list CTransaction) : option (CCoinsViewCache B * bool) :=
  match txs with
  | [] => Some (c, false)
  | tx :: txs =>
      '(c, have) ← have_outputs c (TxHash tx) 0 (length (vout tx));
      '(c, more) ← have_any_output c txs;
      Some (c, have || more)
  end.

Fixpoint prev_heights c (ins : list CTxIn) : option (CCoinsViewCache B * list Z) :=
  match ins with
  | [] => Some (c, [])
  | txin :: ins =>
      '(c, cn) ← AccessCoin c (prevout txin);
      '(c, hs) ← prev_heights c ins;
      Some (c, coin_nHeight cn :: hs)
  end.
Definition GetRejectReason (v : TxVerdict) : string := match v with TxInvalid _ reason => reason | TxValid => ""%string end.
(** The checks of a transaction that is not a coinbase; the reason it is
    rejected for, or the fees so far. *)
Definition connect_inputs (m : BlockMap) (pindex : Z) (b : CBlockIndex) (nLockTimeFlags : Z) c (tx : CTransaction) (nFees : Z)
    : option (CCoinsViewCache B * (string + Z)) :=
  '(c, r) ← CheckTxInputs c tx (nHeight b) (coinbaseMaturity params);
  match r with
  | inl v => Some (c, inl (GetRejectReason v))
  | inr txfee =>
      v ← CheckSettlementLevy tx txfee (SettlementLevyAt params (nHeight b));
      match v with
      | TxInvalid _ reason => Some (c, inl reason)
      | TxValid =>
          let nFees := i64 (nFees + txfee) in
          if negb (MoneyRange nFees) then Some (c, inl "bad-txns-accumulated-fee-outofrange"%string)
          else
            '(c, prevheights) ← prev_heights c (vin tx);
            ok ← SequenceLocks m tx nLockTimeFlags prevheights pindex;
            Some (c, if negb ok then inl "bad-txns-nonfinal"%string else inr nFees)
      end
  end.

(** What the loop over the transactions carries; [lp_checks] are the checks
    handed to the queue, when there is one. *)
Record Loop := mkLoop {
  lp_view : CCoinsViewCache B;
  lp_cache : C;
  lp_undo : CBlockUndo;
  lp_fees : Z;
  lp_sigops : Z;
  lp_checks : option (list CScriptCheck);
  lp_state : Verdict
}.
Definition lp_reject (st : Loop) c (vc : C) (reason : string) : Loop :=
  mkLoop c vc (lp_undo st) (lp_fees st) (lp_sigops st) (lp_checks st) (Invalid BLOCK_CONSENSUS reason).

Definition connect_transaction (m : BlockMap) (pindex : Z) (b : CBlockIndex) (nLockTimeFlags flags : Z) (fScriptChecks fJustCheck : bool)
    (i : nat) (tx : CTransaction) (st : Loop) : option Loop :=
  '(c, r) ← (if negb (IsCoinBase tx) then connect_inputs m pindex b nLockTimeFlags (lp_view st) tx (lp_fees st)
             else Some (lp_view st, inr (lp_fees st)));
  match r with
  | inl reason => Some (lp_reject st c (lp_cache st) reason)
  | inr nFees =>
      '(c, cost) ← GetTransactionSigOpCost c tx flags;
      let nSigOpsCost := i64 (lp_sigops st + cost) in
      if nSigOpsCost >? MAX_BLOCK_SIGOPS_COST then Some (lp_reject st c (lp_cache st) "bad-blk-sigops")
      else
        '(c, vc, checks, v) ←
          (if negb (IsCoinBase tx) && fScriptChecks
           then CheckInputScripts tx c flags fJustCheck None (lp_cache st) (lp_checks st)
           else Some (c, lp_cache st, lp_checks st, TxValid));
        match v with
        | TxInvalid _ reason => Some (lp_reject st c vc reason)
        | TxValid =>
            '(c, txundo) ← UpdateCoins TxHash c tx (nHeight b);
            Some (mkLoop c vc (if (i =? 0)%nat then lp_undo st else lp_undo st ++ [txundo]) nFees nSigOpsCost checks Valid)
        end
  end.
Fixpoint connect_transactions (m : BlockMap) (pindex : Z) (b : CBlockIndex) (nLockTimeFlags flags : Z) (fScriptChecks fJustCheck : bool)
    (i : nat) (txs : list CTransaction) (st : Loop) : option Loop :=
  match txs with
  | [] => Some st
  | tx :: txs =>
      match lp_state st with
      | Invalid _ _ => Some st
      | Valid =>
          st ← connect_transaction m pindex b nLockTimeFlags flags fScriptChecks fJustCheck i tx st;
          connect_transactions m pindex b nLockTimeFlags flags fScriptChecks fJustCheck (S i) txs st
      end
  end.

Definition set_undo (b : CBlockIndex) (pos : Z) : CBlockIndex :=
  mkBlockIndex (phashBlock b) (pprev b) (pskip b) (nHeight b) (nFile b) (nDataPos b) pos (nChainWork b)
    (nTx b) (m_chain_tx_count b) (Z.lor (nStatus b) BLOCK_HAVE_UNDO) (nVersion b) (hashMerkleRoot b) (nTime b) (nBits b) (nNonce b)
    (nSequenceId b) (nTimeMax b).
Definition put_index (s : BlockManager) (pindex : Z) (b : CBlockIndex) : BlockManager :=
  mkBlockManager (<[pindex := b]> (m_block_index s)) ({[pindex]} ∪ m_dirty_blockindex s) (m_best_header s).
(** The undo data of a block is written once; [None] as the second component
    is a fatal error. *)
Definition WriteBlockUndo (undo_io : option Z) (undos : gmap Z CBlockUndo) (s : BlockManager) (pindex : Z) (b : CBlockIndex) (blockundo : CBlockUndo)
    : gmap Z CBlockUndo * option (BlockManager * CBlockIndex) :=
  if Z.land (nStatus b) BLOCK_HAVE_UNDO =? 0 then
    match undo_io with
    | None => (undos, None)
    | Some pos => let b := set_undo b pos in (<[pindex := blockundo]> undos, Some (put_index s pindex b, b))
    end
  else (undos, Some (s, b)).
(** [ReadBlockUndo]: [read_ok] is whether the file could be read. *)
Definition ReadBlockUndo (read_ok : bool) (undos : gmap Z CBlockUndo) (pindex : Z) (b : CBlockIndex) : option CBlockUndo :=
  if read_ok && negb (Z.land (nStatus b) BLOCK_HAVE_UNDO =? 0) then undos !! pindex else None.

(** How [ConnectBlock] ends: [true], [false] with an invalid state, [false]
    with an error that stops the node. *)
Inductive Outcome :=
  | Connected
  | Rejected (r : BlockValidationResult) (reason : string)
  | Failed.
Record ConnectState := mkConnect {
  cs_block : CBlock;
  cs_view : CCoinsViewCache B;
  cs_cache : C;
  cs_man : BlockManager;
  cs_undos : gmap Z CBlockUndo
}.

Definition BIP34_IMPLIES_BIP30_LIMIT : Z := 1983702.
(** Whether the BIP 30 check is made: [pprev] is the parent. *)
Definition check_bip30 (m : BlockMap) (b : CBlockIndex) (hash p : Z) : option bool :=
  pindexBIP34height ← GetAncestor m p (BIP34Height params);
  same ← (match pindexBIP34height with
          | Some a => e ← m !! a; h ← phashBlock e; Some (h =? BIP34Hash params)
          | None => Some false
          end);
  let fEnforceBIP30 := negb (IsBIP30Repeat (nHeight b) hash) && negb same in
  Some (fEnforceBIP30 || (nHeight b >=? BIP34_IMPLIES_BIP30_LIMIT)).

(** The oracles: whether the queue has threads, and what it answers. *)
Context (HasThreads : bool) (Complete : list CScriptCheck -> option string).

(** From the fork checks to the end. *)
Definition connect_checked (cs : ConnectState) (pindex : Z) (b : CBlockIndex) (hash : Z) (fJustCheck : bool) (undo_io : option Z)
    : option (ConnectState * Outcome) :=
  let block := cs_block cs in
  let s := cs_man cs in
  let m := m_block_index s in
  reason ← script_check_reason s pindex b;
  let fScriptChecks := match reason with Some _ => true | None => false end in
  p ← pprev b;
  bip30 ← check_bip30 m b hash p;
  '(c, overwrite) ← (if (bip30 : bool) then have_any_output (cs_view cs) (vtx block) else Some (cs_view cs, false));
  let state := if (overwrite : bool) then Invalid BLOCK_CONSENSUS "bad-txns-BIP30" else Valid in
  let nLockTimeFlags := if DeploymentActiveAt b params DEPLOYMENT_CSV then LOCKTIME_VERIFY_SEQUENCE else 0 in
  flags ← GetBlockScriptFlags b params;
  let checks := if HasThreads && fScriptChecks then Some [] else None in
  st ← connect_transactions m pindex b nLockTimeFlags flags fScriptChecks fJustCheck 0 (vtx block)
         (mkLoop c (cs_cache cs) [] 0 0 checks state);
  let blockReward := i64 (lp_fees st + GetBlockSubsidy (nHeight b) params) in
  coinbase ← vtx block !! 0%nat;
  value_out ← GetValueOut coinbase;
  let state := match lp_state st with
    | Valid => if value_out >? blockReward then Invalid BLOCK_CONSENSUS "bad-cb-amount" else Valid
    | v => v
    end in
  let parallel_result := match lp_checks st with Some l => Complete l | None => None end in
  let state := match state, parallel_result with
    | Valid, Some err => Invalid BLOCK_CONSENSUS ("block-script-verify-flag-failed (" ++ err ++ ")")
    | v, _ => v
    end in
  let cs := mkConnect block (lp_view st) (lp_cache st) s (cs_undos cs) in
  match state with
  | Invalid r reason => Some (cs, Rejected r reason)
  | Valid =>
      if fJustCheck then Some (cs, Connected)
      else
        let '(undos, written) := WriteBlockUndo undo_io (cs_undos cs) s pindex b (lp_undo st) in
        match written with
        | None => Some (mkConnect block (lp_view st) (lp_cache st) s undos, Failed)
        | Some (s, b) =>
            valid ← IsValid b BLOCK_VALID_SCRIPTS;
            s ← (if negb valid then '(b, _) ← RaiseValidity b BLOCK_VALID_SCRIPTS; Some (put_index s pindex b) else Some s);
            Some (mkConnect block (SetBestBlock (lp_view st) hash) (lp_cache st) s undos, Connected)
        end
  end.

Definition ConnectBlock (cs : ConnectState) (pindex : Z) (fJustCheck : bool) (undo_io : option Z) : option (ConnectState * Outcome) :=
  let block_hash := GetHash (header (cs_block cs)) in
  b ← m_block_index (cs_man cs) !! pindex;
  hash ← phashBlock b;
  if negb (hash =? block_hash) then None
  else
    '(block, v) ← CheckBlock EnableFuzzDeterminism GetHash PoWHash params TxHash Hash2 (cs_block cs) (negb fJustCheck) (negb fJustCheck);
    let cs := mkConnect block (cs_view cs) (cs_cache cs) (cs_man cs) (cs_undos cs) in
    match v with
    | Invalid BLOCK_MUTATED _ => Some (cs, Failed)
    | Invalid r reason => Some (cs, Rejected r reason)
    | Valid =>
        hashPrevBlock ← (match pprev b with
                         | None => Some 0
                         | Some p => prev ← m_block_index (cs_man cs) !! p; phashBlock prev
                         end);
        let '(c, best) := cache_GetBestBlock (cs_view cs) in
        let cs := mkConnect block c (cs_cache cs) (cs_man cs) (cs_undos cs) in
        if negb (hashPrevBlock =? best) then None
        else if block_hash =? hashGenesisBlock params then
          Some (mkConnect block (if negb fJustCheck then SetBestBlock c block_hash else c) (cs_cache cs) (cs_man cs) (cs_undos cs), Connected)
        else connect_checked cs pindex b block_hash fJustCheck undo_io
    end.
End Connect.
Arguments mkLoop {B C}.
Arguments lp_view {B C}.
Arguments lp_cache {B C}.
Arguments lp_undo {B C}.
Arguments lp_fees {B C}.
Arguments lp_sigops {B C}.
Arguments lp_checks {B C}.
Arguments lp_state {B C}.
Arguments mkConnect {B C}.
Arguments cs_block {B C}.
Arguments cs_view {B C}.
Arguments cs_cache {B C}.
Arguments cs_man {B C}.
Arguments cs_undos {B C}.
