(* ===== verification/LedgerCoins.v ===== *)
(** * The ledger: transactions as changes of a map of coins

    What connecting and disconnecting do to the unspent outputs, as operations
    on a finite map: [apply_tx] removes the coins a transaction spends and
    adds those it creates, [value] is the sum of a map.  The functions of
    [Ledger.v] on a coins view are shown to do this to the map the view
    stands for, and to leave the base of the view as it was. *)

From Stdlib Require Import String.
From stdpp Require Import gmap.
From S2P Require Import Prelude ConsensusParams Emission Levy ArithUint256 BlockIndex Pow Headers Serialize Script Transaction Coins TxCheck Merkle Block CuckooCache CheckQueue Ledger.

Local Open Scope Z_scope.

(** ** The abstract ledger: transactions on a map of coins *)

Abbreviation ledger := (gmap COutPoint Coin).

(** What a transaction creates and spends. *)
Definition created (txid nHeight : Z) (tx : CTransaction) : ledger := add_outputs txid nHeight (IsCoinBase tx) 0 (vout tx) ∅.
Definition spent (u : ledger) (tx : CTransaction) : ledger :=
  if IsCoinBase tx then ∅ else filter (fun kv => kv.1 ∈ map prevout (vin tx)) u.
Definition apply_tx (txid nHeight : Z) (tx : CTransaction) (u : ledger) : ledger := created txid nHeight tx ∪ (u ∖ spent u tx).

Lemma add_outputs_union txid h cb i outs u : add_outputs txid h cb i outs u = add_outputs txid h cb i outs ∅ ∪ u.
Proof.
  assert (H : forall l m, foldl (add_output txid h cb) (m ∪ u) l = foldl (add_output txid h cb) m l ∪ u).
  { induction l as [|io l IH]; intros m; cbn [foldl]; [reflexivity|]. rewrite <- IH. f_equal. unfold add_output.
    destruct (IsUnspendable _); [reflexivity|]. apply insert_union_l. }
  unfold add_outputs. rewrite <- H, (left_id_L ∅ (∪)). reflexivity.
Qed.
(** The keys and the coins of the outputs. *)
Lemma lookup_add_outputs txid h cb i outs o cn :
  Z.of_nat (i + length outs) <= 2 ^ 32 ->
  add_outputs txid h cb i outs ∅ !! o = Some cn <->
  exists k txout, outs !! k = Some txout /\ IsUnspendable (scriptPubKey txout) = false /\
                  o = mkOutPoint txid (Z.of_nat (i + k)) /\ cn = make_coin txout h cb.
Proof.
  revert i o cn. induction outs as [|t outs IH]; intros i o cn Hl.
  { cbn. rewrite lookup_empty. split; [discriminate|]. intros (k & ? & E & _). destruct k; discriminate. }
  cbn [length] in Hl. rewrite add_outputs_cons, add_outputs_union. unfold add_output. cbn [fst snd].
  rewrite u32_id by (unfold is_u32; lia). pose proof (fun o cn => IH (S i) o cn ltac:(lia)) as IH'. clear IH. split.
  - rewrite lookup_union_Some_raw. intros [H|[_ H]].
    + apply IH' in H as (k & txout & E & Hu & -> & ->). exists (S k), txout. rewrite Nat.add_succ_r. auto.
    + destruct (IsUnspendable (scriptPubKey t)) eqn:Eu; [rewrite lookup_empty in H; discriminate|].
      apply lookup_insert_Some in H as [[<- <-]|[_ H]]; [|rewrite lookup_empty in H; discriminate].
      exists 0%nat, t. rewrite Nat.add_0_r. auto.
  - intros (k & txout & E & Hu & -> & ->). destruct k as [|k]; cbn in E.
    + injection E as ->. rewrite Hu, Nat.add_0_r. apply lookup_union_Some_raw. right. split; [|apply lookup_insert_eq].
      apply eq_None_not_Some. intros [cn' H]. apply IH' in H as (k & ? & _ & _ & [= E] & _). lia.
    + apply lookup_union_Some_raw. left. apply IH'. exists k, txout. rewrite Nat.add_succ_r. auto.
Qed.
Lemma lookup_created txid h tx o cn :
  size (vout tx) <= 2 ^ 32 ->
  created txid h tx !! o = Some cn <->
  exists k txout, vout tx !! k = Some txout /\ IsUnspendable (scriptPubKey txout) = false /\
                  o = mkOutPoint txid (Z.of_nat k) /\ cn = make_coin txout h (IsCoinBase tx).
Proof. intros Hl. apply lookup_add_outputs. exact Hl. Qed.

Lemma lookup_spent u tx o : IsCoinBase tx = false -> spent u tx !! o = if decide (o ∈ map prevout (vin tx)) then u !! o else None.
Proof.
  intros Hc. unfold spent. rewrite Hc. destruct (decide _) as [Hi|Hi].
  - destruct (u !! o) as [cn|] eqn:E.
    + apply map_lookup_filter_Some. auto.
    + apply map_lookup_filter_None. auto.
  - apply map_lookup_filter_None. auto.
Qed.
Lemma spent_subseteq u tx : spent u tx ⊆ u.
Proof. unfold spent. destruct (IsCoinBase tx); [apply map_empty_subseteq|apply map_filter_subseteq]. Qed.

(** Deleting the inputs one by one. *)
Lemma delete_inputs u tx : IsCoinBase tx = false -> foldl (fun u i => delete (prevout i) u) u (vin tx) = u ∖ spent u tx.
Proof.
  intros Hc. apply map_eq. intros o. rewrite lookup_difference, lookup_spent by exact Hc.
  assert (H : forall ins (u : ledger), foldl (fun u i => delete (prevout i) u) u ins !! o = if decide (o ∈ map prevout ins) then None else u !! o).
  { clear. induction ins as [|i ins IH]; intros u; cbn [foldl map]; [rewrite decide_False by apply not_elem_of_nil; reflexivity|].
    rewrite IH. destruct (decide (o ∈ map prevout ins)) as [Hi|Hi].
    - rewrite decide_True by (apply elem_of_cons; auto). reflexivity.
    - destruct (decide (o = prevout i)) as [->|Hne].
      + rewrite decide_True by apply list_elem_of_here. apply lookup_delete_eq.
      + rewrite decide_False by (rewrite elem_of_cons; tauto). apply lookup_delete_ne. congruence. }
  rewrite H. destruct (decide _); [|reflexivity]. destruct (u !! o); reflexivity.
Qed.

(** Values. *)
Definition value (u : ledger) : Z := map_fold (fun _ cn s => nValue (out cn) + s) 0 u.
Lemma value_empty : value ∅ = 0.
Proof. apply map_fold_empty. Qed.
Lemma value_insert u o cn : u !! o = None -> value (<[o := cn]> u) = nValue (out cn) + value u.
Proof. intros H. unfold value. rewrite map_fold_insert_L; [reflexivity|intros; lia|exact H]. Qed.
Lemma value_union u v : u ##ₘ v -> value (u ∪ v) = value u + value v.
Proof.
  revert v. induction u as [|o cn u Hn IH] using map_ind; intros v Hd.
  { rewrite (left_id_L ∅ (∪)), value_empty. reflexivity. }
  apply map_disjoint_insert_l in Hd as [Hv Hd]. rewrite <- insert_union_l, value_insert, value_insert, IH; [lia|exact Hd|exact Hn|].
  apply lookup_union_None. auto.
Qed.
Lemma value_difference u v : v ⊆ u -> value (u ∖ v) = value u - value v.
Proof. intros Hs. rewrite <- (map_difference_union v u Hs) at 2. rewrite value_union by (apply map_disjoint_difference_r1; reflexivity). lia. Qed.
Lemma value_nonneg u : map_Forall (fun _ cn => 0 <= nValue (out cn)) u -> 0 <= value u.
Proof.
  induction u as [|o cn u Hn IH] using map_ind; intros Hv; [rewrite value_empty; lia|].
  rewrite value_insert by exact Hn. apply map_Forall_insert in Hv as [Hc Hv]; [|exact Hn]. specialize (IH Hv). lia.
Qed.
(** Adding outputs adds at most their total: unspendable ones are not added. *)
Lemma value_add_outputs txid h cb i outs :
  Z.of_nat (i + length outs) <= 2 ^ 32 -> in_range outs -> value (add_outputs txid h cb i outs ∅) <= total outs.
Proof.
  revert i. induction outs as [|t outs IH]; intros i Hl Hr; [change (value ∅ <= 0); rewrite value_empty; lia|]. apply in_range_cons in Hr as [Ht Hr]. cbn [length] in Hl.
  rewrite add_outputs_cons, add_outputs_union. cbn [total foldr]. fold (total outs). specialize (IH (S i) ltac:(lia) Hr).
  unfold add_output. cbn [fst snd]. rewrite u32_id by (unfold is_u32; lia). destruct (IsUnspendable (scriptPubKey t)).
  - rewrite (right_id_L ∅ (∪)). lia.
  - rewrite value_union.
    + rewrite value_insert, value_empty by apply lookup_empty. cbn [out make_coin]. lia.
    + apply map_disjoint_insert_r. split; [|apply map_disjoint_empty_r]. apply eq_None_not_Some. intros [cn H].
      apply lookup_add_outputs in H as (k & ? & _ & _ & [= E] & _); lia.
Qed.
(** The spent coins by their outpoints. *)
Lemma spent_list u tx coins :
  IsCoinBase tx = false -> NoDup (map prevout (vin tx)) -> input_coins u (vin tx) = Some coins ->
  spent u tx = list_to_map (zip (map prevout (vin tx)) coins).
Proof.
  intros Hc Hnd Hi. apply map_eq. intros o. rewrite lookup_spent by exact Hc. unfold input_coins in Hi. revert coins Hnd Hi.
  induction (vin tx) as [|i ins IH]; intros coins Hnd Hi; cbn [map mapM] in *.
  { injection Hi as <-. rewrite decide_False by apply not_elem_of_nil. reflexivity. }
  destruct (u !! prevout i) as [cn|] eqn:Ei; [|discriminate]. cbn in Hi. destruct (mapM _ ins) as [rest|]; [|discriminate]. injection Hi as <-.
  apply NoDup_cons in Hnd as [Hni Hnd]. cbn [zip zip_with]. rewrite list_to_map_cons. specialize (IH rest Hnd eq_refl).
  destruct (decide (o = prevout i)) as [->|Hne].
  - rewrite decide_True by apply list_elem_of_here. rewrite lookup_insert_eq. exact Ei.
  - rewrite lookup_insert_ne by congruence. rewrite <- IH. destruct (decide (o ∈ map prevout ins)) as [H|H].
    + rewrite decide_True by (apply elem_of_cons; auto). reflexivity.
    + rewrite decide_False by (rewrite elem_of_cons; tauto). reflexivity.
Qed.
Lemma input_coins_length u ins coins : input_coins u ins = Some coins -> length coins = length ins.
Proof. intros H. symmetry. exact (length_mapM _ _ _ H). Qed.
Lemma zip_fst {A A'} (l : list A) (k : list A') : length k = length l -> (zip l k).*1 = l.
Proof. intros H. apply fst_zip. lia. Qed.
(** The value of distinct inputs is the total of their coins. *)
Lemma value_spent u tx coins :
  IsCoinBase tx = false -> NoDup (map prevout (vin tx)) -> input_coins u (vin tx) = Some coins -> value (spent u tx) = total (map out coins).
Proof.
  intros Hc Hnd Hi. rewrite (spent_list u tx coins Hc Hnd Hi). apply input_coins_length in Hi. clear Hc.
  assert (Hl : length coins = length (map prevout (vin tx))) by (rewrite length_map; exact Hi). clear Hi. revert coins Hl.
  induction (map prevout (vin tx)) as [|o os IH]; intros [|cn coins] Hl; try discriminate; [apply value_empty|]. injection Hl as Hl.
  apply NoDup_cons in Hnd as [Hni Hnd]. cbn [zip zip_with map total foldr]. fold (total (map out coins)). rewrite <- (IH Hnd coins Hl).
  rewrite list_to_map_cons. apply value_insert. apply not_elem_of_list_to_map_1. rewrite zip_fst by exact Hl. exact Hni.
Qed.

(** ** The operations on a view *)

(** The view may have changed, its base stands for what it stood for. *)
Definition keeps {B} `{!CCoinsView B} `{!CCoinsViewLaws B} (c c' : CCoinsViewCache B) : Prop :=
  cache_ok c' /\ hashBlock c' = hashBlock c /\ cache_best c' = cache_best c /\ same_base c c'.

Section Views.
Context {B : Type} `{!CCoinsView B} `{!CCoinsViewLaws B}.
Implicit Type c : CCoinsViewCache B.

Lemma keeps_trans c c' c'' : keeps c c' -> keeps c' c'' -> keeps c c''.
Proof.
  intros (H1 & H2 & H3 & H4) (G1 & G2 & G3 & G4). split; [exact G1|]. split; [congruence|]. split; [congruence|].
  eapply same_base_trans; eassumption.
Qed.
Lemma same_keeps c c' : same_cache c c' -> keeps c c'.
Proof. intros (H1 & _ & H3 & H4 & H5). split; [exact H1|]. auto. Qed.
Lemma keeps_refl c : cache_ok c -> keeps c c.
Proof. intros H. apply same_keeps, same_cache_refl, H. Qed.

Lemma AccessCoin_inv c o c' cn :
  cache_ok c -> AccessCoin c o = Some (c', cn) ->
  same_cache c c' /\ match cache_utxo c !! o with Some cn' => cn = cn' | None => IsSpent cn = true end.
Proof. intros Hc E. destruct (AccessCoin_spec c o Hc) as (c1 & cn1 & E1 & Hs & Hcn). rewrite E in E1. injection E1 as <- <-. auto. Qed.
Lemma HaveCoin_inv c o c' h :
  cache_ok c -> cache_HaveCoin c o = Some (c', h) -> same_cache c c' /\ h = bool_decide (is_Some (cache_utxo c !! o)).
Proof. intros Hc E. destruct (cache_HaveCoin_spec c o Hc) as (c1 & E1 & Hs). rewrite E in E1. injection E1 as <- <-. auto. Qed.

Lemma input_coins_cons u i ins cn coins :
  u !! prevout i = Some cn -> input_coins u ins = Some coins -> input_coins u (i :: ins) = Some (cn :: coins).
Proof. unfold input_coins. intros H1 H2. cbn [mapM]. rewrite H1. cbn. rewrite H2. reflexivity. Qed.
Lemma input_coins_uncons u i ins coins :
  input_coins u (i :: ins) = Some coins -> exists cn rest, coins = cn :: rest /\ u !! prevout i = Some cn /\ input_coins u ins = Some rest.
Proof.
  unfold input_coins. cbn [mapM]. destruct (u !! prevout i) as [cn|]; [|discriminate]. cbn. destruct (mapM _ ins) as [rest|]; [|discriminate].
  intros [= <-]. eauto.
Qed.
Lemma input_coins_lookup u ins coins k i :
  input_coins u ins = Some coins -> ins !! k = Some i -> exists cn, coins !! k = Some cn /\ u !! prevout i = Some cn.
Proof.
  revert coins k. induction ins as [|j ins IH]; intros coins k Hi Hk; [discriminate|].
  apply input_coins_uncons in Hi as (cn & rest & -> & Hcn & Hi). destruct k as [|k]; cbn in Hk; [injection Hk as ->; eauto|].
  destruct (IH rest k Hi Hk) as (cn' & ? & ?). eauto.
Qed.

Lemma p2sh_loop_same c ins n c' r : cache_ok c -> GetP2SHSigOpCount_loop c ins n = Some (c', r) -> same_cache c c'.
Proof.
  revert c n. induction ins as [|i ins IH]; intros c n Hc; cbn [GetP2SHSigOpCount_loop]; [intros [= <- _]; apply same_cache_refl, Hc|].
  destruct (AccessCoin c (prevout i)) as [[c1 cn]|] eqn:E; [|discriminate]. cbn [mbind option_bind]. destruct (IsSpent cn); [discriminate|].
  apply AccessCoin_inv in E as [Hs _]; [|exact Hc]. intros H. eapply same_cache_trans; [exact Hs|]. eapply IH; [apply Hs|exact H].
Qed.
Lemma witness_loop_same c ins flags n c' r : cache_ok c -> witness_sigops_loop c ins flags n = Some (c', r) -> same_cache c c'.
Proof.
  revert c n. induction ins as [|i ins IH]; intros c n Hc; cbn [witness_sigops_loop]; [intros [= <- _]; apply same_cache_refl, Hc|].
  destruct (AccessCoin c (prevout i)) as [[c1 cn]|] eqn:E; [|discriminate]. cbn [mbind option_bind]. destruct (IsSpent cn); [discriminate|].
  destruct (CountWitnessSigOps _ _ _ _); [|discriminate]. cbn [mbind option_bind].
  apply AccessCoin_inv in E as [Hs _]; [|exact Hc]. intros H. eapply same_cache_trans; [exact Hs|]. eapply IH; [apply Hs|exact H].
Qed.
Lemma SigOpCost_same c tx flags c' r : cache_ok c -> GetTransactionSigOpCost c tx flags = Some (c', r) -> same_cache c c'.
Proof.
  intros Hc. unfold GetTransactionSigOpCost. cbv zeta. destruct (IsCoinBase tx) eqn:Ecb; [intros [= <- _]; apply same_cache_refl, Hc|].
  destruct (Z.testbit flags SCRIPT_VERIFY_P2SH_bit).
  - unfold GetP2SHSigOpCount. rewrite Ecb. destruct (GetP2SHSigOpCount_loop c (vin tx) 0) as [[c1 n]|] eqn:E; [|discriminate]. cbn [mbind option_bind].
    apply p2sh_loop_same in E; [|exact Hc]. intros H. eapply same_cache_trans; [exact E|]. eapply witness_loop_same; [apply E|exact H].
  - cbn [mbind option_bind]. intros H. eapply witness_loop_same; [exact Hc|exact H].
Qed.

Lemma spent_outputs_inv c ins c' outs :
  cache_ok c -> spent_outputs_loop c ins = Some (c', outs) ->
  same_cache c c' /\ exists coins, input_coins (cache_utxo c) ins = Some coins /\ outs = map out coins.
Proof.
  revert c outs. induction ins as [|i ins IH]; intros c outs Hc; cbn [spent_outputs_loop].
  { intros [= <- <-]. split; [apply same_cache_refl, Hc|]. exists []. auto. }
  destruct (AccessCoin c (prevout i)) as [[c1 cn]|] eqn:E; [|discriminate]. cbn [mbind option_bind]. destruct (IsSpent cn) eqn:Esp; [discriminate|].
  apply AccessCoin_inv in E as [Hs Hcn]; [|exact Hc]. destruct (spent_outputs_loop c1 ins) as [[c2 rest]|] eqn:E2; [|discriminate].
  intros [= <- <-]. destruct (IH c1 rest (proj1 Hs) E2) as (Hs2 & coins & Hi & ->). split; [eapply same_cache_trans; eassumption|].
  exists (cn :: coins). split; [|reflexivity]. destruct Hs as (_ & Hu & _). rewrite Hu in Hi. apply input_coins_cons; [|exact Hi].
  destruct (cache_utxo c !! prevout i); [congruence|]. rewrite Hcn in Esp. discriminate.
Qed.
Lemma prev_heights_inv c ins c' hs coins :
  cache_ok c -> input_coins (cache_utxo c) ins = Some coins -> prev_heights c ins = Some (c', hs) ->
  same_cache c c' /\ hs = map coin_nHeight coins.
Proof.
  revert c hs coins. induction ins as [|i ins IH]; intros c hs coins Hc Hi; cbn [prev_heights].
  { injection Hi as <-. intros [= <- <-]. split; [apply same_cache_refl, Hc|reflexivity]. }
  apply input_coins_uncons in Hi as (cn & rest & -> & Ei & Hi).
  destruct (AccessCoin c (prevout i)) as [[c1 cn1]|] eqn:E; [|discriminate]. cbn [mbind option_bind].
  apply AccessCoin_inv in E as [Hs Hcn]; [|exact Hc]. rewrite Ei in Hcn. subst cn1.
  destruct (prev_heights c1 ins) as [[c2 hs1]|] eqn:E2; [|discriminate]. intros [= <- <-].
  destruct (IH c1 hs1 rest (proj1 Hs)) as [Hs2 ->]; [destruct Hs as (_ & -> & _); exact Hi|exact E2|].
  split; [eapply same_cache_trans; eassumption|reflexivity].
Qed.

Lemma have_outputs_inv c hash o n c' h :
  cache_ok c -> have_outputs c hash o n = Some (c', h) ->
  same_cache c c' /\ (h = false -> forall j, (o <= j < o + n)%nat -> cache_utxo c !! mkOutPoint hash (u32 (Z.of_nat j)) = None).
Proof.
  revert c o h. induction n as [|n IH]; intros c o h Hc; cbn [have_outputs].
  { intros [= <- <-]. split; [apply same_cache_refl, Hc|]. intros _ j Hj. lia. }
  destruct (cache_HaveCoin c _) as [[c1 h1]|] eqn:E; [|discriminate]. cbn [mbind option_bind].
  apply HaveCoin_inv in E as [Hs ->]; [|exact Hc]. destruct (have_outputs c1 hash (S o) n) as [[c2 h2]|] eqn:E2; [|discriminate].
  intros [= <- <-]. destruct (IH c1 (S o) h2 (proj1 Hs) E2) as [Hs2 Hj]. split; [eapply same_cache_trans; eassumption|].
  intros Hf j Hlt. apply orb_false_iff in Hf as [H1 H2]. destruct (decide (j = o)) as [->|Hne].
  - apply bool_decide_eq_false in H1. apply eq_None_not_Some. exact H1.
  - destruct Hs as (_ & Hu & _). rewrite <- Hu. apply (Hj H2). lia.
Qed.

Lemma spend_inputs_spec c ins coins :
  cache_ok c -> NoDup (map prevout ins) -> input_coins (cache_utxo c) ins = Some coins ->
  exists c', spend_inputs c ins = Some (c', coins) /\ keeps c c' /\
             cache_utxo c' = foldl (fun u i => delete (prevout i) u) (cache_utxo c) ins.
Proof.
  revert c coins. induction ins as [|i ins IH]; intros c coins Hc Hnd Hi; cbn [spend_inputs map foldl] in *.
  { injection Hi as <-. exists c. split; [reflexivity|]. split; [apply keeps_refl, Hc|reflexivity]. }
  apply input_coins_uncons in Hi as (cn & rest & -> & Ei & Hi). apply NoDup_cons in Hnd as [Hni Hnd].
  destruct (SpendCoin_spec c (prevout i) Hc) as (c1 & r & -> & H1 & Hh & Hb & Hs & Hu & Hr). rewrite Ei in Hr. subst r. cbn [mbind option_bind].
  destruct (IH c1 rest H1 Hnd) as (c2 & -> & Hk & Hu2).
  { rewrite Hu. clear -Hi Hni. revert rest Hi. induction ins as [|j ins IH]; intros rest Hi; [exact Hi|].
    apply input_coins_uncons in Hi as (cn' & rest' & -> & Ej & Hi). cbn in Hni. rewrite not_elem_of_cons in Hni. destruct Hni as [Hne Hni].
    apply input_coins_cons; [rewrite lookup_delete_ne by congruence; exact Ej|apply IH; assumption]. }
  cbn [mbind option_bind]. exists c2. split; [reflexivity|]. split; [|rewrite Hu2, Hu; reflexivity].
  eapply keeps_trans; [|exact Hk]. split; [exact H1|]. auto.
Qed.
End Views.

(** The places a transaction's outputs go to. *)
Definition vacant (u : ledger) (txid : Z) (n : nat) : Prop := forall j, (j < n)%nat -> u !! mkOutPoint txid (Z.of_nat j) = None.

Section Update.
Context {B : Type} `{!CCoinsView B} `{!CCoinsViewLaws B} (TxHash : CTransaction -> Z).
Implicit Type c : CCoinsViewCache B.

Lemma UpdateCoins_spec c tx h coins :
  cache_ok c -> size (vout tx) <= 2 ^ 32 -> in_range (vout tx) -> NoDup (map prevout (vin tx)) ->
  (IsCoinBase tx = true -> coins = []) ->
  (IsCoinBase tx = false -> input_coins (cache_utxo c) (vin tx) = Some coins /\
     vacant (cache_utxo c ∖ spent (cache_utxo c) tx) (TxHash tx) (length (vout tx))) ->
  exists c', UpdateCoins TxHash c tx h = Some (c', coins) /\ keeps c c' /\
             cache_utxo c' = apply_tx (TxHash tx) h tx (cache_utxo c).
Proof.
  intros Hc Hl Hr Hnd Hcb Hncb. unfold UpdateCoins, AddCoins.
  assert (Hne : Forall (fun o => nValue o <> -1) (vout tx)) by (eapply Forall_impl; [exact Hr|]; cbn; intros; lia).
  assert (Hs : exists c1, (if negb (IsCoinBase tx) then spend_inputs c (vin tx) else Some (c, [])) = Some (c1, coins) /\ keeps c c1 /\
             cache_utxo c1 = cache_utxo c ∖ spent (cache_utxo c) tx).
  { destruct (IsCoinBase tx) eqn:E; cbn [negb].
    - rewrite (Hcb eq_refl). exists c. split; [reflexivity|]. split; [apply keeps_refl, Hc|]. unfold spent. rewrite E. rewrite map_difference_empty. reflexivity.
    - destruct (Hncb eq_refl) as [Hi _]. destruct (spend_inputs_spec c (vin tx) coins Hc Hnd Hi) as (c1 & -> & Hk & Hu). exists c1.
      split; [reflexivity|]. split; [exact Hk|]. rewrite Hu. apply delete_inputs, E. }
  destruct Hs as (c1 & -> & Hk & Hu). cbn [mbind option_bind]. unfold size in Hl.
  destruct (AddCoins_loop_spec c1 (TxHash tx) (IsCoinBase tx) h false 0 (vout tx)) as (c2 & -> & H2 & Hh2 & Hb2 & Hs2 & Hu2).
  - apply Hk.
  - exact Hl.
  - exact Hne.
  - intros E _ j Hj. rewrite Hu. apply (Hncb E). lia.
  - cbn [mbind option_bind]. exists c2. split; [reflexivity|]. split.
    + eapply keeps_trans; [exact Hk|]. split; [exact H2|]. auto.
    + rewrite Hu2, add_outputs_union, Hu. reflexivity.
Qed.

Lemma have_any_output_inv c txs c' h :
  cache_ok c -> Forall (fun tx => size (vout tx) <= 2 ^ 32) txs -> have_any_output TxHash c txs = Some (c', h) ->
  same_cache c c' /\ (h = false -> Forall (fun tx => vacant (cache_utxo c) (TxHash tx) (length (vout tx))) txs).
Proof.
  intros Hc Hl. revert c h Hc. induction Hl as [|tx txs Htx Hl IH]; intros c h Hc; cbn [have_any_output].
  { intros [= <- <-]. split; [apply same_cache_refl, Hc|]. constructor. }
  destruct (have_outputs c (TxHash tx) 0 (length (vout tx))) as [[c1 h1]|] eqn:E; [|discriminate]. cbn [mbind option_bind].
  apply have_outputs_inv in E as [Hs Hj]; [|exact Hc]. destruct (have_any_output TxHash c1 txs) as [[c2 h2]|] eqn:E2; [|discriminate].
  intros [= <- <-]. destruct (IH c1 h2 (proj1 Hs) E2) as [Hs2 HF]. split; [eapply same_cache_trans; eassumption|].
  intros Hf. apply orb_false_iff in Hf as [H1 H2]. constructor.
  - intros j Hlt. unfold size in Htx. specialize (Hj H1 j ltac:(lia)). rewrite u32_id in Hj by (unfold is_u32; lia). exact Hj.
  - destruct Hs as (_ & Hu & _). rewrite <- Hu. apply HF, H2.
Qed.
End Update.
