(* ===== verification/Connect.v ===== *)
(** * What connecting a block establishes

    The transactions of a connected block are acceptable one after the other
    on the ledger before it ([txs_connect]), the coinbase pays at most the
    fees and the subsidy ([block_connects]), and the view stands for the
    resulting ledger.  From this follow the bound on the value of the ledger,
    and that disconnecting the block gives back the ledger before it. *)

From Stdlib Require Import String.
From stdpp Require Import gmap.
From S2P Require Import Prelude ConsensusParams Emission Levy ArithUint256 BlockIndex Pow Headers Serialize Script Transaction Coins TxCheck Merkle Block CuckooCache CheckQueue Ledger LedgerCoins.

Local Open Scope Z_scope.

(** ** What the loop over the transactions establishes *)

Lemma absent_difference (u v : ledger) o : u !! o = None -> (u ∖ v) !! o = None.
Proof. intros H. apply lookup_difference_None. auto. Qed.
Lemma vacant_difference u v txid n : vacant u txid n -> vacant (u ∖ v) txid n.
Proof. intros H j Hj. apply absent_difference, H, Hj. Qed.
Lemma vacant_apply u txid h tx txid' n :
  size (vout tx) <= 2 ^ 32 -> txid' <> txid -> vacant u txid' n -> vacant (apply_tx txid h tx u) txid' n.
Proof.
  intros Hl Hne H j Hj. unfold apply_tx. apply lookup_union_None. split; [|apply absent_difference, H, Hj].
  apply eq_None_not_Some. intros [cn E]. apply lookup_created in E as (k & ? & _ & _ & [= E] & _); [congruence|exact Hl].
Qed.

(** *** Transactions with one id

    Two transactions of a block may have the same id, for their witnesses are
    not part of it; they spend the same coins then, and the second one finds
    them spent.  No coin comes back while a block is connected. *)
Section Once.
Context (TxHash : CTransaction -> Z).

Definition ids_bind_inputs (txs : list CTransaction) : Prop :=
  forall tx tx', tx ∈ txs -> tx' ∈ txs -> TxHash tx = TxHash tx' -> map prevout (vin tx) = map prevout (vin tx').
(** There is room for the outputs of a transaction whose inputs are there. *)
Definition room (u : ledger) (tx : CTransaction) : Prop :=
  IsCoinBase tx = false -> is_Some (input_coins u (vin tx)) -> vacant u (TxHash tx) (length (vout tx)).
(** After the transactions with the ids [seen]: there is room for the others,
    and those with such an id have lost an input, which none of the others creates. *)
Record once (seen : list Z) (u : ledger) (txs : list CTransaction) : Prop := {
  on_fresh t : t ∈ txs -> TxHash t ∉ seen -> vacant u (TxHash t) (length (vout t));
  on_seen t : t ∈ txs -> TxHash t ∈ seen -> exists o, o ∈ map prevout (vin t) /\ u !! o = None /\
    forall t', t' ∈ txs -> TxHash t' ∉ seen -> forall j, (j < length (vout t'))%nat -> o <> mkOutPoint (TxHash t') (Z.of_nat j)
}.

Lemma once_start u txs : Forall (fun tx => vacant u (TxHash tx) (length (vout tx))) txs -> once [] u txs.
Proof. intros H. rewrite Forall_forall in H. split; [auto|]. intros t _ Hs. apply elem_of_nil in Hs as []. Qed.
Lemma input_coins_elem u ins coins o : input_coins u ins = Some coins -> o ∈ map prevout ins -> is_Some (u !! o).
Proof.
  intros Hi Ho. apply list_elem_of_fmap in Ho as (i & -> & Hin). apply list_elem_of_lookup in Hin as (k & Hk).
  destruct (input_coins_lookup u ins coins k i Hi Hk) as (cn & _ & E). eauto.
Qed.
Lemma once_room seen u tx txs : once seen u (tx :: txs) -> room u tx.
Proof.
  intros [H1 H2] _ [coins Hi]. destruct (decide (TxHash tx ∈ seen)) as [Hs|Hs]; [|apply H1; [apply list_elem_of_here|exact Hs]].
  destruct (H2 tx (list_elem_of_here _ _) Hs) as (o & Ho & En & _). destruct (input_coins_elem u _ _ o Hi Ho). congruence.
Qed.
Lemma IsCoinBase_prevouts tx tx' : map prevout (vin tx) = map prevout (vin tx') -> IsCoinBase tx = IsCoinBase tx'.
Proof.
  unfold IsCoinBase. destruct (vin tx) as [|i [|i2 ins]], (vin tx') as [|j [|j2 js]]; cbn; intros E; try discriminate E; try reflexivity.
  injection E as ->. reflexivity.
Qed.
Lemma apply_absent txid h tx u o :
  size (vout tx) <= 2 ^ 32 -> (forall j, (j < length (vout tx))%nat -> o <> mkOutPoint txid (Z.of_nat j)) ->
  u !! o = None \/ (IsCoinBase tx = false /\ o ∈ map prevout (vin tx)) -> apply_tx txid h tx u !! o = None.
Proof.
  intros Hl Hne Ho. unfold apply_tx. apply lookup_union_None. split.
  - apply eq_None_not_Some. intros [cn E]. apply lookup_created in E as (k & t & Ek & _ & -> & _); [|exact Hl].
    apply (Hne k); [eapply lookup_lt_Some, Ek|reflexivity].
  - apply lookup_difference_None. destruct Ho as [Ho|[Hcb Ho]]; [auto|]. rewrite lookup_spent by exact Hcb. rewrite decide_True by exact Ho.
    destruct (u !! o); eauto.
Qed.
(** A transaction that is connected, the coinbase or another. *)
Lemma once_step seen u h tx txs :
  once seen u (tx :: txs) -> ids_bind_inputs (tx :: txs) -> vin tx <> [] -> size (vout tx) <= 2 ^ 32 -> vacant u (TxHash tx) (length (vout tx)) ->
  (if IsCoinBase tx then Forall (fun t => IsCoinBase t = false) txs /\ TxHash tx ∉ seen else is_Some (input_coins u (vin tx))) ->
  once (TxHash tx :: seen) (apply_tx (TxHash tx) h tx u) txs.
Proof.
  intros [H1 H2] Hb Hne Hl Hv Htx.
  assert (Hnot : TxHash tx ∉ seen).
  { destruct (IsCoinBase tx); [apply Htx|]. intros Hs. destruct (H2 tx (list_elem_of_here _ _) Hs) as (o & Ho & En & _).
    destruct Htx as [coins Hi]. destruct (input_coins_elem u _ _ o Hi Ho). congruence. }
  split.
  - intros t Ht Hs. apply not_elem_of_cons in Hs as [Hs1 Hs2]. apply vacant_apply; [exact Hl|exact Hs1|]. apply H1; [apply list_elem_of_further, Ht|exact Hs2].
  - intros t Ht Hs. apply elem_of_cons in Hs as [Hs|Hs].
    + pose proof (Hb t tx (list_elem_of_further _ _ _ Ht) (list_elem_of_here _ _) Hs) as Ep. destruct (IsCoinBase tx) eqn:Ecb.
      { destruct Htx as [Hncb _]. rewrite Forall_forall in Hncb. rewrite <- (IsCoinBase_prevouts _ _ Ep), (Hncb t Ht) in Ecb. discriminate. }
      destruct Htx as [coins Hi]. destruct (vin tx) as [|i ins] eqn:Ev; [contradiction|]. assert (Ho : prevout i ∈ map prevout (i :: ins)) by apply list_elem_of_here.
      destruct (input_coins_elem u _ _ _ Hi Ho) as [cn Ecn]. exists (prevout i). rewrite Ep. split; [exact Ho|]. split.
      * apply apply_absent; [exact Hl| |right; split; [exact Ecb|rewrite Ev; exact Ho]]. intros j Hj E. rewrite E, (Hv j Hj) in Ecn. discriminate.
      * intros t' Ht' Hs' j Hj E. apply not_elem_of_cons in Hs' as [_ Hs']. rewrite E, (H1 t' (list_elem_of_further _ _ _ Ht') Hs' j Hj) in Ecn. discriminate.
    + destruct (H2 t (list_elem_of_further _ _ _ Ht) Hs) as (o & Ho & En & Hno). exists o. split; [exact Ho|]. split.
      * apply apply_absent; [exact Hl| |left; exact En]. apply Hno; [apply list_elem_of_here|exact Hnot].
      * intros t' Ht' Hs'. apply not_elem_of_cons in Hs' as [_ Hs']. apply Hno; [apply list_elem_of_further, Ht'|exact Hs'].
Qed.
Lemma ids_bind_cons tx txs : ids_bind_inputs (tx :: txs) -> ids_bind_inputs txs.
Proof. intros H t t' Ht Ht'. apply H; apply list_elem_of_further; assumption. Qed.
Lemma ids_bind_NoDup txs : NoDup (map TxHash txs) -> ids_bind_inputs txs.
Proof.
  intros Hnd t t' Ht Ht' E. apply list_elem_of_lookup in Ht as (i & Hi). apply list_elem_of_lookup in Ht' as (j & Hj).
  assert (i = j) as ->.
  { apply (NoDup_lookup _ i j (TxHash t) Hnd); rewrite list_lookup_fmap, ?Hi, ?Hj; cbn; congruence. }
  congruence.
Qed.
End Once.

Section ConnectLaws.
Context {B : Type} `{!CCoinsView B} `{!CCoinsViewLaws B} {C : Type} `{!ElementCache C} `{!ElementCacheLaws C}.
Context (params : Params) (TxHash WitnessHash : CTransaction -> Z) (CacheKey : Z -> Z -> Z).
Context (VerifyScript : CScript -> CScript -> list (list Z) -> Z -> CTransaction -> nat -> Z -> list CTxOut -> option string).
Implicit Type c : CCoinsViewCache B.

(** The rules for a coin of the ledger at a height: its value is money, it was
    created at an earlier height, and its script is one that consensus admits
    and can be spent. *)
Record coin_ok (h : Z) (cn : Coin) : Prop := {
  cok_value : 0 <= nValue (out cn) <= MAX_MONEY;
  cok_height : 1 <= coin_nHeight cn <= h;
  cok_spendable : IsUnspendable (scriptPubKey (out cn)) = false;
  cok_type : allowed_type (permitV2Outputs params) (out_type (out cn)) = true
}.
Definition ledger_ok (h : Z) (u : ledger) : Prop := map_Forall (fun _ cn => coin_ok h cn) u.

Lemma ledger_ok_mono h h' u : h <= h' -> ledger_ok h u -> ledger_ok h' u.
Proof. intros Hh Hu o cn E. destruct (Hu o cn E) as [H1 H2 H3 H4]. split; [exact H1|lia|exact H3|exact H4]. Qed.
Lemma ledger_ok_heights h u : h < 2 ^ 31 -> ledger_ok h u -> heights_ok u.
Proof. intros Hh Hu o cn E. destruct (Hu o cn E) as [_ H _ _]. lia. Qed.
Lemma created_ok h tx min :
  1 <= h < 2 ^ 31 -> size (vout tx) <= 2 ^ 32 -> tx_well_formed tx (permitV2Outputs params) min -> ledger_ok h (created (TxHash tx) h tx).
Proof.
  intros Hh Hl Hw o cn E. apply lookup_created in E as (k & t & Ek & Hu & -> & ->); [|exact Hl].
  apply list_elem_of_lookup_2 in Ek. unfold make_coin. change 2147483647 with (Z.ones 31). rewrite Z.land_ones, Z.mod_small by lia. split; cbn.
  - pose proof (wf_values _ _ _ Hw) as Hr. unfold in_range in Hr. rewrite Forall_forall in Hr. apply (Hr t Ek).
  - lia.
  - exact Hu.
  - pose proof (wf_types _ _ _ Hw) as Ha. unfold all_allowed in Ha. rewrite Forall_forall in Ha. apply (Ha t Ek).
Qed.
Lemma apply_tx_ok h tx u min :
  1 <= h < 2 ^ 31 -> size (vout tx) <= 2 ^ 32 -> tx_well_formed tx (permitV2Outputs params) min -> ledger_ok h u -> ledger_ok h (apply_tx (TxHash tx) h tx u).
Proof.
  intros Hh Hl Hw Hu o cn E. unfold apply_tx in E. apply lookup_union_Some_raw in E as [E|[_ E]].
  - apply (created_ok h tx min Hh Hl Hw o cn E).
  - apply lookup_difference_Some in E as [E _]. apply (Hu o cn E).
Qed.

(** *** Scripts *)

Abbreviation run := (run_check VerifyScript).
Definition scripts_pass (tx : CTransaction) (flags : Z) (outs : list CTxOut) : Prop :=
  Forall (fun ck => run ck = None) (script_checks tx flags outs).
Definition script_key (tx : CTransaction) (flags : Z) : Z := CacheKey (WitnessHash tx) flags.
(** A key of a transaction whose scripts have been run with success; 0 is the
    element an empty cache is filled with. *)
Definition verified (k : Z) : Prop := k = 0 \/ exists tx flags outs, k = script_key tx flags /\ length outs = length (vin tx) /\ scripts_pass tx flags outs.
Definition cache_sound (vc : C) : Prop := cache_valid vc /\ forall k, holds vc k -> verified k.
(** The scripts of a transaction hold: they were run, or the cache remembers
    that they were; with a queue, they are among the checks given to it. *)
Definition scripts_ok (checks : option (list CScriptCheck)) (flags : Z) (tx : CTransaction) (outs : list CTxOut) : Prop :=
  verified (script_key tx flags) \/
  match checks with None => scripts_pass tx flags outs | Some l => Forall (fun ck => ck ∈ l) (script_checks tx flags outs) end.
Definition grows (l l' : option (list CScriptCheck)) : Prop :=
  match l with None => l' = None | Some l => exists more, l' = Some (l ++ more) end.
Lemma grows_refl l : grows l l.
Proof. destruct l; [exists []; rewrite app_nil_r|]; reflexivity. Qed.
Lemma grows_trans l l' l'' : grows l l' -> grows l' l'' -> grows l l''.
Proof.
  destruct l as [l|]; cbn; [|intros ->; exact id]. intros (x & ->) (y & ->). exists (x ++ y). rewrite app_assoc. reflexivity.
Qed.
Lemma scripts_ok_grows l l' flags tx outs : grows l l' -> scripts_ok l flags tx outs -> scripts_ok l' flags tx outs.
Proof.
  intros Hg [H|H]; [left; exact H|right]. destruct l as [l|]; cbn in Hg; [|subst; exact H]. destruct Hg as (more & ->).
  eapply Forall_impl; [exact H|]. intros ck. rewrite elem_of_app. auto.
Qed.

Lemma run_checks_None checks : run_checks VerifyScript checks = None -> Forall (fun ck => run ck = None) checks.
Proof. induction checks as [|ck checks IH]; cbn; [constructor|]. destruct (run ck) eqn:E; [discriminate|]. constructor; auto. Qed.

Lemma CheckInputScripts_inv tx c flags store vc checks c' vc' checks' v :
  cache_ok c -> cache_sound vc -> IsCoinBase tx = false ->
  CheckInputScripts WitnessHash CacheKey VerifyScript tx c flags store None vc checks = Some (c', vc', checks', v) ->
  same_cache c c' /\ cache_sound vc' /\
  (v = TxValid -> grows checks checks' /\
     forall coins, input_coins (cache_utxo c) (vin tx) = Some coins -> scripts_ok checks' flags tx (map out coins)).
Proof.
  intros Hc [Hv Hh] Ecb. unfold CheckInputScripts. rewrite Ecb. cbv zeta.
  pose proof (contains_valid vc (CacheKey (WitnessHash tx) flags) (negb store) Hv) as Hv1.
  pose proof (contains_found vc (CacheKey (WitnessHash tx) flags) (negb store) Hv) as Hf1.
  pose proof (fun x => contains_keeps vc (CacheKey (WitnessHash tx) flags) (negb store) x Hv) as Hk1.
  destruct (cache_contains vc _ _) as [vc1 cached]. cbn in Hv1, Hf1, Hk1.
  assert (Hs1 : cache_sound vc1) by (split; auto). destruct cached.
  { intros [= <- <- <- <-]. split; [apply same_cache_refl, Hc|]. split; [exact Hs1|]. intros _. split; [apply grows_refl|].
    intros coins _. left. apply Hh, Hf1. reflexivity. }
  destruct (spent_outputs_loop c (vin tx)) as [[c1 outs]|] eqn:E; [|discriminate]. cbn [mbind option_bind].
  apply spent_outputs_inv in E as (Hs & coins & Hi & ->); [|exact Hc].
  destruct (Nat.eqb_spec (length (map out coins)) (length (vin tx))) as [Hlen|]; [|discriminate]. cbn [negb].
  destruct checks as [l|].
  - intros [= <- <- <- <-]. split; [exact Hs|]. split; [exact Hs1|]. intros _. split; [eexists; reflexivity|].
    intros coins' Hi'. rewrite Hi in Hi'. injection Hi' as <-. right. apply Forall_forall. intros ck Hck. apply elem_of_app. auto.
  - destruct (run_checks VerifyScript _) as [err|] eqn:Er.
    + intros [= <- <- <- <-]. split; [exact Hs|]. split; [exact Hs1|]. destruct (negb _); discriminate.
    + apply run_checks_None in Er. intros [= <- <- <- <-]. split; [exact Hs|]. split.
      * destruct store; [|exact Hs1]. split; [apply insert_valid, Hs1|]. intros k Hk. apply insert_adds in Hk as [->|Hk]; [|apply Hs1, Hk|apply Hs1].
        right. exists tx, flags, (map out coins). auto.
      * intros _. split; [reflexivity|]. intros coins' Hi'. rewrite Hi in Hi'. injection Hi' as <-. right. exact Er.
Qed.

(** *** Transactions *)

Section Block.
Context (m : BlockMap) (pindex : Z) (b : CBlockIndex) (nLockTimeFlags flags : Z) (fScriptChecks fJustCheck : bool).

(** What makes a transaction acceptable on a ledger: its inputs are there,
    mature and worth at least its outputs, the fee covers the levy, the
    relative lock times have passed and the scripts hold. *)
Record tx_connects (scripts : CTransaction -> list CTxOut -> Prop) (u : ledger) (tx : CTransaction) (coins : list Coin) (fee : Z) : Prop := {
  tc_inputs : input_coins u (vin tx) = Some coins;
  tc_mature : Forall (mature (nHeight b) (coinbaseMaturity params)) coins;
  tc_range : in_range (map out coins);
  tc_total : total (map out coins) <= MAX_MONEY;
  tc_fee : fee = total (map out coins) - total (vout tx);
  tc_positive : 0 <= fee;
  tc_levy : SettlementLevy_rule (total (vout tx)) (SettlementLevyAt params (nHeight b)) <= fee;
  tc_locks : SequenceLocks m tx nLockTimeFlags (map coin_nHeight coins) pindex = Some true;
  tc_scripts : scripts tx (map out coins)
}.
Lemma tx_connects_mono (S S' : CTransaction -> list CTxOut -> Prop) u tx coins fee :
  (forall outs, S tx outs -> S' tx outs) -> tx_connects S u tx coins fee -> tx_connects S' u tx coins fee.
Proof. intros H []. split; auto. Qed.

Lemma connect_inputs_inv c tx nFees c' r :
  cache_ok c -> heights_ok (cache_utxo c) -> 0 <= nHeight b < 2 ^ 31 -> in_range (vout tx) -> total (vout tx) <= MAX_MONEY ->
  IsCoinBase tx = false -> 0 <= nFees <= MAX_MONEY ->
  connect_inputs params m pindex b nLockTimeFlags c tx nFees = Some (c', r) ->
  same_cache c c' /\
  forall nFees', r = inr nFees' -> exists coins fee,
    tx_connects (fun _ _ => True) (cache_utxo c) tx coins fee /\ nFees' = nFees + fee /\ 0 <= nFees' <= MAX_MONEY.
Proof.
  intros Hc Hh Hb Hr Ht Ecb Hf. unfold connect_inputs.
  destruct (CheckTxInputs_spec c tx (nHeight b) (coinbaseMaturity params) Hc Hh Hb Hr Ht Ecb) as (c1 & r1 & -> & Hs & Hiff & _).
  cbn [mbind option_bind]. destruct r1 as [v|fee]; [intros [= <- <-]; split; [exact Hs|discriminate]|].
  destruct (proj1 (Hiff fee) eq_refl) as (coins & Hi & Hm & Hir & Htot & Hfee & Hpos). unfold CheckSettlementLevy. rewrite Ecb.
  rewrite (proj2 (GetValueOut_spec tx (total (vout tx)))) by auto. cbn [mbind option_bind].
  destruct (Z.ltb_spec fee (SettlementLevy_rule (total (vout tx)) (SettlementLevyAt params (nHeight b)))) as [|Hlevy];
    cbn [mbind option_bind]; [intros [= <- <-]; split; [exact Hs|discriminate]|]. cbv zeta.
  pose proof (total_nonneg _ Hr) as Hvo. rewrite i64_money by lia.
  destruct (MoneyRange_dec (nFees + fee)) as [Hmr|]; cbn [negb]; [|intros [= <- <-]; split; [exact Hs|discriminate]].
  destruct (prev_heights c1 (vin tx)) as [[c2 hs]|] eqn:E; [|discriminate]. cbn [mbind option_bind].
  destruct (prev_heights_inv c1 (vin tx) c2 hs coins) as [Hs2 ->]; [apply Hs|destruct Hs as (_ & -> & _); exact Hi|exact E|].
  destruct (SequenceLocks m tx nLockTimeFlags (map coin_nHeight coins) pindex) as [ok|] eqn:El; [|discriminate]. cbn [mbind option_bind].
  intros [= <- <-]. split; [eapply same_cache_trans; eassumption|]. intros nFees' E'. destruct ok; cbn in E'; [|discriminate]. injection E' as <-.
  exists coins, fee. split; [split; auto|]. auto.
Qed.

Record loop_ok (st : Loop (B := B) (C := C)) : Prop := {
  lk_view : cache_ok (lp_view st);
  lk_cache : cache_sound (lp_cache st);
  lk_fees : 0 <= lp_fees st <= MAX_MONEY
}.
Definition script_rule (checks : option (list CScriptCheck)) (tx : CTransaction) (outs : list CTxOut) : Prop :=
  fScriptChecks = true -> scripts_ok checks flags tx outs.
Abbreviation connect1 := (connect_transaction params TxHash WitnessHash CacheKey VerifyScript m pindex b nLockTimeFlags flags fScriptChecks fJustCheck).
Abbreviation connect := (connect_transactions params TxHash WitnessHash CacheKey VerifyScript m pindex b nLockTimeFlags flags fScriptChecks fJustCheck).

Lemma connect_transaction_inv i tx st st' min :
  loop_ok st -> ledger_ok (nHeight b) (cache_utxo (lp_view st)) -> 1 <= nHeight b < 2 ^ 31 -> size (vout tx) <= 2 ^ 32 ->
  tx_well_formed tx (permitV2Outputs params) min -> room TxHash (cache_utxo (lp_view st)) tx ->
  connect1 i tx st = Some st' ->
  loop_ok st' /\ keeps (lp_view st) (lp_view st') /\ 
  (lp_state st' = Valid ->
   grows (lp_checks st) (lp_checks st') /\
   exists coins fee, lp_fees st' = lp_fees st + fee /\
     cache_utxo (lp_view st') = apply_tx (TxHash tx) (nHeight b) tx (cache_utxo (lp_view st)) /\
     lp_undo st' = (if (i =? 0)%nat then lp_undo st else lp_undo st ++ [coins]) /\
     if IsCoinBase tx then coins = [] /\ fee = 0
     else tx_connects (script_rule (lp_checks st')) (cache_utxo (lp_view st)) tx coins fee).
Proof.
  intros [Hc Hvc Hf] Hu Hb Hl Hw Hvac. unfold connect_transaction. set (u := cache_utxo (lp_view st)) in *.
  pose proof (ledger_ok_heights _ _ ltac:(apply Hb) Hu) as Hh. pose proof (wf_values _ _ _ Hw) as Hr. pose proof (wf_total _ _ _ Hw) as Ht.
  (* the inputs *)
  assert (Hin : forall c r, (if negb (IsCoinBase tx) then connect_inputs params m pindex b nLockTimeFlags (lp_view st) tx (lp_fees st)
                             else Some (lp_view st, inr (lp_fees st))) = Some (c, r) ->
            same_cache (lp_view st) c /\ forall nFees, r = inr nFees -> exists coins fee, nFees = lp_fees st + fee /\ 0 <= nFees <= MAX_MONEY /\
              if IsCoinBase tx then coins = [] /\ fee = 0 else tx_connects (fun _ _ => True) u tx coins fee).
  { intros c r. destruct (IsCoinBase tx) eqn:Ecb; cbn [negb].
    - intros [= <- <-]. split; [apply same_cache_refl, Hc|]. intros n [= <-]. exists [], 0. split; [lia|]. auto.
    - intros E. apply connect_inputs_inv in E as [Hs HF]; try assumption; [|lia]. split; [exact Hs|]. intros n En.
      destruct (HF n En) as (coins & fee & H1 & H2 & H3). exists coins, fee. auto. }
  destruct (if negb (IsCoinBase tx) then _ else _) as [[c r]|]; [|discriminate]. destruct (Hin c r eq_refl) as [Hs Hfees]. clear Hin. cbn [mbind option_bind].
  destruct r as [reason|nFees].
  { intros [= <-]. split; [split; [apply Hs|exact Hvc|exact Hf]|]. split; [apply same_keeps, Hs|discriminate]. }
  destruct (Hfees nFees eq_refl) as (coins & fee & Hn & Hnr & Htx). clear Hfees.
  destruct (GetTransactionSigOpCost c tx flags) as [[c1 cost]|] eqn:Es; [|discriminate]. cbn [mbind option_bind].
  apply SigOpCost_same in Es; [|apply Hs]. pose proof (same_cache_trans _ _ _ Hs Es) as Hs1. cbv zeta. clear Hs Es c.
  destruct (_ >? _).
  { intros [= <-]. split; [split; [apply Hs1|exact Hvc|exact Hf]|]. split; [apply same_keeps, Hs1|discriminate]. }
  (* the scripts *)
  assert (Hsc : forall c2 vc checks v,
     (if negb (IsCoinBase tx) && fScriptChecks then CheckInputScripts WitnessHash CacheKey VerifyScript tx c1 flags fJustCheck None (lp_cache st) (lp_checks st)
      else Some (c1, lp_cache st, lp_checks st, TxValid)) = Some (c2, vc, checks, v) ->
     same_cache c1 c2 /\ cache_sound vc /\ (v = TxValid -> grows (lp_checks st) checks /\
       (IsCoinBase tx = false -> forall coins, input_coins u (vin tx) = Some coins -> script_rule checks tx (map out coins)))).
  { intros c2 vc checks v. unfold script_rule. destruct (IsCoinBase tx) eqn:Ecb; cbn [negb andb].
    { intros [= <- <- <- <-]. split; [apply same_cache_refl, Hs1|]. split; [exact Hvc|]. intros _. split; [apply grows_refl|discriminate]. }
    destruct fScriptChecks.
    - intros E. apply CheckInputScripts_inv in E as (G1 & G2 & G3); [|apply Hs1|exact Hvc|exact Ecb]. split; [exact G1|]. split; [exact G2|].
      intros Ev. destruct (G3 Ev) as [G4 G5]. split; [exact G4|]. intros _ cs Hcs _. apply G5. destruct Hs1 as (_ & -> & _). exact Hcs.
    - intros [= <- <- <- <-]. split; [apply same_cache_refl, Hs1|]. split; [exact Hvc|]. intros _. split; [apply grows_refl|discriminate]. }
  destruct (if negb (IsCoinBase tx) && fScriptChecks then _ else _) as [[[[c2 vc] checks] v]|]; [|discriminate].
  destruct (Hsc c2 vc checks v eq_refl) as (Hs2 & Hvc2 & Hv). clear Hsc. cbn [mbind option_bind].
  pose proof (same_cache_trans _ _ _ Hs1 Hs2) as Hs. clear Hs1 Hs2 c1. pose proof Hs as (Hc2 & Hu2 & _). fold u in Hu2.
  destruct v as [|res reason].
  2: { intros [= <-]. split; [split; [exact Hc2|exact Hvc2|exact Hf]|]. split; [apply same_keeps, Hs|discriminate]. }
  destruct (Hv eq_refl) as [Hg Hrule]. clear Hv.
  destruct (UpdateCoins_spec TxHash c2 tx (nHeight b) coins Hc2 Hl Hr (wf_nodup _ _ _ Hw)) as (c3 & -> & Hk & Hu3).
  { intros E. rewrite E in Htx. apply Htx. }
  { intros E. rewrite E in Htx. rewrite Hu2. split; [apply Htx|]. apply vacant_difference, Hvac; [exact E|]. destruct Htx as [K _ _ _ _ _ _ _ _]. eauto. }
  cbn [mbind option_bind]. intros [= <-]. split; [split; [apply Hk|exact Hvc2|exact Hnr]|]. split; [eapply keeps_trans; [apply same_keeps, Hs|exact Hk]|].
  intros _. cbn [lp_checks lp_fees lp_view lp_undo]. split; [exact Hg|]. exists coins, fee. split; [exact Hn|]. split; [rewrite Hu3, Hu2; reflexivity|]. split; [reflexivity|].
  destruct (IsCoinBase tx); [exact Htx|]. destruct Htx as [K1 K2 K3 K4 K5 K6 K7 K8 _]. split; try assumption. apply Hrule; [reflexivity|exact K1].
Qed.

(** The transactions of a block after the coinbase, their undo data and the
    sum of their fees. *)
Inductive txs_connect (scripts : CTransaction -> list CTxOut -> Prop) : ledger -> list CTransaction -> CBlockUndo -> Z -> ledger -> Prop :=
  | tcs_nil u : txs_connect scripts u [] [] 0 u
  | tcs_cons u tx txs coins undo fee fees u' :
      IsCoinBase tx = false -> tx_connects scripts u tx coins fee -> vacant u (TxHash tx) (length (vout tx)) ->
      txs_connect scripts (apply_tx (TxHash tx) (nHeight b) tx u) txs undo fees u' ->
      txs_connect scripts u (tx :: txs) (coins :: undo) (fee + fees) u'.

Lemma connect_Invalid i txs st : lp_state st <> Valid -> connect i txs st = Some st.
Proof. intros H. destruct txs; [reflexivity|]. cbn. destruct (lp_state st); [congruence|reflexivity]. Qed.

(** The rules a block of the list has to satisfy before the loop. *)
Definition wf_txs (txs : list CTransaction) : Prop :=
  Forall (fun tx => size (vout tx) <= 2 ^ 32 /\ exists min, tx_well_formed tx (permitV2Outputs params) min) txs.

Lemma connect_transactions_inv i txs st st' seen :
  loop_ok st -> ledger_ok (nHeight b) (cache_utxo (lp_view st)) -> 1 <= nHeight b < 2 ^ 31 -> wf_txs txs ->
  Forall (fun tx => IsCoinBase tx = false) txs -> ids_bind_inputs TxHash txs ->
  once TxHash seen (cache_utxo (lp_view st)) txs -> (0 < i)%nat ->
  connect i txs st = Some st' ->
  loop_ok st' /\ keeps (lp_view st) (lp_view st') /\
  (lp_state st' = Valid -> grows (lp_checks st) (lp_checks st') /\
   exists undo fees, txs_connect (script_rule (lp_checks st')) (cache_utxo (lp_view st)) txs undo fees (cache_utxo (lp_view st')) /\
     lp_undo st' = lp_undo st ++ undo /\ lp_fees st' = lp_fees st + fees).
Proof.
  intros Hst Hu Hb Hwf. revert i st seen Hst Hu. induction Hwf as [|tx txs [Hl [min Hw]] Hwf IH]; intros i st seen Hst Hu Hncb Hnd Hvac Hi; cbn [connect_transactions].
  { intros [= <-]. split; [exact Hst|]. split; [apply keeps_refl, Hst|]. intros _. split; [apply grows_refl|]. exists [], 0.
    split; [constructor|]. rewrite app_nil_r. auto with lia. }
  destruct (lp_state st) as [|r reason] eqn:Ev.
  2: { intros [= <-]. split; [exact Hst|]. split; [apply keeps_refl, Hst|]. congruence. }
  apply Forall_cons in Hncb as [Hcb Hncb]. pose proof (once_room _ _ _ _ _ Hvac) as Hv.
  destruct (connect1 i tx st) as [st1|] eqn:E1; [|discriminate]. cbn [mbind option_bind].
  destruct (connect_transaction_inv i tx st st1 min Hst Hu Hb Hl Hw Hv E1) as (Hst1 & Hk1 & H1).
  destruct (lp_state st1) as [|r reason] eqn:Ev1.
  2: { rewrite connect_Invalid by congruence. intros [= <-]. split; [exact Hst1|]. split; [exact Hk1|]. congruence. }
  destruct (H1 eq_refl) as (Hg & coins & fee & Hfee & Hu1 & Hundo & Htx). rewrite Hcb in Htx. intros E.
  assert (Hin : is_Some (input_coins (cache_utxo (lp_view st)) (vin tx))) by (destruct Htx as [K _ _ _ _ _ _ _ _]; eauto). specialize (Hv Hcb Hin).
  destruct (IH (S i) st1 (TxHash tx :: seen)) as (G1 & G2 & G3); try assumption; try lia.
  - rewrite Hu1. eapply apply_tx_ok; eassumption.
  - eapply ids_bind_cons, Hnd.
  - rewrite Hu1. apply once_step; try assumption; [apply Hw|]. rewrite Hcb. exact Hin.
  - split; [exact G1|]. split; [eapply keeps_trans; eassumption|]. intros Ev'. destruct (G3 Ev') as (Hg2 & undo & fees & Hcs & Hundo2 & Hfees).
    split; [eapply grows_trans; eassumption|]. exists (coins :: undo), (fee + fees). split; [|split].
    + econstructor; [exact Hcb| |exact Hv|rewrite <- Hu1; exact Hcs]. eapply tx_connects_mono; [|exact Htx].
      intros outs Hs Hf. eapply scripts_ok_grows; [exact Hg2|auto].
    + rewrite Hundo2, Hundo. destruct (Nat.eqb_spec i 0); [lia|]. rewrite <- app_assoc. reflexivity.
    + lia.
Qed.

Lemma txs_connect_mono (S S' : CTransaction -> list CTxOut -> Prop) u txs undo fees u' :
  (forall tx outs, S tx outs -> S' tx outs) -> txs_connect S u txs undo fees u' -> txs_connect S' u txs undo fees u'.
Proof. intros H. induction 1; econstructor; try eassumption. eapply tx_connects_mono; [apply H|eassumption]. Qed.
Lemma txs_connect_ledger scripts u txs undo fees u' :
  1 <= nHeight b < 2 ^ 31 -> wf_txs txs -> ledger_ok (nHeight b) u -> txs_connect scripts u txs undo fees u' -> ledger_ok (nHeight b) u'.
Proof.
  intros Hb Hwf Hu H. revert Hwf Hu. induction H as [u|u tx txs coins undo fee fees u' Hcb Htx Hv _ IH]; intros Hwf Hu; [exact Hu|].
  apply Forall_cons in Hwf as [[Hl [min Hw]] Hwf]. apply IH; [exact Hwf|]. eapply apply_tx_ok; eassumption.
Qed.
End Block.

(** ** What [ConnectBlock] establishes *)

Context (EnableFuzzDeterminism : bool) (GetHash : CBlockHeader -> Z) (PoWHash : CBlockHeader -> Params -> Z) (Hash2 : Z -> Z -> Z).
Context (AssumedValidBlock : Z) (MinimumChainWork : list Z) (HasThreads : bool) (Complete : list CScriptCheck -> option string).

(** A block that extends a ledger: the coinbase is added first and spends
    nothing, and pays at most the fees and the subsidy. *)
Record block_connects (m : BlockMap) (pindex : Z) (b : CBlockIndex) (scripts : CTransaction -> list CTxOut -> Prop)
    (u : ledger) (txs : list CTransaction) (undo : CBlockUndo) (u' : ledger) : Prop := {
  bc_txs : exists coinbase rest fees, txs = coinbase :: rest /\ IsCoinBase coinbase = true /\
    vacant u (TxHash coinbase) (length (vout coinbase)) /\
    txs_connect m pindex b (if DeploymentActiveAt b params DEPLOYMENT_CSV then LOCKTIME_VERIFY_SEQUENCE else 0) scripts
      (apply_tx (TxHash coinbase) (nHeight b) coinbase u) rest undo fees u' /\
    total (vout coinbase) <= fees + GetBlockSubsidy (nHeight b) params
}.
(** The scripts of every input were run with the flags of the block, or are
    known to have been. *)
Definition scripts_run (b : CBlockIndex) (tx : CTransaction) (outs : list CTxOut) : Prop :=
  exists flags, GetBlockScriptFlags b params = Some flags /\ (verified (script_key tx flags) \/ scripts_pass tx flags outs).
(** A block that is buried under one that the operator declared valid: it is
    an ancestor of that block and of the best header, the work of the best
    header is at least the minimum, and the work on top of the block would
    take more than two weeks at the difficulty of the best header. *)
Record assumed_valid (s : BlockManager) (pindex : Z) (b : CBlockIndex) : Prop := {
  av_declared : AssumedValidBlock <> 0 /\ exists k, nth_prev (m_block_index s) AssumedValidBlock k = Some pindex;
  av_buried : exists bh e, m_best_header s = Some bh /\ m_block_index s !! bh = Some e /\
    (exists k, nth_prev (m_block_index s) bh k = Some pindex) /\
    (limbs_ok MinimumChainWork -> val MinimumChainWork <= val (nChainWork e)) /\
    val (nChainWork b) < val (nChainWork e) /\
    60 * 60 * 24 * 14 < ((val (nChainWork e) - val (nChainWork b)) * u64 (nPowTargetSpacing params)) mod 2 ^ 256 / bits_work (nBits e)
}.
(** The scripts of a block hold, unless it is assumed to be valid. *)
Definition scripts_hold (s : BlockManager) (pindex : Z) (b : CBlockIndex) (tx : CTransaction) (outs : list CTxOut) : Prop :=
  ~ assumed_valid s pindex b -> scripts_run b tx outs.

(** What is assumed of the block to connect: the height and the subsidy are in
    range, no transaction has more outputs than an index can number, two
    transactions with one id spend the same coins (or there is a collision of
    the hash), and the rule against repeated ids is enforced. *)
Record connectable (s : BlockManager) (pindex : Z) (b : CBlockIndex) (txs : list CTransaction) : Prop := {
  cn_height : 1 <= nHeight b < 2 ^ 31;
  cn_sizes : Forall (fun tx => size (vout tx) <= 2 ^ 32) txs;
  cn_ids : ids_bind_inputs TxHash txs;
  cn_bip30 p hash : pprev b = Some p -> phashBlock b = Some hash -> check_bip30 params (m_block_index s) b hash p = Some true;
  cn_subsidy : 0 <= GetBlockSubsidy (nHeight b) params <= MAX_MONEY
}.

Lemma wf_of_transactions_ok b :
  is_genesis GetHash params b = false -> Forall (fun tx => size (vout tx) <= 2 ^ 32) (vtx b) -> transactions_ok GetHash params b -> wf_txs (vtx b).
Proof.
  intros Hg Hl Ht. pose proof (bo_txs _ _ _ Ht) as H. rewrite Hg, orb_false_r in H. unfold wf_txs. rewrite Forall_forall in *. intros tx Hin.
  split; [apply Hl, Hin|]. eexists. apply H, Hin.
Qed.

Lemma connect_checked_inv cs pindex b hash fJustCheck undo_io cs' o :
  (forall l, completes (run_check VerifyScript) l (Complete l)) ->
  cache_ok (cs_view cs) -> cache_sound (cs_cache cs) -> ledger_ok (nHeight b) (cache_utxo (cs_view cs)) ->
  phashBlock b = Some hash -> connectable (cs_man cs) pindex b (vtx (cs_block cs)) ->
  (script_check_reason params AssumedValidBlock MinimumChainWork (cs_man cs) pindex b = Some None -> assumed_valid (cs_man cs) pindex b) ->
  is_genesis GetHash params (cs_block cs) = false -> transactions_ok GetHash params (cs_block cs) ->
  connect_checked params TxHash WitnessHash CacheKey VerifyScript AssumedValidBlock MinimumChainWork HasThreads Complete
    cs pindex b hash fJustCheck undo_io = Some (cs', o) ->
  cache_ok (cs_view cs') /\ same_base (cs_view cs) (cs_view cs') /\ cache_sound (cs_cache cs') /\
  (o = Connected -> exists undo u',
     block_connects (m_block_index (cs_man cs)) pindex b (scripts_hold (cs_man cs) pindex b) (cache_utxo (cs_view cs)) (vtx (cs_block cs)) undo u' /\
     cache_utxo (cs_view cs') = u' /\ ledger_ok (nHeight b) u' /\
     (fJustCheck = false -> hashBlock (cs_view cs') = hash /\
        (Z.land (nStatus b) BLOCK_HAVE_UNDO = 0 -> cs_undos cs' = <[pindex := undo]> (cs_undos cs)) /\
        (Z.land (nStatus b) BLOCK_HAVE_UNDO <> 0 -> cs_undos cs' = cs_undos cs))).
Proof.
  intros Hq Hc Hvc Hu Hhash [Hh Hl Hnd Hbip Hsub] Hav Hg Htxs. pose proof (wf_of_transactions_ok _ Hg Hl Htxs) as Hwf.
  destruct (bo_coinbase _ _ _ Htxs) as (cb & rest & Evtx & Ecb & Hncb). unfold connect_checked. cbv zeta. rewrite Evtx in *.
  destruct (script_check_reason _ _ _ _ _ _) as [reason|] eqn:Er; [|discriminate]. cbn [mbind option_bind].
  destruct (pprev b) as [p|] eqn:Ep; [|discriminate]. cbn [mbind option_bind]. rewrite (Hbip p hash eq_refl Hhash). cbn [mbind option_bind].
  destruct (have_any_output TxHash (cs_view cs) (cb :: rest)) as [[c have]|] eqn:Eh; [|discriminate]. cbn [mbind option_bind].
  destruct (have_any_output_inv TxHash (cs_view cs) (cb :: rest) c have Hc Hl Eh) as [Hs Hvac]. clear Eh.
  destruct (GetBlockScriptFlags b params) as [flags|] eqn:Eflags; [|discriminate]. cbn [mbind option_bind].
  set (fsc := match reason with Some _ => true | None => false end).
  set (lf := if DeploymentActiveAt b params DEPLOYMENT_CSV then LOCKTIME_VERIFY_SEQUENCE else 0).
  set (st0 := mkLoop c (cs_cache cs) [] 0 0 (if HasThreads && fsc then Some [] else None) (if have then Invalid BLOCK_CONSENSUS "bad-txns-BIP30" else Valid)).
  destruct (connect_transactions _ _ _ _ _ _ _ _ _ _ _ _ _ _ st0) as [st|] eqn:Ec; [|discriminate]. cbn [mbind option_bind lookup list_lookup].
  assert (Hst0 : loop_ok st0) by (split; [apply Hs|exact Hvc|cbn; unfold MAX_MONEY, COIN; lia]).
  destruct (GetValueOut cb) as [value_out|] eqn:Ev; [|discriminate]. cbn [mbind option_bind].
  apply GetValueOut_spec in Ev as (_ & _ & ->).
  (* the loop *)
  assert (Hloop : loop_ok st /\ keeps c (lp_view st) /\ (lp_state st = Valid -> exists undo fees,
    vacant (cache_utxo (cs_view cs)) (TxHash cb) (length (vout cb)) /\
    txs_connect (m_block_index (cs_man cs)) pindex b lf (script_rule flags fsc (lp_checks st))
      (apply_tx (TxHash cb) (nHeight b) cb (cache_utxo (cs_view cs))) rest undo fees (cache_utxo (lp_view st)) /\
    lp_undo st = undo /\ lp_fees st = fees)).
  { pose proof Hs as (Hc' & Hu' & _). destruct have.
    { rewrite connect_Invalid in Ec by discriminate. injection Ec as <-. split; [exact Hst0|]. split; [apply keeps_refl, Hc'|discriminate]. }
    specialize (Hvac eq_refl). pose proof (once_start TxHash _ _ Hvac) as Hon. apply Forall_cons in Hvac as [Hv1 Hvac]. apply Forall_cons in Hwf as [[Hl1 [min Hw1]] Hwf].
    cbn [connect_transactions lp_state st0] in Ec. fold st0 in Ec.
    match type of Ec with (?x ≫= _) = _ => destruct x as [st1|] eqn:E1; [|discriminate] end. cbn [mbind option_bind] in Ec.
    apply (connect_transaction_inv (m_block_index (cs_man cs)) pindex b lf flags fsc fJustCheck 0 cb st0 st1 min) in E1 as (Hst1 & Hk1 & H1);
      try assumption; try (cbn [lp_view st0]; rewrite Hu'; assumption || (eapply once_room; exact Hon)). rewrite Ecb in H1. cbn [lp_view st0] in Hk1, H1.
    destruct (lp_state st1) as [|r1 reason1] eqn:Ev1.
    2: { rewrite connect_Invalid in Ec by congruence. injection Ec as <-. split; [exact Hst1|]. split; [exact Hk1|]. congruence. }
    destruct (H1 eq_refl) as (_ & coins & fee & Hfee & Hu1 & Hundo & -> & ->). cbn [lp_fees lp_undo st0 Nat.eqb] in Hfee, Hundo. rewrite Hu' in Hu1.
    apply (connect_transactions_inv (m_block_index (cs_man cs)) pindex b lf flags fsc fJustCheck 1 rest st1 st [TxHash cb]) in Ec as (G1 & G2 & G3); try assumption; try lia.
    - split; [exact G1|]. split; [eapply keeps_trans; eassumption|]. intros Evs. destruct (G3 Evs) as (_ & undo & fees & Hcs & Hundo2 & Hfees).
      exists undo, fees. split; [exact Hv1|]. rewrite <- Hu1. split; [exact Hcs|]. rewrite Hundo2, Hundo, Hfees, Hfee. split; [reflexivity|lia].
    - rewrite Hu1. eapply apply_tx_ok; eassumption.
    - eapply ids_bind_cons, Hnd.
    - rewrite Hu1. apply (once_step TxHash [] _ _ cb rest Hon Hnd); [apply Hw1|exact Hl1|exact Hv1|]. rewrite Ecb. split; [exact Hncb|apply not_elem_of_nil]. }
  destruct Hloop as (Hst & Hk & Hres). clear Ec Hvac. pose proof Hst as [Hcv Hcs Hf].
  assert (Hsb : same_base (cs_view cs) (lp_view st)) by (eapply same_base_trans; [apply Hs|apply Hk]).
  rewrite i64_money by assumption.
  destruct (lp_state st) as [|r reason'].
  2: { intros [= <- <-]. split; [exact Hcv|]. split; [exact Hsb|]. split; [exact Hcs|discriminate]. }
  destruct (Hres eq_refl) as (undo & fees & Hv1 & Hcon & Hundo & Hfees). clear Hres.
  destruct (Z.gtb_spec (total (vout cb)) (lp_fees st + GetBlockSubsidy (nHeight b) params)) as [|Hval].
  { intros [= <- <-]. split; [exact Hcv|]. split; [exact Hsb|]. split; [exact Hcs|discriminate]. }
  assert (Hfail : forall e, match lp_checks st with Some l => Complete l | None => None end = Some e ->
     Some (mkConnect (cs_block cs) (lp_view st) (lp_cache st) (cs_man cs) (cs_undos cs),
           Rejected BLOCK_CONSENSUS ("block-script-verify-flag-failed (" ++ e ++ ")")) = Some (cs', o) ->
     cache_ok (cs_view cs') /\ same_base (cs_view cs) (cs_view cs') /\ cache_sound (cs_cache cs') /\ o <> Connected).
  { intros e _ [= <- <-]. split; [exact Hcv|]. split; [exact Hsb|]. split; [exact Hcs|discriminate]. }
  destruct (match lp_checks st with Some l => Complete l | None => None end) as [e|] eqn:Epar.
  { intros E. destruct (Hfail e eq_refl E) as (G1 & G2 & G3 & G4). split; [exact G1|]. split; [exact G2|]. split; [exact G3|]. intros; contradiction. }
  clear Hfail.
  assert (Hbc : block_connects (m_block_index (cs_man cs)) pindex b (scripts_hold (cs_man cs) pindex b) (cache_utxo (cs_view cs)) (cb :: rest) undo (cache_utxo (lp_view st))).
  { split. exists cb, rest, fees. split; [reflexivity|]. split; [exact Ecb|]. split; [exact Hv1|]. split; [|rewrite <- Hfees; exact Hval].
    eapply txs_connect_mono; [|exact Hcon]. intros tx outs Hsr Hne. exists flags. split; [exact Eflags|].
    assert (Efsc : fsc = true) by (subst fsc; destruct reason; [reflexivity|]; destruct (Hne (Hav eq_refl))). destruct (Hsr Efsc) as [Hv|Hp]; [left; exact Hv|right].
    destruct (lp_checks st) as [l|]; [|exact Hp]. specialize (Hq l). rewrite Epar in Hq. cbn in Hq. unfold scripts_pass. rewrite Forall_forall in Hp, Hq |- *. auto. }
  assert (Hled : ledger_ok (nHeight b) (cache_utxo (lp_view st))).
  { apply Forall_cons in Hwf as [[Hl1 [min Hw1]] Hwf']. eapply txs_connect_ledger; [exact Hh|exact Hwf'| |exact Hcon]. eapply apply_tx_ok; eassumption. }
  destruct fJustCheck.
  { intros [= <- <-]. split; [exact Hcv|]. split; [exact Hsb|]. split; [exact Hcs|]. intros _. exists undo, (cache_utxo (lp_view st)).
    split; [exact Hbc|]. split; [reflexivity|]. split; [exact Hled|discriminate]. }
  cbn [cs_undos]. destruct (WriteBlockUndo undo_io (cs_undos cs) (cs_man cs) pindex b (lp_undo st)) as [undos written] eqn:Ew.
  destruct written as [[s1 b1]|].
  2: { intros [= <- <-]. split; [exact Hcv|]. split; [exact Hsb|]. split; [exact Hcs|discriminate]. }
  destruct (IsValid b1 BLOCK_VALID_SCRIPTS) as [valid|]; [|discriminate]. cbn [mbind option_bind].
  match goal with |- (?x ≫= _) = _ -> _ => destruct x as [s2|]; [|discriminate] end. cbn [mbind option_bind].
  intros [= <- <-]. destruct (SetBestBlock_spec (lp_view st) hash Hcv) as (K1 & K2 & K3). cbn [cs_view cs_cache cs_undos].
  split; [exact K1|]. split; [exact Hsb|]. split; [exact Hcs|]. intros _. exists undo, (cache_utxo (lp_view st)).
  split; [exact Hbc|]. split; [exact K2|]. split; [exact Hled|]. intros _. split; [exact K3|].
  unfold WriteBlockUndo in Ew. rewrite <- Hundo. destruct (Z.eqb_spec (Z.land (nStatus b) BLOCK_HAVE_UNDO) 0) as [E0|E0].
  - destruct undo_io as [pos|]; [|discriminate]. injection Ew as <- _ _. split; [reflexivity|contradiction].
  - injection Ew as <- _ _. split; [contradiction|reflexivity].
Qed.
End ConnectLaws.

(** ** Value *)

Section Value.
Context (params : Params) (TxHash : CTransaction -> Z).

(** The outputs of a transaction are disjoint from a ledger with room for them. *)
Lemma created_disjoint u txid h tx : size (vout tx) <= 2 ^ 32 -> vacant u txid (length (vout tx)) -> created txid h tx ##ₘ u.
Proof.
  intros Hl Hv. apply map_disjoint_spec. intros o x y Hx Hy. apply lookup_created in Hx as (k & t & Ek & _ & -> & _); [|exact Hl].
  rewrite (Hv k) in Hy; [discriminate|]. eapply lookup_lt_Some, Ek.
Qed.
Lemma value_apply u txid h tx :
  size (vout tx) <= 2 ^ 32 -> in_range (vout tx) -> vacant u txid (length (vout tx)) ->
  value (apply_tx txid h tx u) <= total (vout tx) + value u - value (spent u tx).
Proof.
  intros Hl Hr Hv. unfold apply_tx. rewrite value_union by (apply created_disjoint; [exact Hl|apply vacant_difference, Hv]).
  rewrite value_difference by apply spent_subseteq. pose proof (value_add_outputs txid h (IsCoinBase tx) 0 (vout tx) Hl Hr). unfold created. lia.
Qed.
Lemma value_txs m pindex b lf scripts u txs undo fees u' :
  wf_txs params txs -> txs_connect params TxHash m pindex b lf scripts u txs undo fees u' -> value u' <= value u - fees.
Proof.
  intros Hwf H. revert Hwf. induction H as [u|u tx txs coins undo fee fees u' Hcb Htx Hv _ IH]; intros Hwf; [lia|].
  apply Forall_cons in Hwf as [[Hl [min Hw]] Hwf]. specialize (IH Hwf).
  pose proof (value_apply u (TxHash tx) (nHeight b) tx Hl (wf_values _ _ _ Hw) Hv) as Ha.
  rewrite (value_spent u tx coins Hcb (wf_nodup _ _ _ Hw) (tc_inputs _ _ _ _ _ _ _ _ _ _ Htx)) in Ha.
  pose proof (tc_fee _ _ _ _ _ _ _ _ _ _ Htx). lia.
Qed.
(** A block adds at most the subsidy to the value of the ledger. *)
Lemma value_block m pindex b scripts u txs undo u' :
  wf_txs params txs -> block_connects params TxHash m pindex b scripts u txs undo u' ->
  value u' <= value u + GetBlockSubsidy (nHeight b) params.
Proof.
  intros Hwf [(cb & rest & fees & -> & Ecb & Hv & Hcon & Hval)]. apply Forall_cons in Hwf as [[Hl [min Hw]] Hwf].
  pose proof (value_txs _ _ _ _ _ _ _ _ _ _ Hwf Hcon) as H1. pose proof (value_apply u (TxHash cb) (nHeight b) cb Hl (wf_values _ _ _ Hw) Hv) as H2.
  replace (spent u cb) with (∅ : ledger) in H2 by (unfold spent; rewrite Ecb; reflexivity). rewrite value_empty in H2. lia.
Qed.
End Value.

(** ** Undoing a block *)

Lemma union_difference_cancel (a w : ledger) : a ##ₘ w -> (a ∪ w) ∖ a = w.
Proof.
  intros Hd. apply map_eq. intros o. rewrite lookup_difference, lookup_union. rewrite map_disjoint_spec in Hd.
  destruct (a !! o) as [x|] eqn:Ea, (w !! o) as [y|] eqn:Ew; cbn; try reflexivity. destruct (Hd o x y Ea Ew).
Qed.
Lemma unapply_tx u txid h tx :
  size (vout tx) <= 2 ^ 32 -> vacant u txid (length (vout tx)) -> spent u tx ∪ (apply_tx txid h tx u ∖ created txid h tx) = u.
Proof.
  intros Hl Hv. unfold apply_tx. rewrite union_difference_cancel by (apply created_disjoint; [exact Hl|apply vacant_difference, Hv]).
  apply map_difference_union, spent_subseteq.
Qed.

Section Undo.
Context {B : Type} `{!CCoinsView B} `{!CCoinsViewLaws B} (params : Params) (TxHash : CTransaction -> Z).
Implicit Type c : CCoinsViewCache B.

Lemma remove_outputs_spec c txid h cb exc o outs fClean :
  cache_ok c -> 0 <= h < 2 ^ 31 -> Z.of_nat (o + length outs) <= 2 ^ 32 -> add_outputs txid h cb o outs ∅ ⊆ cache_utxo c ->
  exists c', remove_outputs c txid h cb exc o outs fClean = Some (c', fClean) /\ keeps c c' /\
             cache_utxo c' = cache_utxo c ∖ add_outputs txid h cb o outs ∅.
Proof.
  intros Hc Hh. revert c o Hc. induction outs as [|t outs IH]; intros c o Hc Hl Hsub; cbn [remove_outputs length] in *.
  { exists c. split; [reflexivity|]. split; [apply keeps_refl, Hc|]. change (add_outputs txid h cb o [] ∅) with (∅ : ledger). rewrite map_difference_empty. reflexivity. }
  rewrite add_outputs_cons, add_outputs_union in Hsub |- *. unfold add_output in Hsub |- *. cbn [fst snd] in Hsub |- *.
  rewrite u32_id in Hsub |- * by (unfold is_u32; lia). set (A := add_outputs txid h cb (S o) outs ∅) in *.
  destruct (IsUnspendable (scriptPubKey t)); cbn [negb].
  - rewrite (right_id_L ∅ (∪)) in Hsub |- *. apply IH; [exact Hc|lia|exact Hsub].
  - set (k := mkOutPoint txid (Z.of_nat o)) in *.
    assert (Ek : A !! k = None).
    { apply eq_None_not_Some. intros [cn E]. apply lookup_add_outputs in E as (j & ? & _ & _ & [= E] & _); lia. }
    assert (Hk : cache_utxo c !! k = Some (make_coin t h cb)).
    { eapply lookup_weaken; [|exact Hsub]. apply lookup_union_Some_raw. right. split; [exact Ek|apply lookup_insert_eq]. }
    destruct (SpendCoin_spec c k Hc) as (c1 & r & -> & H1 & Hh1 & Hb1 & Hs1 & Hu1 & Hr). rewrite Hk in Hr. subst r. cbn [mbind option_bind].
    unfold make_coin at 1. cbv zeta. cbn [out coin_nHeight fCoinBase make_coin]. change 2147483647 with (Z.ones 31). rewrite Z.land_ones, Z.mod_small by lia.
    rewrite bool_decide_true by reflexivity. rewrite Z.eqb_refl, Bool.eqb_reflx. cbn [andb negb].
    destruct (IH c1 (S o) H1 ltac:(lia)) as (c2 & -> & Hk2 & Hu2).
    { rewrite Hu1. apply map_subseteq_spec. fold A. intros x cn E. assert (x <> k) by (intros ->; congruence). rewrite lookup_delete_ne by congruence.
      eapply lookup_weaken; [|exact Hsub]. apply lookup_union_Some_raw. left. exact E. }
    exists c2. split; [reflexivity|]. split; [eapply keeps_trans; [|exact Hk2]; split; [exact H1|auto]|].
    rewrite Hu2, Hu1. fold A. apply map_eq. intros x. rewrite !lookup_difference, lookup_union. destruct (decide (x = k)) as [->|Hne].
    + rewrite Ek, lookup_delete_eq, lookup_insert_eq. reflexivity.
    + rewrite lookup_delete_ne, lookup_insert_ne, lookup_empty by congruence. destruct (A !! x); reflexivity.
Qed.

Lemma ApplyTxInUndo_clean c o cn :
  cache_ok c -> cache_utxo c !! o = None -> 1 <= coin_nHeight cn -> IsSpent cn = false -> IsUnspendable (scriptPubKey (out cn)) = false ->
  exists c', ApplyTxInUndo cn c o = Some (c', DISCONNECT_OK) /\ keeps c c' /\ cache_utxo c' = <[o := cn]> (cache_utxo c).
Proof.
  intros Hc Ho Hh Hs Hu. unfold ApplyTxInUndo. destruct (cache_HaveCoin_spec c o Hc) as (c1 & -> & Hs1). cbn [mbind option_bind].
  rewrite bool_decide_eq_false_2 by (rewrite Ho; intros []; discriminate). cbn [negb]. unfold restore_metadata.
  rewrite (proj2 (Z.eqb_neq _ _)) by lia. cbn [mbind option_bind]. pose proof Hs1 as (Hc1 & Hu1 & _).
  destruct (AddCoin_spec c1 o cn false Hc1 Hs) as (c2 & -> & H2 & Hh2 & Hb2 & Hu2); [rewrite Hu1; auto|]. cbn [mbind option_bind].
  exists c2. split; [reflexivity|]. split.
  - eapply keeps_trans; [apply same_keeps, Hs1|]. split; [exact H2|]. split; [exact Hh2|]. unfold cache_best, same_base. rewrite Hh2, Hb2. auto.
  - rewrite Hu2, Hu, Hu1. reflexivity.
Qed.
(** Restoring inputs that are not there. *)
Lemma restore_inputs_spec c ins fClean :
  cache_ok c -> NoDup (map (fun ic => prevout ic.1) ins) ->
  Forall (fun ic => cache_utxo c !! prevout ic.1 = None /\ 1 <= coin_nHeight ic.2 /\ IsSpent ic.2 = false /\ IsUnspendable (scriptPubKey (out ic.2)) = false) ins ->
  exists c', restore_inputs c ins fClean = Some (c', Some fClean) /\ keeps c c' /\
             cache_utxo c' = list_to_map (map (fun ic => (prevout ic.1, ic.2)) ins) ∪ cache_utxo c.
Proof.
  revert c. induction ins as [|[i cn] ins IH]; intros c Hc Hnd HF; cbn [restore_inputs map fst snd] in *.
  { exists c. split; [reflexivity|]. split; [apply keeps_refl, Hc|]. rewrite list_to_map_nil, (left_id_L ∅ (∪)). reflexivity. }
  apply Forall_cons in HF as [(Ho & Hh & Hs & Hu) HF]. apply NoDup_cons in Hnd as [Hni Hnd]. cbn [fst snd] in *.
  destruct (ApplyTxInUndo_clean c (prevout i) cn Hc Ho Hh Hs Hu) as (c1 & -> & Hk & Hu1). cbn [mbind option_bind].
  destruct (IH c1 (proj1 Hk) Hnd) as (c2 & -> & Hk2 & Hu2).
  { rewrite Forall_forall in HF |- *. intros ic Hic. rewrite Hu1, lookup_insert_ne; [apply HF, Hic|].
    intros E. apply Hni. rewrite E. apply list_elem_of_fmap. eauto. }
  exists c2. split; [reflexivity|]. split; [eapply keeps_trans; eassumption|]. rewrite Hu2, Hu1, list_to_map_cons.
  apply map_eq. intros x. rewrite !lookup_union. destruct (decide (x = prevout i)) as [->|Hne].
  - rewrite !lookup_insert_eq. rewrite (not_elem_of_list_to_map_1 (map (fun ic => (prevout ic.1, ic.2)) ins)); [rewrite Ho; reflexivity|].
    intros E. apply Hni. apply list_elem_of_fmap in E as ([o' cn'] & E1 & E2). cbn in E1. subst o'. apply list_elem_of_fmap in E2 as (ic & [= -> _] & Hic).
    apply list_elem_of_fmap. eauto.
  - rewrite !lookup_insert_ne by congruence. reflexivity.
Qed.

Lemma map_zip_prevout (ins : list CTxIn) (coins : list Coin) :
  map (fun ic : CTxIn * Coin => (prevout ic.1, ic.2)) (zip ins coins) = zip (map prevout ins) coins.
Proof. revert coins. induction ins as [|i ins IH]; intros [|cn coins]; cbn; [reflexivity..|]. f_equal. apply IH. Qed.
Lemma map_zip_fst (ins : list CTxIn) (coins : list Coin) :
  length coins = length ins -> map (fun ic : CTxIn * Coin => prevout ic.1) (zip ins coins) = map prevout ins.
Proof. revert coins. induction ins as [|i ins IH]; intros [|cn coins] Hl; cbn in *; try discriminate; [reflexivity|]. f_equal. apply IH. congruence. Qed.

Lemma restore_spent c u tx coins h fClean :
  cache_ok c -> cache_utxo c = u ∖ spent u tx -> ledger_ok params h u -> IsCoinBase tx = false -> NoDup (map prevout (vin tx)) ->
  input_coins u (vin tx) = Some coins ->
  exists c', restore_inputs c (rev (zip (vin tx) coins)) fClean = Some (c', Some fClean) /\ keeps c c' /\ cache_utxo c' = u.
Proof.
  intros Hc Hu Hok Hcb Hnd Hi. pose proof (input_coins_length _ _ _ Hi) as Hl.
  destruct (restore_inputs_spec c (rev (zip (vin tx) coins)) fClean Hc) as (c' & -> & Hk & Hu').
  - rewrite map_rev, map_zip_fst by exact Hl. rewrite <- Permutation_rev. exact Hnd.
  - apply Forall_forall. intros [i cn] Hin. apply list_elem_of_In, in_rev, list_elem_of_In, list_elem_of_lookup in Hin as (k & Hk).
    apply lookup_zip_with_Some in Hk as (x & y & [= <- <-] & Hx & Hy). cbn [fst snd].
    destruct (input_coins_lookup u (vin tx) coins k i Hi Hx) as (cn' & E1 & E2). rewrite Hy in E1. injection E1 as <-.
    destruct (Hok _ _ E2) as [V1 V2 V3 _]. split; [|split; [lia|split; [|exact V3]]].
    + rewrite Hu. apply lookup_difference_None. right. rewrite lookup_spent by exact Hcb. rewrite decide_True; [eauto|].
      apply list_elem_of_fmap. exists i. split; [reflexivity|]. eapply list_elem_of_lookup_2, Hx.
    + unfold IsSpent, CTxOut_IsNull. apply Z.eqb_neq. lia.
  - exists c'. split; [reflexivity|]. split; [exact Hk|]. rewrite Hu', Hu.
    transitivity (spent u tx ∪ u ∖ spent u tx); [|apply map_difference_union, spent_subseteq].
    apply (f_equal (fun a => a ∪ u ∖ spent u tx)). rewrite (spent_list u tx coins Hcb Hnd Hi).
    rewrite map_rev, map_zip_prevout. apply list_to_map_proper; [|symmetry; apply Permutation_rev].
    rewrite <- Permutation_rev, zip_fst by (rewrite length_map; exact Hl). exact Hnd.
Qed.

(** The last transaction undone first. *)
Lemma undo_transactions_spec m pindex b lf scripts u txs undo fees u' :
  1 <= nHeight b < 2 ^ 31 -> wf_txs params txs -> ledger_ok params (nHeight b) u ->
  txs_connect params TxHash m pindex b lf scripts u txs undo fees u' ->
  forall c bip30 rest fClean, cache_ok c -> cache_utxo c = u' ->
  exists c', undo_transactions TxHash c (nHeight b) bip30 (rev (zip txs (map Some undo)) ++ rest) fClean =
             undo_transactions TxHash c' (nHeight b) bip30 rest fClean /\ keeps c c' /\ cache_utxo c' = u.
Proof.
  intros Hb Hwf Hu H. revert Hwf Hu. induction H as [u|u tx txs coins undo fee fees u' Hcb Htx Hv _ IH]; intros Hwf Hu c bip30 rest fClean Hc Ec.
  { exists c. split; [reflexivity|]. split; [apply keeps_refl, Hc|exact Ec]. }
  apply Forall_cons in Hwf as [[Hl [min Hw]] Hwf]. cbn [map zip zip_with rev]. rewrite <- app_assoc. cbn [app].
  destruct (IH Hwf ltac:(eapply apply_tx_ok; eassumption) c bip30 ((tx, Some coins) :: rest) fClean Hc Ec) as (c1 & -> & Hk1 & Hu1).
  cbn [undo_transactions]. cbv zeta.
  destruct (remove_outputs_spec c1 (TxHash tx) (nHeight b) (IsCoinBase tx) (IsCoinBase tx && negb bip30) 0 (vout tx) fClean) as (c2 & -> & Hk2 & Hu2).
  - apply Hk1.
  - lia.
  - exact Hl.
  - rewrite Hu1. apply map_union_subseteq_l.
  - cbn [mbind option_bind]. pose proof (tc_inputs _ _ _ _ _ _ _ _ _ _ Htx) as Hi. rewrite (input_coins_length _ _ _ Hi), Nat.eqb_refl. cbn [negb].
    destruct (restore_spent c2 u tx coins (nHeight b) fClean (proj1 Hk2)) as (c3 & -> & Hk3 & Hu3); try assumption.
    + rewrite Hu2, Hu1. apply union_difference_cancel, created_disjoint; [exact Hl|apply vacant_difference, Hv].
    + apply Hw.
    + cbn [mbind option_bind]. exists c3. split; [reflexivity|]. split; [|exact Hu3].
      eapply keeps_trans; [exact Hk1|]. eapply keeps_trans; eassumption.
Qed.
Lemma txs_connect_length m pindex b lf scripts u txs undo fees u' :
  txs_connect params TxHash m pindex b lf scripts u txs undo fees u' -> length undo = length txs.
Proof. induction 1; cbn; congruence. Qed.

Lemma DisconnectBlock_spec m m' pindex b hash p prev prevhash scripts u block undo u' c :
  1 <= nHeight b < 2 ^ 31 -> wf_txs params (vtx block) -> ledger_ok params (nHeight b) u ->
  block_connects params TxHash m pindex b scripts u (vtx block) undo u' ->
  m' !! pindex = Some b -> phashBlock b = Some hash -> pprev b = Some p -> m' !! p = Some prev -> phashBlock prev = Some prevhash ->
  cache_ok c -> cache_utxo c = u' ->
  exists c', DisconnectBlock TxHash m' (Some undo) block pindex c = Some (c', DISCONNECT_OK) /\ cache_ok c' /\ same_base c c' /\
             cache_utxo c' = u /\ hashBlock c' = prevhash.
Proof.
  intros Hb Hwf Hu [(cb & rest & fees & Evtx & Ecb & Hv & Hcon & _)] Em Eh Ep Emp Ehp Hc Ec. unfold DisconnectBlock. rewrite Evtx in *.
  rewrite (txs_connect_length _ _ _ _ _ _ _ _ _ _ Hcon), Em. cbn [length]. rewrite Nat.add_1_r, Nat.eqb_refl. cbn [negb mbind option_bind].
  rewrite Eh. cbn [mbind option_bind]. cbv zeta. set (bip30 := negb _).
  change (rev (zip (cb :: rest) (None :: map Some undo))) with (rev (zip rest (map Some undo)) ++ [(cb, None)]).
  apply Forall_cons in Hwf as [[Hl [min Hw]] Hwf].
  destruct (undo_transactions_spec _ _ _ _ _ _ _ _ _ _ Hb Hwf ltac:(eapply apply_tx_ok; eassumption) Hcon c bip30 [(cb, None)] true Hc Ec)
    as (c1 & -> & Hk1 & Hu1). cbn [undo_transactions]. cbv zeta.
  destruct (remove_outputs_spec c1 (TxHash cb) (nHeight b) (IsCoinBase cb) (IsCoinBase cb && negb bip30) 0 (vout cb) true) as (c2 & -> & Hk2 & Hu2).
  - apply Hk1.
  - lia.
  - exact Hl.
  - rewrite Hu1. apply map_union_subseteq_l.
  - cbn [mbind option_bind]. rewrite Ep. cbn [mbind option_bind]. rewrite Emp. cbn [mbind option_bind]. rewrite Ehp. cbn [mbind option_bind].
    destruct (SetBestBlock_spec c2 prevhash (proj1 Hk2)) as (K1 & K2 & K3). eexists. split; [reflexivity|]. split; [exact K1|]. split.
    + eapply same_base_trans; [apply Hk1|apply Hk2].
    + split; [|exact K3]. rewrite K2, Hu2, Hu1.
      pose proof (unapply_tx u (TxHash cb) (nHeight b) cb Hl Hv) as Hun. unfold spent in Hun at 1. rewrite Ecb in Hun. rewrite (left_id_L ∅ (∪)) in Hun. exact Hun.
Qed.
End Undo.

(** ** Blocks *)

Lemma GetBestBlock_same_base {B} `{!CCoinsView B} `{!CCoinsViewLaws B} (c : CCoinsViewCache B) :
  cache_ok c -> same_base c (cache_GetBestBlock c).1.
Proof.
  intros Hc. unfold cache_GetBestBlock. destruct (hashBlock c =? 0); [|split; reflexivity].
  destruct (GetBestBlock_law (base c) (co_base _ Hc)) as (b' & -> & _ & H1 & H2). split; assumption.
Qed.

(** The entry of a block with another status and undo position. *)
Definition same_links (b b' : CBlockIndex) : Prop :=
  phashBlock b' = phashBlock b /\ pprev b' = pprev b /\ pskip b' = pskip b /\ nHeight b' = nHeight b /\ nChainWork b' = nChainWork b /\
  nTime b' = nTime b /\ nBits b' = nBits b /\ nTimeMax b' = nTimeMax b.
Definition has_undo (b : CBlockIndex) : bool := negb (Z.land (nStatus b) BLOCK_HAVE_UNDO =? 0).
Lemma has_undo_testbit b : has_undo b = Z.testbit (nStatus b) 4.
Proof. exact (land_flag (nStatus b) 4 ltac:(lia)). Qed.
Lemma RaiseValidity_links b v b' r : RaiseValidity b v = Some (b', r) -> v = BLOCK_VALID_SCRIPTS -> same_links b b' /\ has_undo b' = has_undo b.
Proof.
  intros E ->. revert E. unfold RaiseValidity. rewrite !has_undo_testbit. change (negb _) with false at 1. cbv iota.
  destruct (negb _); [intros [= <- _]; repeat split|]. destruct (_ <? _); intros [= <- _]; [|repeat split]. split; [repeat split|].
  cbn [nStatus set_status]. rewrite Z.lor_spec, Z.land_spec. change (Z.testbit (u32 (Z.lnot BLOCK_VALID_MASK)) 4) with true.
  change (Z.testbit BLOCK_VALID_SCRIPTS 4) with false. rewrite andb_true_r, orb_false_r. reflexivity.
Qed.
Lemma WriteBlockUndo_links undo_io undos s pindex b blockundo undos' s' b' :
  m_block_index s !! pindex = Some b -> WriteBlockUndo undo_io undos s pindex b blockundo = (undos', Some (s', b')) ->
  m_block_index s' = <[pindex := b']> (m_block_index s) /\ m_best_header s' = m_best_header s /\ same_links b b' /\ has_undo b' = true.
Proof.
  intros Eb. unfold WriteBlockUndo. destruct (Z.land (nStatus b) BLOCK_HAVE_UNDO =? 0) eqn:E.
  - destruct undo_io as [pos|]; [|discriminate]. intros [= <- <- <-]. split; [reflexivity|]. split; [reflexivity|]. split; [repeat split|].
    rewrite has_undo_testbit. cbn [nStatus set_undo]. rewrite Z.lor_spec. change (Z.testbit BLOCK_HAVE_UNDO 4) with true. apply orb_true_r.
  - intros [= <- <- <-]. split; [symmetry; apply insert_id, Eb|]. split; [reflexivity|]. split; [repeat split|]. unfold has_undo. rewrite E. reflexivity.
Qed.

(** The check of a block says that it was altered after it was accepted. *)
Definition corrupt (EnableFuzzDeterminism : bool) (GetHash : CBlockHeader -> Z) (PoWHash : CBlockHeader -> Params -> Z) (params : Params)
    (TxHash : CTransaction -> Z) (Hash2 : Z -> Z -> Z) (block : CBlock) : Prop :=
  exists block' reason, CheckBlock EnableFuzzDeterminism GetHash PoWHash params TxHash Hash2 block true true = Some (block', Invalid BLOCK_MUTATED reason).

Section Whole.
Context {B : Type} `{!CCoinsView B} `{!CCoinsViewLaws B} {C : Type} `{!ElementCache C} `{!ElementCacheLaws C}.
Context (EnableFuzzDeterminism : bool) (GetHash : CBlockHeader -> Z) (PoWHash : CBlockHeader -> Params -> Z) (params : Params).
Context (TxHash WitnessHash : CTransaction -> Z) (Hash2 CacheKey : Z -> Z -> Z).
Context (VerifyScript : CScript -> CScript -> list (list Z) -> Z -> CTransaction -> nat -> Z -> list CTxOut -> option string).
Context (AssumedValidBlock : Z) (MinimumChainWork : list Z) (HasThreads : bool) (Complete : list CScriptCheck -> option string).
(** The queue answers as [CheckQueue.v] shows it does. *)
Context (Hqueue : forall l, completes (run_check VerifyScript) l (Complete l)).
Implicit Type cs : ConnectState (B := B) (C := C).

Abbreviation connectBlock := (ConnectBlock EnableFuzzDeterminism GetHash PoWHash params TxHash WitnessHash Hash2 CacheKey VerifyScript
  AssumedValidBlock MinimumChainWork HasThreads Complete).
Abbreviation holds_scripts := (scripts_hold params WitnessHash CacheKey VerifyScript AssumedValidBlock MinimumChainWork).

(** What is known of the members before and after a call. *)
Record connect_ok cs : Prop := {
  ks_view : cache_ok (cs_view cs);
  ks_cache : cache_sound WitnessHash CacheKey VerifyScript (cs_cache cs);
  ks_flags : flags_ok EnableFuzzDeterminism GetHash PoWHash params TxHash Hash2 (cs_block cs)
}.

(** The members a call changes. *)
Lemma connect_checked_members cs pindex b hash fJustCheck undo_io cs' o :
  m_block_index (cs_man cs) !! pindex = Some b ->
  connect_checked params TxHash WitnessHash CacheKey VerifyScript AssumedValidBlock MinimumChainWork HasThreads Complete
    cs pindex b hash fJustCheck undo_io = Some (cs', o) ->
  cs_block cs' = cs_block cs /\
  (o = Connected -> fJustCheck = false -> exists b', m_block_index (cs_man cs') = <[pindex := b']> (m_block_index (cs_man cs)) /\
     m_best_header (cs_man cs') = m_best_header (cs_man cs) /\ same_links b b' /\ has_undo b' = true) /\
  (o <> Connected -> cs_man cs' = cs_man cs /\ cs_undos cs' = cs_undos cs) /\
  (o = Failed -> undo_io = None).
Proof.
  intros Eb. unfold connect_checked. cbv zeta.
  repeat match goal with |- (?x ≫= _) = _ -> _ => destruct x as [?|]; [|discriminate]; cbn [mbind option_bind] | |- (let (_, _) := ?x in _) = _ -> _ => destruct x as [? ?] end.
  match goal with |- (match ?s with _ => _ end) = _ -> _ => destruct s as [|r reason] end.
  2: { intros [= <- <-]. split; [reflexivity|]. split; [discriminate|]. split; [auto|discriminate]. }
  destruct fJustCheck; [intros [= <- <-]; split; [reflexivity|]; split; [discriminate|split; [congruence|discriminate]]|]. cbn [cs_undos].
  match goal with |- context [WriteBlockUndo ?a1 ?a2 ?a3 ?a4 ?a5 ?a6] => destruct (WriteBlockUndo a1 a2 a3 a4 a5 a6) as [undos written] eqn:Ew end.
  destruct written as [[sw bw]|].
  2: { intros [= <- <-]. split; [reflexivity|]. split; [discriminate|]. unfold WriteBlockUndo in Ew.
       destruct (_ =? 0); [|discriminate]. destruct undo_io; [discriminate|]. injection Ew as <-. auto. }
  apply WriteBlockUndo_links in Ew as (W1 & W2 & W3 & W4); [|exact Eb].
  destruct (IsValid bw BLOCK_VALID_SCRIPTS) as [valid|]; [|discriminate]. cbn [mbind option_bind]. destruct valid; cbn [negb mbind option_bind].
  - intros [= <- <-]. split; [reflexivity|]. split; [|split; [congruence|discriminate]]. intros _ _. exists bw. auto.
  - destruct (RaiseValidity bw BLOCK_VALID_SCRIPTS) as [[br rr]|] eqn:Er; [|discriminate]. cbn [mbind option_bind].
    apply RaiseValidity_links in Er as [R1 R2]; [|reflexivity]. intros [= <- <-]. split; [reflexivity|]. split; [|split; [congruence|discriminate]]. intros _ _. exists br.
    cbn [cs_man m_block_index put_index m_best_header]. rewrite W1, insert_insert_eq. split; [reflexivity|]. split; [exact W2|]. split; [|congruence].
    unfold same_links in *. intuition congruence.
Qed.

Lemma ConnectBlock_inv cs pindex b fJustCheck undo_io cs' o :
  connect_ok cs -> m_block_index (cs_man cs) !! pindex = Some b -> connectable params TxHash (cs_man cs) pindex b (vtx (cs_block cs)) ->
  (script_check_reason params AssumedValidBlock MinimumChainWork (cs_man cs) pindex b = Some None ->
   assumed_valid params AssumedValidBlock MinimumChainWork (cs_man cs) pindex b) ->
  GetHash (header (cs_block cs)) <> hashGenesisBlock params -> ledger_ok params (nHeight b) (cache_utxo (cs_view cs)) ->
  connectBlock cs pindex fJustCheck undo_io = Some (cs', o) ->
  connect_ok cs' /\ same_block (cs_block cs) (cs_block cs') /\ same_base (cs_view cs) (cs_view cs') /\
  (o = Connected ->
   (fJustCheck = false -> pow_ok EnableFuzzDeterminism GetHash PoWHash params (cs_block cs) /\ merkle_ok TxHash Hash2 (cs_block cs)) /\
   transactions_ok GetHash params (cs_block cs) /\
   exists undo, block_connects params TxHash (m_block_index (cs_man cs)) pindex b (holds_scripts (cs_man cs) pindex b)
       (cache_utxo (cs_view cs)) (vtx (cs_block cs)) undo (cache_utxo (cs_view cs')) /\
     ledger_ok params (nHeight b) (cache_utxo (cs_view cs')) /\
     (fJustCheck = false -> hashBlock (cs_view cs') = GetHash (header (cs_block cs)) /\
        cs_undos cs' = (if has_undo b then cs_undos cs else <[pindex := undo]> (cs_undos cs)) /\
        exists b', m_block_index (cs_man cs') = <[pindex := b']> (m_block_index (cs_man cs)) /\
          m_best_header (cs_man cs') = m_best_header (cs_man cs) /\ same_links b b' /\ has_undo b' = true)) /\
  (o <> Connected -> cs_man cs' = cs_man cs /\ cs_undos cs' = cs_undos cs) /\
  (fJustCheck = false -> o = Failed -> undo_io = None \/ corrupt EnableFuzzDeterminism GetHash PoWHash params TxHash Hash2 (cs_block cs)).
Proof.
  intros [Hc Hvc Hf] Eb Hcn Hav Hgen Hu. unfold ConnectBlock. cbv zeta. rewrite Eb. cbn [mbind option_bind].
  destruct (phashBlock b) as [hash|] eqn:Eh; [|discriminate]. cbn [mbind option_bind].
  destruct (Z.eqb_spec hash (GetHash (header (cs_block cs)))) as [->|]; cbn [negb]; [|discriminate].
  assert (Hsz : Forall (fun tx => size (vout tx) < 2 ^ 64) (vtx (cs_block cs))).
  { eapply Forall_impl; [apply (cn_sizes _ _ _ _ _ _ Hcn)|]. cbn. intros; lia. }
  destruct (CheckBlock_spec EnableFuzzDeterminism GetHash PoWHash params TxHash Hash2 (cs_block cs) (negb fJustCheck) (negb fJustCheck) Hsz Hf)
    as (b1 & v & Ecb & Hsb & Hf1 & Hv). rewrite Ecb. cbn [mbind option_bind].
  assert (Hret : forall o', o' <> Connected -> Some (mkConnect b1 (cs_view cs) (cs_cache cs) (cs_man cs) (cs_undos cs), o') = Some (cs', o) ->
    connect_ok cs' /\ same_block (cs_block cs) (cs_block cs') /\ same_base (cs_view cs) (cs_view cs') /\ o <> Connected /\
    cs_man cs' = cs_man cs /\ cs_undos cs' = cs_undos cs).
  { intros o' Ho [= <- <-]. split; [split; assumption|]. split; [exact Hsb|]. split; [split; reflexivity|]. auto. }
  destruct v as [|r reason].
  2: { intros E. assert (H : exists o', o' <> Connected /\ (o' = Failed -> r = BLOCK_MUTATED) /\
                                       Some (mkConnect b1 (cs_view cs) (cs_cache cs) (cs_man cs) (cs_undos cs), o') = Some (cs', o)).
       { destruct r; eexists; (split; [|split; [|exact E]]); try discriminate. reflexivity. }
       destruct H as (o' & Ho & Hm & E'). destruct (Hret o' Ho E') as (G1 & G2 & G3 & G4 & G5). split; [exact G1|]. split; [exact G2|]. split; [exact G3|]. split; [intros; contradiction|].
       split; [auto|]. injection E' as _ <-. intros Ej Hfail. rewrite (Hm Hfail), Ej in Ecb. right. eexists _, _. exact Ecb. }
  clear Hret. destruct (proj1 Hv eq_refl) as (Hpow & Hmer & Htx). clear Hv.
  match goal with |- (?x ≫= _) = _ -> _ => destruct x as [hp|]; [|discriminate] end. cbn [mbind option_bind cs_view cs_cache cs_man cs_undos].
  destruct (cache_GetBestBlock_spec (cs_view cs) Hc) as (c1 & Eg & Hc1 & Hu1 & _). pose proof (GetBestBlock_same_base (cs_view cs) Hc) as Hsb1.
  rewrite Eg in Hsb1 |- *. cbn [fst] in Hsb1. destruct (negb (hp =? _)); [discriminate|]. rewrite (proj2 (Z.eqb_neq _ _) Hgen).
  pose proof Hsb as [Ehd Evtx]. pose proof (same_block_ok EnableFuzzDeterminism GetHash PoWHash params TxHash Hash2 (cs_block cs) b1 Hsb) as (_ & _ & Hb3).
  intros E. destruct (connect_checked_members (mkConnect b1 c1 (cs_cache cs) (cs_man cs) (cs_undos cs)) pindex b _ fJustCheck undo_io cs' o Eb E) as (Eblk & Eman & Ekeep & Efail).
  cbn [cs_view cs_cache cs_man cs_undos cs_block] in Eblk, Eman, Ekeep. apply (connect_checked_inv params TxHash WitnessHash CacheKey VerifyScript GetHash AssumedValidBlock MinimumChainWork HasThreads Complete) in E
    as (G1 & G2 & G3 & G4); cbn [cs_view cs_cache cs_man cs_undos cs_block] in *; try assumption.
  - split; [split; [exact G1|exact G3|rewrite Eblk; exact Hf1]|]. split; [rewrite Eblk; exact Hsb|]. split; [eapply same_base_trans; eassumption|].
    split; [|split; [exact Ekeep|auto]]. intros Ho. destruct (G4 Ho) as (undo & u' & H1 & <- & H3 & H4). rewrite Hu1, Evtx in H1. split; [|split; [exact Htx|]].
    + intros ->. split; [apply Hpow; reflexivity|apply Hmer; reflexivity].
    + exists undo. split; [exact H1|]. split; [exact H3|]. intros Ej. destruct (H4 Ej) as (K1 & K2 & K3). split; [exact K1|]. split; [|exact (Eman Ho Ej)].
      unfold has_undo. destruct (Z.eqb_spec (Z.land (nStatus b) BLOCK_HAVE_UNDO) 0); cbn [negb]; auto.
  - rewrite Hu1. exact Hu.
  - rewrite Evtx. exact Hcn.
  - unfold is_genesis. rewrite Ehd. apply Z.eqb_neq, Hgen.
  - apply Hb3, Htx.
Qed.
End Whole.
