(* ===== verification/ConnectTotal.v ===== *)
(** * Connecting a block always answers

    The functions of [Ledger.v] hold assertions: on the inputs of a
    transaction after it was checked, on the links of the block index, on the
    state of the view.  On a well-formed index none of them fails, so that
    [ConnectBlock] returns, with the result [Connect.v] describes. *)

From Stdlib Require Import String.
From stdpp Require Import gmap.
From S2P Require Import Prelude ConsensusParams Emission Levy ArithUint256 BlockIndex Pow Headers Serialize Script Transaction Coins TxCheck Merkle Block CuckooCache CheckQueue Ledger LedgerCoins Connect.

Local Open Scope Z_scope.

(** ** The loops over the inputs *)

Section Inputs.
Context {B : Type} `{!CCoinsView B} `{!CCoinsViewLaws B}.
Implicit Type c : CCoinsViewCache B.

(** Reading a coin that is there. *)
Lemma AccessCoin_there c o cn : cache_ok c -> cache_utxo c !! o = Some cn ->
  exists c', AccessCoin c o = Some (c', cn) /\ IsSpent cn = false /\ cache_ok c' /\ cache_utxo c' = cache_utxo c.
Proof.
  intros Hc Ho. destruct (AccessCoin_spec c o Hc) as (c' & cn' & E & Hs & Hcn). rewrite Ho in Hcn. subst cn'.
  exists c'. split; [exact E|]. split; [eapply cache_utxo_unspent; eassumption|]. split; [apply Hs|apply Hs].
Qed.

Ltac inputs_total :=
  match goal with
  | Hc : cache_ok ?c, Hi : input_coins (cache_utxo ?c) (?i :: _) = Some _ |- _ =>
      apply input_coins_uncons in Hi as (?cn & ?rest & -> & ?Ei & Hi);
      destruct (AccessCoin_there c (prevout i) _ Hc Ei) as (?c1 & -> & Hsp & ?Hc1 & Hu1); cbn [mbind option_bind]; rewrite ?Hsp
  end.

Lemma p2sh_loop_total c ins n coins :
  cache_ok c -> input_coins (cache_utxo c) ins = Some coins -> is_Some (GetP2SHSigOpCount_loop c ins n).
Proof.
  revert c n coins. induction ins as [|i ins IH]; intros c n coins Hc Hi; cbn [GetP2SHSigOpCount_loop]; [eauto|].
  inputs_total. eapply IH; [exact Hc1|]. rewrite Hu1. exact Hi.
Qed.
(** The witness flag comes with the P2SH flag. *)
Definition flags_sane (flags : Z) : Prop := Z.testbit flags SCRIPT_VERIFY_WITNESS_bit = true -> Z.testbit flags SCRIPT_VERIFY_P2SH_bit = true.
Lemma CountWitnessSigOps_total sig pub wit flags : flags_sane flags -> is_Some (CountWitnessSigOps sig pub wit flags).
Proof.
  intros Hf. unfold CountWitnessSigOps, flags_sane in *. destruct (Z.testbit flags SCRIPT_VERIFY_WITNESS_bit); cbn [negb]; [|eauto].
  rewrite (Hf eq_refl). cbn [negb]. eauto.
Qed.
Lemma witness_loop_total c ins flags n coins :
  flags_sane flags -> cache_ok c -> input_coins (cache_utxo c) ins = Some coins -> is_Some (witness_sigops_loop c ins flags n).
Proof.
  intros Hf. revert c n coins. induction ins as [|i ins IH]; intros c n coins Hc Hi; cbn [witness_sigops_loop]; [eauto|].
  inputs_total. destruct (CountWitnessSigOps_total (scriptSig i) (scriptPubKey (out cn)) (scriptWitness i) flags Hf) as [k ->].
  cbn [mbind option_bind]. eapply IH; [exact Hc1|]. rewrite Hu1. exact Hi.
Qed.
Lemma SigOpCost_total c tx flags coins :
  flags_sane flags -> cache_ok c -> (IsCoinBase tx = false -> input_coins (cache_utxo c) (vin tx) = Some coins) ->
  is_Some (GetTransactionSigOpCost c tx flags).
Proof.
  intros Hf Hc Hi. unfold GetTransactionSigOpCost. cbv zeta. destruct (IsCoinBase tx) eqn:Ecb; [eauto|]. specialize (Hi eq_refl).
  destruct (Z.testbit flags SCRIPT_VERIFY_P2SH_bit).
  - unfold GetP2SHSigOpCount. rewrite Ecb. destruct (p2sh_loop_total c (vin tx) 0 coins Hc Hi) as [[c1 n] E]. rewrite E. cbn [mbind option_bind].
    apply p2sh_loop_same in E as (Hc1 & Hu1 & _); [|exact Hc]. eapply witness_loop_total; [exact Hf|exact Hc1|]. rewrite Hu1. exact Hi.
  - cbn [mbind option_bind]. eapply witness_loop_total; eassumption.
Qed.
Lemma spent_outputs_total c ins coins :
  cache_ok c -> input_coins (cache_utxo c) ins = Some coins -> exists c', spent_outputs_loop c ins = Some (c', map out coins).
Proof.
  revert c coins. induction ins as [|i ins IH]; intros c coins Hc Hi; cbn [spent_outputs_loop].
  { injection Hi as <-. eauto. }
  inputs_total. destruct (IH c1 rest Hc1) as (c2 & ->); [rewrite Hu1; exact Hi|]. cbn. eauto.
Qed.
Lemma prev_heights_total c ins coins :
  cache_ok c -> input_coins (cache_utxo c) ins = Some coins -> exists c', prev_heights c ins = Some (c', map coin_nHeight coins).
Proof.
  revert c coins. induction ins as [|i ins IH]; intros c coins Hc Hi; cbn [prev_heights].
  { injection Hi as <-. eauto. }
  inputs_total. destruct (IH c1 rest Hc1) as (c2 & ->); [rewrite Hu1; exact Hi|]. cbn. eauto.
Qed.
Lemma have_outputs_total c hash o n : cache_ok c -> is_Some (have_outputs c hash o n).
Proof.
  revert c o. induction n as [|n IH]; intros c o Hc; cbn [have_outputs]; [eauto|].
  destruct (cache_HaveCoin_spec c (mkOutPoint hash (u32 (Z.of_nat o))) Hc) as (c1 & -> & Hs). cbn [mbind option_bind].
  destruct (IH c1 (S o) (proj1 Hs)) as [[c2 h2] ->]. cbn. eauto.
Qed.
Lemma have_any_output_total TxHash c txs : cache_ok c -> is_Some (have_any_output TxHash c txs).
Proof.
  revert c. induction txs as [|tx txs IH]; intros c Hc; cbn [have_any_output]; [eauto|].
  destruct (have_outputs_total c (TxHash tx) 0 (length (vout tx)) Hc) as [[c1 h1] E]. rewrite E. cbn [mbind option_bind].
  apply have_outputs_inv in E as [Hs _]; [|exact Hc]. destruct (IH c1 (proj1 Hs)) as [[c2 h2] ->]. cbn. eauto.
Qed.
End Inputs.

(** ** The transactions *)

Section Total.
Context {B : Type} `{!CCoinsView B} `{!CCoinsViewLaws B} {C : Type} `{!ElementCache C} `{!ElementCacheLaws C}.
Context (params : Params) (TxHash WitnessHash : CTransaction -> Z) (CacheKey : Z -> Z -> Z).
Context (VerifyScript : CScript -> CScript -> list (list Z) -> Z -> CTransaction -> nat -> Z -> list CTxOut -> option string).
Implicit Type c : CCoinsViewCache B.

Lemma CheckInputScripts_total tx c flags store (vc : C) checks coins :
  cache_ok c -> input_coins (cache_utxo c) (vin tx) = Some coins ->
  is_Some (CheckInputScripts WitnessHash CacheKey VerifyScript tx c flags store None vc checks).
Proof.
  intros Hc Hi. unfold CheckInputScripts. cbv zeta. destruct (IsCoinBase tx); [eauto|]. destruct (cache_contains vc _ _) as [vc1 []]; [eauto|].
  destruct (spent_outputs_total c (vin tx) coins Hc Hi) as (c1 & ->). cbn [mbind option_bind].
  rewrite length_map, (input_coins_length _ _ _ Hi), Nat.eqb_refl. cbn [negb]. destruct checks as [l|]; [eauto|].
  destruct (run_checks VerifyScript _); eauto.
Qed.

Context (m : BlockMap) (Hm : index_ok m) (pindex p : Z) (b : CBlockIndex) (nLockTimeFlags flags : Z) (fScriptChecks fJustCheck : bool).
Context (Hpindex : m !! pindex = Some b) (Hp : pprev b = Some p) (Hheight : nHeight b + 2 ^ 16 < 2 ^ 31) (Hflags : flags_sane flags).

Lemma SequenceLocks_total tx hs :
  length (vin tx) = length hs -> Forall (fun h => 0 <= h <= nHeight b) hs -> is_Some (SequenceLocks m tx nLockTimeFlags hs pindex).
Proof using Hm Hpindex Hp Hheight.
  intros Hl Hh. destruct (eo_link _ _ _ (Hm pindex b Hpindex) p Hp) as (pb & Epb & _).
  destruct (SequenceLocks_spec m tx nLockTimeFlags hs pindex b p pb Hm Hpindex Hp Epb Hheight Hl Hh) as (r & _ & -> & _). eauto.
Qed.

Lemma connect_inputs_total c tx nFees :
  cache_ok c -> ledger_ok params (nHeight b) (cache_utxo c) -> in_range (vout tx) -> total (vout tx) <= MAX_MONEY -> IsCoinBase tx = false ->
  is_Some (connect_inputs params m pindex b nLockTimeFlags c tx nFees).
Proof using Hm Hpindex Hp Hheight.
  intros Hc Hu Hr Ht Ecb. pose proof (eo_height _ _ _ (Hm pindex b Hpindex)) as Hb.
  pose proof (ledger_ok_heights _ _ _ (proj2 Hb) Hu) as Hh. unfold connect_inputs.
  destruct (CheckTxInputs_spec c tx (nHeight b) (coinbaseMaturity params) Hc Hh Hb Hr Ht Ecb) as (c1 & r & -> & Hs & Hiff & _).
  cbn [mbind option_bind]. destruct r as [v|fee]; [eauto|].
  destruct (proj1 (Hiff fee) eq_refl) as (coins & Hi & _). unfold CheckSettlementLevy. rewrite Ecb.
  rewrite (proj2 (GetValueOut_spec tx (total (vout tx)))) by auto. cbn [mbind option_bind].
  destruct (_ <? _); cbn [mbind option_bind]; [eauto|]. cbv zeta. destruct (negb _); [eauto|].
  pose proof Hs as (Hc1 & Hu1 & _). destruct (prev_heights_total c1 (vin tx) coins Hc1) as (c2 & ->); [rewrite Hu1; exact Hi|]. cbn [mbind option_bind].
  destruct (SequenceLocks_total tx (map coin_nHeight coins)) as [ok ->]; [| |cbn; eauto].
  - rewrite length_map, (input_coins_length _ _ _ Hi). reflexivity.
  - apply Forall_fmap, Forall_forall. intros cn Hcn. apply list_elem_of_lookup in Hcn as (k & Hk). cbn.
    destruct (vin tx !! k) as [i|] eqn:Ei.
    + destruct (input_coins_lookup _ _ _ k i Hi Ei) as (cn' & E1 & E2). rewrite Hk in E1. injection E1 as <-.
      pose proof (cok_height _ _ _ (Hu _ _ E2)). lia.
    + apply lookup_ge_None in Ei. apply lookup_lt_Some in Hk. rewrite (input_coins_length _ _ _ Hi) in Hk. lia.
Qed.

Abbreviation loop_ok := (loop_ok WitnessHash CacheKey VerifyScript).
Abbreviation connect1 := (connect_transaction params TxHash WitnessHash CacheKey VerifyScript m pindex b nLockTimeFlags flags fScriptChecks fJustCheck).
Abbreviation connect := (connect_transactions params TxHash WitnessHash CacheKey VerifyScript m pindex b nLockTimeFlags flags fScriptChecks fJustCheck).

Lemma connect_transaction_total i tx (st : Loop (B := B) (C := C)) min :
  loop_ok st -> ledger_ok params (nHeight b) (cache_utxo (lp_view st)) -> 1 <= nHeight b -> size (vout tx) <= 2 ^ 32 ->
  tx_well_formed tx (permitV2Outputs params) min -> room TxHash (cache_utxo (lp_view st)) tx ->
  is_Some (connect1 i tx st).
Proof using All.
  intros [Hc Hvc Hf] Hu Hb Hl Hw Hvac. unfold connect_transaction. set (u := cache_utxo (lp_view st)) in *.
  pose proof (eo_height _ _ _ (Hm pindex b Hpindex)) as Hb2.
  pose proof (ledger_ok_heights _ _ _ (proj2 Hb2) Hu) as Hh. pose proof (wf_values _ _ _ Hw) as Hr. pose proof (wf_total _ _ _ Hw) as Ht.
  (* the inputs *)
  assert (Hin : exists c r, (if negb (IsCoinBase tx) then connect_inputs params m pindex b nLockTimeFlags (lp_view st) tx (lp_fees st)
                             else Some (lp_view st, inr (lp_fees st))) = Some (c, r) /\
            same_cache (lp_view st) c /\ forall nFees, r = inr nFees -> exists coins, IsCoinBase tx = false -> input_coins u (vin tx) = Some coins).
  { destruct (IsCoinBase tx) eqn:Ecb; cbn [negb].
    - eexists _, _. split; [reflexivity|]. split; [apply same_cache_refl, Hc|]. intros n _. exists []. discriminate.
    - destruct (connect_inputs_total (lp_view st) tx (lp_fees st)) as [[c r] E]; try assumption. exists c, r. split; [exact E|].
      apply connect_inputs_inv in E as [Hs HF]; try assumption. split; [exact Hs|]. intros n En. destruct (HF n En) as (coins & fee & Hx & _).
      exists coins. intros _. apply Hx. }
  destruct Hin as (c & r & -> & Hs & Hcoins). cbn [mbind option_bind]. destruct r as [reason|nFees]; [eauto|].
  destruct (Hcoins nFees eq_refl) as [coins Hi]. clear Hcoins. pose proof Hs as (Hc1 & Hu1 & _). fold u in Hu1.
  destruct (SigOpCost_total c tx flags coins Hflags Hc1) as [[c1 cost] E]; [rewrite Hu1; exact Hi|]. rewrite E. cbn [mbind option_bind]. cbv zeta.
  apply SigOpCost_same in E; [|exact Hc1]. pose proof (same_cache_trans _ _ _ Hs E) as Hs1. clear Hs E c Hc1 Hu1. destruct (_ >? _); [eauto|].
  pose proof Hs1 as (Hc1 & Hu1 & _). fold u in Hu1.
  (* the scripts *)
  assert (Hsc : exists c2 vc checks v,
     (if negb (IsCoinBase tx) && fScriptChecks then CheckInputScripts WitnessHash CacheKey VerifyScript tx c1 flags fJustCheck None (lp_cache st) (lp_checks st)
      else Some (c1, lp_cache st, lp_checks st, TxValid)) = Some (c2, vc, checks, v) /\ cache_ok c2 /\ cache_utxo c2 = u).
  { destruct (negb (IsCoinBase tx) && fScriptChecks) eqn:Eb; [|eexists _, _, _, _; split; [reflexivity|]; auto].
    apply andb_true_iff in Eb as [Ecb _]. apply negb_true_iff in Ecb.
    destruct (CheckInputScripts_total tx c1 flags fJustCheck (lp_cache st) (lp_checks st) coins Hc1) as [[[[c2 vc] checks] v] E]; [rewrite Hu1; auto|].
    exists c2, vc, checks, v. split; [exact E|]. eapply CheckInputScripts_inv in E as ((G1 & G2 & _) & _); try eassumption. split; [exact G1|congruence]. }
  destruct Hsc as (c2 & vc & checks & v & -> & Hc2 & Hu2). cbn [mbind option_bind]. destruct v; [|eauto].
  destruct (UpdateCoins_spec TxHash c2 tx (nHeight b) (if IsCoinBase tx then [] else coins) Hc2 Hl Hr (wf_nodup _ _ _ Hw)) as (c3 & -> & _).
  - intros ->. reflexivity.
  - intros Ecb. rewrite Ecb, Hu2. split; [apply Hi, Ecb|]. apply vacant_difference, Hvac; [exact Ecb|]. eauto.
  - cbn. eauto.
Qed.

Lemma connect_transactions_total i txs (st : Loop (B := B) (C := C)) seen :
  loop_ok st -> ledger_ok params (nHeight b) (cache_utxo (lp_view st)) -> 1 <= nHeight b -> wf_txs params txs ->
  ids_bind_inputs TxHash txs ->
  (lp_state st = Valid -> once TxHash seen (cache_utxo (lp_view st)) txs /\
     Forall (fun tx => IsCoinBase tx = true -> vacant (cache_utxo (lp_view st)) (TxHash tx) (length (vout tx)) /\ TxHash tx ∉ seen) (take 1 txs)) ->
  Forall (fun tx => IsCoinBase tx = false) (tail txs) ->
  is_Some (connect i txs st).
Proof using All.
  intros Hst Hu Hb Hwf. pose proof (eo_height _ _ _ (Hm pindex b Hpindex)) as Hb2. revert i st seen Hst Hu.
  induction Hwf as [|tx txs [Hl [min Hw]] Hwf IH]; intros i st seen Hst Hu Hnd Hon Hncb; cbn [connect_transactions]; [eauto|].
  destruct (lp_state st) as [|r reason] eqn:Ev; [|eauto].
  destruct (Hon eq_refl) as [Ho Hcb]. cbn [take] in Hcb. apply Forall_cons in Hcb as [Hcb _]. cbn [tail] in Hncb. pose proof (once_room _ _ _ _ _ Ho) as Hv.
  destruct (connect_transaction_total i tx st min Hst Hu Hb Hl Hw Hv) as [st1 E1]. rewrite E1. cbn [mbind option_bind].
  eapply connect_transaction_inv in E1 as (Hst1 & _ & H1); try eassumption; [|lia].
  destruct (lp_state st1) as [|r reason] eqn:Ev1.
  2: { rewrite connect_Invalid by congruence. eauto. }
  destruct (H1 eq_refl) as (_ & coins & fee & _ & Hu1 & _ & Htx). apply (IH (S i) st1 (TxHash tx :: seen)); try assumption.
  - rewrite Hu1. eapply apply_tx_ok; try eassumption. lia.
  - eapply ids_bind_cons, Hnd.
  - intros _. rewrite Hu1. split.
    + destruct (IsCoinBase tx) eqn:Ecb.
      * destruct (Hcb eq_refl) as [Hvac Hnot]. apply once_step; try assumption; [apply Hw|]. rewrite Ecb. auto.
      * assert (Hin : is_Some (input_coins (cache_utxo (lp_view st)) (vin tx))) by (destruct Htx as [K _ _ _ _ _ _ _ _]; eauto).
        apply once_step; try assumption; [apply Hw|exact (Hv Ecb Hin)|]. rewrite Ecb. exact Hin.
    + destruct txs as [|t txs]; [constructor|]. apply Forall_cons in Hncb as [Ht _]. constructor; [congruence|constructor].
  - destruct Hncb; [constructor|assumption].
Qed.
End Total.

(** ** The block *)

(** The work of every block is positive, so that times can be computed from it. *)
Definition proofs_positive (m : BlockMap) : Prop := forall h b, m !! h = Some b -> 0 < bits_work (nBits b).

Lemma GetBlockProofEquivalentTime_total m to_h to from_h from params :
  index_ok m -> proofs_positive m -> m !! to_h = Some to -> m !! from_h = Some from ->
  is_Some (GetBlockProofEquivalentTime to from to params).
Proof.
  intros Hm Hp Et Ef. pose proof (work_ok m to_h to Hm Et) as Ht. pose proof (work_ok m from_h from Hm Ef) as Hf. unfold GetBlockProofEquivalentTime.
  set (rs := if gt _ _ then _ else _). assert (Hr : limbs_ok rs.1) by (subst rs; destruct (gt _ _); apply sub_spec; assumption).
  destruct rs as [r sign]. cbn [fst] in Hr. destruct (GetBitsProof_spec (nBits to) (eo_bits _ _ _ (Hm to_h to Et))) as (w & Ew & Hw).
  unfold GetBlockProof. rewrite Ew. cbn [mbind option_bind].
  assert (Hs : limbs_ok (mul r (of_u64 (u64 (nPowTargetSpacing params))))) by (apply mul_spec; [exact Hr|apply of_u64_ok]).
  destruct Hw as [Hwl Hw]. pose proof (div_spec _ w Hs Hwl) as Hd. destruct (div _ w) as [q|]; [cbn; destruct (_ >? _); eauto|].
  specialize (Hp to_h to Et). lia.
Qed.

(** The best header is an entry of the index. *)
Definition best_header_known (s : BlockManager) : Prop := exists bh e, m_best_header s = Some bh /\ m_block_index s !! bh = Some e.
Lemma manager_best_header s h b : manager_ok s -> m_block_index s !! h = Some b -> best_header_known s.
Proof.
  intros Hs Eb. destruct (m_best_header s) as [bh|] eqn:Ebh.
  - destruct (mo_best _ Hs bh Ebh) as (e & Ee & _). exists bh, e. auto.
  - rewrite (mo_best_none _ Hs Ebh), lookup_empty in Eb. discriminate.
Qed.
Lemma script_check_reason_total params av mcw s pindex b :
  index_ok (m_block_index s) -> best_header_known s -> proofs_positive (m_block_index s) -> m_block_index s !! pindex = Some b ->
  is_Some (script_check_reason params av mcw s pindex b).
Proof.
  intros Hm (bh & e & Ebh & Ee) Hp Eb. unfold script_check_reason. cbv zeta. destruct (av =? 0); [eauto|].
  destruct (m_block_index s !! av) as [it|] eqn:Ea; [|eauto]. rewrite (GetAncestor_spec Hm av it _ Ea). cbn [mbind option_bind].
  destruct (negb _); [eauto|]. rewrite Ebh. cbn [mbind option_bind]. rewrite Ee. cbn [mbind option_bind].
  rewrite (GetAncestor_spec Hm bh e _ Ee). cbn [mbind option_bind]. destruct (negb _); [eauto|]. destruct (_ <? _); [eauto|].
  destruct (GetBlockProofEquivalentTime_total _ bh e pindex b params Hm Hp Ee Eb) as [t ->]. cbn. destruct (_ <=? _); eauto.
Qed.

(** The time that the work between two entries is worth. *)
Lemma GetBlockProofEquivalentTime_exceeds m to_h to from_h from params t :
  index_ok m -> m !! to_h = Some to -> m !! from_h = Some from ->
  GetBlockProofEquivalentTime to from to params = Some t -> TWO_WEEKS_IN_SECONDS < t ->
  val (nChainWork from) < val (nChainWork to) /\
  60 * 60 * 24 * 14 < ((val (nChainWork to) - val (nChainWork from)) * u64 (nPowTargetSpacing params)) mod 2 ^ 256 / bits_work (nBits to).
Proof.
  intros Hm Et Ef. pose proof (work_ok m to_h to Hm Et) as Ht. pose proof (work_ok m from_h from Hm Ef) as Hf.
  pose proof (val_bound _ Ht) as Bt. pose proof (val_bound _ Hf) as Bf. unfold R in *.
  unfold GetBlockProofEquivalentTime, TWO_WEEKS_IN_SECONDS. rewrite (gt_spec _ _ Ht Hf), Z.gtb_ltb.
  destruct (GetBitsProof_spec (nBits to) (eo_bits _ _ _ (Hm to_h to Et))) as (w & Ew & Hwl & Hw). unfold GetBlockProof. rewrite Ew.
  destruct (Z.ltb_spec (val (nChainWork from)) (val (nChainWork to))) as [Hlt|Hge]; cbn [mbind option_bind].
  - destruct (sub_spec _ _ Ht Hf) as [Hs Es]. rewrite Z.mod_small in Es by (unfold R; lia).
    destruct (mul_spec _ (of_u64 (u64 (nPowTargetSpacing params))) Hs (of_u64_ok _)) as [Hmul Em]. rewrite Es, val_of_u64 in Em by apply u64_range.
    pose proof (div_spec _ w Hmul Hwl) as Hd. destruct (div _ w) as [q|]; [|discriminate]. destruct Hd as (_ & Hq & Eq). cbn [mbind option_bind].
    rewrite Em, Hw in Eq. unfold R in Eq. rewrite <- Eq. intros E Hweeks. split; [exact Hlt|]. destruct (bits_bound q Hq) as (_ & Hlow & Hhigh & Hzero).
    destruct (Z.gtb_spec (bits q) 63) as [Hbig|Hsmall].
    + assert (Hnz : val q <> 0) by (intros E0; apply Hzero in E0; lia). specialize (Hhigh Hnz).
      pose proof (Z.pow_le_mono_r 2 63 (bits q - 1) ltac:(lia) ltac:(lia)). lia.
    + injection E as <-. rewrite (GetLow64_spec q Hq) in Hweeks. pose proof (val_bound q Hq). rewrite Z.mod_small in Hweeks; [lia|].
      pose proof (Z.pow_le_mono_r 2 (bits q) 63 ltac:(lia) ltac:(lia)). lia.
  - destruct (div _ w) as [q|] eqn:Ediv; [|discriminate]. cbn [mbind option_bind]. intros E Hweeks. exfalso.
    assert (Hq : limbs_ok q).
    { destruct (sub_spec _ _ Hf Ht) as [Hs _]. destruct (mul_spec _ (of_u64 (u64 (nPowTargetSpacing params))) Hs (of_u64_ok _)) as [Hmul _].
      pose proof (div_spec _ w Hmul Hwl) as Hd. rewrite Ediv in Hd. apply Hd. }
    destruct (_ >? 63); injection E as <-; [lia|]. rewrite (GetLow64_spec q Hq) in Hweeks. pose proof (Z.mod_pos_bound (val q) (2 ^ 64) ltac:(lia)). lia.
Qed.
(** Scripts are skipped only for a block that is assumed to be valid. *)
Lemma skipped_assumed_valid params av mcw s pindex b :
  index_ok (m_block_index s) -> m_block_index s !! pindex = Some b ->
  script_check_reason params av mcw s pindex b = Some None -> assumed_valid params av mcw s pindex b.
Proof.
  intros Hm Eb. unfold script_check_reason. cbv zeta. destruct (Z.eqb_spec av 0) as [|Hav]; [discriminate|].
  destruct (m_block_index s !! av) as [it|] eqn:Ea; [|discriminate].
  assert (Hanc : forall h e, m_block_index s !! h = Some e -> forall x, GetAncestor (m_block_index s) h (nHeight b) = Some x ->
    x = Some pindex -> exists k, nth_prev (m_block_index s) h k = Some pindex).
  { intros h e Eh x E ->. rewrite (GetAncestor_spec Hm h e _ Eh) in E. destruct (_ || _); [discriminate|]. injection E as E. eauto. }
  destruct (GetAncestor (m_block_index s) av (nHeight b)) as [x|] eqn:Ex; [|discriminate]. cbn [mbind option_bind].
  case_bool_decide as Hx; cbn [negb]; [|discriminate]. destruct (m_best_header s) as [bh|] eqn:Ebh; [|discriminate]. cbn [mbind option_bind].
  destruct (m_block_index s !! bh) as [e|] eqn:Ee; [|discriminate]. cbn [mbind option_bind].
  destruct (GetAncestor (m_block_index s) bh (nHeight b)) as [y|] eqn:Ey; [|discriminate]. cbn [mbind option_bind].
  case_bool_decide as Hy; cbn [negb]; [|discriminate]. destruct (Z.ltb_spec (CompareTo (nChainWork e) mcw) 0) as [|Hcmp]; [discriminate|].
  destruct (GetBlockProofEquivalentTime e b e params) as [t|] eqn:Et; [|discriminate]. cbn [mbind option_bind].
  destruct (Z.leb_spec t TWO_WEEKS_IN_SECONDS) as [|Hweeks]; [discriminate|]. intros _.
  split; [split; [exact Hav|exact (Hanc av it Ea x Ex Hx)]|]. exists bh, e. split; [exact Ebh|]. split; [exact Ee|]. split; [exact (Hanc bh e Ee y Ey Hy)|]. split.
  - intros Hmcw. rewrite (CompareTo_spec _ _ (work_ok _ _ _ Hm Ee) Hmcw) in Hcmp. destruct (Z.ltb_spec (val (nChainWork e)) (val mcw)); lia.
  - exact (GetBlockProofEquivalentTime_exceeds _ bh e pindex b params t Hm Ee Eb Et Hweeks).
Qed.

(** The rule against repeated ids is enforced for a block whose hash is not an exception. *)
Lemma check_bip30_always params m pindex b p :
  index_ok m -> (forall h e, m !! h = Some e -> h <> BIP34Hash params) ->
  pindex <> 0x00000000000a4d0a398161ffc163c503763b1f4360639393e0e4c8e300e0caec /\
  pindex <> 0x00000000000743f190a18c5577a3c2d2a1f610ae9601ac046a38084ccb7cd721 ->
  m !! pindex = Some b -> pprev b = Some p -> check_bip30 params m b pindex p = Some true.
Proof.
  intros Hm He [H1 H2] Eb Ep. unfold check_bip30. destruct (eo_link _ _ _ (Hm pindex b Eb) p Ep) as (pb & Epb & _).
  rewrite (GetAncestor_spec Hm p pb _ Epb). cbn [mbind option_bind].
  set (a := if _ || _ then None else _).
  assert (Hsame : (match a with Some a => e ← m !! a; h ← phashBlock e; Some (h =? BIP34Hash params) | None => Some false end) = Some false).
  { destruct a as [x'|] eqn:Ea; [|reflexivity]. unfold a in Ea. destruct ((BIP34Height params >? nHeight pb) || (BIP34Height params <? 0)) eqn:Er; [discriminate|].
    apply orb_false_iff in Er as [R1 R2].
    destruct (nth_prev_exists Hm p pb (Z.to_nat (nHeight pb - BIP34Height params)) Epb ltac:(lia)) as (x & bx & Ex & Ebx & _). rewrite Ex in Ea. injection Ea as <-.
    rewrite Ebx. cbn [mbind option_bind]. rewrite (eo_hash _ _ _ (Hm x bx Ebx)). cbn [mbind option_bind].
    rewrite (proj2 (Z.eqb_neq _ _) (He x bx Ebx)). reflexivity. }
  rewrite Hsame. cbn [mbind option_bind]. unfold IsBIP30Repeat. rewrite (proj2 (Z.eqb_neq _ _) H1), (proj2 (Z.eqb_neq _ _) H2), !andb_false_r. reflexivity.
Qed.

(** An ordinary block to connect: in the place of the rule against repeated
    ids, the hashes that it makes an exception for: two blocks of another
    chain, and [BIP34Hash], which is 0 on every network. *)
Record ordinary (params : Params) (TxHash : CTransaction -> Z) (s : BlockManager) (pindex : Z) (b : CBlockIndex) (txs : list CTransaction) : Prop := {
  or_height : 1 <= nHeight b < 2 ^ 31;
  or_sizes : Forall (fun tx => size (vout tx) <= 2 ^ 32) txs;
  or_ids : ids_bind_inputs TxHash txs;
  or_bip34 h e : m_block_index s !! h = Some e -> h <> BIP34Hash params;
  or_bip30 : pindex <> 0x00000000000a4d0a398161ffc163c503763b1f4360639393e0e4c8e300e0caec /\
             pindex <> 0x00000000000743f190a18c5577a3c2d2a1f610ae9601ac046a38084ccb7cd721;
  or_subsidy : 0 <= GetBlockSubsidy (nHeight b) params <= MAX_MONEY
}.
Lemma ordinary_connectable params TxHash s pindex b txs :
  index_ok (m_block_index s) -> m_block_index s !! pindex = Some b -> ordinary params TxHash s pindex b txs -> connectable params TxHash s pindex b txs.
Proof.
  intros Hm Eb [H1 H2 H3 H4 H5 H6]. split; try assumption. intros p hash Ep Eh. rewrite (eo_hash _ _ _ (Hm pindex b Eb)) in Eh. injection Eh as <-.
  apply check_bip30_always; assumption.
Qed.

(** What is assumed of the index and of the exceptions to the script flags. *)
Record index_sane (params : Params) (s : BlockManager) : Prop := {
  is_index : index_ok (m_block_index s);
  is_best : best_header_known s;
  is_positive : proofs_positive (m_block_index s);
  is_exceptions : map_Forall (fun _ => flags_sane) (script_flag_exceptions params)
}.

Lemma GetBlockScriptFlags_sane params b hash :
  map_Forall (fun _ => flags_sane) (script_flag_exceptions params) -> phashBlock b = Some hash ->
  exists flags, GetBlockScriptFlags b params = Some flags /\ flags_sane flags.
Proof.
  intros Hx Eh. unfold GetBlockScriptFlags. rewrite Eh. cbn [mbind option_bind]. cbv zeta. eexists. split; [reflexivity|].
  set (f0 := match _ with Some f => f | None => _ end).
  assert (H0 : flags_sane f0).
  { subst f0. destruct (script_flag_exceptions params !! hash) as [f|] eqn:Ef; [apply (Hx hash f Ef)|]. intros _. vm_compute. reflexivity. }
  clearbody f0.
  assert (Hor : forall (d : bool) f g, Z.testbit g SCRIPT_VERIFY_WITNESS_bit = false -> Z.testbit g SCRIPT_VERIFY_P2SH_bit = false ->
                flags_sane f -> flags_sane (if d then Z.lor f g else f)).
  { intros [] f g H1 H2 Hf; [|exact Hf]. unfold flags_sane in *. rewrite !Z.lor_spec, H1, H2, !orb_false_r. exact Hf. }
  repeat (apply Hor; [reflexivity|reflexivity|]). exact H0.
Qed.

Section TotalBlock.
Context {B : Type} `{!CCoinsView B} `{!CCoinsViewLaws B} {C : Type} `{!ElementCache C} `{!ElementCacheLaws C}.
Context (EnableFuzzDeterminism : bool) (GetHash : CBlockHeader -> Z) (PoWHash : CBlockHeader -> Params -> Z) (params : Params).
Context (TxHash WitnessHash : CTransaction -> Z) (Hash2 CacheKey : Z -> Z -> Z).
Context (VerifyScript : CScript -> CScript -> list (list Z) -> Z -> CTransaction -> nat -> Z -> list CTxOut -> option string).
Context (AssumedValidBlock : Z) (MinimumChainWork : list Z) (HasThreads : bool) (Complete : list CScriptCheck -> option string).
Implicit Type cs : ConnectState (B := B) (C := C).

Lemma connect_checked_total cs pindex p b hash fJustCheck undo_io :
  index_sane params (cs_man cs) -> m_block_index (cs_man cs) !! pindex = Some b -> pprev b = Some p -> nHeight b + 2 ^ 16 < 2 ^ 31 ->
  cache_ok (cs_view cs) -> cache_sound WitnessHash CacheKey VerifyScript (cs_cache cs) -> ledger_ok params (nHeight b) (cache_utxo (cs_view cs)) ->
  phashBlock b = Some hash -> connectable params TxHash (cs_man cs) pindex b (vtx (cs_block cs)) ->
  is_genesis GetHash params (cs_block cs) = false -> transactions_ok GetHash params (cs_block cs) ->
  is_Some (connect_checked params TxHash WitnessHash CacheKey VerifyScript AssumedValidBlock MinimumChainWork HasThreads Complete
    cs pindex b hash fJustCheck undo_io).
Proof.
  intros [Hidx Hbest Hpos Hex] Eb Ep Hbig Hc Hvc Hu Eh Hcn Hg Htx. pose proof Hcn as [Hh Hl Hnd Hbip Hsub].
  pose proof (wf_of_transactions_ok _ _ _ Hg Hl Htx) as Hwf. destruct (bo_coinbase _ _ _ Htx) as (cb & rest & Evtx & Ecb & Hncb).
  unfold connect_checked. cbv zeta. destruct (script_check_reason_total params AssumedValidBlock MinimumChainWork _ pindex b Hidx Hbest Hpos Eb) as [reason ->].
  cbn [mbind option_bind]. rewrite Ep. cbn [mbind option_bind]. rewrite (Hbip p hash Ep Eh). cbn [mbind option_bind].
  destruct (have_any_output_total TxHash (cs_view cs) (vtx (cs_block cs)) Hc) as [[c have] Ehave]. rewrite Ehave. cbn [mbind option_bind].
  apply have_any_output_inv in Ehave as [Hs Hvac]; [|exact Hc|exact Hl]. pose proof Hs as (Hc1 & Hu1 & _).
  destruct (GetBlockScriptFlags_sane params b hash Hex Eh) as (flags & -> & Hfl). cbn [mbind option_bind].
  match goal with |- context [connect_transactions ?a1 ?a2 ?a3 ?a4 ?a5 ?a6 ?a7 ?a8 ?a9 ?a10 ?a11 ?a12 ?a13 ?a14 ?a15] =>
    destruct (connect_transactions_total a1 a2 a3 a4 a5 a6 Hidx a7 p a8 a9 a10 a11 a12 Eb Ep Hbig Hfl a13 a14 a15 []) as [st Est] end; try assumption.
  - split; [exact Hc1|exact Hvc|cbn; unfold MAX_MONEY, COIN; lia].
  - cbn [lp_view]. rewrite Hu1. exact Hu.
  - lia.
  - cbn [lp_view lp_state]. rewrite Hu1. destruct have; [discriminate|]. intros _. specialize (Hvac eq_refl). split; [apply once_start, Hvac|].
    rewrite Evtx in Hvac |- *. apply Forall_cons in Hvac as [Hv _]. repeat constructor; [exact Hv|apply not_elem_of_nil].
  - rewrite Evtx. exact Hncb.
  - rewrite Est, Evtx. cbn [mbind option_bind lookup list_lookup].
    rewrite Evtx in Hwf. apply Forall_cons in Hwf as [[_ [min Hw]] _]. rewrite (proj2 (GetValueOut_spec cb (total (vout cb)))).
    2: { split; [apply Hw|]. split; [apply Hw|reflexivity]. }
    cbn [mbind option_bind]. match goal with |- is_Some (match ?s with _ => _ end) => destruct s as [|r reason'] end; [|eauto].
    destruct fJustCheck; [eauto|]. destruct (WriteBlockUndo _ _ _ _ _ _) as [undos [[s1 b1]|]]; [|eauto].
    unfold IsValid. change (negb (Z.land BLOCK_VALID_SCRIPTS (Z.lnot BLOCK_VALID_MASK) =? 0)) with false. cbv iota.
    unfold RaiseValidity. change (negb (Z.land BLOCK_VALID_SCRIPTS (Z.lnot BLOCK_VALID_MASK) =? 0)) with false. cbv iota.
    repeat (case_match; cbn [mbind option_bind negb]; eauto).
Qed.

(** What [ConnectBlock] asserts of its arguments: the entry is that of the
    block, and the view is at its parent. *)
Record connect_args cs (pindex p : Z) (b : CBlockIndex) : Prop := {
  ca_entry : m_block_index (cs_man cs) !! pindex = Some b;
  ca_hash : phashBlock b = Some (GetHash (header (cs_block cs)));
  ca_prev : pprev b = Some p;
  ca_best : cache_best (cs_view cs) = p;
  ca_height : nHeight b + 2 ^ 16 < 2 ^ 31;
  ca_not_genesis : GetHash (header (cs_block cs)) <> hashGenesisBlock params
}.

Lemma ConnectBlock_total cs pindex p b fJustCheck undo_io :
  connect_ok EnableFuzzDeterminism GetHash PoWHash params TxHash WitnessHash Hash2 CacheKey VerifyScript cs ->
  index_sane params (cs_man cs) -> connect_args cs pindex p b -> connectable params TxHash (cs_man cs) pindex b (vtx (cs_block cs)) ->
  ledger_ok params (nHeight b) (cache_utxo (cs_view cs)) ->
  is_Some (ConnectBlock EnableFuzzDeterminism GetHash PoWHash params TxHash WitnessHash Hash2 CacheKey VerifyScript
    AssumedValidBlock MinimumChainWork HasThreads Complete cs pindex fJustCheck undo_io).
Proof.
  intros [Hc Hvc Hf] Hi [Eb Eh Ep Hbest Hbig Hgen] Hcn Hu. unfold ConnectBlock. cbv zeta. rewrite Eb. cbn [mbind option_bind]. rewrite Eh. cbn [mbind option_bind].
  rewrite Z.eqb_refl. cbn [negb].
  assert (Hsz : Forall (fun tx => size (vout tx) < 2 ^ 64) (vtx (cs_block cs))).
  { eapply Forall_impl; [apply (cn_sizes _ _ _ _ _ _ Hcn)|]. cbn. intros; lia. }
  destruct (CheckBlock_spec EnableFuzzDeterminism GetHash PoWHash params TxHash Hash2 (cs_block cs) (negb fJustCheck) (negb fJustCheck) Hsz Hf)
    as (b1 & v & -> & Hsb & _ & Hv). cbn [mbind option_bind]. destruct v as [|r reason]; [|destruct r; eauto].
  destruct (proj1 Hv eq_refl) as (_ & _ & Htx). rewrite Ep. cbn [cs_man cs_view cs_cache cs_undos].
  pose proof (is_index _ _ Hi) as Hm. destruct (eo_link _ _ _ (Hm pindex b Eb) p Ep) as (pb & Epb & _). rewrite Epb. cbn [mbind option_bind].
  rewrite (eo_hash _ _ _ (Hm p pb Epb)). cbn [mbind option_bind]. destruct (cache_GetBestBlock_spec (cs_view cs) Hc) as (c1 & -> & Hc1 & Hu1 & _).
  rewrite Hbest, Z.eqb_refl. cbn [negb]. rewrite (proj2 (Z.eqb_neq _ _) Hgen). pose proof Hsb as [Ehd Evtx].
  apply connect_checked_total with (p := p); cbn [cs_man cs_view cs_cache cs_undos cs_block]; try assumption.
  - rewrite Hu1. exact Hu.
  - rewrite Evtx. exact Hcn.
  - unfold is_genesis. rewrite Ehd. apply Z.eqb_neq, Hgen.
  - apply (same_block_ok EnableFuzzDeterminism GetHash PoWHash params TxHash Hash2 (cs_block cs) b1 Hsb), Htx.
Qed.

(** The queue answers as [CheckQueue.v] shows it does. *)
Context (Hqueue : forall l, completes (run_check VerifyScript) l (Complete l)).
Abbreviation connectBlock := (ConnectBlock EnableFuzzDeterminism GetHash PoWHash params TxHash WitnessHash Hash2 CacheKey VerifyScript
  AssumedValidBlock MinimumChainWork HasThreads Complete).
Abbreviation holds_scripts := (scripts_hold params WitnessHash CacheKey VerifyScript AssumedValidBlock MinimumChainWork).
Abbreviation connect_ok := (connect_ok EnableFuzzDeterminism GetHash PoWHash params TxHash WitnessHash Hash2 CacheKey VerifyScript).

(** Together with what [Connect.v] shows of the result. *)
Lemma ConnectBlock_spec cs pindex p b undo_io :
  connect_ok cs -> index_sane params (cs_man cs) -> connect_args cs pindex p b ->
  connectable params TxHash (cs_man cs) pindex b (vtx (cs_block cs)) -> ledger_ok params (nHeight b) (cache_utxo (cs_view cs)) ->
  exists cs' o, connectBlock cs pindex false undo_io = Some (cs', o) /\ connect_ok cs' /\ same_block (cs_block cs) (cs_block cs') /\
    same_base (cs_view cs) (cs_view cs') /\
    match o with
    | Connected =>
        pow_ok EnableFuzzDeterminism GetHash PoWHash params (cs_block cs) /\ merkle_ok TxHash Hash2 (cs_block cs) /\
        wf_txs params (vtx (cs_block cs)) /\ transactions_ok GetHash params (cs_block cs) /\
        hashBlock (cs_view cs') = GetHash (header (cs_block cs)) /\ ledger_ok params (nHeight b) (cache_utxo (cs_view cs')) /\
        (exists undo, block_connects params TxHash (m_block_index (cs_man cs)) pindex b (holds_scripts (cs_man cs) pindex b)
           (cache_utxo (cs_view cs)) (vtx (cs_block cs)) undo (cache_utxo (cs_view cs')) /\
           cs_undos cs' = (if has_undo b then cs_undos cs else <[pindex := undo]> (cs_undos cs))) /\
        exists b', m_block_index (cs_man cs') = <[pindex := b']> (m_block_index (cs_man cs)) /\
          m_best_header (cs_man cs') = m_best_header (cs_man cs) /\ same_links b b' /\ has_undo b' = true
    | Rejected _ _ => cs_man cs' = cs_man cs /\ cs_undos cs' = cs_undos cs
    | Failed => cs_man cs' = cs_man cs /\ cs_undos cs' = cs_undos cs /\
        (undo_io = None \/ corrupt EnableFuzzDeterminism GetHash PoWHash params TxHash Hash2 (cs_block cs))
    end.
Proof using All.
  intros Hk Hi Ha Hcn Hu. destruct (ConnectBlock_total cs pindex p b false undo_io Hk Hi Ha Hcn Hu) as [[cs' o] E]. exists cs', o. split; [exact E|].
  pose proof (ca_not_genesis _ _ _ _ Ha) as Hg. pose proof (is_index _ _ Hi) as Hm. pose proof (ca_entry _ _ _ _ Ha) as Eb.
  apply (ConnectBlock_inv _ _ _ _ _ _ _ _ _ _ _ _ _ Hqueue cs pindex b) in E as (G1 & G2 & G3 & G4 & G5 & G6); try assumption.
  2: { apply skipped_assumed_valid; assumption. }
  split; [exact G1|]. split; [exact G2|]. split; [exact G3|]. destruct o; [|apply G5; discriminate|].
  2: { destruct (G5 ltac:(discriminate)). auto. }
  destruct (G4 eq_refl) as (H1 & H2 & undo & H3 & H4 & H5). destruct (H1 eq_refl) as [K1 K2]. destruct (H5 eq_refl) as (K3 & K4 & K5).
  split; [exact K1|]. split; [exact K2|]. split.
  { apply (wf_of_transactions_ok params GetHash); [apply Z.eqb_neq, Hg|apply Hcn|exact H2]. }
  split; [exact H2|]. split; [exact K3|]. split; [exact H4|]. split; [eauto|exact K5].
Qed.

(** Only the height of the entry matters. *)
Lemma block_connects_height m (b b' : CBlockIndex) scripts u txs undo u' pindex :
  nHeight b' = nHeight b -> block_connects params TxHash m pindex b scripts u txs undo u' -> block_connects params TxHash m pindex b' scripts u txs undo u'.
Proof using Type.
  intros E [(cb & rest & fees & -> & H1 & H2 & H3 & H4)]. split. exists cb, rest, fees. split; [reflexivity|]. split; [exact H1|]. split; [exact H2|].
  unfold DeploymentActiveAt. rewrite E. split; [|exact H4]. clear H4. fold (DeploymentActiveAt b params DEPLOYMENT_CSV).
  induction H3 as [u0|u0 tx txs coins undo0 fee fees0 u1 T1 [] T3 _ IH]; econstructor; try assumption.
  - split; rewrite ?E; assumption.
  - rewrite E. exact IH.
Qed.

(** C4: [ConnectBlock] answers, for a block whose entry is in a well-formed
    index and whose parent is where the view is, and leaves what lies under its
    view as it was.  If it accepts the block, the proof of work and the Merkle
    root are right, the transactions are well formed and apply one after the
    other to the ledger (the inputs are there, mature, worth at least the
    outputs and the levy, unlocked, and their scripts were run with the flags
    of the block and hold, unless the block is assumed to be valid: it is
    buried two weeks deep under a block the operator declared valid and under
    the best header), the coinbase pays at most the fees and the subsidy, and
    the value of all the unspent outputs grows by at most the subsidy.  If it
    rejects the block, the block index and the undo data are as they were; it
    fails only when the undo data cannot be written or the block was altered
    after it was accepted.  What is assumed of the block ([ordinary]): the
    height and the subsidy are in range, no transaction has more than 2^32
    outputs, two transactions of one id spend the same coins (such a block is
    handled, and the second one rejected), and no hash is one of the
    exceptions of BIP 30 and BIP 34. *)
Theorem ConnectBlock_correct cs pindex p b undo_io :
  connect_ok cs -> index_sane params (cs_man cs) -> connect_args cs pindex p b ->
  ordinary params TxHash (cs_man cs) pindex b (vtx (cs_block cs)) -> ledger_ok params (nHeight b) (cache_utxo (cs_view cs)) ->
  exists cs' o, connectBlock cs pindex false undo_io = Some (cs', o) /\
    same_base (cs_view cs) (cs_view cs') /\
    match o with
    | Connected =>
        pow_ok EnableFuzzDeterminism GetHash PoWHash params (cs_block cs) /\ merkle_ok TxHash Hash2 (cs_block cs) /\
        transactions_ok GetHash params (cs_block cs) /\
        (exists undo, block_connects params TxHash (m_block_index (cs_man cs)) pindex b (holds_scripts (cs_man cs) pindex b)
           (cache_utxo (cs_view cs)) (vtx (cs_block cs)) undo (cache_utxo (cs_view cs'))) /\
        ledger_ok params (nHeight b) (cache_utxo (cs_view cs')) /\
        value (cache_utxo (cs_view cs')) <= value (cache_utxo (cs_view cs)) + GetBlockSubsidy (nHeight b) params /\
        cache_best (cs_view cs') = (if GetHash (header (cs_block cs)) =? 0 then best (base (cs_view cs')) else GetHash (header (cs_block cs)))
    | Rejected _ _ => cs_man cs' = cs_man cs /\ cs_undos cs' = cs_undos cs
    | Failed => cs_man cs' = cs_man cs /\ cs_undos cs' = cs_undos cs /\
        (undo_io = None \/ corrupt EnableFuzzDeterminism GetHash PoWHash params TxHash Hash2 (cs_block cs))
    end.
Proof using All.
  intros Hk Hi Ha Hor Hu. pose proof (ordinary_connectable _ _ _ _ _ _ (is_index _ _ Hi) (ca_entry _ _ _ _ Ha) Hor) as Hcn. destruct (ConnectBlock_spec cs pindex p b undo_io Hk Hi Ha Hcn Hu) as (cs' & o & E & _ & _ & Hb & H).
  exists cs', o. split; [exact E|]. split; [exact Hb|]. destruct o; [|exact H|exact H].
  destruct H as (H1 & H2 & Hwf & H3 & H4 & H5 & (undo & H6 & _) & _). split; [exact H1|]. split; [exact H2|]. split; [exact H3|]. split; [eauto|].
  split; [exact H5|]. split; [|unfold cache_best; rewrite H4; reflexivity]. eapply value_block; eassumption.
Qed.

(** C14: A block that was connected can be disconnected: with the undo data
    that connecting it wrote, [DisconnectBlock] reports no inconsistency, and
    gives back the ledger and the best block from before. *)
Theorem connect_disconnect cs pindex p b undo_io cs' :
  connect_ok cs -> index_sane params (cs_man cs) -> connect_args cs pindex p b ->
  connectable params TxHash (cs_man cs) pindex b (vtx (cs_block cs)) -> ledger_ok params (nHeight b) (cache_utxo (cs_view cs)) ->
  has_undo b = false -> connectBlock cs pindex false undo_io = Some (cs', Connected) ->
  exists b' c', m_block_index (cs_man cs') !! pindex = Some b' /\
    DisconnectBlock TxHash (m_block_index (cs_man cs')) (ReadBlockUndo true (cs_undos cs') pindex b') (cs_block cs') pindex (cs_view cs')
      = Some (c', DISCONNECT_OK) /\
    cache_utxo c' = cache_utxo (cs_view cs) /\ hashBlock c' = p /\ same_base (cs_view cs) c'.
Proof using All.
  intros Hk Hi Ha Hcn Hu Hno Econ. destruct (ConnectBlock_spec cs pindex p b undo_io Hk Hi Ha Hcn Hu) as (cs1 & o & E & Hk' & Hsb & Hb & H).
  rewrite Econ in E. injection E as <- <-. destruct H as (_ & _ & Hwf & _ & _ & _ & (undo & Hbc & Hundo) & b' & Em & _ & Hl & Hb').
  rewrite Hno in Hundo. exists b'. destruct Hl as (L1 & L2 & _ & L4 & _). pose proof Hsb as [_ Evtx].
  assert (Ebi : m_block_index (cs_man cs') !! pindex = Some b') by (rewrite Em; apply lookup_insert_eq).
  assert (Eru : ReadBlockUndo true (cs_undos cs') pindex b' = Some undo).
  { unfold ReadBlockUndo. change (negb _) with (has_undo b'). rewrite Hb', Hundo. apply lookup_insert_eq. }
  pose proof (is_index _ _ Hi) as Hm. destruct (eo_link _ _ _ (Hm pindex b (ca_entry _ _ _ _ Ha)) p (ca_prev _ _ _ _ Ha)) as (pb & Epb & Hhp & _).
  assert (Epb' : m_block_index (cs_man cs') !! p = Some pb).
  { rewrite Em, lookup_insert_ne; [exact Epb|]. intros <-. rewrite (ca_entry _ _ _ _ Ha) in Epb. injection Epb as <-. lia. }
  destruct (DisconnectBlock_spec params TxHash (m_block_index (cs_man cs)) (m_block_index (cs_man cs')) pindex b' (GetHash (header (cs_block cs))) p pb p
    (holds_scripts (cs_man cs) pindex b) (cache_utxo (cs_view cs)) (cs_block cs') undo (cache_utxo (cs_view cs')) (cs_view cs')) as (c' & Ed & Hc' & Hbase & Hu' & Hh').
  - rewrite L4. apply Hcn.
  - rewrite Evtx. exact Hwf.
  - rewrite L4. exact Hu.
  - rewrite Evtx. eapply block_connects_height; [exact L4|exact Hbc].
  - exact Ebi.
  - rewrite L1. apply Ha.
  - rewrite L2. apply Ha.
  - exact Epb'.
  - apply (eo_hash _ _ _ (Hm p pb Epb)).
  - apply Hk'.
  - reflexivity.
  - exists c'. split; [exact Ebi|]. rewrite Eru. split; [exact Ed|]. split; [exact Hu'|]. split; [exact Hh'|]. eapply same_base_trans; eassumption.
Qed.
End TotalBlock.

(** ** A block on the chain of [BlockIndex.v]

    The tenth block of the chain, on a database with one coin: a coinbase and
    a payment.  Hashes are small functions, every script is accepted. *)
Module Demo.
Import CuckooCache.
Definition PoWHash (h : CBlockHeader) (p : Params) : Z := 7.
Definition TxHash (tx : CTransaction) : Z := 100 * size (vin tx) + 10 * size (vout tx) + nLockTime tx.
Definition Hash2 (a b : Z) : Z := 0.
Definition VerifyScript (sig pub : CScript) (wit : list (list Z)) (flags : Z) (tx : CTransaction) (n : nat) (amount : Z) (outs : list CTxOut) : option string := None.
Definition Complete (l : list CScriptCheck) : option string := None.
Lemma Complete_law l : completes (run_check VerifyScript) l (Complete l).
Proof. cbn. apply Forall_forall. intros ck _. unfold run_check. destruct (_ !! _); reflexivity. Qed.
#[global] Instance demo_cache : ElementCache cache := cuckoo_cache toy_hashes.
#[global] Instance demo_cache_laws : ElementCacheLaws cache := cuckoo_laws toy_hashes toy_hashes_u32.

Definition old_coin : Coin := mkCoin (mkTxOut 100000 sample_v3) false 1.
Definition db : CCoinsViewDB := mkDB {[mkOutPoint 5 0 := old_coin]} (Some 1008) None.
Definition coinbase (n : Z) : CTransaction := mkTransaction [mkTxIn (mkOutPoint 0 4294967295) [OP_1 + n - 1; 7] 4294967295 []] [mkTxOut 1000000 sample_v3] 2 n.
Definition payment : CTransaction := mkTransaction [mkTxIn (mkOutPoint 5 0) [] 4294967295 []] [mkTxOut 40000 sample_v3; mkTxOut 50000 sample_v3] 2 0.
Definition block9 : CBlock := mkBlock (toy_header 1008 9) [coinbase 9; payment] false false false.
Definition start : ConnectState := mkConnect block9 (new_cache db false) (setup Z.log2 4) toy_manager ∅.
Definition entry9 : CBlockIndex := default (CBlockIndex_of (toy_header 0 0)) (m_block_index toy_manager !! 1009).
Abbreviation connect cs := (ConnectBlock false toy_hash PoWHash CMainParams TxHash TxHash Hash2 Z.add VerifyScript 0 zero false Complete cs 1009 false (Some 8)).
Abbreviation demo_ok := (connect_ok false toy_hash PoWHash CMainParams TxHash TxHash Hash2 Z.add VerifyScript).

Lemma db_is_ok : view_ok db.
Proof. split; [apply map_Forall_singleton; reflexivity|reflexivity]. Qed.
Lemma start_utxo : cache_utxo (cs_view start) = {[mkOutPoint 5 0 := old_coin]}.
Proof. apply (new_cache_ok db false db_is_ok). Qed.
Lemma start_ok : demo_ok start.
Proof.
  destruct (new_cache_ok db false db_is_ok) as [Hc _]. split; [exact Hc| |split; discriminate].
  destruct (setup_ok toy_hashes Z.log2 4 ltac:(lia)) as [H1 H2]. split; [exact H1|]. intros k Hk. left. apply H2, Hk.
Qed.
Lemma toy_sane : index_sane CMainParams toy_manager.
Proof.
  pose proof (reachable_ok toy_hash _ toy_reachable) as Hm.
  split; [apply Hm|exists 1009; eexists; split; vm_compute; reflexivity| |apply map_Forall_empty].
  change (map_Forall (fun _ b => 0 < bits_work (nBits b)) (m_block_index toy_manager)). apply (bool_decide_unpack _). vm_compute. exact I.
Qed.
Lemma entry9_eq : m_block_index toy_manager !! 1009 = Some entry9.
Proof. unfold entry9. destruct (m_block_index toy_manager !! 1009) eqn:E; [reflexivity|]. vm_compute in E. discriminate. Qed.
Lemma entry9_args : phashBlock entry9 = Some 1009 /\ pprev entry9 = Some 1008 /\ nHeight entry9 = 9 /\ has_undo entry9 = false.
Proof. vm_compute. auto. Qed.
Lemma start_args : connect_args toy_hash CMainParams start 1009 1008 entry9.
Proof.
  destruct entry9_args as (H1 & H2 & H3 & _). split; [exact entry9_eq|exact H1|exact H2|reflexivity|rewrite H3; lia|vm_compute; discriminate].
Qed.
Lemma start_connectable : connectable CMainParams TxHash toy_manager 1009 entry9 (vtx block9).
Proof.
  destruct entry9_args as (H1 & H2 & H3 & _). split; [rewrite H3; lia| | | |rewrite H3; vm_compute; split; discriminate].
  - repeat constructor; discriminate.
  - apply ids_bind_NoDup, (bool_decide_unpack _). vm_compute. exact I.
  - rewrite H1, H2. intros p hash [= <-] [= <-]. vm_compute. reflexivity.
Qed.
Lemma start_ordinary : ordinary CMainParams TxHash toy_manager 1009 entry9 (vtx block9).
Proof.
  destruct start_connectable as [H1 H2 H3 _ H5]. split; try assumption; [|split; discriminate].
  change (map_Forall (fun h (_ : CBlockIndex) => h <> BIP34Hash CMainParams) (m_block_index toy_manager)). apply (bool_decide_unpack _). vm_compute. exact I.
Qed.
Lemma start_ledger : ledger_ok CMainParams (nHeight entry9) (cache_utxo (cs_view start)).
Proof.
  destruct entry9_args as (_ & _ & -> & _). rewrite start_utxo. refine (proj2 (map_Forall_singleton _ _ _) _).
  split; [vm_compute; split; discriminate|cbn; lia|reflexivity|reflexivity].
Qed.
Lemma connect_start : exists cs', connect start = Some (cs', Connected).
Proof.
  destruct (connect start) as [[cs' o]|] eqn:E; [|vm_compute in E; discriminate]. exists cs'. do 2 f_equal.
  assert (H : (x ← connect start; Some x.2) = Some Connected) by (vm_compute; reflexivity). rewrite E in H. cbn in H. congruence.
Qed.
End Demo.

Lemma ConnectBlock_correct_witness :
  exists cs', ConnectBlock false toy_hash Demo.PoWHash CMainParams Demo.TxHash Demo.TxHash Demo.Hash2 Z.add Demo.VerifyScript 0 zero false
                Demo.Complete Demo.start 1009 false (Some 8) = Some (cs', Connected) /\
    value (cache_utxo (cs_view cs')) <= value (cache_utxo (cs_view Demo.start)) + GetBlockSubsidy 9 CMainParams.
Proof.
  destruct (ConnectBlock_correct false toy_hash Demo.PoWHash CMainParams Demo.TxHash Demo.TxHash Demo.Hash2 Z.add Demo.VerifyScript 0 zero false
    Demo.Complete Demo.Complete_law Demo.start 1009 1008 Demo.entry9 (Some 8) Demo.start_ok Demo.toy_sane Demo.start_args Demo.start_ordinary Demo.start_ledger)
    as (cs' & o & E & _ & H).
  destruct Demo.connect_start as [cs1 E1]. rewrite E1 in E. injection E as <- <-. exists cs1. split; [exact E1|].
  destruct H as (_ & _ & _ & _ & _ & Hv & _). exact Hv.
Defined.
Lemma connect_disconnect_witness :
  exists cs' b' c', ConnectBlock false toy_hash Demo.PoWHash CMainParams Demo.TxHash Demo.TxHash Demo.Hash2 Z.add Demo.VerifyScript 0 zero false
                Demo.Complete Demo.start 1009 false (Some 8) = Some (cs', Connected) /\
    DisconnectBlock Demo.TxHash (m_block_index (cs_man cs')) (ReadBlockUndo true (cs_undos cs') 1009 b') (cs_block cs') 1009 (cs_view cs')
      = Some (c', DISCONNECT_OK) /\ cache_utxo c' = {[mkOutPoint 5 0 := Demo.old_coin]}.
Proof.
  destruct Demo.connect_start as [cs' E]. exists cs'.
  destruct (connect_disconnect false toy_hash Demo.PoWHash CMainParams Demo.TxHash Demo.TxHash Demo.Hash2 Z.add Demo.VerifyScript 0 zero false
    Demo.Complete Demo.Complete_law Demo.start 1009 1008 Demo.entry9 (Some 8) cs' Demo.start_ok Demo.toy_sane Demo.start_args Demo.start_connectable
    Demo.start_ledger (proj2 (proj2 (proj2 Demo.entry9_args))) E) as (b' & c' & _ & Ed & Hu & _).
  exists b', c'. split; [exact E|]. split; [exact Ed|]. rewrite Hu. exact Demo.start_utxo.
Defined.
