(* ===== verification/Chainstate.v ===== *)
(** * The chain state: connecting and disconnecting the tip ([src/src/validation.cpp])

    [Chainstate::ConnectTip] and [DisconnectTip] with what they do on failure
    ([InvalidBlockFound], [InvalidChainFound], [SetBlockFailureFlags],
    [RecalculateBestHeader]).  A block is applied to a view over the coins of
    the tip, which is flushed when it succeeds and dropped when it does not.
    The memory pool, the candidate set, prune locks and notifications are left
    out; [FlushStateToDisk] is a parameter: it may move the coins of the tip
    to the database, or fail.

    The theorems are about every state that such calls reach from the genesis
    block: the unspent outputs never hold more than the emission schedule has
    issued, and the tip can always be disconnected again. *)

From Stdlib Require Import String.
From stdpp Require Import gmap.
From S2P Require Import Prelude ConsensusParams Emission Levy ArithUint256 BlockIndex ActiveChain Pow Headers Serialize Script Transaction Coins TxCheck Merkle Block CuckooCache CheckQueue Ledger LedgerCoins Connect ConnectTotal.

Local Open Scope Z_scope.

Section Chain.
Context {B : Type} `{!CCoinsView B} {C : Type} `{!ElementCache C}.
Context (EnableFuzzDeterminism : bool) (GetHash : CBlockHeader -> Z) (PoWHash : CBlockHeader -> Params -> Z) (params : Params).
Context (TxHash WitnessHash : CTransaction -> Z) (Hash2 CacheKey : Z -> Z -> Z).
Context (VerifyScript : CScript -> CScript -> list (list Z) -> Z -> CTransaction -> nat -> Z -> list CTxOut -> option string).
Context (AssumedValidBlock : Z) (MinimumChainWork : list Z) (HasThreads : bool) (Complete : list CScriptCheck -> option string).

Record Chainstate := mkChainstate {
  CoinsTip : CCoinsViewCache B;
  m_chain : list (option Z);
  m_blockman : BlockManager;
  m_undo : gmap Z CBlockUndo;
  m_validation_cache : C;
  m_best_invalid : option Z
}.

(** ** Failure *)

(** The descendants of a block; [GetAncestor] does not fail on an index that
    is well formed. *)
Definition is_descendant (m : BlockMap) (invalid_block h : Z) : bool :=
  match m !! invalid_block with
  | Some ib => negb (h =? invalid_block) && bool_decide (GetAncestor m h (nHeight ib) = Some (Some invalid_block))
  | None => false
  end.
Definition set_failed (b : CBlockIndex) : CBlockIndex := set_status b (Z.lor (nStatus b) BLOCK_FAILED_VALID).
Definition SetBlockFailureFlags (s : BlockManager) (invalid_block : Z) : BlockManager :=
  let m := m_block_index s in
  mkBlockManager (map_imap (fun h b => Some (if is_descendant m invalid_block h then set_failed b else b)) m)
    (m_dirty_blockindex s ∪ filter (fun h => is_descendant m invalid_block h = true) (dom m)) (m_best_header s).
(** The entries are visited in the order of the map. *)
Definition RecalculateBestHeader (s : BlockManager) (tip : option Z) : BlockManager :=
  let better (best : option Z) (entry : Z * CBlockIndex) :=
    match best ≫= (fun h => m_block_index s !! h) with
    | Some e => if (Z.land (nStatus entry.2) BLOCK_FAILED_VALID =? 0) && (CompareTo (nChainWork e) (nChainWork entry.2) <? 0) then Some entry.1 else best
    | None => best
    end in
  mkBlockManager (m_block_index s) (m_dirty_blockindex s) (foldl better tip (map_to_list (m_block_index s))).
Definition InvalidChainFound (s : Chainstate) (pindexNew : Z) : option Chainstate :=
  let m := m_block_index (m_blockman s) in
  b ← m !! pindexNew;
  best_invalid ← (match m_best_invalid s with
                  | None => Some pindexNew
                  | Some bi => e ← m !! bi; Some (if gt (nChainWork b) (nChainWork e) then pindexNew else bi)
                  end);
  let man := SetBlockFailureFlags (m_blockman s) pindexNew in
  man ← (match m_best_header man with
         | Some bh =>
             a ← GetAncestor (m_block_index man) bh (nHeight b);
             Some (if bool_decide (a = Some pindexNew) then RecalculateBestHeader man (Tip (m_chain s)) else man)
         | None => Some man
         end);
  _ ← Tip (m_chain s);
  Some (mkChainstate (CoinsTip s) (m_chain s) man (m_undo s) (m_validation_cache s) (Some best_invalid)).
Definition InvalidBlockFound (s : Chainstate) (pindex : Z) (r : BlockValidationResult) : option Chainstate :=
  match r with
  | BLOCK_MUTATED => Some s
  | _ =>
      b ← m_block_index (m_blockman s) !! pindex;
      InvalidChainFound (mkChainstate (CoinsTip s) (m_chain s) (put_index (m_blockman s) pindex (set_failed b)) (m_undo s)
                           (m_validation_cache s) (m_best_invalid s)) pindex
  end.

(** ** The tip *)

(** [read] is [ReadBlock]; [flush] is [FlushStateToDisk] on the coins. *)
Definition ConnectTip (read : Z -> option CBlock) (flush : CCoinsViewCache B -> option (CCoinsViewCache B)) (undo_io : option Z)
    (s : Chainstate) (pindexNew : Z) (block_to_connect : option CBlock) : option (Chainstate * Outcome) :=
  b ← m_block_index (m_blockman s) !! pindexNew;
  if negb (bool_decide (pprev b = Tip (m_chain s))) then None
  else match (match block_to_connect with Some block => Some block | None => read pindexNew end) with
  | None => Some (s, Failed)
  | Some block =>
      '(cs, o) ← ConnectBlock EnableFuzzDeterminism GetHash PoWHash params TxHash WitnessHash Hash2 CacheKey VerifyScript
                   AssumedValidBlock MinimumChainWork HasThreads Complete
                   (mkConnect block (new_cache (CoinsTip s) true) (m_validation_cache s) (m_blockman s) (m_undo s)) pindexNew false undo_io;
      let dropped := mkChainstate (base (cs_view cs)) (m_chain s) (cs_man cs) (cs_undos cs) (cs_cache cs) (m_best_invalid s) in
      match o with
      | Rejected r reason => s ← InvalidBlockFound dropped pindexNew r; Some (s, Rejected r reason)
      | Failed => Some (dropped, Failed)
      | Connected =>
          view ← Flush (cs_view cs);
          let flushed := mkChainstate (base view) (m_chain s) (cs_man cs) (cs_undos cs) (cs_cache cs) (m_best_invalid s) in
          match flush (base view) with
          | None => Some (flushed, Failed)
          | Some tip =>
              chain ← SetTip (m_block_index (cs_man cs)) (m_chain s) pindexNew;
              Some (mkChainstate tip chain (cs_man cs) (cs_undos cs) (cs_cache cs) (m_best_invalid s), Connected)
          end
      end
  end.

(** [read_ok]: the undo file can be read.  The result is what [DisconnectTip] returns. *)
Definition DisconnectTip (read : Z -> option CBlock) (flush : CCoinsViewCache B -> option (CCoinsViewCache B)) (read_ok : bool)
    (s : Chainstate) : option (Chainstate * bool) :=
  let m := m_block_index (m_blockman s) in
  pindexDelete ← Tip (m_chain s);
  b ← m !! pindexDelete;
  p ← pprev b;
  match read pindexDelete with
  | None => Some (s, false)
  | Some block =>
      hash ← phashBlock b;
      let '(view, best) := cache_GetBestBlock (new_cache (CoinsTip s) false) in
      if negb (best =? hash) then None
      else
        '(view, res) ← DisconnectBlock TxHash m (ReadBlockUndo read_ok (m_undo s) pindexDelete b) block pindexDelete view;
        match res with
        | DISCONNECT_OK =>
            view ← Flush view;
            match flush (base view) with
            | None => Some (mkChainstate (base view) (m_chain s) (m_blockman s) (m_undo s) (m_validation_cache s) (m_best_invalid s), false)
            | Some tip =>
                chain ← SetTip m (m_chain s) p;
                Some (mkChainstate tip chain (m_blockman s) (m_undo s) (m_validation_cache s) (m_best_invalid s), true)
            end
        | _ => Some (mkChainstate (base view) (m_chain s) (m_blockman s) (m_undo s) (m_validation_cache s) (m_best_invalid s), false)
        end
  end.
End Chain.
Arguments mkChainstate {B C}.
Arguments CoinsTip {B C}.
Arguments m_chain {B C}.
Arguments m_blockman {B C}.
Arguments m_undo {B C}.
Arguments m_validation_cache {B C}.
Arguments m_best_invalid {B C}.

(** ** Entries that differ in their status only *)

(** Every entry stays, with the same links; flags of undo data are not taken away. *)
Definition index_grows (m m' : BlockMap) : Prop :=
  forall h b, m !! h = Some b -> exists b', m' !! h = Some b' /\ same_links b b' /\ (has_undo b = true -> has_undo b' = true).
(** No entry is added. *)
Definition index_same (m m' : BlockMap) : Prop := index_grows m m' /\ forall h, is_Some (m' !! h) -> is_Some (m !! h).

Lemma same_links_refl b : same_links b b.
Proof. repeat split. Qed.
Lemma same_links_trans b b' b'' : same_links b b' -> same_links b' b'' -> same_links b b''.
Proof. unfold same_links. intuition congruence. Qed.
Lemma index_grows_refl m : index_grows m m.
Proof. intros h b E. exists b. split; [exact E|]. split; [apply same_links_refl|auto]. Qed.
Lemma index_grows_trans m m' m'' : index_grows m m' -> index_grows m' m'' -> index_grows m m''.
Proof.
  intros H H' h b E. destruct (H h b E) as (b1 & E1 & L1 & U1). destruct (H' h b1 E1) as (b2 & E2 & L2 & U2).
  exists b2. split; [exact E2|]. split; [eapply same_links_trans; eassumption|auto].
Qed.
Lemma index_same_refl m : index_same m m.
Proof. split; [apply index_grows_refl|auto]. Qed.
Lemma index_same_trans m m' m'' : index_same m m' -> index_same m' m'' -> index_same m m''.
Proof. intros [H1 H2] [G1 G2]. split; [eapply index_grows_trans; eassumption|auto]. Qed.
Lemma index_same_insert m h b b' :
  m !! h = Some b -> same_links b b' -> (has_undo b = true -> has_undo b' = true) -> index_same m (<[h := b']> m).
Proof.
  intros E Hl Hu. split.
  - intros k e Ek. destruct (decide (k = h)) as [->|Hne].
    + rewrite E in Ek. injection Ek as <-. exists b'. rewrite lookup_insert_eq. auto.
    + exists e. rewrite lookup_insert_ne by congruence. split; [exact Ek|]. split; [apply same_links_refl|auto].
  - intros k. destruct (decide (k = h)) as [->|Hne]; [rewrite E; eauto|]. rewrite lookup_insert_ne by congruence. auto.
Qed.
Lemma index_same_back m m' h b' : index_same m m' -> m' !! h = Some b' -> exists b, m !! h = Some b /\ same_links b b' /\ (has_undo b = true -> has_undo b' = true).
Proof.
  intros [Hg Hd] E. destruct (Hd h) as [b Eb]; [eauto|]. destruct (Hg h b Eb) as (b1 & E1 & Hl). rewrite E in E1. injection E1 as <-. eauto.
Qed.

Lemma nth_prev_grows m m' h n x : index_grows m m' -> nth_prev m h n = Some x -> nth_prev m' h n = Some x.
Proof.
  intros Hg. revert h. induction n as [|n IH]; intros h; cbn [nth_prev]; [auto|].
  destruct (m !! h) as [b|] eqn:E; [|discriminate]. cbn [mbind option_bind]. destruct (Hg h b E) as (b' & -> & (_ & Hp & _) & _). cbn [mbind option_bind].
  rewrite Hp. destruct (pprev b); [|discriminate]. cbn [mbind option_bind]. apply IH.
Qed.
Lemma index_ok_same m m' : index_ok m -> index_same m m' -> index_ok m'.
Proof.
  intros Hm Hs h b' E. destruct (index_same_back _ _ _ _ Hs E) as (b & Eb & (L1 & L2 & L3 & L4 & L5 & L6 & L7 & L8) & _).
  destruct (Hm h b Eb) as [H1 H2 H3 H4 H5 H6]. split; try congruence.
  - rewrite L2, L3, L4, L5, L6, L7, L8. exact H5.
  - intros p Ep. rewrite L2 in Ep. destruct (H6 p Ep) as (pb & Epb & G1 & G2 & G3 & G4). destruct (proj1 Hs p pb Epb) as (pb' & Epb' & (K1 & K2 & K3 & K4 & K5 & K6 & K7 & K8) & _).
    exists pb'. split; [exact Epb'|]. rewrite L3, L4, L5, L6, L7, L8, K4, K5, K8. split; [exact G1|]. split; [|auto]. rewrite G2.
    destruct (GetSkipHeight_range (nHeight b)) as [S0 S1]. pose proof (eo_height _ _ _ (Hm p pb Epb)).
    destruct (nth_prev_exists Hm p pb (Z.to_nat (nHeight pb - GetSkipHeight (nHeight b))) Epb ltac:(lia)) as (x & bx & Ex & _).
    rewrite Ex. symmetry. eapply nth_prev_grows; [apply Hs|exact Ex].
Qed.
Lemma proofs_positive_same m m' : proofs_positive m -> index_same m m' -> proofs_positive m'.
Proof.
  intros Hp Hs h b' E. destruct (index_same_back _ _ _ _ Hs E) as (b & Eb & (_ & _ & _ & _ & _ & _ & L7 & _) & _). rewrite L7. apply (Hp h b Eb).
Qed.
Lemma chain_of_grows m m' h b n : index_ok m -> index_grows m m' -> m !! h = Some b -> n = nHeight b -> chain_of m' h n = chain_of m h n.
Proof.
  intros Hm Hg E ->. pose proof (eo_height _ _ _ (Hm h b E)). apply list_eq_same_length with (length (chain_of m h (nHeight b)));
    [reflexivity|rewrite !length_chain_of; reflexivity|]. intros i x y Hi Hx Hy. rewrite length_chain_of in Hi.
  apply list_lookup_total_correct in Hx, Hy. rewrite lookup_chain_of in Hx, Hy by exact Hi.
  destruct (nth_prev_exists Hm h b (Z.to_nat (nHeight b) - i)%nat E ltac:(lia)) as (z & bz & Ez & _).
  rewrite (nth_prev_grows _ _ _ _ _ Hg Ez) in Hx. congruence.
Qed.

(** *** The failure flags *)

Lemma set_failed_links b : same_links b (set_failed b) /\ has_undo (set_failed b) = has_undo b.
Proof.
  split; [repeat split|]. rewrite !has_undo_testbit. cbn [nStatus set_failed set_status]. rewrite Z.lor_spec.
  change (Z.testbit BLOCK_FAILED_VALID 4) with false. apply orb_false_r.
Qed.
Lemma SetBlockFailureFlags_same s h : index_same (m_block_index s) (m_block_index (SetBlockFailureFlags s h)).
Proof.
  split; cbn.
  - intros k b E. rewrite map_lookup_imap, E. cbn. destruct (is_descendant _ _ _).
    + exists (set_failed b). destruct (set_failed_links b) as [H1 H2]. split; [reflexivity|]. split; [exact H1|congruence].
    + exists b. split; [reflexivity|]. split; [apply same_links_refl|auto].
  - intros k. rewrite map_lookup_imap. destruct (m_block_index s !! k); [eauto|]. intros []. discriminate.
Qed.
Lemma RecalculateBestHeader_known s tip b : m_block_index s !! tip = Some b -> best_header_known (RecalculateBestHeader s (Some tip)).
Proof.
  intros Et. unfold RecalculateBestHeader, best_header_known. cbn [m_best_header m_block_index].
  assert (Hl : forall l (best : option Z), (forall h e, (h, e) ∈ l -> m_block_index s !! h = Some e) ->
    (exists bh e, best = Some bh /\ m_block_index s !! bh = Some e) ->
    exists bh e, foldl (fun (best : option Z) (entry : Z * CBlockIndex) =>
      match best ≫= (fun h => m_block_index s !! h) with
      | Some e => if (Z.land (nStatus entry.2) BLOCK_FAILED_VALID =? 0) && (CompareTo (nChainWork e) (nChainWork entry.2) <? 0) then Some entry.1 else best
      | None => best
      end) best l = Some bh /\ m_block_index s !! bh = Some e).
  { induction l as [|[h e] l IH]; intros best Hin Hb; cbn [foldl]; [exact Hb|]. apply IH.
    - intros h' e' H. apply Hin. apply elem_of_cons. auto.
    - destruct Hb as (bh & eb & -> & Eb). cbn [mbind option_bind]. rewrite Eb. cbn [fst snd]. destruct (_ && _); [|eauto].
      exists h, e. split; [reflexivity|]. apply Hin, list_elem_of_here. }
  apply Hl; [|eauto]. intros h e H. apply elem_of_map_to_list. exact H.
Qed.

(** ** The ledger of a block *)

Section History.
Context {B : Type} `{!CCoinsView B} `{!CCoinsViewLaws B} {C : Type} `{!ElementCache C} `{!ElementCacheLaws C}.
Context (EnableFuzzDeterminism : bool) (GetHash : CBlockHeader -> Z) (PoWHash : CBlockHeader -> Params -> Z) (params : Params).
Context (TxHash WitnessHash : CTransaction -> Z) (Hash2 CacheKey : Z -> Z -> Z).
Context (VerifyScript : CScript -> CScript -> list (list Z) -> Z -> CTransaction -> nat -> Z -> list CTxOut -> option string).
Context (AssumedValidBlock : Z) (MinimumChainWork : list Z) (HasThreads : bool) (Complete : list CScriptCheck -> option string).
Context (Hqueue : forall l, completes (run_check VerifyScript) l (Complete l)).
(** The transactions of the block with a hash. *)
Context (txs_of : Z -> list CTransaction).
Implicit Type s : Chainstate (B := B) (C := C).

Abbreviation holds_scripts := (scripts_hold params WitnessHash CacheKey VerifyScript AssumedValidBlock MinimumChainWork).
Abbreviation genesis := (hashGenesisBlock params).

(** A block applied to a ledger, as it was when it was connected: [man] is the
    block manager of that time. *)
Definition applies (h n : Z) (u : ledger) (undo : CBlockUndo) (u' : ledger) : Prop :=
  wf_txs params (txs_of h) /\
  exists (man : BlockManager) b, nHeight b = n /\
    block_connects params TxHash (m_block_index man) h b (holds_scripts man h b) u (txs_of h) undo u'.
(** The ledger after a block: what its ancestors from the genesis block on,
    whose outputs are not in the ledger, make of the empty one. *)
Inductive ledger_at (m : BlockMap) (undos : gmap Z CBlockUndo) : Z -> ledger -> Prop :=
  | la_genesis : ledger_at m undos genesis ∅
  | la_block h b p u undo u' :
      m !! h = Some b -> pprev b = Some p -> has_undo b = true -> undos !! h = Some undo ->
      ledger_at m undos p u -> applies h (nHeight b) u undo u' -> ledger_at m undos h u'.

Lemma ledger_at_grows m m' undos undos' h u :
  index_grows m m' -> (forall k b undo, m !! k = Some b -> has_undo b = true -> undos !! k = Some undo -> undos' !! k = Some undo) ->
  ledger_at m undos h u -> ledger_at m' undos' h u.
Proof.
  intros Hg Hk. induction 1 as [|h b p u undo u' E1 E2 E3 E4 _ IH E5]; [constructor|].
  destruct (Hg h b E1) as (b' & Eb' & (_ & L2 & _ & L4 & _) & HU). apply (la_block _ _ h b' p u undo); auto; [congruence|eauto|rewrite L4; exact E5].
Qed.

Lemma block_connects_ledger m pindex b scripts u txs undo u' :
  1 <= nHeight b < 2 ^ 31 -> wf_txs params txs -> ledger_ok params (nHeight b) u ->
  block_connects params TxHash m pindex b scripts u txs undo u' -> ledger_ok params (nHeight b) u'.
Proof.
  intros Hh Hwf Hu [(cb & rest & fees & -> & _ & _ & Hcon & _)]. apply Forall_cons in Hwf as [[Hl [min Hw]] Hwf].
  eapply txs_connect_ledger; [exact Hh|exact Hwf| |exact Hcon]. eapply apply_tx_ok; eassumption.
Qed.
(** Every ledger is well formed and holds at most what was issued. *)
Lemma ledger_at_ok m undos h u b :
  index_ok m -> m !! genesis <> None -> (forall g, m !! genesis = Some g -> pprev g = None) -> ledger_at m undos h u -> m !! h = Some b ->
  ledger_ok params (nHeight b) u /\ value u <= cumulative_supply params (nHeight b).
Proof.
  intros Hm Hgen Hroot H. revert b. induction H as [|h b p u undo u' E1 E2 E3 E4 _ IH (Hwf & man & b0 & E5 & Hbc)]; intros b' Eb.
  { split; [intros o cn E; rewrite lookup_empty in E; discriminate|]. destruct (eo_root _ _ _ (Hm _ _ Eb) (Hroot _ Eb)) as (-> & _).
    rewrite value_empty. change (0 <= 0 + GetBlockSubsidy 0 params). reflexivity. }
  rewrite E1 in Eb. injection Eb as <-. destruct (eo_link _ _ _ (Hm h b E1) p E2) as (pb & Epb & Hh & _).
  pose proof (eo_height _ _ _ (Hm h b E1)). pose proof (eo_height _ _ _ (Hm p pb Epb)). destruct (IH pb Epb) as [Hu Hv]. split.
  - rewrite <- E5. eapply block_connects_ledger; [| | |exact Hbc]; [lia|exact Hwf|]. eapply ledger_ok_mono; [|exact Hu]. lia.
  - rewrite cumulative_supply_succ by lia. replace (nHeight b - 1) with (nHeight pb) by lia. rewrite <- E5. pose proof (value_block _ _ _ _ _ _ _ _ _ _ Hwf Hbc). lia.
Qed.

(** The ledger is determined by the block. *)
Lemma txs_connect_det m m' pindex pindex' b b' lf lf' S S' u txs undo fees u1 undo' fees' u2 :
  nHeight b = nHeight b' -> txs_connect params TxHash m pindex b lf S u txs undo fees u1 ->
  txs_connect params TxHash m' pindex' b' lf' S' u txs undo' fees' u2 -> undo = undo' /\ u1 = u2.
Proof.
  intros Hh H. revert undo' fees' u2. induction H as [u|u tx txs coins undo fee fees u1 Hcb Htx Hv _ IH]; intros undo' fees' u2 H'.
  { inversion H'; subst; auto. }
  inversion H' as [|? ? ? coins' undo1 fee' fees1 ? _ Htx' _ H1]; subst. rewrite <- Hh in H1. destruct (IH _ _ _ H1) as [-> ->].
  pose proof (tc_inputs _ _ _ _ _ _ _ _ _ _ Htx) as I1. pose proof (tc_inputs _ _ _ _ _ _ _ _ _ _ Htx') as I2. split; congruence.
Qed.
Lemma applies_det h n u undo u1 undo' u2 : applies h n u undo u1 -> applies h n u undo' u2 -> undo = undo' /\ u1 = u2.
Proof.
  intros (_ & man & b & E & [(cb & rest & fees & E1 & _ & _ & H1 & _)]) (_ & man' & b' & E' & [(cb' & rest' & fees' & E2 & _ & _ & H2 & _)]).
  rewrite E1 in E2. injection E2 as <- <-. rewrite E' in H2. rewrite E in H1. eapply txs_connect_det; [|exact H1|exact H2]. congruence.
Qed.
Lemma ledger_at_det m m' undos undos' h u u' :
  (forall k b b', m !! k = Some b -> m' !! k = Some b' -> pprev b = pprev b' /\ nHeight b = nHeight b') ->
  (forall g, m !! genesis = Some g -> pprev g = None) -> (forall g, m' !! genesis = Some g -> pprev g = None) ->
  ledger_at m undos h u -> ledger_at m' undos' h u' -> u = u'.
Proof.
  intros Hsame Hg Hg' H. revert u'. induction H as [|h b p u undo u1 E1 E2 E3 E4 _ IH E5]; intros u2 H2.
  { inversion H2 as [|? b ? ? ? ? E1 E2]; subst; [reflexivity|]. rewrite (Hg' _ E1) in E2. discriminate. }
  inversion H2 as [|? b' p' u' undo' ? F1 F2 F3 F4 F5 F6]; subst.
  { rewrite (Hg _ E1) in E2. discriminate. }
  destruct (Hsame h b b' E1 F1) as [Ep En]. rewrite Ep, F2 in E2. injection E2 as ->. rewrite (IH u' F5), En in E5. apply (applies_det _ _ _ _ _ _ _ E5 F6).
Qed.

(** ** The invariant *)

(** The hashes for which old versions of the rules made exceptions do not
    occur; 0 stands for no hash. *)
Definition hash_ok (h : Z) : Prop :=
  h <> 0 /\ h <> BIP34Hash params /\ h <> 0x00000000000a4d0a398161ffc163c503763b1f4360639393e0e4c8e300e0caec /\
  h <> 0x00000000000743f190a18c5577a3c2d2a1f610ae9601ac046a38084ccb7cd721.
Definition entries_ok (m : BlockMap) : Prop := forall h b, m !! h = Some b -> nHeight b + 2 ^ 16 < 2 ^ 31 /\ hash_ok h.

Record tip_ok s (tip : Z) (b : CBlockIndex) : Prop := {
  to_entry : m_block_index (m_blockman s) !! tip = Some b;
  to_chain : m_chain s = chain_of (m_block_index (m_blockman s)) tip (nHeight b);
  to_best : cache_best (CoinsTip s) = tip;
  to_ledger : ledger_at (m_block_index (m_blockman s)) (m_undo s) tip (cache_utxo (CoinsTip s))
}.
Record chainstate_ok s : Prop := {
  ci_view : cache_ok (CoinsTip s);
  ci_cache : cache_sound WitnessHash CacheKey VerifyScript (m_validation_cache s);
  ci_index : index_sane params (m_blockman s);
  ci_entries : entries_ok (m_block_index (m_blockman s));
  ci_genesis : exists g, m_block_index (m_blockman s) !! genesis = Some g /\ pprev g = None;
  ci_best_invalid : forall h, m_best_invalid s = Some h -> is_Some (m_block_index (m_blockman s) !! h);
  ci_undo : forall h b, m_block_index (m_blockman s) !! h = Some b -> has_undo b = true -> exists u, ledger_at (m_block_index (m_blockman s)) (m_undo s) h u;
  ci_tip : exists tip b, tip_ok s tip b
}.

Lemma Tip_chain_of m h b : index_ok m -> m !! h = Some b -> Tip (chain_of m h (nHeight b)) = Some h.
Proof.
  intros Hm E. pose proof (eo_height _ _ _ (Hm h b E)). unfold Tip. rewrite length_chain_of. destruct (Nat.ltb_spec 0 (Z.to_nat (nHeight b + 1))); [|lia].
  rewrite lookup_chain_of by lia. replace (Z.to_nat (nHeight b) - _)%nat with 0%nat by lia. reflexivity.
Qed.
Lemma tip_Tip s tip b : chainstate_ok s -> tip_ok s tip b -> Tip (m_chain s) = Some tip.
Proof. intros Hs [E1 E2 _ _]. rewrite E2. apply Tip_chain_of; [apply Hs|exact E1]. Qed.
Lemma tip_ledger_ok s tip b : chainstate_ok s -> tip_ok s tip b ->
  ledger_ok params (nHeight b) (cache_utxo (CoinsTip s)) /\ value (cache_utxo (CoinsTip s)) <= cumulative_supply params (nHeight b).
Proof.
  intros Hs [E1 _ _ E4]. destruct (ci_genesis _ Hs) as (g & Eg & Hg). eapply ledger_at_ok; [apply Hs| | |exact E4|exact E1]; [congruence|].
  intros g' E. congruence.
Qed.

(** Changes of the index that add nothing keep the invariant. *)
Lemma chainstate_ok_index s view man vc bi :
  chainstate_ok s -> cache_ok view -> cache_utxo view = cache_utxo (CoinsTip s) -> cache_best view = cache_best (CoinsTip s) ->
  cache_sound WitnessHash CacheKey VerifyScript vc -> index_same (m_block_index (m_blockman s)) (m_block_index man) ->
  (forall h b', m_block_index man !! h = Some b' -> has_undo b' = true -> exists b, m_block_index (m_blockman s) !! h = Some b /\ has_undo b = true) ->
  best_header_known man -> (forall h, bi = Some h -> is_Some (m_block_index (m_blockman s) !! h)) ->
  chainstate_ok (mkChainstate view (m_chain s) man (m_undo s) vc bi) /\
  forall tip b, tip_ok s tip b -> exists b', nHeight b' = nHeight b /\ tip_ok (mkChainstate view (m_chain s) man (m_undo s) vc bi) tip b'.
Proof.
  intros Hs Hv Hu Hb Hvc Hi Hundo Hbest Hbi. pose proof Hs as [_ _ [I1 _ I3 I4] He Hg _ Hun Ht].
  assert (Hgrow : forall h u, ledger_at (m_block_index (m_blockman s)) (m_undo s) h u -> ledger_at (m_block_index man) (m_undo s) h u).
  { intros h u. apply ledger_at_grows; [apply Hi|auto]. }
  assert (Htip : forall tip b, tip_ok s tip b -> exists b', nHeight b' = nHeight b /\ tip_ok (mkChainstate view (m_chain s) man (m_undo s) vc bi) tip b').
  { intros tip b [E1 E2 E3 E4]. destruct (proj1 Hi tip b E1) as (b' & Eb' & (_ & _ & _ & L4 & _) & _). exists b'. split; [exact L4|]. split; cbn.
    - exact Eb'.
    - rewrite L4, E2. symmetry. eapply chain_of_grows; [exact I1|apply Hi|exact E1|reflexivity].
    - congruence.
    - rewrite Hu. apply Hgrow, E4. }
  split; [|exact Htip]. split; cbn.
  - exact Hv.
  - exact Hvc.
  - split; [eapply index_ok_same; eassumption|exact Hbest|eapply proofs_positive_same; eassumption|exact I4].
  - intros h b' E. destruct (index_same_back _ _ _ _ Hi E) as (b & Eb & (_ & _ & _ & L4 & _) & _). rewrite L4. apply (He h b Eb).
  - destruct Hg as (g & Eg & Hp). destruct (proj1 Hi _ _ Eg) as (g' & Eg' & (_ & L2 & _) & _). exists g'. split; [exact Eg'|congruence].
  - intros h E. destruct (Hbi h E) as [b Eb]. destruct (proj1 Hi _ _ Eb) as (b' & Eb' & _). eauto.
  - intros h b' E Hx. destruct (Hundo h b' E Hx) as (b & Eb & Hb'). destruct (Hun h b Eb Hb') as [u Hl]. eauto.
  - destruct Ht as (tip & b & Hto). destruct (Htip tip b Hto) as (b' & _ & H). eauto.
Qed.

(** *** A rejected block *)

Lemma InvalidChainFound_spec s h b :
  chainstate_ok s -> m_block_index (m_blockman s) !! h = Some b ->
  exists s', InvalidChainFound s h = Some s' /\ chainstate_ok s' /\ CoinsTip s' = CoinsTip s /\ m_chain s' = m_chain s.
Proof.
  intros Hs Eb. unfold InvalidChainFound. cbv zeta. rewrite Eb. cbn [mbind option_bind].
  assert (Hbi : exists bi, (match m_best_invalid s with
      | None => Some h
      | Some bi => e ← m_block_index (m_blockman s) !! bi; Some (if gt (nChainWork b) (nChainWork e) then h else bi) end) = Some bi /\
      is_Some (m_block_index (m_blockman s) !! bi)).
  { destruct (m_best_invalid s) as [bi|] eqn:E; [|eauto]. destruct (ci_best_invalid _ Hs bi E) as [e Ee]. rewrite Ee. cbn [mbind option_bind].
    destruct (gt _ _); eauto. }
  destruct Hbi as (bi & -> & Hbi). cbn [mbind option_bind]. set (man := SetBlockFailureFlags (m_blockman s) h).
  pose proof (SetBlockFailureFlags_same (m_blockman s) h) as Hsame. fold man in Hsame.
  assert (Hundo : forall k b', m_block_index man !! k = Some b' -> has_undo b' = true -> exists b, m_block_index (m_blockman s) !! k = Some b /\ has_undo b = true).
  { intros k b'. unfold man. cbn. rewrite map_lookup_imap. destruct (m_block_index (m_blockman s) !! k) as [b0|]; [|discriminate]. cbn. intros [= <-] Hx.
    exists b0. split; [reflexivity|]. destruct (is_descendant _ _ _); [|exact Hx]. rewrite <- (proj2 (set_failed_links b0)). exact Hx. }
  pose proof (index_ok_same _ _ (is_index _ _ (ci_index _ Hs)) Hsame) as Hok.
  destruct (is_best _ _ (ci_index _ Hs)) as (bh & e & Ebh & Ee). destruct (proj1 Hsame bh e Ee) as (e' & Ee' & _).
  change (m_best_header man) with (m_best_header (m_blockman s)). rewrite Ebh. rewrite (GetAncestor_spec Hok bh e' _ Ee'). cbn [mbind option_bind].
  destruct (ci_tip _ Hs) as (tip & bt & Hto). rewrite (tip_Tip _ _ _ Hs Hto). cbn [mbind option_bind].
  eexists. split; [reflexivity|]. cbn. split; [|auto]. apply (chainstate_ok_index s); try reflexivity; try assumption; try apply Hs.
  - destruct (bool_decide _); exact Hsame.
  - destruct (bool_decide _); exact Hundo.
  - destruct (bool_decide _).
    + destruct (proj1 Hsame tip bt (to_entry _ _ _ Hto)) as (bt' & Ebt & _).
      eapply RecalculateBestHeader_known. exact Ebt.
    + exists bh, e'. auto.
  - intros k [= <-]. exact Hbi.
Qed.
Lemma InvalidBlockFound_spec s h b r :
  chainstate_ok s -> m_block_index (m_blockman s) !! h = Some b ->
  exists s', InvalidBlockFound s h r = Some s' /\ chainstate_ok s' /\ CoinsTip s' = CoinsTip s /\ m_chain s' = m_chain s.
Proof.
  intros Hs Eb.
  assert (H : exists s', (b ← m_block_index (m_blockman s) !! h;
      InvalidChainFound (mkChainstate (CoinsTip s) (m_chain s) (put_index (m_blockman s) h (set_failed b)) (m_undo s)
                           (m_validation_cache s) (m_best_invalid s)) h) = Some s' /\ chainstate_ok s' /\ CoinsTip s' = CoinsTip s /\ m_chain s' = m_chain s).
  { rewrite Eb. cbn [mbind option_bind]. destruct (set_failed_links b) as [Hl Hu].
    destruct (chainstate_ok_index s (CoinsTip s) (put_index (m_blockman s) h (set_failed b)) (m_validation_cache s) (m_best_invalid s)) as [Hs1 _];
      try reflexivity; try assumption; try apply Hs.
    - apply index_same_insert with (b := b); [exact Eb|exact Hl|congruence].
    - intros k b' E Hx. cbn in E. destruct (decide (k = h)) as [->|Hne].
      + rewrite lookup_insert_eq in E. injection E as <-. exists b. split; [exact Eb|congruence].
      + rewrite lookup_insert_ne in E by congruence. eauto.
    - destruct (is_best _ _ (ci_index _ Hs)) as (bh & e & Ebh & Ee). destruct (decide (bh = h)) as [->|Hne].
      + exists h, (set_failed b). cbn. rewrite lookup_insert_eq. auto.
      + exists bh, e. cbn. rewrite lookup_insert_ne by congruence. auto.
    - destruct (InvalidChainFound_spec _ h (set_failed b) Hs1) as (s' & E & H1 & H2 & H3); [cbn; apply lookup_insert_eq|]. exists s'. auto. }
  destruct r; try exact H. exists s. auto.
Qed.

(** ** The operations on the tip *)

(** What is assumed of a block that is read or handed in: it is the one with
    the hash, and its memory-only flags tell the truth. *)
Record block_of (h : Z) (block : CBlock) : Prop := {
  bk_hash : GetHash (header block) = h;
  bk_txs : vtx block = txs_of h;
  bk_flags : flags_ok EnableFuzzDeterminism GetHash PoWHash params TxHash Hash2 block;
  bk_sizes : Forall (fun tx => size (vout tx) <= 2 ^ 32) (vtx block);
  bk_ids : ids_bind_inputs TxHash (vtx block)
}.
Definition read_law (read : Z -> option CBlock) : Prop := forall h block, read h = Some block -> block_of h block.
(** Writing to disk changes where the coins are, not what they are. *)
Definition flush_law (flush : CCoinsViewCache B -> option (CCoinsViewCache B)) : Prop :=
  forall c c', cache_ok c -> flush c = Some c' -> cache_ok c' /\ cache_utxo c' = cache_utxo c /\ cache_best c' = cache_best c.
Context (Hsubsidy : forall h, 0 <= h -> 0 <= GetBlockSubsidy h params <= MAX_MONEY).

Abbreviation connectTip := (ConnectTip EnableFuzzDeterminism GetHash PoWHash params TxHash WitnessHash Hash2 CacheKey VerifyScript
  AssumedValidBlock MinimumChainWork HasThreads Complete).

Lemma best_header_same (man man' : BlockManager) :
  index_same (m_block_index man) (m_block_index man') -> m_best_header man' = m_best_header man -> best_header_known man -> best_header_known man'.
Proof. intros Hs Eb (bh & e & E1 & E2). destruct (proj1 Hs bh e E2) as (e' & E3 & _). exists bh, e'. split; [congruence|exact E3]. Qed.

(** The state after a block was connected and flushed. *)
Lemma connected_ok s tip bt pindexNew b b' undo u' view man undos vc :
  chainstate_ok s -> tip_ok s tip bt -> m_block_index (m_blockman s) !! pindexNew = Some b -> pprev b = Some tip ->
  m_block_index man = <[pindexNew := b']> (m_block_index (m_blockman s)) -> m_best_header man = m_best_header (m_blockman s) ->
  same_links b b' -> has_undo b' = true -> undos = (if has_undo b then m_undo s else <[pindexNew := undo]> (m_undo s)) ->
  applies pindexNew (nHeight b) (cache_utxo (CoinsTip s)) undo u' ->
  cache_ok view -> cache_utxo view = u' -> cache_best view = pindexNew -> cache_sound WitnessHash CacheKey VerifyScript vc ->
  let s' := mkChainstate view (chain_of (m_block_index man) pindexNew (nHeight b')) man undos vc (m_best_invalid s) in
  chainstate_ok s' /\ tip_ok s' pindexNew b'.
Proof.
  intros Hs Ht Eb Ep Em Emh Hl Hb' Eundos Happ Hv Hu Hbest Hvc. set (m := m_block_index (m_blockman s)) in *.
  assert (Hsame : index_same m (m_block_index man)) by (rewrite Em; eapply index_same_insert; [exact Eb|exact Hl|auto]).
  assert (Hne : pindexNew <> genesis).
  { intros ->. destruct (ci_genesis _ Hs) as (g & Eg & Hg). fold m in Eg. rewrite Eb in Eg. injection Eg as <-. congruence. }
  assert (Hgrow : forall h u, ledger_at m (m_undo s) h u -> ledger_at (m_block_index man) undos h u).
  { intros h u. apply ledger_at_grows; [apply Hsame|]. intros k bk w Ek Hk Ew. rewrite Eundos. destruct (has_undo b) eqn:E; [exact Ew|].
    rewrite lookup_insert_ne; [exact Ew|]. intros <-. rewrite Eb in Ek. injection Ek as <-. congruence. }
  assert (Hled : ledger_at (m_block_index man) undos pindexNew u').
  { destruct (has_undo b) eqn:E.
    - destruct (ci_undo _ Hs pindexNew b Eb E) as [u2 H2]. fold m in H2. inversion H2 as [|? b2 p2 u1 undo2 ? F1 F2 F3 F4 F5 F6]; [congruence|subst].
      rewrite Eb in F1. injection F1 as <-. rewrite Ep in F2. injection F2 as <-.
      assert (u1 = cache_utxo (CoinsTip s)) as ->.
      { destruct (ci_genesis _ Hs) as (g & Eg & Hg). eapply ledger_at_det; [| | |exact F5|apply Ht].
        - intros k x y Ex Ey. fold m in Ey. rewrite Ex in Ey. injection Ey as <-. auto.
        - intros g' Eg'. fold m in Eg. congruence.
        - intros g' Eg'. congruence. }
      destruct (applies_det _ _ _ _ _ _ _ F6 Happ) as [-> ->]. apply Hgrow, H2.
    - destruct Hl as (_ & L2 & _ & L4 & _). eapply la_block with (b := b') (p := tip); [rewrite Em; apply lookup_insert_eq|congruence|exact Hb'| |apply Hgrow, Ht|rewrite L4; exact Happ].
      rewrite Eundos. apply lookup_insert_eq. }
  destruct (chainstate_ok_index s (CoinsTip s) (m_blockman s) vc (m_best_invalid s)) as [Hs0 _]; try reflexivity; try assumption; try apply Hs; [apply index_same_refl|eauto|].
  pose proof (ci_index _ Hs) as [I1 I2 I3 I4]. fold m in I1, I3. pose proof (index_ok_same _ _ I1 Hsame) as I1'. cbv zeta.
  assert (Etip : m_block_index man !! pindexNew = Some b') by (rewrite Em; apply lookup_insert_eq).
  assert (Hto : tip_ok (mkChainstate view (chain_of (m_block_index man) pindexNew (nHeight b')) man undos vc (m_best_invalid s)) pindexNew b').
  { split; cbn; [exact Etip|reflexivity|exact Hbest|]. rewrite Hu. exact Hled. }
  split; [|exact Hto]. split; cbn.
  - exact Hv.
  - exact Hvc.
  - split; [exact I1'|eapply best_header_same; eassumption|eapply proofs_positive_same; eassumption|exact I4].
  - intros h x E. destruct (index_same_back _ _ _ _ Hsame E) as (y & Ey & (_ & _ & _ & L4 & _) & _). rewrite L4. apply (ci_entries _ Hs h y Ey).
  - destruct (ci_genesis _ Hs) as (g & Eg & Hg). exists g. rewrite Em, lookup_insert_ne by congruence. auto.
  - intros h E. destruct (ci_best_invalid _ Hs h E) as [x Ex]. destruct (proj1 Hsame _ _ Ex) as (x' & Ex' & _). eauto.
  - intros h x E Hx. rewrite Em in E. destruct (decide (h = pindexNew)) as [->|Hnh]; [eauto|]. rewrite lookup_insert_ne in E by congruence.
    destruct (ci_undo _ Hs h x E Hx) as [u Hlu]. exists u. apply Hgrow, Hlu.
  - eauto.
Qed.

(** How [ConnectTip] fails, which stops the node: the ledger is as it was, and
    there is no block, or [ConnectBlock] could not write the undo data or
    found the block altered; or the ledger of the new tip could not be flushed. *)
Definition tip_failed (read : Z -> option CBlock) (flush : CCoinsViewCache B -> option (CCoinsViewCache B)) (undo_io : option Z)
    s (tip pindexNew : Z) (b : CBlockIndex) (given : option CBlock) s' : Prop :=
  (cache_utxo (CoinsTip s') = cache_utxo (CoinsTip s) /\ cache_best (CoinsTip s') = tip /\
   match (match given with Some block => Some block | None => read pindexNew end) with
   | None => True
   | Some block => undo_io = None \/ corrupt EnableFuzzDeterminism GetHash PoWHash params TxHash Hash2 block
   end) \/
  (flush (CoinsTip s') = None /\ cache_best (CoinsTip s') = pindexNew /\
   exists undo, applies pindexNew (nHeight b) (cache_utxo (CoinsTip s)) undo (cache_utxo (CoinsTip s'))).
Lemma ConnectTip_spec read flush undo_io s tip bt pindexNew b given :
  chainstate_ok s -> tip_ok s tip bt -> m_block_index (m_blockman s) !! pindexNew = Some b -> pprev b = Some tip ->
  read_law read -> flush_law flush -> (forall block, given = Some block -> block_of pindexNew block) ->
  exists s' o, connectTip read flush undo_io s pindexNew given = Some (s', o) /\
    match o with
    | Connected => chainstate_ok s' /\ (exists b', nHeight b' = nHeight b /\ tip_ok s' pindexNew b') /\
        exists undo, applies pindexNew (nHeight b) (cache_utxo (CoinsTip s)) undo (cache_utxo (CoinsTip s'))
    | Rejected _ _ => chainstate_ok s' /\ (exists b', nHeight b' = nHeight bt /\ tip_ok s' tip b') /\ cache_utxo (CoinsTip s') = cache_utxo (CoinsTip s)
    | Failed => m_chain s' = m_chain s /\ tip_failed read flush undo_io s tip pindexNew b given s'
    end.
Proof using All.
  intros Hs Ht Eb Ep Hread Hflush Hgiven. unfold ConnectTip. rewrite Eb. cbn [mbind option_bind].
  rewrite (tip_Tip _ _ _ Hs Ht), bool_decide_true by exact Ep. cbn [negb].
  assert (Hblock : forall block, (match given with Some block => Some block | None => read pindexNew end) = Some block -> block_of pindexNew block).
  { intros block E. destruct given as [g|]; [injection E as <-; apply Hgiven; reflexivity|apply Hread, E]. }
  destruct (match given with Some block => Some block | None => read pindexNew end) as [block|] eqn:Efound.
  2: { eexists _, Failed. split; [reflexivity|]. split; [reflexivity|]. left. rewrite Efound. split; [reflexivity|]. split; [apply Ht|exact I]. }
  destruct (Hblock block eq_refl) as [K1 K2 K3 K4 K5]. clear Hblock. pose proof (ci_index _ Hs) as [I1 _ _ _].
  pose proof (tip_ledger_ok _ _ _ Hs Ht) as [Hled _]. destruct (eo_link _ _ _ (I1 pindexNew b Eb) tip Ep) as (pb & Epb & Hh & _).
  rewrite (to_entry _ _ _ Ht) in Epb. injection Epb as <-. destruct (ci_entries _ Hs pindexNew b Eb) as [Hbig Hhash]. pose proof (eo_height _ _ _ (I1 _ _ (to_entry _ _ _ Ht))) as Hbt.
  assert (Hview : view_ok (CoinsTip s)) by exact (ci_view _ Hs). destruct (new_cache_ok (CoinsTip s) true Hview) as [Hc Hu]. change (utxo (CoinsTip s)) with (cache_utxo (CoinsTip s)) in Hu.
  set (cs0 := mkConnect block (new_cache (CoinsTip s) true) (m_validation_cache s) (m_blockman s) (m_undo s)).
  destruct (ConnectBlock_spec EnableFuzzDeterminism GetHash PoWHash params TxHash WitnessHash Hash2 CacheKey VerifyScript AssumedValidBlock MinimumChainWork
    HasThreads Complete Hqueue cs0 pindexNew tip b undo_io) as (cs & o & E & Hok & Hsb & Hbase & H).
  - split; [exact Hc|apply Hs|exact K3].
  - apply Hs.
  - split; cbn; [exact Eb|rewrite K1; apply (eo_hash _ _ _ (I1 _ _ Eb))|exact Ep|exact (to_best _ _ _ Ht)|exact Hbig|].
    rewrite K1. intros ->. destruct (ci_genesis _ Hs) as (g & Eg & Hg). rewrite Eb in Eg. injection Eg as <-. congruence.
  - split; cbn; [lia|exact K4|exact K5| |apply Hsubsidy; lia]. intros p hash Ep' Eh. rewrite (eo_hash _ _ _ (I1 _ _ Eb)) in Eh. injection Eh as <-.
    apply check_bip30_always; [exact I1| |apply Hhash|exact Eb|exact Ep']. intros h e Ee. apply (ci_entries _ Hs h e Ee).
  - cbn [cs_view cs0]. rewrite Hu. eapply ledger_ok_mono; [|exact Hled]. lia.
  - rewrite E. cbn [mbind option_bind]. destruct Hok as [Hv' Hvc' _]. destruct Hbase as [Hbu Hbb]. cbn [cs_view cs0 base new_cache] in Hbu, Hbb.
    change (utxo (CoinsTip s)) with (cache_utxo (CoinsTip s)) in Hbu. change (best (CoinsTip s)) with (cache_best (CoinsTip s)) in Hbb.
    destruct o as [|r reason|].
    + destruct H as (_ & _ & Hwf & _ & Hhb & _ & (undo & Hbc & Hundos) & b' & Em & Emh & Hl & Hb'). cbn [cs_view cs_block cs_man cs_undos cs0] in *.
      rewrite Hu, K2 in Hbc. rewrite K2 in Hwf.
      destruct (Flush_spec (cs_view cs) Hv') as (view & -> & Hfv & _ & _ & Hfu & Hfb & _); [rewrite Hhb, K1; apply Hhash|]. cbn [mbind option_bind].
      assert (Happ0 : applies pindexNew (nHeight b) (cache_utxo (CoinsTip s)) undo (cache_utxo (base view))).
      { split; [exact Hwf|]. exists (m_blockman s), b. split; [reflexivity|]. change (cache_utxo (base view)) with (utxo (base view)). rewrite Hfu. exact Hbc. }
      destruct (flush (base view)) as [c'|] eqn:Ef.
      2: { eexists _, Failed. split; [reflexivity|]. split; [reflexivity|]. right. cbn [CoinsTip]. split; [exact Ef|]. split; [|eauto].
           change (cache_best (base view)) with (best (base view)). rewrite Hfb, Hhb. exact K1. }
      destruct (Hflush (base view) c' (co_base _ Hfv) Ef) as (Hc' & Hcu & Hcb).
      assert (Happ : applies pindexNew (nHeight b) (cache_utxo (CoinsTip s)) undo (cache_utxo c')).
      { rewrite Hcu. exact Happ0. }
      assert (Hsame : index_same (m_block_index (m_blockman s)) (m_block_index (cs_man cs))) by (rewrite Em; eapply index_same_insert; [exact Eb|exact Hl|auto]).
      assert (Etip' : m_block_index (cs_man cs) !! pindexNew = Some b') by (rewrite Em; apply lookup_insert_eq).
      rewrite (SetTip_spec (index_ok_same _ _ I1 Hsame) (m_chain s) pindexNew b').
      * cbn [mbind option_bind]. eexists _, Connected. split; [reflexivity|].
        destruct (connected_ok s tip bt pindexNew b b' undo (cache_utxo c') c' (cs_man cs) (cs_undos cs) (cs_cache cs)) as [Hs' Ht']; try assumption; try reflexivity.
        { rewrite Hcb. change (cache_best (base view)) with (best (base view)). rewrite Hfb, Hhb. exact K1. }
        split; [exact Hs'|]. split; [|cbn; eauto]. exists b'. split; [apply Hl|exact Ht'].
      * right. exists tip. destruct (proj1 Hsame tip bt (to_entry _ _ _ Ht)) as (bt' & Ebt' & (_ & _ & _ & L4 & _) & _). exists bt'. split; [exact Ebt'|].
        rewrite L4, (to_chain _ _ _ Ht). symmetry. eapply chain_of_grows; [exact I1|apply Hsame|apply Ht|reflexivity].
      * exact Etip'.
    + destruct H as [Hman Hund]. cbn [cs_man cs_undos cs0] in Hman, Hund. rewrite Hman, Hund.
      destruct (chainstate_ok_index s (base (cs_view cs)) (m_blockman s) (cs_cache cs) (m_best_invalid s)) as [Hs1 Ht1]; try assumption; try apply Hs.
      { apply (co_base _ Hv'). } { apply index_same_refl. } { eauto. }
      destruct (InvalidBlockFound_spec _ pindexNew b r Hs1) as (s' & -> & Hs' & Ec & Ech); [exact Eb|]. cbn [mbind option_bind].
      exists s', (Rejected r reason). split; [reflexivity|]. split; [exact Hs'|].
      split; [|rewrite Ec; exact Hbu].
      destruct (ci_tip _ Hs') as (tip' & b' & Ht'). pose proof (to_best _ _ _ Ht') as Hb'. rewrite Ec in Hb'. cbn [CoinsTip] in Hb'.
      assert (tip' = tip) as -> by (change (cache_best (base (cs_view cs))) with (best (base (cs_view cs))) in Hb'; pose proof (to_best _ _ _ Ht); congruence). exists b'. split; [|exact Ht'].
      pose proof (to_chain _ _ _ Ht') as H1. rewrite Ech in H1. cbn [m_chain] in H1. rewrite (to_chain _ _ _ Ht) in H1.
      apply (f_equal length) in H1. rewrite !length_chain_of in H1. pose proof (eo_height _ _ _ (is_index _ _ (ci_index _ Hs') _ _ (to_entry _ _ _ Ht'))). lia.
    + destruct H as (_ & _ & Hwhy). eexists _, Failed. split; [reflexivity|]. split; [reflexivity|]. left. rewrite Efound. cbn [CoinsTip cs_block cs0] in *.
      split; [exact Hbu|]. split; [|exact Hwhy]. change (cache_best (base (cs_view cs))) with (best (base (cs_view cs))). rewrite Hbb. apply Ht.
Qed.

Abbreviation disconnectTip := (DisconnectTip TxHash).

Lemma DisconnectTip_spec read flush read_ok s tip bt p :
  chainstate_ok s -> tip_ok s tip bt -> pprev bt = Some p -> read_law read -> flush_law flush ->
  exists s' r, disconnectTip read flush read_ok s = Some (s', r) /\
    (r = true -> chainstate_ok s' /\ exists bp, nHeight bp = nHeight bt - 1 /\ tip_ok s' p bp) /\
    (read_ok = true -> is_Some (read tip) -> (forall c, is_Some (flush c)) -> r = true).
Proof using All.
  intros Hs Ht Ep Hread Hflush. pose proof (ci_index _ Hs) as [I1 _ _ _]. pose proof Ht as [Eb Ech Ebest Hled].
  destruct (eo_link _ _ _ (I1 tip bt Eb) p Ep) as (bp & Ebp & Hh & _). pose proof (eo_height _ _ _ (I1 _ _ Eb)) as Hbt. pose proof (eo_height _ _ _ (I1 _ _ Ebp)) as Hbp.
  destruct (ci_genesis _ Hs) as (g & Eg & Hg).
  assert (Hinv : exists u undo, has_undo bt = true /\ m_undo s !! tip = Some undo /\ ledger_at (m_block_index (m_blockman s)) (m_undo s) p u /\
                   applies tip (nHeight bt) u undo (cache_utxo (CoinsTip s))).
  { inversion Hled as [E|? b2 p2 u undo ? F1 F2 F3 F4 F5 F6]; [congruence|subst]. rewrite Eb in F1. injection F1 as <-. rewrite Ep in F2. injection F2 as <-. eauto 8. }
  destruct Hinv as (u & undo & Hun & Eundo & Hlu & Hwf & man0 & b0 & Eh0 & Hbc).
  unfold DisconnectTip. cbv zeta. rewrite (tip_Tip _ _ _ Hs Ht). cbn [mbind option_bind]. rewrite Eb. cbn [mbind option_bind]. rewrite Ep. cbn [mbind option_bind].
  destruct (read tip) as [block|] eqn:Er; [|eexists _, false; split; [reflexivity|]; split; [discriminate|intros _ []; discriminate]].
  destruct (Hread tip block Er) as [K1 K2 K3 K4 K5]. rewrite (eo_hash _ _ _ (I1 _ _ Eb)). cbn [mbind option_bind].
  assert (Hview : view_ok (CoinsTip s)) by exact (ci_view _ Hs). destruct (new_cache_ok (CoinsTip s) false Hview) as [Hc Hu].
  change (utxo (CoinsTip s)) with (cache_utxo (CoinsTip s)) in Hu.
  destruct (cache_GetBestBlock_spec (new_cache (CoinsTip s) false) Hc) as (view & -> & Hv & Hvu & _).
  change (cache_best (new_cache (CoinsTip s) false)) with (cache_best (CoinsTip s)). rewrite Ebest, Z.eqb_refl. cbn [negb].
  unfold ReadBlockUndo. change (negb (Z.land (nStatus bt) BLOCK_HAVE_UNDO =? 0)) with (has_undo bt). rewrite Hun, andb_true_r, Eundo.
  destruct read_ok; [|eexists _, false; split; [reflexivity|]; split; discriminate].
  assert (Hlu_ok : ledger_ok params (nHeight bt) u).
  { eapply ledger_ok_mono; [|eapply ledger_at_ok; [exact I1| | |exact Hlu|exact Ebp]]; [lia|congruence|]. intros g' Eg'. congruence. }
  destruct (DisconnectBlock_spec params TxHash (m_block_index man0) (m_block_index (m_blockman s)) tip bt tip p bp p (holds_scripts man0 tip b0) u block undo
    (cache_utxo (CoinsTip s)) view) as (view' & -> & Hv' & _ & Hvu' & Hvh); try assumption.
  - lia.
  - rewrite K2. exact Hwf.
  - rewrite K2. eapply block_connects_height; [|exact Hbc]. congruence.
  - apply (eo_hash _ _ _ (I1 _ _ Eb)).
  - apply (eo_hash _ _ _ (I1 _ _ Ebp)).
  - congruence.
  - cbn [mbind option_bind]. destruct (Flush_spec view' Hv') as (view2 & -> & Hfv & _ & _ & Hfu & Hfb & _); [rewrite Hvh; apply (ci_entries _ Hs p bp Ebp)|].
    cbn [mbind option_bind]. destruct (flush (base view2)) as [c'|] eqn:Ef.
    2: { eexists _, false. split; [reflexivity|]. split; [discriminate|]. intros _ _ Hall. destruct (Hall (base view2)) as [x Ex]. congruence. }
    destruct (Hflush (base view2) c' (co_base _ Hfv) Ef) as (Hc' & Hcu & Hcb). change (cache_utxo (base view2)) with (utxo (base view2)) in Hcu. change (cache_best (base view2)) with (best (base view2)) in Hcb.
    rewrite (SetTip_spec I1 (m_chain s) p bp); [|right; exists tip, bt; auto|exact Ebp]. cbn [mbind option_bind]. eexists _, true. split; [reflexivity|]. split; [intros _|auto].
    assert (Hto : tip_ok (mkChainstate c' (chain_of (m_block_index (m_blockman s)) p (nHeight bp)) (m_blockman s) (m_undo s) (m_validation_cache s) (m_best_invalid s)) p bp).
    { split; cbn; [exact Ebp|reflexivity|congruence|]. rewrite Hcu, Hfu, Hvu'. exact Hlu. }
    split; [|exists bp; split; [lia|exact Hto]]. pose proof Hs as [S1 S2 S3 S4 S5 S6 S7 S8]. split; cbn; try assumption. eauto.
Qed.

(** A header is added to the index. *)
Lemma add_header_ok s hd pb man h :
  chainstate_ok s -> header_ok hd -> 0 < bits_work (hdr_nBits hd) -> hash_ok (GetHash hd) ->
  m_block_index (m_blockman s) !! hdr_hashPrevBlock hd = Some pb -> nHeight pb + 1 + 2 ^ 16 < 2 ^ 31 ->
  AddToBlockIndex GetHash (m_blockman s) hd = Some (man, h) ->
  chainstate_ok (mkChainstate (CoinsTip s) (m_chain s) man (m_undo s) (m_validation_cache s) (m_best_invalid s)).
Proof.
  intros Hs Hhd Hpos Hho Epb Hbig E. pose proof (ci_index _ Hs) as [I1 I2 I3 I4]. set (m := m_block_index (m_blockman s)) in *.
  destruct (m !! GetHash hd) as [old|] eqn:Efresh.
  { unfold AddToBlockIndex in E. fold m in E. rewrite Efresh in E. injection E as <- _. destruct s. exact Hs. }
  destruct (add_linked GetHash (m_blockman s) hd pb I1 Hhd Efresh Epb ltac:(lia)) as (new & best & E' & Hnew & Hadd & Hbest).
  { intros bh Ebh. destruct I2 as (bh' & e & E1 & E2). rewrite Ebh in E1. injection E1 as <-. eauto. }
  rewrite E in E'. injection E' as -> _. fold m in Hnew, Hadd, Hbest. pose proof (index_ok_insert m (GetHash hd) new I1 Efresh Hnew) as I1'.
  assert (Hg : index_grows m (<[GetHash hd := new]> m)).
  { intros k b Ek. exists b. rewrite lookup_insert_ne by congruence. split; [exact Ek|]. split; [apply same_links_refl|auto]. }
  assert (Hheight : nHeight new + 2 ^ 16 < 2 ^ 31).
  { destruct (eo_link _ _ _ Hnew (hdr_hashPrevBlock hd)) as (pb' & Epb' & -> & _); [rewrite (ad_prev _ _ _ Hadd), Epb; reflexivity|].
    rewrite lookup_insert_ne, Epb in Epb' by congruence. injection Epb' as <-. lia. }
  assert (Hundo : has_undo new = false) by (unfold has_undo; rewrite (ad_status _ _ _ Hadd); reflexivity).
  assert (Hgrow : forall k u, ledger_at m (m_undo s) k u -> ledger_at (<[GetHash hd := new]> m) (m_undo s) k u) by (intros k u; apply ledger_at_grows; auto).
  split; cbn.
  - apply Hs.
  - apply Hs.
  - split; cbn; [exact I1'| | |exact I4].
    + destruct I2 as (bh & e & Ebh & Ee). rewrite Ebh in Hbest. destruct Hbest as (e' & Ee' & ->). destruct (_ <? 0).
      * exists (GetHash hd), new. cbn. split; [reflexivity|apply lookup_insert_eq].
      * exists bh, e. cbn. split; [reflexivity|]. rewrite lookup_insert_ne; [exact Ee|]. fold m in Ee. congruence.
    + intros k b Ek. apply lookup_insert_Some in Ek as [[_ <-]|[_ Ek]]; [rewrite (ad_bits _ _ _ Hadd); exact Hpos|apply (I3 k b Ek)].
  - intros k b Ek. apply lookup_insert_Some in Ek as [[<- <-]|[_ Ek]]; [split; assumption|apply (ci_entries _ Hs k b Ek)].
  - destruct (ci_genesis _ Hs) as (g & Eg & Hp). exists g. fold m in Eg. rewrite lookup_insert_ne by congruence. auto.
  - intros k Ek. destruct (ci_best_invalid _ Hs k Ek) as [x Ex]. fold m in Ex. rewrite lookup_insert_ne by congruence. eauto.
  - intros k b Ek Hb. apply lookup_insert_Some in Ek as [[_ <-]|[_ Ek]]; [congruence|]. destruct (ci_undo _ Hs k b Ek Hb) as [u Hu]. eauto.
  - destruct (ci_tip _ Hs) as (tip & bt & [T1 T2 T3 T4]). exists tip, bt. fold m in T1, T2, T4. split; cbn.
    + rewrite lookup_insert_ne by congruence. exact T1.
    + rewrite T2. symmetry. eapply chain_of_grows; [exact I1|exact Hg|exact T1|reflexivity].
    + exact T3.
    + apply Hgrow, T4.
Qed.

(** ** Every state the operations reach *)

(** The state after the genesis block: an empty ledger, and no undo data. *)
Record initial s : Prop := {
  in_view : cache_ok (CoinsTip s);
  in_empty : cache_utxo (CoinsTip s) = ∅;
  in_best : cache_best (CoinsTip s) = genesis;
  in_cache : cache_sound WitnessHash CacheKey VerifyScript (m_validation_cache s);
  in_index : index_sane params (m_blockman s);
  in_entries : entries_ok (m_block_index (m_blockman s));
  in_genesis : exists g, m_block_index (m_blockman s) !! genesis = Some g /\ pprev g = None /\ m_chain s = chain_of (m_block_index (m_blockman s)) genesis (nHeight g);
  in_undo : map_Forall (fun _ b => has_undo b = false) (m_block_index (m_blockman s));
  in_best_invalid : m_best_invalid s = None
}.
Inductive chain_reachable : Chainstate (B := B) (C := C) -> Prop :=
  | ch_initial s : initial s -> chain_reachable s
  | ch_header s hd pb man h :
      chain_reachable s -> header_ok hd -> 0 < bits_work (hdr_nBits hd) -> hash_ok (GetHash hd) ->
      m_block_index (m_blockman s) !! hdr_hashPrevBlock hd = Some pb -> nHeight pb + 1 + 2 ^ 16 < 2 ^ 31 ->
      AddToBlockIndex GetHash (m_blockman s) hd = Some (man, h) ->
      chain_reachable (mkChainstate (CoinsTip s) (m_chain s) man (m_undo s) (m_validation_cache s) (m_best_invalid s))
  | ch_connect s read flush undo_io pindexNew given s' o :
      chain_reachable s -> read_law read -> flush_law flush -> (forall block, given = Some block -> block_of pindexNew block) ->
      connectTip read flush undo_io s pindexNew given = Some (s', o) -> o <> Failed -> chain_reachable s'
  | ch_disconnect s read flush read_ok s' :
      chain_reachable s -> read_law read -> flush_law flush -> disconnectTip read flush read_ok s = Some (s', true) -> chain_reachable s'.

Lemma initial_chainstate_ok s : initial s -> chainstate_ok s.
Proof.
  intros [H1 H2 H3 H4 H5 H6 (g & Eg & Hg & Hc) H8 H9]. split; try assumption; [eauto|congruence| |].
  - intros h b E Hb. rewrite (H8 h b E) in Hb. discriminate.
  - exists genesis, g. split; [exact Eg|exact Hc|exact H3|]. rewrite H2. constructor.
Qed.
Lemma reachable_chainstate_ok s : chain_reachable s -> chainstate_ok s.
Proof using All.
  induction 1 as [s Hi|s hd pb man h _ IH ? ? ? ? ? ?|s read flush uio pnew given s' o _ IH Hr Hf Hg E Ho|s read flush rok s' _ IH Hr Hf E].
  - apply initial_chainstate_ok, Hi.
  - eapply add_header_ok; eassumption.
  - destruct (ci_tip _ IH) as (tip & bt & Ht). pose proof E as E0. unfold ConnectTip in E.
    destruct (m_block_index (m_blockman s) !! pnew) as [b|] eqn:Eb; [|discriminate]. cbn [mbind option_bind] in E.
    destruct (bool_decide_reflect (pprev b = Tip (m_chain s))) as [Ep|]; [|discriminate]. clear E. rewrite (tip_Tip _ _ _ IH Ht) in Ep.
    destruct (ConnectTip_spec read flush uio s tip bt pnew b given IH Ht Eb Ep Hr Hf Hg) as (s1 & o1 & E1 & H1). rewrite E0 in E1. injection E1 as <- <-.
    destruct o; [apply H1|apply H1|contradiction].
  - destruct (ci_tip _ IH) as (tip & bt & Ht). pose proof E as E0. unfold DisconnectTip in E. cbv zeta in E. rewrite (tip_Tip _ _ _ IH Ht) in E. cbn [mbind option_bind] in E.
    rewrite (to_entry _ _ _ Ht) in E. cbn [mbind option_bind] in E. destruct (pprev bt) as [p|] eqn:Ep; [|discriminate]. clear E.
    destruct (DisconnectTip_spec read flush rok s tip bt p IH Ht Ep Hr Hf) as (s1 & r & E1 & H1 & _). rewrite E0 in E1. injection E1 as <- <-. apply H1. reflexivity.
Qed.

(** C1: the supply.  In every state that connecting and disconnecting blocks
    and adding headers reach, the unspent outputs together are worth at most
    what the emission schedule has issued up to the tip (on the main network
    at most [MAX_MONEY]), and each of them holds an amount in range, pays to a
    script that consensus admits and was created at a height of the chain. *)
Theorem chain_supply s :
  chain_reachable s ->
  exists tip b, Tip (m_chain s) = Some tip /\ m_block_index (m_blockman s) !! tip = Some b /\ cache_best (CoinsTip s) = tip /\
    0 <= value (cache_utxo (CoinsTip s)) <= cumulative_supply params (nHeight b) /\
    (params = CMainParams -> value (cache_utxo (CoinsTip s)) <= MAX_MONEY) /\
    ledger_ok params (nHeight b) (cache_utxo (CoinsTip s)).
Proof using All.
  intros Hr. apply reachable_chainstate_ok in Hr as Hs. destruct (ci_tip _ Hs) as (tip & b & Ht). destruct (tip_ledger_ok _ _ _ Hs Ht) as [Hl Hv].
  exists tip, b. split; [eapply tip_Tip; eassumption|]. split; [apply Ht|]. split; [apply Ht|]. split; [split; [|exact Hv]|split; [|exact Hl]].
  - apply value_nonneg. intros o cn E. apply (cok_value _ _ _ (Hl o cn E)).
  - intros E. etransitivity; [exact Hv|]. rewrite E. apply mainnet_supply_le.
Qed.

(** C21: In every reachable state, [ConnectTip] on a child of the tip answers
    in one of three ways.  When it accepts, the new tip is the child and its
    transactions applied to the ledger; when it rejects, tip and ledger are as
    they were.  When it fails, which stops the node, the chain has the tip it
    had, and one of two things happened: the ledger is as it was, and there
    was no block to read, or its undo data could not be written, or the block
    was altered since it was accepted; or the child's transactions were
    applied and the flush of the ledger to disk failed.  So it does not fail
    when the files work and the block is intact. *)
Theorem connect_tip_outcomes read flush undo_io s tip pindexNew b given :
  chain_reachable s -> Tip (m_chain s) = Some tip -> m_block_index (m_blockman s) !! pindexNew = Some b -> pprev b = Some tip ->
  read_law read -> flush_law flush -> (forall block, given = Some block -> block_of pindexNew block) ->
  exists s' o, connectTip read flush undo_io s pindexNew given = Some (s', o) /\
    match o with
    | Connected => Tip (m_chain s') = Some pindexNew /\ cache_best (CoinsTip s') = pindexNew /\
        exists undo, applies pindexNew (nHeight b) (cache_utxo (CoinsTip s)) undo (cache_utxo (CoinsTip s'))
    | Rejected _ _ => Tip (m_chain s') = Some tip /\ cache_best (CoinsTip s') = tip /\ cache_utxo (CoinsTip s') = cache_utxo (CoinsTip s)
    | Failed => Tip (m_chain s') = Some tip /\ tip_failed read flush undo_io s tip pindexNew b given s'
    end.
Proof using All.
  intros Hr Etip Eb Ep Hread Hflush Hgiven. apply reachable_chainstate_ok in Hr as Hs. destruct (ci_tip _ Hs) as (tip' & bt & Ht).
  rewrite (tip_Tip _ _ _ Hs Ht) in Etip. injection Etip as ->.
  destruct (ConnectTip_spec read flush undo_io s tip bt pindexNew b given Hs Ht Eb Ep Hread Hflush Hgiven) as (s' & o & E & H).
  exists s', o. split; [exact E|]. destruct o; [| |destruct H as [-> H]; split; [eapply tip_Tip; eassumption|exact H]].
  - destruct H as (Hs' & (b' & _ & Ht') & Happ). split; [eapply tip_Tip; eassumption|]. split; [apply Ht'|exact Happ].
  - destruct H as (Hs' & (b' & _ & Ht') & Hu). split; [eapply tip_Tip; eassumption|]. split; [apply Ht'|exact Hu].
Qed.

(** C16: In every reachable state the tip can be disconnected, as long as files
    can be read and written, until the genesis block is the tip; no state
    makes [DisconnectTip] find the undo data inconsistent. *)
Theorem tip_disconnects read flush s tip b p :
  chain_reachable s -> Tip (m_chain s) = Some tip -> m_block_index (m_blockman s) !! tip = Some b -> pprev b = Some p ->
  read_law read -> flush_law flush -> is_Some (read tip) -> (forall c, is_Some (flush c)) ->
  exists s', disconnectTip read flush true s = Some (s', true) /\ chain_reachable s' /\ Tip (m_chain s') = Some p /\ cache_best (CoinsTip s') = p.
Proof using All.
  intros Hr Etip Eb Ep Hread Hflush Hrd Hfl. apply reachable_chainstate_ok in Hr as Hs. destruct (ci_tip _ Hs) as (tip' & bt & Ht).
  rewrite (tip_Tip _ _ _ Hs Ht) in Etip. injection Etip as ->. rewrite (to_entry _ _ _ Ht) in Eb. injection Eb as ->.
  destruct (DisconnectTip_spec read flush true s tip b p Hs Ht Ep Hread Hflush) as (s' & r & E & H1 & H2). rewrite (H2 eq_refl Hrd Hfl) in *.
  destruct (H1 eq_refl) as (Hs' & bp & _ & Ht'). exists s'. split; [exact E|]. split; [eapply ch_disconnect; eassumption|].
  split; [eapply tip_Tip; eassumption|apply Ht'].
Qed.

Lemma heights_agree m m' h b b' :
  index_ok m -> index_ok m' -> (forall k x y, m !! k = Some x -> m' !! k = Some y -> pprev x = pprev y) ->
  m !! h = Some b -> m' !! h = Some b' -> nHeight b = nHeight b'.
Proof.
  intros Hm Hm' Hp. remember (Z.to_nat (nHeight b)) as n eqn:En. revert h b b' En. induction n as [n IH] using lt_wf_ind. intros h b b' -> E E'.
  pose proof (Hp h b b' E E') as Epp. destruct (pprev b) as [p|] eqn:Ep.
  - destruct (eo_link _ _ _ (Hm h b E) p Ep) as (pb & Epb & H1 & _). destruct (eo_link _ _ _ (Hm' h b' E') p (eq_sym Epp)) as (pb' & Epb' & H2 & _).
    pose proof (eo_height _ _ _ (Hm p pb Epb)). rewrite H1, H2. f_equal. eapply IH; [|reflexivity|exact Epb|exact Epb']. lia.
  - destruct (eo_root _ _ _ (Hm h b E) Ep) as [-> _]. destruct (eo_root _ _ _ (Hm' h b' E') (eq_sym Epp)) as [-> _]. reflexivity.
Qed.

(** C7: The ledger is a function of the tip: two nodes that reached the same
    tip, over whatever blocks they connected, rejected and disconnected on the
    way and in whatever order, hold the same unspent outputs. *)
Theorem ledger_determined_by_tip s s' :
  chain_reachable s -> chain_reachable s' ->
  (forall k b b', m_block_index (m_blockman s) !! k = Some b -> m_block_index (m_blockman s') !! k = Some b' -> pprev b = pprev b') ->
  Tip (m_chain s) = Tip (m_chain s') -> cache_utxo (CoinsTip s) = cache_utxo (CoinsTip s').
Proof using All.
  intros Hr Hr' Hp Etip. apply reachable_chainstate_ok in Hr as Hs, Hr' as Hs'. destruct (ci_tip _ Hs) as (tip & b & Ht). destruct (ci_tip _ Hs') as (tip' & b' & Ht').
  rewrite (tip_Tip _ _ _ Hs Ht), (tip_Tip _ _ _ Hs' Ht') in Etip. injection Etip as <-.
  destruct (ci_genesis _ Hs) as (g & Eg & Hg). destruct (ci_genesis _ Hs') as (g' & Eg' & Hg').
  eapply ledger_at_det; [| | |apply Ht|apply Ht'].
  - intros k x y Ex Ey. split; [eapply Hp; eassumption|]. eapply heights_agree; [apply Hs|apply Hs'|exact Hp|exact Ex|exact Ey].
  - intros x Ex. congruence.
  - intros x Ex. congruence.
Qed.
End History.

(** ** A chain of two blocks *)

Module TipDemo.
Import CuckooCache.
Definition genesis : Z := hashGenesisBlock CMainParams.
Definition GetHash (h : CBlockHeader) : Z := if hdr_nNonce h =? 0 then genesis else hdr_nNonce h + 1000.
Definition header_of (prev root nonce : Z) : CBlockHeader := mkHeader 4 prev root (nonce * 300) 0x1e0fffff nonce.
Definition headers : list CBlockHeader := [header_of 0 0 0; header_of genesis 111 1; header_of 1001 112 2].
Definition manager : BlockManager :=
  foldl (fun s b => match AddToBlockIndex GetHash s b with Some (s, _) => s | None => s end) empty_manager headers.
Definition block1 : CBlock := mkBlock (header_of genesis 111 1) [Demo.coinbase 1] false false false.
Definition txs_of (h : Z) : list CTransaction := if h =? 1001 then [Demo.coinbase 1] else [].
Definition read (h : Z) : option CBlock := if h =? 1001 then Some block1 else None.
Definition flush (c : CCoinsViewCache CCoinsViewDB) : option (CCoinsViewCache CCoinsViewDB) := Some c.
Definition s0 : Chainstate := mkChainstate (new_cache (mkDB ∅ (Some genesis) None) false) [Some genesis] manager ∅ (setup Z.log2 4) None.
Definition connect := ConnectTip false GetHash Demo.PoWHash CMainParams Demo.TxHash Demo.TxHash Demo.Hash2 Z.add Demo.VerifyScript 0 zero false Demo.Complete
  read flush (Some 8) s0 1001 None.

Lemma manager_reachable : reachable GetHash manager.
Proof. apply index_build; [apply reach_empty|vm_compute; reflexivity]. Qed.
Lemma manager_sane : index_sane CMainParams manager.
Proof.
  pose proof (reachable_ok GetHash _ manager_reachable) as Hm.
  split; [apply Hm|exists 1002; eexists; split; vm_compute; reflexivity| |apply map_Forall_empty].
  change (map_Forall (fun _ b => 0 < bits_work (nBits b)) (m_block_index manager)). apply (bool_decide_unpack _). vm_compute. exact I.
Qed.
Lemma manager_entries : entries_ok CMainParams (m_block_index manager).
Proof.
  change (map_Forall (fun h b => nHeight b + 2 ^ 16 < 2 ^ 31 /\ hash_ok CMainParams h) (m_block_index manager)). unfold hash_ok.
  apply (bool_decide_unpack _). vm_compute. exact I.
Qed.
Lemma empty_db_ok : view_ok (mkDB ∅ (Some genesis) None).
Proof. split; [apply map_Forall_empty|reflexivity]. Qed.
Abbreviation starts := (initial (B := CCoinsViewDB) (C := cache) CMainParams Demo.TxHash Z.add Demo.VerifyScript).
Lemma s0_initial : starts s0.
Proof.
  destruct (new_cache_ok _ false empty_db_ok) as [Hc Hu]. split; cbn [CoinsTip m_chain m_blockman m_undo m_validation_cache m_best_invalid s0].
  - exact Hc.
  - exact Hu.
  - reflexivity.
  - apply (ks_cache _ _ _ _ _ _ _ _ _ _ Demo.start_ok).
  - exact manager_sane.
  - exact manager_entries.
  - destruct (m_block_index manager !! hashGenesisBlock CMainParams) as [g|] eqn:E; [|vm_compute in E; discriminate]. exists g.
    split; [reflexivity|]. apply (f_equal (fmap (fun g => (pprev g, nHeight g)))) in E. cbn [fmap option_fmap option_map] in E.
    assert (E2 : (fun g => (pprev g, nHeight g)) <$> m_block_index manager !! hashGenesisBlock CMainParams = Some (None, 0)) by (vm_compute; reflexivity).
    rewrite E2 in E. injection E as <- <-. split; [reflexivity|]. vm_compute. reflexivity.
  - apply (bool_decide_unpack _). vm_compute. exact I.
  - reflexivity.
Qed.
Abbreviation reaches := (chain_reachable false GetHash Demo.PoWHash CMainParams Demo.TxHash Demo.TxHash Demo.Hash2 Z.add Demo.VerifyScript 0 zero false Demo.Complete txs_of).
Abbreviation laws := (read_law false GetHash Demo.PoWHash CMainParams Demo.TxHash Demo.Hash2 txs_of).
Lemma read_is_lawful : laws read.
Proof.
  intros h block. unfold read. destruct (Z.eqb_spec h 1001) as [->|]; [|discriminate]. intros [= <-].
  split; [reflexivity|reflexivity|split; discriminate|repeat constructor; discriminate|]. apply ids_bind_NoDup, (bool_decide_unpack _). vm_compute. exact I.
Qed.
Lemma flush_is_lawful : flush_law flush.
Proof. intros c c' Hc [= <-]. auto. Qed.
Lemma given_none (P : CBlock -> Prop) : forall block, None = Some block -> P block.
Proof. discriminate. Qed.
Lemma subsidies h : 0 <= h -> 0 <= GetBlockSubsidy h CMainParams <= MAX_MONEY.
Proof. apply mainnet_subsidy_range. Qed.
Lemma connect_s0 : exists s1, connect = Some (s1, Connected).
Proof.
  destruct connect as [[s1 o]|] eqn:E; [|vm_compute in E; discriminate]. exists s1. do 2 f_equal.
  assert (H : (x ← connect; Some x.2) = Some Connected) by (vm_compute; reflexivity). rewrite E in H. cbn in H. congruence.
Qed.
Lemma reach_s0 : reaches s0.
Proof. apply ch_initial, s0_initial. Qed.
Lemma reach_s1 s1 : connect = Some (s1, Connected) -> reaches s1.
Proof.
  intros E. apply (ch_connect _ _ _ _ _ _ _ _ _ _ _ _ _ _ s0 read flush (Some 8) 1001 None s1 Connected reach_s0 read_is_lawful flush_is_lawful (given_none _) E).
  discriminate.
Qed.
Lemma entry_1001 : exists b, m_block_index manager !! 1001 = Some b /\ pprev b = Some genesis.
Proof.
  destruct (m_block_index manager !! 1001) as [b|] eqn:E; [|vm_compute in E; discriminate]. exists b. split; [reflexivity|].
  assert (E2 : pprev <$> m_block_index manager !! 1001 = Some (Some genesis)) by (vm_compute; reflexivity). rewrite E in E2. injection E2 as E2. exact E2.
Qed.
Lemma tip_s1 s1 : connect = Some (s1, Connected) ->
  Tip (m_chain s1) = Some 1001 /\ exists b, m_block_index (m_blockman s1) !! 1001 = Some b /\ pprev b = Some genesis.
Proof.
  intros E.
  assert (H : (x ← connect; Some (Tip (m_chain x.1), pprev <$> m_block_index (m_blockman x.1) !! 1001)) = Some (Some 1001, Some (Some genesis))) by (vm_compute; reflexivity).
  rewrite E in H. cbn [mbind option_bind fst] in H. injection H as H1 H2. split; [exact H1|].
  destruct (m_block_index (m_blockman s1) !! 1001) as [b|]; [|discriminate]. exists b. split; [reflexivity|]. injection H2 as H2. exact H2.
Qed.
End TipDemo.

Lemma chain_supply_witness :
  exists s1, TipDemo.connect = Some (s1, Connected) /\ 0 <= value (cache_utxo (CoinsTip s1)) <= MAX_MONEY.
Proof.
  destruct TipDemo.connect_s0 as [s1 E]. exists s1. split; [exact E|].
  destruct (chain_supply _ _ _ _ _ _ _ _ _ _ _ _ _ Demo.Complete_law _ TipDemo.subsidies s1 (TipDemo.reach_s1 s1 E)) as (tip & b & _ & _ & _ & [H1 _] & H2 & _).
  split; [exact H1|]. apply H2. reflexivity.
Defined.
Lemma connect_tip_outcomes_witness :
  exists s1, TipDemo.connect = Some (s1, Connected) /\ Tip (m_chain s1) = Some 1001.
Proof.
  destruct TipDemo.entry_1001 as (b & Eb & Ep).
  destruct (connect_tip_outcomes _ _ _ _ _ _ _ _ _ _ _ _ _ Demo.Complete_law _ TipDemo.subsidies TipDemo.read TipDemo.flush (Some 8) TipDemo.s0 TipDemo.genesis 1001 b None
    TipDemo.reach_s0 eq_refl Eb Ep TipDemo.read_is_lawful TipDemo.flush_is_lawful (TipDemo.given_none _)) as (s1 & o & E & H).
  destruct TipDemo.connect_s0 as [s1' E']. unfold TipDemo.connect in E'. rewrite E in E'. injection E' as -> ->. exists s1'. split; [exact E|apply H].
Defined.
Lemma tip_disconnects_witness :
  exists s1 s2, TipDemo.connect = Some (s1, Connected) /\ DisconnectTip Demo.TxHash TipDemo.read TipDemo.flush true s1 = Some (s2, true) /\
    Tip (m_chain s2) = Some TipDemo.genesis.
Proof.
  destruct TipDemo.connect_s0 as [s1 E]. exists s1. destruct (TipDemo.tip_s1 s1 E) as (Et & b & Eb & Ep).
  destruct (tip_disconnects _ _ _ _ _ _ _ _ _ _ _ _ _ Demo.Complete_law _ TipDemo.subsidies TipDemo.read TipDemo.flush s1 1001 b TipDemo.genesis
    (TipDemo.reach_s1 s1 E) Et Eb Ep TipDemo.read_is_lawful TipDemo.flush_is_lawful ltac:(eexists; reflexivity) ltac:(intros c; eexists; reflexivity)) as (s2 & E2 & _ & Ht & _).
  exists s2. auto.
Defined.
(** Connecting a block and disconnecting it again leads to the ledger of the
    start, reached on another way. *)
Lemma ledger_determined_by_tip_witness :
  exists s1 s2, TipDemo.connect = Some (s1, Connected) /\ DisconnectTip Demo.TxHash TipDemo.read TipDemo.flush true s1 = Some (s2, true) /\
    cache_utxo (CoinsTip s2) = cache_utxo (CoinsTip TipDemo.s0).
Proof.
  destruct TipDemo.connect_s0 as [s1 E]. exists s1.
  assert (H : (x ← TipDemo.connect; y ← DisconnectTip Demo.TxHash TipDemo.read TipDemo.flush true x.1;
               Some (y.2, Tip (m_chain y.1), pprev <$> m_block_index (m_blockman y.1))) = Some (true, Some TipDemo.genesis, pprev <$> m_block_index TipDemo.manager))
    by (vm_compute; reflexivity).
  rewrite E in H. cbn [mbind option_bind fst] in H. destruct (DisconnectTip _ _ _ _ s1) as [[s2 r]|] eqn:E2; [|discriminate]. cbn [mbind option_bind fst snd] in H.
  pose proof (f_equal (fun o => match o with Some x => x.1.1 | None => true end) H) as Hr. pose proof (f_equal (fun o => match o with Some x => x.1.2 | None => None end) H) as Ht.
  pose proof (f_equal (fun o => match o with Some x => x.2 | None => ∅ end) H) as Hp. cbn [fst snd] in Hr, Ht, Hp. clear H. subst r. exists s2. split; [exact E|]. split; [reflexivity|].
  apply (ledger_determined_by_tip false TipDemo.GetHash Demo.PoWHash CMainParams Demo.TxHash Demo.TxHash Demo.Hash2 Z.add Demo.VerifyScript 0 zero false Demo.Complete
    Demo.Complete_law TipDemo.txs_of TipDemo.subsidies s2 TipDemo.s0).
  - exact (ch_disconnect _ _ _ _ _ _ _ _ _ _ _ _ _ _ s1 TipDemo.read TipDemo.flush true s2 (TipDemo.reach_s1 s1 E) TipDemo.read_is_lawful TipDemo.flush_is_lawful E2).
  - exact TipDemo.reach_s0.
  - intros k b b' Eb Eb'. apply (f_equal (lookup k)) in Hp. rewrite !lookup_fmap in Hp. change (m_blockman TipDemo.s0) with TipDemo.manager in Eb'.
    rewrite Eb, Eb' in Hp. cbn in Hp. congruence.
  - rewrite Ht. reflexivity.
Defined.
