(* ===== verification/MetalDag.v ===== *)
(** * MetalDAG: the memory-hard hash

    [src/metaldag/metaldag.cpp], from the Keccak permutation up to
    [hashimoto_light], and the reference verifier [metaldag/metaldag-ref.cpp]
    the miner is checked against.  Bytes and words are integers kept at their
    width; an item is its 64 bytes.  A read outside a vector or a remainder by
    zero is [None].

    The theorems: the permutation and the sponge are those of FIPS 202 with the
    original padding byte 0x01; no access leaves the cache or the DAG; verifying
    from the cache computes what hashing against the whole DAG computes; and the
    reference verifier agrees as long as the DAG has at most 2^32 items. *)

From S2P Require Import Prelude Keccak Fips202 Serialize.

Local Open Scope Z_scope.

(** ** Keccak *)

Definition KECCAK_RC : list Z := [
  0x0000000000000001; 0x0000000000008082; 0x800000000000808a; 0x8000000080008000;
  0x000000000000808b; 0x0000000080000001; 0x8000000080008081; 0x8000000000008009;
  0x000000000000008a; 0x0000000000000088; 0x0000000080008009; 0x000000008000000a;
  0x000000008000808b; 0x800000000000008b; 0x8000000000008089; 0x8000000000008003;
  0x8000000000008002; 0x8000000000000080; 0x000000000000800a; 0x800000008000000a;
  0x8000000080008081; 0x8000000000008080; 0x0000000080000001; 0x8000000080008008].
Definition KECCAK_ROT : list Z :=
  [1; 3; 6; 10; 15; 21; 28; 36; 45; 55; 2; 14; 27; 41; 56; 8; 25; 43; 62; 18; 39; 61; 20; 44].
Definition KECCAK_PI : list nat :=
  [10; 7; 11; 17; 18; 3; 5; 16; 8; 21; 24; 4; 15; 23; 19; 13; 12; 2; 20; 14; 22; 9; 6; 1]%nat.
Definition rol64 (x n : Z) : Z := Z.lor (u64 (Z.shiftl x n)) (Z.shiftr x (64 - n)).

(** [st[k] ^= v] *)
Definition xor_at (st : list Z) (k : nat) (v : Z) : list Z := <[k := Z.lxor (st !!! k) v]> st.

(** One pass of the loop over [r], in its four steps. *)
Definition keccakf_theta (st : list Z) : list Z :=
  let bc := fill 5 (fun i => Z.lxor (Z.lxor (Z.lxor (Z.lxor (st !!! i) (st !!! (i + 5)%nat))
              (st !!! (i + 10)%nat)) (st !!! (i + 15)%nat)) (st !!! (i + 20)%nat)) in
  for_loop 5 0 (fun i st =>
    let t := Z.lxor (bc !!! ((i + 4) mod 5)%nat) (rol64 (bc !!! ((i + 1) mod 5)%nat) 1) in
    for_loop 5 0 (fun j st => xor_at st (5 * j + i) t) st) st.
Definition keccakf_rho_pi (st : list Z) : list Z :=
  fst (for_loop 24 0 (fun i '(st, t) =>
    let j := KECCAK_PI !!! i in
    let tmp := st !!! j in
    (<[j := rol64 t (KECCAK_ROT !!! i)]> st, tmp)) (st, st !!! 1%nat)).
Definition keccakf_chi (st : list Z) : list Z :=
  for_loop 5 0 (fun j st =>
    let bc := fill 5 (fun i => st !!! (5 * j + i)%nat) in
    for_loop 5 0 (fun i st =>
      xor_at st (5 * j + i) (Z.land (not64 (bc !!! ((i + 1) mod 5)%nat)) (bc !!! ((i + 2) mod 5)%nat))) st) st.
Definition keccakf_round (r : nat) (st : list Z) : list Z :=
  xor_at (keccakf_chi (keccakf_rho_pi (keccakf_theta st))) 0 (KECCAK_RC !!! r).
Definition keccakf (st : list Z) : list Z := for_loop 24 0 keccakf_round st.

(** The sponge.  [xor_byte] is [st[pt>>3] ^= (uint64_t)b << (8*(pt&7))] and
    [get_byte] is [(uint8_t)(st[i>>3] >> (8*(i&7)))]. *)
Definition keccak_absorb_byte (rate_bytes : nat) (s : list Z * nat) (b : Z) : list Z * nat :=
  let '(st, pt) := s in
  let st := xor_byte st pt b in
  if (S pt =? rate_bytes)%nat then (keccakf st, 0%nat) else (st, S pt).
Definition keccak (rate_bytes : nat) (input : list Z) (outlen : nat) : list Z :=
  let '(st, pt) := fold_left (keccak_absorb_byte rate_bytes) input (fill 25 (fun _ => 0), 0%nat) in
  let st := xor_byte st pt 0x01 in
  let st := xor_byte st (rate_bytes - 1) 0x80 in
  fill outlen (get_byte (keccakf st)).
Definition keccak256 (input : list Z) : list Z := keccak 136 input 32.
Definition keccak512 (input : list Z) : list Z := keccak 72 input 64.

(** The published digests of the empty input and of "abc"; the first is the
    vector of [metaldag-ref.cpp]. *)
Example keccak256_vectors :
  take 8 (keccak256 []) = [0xc5; 0xd2; 0x46; 0x01; 0x86; 0xf7; 0x23; 0x3c] /\
  take 8 (keccak256 [97; 98; 99]) = [0x4e; 0x03; 0x65; 0x7a; 0xea; 0x45; 0xa9; 0x4f] /\
  take 4 (keccak512 []) = [0x0e; 0xab; 0x42; 0xde].
Proof. vm_compute. repeat split. Qed.

(** ** Keccak is the standard's *)

Lemma rol64_ROL x n : is_u64 x -> 0 <= n <= 64 -> rol64 x n = ROL x n.
Proof.
  intros Hx Hn. unfold rol64, ROL. symmetry. rewrite <- Z.lxor_lor; [reflexivity|].
  apply is_u64_testbit in Hx as [H0 Hx]. apply Z.bits_inj'. intros k Hk.
  rewrite Z.land_spec, Z.bits_0, Z.shiftr_spec by lia. rewrite u64_mod.
  change 18446744073709551616 with (2 ^ 64). rewrite Z.testbit_mod_pow2 by lia.
  destruct (Z.ltb_spec k 64); [|reflexivity]. rewrite Z.shiftl_spec by lia.
  destruct (Z.leb_spec n k) as [Hle|Hlt].
  - rewrite (Hx (k + (64 - n))) by lia. apply andb_false_r.
  - rewrite (Z.testbit_neg_r x (k - n)) by lia. reflexivity.
Qed.

Lemma rol64_u64 x n : is_u64 x -> 0 <= n <= 64 -> is_u64 (rol64 x n).
Proof. intros Hx Hn. rewrite rol64_ROL by assumption. apply ROL_u64; assumption. Qed.

Ltac u64_terms := repeat first [assumption | simple apply ROL_u64; [|lia] | simple apply rol64_u64; [|lia] | simple apply not64_u64
                  | simple apply lxor_u64 | simple apply land_u64].

Lemma keccakf_round_half r s :
  state_ok s -> keccakf_round r s = keccak_half (KECCAK_RC !!! r) s.
Proof.
  intros [Hl Hs]. unfold keccakf_round. generalize (KECCAK_RC !!! r) as rc. intros rc.
  do 25 (destruct s as [|? s]; [discriminate|apply Forall_cons in Hs as [? Hs]]).
  destruct s; [|discriminate]. clear Hl Hs.
  cbv -[Z.lxor Z.land rol64 ROL not64].
  repeat (rewrite rol64_ROL; [|u64_terms|lia]). reflexivity.
Qed.

Lemma keccak_half_ok r s : state_ok s -> state_ok (keccak_half (KECCAK_RC !!! r) s).
Proof.
  intros [Hl Hs]. split; [apply keccak_half_length, Hl|].
  apply keccak_half_u64; [exact Hl|apply (round_constant_u64 r)|exact Hs].
Qed.
Lemma keccakf_permute s : state_ok s -> keccakf s = KeccakF1600_StatePermute s.
Proof.
  intros Hs. unfold keccakf. change 24%nat with (2 * 12)%nat.
  change (for_loop (2 * 12) 0 keccakf_round s) with (for_loop (2 * 12) (2 * 0) keccakf_round s).
  rewrite for_loop_pairs. unfold KeccakF1600_StatePermute. change (NROUNDS / 2)%nat with 12%nat.
  apply (for_loop_rel (fun a b => state_ok a /\ a = b)); [auto|].
  intros j a b Hj [Ha <-]. cbv zeta. assert (E : forall r, state_ok (keccakf_round r a)).
  { intros r. rewrite keccakf_round_half by exact Ha. apply keccak_half_ok, Ha. }
  rewrite (keccakf_round_half (2 * j + 1)) by apply E. rewrite (keccakf_round_half (2 * j)) by exact Ha.
  split; [|reflexivity]. apply keccak_half_ok, keccak_half_ok, Ha.
Qed.

Lemma xor_byte_ok s pos b : is_u8 b -> (pos < 200)%nat -> state_ok s -> state_ok (xor_byte s pos b).
Proof.
  intros Hb Hp [Hl Hs]. unfold xor_byte. split; [rewrite length_insert; exact Hl|].
  apply Forall_insert; [exact Hs|]. apply lxor_u64; [|apply u64_range].
  assert (Hi : (pos / 8 < length s)%nat) by (rewrite Hl; apply Nat.Div0.div_lt_upper_bound; lia).
  destruct (lookup_lt_is_Some_2 s _ Hi) as [x Hx].
  rewrite (list_lookup_total_correct _ _ _ Hx). rewrite Forall_lookup in Hs. apply (Hs _ _ Hx).
Qed.
Lemma zero_state_ok : state_ok (fill 25 (fun _ => 0)).
Proof. split; [reflexivity|]. change (fill 25 (fun _ => 0)) with (replicate 25 0). apply Forall_replicate. unfold is_u64. lia. Qed.

(** Absorbing runs in step with [keccak_inc_absorb] of [fips202.c]. *)
Lemma absorb_sim r m st pt :
  (0 < r <= 200)%nat -> bytes_ok m -> (pt < r)%nat -> state_ok st ->
  let '(st', pt') := fold_left (keccak_absorb_byte r) m (st, pt) in
  fold_left (absorb_byte r) m {| lanes := st; count := pt |} = {| lanes := st'; count := pt' |} /\
  (pt' < r)%nat /\ state_ok st'.
Proof.
  intros Hr Hm. revert st pt. induction Hm as [|b m Hb Hm IH]; intros st pt Hpt Hst; [cbn; auto|].
  cbn [fold_left]. unfold absorb_byte at 2. cbn [lanes count keccak_absorb_byte].
  assert (Hx : state_ok (xor_byte st pt b)) by (apply xor_byte_ok; [exact Hb|lia|exact Hst]).
  destruct (Nat.eqb_spec (S pt) r).
  - rewrite keccakf_permute by exact Hx. apply IH; [lia|apply permute_ok, Hx].
  - apply IH; [lia|exact Hx].
Qed.

Lemma keccak_sponge r m n :
  (0 < r <= 200)%nat -> (0 < n <= r)%nat -> bytes_ok m ->
  keccak r m n = fst (keccak_inc_squeeze n (keccak_inc_finalize (keccak_inc_absorb keccak_inc_init r m) r 0x01) r).
Proof.
  intros Hr Hn Hm. unfold keccak. pose proof (absorb_sim r m (fill 25 (fun _ => 0)) 0 Hr Hm ltac:(lia) zero_state_ok) as H.
  rewrite absorb_bytes by (cbn; lia). destruct (fold_left (keccak_absorb_byte r) m _) as [st pt].
  destruct H as (E & Hpt & Hst). unfold keccak_inc_init. rewrite E. unfold keccak_inc_finalize. cbn [lanes count].
  rewrite squeeze_eq by (cbn; lia). rewrite squeeze_bytes_block by lia. cbn [fst].
  rewrite keccakf_permute; [reflexivity|].
  do 2 (apply xor_byte_ok; [unfold is_u8; lia|lia|]). exact Hst.
Qed.

(** the hash of the proof of work is original Keccak: the looped permutation
    is Keccak-f[1600] of FIPS 202 on every state of 64-bit lanes, and the sponge
    is that of the vendored [fips202.c] (absorb, finalize, squeeze) with the
    padding byte 0x01, for every message, rate and digest no longer than it. *)
Theorem metaldag_keccak_standard :
  (forall s, state_ok s -> keccakf s = Standard.keccak_f s) /\
  (forall r m n, (0 < r <= 200)%nat -> (0 < n <= r)%nat -> bytes_ok m ->
    keccak r m n = fst (keccak_inc_squeeze n (keccak_inc_finalize (keccak_inc_absorb keccak_inc_init r m) r 0x01) r)).
Proof.
  split; [|exact keccak_sponge]. intros s Hs. rewrite keccakf_permute by exact Hs.
  apply keccak_permute_spec, Hs.
Qed.

Lemma keccak_out r m n : length (keccak r m n) = n /\ bytes_ok (keccak r m n).
Proof.
  unfold keccak. destruct (fold_left _ _ _) as [st pt].
  split; [apply length_fill|apply bytes_ok_fill; intros; apply get_byte_u8].
Qed.

(** ** Items and words *)

Definition HASH_BYTES : Z := 64.
Definition MIX_BYTES : Z := 128.
Definition WORD_BYTES : Z := 4.
Definition DATASET_PARENTS : nat := 256.
Definition CACHE_ROUNDS : nat := 3.
Definition ACCESSES : nat := 64.

Definition fnv (a b : Z) : Z := Z.lxor (u32 (a * 0x01000193)) b.

(** [Item]: 64 bytes, 16 little-endian words. *)
Abbreviation Item := (list Z).
Definition ReadLE32 (p : list Z) (offset : nat) : Z := le_value (take 4 (drop offset p)).
Definition rd32 (it : Item) (k : nat) : Z := ReadLE32 it (4 * k).
Definition wr32 (it : Item) (k : nat) (v : Z) : Item := list_inserts (4 * k) (le_bytes 4 v) it.

(** ** The verification cache and the items of the DAG *)

(** One step of the rounds: [o[i]] from its predecessor and the item that its
    own first word selects. *)
Definition mkcache_step (n : nat) (i : nat) (o : list Item) : option (list Item) :=
  oi ← o !! i;
  let n32 := u32 (Z.of_nat n) in
  if n32 =? 0 then None else
  let v := rd32 oi 0 mod n32 in
  prev ← o !! ((i + n - 1) mod n)%nat;
  ov ← o !! Z.to_nat v;
  let tmp := for_loop 16 0 (fun k tmp => wr32 tmp k (Z.lxor (rd32 prev k) (rd32 ov k))) (replicate 64 0) in
  Some (<[i := keccak512 tmp]> o).
Definition mkcache (cache_size : Z) (seed : list Z) : option (list Item) :=
  let n := Z.to_nat (cache_size / HASH_BYTES) in
  let o := replicate n (replicate 64 0) in
  if (n =? 0)%nat then None else
  let o := <[0%nat := keccak512 (take 32 seed)]> o in
  o ← for_opt (n - 1) 1 (fun i o => prev ← o !! (i - 1)%nat; Some (<[i := keccak512 prev]> o)) o;
  for_opt CACHE_ROUNDS 0 (fun _ o => for_opt n 0 (mkcache_step n) o) o.

(** One of the [DATASET_PARENTS] rounds. *)
Definition mix_parent (cache : list Item) (i32 : Z) (j : nat) (mix : Item) : option Item :=
  let cache_index := fnv (Z.lxor i32 (Z.of_nat j)) (rd32 mix (j mod 16)) in
  c ← cache !! Z.to_nat (cache_index mod Z.of_nat (length cache));
  Some (for_loop 16 0 (fun k mix => wr32 mix k (fnv (rd32 mix k) (rd32 c k))) mix).
Definition calc_dataset_item (cache : list Item) (i : Z) : option Item :=
  let n := Z.of_nat (length cache) in
  let i32 := u32 i in
  if n =? 0 then None else
  mix ← cache !! Z.to_nat (i mod n);
  let mix := wr32 mix 0 (Z.lxor (rd32 mix 0) i32) in
  let mix := keccak512 mix in
  mix ← for_opt DATASET_PARENTS 0 (mix_parent cache i32) mix;
  Some (keccak512 mix).

(** ** [hashimoto_light] *)

(** The seed hash [s] and the mix it starts. *)
Definition hashimoto_seed (header : list Z) (nonce : Z) : list Z :=
  keccak512 (take 32 header ++ fill 8 (fun k => u8 (Z.shiftr nonce (8 * Z.of_nat k)))).
Definition initial_mix (s : list Z) : list Z := fill 32 (fun i => ReadLE32 s (4 * (i mod 16))).
(** [newdata]: the words of the items [p] and [p + 1]. *)
Definition mix_data (item : Z -> option Item) (p : Z) : option (list Z) :=
  for_opt 2 0 (fun j newdata => di ← item (u64 (p + Z.of_nat j)); Some (newdata ++ fill 16 (rd32 di))) [].
Definition mix_access (item : Z -> option Item) (n s0 : Z) (i : nat) (mix : list Z) : option (list Z) :=
  if n / 2 =? 0 then None else
  let p := u64 (fnv (Z.lxor (Z.of_nat i) s0) (mix !!! (i mod 32)%nat) mod (n / 2) * 2) in
  newdata ← mix_data item p;
  Some (fill 32 (fun k => fnv (mix !!! k) (newdata !!! k))).
Definition compress_mix (mix : list Z) : list Z :=
  fill_chunks 8 (fun i => le_bytes 4
    (fnv (fnv (fnv (mix !!! (4 * i)%nat) (mix !!! (4 * i + 1)%nat)) (mix !!! (4 * i + 2)%nat)) (mix !!! (4 * i + 3)%nat))).
(** The hash over any way of finding the item of an index. *)
Definition hashimoto (item : Z -> option Item) (full_size : Z) (header : list Z) (nonce : Z) : option (list Z) :=
  let n := full_size / HASH_BYTES in
  let s := hashimoto_seed header nonce in
  mix ← for_opt ACCESSES 0 (mix_access item n (ReadLE32 s 0)) (initial_mix s);
  Some (keccak256 (s ++ compress_mix mix)).
Definition hashimoto_light (full_size : Z) (cache : list Item) (header : list Z) (nonce : Z) : option (list Z) :=
  hashimoto (calc_dataset_item cache) full_size header nonce.

(** ** [metaldag-ref.cpp]: the same hash on 32-bit indices *)

Definition ref_calc_dataset_item (cache : list Item) (i : Z) : option Item :=
  let n := Z.of_nat (length cache) in
  if n =? 0 then None else
  mix ← cache !! Z.to_nat (i mod n);
  let mix := wr32 mix 0 (Z.lxor (rd32 mix 0) i) in
  let mix := keccak512 mix in
  mix ← for_opt DATASET_PARENTS 0 (mix_parent cache i) mix;
  Some (keccak512 mix).
Definition ref_mix_access (cache : list Item) (n s0 : Z) (i : nat) (mix : list Z) : option (list Z) :=
  if u32 (n / 2) =? 0 then None else
  let p := u32 (fnv (Z.lxor (Z.of_nat i) s0) (mix !!! (i mod 32)%nat) mod u32 (n / 2) * 2) in
  newdata ← for_opt 2 0 (fun j newdata =>
    di ← ref_calc_dataset_item cache (u32 (p + Z.of_nat j)); Some (newdata ++ fill 16 (rd32 di))) [];
  Some (fill 32 (fun k => fnv (mix !!! k) (newdata !!! k))).
(** [HashimotoOut]: the mix digest and the result. *)
Definition ref_hashimoto_light (full_size : Z) (cache : list Item) (header : list Z) (nonce : Z) : option (list Z * list Z) :=
  let n := full_size / HASH_BYTES in
  let s := hashimoto_seed header nonce in
  mix ← for_opt ACCESSES 0 (ref_mix_access cache n (ReadLE32 s 0)) (initial_mix s);
  let cmix := compress_mix mix in
  Some (cmix, keccak256 (s ++ cmix)).

(** ** Totality: no access leaves its vector *)

Definition item_ok (it : Item) : Prop := length it = 64%nat /\ bytes_ok it.
Definition cache_ok (cache : list Item) : Prop := cache <> [] /\ Forall item_ok cache.

Lemma keccak512_item m : item_ok (keccak512 m).
Proof. apply (keccak_out 72 m 64). Qed.

(** A remainder by the length is an index. *)
Lemma lookup_mod {A : Type} (l : list A) i n :
  0 < n <= Z.of_nat (length l) -> exists x, l !! Z.to_nat (i mod n) = Some x.
Proof.
  intros Hn. apply lookup_lt_is_Some_2. pose proof (Z.mod_pos_bound i n ltac:(lia)). lia.
Qed.

Lemma mkcache_step_ok n i o :
  (i < n)%nat -> Z.of_nat n < 2 ^ 32 -> length o = n -> Forall item_ok o ->
  exists o', mkcache_step n i o = Some o' /\ length o' = n /\ Forall item_ok o'.
Proof.
  intros Hi Hn Hl Ho. unfold mkcache_step.
  destruct (lookup_lt_is_Some_2 o i ltac:(lia)) as [oi ->]. cbn [mbind option_bind].
  rewrite (u32_id (Z.of_nat n)) by (unfold is_u32; lia). rewrite (proj2 (Z.eqb_neq _ _)) by lia.
  destruct (lookup_lt_is_Some_2 o ((i + n - 1) mod n)) as [p ->]; [pose proof (Nat.mod_upper_bound (i + n - 1) n); lia|].
  cbn [mbind option_bind]. destruct (lookup_mod o (rd32 oi 0) (Z.of_nat n) ltac:(lia)) as [v ->]. cbn [mbind option_bind].
  eexists. split; [reflexivity|]. rewrite length_insert. split; [exact Hl|].
  apply Forall_insert; [exact Ho|apply keccak512_item].
Qed.

(** [mkcache] returns a vector of [cache_size / 64] items. *)
Lemma mkcache_ok cache_size seed :
  HASH_BYTES <= cache_size < 2 ^ 32 * HASH_BYTES ->
  exists o, mkcache cache_size seed = Some o /\ Z.of_nat (length o) = cache_size / HASH_BYTES /\ cache_ok o.
Proof.
  intros Hc. assert (Hn : 1 <= cache_size / HASH_BYTES < 2 ^ 32).
  { unfold HASH_BYTES in *. split; [apply Z.div_le_lower_bound; lia|apply Z.div_lt_upper_bound; lia]. }
  unfold mkcache. set (n := Z.to_nat (cache_size / HASH_BYTES)).
  assert (En : Z.of_nat n = cache_size / HASH_BYTES) by (subst n; lia).
  rewrite (proj2 (Nat.eqb_neq n 0)) by lia.
  assert (Hz : item_ok (replicate 64 0)).
  { split; [reflexivity|apply Forall_replicate; unfold is_u8; lia]. }
  match goal with |- context [for_opt (n - 1) 1 ?b ?s] =>
    destruct (for_opt_inv (fun _ o => length o = n /\ Forall item_ok o) b (n - 1) 1 s) as (o1 & -> & Hl1 & Ho1) end.
  { rewrite length_insert, length_replicate. split; [reflexivity|].
    apply Forall_insert; [apply Forall_replicate, Hz|apply keccak512_item]. }
  { intros j o Hj [Hl Ho]. destruct (lookup_lt_is_Some_2 o (j - 1) ltac:(lia)) as [p ->]. cbn [mbind option_bind].
    eexists. split; [reflexivity|]. rewrite length_insert. split; [exact Hl|].
    apply Forall_insert; [exact Ho|apply keccak512_item]. }
  cbn [mbind option_bind].
  destruct (for_opt_inv (fun _ o => length o = n /\ Forall item_ok o)
    (fun _ o => for_opt n 0 (mkcache_step n) o) CACHE_ROUNDS 0 o1) as (o2 & -> & Hl2 & Ho2); [auto| |].
  { intros _ o _ [Hl Ho].
    apply (for_opt_inv (fun _ o => length o = n /\ Forall item_ok o)); [auto|].
    intros i t Hi [Hlt Ht]. apply mkcache_step_ok; [lia|lia|exact Hlt|exact Ht]. }
  exists o2. split; [reflexivity|]. split; [lia|]. split; [|exact Ho2].
  intros ->. cbn in Hl2. lia.
Qed.

Lemma calc_dataset_item_ok cache i :
  cache <> [] -> exists it, calc_dataset_item cache i = Some it /\ item_ok it.
Proof.
  intros Hc. assert (Hn : 0 < Z.of_nat (length cache)) by (destruct cache; [congruence|cbn; lia]).
  unfold calc_dataset_item. rewrite (proj2 (Z.eqb_neq _ _)) by lia.
  destruct (lookup_mod cache i (Z.of_nat (length cache)) ltac:(lia)) as [m ->]. cbn [mbind option_bind].
  destruct (for_opt_inv (fun _ _ => True) (mix_parent cache (u32 i)) DATASET_PARENTS 0
    (keccak512 (wr32 m 0 (Z.lxor (rd32 m 0) (u32 i))))) as (o & -> & _); [exact I| |].
  { intros j t _ _. unfold mix_parent.
    destruct (lookup_mod cache (fnv (Z.lxor (u32 i) (Z.of_nat j)) (rd32 t (j mod 16))) (Z.of_nat (length cache)) ltac:(lia))
      as [c ->]. cbn [mbind option_bind]. eauto. }
  cbn [mbind option_bind]. eexists. split; [reflexivity|apply keccak512_item].
Qed.

(** The pair of items an access reads lies in the DAG. *)
Lemma access_index n x (j : nat) :
  2 <= n < 2 ^ 63 -> (j < 2)%nat ->
  u64 (u64 (x mod (n / 2) * 2) + Z.of_nat j) = x mod (n / 2) * 2 + Z.of_nat j /\
  0 <= x mod (n / 2) * 2 + Z.of_nat j < n.
Proof.
  intros Hn Hj. assert (1 <= n / 2) by (apply Z.div_le_lower_bound; lia).
  pose proof (Z.mod_pos_bound x (n / 2) ltac:(lia)). pose proof (Z.mul_div_le n 2 ltac:(lia)).
  rewrite (u64_id (x mod (n / 2) * 2)) by (unfold is_u64; lia).
  rewrite u64_id by (unfold is_u64; lia). lia.
Qed.

(** The hash depends only on the items of the DAG. *)
Lemma hashimoto_ext f g full_size header nonce :
  2 <= full_size / HASH_BYTES < 2 ^ 63 ->
  (forall i, 0 <= i < full_size / HASH_BYTES -> f i = g i) ->
  hashimoto f full_size header nonce = hashimoto g full_size header nonce.
Proof.
  intros Hn Hfg. unfold hashimoto. erewrite for_opt_ext; [reflexivity|]. intros j mix _. unfold mix_access.
  destruct (_ =? 0); [reflexivity|]. unfold mix_data. erewrite for_opt_ext; [reflexivity|].
  intros k nd Hk. cbv beta.
  destruct (access_index (full_size / HASH_BYTES)
    (fnv (Z.lxor (Z.of_nat j) (ReadLE32 (hashimoto_seed header nonce) 0)) (mix !!! (j mod 32)%nat)) k Hn ltac:(lia)) as [-> Hr].
  rewrite Hfg by exact Hr. reflexivity.
Qed.
Lemma hashimoto_total item full_size header nonce :
  2 <= full_size / HASH_BYTES < 2 ^ 63 ->
  (forall i, 0 <= i < full_size / HASH_BYTES -> is_Some (item i)) ->
  exists r, hashimoto item full_size header nonce = Some r /\ length r = 32%nat /\ bytes_ok r.
Proof.
  intros Hn Hi. unfold hashimoto.
  destruct (for_opt_inv (fun _ _ => True) (mix_access item (full_size / HASH_BYTES)
    (ReadLE32 (hashimoto_seed header nonce) 0)) ACCESSES 0 (initial_mix (hashimoto_seed header nonce))) as (m & -> & _);
    [exact I| |cbn [mbind option_bind]; eexists; split; [reflexivity|apply (keccak_out 136)]].
  intros j mix _ _. unfold mix_access.
  rewrite (proj2 (Z.eqb_neq _ _)) by (pose proof (Z.div_le_lower_bound (full_size / HASH_BYTES) 2 1); lia).
  unfold mix_data.
  match goal with |- context [for_opt 2 0 ?b []] => destruct (for_opt_inv (fun _ _ => True) b 2 0 []) as (nd & -> & _) end;
    [exact I| |cbn [mbind option_bind]; eauto].
  intros k nd Hk _. cbv beta.
  destruct (access_index (full_size / HASH_BYTES)
    (fnv (Z.lxor (Z.of_nat j) (ReadLE32 (hashimoto_seed header nonce) 0)) (mix !!! (j mod 32)%nat)) k Hn ltac:(lia)) as [-> Hr].
  destruct (Hi _ Hr) as [it ->]. cbn [mbind option_bind]. eauto.
Qed.

(** ** Hashing against the whole DAG, and the reference verifier *)

(** [dag] is the DAG of [n] items a miner builds from the cache. *)
Definition is_dag (cache dag : list Item) (n : Z) : Prop :=
  Z.of_nat (length dag) = n /\ forall i, 0 <= i < n -> calc_dataset_item cache i = dag !! Z.to_nat i.

Lemma ref_item_eq cache i : is_u32 i -> ref_calc_dataset_item cache i = calc_dataset_item cache i.
Proof. intros Hi. unfold ref_calc_dataset_item, calc_dataset_item. rewrite u32_id by exact Hi. reflexivity. Qed.

Lemma ref_access_eq cache n s0 i mix :
  2 <= n <= 2 ^ 32 -> ref_mix_access cache n s0 i mix = mix_access (calc_dataset_item cache) n s0 i mix.
Proof.
  intros Hn. unfold ref_mix_access, mix_access.
  assert (Hh : 1 <= n / 2 <= 2 ^ 31) by (split; [apply Z.div_le_lower_bound; lia|apply Z.div_le_upper_bound; lia]).
  rewrite (u32_id (n / 2)) by (unfold is_u32; lia). destruct (_ =? 0); [reflexivity|].
  generalize (fnv (Z.lxor (Z.of_nat i) s0) (mix !!! (i mod 32)%nat)) as x. intros x. unfold mix_data.
  erewrite for_opt_ext; [reflexivity|]. intros j nd Hj. cbv beta.
  destruct (access_index n x j ltac:(lia) ltac:(lia)) as [-> Hr].
  pose proof (Z.mod_pos_bound x (n / 2) ltac:(lia)).
  rewrite (u32_id (x mod (n / 2) * 2)) by (unfold is_u32; lia). rewrite u32_id by (unfold is_u32; lia).
  rewrite ref_item_eq by (unfold is_u32; lia). reflexivity.
Qed.

(** C28: verifying from the cache is hashing against the DAG: for every header
    and nonce [hashimoto_light] returns 32 bytes, every item it derives is an item
    of the DAG, so the result is the one of a miner that reads the DAG from memory;
    and the reference verifier [metaldag-ref.cpp], whose indices are 32-bit, has
    the same result as long as the DAG has at most 2^32 items. *)
Theorem light_verification_correct (full_size : Z) (cache dag : list Item) (header : list Z) (nonce : Z) :
  cache <> [] -> 2 <= full_size / HASH_BYTES < 2 ^ 63 ->
  is_dag cache dag (full_size / HASH_BYTES) ->
  (exists r, hashimoto_light full_size cache header nonce = Some r /\ length r = 32%nat /\ bytes_ok r) /\
  hashimoto_light full_size cache header nonce = hashimoto (fun i => dag !! Z.to_nat i) full_size header nonce /\
  (full_size / HASH_BYTES <= 2 ^ 32 ->
   snd <$> ref_hashimoto_light full_size cache header nonce = hashimoto_light full_size cache header nonce).
Proof.
  intros Hc Hn [_ Hd]. split; [|split].
  - apply hashimoto_total; [exact Hn|]. intros i _. destruct (calc_dataset_item_ok cache i Hc) as (it & -> & _). eauto.
  - apply hashimoto_ext; [exact Hn|exact Hd].
  - intros Hs. unfold ref_hashimoto_light, hashimoto_light, hashimoto. erewrite for_opt_ext.
    2: { intros j t _. apply ref_access_eq. lia. }
    destruct (for_opt _ _ _ _); reflexivity.
Qed.

(** The DAG of a cache. *)
Definition build_dag (cache : list Item) (n : Z) : list Item :=
  fill (Z.to_nat n) (fun i => default [] (calc_dataset_item cache (Z.of_nat i))).
Lemma build_dag_ok cache n : cache <> [] -> 0 <= n -> is_dag cache (build_dag cache n) n.
Proof.
  intros Hc Hn. split; [unfold build_dag; rewrite length_fill; lia|]. intros i Hi.
  unfold build_dag. rewrite lookup_fill by lia. rewrite Z2Nat.id by lia.
  destruct (calc_dataset_item_ok cache i Hc) as (it & -> & _). reflexivity.
Qed.

Module DagDemo.
(** The cache of five items of epoch 0. *)
Definition cache5 : list Item := default [] (mkcache 320 (replicate 32 0)).
Lemma cache5_nonempty : cache5 <> [].
Proof. vm_compute. discriminate. Qed.
End DagDemo.

Lemma light_verification_correct_witness :
  hashimoto_light (61 * 128) DagDemo.cache5 (replicate 32 0) 42
  = hashimoto (fun i => build_dag DagDemo.cache5 122 !! Z.to_nat i) (61 * 128) (replicate 32 0) 42.
Proof.
  refine (proj1 (proj2 (light_verification_correct (61 * 128) DagDemo.cache5 (build_dag DagDemo.cache5 122) (replicate 32 0) 42 _ _ _))).
  - apply DagDemo.cache5_nonempty.
  - change (61 * 128 / HASH_BYTES) with 122. lia.
  - change (61 * 128 / HASH_BYTES) with 122. apply build_dag_ok; [apply DagDemo.cache5_nonempty|lia].
Defined.

(** Past 2^32 items a 32-bit index names another item: item 2^32 + 1 of the
    five-item cache is not the item 1 that the reference verifier derives. *)
Example reference_index_wraps :
  calc_dataset_item DagDemo.cache5 (2 ^ 32 + 1) <> ref_calc_dataset_item DagDemo.cache5 (u32 (2 ^ 32 + 1)).
Proof. vm_compute. discriminate. Qed.
