(* ===== verification/MetalEpoch.v ===== *)
(** * MetalDAG: the sizes of an epoch

    [is_prime], [largest_prime_sized] and [GetEpochSizing] of
    [src/metaldag/metaldag.cpp].  Trial division and the search for a prime are
    loops without a structural bound; [iter_until] runs a loop body for up to a
    binary number of turns and stops at its result, and [None] says the turns
    were used up.  The theorems show that this never happens, that the test is
    primality, and that the sizes are the largest with a prime number of items. *)

From Stdlib Require Import Znumtheory.
From S2P Require Import Prelude ConsensusParams MetalDag.

Local Open Scope Z_scope.

(** ** Loops with an early exit *)

Fixpoint iter_until {A B : Type} (p : positive) (f : A -> A + B) (s : A) : A + B :=
  match p with
  | xH => f s
  | xO p => match iter_until p f s with inl s => iter_until p f s | inr b => inr b end
  | xI p =>
      match f s with
      | inr b => inr b
      | inl s => match iter_until p f s with inl s => iter_until p f s | inr b => inr b end
      end
  end.

Section IterUntil.
Context {A B : Type} (f : A -> A + B) (I : A -> Prop) (Q : B -> Prop) (m : A -> Z).
Hypothesis step : forall s, I s -> match f s with inl s' => I s' /\ m s' < m s | inr b => Q b end.

Lemma iter_until_inv p s :
  I s -> match iter_until p f s with inl s' => I s' /\ m s' + Zpos p <= m s | inr b => Q b end.
Proof using step.
  revert s. induction p as [p IH|p IH|]; intros s Hs; cbn [iter_until].
  - pose proof (step s Hs) as H1. destruct (f s) as [s1|]; [|exact H1]. destruct H1 as [H1 M1].
    pose proof (IH s1 H1) as H2. destruct (iter_until p f s1) as [s2|]; [|exact H2]. destruct H2 as [H2 M2].
    pose proof (IH s2 H2) as H3. destruct (iter_until p f s2) as [s3|]; [|exact H3]. split; [apply H3|lia].
  - pose proof (IH s Hs) as H2. destruct (iter_until p f s) as [s2|]; [|exact H2]. destruct H2 as [H2 M2].
    pose proof (IH s2 H2) as H3. destruct (iter_until p f s2) as [s3|]; [|exact H3]. split; [apply H3|lia].
  - pose proof (step s Hs) as H1. destruct (f s) as [s1|]; [|exact H1]. split; [apply H1|lia].
Qed.
(** With more turns than the measure the loop ends. *)
Lemma iter_until_total p s :
  (forall t, I t -> 0 <= m t) -> I s -> m s < Zpos p -> exists b, iter_until p f s = inr b /\ Q b.
Proof using step.
  intros Hm Hs Hp. pose proof (iter_until_inv p s Hs) as H.
  destruct (iter_until p f s) as [t|b]; [|eauto]. destruct H as [Ht H]. specialize (Hm t Ht). lia.
Qed.
End IterUntil.

(** ** The code *)

(** [for(uint64_t i=3;i*i<=n;i+=2)]: [i] is odd, so never zero. *)
Definition trial_step (n i : Z) : Z + bool :=
  if u64 (i * i) <=? n then if n mod i =? 0 then inr false else inl (u64 (i + 2)) else inr true.
Definition is_prime (n : Z) : option bool :=
  if n <? 2 then Some false
  else if n mod 2 =? 0 then Some (n =? 2)
  else match iter_until (Z.to_pos (n + 1)) (trial_step n) 3 with inr b => Some b | inl _ => None end.

(** [while(items > 2 && !is_prime(items)) items--;] *)
Definition items_step (items : Z) : Z + option Z :=
  if items >? 2 then
    match is_prime items with
    | None => inr None
    | Some true => inr (Some items)
    | Some false => inl (items - 1)
    end
  else inr (Some items).
Definition largest_prime_sized (target unit : Z) : option Z :=
  let items := target / unit in
  let items := if items <? 2 then 2 else items in
  match iter_until (Z.to_pos items) items_step items with
  | inr (Some items) => Some (u64 (items * unit))
  | _ => None
  end.

Record EpochSizing := mkEpochSizing { epoch : Z; cache_size : Z; full_size : Z }.

(** [metaldagEpochSeconds ? ... : 1209600], both branches converted to
    [uint64_t]; the divisor likewise to [uint32_t]. *)
Definition epoch_seconds (params : Params) : Z :=
  if metaldagEpochSeconds params =? 0 then 1209600 else u64 (metaldagEpochSeconds params).
Definition cache_divisor (params : Params) : Z :=
  if metaldagCacheDivisor params =? 0 then 128 else u32 (metaldagCacheDivisor params).
Definition GetEpochSizing (nTime : Z) (params : Params) : option EpochSizing :=
  let base := u64 (metaldagBaseTime params) in
  let rel := if nTime >? base then nTime - base else 0 in
  let e := rel / epoch_seconds params in
  let raw_full := u64 (u64 (metaldagDagInitBytes params) + u64 (u64 (metaldagDagGrowthBytes params) * e)) in
  let raw_cache := raw_full / cache_divisor params in
  let raw_full := if raw_full <? MIX_BYTES * 2 then MIX_BYTES * 2 else raw_full in
  let raw_cache := if raw_cache <? HASH_BYTES * 2 then HASH_BYTES * 2 else raw_cache in
  full ← largest_prime_sized raw_full MIX_BYTES;
  cache ← largest_prime_sized raw_cache HASH_BYTES;
  Some (mkEpochSizing e cache full).

Definition METALDAG_MAX_CACHE_BYTES : Z := 64 * 1024 * 1024 * 1024.

(** The sizes [pow_tests.cpp] pins for the mainnet schedule at epochs 4064 and
    4065, counted in pairs of items. *)
Example schedule_vectors :
  map (fun e => (fun s => s / 128) <$> largest_prime_sized (4 * 2 ^ 30 + 128 * 2 ^ 20 * e) MIX_BYTES) [0; 4064; 4065]
  = [Some 33554393; Some 4294967291; Some 4296015853].
Proof. vm_compute. reflexivity. Qed.

(** ** Trial division decides primality *)

(** No divisor up to the square root. *)
Lemma prime_sqrt n : 2 <= n -> (forall d, 1 < d -> d * d <= n -> ~ (d | n)) -> Z.prime n.
Proof.
  intros Hn H. split; [lia|]. intros d Hd [q Hq].
  destruct (Z.le_gt_cases (d * d) n) as [Hle|Hgt].
  - apply (H d ltac:(lia) Hle). exists q. exact Hq.
  - apply (H q); [nia|nia|]. exists d. lia.
Qed.

(** When the loop is at [i], nothing below [i] divides [n]. *)
Definition trial_inv (n i : Z) : Prop :=
  3 <= i <= n + 3 /\ i < 2 ^ 32 /\ Z.odd i = true /\ forall d, 1 < d < i -> ~ (d | n).

Lemma odd_next n i : Z.odd n = true -> Z.odd i = true -> ~ (i + 1 | n).
Proof.
  intros Hn Hi [q Hq]. rewrite Hq, Z.odd_mul, Z.odd_add, Hi in Hn. cbn in Hn. rewrite andb_false_r in Hn. discriminate.
Qed.

Lemma trial_step_inv n i :
  2 <= n < 2 ^ 63 -> Z.odd n = true -> trial_inv n i ->
  match trial_step n i with
  | inl i' => trial_inv n i' /\ n + 3 - i' < n + 3 - i
  | inr b => b = true <-> Z.prime n
  end.
Proof.
  intros Hn Ho (Hi & Hw & Hoi & Hd). unfold trial_step. rewrite (u64_id (i * i)) by (unfold is_u64; nia).
  destruct (Z.leb_spec (i * i) n) as [Hle|Hgt].
  - assert (Hib : i < 3037000500) by nia. destruct (Z.eqb_spec (n mod i) 0) as [E|E].
    + split; [discriminate|]. intros Hp. destruct (Z.divide_prime_r i n Hp) as [?|[?|[?|?]]]; try nia.
      apply Z.mod_divide; [lia|exact E].
    + rewrite u64_id by (unfold is_u64; lia). unfold trial_inv. split; [|lia]. split; [nia|]. split; [lia|].
      split; [rewrite Z.odd_add, Hoi; reflexivity|]. intros d Hd'.
      destruct (Z.lt_ge_cases d i); [apply Hd; lia|]. destruct (Z.eq_dec d i) as [->|Hne].
      * intros Hx. apply E, Z.mod_divide; [lia|exact Hx].
      * replace d with (i + 1) by lia. apply odd_next; assumption.
  - split; [intros _|reflexivity]. apply prime_sqrt; [lia|]. intros d Hd1 Hd2. apply Hd. nia.
Qed.

Lemma is_prime_spec n : n < 2 ^ 63 -> exists b, is_prime n = Some b /\ (b = true <-> Z.prime n).
Proof.
  intros Hn. unfold is_prime. destruct (Z.ltb_spec n 2) as [Hs|Hs].
  - exists false. split; [reflexivity|]. split; [discriminate|]. intros Hp. pose proof (Z.prime_ge_2 n Hp). lia.
  - destruct (Z.eqb_spec (n mod 2) 0) as [E|E].
    + eexists. split; [reflexivity|]. rewrite Z.eqb_eq. split; [intros ->; apply Z.prime_2|]. intros Hp.
      destruct (Z.divide_prime_r 2 n Hp) as [?|[?|[?|?]]]; try lia. apply Z.mod_divide; [lia|exact E].
    + assert (Ho : Z.odd n = true) by (rewrite Zmod_odd in E; destruct (Z.odd n); [reflexivity|lia]).
      destruct (iter_until_total (trial_step n) (trial_inv n) (fun b => b = true <-> Z.prime n) (fun i => n + 3 - i)
        (fun i Hi => trial_step_inv n i ltac:(lia) Ho Hi) (Z.to_pos (n + 1)) 3) as (b & -> & Hb).
      * intros t (Ht & _). lia.
      * split; [lia|]. split; [lia|]. split; [reflexivity|]. intros d Hd. replace d with 2 by lia.
        intros Hx. apply E, Z.mod_divide; [lia|exact Hx].
      * lia.
      * eauto.
Qed.

(** The largest prime number of items, at least 2. *)
Definition is_largest_prime (items p : Z) : Prop :=
  Z.prime p /\ p <= items /\ forall q, Z.prime q -> q <= items -> q <= p.

Lemma largest_prime_sized_spec target unit :
  0 <= target < 2 ^ 64 -> 2 <= unit < 2 ^ 32 ->
  exists p, largest_prime_sized target unit = Some (p * unit) /\ is_largest_prime (Z.max 2 (target / unit)) p /\
    (target / unit < 2 \/ p * unit <= target).
Proof.
  intros Ht Hu. unfold largest_prime_sized.
  assert (Hq : 0 <= target / unit < 2 ^ 63) by (split; [apply Z.div_pos; lia|apply Z.div_lt_upper_bound; nia]).
  set (items := if target / unit <? 2 then 2 else target / unit).
  assert (Ei : items = Z.max 2 (target / unit)) by (subst items; destruct (Z.ltb_spec (target / unit) 2); lia).
  rewrite <- Ei.
  destruct (iter_until_total items_step (fun i => 2 <= i <= items /\ forall q, Z.prime q -> q <= items -> q <= i)
    (fun r => exists p, r = Some p /\ is_largest_prime items p) (fun i => i - 2)) with (p := Z.to_pos items) (s := items)
    as (r & -> & p & -> & Hp).
  - intros i [Hi Hq']. unfold items_step. destruct (Z.gtb_spec i 2).
    + destruct (is_prime_spec i ltac:(lia)) as (b & -> & Hb). destruct b.
      * exists i. split; [reflexivity|]. split; [apply Hb; reflexivity|]. split; [lia|exact Hq'].
      * split; [|lia]. split; [lia|]. intros q Hp Hle. specialize (Hq' q Hp Hle).
        destruct (Z.eq_dec q i) as [->|]; [|lia]. apply Hb in Hp. discriminate.
    + exists i. split; [reflexivity|]. replace i with 2 in * by lia. split; [apply Z.prime_2|]. split; [lia|exact Hq'].
  - intros i Hi. lia.
  - split; [lia|auto].
  - lia.
  - destruct Hp as (Hp & Hle & Hmax). pose proof (Z.prime_ge_2 p Hp) as H2.
    assert (Hw : p * unit < 2 ^ 64 /\ (target / unit < 2 \/ p * unit <= target)).
    { pose proof (Z.mul_div_le target unit ltac:(lia)). destruct (Z.lt_ge_cases (target / unit) 2) as [Hlt|Hge]; [|nia].
      assert (p = 2) as -> by lia. lia. }
    exists p. rewrite u64_id by (unfold is_u64; lia). split; [reflexivity|]. split; [split; auto|apply Hw].
Qed.

(** ** The sizes of an epoch *)

(** The widths of the fields of [Consensus::Params]. *)
Record metaldag_params (params : Params) : Prop := {
  mp_base : is_i64 (metaldagBaseTime params);
  mp_seconds : is_i64 (metaldagEpochSeconds params);
  mp_init : is_i64 (metaldagDagInitBytes params);
  mp_growth : is_i64 (metaldagDagGrowthBytes params);
  mp_divisor : is_i32 (metaldagCacheDivisor params)
}.
Lemma mainnet_metaldag_params : metaldag_params CMainParams.
Proof. split; vm_compute; split; discriminate. Qed.

Lemma u64_i64_pos x : is_i64 x -> x <> 0 -> 0 < u64 x.
Proof. intros Hx Hn. zlia. Qed.
Lemma u32_i32_pos x : is_i32 x -> x <> 0 -> 0 < u32 x < 2 ^ 32.
Proof. intros Hx Hn. zlia. Qed.

(** The divisions of [GetEpochSizing] are by positive numbers. *)
Lemma epoch_divisors_pos params :
  metaldag_params params -> 0 < epoch_seconds params /\ 0 < cache_divisor params.
Proof.
  intros [_ Hs _ _ Hd]. unfold epoch_seconds, cache_divisor.
  destruct (Z.eqb_spec (metaldagEpochSeconds params) 0), (Z.eqb_spec (metaldagCacheDivisor params) 0);
    split; try lia; (apply u64_i64_pos || apply u32_i32_pos); assumption.
Qed.

(** The epoch of a header time, the DAG bytes the schedule gives it, and the
    numbers of pairs and of cache items they allow. *)
Definition epoch_of (nTime : Z) (params : Params) : Z :=
  Z.max 0 (nTime - u64 (metaldagBaseTime params)) / epoch_seconds params.
Definition dag_bytes (params : Params) (e : Z) : Z :=
  (metaldagDagInitBytes params + metaldagDagGrowthBytes params * e) mod 2 ^ 64.
Definition max_pairs (params : Params) (e : Z) : Z := Z.max 2 (dag_bytes params e / MIX_BYTES).
Definition max_cache_items (params : Params) (e : Z) : Z :=
  Z.max 2 (dag_bytes params e / cache_divisor params / HASH_BYTES).

Lemma div_clamp x u : 0 <= x -> 0 < u -> (if x <? u * 2 then u * 2 else x) / u = Z.max 2 (x / u).
Proof.
  intros Hx Hu. destruct (Z.ltb_spec x (u * 2)).
  - rewrite Z.mul_comm, Z.div_mul by lia. pose proof (Z.div_lt_upper_bound x u 2). lia.
  - pose proof (Z.div_le_lower_bound x u 2). lia.
Qed.
(** A clamped size: the largest prime number of units. *)
Lemma clamped_sized x u :
  0 <= x < 2 ^ 64 -> 2 <= u < 2 ^ 32 ->
  exists p, largest_prime_sized (if x <? u * 2 then u * 2 else x) u = Some (p * u) /\ is_largest_prime (Z.max 2 (x / u)) p.
Proof.
  intros Hx Hu. destruct (largest_prime_sized_spec (if x <? u * 2 then u * 2 else x) u) as (p & E & Hp & _);
    [destruct (Z.ltb_spec x (u * 2)); lia|exact Hu|].
  rewrite div_clamp in Hp by lia. rewrite Z.max_r in Hp by lia. eauto.
Qed.

Lemma GetEpochSizing_spec nTime params :
  metaldag_params params -> is_u32 nTime ->
  exists pairs items, GetEpochSizing nTime params
    = Some (mkEpochSizing (epoch_of nTime params) (items * HASH_BYTES) (pairs * MIX_BYTES)) /\
  is_largest_prime (max_pairs params (epoch_of nTime params)) pairs /\
  is_largest_prime (max_cache_items params (epoch_of nTime params)) items.
Proof.
  intros Hp Ht. destruct (epoch_divisors_pos params Hp) as [Hs Hd]. unfold GetEpochSizing.
  assert (E : (if nTime >? u64 (metaldagBaseTime params) then nTime - u64 (metaldagBaseTime params) else 0)
    = Z.max 0 (nTime - u64 (metaldagBaseTime params))) by (destruct (Z.gtb_spec nTime (u64 (metaldagBaseTime params))); lia).
  rewrite E. fold (epoch_of nTime params). set (e := epoch_of nTime params).
  assert (Er : u64 (u64 (metaldagDagInitBytes params) + u64 (u64 (metaldagDagGrowthBytes params) * e)) = dag_bytes params e).
  { unfold dag_bytes. rewrite !u64_mod. change 18446744073709551616 with (2 ^ 64).
    rewrite Z.mul_mod_idemp_l, <- Z.add_mod by lia. reflexivity. }
  rewrite Er. assert (Hr : 0 <= dag_bytes params e < 2 ^ 64) by (apply Z.mod_pos_bound; lia).
  assert (Hc : 0 <= dag_bytes params e / cache_divisor params < 2 ^ 64).
  { split; [apply Z.div_pos; lia|]. apply Z.div_lt_upper_bound; nia. }
  destruct (clamped_sized _ MIX_BYTES Hr) as (p & -> & H1); [unfold MIX_BYTES; lia|].
  destruct (clamped_sized _ HASH_BYTES Hc) as (q & -> & H2); [unfold HASH_BYTES; lia|].
  exists p, q. split; [reflexivity|]. split; assumption.
Qed.

(** On mainnet a 32-bit time reaches epoch 2070 at most. *)
Lemma mainnet_epoch_bound nTime : is_u32 nTime -> 0 <= epoch_of nTime CMainParams <= 2070.
Proof.
  intros Ht. unfold epoch_of. change (epoch_seconds CMainParams) with 1209600.
  change (u64 (metaldagBaseTime CMainParams)) with 1790380800. unfold is_u32 in Ht.
  split; [apply Z.div_pos; lia|apply Z.lt_succ_r, Z.div_lt_upper_bound; lia].
Qed.
Lemma mainnet_dag_bytes e : 0 <= e <= 2070 -> dag_bytes CMainParams e = 4294967296 + 134217728 * e.
Proof. intros He. unfold dag_bytes. cbn [metaldagDagInitBytes metaldagDagGrowthBytes CMainParams]. apply Z.mod_small. lia. Qed.

(** C26: the sizes of an epoch: for every header time and parameters of the
    declared widths the search ends, and the DAG and the verification cache have
    the largest prime number of pairs and of items that the schedule allows (two
    at least).  On mainnet no header time reaches the cap on the cache, so no
    header is refused for its size, and the number of pairs fits 32 bits. *)
Theorem epoch_sizes_correct (nTime : Z) (Ht : is_u32 nTime) :
  (forall params, metaldag_params params ->
   exists pairs items, GetEpochSizing nTime params
     = Some (mkEpochSizing (epoch_of nTime params) (items * HASH_BYTES) (pairs * MIX_BYTES)) /\
   is_largest_prime (max_pairs params (epoch_of nTime params)) pairs /\
   is_largest_prime (max_cache_items params (epoch_of nTime params)) items) /\
  (exists e, GetEpochSizing nTime CMainParams = Some e /\ 0 <= epoch e <= 2070 /\
   cache_size e <= 2204106752 < METALDAG_MAX_CACHE_BYTES /\ full_size e / MIX_BYTES < 2 ^ 32).
Proof.
  split; [intros params Hp; apply GetEpochSizing_spec; assumption|].
  destruct (GetEpochSizing_spec nTime CMainParams mainnet_metaldag_params Ht) as (p & q & -> & Hp & Hq).
  pose proof (mainnet_epoch_bound nTime Ht) as He. eexists. split; [reflexivity|]. cbn [epoch cache_size full_size].
  split; [exact He|]. destruct Hp as (_ & Hp & _), Hq as (_ & Hq & _). unfold max_pairs, max_cache_items in *.
  rewrite mainnet_dag_bytes in * by exact He. change (cache_divisor CMainParams) with 128 in Hq.
  unfold MIX_BYTES, HASH_BYTES, METALDAG_MAX_CACHE_BYTES in *. rewrite Z.div_mul by lia.
  rewrite Z.div_div in Hq by lia. zlia.
Qed.
Lemma epoch_sizes_correct_witness :
  exists e, GetEpochSizing 1790380800 CMainParams = Some e /\ 0 <= epoch e <= 2070 /\
   cache_size e <= 2204106752 < METALDAG_MAX_CACHE_BYTES /\ full_size e / MIX_BYTES < 2 ^ 32.
Proof. apply (epoch_sizes_correct 1790380800). unfold is_u32. lia. Defined.

(** The first epochs, and the two around the point where the DAG passes 2^32
    items: epoch 2017, which headers dated from 2104 on name. *)
Example mainnet_sizes :
  let at_epoch e := GetEpochSizing (1790380800 + 1209600 * e) CMainParams in
  map at_epoch [0; 1] = [Some (mkEpochSizing 0 33554368 4294962304); Some (mkEpochSizing 1 34600256 4429182848)] /\
  (fun s => (epoch s, full_size s / HASH_BYTES)) <$> at_epoch 2016 = Some (2016, 4294967294) /\
  (fun s => (epoch s, full_size s / HASH_BYTES)) <$> at_epoch 2017 = Some (2017, 4297064446).
Proof. vm_compute. repeat split. Qed.
