(* ===== verification/MetalCache.v ===== *)
(** * MetalDAG: resident caches, [PoWHash] and the network gate

    The rest of [src/metaldag/metaldag.cpp] with [CacheBuildBudget] of its
    header, and [MayVerifyHeadersNow] of [src/net_processing.cpp].  The state is
    that of the globals: the map of resident caches with its clock, and the
    chain of epoch seeds.  Every function that touches them does so under a
    mutex, so an operation is one step; [seed_for_epoch] is only called with the
    mutex of the map held.

    The map refines a list of keys in the order of their last use
    ([lru_state]); [PoWHash] refines a function of the header and the parameters
    ([pow_hash]), which is what [Pow.v] takes [metaldag::PoWHash] to be. *)

From stdpp Require Import gmap sorting.
From S2P Require Import Prelude ConsensusParams ArithUint256 BlockIndex Pow Serialize Transaction Block MetalDag MetalEpoch.

Local Open Scope Z_scope.

(** ** State *)

(** [std::pair<uint64_t,uint64_t>]: epoch and cache size. *)
Abbreviation key := (Z * Z)%type.
Record CacheSlot := mkSlot { slot_cache : list Item; last_use : Z }.
Record CacheState := mkCacheState {
  seeds : list (list Z);
  g_cache_by_key : gmap key CacheSlot;
  g_cache_clock : Z
}.
Definition empty_caches : CacheState := mkCacheState [] ∅ 0.
Definition METALDAG_CACHE_ENTRIES : nat := 6.

(** ** The code *)

(** [while(seeds.size() <= epoch)]: each turn adds a seed. *)
Fixpoint extend_seeds (turns : nat) (seeds : list (list Z)) : list (list Z) :=
  match turns with
  | O => seeds
  | S turns => extend_seeds turns (seeds ++ [keccak256 (default [] (last seeds))])
  end.
Definition seed_for_epoch (epoch : Z) (seeds : list (list Z)) : option (list Z) * list (list Z) :=
  let seeds := match seeds with [] => [replicate 32 0] | _ => seeds end in
  let seeds := extend_seeds (Z.to_nat epoch + 1 - length seeds) seeds in
  (seeds !! Z.to_nat epoch, seeds).

(** The order of [std::map]: pairs, lexicographically. *)
Definition key_le (a b : key * CacheSlot) : Prop := a.1.1 < b.1.1 \/ (a.1.1 = b.1.1 /\ a.1.2 <= b.1.2).
#[export] Instance key_le_dec : RelDecision key_le.
Proof. unfold key_le. intros a b. apply _. Defined.
(** The entries from [begin()] to [end()]. *)
Definition entries (m : gmap key CacheSlot) : list (key * CacheSlot) := merge_sort key_le (map_to_list m).
(** The scan for the victim: the first entry with the smallest [last_use]. *)
Definition find_victim (m : gmap key CacheSlot) : option key :=
  match entries m with
  | [] => None
  | first :: rest =>
      Some (fst (fold_left (fun victim jt => if last_use jt.2 <? last_use victim.2 then jt else victim)
        (first :: rest) first))
  end.
(** [while(g_cache_by_key.size() > METALDAG_CACHE_ENTRIES)] *)
Fixpoint evict (turns : nat) (m : gmap key CacheSlot) : option (gmap key CacheSlot) :=
  if (METALDAG_CACHE_ENTRIES <? size m)%nat then
    match turns with
    | O => None
    | S turns => victim ← find_victim m; evict turns (delete victim m)
    end
  else Some m.

Definition get_cache (epoch cache_size : Z) (st : CacheState) : option (list Item * CacheState) :=
  let k := (epoch, cache_size) in
  let clock := u64 (g_cache_clock st + 1) in
  match g_cache_by_key st !! k with
  | Some slot => Some (slot_cache slot, mkCacheState (seeds st) (<[k := mkSlot (slot_cache slot) clock]> (g_cache_by_key st)) clock)
  | None =>
      let '(seed, seeds) := seed_for_epoch epoch (seeds st) in
      seed ← seed;
      built ← mkcache cache_size seed;
      let m := <[k := mkSlot built clock]> (g_cache_by_key st) in
      m ← evict (size m) m;
      Some (built, mkCacheState seeds m clock)
  end.

Definition CacheResident (nTime : Z) (params : Params) (st : CacheState) : option bool :=
  e ← GetEpochSizing nTime params;
  Some (bool_decide (is_Some (g_cache_by_key st !! (epoch e, cache_size e)))).

Definition PoWHash (header : CBlockHeader) (params : Params) (st : CacheState) : option (Z * CacheState) :=
  e ← GetEpochSizing (hdr_nTime header) params;
  if cache_size e >? METALDAG_MAX_CACHE_BYTES then Some (le_value (replicate 32 0xFF), st) else
  '(cache, st) ← get_cache (epoch e) (cache_size e) st;
  let ss := Ser HeaderFormatter header in
  let hh := keccak256 (take 76 ss) in
  result ← hashimoto_light (full_size e) cache hh (hdr_nNonce header);
  Some (le_value result, st).

(** ** The budget and the network gate *)

Record CacheBuildBudget := mkBudget { m_interval_seconds : Z; m_last_build : Z }.
Definition new_budget (interval : Z) : CacheBuildBudget := mkBudget interval (-9223372036854775808 /c 2).
Definition Take (now_seconds : Z) (b : CacheBuildBudget) : bool * CacheBuildBudget :=
  if i64 (now_seconds - m_last_build b) <? m_interval_seconds b then (false, b)
  else (true, mkBudget (m_interval_seconds b) now_seconds).
Definition COLD_EPOCH_BUILD_INTERVAL : Z := 30.

Definition MayVerifyFromNetwork (header : CBlockHeader) (params : Params) (best_header_time now : Z)
    (st : CacheState) (budget : CacheBuildBudget) : option (bool * CacheBuildBudget) :=
  resident ← CacheResident (hdr_nTime header) params st;
  if (resident : bool) then Some (true, budget) else
  e ← GetEpochSizing (hdr_nTime header) params;
  best ← GetEpochSizing best_header_time params;
  let now_time := if (now >? 0) && (now <=? 4294967295) then now else 4294967295 in
  n ← GetEpochSizing now_time params;
  let lo := if epoch best >? 0 then epoch best - 1 else 0 in
  let hi := u64 (epoch n + 1) in
  if (epoch e >=? lo) && (epoch e <=? hi) then Some (true, budget)
  else if epoch e >? hi then Some (false, budget)
  else Some (Take now budget).

(** The loop of [MayVerifyHeadersNow].  Each header comes with the caches that
    are resident when its turn comes: other threads may hash meanwhile. *)
Fixpoint MayVerifyHeadersNow (headers : list (CBlockHeader * CacheState)) (params : Params) (best_header_time now : Z)
    (budget : CacheBuildBudget) : option (bool * CacheBuildBudget) :=
  match headers with
  | [] => Some (true, budget)
  | (header, st) :: headers =>
      '(ok, budget) ← MayVerifyFromNetwork header params best_header_time now st budget;
      if (ok : bool) then MayVerifyHeadersNow headers params best_header_time now budget else Some (false, budget)
  end.

(** ** The proof-of-work check on top of the caches *)

Section CachedCheck.
Context (EnableFuzzDeterminism : bool) (GetHash : CBlockHeader -> Z).
(** [CheckProofOfWork] of [pow.cpp] with the state its hash touches. *)
Definition CheckProofOfWork_cached (header : CBlockHeader) (bits : Z) (params : Params) (st : CacheState) : option (bool * CacheState) :=
  if GetHash header =? hashGenesisBlock params then Some (true, st)
  else if EnableFuzzDeterminism then Some (fuzz_accepts (GetHash header), st)
  else '(h, st) ← PoWHash header params st; Some (CheckProofOfWorkImpl h bits params, st).
End CachedCheck.

(** ** Seeds *)

(** The seed of an epoch: Keccak-256 iterated on 32 zero bytes. *)
Definition epoch_seed (n : nat) : list Z := Nat.iter n keccak256 (replicate 32 0).
Definition seeds_ok (l : list (list Z)) : Prop := forall i s, l !! i = Some s -> s = epoch_seed i.

Lemma extend_seeds_ok turns l :
  l <> [] -> seeds_ok l ->
  seeds_ok (extend_seeds turns l) /\ length (extend_seeds turns l) = (length l + turns)%nat.
Proof.
  revert l. induction turns as [|turns IH]; intros l Hl Ho; cbn [extend_seeds]; [rewrite Nat.add_0_r; auto|].
  destruct (IH (l ++ [keccak256 (default [] (last l))])) as [H1 H2].
  - destruct l; discriminate.
  - intros i s Hi. apply lookup_app_Some in Hi as [Hi|[Hge Hi]]; [apply Ho, Hi|].
    apply list_lookup_singleton_Some in Hi as [Hz <-]. rewrite last_lookup.
    destruct (lookup_lt_is_Some_2 l (pred (length l))) as [x Hx]; [destruct l; [congruence|cbn; lia]|].
    rewrite Hx. cbn [default from_option id]. apply Ho in Hx as ->. replace i with (S (pred (length l)));
      [reflexivity|]. destruct l; [congruence|cbn in *; lia].
  - split; [exact H1|]. rewrite H2, length_app. cbn. lia.
Qed.
Lemma seed_for_epoch_ok e l :
  seeds_ok l -> exists l', seed_for_epoch e l = (Some (epoch_seed (Z.to_nat e)), l') /\ seeds_ok l'.
Proof.
  intros Ho. unfold seed_for_epoch.
  set (l1 := match l with [] => [replicate 32 0] | _ => l end).
  assert (H1 : l1 <> [] /\ seeds_ok l1).
  { destruct l; split; subst l1; try discriminate; [|exact Ho]. intros [|i] s; [intros [= <-]; reflexivity|discriminate]. }
  destruct H1 as [Hn H1]. destruct (extend_seeds_ok (Z.to_nat e + 1 - length l1) l1 Hn H1) as [H2 H3].
  eexists. split; [|exact H2]. f_equal.
  destruct (lookup_lt_is_Some_2 (extend_seeds (Z.to_nat e + 1 - length l1) l1) (Z.to_nat e)) as [s Hs]; [lia|].
  rewrite Hs. apply H2 in Hs. congruence.
Qed.

(** ** Least recently used *)

Definition use (m : gmap key CacheSlot) (k : key) : Z := default 0 (last_use <$> m !! k).
Definition newer (m : gmap key CacheSlot) (a b : key) : Prop := use m b < use m a.
(** [l] lists the resident keys, the last used first. *)
Record covers (m : gmap key CacheSlot) (l : list key) : Prop := {
  cv_distinct : NoDup l;
  cv_resident : forall k, k ∈ l <-> is_Some (m !! k);
  cv_order : StronglySorted (newer m) l
}.

Lemma covers_size m l : covers m l -> size m = length l.
Proof.
  intros [Hd Hr _]. rewrite <- size_dom. rewrite <- (size_list_to_set (C := gset key) l Hd).
  f_equal. apply set_eq. intros k. rewrite elem_of_dom, elem_of_list_to_set. symmetry. apply Hr.
Qed.

(** The scan returns an entry with the smallest [last_use]. *)
Lemma scan_min l v :
  let w := fold_left (fun victim (jt : key * CacheSlot) => if last_use jt.2 <? last_use victim.2 then jt else victim) l v in
  (w = v \/ w ∈ l) /\ last_use w.2 <= last_use v.2 /\ Forall (fun x => last_use w.2 <= last_use x.2) l.
Proof.
  revert v. induction l as [|x l IH]; intros v; cbn [fold_left]; [split; [auto|split; [lia|constructor]]|].
  destruct (IH (if last_use x.2 <? last_use v.2 then x else v)) as (H1 & H2 & H3). cbv zeta in *.
  destruct (Z.ltb_spec (last_use x.2) (last_use v.2));
    (split; [rewrite elem_of_cons; tauto|split; [lia|constructor; [lia|exact H3]]]).
Qed.

Lemma find_victim_min m k0 slot0 :
  m !! k0 = Some slot0 ->
  exists k slot, find_victim m = Some k /\ m !! k = Some slot /\ forall j s, m !! j = Some s -> last_use slot <= last_use s.
Proof.
  intros H0. unfold find_victim.
  assert (He : forall x, x ∈ entries m <-> m !! x.1 = Some x.2).
  { intros [k s]. unfold entries. rewrite (merge_sort_Permutation key_le (map_to_list m)), elem_of_map_to_list. reflexivity. }
  destruct (entries m) as [|x l] eqn:E.
  - apply (He (k0, slot0)) in H0. apply not_elem_of_nil in H0. contradiction.
  - destruct (scan_min (x :: l) x) as (H1 & _ & H3). cbv zeta in *.
    set (w := fold_left _ (x :: l) x) in *. exists w.1, w.2. split; [reflexivity|].
    split; [apply He; destruct H1 as [-> | H1]; [left|exact H1]|].
    intros j s Hj. rewrite Forall_forall in H3. apply (H3 (j, s)). apply He. exact Hj.
Qed.

Lemma use_lookup m k slot : m !! k = Some slot -> use m k = last_use slot.
Proof. intros H. unfold use. rewrite H. reflexivity. Qed.

(** The victim is the key used longest ago. *)
Lemma victim_is_last m l v : covers m (l ++ [v]) -> find_victim m = Some v.
Proof.
  intros [Hd Hr Ho]. destruct (proj1 (Hr v)) as [sv Hv]; [apply elem_of_app; right; left|].
  destruct (find_victim_min m v sv Hv) as (k & s & -> & Hk & Hmin). f_equal.
  destruct (decide (k = v)) as [|Hne]; [assumption|]. exfalso.
  assert (Hin : k ∈ l).
  { assert (H : k ∈ l ++ [v]) by (apply Hr; eauto). apply elem_of_app in H as [H|H]; [exact H|].
    apply list_elem_of_singleton in H. contradiction. }
  specialize (Hmin v sv Hv). rewrite StronglySorted_app in Ho. destruct Ho as (Hcross & _).
  specialize (Hcross k v Hin ltac:(left)). unfold newer in Hcross.
  rewrite (use_lookup _ _ _ Hk), (use_lookup _ _ _ Hv) in Hcross. lia.
Qed.

Lemma sorted_agree m m' l :
  (forall k, k ∈ l -> m !! k = m' !! k) -> StronglySorted (newer m) l -> StronglySorted (newer m') l.
Proof.
  intros H Hs. induction Hs as [|a l Hs IH Ha]; constructor.
  - apply IH. intros k Hk. apply H. right. exact Hk.
  - rewrite Forall_forall in Ha |- *. intros b Hb. specialize (Ha b Hb). unfold newer, use in *.
    rewrite <- (H a), <- (H b) by (left || (right; exact Hb)). exact Ha.
Qed.

Lemma covers_delete m l v : covers m (l ++ [v]) -> covers (delete v m) l.
Proof.
  intros [Hd Hr Ho]. apply NoDup_app in Hd as (Hd & Hv & _).
  assert (Hne : forall k, k ∈ l -> k <> v) by (intros k Hk ->; apply (Hv v Hk); left).
  split; [exact Hd| |].
  - intros k. destruct (decide (k = v)) as [->|Hk].
    + rewrite lookup_delete_eq. split; [intros H; destruct (Hne v H eq_refl)|intros [? [=]]].
    + rewrite lookup_delete_ne by congruence. rewrite <- Hr, elem_of_app, list_elem_of_singleton. tauto.
  - apply (sorted_agree m); [intros k Hk; rewrite lookup_delete_ne by (apply not_eq_sym, Hne, Hk); reflexivity|].
    apply StronglySorted_app in Ho as (_ & Ho & _). exact Ho.
Qed.

(** Evicting keeps the six keys used last. *)
Lemma evict_spec turns m l :
  covers m l -> (length l <= turns)%nat ->
  exists m', evict turns m = Some m' /\ covers m' (take METALDAG_CACHE_ENTRIES l) /\
    forall k s, m' !! k = Some s -> m !! k = Some s.
Proof.
  revert m l. induction turns as [|turns IH]; intros m l Hc Hl; cbn [evict]; rewrite (covers_size m l Hc);
    (destruct (Nat.ltb_spec METALDAG_CACHE_ENTRIES (length l)) as [Hlt|Hge];
     [|exists m; rewrite take_ge by lia; auto]); [unfold METALDAG_CACHE_ENTRIES in Hlt; lia|].
  destruct (exists_last (l := l)) as (l0 & v & ->); [destruct l; [cbn in Hlt; lia|discriminate]|].
  rewrite (victim_is_last m l0 v Hc). cbn [mbind option_bind]. rewrite length_app in *. cbn [length] in *.
  destruct (IH (delete v m) l0 (covers_delete m l0 v Hc) ltac:(lia)) as (m' & -> & Hc' & Hs).
  exists m'. split; [reflexivity|]. split; [rewrite take_app_le by lia; exact Hc'|].
  intros k s Hk. apply Hs in Hk. apply lookup_delete_Some in Hk as [_ Hk]. exact Hk.
Qed.

(** Using a key moves it to the front. *)
Lemma covers_use m l k c clock :
  covers m l -> (forall j s, m !! j = Some s -> last_use s < clock) ->
  covers (<[k := mkSlot c clock]> m) (k :: filter (fun j => j <> k) l).
Proof.
  intros [Hd Hr Ho] Hb. split.
  - constructor; [intros H; apply list_elem_of_filter in H as [H _]; congruence|apply NoDup_filter, Hd].
  - intros j. rewrite elem_of_cons, list_elem_of_filter. destruct (decide (j = k)) as [->|Hj].
    + rewrite lookup_insert_eq. split; [eauto|auto].
    + rewrite lookup_insert_ne by congruence. rewrite <- Hr. tauto.
  - assert (Hs : StronglySorted (newer (<[k := mkSlot c clock]> m)) (filter (fun j => j <> k) l)).
    { apply (sorted_agree m); [intros j Hj; apply list_elem_of_filter in Hj as [Hj _]; rewrite lookup_insert_ne by congruence; reflexivity|].
      clear -Ho. induction Ho as [|a l Hs IH Ha]; [constructor|]. rewrite filter_cons.
      destruct (decide (a <> k)); [|exact IH]. constructor; [exact IH|]. rewrite Forall_forall in Ha |- *.
      intros b Hb. apply list_elem_of_filter in Hb as [_ Hb]. apply Ha, Hb. }
    constructor; [exact Hs|]. apply Forall_forall. intros j Hj. apply list_elem_of_filter in Hj as [Hj Hl].
    unfold newer, use. rewrite lookup_insert_eq, lookup_insert_ne by congruence.
    apply Hr in Hl as [s Es]. rewrite Es. cbn. apply (Hb _ _ Es).
Qed.

(** ** The invariant of the resident caches *)

(** What [get_cache] has to return for a key. *)
Definition epoch_cache (epoch cache_size : Z) : option (list Item) := mkcache cache_size (epoch_seed (Z.to_nat epoch)).

(** The caches stand for the list [l] of keys, last used first. *)
Record lru_state (l : list key) (st : CacheState) : Prop := {
  ls_seeds : seeds_ok (seeds st);
  ls_covers : covers (g_cache_by_key st) l;
  ls_size : (length l <= METALDAG_CACHE_ENTRIES)%nat;
  ls_clock : 0 <= g_cache_clock st;
  ls_used : forall k s, g_cache_by_key st !! k = Some s ->
    last_use s <= g_cache_clock st /\ epoch_cache k.1 k.2 = Some (slot_cache s)
}.
Lemma lru_empty : lru_state [] empty_caches.
Proof.
  split; cbn; [intros i s H; discriminate| |lia|lia|].
  - split; [constructor| |constructor]. intros k. rewrite lookup_empty. split; [intros H; apply not_elem_of_nil in H; contradiction|intros [? [=]]].
  - intros k s. rewrite lookup_empty. discriminate.
Qed.

(** The abstract operation: the key to the front, six keys at most. *)
Definition touch (k : key) (l : list key) : list key :=
  take METALDAG_CACHE_ENTRIES (k :: filter (fun j => j <> k) l).

Lemma filter_ne_length (k : key) (l : list key) : k ∈ l -> (length (filter (fun j => j <> k) l) < length l)%nat.
Proof.
  intros Hk. induction l as [|a l IH]; [apply not_elem_of_nil in Hk; contradiction|]. rewrite filter_cons.
  pose proof (length_filter (fun j => j <> k) l) as Hle. destruct (decide (a <> k)) as [Hne|He]; cbn [length]; [|lia].
  apply elem_of_cons in Hk as [->|Hk]; [congruence|]. specialize (IH Hk). lia.
Qed.
Lemma filter_ne_id (k : key) (l : list key) : k ∉ l -> filter (fun j => j <> k) l = l.
Proof.
  induction l as [|a l IH]; intros Hk; [reflexivity|]. apply not_elem_of_cons in Hk as [Ha Hk]. rewrite filter_cons.
  rewrite decide_True by congruence. rewrite IH by exact Hk. reflexivity.
Qed.

(** [get_cache] returns the cache of its key, computed or resident, and
    implements [touch]. *)
Lemma get_cache_spec e c l st cache :
  lru_state l st -> g_cache_clock st < 2 ^ 64 - 1 -> epoch_cache e c = Some cache ->
  exists st', get_cache e c st = Some (cache, st') /\ lru_state (touch (e, c) l) st' /\
    g_cache_clock st' = g_cache_clock st + 1.
Proof.
  intros [Hs Hc Hn Hk Hu] Hw Ec. unfold get_cache.
  rewrite (u64_id (g_cache_clock st + 1)) by (unfold is_u64; lia).
  assert (Hb : forall j s, g_cache_by_key st !! j = Some s -> last_use s < g_cache_clock st + 1).
  { intros j s Hj. apply Hu in Hj as [Hj _]. lia. }
  assert (Hi : forall (m' : gmap key CacheSlot) sl k s, (forall j t, m' !! j = Some t -> <[(e, c) := mkSlot sl (g_cache_clock st + 1)]> (g_cache_by_key st) !! j = Some t) ->
    sl = cache -> m' !! k = Some s -> last_use s <= g_cache_clock st + 1 /\ epoch_cache k.1 k.2 = Some (slot_cache s)).
  { intros m' sl k s Hm -> Hl. apply Hm in Hl. destruct (decide (k = (e, c))) as [->|Hne].
    - rewrite lookup_insert_eq in Hl. injection Hl as <-. cbn. split; [lia|exact Ec].
    - rewrite lookup_insert_ne in Hl by congruence. apply Hu in Hl as [H1 H2]. split; [lia|exact H2]. }
  destruct (g_cache_by_key st !! (e, c)) as [slot|] eqn:El.
  - assert (Es : slot_cache slot = cache) by (apply Hu in El as [_ El]; cbn in El; congruence).
    rewrite Es. eexists. split; [reflexivity|]. split; [|reflexivity].
    assert (Hin : (e, c) ∈ l) by (apply (cv_resident _ _ Hc); eauto).
    pose proof (filter_ne_length (e, c) l Hin) as Hf.
    assert (Et : touch (e, c) l = (e, c) :: filter (fun j => j <> (e, c)) l) by (unfold touch; apply take_ge; cbn [length]; lia).
    rewrite Et. split; cbn [seeds g_cache_by_key g_cache_clock];
      [exact Hs|apply covers_use; [exact Hc|exact Hb]|cbn [length]; lia|lia|].
    intros k s Hl. apply (Hi _ cache k s (fun _ _ H => H) eq_refl Hl).
  - destruct (seed_for_epoch_ok e (seeds st) Hs) as (l' & -> & Hs'). cbn [mbind option_bind].
    unfold epoch_cache in Ec. rewrite Ec. cbn [mbind option_bind].
    pose proof (covers_use (g_cache_by_key st) l (e, c) cache (g_cache_clock st + 1) Hc Hb) as Hc'.
    destruct (evict_spec (size (<[(e, c) := mkSlot cache (g_cache_clock st + 1)]> (g_cache_by_key st))) _ _ Hc') as (m' & -> & Hm & Hsub);
      [rewrite (covers_size _ _ Hc'); lia|].
    cbn [mbind option_bind]. eexists. split; [reflexivity|]. split; [|reflexivity].
    split; cbn [seeds g_cache_by_key g_cache_clock]; [exact Hs'|exact Hm|unfold touch; rewrite length_take; lia|lia|].
    intros k s Hl. apply (Hi m' cache k s Hsub eq_refl Hl).
Qed.

(** ** [PoWHash] is a function of the header and the parameters *)

Definition pow_hash (header : CBlockHeader) (params : Params) : option Z :=
  e ← GetEpochSizing (hdr_nTime header) params;
  if cache_size e >? METALDAG_MAX_CACHE_BYTES then Some (2 ^ 256 - 1) else
  cache ← epoch_cache (epoch e) (cache_size e);
  result ← hashimoto_light (full_size e) cache (keccak256 (take 76 (Ser HeaderFormatter header))) (hdr_nNonce header);
  Some (le_value result).
(** [metaldag::PoWHash] as [Pow.v] and its clients take it. *)
Definition metaldag_hash (header : CBlockHeader) (params : Params) : Z := default 0 (pow_hash header params).

(** The key a hash looks up. *)
Definition request_key (r : CBlockHeader * Params) : option key :=
  e ← GetEpochSizing (hdr_nTime r.1) r.2;
  if cache_size e >? METALDAG_MAX_CACHE_BYTES then None else Some (epoch e, cache_size e).
Definition request_ok (r : CBlockHeader * Params) : Prop := is_u32 (hdr_nTime r.1) /\ metaldag_params r.2.

(** The keys an abstract cache holds after a request. *)
Definition touch_request (l : list key) (r : CBlockHeader * Params) : list key :=
  match request_key r with Some k => touch k l | None => l end.

Lemma sizing_cases header params :
  request_ok (header, params) ->
  exists e, GetEpochSizing (hdr_nTime header) params = Some e /\
    4 <= full_size e / HASH_BYTES < 2 ^ 63 /\
    (cache_size e <= METALDAG_MAX_CACHE_BYTES -> exists cache, epoch_cache (epoch e) (cache_size e) = Some cache /\ cache_ok cache).
Proof.
  intros [Ht Hp]. destruct (GetEpochSizing_spec (hdr_nTime header) params Hp Ht) as (p & q & E & (P1 & P2 & _) & (Q1 & Q2 & _)).
  cbn [fst snd] in *. rewrite E. eexists. split; [reflexivity|]. cbn [epoch cache_size full_size].
  pose proof (Z.prime_ge_2 p P1). pose proof (Z.prime_ge_2 q Q1).
  assert (Hd : dag_bytes params (epoch_of (hdr_nTime header) params) < 2 ^ 64) by (apply Z.mod_pos_bound; lia).
  unfold max_pairs, max_cache_items in *.
  assert (Hpb : p < 2 ^ 58).
  { assert (dag_bytes params (epoch_of (hdr_nTime header) params) / MIX_BYTES < 2 ^ 58)
      by (apply Z.div_lt_upper_bound; unfold MIX_BYTES; lia). lia. }
  split.
  - replace (p * MIX_BYTES) with (2 * p * HASH_BYTES) by (unfold MIX_BYTES, HASH_BYTES; lia).
    rewrite Z.div_mul by (unfold HASH_BYTES; lia). lia.
  - intros Hcap. destruct (mkcache_ok (q * HASH_BYTES) (epoch_seed (Z.to_nat (epoch_of (hdr_nTime header) params))))
      as (o & Eo & _ & Ho); [unfold HASH_BYTES, METALDAG_MAX_CACHE_BYTES in *; lia|].
    exists o. split; [exact Eo|exact Ho].
Qed.

Lemma PoWHash_spec header params l st :
  request_ok (header, params) -> lru_state l st -> g_cache_clock st < 2 ^ 64 - 1 ->
  exists h st', pow_hash header params = Some h /\ 0 <= h < 2 ^ 256 /\ PoWHash header params st = Some (h, st') /\
    lru_state (touch_request l (header, params)) st' /\ g_cache_clock st' <= g_cache_clock st + 1.
Proof.
  intros Hr Hl Hw. destruct (sizing_cases header params Hr) as (e & Ee & Hf & Hc).
  unfold pow_hash, PoWHash, touch_request, request_key. cbn [fst snd]. rewrite Ee. cbn [mbind option_bind].
  destruct (Z.gtb_spec (cache_size e) METALDAG_MAX_CACHE_BYTES) as [Hcap|Hcap].
  - exists (2 ^ 256 - 1), st. split; [reflexivity|]. split; [lia|]. split; [reflexivity|]. split; [exact Hl|lia].
  - destruct (Hc ltac:(lia)) as (cache & Ec & [Hne Ho]). rewrite Ec. cbn [mbind option_bind].
    destruct (get_cache_spec (epoch e) (cache_size e) l st cache Hl Hw Ec) as (st' & -> & Hl' & Hk). cbn [mbind option_bind].
    destruct (hashimoto_total (calc_dataset_item cache) (full_size e) (keccak256 (take 76 (Ser HeaderFormatter header))) (hdr_nNonce header))
      as (r & Er & Hlen & Hb); [lia|intros i _; destruct (calc_dataset_item_ok cache i Hne) as (it & -> & _); eauto|].
    unfold hashimoto_light. rewrite Er. cbn [mbind option_bind].
    exists (le_value r), st'. split; [reflexivity|]. split; [|split; [reflexivity|split; [exact Hl'|lia]]].
    pose proof (le_value_bound r Hb) as Hv. rewrite Hlen in Hv. exact Hv.
Qed.

(** A sequence of hashes, the caches passed from one to the next. *)
Fixpoint hash_all (rs : list (CBlockHeader * Params)) (st : CacheState) : option (list Z * CacheState) :=
  match rs with
  | [] => Some ([], st)
  | r :: rs => '(h, st) ← PoWHash r.1 r.2 st; '(hs, st) ← hash_all rs st; Some (h :: hs, st)
  end.

Lemma hash_all_spec rs l st :
  Forall request_ok rs -> lru_state l st -> g_cache_clock st + Z.of_nat (length rs) < 2 ^ 64 ->
  exists st', hash_all rs st = Some (map (fun r => metaldag_hash r.1 r.2) rs, st') /\
    lru_state (fold_left touch_request rs l) st' /\ g_cache_clock st' <= g_cache_clock st + Z.of_nat (length rs).
Proof.
  intros Hr. revert l st. induction Hr as [|[h p] rs Hr _ IH]; intros l st Hl Hw; cbn [hash_all fold_left map length] in *.
  - exists st. split; [reflexivity|]. split; [exact Hl|lia].
  - destruct (PoWHash_spec h p l st Hr Hl ltac:(lia)) as (x & st1 & Ex & _ & Es & Hl1 & Hc1). cbn [fst snd].
    rewrite Es. cbn [mbind option_bind]. destruct (IH _ st1 Hl1 ltac:(lia)) as (st2 & -> & Hl2 & Hc2).
    cbn [mbind option_bind]. exists st2. unfold metaldag_hash at 2. rewrite Ex. split; [reflexivity|]. split; [exact Hl2|lia].
Qed.

(** ** What stays resident *)

(** The distinct keys of a list, first occurrences in order. *)
Fixpoint distinct (l : list key) : list key :=
  match l with
  | [] => []
  | k :: l => k :: filter (fun j => j <> k) (distinct l)
  end.
Lemma distinct_NoDup l : NoDup (distinct l).
Proof.
  induction l as [|k l IH]; cbn [distinct]; constructor; [|apply NoDup_filter, IH].
  intros H. apply list_elem_of_filter in H as [H _]. congruence.
Qed.
(** Cutting before or after moving a key to the front is the same. *)
Lemma take_filter n (k : key) (l : list key) :
  NoDup l -> take n (filter (fun j => j <> k) (take (S n) l)) = take n (filter (fun j => j <> k) l).
Proof.
  revert n. induction l as [|a l IH]; intros n Hd; [rewrite take_nil; reflexivity|].
  apply NoDup_cons in Hd as [Ha Hd]. rewrite firstn_cons, !filter_cons.
  destruct (decide (a <> k)) as [Hne|He].
  - destruct n as [|n]; [reflexivity|]. rewrite !firstn_cons, IH by exact Hd. reflexivity.
  - apply dec_stable in He. subst a. rewrite !filter_ne_id; [rewrite take_take, Nat.min_id; reflexivity|exact Ha|].
    intros H. apply list_elem_of_lookup in H as [i Hi]. apply lookup_take_Some in Hi as [Hi _].
    apply Ha, (list_elem_of_lookup_2 _ _ _ Hi).
Qed.

(** The six distinct keys requested last. *)
Definition last_keys (rs : list (CBlockHeader * Params)) : list key :=
  take METALDAG_CACHE_ENTRIES (distinct (reverse (omap request_key rs))).
Lemma touch_all rs : fold_left touch_request rs [] = last_keys rs.
Proof.
  induction rs as [|r rs IH] using rev_ind; [reflexivity|]. rewrite fold_left_app. cbn [fold_left]. rewrite IH.
  unfold last_keys, touch_request. rewrite omap_app. cbn [omap list_omap].
  destruct (request_key r) as [k|]; [|rewrite app_nil_r; reflexivity].
  rewrite reverse_app. cbn [reverse rev_append app distinct]. unfold touch. unfold METALDAG_CACHE_ENTRIES at 1 3.
  rewrite !firstn_cons. f_equal. apply take_filter, distinct_NoDup.
Qed.

Lemma CacheResident_spec nTime params l st e :
  lru_state l st -> GetEpochSizing nTime params = Some e ->
  CacheResident nTime params st = Some (bool_decide ((epoch e, cache_size e) ∈ l)).
Proof.
  intros Hl He. unfold CacheResident. rewrite He. cbn [mbind option_bind]. f_equal. apply bool_decide_ext.
  symmetry. apply (cv_resident _ _ (ls_covers _ _ Hl)).
Qed.

(** C9: the resident caches make no difference: whatever sequence of headers and
    parameters was hashed before, [PoWHash] returns a 256-bit number that depends
    on the header and the parameters alone (so no access is out of range and no
    resident cache is stale), and [CheckProofOfWork] over the caches is the check
    over that function, which is how the header and block theorems take it. *)
Theorem metaldag_pow_refines fuzz GetHash rs header params bits :
  Forall request_ok rs -> request_ok (header, params) -> Z.of_nat (length rs) < 2 ^ 64 - 1 ->
  exists st st' st'', hash_all rs empty_caches = Some (map (fun r => metaldag_hash r.1 r.2) rs, st) /\
    PoWHash header params st = Some (metaldag_hash header params, st') /\
    0 <= metaldag_hash header params < 2 ^ 256 /\
    CheckProofOfWork_cached fuzz GetHash header bits params st
    = Some (CheckProofOfWork fuzz GetHash metaldag_hash header bits params, st'').
Proof.
  intros Hrs Hr Hn. destruct (hash_all_spec rs [] empty_caches Hrs lru_empty) as (st & E & Hl & Hc); [cbn; lia|].
  cbn [g_cache_clock empty_caches] in Hc.
  destruct (PoWHash_spec header params _ st Hr Hl ltac:(lia)) as (h & st' & Eh & Hh & Es & _).
  assert (Em : metaldag_hash header params = h) by (unfold metaldag_hash; rewrite Eh; reflexivity).
  unfold CheckProofOfWork_cached, CheckProofOfWork.
  exists st, st', (if GetHash header =? hashGenesisBlock params then st else if (fuzz : bool) then st else st').
  rewrite E, Es, Em. split; [reflexivity|]. split; [reflexivity|]. split; [exact Hh|].
  destruct (GetHash header =? hashGenesisBlock params); [reflexivity|]. destruct fuzz; reflexivity.
Qed.

(** C25: the caches are least-recently-used: after any sequence of hashes the
    resident caches are exactly those of the six distinct keys requested last, so
    a peer needs six other cold epochs to evict one, and each holds the cache that
    building it anew would give. *)
Theorem resident_caches_exact rs :
  Forall request_ok rs -> Z.of_nat (length rs) < 2 ^ 64 ->
  exists hs st, hash_all rs empty_caches = Some (hs, st) /\
    (size (g_cache_by_key st) <= METALDAG_CACHE_ENTRIES)%nat /\
    (forall k, is_Some (g_cache_by_key st !! k) <-> k ∈ last_keys rs) /\
    (forall k slot, g_cache_by_key st !! k = Some slot -> epoch_cache k.1 k.2 = Some (slot_cache slot)) /\
    (forall nTime params, is_u32 nTime -> metaldag_params params -> exists e, GetEpochSizing nTime params = Some e /\
       CacheResident nTime params st = Some (bool_decide ((epoch e, cache_size e) ∈ last_keys rs))).
Proof.
  intros Hrs Hn. destruct (hash_all_spec rs [] empty_caches Hrs lru_empty) as (st & E & Hl & _); [cbn; lia|].
  rewrite touch_all in Hl. eexists _, st. split; [exact E|]. pose proof (ls_covers _ _ Hl) as Hc. split; [|split; [|split]].
  - rewrite (covers_size _ _ Hc). apply (ls_size _ _ Hl).
  - intros k. symmetry. apply (cv_resident _ _ Hc).
  - intros k slot Hk. apply (ls_used _ _ Hl) in Hk as [_ Hk]. exact Hk.
  - intros nTime params Ht Hp. destruct (GetEpochSizing_spec nTime params Hp Ht) as (p & q & Ee & _).
    eexists. split; [exact Ee|]. apply (CacheResident_spec _ _ _ _ _ Hl Ee).
Qed.

(** The scenario of [metaldag_cache_lru_and_cold_epoch_budget] in
    [src/test/pow_tests.cpp]: epochs 0 to 5, epoch 0 again, then epoch 6; the
    one evicted is epoch 1. *)
Example lru_scenario :
  (fun st => map (fun e => bool_decide (is_Some (g_cache_by_key st !! (e, 128)))) [0; 1; 2; 3; 4; 5; 6])
    <$> foldl (fun o e => st ← o; snd <$> get_cache e 128 st) (Some empty_caches) [0; 1; 2; 3; 4; 5; 0; 6]
  = Some [true; false; true; true; true; true; true].
Proof. vm_compute. reflexivity. Qed.

(** ** The network gate *)

(** [now] as a header time. *)
Definition clock_time (now : Z) : Z := if (now >? 0) && (now <=? 4294967295) then now else 4294967295.
(** The epochs a header may name without drawing on the budget, and those it
    may not name at all. *)
Definition hot (params : Params) (best now e : Z) : Prop :=
  epoch_of best params - 1 <= e <= epoch_of (clock_time now) params + 1.
Definition future (params : Params) (now e : Z) : Prop := epoch_of (clock_time now) params + 1 < e.
#[export] Instance hot_dec params best now e : Decision (hot params best now e).
Proof. unfold hot. apply _. Defined.
#[export] Instance future_dec params now e : Decision (future params now e).
Proof. unfold future. apply _. Defined.

(** A call of the gate. *)
Record GateCall := mkCall { call_header : CBlockHeader; call_best : Z; call_now : Z; call_caches : CacheState }.
Definition resident (params : Params) (c : GateCall) : Prop :=
  CacheResident (hdr_nTime (call_header c)) params (call_caches c) = Some true.
#[export] Instance resident_dec params c : Decision (resident params c).
Proof. unfold resident. apply _. Defined.
Definition header_epoch (params : Params) (c : GateCall) : Z := epoch_of (hdr_nTime (call_header c)) params.
(** Cold: neither resident nor hot nor in the future. *)
Definition cold (params : Params) (c : GateCall) : Prop :=
  ~ resident params c /\ ~ hot params (call_best c) (call_now c) (header_epoch params c) /\
  ~ future params (call_now c) (header_epoch params c).
Definition call_ok (c : GateCall) : Prop :=
  is_u32 (hdr_nTime (call_header c)) /\ is_u32 (call_best c) /\ 0 <= call_now c < 2 ^ 62.

Lemma clock_time_u32 now : is_u32 (clock_time now).
Proof. unfold clock_time, is_u32. destruct (Z.gtb_spec now 0), (Z.leb_spec now 4294967295); cbn [andb]; lia. Qed.
Lemma epoch_of_range nTime params : metaldag_params params -> is_u32 nTime -> 0 <= epoch_of nTime params < 2 ^ 32.
Proof.
  intros Hp Ht. destruct (epoch_divisors_pos params Hp) as [Hs _]. unfold epoch_of.
  pose proof (u64_range (metaldagBaseTime params)) as Hb. unfold is_u32, is_u64 in *.
  split; [apply Z.div_pos; lia|]. apply Z.div_lt_upper_bound; nia.
Qed.

Lemma hot_window params best now e :
  0 <= e -> 0 <= epoch_of best params ->
  (e >=? (if epoch_of best params >? 0 then epoch_of best params - 1 else 0)) && (e <=? epoch_of (clock_time now) params + 1)
  = bool_decide (hot params best now e).
Proof.
  intros He Hb. apply eq_sym. unfold hot.
  destruct (Z.gtb_spec (epoch_of best params) 0), (Z.leb_spec e (epoch_of (clock_time now) params + 1));
    rewrite Z.geb_leb; [destruct (Z.leb_spec (epoch_of best params - 1) e)| |destruct (Z.leb_spec 0 e)|];
    rewrite ?andb_false_r; cbn [andb]; case_bool_decide; (reflexivity || lia).
Qed.
Lemma future_test params now e :
  (e >? epoch_of (clock_time now) params + 1) = bool_decide (future params now e).
Proof. unfold future. destruct (Z.gtb_spec e (epoch_of (clock_time now) params + 1)); case_bool_decide; (reflexivity || lia). Qed.

(** Every branch of [MayVerifyFromNetwork]. *)
Lemma MayVerify_spec params c b :
  metaldag_params params -> call_ok c ->
  MayVerifyFromNetwork (call_header c) params (call_best c) (call_now c) (call_caches c) b =
  Some (if bool_decide (resident params c) then (true, b)
        else if bool_decide (hot params (call_best c) (call_now c) (header_epoch params c)) then (true, b)
        else if bool_decide (future params (call_now c) (header_epoch params c)) then (false, b)
        else Take (call_now c) b).
Proof.
  intros Hp (Ht & Hb & Hn). unfold MayVerifyFromNetwork, header_epoch. fold (clock_time (call_now c)).
  destruct (GetEpochSizing_spec _ params Hp Ht) as (p1 & q1 & E1 & _).
  destruct (GetEpochSizing_spec _ params Hp Hb) as (p2 & q2 & E2 & _).
  destruct (GetEpochSizing_spec _ params Hp (clock_time_u32 (call_now c))) as (p3 & q3 & E3 & _).
  assert (exists r, CacheResident (hdr_nTime (call_header c)) params (call_caches c) = Some r) as [r Er]
    by (unfold CacheResident; rewrite E1; cbn [mbind option_bind]; eauto).
  rewrite Er, E1. cbn [mbind option_bind epoch].
  case_bool_decide as HR; unfold resident in HR; rewrite Er in HR; [injection HR as ->; reflexivity|].
  destruct r; [congruence|]. clear HR.
  rewrite E2, E3. cbn [mbind option_bind epoch].
  pose proof (epoch_of_range _ _ Hp Ht). pose proof (epoch_of_range _ _ Hp Hb).
  pose proof (epoch_of_range _ _ Hp (clock_time_u32 (call_now c))).
  rewrite u64_id by (unfold is_u64; lia).
  rewrite hot_window by lia. rewrite future_test. do 2 (case_bool_decide; [reflexivity|]). reflexivity.
Qed.

(** Calls of the gate one after the other, on one budget. *)
Fixpoint gate_run (params : Params) (calls : list GateCall) (b : CacheBuildBudget) : option (list bool * CacheBuildBudget) :=
  match calls with
  | [] => Some ([], b)
  | c :: calls =>
      '(d, b) ← MayVerifyFromNetwork (call_header c) params (call_best c) (call_now c) (call_caches c) b;
      '(ds, b) ← gate_run params calls b;
      Some (d :: ds, b)
  end.

(** The decisions [ds] on [calls] when the last build was at [last]: what is
    resident or hot passes, what is in the future does not, and a cold call
    passes exactly when the interval has elapsed since every cold call that
    passed before. *)
Record rationed (params : Params) (interval last : Z) (calls : list GateCall) (ds : list bool) : Prop := {
  ra_length : length ds = length calls;
  ra_free : forall j c, calls !! j = Some c ->
    resident params c \/ hot params (call_best c) (call_now c) (header_epoch params c) -> ds !! j = Some true;
  ra_future : forall j c, calls !! j = Some c ->
    ~ resident params c -> future params (call_now c) (header_epoch params c) -> ds !! j = Some false;
  ra_cold : forall j c, calls !! j = Some c -> cold params c ->
    (ds !! j = Some true <-> last + interval <= call_now c /\
     forall i c', (i < j)%nat -> calls !! i = Some c' -> cold params c' -> ds !! i = Some true ->
       call_now c' + interval <= call_now c)
}.

Lemma hot_not_future params best now e : hot params best now e -> ~ future params now e.
Proof. unfold hot, future. lia. Qed.

(** A call that leaves the budget alone. *)
Lemma rationed_skip params interval last calls ds c d :
  rationed params interval last calls ds ->
  (resident params c \/ hot params (call_best c) (call_now c) (header_epoch params c) -> d = true) ->
  (~ resident params c -> future params (call_now c) (header_epoch params c) -> d = false) ->
  (cold params c -> d = false /\ call_now c < last + interval) ->
  rationed params interval last (c :: calls) (d :: ds).
Proof.
  intros [Hl Hf Hu Hc] H1 H2 H3. split; [cbn; lia| | |].
  - intros [|j] c' Hj; cbn in Hj; [injection Hj as <-; intros H; cbn; f_equal; auto|apply Hf, Hj].
  - intros [|j] c' Hj; cbn in Hj; [injection Hj as <-; intros H H'; cbn; f_equal; auto|apply Hu, Hj].
  - intros [|j] c' Hj Hcold; cbn in Hj.
    + injection Hj as <-. destruct (H3 Hcold) as [-> Hn]. cbn. split; [discriminate|]. intros [H _]. lia.
    + cbn. rewrite (Hc j c' Hj Hcold). split; intros [Hn H]; (split; [exact Hn|]).
      * intros [|i] x Hi Hx Hxc Hd; cbn in Hx, Hd; [|apply (H i x ltac:(lia) Hx Hxc Hd)].
        injection Hx as <-. destruct (H3 Hxc) as [-> _]. discriminate.
      * intros i x Hi. apply (H (S i) x ltac:(lia)).
Qed.
(** A cold call that takes the budget. *)
Lemma rationed_take params interval last calls ds c :
  0 <= interval -> rationed params interval (call_now c) calls ds -> cold params c -> last + interval <= call_now c ->
  rationed params interval last (c :: calls) (true :: ds).
Proof.
  intros Hi0 [Hl Hf Hu Hc] (C1 & C2 & C3) Hn. split; [cbn; lia| | |].
  - intros [|j] c' Hj; cbn in Hj; [injection Hj as <-; intros H; reflexivity|apply Hf, Hj].
  - intros [|j] c' Hj; cbn in Hj; [injection Hj as <-; intros _ H; destruct (C3 H)|apply Hu, Hj].
  - intros [|j] c' Hj Hcold; cbn in Hj.
    + injection Hj as <-. cbn. split; [intros _; split; [exact Hn|lia]|reflexivity].
    + cbn. rewrite (Hc j c' Hj Hcold). split; intros [Hnow H].
      * split; [lia|]. intros [|i] x Hi Hx Hxc Hd; cbn in Hx, Hd; [injection Hx as <-; lia|apply (H i x ltac:(lia) Hx Hxc Hd)].
      * split; [apply (H 0%nat c ltac:(lia) eq_refl (conj C1 (conj C2 C3)) eq_refl)|].
        intros i x Hi. apply (H (S i) x ltac:(lia)).
Qed.

Lemma Take_spec now b :
  0 <= now < 2 ^ 62 -> -(2 ^ 62) <= m_last_build b < 2 ^ 62 ->
  Take now b = if m_last_build b + m_interval_seconds b <=? now then (true, mkBudget (m_interval_seconds b) now) else (false, b).
Proof.
  intros Hn Hb. unfold Take. rewrite i64_id by (unfold is_i64; lia).
  destruct (Z.ltb_spec (now - m_last_build b) (m_interval_seconds b)), (Z.leb_spec (m_last_build b + m_interval_seconds b) now);
    (reflexivity || lia).
Qed.

Lemma gate_run_spec params calls b :
  metaldag_params params -> Forall call_ok calls ->
  -(2 ^ 62) <= m_last_build b < 2 ^ 62 -> 0 <= m_interval_seconds b ->
  exists ds b', gate_run params calls b = Some (ds, b') /\ rationed params (m_interval_seconds b) (m_last_build b) calls ds.
Proof.
  intros Hp Hc. revert b. induction Hc as [|c calls Hc Hcs IH]; intros b Hb Hi; cbn [gate_run].
  { eexists [], b. split; [reflexivity|]. split; [reflexivity|intros j c; rewrite lookup_nil; discriminate..]. }
  rewrite (MayVerify_spec params c b Hp Hc). cbn [mbind option_bind].
  destruct (IH b Hb Hi) as (ds & b' & E & Hr).
  case_bool_decide as R1; [|case_bool_decide as R2; [|case_bool_decide as R3]].
  - rewrite E. cbn [mbind option_bind]. eexists _, b'. split; [reflexivity|].
    apply rationed_skip; [exact Hr|auto|intros ?; contradiction|intros [? _]; contradiction].
  - rewrite E. cbn [mbind option_bind]. eexists _, b'. split; [reflexivity|].
    apply rationed_skip; [exact Hr|auto|intros _ H; destruct (hot_not_future _ _ _ _ R2 H)|intros (_ & ? & _); contradiction].
  - rewrite E. cbn [mbind option_bind]. eexists _, b'. split; [reflexivity|].
    apply rationed_skip; [exact Hr|intros [?|?]; contradiction|auto|intros (_ & _ & ?); contradiction].
  - destruct Hc as (_ & _ & Hn). rewrite Take_spec by assumption. destruct (Z.leb_spec (m_last_build b + m_interval_seconds b) (call_now c)).
    + destruct (IH (mkBudget (m_interval_seconds b) (call_now c))) as (ds' & b'' & E' & Hr'); [cbn; lia|exact Hi|].
      rewrite E'. cbn [mbind option_bind]. eexists _, b''. split; [reflexivity|].
      apply rationed_take; [exact Hi|exact Hr'|split; [assumption|split; assumption]|lia].
    + rewrite E. cbn [mbind option_bind]. eexists _, b'. split; [reflexivity|].
      apply rationed_skip; [exact Hr|intros [?|?]; contradiction|intros _ ?; contradiction|intros _; split; [reflexivity|lia]].
Qed.

(** C27: the network gate rations cache builds: on every sequence of calls it
    decides; a header whose cache is resident or whose epoch is hot always passes,
    one dated beyond any acceptable time never does, and a header of a cold epoch
    passes exactly when 30 seconds have gone by since every cold header that
    passed before it. *)
Theorem cold_builds_rationed params calls :
  metaldag_params params -> Forall call_ok calls ->
  exists ds b, gate_run params calls (new_budget COLD_EPOCH_BUILD_INTERVAL) = Some (ds, b) /\
  length ds = length calls /\
  (forall j c, calls !! j = Some c ->
    resident params c \/ hot params (call_best c) (call_now c) (header_epoch params c) -> ds !! j = Some true) /\
  (forall j c, calls !! j = Some c -> ~ resident params c ->
    future params (call_now c) (header_epoch params c) -> ds !! j = Some false) /\
  (forall j c, calls !! j = Some c -> cold params c ->
    (ds !! j = Some true <-> forall i c', (i < j)%nat -> calls !! i = Some c' -> cold params c' -> ds !! i = Some true ->
       call_now c' + COLD_EPOCH_BUILD_INTERVAL <= call_now c)).
Proof.
  intros Hp Hc. destruct (gate_run_spec params calls (new_budget COLD_EPOCH_BUILD_INTERVAL) Hp Hc) as (ds & b & E & [H1 H2 H3 H4]);
    [vm_compute; split; [discriminate|reflexivity]|vm_compute; discriminate|].
  exists ds, b. split; [exact E|]. split; [exact H1|]. split; [exact H2|]. split; [exact H3|].
  intros j c Hj Hcold. rewrite (H4 j c Hj Hcold). cbn [m_interval_seconds m_last_build new_budget].
  rewrite Forall_lookup in Hc. destruct (Hc j c Hj) as (_ & _ & Hn).
  split; [intros [_ H]; exact H|intros H; split; [|exact H]].
  change (-9223372036854775808 /c 2 + COLD_EPOCH_BUILD_INTERVAL) with (-4611686018427387874). lia.
Qed.

(** A batch of headers stops at the first that does not pass. *)
Definition batch_call (best now : Z) (h : CBlockHeader * CacheState) : GateCall := mkCall h.1 best now h.2.

Lemma batch_step params best now x st hs b :
  metaldag_params params -> call_ok (batch_call best now (x, st)) ->
  MayVerifyHeadersNow ((x, st) :: hs) params best now b =
  (let c := batch_call best now (x, st) in
   let '(ok, b) := if bool_decide (resident params c) then (true, b)
     else if bool_decide (hot params best now (header_epoch params c)) then (true, b)
     else if bool_decide (future params now (header_epoch params c)) then (false, b)
     else Take now b in
   if (ok : bool) then MayVerifyHeadersNow hs params best now b else Some (false, b)).
Proof.
  intros Hp Hx. cbn [MayVerifyHeadersNow].
  pose proof (MayVerify_spec params (batch_call best now (x, st)) b Hp Hx) as E.
  cbn [batch_call call_header call_best call_now call_caches fst snd] in E. rewrite E. reflexivity.
Qed.

Lemma batch_refused params best now hs b h :
  metaldag_params params -> Forall (fun h => call_ok (batch_call best now h)) hs ->
  -(2 ^ 62) <= m_last_build b < 2 ^ 62 -> now < m_last_build b + m_interval_seconds b ->
  h ∈ hs -> cold params (batch_call best now h) ->
  exists b', MayVerifyHeadersNow hs params best now b = Some (false, b').
Proof.
  intros Hp Hc Hb Hn Hin Hcold. induction Hc as [|[x st] hs Hx _ IH]; [apply not_elem_of_nil in Hin; contradiction|].
  rewrite batch_step by assumption. cbv zeta.
  assert (Et : Take now b = (false, b)).
  { rewrite Take_spec by (apply Hx || exact Hb). destruct (Z.leb_spec (m_last_build b + m_interval_seconds b) now); [lia|reflexivity]. }
  rewrite Et. apply elem_of_cons in Hin as [->|Hin].
  - destruct Hcold as (H1 & H2 & H3). rewrite bool_decide_eq_false_2 by exact H1.
    rewrite (bool_decide_eq_false_2 _ H2), (bool_decide_eq_false_2 _ H3). eauto.
  - specialize (IH Hin). do 3 (case_bool_decide; [eauto|]). eauto.
Qed.

(** a batch that spans a cold epoch never passes: [MayVerifyHeadersNow]
    refuses every message with two headers that are cold when their turn comes,
    whatever the budget and the clock: the first takes the budget, nothing is
    built before the second is looked at, and the budget is then spent. *)
Theorem cold_batch_never_verified params best now b l1 h1 l2 h2 l3 :
  metaldag_params params -> -(2 ^ 62) <= m_last_build b < 2 ^ 62 -> 0 < m_interval_seconds b ->
  Forall (fun h => call_ok (batch_call best now h)) (l1 ++ h1 :: l2 ++ h2 :: l3) ->
  cold params (batch_call best now h1) -> cold params (batch_call best now h2) ->
  exists b', MayVerifyHeadersNow (l1 ++ h1 :: l2 ++ h2 :: l3) params best now b = Some (false, b').
Proof.
  intros Hp Hb Hi Hc C1 C2. revert b Hb Hi. induction l1 as [|[x st] l1 IH]; intros b Hb Hi; cbn [app] in *.
  - destruct h1 as [x st]. apply Forall_cons in Hc as [Hx Hc]. rewrite batch_step by assumption. cbv zeta.
    destruct C1 as (H1 & H2 & H3). rewrite bool_decide_eq_false_2 by exact H1.
    rewrite (bool_decide_eq_false_2 _ H2), (bool_decide_eq_false_2 _ H3). destruct Hx as (_ & _ & Hn).
    rewrite Take_spec by assumption. destruct (Z.leb_spec (m_last_build b + m_interval_seconds b) now); [|eauto].
    apply (batch_refused params best now _ _ h2 Hp Hc); [cbn [m_last_build]; cbn in Hn; lia|cbn; lia|apply elem_of_app; right; left|exact C2].
  - apply Forall_cons in Hc as [Hx Hc]. rewrite batch_step by assumption. cbv zeta.
    destruct Hx as (_ & _ & Hn). cbn in Hn. rewrite Take_spec by assumption.
    do 3 (case_bool_decide; [eauto|]). destruct (_ <=? now); [|eauto]. apply IH; cbn; (assumption || lia).
Qed.

(** ** Examples *)

Module GateDemo.
(** A mainnet header dated in an epoch. *)
Definition at_epoch (e : Z) : CBlockHeader := mkHeader 1 0 0 (1790380800 + 1209600 * e + 1) 0x1e0fffff 0.
Definition best : Z := hdr_nTime (at_epoch 20).
Definition now : Z := best + 100.
Definition calls : list GateCall :=
  map (fun p => mkCall (at_epoch p.1) best (now + p.2) empty_caches)
    [(19, 0); (21, 0); (10, 0); (11, 0); (11, 29); (11, 30); (22, 31); (21, 31)].
Lemma calls_ok : Forall call_ok calls.
Proof. unfold calls, call_ok, is_u32. repeat (constructor; [vm_compute; repeat split; discriminate|]). constructor. Qed.
Lemma cold_epoch e : (e =? 10) || (e =? 11) = true -> cold CMainParams (mkCall (at_epoch e) best now empty_caches).
Proof.
  intros H. apply orb_true_iff in H as [H|H]; apply Z.eqb_eq in H as ->; unfold cold;
    (split; [|split]); apply (bool_decide_unpack _); vm_compute; exact I.
Qed.
(** The decisions of [pow_tests.cpp]: hot, hot, cold (takes the budget), cold
    (refused twice), cold after the interval, future, hot. *)
Example decisions : fst <$> gate_run CMainParams calls (new_budget COLD_EPOCH_BUILD_INTERVAL)
  = Some [true; true; true; false; false; true; false; true].
Proof. vm_compute. reflexivity. Qed.
End GateDemo.

Lemma metaldag_pow_refines_witness :
  exists st st' st'', hash_all [(GateDemo.at_epoch 0, CMainParams)] empty_caches
      = Some ([metaldag_hash (GateDemo.at_epoch 0) CMainParams], st) /\
    PoWHash (GateDemo.at_epoch 1) CMainParams st = Some (metaldag_hash (GateDemo.at_epoch 1) CMainParams, st') /\
    0 <= metaldag_hash (GateDemo.at_epoch 1) CMainParams < 2 ^ 256 /\
    CheckProofOfWork_cached false hdr_nNonce (GateDemo.at_epoch 1) 0x1e0fffff CMainParams st
    = Some (CheckProofOfWork false hdr_nNonce metaldag_hash (GateDemo.at_epoch 1) 0x1e0fffff CMainParams, st'').
Proof.
  refine (metaldag_pow_refines false hdr_nNonce [(GateDemo.at_epoch 0, CMainParams)] (GateDemo.at_epoch 1) CMainParams 0x1e0fffff _ _ _).
  - constructor; [|constructor]. split; [vm_compute; split; [discriminate|reflexivity]|apply mainnet_metaldag_params].
  - split; [vm_compute; split; [discriminate|reflexivity]|apply mainnet_metaldag_params].
  - vm_compute. reflexivity.
Defined.
Lemma resident_caches_exact_witness :
  exists hs st, hash_all [(GateDemo.at_epoch 0, CMainParams); (GateDemo.at_epoch 3, CMainParams)] empty_caches = Some (hs, st) /\
    (size (g_cache_by_key st) <= METALDAG_CACHE_ENTRIES)%nat /\
    (is_Some (g_cache_by_key st !! (0, 33554368)) <->
     (0, 33554368) ∈ last_keys [(GateDemo.at_epoch 0, CMainParams); (GateDemo.at_epoch 3, CMainParams)]).
Proof.
  destruct (resident_caches_exact [(GateDemo.at_epoch 0, CMainParams); (GateDemo.at_epoch 3, CMainParams)])
    as (hs & st & E & H1 & H2 & _).
  - repeat (constructor; [split; [vm_compute; split; [discriminate|reflexivity]|apply mainnet_metaldag_params]|]). constructor.
  - vm_compute. reflexivity.
  - exists hs, st. split; [exact E|]. split; [exact H1|apply H2].
Defined.
Lemma cold_builds_rationed_witness :
  exists ds b, gate_run CMainParams GateDemo.calls (new_budget COLD_EPOCH_BUILD_INTERVAL) = Some (ds, b) /\ length ds = 8%nat.
Proof.
  destruct (cold_builds_rationed CMainParams GateDemo.calls mainnet_metaldag_params GateDemo.calls_ok) as (ds & b & E & Hl & _).
  exists ds, b. split; [exact E|exact Hl].
Defined.
Lemma cold_batch_never_verified_witness :
  exists b', MayVerifyHeadersNow [(GateDemo.at_epoch 10, empty_caches); (GateDemo.at_epoch 11, empty_caches)]
    CMainParams GateDemo.best GateDemo.now (new_budget COLD_EPOCH_BUILD_INTERVAL) = Some (false, b').
Proof.
  apply (cold_batch_never_verified CMainParams GateDemo.best GateDemo.now (new_budget COLD_EPOCH_BUILD_INTERVAL)
    [] (GateDemo.at_epoch 10, empty_caches) [] (GateDemo.at_epoch 11, empty_caches) []).
  - apply mainnet_metaldag_params.
  - vm_compute. split; [discriminate|reflexivity].
  - vm_compute. reflexivity.
  - cbn [app]. repeat (constructor; [vm_compute; repeat split; discriminate|]). constructor.
  - apply (GateDemo.cold_epoch 10). reflexivity.
  - apply (GateDemo.cold_epoch 11). reflexivity.
Defined.
