(* ===== verification/SlhHash.v ===== *)
(** * SLH-DSA-SHA2-128s: bytes, addresses and hash functions

    [address.c], the conversions of [utils.c], [context_sha2.c], [hash_sha2.c]
    and [thash_sha2_simple.c] of [src/pqcrypto/slh-dsa-sha2-128s], over the
    SHA-2 of [Sha2.v].  An address is its 32 bytes.  The theorem says that the
    functions on precomputed states are the ones FIPS 205 defines on whole
    messages: SHA-256 of a padded seed, an address and a message, HMAC, and
    MGF1. *)

From S2P Require Import Prelude Sha2.

Local Open Scope Z_scope.

(** ** Parameters *)

Definition SPX_N : nat := 16.
Definition SPX_FULL_HEIGHT : nat := 63.
Definition SPX_D : nat := 7.
Definition SPX_FORS_HEIGHT : nat := 12.
Definition SPX_FORS_TREES : nat := 14.
Definition SPX_WOTS_W : Z := 16.
Definition SPX_WOTS_LOGW : Z := 4.
Definition SPX_WOTS_LEN1 : nat := 32.
Definition SPX_WOTS_LEN2 : nat := 3.
Definition SPX_WOTS_LEN : nat := SPX_WOTS_LEN1 + SPX_WOTS_LEN2.
Definition SPX_WOTS_BYTES : nat := SPX_WOTS_LEN * SPX_N.
Definition SPX_TREE_HEIGHT : nat := SPX_FULL_HEIGHT / SPX_D.
Definition SPX_FORS_MSG_BYTES : nat := (SPX_FORS_HEIGHT * SPX_FORS_TREES + 7) / 8.
Definition SPX_FORS_BYTES : nat := (SPX_FORS_HEIGHT + 1) * SPX_FORS_TREES * SPX_N.
Definition SPX_BYTES : nat := SPX_N + SPX_FORS_BYTES + SPX_D * SPX_WOTS_BYTES + SPX_FULL_HEIGHT * SPX_N.
Definition SPX_PK_BYTES : nat := 2 * SPX_N.
Definition SPX_SHA256_ADDR_BYTES : nat := 22.
Definition SPX_TREE_BITS : Z := 54.
Definition SPX_TREE_BYTES : nat := 7.
Definition SPX_LEAF_BITS : Z := 9.
Definition SPX_LEAF_BYTES : nat := 2.
Definition SPX_DGST_BYTES : nat := SPX_FORS_MSG_BYTES + SPX_TREE_BYTES + SPX_LEAF_BYTES.

Example parameters_128s :
  map Z.of_nat [SPX_WOTS_LEN; SPX_TREE_HEIGHT; SPX_FORS_MSG_BYTES; SPX_BYTES; SPX_DGST_BYTES] = [35; 9; 21; 7856; 30].
Proof. reflexivity. Qed.

(** ** Bytes *)

(** [out[i] = in & 0xff; in = in >> 8] from the last byte to the first. *)
Fixpoint ull_to_bytes (outlen : nat) (v : Z) : list Z :=
  match outlen with
  | O => []
  | S n => ull_to_bytes n (Z.shiftr v 8) ++ [Z.land v 0xff]
  end.
Definition u32_to_bytes (v : Z) : list Z :=
  [u8 (Z.shiftr v 24); u8 (Z.shiftr v 16); u8 (Z.shiftr v 8); u8 v].
Definition bytes_to_ull (inp : list Z) (inlen : nat) : Z :=
  for_loop inlen 0 (fun i retval =>
    Z.lor retval (u64 (Z.shiftl (inp !!! i) (8 * (Z.of_nat inlen - 1 - Z.of_nat i))))) 0.

(** ** Addresses *)

Abbreviation addr := (list Z) (only parsing).
Definition zero_addr : addr := replicate 32 0.
Definition SPX_ADDR_TYPE_WOTS : Z := 0.
Definition SPX_ADDR_TYPE_WOTSPK : Z := 1.
Definition SPX_ADDR_TYPE_HASHTREE : Z := 2.
Definition SPX_ADDR_TYPE_FORSTREE : Z := 3.
Definition SPX_ADDR_TYPE_FORSPK : Z := 4.
Definition SPX_ADDR_TYPE_WOTSPRF : Z := 5.
Definition SPX_ADDR_TYPE_FORSPRF : Z := 6.

Definition SPX_OFFSET_LAYER : nat := 0.
Definition SPX_OFFSET_TREE : nat := 1.
Definition SPX_OFFSET_TYPE : nat := 9.
Definition SPX_OFFSET_KP_ADDR2 : nat := 12.
Definition SPX_OFFSET_KP_ADDR1 : nat := 13.
Definition SPX_OFFSET_CHAIN_ADDR : nat := 17.
Definition SPX_OFFSET_HASH_ADDR : nat := 21.
Definition SPX_OFFSET_TREE_HGT : nat := 17.
Definition SPX_OFFSET_TREE_INDEX : nat := 18.

Definition set_layer_addr (a : addr) (layer : Z) : addr := <[SPX_OFFSET_LAYER := u8 layer]> a.
Definition set_tree_addr (a : addr) (tree : Z) : addr := list_inserts SPX_OFFSET_TREE (ull_to_bytes 8 tree) a.
Definition set_type (a : addr) (type : Z) : addr := <[SPX_OFFSET_TYPE := u8 type]> a.
Definition copy_subtree_addr (out a : addr) : addr := list_inserts 0 (take (SPX_OFFSET_TREE + 8) a) out.
Definition set_keypair_addr (a : addr) (keypair : Z) : addr :=
  <[SPX_OFFSET_KP_ADDR1 := u8 keypair]> (<[SPX_OFFSET_KP_ADDR2 := u8 (Z.shiftr keypair 8)]> a).
Definition copy_keypair_addr (out a : addr) : addr :=
  let out := list_inserts 0 (take (SPX_OFFSET_TREE + 8) a) out in
  let out := <[SPX_OFFSET_KP_ADDR2 := a !!! SPX_OFFSET_KP_ADDR2]> out in
  <[SPX_OFFSET_KP_ADDR1 := a !!! SPX_OFFSET_KP_ADDR1]> out.
Definition set_chain_addr (a : addr) (chain : Z) : addr := <[SPX_OFFSET_CHAIN_ADDR := u8 chain]> a.
Definition set_hash_addr (a : addr) (hash : Z) : addr := <[SPX_OFFSET_HASH_ADDR := u8 hash]> a.
Definition set_tree_height (a : addr) (tree_height : Z) : addr := <[SPX_OFFSET_TREE_HGT := u8 tree_height]> a.
Definition set_tree_index (a : addr) (tree_index : Z) : addr := list_inserts SPX_OFFSET_TREE_INDEX (u32_to_bytes tree_index) a.

(** ** The context *)

Record spx_ctx := mkCtx { pub_seed : list Z; sk_seed : list Z; state_seeded : list Z }.
(** [seed_state]: one block of [pub_seed] and zeros. *)
Definition seed_state (pub_seed : list Z) : list Z :=
  let block := take SPX_N pub_seed ++ replicate (128 - SPX_N) 0 in
  sha256_inc_blocks sha256_inc_init block 1.
Definition initialize_hash_function (pub sk : list Z) : spx_ctx := mkCtx pub sk (seed_state pub).

(** ** Hash functions *)

Definition prf_addr (ctx : spx_ctx) (a : addr) : list Z :=
  let buf := take SPX_SHA256_ADDR_BYTES a ++ take SPX_N (sk_seed ctx) in
  take SPX_N (fst (sha256_inc_finalize (state_seeded ctx) buf)).
Definition thash (ctx : spx_ctx) (inp : list Z) (inblocks : nat) (a : addr) : list Z :=
  let buf := take SPX_SHA256_ADDR_BYTES a ++ take (inblocks * SPX_N) inp in
  take SPX_N (fst (sha256_inc_finalize (state_seeded ctx) buf)).

(** [(i + 1) * 32 <= outlen] holds for the first [outlen / 32] turns. *)
Definition mgf1_256 (outlen : nat) (inp : list Z) : list Z :=
  let i := (outlen / 32)%nat in
  let out := fill_chunks i (fun i => sha256 (inp ++ u32_to_bytes (Z.of_nat i))) in
  if (i * 32 <? outlen)%nat then out ++ take (outlen - i * 32) (sha256 (inp ++ u32_to_bytes (Z.of_nat i))) else out.
Definition mgf1_512 (outlen : nat) (inp : list Z) : list Z :=
  let i := (outlen / 64)%nat in
  let out := fill_chunks i (fun i => sha512 (inp ++ u32_to_bytes (Z.of_nat i))) in
  if (i * 64 <? outlen)%nat then out ++ take (outlen - i * 64) (sha512 (inp ++ u32_to_bytes (Z.of_nat i))) else out.

Definition hmac_pad (c : Z) (sk_prf : list Z) : list Z :=
  map (Z.lxor c) (take SPX_N sk_prf) ++ replicate (64 - SPX_N) c.
Definition gen_message_random (sk_prf optrand m : list Z) : list Z :=
  let state := sha256_inc_blocks sha256_inc_init (hmac_pad 0x36 sk_prf) 1 in
  let inner :=
    if (SPX_N + length m <? 64)%nat then fst (sha256_inc_finalize state (take SPX_N optrand ++ m))
    else
      let state := sha256_inc_blocks state (take SPX_N optrand ++ take (64 - SPX_N) m) 1 in
      fst (sha256_inc_finalize state (drop (64 - SPX_N) m)) in
  take SPX_N (sha256 (hmac_pad 0x5c sk_prf ++ inner)).

(** The digest, the tree and the leaf.  [SPX_INBLOCKS] is 1. *)
Definition hash_message (R pk m : list Z) : list Z * Z * Z :=
  let inbuf := take SPX_N R ++ take SPX_PK_BYTES pk in
  let h :=
    if (SPX_N + SPX_PK_BYTES + length m <? 64)%nat then fst (sha256_inc_finalize sha256_inc_init (inbuf ++ m))
    else
      let state := sha256_inc_blocks sha256_inc_init (inbuf ++ take (64 - SPX_N - SPX_PK_BYTES) m) 1 in
      fst (sha256_inc_finalize state (drop (64 - SPX_N - SPX_PK_BYTES) m)) in
  let seed := take SPX_N R ++ take SPX_N pk ++ h in
  let buf := mgf1_256 SPX_DGST_BYTES seed in
  let digest := take SPX_FORS_MSG_BYTES buf in
  let bufp := drop SPX_FORS_MSG_BYTES buf in
  let tree := Z.land (bytes_to_ull bufp SPX_TREE_BYTES) (Z.shiftr 18446744073709551615 (64 - SPX_TREE_BITS)) in
  let bufp := drop SPX_TREE_BYTES bufp in
  let leaf_idx := Z.land (u32 (bytes_to_ull bufp SPX_LEAF_BYTES)) (Z.shiftr 4294967295 (32 - SPX_LEAF_BITS)) in
  (digest, tree, leaf_idx).

(** ** The hash functions of FIPS 205 *)

Lemma hashblocks_length fuel state inp :
  length state = 8%nat -> length (fst (hashblocks_loop (W := sha2_32) fuel state inp)) = 8%nat.
Proof.
  revert state inp. induction fuel as [|fuel IH]; intros state inp Hs; cbn [hashblocks_loop]; [exact Hs|].
  destruct (_ <=? _)%nat; [|exact Hs]. apply IH. unfold compress. destruct (for_loop _ _ _ _). apply length_fill.
Qed.
Lemma store_words_ok l : bytes_ok (concat (map store_bigendian_32 l)) /\ length (concat (map store_bigendian_32 l)) = (4 * length l)%nat.
Proof.
  induction l as [|x l [IH1 IH2]]; [split; [constructor|reflexivity]|]. cbn [map concat]. split.
  - apply Forall_app. split; [|exact IH1]. unfold store_bigendian_32. repeat (constructor; [apply u8_range|]). constructor.
  - rewrite length_app, IH2. cbn [length store_bigendian_32]. lia.
Qed.
(** A context is 40 bytes. *)
Definition ctx_ok (ctx : list Z) : Prop := bytes_ok ctx /\ length ctx = 40%nat.
Lemma init_ok : ctx_ok sha256_inc_init.
Proof. split; [apply (bool_decide_unpack _); vm_compute; exact I|reflexivity]. Qed.
Lemma blocks_ok ctx a n : ctx_ok (sha256_inc_blocks ctx a n).
Proof.
  unfold sha256_inc_blocks, inc_blocks, crypto_hashblocks.
  pose proof (hashblocks_length (length (take (block_bytes * n) a)) (load_words 8 (take state_bytes ctx)) (take (block_bytes * n) a) ltac:(apply length_fill)) as Hl.
  destruct (hashblocks_loop _ _ _) as [st rest]. cbn [fst] in Hl. change (@store_word sha2_32) with store_bigendian_32.
  destruct (store_words_ok st) as [H1 H2]. split.
  - apply Forall_app. split; [exact H1|]. unfold store_bigendian_64. repeat (constructor; [apply u8_range|]). constructor.
  - rewrite length_app, H2, Hl. reflexivity.
Qed.
Lemma finalize_blocks ctx a b :
  ctx_ok ctx -> bytes_ok a -> bytes_ok b -> length a = 64%nat ->
  sha256_inc_finalize (sha256_inc_blocks ctx a 1) b = sha256_inc_finalize ctx (a ++ b).
Proof. intros [Hc Hl] Ha Hb Hn. apply (sha2_incremental ctx a b 1 Hc Ha Hb); [exact Hl|exact Hn]. Qed.

Lemma blocks_take ctx a : sha256_inc_blocks ctx a 1 = sha256_inc_blocks ctx (take 64 a) 1.
Proof.
  unfold sha256_inc_blocks, inc_blocks. change (block_bytes * 1)%nat with 64%nat. rewrite take_take. reflexivity.
Qed.

Module Fips205.
(** HMAC-SHA-256 for a key of at most a block. *)
Definition hmac (key m : list Z) : list Z :=
  let k0 := key ++ replicate (64 - length key) 0 in
  sha256 (map (Z.lxor 0x5c) k0 ++ sha256 (map (Z.lxor 0x36) k0 ++ m)).
(** MGF1-SHA-256: the first bytes of the digests of the seed and a counter. *)
Definition mgf1 (outlen : nat) (seed : list Z) : list Z :=
  take outlen (fill_chunks (outlen / 32 + 1) (fun i => sha256 (seed ++ u32_to_bytes (Z.of_nat i)))).
(** The tweakable hash and the message functions of section 11.2.1. *)
Definition T (pk_seed adrs m : list Z) : list Z := take 16 (sha256 (pk_seed ++ replicate 48 0 ++ adrs ++ m)).
Definition PRF_msg (sk_prf opt_rand m : list Z) : list Z := take 16 (hmac sk_prf (opt_rand ++ m)).
Definition H_msg (R pk_seed pk_root m : list Z) : list Z :=
  mgf1 30 (R ++ pk_seed ++ sha256 (R ++ pk_seed ++ pk_root ++ m)).
End Fips205.

Lemma seeded_finalize pub buf :
  length pub = SPX_N -> bytes_ok pub -> bytes_ok buf ->
  fst (sha256_inc_finalize (seed_state pub) buf) = sha256 (pub ++ replicate 48 0 ++ buf).
Proof.
  intros Hl Hp Hb. unfold seed_state. rewrite blocks_take.
  assert (E : take 64 (take SPX_N pub ++ replicate (128 - SPX_N) 0) = pub ++ replicate 48 0).
  { rewrite (take_ge pub) by lia. rewrite take_app_ge by (rewrite Hl; unfold SPX_N; lia). rewrite Hl. reflexivity. }
  rewrite E, finalize_blocks; [|apply init_ok| |exact Hb|].
  - unfold sha256. rewrite <- app_assoc. reflexivity.
  - apply Forall_app. split; [exact Hp|apply Forall_replicate; unfold is_u8; lia].
  - rewrite length_app, Hl. reflexivity.
Qed.

Lemma finalize_out ctx m : bytes_ok (fst (sha256_inc_finalize ctx m)) /\ length (fst (sha256_inc_finalize ctx m)) = 32%nat.
Proof.
  unfold sha256_inc_finalize, inc_finalize, crypto_hashblocks.
  destruct (hashblocks_loop _ (load_words 8 (take state_bytes ctx)) _) as [st rest].
  match goal with |- context [hashblocks_loop ?f ?s ?i] =>
    pose proof (hashblocks_length f s i ltac:(apply length_fill)) as H2; destruct (hashblocks_loop f s i) as [st2 rest2] end.
  cbn [fst] in *. change (@store_word sha2_32) with store_bigendian_32. destruct (store_words_ok st2) as [H3 H4].
  split; [exact H3|rewrite H4, H2; reflexivity].
Qed.
Lemma sha256_out m : bytes_ok (sha256 m) /\ length (sha256 m) = 32%nat.
Proof. apply finalize_out. Qed.
Lemma thash_length ctx inp n a : length (thash ctx inp n a) = SPX_N.
Proof. unfold thash. rewrite length_take, (proj2 (finalize_out _ _)). reflexivity. Qed.
Lemma thash_bytes ctx inp n a : bytes_ok (thash ctx inp n a).
Proof. unfold thash. apply Forall_take, finalize_out. Qed.
Lemma prf_addr_length ctx a : length (prf_addr ctx a) = SPX_N.
Proof. unfold prf_addr. rewrite length_take, (proj2 (finalize_out _ _)). reflexivity. Qed.

Lemma mgf1_standard outlen seed : mgf1_256 outlen seed = Fips205.mgf1 outlen seed.
Proof.
  unfold mgf1_256, Fips205.mgf1. pose proof (Nat.div_mod_eq outlen 32) as Hd. pose proof (Nat.mod_upper_bound outlen 32 ltac:(lia)) as Hm.
  set (i := (outlen / 32)%nat) in *. set (f := fun i => sha256 (seed ++ u32_to_bytes (Z.of_nat i))).
  assert (Hf : forall j, length (f j) = 32%nat) by (intros j; apply sha256_out).
  assert (E : fill_chunks (i + 1) f = fill_chunks i f ++ f i).
  { unfold fill_chunks. rewrite Nat.add_comm. change (1 + i)%nat with (S i). rewrite seq_S, map_app, concat_app. cbn. rewrite app_nil_r. reflexivity. }
  rewrite E. assert (Hl : length (fill_chunks i f) = (i * 32)%nat) by (apply length_fill_chunks; auto).
  change (sha256 (seed ++ u32_to_bytes (Z.of_nat i))) with (f i).
  destruct (Nat.ltb_spec (i * 32) outlen).
  - rewrite take_app_ge by lia. rewrite Hl. reflexivity.
  - rewrite take_app_le by lia. rewrite take_ge by lia. reflexivity.
Qed.

Lemma lxor_u8 x y : is_u8 x -> is_u8 y -> is_u8 (Z.lxor x y).
Proof.
  intros Hx Hy. replace (Z.lxor x y) with (u8 (Z.lxor x y)); [apply u8_range|].
  rewrite <- (u8_id x), <- (u8_id y) at 2 by assumption. unfold u8. apply Z.bits_inj'. intros k _.
  rewrite Z.lxor_spec, !Z.land_spec, Z.lxor_spec. destruct (Z.testbit x k), (Z.testbit y k), (Z.testbit 255 k); reflexivity.
Qed.
Lemma xor_key_ok c l : is_u8 c -> bytes_ok l -> bytes_ok (map (Z.lxor c) l).
Proof. intros Hc Hl. apply Forall_map. eapply Forall_impl; [exact Hl|]. intros x Hx. apply lxor_u8; assumption. Qed.

Lemma hmac_pad_key c sk_prf :
  length sk_prf = SPX_N -> hmac_pad c sk_prf = map (Z.lxor c) (sk_prf ++ replicate (64 - length sk_prf) 0).
Proof.
  intros Hl. unfold hmac_pad. rewrite take_ge by lia. rewrite map_app, Hl. f_equal. rewrite fmap_replicate, Z.lxor_0_r. reflexivity.
Qed.
Lemma hmac_pad_ok c sk_prf : is_u8 c -> length sk_prf = SPX_N -> bytes_ok sk_prf -> bytes_ok (hmac_pad c sk_prf) /\ length (hmac_pad c sk_prf) = 64%nat.
Proof.
  intros Hc Hl Hb. unfold hmac_pad. rewrite take_ge by lia. split.
  - apply Forall_app. split; [apply xor_key_ok; assumption|apply Forall_replicate, Hc].
  - rewrite length_app, length_map, length_replicate, Hl. reflexivity.
Qed.

(** One block from a prefix and the message, then the rest, or all at once. *)
Lemma split_finalize ctx p m :
  ctx_ok ctx -> bytes_ok p -> bytes_ok m -> (length p <= 64)%nat ->
  (if (length p + length m <? 64)%nat then fst (sha256_inc_finalize ctx (p ++ m))
   else fst (sha256_inc_finalize (sha256_inc_blocks ctx (p ++ take (64 - length p) m) 1) (drop (64 - length p) m)))
  = fst (sha256_inc_finalize ctx (p ++ m)).
Proof.
  intros Hc Hp Hm Hl. destruct (Nat.ltb_spec (length p + length m) 64); [reflexivity|].
  rewrite finalize_blocks; [rewrite <- app_assoc, take_drop; reflexivity|exact Hc| | |].
  - apply Forall_app. split; [exact Hp|apply Forall_take, Hm].
  - apply Forall_drop, Hm.
  - rewrite length_app, length_take. lia.
Qed.

Lemma gen_message_random_standard sk_prf optrand m :
  length sk_prf = SPX_N -> bytes_ok sk_prf -> length optrand = SPX_N -> bytes_ok optrand -> bytes_ok m ->
  gen_message_random sk_prf optrand m = Fips205.PRF_msg sk_prf optrand m.
Proof.
  intros Hl Hb Ho Hbo Hm. unfold gen_message_random, Fips205.PRF_msg, Fips205.hmac. rewrite <- !hmac_pad_key by exact Hl.
  rewrite (take_ge optrand) by lia. rewrite <- Ho.
  rewrite (split_finalize _ optrand m (blocks_ok _ _ _) Hbo Hm) by (rewrite Ho; unfold SPX_N; lia).
  destruct (hmac_pad_ok 0x36 sk_prf) as [H1 H2]; [unfold is_u8; lia|exact Hl|exact Hb|].
  rewrite finalize_blocks; [|apply init_ok|exact H1|apply Forall_app; split; assumption|exact H2].
  rewrite Ho. reflexivity.
Qed.

(** The value of the bits a digest gives. *)
Definition digest_parts (d : list Z) : list Z * Z * Z :=
  (take SPX_FORS_MSG_BYTES d,
   Z.land (bytes_to_ull (drop SPX_FORS_MSG_BYTES d) SPX_TREE_BYTES) (Z.ones SPX_TREE_BITS),
   Z.land (u32 (bytes_to_ull (drop SPX_TREE_BYTES (drop SPX_FORS_MSG_BYTES d)) SPX_LEAF_BYTES)) (Z.ones SPX_LEAF_BITS)).
Lemma hash_message_standard R pk_seed pk_root m :
  length R = SPX_N -> length pk_seed = SPX_N -> length pk_root = SPX_N ->
  bytes_ok R -> bytes_ok pk_seed -> bytes_ok pk_root -> bytes_ok m ->
  hash_message R (pk_seed ++ pk_root) m = digest_parts (Fips205.H_msg R pk_seed pk_root m).
Proof.
  intros HR Hs Ht BR Bs Bt Bm. unfold hash_message, Fips205.H_msg.
  rewrite (take_ge R) by lia. rewrite (take_ge (pk_seed ++ pk_root) SPX_PK_BYTES) by (rewrite length_app, Hs, Ht; unfold SPX_PK_BYTES; lia).
  rewrite (take_app_le pk_seed) by lia. rewrite (take_ge pk_seed) by lia.
  assert (Hp : length (R ++ pk_seed ++ pk_root) = (SPX_N + SPX_PK_BYTES)%nat) by (rewrite !length_app, HR, Hs, Ht; reflexivity).
  replace (64 - SPX_N - SPX_PK_BYTES)%nat with (64 - (SPX_N + SPX_PK_BYTES))%nat by reflexivity. rewrite <- Hp.
  rewrite split_finalize; [|apply init_ok|unfold bytes_ok in *; rewrite !Forall_app; auto|exact Bm|rewrite Hp; apply Nat.leb_le; reflexivity].
  rewrite mgf1_standard. fold (sha256 ((R ++ pk_seed ++ pk_root) ++ m)). rewrite <- !app_assoc. reflexivity.
Qed.

(** C29: the hash functions are those of FIPS 205: on byte strings of the right
    lengths the tweakable hash and the key derivation, computed from a state that
    has absorbed the public seed, are SHA-256 of the padded seed, the compressed
    address and the message cut to 16 bytes; the randomizer is HMAC-SHA-256; and
    the message digest is MGF1 of the hashed message, whatever its length. *)
Theorem slh_hashes_standard (pk_seed sk : list Z) :
  length pk_seed = SPX_N -> bytes_ok pk_seed -> length sk = SPX_N -> bytes_ok sk ->
  let ctx := initialize_hash_function pk_seed sk in
  (forall inp n a, bytes_ok inp -> bytes_ok a ->
     thash ctx inp n a = Fips205.T pk_seed (take 22 a) (take (n * SPX_N) inp)) /\
  (forall a, bytes_ok a -> prf_addr ctx a = Fips205.T pk_seed (take 22 a) sk) /\
  (forall sk_prf optrand m, length sk_prf = SPX_N -> bytes_ok sk_prf -> length optrand = SPX_N -> bytes_ok optrand -> bytes_ok m ->
     gen_message_random sk_prf optrand m = Fips205.PRF_msg sk_prf optrand m) /\
  (forall R pk_root m, length R = SPX_N -> length pk_root = SPX_N -> bytes_ok R -> bytes_ok pk_root -> bytes_ok m ->
     hash_message R (pk_seed ++ pk_root) m = digest_parts (Fips205.H_msg R pk_seed pk_root m)).
Proof.
  intros Hl Hb Hs Hbs ctx. split; [|split; [|split]].
  - intros inp n a Hi Ha. unfold thash. cbn [state_seeded ctx initialize_hash_function].
    rewrite seeded_finalize by (assumption || (apply Forall_app; split; apply Forall_take; assumption)). reflexivity.
  - intros a Ha. unfold prf_addr. cbn [state_seeded sk_seed ctx initialize_hash_function].
    rewrite (take_ge sk) by lia.
    rewrite seeded_finalize by (assumption || (apply Forall_app; split; [apply Forall_take|]; assumption)). reflexivity.
  - exact gen_message_random_standard.
  - intros R pk_root m HR Ht BR Bt Bm. apply hash_message_standard; assumption.
Qed.
Lemma slh_hashes_standard_witness :
  let ctx := initialize_hash_function (replicate 16 1) (replicate 16 2) in
  prf_addr ctx zero_addr = Fips205.T (replicate 16 1) (take 22 zero_addr) (replicate 16 2).
Proof.
  apply (slh_hashes_standard (replicate 16 1) (replicate 16 2)); try reflexivity;
    apply Forall_replicate; unfold is_u8; lia.
Defined.
