(* ===== verification/SlhTree.v ===== *)
(** * SLH-DSA-SHA2-128s: hash trees

    [treehashx1] of [utilsx1.c] and [compute_root] of [utils.c].  The stack and
    the authentication path are lists of nodes; the leaf generator carries a
    state of its own, as [info] does.  [node] is the tree the two functions are
    about, level by level; [treehashx1] computes its root and a path from its
    leaves in one pass, and [compute_root] goes up that path to the root. *)

From S2P Require Import Prelude SlhHash.

Local Open Scope Z_scope.

(** ** The code *)

(** The inner loop: [rem] levels are left up to [tree_height].  The result is
    the root when the top is reached, the stack, the path and the address. *)
Fixpoint climb (ctx : spx_ctx) (rem h : nat) (idx max_idx internal_idx internal_leaf internal_idx_offset : Z) (current : list Z)
    (stack auth_path : list (list Z)) (tree_addr : addr) : option (list Z) * list (list Z) * list (list Z) * addr :=
  match rem with
  | O => (Some current, stack, auth_path, tree_addr)
  | S rem =>
      let auth_path := if Z.lxor internal_idx internal_leaf =? 1 then <[h := current]> auth_path else auth_path in
      if (Z.land internal_idx 1 =? 0) && (idx <? max_idx) then (None, <[h := current]> stack, auth_path, tree_addr)
      else
        let internal_idx_offset := Z.shiftr internal_idx_offset 1 in
        let tree_addr := set_tree_height tree_addr (Z.of_nat h + 1) in
        let tree_addr := set_tree_index tree_addr (u32 (internal_idx / 2 + internal_idx_offset)) in
        let left := stack !!! h in
        let current := thash ctx (left ++ current) 2 tree_addr in
        climb ctx rem (S h) idx max_idx (Z.shiftr internal_idx 1) (Z.shiftr internal_leaf 1) internal_idx_offset current
          stack auth_path tree_addr
  end.

Section Treehash.
Context {I : Type} (ctx : spx_ctx) (gen_leaf : Z -> I -> list Z * I) (leaf_idx idx_offset : Z) (tree_height : nat).
(** [for (idx = 0;; idx++)]; the pass over the last leaf returns. *)
Fixpoint treehash_loop (fuel : nat) (idx : Z) (info : I) (stack auth_path : list (list Z)) (tree_addr : addr)
    : option (list Z * list (list Z) * addr * I) :=
  match fuel with
  | O => None
  | S fuel =>
      let max_idx := u32 (Z.shiftl 1 (Z.of_nat tree_height) - 1) in
      let '(current, info) := gen_leaf (u32 (idx + idx_offset)) info in
      match climb ctx tree_height 0 idx max_idx idx leaf_idx idx_offset current stack auth_path tree_addr with
      | (Some root, _, auth_path, tree_addr) => Some (root, auth_path, tree_addr, info)
      | (None, stack, auth_path, tree_addr) => treehash_loop fuel (u32 (idx + 1)) info stack auth_path tree_addr
      end
  end.
Definition treehashx1 (info : I) (auth_path : list (list Z)) (tree_addr : addr) : option (list Z * list (list Z) * addr * I) :=
  treehash_loop (2 ^ tree_height) 0 info (replicate tree_height []) auth_path tree_addr.
End Treehash.

(** The two children in the buffer, the right order decided by the parity. *)
Definition siblings (idx : Z) (node auth : list Z) : list Z :=
  if negb (Z.land idx 1 =? 0) then auth ++ node else node ++ auth.
Definition compute_root_step (ctx : spx_ctx) (i : nat) (s : list Z * list Z * Z * Z * addr) : list Z * list Z * Z * Z * addr :=
  let '(buffer, auth_path, leaf_idx, idx_offset, a) := s in
  let leaf_idx := Z.shiftr leaf_idx 1 in
  let idx_offset := Z.shiftr idx_offset 1 in
  let a := set_tree_height a (Z.of_nat i + 1) in
  let a := set_tree_index a (u32 (leaf_idx + idx_offset)) in
  let buffer := siblings leaf_idx (thash ctx buffer 2 a) (take SPX_N auth_path) in
  (buffer, drop SPX_N auth_path, leaf_idx, idx_offset, a).
Definition compute_root (ctx : spx_ctx) (leaf : list Z) (leaf_idx idx_offset : Z) (auth_path : list Z) (tree_height : nat) (a : addr)
    : list Z * addr :=
  let buffer := siblings leaf_idx leaf (take SPX_N auth_path) in
  let auth_path := drop SPX_N auth_path in
  let '(buffer, _, leaf_idx, idx_offset, a) :=
    for_loop (tree_height - 1) 0 (compute_root_step ctx) (buffer, auth_path, leaf_idx, idx_offset, a) in
  let leaf_idx := Z.shiftr leaf_idx 1 in
  let idx_offset := Z.shiftr idx_offset 1 in
  let a := set_tree_height a (Z.of_nat tree_height) in
  let a := set_tree_index a (u32 (leaf_idx + idx_offset)) in
  (thash ctx buffer 2 a, a).

(** ** Addresses of nodes *)

(** The address of the node [i] at height [h]. *)
Definition node_addr (a : addr) (idx_offset : Z) (h : nat) (i : Z) : addr :=
  set_tree_index (set_tree_height a (Z.of_nat h)) (u32 (i + Z.shiftr idx_offset (Z.of_nat h))).

Lemma node_addr_length a o h i : length (node_addr a o h i) = length a.
Proof. unfold node_addr, set_tree_index, set_tree_height. rewrite length_inserts, length_insert. reflexivity. Qed.
(** Setting the address of a node overwrites that of the one before. *)
Lemma node_addr_again a o h i h' i' : length a = 32%nat -> node_addr (node_addr a o h i) o h' i' = node_addr a o h' i'.
Proof.
  intros Ha. do 32 (destruct a as [|? a]; [discriminate|]). destruct a; [|discriminate].
  unfold node_addr, set_tree_index, set_tree_height, u32_to_bytes. reflexivity.
Qed.

(** The tree of height [h] over the leaves. *)
Fixpoint node (ctx : spx_ctx) (leaf : Z -> list Z) (a : addr) (idx_offset : Z) (h : nat) (i : Z) : list Z :=
  match h with
  | O => leaf i
  | S h' => thash ctx (node ctx leaf a idx_offset h' (2 * i) ++ node ctx leaf a idx_offset h' (2 * i + 1)) 2
              (node_addr a idx_offset h i)
  end.


(** ** The pass over the leaves *)

Lemma lxor_1_iff x y : Z.lxor x y = 1 <-> x = Z.lxor y 1.
Proof.
  split; [intros <-|intros ->].
  - rewrite (Z.lxor_comm x y), <- Z.lxor_assoc, Z.lxor_nilpotent, Z.lxor_0_l. reflexivity.
  - rewrite (Z.lxor_comm y 1), Z.lxor_assoc, Z.lxor_nilpotent, Z.lxor_0_r. reflexivity.
Qed.
Lemma land_1_even x : (Z.land x 1 =? 0) = Z.even x.
Proof. change 1 with (Z.ones 1) at 1. rewrite Z.land_ones by lia. change (2 ^ 1) with 2. rewrite Zmod_even. destruct (Z.even x); reflexivity. Qed.
Lemma shiftr_succ x (h : nat) : Z.shiftr x (Z.of_nat (S h)) = Z.shiftr (Z.shiftr x (Z.of_nat h)) 1.
Proof. rewrite Z.shiftr_shiftr by lia. f_equal. lia. Qed.
(** The leaves up to [idx] complete the node of height [h] above it. *)
Lemma complete_node idx (h : nat) :
  (idx + 1) mod 2 ^ Z.of_nat h = 0 -> idx + 1 = (Z.shiftr idx (Z.of_nat h) + 1) * 2 ^ Z.of_nat h.
Proof.
  intros Hm. pose proof (Z.pow_pos_nonneg 2 (Z.of_nat h) ltac:(lia) ltac:(lia)). rewrite shiftr_div by lia.
  pose proof (Z.div_mod (idx + 1) (2 ^ Z.of_nat h) ltac:(lia)) as E. rewrite Hm in E.
  assert (E2 : idx / 2 ^ Z.of_nat h = (idx + 1) / 2 ^ Z.of_nat h - 1).
  { symmetry. apply Z.div_unique with (r := 2 ^ Z.of_nat h - 1); [lia|]. lia. }
  rewrite E2. lia.
Qed.

Section Pass.
Context (ctx : spx_ctx) (leaf : Z -> list Z) (a0 : addr) (o leaf_idx : Z) (H : nat).
Hypothesis Ha0 : length a0 = 32%nat.
Local Abbreviation N h i := (node ctx leaf a0 o h i).

(** Before the leaf [i] the stack holds the left siblings of its path. *)
Definition stack_ok (i : Z) (stack : list (list Z)) : Prop :=
  length stack = H /\
  forall j : nat, (j < H)%nat -> Z.testbit i (Z.of_nat j) = true -> stack !!! j = N j (Z.shiftr i (Z.of_nat j) - 1).
Definition same_addr (ta : addr) : Prop := length ta = 32%nat /\ forall h i, node_addr ta o h i = node_addr a0 o h i.
(** What the pass over the leaf [idx] writes at height [k] of the path. *)
Definition path_write (idx : Z) (h : nat) (auth : list (list Z)) (k : nat) : list Z :=
  if (h <=? k)%nat && ((idx + 1) mod 2 ^ Z.of_nat k =? 0) && (Z.lxor (Z.shiftr idx (Z.of_nat k)) (Z.shiftr leaf_idx (Z.of_nat k)) =? 1)
  then N k (Z.shiftr idx (Z.of_nat k)) else auth !!! k.

Lemma testbit_odd x (j : nat) : Z.testbit x (Z.of_nat j) = Z.odd (Z.shiftr x (Z.of_nat j)).
Proof. rewrite <- Z.bit0_odd, Z.shiftr_spec by lia. f_equal. Qed.

Lemma stack_push idx h current stack :
  stack_ok idx stack -> (h < H)%nat -> (idx + 1) mod 2 ^ Z.of_nat h = 0 -> Z.even (Z.shiftr idx (Z.of_nat h)) = true ->
  current = N h (Z.shiftr idx (Z.of_nat h)) -> stack_ok (idx + 1) (<[h := current]> stack).
Proof.
  intros [Hl Hs] Hh Hm He ->. split; [rewrite length_insert; exact Hl|]. intros j Hj Hb.
  pose proof (complete_node idx h Hm) as Hc. set (p := Z.shiftr idx (Z.of_nat h)) in *.
  assert (Hpos : 0 < 2 ^ Z.of_nat h) by (apply Z.pow_pos_nonneg; lia).
  destruct (Nat.lt_trichotomy j h) as [Hlt|[->|Hgt]].
  - exfalso. rewrite Hc in Hb. rewrite Z.mul_pow2_bits_low in Hb by lia. discriminate.
  - rewrite list_lookup_total_insert_eq by lia. f_equal. rewrite Hc, shiftr_div, Z.div_mul by lia. lia.
  - rewrite list_lookup_total_insert_ne by lia.
    assert (E : Z.shiftr (idx + 1) (Z.of_nat j) = Z.shiftr idx (Z.of_nat j)).
    { replace (Z.of_nat j) with (Z.of_nat h + (1 + Z.of_nat (j - h - 1))) by lia.
      rewrite <- !(Z.shiftr_shiftr _ (Z.of_nat h)), <- !(Z.shiftr_shiftr _ 1) by lia. f_equal. fold p.
      rewrite Hc, (shiftr_div _ (Z.of_nat h)), Z.div_mul, !shiftr_div by lia. change (2 ^ 1) with 2.
      apply Z.even_spec in He. destruct He as [q ->]. zlia. }
    rewrite E. apply Hs; [exact Hj|]. rewrite testbit_odd, E, <- testbit_odd in Hb. exact Hb.
Qed.

Lemma left_incomplete idx (h k : nat) :
  (idx + 1) mod 2 ^ Z.of_nat h = 0 -> Z.even (Z.shiftr idx (Z.of_nat h)) = true -> (h < k)%nat -> (idx + 1) mod 2 ^ Z.of_nat k <> 0.
Proof.
  intros Hm Hev Hk Hk0. pose proof (complete_node idx h Hm) as Hc. apply Z.mod_divide in Hk0 as [q Hq]; [|lia].
  assert (E : 2 ^ Z.of_nat k = 2 ^ Z.of_nat h * (2 * 2 ^ Z.of_nat (k - h - 1))).
  { rewrite <- Z.pow_succ_r, <- Z.pow_add_r by lia. f_equal. lia. }
  pose proof (Z.pow_pos_nonneg 2 (Z.of_nat h) ltac:(lia) ltac:(lia)). apply Z.even_spec in Hev. destruct Hev as [q' Hq'].
  assert (Z.shiftr idx (Z.of_nat h) + 1 = q * (2 * 2 ^ Z.of_nat (k - h - 1))) by (apply (Z.mul_reg_r _ _ (2 ^ Z.of_nat h)); nia).
  lia.
Qed.
Lemma right_complete idx (h : nat) :
  (idx + 1) mod 2 ^ Z.of_nat h = 0 -> Z.even (Z.shiftr idx (Z.of_nat h)) = false -> (idx + 1) mod 2 ^ Z.of_nat (S h) = 0.
Proof.
  intros Hm Hev. rewrite (complete_node idx h Hm), Nat2Z.inj_succ, Z.pow_succ_r by lia.
  assert (Ho : Z.odd (Z.shiftr idx (Z.of_nat h)) = true) by (rewrite <- Z.negb_even, Hev; reflexivity).
  apply Z.odd_spec in Ho as [q ->]. replace ((2 * q + 1 + 1) * 2 ^ Z.of_nat h) with ((q + 1) * (2 * 2 ^ Z.of_nat h)) by ring.
  apply Z.mod_mul. pose proof (Z.pow_pos_nonneg 2 (Z.of_nat h) ltac:(lia) ltac:(lia)). lia.
Qed.
Lemma last_odd idx (h : nat) :
  (h < H)%nat -> 0 <= idx < 2 ^ Z.of_nat H -> 2 ^ Z.of_nat H - 1 <= idx -> (idx + 1) mod 2 ^ Z.of_nat h = 0 ->
  Z.even (Z.shiftr idx (Z.of_nat h)) = false.
Proof.
  intros Hh Hi Hge Hm. pose proof (complete_node idx h Hm) as Hc.
  assert (E : 2 ^ Z.of_nat H = 2 ^ Z.of_nat h * (2 * 2 ^ Z.of_nat (H - h - 1))).
  { rewrite <- Z.pow_succ_r, <- Z.pow_add_r by lia. f_equal. lia. }
  pose proof (Z.pow_pos_nonneg 2 (Z.of_nat h) ltac:(lia) ltac:(lia)).
  assert (E2 : Z.shiftr idx (Z.of_nat h) + 1 = 2 * 2 ^ Z.of_nat (H - h - 1)) by (apply (Z.mul_reg_r _ _ (2 ^ Z.of_nat h)); lia).
  replace (Z.shiftr idx (Z.of_nat h)) with (1 + 2 * (2 ^ Z.of_nat (H - h - 1) - 1)) by lia. apply Z.even_add_mul_2.
Qed.
Lemma node_addr_same h i : same_addr (node_addr a0 o h i).
Proof using Ha0. split; [rewrite node_addr_length; exact Ha0|]. intros h' i'. apply node_addr_again, Ha0. Qed.
(** The address the code sets is that of the parent. *)
Lemma set_node_addr h p q ta :
  same_addr ta -> p = 2 * q + 1 ->
  set_tree_index (set_tree_height ta (Z.of_nat h + 1)) (u32 (p / 2 + Z.shiftr (Z.shiftr o (Z.of_nat h)) 1)) = node_addr a0 o (S h) q.
Proof.
  intros [_ Hta] Hp. rewrite <- Hta. unfold node_addr. rewrite shiftr_succ. f_equal; [f_equal; lia|]. do 2 f_equal. zlia.
Qed.

Lemma climb_spec rem : forall h idx current stack auth ta,
  (h + rem = H)%nat -> (H <= 32)%nat -> 0 <= idx < 2 ^ Z.of_nat H -> (idx + 1) mod 2 ^ Z.of_nat h = 0 ->
  current = N h (Z.shiftr idx (Z.of_nat h)) -> stack_ok idx stack -> length auth = H -> same_addr ta ->
  let '(r, stack', auth', ta') := climb ctx rem h idx (2 ^ Z.of_nat H - 1) (Z.shiftr idx (Z.of_nat h)) (Z.shiftr leaf_idx (Z.of_nat h))
        (Z.shiftr o (Z.of_nat h)) current stack auth ta in
  length auth' = H /\ same_addr ta' /\ (forall k, (k < H)%nat -> auth' !!! k = path_write idx h auth k) /\
  match r with
  | Some root => idx = 2 ^ Z.of_nat H - 1 /\ root = N H 0
  | None => idx < 2 ^ Z.of_nat H - 1 /\ stack_ok (idx + 1) stack'
  end.
Proof.
  induction rem as [|rem IH]; intros h idx current stack auth ta Hh H32 Hi Hm Hcur Hst Hau Hta; cbn [climb].
  - assert (h = H) as -> by lia. assert (E : idx = 2 ^ Z.of_nat H - 1).
    { apply Z.mod_divide in Hm as [q Hq]; [|lia]. assert (q = 1) by nia. lia. }
    split; [exact Hau|split; [exact Hta|split]].
    + intros k Hk. unfold path_write. rewrite (proj2 (Nat.leb_gt H k)) by lia. reflexivity.
    + split; [exact E|]. rewrite Hcur. f_equal. rewrite shiftr_div by lia. apply Z.div_small. lia.
  - pose proof (complete_node idx h Hm) as Hc. set (p := Z.shiftr idx (Z.of_nat h)) in *.
    set (auth1 := if Z.lxor p _ =? 1 then _ else auth).
    assert (Hau1 : length auth1 = H) by (unfold auth1; destruct (_ =? _); rewrite ?length_insert; exact Hau).
    assert (Hp1 : 0 < 2 ^ Z.of_nat h) by (apply Z.pow_pos_nonneg; lia).
    assert (Hpp : 2 ^ Z.of_nat (S h) = 2 * 2 ^ Z.of_nat h) by (rewrite Nat2Z.inj_succ, Z.pow_succ_r by lia; reflexivity).
    assert (Hw : forall k, (k < H)%nat -> (k <= h)%nat -> auth1 !!! k = path_write idx h auth k).
    { intros k Hk Hle. unfold path_write, auth1. destruct (Nat.eq_dec k h) as [->|Hne].
      - rewrite Nat.leb_refl, Hm. cbn [andb Z.eqb]. fold p. destruct (_ =? 1); [|reflexivity].
        rewrite list_lookup_total_insert_eq by lia. exact Hcur.
      - rewrite (proj2 (Nat.leb_gt h k)) by lia. cbn [andb]. destruct (_ =? 1); [|reflexivity].
        rewrite list_lookup_total_insert_ne by lia. reflexivity. }
    rewrite land_1_even. destruct (Z.even p && (idx <? 2 ^ Z.of_nat H - 1)) eqn:Hstop.
    + apply andb_true_iff in Hstop as [Hev Hlt]. apply Z.ltb_lt in Hlt.
      split; [exact Hau1|split; [exact Hta|split; [|split; [exact Hlt|apply stack_push; try assumption; lia]]]].
      intros k Hk. destruct (Nat.le_gt_cases k h) as [Hle|Hgt]; [apply Hw; assumption|].
      transitivity (auth !!! k).
      * unfold auth1. destruct (_ =? 1); [|reflexivity]. rewrite list_lookup_total_insert_ne by lia. reflexivity.
      * unfold path_write. rewrite (proj2 (Z.eqb_neq _ _)) by (apply (left_incomplete idx h k Hm Hev Hgt)). rewrite andb_false_r. reflexivity.
    + assert (Hev : Z.even p = false).
      { apply andb_false_iff in Hstop as [Hev|Hge]; [exact Hev|]. apply Z.ltb_ge in Hge. apply (last_odd idx h); [lia..|exact Hm]. }
      assert (Hp : Z.testbit idx (Z.of_nat h) = true) by (rewrite testbit_odd; fold p; rewrite <- Z.negb_even, Hev; reflexivity).
      assert (Hq : exists q, p = 2 * q + 1) by (apply Z.odd_spec; rewrite <- Z.negb_even, Hev; reflexivity).
      destruct Hq as [q Hq].
      assert (Eq : Z.shiftr p 1 = q) by (rewrite shiftr_div by lia; change (2 ^ 1) with 2; zlia).
      assert (Eq' : Z.shiftr idx (Z.of_nat (S h)) = q) by (rewrite shiftr_succ; exact Eq).
      pose proof (proj2 Hst h ltac:(lia) Hp) as Hleft. fold p in Hleft.
      rewrite (set_node_addr h p q ta Hta Hq).
      specialize (IH (S h) idx (thash ctx (stack !!! h ++ current) 2 (node_addr a0 o (S h) q)) stack auth1 (node_addr a0 o (S h) q)).
      rewrite !shiftr_succ in IH. fold p in IH. rewrite Eq in *.
      assert (Hcur' : thash ctx (stack !!! h ++ current) 2 (node_addr a0 o (S h) q) = N (S h) q).
      { cbn [node]. rewrite Hleft, Hcur, Hq. replace (2 * q + 1 - 1) with (2 * q) by lia. reflexivity. }
      specialize (IH ltac:(lia) H32 Hi (right_complete idx h Hm Hev) Hcur' Hst Hau1 (node_addr_same _ _)).
      destruct (climb _ _ _ _ _ _ _ _ _ _ _ _) as [[[r stack'] auth'] ta']. destruct IH as (I1 & I2 & I3 & I4).
      split; [exact I1|split; [exact I2|split; [|exact I4]]]. intros k Hk. rewrite (I3 k Hk). unfold path_write at 1.
      destruct (Nat.leb_spec (S h) k); cbn [andb].
      * unfold path_write. rewrite (proj2 (Nat.leb_le h k)) by lia. cbn [andb]. unfold auth1.
        destruct ((_ mod _ =? 0) && _); [reflexivity|]. destruct (_ =? 1); [|reflexivity]. rewrite list_lookup_total_insert_ne by lia. reflexivity.
      * apply Hw; lia.
Qed.
End Pass.

Lemma lxor_1_lt x n : 0 <= x < 2 ^ n -> 0 < n -> 0 <= Z.lxor x 1 < 2 ^ n.
Proof.
  intros Hx Hn. assert (0 <= Z.lxor x 1) by (apply Z.lxor_nonneg; lia). split; [assumption|].
  destruct (Z.eq_dec (Z.lxor x 1) 0) as [->|Hz]; [lia|]. apply Z.log2_lt_pow2; [lia|].
  destruct (Z.eq_dec x 0) as [->|Hx0]; [change (Z.log2 (Z.lxor 0 1)) with 0; lia|].
  pose proof (Z.log2_lxor x 1 ltac:(lia) ltac:(lia)) as Hl. cbn [Z.log2] in Hl. change (Z.log2 1) with 0 in Hl.
  assert (Z.log2 x < n) by (apply Z.log2_lt_pow2; lia). lia.
Qed.
(** The sibling of the path at height [k]. *)
Definition sibling (leaf_idx : Z) (k : nat) : Z := Z.lxor (Z.shiftr leaf_idx (Z.of_nat k)) 1.
Lemma sibling_bound leaf_idx (H k : nat) :
  0 <= leaf_idx < 2 ^ Z.of_nat H -> (k < H)%nat -> 0 <= sibling leaf_idx k /\ (sibling leaf_idx k + 1) * 2 ^ Z.of_nat k <= 2 ^ Z.of_nat H.
Proof.
  intros Hl Hk. assert (E : 2 ^ Z.of_nat H = 2 ^ Z.of_nat (H - k) * 2 ^ Z.of_nat k) by (rewrite <- Z.pow_add_r by lia; f_equal; lia).
  pose proof (Z.pow_pos_nonneg 2 (Z.of_nat k) ltac:(lia) ltac:(lia)).
  assert (Hs : 0 <= Z.shiftr leaf_idx (Z.of_nat k) < 2 ^ Z.of_nat (H - k)).
  { rewrite shiftr_div by lia. split; [apply Z.div_pos; lia|apply Z.div_lt_upper_bound; lia]. }
  apply lxor_1_lt in Hs; [|lia]. fold (sibling leaf_idx k) in Hs. nia.
Qed.

Section Result.
Context {I : Type} (ctx : spx_ctx) (gen_leaf : Z -> I -> list Z * I) (leaf : Z -> list Z) (J : Z -> I -> Prop).
Context (a0 : addr) (o leaf_idx : Z) (H : nat).
Hypothesis Ha0 : length a0 = 32%nat.
Hypothesis Hleaf : forall idx info, 0 <= idx < 2 ^ Z.of_nat H -> J idx info ->
  let '(v, info') := gen_leaf (u32 (idx + o)) info in v = leaf idx /\ J (idx + 1) info'.

(** The path after [i] leaves: the siblings completed so far are written. *)
Definition path_ok (i : Z) (auth0 auth : list (list Z)) : Prop :=
  length auth = H /\
  forall k, (k < H)%nat -> auth !!! k =
    if (sibling leaf_idx k + 1) * 2 ^ Z.of_nat k <=? i then node ctx leaf a0 o k (sibling leaf_idx k) else auth0 !!! k.

Lemma path_step idx auth0 auth auth' :
  0 <= idx -> path_ok idx auth0 auth -> length auth' = H ->
  (forall k, (k < H)%nat -> auth' !!! k = path_write ctx leaf a0 o leaf_idx idx 0 auth k) -> path_ok (idx + 1) auth0 auth'.
Proof.
  intros Hi [_ Hp] Hl Hw. split; [exact Hl|]. intros k Hk. rewrite (Hw k Hk). unfold path_write. cbn [Nat.leb andb].
  pose proof (Z.pow_pos_nonneg 2 (Z.of_nat k) ltac:(lia) ltac:(lia)) as Hpos.
  set (s := sibling leaf_idx k).
  assert (Es : ((idx + 1) mod 2 ^ Z.of_nat k =? 0) && (Z.lxor (Z.shiftr idx (Z.of_nat k)) (Z.shiftr leaf_idx (Z.of_nat k)) =? 1)
             = ((s + 1) * 2 ^ Z.of_nat k =? idx + 1)).
  { apply eq_true_iff_eq. rewrite andb_true_iff, !Z.eqb_eq, lxor_1_iff. fold (sibling leaf_idx k). fold s. split.
    - intros [Hm E]. pose proof (complete_node idx k Hm). rewrite E in *. lia.
    - intros E. assert (Hm : (idx + 1) mod 2 ^ Z.of_nat k = 0) by (rewrite <- E; apply Z.mod_mul; lia).
      split; [exact Hm|]. pose proof (complete_node idx k Hm) as Hc. rewrite Hc in E. apply Z.mul_reg_r in E; lia. }
  rewrite Es. destruct (Z.eqb_spec ((s + 1) * 2 ^ Z.of_nat k) (idx + 1)) as [E|E].
  - rewrite (proj2 (Z.leb_le _ _)) by lia. f_equal.
    assert (Hm : (idx + 1) mod 2 ^ Z.of_nat k = 0) by (rewrite <- E; apply Z.mod_mul; lia).
    pose proof (complete_node idx k Hm) as Hc. rewrite Hc in E. apply Z.mul_reg_r in E; lia.
  - rewrite (Hp k Hk). fold s.
    destruct (Z.leb_spec ((s + 1) * 2 ^ Z.of_nat k) idx), (Z.leb_spec ((s + 1) * 2 ^ Z.of_nat k) (idx + 1)); (reflexivity || lia).
Qed.

Lemma treehash_loop_spec fuel : forall idx info stack auth0 auth ta,
  (H <= 31)%nat -> 0 <= idx -> idx + Z.of_nat fuel = 2 ^ Z.of_nat H -> (0 < fuel)%nat ->
  J idx info -> stack_ok ctx leaf a0 o H idx stack -> path_ok idx auth0 auth -> same_addr a0 o ta ->
  exists auth' ta' info',
    treehash_loop ctx gen_leaf leaf_idx o H fuel idx info stack auth ta = Some (node ctx leaf a0 o H 0, auth', ta', info') /\
    path_ok (2 ^ Z.of_nat H) auth0 auth' /\ same_addr a0 o ta' /\ J (2 ^ Z.of_nat H) info'.
Proof using Ha0 Hleaf.
  induction fuel as [|fuel IH]; intros idx info stack auth0 auth ta H31 Hi Hf Hf0 HJ Hst Hp Hta; [lia|]. cbn [treehash_loop].
  assert (Hb : 2 ^ Z.of_nat H <= 2 ^ 31) by (apply Z.pow_le_mono_r; lia). change (2 ^ 31) with 2147483648 in Hb.
  assert (Em : u32 (Z.shiftl 1 (Z.of_nat H) - 1) = 2 ^ Z.of_nat H - 1).
  { rewrite shiftl_mul, Z.mul_1_l by lia. apply u32_id. unfold is_u32. lia. }
  rewrite Em. pose proof (Hleaf idx info ltac:(lia) HJ) as Hl. destruct (gen_leaf _ info) as [current info1]. destruct Hl as [-> HJ1].
  pose proof (climb_spec ctx leaf a0 o leaf_idx H Ha0 H 0 idx (leaf idx) stack auth ta ltac:(lia) ltac:(lia) ltac:(lia)
    ltac:(apply Z.mod_1_r) eq_refl Hst (proj1 Hp) Hta) as Hc.
  rewrite !Z.shiftr_0_r in Hc.
  destruct (climb _ _ _ _ _ _ _ _ _ _ _ _) as [[[r stack'] auth'] ta']. destruct Hc as (C1 & C2 & C3 & C4).
  pose proof (path_step idx auth0 auth auth' Hi Hp C1 C3) as Hp'. destruct r as [root|].
  - destruct C4 as [E ->]. assert (E' : idx + 1 = 2 ^ Z.of_nat H) by lia. rewrite E' in *. eauto 10.
  - destruct C4 as [Hlt Hs']. rewrite (u32_id (idx + 1)) by (unfold is_u32; lia). apply IH; try assumption; lia.
Qed.

(** [treehashx1] returns the root, and the path holds the siblings. *)
Lemma treehashx1_spec info auth0 ta :
  (H <= 31)%nat -> J 0 info -> length auth0 = H -> same_addr a0 o ta -> 0 <= leaf_idx ->
  exists auth' ta' info',
    treehashx1 ctx gen_leaf leaf_idx o H info auth0 ta = Some (node ctx leaf a0 o H 0, auth', ta', info') /\
    length auth' = H /\ same_addr a0 o ta' /\ J (2 ^ Z.of_nat H) info' /\
    (leaf_idx < 2 ^ Z.of_nat H -> forall k, (k < H)%nat -> auth' !!! k = node ctx leaf a0 o k (sibling leaf_idx k)).
Proof using Ha0 Hleaf.
  intros H31 HJ Hl Hta Hx. pose proof (Z.pow_pos_nonneg 2 (Z.of_nat H) ltac:(lia) ltac:(lia)) as Hpos.
  assert (Efu : Z.of_nat (2 ^ H) = 2 ^ Z.of_nat H) by (rewrite Nat2Z.inj_pow; reflexivity).
  destruct (treehash_loop_spec (2 ^ H) 0 info (replicate H []) auth0 auth0 ta) as (auth' & ta' & info' & E & Hp & Ha & HJ');
    [exact H31|lia|lia|lia|exact HJ| | |exact Hta|].
  - split; [apply length_replicate|]. intros j _ Hb. rewrite Z.bits_0 in Hb. discriminate.
  - split; [exact Hl|]. intros k Hk. rewrite (proj2 (Z.leb_gt _ _)); [reflexivity|].
    assert (0 <= sibling leaf_idx k) by (apply Z.lxor_nonneg; split; intros _; [lia|apply Z.shiftr_nonneg, Hx]).
    pose proof (Z.pow_pos_nonneg 2 (Z.of_nat k) ltac:(lia) ltac:(lia)). nia.
  - exists auth', ta', info'. split; [exact E|]. destruct Hp as [Hp1 Hp2]. repeat split; try assumption; try apply Ha.
    intros Hlt k Hk. rewrite (Hp2 k Hk), (proj2 (Z.leb_le _ _)); [reflexivity|]. apply sibling_bound; [lia|exact Hk].
Qed.
End Result.

(** ** Going up a path *)

Lemma land_even_1 q : Z.land (2 * q) 1 = 0.
Proof. apply Z.eqb_eq. rewrite land_1_even, Z.even_mul. reflexivity. Qed.
Lemma lxor_1 x : Z.lxor x 1 = if Z.even x then x + 1 else x - 1.
Proof.
  destruct (Z.even x) eqn:E.
  - apply Z.even_spec in E as [q ->]. rewrite <- Z.add_nocarry_lxor; [reflexivity|].
    apply land_even_1.
  - assert (Ho : Z.odd x = true) by (rewrite <- Z.negb_even, E; reflexivity). apply Z.odd_spec in Ho as [q ->].
    assert (E2 : 2 * q + 1 = Z.lxor (2 * q) 1).
    { rewrite <- Z.add_nocarry_lxor; [reflexivity|apply land_even_1]. }
    rewrite E2 at 1. rewrite Z.lxor_assoc, Z.lxor_nilpotent, Z.lxor_0_r. lia.
Qed.

Section Up.
Context (ctx : spx_ctx) (leaf : Z -> list Z) (a0 : addr) (o leaf_idx : Z) (H : nat).
Hypothesis Ha0 : length a0 = 32%nat.
Local Abbreviation N h i := (node ctx leaf a0 o h i).
(** The nodes of an authentication path. *)
Definition is_path (path : list (list Z)) : Prop :=
  length path = H /\ forall k, (k < H)%nat -> length (path !!! k) = SPX_N /\ path !!! k = N k (sibling leaf_idx k).

Lemma siblings_pair i p : siblings p (N i p) (N i (Z.lxor p 1)) = N i (2 * Z.shiftr p 1) ++ N i (2 * Z.shiftr p 1 + 1).
Proof.
  unfold siblings. rewrite land_1_even, lxor_1, shiftr_div by lia. change (2 ^ 1) with 2. destruct (Z.even p) eqn:E; cbn [negb].
  - apply Z.even_spec in E as [q ->]. f_equal; f_equal; zlia.
  - assert (Ho : Z.odd p = true) by (rewrite <- Z.negb_even, E; reflexivity). apply Z.odd_spec in Ho as [q ->]. f_equal; f_equal; zlia.
Qed.
Lemma path_head path rest k :
  is_path path -> (k < H)%nat ->
  take SPX_N (concat (drop k path) ++ rest) = N k (sibling leaf_idx k) /\
  drop SPX_N (concat (drop k path) ++ rest) = concat (drop (S k) path) ++ rest.
Proof.
  intros [Hl Hp] Hk. destruct (Hp k Hk) as [Hk1 Hk2].
  rewrite (drop_S path (path !!! k) k) by (apply list_lookup_lookup_total_lt; lia). cbn [concat]. rewrite <- app_assoc. split.
  - rewrite take_app_length'; [exact Hk2|symmetry; exact Hk1].
  - rewrite drop_app_length'; [reflexivity|symmetry; exact Hk1].
Qed.
Lemma parent_addr i a :
  same_addr a0 o a ->
  set_tree_index (set_tree_height a (Z.of_nat i + 1)) (u32 (Z.shiftr (Z.shiftr leaf_idx (Z.of_nat i)) 1 + Z.shiftr (Z.shiftr o (Z.of_nat i)) 1))
  = node_addr a0 o (S i) (Z.shiftr leaf_idx (Z.of_nat (S i))).
Proof. intros [_ Ha]. rewrite <- Ha. unfold node_addr. rewrite !shiftr_succ. f_equal. f_equal. lia. Qed.

Definition up_inv (path : list (list Z)) (rest : list Z) (i : nat) (s : list Z * list Z * Z * Z * addr) : Prop :=
  let '(buffer, auth, l, off, a) := s in
  let p := Z.shiftr leaf_idx (Z.of_nat (S i)) in
  buffer = N i (2 * p) ++ N i (2 * p + 1) /\ auth = concat (drop (S i) path) ++ rest /\
  l = Z.shiftr leaf_idx (Z.of_nat i) /\ off = Z.shiftr o (Z.of_nat i) /\ same_addr a0 o a.

(** A leaf with the path of its siblings leads to the root. *)
Lemma compute_root_spec path rest a :
  is_path path -> (0 < H)%nat -> 0 <= leaf_idx < 2 ^ Z.of_nat H -> same_addr a0 o a ->
  exists a', compute_root ctx (leaf leaf_idx) leaf_idx o (concat path ++ rest) H a = (N H 0, a') /\ same_addr a0 o a'.
Proof using Ha0.
  intros Hp HH Hl Ha. unfold compute_root. destruct (path_head path rest 0 Hp HH) as [E1 E2]. rewrite drop_0 in E1, E2.
  rewrite E1, E2. clear E1 E2.
  assert (Hinv : up_inv path rest (0 + (H - 1)) (for_loop (H - 1) 0 (compute_root_step ctx)
            (siblings leaf_idx (leaf leaf_idx) (N 0 (sibling leaf_idx 0)), concat (drop 1 path) ++ rest, leaf_idx, o, a))).
  { apply (for_loop_inv (up_inv path rest)).
    - unfold up_inv. rewrite (shiftr_succ leaf_idx 0), !Z.shiftr_0_r. split; [|repeat split; apply Ha].
      unfold sibling. rewrite Z.shiftr_0_r. exact (siblings_pair 0 leaf_idx).
    - intros i [[[[buffer auth] l] off] a1] Hi (Hb & Hau & -> & -> & Ha1). unfold compute_root_step, up_inv.
      rewrite (parent_addr i a1 Ha1), <- !shiftr_succ, Hau. destruct (path_head path rest (S i) Hp ltac:(lia)) as [E1 E2]. rewrite E1, E2.
      split; [|split; [reflexivity|split; [reflexivity|split; [reflexivity|apply node_addr_same, Ha0]]]].
      rewrite (shiftr_succ leaf_idx (S i)). unfold sibling. rewrite <- siblings_pair. cbn [node]. rewrite Hb. reflexivity. }
  destruct (for_loop (H - 1) 0 _ _) as [[[[buffer auth] l] off] a1]. destruct Hinv as (Hb & _ & -> & -> & Ha1).
  replace (0 + (H - 1))%nat with (H - 1)%nat in * by lia.
  cbv zeta. replace (set_tree_height a1 (Z.of_nat H)) with (set_tree_height a1 (Z.of_nat (H - 1) + 1)) by (f_equal; lia).
  rewrite (parent_addr (H - 1) a1 Ha1).
  assert (E0 : Z.shiftr leaf_idx (Z.of_nat (S (H - 1))) = 0).
  { replace (S (H - 1)) with H by lia. rewrite shiftr_div by lia. apply Z.div_small. lia. }
  rewrite E0 in *. exists (node_addr a0 o (S (H - 1)) 0). split; [|apply node_addr_same, Ha0]. f_equal.
  rewrite Hb. change (thash ctx (N (H - 1) (2 * 0) ++ N (H - 1) (2 * 0 + 1)) 2 (node_addr a0 o (S (H - 1)) 0)) with (N (S (H - 1)) 0).
  f_equal. lia.
Qed.
End Up.
