(* ===== verification/SlhWots.v ===== *)
(** * SLH-DSA-SHA2-128s: one-time signatures

    [wots.c] and [wotsx1.c].  The signer walks every chain of a key to its end
    and keeps the values at the message's positions on the way; the verifier
    takes up each chain at that position.  The positions are the base-16 digits
    of the message and of a checksum, and no message's positions are all at or
    beyond another's, so a signature does not give a second one. *)

From S2P Require Import Prelude SlhHash SlhTree.

Local Open Scope Z_scope.

(** ** The code *)

Section Code.
Context (ctx : spx_ctx).
(** [for (i = start; i < (start + steps) && i < SPX_WOTS_W; i++)]; there are at
    most [SPX_WOTS_W] turns. *)
Fixpoint gen_chain_loop (fuel : nat) (i stop : Z) (out : list Z) (a : addr) : list Z * addr :=
  match fuel with
  | O => (out, a)
  | S fuel =>
      if (i <? stop) && (i <? SPX_WOTS_W) then
        let a := set_hash_addr a i in
        let out := thash ctx out 1 a in
        gen_chain_loop fuel (i + 1) stop out a
      else (out, a)
  end.
Definition gen_chain (inp : list Z) (start steps : Z) (a : addr) : list Z * addr :=
  gen_chain_loop (Z.to_nat SPX_WOTS_W) start (u32 (start + steps)) (take SPX_N inp) a.
End Code.

(** One digit: the state is [in], [total], [bits] and the digits so far. *)
Definition base_w_step (input : list Z) (consumed : nat) (s : nat * Z * Z * list Z) : nat * Z * Z * list Z :=
  let '(inn, total, bits, output) := s in
  let '(inn, total, bits) := if bits =? 0 then (S inn, input !!! inn, bits + 8) else (inn, total, bits) in
  let bits := bits - SPX_WOTS_LOGW in
  (inn, total, bits, output ++ [Z.land (Z.shiftr total bits) (SPX_WOTS_W - 1)]).
Definition base_w (out_len : nat) (input : list Z) : list Z :=
  let '(_, _, _, output) := for_loop out_len 0 (base_w_step input) (O, 0, 0, []) in output.
Definition wots_checksum (msg_base_w : list Z) : list Z :=
  let csum := for_loop SPX_WOTS_LEN1 0 (fun i csum => u32 (csum + (SPX_WOTS_W - 1 - msg_base_w !!! i))) 0 in
  let csum := u32 (Z.shiftl csum ((8 - ((Z.of_nat SPX_WOTS_LEN2 * SPX_WOTS_LOGW) mod 8)) mod 8)) in
  base_w SPX_WOTS_LEN2 (ull_to_bytes 2 csum).
Definition chain_lengths (msg : list Z) : list Z :=
  let lengths := base_w SPX_WOTS_LEN1 msg in
  lengths ++ wots_checksum lengths.
Definition wots_pk_from_sig (ctx : spx_ctx) (sig msg : list Z) (a : addr) : list Z * addr :=
  let lengths := chain_lengths msg in
  for_loop SPX_WOTS_LEN 0 (fun i '(pk, a) =>
    let a := set_chain_addr a (Z.of_nat i) in
    let '(out, a) := gen_chain ctx (drop (i * SPX_N) sig) (lengths !!! i) (u32 (SPX_WOTS_W - 1 - lengths !!! i)) a in
    (pk ++ out, a)) ([], a).

Record leaf_info_x1 := mkLeafInfo {
  wots_sig : list (list Z);
  wots_sign_leaf : Z;
  wots_steps : list Z;
  leaf_addr : addr;
  pk_addr : addr
}.
Section Leaf.
Context (ctx : spx_ctx).
(** [for (k = 0;; k++)] along the chain [i]; the loop is left at [SPX_WOTS_W - 1]. *)
Fixpoint wots_chain_loop (fuel : nat) (i : nat) (k wots_k : Z) (buffer : list Z) (sig : list (list Z)) (a : addr)
    : list Z * list (list Z) * addr :=
  match fuel with
  | O => (buffer, sig, a)
  | S fuel =>
      let sig := if k =? wots_k then <[i := buffer]> sig else sig in
      if k =? SPX_WOTS_W - 1 then (buffer, sig, a)
      else
        let a := set_hash_addr a k in
        let buffer := thash ctx buffer 1 a in
        wots_chain_loop fuel i (k + 1) wots_k buffer sig a
  end.
Definition wots_leaf_step (steps : list Z) (wots_k_mask : Z) (i : nat) (s : list Z * list (list Z) * addr) : list Z * list (list Z) * addr :=
  let '(pk_buffer, sig, a) := s in
  let wots_k := Z.lor (steps !!! i) wots_k_mask in
  let a := set_chain_addr a (Z.of_nat i) in
  let a := set_hash_addr a 0 in
  let a := set_type a SPX_ADDR_TYPE_WOTSPRF in
  let buffer := prf_addr ctx a in
  let a := set_type a SPX_ADDR_TYPE_WOTS in
  let '(buffer, sig, a) := wots_chain_loop (Z.to_nat SPX_WOTS_W) i 0 wots_k buffer sig a in
  (pk_buffer ++ buffer, sig, a).
Definition wots_gen_leafx1 (leaf_idx : Z) (info : leaf_info_x1) : list Z * leaf_info_x1 :=
  let wots_k_mask := if leaf_idx =? wots_sign_leaf info then 0 else 4294967295 in
  let leaf_addr := set_keypair_addr (leaf_addr info) leaf_idx in
  let pk_addr := set_keypair_addr (pk_addr info) leaf_idx in
  let '(pk_buffer, sig, leaf_addr) :=
    for_loop SPX_WOTS_LEN 0 (wots_leaf_step (wots_steps info) wots_k_mask) ([], wots_sig info, leaf_addr) in
  (thash ctx pk_buffer SPX_WOTS_LEN pk_addr,
   mkLeafInfo sig (wots_sign_leaf info) (wots_steps info) leaf_addr pk_addr).
End Leaf.

(** ** Positions *)

(** The base-16 digits of bytes, the high one first. *)
Definition digit16 (bytes : list Z) (j : nat) : Z :=
  if Nat.even j then (bytes !!! (j / 2)%nat) / 16 else (bytes !!! (j / 2)%nat) mod 16.
Example digits_example : base_w 5 [0x12; 0xab; 0xf0] = [1; 2; 0xa; 0xb; 0xf].
Proof. reflexivity. Qed.

Ltac half := zify; rewrite ?Nat2Z.inj_div in *; change (Z.of_nat 2) with 2 in *; zify; Z.to_euclidean_division_equations; lia.
Lemma bytes_lookup (l : list Z) i : bytes_ok l -> (i < length l)%nat -> is_u8 (l !!! i).
Proof. intros Hb Hi. apply (proj1 (Forall_lookup _ _) Hb i). apply list_lookup_lookup_total_lt, Hi. Qed.
Lemma digit16_range bytes j : bytes_ok bytes -> (j < 2 * length bytes)%nat -> 0 <= digit16 bytes j <= 15.
Proof.
  intros Hb Hj. pose proof (bytes_lookup bytes (j / 2) Hb ltac:(half)) as H.
  unfold digit16. destruct (Nat.even j); zlia.
Qed.
Lemma land_w x : Z.land x (SPX_WOTS_W - 1) = x mod 16.
Proof. exact (land_ones_mod x 4 ltac:(lia)). Qed.

Lemma base_w_digits out_len input :
  bytes_ok input -> (out_len <= 2 * length input)%nat -> base_w out_len input = map (digit16 input) (seq 0 out_len).
Proof.
  intros Hb Hn. unfold base_w.
  assert (Hinv : let '(inn, total, bits, output) := for_loop out_len 0 (base_w_step input) (O, 0, 0, []) in
     output = map (digit16 input) (seq 0 (0 + out_len)) /\ inn = ((0 + out_len + 1) / 2)%nat /\
     (if Nat.even (0 + out_len) then bits = 0 else bits = 4 /\ total = input !!! ((0 + out_len) / 2)%nat)).
  { apply (for_loop_inv (fun j '(inn, total, bits, output) => output = map (digit16 input) (seq 0 j) /\ inn = ((j + 1) / 2)%nat /\
       (if Nat.even j then bits = 0 else bits = 4 /\ total = input !!! (j / 2)%nat))); [repeat split|].
    intros j [[[inn total] bits] output] Hj (-> & -> & Hs). unfold base_w_step.
    rewrite seq_S, map_app. cbn [map plus]. unfold digit16 at 3. rewrite Nat.even_succ, <- Nat.negb_even. destruct (Nat.even j) eqn:E.
    - subst bits. cbn [Z.eqb negb]. assert (E2 : ((j + 1) / 2 = j / 2)%nat).
      { apply Nat.even_spec in E as [q ->]. half. }
      rewrite E2. pose proof (bytes_lookup input (j / 2) Hb ltac:(half)) as H.
      split; [|split; [|split; [reflexivity|]]].
      + f_equal. f_equal. rewrite land_w, shiftr_div by (unfold SPX_WOTS_LOGW; lia). change (2 ^ (0 + 8 - SPX_WOTS_LOGW)) with 16. zlia.
      + half.
      + f_equal. rewrite <- E2. f_equal. lia.
    - destruct Hs as [-> ->]. cbn [Z.eqb negb]. split; [|split; [|reflexivity]].
      + f_equal. f_equal. rewrite land_w. change (4 - SPX_WOTS_LOGW) with 0. rewrite Z.shiftr_0_r. reflexivity.
      + assert (Ho : Nat.odd j = true) by (rewrite <- Nat.negb_even, E; reflexivity). apply Nat.odd_spec in Ho as [q ->]. half. }
  destruct (for_loop out_len 0 _ _) as [[[inn total] bits] output]. apply Hinv.
Qed.

(** The checksum of digits. *)
Definition checksum (digits : list Z) : Z := foldr (fun d s => 15 - d + s) 0 digits.
Lemma checksum_app l k : checksum (l ++ k) = checksum l + checksum k.
Proof. induction l as [|d l IH]; cbn [app checksum foldr]; [reflexivity|]. fold (checksum (l ++ k)) (checksum l). lia. Qed.
Lemma checksum_range l : Forall (fun d => 0 <= d <= 15) l -> 0 <= checksum l <= 15 * Z.of_nat (length l).
Proof. induction 1 as [|d l Hd _ IH]; cbn [checksum foldr length]; [lia|]. fold (checksum l). lia. Qed.
(** The three digits of a checksum. *)
Definition checksum_digits (c : Z) : list Z := [c / 256; c / 16 mod 16; c mod 16].

Lemma wots_checksum_spec digits :
  length digits = 32%nat -> Forall (fun d => 0 <= d <= 15) digits -> wots_checksum digits = checksum_digits (checksum digits).
Proof.
  intros Hl Hd. unfold wots_checksum.
  assert (Hr : forall j, 0 <= checksum (take j digits) <= 480).
  { intros j. pose proof (checksum_range (take j digits) ltac:(apply Forall_take, Hd)) as H. rewrite length_take in H. lia. }
  assert (Es : for_loop SPX_WOTS_LEN1 0 (fun i csum => u32 (csum + (SPX_WOTS_W - 1 - digits !!! i))) 0 = checksum (take (0 + 32) digits)).
  { apply (for_loop_inv (fun j c => c = checksum (take j digits))); [reflexivity|]. intros j c Hj ->.
    rewrite (take_S_r digits j (digits !!! j)) by (apply list_lookup_lookup_total_lt; unfold SPX_WOTS_LEN1 in Hj; lia).
    rewrite checksum_app. cbn [checksum foldr]. pose proof (Hr (S j)) as H.
    rewrite (take_S_r digits j (digits !!! j)), checksum_app in H by (apply list_lookup_lookup_total_lt; unfold SPX_WOTS_LEN1 in Hj; lia).
    cbn [checksum foldr] in H. change (SPX_WOTS_W - 1) with 15. rewrite u32_id by (unfold is_u32; lia). lia. }
  rewrite Es. rewrite take_ge by lia. pose proof (Hr 32%nat) as Hc. rewrite take_ge in Hc by lia. set (c := checksum digits) in *.
  change ((8 - ((Z.of_nat SPX_WOTS_LEN2 * SPX_WOTS_LOGW) mod 8)) mod 8) with 4.
  rewrite shiftl_mul by lia. change (2 ^ 4) with 16. rewrite u32_id by (unfold is_u32; lia).
  assert (Eb : ull_to_bytes 2 (c * 16) = [c / 16; (c mod 16) * 16]).
  { cbn [ull_to_bytes app]. fold (u8 (Z.shiftr (c * 16) 8)) (u8 (c * 16)). rewrite shiftr_div by lia. change (2 ^ 8) with 256.
    f_equal; [zlia|]. f_equal. zlia. }
  rewrite Eb. assert (Hb : bytes_ok [c / 16; (c mod 16) * 16]) by (repeat constructor; zlia).
  rewrite (base_w_digits SPX_WOTS_LEN2 _ Hb) by (unfold SPX_WOTS_LEN2; cbn [length]; lia). unfold checksum_digits.
  cbn [map seq SPX_WOTS_LEN2]. unfold digit16. cbn [Nat.even Nat.div Nat.divmod fst snd lookup_total list_lookup_total].
  f_equal; [zlia|]. f_equal. f_equal. zlia.
Qed.

Definition message_digits (msg : list Z) : list Z := map (digit16 msg) (seq 0 32).
Lemma message_digits_ok msg :
  bytes_ok msg -> length msg = 16%nat -> length (message_digits msg) = 32%nat /\ Forall (fun d => 0 <= d <= 15) (message_digits msg).
Proof.
  intros Hb Hl. split; [reflexivity|]. apply Forall_map, Forall_forall. intros j Hj. apply elem_of_seq in Hj. apply digit16_range; [exact Hb|lia].
Qed.
Lemma chain_lengths_spec msg :
  bytes_ok msg -> length msg = 16%nat ->
  chain_lengths msg = message_digits msg ++ checksum_digits (checksum (message_digits msg)).
Proof.
  intros Hb Hl. destruct (message_digits_ok msg Hb Hl) as [H1 H2]. unfold chain_lengths.
  rewrite (base_w_digits SPX_WOTS_LEN1 msg Hb) by (rewrite Hl; unfold SPX_WOTS_LEN1; lia).
  change (map (digit16 msg) (seq 0 SPX_WOTS_LEN1)) with (message_digits msg). rewrite (wots_checksum_spec _ H1 H2). reflexivity.
Qed.
Lemma chain_lengths_range msg :
  bytes_ok msg -> length msg = 16%nat -> length (chain_lengths msg) = SPX_WOTS_LEN /\ Forall (fun d => 0 <= d <= 15) (chain_lengths msg).
Proof.
  intros Hb Hl. destruct (message_digits_ok msg Hb Hl) as [H1 H2]. rewrite (chain_lengths_spec msg Hb Hl).
  pose proof (checksum_range _ H2) as Hc. rewrite H1 in Hc. split; [rewrite length_app, H1; reflexivity|].
  apply Forall_app. split; [exact H2|]. unfold checksum_digits. repeat constructor; zlia.
Qed.

(** Cutting one chunk out of a concatenation. *)
Lemma concat_chunk (n : nat) (l : list (list Z)) rest : forall i,
  (forall i, (i < length l)%nat -> length (l !!! i) = n) -> (i < length l)%nat -> take n (drop (i * n) (concat l ++ rest)) = l !!! i.
Proof.
  induction l as [|x l IH]; intros i Hn Hi; cbn [length] in *; [lia|]. cbn [concat]. rewrite <- app_assoc.
  pose proof (Hn 0%nat ltac:(lia)) as Hx. cbn in Hx. destruct i as [|i].
  - cbn [Nat.mul]. rewrite drop_0, take_app_length'; [reflexivity|symmetry; exact Hx].
  - cbn [Nat.mul]. rewrite drop_app_ge, Hx by lia. replace (n + i * n - n)%nat with (i * n)%nat by lia.
    apply (IH i); [|lia]. intros i' Hi'. apply (Hn (S i')). lia.
Qed.

(** ** Addresses of chains *)

Ltac addr_cases a Ha :=
  do 32 (let b := fresh "b" in destruct a as [|b a]; [discriminate Ha|]); destruct a; [|discriminate Ha].
Definition chain_addr (t kp i k : Z) (a : addr) : addr :=
  set_hash_addr (set_chain_addr (set_keypair_addr (set_type a t) kp) i) k.
(** The subtree of a chain's address, with the rest cleared. *)
Definition same_wots (a b : addr) : Prop := length a = 32%nat /\ chain_addr 0 0 0 0 a = chain_addr 0 0 0 0 b.
(** Only the type, the chain and the position are still to be set. *)
Definition key_addr (b : addr) (kp : Z) (a : addr) : Prop :=
  length a = 32%nat /\ forall t i k, set_type (set_hash_addr (set_chain_addr a i) k) t = chain_addr t kp i k b.

Lemma chain_addr_length t kp i k a : length (chain_addr t kp i k a) = length a.
Proof. unfold chain_addr, set_hash_addr, set_chain_addr, set_keypair_addr, set_type. rewrite !length_insert. reflexivity. Qed.
Lemma chain_addr_again t kp i k t' kp' i' k' a :
  length a = 32%nat -> chain_addr t kp i k (chain_addr t' kp' i' k' a) = chain_addr t kp i k a.
Proof. intros Ha. addr_cases a Ha. reflexivity. Qed.
Lemma same_chain_addr t kp i k a b : length b = 32%nat -> same_wots a b -> chain_addr t kp i k a = chain_addr t kp i k b.
Proof. intros Hb [Ha H]. rewrite <- (chain_addr_again t kp i k 0 0 0 0 a), H, chain_addr_again by assumption. reflexivity. Qed.
Lemma key_addr_intro b kp a : length b = 32%nat -> same_wots a b -> key_addr b kp (set_keypair_addr a kp).
Proof.
  intros Hb Hs. split; [unfold set_keypair_addr; rewrite !length_insert; apply Hs|]. intros t i k.
  rewrite <- (same_chain_addr t kp i k a b Hb Hs). destruct Hs as [Ha _]. addr_cases a Ha. reflexivity.
Qed.
Lemma key_addr_chain b kp t i k : length b = 32%nat -> key_addr b kp (chain_addr t kp i k b).
Proof. intros Hb. split; [rewrite chain_addr_length; exact Hb|]. intros t' i' k'. addr_cases b Hb. reflexivity. Qed.
Lemma key_addr_same b kp a : length b = 32%nat -> key_addr b kp a -> same_wots a b.
Proof.
  intros Hb [Ha H]. split; [exact Ha|]. rewrite <- (chain_addr_again 0 0 0 0 0 kp 0 0 b Hb), <- (H 0 0 0).
  clear H. addr_cases a Ha. reflexivity.
Qed.
(** What the code sets along a chain. *)
Lemma key_addr_prf b kp a i :
  key_addr b kp a -> set_type (set_hash_addr (set_chain_addr a i) 0) SPX_ADDR_TYPE_WOTSPRF = chain_addr SPX_ADDR_TYPE_WOTSPRF kp i 0 b.
Proof. intros [_ H]. apply H. Qed.
Lemma chain_addr_type b t t' kp i k : length b = 32%nat -> set_type (chain_addr t kp i k b) t' = chain_addr t' kp i k b.
Proof. intros Hb. addr_cases b Hb. reflexivity. Qed.
Lemma chain_addr_hash b t kp i k k' : length b = 32%nat -> set_hash_addr (chain_addr t kp i k b) k' = chain_addr t kp i k' b.
Proof. intros Hb. addr_cases b Hb. reflexivity. Qed.
Lemma chain_addr_move b t kp i k i' k' :
  length b = 32%nat -> set_hash_addr (set_chain_addr (chain_addr t kp i k b) i') k' = chain_addr t kp i' k' b.
Proof. intros Hb. addr_cases b Hb. reflexivity. Qed.

Lemma set_keypair_again a kp kp' : length a = 32%nat -> set_keypair_addr (set_keypair_addr a kp) kp' = set_keypair_addr a kp'.
Proof. intros Ha. addr_cases a Ha. reflexivity. Qed.

(** ** Chains *)

Section Chains.
Context (ctx : spx_ctx) (b : addr) (kp : Z).
Hypothesis Hb : length b = 32%nat.
(** [n] steps along the chain [i] from the position [start]. *)
Fixpoint chain (i : nat) (start : Z) (n : nat) (x : list Z) : list Z :=
  match n with
  | O => x
  | S n => chain i (start + 1) n (thash ctx x 1 (chain_addr SPX_ADDR_TYPE_WOTS kp (Z.of_nat i) start b))
  end.
Lemma chain_add i m : forall start n x, chain i start (m + n) x = chain i (start + Z.of_nat m) n (chain i start m x).
Proof.
  induction m as [|m IH]; intros start n x; cbn [plus chain]; [f_equal; lia|]. rewrite IH. f_equal. lia.
Qed.
Lemma chain_length i n : forall start x, length x = SPX_N -> length (chain i start n x) = SPX_N.
Proof. induction n as [|n IH]; intros start x Hx; cbn [chain]; [exact Hx|]. apply IH, thash_length. Qed.
(** The secret start of a chain, its value at a position, and its end. *)
Definition chain_sk (i : nat) : list Z := prf_addr ctx (chain_addr SPX_ADDR_TYPE_WOTSPRF kp (Z.of_nat i) 0 b).
Definition chain_at (i : nat) (k : Z) : list Z := chain i 0 (Z.to_nat k) (chain_sk i).
Definition wots_pk : list Z := concat (map (fun i => chain_at i 15) (seq 0 SPX_WOTS_LEN)).
Lemma chain_at_length i k : length (chain_at i k) = SPX_N.
Proof. apply chain_length, prf_addr_length. Qed.
Lemma chain_at_succ i k : 0 <= k -> chain_at i (k + 1) = thash ctx (chain_at i k) 1 (chain_addr SPX_ADDR_TYPE_WOTS kp (Z.of_nat i) k b).
Proof.
  intros Hk. unfold chain_at. replace (Z.to_nat (k + 1)) with (Z.to_nat k + 1)%nat by lia. rewrite chain_add. cbn [chain].
  do 2 f_equal. lia.
Qed.

(** An address along the chain [i]. *)
Definition on_chain (i : nat) (a : addr) : Prop :=
  key_addr b kp a /\ forall k, set_hash_addr a k = chain_addr SPX_ADDR_TYPE_WOTS kp (Z.of_nat i) k b.
Lemma on_chain_intro i k : on_chain i (chain_addr SPX_ADDR_TYPE_WOTS kp (Z.of_nat i) k b).
Proof using Hb. split; [apply key_addr_chain, Hb|]. intros k'. apply chain_addr_hash, Hb. Qed.

(** A chain taken up at a position is walked to its end. *)
Lemma gen_chain_loop_spec i fuel : forall k out a,
  0 <= k <= 15 -> 16 <= k + Z.of_nat fuel -> out = chain_at i k -> on_chain i a ->
  exists a', gen_chain_loop ctx fuel k 15 out a = (chain_at i 15, a') /\ on_chain i a'.
Proof using Hb.
  induction fuel as [|fuel IH]; intros k out a Hk Hf -> Ha; cbn [gen_chain_loop]; [lia|].
  destruct (Z.ltb_spec k 15); cbn [andb]; [|replace k with 15 by lia; eauto].
  rewrite (proj2 (Z.ltb_lt k SPX_WOTS_W)) by (unfold SPX_WOTS_W; lia). rewrite (proj2 Ha k), <- chain_at_succ by lia.
  apply IH; [lia|lia|reflexivity|apply on_chain_intro].
Qed.
(** The signer's walk, which keeps the value at [wots_k] when it passes it. *)
Lemma wots_chain_loop_spec i wots_k n : forall k sig a,
  k + Z.of_nat n = 15 -> 0 <= k -> on_chain i a ->
  exists a', wots_chain_loop ctx (S n) i k wots_k (chain_at i k) sig a
    = (chain_at i 15, (if (k <=? wots_k) && (wots_k <=? 15) then <[i := chain_at i wots_k]> sig else sig), a') /\ on_chain i a'.
Proof using Hb.
  induction n as [|n IH]; intros k sig a Hn Hk Ha; cbn [wots_chain_loop].
  - assert (k = 15) as -> by lia. change (15 =? SPX_WOTS_W - 1) with true. cbn match. exists a. split; [|exact Ha]. do 2 f_equal.
    destruct (Z.eqb_spec 15 wots_k) as [<-|]; [reflexivity|].
    destruct (Z.leb_spec 15 wots_k), (Z.leb_spec wots_k 15); cbn [andb]; (reflexivity || lia).
  - rewrite (proj2 (Z.eqb_neq k (SPX_WOTS_W - 1))) by (unfold SPX_WOTS_W; lia). rewrite (proj2 Ha k), <- chain_at_succ by lia.
    destruct (IH (k + 1) (if k =? wots_k then <[i := chain_at i k]> sig else sig) (chain_addr SPX_ADDR_TYPE_WOTS kp (Z.of_nat i) k b)
      ltac:(lia) ltac:(lia) (on_chain_intro i k)) as (a' & E & Ha'). exists a'. split; [|exact Ha'].
    refine (eq_trans E _). do 2 f_equal. destruct (Z.eqb_spec k wots_k) as [<-|].
    + rewrite (proj2 (Z.leb_gt (k + 1) k)), Z.leb_refl, (proj2 (Z.leb_le k 15)) by lia. reflexivity.
    + destruct (Z.leb_spec (k + 1) wots_k), (Z.leb_spec k wots_k); (reflexivity || lia).
Qed.

(** The address the verifier starts from: the type is set. *)
Definition sig_addr (a : addr) : Prop :=
  length a = 32%nat /\ forall i k, set_hash_addr (set_chain_addr a i) k = chain_addr SPX_ADDR_TYPE_WOTS kp i k b.
Lemma sig_addr_on i a : sig_addr a -> on_chain i (set_chain_addr a (Z.of_nat i)).
Proof using Hb.
  intros [Ha H]. split; [|apply H]. split; [unfold set_chain_addr; rewrite length_insert; exact Ha|]. intros t i' k.
  replace (set_chain_addr (set_chain_addr a (Z.of_nat i)) i') with (set_chain_addr a i') by (addr_cases a Ha; reflexivity).
  rewrite H. apply chain_addr_type, Hb.
Qed.
Lemma on_sig_addr i a : on_chain i a -> sig_addr a.
Proof using Hb.
  intros [[Ha _] H]. split; [exact Ha|]. intros i' k'.
  replace (set_hash_addr (set_chain_addr a i') k') with (set_hash_addr (set_chain_addr (set_hash_addr a 0) i') k')
    by (clear H; addr_cases a Ha; reflexivity).
  rewrite H. apply chain_addr_move, Hb.
Qed.

(** The verifier's public key from the values at the message's positions. *)
Lemma wots_pk_from_sig_spec sig rest msg a :
  bytes_ok msg -> length msg = 16%nat -> sig_addr a ->
  length sig = SPX_WOTS_LEN -> (forall i, (i < SPX_WOTS_LEN)%nat -> sig !!! i = chain_at i (chain_lengths msg !!! i)) ->
  exists a', wots_pk_from_sig ctx (concat sig ++ rest) msg a = (wots_pk, a') /\ sig_addr a'.
Proof using Hb.
  intros Hm Hl Ha Hs Hv. destruct (chain_lengths_range msg Hm Hl) as [Hc1 Hc2]. unfold wots_pk_from_sig.
  pose (P := fun (j : nat) (s : list Z * addr) => fst s = concat (map (fun i => chain_at i 15) (seq 0 j)) /\ sig_addr (snd s)).
  match goal with |- exists a', for_loop ?n ?z ?f ?s = _ /\ _ => assert (H : P (z + n)%nat (for_loop n z f s)) end.
  { apply (for_loop_inv P); [split; [reflexivity|exact Ha]|]. intros j [pk a1] Hj [Hpk Ha1]. cbn [fst snd] in *. subst pk.
    assert (Hd : 0 <= chain_lengths msg !!! j <= 15).
    { apply (proj1 (Forall_lookup _ _) Hc2 j). apply list_lookup_lookup_total_lt. lia. }
    unfold gen_chain. rewrite (u32_id (SPX_WOTS_W - 1 - _)) by (unfold is_u32, SPX_WOTS_W; lia).
    replace (_ + (SPX_WOTS_W - 1 - _)) with 15 by (unfold SPX_WOTS_W; lia). change (u32 15) with 15.
    assert (Ec : take SPX_N (drop (j * SPX_N) (concat sig ++ rest)) = chain_at j (chain_lengths msg !!! j)).
    { rewrite <- Hv by lia. apply concat_chunk; [|lia]. intros i Hi. rewrite Hv by lia. apply chain_at_length. }
    destruct (gen_chain_loop_spec j (Z.to_nat SPX_WOTS_W) _ _ _ Hd ltac:(unfold SPX_WOTS_W; lia) Ec (sig_addr_on j a1 Ha1)) as (a' & E & Ha').
    rewrite E. split; [|exact (on_sig_addr j a' Ha')]. cbn [fst]. rewrite seq_S, map_app, concat_app. cbn [map concat plus].
    rewrite app_nil_r. reflexivity. }
  destruct (for_loop SPX_WOTS_LEN 0 _ _) as [pk a']. destruct H as [H1 H2]. cbn [fst snd] in *. exists a'. split; [|exact H2]. f_equal. exact H1.
Qed.

(** The signer's pass over one key. *)
Lemma wots_leaf_loop_spec steps mask sig a :
  length steps = SPX_WOTS_LEN -> Forall (fun d => 0 <= d <= 15) steps -> (mask = 0 \/ mask = 4294967295) ->
  length sig = SPX_WOTS_LEN -> key_addr b kp a ->
  exists sig' a', for_loop SPX_WOTS_LEN 0 (wots_leaf_step ctx steps mask) ([], sig, a) = (wots_pk, sig', a') /\
    key_addr b kp a' /\ length sig' = SPX_WOTS_LEN /\
    forall i, (i < SPX_WOTS_LEN)%nat -> sig' !!! i = if mask =? 0 then chain_at i (steps !!! i) else sig !!! i.
Proof using Hb.
  intros Hl Hs Hm Hg Ha.
  pose (P := fun (j : nat) (s : list Z * list (list Z) * addr) =>
    fst (fst s) = concat (map (fun i => chain_at i 15) (seq 0 j)) /\ key_addr b kp (snd s) /\ length (snd (fst s)) = SPX_WOTS_LEN /\
    forall i, (i < SPX_WOTS_LEN)%nat -> snd (fst s) !!! i = if (mask =? 0) && (i <? j)%nat then chain_at i (steps !!! i) else sig !!! i).
  assert (H : P (0 + SPX_WOTS_LEN)%nat (for_loop SPX_WOTS_LEN 0 (wots_leaf_step ctx steps mask) ([], sig, a))).
  { apply (for_loop_inv P).
    - split; [reflexivity|split; [exact Ha|split; [exact Hg|]]]. intros i _. cbn [fst snd]. rewrite andb_false_r. reflexivity.
    - intros j [[pk sg] a1] Hj (Hpk & Ha1 & Hg1 & Hv). cbn [fst snd] in *. subst pk. unfold wots_leaf_step.
      assert (Hd : 0 <= steps !!! j <= 15) by (apply (proj1 (Forall_lookup _ _) Hs j); apply list_lookup_lookup_total_lt; lia).
      rewrite (key_addr_prf b kp a1 (Z.of_nat j) Ha1), (chain_addr_type b _ _ _ _ _ Hb). fold (chain_sk j). change (chain_sk j) with (chain_at j 0).
      destruct (wots_chain_loop_spec j (Z.lor (steps !!! j) mask) 15 0 sg _ eq_refl ltac:(lia) (on_chain_intro j 0)) as (a' & E & Ha').
      change (Z.to_nat SPX_WOTS_W) with 16%nat. rewrite E. split; [|split; [apply Ha'|]]; cbn [fst snd].
      + rewrite seq_S, map_app, concat_app. cbn [map concat plus]. rewrite app_nil_r. reflexivity.
      + destruct Hm as [-> | ->].
        * rewrite Z.lor_0_r, (proj2 (Z.leb_le 0 _)), (proj2 (Z.leb_le _ 15)) by lia. cbn [andb]. split; [rewrite length_insert; exact Hg1|].
          intros i Hi. destruct (Nat.eq_dec i j) as [->|Hne].
          -- rewrite list_lookup_total_insert_eq by lia. rewrite (proj2 (Nat.ltb_lt j (S j))) by lia. reflexivity.
          -- rewrite list_lookup_total_insert_ne, (Hv i Hi) by lia. cbn [Z.eqb andb].
             destruct (Nat.ltb_spec i j), (Nat.ltb_spec i (S j)); (reflexivity || lia).
        * assert (E2 : Z.lor (steps !!! j) 4294967295 = 4294967295).
          { change 4294967295 with (Z.ones 32). apply Z.lor_ones_low; [lia|]. destruct (Z.eq_dec (steps !!! j) 0) as [->|]; [cbn; lia|].
            apply Z.log2_lt_pow2; lia. }
          rewrite E2. change ((0 <=? 4294967295) && (4294967295 <=? 15)) with false. split; [exact Hg1|exact Hv]. }
  destruct (for_loop SPX_WOTS_LEN 0 _ _) as [[pk sig'] a']. destruct H as (H1 & H2 & H3 & H4). cbn [fst snd] in *.
  exists sig', a'. split; [f_equal; f_equal; exact H1|]. split; [exact H2|split; [exact H3|]]. intros i Hi. rewrite (H4 i Hi).
  rewrite (proj2 (Nat.ltb_lt i _)) by lia. rewrite andb_true_r. reflexivity.
Qed.
End Chains.

(** ** Leaves of a tree of keys *)

Section Leaves.
Context (ctx : spx_ctx) (b pb : addr) (steps : list Z) (sl : Z).
Hypothesis Hb : length b = 32%nat.
Hypothesis Hpb : length pb = 32%nat.
Hypothesis Hsteps : length steps = SPX_WOTS_LEN.
Hypothesis Hrange : Forall (fun d => 0 <= d <= 15) steps.
(** The leaf of a key: its compressed public key. *)
Definition wots_leaf (kp : Z) : list Z := thash ctx (wots_pk ctx b kp) SPX_WOTS_LEN (set_keypair_addr pb kp).
(** The generator's state before the leaf [idx]. *)
Record leaf_inv (idx : Z) (info : leaf_info_x1) : Prop := {
  inv_leaf : wots_sign_leaf info = sl;
  inv_steps : wots_steps info = steps;
  inv_addr : same_wots (leaf_addr info) b;
  inv_pk : length (pk_addr info) = 32%nat /\ forall kp, set_keypair_addr (pk_addr info) kp = set_keypair_addr pb kp;
  inv_length : length (wots_sig info) = SPX_WOTS_LEN;
  inv_sig : 0 <= sl < idx -> forall i, (i < SPX_WOTS_LEN)%nat -> wots_sig info !!! i = chain_at ctx b sl i (steps !!! i)
}.
Lemma wots_gen_leafx1_spec idx info :
  is_u32 idx -> leaf_inv idx info ->
  let '(v, info') := wots_gen_leafx1 ctx (u32 (idx + 0)) info in v = wots_leaf idx /\ leaf_inv (idx + 1) info'.
Proof using Hb Hpb Hsteps Hrange.
  intros Hi [H1 H2 H3 H4 H5 H6]. rewrite Z.add_0_r, u32_id by exact Hi. unfold wots_gen_leafx1. rewrite H1, H2.
  pose proof (key_addr_intro b idx _ Hb H3) as Hk. set (mask := if idx =? sl then 0 else 4294967295).
  destruct (wots_leaf_loop_spec ctx b idx Hb steps mask (wots_sig info) (set_keypair_addr (leaf_addr info) idx) Hsteps Hrange
    ltac:(unfold mask; destruct (idx =? sl); auto) H5 Hk) as (sig' & a' & E & Ha & Hl & Hv).
  rewrite E, (proj2 H4 idx). split; [reflexivity|]. split; cbn [wots_sign_leaf wots_steps leaf_addr pk_addr wots_sig]; try reflexivity.
  - apply (key_addr_same b idx a' Hb Ha).
  - split; [unfold set_keypair_addr; rewrite !length_insert; exact Hpb|]. intros kp. apply set_keypair_again, Hpb.
  - exact Hl.
  - intros Hs i Hi'. rewrite (Hv i Hi'). unfold mask. destruct (Z.eqb_spec idx sl) as [->|Hne]; cbn [Z.eqb].
    + reflexivity.
    + apply H6; [lia|exact Hi'].
Qed.
End Leaves.

(** ** Positions of two messages *)

Lemma checksum_lt l : forall k,
  length l = length k -> (forall i, (i < length l)%nat -> l !!! i <= k !!! i) -> l <> k -> checksum k < checksum l.
Proof.
  induction l as [|x l IH]; intros [|y k] Hl Hle Hne; cbn [length] in *; try congruence; try discriminate.
  cbn [checksum foldr]. fold (checksum k) (checksum l). pose proof (Hle 0%nat ltac:(lia)) as H0. cbn in H0.
  assert (Hle' : forall i, (i < length l)%nat -> l !!! i <= k !!! i) by (intros i Hi; apply (Hle (S i)); lia).
  destruct (decide (l = k)) as [->|Hn].
  - assert (x <> y) by congruence. lia.
  - pose proof (IH k ltac:(lia) Hle' Hn). lia.
Qed.
Lemma checksum_last c c' : c < c' -> ~ c / 256 < c' / 256 -> ~ c / 16 mod 16 < c' / 16 mod 16 -> c mod 16 < c' mod 16.
Proof. zlia. Qed.
Lemma message_digits_inj m m' :
  length m = 16%nat -> length m' = 16%nat -> message_digits m = message_digits m' -> m = m'.
Proof.
  intros Hl Hl' E. apply (list_eq_total m m' 16 Hl Hl'). intros i Hi.
  assert (D : forall j, (j < 32)%nat -> digit16 m j = digit16 m' j).
  { intros j Hj. assert (E2 : message_digits m !! j = message_digits m' !! j) by (rewrite E; reflexivity).
    unfold message_digits in E2. rewrite !list_lookup_fmap, lookup_seq_lt in E2 by lia. cbn in E2. congruence. }
  pose proof (D (2 * i)%nat ltac:(lia)) as Da. pose proof (D (2 * i + 1)%nat ltac:(lia)) as Db. unfold digit16 in Da, Db.
  replace ((2 * i) / 2)%nat with i in Da by half. replace ((2 * i + 1) / 2)%nat with i in Db by half.
  rewrite Nat.even_mul in Da. rewrite Nat.even_add, Nat.even_mul in Db. cbn [Nat.even orb eqb] in Da, Db.
  pose proof (Z.div_mod (m !!! i) 16). pose proof (Z.div_mod (m' !!! i) 16). lia.
Qed.

(** C30: the positions of a one-time signature: they are the base-16 digits of the
    message, the high one of a byte first, followed by the three digits of their
    checksum; each is in 0..15; and of two different messages each has a position
    before the other's, so that the chain values of one signature never suffice
    for a second message. *)
Theorem wots_positions (m m' : list Z) :
  bytes_ok m -> length m = SPX_N -> bytes_ok m' -> length m' = SPX_N ->
  chain_lengths m = message_digits m ++ checksum_digits (checksum (message_digits m)) /\
  length (chain_lengths m) = SPX_WOTS_LEN /\ Forall (fun d => 0 <= d < SPX_WOTS_W) (chain_lengths m) /\
  (m <> m' -> exists i, (i < SPX_WOTS_LEN)%nat /\ chain_lengths m' !!! i < chain_lengths m !!! i).
Proof.
  intros Hb Hl Hb' Hl'. destruct (chain_lengths_range m Hb Hl) as [R1 R2].
  split; [exact (chain_lengths_spec m Hb Hl)|]. split; [exact R1|]. split.
  { eapply Forall_impl; [exact R2|]. intros d Hd. change (0 <= d <= 15) in Hd. unfold SPX_WOTS_W. lia. }
  intros Hne. destruct (message_digits_ok m Hb Hl) as [D1 D2], (message_digits_ok m' Hb' Hl') as [D1' D2'].
  rewrite (chain_lengths_spec m Hb Hl), (chain_lengths_spec m' Hb' Hl').
  set (d := message_digits m) in *. set (d' := message_digits m') in *.
  destruct (decide (Exists (fun i => d' !!! i < d !!! i) (seq 0 32))) as [Hex|Hn].
  - apply Exists_exists in Hex as (i & Hi & H). apply elem_of_seq in Hi. exists i. split; [apply (Nat.lt_le_trans _ 32); [lia|apply Nat.leb_le; reflexivity]|]. rewrite !lookup_total_app_l by lia. exact H.
  - assert (Hc : checksum d' < checksum d).
    { apply checksum_lt; [lia| |intros E; apply Hne, message_digits_inj; assumption].
      intros i Hi. apply Z.le_ngt. intros H. apply Hn, Exists_exists. exists i. split; [apply elem_of_seq; lia|exact H]. }
    pose proof (checksum_range d D2) as Rc. pose proof (checksum_range d' D2') as Rc'.
    assert (L : forall k, (k < 3)%nat -> (32 + k < SPX_WOTS_LEN)%nat) by (intros k Hk; unfold SPX_WOTS_LEN, SPX_WOTS_LEN1, SPX_WOTS_LEN2; lia).
    assert (X : forall k, (k < 3)%nat -> (d ++ checksum_digits (checksum d)) !!! (32 + k)%nat = checksum_digits (checksum d) !!! k /\
                                     (d' ++ checksum_digits (checksum d')) !!! (32 + k)%nat = checksum_digits (checksum d') !!! k).
    { intros k _. split; rewrite lookup_total_app_r by lia; f_equal; lia. }
    destruct (Z.lt_decidable (checksum d' / 256) (checksum d / 256)) as [H|Ha]; [exists (32 + 0)%nat|].
    { split; [apply L; lia|]. destruct (X 0%nat) as [-> ->]; [lia|exact H]. }
    destruct (Z.lt_decidable (checksum d' / 16 mod 16) (checksum d / 16 mod 16)) as [H|Hm]; [exists (32 + 1)%nat|exists (32 + 2)%nat].
    { split; [apply L; lia|]. destruct (X 1%nat) as [-> ->]; [lia|exact H]. }
    split; [apply L; lia|]. destruct (X 2%nat) as [-> ->]; [lia|]. apply (checksum_last (checksum d') (checksum d) Hc Ha Hm).
Qed.
Lemma wots_positions_witness :
  exists i, (i < SPX_WOTS_LEN)%nat /\ chain_lengths (replicate 16 0) !!! i < chain_lengths (replicate 16 1) !!! i.
Proof.
  refine (proj2 (proj2 (proj2 (wots_positions (replicate 16 1) (replicate 16 0) _ eq_refl _ eq_refl))) _);
    [apply Forall_replicate; unfold is_u8; lia..|discriminate].
Defined.
