(* ===== verification/SlhFors.v ===== *)
(** * SLH-DSA-SHA2-128s: few-time signatures

    [fors.c].  The digest is cut into 14 indices of 12 bits, the most
    significant bit first as in FIPS 205; the signature reveals the secret leaf
    of each index with its authentication path in one of 14 trees, and the
    public key compresses their roots. *)

From S2P Require Import Prelude SlhHash SlhTree SlhWots.

Local Open Scope Z_scope.

(** ** The code *)

Definition fors_gen_sk (ctx : spx_ctx) (fors_leaf_addr : addr) : list Z := prf_addr ctx fors_leaf_addr.
Definition fors_sk_to_leaf (ctx : spx_ctx) (sk : list Z) (fors_leaf_addr : addr) : list Z := thash ctx sk 1 fors_leaf_addr.
(** [info] is the address of the leaves. *)
Definition fors_gen_leafx1 (ctx : spx_ctx) (addr_idx : Z) (leaf_addrx : addr) : list Z * addr :=
  let a := set_tree_index leaf_addrx addr_idx in
  let a := set_type a SPX_ADDR_TYPE_FORSPRF in
  let leaf := fors_gen_sk ctx a in
  let a := set_type a SPX_ADDR_TYPE_FORSTREE in
  (fors_sk_to_leaf ctx leaf a, a).

Definition index_bit (m : list Z) (offset j : nat) : Z :=
  let byte := m !!! Z.to_nat (Z.shiftr (Z.of_nat offset) 3) in
  u32 (Z.shiftl (Z.land (Z.shiftr byte (7 - Z.land (Z.of_nat offset) 0x7)) 0x1) (Z.of_nat SPX_FORS_HEIGHT - 1 - Z.of_nat j)).
Definition message_to_indices (m : list Z) : list Z :=
  fst (for_loop SPX_FORS_TREES 0 (fun i '(indices, offset) =>
    let '(idx, offset) :=
      for_loop SPX_FORS_HEIGHT 0 (fun j '(idx, offset) => (Z.lxor idx (index_bit m offset j), S offset)) (0, offset) in
    (indices ++ [idx], offset)) ([], O)).

(** The state of the loop: [sig], [roots], [fors_tree_addr], [fors_info]. *)
Definition fors_sign_step (ctx : spx_ctx) (indices : list Z) (i : nat) (s : list Z * list Z * addr * addr)
    : option (list Z * list Z * addr * addr) :=
  let '(sig, roots, fors_tree_addr, fors_info) := s in
  let idx_offset := u32 (Z.of_nat i * Z.shiftl 1 (Z.of_nat SPX_FORS_HEIGHT)) in
  let a := set_tree_height fors_tree_addr 0 in
  let a := set_tree_index a (u32 (indices !!! i + idx_offset)) in
  let a := set_type a SPX_ADDR_TYPE_FORSPRF in
  let sk := fors_gen_sk ctx a in
  let a := set_type a SPX_ADDR_TYPE_FORSTREE in
  '(root, auth_path, a, fors_info) ←
    treehashx1 ctx (fors_gen_leafx1 ctx) (indices !!! i) idx_offset SPX_FORS_HEIGHT fors_info
      (replicate SPX_FORS_HEIGHT (replicate SPX_N 0)) a;
  Some (sig ++ sk ++ concat auth_path, roots ++ root, a, fors_info).
Definition fors_sign (ctx : spx_ctx) (m : list Z) (fors_addr : addr) : option (list Z * list Z) :=
  let fors_tree_addr := copy_keypair_addr zero_addr fors_addr in
  let fors_leaf_addr := copy_keypair_addr zero_addr fors_addr in
  let fors_pk_addr := set_type (copy_keypair_addr zero_addr fors_addr) SPX_ADDR_TYPE_FORSPK in
  let indices := message_to_indices m in
  '(sig, roots, _, _) ← for_opt SPX_FORS_TREES 0 (fors_sign_step ctx indices) ([], [], fors_tree_addr, fors_leaf_addr);
  Some (sig, thash ctx roots SPX_FORS_TREES fors_pk_addr).

(** The state of the loop: [sig], [roots], [fors_tree_addr]. *)
Definition fors_pk_step (ctx : spx_ctx) (indices : list Z) (i : nat) (s : list Z * list Z * addr) : list Z * list Z * addr :=
  let '(sig, roots, fors_tree_addr) := s in
  let idx_offset := u32 (Z.of_nat i * Z.shiftl 1 (Z.of_nat SPX_FORS_HEIGHT)) in
  let a := set_tree_height fors_tree_addr 0 in
  let a := set_tree_index a (u32 (indices !!! i + idx_offset)) in
  let leaf := fors_sk_to_leaf ctx sig a in
  let sig := drop SPX_N sig in
  let '(root, a) := compute_root ctx leaf (indices !!! i) idx_offset sig SPX_FORS_HEIGHT a in
  (drop (SPX_N * SPX_FORS_HEIGHT) sig, roots ++ root, a).
Definition fors_pk_from_sig (ctx : spx_ctx) (sig m : list Z) (fors_addr : addr) : list Z :=
  let fors_tree_addr := set_type (copy_keypair_addr zero_addr fors_addr) SPX_ADDR_TYPE_FORSTREE in
  let fors_pk_addr := set_type (copy_keypair_addr zero_addr fors_addr) SPX_ADDR_TYPE_FORSPK in
  let indices := message_to_indices m in
  let '(_, roots, _) := for_loop SPX_FORS_TREES 0 (fors_pk_step ctx indices) (sig, [], fors_tree_addr) in
  thash ctx roots SPX_FORS_TREES fors_pk_addr.

(** ** Indices *)

(** The big-endian value of bytes. *)
Definition be_int (bytes : list Z) : Z := foldl (fun acc b => acc * 256 + b) 0 bytes.
(** [base_2^b] of FIPS 205: the groups of [b] bits from the most significant. *)
Definition base_2b (b out_len : nat) (bytes : list Z) : list Z :=
  map (fun i => be_int bytes / 2 ^ (8 * Z.of_nat (length bytes) - Z.of_nat b * (Z.of_nat i + 1)) mod 2 ^ Z.of_nat b) (seq 0 out_len).
Example indices_example :
  message_to_indices (map Z.of_nat (seq 200 21)) = base_2b 12 14 (map Z.of_nat (seq 200 21)).
Proof. reflexivity. Qed.

Lemma be_int_snoc l b : be_int (l ++ [b]) = be_int l * 256 + b.
Proof. unfold be_int. rewrite foldl_app. reflexivity. Qed.
(** A bit of the stream, counted from the first byte's top bit. *)
Definition stream_bit (bytes : list Z) (off : nat) : bool := Z.testbit (bytes !!! (off / 8)%nat) (7 - Z.of_nat (off mod 8)).
Lemma be_int_bits l : forall off,
  bytes_ok l -> (off < 8 * length l)%nat ->
  Z.testbit (be_int l) (8 * Z.of_nat (length l) - 1 - Z.of_nat off) = stream_bit l off.
Proof.
  induction l as [|b l IH] using rev_ind; intros off Hb Hoff; [cbn in Hoff; lia|].
  apply Forall_app in Hb as [Hb1 Hb2]. assert (H256 : 0 <= b < 256) by (inversion Hb2; assumption). rewrite length_app in *. cbn [length] in *.
  rewrite be_int_snoc. unfold stream_bit. pose proof (Nat.div_mod_eq off 8) as Ed. pose proof (Nat.mod_upper_bound off 8 ltac:(lia)) as Em.
  assert (Hbit : forall n, 0 <= n -> Z.testbit (be_int l * 256 + b) n = if n <? 8 then Z.testbit b n else Z.testbit (be_int l) (n - 8)).
  { intros n Hn. change 256 with (2 ^ 8) at 1. destruct (Z.ltb_spec n 8).
    - rewrite <- (Z.mod_pow2_bits_low (be_int l * 2 ^ 8 + b) 8 n), Z.add_comm, Z.mod_add by lia. rewrite Z.mod_small by (change (2 ^ 8) with 256; lia). reflexivity.
    - replace n with ((n - 8) + 8) at 1 by lia. rewrite <- Z.div_pow2_bits, Z.add_comm, Z.div_add by lia. rewrite Z.div_small by (change (2 ^ 8) with 256; lia). reflexivity. }
  rewrite Hbit by lia. destruct (Z.ltb_spec (8 * Z.of_nat (length l + 1) - 1 - Z.of_nat off) 8).
  - assert (off / 8 = length l)%nat as E by lia. rewrite lookup_total_app_r by lia. rewrite E, Nat.sub_diag. change ([b] !!! 0%nat) with b. f_equal. lia.
  - rewrite lookup_total_app_l by lia. fold (stream_bit l off). rewrite <- (IH off Hb1) by lia. f_equal. lia.
Qed.
Lemma index_bit_spec m off j n :
  (j < 12)%nat -> 0 <= n -> Z.testbit (index_bit m off j) n = stream_bit m off && (n =? 11 - Z.of_nat j).
Proof.
  intros Hj Hn. unfold index_bit, stream_bit. rewrite (shiftr_div (Z.of_nat off) 3) by lia. change (2 ^ 3) with 8.
  replace (Z.to_nat (Z.of_nat off / 8)) with (off / 8)%nat by (change 8 with (Z.of_nat 8); rewrite <- Nat2Z.inj_div, Nat2Z.id; reflexivity).
  assert (L7 : forall v, Z.land v 7 = v mod 8) by (intros v; exact (land_ones_mod v 3 ltac:(lia))).
  assert (L1 : forall v, Z.land v 1 = v mod 2) by (intros v; exact (land_ones_mod v 1 ltac:(lia))). rewrite L7. replace (Z.of_nat off mod 8) with (Z.of_nat (off mod 8)) by (rewrite Nat2Z.inj_mod; reflexivity).
  pose proof (Nat.mod_upper_bound off 8 ltac:(lia)) as Em. set (s := 7 - Z.of_nat (off mod 8)) in *.
  set (x := m !!! (off / 8)%nat). rewrite L1.
  rewrite <- Z.bit0_mod.
  rewrite Z.shiftr_spec by lia. change (0 + s) with s. unfold SPX_FORS_HEIGHT. change (Z.of_nat 12 - 1) with 11. rewrite shiftl_mul by lia.
  assert (Hp : 0 < 2 ^ (11 - Z.of_nat j) <= 2 ^ 11) by (split; [apply Z.pow_pos_nonneg; lia|apply Z.pow_le_mono_r; lia]).
  change (2 ^ 11) with 2048 in Hp. rewrite u32_id by (unfold is_u32; destruct (Z.testbit x s); cbv [Z.b2z]; lia).
  destruct (Z.testbit x s); cbn [Z.b2z andb].
  - rewrite Z.mul_1_l, Z.pow2_bits_eqb by lia. apply Z.eqb_sym.
  - apply Z.bits_0.
Qed.
Lemma index_loop m off0 :
  let '(idx, off) := for_loop SPX_FORS_HEIGHT 0 (fun j '(idx, offset) => (Z.lxor idx (index_bit m offset j), S offset)) (0, off0) in
  off = (off0 + 12)%nat /\ forall t, 0 <= t -> Z.testbit idx t = (t <? 12) && stream_bit m (off0 + 11 - Z.to_nat t).
Proof.
  pose (P := fun (j : nat) (s : Z * nat) => snd s = (off0 + j)%nat /\
    forall t, 0 <= t -> Z.testbit (fst s) t = (12 - Z.of_nat j <=? t) && (t <? 12) && stream_bit m (off0 + 11 - Z.to_nat t)).
  match goal with |- context [for_loop ?n ?z ?f ?s] => assert (H : P (z + n)%nat (for_loop n z f s)) end.
  { apply (for_loop_inv P).
    - split; [cbn; lia|]. intros t Ht. cbn [fst]. rewrite Z.bits_0. destruct (Z.leb_spec (12 - Z.of_nat 0) t), (Z.ltb_spec t 12); (reflexivity || lia).
    - intros j [idx off] Hj [Ho Hv]. cbn [fst snd] in *. subst off. unfold SPX_FORS_HEIGHT in Hj. split; [cbn; lia|]. intros t Ht. cbn [fst].
      rewrite Z.lxor_spec, (Hv t Ht), index_bit_spec by lia. destruct (Z.eqb_spec t (11 - Z.of_nat j)) as [->|Hne].
      + rewrite (proj2 (Z.leb_gt _ _)), (proj2 (Z.leb_le _ _)), (proj2 (Z.ltb_lt _ _)) by lia. cbn [andb xorb]. rewrite andb_true_r.
        f_equal. lia.
      + rewrite andb_false_r, xorb_false_r. do 2 f_equal. destruct (Z.leb_spec (12 - Z.of_nat j) t), (Z.leb_spec (12 - Z.of_nat (S j)) t); (reflexivity || lia). }
  destruct (for_loop SPX_FORS_HEIGHT 0 _ _) as [idx off]. destruct H as [H1 H2]. cbn [fst snd] in *. split; [exact H1|].
  intros t Ht. rewrite (H2 t Ht). f_equal. change (12 - Z.of_nat (0 + SPX_FORS_HEIGHT)) with 0. rewrite (proj2 (Z.leb_le 0 t)) by exact Ht. reflexivity.
Qed.

Lemma message_to_indices_spec m :
  bytes_ok m -> length m = SPX_FORS_MSG_BYTES -> message_to_indices m = base_2b SPX_FORS_HEIGHT SPX_FORS_TREES m.
Proof.
  intros Hb Hl. unfold message_to_indices. change (length m = 21%nat) in Hl.
  pose (digit := fun i : nat => be_int m / 2 ^ (8 * Z.of_nat (length m) - Z.of_nat SPX_FORS_HEIGHT * (Z.of_nat i + 1)) mod 2 ^ Z.of_nat SPX_FORS_HEIGHT).
  pose (P := fun (i : nat) (s : list Z * nat) => fst s = map digit (seq 0 i) /\ snd s = (12 * i)%nat).
  match goal with |- fst (for_loop ?n ?z ?f ?s) = _ => assert (H : P (z + n)%nat (for_loop n z f s)) end.
  { apply (for_loop_inv P); [split; reflexivity|]. intros i [indices off] Hi [Hx Ho]. cbn [fst snd] in *. subst indices off.
    pose proof (index_loop m (12 * i)) as Hin. destruct (for_loop SPX_FORS_HEIGHT 0 _ _) as [idx off]. destruct Hin as [-> Hv].
    split; [|cbn [snd]; lia]. cbn [fst]. rewrite seq_S, map_app. cbn [map plus]. f_equal. f_equal.
    unfold SPX_FORS_TREES in Hi. apply Z.bits_inj'. intros t Ht. rewrite (Hv t Ht). unfold digit. rewrite Hl. change (8 * Z.of_nat 21) with 168.
    change (Z.of_nat SPX_FORS_HEIGHT) with 12. destruct (Z.ltb_spec t 12); cbn [andb].
    - rewrite Z.mod_pow2_bits_low, Z.div_pow2_bits by lia. rewrite <- be_int_bits by (assumption || lia). f_equal. rewrite Hl. lia.
    - rewrite Z.mod_pow2_bits_high by lia. reflexivity. }
  destruct H as [H _]. exact H.
Qed.
Lemma index_range m i :
  bytes_ok m -> length m = SPX_FORS_MSG_BYTES -> (i < SPX_FORS_TREES)%nat -> 0 <= message_to_indices m !!! i < 2 ^ Z.of_nat SPX_FORS_HEIGHT.
Proof.
  intros Hb Hl Hi. rewrite (message_to_indices_spec m Hb Hl). unfold base_2b.
  rewrite (list_lookup_total_fmap _ _ i) by (rewrite length_seq; exact Hi). apply Z.mod_pos_bound. reflexivity.
Qed.

(** ** Signing and recovering the public key *)

(** Equal up to the height and the index of the node. *)
Definition same_tree (a0 a : addr) : Prop :=
  length a = 32%nat /\ forall h j, set_tree_index (set_tree_height a h) j = set_tree_index (set_tree_height a0 h) j.
Lemma node_addr_tree a o h i : length a = 32%nat -> same_tree a (node_addr a o h i).
Proof. intros Ha. split; [rewrite node_addr_length; exact Ha|]. intros h' j'. unfold node_addr. addr_cases a Ha. reflexivity. Qed.
Lemma same_tree_addr a0 o a : same_tree a0 a -> same_addr a0 o a.
Proof. intros [Ha H]. split; [exact Ha|]. intros h i. apply H. Qed.
Lemma same_addr_tree a0 o a : length a0 = 32%nat -> same_addr a0 o a -> same_tree a0 a.
Proof.
  intros Ha0 [Ha H]. split; [exact Ha|]. intros h j.
  rewrite <- (proj2 (node_addr_tree a o 0 0 Ha)), (H 0%nat 0), (proj2 (node_addr_tree a0 o 0 0 Ha0)). reflexivity.
Qed.
Lemma thash_prefix ctx x rest n a : length x = (n * SPX_N)%nat -> thash ctx (x ++ rest) n a = thash ctx x n a.
Proof. intros Hx. unfold thash. rewrite take_app_length' by (symmetry; exact Hx). rewrite (take_ge x) by lia. reflexivity. Qed.

Lemma copy_keypair_length a : length a = 32%nat -> length (copy_keypair_addr zero_addr a) = 32%nat.
Proof. intros _. unfold copy_keypair_addr. rewrite !length_insert, length_inserts. reflexivity. Qed.

Lemma concat_length (l : list (list Z)) n k :
  length l = k -> (forall i, (i < k)%nat -> length (l !!! i) = n) -> length (concat l) = (k * n)%nat.
Proof.
  revert k. induction l as [|x l IH]; intros [|k] Hk Hn; cbn [length concat] in *; try lia.
  rewrite length_app, (IH k ltac:(lia)); [|intros i Hi; apply (Hn (S i)); lia]. pose proof (Hn 0%nat ltac:(lia)) as H0. cbn in H0. lia.
Qed.

Ltac addr_var a Ha := generalize a Ha; let x := fresh "x" in let Hx := fresh "Hx" in intros x Hx; addr_cases x Hx.
Section Fors.
Context (ctx : spx_ctx) (fa : addr).
Hypothesis Hfa : length fa = 32%nat.
Local Abbreviation fb := (copy_keypair_addr zero_addr fa).
Local Abbreviation a0 := (set_type fb SPX_ADDR_TYPE_FORSTREE).
(** The address of the leaf [j], counted across the trees. *)
Definition fors_leaf_at (t j : Z) : addr := set_type (set_tree_index (set_tree_height fb 0) j) t.
Definition fors_sk_at (o i : Z) : list Z := prf_addr ctx (fors_leaf_at SPX_ADDR_TYPE_FORSPRF (u32 (i + o))).
Definition fors_leaf (o i : Z) : list Z := thash ctx (fors_sk_at o i) 1 (fors_leaf_at SPX_ADDR_TYPE_FORSTREE (u32 (i + o))).

Definition leaf_state (info : addr) : Prop := length info = 32%nat /\ forall j t, set_type (set_tree_index info j) t = fors_leaf_at t j.
Definition tree_state (a : addr) : Prop :=
  length a = 32%nat /\ forall h j t, set_type (set_tree_index (set_tree_height a h) j) t = set_type (set_tree_index (set_tree_height fb h) j) t.

Lemma fb_length : length fb = 32%nat.
Proof using Hfa. apply copy_keypair_length, Hfa. Qed.
Lemma a0_length : length a0 = 32%nat.
Proof using Hfa. unfold set_type. rewrite length_insert. apply fb_length. Qed.
Lemma leaf_state_fb : leaf_state fb.
Proof using Hfa. split; [apply fb_length|]. intros j t. unfold fors_leaf_at. addr_var fa Hfa. reflexivity. Qed.
Lemma leaf_state_at t j : leaf_state (fors_leaf_at t j).
Proof using Hfa.
  split; [unfold fors_leaf_at, set_type, set_tree_index, set_tree_height; rewrite length_insert, length_inserts, length_insert; apply fb_length|].
  intros j' t'. unfold fors_leaf_at. addr_var fa Hfa. reflexivity.
Qed.
Lemma leaf_at_type t t' j : set_type (fors_leaf_at t j) t' = fors_leaf_at t' j.
Proof using Hfa. unfold fors_leaf_at. addr_var fa Hfa. reflexivity. Qed.
Lemma leaf_at_type' h j t t' :
  set_type (set_type (set_tree_index (set_tree_height fb h) j) t) t' = set_type (set_tree_index (set_tree_height fb h) j) t'.
Proof using Hfa. addr_var fa Hfa. reflexivity. Qed.
Lemma leaf_at_tree j : same_tree a0 (fors_leaf_at SPX_ADDR_TYPE_FORSTREE j).
Proof using Hfa.
  split; [apply (leaf_state_at SPX_ADDR_TYPE_FORSTREE j)|]. intros h' j'. unfold fors_leaf_at. addr_var fa Hfa. reflexivity.
Qed.
Lemma same_tree_state a : same_tree a0 a -> tree_state a.
Proof using Hfa. intros [Ha H]. split; [exact Ha|]. intros h j t. rewrite H. addr_var fa Hfa. reflexivity. Qed.
(** The address the verifier sets is that of the leaf. *)
Lemma same_tree_leaf a j : same_tree a0 a -> set_tree_index (set_tree_height a 0) j = fors_leaf_at SPX_ADDR_TYPE_FORSTREE j.
Proof using Hfa. intros [_ H]. rewrite H. unfold fors_leaf_at. addr_var fa Hfa. reflexivity. Qed.

Lemma fors_gen_leafx1_spec o idx info :
  leaf_state info -> let '(v, info') := fors_gen_leafx1 ctx (u32 (idx + o)) info in v = fors_leaf o idx /\ leaf_state info'.
Proof using Hfa.
  intros [_ H]. unfold fors_gen_leafx1, fors_gen_sk, fors_sk_to_leaf. rewrite H, leaf_at_type. split; [reflexivity|apply leaf_state_at].
Qed.

(** The two loops together: what the signer has written, the verifier reads back. *)
Definition coupled (indices : list Z) (j : nat) (s : list Z * list Z * addr * addr) : Prop :=
  let '(sig, roots, a, info) := s in
  tree_state a /\ leaf_state info /\ length sig = (j * (SPX_N * S SPX_FORS_HEIGHT))%nat /\
  forall rest, exists av, for_loop j 0 (fors_pk_step ctx indices) (sig ++ rest, [], a0) = (rest, roots, av) /\ same_tree a0 av.

Lemma node_length o h i : length (node ctx (fors_leaf o) a0 o h i) = SPX_N.
Proof. destruct h; apply thash_length. Qed.

Lemma fors_step_coupled indices j s :
  (j < SPX_FORS_TREES)%nat -> 0 <= indices !!! j < 2 ^ Z.of_nat SPX_FORS_HEIGHT -> coupled indices j s ->
  exists s', fors_sign_step ctx indices j s = Some s' /\ coupled indices (S j) s'.
Proof using Hfa.
  destruct s as [[[sig roots] a] info]. intros Hj Hx (Ht & Hi & Hl & Hc). unfold fors_sign_step.
  set (o := u32 (Z.of_nat j * _)). set (x := indices !!! j) in *. rewrite (proj2 Ht), leaf_at_type'. change (fors_gen_sk ctx _) with (fors_sk_at o x).
  fold (fors_leaf_at SPX_ADDR_TYPE_FORSTREE (u32 (x + o))).
  destruct (treehashx1_spec ctx (fors_gen_leafx1 ctx) (fors_leaf o) (fun _ => leaf_state) a0 o x SPX_FORS_HEIGHT a0_length
    (fun idx inf _ H => fors_gen_leafx1_spec o idx inf H) info (replicate SPX_FORS_HEIGHT (replicate SPX_N 0))
    (fors_leaf_at SPX_ADDR_TYPE_FORSTREE (u32 (x + o)))) as (auth & a' & info' & E & Hla & Hsa & Hi' & Hp);
    [apply Nat.leb_le; reflexivity|exact Hi|reflexivity|apply same_tree_addr, leaf_at_tree|lia|].
  specialize (Hp (proj2 Hx)). rewrite E. cbn [mbind option_bind]. eexists. split; [reflexivity|].
  assert (Hpath : is_path ctx (fors_leaf o) a0 o x SPX_FORS_HEIGHT auth).
  { split; [exact Hla|]. intros k Hk. rewrite (Hp k Hk). split; [apply node_length|reflexivity]. }
  assert (Hcl : length (concat auth) = (SPX_FORS_HEIGHT * SPX_N)%nat) by (apply concat_length; [exact Hla|intros k Hk; apply Hpath, Hk]).
  assert (Hsk : length (fors_sk_at o x) = SPX_N) by apply prf_addr_length.
  split; [apply same_tree_state; exact (same_addr_tree _ _ _ a0_length Hsa)|]. split; [exact Hi'|]. split.
  { rewrite !length_app, Hl, Hcl, Hsk. lia. }
  intros rest. rewrite <- !app_assoc. destruct (Hc (fors_sk_at o x ++ concat auth ++ rest)) as (av & Ev & Hav).
  rewrite <- Nat.add_1_r, for_loop_app, Ev. cbn [for_loop plus]. unfold fors_pk_step. fold o x. rewrite (same_tree_leaf _ _ Hav).
  unfold fors_sk_to_leaf. rewrite thash_prefix by (rewrite Hsk; lia). fold (fors_leaf o x).
  rewrite drop_app_length' by (symmetry; exact Hsk).
  destruct (compute_root_spec ctx (fors_leaf o) a0 o x SPX_FORS_HEIGHT a0_length auth rest (fors_leaf_at SPX_ADDR_TYPE_FORSTREE (u32 (x + o)))
    Hpath ltac:(apply Nat.ltb_lt; reflexivity) Hx ltac:(apply same_tree_addr, leaf_at_tree)) as (a2 & E2 & Ha2).
  rewrite E2, drop_app_length' by lia. exists a2. split; [reflexivity|exact (same_addr_tree _ _ _ a0_length Ha2)].
Qed.

(** A few-time signature is produced, and it gives back the public key. *)
Lemma fors_correct m :
  bytes_ok m -> length m = SPX_FORS_MSG_BYTES ->
  exists sig pk, fors_sign ctx m fa = Some (sig, pk) /\ length sig = SPX_FORS_BYTES /\ length pk = SPX_N /\
    forall rest, fors_pk_from_sig ctx (sig ++ rest) m fa = pk.
Proof using Hfa.
  intros Hb Hl. unfold fors_sign, fors_pk_from_sig.
  destruct (for_opt_inv (coupled (message_to_indices m)) (fors_sign_step ctx (message_to_indices m)) SPX_FORS_TREES 0 ([], [], fb, fb))
    as ([[[sig roots] a] info] & E & Hc).
  - split; [split; [apply fb_length|reflexivity]|]. split; [apply leaf_state_fb|]. split; [reflexivity|].
    intros rest. exists a0. split; [reflexivity|split; [apply a0_length|reflexivity]].
  - intros j s Hj Hs. apply fors_step_coupled; [lia|apply index_range; [exact Hb|exact Hl|lia]|exact Hs].
  - rewrite E. cbn [mbind option_bind]. destruct Hc as (_ & _ & Hsl & Hc). eexists _, _. split; [reflexivity|].
    split; [exact Hsl|]. split; [apply thash_length|]. intros rest. destruct (Hc rest) as (av & Ev & _).
    cbn [plus] in Ev. rewrite Ev. reflexivity.
Qed.
End Fors.

(** the indices are those of FIPS 205: [message_to_indices] cuts the 21 bytes of
    the digest into 14 groups of 12 bits, the most significant bit of the first
    byte first, which is [base_2b] of the standard, and each index names a leaf of
    its tree. *)
Theorem fors_indices_standard (m : list Z) :
  bytes_ok m -> length m = SPX_FORS_MSG_BYTES ->
  message_to_indices m = base_2b SPX_FORS_HEIGHT SPX_FORS_TREES m /\
  forall i, (i < SPX_FORS_TREES)%nat -> 0 <= message_to_indices m !!! i < 2 ^ Z.of_nat SPX_FORS_HEIGHT.
Proof. intros Hb Hl. split; [apply message_to_indices_spec; assumption|]. intros i Hi. apply index_range; assumption. Qed.
Lemma fors_indices_standard_witness : message_to_indices (replicate 21 0xa5) = base_2b SPX_FORS_HEIGHT SPX_FORS_TREES (replicate 21 0xa5).
Proof.
  refine (proj1 (fors_indices_standard (replicate 21 0xa5) _ eq_refl)). apply Forall_replicate. unfold is_u8. lia.
Defined.
