(* ===== verification/SlhSign.v ===== *)
(** * SLH-DSA-SHA2-128s: keys, signing and verification

    [merkle.c] and [sign.c].  A signature is a randomizer, a few-time signature
    of the digest, and seven one-time signatures with authentication paths, each
    signing the root below it; verification recomputes the roots up to the one
    in the public key.  [randombytes] is an argument: the bytes it gives, or
    [None] when it fails.  A buffer's contents before it is first written are
    arguments too ([root0]). *)

From S2P Require Import Prelude SlhHash SlhTree SlhWots SlhFors.

Local Open Scope Z_scope.

(** ** The code *)

(** The signature and path, the root and [tree_addr] after the call. *)
Definition merkle_sign (ctx : spx_ctx) (root : list Z) (wots_addr tree_addr : addr) (idx_leaf : Z) : option (list Z * list Z * addr) :=
  let steps := chain_lengths root in
  let tree_addr := set_type tree_addr SPX_ADDR_TYPE_HASHTREE in
  let pk_addr := set_type zero_addr SPX_ADDR_TYPE_WOTSPK in
  let leaf_addr := copy_subtree_addr zero_addr wots_addr in
  let pk_addr := copy_subtree_addr pk_addr wots_addr in
  let info := mkLeafInfo (replicate SPX_WOTS_LEN (replicate SPX_N 0)) idx_leaf steps leaf_addr pk_addr in
  '(root, auth_path, tree_addr, info) ←
    treehashx1 ctx (wots_gen_leafx1 ctx) idx_leaf 0 SPX_TREE_HEIGHT info (replicate SPX_TREE_HEIGHT (replicate SPX_N 0)) tree_addr;
  Some (concat (wots_sig info) ++ concat auth_path, root, tree_addr).
Definition merkle_gen_root (ctx : spx_ctx) (root0 : list Z) : option (list Z) :=
  let top_tree_addr := set_layer_addr zero_addr (Z.of_nat SPX_D - 1) in
  let wots_addr := set_layer_addr zero_addr (Z.of_nat SPX_D - 1) in
  '(_, root, _) ← merkle_sign ctx root0 wots_addr top_tree_addr 4294967295;
  Some root.

(** A call that is given enough fuel returns. *)
Definition returned {A : Type} (r : option A) : outcome A := match r with Some a => Ret a | None => OutOfFuel end.

Definition CRYPTO_SEEDBYTES : nat := 3 * SPX_N.
Definition slice16 (k : nat) (l : list Z) : list Z := take SPX_N (drop (k * SPX_N) l).
(** The public and the secret key. *)
Definition crypto_sign_seed_keypair (root0 seed : list Z) : option (list Z * list Z) :=
  let sk := take CRYPTO_SEEDBYTES seed in
  let pk := slice16 2 sk in
  let ctx := initialize_hash_function (take SPX_N pk) (take SPX_N sk) in
  root ← merkle_gen_root ctx root0;
  Some (pk ++ root, sk ++ root).
Definition crypto_sign_keypair (root0 : list Z) (rnd : option (list Z)) : outcome (list Z * list Z) :=
  match rnd with
  | None => Fail (-1)
  | Some seed => returned (crypto_sign_seed_keypair root0 seed)
  end.

(** One layer: [sig], [root], [tree], [idx_leaf], [wots_addr], [tree_addr]. *)
Definition sign_layer (ctx : spx_ctx) (i : nat) (s : list Z * list Z * Z * Z * addr * addr) : option (list Z * list Z * Z * Z * addr * addr) :=
  let '(sig, root, tree, idx_leaf, wots_addr, tree_addr) := s in
  let tree_addr := set_layer_addr tree_addr (Z.of_nat i) in
  let tree_addr := set_tree_addr tree_addr tree in
  let wots_addr := copy_subtree_addr wots_addr tree_addr in
  let wots_addr := set_keypair_addr wots_addr idx_leaf in
  '(out, root, tree_addr) ← merkle_sign ctx root wots_addr tree_addr idx_leaf;
  let idx_leaf := u32 (Z.land tree (Z.shiftl 1 (Z.of_nat SPX_TREE_HEIGHT) - 1)) in
  let tree := Z.shiftr tree (Z.of_nat SPX_TREE_HEIGHT) in
  Some (sig ++ out, root, tree, idx_leaf, wots_addr, tree_addr).
Definition crypto_sign_signature (rnd : option (list Z)) (m sk : list Z) : outcome (list Z) :=
  let sk_prf := slice16 1 sk in
  let pk := drop (2 * SPX_N) sk in
  let ctx := initialize_hash_function (take SPX_N pk) (take SPX_N sk) in
  let wots_addr := set_type zero_addr SPX_ADDR_TYPE_WOTS in
  let tree_addr := set_type zero_addr SPX_ADDR_TYPE_HASHTREE in
  match rnd with
  | None => Fail (-1)
  | Some optrand =>
      let R := gen_message_random sk_prf optrand m in
      let '(mhash, tree, idx_leaf) := hash_message R pk m in
      let wots_addr := set_tree_addr wots_addr tree in
      let wots_addr := set_keypair_addr wots_addr idx_leaf in
      returned (
        '(fors_sig, root) ← fors_sign ctx mhash wots_addr;
        '(ht_sig, _, _, _, _, _) ← for_opt SPX_D 0 (sign_layer ctx) ([], root, tree, idx_leaf, wots_addr, tree_addr);
        Some (R ++ fors_sig ++ ht_sig))
  end.

(** One layer: [sig], [root], [tree], [idx_leaf], [wots_addr], [tree_addr], [wots_pk_addr]. *)
Definition verify_layer (ctx : spx_ctx) (i : nat) (s : list Z * list Z * Z * Z * addr * addr * addr) : list Z * list Z * Z * Z * addr * addr * addr :=
  let '(sig, root, tree, idx_leaf, wots_addr, tree_addr, wots_pk_addr) := s in
  let tree_addr := set_layer_addr tree_addr (Z.of_nat i) in
  let tree_addr := set_tree_addr tree_addr tree in
  let wots_addr := copy_subtree_addr wots_addr tree_addr in
  let wots_addr := set_keypair_addr wots_addr idx_leaf in
  let wots_pk_addr := copy_keypair_addr wots_pk_addr wots_addr in
  let '(wots_pk, wots_addr) := wots_pk_from_sig ctx sig root wots_addr in
  let sig := drop SPX_WOTS_BYTES sig in
  let leaf := thash ctx wots_pk SPX_WOTS_LEN wots_pk_addr in
  let '(root, tree_addr) := compute_root ctx leaf idx_leaf 0 sig SPX_TREE_HEIGHT tree_addr in
  let sig := drop (SPX_TREE_HEIGHT * SPX_N) sig in
  let idx_leaf := u32 (Z.land tree (Z.shiftl 1 (Z.of_nat SPX_TREE_HEIGHT) - 1)) in
  let tree := Z.shiftr tree (Z.of_nat SPX_TREE_HEIGHT) in
  (sig, root, tree, idx_leaf, wots_addr, tree_addr, wots_pk_addr).
(** [ctx.sk_seed] is not set, and not read. *)
Definition crypto_sign_verify (sig m pk : list Z) : Z :=
  let pub_root := slice16 1 pk in
  if negb (length sig =? SPX_BYTES)%nat then -1 else
  let ctx := initialize_hash_function (take SPX_N pk) [] in
  let wots_addr := set_type zero_addr SPX_ADDR_TYPE_WOTS in
  let tree_addr := set_type zero_addr SPX_ADDR_TYPE_HASHTREE in
  let wots_pk_addr := set_type zero_addr SPX_ADDR_TYPE_WOTSPK in
  let '(mhash, tree, idx_leaf) := hash_message sig pk m in
  let sig := drop SPX_N sig in
  let wots_addr := set_tree_addr wots_addr tree in
  let wots_addr := set_keypair_addr wots_addr idx_leaf in
  let root := fors_pk_from_sig ctx sig mhash wots_addr in
  let sig := drop SPX_FORS_BYTES sig in
  let '(_, root, _, _, _, _, _) := for_loop SPX_D 0 (verify_layer ctx) (sig, root, tree, idx_leaf, wots_addr, tree_addr, wots_pk_addr) in
  if bool_decide (root = pub_root) then 0 else -1.

Definition crypto_sign (rnd : option (list Z)) (m sk : list Z) : outcome (list Z) :=
  match crypto_sign_signature rnd m sk with
  | Ret sig => Ret (sig ++ m)
  | Fail _ => Fail (-1)
  | OutOfFuel => OutOfFuel
  end.
(** The return value, [m] and [*mlen]. *)
Definition crypto_sign_open (sm pk : list Z) : Z * list Z * nat :=
  let bad := (-1, replicate (length sm) 0, O) in
  if (length sm <? SPX_BYTES)%nat then bad else
  let mlen := (length sm - SPX_BYTES)%nat in
  if negb (crypto_sign_verify (take SPX_BYTES sm) (drop SPX_BYTES sm) pk =? 0) then bad
  else (0, drop SPX_BYTES sm, mlen).

(** The verifier does not read the secret seed. *)
Lemma thash_ctx pub sk sk' st : thash (mkCtx pub sk st) = thash (mkCtx pub sk' st).
Proof. reflexivity. Qed.
Section Public.
Context (pub sk sk' st : list Z).
Lemma compute_root_ctx : compute_root (mkCtx pub sk st) = compute_root (mkCtx pub sk' st).
Proof. unfold compute_root, compute_root_step. rewrite (thash_ctx pub sk sk' st). reflexivity. Qed.
Lemma fors_pk_ctx : fors_pk_from_sig (mkCtx pub sk st) = fors_pk_from_sig (mkCtx pub sk' st).
Proof. unfold fors_pk_from_sig, fors_pk_step, fors_sk_to_leaf. rewrite (thash_ctx pub sk sk' st), compute_root_ctx. reflexivity. Qed.
Lemma wots_pk_ctx : wots_pk_from_sig (mkCtx pub sk st) = wots_pk_from_sig (mkCtx pub sk' st).
Proof. unfold wots_pk_from_sig, gen_chain, gen_chain_loop. rewrite (thash_ctx pub sk sk' st). reflexivity. Qed.
Lemma verify_layer_ctx : verify_layer (mkCtx pub sk st) = verify_layer (mkCtx pub sk' st).
Proof. unfold verify_layer. rewrite (thash_ctx pub sk sk' st), compute_root_ctx, wots_pk_ctx. reflexivity. Qed.
End Public.

(** ** Addresses of the hypertree *)

#[local] Opaque thash prf_addr.

(** The addresses of layer [i], tree [t]: of one-time keys, of their
    compressed public keys, and of the nodes above them. *)
Definition wots_base (i t : Z) : addr := set_tree_addr (set_layer_addr zero_addr i) t.
Definition pk_base (i t : Z) : addr := set_type (wots_base i t) SPX_ADDR_TYPE_WOTSPK.
Definition tree_base (i t : Z) : addr := set_type (wots_base i t) SPX_ADDR_TYPE_HASHTREE.
Lemma wots_base_length i t : length (wots_base i t) = 32%nat.
Proof. reflexivity. Qed.

Lemma same_tree_take a0 a : length a0 = 32%nat -> same_tree a0 a -> take 9 a = take 9 a0.
Proof.
  intros H0 [Ha H]. specialize (H 0 0).
  assert (E : forall x, length x = 32%nat -> take 9 (set_tree_index (set_tree_height x 0) 0) = take 9 x) by (intros x Hx; addr_cases x Hx; reflexivity).
  rewrite <- (E a Ha), <- (E a0 H0), H. reflexivity.
Qed.
Lemma copy_subtree_take out a b : take 9 a = take 9 b -> copy_subtree_addr out a = copy_subtree_addr out b.
Proof. intros H. unfold copy_subtree_addr. change (SPX_OFFSET_TREE + 8)%nat with 9%nat. rewrite H. reflexivity. Qed.
Lemma take_copy_subtree out a kp : length out = 32%nat -> length a = 32%nat -> take 9 (set_keypair_addr (copy_subtree_addr out a) kp) = take 9 a.
Proof. intros Ho Ha. addr_cases out Ho. addr_cases a Ha. reflexivity. Qed.
Lemma copy_subtree_base i t :
  copy_subtree_addr zero_addr (tree_base i t) = wots_base i t /\
  copy_subtree_addr (set_type zero_addr SPX_ADDR_TYPE_WOTSPK) (tree_base i t) = pk_base i t.
Proof. split; reflexivity. Qed.

(** [tree_addr] between two layers. *)
Definition tree_ready (a : addr) : Prop := length a = 32%nat /\ forall i t, same_tree (tree_base i t) (set_tree_addr (set_layer_addr a i) t).
Lemma tree_ready_init : tree_ready (set_type zero_addr SPX_ADDR_TYPE_HASHTREE).
Proof. split; [reflexivity|]. intros i t. split; [reflexivity|]. intros h j. reflexivity. Qed.
Lemma set_tree_layer_length a i t : length (set_tree_addr (set_layer_addr a i) t) = length a.
Proof. unfold set_tree_addr, set_layer_addr. rewrite length_inserts, length_insert. reflexivity. Qed.
Lemma tree_ready_next i t a : same_tree (tree_base i t) a -> tree_ready a.
Proof.
  intros [Ha H]. split; [exact Ha|]. intros i' t'. split; [rewrite set_tree_layer_length; exact Ha|]. intros h j. specialize (H h j).
  assert (E : set_tree_index (set_tree_height (set_tree_addr (set_layer_addr a i') t') h) j
            = set_tree_addr (set_layer_addr (set_tree_index (set_tree_height a h) j) i') t') by (clear H; addr_cases a Ha; reflexivity).
  rewrite E, H. reflexivity.
Qed.
Lemma same_tree_type i t a : same_tree (tree_base i t) a -> same_tree (tree_base i t) (set_type a SPX_ADDR_TYPE_HASHTREE).
Proof.
  intros [Ha H]. split; [unfold set_type; rewrite length_insert; exact Ha|]. intros h j. specialize (H h j).
  assert (E : set_tree_index (set_tree_height (set_type a SPX_ADDR_TYPE_HASHTREE) h) j
            = set_type (set_tree_index (set_tree_height a h) j) SPX_ADDR_TYPE_HASHTREE) by (clear H; addr_cases a Ha; reflexivity).
  rewrite E, H. reflexivity.
Qed.

(** The verifier's [wots_addr] and [wots_pk_addr] between two layers. *)
Definition wots_ready (w : addr) : Prop :=
  length w = 32%nat /\ forall x kp i k, length x = 32%nat ->
    set_hash_addr (set_chain_addr (set_keypair_addr (copy_subtree_addr w x) kp) i) k
    = chain_addr SPX_ADDR_TYPE_WOTS kp i k (copy_subtree_addr zero_addr x).
Lemma wots_ready_init t l : wots_ready (set_keypair_addr (set_tree_addr (set_type zero_addr SPX_ADDR_TYPE_WOTS) t) l).
Proof. split; [reflexivity|]. intros x kp i k Hx. addr_cases x Hx. reflexivity. Qed.
Lemma wots_ready_next i t kp w : sig_addr (wots_base i t) kp w -> wots_ready w.
Proof.
  intros [Hw H]. split; [exact Hw|]. intros x kp' i' k' Hx. specialize (H 0 0).
  assert (E : set_hash_addr (set_chain_addr (set_keypair_addr (copy_subtree_addr w x) kp') i') k'
    = set_hash_addr (set_chain_addr (set_keypair_addr (copy_subtree_addr (set_hash_addr (set_chain_addr w 0) 0) x) kp') i') k')
    by (clear H; addr_cases w Hw; addr_cases x Hx; reflexivity).
  rewrite E, H. clear E H. addr_cases x Hx. reflexivity.
Qed.
Definition pk_ready (p : addr) : Prop :=
  length p = 32%nat /\ forall x, length x = 32%nat -> copy_keypair_addr p x = copy_keypair_addr (set_type zero_addr SPX_ADDR_TYPE_WOTSPK) x.
Lemma pk_ready_next p x : pk_ready p -> length x = 32%nat -> pk_ready (copy_keypair_addr p x).
Proof.
  intros [Hp H] Hx. split; [unfold copy_keypair_addr; rewrite !length_insert, length_inserts; exact Hp|]. intros y Hy. rewrite <- (H y Hy).
  clear H. addr_cases p Hp. addr_cases x Hx. addr_cases y Hy. reflexivity.
Qed.
Lemma pk_addr_base i t w a kp :
  length w = 32%nat -> length a = 32%nat -> take 9 a = take 9 (tree_base i t) ->
  copy_keypair_addr (set_type zero_addr SPX_ADDR_TYPE_WOTSPK) (set_keypair_addr (copy_subtree_addr w a) kp) = set_keypair_addr (pk_base i t) kp.
Proof.
  intros Hw Ha H. rewrite (copy_subtree_take w a (tree_base i t) H). clear H a Ha. addr_cases w Hw. reflexivity.
Qed.

(** ** One layer *)

Section Hypertree.
Context (ctx : spx_ctx).
Definition subtree_leaf (i t : Z) : Z -> list Z := wots_leaf ctx (wots_base i t) (pk_base i t).
Definition subtree_root (i t : Z) : list Z := node ctx (subtree_leaf i t) (tree_base i t) 0 SPX_TREE_HEIGHT 0.

Lemma subtree_node_length i t h j : length (node ctx (subtree_leaf i t) (tree_base i t) 0 h j) = SPX_N.
Proof. destruct h; apply thash_length. Qed.

(** The root of the tree; and when the leaf is one of the tree's, a signature of
    the root before, and its path. *)
Lemma merkle_sign_spec i t root wots_addr tree_addr l :
  bytes_ok root -> length root = 16%nat -> is_u32 l ->
  copy_subtree_addr zero_addr wots_addr = wots_base i t ->
  copy_subtree_addr (set_type zero_addr SPX_ADDR_TYPE_WOTSPK) wots_addr = pk_base i t ->
  same_tree (tree_base i t) (set_type tree_addr SPX_ADDR_TYPE_HASHTREE) ->
  exists wsig auth ta, merkle_sign ctx root wots_addr tree_addr l = Some (concat wsig ++ concat auth, subtree_root i t, ta) /\
    same_tree (tree_base i t) ta /\
    (l < 2 ^ Z.of_nat SPX_TREE_HEIGHT ->
     length wsig = SPX_WOTS_LEN /\ (forall k, (k < SPX_WOTS_LEN)%nat -> wsig !!! k = chain_at ctx (wots_base i t) l k (chain_lengths root !!! k)) /\
     is_path ctx (subtree_leaf i t) (tree_base i t) 0 l SPX_TREE_HEIGHT auth).
Proof.
  intros Hb Hl Hu Hw Hpk Hta. unfold merkle_sign. rewrite Hw, Hpk. destruct (chain_lengths_range root Hb Hl) as [Hs1 Hs2].
  pose proof (fun idx info => wots_gen_leafx1_spec ctx (wots_base i t) (pk_base i t) (chain_lengths root) l eq_refl eq_refl Hs1 Hs2 idx info) as Hleaf.
  destruct (treehashx1_spec ctx (wots_gen_leafx1 ctx) (subtree_leaf i t)
    (leaf_inv ctx (wots_base i t) (pk_base i t) (chain_lengths root) l) (tree_base i t) 0 l SPX_TREE_HEIGHT eq_refl)
    with (info := mkLeafInfo (replicate SPX_WOTS_LEN (replicate SPX_N 0)) l (chain_lengths root) (wots_base i t) (pk_base i t))
         (auth0 := replicate SPX_TREE_HEIGHT (replicate SPX_N 0)) (ta := set_type tree_addr SPX_ADDR_TYPE_HASHTREE)
    as (auth & ta & info & E & H1 & H2 & H3 & H4).
  - intros idx info Hi HJ. apply Hleaf; [|exact HJ]. change (2 ^ Z.of_nat SPX_TREE_HEIGHT) with 512 in Hi. unfold is_u32. lia.
  - apply Nat.leb_le. reflexivity.
  - split; try reflexivity; [split; reflexivity|split; reflexivity|lia].
  - reflexivity.
  - apply same_tree_addr, Hta.
  - unfold is_u32 in Hu. lia.
  - rewrite E. cbn [mbind option_bind]. exists (wots_sig info), auth, ta. split; [reflexivity|].
    split; [exact (same_addr_tree (tree_base i t) 0 ta eq_refl H2)|]. intros Hlt. destruct H3 as [_ _ _ _ Hlen Hsig]. unfold is_u32 in Hu.
    split; [exact Hlen|]. split; [apply Hsig; lia|]. split; [exact H1|]. intros k Hk. rewrite (H4 Hlt k Hk).
    split; [apply subtree_node_length|reflexivity].
Qed.

Lemma subtree_node_bytes i t h j : bytes_ok (node ctx (subtree_leaf i t) (tree_base i t) 0 h j).
Proof. destruct h; apply thash_bytes. Qed.
Lemma subtree_root_ok i t : bytes_ok (subtree_root i t) /\ length (subtree_root i t) = 16%nat.
Proof. unfold subtree_root. split; [apply subtree_node_bytes|apply (subtree_node_length i t SPX_TREE_HEIGHT 0)]. Qed.

(** The signer's and the verifier's loops side by side; the signer starts with
    the root [r0] in the tree [t0] and the leaf [l0]. *)
Context (r0 : list Z) (t0 l0 : Z) (w0 ta0 pk0 : addr).
Definition layer_coupled (j : nat) (s : list Z * list Z * Z * Z * addr * addr) : Prop :=
  let '(sig, root, tree, leaf, w, ta) := s in
  tree = Z.shiftr t0 (Z.of_nat SPX_TREE_HEIGHT * Z.of_nat j) /\ 0 <= leaf < 2 ^ Z.of_nat SPX_TREE_HEIGHT /\
  (bytes_ok root /\ length root = 16%nat) /\ length w = 32%nat /\ tree_ready ta /\
  length sig = (j * (SPX_WOTS_BYTES + SPX_TREE_HEIGHT * SPX_N))%nat /\
  (forall j', j = S j' -> root = subtree_root (Z.of_nat j') (Z.shiftr t0 (Z.of_nat SPX_TREE_HEIGHT * Z.of_nat j'))) /\
  forall rest, exists wv tav pv, for_loop j 0 (verify_layer ctx) (sig ++ rest, r0, t0, l0, w0, ta0, pk0) = (rest, root, tree, leaf, wv, tav, pv) /\
    wots_ready wv /\ tree_ready tav /\ pk_ready pv.

Lemma copy_subtree_length w a : length (copy_subtree_addr w a) = length w.
Proof. unfold copy_subtree_addr. apply length_inserts. Qed.
Lemma next_leaf tree : 0 <= u32 (Z.land tree (Z.shiftl 1 (Z.of_nat SPX_TREE_HEIGHT) - 1)) < 2 ^ Z.of_nat SPX_TREE_HEIGHT.
Proof.
  change (Z.shiftl 1 (Z.of_nat SPX_TREE_HEIGHT) - 1) with (2 ^ 9 - 1). change (2 ^ Z.of_nat SPX_TREE_HEIGHT) with 512.
  rewrite land_ones_mod by lia. change (2 ^ 9) with 512. zlia.
Qed.

(** The verifier's step on what the signer's step wrote. *)
Lemma verify_layer_spec i t root wsig auth rest l w ta p :
  bytes_ok root -> length root = 16%nat -> 0 <= l < 2 ^ Z.of_nat SPX_TREE_HEIGHT ->
  length wsig = SPX_WOTS_LEN -> (forall k, (k < SPX_WOTS_LEN)%nat -> wsig !!! k = chain_at ctx (wots_base (Z.of_nat i) t) l k (chain_lengths root !!! k)) ->
  is_path ctx (subtree_leaf (Z.of_nat i) t) (tree_base (Z.of_nat i) t) 0 l SPX_TREE_HEIGHT auth ->
  wots_ready w -> tree_ready ta -> pk_ready p ->
  exists w' ta' p', verify_layer ctx i (concat wsig ++ concat auth ++ rest, root, t, l, w, ta, p)
    = (rest, subtree_root (Z.of_nat i) t, Z.shiftr t (Z.of_nat SPX_TREE_HEIGHT),
       u32 (Z.land t (Z.shiftl 1 (Z.of_nat SPX_TREE_HEIGHT) - 1)), w', ta', p') /\ wots_ready w' /\ tree_ready ta' /\ pk_ready p'.
Proof.
  intros Hb Hl Hlf Hw1 Hw2 Hp Hw Hta Hpk. unfold verify_layer. pose proof (proj2 Hta (Z.of_nat i) t) as Ht.
  set (ta1 := set_tree_addr (set_layer_addr ta (Z.of_nat i)) t) in *. pose proof (same_tree_take (tree_base (Z.of_nat i) t) _ eq_refl Ht) as Htk.
  set (w1 := set_keypair_addr (copy_subtree_addr w ta1) l).
  assert (Hsig : sig_addr (wots_base (Z.of_nat i) t) l w1).
  { split; [unfold w1, set_keypair_addr; rewrite !length_insert, copy_subtree_length; apply Hw|]. intros k h. unfold w1.
    rewrite (proj2 Hw) by apply Ht. rewrite (copy_subtree_take _ _ _ Htk). reflexivity. }
  destruct (wots_pk_from_sig_spec ctx (wots_base (Z.of_nat i) t) l (wots_base_length _ _) wsig (concat auth ++ rest) root w1 Hb Hl Hsig Hw1 Hw2)
    as (w2 & E & Hw2'). rewrite E.
  assert (Hcw : length (concat wsig) = SPX_WOTS_BYTES).
  { apply (concat_length wsig SPX_N SPX_WOTS_LEN Hw1). intros k Hk. rewrite (Hw2 k Hk). apply chain_at_length. }
  assert (Hca : length (concat auth) = (SPX_TREE_HEIGHT * SPX_N)%nat) by (apply concat_length; [apply Hp|intros k Hk; apply Hp, Hk]).
  rewrite drop_app_length' by (symmetry; exact Hcw).
  assert (Epk : copy_keypair_addr p w1 = set_keypair_addr (pk_base (Z.of_nat i) t) l).
  { rewrite (proj2 Hpk) by apply Hsig. apply pk_addr_base; [apply Hw|apply Ht|exact Htk]. }
  rewrite Epk. fold (wots_leaf ctx (wots_base (Z.of_nat i) t) (pk_base (Z.of_nat i) t) l).
  destruct (compute_root_spec ctx (subtree_leaf (Z.of_nat i) t) (tree_base (Z.of_nat i) t) 0 l SPX_TREE_HEIGHT eq_refl auth rest ta1 Hp
    ltac:(apply Nat.ltb_lt; reflexivity) Hlf (same_tree_addr _ 0 _ Ht)) as (ta2 & E2 & Hta2).
  fold (subtree_leaf (Z.of_nat i) t) in E2. change (wots_leaf ctx (wots_base (Z.of_nat i) t) (pk_base (Z.of_nat i) t) l) with (subtree_leaf (Z.of_nat i) t l).
  rewrite E2, drop_app_length' by lia. eexists _, _, _. split; [reflexivity|].
  split; [exact (wots_ready_next _ _ _ _ Hw2')|]. split; [exact (tree_ready_next _ _ _ (same_addr_tree (tree_base (Z.of_nat i) t) 0 ta2 eq_refl Hta2))|].
  rewrite <- Epk. apply pk_ready_next; [exact Hpk|apply Hsig].
Qed.

Lemma sign_layer_coupled j s :
  (j < SPX_D)%nat -> layer_coupled j s -> exists s', sign_layer ctx j s = Some s' /\ layer_coupled (S j) s'.
Proof.
  destruct s as [[[[[sig root] tree] leaf] w] ta]. intros Hj (Ht & Hlf & [Hrb Hrl] & Hw & Hta & Hsl & _ & Hv). unfold sign_layer.
  pose proof (proj2 Hta (Z.of_nat j) tree) as Hst. set (ta1 := set_tree_addr (set_layer_addr ta (Z.of_nat j)) tree) in *.
  pose proof (same_tree_take (tree_base (Z.of_nat j) tree) _ eq_refl Hst) as Htk.
  set (w1 := set_keypair_addr (copy_subtree_addr w ta1) leaf).
  assert (Hw1 : take 9 w1 = take 9 (tree_base (Z.of_nat j) tree)) by (rewrite <- Htk; apply take_copy_subtree; [exact Hw|apply Hst]).
  destruct (merkle_sign_spec (Z.of_nat j) tree root w1 ta1 leaf Hrb Hrl) as (wsig & auth & ta2 & E & Hta2 & Hlt).
  - change (2 ^ Z.of_nat SPX_TREE_HEIGHT) with 512 in Hlf. unfold is_u32. lia.
  - rewrite (copy_subtree_take _ _ _ Hw1). exact (proj1 (copy_subtree_base _ _)).
  - rewrite (copy_subtree_take _ _ _ Hw1). exact (proj2 (copy_subtree_base _ _)).
  - apply same_tree_type, Hst.
  - destruct (Hlt (proj2 Hlf)) as (Hw2 & Hw3 & Hp). rewrite E. cbn [mbind option_bind]. eexists. split; [reflexivity|].
    assert (Hcw : length (concat wsig) = SPX_WOTS_BYTES).
    { apply (concat_length wsig SPX_N SPX_WOTS_LEN Hw2). intros k Hk. rewrite (Hw3 k Hk). apply chain_at_length. }
    assert (Hca : length (concat auth) = (SPX_TREE_HEIGHT * SPX_N)%nat) by (apply concat_length; [apply Hp|intros k Hk; apply Hp, Hk]).
    split; [rewrite Ht, Z.shiftr_shiftr by lia; f_equal; lia|]. split; [apply next_leaf|]. split; [apply subtree_root_ok|].
    split; [unfold w1, set_keypair_addr; rewrite !length_insert, copy_subtree_length; exact Hw|].
    split; [exact (tree_ready_next _ _ _ Hta2)|]. split; [rewrite !length_app, Hsl, Hcw, Hca; lia|].
    split; [intros j' [= <-]; rewrite Ht; reflexivity|].
    intros rest. rewrite <- !app_assoc. destruct (Hv (concat wsig ++ concat auth ++ rest)) as (wv & tav & pv & Ev & H1 & H2 & H3).
    rewrite <- Nat.add_1_r, for_loop_app, Ev. apply verify_layer_spec; assumption.
Qed.
End Hypertree.

(** ** Signing and verification *)

Lemma gen_message_random_length sk_prf optrand m : length (gen_message_random sk_prf optrand m) = SPX_N.
Proof. unfold gen_message_random. rewrite length_take, (proj2 (sha256_out _)). reflexivity. Qed.
Lemma hash_message_prefix R rest pk m : length R = SPX_N -> hash_message (R ++ rest) pk m = hash_message R pk m.
Proof. intros HR. unfold hash_message. rewrite take_app_length' by congruence. rewrite (take_ge R) by lia. reflexivity. Qed.
Lemma fors_pk_bytes ctx sig m fa r : fors_pk_from_sig ctx sig m fa = r -> bytes_ok r.
Proof. intros <-. unfold fors_pk_from_sig. destruct (for_loop _ _ _ _) as [[sg roots] a]. apply thash_bytes. Qed.

Lemma mgf1_30 seed : length (mgf1_256 SPX_DGST_BYTES seed) = 30%nat /\ bytes_ok (mgf1_256 SPX_DGST_BYTES seed).
Proof.
  unfold mgf1_256. change (SPX_DGST_BYTES / 32)%nat with 0%nat. cbn [Nat.mul]. change (0 <? SPX_DGST_BYTES)%nat with true. cbn match.
  unfold fill_chunks. cbn [seq map concat app]. destruct (sha256_out (seed ++ u32_to_bytes (Z.of_nat 0))) as [H1 H2].
  split; [rewrite length_take, H2; reflexivity|apply Forall_take, H1].
Qed.
Lemma hash_message_range R pk m :
  let '(digest, tree, leaf) := hash_message R pk m in
  bytes_ok digest /\ length digest = SPX_FORS_MSG_BYTES /\ 0 <= tree < 2 ^ SPX_TREE_BITS /\ 0 <= leaf < 2 ^ Z.of_nat SPX_TREE_HEIGHT.
Proof.
  unfold hash_message. match goal with |- context [mgf1_256 _ ?s] => destruct (mgf1_30 s) as [H1 H2]; set (buf := mgf1_256 _ s) in * end.
  split; [apply Forall_take, H2|]. split; [rewrite length_take, H1; reflexivity|].
  change (Z.shiftr 18446744073709551615 (64 - SPX_TREE_BITS)) with (2 ^ 54 - 1). change (Z.shiftr 4294967295 (32 - SPX_LEAF_BITS)) with (2 ^ 9 - 1).
  rewrite !land_ones_mod by lia. split; apply Z.mod_pos_bound; reflexivity.
Qed.

Lemma merkle_gen_root_spec ctx root0 :
  bytes_ok root0 -> length root0 = SPX_N -> merkle_gen_root ctx root0 = Some (subtree_root ctx 6 0).
Proof.
  intros Hb Hl. unfold merkle_gen_root. change (Z.of_nat SPX_D - 1) with 6.
  destruct (merkle_sign_spec ctx 6 0 root0 (set_layer_addr zero_addr 6) (set_layer_addr zero_addr 6) 4294967295 Hb Hl) as (wsig & auth & ta & E & _);
    [unfold is_u32; lia|reflexivity|reflexivity| |].
  - change (set_type (set_layer_addr zero_addr 6) SPX_ADDR_TYPE_HASHTREE) with (tree_base 6 0). split; reflexivity.
  - rewrite E. reflexivity.
Qed.

(** From the digest to the end of the hypertree, and back. *)
Lemma layers_correct ctx r0 t0 l0 w0 :
  bytes_ok r0 -> length r0 = 16%nat -> 0 <= t0 < 2 ^ SPX_TREE_BITS -> 0 <= l0 < 2 ^ Z.of_nat SPX_TREE_HEIGHT -> wots_ready w0 ->
  let ta0 := set_type zero_addr SPX_ADDR_TYPE_HASHTREE in
  exists sig root tree leaf w ta, for_opt SPX_D 0 (sign_layer ctx) ([], r0, t0, l0, w0, ta0) = Some (sig, root, tree, leaf, w, ta) /\
    length sig = (SPX_D * SPX_WOTS_BYTES + SPX_FULL_HEIGHT * SPX_N)%nat /\
    exists s, for_loop SPX_D 0 (verify_layer ctx) (sig, r0, t0, l0, w0, ta0, set_type zero_addr SPX_ADDR_TYPE_WOTSPK) = s /\
      snd (fst (fst (fst (fst (fst s))))) = subtree_root ctx 6 0.
Proof.
  intros Hb Hl Ht Hlf Hw ta0. set (p0 := set_type zero_addr SPX_ADDR_TYPE_WOTSPK).
  destruct (for_opt_inv (layer_coupled ctx r0 t0 l0 w0 ta0 p0) (sign_layer ctx) SPX_D 0 ([], r0, t0, l0, w0, ta0))
    as ([[[[[sig root] tree] leaf] w] ta] & E & Hc).
  - split; [rewrite Z.mul_0_r, Z.shiftr_0_r; reflexivity|]. split; [exact Hlf|]. split; [split; assumption|]. split; [apply Hw|].
    split; [exact tree_ready_init|]. split; [reflexivity|]. split; [discriminate|]. intros rest. exists w0, ta0, p0.
    split; [reflexivity|]. split; [exact Hw|]. split; [exact tree_ready_init|]. split; [reflexivity|intros x _; reflexivity].
  - intros j s Hj Hs. apply (sign_layer_coupled ctx r0 t0 l0 w0 ta0 p0 j s); [lia|exact Hs].
  - exists sig, root, tree, leaf, w, ta. split; [exact E|]. destruct Hc as (_ & _ & _ & _ & _ & Hsl & Hr & Hv). split; [exact Hsl|].
    destruct (Hv []) as (wv & tav & pv & Ev & _). rewrite app_nil_r in Ev. change (0 + SPX_D)%nat with SPX_D in Ev. eexists. split; [exact Ev|].
    cbn [fst snd]. rewrite (Hr 6%nat eq_refl). change (Z.of_nat 6) with 6.
    assert (E0 : Z.shiftr t0 (Z.of_nat SPX_TREE_HEIGHT * 6) = 0) by (rewrite shiftr_div by lia; apply Z.div_small; exact Ht).
    rewrite E0. reflexivity.
Qed.

Lemma some_bind {A B : Type} (x : A) (f : A -> option B) : (Some x ≫= f) = f x.
Proof. reflexivity. Qed.
Lemma slh_sign_spec pub sks prf root optrand m :
  length pub = SPX_N -> length sks = SPX_N -> length prf = SPX_N ->
  root = subtree_root (initialize_hash_function pub sks) 6 0 ->
  exists sig, crypto_sign_signature (Some optrand) m (sks ++ prf ++ pub ++ root) = Ret sig /\ length sig = SPX_BYTES /\
    crypto_sign_verify sig m (pub ++ root) = 0.
Proof.
  intros Hp Hs Hf Hr. assert (Hrl : length root = SPX_N) by (rewrite Hr; apply subtree_root_ok). unfold crypto_sign_signature.
  assert (Epk : drop (2 * SPX_N) (sks ++ prf ++ pub ++ root) = pub ++ root).
  { change (2 * SPX_N)%nat with (SPX_N + SPX_N)%nat. rewrite <- drop_drop, !drop_app_length' by congruence. reflexivity. }
  rewrite Epk. rewrite (take_app_length' pub) by congruence. rewrite (take_app_length' sks) by congruence.
  set (ctx := initialize_hash_function pub sks) in *.
  set (R := gen_message_random _ _ _). assert (HR : length R = SPX_N) by apply gen_message_random_length.
  pose proof (hash_message_range R (pub ++ root) m) as Hm. destruct (hash_message R (pub ++ root) m) as [[mhash tree] leaf] eqn:Eh.
  destruct Hm as (Hb & Hml & Ht & Hlf).
  set (w0 := set_keypair_addr (set_tree_addr (set_type zero_addr SPX_ADDR_TYPE_WOTS) tree) leaf).
  destruct (fors_correct ctx w0 eq_refl mhash Hb Hml) as (fsig & r0 & Ef & Hfl & Hrl0 & Hfv). rewrite Ef, some_bind. cbv beta iota.
  assert (Hrb : bytes_ok r0) by (apply (fors_pk_bytes ctx (fsig ++ []) mhash w0 r0), Hfv).
  destruct (layers_correct ctx r0 tree leaf w0 Hrb Hrl0 Ht Hlf (wots_ready_init tree leaf))
    as (hsig & r & tr & lf & w & ta & El & Hhl & s & Ev & Hroot).
  rewrite El, some_bind. cbv beta iota. exists (R ++ fsig ++ hsig). split; [reflexivity|].
  assert (Hsl : length (R ++ fsig ++ hsig) = SPX_BYTES) by (rewrite !length_app, HR, Hfl, Hhl; reflexivity). split; [exact Hsl|].
  unfold crypto_sign_verify. rewrite Hsl, Nat.eqb_refl. cbn [negb].
  rewrite hash_message_prefix by exact HR. rewrite Eh. rewrite (take_app_length' pub) by congruence.
  rewrite (drop_app_length' R) by congruence. fold w0. unfold initialize_hash_function in *.
  rewrite (fors_pk_ctx pub [] sks), (verify_layer_ctx pub [] sks). fold ctx. rewrite Hfv, (drop_app_length' fsig) by congruence.
  rewrite Ev. destruct s as [[[[[[sg rt] tr2] lf2] wv] tav] pv]. cbn [fst snd] in Hroot. rewrite Hroot, <- Hr.
  unfold slice16. rewrite Nat.mul_1_l, (drop_app_length' pub) by congruence. rewrite take_ge by lia. rewrite bool_decide_true by reflexivity. reflexivity.
Qed.

Lemma slh_keypair_spec root0 seed :
  bytes_ok root0 -> length root0 = SPX_N -> length seed = CRYPTO_SEEDBYTES ->
  let pub := slice16 2 seed in
  let root := subtree_root (initialize_hash_function pub (take SPX_N seed)) 6 0 in
  crypto_sign_keypair root0 (Some seed) = Ret (pub ++ root, seed ++ root).
Proof.
  intros Hb Hl Hs pub root. unfold crypto_sign_keypair, crypto_sign_seed_keypair. rewrite (take_ge seed CRYPTO_SEEDBYTES) by lia.
  fold pub. assert (Hp : length pub = SPX_N) by (unfold pub, slice16; rewrite length_take, length_drop, Hs; reflexivity).
  rewrite (take_ge pub) by lia. rewrite (merkle_gen_root_spec (initialize_hash_function pub (take SPX_N seed)) root0 Hb Hl). rewrite some_bind. reflexivity.
Qed.
Lemma seed_parts seed : length seed = CRYPTO_SEEDBYTES -> seed = take SPX_N seed ++ slice16 1 seed ++ slice16 2 seed.
Proof.
  intros Hs. unfold slice16. rewrite Nat.mul_1_l. change (2 * SPX_N)%nat with (SPX_N + SPX_N)%nat. rewrite <- drop_drop.
  rewrite (take_ge (drop SPX_N (drop SPX_N seed))) by (rewrite !length_drop, Hs; unfold CRYPTO_SEEDBYTES; lia). rewrite !take_drop. reflexivity.
Qed.

(** C6: SLH-DSA signing and verification agree, and no call runs out of fuel: a seed
    of 48 bytes determines a key pair, whatever the buffers held before; for
    every message and every 16 random bytes the signer returns 7856 bytes, which
    the verifier accepts with the public key, and opening the signed message
    gives the message back; when the random generator fails no key and no
    signature is returned; and a signature of another length is refused. *)
Theorem slh_sign_verify (seed : list Z) :
  length seed = CRYPTO_SEEDBYTES ->
  exists pk sk, length pk = SPX_PK_BYTES /\
    (forall root0, bytes_ok root0 -> length root0 = SPX_N -> crypto_sign_keypair root0 (Some seed) = Ret (pk, sk)) /\
    (forall m optrand, exists sig,
       crypto_sign_signature (Some optrand) m sk = Ret sig /\ length sig = SPX_BYTES /\ crypto_sign_verify sig m pk = 0 /\
       crypto_sign (Some optrand) m sk = Ret (sig ++ m) /\ crypto_sign_open (sig ++ m) pk = (0, m, length m)) /\
    (forall root0, crypto_sign_keypair root0 None = Fail (-1)) /\
    (forall m, crypto_sign_signature None m sk = Fail (-1) /\ crypto_sign None m sk = Fail (-1)) /\
    (forall sig m, length sig <> SPX_BYTES -> crypto_sign_verify sig m pk = -1).
Proof.
  intros Hs. set (pub := slice16 2 seed). set (root := subtree_root (initialize_hash_function pub (take SPX_N seed)) 6 0).
  assert (Hp : length pub = SPX_N) by (unfold pub, slice16; rewrite length_take, length_drop, Hs; reflexivity).
  assert (Hr : length root = SPX_N) by apply subtree_root_ok.
  exists (pub ++ root), (seed ++ root). split; [rewrite length_app, Hp, Hr; reflexivity|].
  split; [intros root0 Hb Hl; apply slh_keypair_spec; assumption|].
  split; [|split; [reflexivity|split; [intros m; split; reflexivity|]]].
  - intros m optrand.
    assert (H1 : length (take SPX_N seed) = SPX_N) by (rewrite length_take, Hs; reflexivity).
    assert (H2 : length (slice16 1 seed) = SPX_N) by (unfold slice16; rewrite length_take, length_drop, Hs; reflexivity).
    destruct (slh_sign_spec pub (take SPX_N seed) (slice16 1 seed) root optrand m Hp H1 H2 eq_refl) as (sig & E & Hl & Hv).
    assert (Esk : seed ++ root = take SPX_N seed ++ slice16 1 seed ++ pub ++ root) by (rewrite (seed_parts seed Hs) at 1; rewrite <- !app_assoc; reflexivity).
    rewrite Esk. exists sig. split; [exact E|]. split; [exact Hl|]. split; [exact Hv|].
    split; [unfold crypto_sign; rewrite E; reflexivity|]. unfold crypto_sign_open. rewrite length_app, Hl.
    rewrite (proj2 (Nat.ltb_ge _ _)) by lia. rewrite (take_app_length' sig), (drop_app_length' sig), Hv by congruence.
    cbn [Z.eqb negb]. f_equal. lia.
  - intros sig m Hl. unfold crypto_sign_verify. rewrite (proj2 (Nat.eqb_neq _ _)) by exact Hl. reflexivity.
Qed.
Lemma slh_sign_verify_witness :
  length (replicate 48 7) = CRYPTO_SEEDBYTES /\
  exists pk sk, length pk = SPX_PK_BYTES /\ crypto_sign_keypair (replicate 16 0) (Some (replicate 48 7)) = Ret (pk, sk) /\
    exists sig, crypto_sign_signature (Some (replicate 16 9)) [1; 2; 3] sk = Ret sig /\ crypto_sign_verify sig [1; 2; 3] pk = 0.
Proof.
  split; [reflexivity|]. destruct (slh_sign_verify (replicate 48 7) eq_refl) as (pk & sk & H1 & H2 & H3 & _).
  exists pk, sk. split; [exact H1|]. split; [apply H2; [apply Forall_replicate; unfold is_u8; lia|reflexivity]|].
  destruct (H3 [1; 2; 3] (replicate 16 9)) as (sig & E & _ & Ev & _). exists sig. split; [exact E|exact Ev].
Defined.
