(* ===== verification/BestChain.v ===== *)
(** * Choosing the best chain ([src/src/validation.cpp])

    [FindMostWorkChain], [PruneBlockIndexCandidates], [ActivateBestChainStep]
    and [ActivateBestChain] over the chain state of [Chainstate.v], with the set
    of candidates for the tip, which [Chainstate.v] leaves out: rejecting a block
    takes it out of the set, too.  The set is ordered by
    [CBlockIndexWorkComparator]; [addr] gives the addresses of the entries.

    Reading blocks and undo data, writing and flushing are parameters, as in
    [Chainstate.v]; there is no target block, the node is not interrupted, and
    nothing else changes the state while the lock is released. *)

From Stdlib Require Import String.
From stdpp Require Import gmap.
From S2P Require Import Prelude ConsensusParams Emission Levy ArithUint256 BlockIndex ActiveChain Pow Headers Serialize Script Transaction Coins TxCheck Merkle Block CuckooCache CheckQueue Ledger LedgerCoins Connect ConnectTotal Chainstate.

Local Open Scope Z_scope.

(** ** The candidates *)

(** [comp(pa, pb)] of the set; the entries exist. *)
Definition worse (addr : Z -> Z) (m : BlockMap) (pa pb : Z) : bool := bool_decide (CBlockIndexWorkComparator addr m pa pb = Some true).
(** [rbegin()]: the greatest element. *)
Definition rbegin (addr : Z -> Z) (m : BlockMap) (candidates : gset Z) : option Z :=
  foldr (fun h best => match best with None => Some h | Some b => if worse addr m b h then Some h else best end) None (elements candidates).

(** The walk of [FindMostWorkChain] from a candidate to the active chain: the
    first block that failed or lacks its data, with whether it failed.  [None]
    is the failed assertion. *)
Fixpoint find_unusable (fuel : nat) (m : BlockMap) (vChain : list (option Z)) (pindexTest : Z) : option (option (Z * bool)) :=
  match fuel with
  | O => None
  | S fuel =>
      c ← Contains m vChain pindexTest;
      if (c : bool) then Some None
      else
        b ← m !! pindexTest;
        if negb (HaveNumChainTxs b || (nHeight b =? 0)) then None
        else
          let fFailedChain := negb (Z.land (nStatus b) BLOCK_FAILED_VALID =? 0) in
          let fMissingData := Z.land (nStatus b) BLOCK_HAVE_DATA =? 0 in
          if fFailedChain || fMissingData then Some (Some (pindexTest, fFailedChain))
          else match pprev b with
               | None => Some None
               | Some p => find_unusable fuel m vChain p
               end
  end.

Section Best.
Context {B : Type} `{!CCoinsView B} {C : Type} `{!ElementCache C}.
Context (EnableFuzzDeterminism : bool) (GetHash : CBlockHeader -> Z) (PoWHash : CBlockHeader -> Params -> Z) (params : Params).
Context (TxHash WitnessHash : CTransaction -> Z) (Hash2 CacheKey : Z -> Z -> Z).
Context (VerifyScript : CScript -> CScript -> list (list Z) -> Z -> CTransaction -> nat -> Z -> list CTxOut -> option string).
Context (AssumedValidBlock : Z) (MinimumChainWork : list Z) (HasThreads : bool) (Complete : list CScriptCheck -> option string).
Context (addr : Z -> Z).
(** Reading a block, flushing, the position of new undo data, and whether undo
    data can be read. *)
Context (read : Z -> option CBlock) (flush : CCoinsViewCache B -> option (CCoinsViewCache B)) (undo_io : Z -> option Z) (read_ok : Z -> bool).

Record BestState := mkBest {
  bs_chain : Chainstate (B := B) (C := C);
  setBlockIndexCandidates : gset Z;
  m_blocks_unlinked : list (option Z * Z);
  nBlockSequenceId : Z
}.
Definition index (st : BestState) : BlockMap := m_block_index (m_blockman (bs_chain st)).
Definition tip (st : BestState) : option Z := Tip (m_chain (bs_chain st)).
Definition set_chain (st : BestState) (s : Chainstate (B := B) (C := C)) : BestState := mkBest s (setBlockIndexCandidates st) (m_blocks_unlinked st) (nBlockSequenceId st).
Definition erase (st : BestState) (h : Z) : BestState :=
  mkBest (bs_chain st) (setBlockIndexCandidates st ∖ {[h]}) (m_blocks_unlinked st) (nBlockSequenceId st).
Definition mark_failed (s : Chainstate (B := B) (C := C)) (h : Z) (b : CBlockIndex) : Chainstate (B := B) (C := C) :=
  mkChainstate (CoinsTip s) (m_chain s) (put_index (m_blockman s) h (set_failed b)) (m_undo s) (m_validation_cache s) (m_best_invalid s).

(** [while (pindexTest != pindexFailed)]: the branch is taken out of the set. *)
Fixpoint drop_branch (fuel : nat) (st : BestState) (pindexTest pindexFailed : Z) (fFailedChain : bool) : option BestState :=
  if pindexTest =? pindexFailed then Some st
  else match fuel with
  | O => None
  | S fuel =>
      b ← index st !! pindexFailed;
      let st := if fFailedChain then set_chain st (mark_failed (bs_chain st) pindexFailed b)
                else mkBest (bs_chain st) (setBlockIndexCandidates st) (m_blocks_unlinked st ++ [(pprev b, pindexFailed)]) (nBlockSequenceId st) in
      let st := erase st pindexFailed in
      p ← pprev b;
      drop_branch fuel st pindexTest p fFailedChain
  end.
Definition set_best_invalid (st : BestState) (pindexNew : Z) : option BestState :=
  let s := bs_chain st in
  let set bi := mkChainstate (CoinsTip s) (m_chain s) (m_blockman s) (m_undo s) (m_validation_cache s) (Some bi) in
  match m_best_invalid s with
  | None => Some (set_chain st (set pindexNew))
  | Some bi =>
      b ← index st !! pindexNew;
      e ← index st !! bi;
      Some (if gt (nChainWork b) (nChainWork e) then set_chain st (set pindexNew) else st)
  end.
(** [do .. while (true)]: each turn returns or takes out a candidate. *)
Fixpoint FindMostWorkChain_loop (fuel : nat) (st : BestState) : option (BestState * option Z) :=
  match fuel with
  | O => None
  | S fuel =>
      match rbegin addr (index st) (setBlockIndexCandidates st) with
      | None => Some (st, None)
      | Some pindexNew =>
          b ← index st !! pindexNew;
          r ← find_unusable (S (Z.to_nat (nHeight b))) (index st) (m_chain (bs_chain st)) pindexNew;
          match r with
          | None => Some (st, Some pindexNew)
          | Some (pindexTest, fFailedChain) =>
              st ← (if (fFailedChain : bool) then set_best_invalid st pindexNew else Some st);
              st ← drop_branch (S (Z.to_nat (nHeight b))) st pindexTest pindexNew fFailedChain;
              FindMostWorkChain_loop fuel (erase st pindexTest)
          end
      end
  end.
Definition FindMostWorkChain (st : BestState) : option (BestState * option Z) :=
  FindMostWorkChain_loop (S (base.size (setBlockIndexCandidates st))) st.

(** The entries below the tip come first in the order of the set. *)
Definition PruneBlockIndexCandidates (st : BestState) : option BestState :=
  t ← tip st;
  let left := filter (fun h => worse addr (index st) h t = false) (setBlockIndexCandidates st) in
  if bool_decide (left = ∅) then None else Some (mkBest (bs_chain st) left (m_blocks_unlinked st) (nBlockSequenceId st)).

(** ** One step *)

(** The second component is [false] when a block could not be disconnected. *)
Fixpoint disconnect_to (fuel : nat) (s : Chainstate (B := B) (C := C)) (pindexFork : option Z) : option (Chainstate (B := B) (C := C) * bool) :=
  match Tip (m_chain s) with
  | None => Some (s, true)
  | Some t =>
      if bool_decide (pindexFork = Some t) then Some (s, true)
      else match fuel with
      | O => None
      | S fuel =>
          '(s, ok) ← DisconnectTip TxHash read flush (read_ok t) s;
          if (ok : bool) then disconnect_to fuel s pindexFork else Some (s, false)
      end
  end.
(** [vpindexToConnect], in descending order of heights. *)
Fixpoint to_connect (fuel : nat) (m : BlockMap) (pindexIter : option Z) (height : Z) : option (list Z) :=
  match pindexIter with
  | None => Some []
  | Some h =>
      b ← m !! h;
      if nHeight b =? height then Some []
      else match fuel with
      | O => None
      | S fuel => l ← to_connect fuel m (pprev b) height; Some (h :: l)
      end
  end.
(** How the loop over the blocks ends: it goes on, it stops with
    [fContinue = false], with or without an invalid block, or the step returns
    [false]. *)
Inductive Progress := GoOn | Stop (fInvalidFound : bool) | SystemError.
Fixpoint connect_blocks (blocks : list Z) (front pindexMostWork : Z) (oldwork : option (list Z)) (pblock : option CBlock) (st : BestState)
    : option (BestState * Progress) :=
  match blocks with
  | [] => Some (st, GoOn)
  | pindexConnect :: blocks =>
      '(s, o) ← ConnectTip EnableFuzzDeterminism GetHash PoWHash params TxHash WitnessHash Hash2 CacheKey VerifyScript
                  AssumedValidBlock MinimumChainWork HasThreads Complete read flush (undo_io pindexConnect) (bs_chain st) pindexConnect
                  (if pindexConnect =? pindexMostWork then pblock else None);
      let st := set_chain st s in
      match o with
      | Failed => Some (st, SystemError)
      | Rejected BLOCK_MUTATED _ => Some (st, Stop true)
      | Rejected _ _ =>
          let st := erase st pindexConnect in
          s ← InvalidChainFound (bs_chain st) front;
          Some (set_chain st s, Stop true)
      | Connected =>
          st ← PruneBlockIndexCandidates st;
          t ← tip st;
          b ← index st !! t;
          if (match oldwork with None => true | Some w => gt (nChainWork b) w end) then Some (st, Stop false)
          else connect_blocks blocks front pindexMostWork oldwork pblock st
      end
  end.
(** [while (fContinue && nHeight != pindexMostWork->nHeight)] *)
Fixpoint connect_batches (fuel : nat) (height : Z) (pindexMostWork : Z) (oldwork : option (list Z)) (pblock : option CBlock) (st : BestState)
    : option (BestState * Progress) :=
  most ← index st !! pindexMostWork;
  if height =? nHeight most then Some (st, GoOn)
  else match fuel with
  | O => None
  | S fuel =>
      let nTargetHeight := Z.min (height + 32) (nHeight most) in
      iter ← GetAncestor (index st) pindexMostWork nTargetHeight;
      l ← to_connect (Z.to_nat (nTargetHeight - height)) (index st) iter height;
      front ← head l;
      '(st, r) ← connect_blocks (reverse l) front pindexMostWork oldwork pblock st;
      match r with
      | GoOn => connect_batches fuel nTargetHeight pindexMostWork oldwork pblock st
      | _ => Some (st, r)
      end
  end.
(** The result: [false] for a system error, and [fInvalidFound]. *)
Definition ActivateBestChainStep (st : BestState) (pindexMostWork : Z) (pblock : option CBlock) : option (BestState * bool * bool) :=
  let pindexOldTip := tip st in
  oldwork ← (match pindexOldTip with Some t => b ← index st !! t; Some (Some (nChainWork b)) | None => Some None end);
  pindexFork ← FindFork (index st) (m_chain (bs_chain st)) (Some pindexMostWork);
  '(s, ok) ← disconnect_to (length (m_chain (bs_chain st))) (bs_chain st) pindexFork;
  let st := set_chain st s in
  if negb ok then Some (st, false, false)
  else
    height ← (match pindexFork with Some f => b ← index st !! f; Some (nHeight b) | None => Some (-1) end);
    most ← index st !! pindexMostWork;
    '(st, r) ← connect_batches (Z.to_nat (nHeight most - height)) height pindexMostWork oldwork pblock st;
    Some (match r with
          | SystemError => (st, false, false)
          | Stop inv => (st, true, inv)
          | GoOn => (st, true, false)
          end).

(** ** Activation *)

(** The inner loop; [most] is [pindexMostWork] and [newtip] is [pindexNewTip].
    The results: the state, [most], [newtip], [blocks_connected], and [false]
    when the step failed. *)
Fixpoint activate_inner (fuel : nat) (starting_tip : option Z) (pblock : option CBlock) (st : BestState) (most newtip : option Z) (connected : bool)
    : option (BestState * option Z * option Z * bool * bool) :=
  match fuel with
  | O => None
  | S fuel =>
      '(st, most) ← (match most with None => FindMostWorkChain st | Some _ => Some (st, most) end);
      match most with
      | None => Some (st, most, newtip, connected, true)
      | Some mw =>
          if bool_decide (tip st = Some mw) then Some (st, most, newtip, connected, true)
          else
            b ← index st !! mw;
            hash ← phashBlock b;
            let given := match pblock with Some block => if GetHash (header block) =? hash then pblock else None | None => None end in
            '(st, ok, fInvalidFound) ← ActivateBestChainStep st mw given;
            if negb ok then Some (st, most, newtip, connected, false)
            else
              let most := if (fInvalidFound : bool) then None else most in
              let newtip := tip st in
              match tip st with
              | None => activate_inner fuel starting_tip pblock st most newtip true
              | Some t =>
                  if (match starting_tip with Some t0 => worse addr (index st) t t0 | None => false end)
                  then activate_inner fuel starting_tip pblock st most newtip true
                  else Some (st, most, newtip, true, true)
              end
      end
  end.
(** [FlushStateToDisk(state, FlushStateMode::PERIODIC)]. *)
Definition periodic_flush (st : BestState) : option BestState :=
  let s := bs_chain st in
  c ← flush (CoinsTip s);
  Some (set_chain st (mkChainstate c (m_chain s) (m_blockman s) (m_undo s) (m_validation_cache s) (m_best_invalid s))).
Fixpoint activate_outer (fuel : nat) (pblock : option CBlock) (st : BestState) (most newtip : option Z) : option (BestState * bool) :=
  match fuel with
  | O => None
  | S fuel =>
      '(st, most, newtip, blocks_connected, ok) ← activate_inner fuel (tip st) pblock st most newtip false;
      if negb ok then Some (st, false)
      else if negb blocks_connected then Some (st, true)
      else
        match periodic_flush st with
        | None => Some (st, false)
        | Some st => if bool_decide (newtip = most) then Some (st, true) else activate_outer fuel pblock st most newtip
        end
  end.
Definition ActivateBestChain (fuel : nat) (pblock : option CBlock) (st : BestState) : option (BestState * bool) :=
  activate_outer fuel pblock st None None.
End Best.
Arguments mkBest {B C}.
Arguments bs_chain {B C}.
Arguments setBlockIndexCandidates {B C}.
Arguments m_blocks_unlinked {B C}.
Arguments nBlockSequenceId {B C}.

(** ** What the operations keep of the entries *)

Definition failed (b : CBlockIndex) : bool := negb (Z.land (nStatus b) BLOCK_FAILED_VALID =? 0).
Definition have_data (b : CBlockIndex) : bool := negb (Z.land (nStatus b) BLOCK_HAVE_DATA =? 0).
Lemma failed_testbit b : failed b = Z.testbit (nStatus b) 5.
Proof. exact (land_flag (nStatus b) 5 ltac:(lia)). Qed.
Lemma have_data_testbit b : have_data b = Z.testbit (nStatus b) 3.
Proof. exact (land_flag (nStatus b) 3 ltac:(lia)). Qed.

(** The header was accepted. *)
Definition in_tree (b : CBlockIndex) : bool := BLOCK_VALID_TREE <=? Z.land (nStatus b) BLOCK_VALID_MASK.
Lemma in_tree_lor b b' flag : nStatus b' = Z.lor (nStatus b) flag -> Z.land flag BLOCK_VALID_MASK = 0 -> in_tree b' = in_tree b.
Proof. intros E Hf. unfold in_tree. rewrite E, Z.land_lor_distr_l, Hf, Z.lor_0_r. reflexivity. Qed.
Lemma in_tree_raised b v : Z.land v BLOCK_VALID_MASK = v ->
  Z.land (nStatus (set_status b (Z.lor (Z.land (nStatus b) (u32 (Z.lnot BLOCK_VALID_MASK))) v))) BLOCK_VALID_MASK = v.
Proof.
  intros Hv. cbn [nStatus set_status]. rewrite Z.land_lor_distr_l, <- Z.land_assoc. change (Z.land (u32 (Z.lnot BLOCK_VALID_MASK)) BLOCK_VALID_MASK) with 0.
  rewrite Z.land_0_r, Z.lor_0_l. exact Hv.
Qed.

(** The same block in the same place; it may have failed or gained undo data. *)
Record entry_keeps (b b' : CBlockIndex) : Prop := {
  ek_links : same_links b b';
  ek_seq : nSequenceId b' = nSequenceId b;
  ek_txs : m_chain_tx_count b' = m_chain_tx_count b;
  ek_data : have_data b' = have_data b;
  ek_failed : failed b = true -> failed b' = true;
  ek_undo : has_undo b = true -> has_undo b' = true;
  ek_ntx : nTx b' = nTx b;
  ek_tree : in_tree b = true -> in_tree b' = true
}.
Definition index_keeps (m m' : BlockMap) : Prop :=
  (forall h b, m !! h = Some b -> exists b', m' !! h = Some b' /\ entry_keeps b b') /\ forall h, is_Some (m' !! h) -> is_Some (m !! h).
Lemma entry_keeps_refl b : entry_keeps b b.
Proof. split; auto. apply same_links_refl. Qed.
Lemma entry_keeps_trans b b' b'' : entry_keeps b b' -> entry_keeps b' b'' -> entry_keeps b b''.
Proof. intros [H1 H2 H3 H4 H5 H6 H7 H8] [G1 G2 G3 G4 G5 G6 G7 G8]. split; try congruence; auto. eapply same_links_trans; eassumption. Qed.
Lemma index_keeps_refl m : index_keeps m m.
Proof. split; [|auto]. intros h b E. exists b. split; [exact E|apply entry_keeps_refl]. Qed.
Lemma index_keeps_trans m m' m'' : index_keeps m m' -> index_keeps m' m'' -> index_keeps m m''.
Proof.
  intros [H1 H2] [G1 G2]. split; [|auto]. intros h b E. destruct (H1 h b E) as (b' & E' & K). destruct (G1 h b' E') as (b'' & E'' & K').
  exists b''. split; [exact E''|eapply entry_keeps_trans; eassumption].
Qed.
Lemma index_keeps_insert m h b b' : m !! h = Some b -> entry_keeps b b' -> index_keeps m (<[h := b']> m).
Proof.
  intros E K. split.
  - intros k e Ek. destruct (decide (k = h)) as [->|Hne].
    + rewrite E in Ek. injection Ek as <-. exists b'. rewrite lookup_insert_eq. auto.
    + exists e. rewrite lookup_insert_ne by congruence. split; [exact Ek|apply entry_keeps_refl].
  - intros k. destruct (decide (k = h)) as [->|Hne]; [rewrite E; eauto|]. rewrite lookup_insert_ne by congruence. auto.
Qed.
Lemma index_keeps_same m m' : index_keeps m m' -> index_same m m'.
Proof. intros [H1 H2]. split; [|exact H2]. intros h b E. destruct (H1 h b E) as (b' & E' & [K1 _ _ _ _ K6]). eauto. Qed.
Lemma index_keeps_back m m' h b' : index_keeps m m' -> m' !! h = Some b' -> exists b, m !! h = Some b /\ entry_keeps b b'.
Proof.
  intros [H1 H2] E. destruct (H2 h) as [b Eb]; [eauto|]. destruct (H1 h b Eb) as (b1 & E1 & K). rewrite E in E1. injection E1 as <-. eauto.
Qed.

Lemma set_failed_keeps b : entry_keeps b (set_failed b) /\ failed (set_failed b) = true.
Proof.
  destruct (set_failed_links b) as [H1 H2]. split.
  - split; try reflexivity; try assumption; [|intros _|congruence|rewrite (in_tree_lor b (set_failed b) _ eq_refl eq_refl); auto].
    + rewrite !have_data_testbit. cbn [nStatus set_failed set_status]. rewrite Z.lor_spec. change (Z.testbit BLOCK_FAILED_VALID 3) with false. apply orb_false_r.
    + rewrite failed_testbit. cbn [nStatus set_failed set_status]. rewrite Z.lor_spec. change (Z.testbit BLOCK_FAILED_VALID 5) with true. apply orb_true_r.
  - rewrite failed_testbit. cbn [nStatus set_failed set_status]. rewrite Z.lor_spec. change (Z.testbit BLOCK_FAILED_VALID 5) with true. apply orb_true_r.
Qed.
Lemma RaiseValidity_keeps b b' r : RaiseValidity b BLOCK_VALID_SCRIPTS = Some (b', r) -> entry_keeps b b' /\ failed b' = failed b.
Proof.
  intros E. destruct (RaiseValidity_links b _ b' r E eq_refl) as [H1 H2]. revert E. unfold RaiseValidity. change (negb _) with false at 1. cbv iota.
  destruct (negb _); [intros [= <- _]; split; [apply entry_keeps_refl|reflexivity]|].
  destruct (_ <? _); intros [= <- _]; [|split; [apply entry_keeps_refl|reflexivity]].
  assert (Hf : failed (set_status b (Z.lor (Z.land (nStatus b) (u32 (Z.lnot BLOCK_VALID_MASK))) BLOCK_VALID_SCRIPTS)) = failed b).
  { rewrite !failed_testbit. cbn [nStatus set_status]. rewrite Z.lor_spec, Z.land_spec. change (Z.testbit (u32 (Z.lnot BLOCK_VALID_MASK)) 5) with true.
    change (Z.testbit BLOCK_VALID_SCRIPTS 5) with false. rewrite andb_true_r, orb_false_r. reflexivity. }
  split; [|exact Hf]. split; try reflexivity; try assumption; [|congruence|congruence|intros _; unfold in_tree; rewrite in_tree_raised; reflexivity].
  - rewrite !have_data_testbit. cbn [nStatus set_status]. rewrite Z.lor_spec, Z.land_spec. change (Z.testbit (u32 (Z.lnot BLOCK_VALID_MASK)) 3) with true.
    change (Z.testbit BLOCK_VALID_SCRIPTS 3) with false. rewrite andb_true_r, orb_false_r. reflexivity.
Qed.
Lemma set_undo_keeps b pos : entry_keeps b (set_undo b pos) /\ failed (set_undo b pos) = failed b.
Proof.
  assert (Hf : failed (set_undo b pos) = failed b).
  { rewrite !failed_testbit. cbn [nStatus set_undo]. rewrite Z.lor_spec. change (Z.testbit BLOCK_HAVE_UNDO 5) with false. apply orb_false_r. }
  split; [|exact Hf]. split; try reflexivity; [repeat split| |congruence| |rewrite (in_tree_lor b (set_undo b pos) _ eq_refl eq_refl); auto].
  - rewrite !have_data_testbit. cbn [nStatus set_undo]. rewrite Z.lor_spec. change (Z.testbit BLOCK_HAVE_UNDO 3) with false. apply orb_false_r.
  - rewrite !has_undo_testbit. cbn [nStatus set_undo]. rewrite Z.lor_spec. intros ->. reflexivity.
Qed.
Lemma SetBlockFailureFlags_keeps s h : index_keeps (m_block_index s) (m_block_index (SetBlockFailureFlags s h)).
Proof.
  split; cbn.
  - intros k b E. rewrite map_lookup_imap, E. cbn. destruct (is_descendant _ _ _); eexists; (split; [reflexivity|]);
      [apply set_failed_keeps|apply entry_keeps_refl].
  - intros k. rewrite map_lookup_imap. destruct (m_block_index s !! k); [eauto|]. intros []. discriminate.
Qed.

(** Undo data is not added. *)
Definition undo_keeps (m m' : BlockMap) : Prop := forall h b', m' !! h = Some b' -> has_undo b' = true -> exists b, m !! h = Some b /\ has_undo b = true.
Lemma undo_keeps_refl m : undo_keeps m m.
Proof. intros h b E H. eauto. Qed.
Lemma undo_keeps_trans m m' m'' : undo_keeps m m' -> undo_keeps m' m'' -> undo_keeps m m''.
Proof. intros H H' h b E Hb. destruct (H' h b E Hb) as (b' & E' & Hb'). apply (H h b' E' Hb'). Qed.
Lemma undo_keeps_failed m h b : m !! h = Some b -> undo_keeps m (<[h := set_failed b]> m).
Proof.
  intros E k b' Ek Hb. destruct (decide (k = h)) as [->|Hne].
  - rewrite lookup_insert_eq in Ek. injection Ek as <-. exists b. split; [exact E|]. rewrite <- (proj2 (set_failed_links b)). exact Hb.
  - rewrite lookup_insert_ne in Ek by congruence. eauto.
Qed.
Lemma SetBlockFailureFlags_undo s h : undo_keeps (m_block_index s) (m_block_index (SetBlockFailureFlags s h)).
Proof.
  intros k b'. cbn. rewrite map_lookup_imap. destruct (m_block_index s !! k) as [b|]; [|discriminate]. cbn. intros [= <-] Hb. exists b. split; [reflexivity|].
  destruct (is_descendant _ _ _); [|exact Hb]. rewrite <- (proj2 (set_failed_links b)). exact Hb.
Qed.
(** At most the entry of [x] changed, and it did not fail. *)
Definition entry_grows (m : BlockMap) (x : Z) (m' : BlockMap) : Prop :=
  m' = m \/ exists b b', m !! x = Some b /\ m' = <[x := b']> m /\ entry_keeps b b' /\ failed b' = failed b.
Lemma entry_grows_keeps m x m' : entry_grows m x m' -> index_keeps m m'.
Proof. intros [-> |(b & b' & E & -> & K & _)]; [apply index_keeps_refl|eapply index_keeps_insert; eassumption]. Qed.
Lemma entry_grows_failed m x m' h b b' : entry_grows m x m' -> m !! h = Some b -> m' !! h = Some b' -> failed b' = failed b.
Proof.
  intros [-> |(b0 & b1 & E & -> & K & Hf)] E1 E2; [congruence|]. destruct (decide (h = x)) as [->|Hne].
  - rewrite lookup_insert_eq in E2. congruence.
  - rewrite lookup_insert_ne in E2 by congruence. congruence.
Qed.
Lemma entry_grows_undo m x m' h b' : entry_grows m x m' -> m' !! h = Some b' -> has_undo b' = true -> h = x \/ exists b, m !! h = Some b /\ has_undo b = true.
Proof.
  intros [-> |(b0 & b1 & E & -> & K & Hf)] E2 Hb; [eauto|]. destruct (decide (h = x)) as [->|Hne]; [auto|].
  rewrite lookup_insert_ne in E2 by congruence. eauto.
Qed.

Section BlockKeeps.
Context {B : Type} `{!CCoinsView B} {C : Type} `{!ElementCache C}.
Context (EnableFuzzDeterminism : bool) (GetHash : CBlockHeader -> Z) (PoWHash : CBlockHeader -> Params -> Z) (params : Params).
Context (TxHash WitnessHash : CTransaction -> Z) (Hash2 CacheKey : Z -> Z -> Z).
Context (VerifyScript : CScript -> CScript -> list (list Z) -> Z -> CTransaction -> nat -> Z -> list CTxOut -> option string).
Context (AssumedValidBlock : Z) (MinimumChainWork : list Z) (HasThreads : bool) (Complete : list CScriptCheck -> option string).
Lemma connect_transactions_state m pindex b lf flags fsc fJustCheck txs : forall i st st',
  connect_transactions params TxHash WitnessHash CacheKey VerifyScript (B := B) (C := C) m pindex b lf flags fsc fJustCheck i txs st = Some st' ->
  (forall reason, lp_state st <> Invalid BLOCK_MUTATED reason) -> forall reason, lp_state st' <> Invalid BLOCK_MUTATED reason.
Proof.
  induction txs as [|tx txs IH]; intros i st st'; cbn [connect_transactions]; [intros [= <-]; auto|].
  destruct (lp_state st) as [|r0 reason0] eqn:El; [|intros [= <-]; rewrite El; auto].
  destruct (connect_transaction _ _ _ _ _ _ _ _ _ _ _ _ _ _ _) as [st1|] eqn:E1; [|discriminate]. cbn [mbind option_bind]. intros E _.
  apply (IH _ _ _ E). revert E1. unfold connect_transaction.
  repeat match goal with
  | |- (?x ≫= _) = _ -> _ => destruct x as [?|]; [|discriminate]; cbn [mbind option_bind]
  | |- (let (_, _) := ?x in _) = _ -> _ => destruct x as [? ?]
  | |- (match ?x with inl _ => _ | inr _ => _ end) = _ -> _ => destruct x
  | |- (if ?x then _ else _) = _ -> _ => destruct x
  | |- (match ?x with TxValid => _ | TxInvalid _ _ => _ end) = _ -> _ => destruct x
  end; intros [= <-]; cbn; congruence.
Qed.
Abbreviation corrupt := (corrupt EnableFuzzDeterminism GetHash PoWHash params TxHash Hash2).
Lemma ConnectBlock_keeps cs pindex b undo_io cs' o :
  m_block_index (cs_man cs) !! pindex = Some b ->
  ConnectBlock EnableFuzzDeterminism GetHash PoWHash params TxHash WitnessHash Hash2 CacheKey VerifyScript
    AssumedValidBlock MinimumChainWork HasThreads Complete (B := B) (C := C) cs pindex false undo_io = Some (cs', o) ->
  entry_grows (m_block_index (cs_man cs)) pindex (m_block_index (cs_man cs')) /\
  (forall r reason, o = Rejected r reason -> r <> BLOCK_MUTATED /\ cs_man cs' = cs_man cs) /\
  (o = Failed -> is_Some undo_io -> corrupt (cs_block cs)).
Proof.
  intros Eb. unfold ConnectBlock. rewrite Eb. cbn [mbind option_bind]. destruct (phashBlock b) as [hash|]; [|discriminate]. cbn [mbind option_bind].
  destruct (negb _); [discriminate|]. cbn [negb]. destruct (CheckBlock _ _ _ _ _ _ _ _ _) as [[block v]|] eqn:Ecb; [|discriminate]. cbn [mbind option_bind].
  assert (Hsame : forall (cs1 : ConnectState (B := B) (C := C)) o1, cs_man cs1 = cs_man cs -> o1 <> Failed \/ undo_io = None \/ corrupt (cs_block cs) ->
    (forall reason, o1 <> Rejected BLOCK_MUTATED reason) ->
    entry_grows (m_block_index (cs_man cs)) pindex (m_block_index (cs_man cs1)) /\
    (forall r reason, o1 = Rejected r reason -> r <> BLOCK_MUTATED /\ cs_man cs1 = cs_man cs) /\ (o1 = Failed -> is_Some undo_io -> corrupt (cs_block cs))).
  { intros cs1 o1 -> Hf Hr. split; [left; reflexivity|]. split; [|intros -> [? ?]; destruct Hf as [|[|]]; congruence || assumption].
    intros r reason ->. split; [intros ->; exact (Hr reason eq_refl)|reflexivity]. }
  destruct v as [|r reason].
  2: { destruct r; intros [= <- <-]; apply Hsame; try reflexivity; try discriminate; try (left; discriminate). right. right. eexists _, _. exact Ecb. }
  match goal with |- (?x ≫= _) = _ -> _ => destruct x as [hp|]; [|discriminate] end. cbn [mbind option_bind].
  destruct (cache_GetBestBlock _) as [c best]. destruct (negb _); [discriminate|]. destruct (_ =? _).
  { intros [= <- <-]. apply Hsame; [reflexivity|left; discriminate|discriminate]. }
  unfold connect_checked. cbv zeta. cbn [cs_block cs_man cs_view cs_undos cs_cache].
  repeat match goal with
  | |- (connect_transactions _ _ _ _ _ _ _ _ _ _ _ _ _ _ _ ≫= _) = _ -> _ => fail 1
  | |- (?x ≫= _) = _ -> _ => destruct x as [?|]; [|discriminate]; cbn [mbind option_bind]
  | |- (let (_, _) := ?x in _) = _ -> _ => destruct x as [? ?] end.
  match goal with |- (?x ≫= _) = _ -> _ => destruct x as [st|] eqn:Ect; [|discriminate] end. cbn [mbind option_bind].
  assert (Hst : forall reason, lp_state st <> Invalid BLOCK_MUTATED reason).
  { apply (connect_transactions_state _ _ _ _ _ _ _ _ _ _ _ Ect). intros reason. cbn. match goal with |- (if ?x then _ else _) <> _ => destruct x; discriminate end. }
  repeat match goal with |- (?x ≫= _) = _ -> _ => destruct x as [?|]; [|discriminate]; cbn [mbind option_bind] end.
  match goal with |- (match ?v with Valid => _ | Invalid _ _ => _ end) = _ -> _ => assert (Hv : forall reason, v <> Invalid BLOCK_MUTATED reason) end.
  { intros reason. destruct (lp_state st) as [|r0 reason0]; [|destruct (match lp_checks st with Some l => Complete l | None => None end); apply Hst].
    destruct (_ >? _); destruct (match lp_checks st with Some l => Complete l | None => None end); discriminate. }
  match goal with |- (match ?v with Valid => _ | Invalid _ _ => _ end) = _ -> _ => destruct v as [|r reason] end.
  2: { intros [= <- <-]. apply Hsame; [reflexivity|left; discriminate|]. intros reason' [= -> ->]. exact (Hv _ eq_refl). }
  match goal with |- context [WriteBlockUndo ?a1 ?a2 ?a3 ?a4 ?a5 ?a6] => destruct (WriteBlockUndo a1 a2 a3 a4 a5 a6) as [undos written] eqn:Ew end.
  destruct written as [[sw bw]|].
  2: { intros [= <- <-]. apply Hsame; [reflexivity| |discriminate]. right. left. unfold WriteBlockUndo in Ew. destruct (_ =? 0); [|discriminate].
       destruct undo_io; [discriminate|reflexivity]. }
  assert (Kw : m_block_index sw = <[pindex := bw]> (m_block_index (cs_man cs)) /\ entry_keeps b bw /\ failed bw = failed b).
  { unfold WriteBlockUndo in Ew. destruct (_ =? 0).
    - destruct undo_io as [pos|]; [|discriminate]. injection Ew as _ <- <-. split; [reflexivity|apply set_undo_keeps].
    - injection Ew as _ <- <-. split; [symmetry; apply insert_id, Eb|split; [apply entry_keeps_refl|reflexivity]]. }
  destruct Kw as (Ks & Kw & Hfw). destruct (IsValid bw BLOCK_VALID_SCRIPTS) as [valid|]; [|discriminate]. cbn [mbind option_bind]. destruct valid; cbn [negb mbind option_bind].
  - intros [= <- <-]. split; [|split; discriminate]. cbn. rewrite Ks. right. exists b, bw. auto.
  - destruct (RaiseValidity bw BLOCK_VALID_SCRIPTS) as [[br rr]|] eqn:Er; [|discriminate]. cbn [mbind option_bind]. apply RaiseValidity_keeps in Er as [Er Hfr].
    intros [= <- <-]. split; [|split; discriminate]. cbn. rewrite Ks, insert_insert_eq. right. exists b, br. split; [exact Eb|]. split; [reflexivity|].
    split; [exact (entry_keeps_trans _ _ _ Kw Er)|congruence].
Qed.
End BlockKeeps.

Section Keeps.
Context {B : Type} `{!CCoinsView B} {C : Type} `{!ElementCache C}.
Context (EnableFuzzDeterminism : bool) (GetHash : CBlockHeader -> Z) (PoWHash : CBlockHeader -> Params -> Z) (params : Params).
Context (TxHash WitnessHash : CTransaction -> Z) (Hash2 CacheKey : Z -> Z -> Z).
Context (VerifyScript : CScript -> CScript -> list (list Z) -> Z -> CTransaction -> nat -> Z -> list CTxOut -> option string).
Context (AssumedValidBlock : Z) (MinimumChainWork : list Z) (HasThreads : bool) (Complete : list CScriptCheck -> option string).
Implicit Type s : Chainstate (B := B) (C := C).

Lemma InvalidChainFound_keeps s h s' :
  InvalidChainFound s h = Some s' ->
  index_keeps (m_block_index (m_blockman s)) (m_block_index (m_blockman s')) /\ undo_keeps (m_block_index (m_blockman s)) (m_block_index (m_blockman s')).
Proof.
  unfold InvalidChainFound. cbv zeta. destruct (m_block_index (m_blockman s) !! h) as [b|]; [|discriminate]. cbn [mbind option_bind].
  match goal with |- (?x ≫= _) = _ -> _ => destruct x as [bi|]; [|discriminate] end. cbn [mbind option_bind].
  pose proof (conj (SetBlockFailureFlags_keeps (m_blockman s) h) (SetBlockFailureFlags_undo (m_blockman s) h)) as K. set (man := SetBlockFailureFlags (m_blockman s) h) in *.
  destruct (m_best_header man) as [bh|]; cbn [mbind option_bind].
  - destruct (GetAncestor _ _ _) as [a|]; [|discriminate]. cbn [mbind option_bind]. destruct (Tip (m_chain s)); [|discriminate]. cbn [mbind option_bind].
    intros [= <-]. cbn. destruct (bool_decide _); exact K.
  - destruct (Tip (m_chain s)); [|discriminate]. cbn [mbind option_bind]. intros [= <-]. exact K.
Qed.
Lemma InvalidBlockFound_keeps s h r s' :
  InvalidBlockFound s h r = Some s' ->
  index_keeps (m_block_index (m_blockman s)) (m_block_index (m_blockman s')) /\ undo_keeps (m_block_index (m_blockman s)) (m_block_index (m_blockman s')) /\
  (r <> BLOCK_MUTATED -> exists b, m_block_index (m_blockman s') !! h = Some b /\ failed b = true).
Proof.
  intros E.
  assert (H : (b ← m_block_index (m_blockman s) !! h;
      InvalidChainFound (mkChainstate (CoinsTip s) (m_chain s) (put_index (m_blockman s) h (set_failed b)) (m_undo s)
                           (m_validation_cache s) (m_best_invalid s)) h) = Some s' ->
      index_keeps (m_block_index (m_blockman s)) (m_block_index (m_blockman s')) /\ undo_keeps (m_block_index (m_blockman s)) (m_block_index (m_blockman s')) /\
      (r <> BLOCK_MUTATED -> exists b, m_block_index (m_blockman s') !! h = Some b /\ failed b = true)).
  { destruct (m_block_index (m_blockman s) !! h) as [b|] eqn:Eb; [|discriminate]. cbn [mbind option_bind]. intros E'. apply InvalidChainFound_keeps in E' as [E' U'].
    cbn [m_blockman put_index m_block_index] in E', U'. destruct (set_failed_keeps b) as [K1 K2].
    split; [eapply index_keeps_trans; [exact (index_keeps_insert _ h b _ Eb K1)|exact E']|].
    split; [eapply undo_keeps_trans; [exact (undo_keeps_failed _ h b Eb)|exact U']|]. intros _.
    destruct (proj1 E' h (set_failed b)) as (b' & Eb' & K'); [apply lookup_insert_eq|]. exists b'. split; [exact Eb'|apply (ek_failed _ _ K' K2)]. }
  destruct r; try exact (H E). injection E as <-. split; [apply index_keeps_refl|]. split; [apply undo_keeps_refl|congruence].
Qed.

Abbreviation connectTip := (ConnectTip EnableFuzzDeterminism GetHash PoWHash params TxHash WitnessHash Hash2 CacheKey VerifyScript
  AssumedValidBlock MinimumChainWork HasThreads Complete (B := B) (C := C)).
Lemma ConnectTip_keeps read flush undo_io s h given s' o :
  connectTip read flush undo_io s h given = Some (s', o) ->
  let m := m_block_index (m_blockman s) in
  let m' := m_block_index (m_blockman s') in
  match o with
  | Rejected r _ => index_keeps m m' /\ undo_keeps m m' /\ r <> BLOCK_MUTATED /\ exists b, m' !! h = Some b /\ failed b = true
  | Connected => entry_grows m h m'
  | Failed => is_Some undo_io -> (forall c, is_Some (flush c)) ->
      forall block, (match given with Some block => Some block | None => read h end) = Some block ->
      corrupt EnableFuzzDeterminism GetHash PoWHash params TxHash Hash2 block
  end.
Proof.
  unfold ConnectTip. destruct (m_block_index (m_blockman s) !! h) as [b|] eqn:Eb; [|discriminate]. cbn [mbind option_bind].
  destruct (negb _); [discriminate|]. destruct (match given with Some block => Some block | None => read h end) as [block|].
  2: { intros [= <- <-]. cbv zeta. discriminate. }
  destruct (ConnectBlock _ _ _ _ _ _ _ _ _ _ _ _ _ _ _ _ _) as [[cs o1]|] eqn:Ec; [|discriminate]. cbn [mbind option_bind].
  apply (ConnectBlock_keeps _ _ _ _ _ _ _ _ _ _ _ _ _ _ h b) in Ec as (K & Hr & Hf); [|exact Eb]. cbn [cs_man cs_block] in K, Hr, Hf. destruct o1 as [|r reason|].
  - destruct (Flush _) as [view|]; [|discriminate]. cbn [mbind option_bind]. destruct (flush _) as [c|] eqn:Ef.
    + destruct (SetTip _ _ _); [|discriminate]. cbn [mbind option_bind]. intros [= <- <-]. exact K.
    + intros [= <- <-]. cbv zeta. intros _ Hall. destruct (Hall (base view)) as [c Hc]. congruence.
  - destruct (InvalidBlockFound _ h r) as [s1|] eqn:Ei; [|discriminate]. cbn [mbind option_bind]. intros [= <- <-]. destruct (Hr _ _ eq_refl) as [Hm Hman].
    apply InvalidBlockFound_keeps in Ei as (K2 & U2 & Hfa). cbn [m_blockman] in K2, U2. rewrite Hman in K2, U2. split; [exact K2|]. split; [exact U2|]. split; [exact Hm|exact (Hfa Hm)].
  - intros [= <- <-]. cbv zeta. intros Hu _ block' [= <-]. exact (Hf eq_refl Hu).
Qed.
Lemma DisconnectTip_man read flush read_ok s s' r : DisconnectTip TxHash read flush read_ok s = Some (s', r) -> m_blockman s' = m_blockman s.
Proof.
  unfold DisconnectTip. cbv zeta. destruct (Tip (m_chain s)) as [t|]; [|discriminate]. cbn [mbind option_bind].
  destruct (m_block_index (m_blockman s) !! t) as [b|]; [|discriminate]. cbn [mbind option_bind]. destruct (pprev b) as [p|]; [|discriminate]. cbn [mbind option_bind].
  destruct (read t) as [block|]; [|intros [= <- _]; reflexivity]. destruct (phashBlock b) as [hash|]; [|discriminate]. cbn [mbind option_bind].
  destruct (cache_GetBestBlock _) as [view best]. destruct (negb _); [discriminate|]. destruct (DisconnectBlock _ _ _ _ _ _) as [[view1 res]|]; [|discriminate].
  cbn [mbind option_bind]. destruct res; try (intros [= <- _]; reflexivity). destruct (Flush view1) as [view2|]; [|discriminate]. cbn [mbind option_bind].
  destruct (flush _) as [c|]; [|intros [= <- _]; reflexivity]. destruct (SetTip _ _ _); [|discriminate]. cbn [mbind option_bind]. intros [= <- _]. reflexivity.
Qed.
End Keeps.

(** ** The order of the candidates *)

Lemma nth_prev_keeps m m' h n : index_keeps m m' -> nth_prev m' h n = nth_prev m h n.
Proof.
  intros K. revert h. induction n as [|n IH]; intros h; cbn [nth_prev]; [reflexivity|].
  destruct (m !! h) as [b|] eqn:E.
  - destruct (proj1 K h b E) as (b' & -> & [(_ & L2 & _) _ _ _ _ _]). cbn [mbind option_bind]. rewrite L2. destruct (pprev b); [apply IH|reflexivity].
  - destruct (m' !! h) as [b'|] eqn:E'; [|reflexivity]. destruct (proj2 K h) as [b Eb]; [eauto|]. congruence.
Qed.
Lemma is_ancestor_keeps m m' x h : index_keeps m m' -> is_ancestor m' x h <-> is_ancestor m x h.
Proof. intros K. split; intros [n Hn]; exists n; [rewrite <- (nth_prev_keeps m m')|rewrite (nth_prev_keeps m m')]; assumption. Qed.
Lemma is_ancestor_refl m h : is_ancestor m h h.
Proof. exists 0%nat. reflexivity. Qed.
Lemma is_ancestor_trans m x y h : is_ancestor m x y -> is_ancestor m y h -> is_ancestor m x h.
Proof. intros [i Hi] [j Hj]. exists (j + i)%nat. rewrite nth_prev_add, Hj. exact Hi. Qed.
Lemma is_ancestor_prev m h b p : m !! h = Some b -> pprev b = Some p -> is_ancestor m p h.
Proof. intros E Ep. exists 1%nat. rewrite (nth_prev_S m h b p 0 E Ep). reflexivity. Qed.
Lemma is_ancestor_cases m x h b : m !! h = Some b -> is_ancestor m x h -> x = h \/ exists p, pprev b = Some p /\ is_ancestor m x p.
Proof.
  intros E [[|n] Hn]; [injection Hn as <-; auto|]. right. cbn [nth_prev] in Hn. rewrite E in Hn. cbn [mbind option_bind] in Hn.
  destruct (pprev b) as [p|]; [|discriminate]. exists p. split; [reflexivity|]. exists n. exact Hn.
Qed.

(** Total work does not wrap around. *)
Definition works_grow (m : BlockMap) : Prop :=
  forall h b p pb, m !! h = Some b -> pprev b = Some p -> m !! p = Some pb -> val (nChainWork pb) < val (nChainWork b).
Lemma works_grow_keeps m m' : index_keeps m m' -> works_grow m -> works_grow m'.
Proof.
  intros K H h b p pb E Ep Epb. destruct (index_keeps_back _ _ _ _ K E) as (b0 & E0 & [(_ & L2 & _ & _ & L5 & _) _ _ _ _ _]).
  destruct (index_keeps_back _ _ _ _ K Epb) as (pb0 & Epb0 & [(_ & _ & _ & _ & G5 & _) _ _ _ _ _]). rewrite L5, G5. apply (H h b0 p pb0 E0); congruence.
Qed.

Section Order.
Context (addr : Z -> Z).

Lemma worse_keeps m m' x y : index_keeps m m' -> is_Some (m !! x) -> is_Some (m !! y) -> worse addr m' x y = worse addr m x y.
Proof.
  intros K [a Ea] [b Eb]. destruct (proj1 K x a Ea) as (a' & Ea' & [(_ & _ & _ & _ & A5 & _) A _ _ _ _]).
  destruct (proj1 K y b Eb) as (b' & Eb' & [(_ & _ & _ & _ & B5 & _) B' _ _ _ _]).
  unfold worse, CBlockIndexWorkComparator. rewrite Ea, Eb, Ea', Eb'. cbn [mbind option_bind]. rewrite A5, B5, A, B'. reflexivity.
Qed.

Context (m : BlockMap) (Hm : index_ok m).
Lemma worse_spec x y a b :
  m !! x = Some a -> m !! y = Some b ->
  worse addr m x y = true <->
  val (nChainWork a) < val (nChainWork b) \/
  (val (nChainWork a) = val (nChainWork b) /\ (nSequenceId b < nSequenceId a \/ (nSequenceId b = nSequenceId a /\ addr y < addr x))).
Proof using Hm.
  intros Ea Eb. unfold worse, CBlockIndexWorkComparator. rewrite Ea, Eb. cbn [mbind option_bind].
  pose proof (work_ok m x a Hm Ea) as La. pose proof (work_ok m y b Hm Eb) as Lb. rewrite (gt_spec _ _ La Lb), (CompareTo_spec _ _ La Lb).
  rewrite bool_decide_eq_true. rewrite !Z.gtb_ltb. set (va := val (nChainWork a)). set (vb := val (nChainWork b)).
  destruct (Z.ltb_spec vb va); [split; [discriminate|lia]|].
  destruct (Z.ltb_spec va vb); [change (-1 <? 0) with true; cbv iota; split; [lia|reflexivity]|]. change (0 <? 0) with false. cbv iota.
  destruct (Z.ltb_spec (nSequenceId a) (nSequenceId b)); [split; [discriminate|lia]|].
  destruct (Z.ltb_spec (nSequenceId b) (nSequenceId a)); [split; [lia|reflexivity]|].
  destruct (Z.ltb_spec (addr x) (addr y)); [split; [discriminate|lia]|].
  destruct (Z.ltb_spec (addr y) (addr x)); split; try reflexivity; try discriminate; lia.
Qed.
Lemma worse_irrefl x a : m !! x = Some a -> worse addr m x x = false.
Proof using Hm. intros Ea. apply not_true_iff_false. rewrite (worse_spec x x a a Ea Ea). lia. Qed.
Lemma worse_trans x y z :
  is_Some (m !! x) -> is_Some (m !! y) -> is_Some (m !! z) -> worse addr m x y = true -> worse addr m y z = true -> worse addr m x z = true.
Proof using Hm. intros [a Ea] [b Eb] [c Ec]. rewrite (worse_spec x y a b Ea Eb), (worse_spec y z b c Eb Ec), (worse_spec x z a c Ea Ec). lia. Qed.
(** Not worse, as an order. *)
Lemma not_worse_trans x y z :
  is_Some (m !! x) -> is_Some (m !! y) -> is_Some (m !! z) -> worse addr m x y = false -> worse addr m y z = false -> worse addr m x z = false.
Proof using Hm.
  intros [a Ea] [b Eb] [c Ec] H1 H2. apply not_true_iff_false in H1, H2. apply not_true_iff_false.
  rewrite (worse_spec x y a b Ea Eb) in H1. rewrite (worse_spec y z b c Eb Ec) in H2. rewrite (worse_spec x z a c Ea Ec). lia.
Qed.
Lemma worse_asym x y : is_Some (m !! x) -> is_Some (m !! y) -> worse addr m x y = true -> worse addr m y x = false.
Proof using Hm. intros [a Ea] [b Eb]. rewrite <- not_true_iff_false, (worse_spec x y a b Ea Eb), (worse_spec y x b a Eb Ea). lia. Qed.

Lemma ancestor_work x h b : works_grow m -> m !! h = Some b -> is_ancestor m x h ->
  exists bx, m !! x = Some bx /\ (x = h \/ val (nChainWork bx) < val (nChainWork b)) /\ nHeight bx <= nHeight b.
Proof using Hm.
  intros Hg E [n Hn]. revert h b E Hn. induction n as [|n IH]; intros h b E Hn.
  - injection Hn as <-. exists b. split; [exact E|]. split; [auto|lia].
  - destruct (Hm h b E) as [_ _ _ _ _ Hl]. cbn [nth_prev] in Hn. rewrite E in Hn. cbn [mbind option_bind] in Hn. destruct (pprev b) as [p|] eqn:Ep; [|discriminate].
    destruct (Hl p eq_refl) as (pb & Epb & Hh & _). destruct (IH p pb Epb Hn) as (bx & Ex & Hx & Hhx). pose proof (Hg h b p pb E Ep Epb).
    exists bx. split; [exact Ex|]. split; [|lia]. right. destruct Hx as [-> |Hx]; [|lia]. rewrite Epb in Ex. injection Ex as <-. lia.
Qed.
(** A block is not worse than its ancestors. *)
Lemma ancestor_not_better x h b : works_grow m -> m !! h = Some b -> is_ancestor m x h -> worse addr m h x = false.
Proof using Hm.
  intros Hg E Hx. destruct (ancestor_work x h b Hg E Hx) as (bx & Ex & [-> |Hw] & _); [apply (worse_irrefl h b E)|].
  apply not_true_iff_false. rewrite (worse_spec h x b bx E Ex). lia.
Qed.

Lemma rbegin_spec (S : gset Z) :
  (forall h, h ∈ S -> is_Some (m !! h)) ->
  match rbegin addr m S with
  | None => S = ∅
  | Some x => x ∈ S /\ forall y, y ∈ S -> worse addr m x y = false
  end.
Proof using Hm.
  intros HS. unfold rbegin.
  assert (Hl : forall l : list Z, (forall h, h ∈ l -> is_Some (m !! h)) ->
    match foldr (fun h best => match best with None => Some h | Some b => if worse addr m b h then Some h else best end) None l with
    | None => l = []
    | Some x => x ∈ l /\ forall y, y ∈ l -> worse addr m x y = false
    end).
  { induction l as [|h l IH]; intros Hin; cbn [foldr]; [reflexivity|].
    assert (Hh : is_Some (m !! h)) by (apply Hin, list_elem_of_here). destruct Hh as [bh Eh].
    specialize (IH (fun k Hk => Hin k (list_elem_of_further _ _ _ Hk))). destruct (foldr _ None l) as [x|].
    - destruct IH as [Hx Hmax]. assert (Sx : is_Some (m !! x)) by (apply Hin, list_elem_of_further, Hx). destruct (worse addr m x h) eqn:Ew.
      + split; [apply list_elem_of_here|]. intros y [-> |Hy]%elem_of_cons; [apply (worse_irrefl h bh Eh)|].
        apply not_worse_trans with x; eauto; [apply Hin, list_elem_of_further, Hy|]. apply worse_asym; eauto.
      + split; [apply list_elem_of_further, Hx|]. intros y [-> |Hy]%elem_of_cons; [exact Ew|apply Hmax, Hy].
    - subst l. split; [apply list_elem_of_here|]. intros y [-> |Hy]%elem_of_cons; [apply (worse_irrefl h bh Eh)|]. apply not_elem_of_nil in Hy. contradiction. }
  specialize (Hl (elements S) (fun h Hh => HS h (proj1 (elem_of_elements _ _) Hh))). destruct (foldr _ _ _) as [x|].
  - destruct Hl as [H1 H2]. split; [apply elem_of_elements, H1|]. intros y Hy. apply H2, elem_of_elements, Hy.
  - apply elements_empty_iff, leibniz_equiv in Hl. exact Hl.
Qed.
End Order.
