(* ===== verification/BestActivate.v ===== *)
(** * Activating the best chain: the proofs ([src/src/validation.cpp])

    [FindMostWorkChain] returns the best candidate and drops only candidates
    that cannot be used; [ActivateBestChainStep] moves towards it or marks a
    block as failed; [ActivateBestChain] ends, and the tip is then at least as
    good as every block of the index that can be used. *)

From Stdlib Require Import String.
From stdpp Require Import gmap.
From S2P Require Import Prelude ConsensusParams Emission Levy ArithUint256 BlockIndex ActiveChain Pow Headers Serialize Script Transaction Coins TxCheck Merkle Block CuckooCache CheckQueue Ledger LedgerCoins Connect ConnectTotal Chainstate BestChain.

Local Open Scope Z_scope.

(** ** Blocks that can be used *)

(** The block and its ancestors are there and none is known to be invalid. *)
Definition usable (m : BlockMap) (h : Z) : Prop :=
  forall x, is_ancestor m x h -> exists b, m !! x = Some b /\ failed b = false /\ have_data b = true.
Definition linked (b : CBlockIndex) : bool := HaveNumChainTxs b || (nHeight b =? 0).
(** No block that was connected before has failed. *)
Definition steady (genesis : Z) (m : BlockMap) : Prop :=
  forall h b, m !! h = Some b -> h = genesis \/ has_undo b = true -> failed b = false.
Definition once_tip (genesis : Z) (m : BlockMap) (h : Z) : Prop := exists b, m !! h = Some b /\ (h = genesis \/ has_undo b = true).

Lemma usable_keeps m m' h : index_keeps m m' -> usable m' h -> usable m h.
Proof.
  intros K H x Hx. destruct (H x) as (b' & E' & Hf & Hd); [apply (is_ancestor_keeps m m'), Hx; exact K|].
  destruct (index_keeps_back _ _ _ _ K E') as (b & E & [_ _ _ K4 K5 _]). exists b. split; [exact E|]. split; [|congruence].
  destruct (failed b); [rewrite K5 in Hf by reflexivity; exact Hf|reflexivity].
Qed.
Lemma usable_entry m h : usable m h -> is_Some (m !! h).
Proof. intros H. destruct (H h (is_ancestor_refl m h)) as (b & E & _). eauto. Qed.
Lemma not_usable m h x b : m !! x = Some b -> is_ancestor m x h -> failed b = true \/ have_data b = false -> ~ usable m h.
Proof. intros E Hx Hb H. destruct (H x Hx) as (b' & E' & H1 & H2). rewrite E in E'. injection E' as <-. destruct Hb; congruence. Qed.
Lemma steady_keeps g m m' : index_keeps m m' -> steady g m' -> steady g m.
Proof.
  intros K H h b E Hb. destruct (proj1 K h b E) as (b' & E' & [_ _ _ _ K5 K6]). pose proof (H h b' E') as Hf.
  destruct (failed b); [|reflexivity]. rewrite K5 in Hf by reflexivity. apply Hf. destruct Hb; auto.
Qed.
Lemma once_tip_keeps g m m' h : index_keeps m m' -> once_tip g m h -> once_tip g m' h.
Proof. intros K (b & E & Hb). destruct (proj1 K h b E) as (b' & E' & [_ _ _ _ _ K6]). exists b'. split; [exact E'|]. destruct Hb; auto. Qed.
Lemma linked_keeps b b' : entry_keeps b b' -> linked b' = linked b.
Proof. intros [(_ & _ & _ & L4 & _) _ K3 _ _ _]. unfold linked, HaveNumChainTxs. rewrite K3, L4. reflexivity. Qed.

(** The entries that have not failed. *)
Definition unfailed (m : BlockMap) : gset Z := dom (filter (fun p => failed p.2 = false) m).
Lemma elem_of_unfailed m h : h ∈ unfailed m <-> exists b, m !! h = Some b /\ failed b = false.
Proof.
  unfold unfailed. rewrite elem_of_dom. split.
  - intros [b Hb]. apply map_lookup_filter_Some in Hb as [H1 H2]. eauto.
  - intros (b & H1 & H2). exists b. apply map_lookup_filter_Some. auto.
Qed.
Lemma unfailed_keeps m m' : index_keeps m m' -> unfailed m' ⊆ unfailed m.
Proof.
  intros K h. rewrite !elem_of_unfailed. intros (b' & E' & Hf). destruct (index_keeps_back _ _ _ _ K E') as (b & E & [_ _ _ _ K5 _]).
  exists b. split; [exact E|]. destruct (failed b); [rewrite K5 in Hf by reflexivity; exact Hf|reflexivity].
Qed.
Lemma unfailed_le m m' : index_keeps m m' -> (base.size (unfailed m') <= base.size (unfailed m))%nat.
Proof. intros K. apply subseteq_size, unfailed_keeps, K. Qed.
Lemma unfailed_lt m m' h b b' :
  index_keeps m m' -> m !! h = Some b -> failed b = false -> m' !! h = Some b' -> failed b' = true -> (base.size (unfailed m') < base.size (unfailed m))%nat.
Proof.
  intros K E Hf E' Hf'. apply subset_size. split; [apply unfailed_keeps, K|]. intros H. specialize (H h). rewrite !elem_of_unfailed in H.
  destruct H as (b1 & E1 & Hf1); [eauto|]. congruence.
Qed.

(** *** Paths upwards *)

(** [l] leads from [x], which is not in it, to its last element [y]. *)
Fixpoint up_path (m : BlockMap) (x : Z) (l : list Z) (y : Z) : Prop :=
  match l with
  | [] => x = y
  | h :: l => (exists b, m !! h = Some b /\ pprev b = Some x) /\ up_path m h l y
  end.
Lemma up_path_app m l1 l2 : forall x y z, up_path m x l1 y -> up_path m y l2 z -> up_path m x (l1 ++ l2) z.
Proof. induction l1 as [|h l1 IH]; intros x y z; cbn [up_path app]; [intros ->; auto|]. intros [H1 H2] H. split; [exact H1|]. eapply IH; eassumption. Qed.
Lemma up_path_keeps m m' l : index_keeps m m' -> forall x y, up_path m x l y -> up_path m' x l y.
Proof.
  intros K. induction l as [|h l IH]; intros x y; cbn [up_path]; [auto|]. intros [(b & E & Ep) H]. split; [|apply IH, H].
  destruct (proj1 K h b E) as (b' & E' & [(_ & L2 & _) _ _ _ _ _]). exists b'. split; [exact E'|congruence].
Qed.
Lemma up_path_ancestor m l : forall x y, up_path m x l y -> is_ancestor m x y.
Proof.
  induction l as [|h l IH]; intros x y; cbn [up_path]; [intros ->; apply is_ancestor_refl|]. intros [(b & E & Ep) H].
  eapply is_ancestor_trans; [eapply is_ancestor_prev; eassumption|apply IH, H].
Qed.
Lemma up_path_elem m l z : forall x y, up_path m x l y -> z ∈ l -> is_ancestor m z y.
Proof.
  induction l as [|h l IH]; intros x y; cbn [up_path]; [intros _ Hz; apply not_elem_of_nil in Hz; contradiction|].
  intros [_ H] [-> |Hz]%elem_of_cons; [eapply up_path_ancestor, H|eapply IH; eassumption].
Qed.
Lemma up_path_height m (Hm : index_ok m) l z : forall x y bx,
  up_path m x l y -> m !! x = Some bx -> z ∈ l -> exists bz, m !! z = Some bz /\ nHeight bx < nHeight bz.
Proof.
  induction l as [|h l IH]; intros x y bx; cbn [up_path]; [intros _ _ Hz; apply not_elem_of_nil in Hz; contradiction|].
  intros [(b & E & Ep) H] Ex Hz. destruct (eo_link _ _ _ (Hm h b E) x Ep) as (pb & Epb & Hh & _). assert (pb = bx) as -> by congruence.
  apply elem_of_cons in Hz as [-> |Hz]; [exists b; split; [exact E|lia]|]. destruct (IH h y b H E Hz) as (bz & Ez & Hbz). exists bz. split; [exact Ez|lia].
Qed.
(** Of two ancestors the lower one is an ancestor of the other. *)
Lemma ancestors_linear m (Hm : index_ok m) x y h b bx by' :
  m !! h = Some b -> m !! x = Some bx -> m !! y = Some by' -> is_ancestor m x h -> is_ancestor m y h -> nHeight bx <= nHeight by' -> is_ancestor m x y.
Proof.
  intros E Ex Ey [i Hi] [j Hj] Hle. destruct (nth_prev_height Hm h b i x E Hi) as (b1 & E1 & H1). destruct (nth_prev_height Hm h b j y E Hj) as (b2 & E2 & H2).
  assert (b1 = bx) as -> by congruence. assert (b2 = by') as -> by congruence. exists (i - j)%nat. replace i with (j + (i - j))%nat in Hi by lia.
  rewrite nth_prev_add, Hj in Hi. exact Hi.
Qed.
Lemma ancestor_height m (Hm : index_ok m) x h b bx : m !! h = Some b -> m !! x = Some bx -> is_ancestor m x h -> nHeight bx <= nHeight b.
Proof. intros E Ex [n Hn]. destruct (nth_prev_height Hm h b n x E Hn) as (b1 & E1 & H1). assert (b1 = bx) as -> by congruence. lia. Qed.
Lemma ancestor_same_height m (Hm : index_ok m) x h b bx : m !! h = Some b -> m !! x = Some bx -> is_ancestor m x h -> nHeight bx = nHeight b -> x = h.
Proof.
  intros E Ex [n Hn] Hh. destruct (nth_prev_height Hm h b n x E Hn) as (b1 & E1 & H1). assert (b1 = bx) as -> by congruence.
  replace n with 0%nat in Hn by lia. injection Hn as ->. reflexivity.
Qed.
Lemma to_connect_spec m (Hm : index_ok m) fuel : forall h b x bx height,
  m !! h = Some b -> m !! x = Some bx -> is_ancestor m x h -> nHeight bx = height -> nHeight b - height <= Z.of_nat fuel ->
  exists l, to_connect fuel m (Some h) height = Some l /\ up_path m x (reverse l) h /\ (height < nHeight b -> head l = Some h).
Proof.
  induction fuel as [|fuel IH]; intros h b x bx height E Ex Hx Hh Hfuel; cbn [to_connect]; rewrite E; cbn [mbind option_bind].
  - pose proof (ancestor_height m Hm x h b bx E Ex Hx). destruct (Z.eqb_spec (nHeight b) height) as [He|]; [|lia].
    exists []. split; [reflexivity|]. split; [|lia]. apply (ancestor_same_height m Hm x h b bx E Ex Hx). lia.
  - destruct (Z.eqb_spec (nHeight b) height) as [He|He].
    + exists []. split; [reflexivity|]. split; [|lia]. apply (ancestor_same_height m Hm x h b bx E Ex Hx). lia.
    + destruct (is_ancestor_cases m x h b E Hx) as [-> |(p & Ep & Hp)]; [rewrite E in Ex; injection Ex as <-; lia|]. rewrite Ep.
      destruct (eo_link _ _ _ (Hm h b E) p Ep) as (pb & Epb & Hpb & _). destruct (IH p pb x bx height Epb Ex Hp Hh ltac:(lia)) as (l & -> & Hl & _).
      cbn [mbind option_bind]. exists (h :: l). split; [reflexivity|]. split; [|reflexivity]. rewrite reverse_cons.
      eapply up_path_app; [exact Hl|]. cbn [up_path]. split; [eauto|reflexivity].
Qed.

(** ** The invariant *)

Section Activate.
Context {B : Type} `{!CCoinsView B} `{!CCoinsViewLaws B} {C : Type} `{!ElementCache C} `{!ElementCacheLaws C}.
Context (EnableFuzzDeterminism : bool) (GetHash : CBlockHeader -> Z) (PoWHash : CBlockHeader -> Params -> Z) (params : Params).
Context (TxHash WitnessHash : CTransaction -> Z) (Hash2 CacheKey : Z -> Z -> Z).
Context (VerifyScript : CScript -> CScript -> list (list Z) -> Z -> CTransaction -> nat -> Z -> list CTxOut -> option string).
Context (AssumedValidBlock : Z) (MinimumChainWork : list Z) (HasThreads : bool) (Complete : list CScriptCheck -> option string).
Context (txs_of : Z -> list CTransaction) (addr : Z -> Z).
Implicit Type s : Chainstate (B := B) (C := C).
Implicit Type st : BestState (B := B) (C := C).

Abbreviation genesis := (hashGenesisBlock params).
Abbreviation state_ok := (chainstate_ok params TxHash WitnessHash CacheKey VerifyScript AssumedValidBlock MinimumChainWork txs_of).
Abbreviation tip_at := (tip_ok params TxHash WitnessHash CacheKey VerifyScript AssumedValidBlock MinimumChainWork txs_of).
Abbreviation cands := setBlockIndexCandidates.

(** The candidates are blocks whose ancestors were all received; connected
    blocks are on disk; there is one root and work grows along the links. *)
Record candidates_ok st : Prop := {
  ca_chain : state_ok (bs_chain st);
  ca_root : forall h b, index st !! h = Some b -> pprev b = None -> h = genesis;
  ca_works : works_grow (index st);
  ca_linked : forall h x, h ∈ cands st -> is_ancestor (index st) x h -> exists b, index st !! x = Some b /\ linked b = true;
  ca_data : forall h b, index st !! h = Some b -> h = genesis \/ has_undo b = true -> have_data b = true /\ linked b = true
}.
(** No candidate lies below the tip. *)
Definition above st : Prop := forall h t, h ∈ cands st -> tip st = Some t -> is_ancestor (index st) h t -> h = t.
(** Every usable block that is not worse than [t] is a candidate. *)
Definition covers st (t : Z) : Prop :=
  once_tip genesis (index st) t /\ forall h, usable (index st) h -> worse addr (index st) h t = false -> h ∈ cands st.

Record stable st : Prop := {
  sb_ok : candidates_ok st;
  sb_above : above st;
  sb_covers : exists t, covers st t
}.

Lemma ca_index st : candidates_ok st -> index_ok (index st).
Proof. intros H. apply (is_index _ _ (ci_index _ _ _ _ _ _ _ _ _ (ca_chain _ H))). Qed.
Lemma ca_entry st h : candidates_ok st -> h ∈ cands st -> is_Some (index st !! h).
Proof. intros H Hh. destruct (ca_linked _ H h h Hh (is_ancestor_refl _ _)) as (b & E & _). eauto. Qed.
Lemma ca_tip st : candidates_ok st -> exists t bt, tip st = Some t /\ tip_at (bs_chain st) t bt.
Proof.
  intros H. destruct (ci_tip _ _ _ _ _ _ _ _ _ (ca_chain _ H)) as (t & bt & Ht). exists t, bt. split; [|exact Ht].
  eapply tip_Tip; [apply (ca_chain _ H)|exact Ht].
Qed.
Lemma ledger_once m undos h u :
  (exists g, m !! genesis = Some g /\ pprev g = None) ->
  ledger_at params TxHash WitnessHash CacheKey VerifyScript AssumedValidBlock MinimumChainWork txs_of m undos h u ->
  forall x, is_ancestor m x h -> once_tip genesis m x.
Proof.
  intros (g & Eg & Hg). induction 1 as [|h b p u undo u' E1 E2 E3 E4 _ IH _]; intros x Hx.
  - destruct (is_ancestor_cases m x _ g Eg Hx) as [-> |(p & Ep & _)]; [exists g; auto|congruence].
  - destruct (is_ancestor_cases m x h b E1 Hx) as [-> |(p' & Ep & Hp)]; [exists b; auto|]. apply IH. congruence.
Qed.
(** The ancestors of a block that was connected once were connected, too. *)
Lemma once_tip_ancestor st h x : candidates_ok st -> once_tip genesis (index st) h -> is_ancestor (index st) x h -> once_tip genesis (index st) x.
Proof.
  intros H (b & E & Hb) Hx. pose proof (ca_chain _ H) as Hs. destruct Hb as [-> |Hb].
  - eapply ledger_once; [apply (ci_genesis _ _ _ _ _ _ _ _ _ Hs)|constructor|exact Hx]. Unshelve. exact ∅.
  - destruct (ci_undo _ _ _ _ _ _ _ _ _ Hs h b E Hb) as [u Hu]. eapply ledger_once; [apply (ci_genesis _ _ _ _ _ _ _ _ _ Hs)|exact Hu|exact Hx].
Qed.
Lemma tip_once st t bt x : candidates_ok st -> tip_at (bs_chain st) t bt -> is_ancestor (index st) x t -> once_tip genesis (index st) x.
Proof.
  intros H Ht Hx. eapply ledger_once; [apply (ci_genesis _ _ _ _ _ _ _ _ _ (ca_chain _ H))|apply (to_ledger _ _ _ _ _ _ _ _ _ _ _ Ht)|exact Hx].
Qed.
Lemma once_tip_usable st h : candidates_ok st -> steady genesis (index st) -> once_tip genesis (index st) h -> usable (index st) h.
Proof.
  intros H Hst Hh x Hx. destruct (once_tip_ancestor st h x H Hh Hx) as (b & E & Hb). exists b. split; [exact E|].
  split; [apply (Hst x b E Hb)|apply (ca_data _ H x b E Hb)].
Qed.

(** What later states keep. *)
Lemma candidates_ok_shrink st st' :
  candidates_ok st -> state_ok (bs_chain st') -> index_keeps (index st) (index st') -> cands st' ⊆ cands st ->
  (forall h b b', index st !! h = Some b -> index st' !! h = Some b' -> has_undo b' = true -> has_undo b = true \/ (have_data b = true /\ linked b = true)) ->
  candidates_ok st'.
Proof.
  intros [H1 H2 H3 H4 H5] Hs K Hc Hu. split.
  - exact Hs.
  - intros h b' E' Hp. destruct (index_keeps_back _ _ _ _ K E') as (b & E & [(_ & L2 & _) _ _ _ _ _]). apply (H2 h b E). congruence.
  - apply (works_grow_keeps _ _ K H3).
  - intros h x Hh Hx. destruct (H4 h x (Hc h Hh)) as (b & E & Hb); [apply (is_ancestor_keeps _ _ x h K), Hx|].
    destruct (proj1 K x b E) as (b' & E' & Kb). exists b'. split; [exact E'|]. rewrite (linked_keeps _ _ Kb). exact Hb.
  - intros h b' E' Hb. destruct (index_keeps_back _ _ _ _ K E') as (b & E & Kb). rewrite (ek_data _ _ Kb), (linked_keeps _ _ Kb).
    destruct Hb as [Hb|Hb]; [apply (H5 h b E); auto|]. destruct (Hu h b b' E E' Hb) as [Hx|Hx]; [apply (H5 h b E); auto|exact Hx].
Qed.
Lemma above_shrink st st' :
  above st -> index_keeps (index st) (index st') -> m_chain (bs_chain st') = m_chain (bs_chain st) -> cands st' ⊆ cands st -> above st'.
Proof.
  intros H K Ech Hc h t Hh Et Ha. apply H; [apply Hc, Hh| |apply (is_ancestor_keeps _ _ h t K), Ha]. unfold tip in *. rewrite <- Ech. exact Et.
Qed.
Lemma covers_shrink st st' t :
  covers st t -> index_keeps (index st) (index st') -> (forall h, h ∈ cands st -> usable (index st') h -> h ∈ cands st') -> covers st' t.
Proof.
  intros [(b & E & Hb) Hc] K Hin. split; [eapply once_tip_keeps; [exact K|exists b; auto]|]. intros h Hh Hw. apply Hin; [|exact Hh].
  pose proof (usable_keeps _ _ _ K Hh) as Hh0. apply Hc; [exact Hh0|]. rewrite <- Hw. symmetry. apply worse_keeps; [exact K|apply usable_entry, Hh0|eauto].
Qed.

(** ** The most work chain *)

(** The part of the branch to [h] that is not on the active chain can be used. *)
Definition good (m : BlockMap) (x : Z) : Prop := exists b, m !! x = Some b /\ failed b = false /\ have_data b = true.
Definition branch_ok st (h : Z) : Prop :=
  forall t x, tip st = Some t -> is_ancestor (index st) x h ->
  is_ancestor (index st) x t \/ good (index st) x.

Lemma Contains_tip st t bt x b : candidates_ok st -> tip_at (bs_chain st) t bt -> index st !! x = Some b ->
  exists c, Contains (index st) (m_chain (bs_chain st)) x = Some c /\ (c = true <-> is_ancestor (index st) x t).
Proof.
  intros H Ht E. rewrite (to_chain _ _ _ _ _ _ _ _ _ _ _ Ht). apply (Contains_spec (ca_index _ H) t bt (to_entry _ _ _ _ _ _ _ _ _ _ _ Ht) x b E).
Qed.

Lemma find_unusable_spec st t bt :
  candidates_ok st -> tip_at (bs_chain st) t bt -> forall fuel h b,
  index st !! h = Some b -> (forall x, is_ancestor (index st) x h -> exists bx, index st !! x = Some bx /\ linked bx = true) -> nHeight b < Z.of_nat fuel ->
  exists r, find_unusable fuel (index st) (m_chain (bs_chain st)) h = Some r /\
    match r with
    | None => forall x, is_ancestor (index st) x h -> is_ancestor (index st) x t \/ good (index st) x
    | Some (x, ff) => is_ancestor (index st) x h /\ exists bx, index st !! x = Some bx /\ failed bx = ff /\ (ff = true \/ have_data bx = false)
    end.
Proof.
  intros H Ht. pose proof (ca_index _ H) as Hm. induction fuel as [|fuel IH]; intros h b E Hl Hfuel; [pose proof (eo_height _ _ _ (Hm h b E)); lia|].
  cbn [find_unusable]. destruct (Contains_tip st t bt h b H Ht E) as (c & -> & Hc). cbn [mbind option_bind]. destruct c.
  { exists None. split; [reflexivity|]. intros x Hx. left. eapply is_ancestor_trans; [exact Hx|apply Hc; reflexivity]. }
  rewrite E. cbn [mbind option_bind]. destruct (Hl h (is_ancestor_refl _ _)) as (b0 & E0 & Hb0). rewrite E in E0. injection E0 as <-.
  unfold linked in Hb0. rewrite Hb0. cbn [negb]. cbv zeta. change (negb (Z.land (nStatus b) BLOCK_FAILED_VALID =? 0)) with (failed b).
  replace (Z.land (nStatus b) BLOCK_HAVE_DATA =? 0) with (negb (have_data b)) by (unfold have_data; apply negb_involutive).
  destruct (failed b || negb (have_data b)) eqn:Ebad.
  { eexists. split; [reflexivity|]. split; [apply is_ancestor_refl|]. exists b. split; [exact E|]. split; [reflexivity|].
    apply orb_true_iff in Ebad as [->|Hd]; [auto|]. right. apply negb_true_iff, Hd. }
  apply orb_false_iff in Ebad as [Hf Hd]. apply negb_false_iff in Hd. destruct (pprev b) as [p|] eqn:Ep.
  - destruct (eo_link _ _ _ (Hm h b E) p Ep) as (pb & Epb & Hh & _). pose proof (is_ancestor_prev _ _ _ _ E Ep) as Hp.
    destruct (IH p pb Epb) as (r & -> & Hr); [intros x Hx; apply Hl; eapply is_ancestor_trans; eassumption|lia|]. exists r. split; [reflexivity|].
    destruct r as [[x ff]|].
    + destruct Hr as [Hx Hr]. split; [eapply is_ancestor_trans; eassumption|exact Hr].
    + intros x Hx. destruct (is_ancestor_cases _ x h b E Hx) as [-> |(p' & Ep' & Hx')]; [right; exists b; auto|]. apply Hr. congruence.
  - exists None. split; [reflexivity|]. intros x Hx. destruct (is_ancestor_cases _ x h b E Hx) as [-> |(p' & Ep' & _)]; [right; exists b; auto|congruence].
Qed.

(** The state after candidates that cannot be used were dropped. *)
Record drops st st' : Prop := {
  dr_ok : candidates_ok st';
  dr_index : index_keeps (index st) (index st');
  dr_chain : m_chain (bs_chain st') = m_chain (bs_chain st);
  dr_less : cands st' ⊆ cands st;
  dr_usable : forall h, h ∈ cands st -> usable (index st') h -> h ∈ cands st'
}.
Lemma drops_refl st : candidates_ok st -> drops st st.
Proof. intros H. split; auto. apply index_keeps_refl. Qed.
Lemma drops_trans st st' st'' : drops st st' -> drops st' st'' -> drops st st''.
Proof.
  intros [A1 A2 A3 A4 A5] [B1 B2 B3 B4 B5]. split; [exact B1|eapply index_keeps_trans; eassumption|congruence|set_solver|].
  intros h Hh Hu. apply B5; [|exact Hu]. apply A5; [exact Hh|]. eapply usable_keeps; eassumption.
Qed.
Lemma drops_erase st x : candidates_ok st -> ~ usable (index st) x -> drops st (erase st x).
Proof.
  intros H Hx. assert (Hsub : cands (erase st x) ⊆ cands st) by (cbn; set_solver). split; [|apply index_keeps_refl|reflexivity|exact Hsub|].
  - apply (candidates_ok_shrink st (erase st x) H (ca_chain _ H) (index_keeps_refl _) Hsub). intros h b b' E E' Hb. left. change (index st !! h = Some b') in E'. congruence.
  - intros h Hh Hu. cbn. apply elem_of_difference. split; [exact Hh|]. intros ->%elem_of_singleton. exact (Hx Hu).
Qed.

(** *** Marking a branch as failed *)

Lemma mark_failed_ok s h b : state_ok s -> m_block_index (m_blockman s) !! h = Some b -> state_ok (mark_failed s h b).
Proof.
  intros Hs Eb. destruct (set_failed_links b) as [Hl Hu]. apply (chainstate_ok_index _ _ _ _ _ _ _ _ s); try reflexivity; try assumption; try apply Hs.
  - apply index_same_insert with (b := b); [exact Eb|exact Hl|congruence].
  - exact (undo_keeps_failed _ h b Eb).
  - destruct (is_best _ _ (ci_index _ _ _ _ _ _ _ _ _ Hs)) as (bh & e & Ebh & Ee). destruct (decide (bh = h)) as [->|Hne].
    + exists h, (set_failed b). cbn. rewrite lookup_insert_eq. auto.
    + exists bh, e. cbn. rewrite lookup_insert_ne by congruence. auto.
Qed.
Lemma drops_mark st h b : candidates_ok st -> index st !! h = Some b -> drops st (set_chain st (mark_failed (bs_chain st) h b)).
Proof.
  intros H E. pose proof (mark_failed_ok _ h b (ca_chain _ H) E) as Hs.
  assert (K : index_keeps (index st) (index (set_chain st (mark_failed (bs_chain st) h b)))) by exact (index_keeps_insert _ h b _ E (proj1 (set_failed_keeps b))).
  split; [|exact K|reflexivity|reflexivity|auto].
  apply (candidates_ok_shrink st (set_chain st (mark_failed (bs_chain st) h b)) H Hs K); [reflexivity|]. intros k x x' Ex Ex' Hx. left. destruct (undo_keeps_failed _ h b E k x' Ex' Hx) as (x0 & E0 & H0). congruence.
Qed.
Lemma drops_unlinked st l : candidates_ok st -> drops st (mkBest (bs_chain st) (cands st) l (nBlockSequenceId st)).
Proof. intros H. split; [destruct H; split; assumption|apply index_keeps_refl|reflexivity|reflexivity|auto]. Qed.
Lemma set_best_invalid_spec st h : candidates_ok st -> is_Some (index st !! h) ->
  exists st', set_best_invalid st h = Some st' /\ drops st st' /\ index st' = index st /\ cands st' = cands st /\ m_blocks_unlinked st' = m_blocks_unlinked st.
Proof.
  intros H [b E]. unfold set_best_invalid. cbv zeta. pose proof (ca_chain _ H) as Hs.
  assert (Hset : forall bi, is_Some (index st !! bi) ->
    drops st (set_chain st (mkChainstate (CoinsTip (bs_chain st)) (m_chain (bs_chain st)) (m_blockman (bs_chain st)) (m_undo (bs_chain st)) (m_validation_cache (bs_chain st)) (Some bi)))).
  { intros bi Hbi. split; [|apply index_keeps_refl|reflexivity|reflexivity|auto].
    assert (Hs' : state_ok (mkChainstate (CoinsTip (bs_chain st)) (m_chain (bs_chain st)) (m_blockman (bs_chain st)) (m_undo (bs_chain st)) (m_validation_cache (bs_chain st)) (Some bi))).
    { destruct Hs as [H1 H2 H3 H4 H5 H6 H7 (t & bt & [T1 T2 T3 T4])]. split; try assumption; [intros k [= <-]; exact Hbi|]. exists t, bt. split; assumption. }
    destruct H as [A1 A2 A3 A4 A5]. split; assumption. }
  destruct (m_best_invalid (bs_chain st)) as [bi|] eqn:Ebi.
  - rewrite E. cbn [mbind option_bind]. destruct (ci_best_invalid _ _ _ _ _ _ _ _ _ Hs bi Ebi) as [e Ee]. change (m_block_index _) with (index st) in Ee.
    rewrite Ee. cbn [mbind option_bind]. eexists. split; [reflexivity|]. destruct (gt _ _); [split; [apply Hset; eauto|auto]|split; [apply drops_refl, H|auto]].
  - eexists. split; [reflexivity|]. split; [apply Hset; eauto|auto].
Qed.
Lemma drop_branch_spec x ff : forall fuel st h b bx,
  candidates_ok st -> index st !! h = Some b -> index st !! x = Some bx -> is_ancestor (index st) x h ->
  failed bx = true \/ have_data bx = false -> nHeight b - nHeight bx <= Z.of_nat fuel ->
  exists st', drop_branch fuel st x h ff = Some st' /\ drops st st' /\ (h = x \/ h ∉ cands st').
Proof.
  induction fuel as [|fuel IH]; intros st h b bx H E Ex Hx Hbad Hfuel; cbn [drop_branch]; destruct (Z.eqb_spec x h) as [->|Hne];
    try (exists st; split; [reflexivity|]; split; [apply drops_refl, H|auto]; fail).
  - destruct Hx as [n Hn]. destruct (nth_prev_height (ca_index _ H) h b n x E Hn) as (b' & E' & Hh). rewrite Ex in E'. injection E' as <-.
    replace n with 0%nat in Hn by lia. injection Hn as ->. congruence.
  - rewrite E. cbn [mbind option_bind]. destruct (is_ancestor_cases _ x h b E Hx) as [-> |(p & Ep & Hp)]; [congruence|]. rewrite Ep. cbn [mbind option_bind].
    set (st1 := if ff then _ else _).
    assert (D1 : drops st st1) by (unfold st1; destruct ff; [apply drops_mark; assumption|apply drops_unlinked, H]). clearbody st1.
    pose proof (dr_index _ _ D1) as K. destruct (proj1 K x bx Ex) as (bx1 & Ex1 & Kx).
    assert (Hbad1 : failed bx1 = true \/ have_data bx1 = false) by (destruct Hbad as [Hb|Hb]; [left; apply (ek_failed _ _ Kx Hb)|right; rewrite (ek_data _ _ Kx); exact Hb]).
    assert (D2 : drops st1 (erase st1 h)).
    { apply drops_erase; [apply D1|]. eapply not_usable; [exact Ex1|apply (is_ancestor_keeps _ _ x h K), Hx|exact Hbad1]. }
    destruct (eo_link _ _ _ (ca_index _ H h b E) p Ep) as (pb & Epb & Hh & _). destruct (proj1 K p pb Epb) as (pb1 & Epb1 & Kp).
    destruct (IH (erase st1 h) p pb1 bx1) as (st' & -> & D3 & _).
    + apply D2.
    + exact Epb1.
    + exact Ex1.
    + apply (is_ancestor_keeps _ _ x p K), Hp.
    + exact Hbad1.
    + destruct Kx as [(_ & _ & _ & Lx & _) _ _ _ _ _]. destruct Kp as [(_ & _ & _ & Lp & _) _ _ _ _ _]. lia.
    + exists st'. split; [reflexivity|]. split; [eapply drops_trans; [exact D1|eapply drops_trans; eassumption]|]. right. intros Hin.
      apply (dr_less _ _ D3) in Hin. cbn in Hin. set_solver.
Qed.

(** The branches of the candidates are complete, as they are unless block files
    are pruned. *)
Definition complete st : Prop :=
  forall h x b, h ∈ cands st -> is_ancestor (index st) x h -> index st !! x = Some b -> have_data b = true.
Lemma complete_shrink st st' : index_keeps (index st) (index st') -> cands st' ⊆ cands st -> complete st -> complete st'.
Proof.
  intros Ki Hl Hc h x b' Hh Hx E. destruct (index_keeps_back _ _ _ _ Ki E) as (b & Eb & Kb). rewrite (ek_data _ _ Kb).
  apply (Hc h x b (Hl h Hh)); [apply (is_ancestor_keeps _ _ x h Ki), Hx|exact Eb].
Qed.
Lemma drop_branch_unlinked x : forall fuel st h st', drop_branch fuel st x h true = Some st' -> m_blocks_unlinked st' = m_blocks_unlinked st.
Proof.
  induction fuel as [|fuel IH]; intros st h st'; cbn [drop_branch]; (destruct (x =? h); [intros [= <-]; reflexivity|]); [discriminate|].
  destruct (index st !! h) as [b|]; [|discriminate]. cbn [mbind option_bind]. destruct (pprev b) as [p|]; [|discriminate]. cbn [mbind option_bind].
  intros E. apply IH in E. exact E.
Qed.

(** The best candidate, with a branch that can be used. *)
Definition best st (h : Z) : Prop := h ∈ cands st /\ forall y, y ∈ cands st -> worse addr (index st) h y = false.
Definition most_work st (h : Z) : Prop := best st h /\ branch_ok st h.

Lemma FindMostWorkChain_loop_spec fuel : forall st,
  candidates_ok st -> (base.size (cands st) < fuel)%nat ->
  exists st' r, FindMostWorkChain_loop addr fuel st = Some (st', r) /\ drops st st' /\ (complete st -> m_blocks_unlinked st' = m_blocks_unlinked st) /\
    match r with None => cands st' = ∅ | Some h => most_work st' h end.
Proof.
  induction fuel as [|fuel IH]; intros st H Hfuel; [lia|]. cbn [FindMostWorkChain_loop].
  pose proof (rbegin_spec addr (index st) (ca_index _ H) (cands st) (fun h => ca_entry st h H)) as Hr.
  destruct (rbegin addr (index st) (cands st)) as [h|]; [|exists st, None; split; [reflexivity|]; split; [apply drops_refl, H|split; [auto|exact Hr]]].
  destruct Hr as [Hh Hmax]. destruct (ca_entry st h H Hh) as [b E]. rewrite E. cbn [mbind option_bind]. destruct (ca_tip st H) as (t & bt & Et & Ht).
  pose proof (eo_height _ _ _ (ca_index _ H h b E)) as Hb0.
  destruct (find_unusable_spec st t bt H Ht (S (Z.to_nat (nHeight b))) h b E (fun x Hx => ca_linked _ H h x Hh Hx) ltac:(lia)) as (r & -> & Hr).
  cbn [mbind option_bind]. destruct r as [[x ff]|].
  2: { exists st, (Some h). split; [reflexivity|]. split; [apply drops_refl, H|]. split; [auto|]. split; [split; [exact Hh|exact Hmax]|].
       intros t' x Et' Hx. rewrite Et in Et'. injection Et' as <-. apply Hr, Hx. }
  destruct Hr as (Hx & bx & Ex & Hff & Hbad).
  assert (Hst1 : exists st1, (if ff then set_best_invalid st h else Some st) = Some st1 /\ drops st st1 /\ index st1 = index st /\ cands st1 = cands st /\ m_blocks_unlinked st1 = m_blocks_unlinked st).
  { destruct ff; [apply set_best_invalid_spec; eauto|]. exists st. split; [reflexivity|]. split; [apply drops_refl, H|auto]. }
  destruct Hst1 as (st1 & -> & D1 & Ei & Ec & El). cbn [mbind option_bind].
  assert (Hff1 : complete st -> ff = true).
  { intros Hcm. destruct Hbad as [Hb|Hb]; [exact Hb|]. rewrite (Hcm h x bx Hh Hx Ex) in Hb. discriminate. }
  rewrite <- Ei in E, Ex, Hx.
  assert (Hbad' : failed bx = true \/ have_data bx = false) by (destruct Hbad as [-> |]; auto).
  assert (Hhx : 0 <= nHeight bx) by apply (eo_height _ _ _ (ca_index _ (dr_ok _ _ D1) x bx Ex)).
  destruct (drop_branch_spec x ff (S (Z.to_nat (nHeight b))) st1 h b bx (dr_ok _ _ D1) E Ex Hx Hbad' ltac:(lia)) as (st2 & Edrop & D2 & Hout). rewrite Edrop.
  cbn [mbind option_bind]. destruct (proj1 (dr_index _ _ D2) x bx Ex) as (bx2 & Ex2 & Kx).
  assert (D3 : drops st2 (erase st2 x)).
  { apply drops_erase; [apply D2|]. eapply not_usable; [exact Ex2|apply is_ancestor_refl|].
    destruct Hbad' as [Hb|Hb]; [left; apply (ek_failed _ _ Kx Hb)|right; rewrite (ek_data _ _ Kx); exact Hb]. }
  assert (D : drops st (erase st2 x)) by (eapply drops_trans; [exact D1|eapply drops_trans; eassumption]).
  assert (Hsize : (base.size (cands (erase st2 x)) < base.size (cands st))%nat).
  { apply subset_size. split; [apply D|]. intros Hsub. specialize (Hsub h Hh). cbn in Hsub. destruct Hout as [-> |Hout]; set_solver. }
  destruct (IH (erase st2 x) (dr_ok _ _ D) ltac:(lia)) as (st' & r & -> & D' & El' & Hr). exists st', r. split; [reflexivity|]. split; [eapply drops_trans; eassumption|]. split; [|exact Hr].
  intros Hcm. rewrite (Hff1 Hcm) in Edrop. apply drop_branch_unlinked in Edrop. rewrite El' by exact (complete_shrink _ _ (dr_index _ _ D) (dr_less _ _ D) Hcm).
  change (m_blocks_unlinked (erase st2 x)) with (m_blocks_unlinked st2). congruence.
Qed.
Lemma FindMostWorkChain_spec st :
  candidates_ok st ->
  exists st' r, FindMostWorkChain addr st = Some (st', r) /\ drops st st' /\ (complete st -> m_blocks_unlinked st' = m_blocks_unlinked st) /\
    match r with None => cands st' = ∅ | Some h => most_work st' h end.
Proof. intros H. apply FindMostWorkChain_loop_spec; [exact H|lia]. Qed.

(** *** Pruning *)

Lemma PruneBlockIndexCandidates_spec st t h :
  tip st = Some t -> h ∈ cands st -> worse addr (index st) h t = false ->
  exists st', PruneBlockIndexCandidates addr st = Some st' /\ bs_chain st' = bs_chain st /\ m_blocks_unlinked st' = m_blocks_unlinked st /\
    forall y, y ∈ cands st' <-> y ∈ cands st /\ worse addr (index st) y t = false.
Proof.
  intros Et Hh Hw. unfold PruneBlockIndexCandidates. rewrite Et. cbn [mbind option_bind]. cbv zeta.
  set (left := filter _ _). assert (Hl : forall y, y ∈ left <-> y ∈ cands st /\ worse addr (index st) y t = false).
  { intros y. unfold left. rewrite elem_of_filter. tauto. }
  rewrite bool_decide_false; [|intros E0; apply (not_elem_of_empty (C := gset Z) h); rewrite <- E0; apply Hl; auto].
  eexists. split; [reflexivity|]. split; [reflexivity|]. split; [reflexivity|exact Hl].
Qed.

(** ** Moving the tip *)

Context (Hqueue : forall l, completes (run_check VerifyScript) l (Complete l)).
Context (Hsubsidy : forall h, 0 <= h -> 0 <= GetBlockSubsidy h params <= MAX_MONEY).
Context (read : Z -> option CBlock) (flush : CCoinsViewCache B -> option (CCoinsViewCache B)) (undo_io : Z -> option Z) (read_ok : Z -> bool).
Context (Hread : read_law EnableFuzzDeterminism GetHash PoWHash params TxHash Hash2 txs_of read) (Hflush : flush_law flush).

(** The files can be read and written, and the blocks in them are intact. *)
Record files_ok (m : BlockMap) : Prop := {
  fi_flush : forall c, is_Some (flush c);
  fi_undo : forall h, is_Some (undo_io h) /\ read_ok h = true;
  fi_blocks : forall h b, m !! h = Some b -> have_data b = true -> h <> genesis ->
    exists block, read h = Some block /\ ~ corrupt EnableFuzzDeterminism GetHash PoWHash params TxHash Hash2 block
}.
Lemma files_ok_keeps m m' : index_keeps m m' -> files_ok m -> files_ok m'.
Proof.
  intros K [H1 H2 H3]. split; [exact H1|exact H2|]. intros h b' E Hd. destruct (index_keeps_back _ _ _ _ K E) as (b & Eb & Kb).
  apply (H3 h b Eb). rewrite <- (ek_data _ _ Kb). exact Hd.
Qed.

(** *** Disconnecting *)

Lemma disconnect_to_spec f bf : forall fuel s t bt,
  state_ok s -> tip_at s t bt -> m_block_index (m_blockman s) !! f = Some bf -> is_ancestor (m_block_index (m_blockman s)) f t -> nHeight bt - nHeight bf <= Z.of_nat fuel ->
  (forall x b, is_ancestor (m_block_index (m_blockman s)) x t -> m_block_index (m_blockman s) !! x = Some b -> have_data b = true) ->
  exists s' ok, disconnect_to TxHash read flush read_ok fuel s (Some f) = Some (s', ok) /\ m_blockman s' = m_blockman s /\
    (ok = true -> state_ok s' /\ exists bf', tip_at s' f bf') /\ (files_ok (m_block_index (m_blockman s)) -> ok = true).
Proof using Hqueue Hsubsidy Hread Hflush.
  induction fuel as [|fuel IH]; intros s t bt Hs Ht Ef Hf Hfuel Hdata; cbn [disconnect_to];
    rewrite (tip_Tip _ _ _ _ _ _ _ _ _ _ _ Hs Ht); pose proof (is_index _ _ (ci_index _ _ _ _ _ _ _ _ _ Hs)) as Hm;
    pose proof (to_entry _ _ _ _ _ _ _ _ _ _ _ Ht) as Et; destruct (bool_decide_reflect (Some f = Some t)) as [[= ->]|Hne];
    try (exists s, true; split; [reflexivity|]; split; [reflexivity|]; split; [eauto|auto]; fail).
  - destruct Hf as [n Hn]. destruct (nth_prev_height Hm t bt n f Et Hn) as (b' & E' & Hh). rewrite Ef in E'. injection E' as <-.
    replace n with 0%nat in Hn by lia. injection Hn as ->. congruence.
  - destruct (is_ancestor_cases _ f t bt Et Hf) as [-> |(p & Ep & Hp)]; [congruence|].
    destruct (DisconnectTip_spec EnableFuzzDeterminism GetHash PoWHash params TxHash WitnessHash Hash2 CacheKey VerifyScript AssumedValidBlock MinimumChainWork true Complete
      Hqueue txs_of Hsubsidy read flush (read_ok t) s t bt p Hs Ht Ep Hread Hflush) as (s1 & r & E1 & H1 & H2).
    pose proof (DisconnectTip_man TxHash read flush (read_ok t) s s1 r E1) as Em. rewrite E1. cbn [mbind option_bind].
    assert (Hio : files_ok (m_block_index (m_blockman s)) -> r = true).
    { intros [F1 F2 F3]. apply H2; [apply F2| |exact F1]. destruct (F3 t bt Et) as (block & -> & _); [apply (Hdata t bt (is_ancestor_refl _ _) Et)| |eauto].
      intros ->. destruct (ci_genesis _ _ _ _ _ _ _ _ _ Hs) as (g & Eg & Hg). congruence. }
    destruct r; [|exists s1, false; split; [reflexivity|]; split; [exact Em|]; split; [discriminate|intros F; discriminate (Hio F)]].
    destruct (H1 eq_refl) as (Hs1 & bp & Hbp & Ht1). destruct (IH s1 p bp Hs1 Ht1) as (s' & ok & E & Em' & Hok & Hfi).
    + rewrite Em. exact Ef.
    + rewrite Em. exact Hp.
    + lia.
    + rewrite Em. intros x b Hx. apply Hdata. eapply is_ancestor_trans; [exact Hx|eapply is_ancestor_prev; eassumption].
    + exists s', ok. split; [exact E|]. split; [congruence|]. split; [exact Hok|]. intros F. apply Hfi. rewrite Em. exact F.
Qed.

(** *** Connecting a block *)

Abbreviation connectTip := (ConnectTip EnableFuzzDeterminism GetHash PoWHash params TxHash WitnessHash Hash2 CacheKey VerifyScript
  AssumedValidBlock MinimumChainWork HasThreads Complete).
Abbreviation intact block := (~ corrupt EnableFuzzDeterminism GetHash PoWHash params TxHash Hash2 block).
Abbreviation given_law h given :=
  (forall block, given = Some block -> block_of EnableFuzzDeterminism GetHash PoWHash params TxHash Hash2 txs_of h block).

(** What every step keeps. *)
Record goes st st' : Prop := {
  go_stable : stable st';
  go_index : index_keeps (index st) (index st');
  go_less : cands st' ⊆ cands st;
  go_unlinked : complete st -> m_blocks_unlinked st' = m_blocks_unlinked st
}.
Lemma go_ok st st' : goes st st' -> candidates_ok st'.
Proof. intros H. apply (sb_ok _ (go_stable _ _ H)). Qed.
Lemma goes_refl st : stable st -> goes st st.
Proof. intros H. split; [exact H|apply index_keeps_refl|reflexivity|reflexivity]. Qed.
Lemma goes_trans st st' st'' : goes st st' -> goes st' st'' -> goes st st''.
Proof.
  intros [A1 A2 A3 A4] [B1 B2 B3 B4]. split; [exact B1|eapply index_keeps_trans; eassumption|etransitivity; eassumption|].
  intros Hc. rewrite B4, A4; [reflexivity|exact Hc|exact (complete_shrink _ _ A2 A3 Hc)].
Qed.

Lemma good_grows m x m' h : entry_grows m x m' -> good m h -> good m' h.
Proof.
  intros G (b & E & Hf & Hd). destruct (proj1 (entry_grows_keeps _ _ _ G) h b E) as (b' & E' & K). exists b'. split; [exact E'|].
  rewrite (entry_grows_failed _ _ _ _ _ _ G E E'), (ek_data _ _ K). auto.
Qed.

(** The candidates that are worse than the new tip are dropped. *)
Lemma pruned_goes st st1 s' h :
  candidates_ok st -> (exists t, covers st t) -> candidates_ok (set_chain st s') -> tip (set_chain st s') = Some h -> index_keeps (index st) (m_block_index (m_blockman s')) ->
  once_tip genesis (m_block_index (m_blockman s')) h -> bs_chain st1 = s' -> m_blocks_unlinked st1 = m_blocks_unlinked st ->
  (forall y, y ∈ cands st1 <-> y ∈ cands st /\ worse addr (m_block_index (m_blockman s')) y h = false) -> goes st st1.
Proof.
  intros H (t & (bt & Et & Hbt) & Hc) H1 Etip K Hh Es Eul Hp. set (m' := m_block_index (m_blockman s')) in *.
  assert (Ei : index st1 = m') by (unfold index; rewrite Es; reflexivity). pose proof (ca_index _ H1 : index_ok m') as Hm'.
  assert (Hless : cands st1 ⊆ cands st) by (intros y Hy; apply Hp in Hy; apply Hy). split; [|rewrite Ei; exact K|exact Hless|auto]. split.
  - destruct H1 as [A1 A2 A3 A4 A5]. split; rewrite ?Es, ?Ei; try assumption. intros y x Hy. apply (A4 y x). exact (Hless y Hy).
  - intros y t' Hy Et' Ha. rewrite Ei in Ha. unfold tip in Etip, Et'. rewrite Es in Et'. cbn [bs_chain set_chain] in Etip. assert (t' = h) as -> by congruence.
    apply Hp in Hy as [_ Hw]. destruct Hh as (bh & Eh & _). destruct (ancestor_work m' Hm' y h bh (ca_works _ H1) Eh Ha) as (b & E & [-> |Hwk] & _); [reflexivity|].
    apply not_true_iff_false in Hw. rewrite (worse_spec addr m' Hm' y h b bh E Eh) in Hw. lia.
  - destruct (proj1 K t bt Et) as (bt' & Et' & Kt).
    assert (Hcov : forall y, usable m' y -> worse addr m' y t = false -> y ∈ cands st).
    { intros y Hy Hw. pose proof (usable_keeps _ _ _ K Hy) as Hy0. apply Hc; [exact Hy0|]. rewrite <- Hw. symmetry. apply worse_keeps; [exact K|apply usable_entry, Hy0|eauto]. }
    pose proof (once_tip_keeps _ _ _ _ K (ex_intro _ bt (conj Et Hbt))) as Hot. assert (Sh : is_Some (m' !! h)) by (destruct Hh as (bh & Eh & _); eauto).
    destruct (worse addr m' t h) eqn:Ew.
    + exists h. split; rewrite Ei; [exact Hh|]. intros y Hy Hw. apply Hp. split; [|exact Hw]. apply Hcov; [exact Hy|].
      apply (not_worse_trans addr m' Hm' y h t); eauto; [apply usable_entry, Hy|]. apply worse_asym; eauto.
    + exists t. split; rewrite Ei; [exact Hot|]. intros y Hy Hw. apply Hp. split; [apply Hcov; assumption|].
      apply (not_worse_trans addr m' Hm' y t h); eauto. apply usable_entry, Hy.
Qed.
Lemma connect_one st t bt h b most given :
  stable st -> best st most -> tip_at (bs_chain st) t bt ->
  index st !! h = Some b -> pprev b = Some t -> good (index st) h -> is_ancestor (index st) h most -> given_law h given ->
  exists s' o, connectTip read flush (undo_io h) (bs_chain st) h given = Some (s', o) /\
    match o with
    | Connected => exists st', PruneBlockIndexCandidates addr (set_chain st s') = Some st' /\ goes st st' /\ best st' most /\
        entry_grows (index st) h (index st') /\ exists b', tip_at (bs_chain st') h b'
    | Rejected r _ => r <> BLOCK_MUTATED /\ forall front, is_Some (index st !! front) -> exists s2,
        InvalidChainFound (bs_chain (erase (set_chain st s') h)) front = Some s2 /\ goes st (set_chain (erase (set_chain st s') h) s2) /\
        (base.size (unfailed (m_block_index (m_blockman s2))) < base.size (unfailed (index st)))%nat
    | Failed => files_ok (index st) -> ~ (forall block, given = Some block -> intact block)
    end.
Proof using Hqueue Hsubsidy Hread Hflush.
  intros [H Hab Hc] [Hin Hmax] Ht E Ep (b0 & E0 & Hf & Hd) Ha Hg. rewrite E in E0. injection E0 as <-.
  destruct (ConnectTip_spec EnableFuzzDeterminism GetHash PoWHash params TxHash WitnessHash Hash2 CacheKey VerifyScript AssumedValidBlock MinimumChainWork HasThreads
    Complete Hqueue txs_of Hsubsidy read flush (undo_io h) (bs_chain st) t bt h b given (ca_chain _ H) Ht E Ep Hread Hflush Hg) as (s' & o & Eo & Ho).
  exists s', o. split; [exact Eo|]. apply ConnectTip_keeps in Eo. cbv zeta in Eo. destruct o as [|r reason|].
  - destruct Ho as (Hs' & (b' & _ & Ht') & _). change (entry_grows (index st) h (m_block_index (m_blockman s'))) in Eo.
    pose proof (entry_grows_keeps _ _ _ Eo) as K.
    assert (H1 : candidates_ok (set_chain st s')).
    { apply (candidates_ok_shrink st (set_chain st s') H Hs' K); [reflexivity|]. intros x bx bx' Ex Ex' Hx.
      destruct (entry_grows_undo _ _ _ _ _ Eo Ex' Hx) as [-> |(b1 & E1 & Hb1)]; [right|left; congruence].
      assert (bx = b) as -> by congruence. split; [exact Hd|]. destruct (ca_linked _ H most h Hin Ha) as (b2 & E2 & Hl2). congruence. }
    assert (Sm : is_Some (index st !! most)) by (apply ca_entry; assumption). assert (Sh : is_Some (index st !! h)) by eauto.
    assert (Hmost : worse addr (m_block_index (m_blockman s')) most h = false).
    { rewrite (worse_keeps addr _ _ _ _ K Sm Sh). destruct Sm as [bm Em]. apply (ancestor_not_better addr (index st) (ca_index _ H) h most bm (ca_works _ H) Em Ha). }
    assert (Etip : tip (set_chain st s') = Some h) by (apply (tip_Tip _ _ _ _ _ _ _ _ _ _ _ Hs' Ht')).
    destruct (PruneBlockIndexCandidates_spec (set_chain st s') h most Etip Hin Hmost) as (st' & Est' & Es' & Eul & Hp). exists st'. split; [exact Est'|]. cbn [bs_chain set_chain] in Es'.
    assert (Ei : index st' = m_block_index (m_blockman s')) by (unfold index; rewrite Es'; reflexivity). split; [|split; [|split]].
    + eapply (pruned_goes st st' s' h); try assumption. apply (tip_once (set_chain st s') h b' h H1 Ht' (is_ancestor_refl _ _)).
    + split; [apply Hp; auto|]. intros y Hy. apply Hp in Hy as [Hy _]. rewrite Ei, (worse_keeps addr _ _ _ _ K Sm (ca_entry _ _ H Hy)). apply Hmax, Hy.
    + rewrite Ei. exact Eo.
    + exists b'. rewrite Es'. exact Ht'.
  - destruct Ho as (Hs' & (bt' & _ & Ht') & _). destruct Eo as (K & U & Hr & b1 & E1 & Hf1). split; [exact Hr|]. intros front [bf Ef]. destruct (proj1 K front bf Ef) as (bf1 & Ef1 & _).
    destruct (InvalidChainFound_spec _ _ _ _ _ _ _ _ s' front bf1 Hs' Ef1) as (s2 & E2 & Hs2 & _ & Ech). exists s2. split; [exact E2|].
    apply InvalidChainFound_keeps in E2 as [K2 U2]. pose proof (index_keeps_trans _ _ _ K K2) as KK. pose proof (undo_keeps_trans _ _ _ U U2) as UU.
    destruct (proj1 K2 h b1 E1) as (b2 & E2 & Kb). pose proof (ek_failed _ _ Kb Hf1) as Hf2. set (st2 := set_chain _ s2). split; [|apply (unfailed_lt _ _ h b b2 KK E Hf E2 Hf2)].
    assert (Hsub : cands st2 ⊆ cands st) by (cbn; set_solver).
    split; [|exact KK|exact Hsub|reflexivity]. split.
    + apply (candidates_ok_shrink st st2 H Hs2 KK Hsub). intros x bx bx' Ex Ex' Hx. left. destruct (UU x bx' Ex' Hx) as (b3 & E3 & Hb3).
      change (index st !! x = Some b3) in E3. congruence.
    + apply (above_shrink st st2 Hab KK); [|exact Hsub]. change (m_chain s2 = m_chain (bs_chain st)). rewrite Ech, (to_chain _ _ _ _ _ _ _ _ _ _ _ Ht'), (to_chain _ _ _ _ _ _ _ _ _ _ _ Ht).
      pose proof (to_entry _ _ _ _ _ _ _ _ _ _ _ Ht) as Et. destruct (proj1 K t bt Et) as (bt1 & Et1 & [(_ & _ & _ & L4 & _) _ _ _ _ _]).
      assert (bt1 = bt') as -> by (pose proof (to_entry _ _ _ _ _ _ _ _ _ _ _ Ht'); congruence). rewrite L4.
      apply (chain_of_grows _ _ t bt _ (ca_index _ H)); [apply (proj1 (index_keeps_same _ _ K))|exact Et|reflexivity].
    + destruct Hc as [t0 Hc]. exists t0. apply (covers_shrink st st2 t0 Hc KK). intros x Hx Hu. cbn. apply elem_of_difference. split; [exact Hx|].
      intros ->%elem_of_singleton. eapply not_usable; [exact E2|apply is_ancestor_refl|left; exact Hf2|exact Hu].
  - intros [F1 F2 F3] Hgi. specialize (Eo (proj1 (F2 h)) F1). destruct given as [block|]; [apply (Hgi block eq_refl), Eo; reflexivity|].
    destruct (F3 h b E Hd) as (block & Er & Hi); [|exact (Hi (Eo block Er))]. intros ->. destruct (ci_genesis _ _ _ _ _ _ _ _ _ (ca_chain _ H)) as (g & Eg & Hg0).
    change (m_block_index _) with (index st) in Eg. congruence.
Qed.

(** *** Connecting a branch *)

(** A step towards [most] that found no invalid block. *)
Record forward most st st' : Prop := {
  fw_goes : goes st st';
  fw_best : best st' most;
  fw_good : forall x, good (index st) x -> good (index st') x
}.
Lemma forward_trans most st st' st'' : forward most st st' -> forward most st' st'' -> forward most st st''.
Proof. intros [A1 A2 A3] [B1 B2 B3]. split; [eapply goes_trans; eassumption|exact B2|auto]. Qed.

Abbreviation connectBlocks := (connect_blocks EnableFuzzDeterminism GetHash PoWHash params TxHash WitnessHash Hash2 CacheKey VerifyScript
  AssumedValidBlock MinimumChainWork HasThreads Complete addr read flush undo_io).
(** The tip has come to [t], or a block was found to be invalid. *)
Definition progress st st' most (r : Progress) (height : Z) (y : option Z) : Prop :=
  match r with
  | SystemError => True
  | Stop true => goes st st' /\ (base.size (unfailed (index st')) < base.size (unfailed (index st)))%nat
  | _ => forward most st st' /\ exists t bt, tip_at (bs_chain st') t bt /\ is_ancestor (index st') t most /\ height < nHeight bt /\ (r = GoOn -> y = Some t)
  end.
Lemma progress_trans st st1 st2 most r height height1 y :
  forward most st st1 -> height <= height1 -> progress st1 st2 most r height1 y -> progress st st2 most r height y.
Proof.
  intros F Hh. destruct r as [|[]|]; cbn [progress]; [| | |auto].
  - intros (F' & t' & bt' & A1 & A2 & A3 & A4). split; [eapply forward_trans; eassumption|]. exists t', bt'. split; [exact A1|]. split; [exact A2|]. split; [lia|exact A4].
  - intros [G Hn]. split; [eapply goes_trans; [apply F|exact G]|]. pose proof (unfailed_le _ _ (go_index _ _ (fw_goes _ _ _ F))). lia.
  - intros (F' & t' & bt' & A1 & A2 & A3 & A4). split; [eapply forward_trans; eassumption|]. exists t', bt'. split; [exact A1|]. split; [exact A2|]. split; [lia|exact A4].
Qed.
Lemma connect_blocks_spec most oldwork pblock front y : given_law most pblock -> forall blocks st t bt,
  stable st -> best st most -> tip_at (bs_chain st) t bt ->
  up_path (index st) t blocks y -> is_ancestor (index st) y most -> (forall x, x ∈ blocks -> good (index st) x) -> is_Some (index st !! front) -> blocks <> [] ->
  exists st' r, connectBlocks blocks front most oldwork pblock st = Some (st', r) /\ progress st st' most r (nHeight bt) (Some y) /\
    (r = SystemError -> files_ok (index st) -> ~ (forall block, pblock = Some block -> intact block)).
Proof using Hqueue Hsubsidy Hread Hflush.
  intros Hg. induction blocks as [|h blocks IH]; intros st t bt Hsb Hb Ht Hp Hy Hgood Hfront Hne; [congruence|]. cbn [connect_blocks].
  pose proof (sb_ok _ Hsb) as H. destruct Hp as [(b & E & Ep) Hp]. pose proof (up_path_ancestor _ _ _ _ Hp) as Hhy.
  assert (Hg1 : given_law h (if h =? most then pblock else None)) by (destruct (Z.eqb_spec h most) as [->|]; [exact Hg|discriminate]).
  destruct (connect_one st t bt h b most _ Hsb Hb Ht E Ep (Hgood h (list_elem_of_here _ _)) (is_ancestor_trans _ _ _ _ Hhy Hy) Hg1) as (s' & o & -> & Ho).
  cbn [mbind option_bind]. cbv zeta. destruct o as [|r reason|].
  - destruct Ho as (st1 & -> & G1 & B1 & Gr & b' & Ht1). cbn [mbind option_bind]. pose proof (go_index _ _ G1) as K. pose proof (go_ok _ _ G1) as H1.
    assert (Et1 : tip st1 = Some h) by (apply (tip_Tip _ _ _ _ _ _ _ _ _ _ _ (ca_chain _ H1) Ht1)). rewrite Et1. cbn [mbind option_bind].
    pose proof (to_entry _ _ _ _ _ _ _ _ _ _ _ Ht1) as Eb1. change (m_block_index _) with (index st1) in Eb1. rewrite Eb1. cbn [mbind option_bind].
    assert (F1 : forward most st st1) by (split; [exact G1|exact B1|intros x; apply (good_grows _ _ _ _ Gr)]).
    assert (Hh : nHeight bt < nHeight b').
    { destruct (proj1 K h b E) as (b1 & E1 & [(_ & _ & _ & L4 & _) _ _ _ _ _]). destruct (eo_link _ _ _ (ca_index _ H h b E) t Ep) as (pb & Epb & Hh & _).
      pose proof (to_entry _ _ _ _ _ _ _ _ _ _ _ Ht) as Ebt. change (m_block_index _) with (index st) in Ebt. assert (pb = bt) as -> by congruence.
      assert (b1 = b') as -> by congruence. lia. }
    assert (Hay : is_ancestor (index st1) y most) by (apply (is_ancestor_keeps _ _ y most K), Hy). assert (Hhy1 : is_ancestor (index st1) h y) by (apply (is_ancestor_keeps _ _ h y K), Hhy).
    destruct (match oldwork with None => true | Some w => gt (nChainWork b') w end).
    + exists st1, (Stop false). split; [reflexivity|]. split; [|discriminate]. split; [exact F1|]. exists h, b'. split; [exact Ht1|]. split; [eapply is_ancestor_trans; eassumption|].
      split; [exact Hh|discriminate].
    + destruct blocks as [|h2 blocks].
      * cbn [connect_blocks]. exists st1, GoOn. split; [reflexivity|]. split; [|discriminate]. split; [exact F1|]. cbn [up_path] in Hp. subst y. exists h, b'. auto.
      * destruct (IH st1 h b' (go_stable _ _ G1) B1 Ht1) as (st' & r & Er & Hr & Hsys); try assumption.
        { apply (up_path_keeps _ _ _ K), Hp. }
        { intros x Hx. apply (good_grows _ _ _ _ Gr), Hgood, list_elem_of_further, Hx. }
        { destruct Hfront as [bf Ef]. destruct (proj1 K front bf Ef) as (bf' & Ef' & _). eauto. }
        { discriminate. }
        exists st', r. split; [exact Er|]. split.
        -- apply (progress_trans st st1 st' most r (nHeight bt) (nHeight b') (Some y) F1); [lia|exact Hr].
        -- intros E1 F. apply Hsys; [exact E1|]. apply (files_ok_keeps _ _ K F).
  - destruct Ho as (Hr & Ho). destruct (Ho front Hfront) as (s2 & E2 & G2 & Hn). 
    destruct r; try congruence; cbn [mbind option_bind]; rewrite E2; cbn [mbind option_bind]; (eexists _, (Stop true); split; [reflexivity|]; split; [|discriminate]; split; [exact G2|exact Hn]).
  - eexists _, SystemError. split; [reflexivity|]. split; [exact I|]. intros _ F Hi. apply (Ho F). destruct (h =? most); [exact Hi|discriminate].
Qed.

Abbreviation connectBatches := (connect_batches EnableFuzzDeterminism GetHash PoWHash params TxHash WitnessHash Hash2 CacheKey VerifyScript
  AssumedValidBlock MinimumChainWork HasThreads Complete addr read flush undo_io).
Lemma connect_batches_spec most oldwork pblock : given_law most pblock -> forall fuel st t bt bm,
  stable st -> best st most -> tip_at (bs_chain st) t bt -> index st !! most = Some bm -> is_ancestor (index st) t most ->
  (forall x, is_ancestor (index st) x most -> is_ancestor (index st) x t \/ good (index st) x) -> nHeight bt < nHeight bm -> nHeight bm - nHeight bt <= Z.of_nat fuel ->
  exists st' r, connectBatches fuel (nHeight bt) most oldwork pblock st = Some (st', r) /\ progress st st' most r (nHeight bt) (Some most) /\
    (r = SystemError -> files_ok (index st) -> ~ (forall block, pblock = Some block -> intact block)).
Proof using Hqueue Hsubsidy Hread Hflush.
  intros Hg. induction fuel as [|fuel IH]; intros st t bt bm Hsb Hb Ht Em Ha Hbr Hlt Hfuel; [lia|]. pose proof (sb_ok _ Hsb) as H. cbn [connect_batches]. rewrite Em. cbn [mbind option_bind].
  rewrite (proj2 (Z.eqb_neq _ _)) by lia. cbv zeta. pose proof (ca_index _ H) as Hm. pose proof (to_entry _ _ _ _ _ _ _ _ _ _ _ Ht) as Et. change (m_block_index _) with (index st) in Et.
  set (target := Z.min (nHeight bt + 32) (nHeight bm)). pose proof (eo_height _ _ _ (Hm t bt Et)) as Hbt.
  rewrite (GetAncestor_spec Hm most bm target Em). replace ((target >? nHeight bm) || (target <? 0)) with false by lia. cbn [mbind option_bind].
  destruct (nth_prev_exists Hm most bm (Z.to_nat (nHeight bm - target)) Em ltac:(lia)) as (y & by' & Ey & Eby & Hy). rewrite Ey.
  assert (Hym : is_ancestor (index st) y most) by (eexists; exact Ey).
  assert (Hty : is_ancestor (index st) t y) by (apply (ancestors_linear _ Hm t y most bm bt by' Em Et Eby Ha Hym); lia).
  destruct (to_connect_spec (index st) Hm (Z.to_nat (target - nHeight bt)) y by' t bt (nHeight bt) Eby Et Hty eq_refl ltac:(lia)) as (l & -> & Hp & Hhd).
  cbn [mbind option_bind]. specialize (Hhd ltac:(lia)). rewrite Hhd. cbn [mbind option_bind].
  assert (Hne : reverse l <> []) by (destruct l; [discriminate|]; rewrite reverse_cons; intros E0; apply app_eq_nil in E0 as [_ E0]; discriminate).
  assert (Hgood : forall x, x ∈ reverse l -> good (index st) x).
  { intros x Hx. destruct (up_path_height _ Hm _ x _ _ _ Hp Et Hx) as (bx & Ex & Hbx). destruct (Hbr x) as [Hxt|Hxg]; [|pose proof (ancestor_height _ Hm x t bt bx Et Ex Hxt); lia|exact Hxg].
    eapply is_ancestor_trans; [exact (up_path_elem _ _ x _ _ Hp Hx)|exact Hym]. }
  destruct (connect_blocks_spec most oldwork pblock y y Hg (reverse l) st t bt Hsb Hb Ht Hp Hym Hgood (mk_is_Some _ _ Eby) Hne) as (st1 & r & -> & Hr & Hsys).
  cbn [mbind option_bind]. destruct r as [|inv|].
  - destruct Hr as (F & t1 & bt1 & Ht1 & Ha1 & Hh1 & E1). injection (E1 eq_refl) as <-. pose proof (go_index _ _ (fw_goes _ _ _ F)) as K.
    assert (Hb1 : nHeight bt1 = target).
    { pose proof (to_entry _ _ _ _ _ _ _ _ _ _ _ Ht1) as Ety. change (m_block_index _) with (index st1) in Ety.
      destruct (proj1 K y by' Eby) as (b' & E' & [(_ & _ & _ & L4 & _) _ _ _ _ _]). assert (b' = bt1) as -> by congruence. lia. }
    destruct (proj1 K most bm Em) as (bm1 & Em1 & [(_ & _ & _ & Lm & _) _ _ _ _ _]). rewrite <- Hb1. destruct (Z.eq_dec (nHeight bt1) (nHeight bm1)) as [Heq|Hneq].
    + assert (y = most) as -> by (apply (ancestor_same_height _ (ca_index _ (go_ok _ _ (fw_goes _ _ _ F))) y most bm1 bt1 Em1 (to_entry _ _ _ _ _ _ _ _ _ _ _ Ht1) Ha1 Heq)).
      exists st1, GoOn. split; [destruct fuel; cbn [connect_batches]; rewrite Em1; cbn [mbind option_bind]; rewrite Heq, Z.eqb_refl; reflexivity|].
      split; [|discriminate]. split; [exact F|]. exists most, bt1. auto.
    + destruct (IH st1 y bt1 bm1 (go_stable _ _ (fw_goes _ _ _ F)) (fw_best _ _ _ F) Ht1 Em1 Ha1) as (st' & r & -> & Hr & Hs); [|lia|lia|].
      { intros x Hx. destruct (Hbr x) as [Hxt|Hxg]; [apply (is_ancestor_keeps _ _ x most K), Hx| |right; apply (fw_good _ _ _ F), Hxg].
        left. apply (is_ancestor_keeps _ _ x y K). eapply is_ancestor_trans; eassumption. }
      exists st', r. split; [reflexivity|]. split; [apply (progress_trans st st1 st' most r (nHeight bt) (nHeight bt1) (Some most) F); [lia|exact Hr]|].
      intros E Fi. apply Hs; [exact E|]. apply (files_ok_keeps _ _ K Fi).
  - exists st1, (Stop inv). split; [reflexivity|]. split; [|discriminate]. destruct inv; [exact Hr|].
    destruct Hr as (F & t1 & bt1 & A1 & A2 & A3 & _). split; [exact F|]. exists t1, bt1. split; [exact A1|]. split; [exact A2|]. split; [exact A3|discriminate].
  - exists st1, SystemError. split; [reflexivity|]. split; [exact I|exact Hsys].
Qed.

(** *** One step *)

Lemma genesis_ancestor st h : candidates_ok st -> is_Some (index st !! h) -> is_ancestor (index st) genesis h.
Proof.
  intros H [b E]. pose proof (ca_index _ H) as Hm. pose proof (eo_height _ _ _ (Hm h b E)) as Hh.
  destruct (nth_prev_exists Hm h b (Z.to_nat (nHeight b)) E ltac:(lia)) as (x & bx & Ex & Ebx & Hx). replace genesis with x; [eexists; exact Ex|].
  apply (ca_root _ H x bx Ebx). destruct (pprev bx) as [p|] eqn:Ep; [|reflexivity]. destruct (eo_link _ _ _ (Hm x bx Ebx) p Ep) as (pb & Epb & Hpb & _).
  pose proof (eo_height _ _ _ (Hm p pb Epb)). lia.
Qed.
Lemma disconnected_stable st s' t f bf :
  stable st -> tip st = Some t -> state_ok s' -> m_blockman s' = m_blockman (bs_chain st) -> tip_at s' f bf -> is_ancestor (index st) f t -> stable (set_chain st s').
Proof.
  intros [H Hab (t0 & Hc)] Et Hs' Em Hf Hft. assert (Ei : index (set_chain st s') = index st) by (unfold index; cbn; rewrite Em; reflexivity). split.
  - apply (candidates_ok_shrink st (set_chain st s') H Hs'); [rewrite Ei; apply index_keeps_refl|reflexivity|]. rewrite Ei. intros x b b' E E' Hb. left. congruence.
  - intros h t' Hh Et' Ha. rewrite Ei in Ha. unfold tip in Et'. cbn [bs_chain set_chain] in Et'. rewrite (tip_Tip _ _ _ _ _ _ _ _ _ _ _ Hs' Hf) in Et'. injection Et' as <-.
    assert (h = t) as -> by (apply (Hab h t Hh Et); eapply is_ancestor_trans; eassumption).
    destruct (ca_entry st t H Hh) as [bt Ebt]. pose proof (to_entry _ _ _ _ _ _ _ _ _ _ _ Hf) as Ef. rewrite Em in Ef. change (m_block_index _) with (index st) in Ef.
    pose proof (ca_index _ H) as Hm. apply (ancestor_same_height _ Hm t f bf bt Ef Ebt Ha).
    pose proof (ancestor_height _ Hm t f bf bt Ef Ebt Ha). pose proof (ancestor_height _ Hm f t bt bf Ebt Ef Hft). lia.
  - exists t0. apply (covers_shrink st (set_chain st s') t0 Hc); [rewrite Ei; apply index_keeps_refl|auto].
Qed.

Abbreviation step := (ActivateBestChainStep EnableFuzzDeterminism GetHash PoWHash params TxHash WitnessHash Hash2 CacheKey VerifyScript
  AssumedValidBlock MinimumChainWork HasThreads Complete addr read flush undo_io read_ok).
(** A step marks a block as failed, or leads to a tip on the branch to [most]:
    a higher one, if the tip was on it before. *)
Definition stepped st st' most (t : Z) (bt : CBlockIndex) (invalid : bool) : Prop :=
  if invalid then goes st st' /\ (base.size (unfailed (index st')) < base.size (unfailed (index st)))%nat
  else goes st st' /\ most_work st' most /\ exists t' bt', tip_at (bs_chain st') t' bt' /\ is_ancestor (index st') t' most /\
         (is_ancestor (index st) t most -> nHeight bt < nHeight bt').

Lemma ActivateBestChainStep_spec st most pblock t bt :
  stable st -> most_work st most -> tip_at (bs_chain st) t bt -> t <> most -> given_law most pblock ->
  exists st' ok inv, step st most pblock = Some (st', ok, inv) /\ (ok = true -> stepped st st' most t bt inv) /\
    (ok = false -> files_ok (index st) -> ~ (forall block, pblock = Some block -> intact block)).
Proof using Hqueue Hsubsidy Hread Hflush.
  intros Hsb [Hb Hbr] Ht Hne Hg. pose proof (sb_ok _ Hsb) as H. pose proof (ca_index _ H) as Hm. pose proof (ca_chain _ H) as Hs. destruct (ca_entry st most H (proj1 Hb)) as [bm Em].
  assert (Et : tip st = Some t) by (apply (tip_Tip _ _ _ _ _ _ _ _ _ _ _ Hs Ht)). pose proof (to_entry _ _ _ _ _ _ _ _ _ _ _ Ht) as Ebt. change (m_block_index _) with (index st) in Ebt.
  unfold ActivateBestChainStep. cbv zeta. rewrite Et, Ebt. cbn [mbind option_bind].
  replace (FindFork (index st) (m_chain (bs_chain st)) (Some most)) with (FindFork (index st) (chain_of (index st) t (nHeight bt)) (Some most))
    by (rewrite (to_chain _ _ _ _ _ _ _ _ _ _ _ Ht); reflexivity).
  destruct (FindFork_spec Hm t bt Ebt most bm Em) as (r & -> & Hr). cbn [mbind option_bind].
  destruct r as [f|]; [|destruct (Hr genesis (genesis_ancestor st most H (mk_is_Some _ _ Em)) (genesis_ancestor st t H (mk_is_Some _ _ Ebt)))].
  destruct Hr as (Hfm & Hft & Hfmax). destruct (ca_linked _ H most f (proj1 Hb) Hfm) as (bf & Ef & _).
  assert (Hdata : forall x b, is_ancestor (index st) x t -> index st !! x = Some b -> have_data b = true).
  { intros x b Hx Ex. destruct (tip_once st t bt x H Ht Hx) as (b' & E' & Hb'). assert (b' = b) as -> by congruence. apply (ca_data _ H x b Ex Hb'). }
  assert (Hlen : nHeight bt - nHeight bf <= Z.of_nat (length (m_chain (bs_chain st)))).
  { rewrite (to_chain _ _ _ _ _ _ _ _ _ _ _ Ht), length_chain_of. pose proof (eo_height _ _ _ (Hm f bf Ef)). pose proof (eo_height _ _ _ (Hm t bt Ebt)). lia. }
  destruct (disconnect_to_spec f bf _ (bs_chain st) t bt Hs Ht Ef Hft Hlen Hdata) as (s1 & ok & -> & Eman & Hok & Hfi). cbn [mbind option_bind].
  destruct ok; cbn [negb]; [|exists (set_chain st s1), false, false; split; [reflexivity|]; split; [discriminate|intros _ F; discriminate (Hfi F)]].
  destruct (Hok eq_refl) as (Hs1 & bf' & Htf). pose proof (disconnected_stable st s1 t f bf' Hsb Et Hs1 Eman Htf Hft) as Hsb1.
  assert (Ei : index (set_chain st s1) = index st) by (unfold index; cbn; rewrite Eman; reflexivity). rewrite Ei, Ef, Em. cbn [mbind option_bind].
  assert (bf' = bf) as -> by (pose proof (to_entry _ _ _ _ _ _ _ _ _ _ _ Htf) as E0; rewrite Eman in E0; change (index st !! f = Some bf') in E0; congruence).
  assert (Hlt : nHeight bf < nHeight bm).
  { pose proof (ancestor_height _ Hm f most bm bf Em Ef Hfm). destruct (Z.eq_dec (nHeight bf) (nHeight bm)) as [Heq|]; [|lia].
    pose proof (ancestor_same_height _ Hm f most bm bf Em Ef Hfm Heq) as ->. destruct Hne. symmetry. apply (sb_above _ Hsb most t (proj1 Hb) Et Hft). }
  destruct (connect_batches_spec most (Some (nChainWork bt)) pblock Hg (Z.to_nat (nHeight bm - nHeight bf)) (set_chain st s1) f bf bm Hsb1) as (st' & r & -> & Hr & Hsys).
  - destruct Hb as [Hb1 Hb2]. split; [exact Hb1|]. rewrite Ei. exact Hb2.
  - exact Htf.
  - rewrite Ei. exact Em.
  - rewrite Ei. exact Hfm.
  - rewrite Ei. intros x Hx. destruct (Hbr t x Et Hx) as [Hxt|Hxg]; [left; apply Hfmax; assumption|right; exact Hxg].
  - exact Hlt.
  - lia.
  - cbn [mbind option_bind]. rewrite Ei in Hsys. assert (G0 : forall st2, goes (set_chain st s1) st2 -> goes st st2) by (intros st2 [A1 A2 A3 A4]; split; [exact A1|rewrite Ei in A2; exact A2|exact A3|]; intros Hcm; apply A4; intros y x b; rewrite Ei; apply Hcm).
    assert (Hfwd : forall r, (r = GoOn \/ r = Stop false) -> progress (set_chain st s1) st' most r (nHeight bf) (Some most) -> stepped st st' most t bt false).
    { intros r0 Hr0 Hp. assert (Hp' : forward most (set_chain st s1) st' /\ exists t' bt', tip_at (bs_chain st') t' bt' /\ is_ancestor (index st') t' most /\ nHeight bf < nHeight bt').
      { destruct Hr0 as [-> | ->]; cbn [progress] in Hp; destruct Hp as (F & t' & bt' & A1 & A2 & A3 & _); eauto 8. }
      destruct Hp' as (F & t' & bt' & A1 & A2 & A3). destruct F as [G Bst Gd]. pose proof (go_index _ _ G) as K. rewrite Ei in K, Gd. pose proof (go_ok _ _ G) as H'.
      pose proof (to_entry _ _ _ _ _ _ _ _ _ _ _ A1) as Et'. change (m_block_index _) with (index st') in Et'. destruct (ca_entry st' most H' (proj1 Bst)) as [bm' Em'].
      destruct (proj1 K f bf Ef) as (bf1 & Ef1 & [(_ & _ & _ & Lf & _) _ _ _ _ _]).
      assert (Hft' : is_ancestor (index st') f t').
      { apply (ancestors_linear _ (ca_index _ H') f t' most bm' bf1 bt' Em' Ef1 Et'); [apply (is_ancestor_keeps _ _ f most K), Hfm|exact A2|lia]. }
      split; [apply G0, G|]. split.
      - split; [exact Bst|]. intros t2 x Et2 Hx. assert (t2 = t') as -> by (unfold tip in Et2; rewrite (tip_Tip _ _ _ _ _ _ _ _ _ _ _ (ca_chain _ H') A1) in Et2; congruence).
        apply (is_ancestor_keeps _ _ x most K) in Hx. destruct (Hbr t x Et Hx) as [Hxt|Hxg]; [left|right; apply Gd, Hxg].
        eapply is_ancestor_trans; [apply (is_ancestor_keeps _ _ x f K), Hfmax; assumption|exact Hft'].
      - exists t', bt'. split; [exact A1|]. split; [exact A2|]. intros Htm. pose proof (Hfmax t Htm (is_ancestor_refl _ _)) as Htf2. pose proof (ancestor_height _ Hm t f bf bt Ef Ebt Htf2). lia. }
    destruct r as [|inv|].
    + exists st', true, false. split; [reflexivity|]. split; [|discriminate]. intros _. apply (Hfwd GoOn); auto.
    + exists st', true, inv. split; [reflexivity|]. split; [|discriminate]. intros _. destruct inv; [|apply (Hfwd (Stop false)); auto].
      destruct Hr as [G Hn]. rewrite Ei in Hn. split; [apply G0, G|exact Hn].
    + exists st', false, false. split; [reflexivity|]. split; [discriminate|]. intros _. apply Hsys. reflexivity.
Qed.

(** ** Activation *)

(** No block of the index is higher than [K]. *)
Context (K : nat).
Definition heights_below (m : BlockMap) : Prop := forall h b, m !! h = Some b -> nHeight b <= Z.of_nat K.
Lemma heights_below_keeps m m' : index_keeps m m' -> heights_below m -> heights_below m'.
Proof. intros Ki H h b' E. destruct (index_keeps_back _ _ _ _ Ki E) as (b & Eb & [(_ & _ & _ & L4 & _) _ _ _ _ _]). rewrite L4. apply (H h b Eb). Qed.
(** [n] bounds the steps that are left: a block fails, or the tip comes closer
    to the block [most] that it is on the way to. *)
Definition within st (most : option Z) (n : nat) : Prop :=
  exists d, (base.size (unfailed (index st)) * (K + 2) + d <= n)%nat /\
    (d = (K + 1)%nat \/ exists mw t bt bm, most = Some mw /\ tip_at (bs_chain st) t bt /\ index st !! mw = Some bm /\ is_ancestor (index st) t mw /\
                    nHeight bm - nHeight bt <= Z.of_nat d).
Definition most_inv st (most : option Z) : Prop := forall mw, most = Some mw -> most_work st mw.
Lemma within_fresh st st' most most' n : index_keeps (index st) (index st') -> most = None -> within st most n -> within st' most' n.
Proof.
  intros Ki -> (d & Hd & [-> |(mw & t & bt & bm & E & _)]); [|discriminate]. exists (K + 1)%nat. split; [|auto].
  pose proof (unfailed_le _ _ Ki). nia.
Qed.
Lemma within_step st st' mw t bt inv n :
  stable st -> heights_below (index st) -> is_Some (index st !! mw) -> tip_at (bs_chain st) t bt -> t <> mw -> stepped st st' mw t bt inv -> within st (Some mw) n ->
  exists n', (n' < n)%nat /\ within st' (if inv then None else Some mw) n'.
Proof.
  intros Hsb HK [bm Em] Ht Hne Hstep (d & Hd & Hcase). unfold stepped in Hstep. destruct inv.
  - destruct Hstep as [_ Hn]. exists (base.size (unfailed (index st')) * (K + 2) + (K + 1))%nat. split; [nia|]. exists (K + 1)%nat. split; [lia|auto].
  - destruct Hstep as (G & _ & t' & bt' & Ht' & Ha & Hgt). pose proof (unfailed_le _ _ (go_index _ _ G)) as Hle.
    destruct (proj1 (go_index _ _ G) mw bm Em) as (bm' & Em' & [(_ & _ & _ & L4 & _) _ _ _ _ _]). pose proof (ca_index _ (go_ok _ _ G)) as Hm'.
    pose proof (to_entry _ _ _ _ _ _ _ _ _ _ _ Ht') as Et'. change (m_block_index _) with (index st') in Et'. pose proof (eo_height _ _ _ (Hm' t' bt' Et')) as Hbt'. pose proof (HK mw bm Em) as Hbm.
    assert (Hd' : exists d', (d' < d)%nat /\ nHeight bm' - nHeight bt' <= Z.of_nat d').
    { destruct Hcase as [-> |(mw' & t0 & bt0 & bm0 & [= <-] & Ht0 & Em0 & Ha0 & Hh0)]; [exists K; lia|]. assert (bm0 = bm) as -> by congruence.
      pose proof (sb_ok _ Hsb) as H. pose proof (tip_Tip _ _ _ _ _ _ _ _ _ _ _ (ca_chain _ H) Ht0) as E0. rewrite (tip_Tip _ _ _ _ _ _ _ _ _ _ _ (ca_chain _ H) Ht) in E0. injection E0 as <-.
      assert (bt0 = bt) as -> by (pose proof (to_entry _ _ _ _ _ _ _ _ _ _ _ Ht); pose proof (to_entry _ _ _ _ _ _ _ _ _ _ _ Ht0); congruence).
      specialize (Hgt Ha0). pose proof (ancestor_height _ Hm' t' mw bm' bt' Em' Et' Ha). exists (d - 1)%nat. lia. }
    destruct Hd' as (d' & Hlt & Hd'). exists (base.size (unfailed (index st')) * (K + 2) + d')%nat. split; [nia|]. exists d'. split; [lia|]. right.
    exists mw, t', bt', bm'. auto.
Qed.

(** The tip is the best candidate, or no candidate is left. *)
Definition final st : Prop := cands st = ∅ \/ exists t, tip st = Some t /\ best st t.
Abbreviation inner := (activate_inner EnableFuzzDeterminism GetHash PoWHash params TxHash WitnessHash Hash2 CacheKey VerifyScript
  AssumedValidBlock MinimumChainWork HasThreads Complete addr read flush undo_io read_ok).
Abbreviation outer := (activate_outer EnableFuzzDeterminism GetHash PoWHash params TxHash WitnessHash Hash2 CacheKey VerifyScript
  AssumedValidBlock MinimumChainWork HasThreads Complete addr read flush undo_io read_ok).
Context (pblock : option CBlock).
(** The block that is given, if the data of its entry are stored: a block that
    was not stored is not connected. *)
Definition given_ok st : Prop := forall block b, pblock = Some block -> index st !! GetHash (header block) = Some b -> have_data b = true ->
  block_of EnableFuzzDeterminism GetHash PoWHash params TxHash Hash2 txs_of (GetHash (header block)) block.
Lemma given_ok_keeps st st' : index_keeps (index st) (index st') -> given_ok st -> given_ok st'.
Proof.
  intros Ki H block b' Ep E Hd. destruct (index_keeps_back _ _ _ _ Ki E) as (b & Eb & Kb). apply (H block b Ep Eb). rewrite <- (ek_data _ _ Kb). exact Hd.
Qed.

Lemma drops_stable st st' : stable st -> drops st st' -> stable st'.
Proof.
  intros [H1 H2 (t & H3)] [D1 D2 D3 D4 D5]. split; [exact D1|exact (above_shrink _ _ H2 D2 D3 D4)|]. exists t. exact (covers_shrink _ _ _ H3 D2 D5).
Qed.
(** [pindexMostWork] is found. *)
Lemma find_most st most n :
  stable st -> most_inv st most -> within st most n ->
  exists st' most', (match most with None => FindMostWorkChain addr st | Some _ => Some (st, most) end) = Some (st', most') /\
    goes st st' /\ tip st' = tip st /\ most_inv st' most' /\ within st' most' n /\ (most' = None -> cands st' = ∅).
Proof.
  intros Hsb Hi Hw. destruct most as [mw|].
  - exists st, (Some mw). split; [reflexivity|]. split; [apply goes_refl, Hsb|]. split; [reflexivity|]. split; [exact Hi|]. split; [exact Hw|discriminate].
  - destruct (FindMostWorkChain_spec st (sb_ok _ Hsb)) as (st' & r & -> & D & El & Hr). exists st', r. split; [reflexivity|].
    split; [split; [exact (drops_stable _ _ Hsb D)|apply D|apply D|exact El]|]. split; [unfold tip; rewrite (dr_chain _ _ D); reflexivity|].
    split; [intros mw ->; exact Hr|]. split; [exact (within_fresh _ _ _ _ _ (dr_index _ _ D) eq_refl Hw)|]. intros ->. exact Hr.
Qed.

(** What the inner loop answers from a state that [n] bounds. *)
Definition inner_post st (connected : bool) (n : nat) (r : option (BestState (B := B) (C := C) * option Z * option Z * bool * bool)) : Prop :=
  exists st' most' newtip' connected' ok, r = Some (st', most', newtip', connected', ok) /\
    (ok = true -> goes st st' /\ most_inv st' most' /\ (connected' = true -> newtip' = tip st') /\ (connected' = false -> final st') /\
       exists n', within st' most' n' /\ (n' <= n)%nat /\ (connected = false -> connected' = true -> (n' < n)%nat)) /\
    (ok = false -> files_ok (index st) -> ~ (forall block, pblock = Some block -> intact block)).
Lemma activate_inner_spec start : forall fuel st most newtip connected n,
  stable st -> given_ok st -> heights_below (index st) -> most_inv st most -> within st most n -> (n < fuel)%nat -> (connected = true -> newtip = tip st) ->
  inner_post st connected n (inner fuel start pblock st most newtip connected).
Proof using Hqueue Hsubsidy Hread Hflush.
  induction fuel as [|fuel IH]; intros st most newtip connected n Hsb Hgo HK Hi Hw Hn Hnew; [lia|]. cbn [activate_inner].
  destruct (find_most st most n Hsb Hi Hw) as (st1 & most1 & -> & G1 & Et1 & Hi1 & Hw1 & Hnone). cbn [mbind option_bind].
  pose proof (go_stable _ _ G1) as Hsb1. pose proof (sb_ok _ Hsb1) as H1.
  assert (Hstop : final st1 -> inner_post st connected n (Some (st1, most1, newtip, connected, true))).
  { intros Hf. eexists _, _, _, _, _. split; [reflexivity|]. split; [intros _|discriminate]. split; [exact G1|]. split; [exact Hi1|]. split; [intros Hc; rewrite Et1; auto|].
    split; [auto|]. exists n. split; [exact Hw1|]. split; [lia|congruence]. }
  destruct most1 as [mw|]; [|apply Hstop; left; auto]. destruct (bool_decide_reflect (tip st1 = Some mw)) as [Etip|Hne].
  { apply Hstop. right. exists mw. split; [exact Etip|apply (Hi1 mw eq_refl)]. }
  clear Hstop. destruct (ca_tip st1 H1) as (t & bt & Et & Ht). destruct (Hi1 mw eq_refl) as [Hb Hbr]. destruct (ca_entry st1 mw H1 (proj1 Hb)) as [b E].
  rewrite E. cbn [mbind option_bind]. rewrite (eo_hash _ _ _ (ca_index _ H1 mw b E)). cbn [mbind option_bind]. set (given := match pblock with Some _ => _ | None => None end).
  assert (Hg : given_law mw given /\ ((forall block, pblock = Some block -> intact block) -> forall block, given = Some block -> intact block)).
  { unfold given. destruct pblock as [block|] eqn:Epb; [|split; discriminate]. destruct (Z.eqb_spec (GetHash (header block)) mw) as [Eh|]; [|split; discriminate].
    split; [|auto]. intros block' [= <-]. destruct (Hbr t mw Et (is_ancestor_refl _ _)) as [Ha|(bm & Em & _ & Hd)]; [destruct (Hne (eq_trans Et (f_equal Some (eq_sym (sb_above _ Hsb1 mw t (proj1 Hb) Et Ha)))))|].
    rewrite <- Eh in Em |- *. apply (given_ok_keeps _ _ (go_index _ _ G1) Hgo block bm Epb Em Hd). }
  destruct Hg as [Hg Hgi]. assert (Hne' : t <> mw) by congruence.
  destruct (ActivateBestChainStep_spec st1 mw given t bt Hsb1 (Hi1 mw eq_refl) Ht Hne' Hg) as (st2 & ok & inv & -> & Hstep & Hsys). cbn [mbind option_bind].
  destruct ok; cbn [negb].
  2: { eexists _, _, _, _, _. split; [reflexivity|]. split; [discriminate|]. intros _ F Hpi. apply (Hsys eq_refl); [apply (files_ok_keeps _ _ (go_index _ _ G1) F)|apply Hgi, Hpi]. }
  specialize (Hstep eq_refl). pose proof (heights_below_keeps _ _ (go_index _ _ G1) HK) as HK1.
  destruct (within_step st1 st2 mw t bt inv n Hsb1 HK1 (mk_is_Some _ _ E) Ht Hne' Hstep Hw1) as (n2 & Hn2 & Hw2).
  assert (G2 : goes st1 st2) by (unfold stepped in Hstep; destruct inv; apply Hstep). assert (G : goes st st2) by (eapply goes_trans; eassumption).
  assert (Hi2 : most_inv st2 (if inv then None else Some mw)) by (unfold stepped in Hstep; destruct inv; [discriminate|intros mw' [= <-]; apply Hstep]).
  destruct (ca_tip st2 (go_ok _ _ G2)) as (t2 & bt2 & Et2 & _). rewrite Et2.
  assert (Hgoes : inner_post st connected n (inner fuel start pblock st2 (if inv then None else Some mw) (Some t2) true)).
  { destruct (IH st2 (if inv then None else Some mw) (Some t2) true n2 (go_stable _ _ G2) (given_ok_keeps _ _ (go_index _ _ G) Hgo) (heights_below_keeps _ _ (go_index _ _ G) HK) Hi2 Hw2 ltac:(lia)) as (st' & most' & nt' & c' & ok' & -> & Hok & Hno); [auto|].
    exists st', most', nt', c', ok'. split; [reflexivity|]. split.
    - intros ->. destruct (Hok eq_refl) as (A1 & A2 & A3 & A4 & n' & A5 & A6 & _). split; [eapply goes_trans; eassumption|]. split; [exact A2|]. split; [exact A3|]. split; [exact A4|].
      exists n'. split; [exact A5|]. split; [lia|intros; lia].
    - intros -> F. apply (Hno eq_refl). apply (files_ok_keeps _ _ (go_index _ _ G) F). }
  assert (Hdone : inner_post st connected n (Some (st2, (if inv then None else Some mw), Some t2, true, true))).
  { eexists _, _, _, _, _. split; [reflexivity|]. split; [intros _|discriminate]. split; [exact G|]. split; [exact Hi2|]. split; [auto|]. split; [discriminate|]. exists n2. split; [exact Hw2|]. split; [lia|auto]. }
  destruct start as [t0|]; [|exact Hdone]. destruct (worse addr (index st2) t2 t0); [exact Hgoes|exact Hdone].
Qed.

(** *** Flushing *)

Lemma flushed_stable st st' most n :
  stable st -> most_inv st most -> within st most n -> periodic_flush flush st = Some st' ->
  goes st st' /\ most_inv st' most /\ within st' most n /\ tip st' = tip st /\ (final st -> final st').
Proof using Hflush.
  intros [H Hab Hc] Hi Hw. unfold periodic_flush. cbv zeta. destruct (flush (CoinsTip (bs_chain st))) as [c|] eqn:Ef; [|discriminate]. cbn [mbind option_bind]. intros [= <-].
  pose proof (ca_chain _ H) as Hs. destruct (Hflush _ c (ci_view _ _ _ _ _ _ _ _ _ Hs) Ef) as (F1 & F2 & F3).
  destruct (chainstate_ok_index params TxHash WitnessHash CacheKey VerifyScript AssumedValidBlock MinimumChainWork txs_of (bs_chain st) c (m_blockman (bs_chain st)) (m_validation_cache (bs_chain st)) (m_best_invalid (bs_chain st))) as [Hs' Htip];
    try assumption; try apply Hs; [apply index_same_refl|eauto|]. set (st' := set_chain st _).
  split; [split; [split|apply index_keeps_refl|reflexivity|reflexivity]|split; [|split; [|split; [reflexivity|]]]].
  - destruct H as [A1 A2 A3 A4 A5]. split; assumption.
  - exact Hab.
  - exact Hc.
  - intros mw E. exact (Hi mw E).
  - destruct Hw as (d & Hd & Hcase). exists d. split; [exact Hd|]. destruct Hcase as [Hcase|(mw & t & bt & bm & E1 & E2 & E3 & E4 & E5)]; [auto|right].
    destruct (Htip t bt E2) as (bt' & Hb & Ht'). exists mw, t, bt', bm. split; [exact E1|]. split; [exact Ht'|]. split; [exact E3|]. split; [exact E4|lia].
  - exact (fun Hf => Hf).
Qed.

Lemma activate_outer_spec : forall fuel st most newtip n,
  stable st -> given_ok st -> heights_below (index st) -> most_inv st most -> within st most n -> (n + 1 < fuel)%nat ->
  exists st' ok, outer fuel pblock st most newtip = Some (st', ok) /\ (ok = true -> goes st st' /\ final st') /\
    (ok = false -> files_ok (index st) -> ~ (forall block, pblock = Some block -> intact block)).
Proof using Hqueue Hsubsidy Hread Hflush.
  induction fuel as [|fuel IH]; intros st most newtip n Hsb Hgo HK Hi Hw Hn; [lia|]. cbn [activate_outer].
  destruct (activate_inner_spec (tip st) fuel st most newtip false n Hsb Hgo HK Hi Hw ltac:(lia) ltac:(discriminate)) as (st1 & most1 & nt1 & c1 & ok1 & -> & Hok & Hno).
  cbn [mbind option_bind]. destruct ok1; cbn [negb]; [|exists st1, false; split; [reflexivity|]; split; [discriminate|exact Hno]].
  destruct (Hok eq_refl) as (G1 & Hi1 & Hnt & Hfin & n1 & Hw1 & Hn1 & Hlt). destruct c1; cbn [negb].
  2: { exists st1, true. split; [reflexivity|]. split; [|discriminate]. intros _. auto. }
  destruct (periodic_flush flush st1) as [st2|] eqn:Ef.
  2: { exists st1, false. split; [reflexivity|]. split; [discriminate|]. intros _ F _. unfold periodic_flush in Ef. cbv zeta in Ef.
       destruct (fi_flush _ F (CoinsTip (bs_chain st1))) as [c Hc]. rewrite Hc in Ef. discriminate. }
  destruct (flushed_stable st1 st2 most1 n1 (go_stable _ _ G1) Hi1 Hw1 Ef) as (G2 & Hi2 & Hw2 & Et2 & _). assert (G : goes st st2) by (eapply goes_trans; eassumption).
  rewrite (Hnt eq_refl). destruct (bool_decide_reflect (tip st1 = most1)) as [Eq|Hneq].
  - exists st2, true. split; [reflexivity|]. split; [|discriminate]. intros _. split; [exact G|]. destruct (ca_tip st2 (go_ok _ _ G2)) as (t & bt & Et & _).
    right. exists t. split; [exact Et|]. apply (Hi2 t). congruence.
  - destruct (IH st2 most1 (tip st1) n1 (go_stable _ _ G2) (given_ok_keeps _ _ (go_index _ _ G) Hgo) (heights_below_keeps _ _ (go_index _ _ G) HK) Hi2 Hw2) as (st' & ok & -> & Hok' & Hno'); [specialize (Hlt eq_refl eq_refl); lia|].
    exists st', ok. split; [reflexivity|]. split.
    + intros E. destruct (Hok' E) as [G' Hf]. split; [eapply goes_trans; eassumption|exact Hf].
    + intros E F. apply (Hno' E). apply (files_ok_keeps _ _ (go_index _ _ G) F).
Qed.

(** When no block that was connected has failed, the tip is the best block. *)
Lemma final_best st : stable st -> final st -> steady genesis (index st) ->
  exists t, tip st = Some t /\ covers st t /\ forall h, usable (index st) h -> worse addr (index st) t h = false.
Proof.
  intros [H Hab (t0 & Ht0 & Hc)] Hf Hst. pose proof (once_tip_usable st t0 H Hst Ht0) as Hu. destruct Ht0 as (b0 & E0 & Hb0). pose proof (ca_index _ H) as Hm.
  pose proof (Hc t0 Hu (worse_irrefl addr _ Hm t0 b0 E0)) as Hin. destruct Hf as [Hempty|(t & Et & Ht & Hmax)]; [rewrite Hempty in Hin; apply not_elem_of_empty in Hin; contradiction|]. exists t. split; [exact Et|].
  destruct (ca_tip st H) as (t' & bt & Et' & Hto). assert (t' = t) as -> by congruence. assert (St : is_Some (index st !! t)) by (apply ca_entry; assumption).
  assert (Hbest : forall h, usable (index st) h -> worse addr (index st) t h = false).
  { intros h Hh. destruct (worse addr (index st) h t0) eqn:Ew; [|apply Hmax, Hc; assumption]. apply not_true_iff_false. intros Ew'.
    pose proof (worse_trans addr _ Hm t h t0 St (usable_entry _ _ Hh) (mk_is_Some _ _ E0) Ew' Ew) as Ew0. rewrite (Hmax t0 Hin) in Ew0. discriminate. }
  split; [|exact Hbest]. split; [exact (tip_once st t bt t H Hto (is_ancestor_refl _ _))|]. intros h Hh Hw. apply Hc; [exact Hh|].
  apply (not_worse_trans addr _ Hm h t t0); eauto. apply usable_entry, Hh.
Qed.

(** The state between two calls. *)
Record ready st : Prop := {
  rd_ok : candidates_ok st;
  rd_above : above st;
  rd_covers : exists t, tip st = Some t /\ covers st t
}.

Lemma ready_stable st : ready st -> stable st.
Proof. intros [H1 H2 (t & _ & H3)]. split; [exact H1|exact H2|eauto]. Qed.
Abbreviation activate := (ActivateBestChain EnableFuzzDeterminism GetHash PoWHash params TxHash WitnessHash Hash2 CacheKey VerifyScript
  AssumedValidBlock MinimumChainWork HasThreads Complete addr read flush undo_io read_ok).
(** Turns that are enough. *)
Definition enough_fuel (m : BlockMap) (fuel : nat) : Prop := (base.size m * (K + 2) + K + 2 < fuel)%nat.
Lemma ActivateBestChain_spec st fuel :
  stable st -> given_ok st -> heights_below (index st) -> enough_fuel (index st) fuel ->
  exists st' ok, activate fuel pblock st = Some (st', ok) /\ (ok = true -> goes st st' /\ final st') /\
    (ok = false -> files_ok (index st) -> ~ (forall block, pblock = Some block -> intact block)).
Proof using Hqueue Hsubsidy Hread Hflush.
  intros Hsb Hgo HK Hfuel.
  assert (Hsize : (base.size (unfailed (index st)) <= base.size (index st))%nat).
  { rewrite <- (size_dom (D := gset Z) (index st)). apply subseteq_size. intros h. rewrite elem_of_unfailed, elem_of_dom. intros (b & E & _). eauto. }
  apply (activate_outer_spec fuel st None None (base.size (unfailed (index st)) * (K + 2) + (K + 1))%nat Hsb Hgo HK).
  - discriminate.
  - exists (K + 1)%nat. split; [lia|auto].
  - unfold enough_fuel in Hfuel. nia.
Qed.

(** C3: [ActivateBestChain] ends within a number of turns that the size of the
    index and its height bound, whatever blocks turn out to be invalid on the
    way and however often it must go back; when files can be read and written
    and are intact it succeeds.  When it succeeds, and no block that was part
    of the active chain before has been rejected, no block whose branch is
    complete and not known to be invalid is better than the tip, and every such
    block that is as good is a candidate for the next call. *)
Theorem best_chain_activated st fuel :
  ready st -> given_ok st -> heights_below (index st) -> enough_fuel (index st) fuel ->
  exists st' ok, activate fuel pblock st = Some (st', ok) /\
    (files_ok (index st) -> (forall block, pblock = Some block -> intact block) -> ok = true) /\
    (ok = true -> index_keeps (index st) (index st') /\ candidates_ok st' /\
       (steady genesis (index st') -> ready st' /\ exists t, tip st' = Some t /\ forall h, usable (index st') h -> worse addr (index st') t h = false)).
Proof using Hqueue Hsubsidy Hread Hflush.
  intros Hr Hgo HK Hfuel. destruct (ActivateBestChain_spec st fuel (ready_stable st Hr) Hgo HK Hfuel) as (st' & ok & E & Hok & Hno). exists st', ok. split; [exact E|]. split.
  - intros F Hpi. destruct ok; [reflexivity|]. destruct (Hno eq_refl F Hpi).
  - intros ->. destruct (Hok eq_refl) as [G Hf]. split; [apply G|]. split; [apply (go_ok _ _ G)|]. intros Hst.
    destruct (final_best st' (go_stable _ _ G) Hf Hst) as (t' & Et & Hc & Hb). split; [|eauto]. split; [apply (go_ok _ _ G)|apply (sb_above _ (go_stable _ _ G))|eauto].
Qed.
End Activate.
