(* ===== verification/BlockArrival.v ===== *)
(** * Blocks that arrive ([src/src/validation.cpp])

    [TryAddBlockIndexCandidate] and [ReceivedBlockTransactions]: a block that
    was stored is linked when its parent is, with every descendant that was
    waiting for it in [m_blocks_unlinked], and each of them becomes a candidate
    for the tip unless it is worse than the tip.  There is no snapshot and no
    target block. *)

From Stdlib Require Import String.
From stdpp Require Import gmap.
From S2P Require Import Prelude ConsensusParams Emission Levy ArithUint256 BlockIndex ActiveChain Pow Headers Serialize Script Transaction Coins TxCheck Merkle Block CuckooCache CheckQueue Ledger LedgerCoins Connect ConnectTotal Chainstate BestChain BestActivate.

Local Open Scope Z_scope.

Section Arrival.
Context {B : Type} `{!CCoinsView B} {C : Type} `{!ElementCache C} (params : Params) (addr : Z -> Z).
Implicit Type st : BestState (B := B) (C := C).

Definition set_man st (man : BlockManager) : BestState (B := B) (C := C) :=
  let s := bs_chain st in
  set_chain st (mkChainstate (CoinsTip s) (m_chain s) man (m_undo s) (m_validation_cache s) (m_best_invalid s)).
Definition insert_candidate st (h : Z) : BestState (B := B) (C := C) :=
  mkBest (bs_chain st) ({[h]} ∪ setBlockIndexCandidates st) (m_blocks_unlinked st) (nBlockSequenceId st).
Definition TryAddBlockIndexCandidate st (pindex : Z) : BestState (B := B) (C := C) :=
  match tip st with
  | Some t => if worse addr (index st) pindex t then st else insert_candidate st pindex
  | None => insert_candidate st pindex
  end.

(** [prev_tx_sum]: a 32-bit number and a 64-bit number. *)
Definition prev_tx_sum (m : BlockMap) (b : CBlockIndex) : option Z :=
  match pprev b with
  | None => Some (u64 (nTx b))
  | Some p => pb ← m !! p; Some (u64 (nTx b + m_chain_tx_count pb))
  end.
Definition set_linked (b : CBlockIndex) (count seq : Z) : CBlockIndex :=
  mkBlockIndex (phashBlock b) (pprev b) (pskip b) (nHeight b) (nFile b) (nDataPos b) (nUndoPos b) (nChainWork b)
    (nTx b) count (nStatus b) (nVersion b) (hashMerkleRoot b) (nTime b) (nBits b) (nNonce b) seq (nTimeMax b).
Definition set_received (b : CBlockIndex) (ntx count file pos status : Z) : CBlockIndex :=
  mkBlockIndex (phashBlock b) (pprev b) (pskip b) (nHeight b) file pos 0 (nChainWork b)
    ntx count status (nVersion b) (hashMerkleRoot b) (nTime b) (nBits b) (nNonce b) (nSequenceId b) (nTimeMax b).

(** The children in [m_blocks_unlinked]. *)
Definition waiting st (pindex : Z) : list Z := map snd (filter (fun e => fst e = Some pindex) (m_blocks_unlinked st)).
(** A turn of the loop over the queue: [pindex] is linked and its children
    leave [m_blocks_unlinked]. *)
Definition link_block st (pindex : Z) (b : CBlockIndex) (sum : Z) : BestState (B := B) (C := C) :=
  let man := m_blockman (bs_chain st) in
  let st := set_man st (mkBlockManager (<[pindex := set_linked b sum (nBlockSequenceId st)]> (index st)) (m_dirty_blockindex man) (m_best_header man)) in
  let st := mkBest (bs_chain st) (setBlockIndexCandidates st) (m_blocks_unlinked st) (i32 (nBlockSequenceId st + 1)) in
  let st := TryAddBlockIndexCandidate st pindex in
  mkBest (bs_chain st) (setBlockIndexCandidates st) (filter (fun e => fst e <> Some pindex) (m_blocks_unlinked st)) (nBlockSequenceId st).
(** The loop over the queue.  The sequence number is part of the order of the
    set: to change it while the block is in the set would destroy the set, and
    is an error of the model. *)
Fixpoint link_descendants (fuel : nat) (queue : list Z) st : option (BestState (B := B) (C := C)) :=
  match queue with
  | [] => Some st
  | pindex :: queue =>
      match fuel with
      | O => None
      | S fuel =>
          b ← index st !! pindex;
          sum ← prev_tx_sum (index st) b;
          if bool_decide (pindex ∈ setBlockIndexCandidates st) then None
          else link_descendants fuel (queue ++ waiting st pindex) (link_block st pindex b sum)
      end
  end.

(** [ntx] is [block.vtx.size()] and [pos] the position on disk. *)
Definition ReceivedBlockTransactions st (ntx : Z) (pindexNew : Z) (pos : Z * Z) : option (BestState (B := B) (C := C)) :=
  b ← index st !! pindexNew;
  let nTx' := u32 ntx in
  let b1 := set_received b nTx' (m_chain_tx_count b) (nFile b) (nDataPos b) (nStatus b) in
  sum ← prev_tx_sum (index st) b1;
  let count := if (m_chain_tx_count b =? 0) || (m_chain_tx_count b =? sum) then m_chain_tx_count b else 0 in
  let status := Z.lor (nStatus b) BLOCK_HAVE_DATA in
  let status := if DeploymentActiveAt b params DEPLOYMENT_SEGWIT then Z.lor status BLOCK_OPT_WITNESS else status in
  '(b2, _) ← RaiseValidity (set_received b nTx' count (fst pos) (snd pos) status) BLOCK_VALID_TRANSACTIONS;
  let st := set_man st (put_index (m_blockman (bs_chain st)) pindexNew b2) in
  match pprev b2 with
  | None => link_descendants (S (length (m_blocks_unlinked st))) [pindexNew] st
  | Some p =>
      pb ← index st !! p;
      if HaveNumChainTxs pb then link_descendants (S (length (m_blocks_unlinked st))) [pindexNew] st
      else
        v ← IsValid pb BLOCK_VALID_TREE;
        Some (if (v : bool) then mkBest (bs_chain st) (setBlockIndexCandidates st) (m_blocks_unlinked st ++ [(Some p, pindexNew)]) (nBlockSequenceId st) else st)
  end.
End Arrival.

(** ** Entries that keep their links *)

Lemma nth_prev_same m m' h n : index_same m m' -> nth_prev m' h n = nth_prev m h n.
Proof.
  intros Hs. revert h. induction n as [|n IH]; intros h; cbn [nth_prev]; [reflexivity|].
  destruct (m !! h) as [b|] eqn:E.
  - destruct (proj1 Hs h b E) as (b' & -> & (_ & L2 & _) & _). cbn [mbind option_bind]. rewrite L2. destruct (pprev b); [apply IH|reflexivity].
  - destruct (m' !! h) as [b'|] eqn:E'; [|reflexivity]. destruct (proj2 Hs h) as [b Eb]; [eauto|]. congruence.
Qed.
Lemma is_ancestor_same m m' x h : index_same m m' -> is_ancestor m' x h <-> is_ancestor m x h.
Proof. intros Hs. split; intros [n Hn]; exists n; [rewrite <- (nth_prev_same m m')|rewrite (nth_prev_same m m')]; assumption. Qed.
Lemma works_grow_same m m' : index_same m m' -> works_grow m -> works_grow m'.
Proof.
  intros Hs H h b p pb E Ep Epb. destruct (index_same_back _ _ _ _ Hs E) as (b0 & E0 & (_ & L2 & _ & _ & L5 & _) & _).
  destruct (index_same_back _ _ _ _ Hs Epb) as (pb0 & Epb0 & (_ & _ & _ & _ & G5 & _) & _). rewrite L5, G5. apply (H h b0 p pb0 E0); congruence.
Qed.
Lemma worse_insert addr m q b x y : x <> q -> y <> q -> worse addr (<[q := b]> m) x y = worse addr m x y.
Proof. intros Hx Hy. unfold worse, CBlockIndexWorkComparator. rewrite !lookup_insert_ne by congruence. reflexivity. Qed.
(** The status decides which blocks can be used. *)
Lemma usable_insert m q b b' h :
  m !! q = Some b -> same_links b b' -> (has_undo b = true -> has_undo b' = true) -> failed b' = failed b -> have_data b' = have_data b ->
  usable (<[q := b']> m) h <-> usable m h.
Proof.
  intros E Hl Hu Hf Hd. pose proof (index_same_insert m q b b' E Hl Hu) as Hs. unfold usable.
  split; intros H x Hx.
  - destruct (H x) as (bx & Ex & H1 & H2); [apply (is_ancestor_same _ _ x h Hs), Hx|]. apply lookup_insert_Some in Ex as [[<- <-]|[_ Ex]]; [exists b; split; [exact E|]; split; congruence|eauto].
  - apply (is_ancestor_same _ _ x h Hs) in Hx. destruct (H x Hx) as (bx & Ex & H1 & H2). destruct (decide (x = q)) as [->|Hne].
    + exists b'. rewrite lookup_insert_eq. assert (bx = b) as -> by congruence. split; [reflexivity|]. split; congruence.
    + exists bx. rewrite lookup_insert_ne by congruence. auto.
Qed.

(** ** The invariant *)

(** While the blocks of [queue] wait to be linked: a linked block is there and
    its parent is linked; a block that is there and not linked waits for its
    parent, is in the queue, or has a parent that failed; only such blocks wait,
    once each; counts are small enough not to wrap around. *)
Record arriving {B C : Type} (queue : list Z) (st : BestState (B := B) (C := C)) : Prop := {
  ar_linked : forall h b, index st !! h = Some b -> HaveNumChainTxs b = true ->
    have_data b = true /\ forall p, pprev b = Some p -> exists pb, index st !! p = Some pb /\ HaveNumChainTxs pb = true;
  ar_root : forall h b, index st !! h = Some b -> pprev b = None -> HaveNumChainTxs b = true;
  ar_waits : forall h b p, index st !! h = Some b -> have_data b = true -> HaveNumChainTxs b = false -> pprev b = Some p ->
    (Some p, h) ∈ m_blocks_unlinked st \/ h ∈ queue \/ exists pb, index st !! p = Some pb /\ failed pb = true;
  ar_unlinked : forall k h, (k, h) ∈ m_blocks_unlinked st -> exists p b pb, k = Some p /\ index st !! h = Some b /\ pprev b = Some p /\
    have_data b = true /\ HaveNumChainTxs b = false /\ index st !! p = Some pb /\ HaveNumChainTxs pb = false;
  ar_queue : forall q, q ∈ queue -> exists p b pb, index st !! q = Some b /\ pprev b = Some p /\ have_data b = true /\ HaveNumChainTxs b = false /\
    index st !! p = Some pb /\ HaveNumChainTxs pb = true;
  ar_once : NoDup (queue ++ map snd (m_blocks_unlinked st));
  ar_counts : forall h b, index st !! h = Some b ->
    (have_data b = true -> 0 < nTx b) /\ 0 <= nTx b < 2 ^ 32 /\ 0 <= m_chain_tx_count b <= (nHeight b + 1) * 2 ^ 32;
  ar_tree : forall h b, index st !! h = Some b -> in_tree b = true
}.
Section Invariant.
Context {B : Type} {C : Type}.
Implicit Type st : BestState (B := B) (C := C).
Lemma linked_ancestors queue st h b x : arriving queue st -> index st !! h = Some b -> HaveNumChainTxs b = true -> is_ancestor (index st) x h ->
  exists bx, index st !! x = Some bx /\ HaveNumChainTxs bx = true.
Proof.
  intros H E Hb [n Hn]. revert h b E Hb Hn. induction n as [|n IH]; intros h b E Hb Hn; [injection Hn as <-; eauto|].
  cbn [nth_prev] in Hn. rewrite E in Hn. cbn [mbind option_bind] in Hn. destruct (pprev b) as [p|] eqn:Ep; [|discriminate].
  destruct (proj2 (ar_linked _ _ H h b E Hb) p Ep) as (pb & Epb & Hpb). apply (IH p pb Epb Hpb Hn).
Qed.
(** A block that can be used is linked. *)
Lemma usable_linked st h b : index_ok (index st) -> arriving [] st -> usable (index st) h -> index st !! h = Some b -> HaveNumChainTxs b = true.
Proof.
  intros Hm H. remember (Z.to_nat (nHeight b)) as n eqn:En. revert h b En. induction n as [n IH] using lt_wf_ind. intros h b -> Hu E.
  destruct (Hu h (is_ancestor_refl _ _)) as (b0 & E0 & Hf & Hd). assert (b0 = b) as -> by congruence. destruct (pprev b) as [p|] eqn:Ep; [|apply (ar_root _ _ H h b E Ep)].
  destruct (eo_link _ _ _ (Hm h b E) p Ep) as (pb & Epb & Hh & _). pose proof (is_ancestor_prev _ _ _ _ E Ep) as Hp. pose proof (eo_height _ _ _ (Hm p pb Epb)).
  assert (Hup : usable (index st) p) by (intros x Hx; apply Hu; eapply is_ancestor_trans; eassumption).
  pose proof (IH (Z.to_nat (nHeight pb)) ltac:(lia) p pb eq_refl Hup Epb) as Hpb. destruct (HaveNumChainTxs b) eqn:Eb; [reflexivity|].
  destruct (ar_waits _ _ H h b p E Hd Eb Ep) as [Hw|[Hw|(pb' & Epb' & Hf')]].
  - destruct (ar_unlinked _ _ H _ _ Hw) as (p' & b' & pb' & [= <-] & _ & _ & _ & _ & E4 & E5). congruence.
  - apply not_elem_of_nil in Hw. contradiction.
  - destruct (Hup p (is_ancestor_refl _ _)) as (b1 & E1 & H1 & _). congruence.
Qed.
End Invariant.

Lemma map_snd_split (P : option Z * Z -> Prop) `{!forall e, Decision (P e)} (l : list (option Z * Z)) :
  map snd (filter P l) ++ map snd (filter (fun e => ~ P e) l) ≡ₚ map snd l.
Proof.
  induction l as [|e l IH]; [reflexivity|]. rewrite !filter_cons. destruct (decide (P e)) as [HP|HP].
  - rewrite (decide_False (P := ~ P e)) by tauto. cbn [map app]. constructor. exact IH.
  - rewrite (decide_True (P := ~ P e)) by exact HP. cbn [map]. rewrite <- IH. symmetry. apply Permutation_middle.
Qed.
Lemma waiting_split {B C : Type} (st : BestState (B := B) (C := C)) q :
  waiting st q ++ map snd (filter (fun e => fst e <> Some q) (m_blocks_unlinked st)) ≡ₚ map snd (m_blocks_unlinked st).
Proof. apply (map_snd_split (fun e => fst e = Some q)). Qed.
Lemma elem_of_waiting {B C : Type} (st : BestState (B := B) (C := C)) q h : h ∈ waiting st q <-> (Some q, h) ∈ m_blocks_unlinked st.
Proof.
  unfold waiting. rewrite list_elem_of_fmap. split.
  - intros ([k h'] & -> & [Hk Hin]%list_elem_of_filter). cbn in Hk. subst k. exact Hin.
  - intros Hin. exists (Some q, h). split; [reflexivity|]. apply list_elem_of_filter. auto.
Qed.

(** *** A turn *)

Section Turn.
Context {B : Type} {C : Type}.
Implicit Type st : BestState (B := B) (C := C).
Lemma set_linked_links b sum seq : same_links b (set_linked b sum seq).
Proof. repeat split. Qed.

Lemma arriving_link st st' q queue b p pb sum seq :
  index_ok (index st) -> arriving (q :: queue) st ->
  index st !! q = Some b -> pprev b = Some p -> index st !! p = Some pb -> HaveNumChainTxs pb = true -> have_data b = true -> HaveNumChainTxs b = false ->
  0 < sum <= (nHeight b + 1) * 2 ^ 32 ->
  index st' = <[q := set_linked b sum seq]> (index st) -> m_blocks_unlinked st' = filter (fun e => fst e <> Some q) (m_blocks_unlinked st) ->
  arriving (queue ++ waiting st q) st'.
Proof.
  intros Hm H E Ep Epb Hpb Hd Hn Hsum Ei Eu. set (b' := set_linked b sum seq) in *.
  assert (Hb' : HaveNumChainTxs b' = true) by (unfold HaveNumChainTxs; cbn [m_chain_tx_count b' set_linked]; rewrite (proj2 (Z.eqb_neq _ _)) by lia; reflexivity).
  assert (Hpq : p <> q).
  { intros ->. destruct (eo_link _ _ _ (Hm q b E) q Ep) as (x & Ex & Hh & _). assert (x = b) as -> by congruence. lia. }
  pose proof (ar_once _ _ H) as Hone. cbn [app] in Hone. apply NoDup_cons in Hone as [Hq Hone]. rewrite elem_of_app in Hq.
  assert (Hkeep : forall h x, h <> q -> index st !! h = Some x -> index st' !! h = Some x) by (intros h x Hne Ex; rewrite Ei, lookup_insert_ne by congruence; exact Ex).
  assert (Hup : forall h x, index st !! h = Some x -> HaveNumChainTxs x = true -> exists x', index st' !! h = Some x' /\ HaveNumChainTxs x' = true).
  { intros h x Ex Hx. destruct (decide (h = q)) as [->|Hne]; [exists b'; split; [rewrite Ei; apply lookup_insert_eq|exact Hb']|]. exists x. auto. }
  assert (Hcase : forall h x, index st' !! h = Some x -> (h = q /\ x = b') \/ (h <> q /\ index st !! h = Some x)).
  { intros h x. rewrite Ei. intros [[<- <-]|[Hne Ex]]%lookup_insert_Some; auto. }
  assert (Hpb' : exists x', index st' !! p = Some x' /\ HaveNumChainTxs x' = true) by eauto.
  split.
  - intros h x Ex Hx. destruct (Hcase h x Ex) as [[-> ->]|[Hne Ex0]].
    + split; [exact Hd|]. intros p' Ep'. assert (p' = p) as -> by (cbn in Ep'; congruence). exact Hpb'.
    + destruct (ar_linked _ _ H h x Ex0 Hx) as [H1 H2]. split; [exact H1|]. intros p' Ep'. destruct (H2 p' Ep') as (pb' & Epb' & Hpb1). eauto.
  - intros h x Ex Hx. destruct (Hcase h x Ex) as [[-> ->]|[Hne Ex0]]; [exact Hb'|apply (ar_root _ _ H h x Ex0 Hx)].
  - intros h x p' Ex Hdx Hnx Epx. destruct (Hcase h x Ex) as [[-> ->]|[Hne Ex0]]; [congruence|].
    destruct (ar_waits _ _ H h x p' Ex0 Hdx Hnx Epx) as [Hw|[Hw|(pb' & Epb' & Hf)]].
    + destruct (decide (p' = q)) as [->|Hp']; [right; left; apply elem_of_app; right; apply elem_of_waiting, Hw|]. left. rewrite Eu. apply list_elem_of_filter. split; [cbn; congruence|exact Hw].
    + right. left. apply elem_of_app. left. apply elem_of_cons in Hw as [Hw|Hw]; [congruence|exact Hw].
    + right. right. destruct (decide (p' = q)) as [->|Hp']; [|eauto]. exists b'. split; [rewrite Ei; apply lookup_insert_eq|]. assert (pb' = b) as -> by congruence. exact Hf.
  - intros k h. rewrite Eu. intros [Hk Hin]%list_elem_of_filter. cbn in Hk. destruct (ar_unlinked _ _ H k h Hin) as (p' & x & pb' & -> & E1 & E2 & E3 & E4 & E5 & E6).
    assert (h <> q) by (intros ->; apply Hq; right; apply list_elem_of_fmap; exists (Some p', q); auto). exists p', x, pb'. split; [reflexivity|].
    split; [apply Hkeep; assumption|]. split; [exact E2|]. split; [exact E3|]. split; [exact E4|]. split; [apply Hkeep; congruence|exact E6].
  - intros h [Hh|Hh]%elem_of_app.
    + destruct (ar_queue _ _ H h) as (p' & x & pb' & E1 & E2 & E3 & E4 & E5 & E6); [apply list_elem_of_further, Hh|].
      assert (h <> q) by (intros ->; apply Hq; auto). destruct (Hup p' pb' E5 E6) as (pb1 & E7 & E8). exists p', x, pb1. auto 10.
    + apply elem_of_waiting in Hh. destruct (ar_unlinked _ _ H _ _ Hh) as (p' & x & pb' & [= <-] & E1 & E2 & E3 & E4 & _).
      assert (h <> q) by (intros ->; apply Hq; right; apply list_elem_of_fmap; exists (Some q, q); auto). exists q, x, b'. split; [apply Hkeep; assumption|].
      split; [exact E2|]. split; [exact E3|]. split; [exact E4|]. split; [rewrite Ei; apply lookup_insert_eq|exact Hb'].
  - rewrite Eu, <- app_assoc. rewrite waiting_split. exact Hone.
  - intros h x Ex. destruct (Hcase h x Ex) as [[-> ->]|[Hne Ex0]]; [|apply (ar_counts _ _ H h x Ex0)].
    destruct (ar_counts _ _ H q b E) as (C1 & C2 & _). split; [exact C1|]. split; [exact C2|]. cbn [m_chain_tx_count nHeight b' set_linked]. lia.
  - intros h x Ex. destruct (Hcase h x Ex) as [[-> ->]|[Hne Ex0]]; [exact (ar_tree _ _ H q b E)|apply (ar_tree _ _ H h x Ex0)].
Qed.
End Turn.

Section Received.
Context {B : Type} `{!CCoinsView B} `{!CCoinsViewLaws B} {C : Type} `{!ElementCache C} `{!ElementCacheLaws C} (params : Params).
Context (TxHash WitnessHash : CTransaction -> Z) (CacheKey : Z -> Z -> Z).
Context (VerifyScript : CScript -> CScript -> list (list Z) -> Z -> CTransaction -> nat -> Z -> list CTxOut -> option string).
Context (AssumedValidBlock : Z) (MinimumChainWork : list Z) (txs_of : Z -> list CTransaction) (addr : Z -> Z).
Implicit Type st : BestState (B := B) (C := C).
Abbreviation genesis := (hashGenesisBlock params).
Abbreviation state_ok := (chainstate_ok params TxHash WitnessHash CacheKey VerifyScript AssumedValidBlock MinimumChainWork txs_of).
Abbreviation cands_ok := (candidates_ok params TxHash WitnessHash CacheKey VerifyScript AssumedValidBlock MinimumChainWork txs_of).
Abbreviation cands := setBlockIndexCandidates.

(** The linked blocks that can be used and are not worse than the tip are candidates. *)
Definition covers_linked st (t : Z) : Prop :=
  forall h b, usable (index st) h -> index st !! h = Some b -> HaveNumChainTxs b = true -> worse addr (index st) h t = false -> h ∈ cands st.
Record linking (queue : list Z) (t : Z) st : Prop := {
  li_ok : cands_ok st;
  li_above : above st;
  li_tip : tip st = Some t;
  li_covers : covers_linked st t;
  li_arriving : arriving queue st
}.
Lemma linked_count b : 0 < nHeight b -> linked b = HaveNumChainTxs b.
Proof. intros H. unfold linked. rewrite (proj2 (Z.eqb_neq (nHeight b) 0)), orb_false_r by lia. reflexivity. Qed.
(** A block that is not linked is not on the active chain. *)
Lemma unlinked_not_active st t q b :
  cands_ok st -> tip st = Some t -> index st !! q = Some b -> HaveNumChainTxs b = false -> 0 < nHeight b -> ~ is_ancestor (index st) q t.
Proof.
  intros H Et E Hb Hh Ha. destruct (ca_tip _ _ _ _ _ _ _ _ st H) as (t' & bt & Et' & Ht). assert (t' = t) as -> by congruence.
  destruct (tip_once _ _ _ _ _ _ _ _ st t bt q H Ht Ha) as (b' & E' & Hb'). assert (b' = b) as -> by congruence.
  destruct (ca_data _ _ _ _ _ _ _ _ _ H q b E Hb') as [_ Hl]. rewrite (linked_count b Hh) in Hl. congruence.
Qed.
Lemma set_man_ok st man :
  state_ok (bs_chain st) -> index_same (index st) (m_block_index man) -> undo_keeps (index st) (m_block_index man) -> m_best_header man = m_best_header (m_blockman (bs_chain st)) ->
  state_ok (bs_chain (set_man st man)).
Proof.
  intros Hs Hi Hu Hb. apply (chainstate_ok_index _ _ _ _ _ _ _ _ (bs_chain st)); try reflexivity; try assumption; try apply Hs.
  eapply best_header_same; [exact Hi|exact Hb|apply Hs].
Qed.
Lemma link_block_shape st q b sum :
  let st' := link_block addr st q b sum in
  let m' := <[q := set_linked b sum (nBlockSequenceId st)]> (index st) in
  let man := m_blockman (bs_chain st) in
  index st' = m' /\ bs_chain st' = bs_chain (set_man st (mkBlockManager m' (m_dirty_blockindex man) (m_best_header man))) /\
  m_blocks_unlinked st' = filter (fun e => fst e <> Some q) (m_blocks_unlinked st) /\
  forall t, tip st = Some t -> cands st' = (if worse addr m' q t then cands st else {[q]} ∪ cands st).
Proof.
  cbv zeta. unfold link_block. cbv zeta. match goal with |- context [TryAddBlockIndexCandidate addr ?x q] => set (st1 := x) end.
  unfold TryAddBlockIndexCandidate. change (tip st1) with (tip st).
  destruct (tip st) as [t0|] eqn:Et; [destruct (worse addr (index st1) q t0) eqn:Ew|]; (split; [reflexivity|]; split; [reflexivity|]; split; [reflexivity|]; intros t [= <-]);
    change (index st1) with (<[q := set_linked b sum (nBlockSequenceId st)]> (index st)) in Ew; rewrite Ew; reflexivity.
Qed.
Lemma link_turn st t q queue :
  linking (q :: queue) t st ->
  exists b sum, index st !! q = Some b /\ prev_tx_sum (index st) b = Some sum /\ q ∉ cands st /\
    linking (queue ++ waiting st q) t (link_block addr st q b sum).
Proof.
  intros [H Hab Et Hc Har]. pose proof (ca_index _ _ _ _ _ _ _ _ st H) as Hm. destruct (ar_queue _ _ Har q (list_elem_of_here _ _)) as (p & b & pb & E & Ep & Hd & Hn & Epb & Hpb).
  destruct (eo_link _ _ _ (Hm q b E) p Ep) as (pb' & Epb' & Hh & _). assert (pb' = pb) as -> by congruence. pose proof (eo_height _ _ _ (Hm p pb Epb)) as Hh0.
  destruct (ar_counts _ _ Har q b E) as (C1 & C2 & _). destruct (ar_counts _ _ Har p pb Epb) as (_ & _ & C3). pose proof (C1 Hd) as C0.
  destruct (ci_entries _ _ _ _ _ _ _ _ _ (ca_chain _ _ _ _ _ _ _ _ _ H) q b E) as [Hbig _].
  set (sum := nTx b + m_chain_tx_count pb). exists b, sum. split; [exact E|].
  assert (Hsum : 0 < sum <= (nHeight b + 1) * 2 ^ 32) by (unfold sum; lia).
  split; [unfold prev_tx_sum; rewrite Ep, Epb; cbn [mbind option_bind]; rewrite u64_id; [reflexivity|unfold is_u64; fold sum; lia]|].
  assert (Hq : q ∉ cands st).
  { intros Hin. destruct (ca_linked _ _ _ _ _ _ _ _ _ H q q Hin (is_ancestor_refl _ _)) as (b1 & E1 & Hl). assert (b1 = b) as -> by congruence. rewrite linked_count in Hl by lia. congruence. }
  split; [exact Hq|]. destruct (link_block_shape st q b sum) as (Ei & Es & Eu & Ec). set (st' := link_block addr st q b sum) in *. specialize (Ec t Et).
  set (b' := set_linked b sum (nBlockSequenceId st)) in *.
  pose proof (index_same_insert (index st) q b b' E (set_linked_links b sum _) (fun x => x)) as Hs.
  pose proof (arriving_link st st' q queue b p pb sum _ Hm Har E Ep Epb Hpb Hd Hn Hsum Ei Eu) as Har'.
  assert (Hna : ~ is_ancestor (index st) q t) by (apply (unlinked_not_active st t q b H Et E Hn); lia).
  assert (Htq : t <> q) by (intros ->; apply Hna, is_ancestor_refl).
  assert (Hsub : forall h, h ∈ cands st' -> h ∈ cands st \/ h = q) by (intros h; rewrite Ec; destruct (worse _ _ _ _); [auto|]; intros [->%elem_of_singleton|]%elem_of_union; auto).
  assert (Hb' : index st' !! q = Some b') by (rewrite Ei; apply lookup_insert_eq).
  assert (Hl' : HaveNumChainTxs b' = true) by (unfold HaveNumChainTxs; cbn [m_chain_tx_count b' set_linked]; rewrite (proj2 (Z.eqb_neq _ _)) by lia; reflexivity).
  assert (Hback : forall h x, index st' !! h = Some x -> exists x0, index st !! h = Some x0 /\ same_links x0 x /\ nStatus x = nStatus x0 /\ (h <> q -> x = x0)).
  { intros h x. rewrite Ei. intros [[<- <-]|[Hne Ex]]%lookup_insert_Some; [exists b; split; [exact E|]; split; [apply set_linked_links|]; split; [reflexivity|congruence]|].
    exists x. split; [exact Ex|]. split; [apply same_links_refl|auto]. }
  split; [split| | | |exact Har'].
  - rewrite Es. apply set_man_ok; [apply (ca_chain _ _ _ _ _ _ _ _ _ H)|exact Hs| |reflexivity]. intros h x Ex Hx. destruct (Hback h x) as (x0 & E0 & _ & E1 & _); [rewrite Ei; exact Ex|].
    exists x0. split; [exact E0|]. unfold has_undo in *. rewrite <- E1. exact Hx.
  - intros h x Ex Hp. destruct (Hback h x Ex) as (x0 & E0 & (_ & L2 & _) & _). apply (ca_root _ _ _ _ _ _ _ _ _ H h x0 E0). congruence.
  - rewrite Ei. apply (works_grow_same _ _ Hs), (ca_works _ _ _ _ _ _ _ _ _ H).
  - intros h x Hh' Hx. destruct (Hsub h Hh') as [Hin| ->].
    + assert (Hx0 : is_ancestor (index st) x h) by (rewrite Ei in Hx; apply (is_ancestor_same _ _ x h Hs), Hx).
      destruct (ca_linked _ _ _ _ _ _ _ _ _ H h x Hin Hx0) as (bx & Ex & Hlx). destruct (decide (x = q)) as [->|Hne].
      * exists b'. split; [exact Hb'|]. unfold linked. rewrite Hl'. reflexivity.
      * exists bx. split; [rewrite Ei, lookup_insert_ne by congruence; exact Ex|exact Hlx].
    + destruct (linked_ancestors _ st' q b' x Har' Hb' Hl' Hx) as (bx & Ex & Hlx). exists bx. split; [exact Ex|]. unfold linked. rewrite Hlx. reflexivity.
  - intros h x Ex Hx. destruct (Hback h x Ex) as (x0 & E0 & _ & E1 & E2). assert (Hx0 : h = genesis \/ has_undo x0 = true) by (unfold has_undo in *; rewrite <- E1; exact Hx).
    destruct (ca_data _ _ _ _ _ _ _ _ _ H h x0 E0 Hx0) as [D1 D2]. split; [unfold have_data in *; rewrite E1; exact D1|].
    destruct (decide (h = q)) as [->|Hne]; [|rewrite (E2 Hne); exact D2]. assert (x = b') as -> by congruence. unfold linked. rewrite Hl'. reflexivity.
  - intros h t' Hh' Et' Ha. assert (t' = t) as -> by (unfold tip in Et', Et; rewrite Es in Et'; cbn in Et'; congruence).
    rewrite Ei in Ha. apply (is_ancestor_same _ _ h t Hs) in Ha. destruct (Hsub h Hh') as [Hin| ->]; [apply (Hab h t Hin Et Ha)|contradiction].
  - unfold tip in *. rewrite Es. exact Et.
  - intros h x Hu Ex Hlx Hw. rewrite Ei in Hu, Hw. rewrite Ec. destruct (decide (h = q)) as [->|Hne].
    + rewrite Hw. set_solver.
    + assert (Hin : h ∈ cands st).
      { apply (Hc h x); [|destruct (Hback h x Ex) as (x0 & E0 & _ & _ & E2); rewrite (E2 Hne); exact E0|exact Hlx|rewrite <- Hw; symmetry; apply worse_insert; congruence].
        apply (usable_insert (index st) q b b' h E (set_linked_links b sum _)); [auto|reflexivity|reflexivity|exact Hu]. }
      destruct (worse _ _ _ _); set_solver.
Qed.

(** *** The whole queue *)

(** The entries have the same links and flags. *)
Definition flags_same (m m' : BlockMap) : Prop :=
  forall h b', m' !! h = Some b' -> exists b, m !! h = Some b /\ same_links b b' /\ nStatus b' = nStatus b.
Lemma flags_same_trans m m' m'' : flags_same m m' -> flags_same m' m'' -> flags_same m m''.
Proof.
  intros H H' h b E. destruct (H' h b E) as (b1 & E1 & L1 & S1). destruct (H h b1 E1) as (b0 & E0 & L0 & S0). exists b0. split; [exact E0|].
  split; [eapply same_links_trans; eassumption|congruence].
Qed.
Lemma link_block_flags st q b sum : index st !! q = Some b -> flags_same (index st) (index (link_block addr st q b sum)).
Proof.
  intros E h b'. destruct (link_block_shape st q b sum) as (-> & _). intros [[<- <-]|[Hne Ex]]%lookup_insert_Some.
  - exists b. split; [exact E|]. split; [apply set_linked_links|reflexivity].
  - exists b'. split; [exact Ex|]. split; [apply same_links_refl|reflexivity].
Qed.
Lemma link_descendants_spec t : forall fuel queue st,
  linking queue t st -> (length queue + length (m_blocks_unlinked st) <= fuel)%nat ->
  exists st', link_descendants addr fuel queue st = Some st' /\ linking [] t st' /\ flags_same (index st) (index st') /\ cands st ⊆ cands st'.
Proof.
  induction fuel as [|fuel IH]; intros queue st H Hfuel; destruct queue as [|q queue]; cbn [link_descendants]; cbn [length] in Hfuel; try lia.
  1-2: exists st; split; [reflexivity|]; split; [exact H|]; split; [|reflexivity]; intros h b E; exists b; split; [exact E|]; split; [apply same_links_refl|reflexivity].
  destruct (link_turn st t q queue H) as (b & sum & E & Es & Hq & H'). rewrite E. cbn [mbind option_bind]. rewrite Es. cbn [mbind option_bind].
  rewrite bool_decide_false by exact Hq. destruct (link_block_shape st q b sum) as (_ & _ & Eu & Ec). specialize (Ec t (li_tip _ _ _ H)).
  destruct (IH (queue ++ waiting st q) (link_block addr st q b sum) H') as (st' & -> & L & F & Hless).
  - rewrite Eu, length_app. pose proof (Permutation_length (waiting_split st q)) as Hl. rewrite length_app, !length_map in Hl. lia.
  - exists st'. split; [reflexivity|]. split; [exact L|]. split; [eapply flags_same_trans; [apply link_block_flags, E|exact F]|].
    etransitivity; [|exact Hless]. rewrite Ec. destruct (worse _ _ _ _); set_solver.
Qed.

(** ** The arrival of a block *)

(** The entry of a block that was stored. *)
Record stored (b b2 : CBlockIndex) (ntx : Z) : Prop := {
  so_links : same_links b b2;
  so_count : m_chain_tx_count b2 = m_chain_tx_count b;
  so_seq : nSequenceId b2 = nSequenceId b;
  so_data : have_data b2 = true;
  so_failed : failed b2 = failed b;
  so_undo : has_undo b2 = has_undo b;
  so_ntx : nTx b2 = ntx;
  so_tree : in_tree b = true -> in_tree b2 = true
}.
Lemma raised_flags b b2 r : RaiseValidity b BLOCK_VALID_TRANSACTIONS = Some (b2, r) ->
  same_links b b2 /\ m_chain_tx_count b2 = m_chain_tx_count b /\ nSequenceId b2 = nSequenceId b /\ nTx b2 = nTx b /\
  (forall n, 3 <= n < 32 -> Z.testbit (nStatus b2) n = Z.testbit (nStatus b) n) /\ (in_tree b = true -> in_tree b2 = true).
Proof.
  unfold RaiseValidity. change (negb _) with false at 1. cbv iota.
  assert (Hsame : same_links b b /\ m_chain_tx_count b = m_chain_tx_count b /\ nSequenceId b = nSequenceId b /\ nTx b = nTx b /\
    (forall n, 3 <= n < 32 -> Z.testbit (nStatus b) n = Z.testbit (nStatus b) n) /\ (in_tree b = true -> in_tree b = true)) by (repeat split; auto).
  destruct (negb _); [intros [= <- _]; exact Hsame|]. destruct (_ <? _); intros [= <- _]; [|exact Hsame].
  split; [repeat split|]. split; [reflexivity|]. split; [reflexivity|]. split; [reflexivity|]. split.
  - intros n Hn. cbn [nStatus set_status]. rewrite Z.lor_spec, Z.land_spec.
    replace (Z.testbit BLOCK_VALID_TRANSACTIONS n) with false by (symmetry; apply (Z.bits_above_log2 3 n); [lia|cbn; lia]).
    replace (Z.testbit (u32 (Z.lnot BLOCK_VALID_MASK)) n) with true; [rewrite andb_true_r, orb_false_r; reflexivity|].
    unfold u32. rewrite Z.land_spec, Z.lnot_spec by lia. replace (Z.testbit BLOCK_VALID_MASK n) with false by (symmetry; apply (Z.bits_above_log2 7 n); [lia|cbn; lia]).
    change 4294967295 with (Z.ones 32). rewrite Z.ones_spec_low by lia. reflexivity.
  - intros _. unfold in_tree. rewrite in_tree_raised; reflexivity.
Qed.
Lemma received_stored b ntx count file pos (wit : bool) b2 r :
  0 < ntx < 2 ^ 32 -> count = m_chain_tx_count b ->
  RaiseValidity (set_received b ntx count file pos (if wit then Z.lor (Z.lor (nStatus b) BLOCK_HAVE_DATA) BLOCK_OPT_WITNESS else Z.lor (nStatus b) BLOCK_HAVE_DATA))
    BLOCK_VALID_TRANSACTIONS = Some (b2, r) -> stored b b2 ntx.
Proof.
  intros Hn -> E. apply raised_flags in E as (L & E1 & E2 & E3 & Ht & Htree). set (b1 := set_received _ _ _ _ _ _) in *.
  assert (Hbit : forall n, 3 <= n < 7 -> Z.testbit (nStatus b2) n = (Z.testbit (nStatus b) n || Z.testbit BLOCK_HAVE_DATA n)).
  { intros n Hn'. rewrite (Ht n) by lia. cbn [nStatus b1 set_received]. destruct wit; rewrite !Z.lor_spec; [|reflexivity].
    replace (Z.testbit BLOCK_OPT_WITNESS n) with false by (symmetry; apply (Z.pow2_bits_false 7 n); lia). apply orb_false_r. }
  split.
  - eapply same_links_trans; [|exact L]. repeat split.
  - exact E1.
  - exact E2.
  - rewrite have_data_testbit, (Hbit 3) by lia. apply orb_true_r.
  - rewrite !failed_testbit, (Hbit 5) by lia. apply orb_false_r.
  - rewrite !has_undo_testbit, (Hbit 4) by lia. apply orb_false_r.
  - exact E3.
  - intros Hb. apply Htree. rewrite <- Hb. cbn [nStatus b1 set_received]. destruct wit.
    + transitivity (in_tree (set_status b (Z.lor (nStatus b) BLOCK_HAVE_DATA))); [apply (in_tree_lor _ _ BLOCK_OPT_WITNESS)|apply (in_tree_lor _ _ BLOCK_HAVE_DATA)]; reflexivity.
    + apply (in_tree_lor _ _ BLOCK_HAVE_DATA); reflexivity.
Qed.
Lemma no_data_count st h b : arriving [] st -> index st !! h = Some b -> have_data b = false -> HaveNumChainTxs b = false /\ m_chain_tx_count b = 0.
Proof.
  intros H E Hd. destruct (HaveNumChainTxs b) eqn:Hn; [destruct (ar_linked _ _ H h b E Hn); congruence|]. split; [reflexivity|].
  unfold HaveNumChainTxs in Hn. apply negb_false_iff, Z.eqb_eq in Hn. exact Hn.
Qed.
Lemma arriving_stored queue st st1 h b b2 ntx p pb :
  index_ok (index st) -> arriving [] st -> index st !! h = Some b -> have_data b = false -> stored b b2 ntx -> 0 < ntx < 2 ^ 32 ->
  pprev b = Some p -> index st !! p = Some pb -> index st1 = <[h := b2]> (index st) ->
  (Some p, h) ∈ m_blocks_unlinked st1 \/ h ∈ queue \/ failed pb = true ->
  (forall e, e ∈ m_blocks_unlinked st -> e ∈ m_blocks_unlinked st1) ->
  (forall e, e ∈ m_blocks_unlinked st1 -> e ∈ m_blocks_unlinked st \/ (e = (Some p, h) /\ HaveNumChainTxs pb = false)) ->
  (forall q, q ∈ queue -> q = h /\ HaveNumChainTxs pb = true) -> NoDup (queue ++ map snd (m_blocks_unlinked st1)) -> arriving queue st1.
Proof.
  intros Hm H E Hd [S1 S2 S3 S4 S5 S6 S7 S8] Hntx Ep Epb Ei Hwait Hold Hnew Hq Hone. destruct (no_data_count st h b H E Hd) as [Hn Hz].
  assert (Hn2 : HaveNumChainTxs b2 = false) by (unfold HaveNumChainTxs in *; rewrite S2; exact Hn). destruct S1 as (L1 & L2 & L3 & L4 & L5 & L6 & L7 & L8).
  destruct (eo_link _ _ _ (Hm h b E) p Ep) as (pb' & Epb' & Hh & _). assert (pb' = pb) as -> by congruence.
  assert (Hph : p <> h) by (intros ->; assert (pb = b) as -> by congruence; lia).
  assert (Hkeep : forall k x, k <> h -> index st !! k = Some x -> index st1 !! k = Some x) by (intros k x Hne Ex; rewrite Ei, lookup_insert_ne by congruence; exact Ex).
  assert (Eb2 : index st1 !! h = Some b2) by (rewrite Ei; apply lookup_insert_eq).
  assert (Hcase : forall k x, index st1 !! k = Some x -> (k = h /\ x = b2) \/ (k <> h /\ index st !! k = Some x)).
  { intros k x. rewrite Ei. intros [[<- <-]|[Hne Ex]]%lookup_insert_Some; auto. }
  split; try assumption.
  - intros k x Ex Hx. destruct (Hcase k x Ex) as [[-> ->]|[Hne Ex0]]; [congruence|]. destruct (ar_linked _ _ H k x Ex0 Hx) as [D1 D2]. split; [exact D1|].
    intros p' Ep'. destruct (D2 p' Ep') as (x' & Ex' & Hx'). exists x'. split; [apply Hkeep; [intros ->|]; congruence|exact Hx'].
  - intros k x Ex Hx. destruct (Hcase k x Ex) as [[-> ->]|[Hne Ex0]]; [congruence|apply (ar_root _ _ H k x Ex0 Hx)].
  - intros k x p' Ex Hdx Hnx Epx. destruct (Hcase k x Ex) as [[-> ->]|[Hne Ex0]].
    + assert (p' = p) as -> by congruence. destruct Hwait as [Hw|[Hw|Hw]]; [auto|auto|]. right. right. exists pb. split; [apply Hkeep; assumption|exact Hw].
    + destruct (ar_waits _ _ H k x p' Ex0 Hdx Hnx Epx) as [Hw|[Hw|(x' & Ex' & Hf)]]; [left; apply Hold, Hw|apply not_elem_of_nil in Hw; contradiction|].
      right. right. destruct (decide (p' = h)) as [->|Hp']; [exists b2; split; [exact Eb2|congruence]|eauto].
  - intros k x Hin. destruct (Hnew _ Hin) as [Hin0|[[= -> ->] Hpb]].
    + destruct (ar_unlinked _ _ H k x Hin0) as (p' & bx & px & -> & E1 & E2 & E3 & E4 & E5 & E6). assert (x <> h) by (intros ->; congruence).
      destruct (decide (p' = h)) as [->|Hp'].
      * exists h, bx, b2. split; [reflexivity|]. split; [apply Hkeep; assumption|]. auto.
      * exists p', bx, px. split; [reflexivity|]. split; [apply Hkeep; assumption|]. split; [exact E2|]. split; [exact E3|]. split; [exact E4|]. split; [apply Hkeep; assumption|exact E6].
    + exists p, b2, pb. split; [reflexivity|]. split; [exact Eb2|]. split; [congruence|]. split; [exact S4|]. split; [exact Hn2|]. split; [apply Hkeep; assumption|exact Hpb].
  - intros q Hin. destruct (Hq q Hin) as [-> Hpb]. exists p, b2, pb. split; [exact Eb2|]. split; [congruence|]. split; [exact S4|]. split; [exact Hn2|]. split; [apply Hkeep; assumption|exact Hpb].
  - intros k x Ex. destruct (Hcase k x Ex) as [[-> ->]|[Hne Ex0]]; [|apply (ar_counts _ _ H k x Ex0)]. pose proof (eo_height _ _ _ (Hm p pb Epb)). lia.
  - intros k x Ex. destruct (Hcase k x Ex) as [[-> ->]|[Hne Ex0]]; [apply S8, (ar_tree _ _ H h b E)|apply (ar_tree _ _ H k x Ex0)].
Qed.

Abbreviation is_ready := (ready params TxHash WitnessHash CacheKey VerifyScript AssumedValidBlock MinimumChainWork txs_of addr).
Lemma stored_linking queue st st1 t h b b2 ntx :
  is_ready st -> tip st = Some t -> arriving [] st -> index st !! h = Some b -> have_data b = false -> stored b b2 ntx -> 0 < nHeight b ->
  bs_chain st1 = bs_chain (set_man st (put_index (m_blockman (bs_chain st)) h b2)) -> cands st1 = cands st -> arriving queue st1 -> linking queue t st1.
Proof.
  intros [H Hab (t' & Et' & Hot & Hc)] Et Har E Hd [S1 S2 S3 S4 S5 S6 S7 S8] Hh Es Ec Har1. assert (t' = t) as -> by congruence. destruct (no_data_count st h b Har E Hd) as [Hn _].
  assert (Ei : index st1 = <[h := b2]> (index st)) by (unfold index at 1; rewrite Es; reflexivity).
  pose proof (index_same_insert (index st) h b b2 E S1 ltac:(congruence)) as Hs.
  assert (Hna : ~ is_ancestor (index st) h t) by (apply (unlinked_not_active st t h b H Et E Hn Hh)). assert (Hth : t <> h) by (intros ->; apply Hna, is_ancestor_refl).
  assert (Eb2 : index st1 !! h = Some b2) by (rewrite Ei; apply lookup_insert_eq). destruct S1 as (L1 & L2 & L3 & L4 & L5 & L6 & L7 & L8).
  assert (Hcase : forall k x, index st1 !! k = Some x -> (k = h /\ x = b2) \/ (k <> h /\ index st !! k = Some x)).
  { intros k x. rewrite Ei. intros [[<- <-]|[Hne Ex]]%lookup_insert_Some; auto. }
  split; [split| | | |exact Har1].
  - rewrite Es. apply set_man_ok; [apply (ca_chain _ _ _ _ _ _ _ _ _ H)|exact Hs| |reflexivity]. intros k x Ex Hx. destruct (Hcase k x) as [[-> ->]|[_ Ex0]]; [rewrite Ei; exact Ex| |eauto].
    exists b. split; [exact E|congruence].
  - intros k x Ex Hp. destruct (Hcase k x Ex) as [[-> ->]|[_ Ex0]]; [apply (ca_root _ _ _ _ _ _ _ _ _ H h b E); congruence|apply (ca_root _ _ _ _ _ _ _ _ _ H k x Ex0 Hp)].
  - rewrite Ei. apply (works_grow_same _ _ Hs), (ca_works _ _ _ _ _ _ _ _ _ H).
  - intros k x Hk Hx. rewrite Ec in Hk. assert (Hx0 : is_ancestor (index st) x k) by (rewrite Ei in Hx; apply (is_ancestor_same _ _ x k Hs), Hx).
    destruct (ca_linked _ _ _ _ _ _ _ _ _ H k x Hk Hx0) as (bx & Ex & Hl). destruct (decide (x = h)) as [->|Hne].
    + assert (bx = b) as -> by congruence. exists b2. split; [exact Eb2|]. unfold linked, HaveNumChainTxs in *. rewrite S2, L4. exact Hl.
    + exists bx. split; [rewrite Ei, lookup_insert_ne by congruence; exact Ex|exact Hl].
  - intros k x Ex Hx. destruct (Hcase k x Ex) as [[-> ->]|[_ Ex0]]; [|apply (ca_data _ _ _ _ _ _ _ _ _ H k x Ex0 Hx)].
    rewrite S6 in Hx. destruct (ca_data _ _ _ _ _ _ _ _ _ H h b E Hx). congruence.
  - intros k t' Hk Et1 Ha. rewrite Ec in Hk. assert (t' = t) as -> by (unfold tip in Et1, Et; rewrite Es in Et1; cbn in Et1; congruence).
    rewrite Ei in Ha. apply (is_ancestor_same _ _ k t Hs) in Ha. apply (Hab k t Hk Et Ha).
  - unfold tip in *. rewrite Es. exact Et.
  - intros k x Hu Ex Hl Hw. rewrite Ec. assert (Hkh : ~ is_ancestor (index st1) h k).
    { intros Ha. destruct (linked_ancestors _ st1 k x h Har1 Ex Hl Ha) as (bx & Ebx & Hbx). assert (bx = b2) as -> by congruence. unfold HaveNumChainTxs in *. rewrite S2 in Hbx. congruence. }
    assert (Hne : k <> h) by (intros ->; apply Hkh, is_ancestor_refl). apply Hc.
    + intros y Hy. assert (Hy1 : is_ancestor (index st1) y k) by (rewrite Ei; apply (is_ancestor_same _ _ y k Hs), Hy). destruct (Hu y Hy1) as (by' & Ey & H1 & H2).
      destruct (Hcase y by' Ey) as [[-> ->]|[_ Ey0]]; [contradiction|eauto].
    + rewrite <- Hw, Ei. symmetry. apply worse_insert; congruence.
Qed.

Lemma linking_ready st t : linking [] t st -> is_ready st.
Proof.
  intros [H Hab Et Hc Har]. split; [exact H|exact Hab|]. exists t. split; [exact Et|]. destruct (ca_tip _ _ _ _ _ _ _ _ st H) as (t' & bt & Et' & Ht). assert (t' = t) as -> by congruence.
  split; [exact (tip_once _ _ _ _ _ _ _ _ st t bt t H Ht (is_ancestor_refl _ _))|]. intros h Hu Hw. destruct (usable_entry _ _ Hu) as [b E].
  apply (Hc h b Hu E); [|exact Hw]. apply (usable_linked st h b (ca_index _ _ _ _ _ _ _ _ st H) Har Hu E).
Qed.
(** What the arrival of [h] changes: that it is there. *)
Definition arrived (h : Z) st st' : Prop :=
  tip st' = tip st /\ cands st ⊆ cands st' /\
  (forall k b', index st' !! k = Some b' -> exists b, index st !! k = Some b /\ same_links b b' /\ failed b' = failed b /\ has_undo b' = has_undo b /\
     have_data b' = (if bool_decide (k = h) then true else have_data b)).

Lemma ReceivedBlockTransactions_spec st ntx h b pos :
  is_ready st -> arriving [] st -> index st !! h = Some b -> have_data b = false -> 0 < ntx < 2 ^ 32 ->
  exists st', ReceivedBlockTransactions params addr st ntx h pos = Some st' /\ is_ready st' /\ arriving [] st' /\ arrived h st st'.
Proof.
  intros Hr Har E Hd Hntx. pose proof Hr as [H Hab (t & Et & Hc)]. pose proof (ca_index _ _ _ _ _ _ _ _ st H) as Hm. destruct (no_data_count st h b Har E Hd) as [Hn Hz].
  destruct (pprev b) as [p|] eqn:Ep; [|rewrite (ar_root _ _ Har h b E Ep) in Hn; discriminate].
  destruct (eo_link _ _ _ (Hm h b E) p Ep) as (pb & Epb & Hh & _). pose proof (eo_height _ _ _ (Hm p pb Epb)) as Hh0.
  assert (Hph : p <> h) by (intros ->; assert (pb = b) as -> by congruence; lia).
  unfold ReceivedBlockTransactions. rewrite E. cbn [mbind option_bind]. cbv zeta. unfold prev_tx_sum. cbn [pprev set_received]. rewrite Ep, Epb. cbn [mbind option_bind].
  rewrite Hz. cbn [Z.eqb orb]. rewrite u32_id by (unfold is_u32; lia). set (status := if DeploymentActiveAt b params DEPLOYMENT_SEGWIT then _ else _).
  destruct (RaiseValidity (set_received b ntx 0 (fst pos) (snd pos) status) BLOCK_VALID_TRANSACTIONS) as [[b2 r]|] eqn:Er.
  2: { unfold RaiseValidity in Er. change (negb _) with false in Er at 1. cbv iota in Er. destruct (negb _); [discriminate|]. destruct (_ <? _); discriminate. }
  assert (So : stored b b2 ntx) by (apply (received_stored b ntx 0 (fst pos) (snd pos) (DeploymentActiveAt b params DEPLOYMENT_SEGWIT) b2 r Hntx (eq_sym Hz)); exact Er).
  clear Er status. cbn [mbind option_bind]. set (st1 := set_man st _). pose proof So as [(L1 & L2 & L3 & L4 & _) _ _ S4 S5 S6 _ _]. rewrite L2, Ep. cbv beta iota.
  assert (Ei : index st1 = <[h := b2]> (index st)) by reflexivity. rewrite Ei, lookup_insert_ne, Epb by congruence. cbn [mbind option_bind].
  assert (Hhb : 0 < nHeight b) by lia.
  assert (Hwait0 : h ∉ map snd (m_blocks_unlinked st)).
  { intros ([k x] & Ex & Hin)%list_elem_of_fmap. cbn in Ex. subst x. destruct (ar_unlinked _ _ Har k h Hin) as (p' & x & px & _ & E1 & _ & E3 & _). congruence. }
  pose proof (ar_once _ _ Har) as Hone. cbn [app] in Hone.
  assert (Harr : forall st', tip st' = tip st -> cands st ⊆ cands st' -> flags_same (<[h := b2]> (index st)) (index st') -> arrived h st st').
  { intros st' E1 E2 F. split; [exact E1|]. split; [exact E2|]. intros k b' Ek. destruct (F k b' Ek) as (b1 & Ek1 & Lk & Sk). apply lookup_insert_Some in Ek1 as [[<- <-]|[Hne Ek0]].
    - exists b. split; [exact E|]. split; [eapply same_links_trans; [apply So|exact Lk]|]. rewrite bool_decide_true by reflexivity. unfold failed, has_undo, have_data in *. rewrite Sk. auto.
    - exists b1. split; [exact Ek0|]. split; [exact Lk|]. rewrite bool_decide_false by congruence. unfold failed, has_undo, have_data. rewrite Sk. auto. }
  assert (Fr : flags_same (<[h := b2]> (index st)) (<[h := b2]> (index st))) by (intros k x Ex; exists x; split; [exact Ex|]; split; [apply same_links_refl|reflexivity]).
  destruct (HaveNumChainTxs pb) eqn:Hpb.
  - assert (A1 : arriving [h] st1).
    { apply (arriving_stored [h] st st1 h b b2 ntx p pb Hm Har E Hd So Hntx Ep Epb Ei); [right; left; apply list_elem_of_here|auto|auto|intros q [->|Hq]%elem_of_cons; [auto|apply not_elem_of_nil in Hq; contradiction]|].
      constructor; [exact Hwait0|exact Hone]. }
    pose proof (stored_linking [h] st st1 t h b b2 ntx Hr Et Har E Hd So Hhb eq_refl eq_refl A1) as L.
    destruct (link_descendants_spec t (S (length (m_blocks_unlinked st1))) [h] st1 L) as (st' & -> & L' & F & Hl); [cbn [length]; lia|].
    exists st'. split; [reflexivity|]. split; [apply (linking_ready st' t L')|]. split; [apply L'|]. apply Harr; [rewrite (li_tip _ _ _ L'); symmetry; exact Et|exact Hl|exact F].
  - unfold IsValid. change (negb (Z.land BLOCK_VALID_TREE _ =? 0)) with false. cbv iota. change (negb (Z.land (nStatus pb) BLOCK_FAILED_VALID =? 0)) with (failed pb).
    pose proof (ar_tree _ _ Har p pb Epb) as Htree. unfold in_tree in Htree. rewrite <- Z.geb_leb in Htree. rewrite Htree. destruct (failed pb) eqn:Hf; cbn [mbind option_bind].
    + assert (A1 : arriving [] st1).
      { apply (arriving_stored [] st st1 h b b2 ntx p pb Hm Har E Hd So Hntx Ep Epb Ei); [auto|auto|auto|intros q Hq; apply not_elem_of_nil in Hq; contradiction|exact Hone]. }
      exists st1. split; [reflexivity|]. split; [apply (linking_ready st1 t), (stored_linking [] st st1 t h b b2 ntx); auto|]. split; [exact A1|]. apply Harr; [reflexivity|reflexivity|exact Fr].
    + set (st2 := mkBest _ _ _ _). assert (A2 : arriving [] st2).
      { apply (arriving_stored [] st st2 h b b2 ntx p pb Hm Har E Hd So Hntx Ep Epb Ei).
        - left. cbn. apply elem_of_app. right. apply list_elem_of_here.
        - intros e He. cbn. apply elem_of_app. auto.
        - intros e. cbn. intros [He|[->|He]%elem_of_cons]%elem_of_app; [auto|auto|apply not_elem_of_nil in He; contradiction].
        - intros q Hq. apply not_elem_of_nil in Hq. contradiction.
        - cbn [app]. change (m_blocks_unlinked st2) with (m_blocks_unlinked st ++ [(Some p, h)]). rewrite map_app. apply NoDup_app. split; [exact Hone|].
          split; [|cbn; apply NoDup_singleton]. intros x Hx [->|Hx']%elem_of_cons; [contradiction|apply not_elem_of_nil in Hx'; contradiction]. }
      exists st2. split; [reflexivity|]. split; [apply (linking_ready st2 t), (stored_linking [] st st2 t h b b2 ntx); auto|]. split; [exact A2|]. apply Harr; [reflexivity|reflexivity|exact Fr].
Qed.

(** C13: A block that arrives is linked with every descendant that waited for it,
    and no usable block that is not worse than the tip is left out of the
    candidates: the state is again one from which [ActivateBestChain] finds the
    best chain.  No sequence number changes while its block is in the ordered
    set, and the queue empties. *)
Theorem block_arrival st ntx h b pos :
  is_ready st -> arriving [] st -> index st !! h = Some b -> have_data b = false -> 0 < ntx < 2 ^ 32 ->
  exists st', ReceivedBlockTransactions params addr st ntx h pos = Some st' /\ arriving [] st' /\ arrived h st st' /\
    forall t x, tip st' = Some t -> usable (index st') x -> worse addr (index st') x t = false -> x ∈ cands st'.
Proof.
  intros Hr Har E Hd Hntx. destruct (ReceivedBlockTransactions_spec st ntx h b pos Hr Har E Hd Hntx) as (st' & Est & Hr' & Har' & A). exists st'. split; [exact Est|]. split; [exact Har'|].
  split; [exact A|]. intros t x Et Hu Hw. destruct (rd_covers _ _ _ _ _ _ _ _ _ _ Hr') as (t' & Et' & _ & Hc). assert (t' = t) as -> by congruence. apply (Hc x Hu Hw).
Qed.
End Received.
