(* ===== verification/NodeDemo.v ===== *)
(** * A small node

    The chain of [TipDemo] with the candidates for its tip: the genesis block
    is stored and active, the headers of two blocks are known. *)

From Stdlib Require Import String.
From stdpp Require Import gmap.
From S2P Require Import Prelude ConsensusParams Emission Levy ArithUint256 BlockIndex ActiveChain Pow Headers Serialize Script Transaction Coins TxCheck Merkle Block CuckooCache CheckQueue Ledger LedgerCoins Connect ConnectTotal Chainstate BestChain BestActivate BlockArrival.

Local Open Scope Z_scope.

Module NodeDemo.
Import CuckooCache TipDemo.
Definition stored_genesis (g : CBlockIndex) : CBlockIndex := set_linked (set_received g 1 0 0 8 (Z.lor (nStatus g) BLOCK_HAVE_DATA)) 1 1.
Definition store_genesis (man : BlockManager) : BlockManager :=
  mkBlockManager (alter stored_genesis genesis (m_block_index man)) (m_dirty_blockindex man) (m_best_header man).
Definition man0 : BlockManager := store_genesis manager.
Definition addr (h : Z) : Z := h.
Definition state_at (man : BlockManager) : Chainstate :=
  mkChainstate (new_cache (mkDB ∅ (Some genesis) None) false) [Some genesis] man ∅ (setup Z.log2 4) None.
Definition start : BestState :=
  mkBest (state_at man0) {[genesis]} [] 2.
Abbreviation is_ready := (ready (B := CCoinsViewDB) (C := cache) CMainParams Demo.TxHash Demo.TxHash Z.add Demo.VerifyScript 0 zero txs_of addr).

(** Facts about every entry, by computation. *)
Definition entry_facts (m : BlockMap) (h : Z) (b : CBlockIndex) : Prop :=
  (pprev b = None -> h = genesis) /\
  (forall p, pprev b = Some p -> match m !! p with Some pb => val (nChainWork pb) < val (nChainWork b) | None => True end) /\
  has_undo b = false /\ (h = genesis \/ (have_data b = false /\ HaveNumChainTxs b = false /\ nTx b = 0 /\ m_chain_tx_count b = 0)) /\ in_tree b = true /\
  nHeight b <= 2.
Definition entry_check (m : BlockMap) (h : Z) (b : CBlockIndex) : bool :=
  match pprev b with
  | None => h =? genesis
  | Some p => match m !! p with Some pb => val (nChainWork pb) <? val (nChainWork b) | None => true end
  end && negb (has_undo b) && ((h =? genesis) || (negb (have_data b) && negb (HaveNumChainTxs b) && (nTx b =? 0) && (m_chain_tx_count b =? 0))) && in_tree b &&
  (nHeight b <=? 2).
Lemma start_checked : map_Forall (fun h b => entry_check (index start) h b = true) (index start).
Proof. apply (bool_decide_unpack _). vm_compute. exact I. Qed.
Lemma start_facts h b : index start !! h = Some b -> entry_facts (index start) h b.
Proof.
  intros E. pose proof (start_checked h b E) as H. unfold entry_check in H. rewrite !andb_true_iff in H. destruct H as ((((H1 & H2) & H3) & H4) & H5).
  split; [|split; [|split; [|split; [|split]]]].
  - intros Ep. rewrite Ep in H1. apply Z.eqb_eq, H1.
  - intros p Ep. rewrite Ep in H1. destruct (index start !! p); [apply Z.ltb_lt, H1|exact I].
  - apply negb_true_iff, H2.
  - apply orb_true_iff in H3 as [H3|H3]; [left; apply Z.eqb_eq, H3|right]. rewrite !andb_true_iff, !negb_true_iff, !Z.eqb_eq in H3. tauto.
  - exact H4.
  - apply Z.leb_le, H5.
Qed.
Definition genesis_summary (b : CBlockIndex) := (pprev b, nHeight b, have_data b, HaveNumChainTxs b, nTx b, m_chain_tx_count b, has_undo b).
Lemma start_genesis : exists g, index start !! genesis = Some g /\ genesis_summary g = (None, 0, true, true, 1, 1, false).
Proof.
  assert (H : genesis_summary <$> index start !! genesis = Some (None, 0, true, true, 1, 1, false)) by (vm_compute; reflexivity).
  destruct (index start !! genesis) as [g|]; [|discriminate]. exists g. split; [reflexivity|]. cbn [fmap option_fmap option_map] in H. apply (inj Some) in H. exact H.
Qed.
Lemma man0_same : index_same (m_block_index manager) (m_block_index man0).
Proof.
  unfold man0. cbn [m_block_index store_genesis]. split.
  - intros h b E. destruct (decide (h = genesis)) as [->|Hne].
    + exists (stored_genesis b). rewrite lookup_alter_eq, E. split; [reflexivity|]. split; [repeat split|]. intros Hu.
      assert (Hn : has_undo <$> m_block_index manager !! genesis = Some false) by (vm_compute; reflexivity). rewrite E in Hn. cbn in Hn. congruence.
    + exists b. rewrite lookup_alter_ne by congruence. split; [exact E|]. split; [apply same_links_refl|auto].
  - intros h. destruct (decide (h = genesis)) as [->|Hne]; [rewrite lookup_alter_eq; destruct (m_block_index manager !! genesis); [eauto|intros []; discriminate]|rewrite lookup_alter_ne by congruence; auto].
Qed.
Lemma store_genesis_best man : m_best_header (store_genesis man) = m_best_header man.
Proof. reflexivity. Qed.
Lemma state_at_initial man g :
  index_sane CMainParams man -> entries_ok CMainParams (m_block_index man) -> m_block_index man !! genesis = Some g -> pprev g = None ->
  [Some genesis] = chain_of (m_block_index man) genesis (nHeight g) -> map_Forall (fun _ b => has_undo b = false) (m_block_index man) -> starts (state_at man).
Proof.
  intros H1 H2 H3 H4 H5 H6. destruct (new_cache_ok _ false empty_db_ok) as [Hc Hu]. split; cbn [CoinsTip m_chain m_blockman m_undo m_validation_cache m_best_invalid state_at].
  - exact Hc.
  - exact Hu.
  - reflexivity.
  - apply (ks_cache _ _ _ _ _ _ _ _ _ _ Demo.start_ok).
  - exact H1.
  - exact H2.
  - exists g. auto.
  - exact H6.
  - reflexivity.
Qed.
Lemma man0_initial : starts (state_at man0).
Proof.
  destruct manager_sane as [I1 I2 I3 I4]. destruct start_genesis as (g & Eg & Hg). injection Hg as G1 G2 _ _ _ _ _.
  apply (state_at_initial man0 g).
  - split; [exact (index_ok_same _ _ I1 man0_same)|exact (best_header_same _ _ man0_same (store_genesis_best manager) I2)|exact (proofs_positive_same _ _ I3 man0_same)|exact I4].
  - intros h b' E. destruct (index_same_back _ _ _ _ man0_same E) as (b & Eb & (_ & _ & _ & L4 & _) & _). rewrite L4. exact (manager_entries h b Eb).
  - exact Eg.
  - exact G1.
  - rewrite G2. reflexivity.
  - intros h b E. destruct (start_facts h b E) as (_ & _ & H & _). exact H.
Qed.
Lemma node_start_ok : chainstate_ok CMainParams Demo.TxHash Demo.TxHash Z.add Demo.VerifyScript 0 zero txs_of (bs_chain start).
Proof. apply (initial_chainstate_ok _ _ _ _ _ _ _ _ _ man0_initial). Qed.
Lemma genesis_only x h : is_ancestor (index start) x h -> h = genesis -> x = genesis.
Proof.
  intros Hx ->. destruct start_genesis as (g & Eg & Hg). destruct (is_ancestor_cases _ x _ g Eg Hx) as [->|(p & Ep & _)]; [reflexivity|]. injection Hg as Hp _. congruence.
Qed.
Lemma start_ready : is_ready start.
Proof.
  destruct start_genesis as (g & Eg & Hg). injection Hg as G1 G2 G3 G4 G5 G6 G7. split.
  - split.
    + exact node_start_ok.
    + intros h b E. destruct (start_facts h b E) as (H & _). exact H.
    + intros h b p pb E Ep Epb. destruct (start_facts h b E) as (_ & H & _). specialize (H p Ep). rewrite Epb in H. exact H.
    + intros h x Hh Hx. cbn in Hh. apply elem_of_singleton in Hh. rewrite (genesis_only x h Hx Hh). exists g. split; [exact Eg|]. unfold linked. rewrite G4. reflexivity.
    + intros h b E [->|Hb]; [|destruct (start_facts h b E) as (_ & _ & H & _); congruence]. change (index start !! genesis = Some b) in E. assert (b = g) as -> by congruence.
      split; [exact G3|]. unfold linked. rewrite G4. reflexivity.
  - intros h t Hh Et _. cbn in Hh. apply elem_of_singleton in Hh. injection Et as <-. exact Hh.
  - exists genesis. split; [reflexivity|]. split; [exists g; auto|]. intros h Hu _. cbn. apply elem_of_singleton. destruct (Hu h (is_ancestor_refl _ _)) as (b & E & _ & Hd).
    destruct (start_facts h b E) as (_ & _ & _ & [H|[H _]] & _); [exact H|congruence].
Qed.
Lemma start_arriving : arriving [] start.
Proof.
  destruct start_genesis as (g & Eg & Hg). injection Hg as G1 G2 G3 G4 G5 G6 G7. split.
  - intros h b E Hb. destruct (start_facts h b E) as (_ & _ & _ & [->|(_ & H & _)] & _); [|congruence]. assert (b = g) as -> by congruence. split; [exact G3|]. intros p Ep. congruence.
  - intros h b E Hp. destruct (start_facts h b E) as (H & _). rewrite (H Hp) in E. congruence.
  - intros h b p E Hd Hn Ep. destruct (start_facts h b E) as (_ & _ & _ & [->|(H & _)] & _); [|congruence]. congruence.
  - intros k h Hin. apply not_elem_of_nil in Hin. contradiction.
  - intros q Hin. apply not_elem_of_nil in Hin. contradiction.
  - constructor.
  - intros h b E. destruct (start_facts h b E) as (_ & _ & _ & [->|(H1 & H2 & H3 & H4)] & _).
    + assert (b = g) as -> by congruence. rewrite G2, G5, G6. lia.
    + pose proof (eo_height _ _ _ (is_index _ _ (ci_index _ _ _ _ _ _ _ _ _ node_start_ok) h b E)). rewrite H1, H3, H4. split; [discriminate|]. lia.
  - intros h b E. destruct (start_facts h b E) as (_ & _ & _ & _ & H & _). exact H.
Qed.

(** The first block arrives. *)
Definition received : option BestState := ReceivedBlockTransactions CMainParams addr start 1 1001 (0, 300).
Lemma entry_1001' : exists b, index start !! 1001 = Some b /\ have_data b = false.
Proof.
  assert (H : have_data <$> index start !! 1001 = Some false) by (vm_compute; reflexivity). destruct (index start !! 1001) as [b|]; [|discriminate]. exists b.
  split; [reflexivity|]. injection H as H. exact H.
Qed.
Lemma received_ready : exists st1, received = Some st1 /\ is_ready st1 /\ arriving [] st1 /\ arrived 1001 start st1.
Proof.
  destruct entry_1001' as (b & E & Hd).
  destruct (ReceivedBlockTransactions_spec CMainParams Demo.TxHash Demo.TxHash Z.add Demo.VerifyScript 0 zero txs_of addr start 1 1001 b (0, 300)
    start_ready start_arriving E Hd ltac:(lia)) as (st1 & Est & Hr & Ha & A). exists st1. auto.
Qed.
Definition undo_io (h : Z) : option Z := Some 8.
Definition read_ok (h : Z) : bool := true.
Lemma received_files st1 : arrived 1001 start st1 ->
  files_ok false GetHash Demo.PoWHash CMainParams Demo.TxHash Demo.Hash2 read flush undo_io read_ok (index st1).
Proof.
  intros (_ & _ & A). split.
  - intros c. eexists. reflexivity.
  - intros h. split; [eexists; reflexivity|reflexivity].
  - intros h b' E Hd Hg. destruct (A h b' E) as (b & Eb & _ & _ & _ & D). rewrite Hd in D. destruct (bool_decide_reflect (h = 1001)) as [->|Hne].
    + exists block1. split; [reflexivity|]. intros (b1 & r & E1). vm_compute in E1. discriminate.
    + destruct (start_facts h b Eb) as (_ & _ & _ & [H|(H & _)] & _); [destruct (Hg H)|congruence].
Qed.
Lemma received_heights st1 : arrived 1001 start st1 -> heights_below 2 (index st1).
Proof.
  intros (_ & _ & A) h b' E. destruct (A h b' E) as (b & Eb & (_ & _ & _ & L4 & _) & _). destruct (start_facts h b Eb) as (_ & _ & _ & _ & _ & H). rewrite L4. exact H.
Qed.
Lemma received_size st1 : received = Some st1 -> enough_fuel 2 (index st1) 20.
Proof.
  intros E. assert (H : (fun st => base.size (index st)) <$> received = Some 3%nat) by (vm_compute; reflexivity). rewrite E in H. cbn [fmap option_fmap option_map] in H. apply (inj Some) in H.
  unfold enough_fuel. rewrite H. cbn. lia.
Qed.
Abbreviation activate := (ActivateBestChain false GetHash Demo.PoWHash CMainParams Demo.TxHash Demo.TxHash Demo.Hash2 Z.add Demo.VerifyScript
  0 zero false Demo.Complete addr read flush undo_io read_ok).
Definition activated_from (x : option BestState) : option (option Z * bool) :=
  match x with
  | Some st => match activate 20%nat None st with Some y => Some (tip (fst y), snd y) | None => None end
  | None => None
  end.
(** The block becomes the tip. *)
Lemma activated : activated_from received = Some (Some 1001, true).
Proof. vm_compute. reflexivity. Qed.
Lemma activated_from_some st1 y : activate 20%nat None st1 = Some y -> activated_from (Some st1) = Some (tip (fst y), snd y).
Proof. intros E. unfold activated_from. rewrite E. reflexivity. Qed.
Lemma activated_tip st1 st2 : received = Some st1 -> activate 20%nat None st1 = Some (st2, true) -> tip st2 = Some 1001.
Proof. intros Est E2. pose proof activated as Ht. rewrite Est, (activated_from_some _ _ E2) in Ht. injection Ht as Ht. exact Ht. Qed.
End NodeDemo.

Lemma block_arrival_witness :
  exists st1, NodeDemo.received = Some st1 /\ 1001 ∈ setBlockIndexCandidates st1 /\
    forall t x, tip st1 = Some t -> usable (index st1) x -> worse NodeDemo.addr (index st1) x t = false -> x ∈ setBlockIndexCandidates st1.
Proof.
  destruct NodeDemo.entry_1001' as (b & E & Hd).
  destruct (block_arrival CMainParams Demo.TxHash Demo.TxHash Z.add Demo.VerifyScript 0 zero TipDemo.txs_of NodeDemo.addr NodeDemo.start 1 1001 b (0, 300)
    NodeDemo.start_ready NodeDemo.start_arriving E Hd ltac:(lia)) as (st1 & Est & _ & _ & H). exists st1. split; [exact Est|]. split; [|exact H].
  assert (Hc : setBlockIndexCandidates <$> NodeDemo.received = Some {[TipDemo.genesis; 1001]}) by (vm_compute; reflexivity).
  unfold NodeDemo.received in Hc. rewrite Est in Hc. cbn [fmap option_fmap option_map] in Hc. apply (inj Some) in Hc. rewrite Hc. set_solver.
Defined.
Lemma best_chain_activated_witness :
  exists st1 st2, NodeDemo.received = Some st1 /\ NodeDemo.activate 20%nat None st1 = Some (st2, true) /\ tip st2 = Some 1001 /\
    (steady TipDemo.genesis (index st2) -> forall h, usable (index st2) h -> worse NodeDemo.addr (index st2) 1001 h = false).
Proof.
  destruct NodeDemo.received_ready as (st1 & Est & Hr & _ & A). exists st1.
  destruct (best_chain_activated false TipDemo.GetHash Demo.PoWHash CMainParams Demo.TxHash Demo.TxHash Demo.Hash2 Z.add Demo.VerifyScript 0 zero false Demo.Complete
    TipDemo.txs_of NodeDemo.addr Demo.Complete_law TipDemo.subsidies TipDemo.read TipDemo.flush NodeDemo.undo_io NodeDemo.read_ok TipDemo.read_is_lawful TipDemo.flush_is_lawful
    2 None st1 20 Hr ltac:(discriminate) (NodeDemo.received_heights st1 A) (NodeDemo.received_size st1 Est)) as (st2 & ok & E2 & Hok & Hbest).
  assert (ok = true) as -> by (apply Hok; [exact (NodeDemo.received_files st1 A)|exact (TipDemo.given_none _)]). exists st2. split; [exact Est|]. split; [exact E2|].
  pose proof (NodeDemo.activated_tip st1 st2 Est E2) as Ht.
  split; [exact Ht|]. intros Hst. destruct (Hbest eq_refl) as (_ & _ & H). destruct (H Hst) as (_ & t & Et & Hb). rewrite Ht in Et. injection Et as <-. exact Hb.
Defined.
