(* ===== verification/ProcessBlock.v ===== *)
(** * A new block, from its arrival to the tip ([src/src/validation.cpp])

    [AcceptBlock] and [ProcessNewBlock] over the header rules, the checks of a
    block, [ReceivedBlockTransactions] and [ActivateBestChain].  The block comes
    from the network ([dbp] is null), writing it is a parameter, block files are
    not pruned, and there is no background chain state.  The clock is read
    before each header check.

    The last theorem puts the parts together: every call ends, keeps the
    invariant of the node, and leaves no usable block that is better than the
    tip. *)

From Stdlib Require Import String.
From stdpp Require Import gmap.
From S2P Require Import Prelude ConsensusParams Emission Levy ArithUint256 BlockIndex ActiveChain Pow Headers Serialize Script Transaction Coins TxCheck Merkle Block CuckooCache CheckQueue Ledger LedgerCoins Connect ConnectTotal Chainstate BestChain BestActivate BlockArrival NodeDemo.

Local Open Scope Z_scope.

Definition MIN_BLOCKS_TO_KEEP : Z := 288.

Section Process.
Context {B : Type} `{!CCoinsView B} {C : Type} `{!ElementCache C}.
Context (EnableFuzzDeterminism : bool) (GetHash : CBlockHeader -> Z) (PoWHash : CBlockHeader -> Params -> Z) (params : Params).
Context (TxHash WitnessHash : CTransaction -> Z) (Hash2 CacheKey : Z -> Z -> Z).
Context (VerifyScript : CScript -> CScript -> list (list Z) -> Z -> CTransaction -> nat -> Z -> list CTxOut -> option string).
Context (AssumedValidBlock : Z) (MinimumChainWork : list Z) (HasThreads : bool) (Complete : list CScriptCheck -> option string).
Context (addr : Z -> Z) (read : Z -> option CBlock) (flush : CCoinsViewCache B -> option (CCoinsViewCache B)) (undo_io : Z -> option Z) (read_ok : Z -> bool).
Implicit Type st : BestState (B := B) (C := C).

(** How [AcceptBlock] ends: [true] for a block that is not needed, [true] for a
    new block ([*fNewBlock]), [false] with an invalid state, [false] with an
    error. *)
Inductive Acceptance := NotNeeded | NewBlock | Refused (r : BlockValidationResult) (reason : string) | NotWritten.

(** Blocks that nobody asked for are dropped early. *)
Definition unrequested_drop (b : CBlockIndex) (fHasMoreOrSameWork fTooFarAhead : bool) : bool :=
  negb (nTx b =? 0) || negb fHasMoreOrSameWork || fTooFarAhead || (CompareTo (nChainWork b) MinimumChainWork <? 0).
Definition check_all (m : BlockMap) (block : CBlock) (pindexPrev : option Z) : option (CBlock * Verdict) :=
  '(block, v) ← CheckBlock EnableFuzzDeterminism GetHash PoWHash params TxHash Hash2 block true true;
  match v with
  | Valid => ContextualCheckBlock params WitnessHash Hash2 m block pindexPrev
  | Invalid _ _ => Some (block, v)
  end.
(** [InvalidBlockFound] with the candidate set. *)
Definition refuse st (h : Z) (r : BlockValidationResult) : option (BestState (B := B) (C := C)) :=
  s ← InvalidBlockFound (bs_chain st) h r;
  Some (match r with BLOCK_MUTATED => set_chain st s | _ => erase (set_chain st s) h end).
(** [write] is the position the block was written to. *)
Definition AcceptBlock st (block : CBlock) (fRequested min_pow_checked : bool) (now now' : Z) (write : option (Z * Z))
    : option (BestState (B := B) (C := C) * CBlock * Acceptance) :=
  '(man, pindex, v) ← AcceptBlockHeader EnableFuzzDeterminism GetHash PoWHash params (m_blockman (bs_chain st)) (header block) min_pow_checked now now';
  let st := set_man st man in
  match v with
  | Invalid r reason => Some (st, block, Refused r reason)
  | Valid =>
      h ← pindex;
      b ← index st !! h;
      fHasMoreOrSameWork ← (match tip st with
                            | Some t => bt ← index st !! t; Some (ge (nChainWork b) (nChainWork bt))
                            | None => Some true
                            end);
      let fTooFarAhead := nHeight b >? i32 (Height (m_chain (bs_chain st)) + MIN_BLOCKS_TO_KEEP) in
      if negb (Z.land (nStatus b) BLOCK_HAVE_DATA =? 0) then Some (st, block, NotNeeded)
      else if negb fRequested && unrequested_drop b fHasMoreOrSameWork fTooFarAhead then Some (st, block, NotNeeded)
      else
        '(block, v) ← check_all (index st) block (pprev b);
        match v with
        | Invalid r reason => st ← refuse st h r; Some (st, block, Refused r reason)
        | Valid =>
            match write with
            | None => Some (st, block, NotWritten)
            | Some pos => st ← ReceivedBlockTransactions params addr st (size (vtx block)) h pos; Some (st, block, NewBlock)
            end
        end
  end.

(** The result is what [ProcessNewBlock] returns. *)
Definition ProcessNewBlock (fuel : nat) st (block : CBlock) (force_processing min_pow_checked : bool) (clock : Z * Z * Z) (write : option (Z * Z))
    : option (BestState (B := B) (C := C) * bool) :=
  let '(now, now1, now2) := clock in
  if too_new (header block) now then Some (st, false)
  else
    '(block, v) ← CheckBlock EnableFuzzDeterminism GetHash PoWHash params TxHash Hash2 block true true;
    match v with
    | Invalid _ _ => Some (st, false)
    | Valid =>
        '(st, block, a) ← AcceptBlock st block force_processing min_pow_checked now1 now2 write;
        match a with
        | Refused _ _ | NotWritten => Some (st, false)
        | NotNeeded | NewBlock =>
            ActivateBestChain EnableFuzzDeterminism GetHash PoWHash params TxHash WitnessHash Hash2 CacheKey VerifyScript
              AssumedValidBlock MinimumChainWork HasThreads Complete addr read flush undo_io read_ok fuel (Some block) st
        end
    end.
End Process.

(** ** What the steps keep *)

Section Keeps.
Context {B : Type} {C : Type}.
Implicit Type st : BestState (B := B) (C := C).

Lemma count_keeps b b' : entry_keeps b b' -> HaveNumChainTxs b' = HaveNumChainTxs b.
Proof. intros [_ _ K3 _ _ _ _ _]. unfold HaveNumChainTxs. rewrite K3. reflexivity. Qed.
Lemma arriving_keeps st st' :
  arriving [] st -> index_keeps (index st) (index st') -> m_blocks_unlinked st' = m_blocks_unlinked st -> arriving [] st'.
Proof.
  intros H K Eu.
  assert (Hback : forall h b', index st' !! h = Some b' -> exists b, index st !! h = Some b /\ entry_keeps b b' /\ pprev b' = pprev b /\ nHeight b' = nHeight b /\
    HaveNumChainTxs b' = HaveNumChainTxs b /\ have_data b' = have_data b).
  { intros h b' E. destruct (index_keeps_back _ _ _ _ K E) as (b & Eb & Kb). exists b. split; [exact Eb|]. split; [exact Kb|]. pose proof Kb as [(_ & L2 & _ & L4 & _) _ _ K4].
    split; [exact L2|]. split; [exact L4|]. split; [apply count_keeps, Kb|exact K4]. }
  assert (Hfwd : forall h b, index st !! h = Some b -> exists b', index st' !! h = Some b' /\ entry_keeps b b' /\ pprev b' = pprev b /\ HaveNumChainTxs b' = HaveNumChainTxs b /\
    have_data b' = have_data b).
  { intros h b E. destruct (proj1 K h b E) as (b' & E' & Kb). exists b'. split; [exact E'|]. split; [exact Kb|]. pose proof Kb as [(_ & L2 & _) _ _ K4]. split; [exact L2|]. split; [apply count_keeps, Kb|exact K4]. }
  split.
  - intros h b' E Hb. destruct (Hback h b' E) as (b & Eb & _ & Ep & _ & En & Ed). rewrite En in Hb. destruct (ar_linked _ _ H h b Eb Hb) as [D1 D2]. split; [congruence|].
    intros p Ep'. destruct (D2 p) as (pb & Epb & Hpb); [congruence|]. destruct (Hfwd p pb Epb) as (pb' & Epb' & _ & _ & En' & _). exists pb'. split; [exact Epb'|congruence].
  - intros h b' E Hp. destruct (Hback h b' E) as (b & Eb & _ & Ep & _ & En & _). rewrite En. apply (ar_root _ _ H h b Eb). congruence.
  - intros h b' p E Hd Hn Hp. destruct (Hback h b' E) as (b & Eb & _ & Ep & _ & En & Ed). rewrite Eu. destruct (ar_waits _ _ H h b p Eb) as [Hw|[Hw|(pb & Epb & Hf)]]; try congruence; auto.
    right. right. destruct (Hfwd p pb Epb) as (pb' & Epb' & Kp & _). exists pb'. split; [exact Epb'|apply (ek_failed _ _ Kp Hf)].
  - intros k h Hin. rewrite Eu in Hin. destruct (ar_unlinked _ _ H k h Hin) as (p & b & pb & -> & E1 & E2 & E3 & E4 & E5 & E6).
    destruct (Hfwd h b E1) as (b' & E1' & _ & Ep & En & Ed). destruct (Hfwd p pb E5) as (pb' & E5' & _ & _ & En' & _). exists p, b', pb'. repeat split; congruence.
  - intros q Hq. apply not_elem_of_nil in Hq. contradiction.
  - rewrite Eu. apply (ar_once _ _ H).
  - intros h b' E. destruct (Hback h b' E) as (b & Eb & Kb & _ & Eh & _ & Ed). destruct (ar_counts _ _ H h b Eb) as (C1 & C2 & C3).
    rewrite Ed, (ek_ntx _ _ Kb), (ek_txs _ _ Kb), Eh. auto.
  - intros h b' E. destruct (Hback h b' E) as (b & Eb & Kb & _). apply (ek_tree _ _ Kb), (ar_tree _ _ H h b Eb).
Qed.
End Keeps.

(** The header of a new block: its fields have their widths, its hash is not
    one of the values that stand for something else (0, [BIP34Hash] and the two
    exceptions of BIP 30), and its parent, when there is one, leaves room for a
    block: heights fit 31 bits, and the total work is below half its range,
    which is more than one block can add to. *)
Record header_fits (GetHash : CBlockHeader -> Z) (params : Params) (m : BlockMap) (hd : CBlockHeader) : Prop := {
  hf_header : header_ok hd;
  hf_hash : hash_ok params (GetHash hd);
  hf_parent : forall pb, m !! hdr_hashPrevBlock hd = Some pb -> nHeight pb + 1 + 2 ^ 16 < 2 ^ 31 /\ val (nChainWork pb) < 2 ^ 255
}.
(** No target is worth more than half the range of the work. *)
Lemma bits_work_half c : is_u32 c -> bits_work c <= 2 ^ 255.
Proof.
  intros Hc. unfold bits_work. cbv zeta. destruct (compact_value_nonneg c Hc) as [_ H0].
  destruct ((_ || _) || _) eqn:E; [lia|]. apply orb_false_iff in E as [E _]. apply orb_false_iff in E as [_ E]. apply Z.eqb_neq in E.
  change (2 ^ 255) with (2 ^ 256 / 2). apply Z.div_le_compat_l; lia.
Qed.
(** A target that is encoded is worth some work. *)
Lemma bits_work_compact v : 1 <= v < R -> 0 < bits_work (compact v).
Proof.
  intros Hv. unfold bits_work, compact. destruct (compact_value_encoded v ltac:(lia)) as (_ & -> & _ & Hlow & _).
  pose proof (trunc_range v ltac:(lia)) as [Ht _]. pose proof (trunc_pos v ltac:(lia)) as Hp.
  replace (2 ^ 23 <=? _) with false by lia. replace (trunc v =? 0) with false by lia. replace (R <=? trunc v) with false by lia. cbn [orb].
  apply Z.div_str_pos. unfold R in *. lia.
Qed.
(** A new entry has no transactions yet. *)
Lemma AddToBlockIndex_counts GetHash s hd s' h : AddToBlockIndex GetHash s hd = Some (s', h) -> m_block_index s !! GetHash hd = None ->
  exists new, m_block_index s' = <[GetHash hd := new]> (m_block_index s) /\ nTx new = 0 /\ m_chain_tx_count new = 0.
Proof.
  intros E Hf. unfold AddToBlockIndex in E. rewrite Hf in E. cbv zeta in E. revert E.
  match goal with |- (?x ≫= _) = _ -> _ => destruct x as [n1|] eqn:E1; [|discriminate] end. cbn [mbind option_bind].
  assert (H1 : nTx n1 = 0 /\ m_chain_tx_count n1 = 0).
  { revert E1. destruct (_ !! hdr_hashPrevBlock hd) as [prev|]; [|intros [= <-]; auto]. destruct (BuildSkip _ _) as [skip|]; [|discriminate]. intros [= <-]. auto. }
  destruct (GetBlockProof n1) as [proof|]; [|discriminate]. cbn [mbind option_bind].
  match goal with |- (?x ≫= _) = _ -> _ => destruct x as [n2|] eqn:E2; [|discriminate] end. cbn [mbind option_bind].
  assert (H2 : nTx n2 = 0 /\ m_chain_tx_count n2 = 0).
  { revert E2. destruct (pprev n1) as [p|]; [|intros [= <-]; exact H1]. destruct (_ !! p); [|discriminate]. intros [= <-]. exact H1. }
  destruct (RaiseValidity n2 BLOCK_VALID_TREE) as [[n3 r]|] eqn:E3; [|discriminate]. cbn [mbind option_bind].
  assert (H3 : nTx n3 = 0 /\ m_chain_tx_count n3 = 0).
  { revert E3. unfold RaiseValidity. destruct (negb _); [discriminate|]. destruct (negb _); [intros [= <- _]; exact H2|]. destruct (_ <? _); intros [= <- _]; exact H2. }
  match goal with |- (?x ≫= _) = _ -> _ => destruct x as [bh|]; [|discriminate] end. cbn [mbind option_bind]. intros [= <- _]. exists n3.
  split; [cbn; rewrite !insert_insert_eq; reflexivity|exact H3].
Qed.

(** ** The invariant of the node *)

Section Node.
Context {B : Type} `{!CCoinsView B} `{!CCoinsViewLaws B} {C : Type} `{!ElementCache C} `{!ElementCacheLaws C}.
Context (EnableFuzzDeterminism : bool) (GetHash : CBlockHeader -> Z) (PoWHash : CBlockHeader -> Params -> Z) (params : Params).
Context (TxHash WitnessHash : CTransaction -> Z) (Hash2 CacheKey : Z -> Z -> Z).
Context (VerifyScript : CScript -> CScript -> list (list Z) -> Z -> CTransaction -> nat -> Z -> list CTxOut -> option string).
Context (AssumedValidBlock : Z) (MinimumChainWork : list Z) (HasThreads : bool) (Complete : list CScriptCheck -> option string).
Context (txs_of : Z -> list CTransaction) (addr : Z -> Z).
Implicit Type st : BestState (B := B) (C := C).
Abbreviation genesis := (hashGenesisBlock params).
Abbreviation cands_ok := (candidates_ok params TxHash WitnessHash CacheKey VerifyScript AssumedValidBlock MinimumChainWork txs_of).
Abbreviation is_ready := (ready params TxHash WitnessHash CacheKey VerifyScript AssumedValidBlock MinimumChainWork txs_of addr).
Abbreviation cands := setBlockIndexCandidates.

(** The target of the genesis block anchors the difficulty. *)
Definition anchored (m : BlockMap) : Prop := forall g, m !! genesis = Some g -> anchor_ok params g.
Lemma anchored_links m m' : (forall h b', m' !! h = Some b' -> exists b, m !! h = Some b /\ same_links b b') -> anchored m -> anchored m'.
Proof. intros L H g' E'. destruct (L _ _ E') as (g & E & (_ & _ & _ & _ & _ & _ & Eb & _)). unfold anchor_ok. rewrite Eb. apply (H g E). Qed.
Lemma keeps_links m m' : index_keeps m m' -> forall h b', m' !! h = Some b' -> exists b, m !! h = Some b /\ same_links b b'.
Proof. intros K h b' E. destruct (index_keeps_back _ _ _ _ K E) as (b & Eb & Kb). exists b. split; [exact Eb|apply Kb]. Qed.

(** The candidates are complete and the blocks that wait are known. *)
Record node_ok st : Prop := {
  no_ready : is_ready st;
  no_arriving : arriving [] st;
  no_anchored : anchored (index st)
}.
Lemma no_ok st : node_ok st -> cands_ok st.
Proof. intros H. apply (rd_ok _ _ _ _ _ _ _ _ _ _ (no_ready _ H)). Qed.
Lemma no_index st : node_ok st -> index_ok (index st).
Proof. intros H. apply (ca_index _ _ _ _ _ _ _ _ _ (no_ok _ H)). Qed.

(** Without pruning, the branches of the candidates are complete. *)
Lemma arriving_complete st : cands_ok st -> arriving [] st -> complete st.
Proof.
  intros H Har h x b Hh Hx E. destruct (ca_linked _ _ _ _ _ _ _ _ _ H h x Hh Hx) as (b' & E' & Hl). assert (b' = b) as -> by congruence.
  assert (Hn : HaveNumChainTxs b = true); [|apply (ar_linked _ _ Har x b E Hn)].
  unfold linked in Hl. apply orb_true_iff in Hl as [Hl|Hl]; [exact Hl|]. apply Z.eqb_eq in Hl. apply (ar_root _ _ Har x b E).
  destruct (pprev b) as [p|] eqn:Ep; [|reflexivity]. pose proof (ca_index _ _ _ _ _ _ _ _ st H) as Hm. destruct (eo_link _ _ _ (Hm x b E) p Ep) as (pb & Epb & Hh' & _).
  pose proof (eo_height _ _ _ (Hm p pb Epb)). lia.
Qed.

(** *** A header *)

Lemma header_added st hd man h :
  node_ok st -> header_fits GetHash params (index st) hd -> 0 < bits_work (hdr_nBits hd) -> index st !! GetHash hd = None ->
  is_Some (index st !! hdr_hashPrevBlock hd) ->
  AddToBlockIndex GetHash (m_blockman (bs_chain st)) hd = Some (man, h) ->
  node_ok (set_man st man) /\ exists new, index (set_man st man) = <[GetHash hd := new]> (index st) /\ have_data new = false /\ failed new = false /\
    exists pb, index st !! hdr_hashPrevBlock hd = Some pb /\ nHeight new = nHeight pb + 1 /\ pprev new = Some (hdr_hashPrevBlock hd).
Proof.
  intros [[H Hab (t & Et & Hot & Hc)] Har Hanch] [F1 F3 F4] F2 Hfresh [pb Epb] Eadd. destruct (F4 pb Epb) as [Hbig Hhalf].
  assert (Hwork : val (nChainWork pb) + bits_work (hdr_nBits hd) < R) by (pose proof (bits_work_half _ (proj2 F1)); unfold R; lia). pose proof (ca_index _ _ _ _ _ _ _ _ st H) as Hm.
  pose proof (ca_chain _ _ _ _ _ _ _ _ _ H) as Hs.
  pose proof (add_header_ok GetHash params TxHash WitnessHash CacheKey VerifyScript AssumedValidBlock MinimumChainWork txs_of (bs_chain st) hd pb man h Hs F1 F2 F3 Epb Hbig Eadd) as Hs'.
  destruct (add_linked GetHash (m_blockman (bs_chain st)) hd pb Hm F1 Hfresh Epb ltac:(lia)) as (new & best & E' & Hnew & Hadd & _).
  { intros bh Ebh. destruct (is_best _ _ (ci_index _ _ _ _ _ _ _ _ _ Hs)) as (bh' & e & E1 & E2). rewrite Ebh in E1. injection E1 as <-. eauto. }
  destruct (AddToBlockIndex_counts GetHash _ hd man h Eadd Hfresh) as (new' & Em & Hn1 & Hn2). rewrite Eadd in E'. injection E' as -> ->.
  cbn [m_block_index] in Em. assert (new' = new) as -> by (apply (f_equal (lookup (GetHash hd))) in Em; rewrite !lookup_insert_eq in Em; congruence). clear Em.
  set (man := mkBlockManager _ _ _) in *. set (st' := set_man st man). assert (Ei : index st' = <[GetHash hd := new]> (index st)) by reflexivity.
  change (m_block_index (m_blockman (bs_chain st))) with (index st) in *. set (k := GetHash hd) in *.
  assert (Hp : pprev new = Some (hdr_hashPrevBlock hd)) by (rewrite (ad_prev _ _ _ Hadd), Epb; reflexivity).
  pose proof (ad_status _ _ _ Hadd) as Hst. assert (Hd : have_data new = false) by (unfold have_data; rewrite Hst; reflexivity).
  assert (Hu : has_undo new = false) by (unfold has_undo; rewrite Hst; reflexivity). assert (Hfa : failed new = false) by (unfold failed; rewrite Hst; reflexivity).
  assert (Hn : HaveNumChainTxs new = false) by (unfold HaveNumChainTxs; rewrite Hn2; reflexivity).
  assert (Hcase : forall x b, index st' !! x = Some b -> (x = k /\ b = new) \/ (x <> k /\ index st !! x = Some b)).
  { intros x b. rewrite Ei. intros [[<- <-]|[Hne Ex]]%lookup_insert_Some; auto. }
  assert (Hkeep : forall x b, index st !! x = Some b -> index st' !! x = Some b) by (intros x b Ex; rewrite Ei, lookup_insert_ne by congruence; exact Ex).
  assert (Hanc : forall x y b, index st !! y = Some b -> is_ancestor (index st') x y <-> is_ancestor (index st) x y).
  { intros x y b Ey. rewrite Ei. split; intros [n Hn']; exists n; [rewrite <- (nth_prev_extend Hm k new Hfresh y b n Ey)|rewrite (nth_prev_extend Hm k new Hfresh y b n Ey)]; exact Hn'. }
  assert (Hold : forall y, usable (index st') y -> usable (index st) y).
  { intros y Hy. destruct (Hy y (is_ancestor_refl _ _)) as (b & Eb & _ & Hdb). destruct (Hcase y b Eb) as [[-> ->]|[_ Ey]]; [congruence|].
    intros x Hx. destruct (Hy x) as (bx & Ex & H1 & H2); [apply (Hanc x y b Ey), Hx|]. destruct (Hcase x bx Ex) as [[-> ->]|[_ Ex0]]; [congruence|eauto]. }
  destruct (eo_link _ _ _ Hnew _ Hp) as (pb' & Epb' & Hh & _ & _ & [Hw1 Hw2]). rewrite lookup_insert_ne, Epb in Epb' by congruence. injection Epb' as <-.
  destruct (ci_genesis _ _ _ _ _ _ _ _ _ Hs) as (g & Eg & Hg). assert (Hkg : k <> genesis) by (intros Ek; rewrite Ek in Hfresh; change (m_block_index _) with (index st) in Eg; congruence).
  destruct Hot as (bt & Ebt & Hbt). pose proof (eo_height _ _ _ (Hm _ pb Epb)) as Hhp.
  split; [|exists new; split; [reflexivity|]; split; [exact Hd|]; split; [exact Hfa|]; exists pb; split; [exact Epb|]; split; [lia|exact Hp]].
  split; [split; [split|intros x t' Hx Et' Ha|]|split|].
  - exact Hs'.
  - intros x b Ex Hpb. destruct (Hcase x b Ex) as [[-> ->]|[_ Ex0]]; [congruence|apply (ca_root _ _ _ _ _ _ _ _ _ H x b Ex0 Hpb)].
  - intros x b p pb0 Ex Ep Epb0. destruct (Hcase x b Ex) as [[-> ->]|[Hne Ex0]].
    + assert (p = hdr_hashPrevBlock hd) as -> by congruence. rewrite (Hkeep _ _ Epb) in Epb0. injection Epb0 as <-.
      rewrite (ad_bits _ _ _ Hadd) in Hw2. rewrite Z.mod_small in Hw2; [lia|]. pose proof (work_ok _ _ _ Hm Epb) as Hl. pose proof (val_bound _ Hl). lia.
    + destruct (eo_link _ _ _ (Hm x b Ex0) p Ep) as (pb1 & Epb1 & _). rewrite (Hkeep _ _ Epb1) in Epb0. injection Epb0 as <-. apply (ca_works _ _ _ _ _ _ _ _ _ H x b p pb1 Ex0 Ep Epb1).
  - intros y x Hy Hx. destruct (ca_entry _ _ _ _ _ _ _ _ st y H Hy) as [b Eb]. apply (Hanc x y b Eb) in Hx. destruct (ca_linked _ _ _ _ _ _ _ _ _ H y x Hy Hx) as (bx & Ex & Hl). eauto.
  - intros x b Ex Hx. destruct (Hcase x b Ex) as [[-> ->]|[_ Ex0]]; [destruct Hx; congruence|apply (ca_data _ _ _ _ _ _ _ _ _ H x b Ex0 Hx)].
  - change (tip st = Some t') in Et'. assert (t' = t) as -> by congruence. apply (Hanc x t bt Ebt) in Ha. apply (Hab x t Hx Et Ha).
  - exists t. split; [exact Et|]. split; [exists bt; auto|]. intros y Hy Hw. pose proof (Hold y Hy) as Hy0. apply (Hc y Hy0). rewrite <- Hw, Ei. symmetry.
    destruct (usable_entry _ _ Hy0) as [b Eb]. apply worse_insert; congruence.
  - intros x b Ex Hb. destruct (Hcase x b Ex) as [[-> ->]|[_ Ex0]]; [congruence|]. destruct (ar_linked _ _ Har x b Ex0 Hb) as [D1 D2]. split; [exact D1|].
    intros p Ep. destruct (D2 p Ep) as (pb1 & Epb1 & Hpb1). eauto.
  - intros x b Ex Hpb. destruct (Hcase x b Ex) as [[-> ->]|[_ Ex0]]; [congruence|apply (ar_root _ _ Har x b Ex0 Hpb)].
  - intros x b p Ex Hdx Hnx Ep. destruct (Hcase x b Ex) as [[-> ->]|[_ Ex0]]; [congruence|]. destruct (ar_waits _ _ Har x b p Ex0 Hdx Hnx Ep) as [Hw|[Hw|(pb1 & Epb1 & Hf1)]]; [auto|auto|right; right; eauto].
  - intros e x Hin. destruct (ar_unlinked _ _ Har e x Hin) as (p & b & pb1 & -> & E1 & E2 & E3 & E4 & E5 & E6). exists p, b, pb1. repeat split; auto.
  - intros q Hq. apply not_elem_of_nil in Hq. contradiction.
  - exact (ar_once _ _ Har).
  - intros x b Ex. destruct (Hcase x b Ex) as [[-> ->]|[_ Ex0]]; [|apply (ar_counts _ _ Har x b Ex0)]. rewrite Hd, Hn1, Hn2. split; [discriminate|]. lia.
  - intros x b Ex. destruct (Hcase x b Ex) as [[-> ->]|[_ Ex0]]; [unfold in_tree; rewrite Hst; reflexivity|apply (ar_tree _ _ Har x b Ex0)].
  - intros g' Eg'. destruct (Hcase _ g' Eg') as [[Ek _]|[_ Eg0]]; [congruence|apply (Hanch g' Eg0)].
Qed.

Lemma set_man_same st : set_man st (m_blockman (bs_chain st)) = st.
Proof. destruct st as [[]]. reflexivity. Qed.

(** *** The header rules can be evaluated *)

Context (Hasert : asert_chain params).

Lemma most_work_entry (m : BlockMap) : m <> ∅ -> exists h e, m !! h = Some e /\ forall h' b', m !! h' = Some b' -> val (nChainWork b') <= val (nChainWork e).
Proof.
  induction m as [|k b m Hk IH] using map_ind; [congruence|]. intros _. destruct (decide (m = ∅)) as [->|Hne].
  - exists k, b. rewrite lookup_insert_eq. split; [reflexivity|]. intros h' b' [[_ <-]|[_ E]]%lookup_insert_Some; [lia|rewrite lookup_empty in E; discriminate].
  - destruct (IH Hne) as (h & e & Eh & Hmax). destruct (Z.le_ge_cases (val (nChainWork b)) (val (nChainWork e))) as [Hle|Hge].
    + exists h, e. rewrite lookup_insert_ne by congruence. split; [exact Eh|]. intros h' b' [[_ <-]|[_ E]]%lookup_insert_Some; [exact Hle|apply (Hmax h' b' E)].
    + exists k, b. rewrite lookup_insert_eq. split; [reflexivity|]. intros h' b' [[_ <-]|[_ E]]%lookup_insert_Some; [lia|pose proof (Hmax h' b' E); lia].
Qed.
Lemma index_manager st : cands_ok st -> exists s, manager_ok s /\ m_block_index s = index st.
Proof.
  intros H. destruct (ci_genesis _ _ _ _ _ _ _ _ _ (ca_chain _ _ _ _ _ _ _ _ _ H)) as (g & Eg & _). change (m_block_index _) with (index st) in Eg.
  destruct (most_work_entry (index st)) as (h & e & Eh & Hmax); [intros E; rewrite E, lookup_empty in Eg; discriminate|].
  exists (mkBlockManager (index st) ∅ (Some h)). split; [|reflexivity]. split; cbn.
  - apply (ca_index _ _ _ _ _ _ _ _ _ H).
  - intros x b x' b' Ex Ex' Hp Hp'. rewrite (ca_root _ _ _ _ _ _ _ _ _ H x b Ex Hp), (ca_root _ _ _ _ _ _ _ _ _ H x' b' Ex' Hp'). reflexivity.
  - discriminate.
  - intros x [= <-]. eauto.
  - set_solver.
Qed.
(** The target of a block is the one ASERT computes. *)
Lemma next_work st hd p prev :
  cands_ok st -> anchored (index st) -> index st !! p = Some prev -> nHeight prev < 2 ^ 31 - 1 ->
  exists v, GetNextWorkRequired (index st) p hd params = Some (compact v) /\ 1 <= v < R.
Proof using Hasert.
  intros H Ha Ep Hh. destruct (index_manager st H) as (s & Hok & Es). destruct (ci_genesis _ _ _ _ _ _ _ _ _ (ca_chain _ _ _ _ _ _ _ _ _ H)) as (g & Eg & Hg).
  change (m_block_index _) with (index st) in Eg. pose proof (Ha g Eg) as Hag. pose proof (ca_index _ _ _ _ _ _ _ _ st H) as Hm. pose proof (eo_height _ _ _ (Hm p prev Ep)) as Hp0.
  destruct Hasert as [A1 A2 A3]. exists (asert_rule params prev g). unfold GetNextWorkRequired. rewrite Ep. cbn [mbind option_bind].
  assert (represents (powLimit params) (bn_limit params)) as Rl by (apply rep_UintToArith256; destruct A1 as [_ _ H3 _]; split; [lia|]; apply limit_R; lia).
  rewrite (rep_compact _ _ Rl). cbn [mbind option_bind]. rewrite i32_id by (unfold is_i32; lia). replace (nHeight prev + 1 >=? nASERTActivationHeight params) with true by lia.
  rewrite <- Es in Ep, Eg |- *. rewrite (Asert_spec Hok params A1 _ g Eg Hg Hag p prev Ep). split; [reflexivity|].
  destruct (asert_rule_range params A1 g Hag prev) as [H1 H2]. lia.
Qed.
Lemma contextual_header_total st hd p prev now :
  cands_ok st -> anchored (index st) -> index st !! p = Some prev -> nHeight prev < 2 ^ 31 - 1 ->
  exists v, ContextualCheckBlockHeader GetHash params (index st) hd p now = Some v /\ (v = Valid -> 0 < bits_work (hdr_nBits hd)).
Proof using Hasert.
  intros H Ha Ep Hh. pose proof (ca_index _ _ _ _ _ _ _ _ st H) as Hm. unfold ContextualCheckBlockHeader. rewrite Ep. cbn [mbind option_bind].
  destruct (next_work st hd p prev H Ha Ep Hh) as (w & -> & Hw). cbn [mbind option_bind].
  destruct (Z.eqb_spec (hdr_nBits hd) (compact w)) as [->|]; cbn [negb]; [|eexists; split; [reflexivity|discriminate]].
  destruct (GetMedianTimePast_total _ p prev Hm Ep) as [t ->]. cbn [mbind option_bind]. destruct Hasert as [_ _ A3].
  pose proof (bits_work_compact w Hw) as Hpos.
  destruct (_ <=? t); [eauto|]. rewrite A3. cbn [mbind option_bind].
  repeat match goal with |- exists v, (if ?c then _ else _) = _ /\ _ => destruct c; [eauto|] end. eauto.
Qed.

(** The state after the header was accepted or not. *)
Record header_step st st' (hd : CBlockHeader) : Prop := {
  hs_node : node_ok st';
  hs_keeps : forall x b, index st !! x = Some b -> index st' !! x = Some b;
  hs_new : forall x b, index st' !! x = Some b -> index st !! x = Some b \/
    (x = GetHash hd /\ have_data b = false /\ failed b = false /\ exists pb, index st !! hdr_hashPrevBlock hd = Some pb /\ nHeight b = nHeight pb + 1 /\
       pprev b = Some (hdr_hashPrevBlock hd));
  hs_tip : tip st' = tip st;
  hs_size : (base.size (index st') <= S (base.size (index st)))%nat
}.
Lemma accept_header st hd mpc now now' :
  node_ok st -> header_fits GetHash params (index st) hd ->
  exists man pi v, AcceptBlockHeader EnableFuzzDeterminism GetHash PoWHash params (m_blockman (bs_chain st)) hd mpc now now' = Some (man, pi, v) /\
    header_step st (set_man st man) hd /\ (v = Valid -> pi = Some (GetHash hd) /\ is_Some (index (set_man st man) !! GetHash hd)).
Proof using Hasert.
  intros H F. pose proof (no_anchored _ H) as Ha. pose proof (no_ok _ H) as Hc. pose proof (no_index _ H) as Hm. pose proof (ca_chain _ _ _ _ _ _ _ _ _ Hc) as Hs.
  destruct (ci_genesis _ _ _ _ _ _ _ _ _ Hs) as (g & Eg & _). change (m_block_index _) with (index st) in Eg.
  assert (Hadd : index st !! GetHash hd = None -> is_Some (index st !! hdr_hashPrevBlock hd) -> is_Some (AddToBlockIndex GetHash (m_blockman (bs_chain st)) hd)).
  { intros Hf [pb Epb]. destruct (hf_parent _ _ _ _ F pb Epb) as [Hbig _].
    destruct (add_linked GetHash (m_blockman (bs_chain st)) hd pb Hm (hf_header _ _ _ _ F) Hf Epb ltac:(lia)) as (new & best & -> & _); [|eauto].
    intros bh Ebh. destruct (is_best _ _ (ci_index _ _ _ _ _ _ _ _ _ Hs)) as (bh' & e & E1 & E2). rewrite Ebh in E1. injection E1 as <-. eauto. }
  assert (Htot : is_Some (AcceptBlockHeader EnableFuzzDeterminism GetHash PoWHash params (m_blockman (bs_chain st)) hd mpc now now')).
  { unfold AcceptBlockHeader. cbv zeta. change (m_block_index (m_blockman (bs_chain st))) with (index st).
    assert (Hadd' : is_Some (AddToBlockIndex GetHash (m_blockman (bs_chain st)) hd) ->
      is_Some (if negb mpc then Some (m_blockman (bs_chain st), None, Invalid BLOCK_HEADER_LOW_WORK "too-little-chainwork")
               else '(s', pindex) ← AddToBlockIndex GetHash (m_blockman (bs_chain st)) hd; Some (s', Some pindex, Valid))) by (intros [[s1 h1] ->]; destruct mpc; cbn; eauto).
    destruct (Z.eqb_spec (GetHash hd) genesis) as [E|Hne]; [apply Hadd'; unfold AddToBlockIndex; change (m_block_index (m_blockman (bs_chain st))) with (index st); rewrite E, Eg; eauto|].
    destruct (index st !! GetHash hd) eqn:Ef; [destruct (_ =? 0); cbn; eauto|]. destruct (too_new hd now); [eauto|].
    destruct (CheckBlockHeader _ _ _ _ _ _); [|eauto]. destruct (index st !! hdr_hashPrevBlock hd) as [prev|] eqn:Ep; [|eauto]. destruct (_ =? 0); cbn [negb]; [|eauto].
    destruct (hf_parent _ _ _ _ F prev Ep) as [Hbig _]. pose proof (eo_height _ _ _ (Hm _ prev Ep)) as Hp0.
    destruct (contextual_header_total st hd _ prev now' Hc Ha Ep ltac:(lia)) as (v & -> & _). cbn [mbind option_bind]. destruct v; [|eauto]. apply Hadd', Hadd; eauto. }
  destruct Htot as [[[man pi] v] E]. exists man, pi, v. split; [exact E|].
  assert (Hsame : header_step st (set_man st (m_blockman (bs_chain st))) hd) by (rewrite set_man_same; split; auto).
  destruct (AcceptBlockHeader_cases _ _ _ _ _ _ _ _ _ _ _ _ E) as [[-> Hv]|(-> & _ & Eadd & -> & Hcase)].
  - split; [exact Hsame|]. rewrite set_man_same. exact Hv.
  - destruct Hcase as [Eg'|(Hfresh & _ & _ & prev & Eprev & _ & Hctx)].
    + assert (man = m_blockman (bs_chain st)) as ->.
      { unfold AddToBlockIndex in Eadd. change (m_block_index (m_blockman (bs_chain st))) with (index st) in Eadd. rewrite Eg', Eg in Eadd. congruence. }
      split; [exact Hsame|]. intros _. rewrite set_man_same, Eg'. eauto.
    + assert (Hpos : 0 < bits_work (hdr_nBits hd)).
      { destruct (hf_parent _ _ _ _ F prev Eprev) as [Hbig _]. destruct (contextual_header_total st hd _ prev now' Hc Ha Eprev ltac:(lia)) as (v & Ev & Hpos).
        change (m_block_index (m_blockman (bs_chain st))) with (index st) in Hctx. rewrite Hctx in Ev. injection Ev as <-. apply Hpos. reflexivity. }
      destruct (header_added st hd man _ H F Hpos Hfresh (mk_is_Some _ _ Eprev) Eadd) as (Hn & new & Ei & N1 & N2 & N3).
      change (m_block_index (m_blockman (bs_chain st))) with (index st) in Hfresh. split; [|intros _; split; [reflexivity|]; rewrite Ei, lookup_insert_eq; eauto]. split.
      * exact Hn.
      * intros x b Ex. rewrite Ei, lookup_insert_ne by congruence. exact Ex.
      * intros x b. rewrite Ei. intros [[<- <-]|[_ Ex]]%lookup_insert_Some; [right; auto|auto].
      * reflexivity.
      * rewrite Ei, map_size_insert_None by exact Hfresh. lia.
Qed.

(** *** A block that breaks a rule *)

Lemma refuse_spec st h b r : node_ok st -> index st !! h = Some b -> exists st', refuse st h r = Some st' /\ node_ok st' /\ tip st' = tip st /\ index_keeps (index st) (index st').
Proof.
  intros [[H Hab (t & Et & Hc)] Har Hanch] E. destruct (InvalidBlockFound_spec params TxHash WitnessHash CacheKey VerifyScript AssumedValidBlock MinimumChainWork txs_of (bs_chain st) h b r
    (ca_chain _ _ _ _ _ _ _ _ _ H) E) as (s & Es & Hs & _ & Ech).
  pose proof (InvalidBlockFound_keeps (bs_chain st) h r s Es) as (K & U & Hf). unfold refuse. rewrite Es. cbn [mbind option_bind]. eexists. split; [reflexivity|].
  set (st' := match r with BLOCK_MUTATED => set_chain st s | _ => _ end).
  assert (Hst : bs_chain st' = s /\ m_blocks_unlinked st' = m_blocks_unlinked st /\ cands st' ⊆ cands st /\ (forall x, x ∈ cands st -> x ∉ cands st' -> x = h /\ r <> BLOCK_MUTATED)).
  { subst st'. destruct r; cbn; (split; [reflexivity|]); (split; [reflexivity|]); (split; [set_solver|]); intros x Hx Hn; ((split; [|discriminate]) || contradiction);
      destruct (decide (x = h)); set_solver. }
  destruct Hst as (E1 & E2 & E3 & E4). assert (Ki : index_keeps (index st) (index st')) by (unfold index; rewrite E1; exact K).
  assert (Etip : tip st' = tip st) by (unfold tip; rewrite E1, Ech; reflexivity). split; [|split; [exact Etip|exact Ki]].
  split; [|exact (arriving_keeps st st' Har Ki E2)|exact (anchored_links _ _ (keeps_links _ _ Ki) Hanch)]. split.
  - apply (candidates_ok_shrink params TxHash WitnessHash CacheKey VerifyScript AssumedValidBlock MinimumChainWork txs_of st st' H); [rewrite E1; exact Hs|exact Ki|exact E3|].
    intros x bx bx' Ex Ex' Hu. left. destruct (U x bx') as (b0 & E0 & Hb0); [unfold index in Ex'; rewrite E1 in Ex'; exact Ex'|exact Hu|]. change (m_block_index _) with (index st) in E0. congruence.
  - apply (above_shrink st st' Hab Ki); [rewrite E1; exact Ech|exact E3].
  - exists t. split; [congruence|]. apply (covers_shrink params addr st st' t Hc Ki). intros x Hx Hu. destruct (decide (x ∈ cands st')) as [|Hn]; [assumption|].
    destruct (E4 x Hx Hn) as [-> Hr]. destruct (Hf Hr) as (b' & Eb' & Hfb). destruct (Hu h (is_ancestor_refl _ _)) as (b1 & Eb1 & Hf1 & _). unfold index in Eb1. rewrite E1 in Eb1. congruence.
Qed.

(** *** The checks of a block can be evaluated *)

Lemma commitment_index_bound b pos tx txs : vtx b = tx :: txs -> GetWitnessCommitmentIndex b = Some pos -> (pos < length (vout tx))%nat.
Proof.
  intros E. unfold GetWitnessCommitmentIndex. rewrite E. intros Hp.
  assert (H : forall l acc, (forall i o, (i, o) ∈ l -> (i < length (vout tx))%nat) -> (forall i, acc = Some i -> (i < length (vout tx))%nat) ->
    forall i, foldl (fun commitpos (io : nat * CTxOut) => if is_commitment (scriptPubKey io.2) then Some io.1 else commitpos) acc l = Some i -> (i < length (vout tx))%nat).
  { induction l as [|[j o] l IH]; intros acc Hl Ha; [exact Ha|]. cbn [foldl]. apply IH; [intros i o' Hin; apply (Hl i o'), list_elem_of_further, Hin|].
    intros i. cbn. destruct (is_commitment _); [intros [= <-]; apply (Hl j o), list_elem_of_here|apply Ha]. }
  apply (H _ None) with (i := pos) in Hp; [exact Hp| |discriminate]. intros i o Hin. apply elem_of_zip_l in Hin. apply elem_of_seq in Hin. lia.
Qed.
Lemma witness_check_total b expect tx txs txin : vtx b = tx :: txs -> vin tx !! 0%nat = Some txin ->
  exists b' v, CheckWitnessMalleation WitnessHash Hash2 b expect = Some (b', v) /\ (b' = b \/ b' = set_checked_witness b).
Proof.
  intros E Ei. unfold CheckWitnessMalleation. destruct expect; [|eauto]. destruct (m_checked_witness_commitment b); [eauto|].
  destruct (GetWitnessCommitmentIndex b) as [pos|] eqn:Ep; [|eauto]. rewrite E. change ((tx :: txs) !! 0%nat) with (Some tx). cbn [mbind option_bind]. rewrite Ei. cbn [mbind option_bind].
  destruct (scriptWitness txin) as [|reserved [|? ?]]; [eauto| |eauto]. destruct (_ =? 32); [|eauto].
  unfold BlockWitnessMerkleRoot, ComputeMerkleRoot. rewrite E. set (l := 0 :: _). destruct (loop_total Hash2 (length l) l false ltac:(lia)) as [[root mut] ->]. cbn [mbind option_bind].
  destruct (lookup_lt_is_Some_2 (vout tx) pos (commitment_index_bound b pos tx txs E Ep)) as [out ->]. cbn [mbind option_bind]. destruct (negb _); eauto.
Qed.

(** The block passes the check of its witnesses that goes with its parent. *)
Definition witness_ok (m : BlockMap) (b : CBlock) : Prop :=
  exists p e b', m !! p = Some e /\ (p = hdr_hashPrevBlock (header b) \/ exists x, m !! GetHash (header b) = Some x /\ pprev x = Some p) /\
    CheckWitnessMalleation WitnessHash Hash2 b (DeploymentActiveAfter (Some e) params DEPLOYMENT_SEGWIT) = Some (b', Valid).
Lemma contextual_block_total m b p e :
  index_ok m -> m !! p = Some e -> transactions_ok GetHash params b ->
  exists b' v, ContextualCheckBlock params WitnessHash Hash2 m b (Some p) = Some (b', v) /\ (b' = b \/ b' = set_checked_witness b) /\ (v = Valid -> exists b', CheckWitnessMalleation WitnessHash Hash2 b (DeploymentActiveAfter (Some e) params DEPLOYMENT_SEGWIT) = Some (b', Valid)).
Proof.
  intros Hm E [(tx & txs & Etx & Hcb & _) _ _ _ _].
  assert (Hin : exists txin, vin tx !! 0%nat = Some txin) by (unfold IsCoinBase in Hcb; destruct (vin tx) as [|txin ?]; [discriminate|exists txin; reflexivity]). destruct Hin as [txin Ein].
  unfold ContextualCheckBlock. rewrite E. cbn [mbind option_bind]. cbv zeta.
  match goal with |- exists _ _, (?x ≫= _) = _ /\ _ /\ _ => assert (is_Some x) as [cutoff ->] end.
  { destruct (DeploymentActiveAfter _ _ _); [|eauto]. apply (GetMedianTimePast_total m p e Hm E). }
  cbn [mbind option_bind]. destruct (existsb _ _); [eexists _, _; split; [reflexivity|]; split; [auto|discriminate]|].
  match goal with |- exists _ _, (?x ≫= _) = _ /\ _ /\ _ => assert (is_Some x) as [height_ok ->] end.
  { destruct (DeploymentActiveAfter _ _ _); [|eauto]. rewrite Etx. change ((tx :: txs) !! 0%nat) with (Some tx). cbn [mbind option_bind]. rewrite Ein. cbn [mbind option_bind]. eauto. }
  cbn [mbind option_bind]. destruct (negb height_ok); [eexists _, _; split; [reflexivity|]; split; [auto|discriminate]|].
  destruct (witness_check_total b (DeploymentActiveAfter (Some e) params DEPLOYMENT_SEGWIT) tx txs txin Etx Ein) as (b' & v & Ew & Hb). rewrite Ew. cbn [mbind option_bind].
  destruct v; [|eexists _, _; split; [reflexivity|]; split; [exact Hb|discriminate]].
  destruct (_ >? _); [|destruct (_ >? _)]; eexists _, _; (split; [reflexivity|]); (split; [exact Hb|]); try discriminate. intros _. exists b'. reflexivity.
Qed.

(** *** Storing a block *)

Abbreviation flags_true := (flags_ok EnableFuzzDeterminism GetHash PoWHash params TxHash Hash2).
Abbreviation accept := (AcceptBlock EnableFuzzDeterminism GetHash PoWHash params TxHash WitnessHash Hash2 MinimumChainWork addr).

(** What the arrival of a block with header [hd] may change, besides its own
    entry, which has data only when the block was written. *)
Record block_step st st' (hd : CBlockHeader) (written : Prop) : Prop := {
  bp_node : node_ok st';
  bp_tip : tip st' = tip st;
  bp_entry : forall x b', index st' !! x = Some b' ->
    (exists b, index st !! x = Some b /\ nHeight b' = nHeight b /\ (have_data b' = true -> have_data b = true \/ (x = GetHash hd /\ written))) \/
    (x = GetHash hd /\ (have_data b' = true -> written) /\ exists pb, index st !! hdr_hashPrevBlock hd = Some pb /\ nHeight b' = nHeight pb + 1);
  bp_size : (base.size (index st') <= S (base.size (index st)))%nat
}.
Lemma header_block_step st st' hd w : header_step st st' hd -> block_step st st' hd w.
Proof.
  intros [H1 H2 H3 H4 H5]. split; [exact H1|exact H4| |exact H5]. intros x b' E. destruct (H3 x b' E) as [E0|(-> & Hd & _ & pb & Epb & Hp & _)]; [left; eauto|right].
  split; [reflexivity|]. split; [congruence|eauto].
Qed.
Lemma size_back (m m' : BlockMap) : (forall x b', m' !! x = Some b' -> is_Some (m !! x)) -> (base.size m' <= base.size m)%nat.
Proof.
  intros H. rewrite <- (size_dom (D := gset Z) m), <- (size_dom (D := gset Z) m'). apply subseteq_size. intros x. rewrite !elem_of_dom. intros [b' E]. apply (H x b' E).
Qed.
Lemma block_step_trans st st1 st' hd (w : Prop) :
  header_step st st1 hd -> node_ok st' -> tip st' = tip st1 ->
  (forall x b', index st' !! x = Some b' -> exists b, index st1 !! x = Some b /\ nHeight b' = nHeight b /\ (have_data b' = true -> have_data b = true \/ (x = GetHash hd /\ w))) ->
  block_step st st' hd w.
Proof.
  intros [H1 H2 H3 H4 H5] Hn Ht He. split; [exact Hn|congruence| |].
  - intros x b' E. destruct (He x b' E) as (b & Eb & Hh & Hd). destruct (H3 x b Eb) as [E0|(-> & Hnd & _ & pb & Epb & Hpb & _)]; [left; eauto|right].
    split; [reflexivity|]. split; [|exists pb; split; [exact Epb|lia]]. intros Hb. destruct (Hd Hb) as [|[_ Hw]]; [congruence|exact Hw].
  - etransitivity; [|exact H5]. apply size_back. intros x b' E. destruct (He x b' E) as (b & Eb & _). eauto.
Qed.

Lemma AcceptBlock_spec st block fRequested mpc now now' write :
  node_ok st -> header_fits GetHash params (index st) (header block) -> flags_true block -> fChecked block = true -> size (vtx block) < 2 ^ 32 ->
  exists st' block' a, accept st block fRequested mpc now now' write = Some (st', block', a) /\ block_step st st' (header block) (is_Some write /\ witness_ok (index st) block) /\
    (block' = block \/ block' = set_checked_witness block).
Proof using Hasert.
  intros H F Hfl Hck Hlen. destruct (accept_header st (header block) mpc now now' H F) as (man & pi & v & E & Hst & Hv). unfold AcceptBlock. rewrite E. cbn [mbind option_bind]. cbv zeta.
  set (st1 := set_man st man) in *. pose proof (hs_node _ _ _ Hst) as H1. destruct v as [|r reason].
  2: { eexists _, _, _. split; [reflexivity|]. split; [apply header_block_step, Hst|auto]. }
  destruct (Hv eq_refl) as [-> [b Eb]]. cbn [mbind option_bind]. rewrite Eb. cbn [mbind option_bind].
  destruct (rd_covers _ _ _ _ _ _ _ _ _ _ (no_ready _ H1)) as (t & Et & (bt & Ebt & _) & _). rewrite Et, Ebt. cbn [mbind option_bind].
  change (negb (Z.land (nStatus b) BLOCK_HAVE_DATA =? 0)) with (have_data b). destruct (have_data b) eqn:Hd.
  { eexists _, _, _. split; [reflexivity|]. split; [apply header_block_step, Hst|auto]. }
  destruct (negb fRequested && _). { eexists _, _, _. split; [reflexivity|]. split; [apply header_block_step, Hst|auto]. }
  pose proof (no_arriving _ H1) as Har. destruct (pprev b) as [p|] eqn:Ep.
  2: { pose proof (ar_root _ _ Har _ b Eb Ep) as Hn. destruct (ar_linked _ _ Har _ b Eb Hn). congruence. }
  destruct (eo_link _ _ _ (no_index _ H1 _ b Eb) p Ep) as (pb & Epb & _).
  destruct (fo_checked _ _ _ _ _ _ _ Hfl Hck) as (_ & _ & Htx). unfold check_all, CheckBlock. rewrite Hck. cbn [mbind option_bind].
  destruct (contextual_block_total (index st1) block p pb (no_index _ H1) Epb Htx) as (block' & v & -> & Hb' & Hwit). cbn [mbind option_bind].
  assert (Hw : (exists b', CheckWitnessMalleation WitnessHash Hash2 block (DeploymentActiveAfter (Some pb) params DEPLOYMENT_SEGWIT) = Some (b', Valid)) -> witness_ok (index st) block).
  { intros [b' Ew]. exists p, pb, b'. destruct (hs_new _ _ _ Hst _ b Eb) as [E0|(_ & _ & _ & pb' & Epb' & _ & Ep')].
    - destruct (eo_link _ _ _ (no_index _ H _ b E0) p Ep) as (pb' & Epb' & _). rewrite (hs_keeps _ _ _ Hst _ _ Epb') in Epb. injection Epb as ->. eauto 8.
    - rewrite Ep in Ep'. injection Ep' as ->. rewrite (hs_keeps _ _ _ Hst _ _ Epb') in Epb. injection Epb as ->. auto. }
  assert (Evtx : vtx block' = vtx block) by (destruct Hb' as [-> | ->]; reflexivity). destruct v as [|r reason].
  - destruct write as [pos|]; [|eexists _, _, _; split; [reflexivity|]; split; [apply header_block_step, Hst|exact Hb']].
    destruct (ReceivedBlockTransactions_spec params TxHash WitnessHash CacheKey VerifyScript AssumedValidBlock MinimumChainWork txs_of addr st1 (size (vtx block')) _ b pos
      (no_ready _ H1) Har Eb Hd) as (st' & -> & Hr' & Har' & At & _ & Ai).
    { rewrite Evtx. destruct Htx as [(tx & txs & -> & _) _ _ _ _] in Hlen |- *. unfold size in *. cbn [length] in *. lia. }
    cbn [mbind option_bind]. eexists _, _, _. split; [reflexivity|]. split; [|exact Hb']. apply (block_step_trans st st1 st' _ _ Hst); [split; [exact Hr'|exact Har'|]|exact At|].
    + apply (anchored_links (index st1)); [|apply (no_anchored _ H1)]. intros x b' Ex. destruct (Ai x b' Ex) as (b0 & E0 & L & _). eauto.
    + intros x b' Ex. destruct (Ai x b' Ex) as (b0 & E0 & (_ & _ & _ & Lh & _) & _ & _ & D). exists b0. split; [exact E0|]. split; [exact Lh|]. intros Hb.
      rewrite D in Hb. destruct (bool_decide_reflect (x = GetHash (header block))); [right|left; exact Hb]. split; [assumption|]. split; [eauto|exact (Hw (Hwit eq_refl))].
  - destruct (refuse_spec st1 _ b r H1 Eb) as (st' & -> & Hn & Ht & Ki). cbn [mbind option_bind]. eexists _, _, _. split; [reflexivity|]. split; [|exact Hb'].
    apply (block_step_trans st st1 st' _ _ Hst Hn Ht). intros x b' Ex. destruct (index_keeps_back _ _ _ _ Ki Ex) as (b0 & E0 & Kb). exists b0. split; [exact E0|].
    pose proof (ek_links _ _ Kb) as (_ & _ & _ & Lh & _). split; [exact Lh|]. rewrite (ek_data _ _ Kb). auto.
Qed.

(** *** Processing a block *)

Context (Hqueue : forall l, completes (run_check VerifyScript) l (Complete l)).
Context (Hsubsidy : forall h, 0 <= h -> 0 <= GetBlockSubsidy h params <= MAX_MONEY).
Context (read : Z -> option CBlock) (flush : CCoinsViewCache B -> option (CCoinsViewCache B)) (undo_io : Z -> option Z) (read_ok : Z -> bool).
Context (Hread : read_law EnableFuzzDeterminism GetHash PoWHash params TxHash Hash2 txs_of read) (Hflush : flush_law flush).
Context (K : nat).
Abbreviation process := (ProcessNewBlock EnableFuzzDeterminism GetHash PoWHash params TxHash WitnessHash Hash2 CacheKey VerifyScript
  AssumedValidBlock MinimumChainWork HasThreads Complete addr read flush undo_io read_ok).
Abbreviation checkBlock := (CheckBlock EnableFuzzDeterminism GetHash PoWHash params TxHash Hash2).
Abbreviation readable := (files_ok EnableFuzzDeterminism GetHash PoWHash params TxHash Hash2 read flush undo_io read_ok).

(** What is assumed of a block from the network.  The memos of its checks are
    true; it fits the memory; two of its transactions with one id spend the
    same coins; and when its transactions match the Merkle root and its
    witnesses the commitment to them, or when the data of its hash are stored
    already, its transactions are those of its hash.  Without a collision of a
    hash the first three cannot fail, nor the last one for a block that is
    not yet stored: whoever exchanges transactions or witnesses breaks the
    root or the commitment. *)
Record incoming (m : BlockMap) (block : CBlock) : Prop := {
  in_flags : flags_true block;
  in_sizes : Forall (fun tx => size (vout tx) <= 2 ^ 32) (vtx block);
  in_count : size (vtx block) < 2 ^ 32;
  in_ids : ids_bind_inputs TxHash (vtx block);
  in_txs : merkle_ok TxHash Hash2 block ->
    witness_ok m block \/ (exists b, m !! GetHash (header block) = Some b /\ have_data b = true) ->
    vtx block = txs_of (GetHash (header block))
}.
(** It is not higher than [K], and the turns are enough when it is new. *)
Record bounded (m : BlockMap) (hd : CBlockHeader) (fuel : nat) : Prop := {
  bd_heights : heights_below K m;
  bd_parent : forall pb, m !! hdr_hashPrevBlock hd = Some pb -> nHeight pb + 1 <= Z.of_nat K;
  bd_fuel : (S (base.size m) * (K + 2) + K + 2 < fuel)%nat
}.

Lemma checked_flag b b' : checkBlock b true true = Some (b', Valid) -> fChecked b' = true.
Proof.
  unfold CheckBlock. destruct (fChecked b) eqn:Ef; [intros [= <-]; exact Ef|]. destruct (CheckBlockHeader _ _ _ _ _ _); [|discriminate].
  destruct (CheckMerkleRoot _ _ _) as [[b1 v]|]; [|discriminate]. cbn [mbind option_bind]. destruct v; [|discriminate].
  destruct (CheckBlock_transactions _ _ _) as [v|]; [|discriminate]. cbn [mbind option_bind]. destruct v; [|discriminate]. intros [= <-]. reflexivity.
Qed.
(** The check of the witnesses does not look at the other memos. *)
Lemma malleation_memo b b' expect b1 :
  vtx b' = vtx b -> m_checked_witness_commitment b' = m_checked_witness_commitment b -> CheckWitnessMalleation WitnessHash Hash2 b' expect = Some (b1, Valid) ->
  exists b2, CheckWitnessMalleation WitnessHash Hash2 b expect = Some (b2, Valid).
Proof.
  intros Ev Ec E. unfold CheckWitnessMalleation, GetWitnessCommitmentIndex, BlockWitnessMerkleRoot, unexpected_witness in *. rewrite Ev, Ec in E.
  destruct expect; [|injection E as _ E; rewrite E; eauto]. destruct (m_checked_witness_commitment b); [eauto|].
  match type of E with (match ?x with Some _ => _ | None => _ end) = _ => destruct x as [pos|] end; [|injection E as _ E; rewrite E; eauto].
  destruct (vtx b !! 0%nat) as [tx|]; [|discriminate]. cbn [mbind option_bind] in *. destruct (vin tx !! 0%nat) as [txin|]; [|discriminate]. cbn [mbind option_bind] in *.
  destruct (scriptWitness txin) as [|reserved [|? ?]]; try discriminate. destruct (_ =? 32); [|discriminate].
  match type of E with (?x ≫= _) = _ => destruct x as [root|]; [|discriminate] end. cbn [mbind option_bind] in *.
  destruct (vout tx !! pos) as [o|]; [|discriminate]. cbn [mbind option_bind] in *. destruct (negb _); [discriminate|eauto].
Qed.
Lemma witness_ok_memo m b b' : same_block b b' -> m_checked_witness_commitment b' = m_checked_witness_commitment b -> witness_ok m b' -> witness_ok m b.
Proof.
  intros [Eh Ev] Ec (p & e & b1 & Ep & Hp & E). rewrite Eh in Hp. destruct (malleation_memo b b' _ b1 Ev Ec E) as [b2 E2]. exists p, e, b2. auto.
Qed.
Lemma CheckBlock_witness_memo b b' v : checkBlock b true true = Some (b', v) -> m_checked_witness_commitment b' = m_checked_witness_commitment b.
Proof.
  unfold CheckBlock. destruct (fChecked b); [intros [= <- _]; reflexivity|]. destruct (CheckBlockHeader _ _ _ _ _ _); [|intros [= <- _]; reflexivity].
  destruct (CheckMerkleRoot _ _ _) as [[b1 v1]|] eqn:E; [|discriminate]. cbn [mbind option_bind].
  assert (H1 : m_checked_witness_commitment b1 = m_checked_witness_commitment b).
  { revert E. unfold CheckMerkleRoot. destruct (m_checked_merkle_root b); [intros [= <- _]; reflexivity|]. destruct (BlockMerkleRoot _ _ _) as [[root mut]|]; [|discriminate].
    cbn [mbind option_bind]. destruct (negb _); [intros [= <- _]; reflexivity|]. destruct mut; intros [= <- _]; reflexivity. }
  destruct v1; [|intros [= <- _]; exact H1].
  destruct (CheckBlock_transactions _ _ _) as [v2|]; [|discriminate]. cbn [mbind option_bind]. destruct v2; intros [= <- _]; exact H1.
Qed.
Lemma checked_intact b : fChecked b = true -> ~ corrupt EnableFuzzDeterminism GetHash PoWHash params TxHash Hash2 b.
Proof. intros Ef (b' & reason & E). unfold CheckBlock in E. rewrite Ef in E. discriminate. Qed.
Lemma witness_flag b : flags_true b -> flags_true (set_checked_witness b).
Proof.
  intros [H1 H2]. assert (Hs : same_block b (set_checked_witness b)) by (split; reflexivity).
  destruct (same_block_ok EnableFuzzDeterminism GetHash PoWHash params TxHash Hash2 _ _ Hs) as (S1 & S2 & S3).
  split; [intros Hm; apply S2, H1, Hm|]. intros Hc. destruct (H2 Hc) as (G1 & G2 & G3). split; [apply S1, G1|]. split; [apply S2, G2|apply S3, G3].
Qed.
Lemma step_heights st st' hd w fuel : block_step st st' hd w -> bounded (index st) hd fuel -> heights_below K (index st') /\ enough_fuel K (index st') fuel.
Proof.
  intros [_ _ He Hs] [B1 B2 B3]. split; [|unfold enough_fuel; nia]. intros x b' E. destruct (He x b' E) as [(b & Eb & -> & _)|(_ & _ & pb & Epb & ->)]; [apply (B1 x b Eb)|apply (B2 pb Epb)].
Qed.
Lemma step_files st st' hd w :
  block_step st st' hd w -> readable (index st) ->
  (w -> exists block, read (GetHash hd) = Some block /\ ~ corrupt EnableFuzzDeterminism GetHash PoWHash params TxHash Hash2 block) -> readable (index st').
Proof.
  intros [_ _ He _] [F1 F2 F3] Hw. split; [exact F1|exact F2|]. intros x b' E Hd Hg. destruct (He x b' E) as [(b & Eb & _ & Hb)|(-> & Hb & _)]; [|exact (Hw (Hb Hd))].
  destruct (Hb Hd) as [Hb'|[-> Hw']]; [apply (F3 x b Eb Hb' Hg)|exact (Hw Hw')].
Qed.
(** What [ActivateBestChain] keeps. *)
Lemma activated_node st st' :
  node_ok st -> goes params TxHash WitnessHash CacheKey VerifyScript AssumedValidBlock MinimumChainWork txs_of addr st st' -> final addr st' -> steady genesis (index st') ->
  node_ok st' /\ exists t, tip st' = Some t /\ forall h, usable (index st') h -> worse addr (index st') t h = false.
Proof.
  intros H G Hf Hst. pose proof (go_index _ _ _ _ _ _ _ _ _ _ _ G) as Ki. pose proof (go_stable _ _ _ _ _ _ _ _ _ _ _ G) as Hsb.
  destruct (final_best params TxHash WitnessHash CacheKey VerifyScript AssumedValidBlock MinimumChainWork txs_of addr st' Hsb Hf Hst) as (t & Et & Hc & Hb). split; [|eauto]. split.
  - split; [apply Hsb|apply Hsb|eauto].
  - apply (arriving_keeps st st' (no_arriving _ H) Ki), (go_unlinked _ _ _ _ _ _ _ _ _ _ _ G), arriving_complete; [apply no_ok, H|apply H].
  - apply (anchored_links _ _ (keeps_links _ _ Ki)), H.
Qed.

(** What a call must leave behind.  When it returns [true] the invariant holds
    and no usable block is better than the tip; when it returns [false] although
    the files can be read and written, the invariant holds and the tip is the
    one before.  Transactions that do not match the Merkle root change nothing:
    the hash they came with is not rejected. *)
Record processed st (block : CBlock) (write : option (Z * Z)) st' (ok : bool) : Prop := {
  pr_true : ok = true -> steady genesis (index st') ->
    node_ok st' /\ exists t, tip st' = Some t /\ forall h, usable (index st') h -> worse addr (index st') t h = false;
  pr_false : ok = false -> readable (index st) ->
    (is_Some write -> exists b, read (GetHash (header block)) = Some b /\ ~ corrupt EnableFuzzDeterminism GetHash PoWHash params TxHash Hash2 b) ->
    node_ok st' /\ tip st' = tip st;
  pr_mutated : ~ merkle_ok TxHash Hash2 block -> st' = st /\ ok = false
}.

(** C2: [ProcessNewBlock] returns, whatever the target and time its header
    declares, whether or not its transactions or their witnesses were
    exchanged, and even when some are repeated.  When it returns [true],
    and no block of an earlier active chain has been rejected, the invariant of
    the node holds again and no block whose branch is complete and not known to
    be invalid is better than the tip.  When it returns [false] and the disk
    works, the block or its header broke a rule: the invariant holds again and
    the tip has not moved.  A block whose transactions were exchanged leaves
    the state as it was, so that the right one can still be accepted.

    What is assumed.  Of the node: its invariant, and that height and work of
    the parent are not at the end of their ranges.  Of the block
    ([incoming], [header_fits]): the fields have their widths and the memos of
    its checks are true; two of its transactions with one id spend the same
    coins, and transactions and witnesses that match the Merkle root and the
    commitment are the ones of that hash, both of which only a collision
    breaks; the same of a block whose hash is already stored, where the code
    does not look at the commitment again; and its hash is none of four
    special values. [fuel] allows as many turns as the size of the index and the
    height [K] of its highest block bound. *)
Theorem new_block_processed st block fuel force_processing mpc clock write :
  node_ok st -> incoming (index st) block -> header_fits GetHash params (index st) (header block) -> bounded (index st) (header block) fuel ->
  exists st' ok, process fuel st block force_processing mpc clock write = Some (st', ok) /\
    processed st block write st' ok.
Proof using Hasert Hqueue Hsubsidy Hread Hflush.
  intros H [I1 I2 I3 I5 I4] F Hb. unfold ProcessNewBlock. destruct clock as [[now now1] now2]. destruct (too_new _ _); [exists st, false; split; [reflexivity|]; split; [discriminate|auto|auto]|].
  destruct (CheckBlock_spec EnableFuzzDeterminism GetHash PoWHash params TxHash Hash2 block true true) as (block1 & v & E1 & [S1 S2] & Hfl & Hv); [|exact I1|].
  { eapply Forall_impl; [exact I2|]. cbn. intros tx Htx. lia. }
  rewrite E1. cbn [mbind option_bind]. destruct v as [|r reason]; [|exists st, false; split; [reflexivity|]; split; [discriminate|auto|auto]].
  destruct (proj1 Hv eq_refl) as (_ & Hmr & _). specialize (Hmr eq_refl). pose proof (I4 Hmr) as T1. pose proof (checked_flag _ _ E1) as Hck.
  destruct (AcceptBlock_spec st block1 force_processing mpc now1 now2 write H) as (st1 & block2 & a & -> & Hstep & Hb2); [rewrite S1; exact F|exact Hfl|exact Hck|rewrite S2; exact I3|].
  cbn [mbind option_bind]. rewrite S1 in Hstep.
  assert (header block2 = header block /\ vtx block2 = vtx block /\ flags_true block2 /\ fChecked block2 = true) as (G1 & G2 & G3 & Hck2).
  { destruct Hb2 as [-> | ->]; [auto|]. split; [exact S1|]. split; [exact S2|]. split; [apply witness_flag, Hfl|exact Hck]. }
  assert (Hof : given_ok EnableFuzzDeterminism GetHash PoWHash params TxHash Hash2 txs_of (Some block2) st1).
  { intros bk b' [= <-] Eb' Hd. split; [reflexivity| |exact G3|rewrite G2; exact I2|rewrite G2; exact I5]. rewrite G1, G2 in *. apply T1.
    assert (Hw : is_Some write /\ witness_ok (index st) block1 -> witness_ok (index st) block)
      by (intros [_ Hw]; exact (witness_ok_memo _ block block1 (conj S1 S2) (CheckBlock_witness_memo _ _ _ E1) Hw)).
    destruct (bp_entry _ _ _ _ Hstep _ b' Eb') as [(b0 & E0 & _ & Hb0)|(_ & Hb0 & _)]; [|left; exact (Hw (Hb0 Hd))].
    destruct (Hb0 Hd) as [Hd0|[_ Hw0]]; [right; eauto|left; exact (Hw Hw0)]. }
  assert (Hact : exists st' ok, ActivateBestChain EnableFuzzDeterminism GetHash PoWHash params TxHash WitnessHash Hash2 CacheKey VerifyScript
      AssumedValidBlock MinimumChainWork HasThreads Complete addr read flush undo_io read_ok fuel (Some block2) st1 = Some (st', ok) /\
    processed st block write st' ok).
  { destruct (step_heights _ _ _ _ _ Hstep Hb) as [HK Hfu]. pose proof (bp_node _ _ _ _ Hstep) as H1.
    destruct (ActivateBestChain_spec EnableFuzzDeterminism GetHash PoWHash params TxHash WitnessHash Hash2 CacheKey VerifyScript AssumedValidBlock MinimumChainWork HasThreads Complete
      txs_of addr Hqueue Hsubsidy read flush undo_io read_ok Hread Hflush K (Some block2) st1 fuel (ready_stable _ _ _ _ _ _ _ _ _ _ (no_ready _ H1)) Hof HK Hfu)
      as (st' & ok & E & Hok & Hno).
    exists st', ok. split; [exact E|]. split; [intros Ho; destruct (Hok Ho) as [G Hf]; apply (activated_node st1 st' H1 G Hf)| |contradiction].
    intros Ho Hfi Hw. exfalso. apply (Hno Ho (step_files _ _ _ _ Hstep Hfi ltac:(intros [Hwr _]; exact (Hw Hwr)))). intros b [= <-]. apply checked_intact, Hck2. }
  assert (Hend : exists st' ok, Some (st1, false) = Some (st', ok) /\
    processed st block write st' ok).
  { exists st1, false. split; [reflexivity|]. split; [discriminate| |contradiction]. intros _ _ _. split; [apply Hstep|apply Hstep]. }
  destruct a; [exact Hact|exact Hact|exact Hend|exact Hend].
Qed.
End Node.

(** ** A block of the small node *)

Module ProcessDemo.
Import NodeDemo TipDemo.
Abbreviation node := (node_ok (B := CCoinsViewDB) (C := CuckooCache.cache) CMainParams Demo.TxHash Demo.TxHash Z.add Demo.VerifyScript 0 zero txs_of addr).
Abbreviation process := (ProcessNewBlock false GetHash Demo.PoWHash CMainParams Demo.TxHash Demo.TxHash Demo.Hash2 Z.add Demo.VerifyScript
  0 zero false Demo.Complete addr read flush undo_io read_ok).

Lemma start_node : node start.
Proof.
  split; [exact start_ready|exact start_arriving|]. intros g E.
  assert (H : nBits <$> index start !! genesis = Some 0x1e0fffff) by (vm_compute; reflexivity). change (index start !! genesis = Some g) in E. rewrite E in H. cbn [fmap option_fmap option_map] in H.
  apply (inj Some) in H. unfold anchor_ok. rewrite H. vm_compute. split; discriminate.
Qed.
Lemma block1_incoming : incoming false GetHash Demo.PoWHash CMainParams Demo.TxHash Demo.TxHash Demo.Hash2 txs_of (index start) block1.
Proof.
  split; [split; discriminate|repeat constructor; discriminate|reflexivity| |reflexivity]. apply ids_bind_NoDup, (bool_decide_unpack _). vm_compute. exact I.
Qed.
Lemma start_parent pb : index start !! genesis = Some pb -> nHeight pb = 0 /\ val (nChainWork pb) < 2 ^ 255.
Proof.
  intros E. assert (H : (fun b => (nHeight b, val (nChainWork b) <? 2 ^ 255)) <$> index start !! genesis = Some (0, true)) by (vm_compute; reflexivity).
  rewrite E in H. cbn [fmap option_fmap option_map] in H. apply (inj Some) in H. injection H as H1 H2. split; [exact H1|apply Z.ltb_lt, H2].
Qed.
Lemma block1_fits : header_fits GetHash CMainParams (index start) (header block1).
Proof.
  split; [|unfold hash_ok; apply (bool_decide_unpack _); vm_compute; exact I|].
  - vm_compute. repeat split; discriminate.
  - intros pb E. destruct (start_parent pb E) as [H1 H2]. split; [lia|exact H2].
Qed.
Lemma start_bounded : bounded 2 (index start) (header block1) 40.
Proof.
  split.
  - intros h b E. destruct (start_facts h b E) as (_ & _ & _ & _ & _ & H). exact H.
  - intros pb E. destruct (start_parent pb E) as [H1 _]. lia.
  - assert (base.size (index start) = 3%nat) as -> by (vm_compute; reflexivity). lia.
Qed.
Definition outcome (x : option (BestState (B := CCoinsViewDB) (C := CuckooCache.cache) * bool)) : option (option Z * bool) :=
  match x with Some y => Some (tip (fst y), snd y) | None => None end.
Lemma block1_outcome : outcome (process 40 start block1 true true (1000, 1000, 1000) (Some (0, 300))) = Some (Some 1001, true).
Proof. vm_compute. reflexivity. Qed.
Lemma outcome_some x y : x = Some y -> outcome x = Some (tip (fst y), snd y).
Proof. intros ->. reflexivity. Qed.
End ProcessDemo.

(** The block becomes the tip, and no usable block is better. *)
Lemma new_block_processed_witness :
  exists st1, ProcessDemo.process 40 NodeDemo.start TipDemo.block1 true true (1000, 1000, 1000) (Some (0, 300)) = Some (st1, true) /\ tip st1 = Some 1001 /\
    (steady TipDemo.genesis (index st1) -> ProcessDemo.node st1 /\ forall h, usable (index st1) h -> worse NodeDemo.addr (index st1) 1001 h = false).
Proof.
  destruct (new_block_processed false TipDemo.GetHash Demo.PoWHash CMainParams Demo.TxHash Demo.TxHash Demo.Hash2 Z.add Demo.VerifyScript 0 zero false Demo.Complete
    TipDemo.txs_of NodeDemo.addr CMainParams_asert_chain Demo.Complete_law TipDemo.subsidies TipDemo.read TipDemo.flush NodeDemo.undo_io NodeDemo.read_ok
    TipDemo.read_is_lawful TipDemo.flush_is_lawful 2 NodeDemo.start TipDemo.block1 40 true true (1000, 1000, 1000) (Some (0, 300))
    ProcessDemo.start_node ProcessDemo.block1_incoming ProcessDemo.block1_fits ProcessDemo.start_bounded) as (st1 & ok & E & [P1 _ _]).
  pose proof ProcessDemo.block1_outcome as Ho. rewrite (ProcessDemo.outcome_some _ _ E) in Ho. injection Ho as Ht Hok. cbn [fst snd] in Ht, Hok. subst ok.
  exists st1. split; [exact E|]. split; [exact Ht|]. intros Hst. destruct (P1 eq_refl Hst) as (Hn & t & Et & Hb). split; [exact Hn|]. rewrite Ht in Et. injection Et as <-. exact Hb.
Defined.
